(* ===== verification/_CoqProject ===== *)
-Q . S2P
Prelude.v
Order.v
Binding.v
Ticket.v
Batch.v
F64.v
Permissions.v
Glob.v
Granter.v
Autonomy.v
Release.v
RateLimit.v
NetFloor.v
Paths.v
PathFloor.v
Egress.v
Toctou.v
Worker.v
Review.v
Json.v
Merkle.v
Ipc.v
TaskLedger.v
Capability.v
Registry.v
Fleet.v
Pool.v
CoreGates.v
LeaseTypes.v
Lease.v
LeaseFacts.v
WorkTypes.v
WorkEvents.v
Work.v
WorkOps.v
WorkRuntime.v
WorkDelegation.v
WorkLog.v
WorkFacts.v
WorkReplay.v
WorkReopen.v
WorkAuthority.v
WorkGraph.v
Execution.v
ExecutionRecover.v
ExecutionFacts.v
ExecutionRecoverFacts.v
Cua.v
CuaFacts.v
Cron.v
CronFacts.v
Revision.v
RevisionFacts.v
Scheduler.v
SchedulerOps.v
SchedulerAdmit.v
SchedulerFacts.v
SchedulerProps.v
Sync.v
SyncFacts.v
TurnSnapshot.v
TurnSnapshotFacts.v
Dag.v
Blueprint.v
BlueprintFacts.v
Workflow.v
WorkflowFacts.v
Reversible.v
ReversibleFacts.v
Orchestra.v
OrchestraFacts.v
AuditLog.v
AuditLogFacts.v
Replay.v
Redact.v
Spool.v
SpoolFacts.v
Bridge.v
