(* ===== verification/Prelude.v ===== *)
(** * The trust plane of EveryAIOS, verified

    EveryAIOS is a desktop agent kernel: a coordinator proposes actions, and a
    deterministic Rust core decides which may run, under which authority, and
    what is recorded about them. This development models that deciding core:
    the crate [everyaios-guard]; the parts of [everyaios-audit] and
    [everyaios-ipc] that keep its evidence; from [everyaios-core] the
    journal-backed gateway of Works and Runs with the leases, ledgers and
    governors around it, the execution kernel, the trigger plane, device sync,
    turn snapshots and the spool of tool output; the engines of
    [everyaios-blueprint]; and the permission bridge of [everyaios-acp], with
    the shared vocabulary of [everyaios-types]. Paths below are relative to
    [src/crates/].

    ** How the parts interact

    A proposed action is classified ([autonomy.rs], [permissions.rs],
    [approval_policy.rs]), checked against the floors ([pathfloor.rs],
    [urlfloor.rs], [netfloor.rs], [ratelimit.rs]), and bound to a ticket
    ([ticket.rs], [batch.rs]) that a human or a policy approves. The executor
    re-checks the bound resources ([toctou.rs]), consumes the ticket, and acts
    through a capability that was granted ([granter.rs]) and resolved to a
    provider ([capability_broker.rs]). What leaves the machine passes
    [release.rs] and [egress.rs]; what happened is chained by [merkle.rs],
    kept in the session log and the audit log ([session_log.rs], [lib.rs]),
    travels over the frames of [everyaios-ipc], and long work is kept in
    [task_ledger.rs].

    What runs is a Work of [work_gateway.rs]: every change of a Work, its Runs,
    waits, approvals, effects and children is one event of an append-only
    journal, and the gateway's projections are rebuilt from it. Exclusive use
    of a resource is a fenced lease of [workbench.rs], which the gateway also
    uses for delegated children; how much runs at once is the governor's
    ([governor.rs]) and the worker pool's ([worker_pool.rs]). The execution
    kernel ([execution.rs]) is the projection of Runs the relay dispatches
    from; it is recovered from the gateway's journal, and one Run may carry a
    computer-use graph ([cua.rs]) whose nodes end by evidence only.

    Work is started by triggers: an automation is a content-addressed revision
    ([automation_runtime.rs]) that compiles to a Work, and the scheduler
    ([scheduler_service.rs]) admits each firing once, as an occurrence that
    advances by receipts. Inside a Work, [everyaios-blueprint] orders what is
    to be done: plans whose tasks end by an outcome check ([blueprint.rs],
    [verify/]), workflows with retries ([workflow.rs]), change sets that are
    committed, recovered or imported ([change_set.rs]), and fleets of agents
    ([subagent.rs], [swarm.rs], [kanban.rs], [iteration.rs]). What a step does
    to files is captured before it and can be rolled back
    ([turn_snapshot.rs]); what devices share is reconciled and sealed by
    [sync.rs]. What a tool answers is kept whole under its digest and quoted in
    a redacted preview ([spool.rs]); what a foreign agent asks for becomes a
    card with a redacted preview, and the answer is one of its own options,
    backed by a ticket of the store ([permission_bridge.rs]).

    ** Files

    - [Prelude]: [Ok]/[Err] and the [?] notation, machine integers, byte
      strings and their parsing, the hash interface [Sha256] and the framing
      lemma behind every "equal hashes mean equal fields" argument.
    - [Order]: the byte order of [str], [slice::sort_by] as a stable sort,
      iteration of [BTreeMap]/[BTreeSet], and [HashIter], the order in which a
      hash map is walked.
    - [F64]: [f64] as the executable IEEE-754 specification.
    - [Binding], [Ticket] ([everyaios-guard/src/ticket.rs], data of
      [toctou.rs]): the ticket record, [TicketStore] as a [gmap] with its
      receipts, one function per method, runs as lists of operations.
    - [Batch] ([batch.rs]): one approval for an exact change set.
    - [Permissions] ([permissions.rs]), [Glob] ([approval_policy.rs] and the
      matcher of [granter.rs]), [Granter] ([granter.rs]).
    - [Autonomy] ([autonomy.rs], [profiles.rs], [floors.rs], [structural.rs],
      [loopguard.rs]), [Release] ([release.rs]).
    - [RateLimit] ([ratelimit.rs]): token buckets in [f64]; the hash map's
      iteration order is an argument of every call.
    - [NetFloor] ([netfloor.rs]), [Paths] and [PathFloor] ([pathfloor.rs],
      [protected_paths.rs]), [Egress] ([urlfloor.rs], [egress.rs]), [Toctou]
      ([toctou.rs]).
    - [Worker] ([path_seal.rs], [seccomp.rs]), [Review] ([reviewer.rs],
      [ecc.rs]).
    - [Merkle] ([everyaios-audit/src/merkle.rs]), [AuditLog] ([session_log.rs],
      [repair.rs], the writer of [lib.rs], [retention.rs]), [AuditLogFacts], [Replay]
      ([replay.rs]); [Ipc]
      ([everyaios-ipc/src/frame.rs], [handle.rs], [budget.rs]).
    - [TaskLedger] ([everyaios-core/src/task_ledger.rs]).
    - [Capability] ([capability_contract.rs]), [Registry]
      ([capability_broker.rs]).
    - [Fleet] ([governor.rs]), [Pool] ([worker_pool.rs]), [CoreGates]
      ([worktree_cap.rs], [pairing.rs], [hooks.rs], [combos.rs],
      [dns_cache.rs], [decline.rs], [routing.rs]).
    - [Json]: [serde_json::Value] and its objects, with concrete codecs
      for the witnesses. [LeaseTypes] ([everyaios-types/src/workbench.rs]), [Lease]
      ([workbench.rs]: the coordinator), [LeaseFacts]: what it guarantees.
    - [WorkTypes] ([everyaios-types/src/lib.rs], [delegation.rs],
      [turn_snapshot.rs]): states, waits, bindings, change sets. [WorkEvents]
      (addresses, provenance, locators and the events of [work_gateway.rs]).
    - [Work]: the record [WorkGateway] with one setter per field, the monad
      of its methods, [append], [replay_event], [open]; [WorkOps] (creation,
      Runs, waits, approvals, effects, archival), [WorkRuntime] (terminals,
      worktrees, sessions, bindings, clients, reviews, nodes, run authority,
      capability ranking), [WorkDelegation] (children, cycles, change sets,
      delegation leases, heartbeats, the sweep).
    - [WorkLog], [WorkFacts]: a logic of preservation over the monad and the
      durability of what is acknowledged, for every operation, with the
      sequences of operations whose journal does not open. [WorkReplay],
      [WorkReopen]: the reopened gateway refines the live one.
      [WorkAuthority]: the fence of a Run. [WorkGraph]: depth and cycles.
    - [Execution] ([execution.rs]: phases, Run records and the calls;
      [worktrees.rs]), [ExecutionRecover] (its recovery from the Work journal),
      [ExecutionFacts], [ExecutionRecoverFacts]. [Cua], [CuaFacts] ([cua.rs]
      and the [execution/cua_*] calls).
    - [Cron], [CronFacts] (the time arithmetic of [scheduler_service.rs]),
      [Revision], [RevisionFacts] ([automation_runtime.rs] and
      [everyaios-blueprint/src/automation.rs]), [Scheduler] (jobs and
      occurrences), [SchedulerOps] (the service, its store file), [SchedulerAdmit]
      (admission, proved), [SchedulerFacts], [SchedulerProps].
    - [Sync], [SyncFacts] ([sync.rs], [sync_transport.rs]); [TurnSnapshot],
      [TurnSnapshotFacts] ([turn_snapshot.rs], [file_undo.rs], the effect
      receipt of [everyaios-audit/src/receipt.rs]).
    - [Dag]: Kahn's loop, shared by two engines of [everyaios-blueprint].
      [Blueprint], [BlueprintFacts] ([blueprint.rs], [spec.rs], [verify/]);
      [Workflow], [WorkflowFacts] ([workflow.rs]); [Reversible],
      [ReversibleFacts] ([change_set.rs]); [Orchestra], [OrchestraFacts]
      ([subagent.rs], [swarm.rs], [kanban.rs], [iteration.rs], [topology.rs],
      [loop_pattern.rs]).
    - [Redact] (the redactors of [spool.rs] and
      [everyaios-acp/src/permission_bridge.rs]); [Spool], [SpoolFacts]
      ([spool.rs]); [Bridge] ([permission_bridge.rs] and its part of
      [messages.rs]).

    A comment [SRC crate/file symbol] above a definition names the code it
    translates. Records are the structs, inductive types the enums; a method
    that mutates [self] returns its answer with the new state; clocks, nonces,
    the success of a save and the order of a hash map are arguments.

    ** What the theorems show

    - Authority is spent once and has evidence: a single-use ticket or batch is
      not consumed twice, a consumption has an approval receipt, every run
      follows the abstract lifecycle, and what is consumed is what was bound -
      or an explicit SHA-256 collision exists. A revoked capability grant never
      answers again.
    - The floors are what they mean: textual containment is component-prefix
      containment, the byte tests of the address classifier are CIDR blocks,
      the wildcard walk decides the denotation of its patterns, a floor verdict
      holds exactly when the canonical path and its leaf link are inside, and a
      re-check passes exactly when the bound identity is unchanged.
    - Grants and policies do not over-grant: a grant succeeds exactly on its
      conditions, a loaded policy allows only what the default or a stated rule
      allows, presets are ordered.
    - Bounds: admitted calls, tracked buckets, the breaker's memory, the board's
      capacity ([dispatch_fills_capacity]).
    - Evidence: every release decision has its receipt, a committed head pins
      the log's rows by number, kind and payload, verification names the first
      bad row, frames round-trip. An acknowledged event is in the session log
      unless its line started inside a torn one
      ([acknowledged_events_are_the_log]), repair accepts exactly the healthy
      logs that start no call twice, compaction loses no event, and the index of
      the replays counts a batch once whatever fails.
    - The ledger's lifecycle: terminal states are final, watchers see each
      completion once, the sweep ends exactly the stale tasks.
    - Resolution: handles only for eligible best-ranked providers, independent
      of the listing order; the requirement walk decides its graph; assignments
      are derived.
    - Leases: what is exercised at one moment for one resource is one lease or
      observers; terminal leases stay terminal; a granted lease is usable at
      once and fenced above the earlier ones.
    - Governor and pool: limits hold, nothing waits while a slot is free, and a
      queued task is started after enough completions.
    - The Work gateway: acknowledged is durable ([acknowledged_is_durable], for
      every operation and every disk, and exactly what is durable on a disk that
      does not fail after writing); after
      the operations of the core ([core_op]) the journal opens to a gateway
      that agrees with the live one ([reopened_gateway_agrees]) and the gateway
      is well-formed ([core_gateway_is_well_formed]); tokens of a Run's
      authority only grow while the gateway is open; the cycle check and the depth walk decide.
    - The execution kernel: every call refines the lifecycle of a Run
      ([call_refines_lifecycle]), the kernel stays well-formed, an approval
      waits for its ticket, and the recovered kernel is the one the journal
      describes; a node of a computer-use graph is verified by evidence only, or by the
      caller that hands in a whole graph.
    - The trigger plane: [compute_next_run] is the first minute that matches
      ([cron_next_is_first]); an occurrence only advances, is fired by a receipt
      only, is admitted once however often it is delivered, and an acknowledged
      call survives a restart; a refused call leaves no trace.
    - Sync and snapshots: two replicas converge, a sealed header is authentic;
      what was captured is restored, a rollback claims only what holds on the
      disk, and an unusable pre-image touches nothing.
    - The engines of [everyaios-blueprint]: validation decides acyclicity and
      the order it yields is topological, a task succeeds by its verifier only and stays so until it is started
      afresh,
      recovery of a change set is honest and lets it go on, imports stay in
      their root, the loop detector decides a property of the history.
    - Tool output and foreign agents: after redaction no credential literal
      starts at a word boundary ([no_credential_survives]), a spooled payload is
      read back line by line ([spooled_output_is_recoverable]), retention keeps
      the newest, and an allow rests on a ticket the executor can spend
      ([allow_is_backed_by_a_spendable_ticket]).
    - Where the code does something else than its documentation says, a theorem
      or example shows the behaviour (a rejected batch that is consumable, ids
      reused after a restart, journals that do not open again, and others).

    ** Interfaces and bounds

    SHA-256, SHA-1, the AEAD and the key exchange of sync ([Aead], [X25519]),
    the Unicode case maps, the TOML, URL and JSON crates, the filesystem and the
    resolver are type classes; their laws are separate classes with instances
    that satisfy them, and the witnesses use those. [JsonText], [NodeCodec],
    [SyncJson], [EntriesJson] and [Lines] are the texts serde writes, [Disk],
    [Files] and [Workspace] what is read and written, [SchedCodec] the nested
    values of the store file. [TornLaws] is what JSON gives a file of lines: an
    object cut short, or several beginnings in one line, are no JSON text.
    For the gateway: [HashIter] is the iteration order of a hash map,
    [WorkWorld] what each write of the journal does (durable, refused, written
    but not synced), the clock and the drawn bearers; [RenderFact],
    [RenderChangeSet], [RenderContext] and [ManifestDigest] are the JSON texts
    that are scanned for secrets or hashed. A journal is the list of its parsed
    records.
    Integers that can wrap are written with their modulus; theorems about
    counters assume fewer than 2^64 operations. Fuel appears in
    [Prelude.drop_any] (the length of the string), [Glob.wild_go] (the length
    of the pattern), [Ipc.decode_loop] (the length of the stream, each frame
    takes at least four bytes), the walks of [WorkDelegation] (the bounds are the
    code's own: the number of Works, 4096 ancestors),
    [Registry.first_unmet], where the height of
    an acyclic requirement graph is enough ([requirement_walk_decides]) and a
    capability that requires itself has no fuel that is
    ([self_requirement_never_resolves]), the depth-first search of
    [Blueprint] (one more than the tasks: a path without repetition is no
    longer), [Dag.kahn] (the number of nodes, each step takes one),
    [Redact.redact_loop] (the length of the text, each step passes a byte),
    [Spool.slice_walk] (one more than the length, each step passes a line), and
    the count of repeated calls in [Orchestra] (the calls kept), and the
    directories above a path in [TurnSnapshot.ancestors] (the length of the
    path).

    ** Not modelled

    The process glue (sockets, RPC dispatch, file output, OS sandboxes, opening
    directory handles), regular-expression scanners, signature checks of a
    third-party crate, the SQL vault, the services that wire the modelled
    stores to chat, tools and terminals, the scoring of memories, skill and
    plugin files, the rest of the agent protocol, and the browser, office and
    desktop crates. Of the
    Work gateway: attachments, the opaque handles of the capability broker, the
    subscriber channels, the RPC dispatch and the text of a journal line. The
    refinement leaves out the operations that are shown to part (steering
    checkpoints, the orphan sweep, binding a Work to a node) and the delegation
    leases, whose coordinator is rebuilt with its own recovery rules. Of the
    execution kernel: the shadow preflight; of the replays: search and wipe; of
    the fleets: prompt text. The manifest lists each part with its reason. *)
From Stdlib Require Export Ascii.
From Stdlib Require String.
From Stdlib Require Export ZArith Lia Bool SpecFloat.
From stdpp Require Export base gmap strings list fin_maps pretty.

(** ** Results: [Ok]/[Err] with the code's [?] operator *)

Inductive result (A E : Type) : Type :=
  | Ok (a : A)
  | Err (e : E).
Arguments Ok {A E} a.
Arguments Err {A E} e.

Declare Scope rust_scope.
Delimit Scope rust_scope with rust.

Definition rbind {A B E} (r : result A E) (f : A → result B E) : result B E :=
  match r with Ok a => f a | Err e => Err e end.

Definition is_ok {A E} (r : result A E) : bool :=
  match r with Ok _ => true | Err _ => false end.

Notation "x <-? r ;; k" := (rbind r (λ x, k))
  (at level 100, r at next level, right associativity) : rust_scope.
Open Scope rust_scope.

(** ** Machine integers: [u64]/[usize] are [N] below [2^64] *)

Definition u64_max : N := 18446744073709551615.
Definition u32_max : N := 4294967295.

(** Release-build [+] on [u64] (it wraps; a debug build panics instead). *)
Definition u64_add (a b : N) : N := (a + b) mod 18446744073709551616.
Definition u64_saturating_add (a b : N) : N := N.min (a + b) u64_max.
Definition u32_saturating_add (a b : N) : N := N.min (a + b) u32_max.

Lemma u64_add_small a b : (a + b ≤ u64_max)%N → u64_add a b = (a + b)%N.
Proof. intros H. unfold u64_add, u64_max in *. apply N.mod_small. lia. Qed.

Lemma u64_saturating_add_ge a b :
  (a ≤ u64_max)%N → (a ≤ u64_saturating_add a b)%N.
Proof. unfold u64_saturating_add, u64_max. lia. Qed.

Lemma u64_saturating_add_le a b : (u64_saturating_add a b ≤ u64_max)%N.
Proof. unfold u64_saturating_add, u64_max. lia. Qed.

(** ** Byte strings

    A [String]/[&str] is the [string] of its UTF-8 bytes. *)

Definition ch (c : ascii) : string := String c EmptyString.

(** The separators the code pushes as bytes. *)
Definition NUL : ascii := Ascii.Ascii false false false false false false false false.
Definition SLASH : ascii := "/"%char.

Fixpoint sconcat (l : list string) : string :=
  match l with [] => "" | s :: l' => s +:+ sconcat l' end.

(** [slice::join]. *)
Fixpoint join (sep : string) (l : list string) : string :=
  match l with
  | [] => ""
  | [s] => s
  | s :: l' => s +:+ sep +:+ join sep l'
  end.

#[global] Arguments String.eqb : simpl never.
#[global] Arguments String.append : simpl never.

(** [str::starts_with]. *)
Definition starts_with (p s : string) : bool := String.prefix p s.
#[global] Arguments starts_with : simpl never.

(** [str::contains] for a string pattern. *)
Fixpoint contains (sub s : string) : bool :=
  starts_with sub s ||
  match s with EmptyString => false | String _ s' => contains sub s' end.

(** [str::strip_prefix]. *)
Fixpoint strip_prefix (p s : string) : option string :=
  match p, s with
  | EmptyString, _ => Some s
  | String a p', String b s' => if Ascii.eqb a b then strip_prefix p' s' else None
  | String _ _, EmptyString => None
  end.

Fixpoint rev_string_app (s acc : string) : string :=
  match s with
  | EmptyString => acc
  | String c s' => rev_string_app s' (String c acc)
  end.
Definition rev_string (s : string) : string := rev_string_app s "".

(** [str::ends_with]. *)
Definition ends_with (p s : string) : bool :=
  starts_with (rev_string p) (rev_string s).

(** [str::split_once] on a one-byte separator. *)
Fixpoint split_once (c : ascii) (s : string) : option (string * string) :=
  match s with
  | EmptyString => None
  | String a s' =>
      if Ascii.eqb a c then Some ("", s')
      else '(x, y) ← split_once c s'; Some (String a x, y)
  end.

(** [str::split] on a one-byte separator: never empty. *)
Fixpoint split (c : ascii) (s : string) : list string :=
  match s with
  | EmptyString => [""]
  | String a s' =>
      if Ascii.eqb a c then "" :: split c s'
      else match split c s' with
           | [] => [ch a]
           | w :: ws => String a w :: ws
           end
  end.

(** [str::trim_end_matches] on a one-byte pattern. *)
Fixpoint drop_matching (c : ascii) (s : string) : string :=
  match s with
  | String a s' => if Ascii.eqb a c then drop_matching c s' else s
  | EmptyString => ""
  end.
Definition trim_end_matches (c : ascii) (s : string) : string :=
  rev_string (drop_matching c (rev_string s)).

(** [str::replace] of one byte by another. *)
Fixpoint replace_char (c d : ascii) (s : string) : string :=
  match s with
  | EmptyString => ""
  | String a s' => String (if Ascii.eqb a c then d else a) (replace_char c d s')
  end.

Definition is_empty (s : string) : bool :=
  match s with EmptyString => true | String _ _ => false end.

Fixpoint has_char (c : ascii) (s : string) : bool :=
  match s with
  | EmptyString => false
  | String a s' => Ascii.eqb a c || has_char c s'
  end.

(** Bytes of an ASCII letter in the other case ([to_ascii_lowercase]). *)
Definition ascii_lower (c : ascii) : ascii :=
  let n := Ascii.N_of_ascii c in
  if ((65 <=? n) && (n <=? 90))%N then Ascii.ascii_of_N (n + 32) else c.
Fixpoint to_ascii_lowercase (s : string) : string :=
  match s with
  | EmptyString => ""
  | String a s' => String (ascii_lower a) (to_ascii_lowercase s')
  end.

Definition is_ascii_char (c : ascii) : bool := (Ascii.N_of_ascii c <? 128)%N.
Fixpoint is_ascii (s : string) : bool :=
  match s with EmptyString => true | String a s' => is_ascii_char a && is_ascii s' end.

(** [str::to_lowercase] folds by the Unicode tables, which are not modelled:
    the operation is an interface whose one law is what the documentation says
    of ASCII text. *)
Class Lowercase := { to_lowercase : string → string }.
Class LowercaseLaws `{Lowercase} : Prop := {
  to_lowercase_ascii s : is_ascii s = true → to_lowercase s = to_ascii_lowercase s
}.
(** The instance that folds ASCII only. *)
Definition ascii_only_lowercase : Lowercase := {| to_lowercase := to_ascii_lowercase |}.

Lemma ascii_only_lowercase_laws : @LowercaseLaws ascii_only_lowercase.
Proof. constructor. reflexivity. Qed.

(** ** Lemmas on byte strings *)

Lemma app_string_nil_r (s : string) : s +:+ "" = s.
Proof. induction s as [|c s IH]; [done|]. change (String c (s +:+ "") = String c s). by rewrite IH. Qed.

Lemma app_string_assoc (a b c : string) : (a +:+ b) +:+ c = a +:+ b +:+ c.
Proof. induction a as [|x a IH]; [done|]. change (String x ((a +:+ b) +:+ c) = String x (a +:+ b +:+ c)). by rewrite IH. Qed.

Lemma app_string_cons (c : ascii) (s t : string) : String c s +:+ t = String c (s +:+ t).
Proof. done. Qed.

Lemma app_string_inj_r (a b c : string) : a +:+ c = b +:+ c → a = b.
Proof.
  assert (Hlen : ∀ s t : string, String.length (s +:+ t) = String.length s + String.length t).
  { induction s as [|x s IH]; intros t; [done|]. rewrite app_string_cons. simpl. by rewrite IH. }
  revert b. induction a as [|x a IH]; intros [|y b] H; [done| | |].
  - apply (f_equal String.length) in H. rewrite !Hlen in H. simpl in H. lia.
  - apply (f_equal String.length) in H. rewrite !Hlen in H. simpl in H. lia.
  - rewrite !app_string_cons in H. injection H as -> H. f_equal. by apply IH.
Qed.

Lemma starts_with_spec (p s : string) : starts_with p s = true ↔ ∃ r, s = p +:+ r.
Proof.
  unfold starts_with. revert s. induction p as [|a p IH]; intros s.
  - split; [intros _; by exists s | by destruct s].
  - destruct s as [|b s]; simpl.
    + split; [done | intros [r Hr]; discriminate Hr].
    + destruct (Ascii.ascii_dec a b) as [->|Hne].
      * rewrite IH. split; intros [r Hr]; exists r; [by rewrite Hr |].
        rewrite app_string_cons in Hr. by injection Hr.
      * split; [done | intros [r Hr]; rewrite app_string_cons in Hr; congruence].
Qed.

Lemma strip_prefix_spec (p s r : string) : strip_prefix p s = Some r ↔ s = p +:+ r.
Proof.
  revert s. induction p as [|a p IH]; intros s; simpl.
  - split; [intros [= ->]; done | intros ->; done].
  - destruct s as [|b s]; [split; [done | intros H; discriminate H]|].
    destruct (Ascii.eqb_spec a b) as [->|Hne].
    + rewrite IH, app_string_cons. split; congruence.
    + rewrite app_string_cons. split; congruence.
Qed.

Lemma contains_spec (sub s : string) :
  contains sub s = true ↔ ∃ a b, s = a +:+ sub +:+ b.
Proof.
  induction s as [|c s IH]; simpl; rewrite ?orb_true_iff, starts_with_spec.
  - split.
    + intros [[r Hr]|]; [by exists "", r | done].
    + intros (a & b & H). destruct a; [by left; exists b | discriminate H].
  - rewrite IH. split.
    + intros [[r Hr] | (a & b & ->)]; [by exists "", r | by exists (String c a), b].
    + intros (a & b & H). destruct a as [|x a]; [by left; exists b|].
      right. rewrite app_string_cons in H. injection H as -> H. by exists a, b.
Qed.

Lemma has_char_app (c : ascii) (s t : string) :
  has_char c (s +:+ t) = has_char c s || has_char c t.
Proof.
  induction s as [|a s IH]; [done|]. rewrite app_string_cons. simpl.
  by rewrite IH, orb_assoc.
Qed.

Lemma sconcat_app l1 l2 : sconcat (l1 ++ l2) = sconcat l1 +:+ sconcat l2.
Proof. induction l1 as [|s l1 IH]; simpl; [done|]. by rewrite IH, app_string_assoc. Qed.

Lemma string_eqb_spec (a b : string) : reflect (a = b) (String.eqb a b).
Proof. apply String.eqb_spec. Qed.

(** ** SHA-256

    The digest is the [sha2] crate's: an interface. No injectivity is ever
    assumed; the binding theorems name the two inputs that would have to
    collide ([collides]). *)
Class Sha256 := { sha256_hex : string → string }.

(** A digest to evaluate the definitions with. *)
Definition plain_digest : Sha256 := {| sha256_hex := λ s, "sha256:" +:+ s |}.

Definition collides {sha : Sha256} (x y : string) : Prop :=
  x ≠ y ∧ sha256_hex x = sha256_hex y.

Lemma sha256_eq_or_collides {sha : Sha256} (x y : string) :
  sha256_hex x = sha256_hex y → x = y ∨ collides x y.
Proof. intros H. destruct (decide (x = y)) as [->|Hne]; [by left | by right]. Qed.

(** ** NUL-terminated framing (what the hash helpers feed to SHA-256) *)

Definition nul_frame (parts : list string) : string :=
  sconcat (map (λ p, p +:+ ch NUL) parts).

Definition nul_free (s : string) : bool := negb (has_char NUL s).

Lemma nul_cut_inj (a b x y : string) :
  nul_free a = true → nul_free b = true →
  a +:+ String NUL x = b +:+ String NUL y → a = b ∧ x = y.
Proof.
  unfold nul_free. revert b. induction a as [|c a IH]; intros [|d b] Ha Hb H;
    rewrite ?app_string_cons in H; simpl in *.
  - by injection H as ->.
  - injection H as <- _. done.
  - injection H as -> _. done.
  - injection H as -> H. apply negb_true_iff, orb_false_iff in Ha as [_ Ha].
    apply negb_true_iff, orb_false_iff in Hb as [_ Hb].
    destruct (IH b) as [-> ->]; rewrite ?Ha, ?Hb; auto.
Qed.

(** The framing is injective on NUL-free parts, whatever their number. *)
Lemma nul_frame_inj (l1 l2 : list string) :
  forallb nul_free l1 = true → forallb nul_free l2 = true →
  nul_frame l1 = nul_frame l2 → l1 = l2.
Proof.
  unfold nul_frame. revert l2. induction l1 as [|a l1 IH]; intros [|b l2] H1 H2 H; simpl in *.
  - done.
  - exfalso. destruct b; discriminate H.
  - exfalso. destruct a; discriminate H.
  - apply andb_true_iff in H1 as [Ha H1], H2 as [Hb H2].
    rewrite !app_string_assoc in H. unfold ch in H. rewrite !app_string_cons in H.
    apply nul_cut_inj in H as [-> H]; [|done..]. f_equal. by apply IH.
Qed.

(** ** Tactics and hints *)

(** Case on every [match]/[if] scrutinee in the goal or a hypothesis. *)
Ltac crush_match :=
  repeat (case_match; simplify_eq/=; try done).

(** Same, then close arithmetic and congruence leaves. *)
Ltac crush := intros; simplify_eq/=; crush_match; try lia; try congruence; eauto.

(** Boolean connectives in hypotheses to propositions. *)
Ltac bool_hyps :=
  repeat match goal with
  | H : _ && _ = true |- _ => apply andb_true_iff in H as [? ?]
  | H : _ || _ = false |- _ => apply orb_false_iff in H as [? ?]
  | H : negb _ = true |- _ => apply negb_true_iff in H
  | H : negb _ = false |- _ => apply negb_false_iff in H
  | H : (_ =? _)%N = true |- _ => apply N.eqb_eq in H
  | H : (_ =? _)%N = false |- _ => apply N.eqb_neq in H
  | H : (_ <? _)%N = true |- _ => apply N.ltb_lt in H
  | H : (_ <? _)%N = false |- _ => apply N.ltb_ge in H
  | H : (_ <=? _)%N = true |- _ => apply N.leb_le in H
  | H : (_ <=? _)%N = false |- _ => apply N.leb_gt in H
  | H : String.eqb _ _ = true |- _ => apply String.eqb_eq in H
  | H : String.eqb _ _ = false |- _ => apply String.eqb_neq in H
  | H : bool_decide _ = true |- _ => apply bool_decide_eq_true in H
  | H : bool_decide _ = false |- _ => apply bool_decide_eq_false in H
  end.

Create HintDb trust.
#[export] Hint Resolve u64_saturating_add_le ascii_only_lowercase_laws : trust.
Create Rewrite HintDb trust_rw.
#[export] Hint Rewrite app_string_nil_r app_string_assoc : trust_rw.

(** ** Decimal numbers *)

Definition digit_of (c : ascii) : option N :=
  let n := N_of_ascii c in
  if ((48 <=? n) && (n <=? 57))%N then Some (n - 48)%N else None.

(** The digit loop of [u32::from_str]/[u64::from_str]: [checked_mul] and
    [checked_add] against the type's maximum. *)
Fixpoint parse_digits (bound acc : N) (s : string) : option N :=
  match s with
  | EmptyString => Some acc
  | String c s' =>
      d ← digit_of c;
      let acc' := (acc * 10 + d)%N in
      if (acc' <=? bound)%N then parse_digits bound acc' s' else None
  end.

(** [str::parse] to an unsigned integer: one optional [+], at least a digit. *)
Definition parse_uint (bound : N) (s : string) : option N :=
  match s with
  | EmptyString => None
  | String c s' =>
      if Ascii.eqb c "+" then
        match s' with EmptyString => None | _ => parse_digits bound 0 s' end
      else parse_digits bound 0 s
  end.

Lemma digit_of_pretty_char d : (d < 10)%N → digit_of (pretty_N_char d) = Some d.
Proof.
  intros H. assert (d = 0 ∨ d = 1 ∨ d = 2 ∨ d = 3 ∨ d = 4 ∨ d = 5 ∨ d = 6 ∨ d = 7 ∨ d = 8 ∨ d = 9)%N
    as Hd by lia.
  by repeat destruct Hd as [->|Hd]; [..|subst].
Qed.

Lemma parse_digits_go bound x s :
  (x ≤ bound)%N → parse_digits bound 0 (pretty_N_go x s) = parse_digits bound x s.
Proof.
  revert s. induction (N.lt_wf_0 x) as [x _ IH]; intros s Hx.
  destruct (decide (0 < x)%N) as [Hpos|Hz].
  - rewrite pretty_N_go_step by done.
    rewrite IH; [|by apply N.div_lt | pose proof (N.div_lt x 10); lia].
    simpl. pose proof (N.mod_lt x 10 ltac:(lia)). rewrite digit_of_pretty_char by done. simpl.
    replace (x / 10 * 10 + x mod 10)%N with x by (pose proof (N.div_mod x 10); lia).
    by rewrite (proj2 (N.leb_le x bound)).
  - replace x with 0%N by lia. by rewrite pretty_N_go_0.
Qed.

Lemma parse_digits_pretty bound n : (n ≤ bound)%N → parse_digits bound 0 (pretty n) = Some n.
Proof.
  intros Hn. unfold pretty, pretty_N. case_decide as Hz; [|by rewrite parse_digits_go].
  subst. simpl. by destruct bound.
Qed.

(** Parsing what [Display] prints gives the number back. *)
Lemma parse_uint_pretty bound n : (n ≤ bound)%N → parse_uint bound (pretty n) = Some n.
Proof.
  intros Hn. pose proof (parse_digits_pretty bound n Hn) as Hd.
  unfold parse_uint. destruct (pretty n) as [|c s] eqn:E.
  - simpl in Hd. injection Hd as <-. discriminate E.
  - destruct (Ascii.eqb_spec c "+") as [->|]; [|done].
    simpl in Hd. done.
Qed.

(** [str::trim]: the Unicode White_Space code points, as UTF-8. *)
Definition white_space : list string :=
  map (λ l, String.string_of_list_ascii (map ascii_of_N l))
    [[9]; [10]; [11]; [12]; [13]; [32]; [194; 133]; [194; 160]; [225; 154; 128];
     [226; 128; 128]; [226; 128; 129]; [226; 128; 130]; [226; 128; 131]; [226; 128; 132];
     [226; 128; 133]; [226; 128; 134]; [226; 128; 135]; [226; 128; 136]; [226; 128; 137];
     [226; 128; 138]; [226; 128; 168]; [226; 128; 169]; [226; 128; 175]; [226; 129; 159];
     [227; 128; 128]]%N.

(** Drops leading members of [ws]; the fuel is the length of the string. *)
Fixpoint drop_any (ws : list string) (fuel : nat) (s : string) : string :=
  match fuel with
  | 0 => s
  | S fuel' =>
      match list_find (λ w, starts_with w s = true) ws with
      | Some (_, w) =>
          match strip_prefix w s with Some s' => drop_any ws fuel' s' | None => s end
      | None => s
      end
  end.
Definition trim_start (s : string) : string := drop_any white_space (String.length s) s.
Definition trim_end (s : string) : string :=
  rev_string (drop_any (map rev_string white_space) (String.length s) (rev_string s)).
Definition trim (s : string) : string := trim_end (trim_start s).

(** ** Reversal, suffixes and trimming *)

Lemma rev_string_app_acc (s acc : string) :
  rev_string_app s acc = rev_string s +:+ acc.
Proof.
  unfold rev_string. revert acc. induction s as [|c s IH]; intros acc; [done|].
  simpl. rewrite (IH (String c acc)), (IH (String c "")). by rewrite app_string_assoc.
Qed.

Lemma rev_string_cons (c : ascii) (s : string) : rev_string (String c s) = rev_string s +:+ ch c.
Proof. unfold rev_string at 1. simpl. apply rev_string_app_acc. Qed.

Lemma rev_string_append (a b : string) : rev_string (a +:+ b) = rev_string b +:+ rev_string a.
Proof.
  induction a as [|c a IH]; [by rewrite app_string_nil_r|].
  by rewrite app_string_cons, !rev_string_cons, IH, app_string_assoc.
Qed.

Lemma rev_string_involutive (s : string) : rev_string (rev_string s) = s.
Proof. induction s as [|c s IH]; [done|]. by rewrite rev_string_cons, rev_string_append, IH. Qed.

Lemma ends_with_spec (p s : string) : ends_with p s = true ↔ ∃ r, s = r +:+ p.
Proof.
  unfold ends_with. rewrite starts_with_spec. split; intros [r Hr].
  - exists (rev_string r). by rewrite <- (rev_string_involutive s), Hr, rev_string_append, rev_string_involutive.
  - exists (rev_string r). by rewrite Hr, rev_string_append.
Qed.

(** The first byte, and whether any member of [ws] begins with it. *)
Definition heads_any (ws : list string) (c : ascii) : bool :=
  existsb (λ w, starts_with (ch c) w) ws || existsb is_empty ws.

Lemma drop_any_stop (ws : list string) (fuel : nat) (c : ascii) (s : string) :
  heads_any ws c = false → drop_any ws fuel (String c s) = String c s.
Proof.
  unfold heads_any. intros H. destruct fuel as [|fuel]; [done|]. simpl.
  destruct (list_find _ ws) as [[i w]|] eqn:E; [|done]. exfalso.
  apply list_find_Some in E as (Hi & Hw & _).
  apply list_elem_of_lookup_2, list_elem_of_In in Hi. bool_hyps.
  assert (Hn : ∀ f, existsb f ws = false → f w = false).
  { intros f Hf. destruct (f w) eqn:Ew; [|done].
    rewrite <- Hf. symmetry. apply existsb_exists. by exists w. }
  destruct w as [|a w]; [by specialize (Hn is_empty ltac:(done))|].
  apply starts_with_spec in Hw as [r Hr]. rewrite app_string_cons in Hr. injection Hr as -> _.
  specialize (Hn (λ w, starts_with (ch a) w) ltac:(done)). simpl in Hn.
  assert (starts_with (ch a) (String a w) = true); [|congruence].
  apply starts_with_spec. by exists w.
Qed.

(** Text whose first and last byte cannot belong to a white-space code point
    is what [str::trim] returns it as. *)
Lemma trim_tight (c d : ascii) (m : string) :
  heads_any white_space c = false → heads_any (map rev_string white_space) d = false →
  trim (String c m +:+ ch d) = String c m +:+ ch d.
Proof.
  intros Hc Hd. unfold trim, trim_start. rewrite app_string_cons, drop_any_stop by done.
  rewrite <- app_string_cons. unfold trim_end.
  rewrite rev_string_append. change (rev_string (ch d)) with (ch d).
  change (ch d +:+ rev_string (String c m)) with (String d (rev_string (String c m))).
  rewrite drop_any_stop by done. change (String d ?x) with (ch d +:+ x).
  change (ch d) with (rev_string (ch d)) at 1. by rewrite <- rev_string_append, rev_string_involutive.
Qed.

Lemma pretty_last (n : N) : ∃ p d, pretty n = p +:+ ch (pretty_N_char d) ∧ (d < 10)%N.
Proof.
  assert (Hgo : ∀ x s, ∃ p, pretty_N_go x s = p +:+ s).
  { intros x. induction (N.lt_wf_0 x) as [x _ IH]. intros s.
    destruct (decide (0 < x)%N) as [Hpos|Hz].
    - rewrite pretty_N_go_step by done.
      destruct (IH (x / 10)%N (N.div_lt x 10 ltac:(done) ltac:(done)) (String (pretty_N_char (x mod 10)) s))
        as [p ->].
      exists (p +:+ ch (pretty_N_char (x mod 10))). by rewrite app_string_assoc.
    - replace x with 0%N by lia. rewrite pretty_N_go_0. by exists "". }
  unfold pretty, pretty_N. case_decide as Hz; [by exists "", 0%N|].
  rewrite pretty_N_go_step by lia. destruct (Hgo (n / 10)%N (ch (pretty_N_char (n mod 10)))) as [p Hp].
  exists p, (n mod 10)%N. split; [done | by apply N.mod_lt].
Qed.

(** Decimal text has digits only. *)
Lemma pretty_no_char (c : ascii) (n : N) :
  digit_of c = None → has_char c (pretty n) = false.
Proof.
  intros Hc. assert (Hd : ∀ d, (d < 10)%N → Ascii.eqb (pretty_N_char d) c = false).
  { intros d Hd. apply Ascii.eqb_neq. intros <-. by rewrite digit_of_pretty_char in Hc. }
  assert (Hgo : ∀ x s, has_char c s = false → has_char c (pretty_N_go x s) = false).
  { intros x. induction (N.lt_wf_0 x) as [x _ IH]. intros s Hs.
    destruct (decide (0 < x)%N) as [Hpos|Hz].
    - rewrite pretty_N_go_step by done. apply IH; [by apply N.div_lt|]. simpl.
      by rewrite Hd by by apply N.mod_lt.
    - replace x with 0%N by lia. by rewrite pretty_N_go_0. }
  unfold pretty, pretty_N. case_decide as Hz; [|by apply Hgo].
  pose proof (Hd 0%N ltac:(lia)) as H0. change (pretty_N_char 0) with "0"%char in H0.
  change (has_char c "0" = false). cbn [has_char]. by rewrite H0.
Qed.

Lemma pretty_N_inj (a b : N) : pretty a = pretty b → a = b.
Proof.
  intros H. pose proof (parse_uint_pretty (N.max a b) a ltac:(lia)) as Ha.
  pose proof (parse_uint_pretty (N.max a b) b ltac:(lia)) as Hb. congruence.
Qed.

(** ** Exhaustive checks over a range *)

Definition all_below (n : N) (f : N → bool) : bool :=
  N.peano_rect (λ _, bool) true (λ k acc, f k && acc) n.

Lemma all_below_spec n f : all_below n f = true → ∀ k, (k < n)%N → f k = true.
Proof.
  unfold all_below. induction n as [|n IH] using N.peano_ind; [lia|].
  rewrite N.peano_rect_succ, andb_true_iff. intros [Hn Hr] k Hk.
  destruct (decide (k = n)) as [->|]; [done|]. apply IH; [done | lia].
Qed.

(** ** Splitting and joining *)

Lemma split_nonempty c s : split c s ≠ [].
Proof. destruct s as [|a s]; simpl; [done|]. case_match; [done|]. by case_match. Qed.

Lemma split_no_sep c s : has_char c s = false → split c s = [s].
Proof.
  induction s as [|a s IH]; simpl; [done|]. intros [Ha Hs]%orb_false_iff.
  by rewrite Ha, IH.
Qed.

Lemma split_app_sep c x y : split c (x +:+ String c y) = split c x ++ split c y.
Proof.
  induction x as [|a x IH]; [by simpl; rewrite app_string_cons || rewrite Ascii.eqb_refl|].
  rewrite app_string_cons. simpl. rewrite IH. destruct (Ascii.eqb a c); [done|].
  pose proof (split_nonempty c x). by destruct (split c x).
Qed.

Lemma join_cons sep s l : l ≠ [] → join sep (s :: l) = s +:+ sep +:+ join sep l.
Proof. by destruct l. Qed.

Lemma split_join c l :
  l ≠ [] → Forall (λ s, has_char c s = false) l → split c (join (ch c) l) = l.
Proof.
  intros Hl H. induction H as [|s l Hs H IH]; [done|].
  destruct (decide (l = [])) as [->|Hne]; [by apply split_no_sep|].
  rewrite join_cons by done. unfold ch. rewrite app_string_cons.
  change ("" +:+ join (String c "") l) with (join (ch c) l).
  by rewrite split_app_sep, split_no_sep, IH.
Qed.

Lemma join_app sep l1 l2 :
  l1 ≠ [] → l2 ≠ [] → join sep (l1 ++ l2) = join sep l1 +:+ sep +:+ join sep l2.
Proof.
  intros H1 H2. induction l1 as [|s l1 IH]; [done|]. simpl app.
  rewrite join_cons by (destruct l1; done). destruct (decide (l1 = [])) as [->|Hne]; [done|].
  rewrite IH, (join_cons _ s l1) by done. by rewrite !app_string_assoc.
Qed.

(** ** The first bytes of a string, and the rest *)

Fixpoint str_take (n : nat) (s : string) : string :=
  match n, s with S n', String c s' => String c (str_take n' s') | _, _ => "" end.
Fixpoint str_drop (n : nat) (s : string) : string :=
  match n, s with S n', String _ s' => str_drop n' s' | _, _ => s end.

Lemma string_length_app (a b : string) : String.length (a +:+ b) = (String.length a + String.length b)%nat.
Proof. induction a as [|c a IH]; [done|]. rewrite app_string_cons. simpl. by rewrite IH. Qed.
Lemma str_take_app (a b : string) : str_take (String.length a) (a +:+ b) = a.
Proof. induction a as [|c a IH]; [by destruct b|]. rewrite app_string_cons. simpl. by rewrite IH. Qed.
Lemma str_drop_app (a b : string) : str_drop (String.length a) (a +:+ b) = b.
Proof. induction a as [|c a IH]; [by destruct b|]. rewrite app_string_cons. simpl. done. Qed.

(** The run of bytes that satisfy [f], and what follows it. *)
Fixpoint take_while (f : ascii → bool) (s : string) : string :=
  match s with String c s' => if f c then String c (take_while f s') else "" | "" => "" end.
Fixpoint drop_while (f : ascii → bool) (s : string) : string :=
  match s with String c s' => if f c then drop_while f s' else s | "" => "" end.

Lemma take_drop_while f s : take_while f s +:+ drop_while f s = s.
Proof. induction s as [|c s IH]; simpl; [done|]. destruct (f c); [|done]. by rewrite app_string_cons, IH. Qed.
Lemma drop_while_length f s : (String.length (drop_while f s) ≤ String.length s)%nat.
Proof. induction s as [|c s IH]; simpl; [lia|]. destruct (f c); simpl; lia. Qed.

Lemma lowercase_length s : String.length (to_ascii_lowercase s) = String.length s.
Proof. induction s as [|c s IH]; simpl; [done | by rewrite IH]. Qed.

(** ** Lines *)

Definition NL : ascii := ascii_of_N 10.
Definition nl : string := ch NL.
(** [str::lines]: the pieces between line feeds, without a last empty one. A
    carriage return at the end of a line goes too; what reads the lines trims
    them, so it is left where it is. *)
Definition str_lines (s : string) : list string :=
  match rev (split NL s) with "" :: l => rev l | _ => split NL s end.

(** Membership as the code tests it. *)
Lemma existsb_eqb_elem (x : string) (l : list string) : existsb (String.eqb x) l = true ↔ x ∈ l.
Proof.
  rewrite existsb_exists. split.
  - intros (y & Hy & ->%String.eqb_eq). by apply list_elem_of_In.
  - intros Hx. exists x. by rewrite <- list_elem_of_In, String.eqb_refl.
Qed.

