(* ===== verification/Order.v ===== *)
(** * Orders: [str]'s byte order, stable sorting, [BTreeMap]/[BTreeSet] iteration

    [sort_by] is a stable sort by a comparison that answers "not after"; over a
    total, transitive comparison its result is determined by the multiset of
    the elements. *)
From stdpp Require Export sorting.
From S2P Require Import Prelude.

(** ** [Ord for str]: bytewise *)

Definition str_le (a b : string) : bool := String.leb a b.

Lemma ascii_compare_lt_trans x y z :
  Ascii.compare x y = Lt → Ascii.compare y z = Lt → Ascii.compare x z = Lt.
Proof. unfold Ascii.compare. rewrite !N.compare_lt_iff. lia. Qed.

Lemma ascii_compare_refl x : Ascii.compare x x = Eq.
Proof. unfold Ascii.compare. apply N.compare_refl. Qed.

Lemma str_le_cons x a y b :
  str_le (String x a) (String y b) = true ↔
  Ascii.compare x y = Lt ∨ (x = y ∧ str_le a b = true).
Proof.
  unfold str_le, String.leb. cbn [String.compare]. destruct (Ascii.compare x y) eqn:E.
  - apply Ascii.compare_eq_iff in E as ->. split; [by right | by intros [?|[_ ?]]].
  - split; [by left | done].
  - split; [done|]. intros [?|[-> _]]; [done|]. by rewrite ascii_compare_refl in E.
Qed.

#[export] Instance str_le_trans : Transitive (λ a b, str_le a b = true).
Proof.
  intros a. induction a as [|x a IH]; intros [|y b] [|z c] H1 H2; try done.
  apply str_le_cons in H1, H2. apply str_le_cons.
  destruct H1 as [H1|[-> H1]], H2 as [H2|[-> H2]]; eauto using ascii_compare_lt_trans.
Qed.

Lemma str_le_total a b : str_le a b = true ∨ str_le b a = true.
Proof. apply String.leb_total. Qed.

Lemma str_le_antisym a b : str_le a b = true → str_le b a = true → a = b.
Proof. intros. by apply String.leb_antisym. Qed.

(** ** [slice::sort_by] *)

Section sort.
Context {A : Type} (le : A → A → bool).

Fixpoint insert_sorted (x : A) (l : list A) : list A :=
  match l with
  | [] => [x]
  | y :: l' => if le x y then x :: l else y :: insert_sorted x l'
  end.

Definition sort_by (l : list A) : list A := foldr insert_sorted [] l.

Lemma insert_sorted_perm x l : insert_sorted x l ≡ₚ x :: l.
Proof.
  induction l as [|y l IH]; simpl; [done|]. destruct (le x y); [done|].
  rewrite IH. apply Permutation_swap.
Qed.

Lemma sort_by_perm l : sort_by l ≡ₚ l.
Proof. induction l as [|x l IH]; simpl; [done|]. by rewrite insert_sorted_perm, IH. Qed.

Lemma elem_of_sort_by x l : x ∈ sort_by l ↔ x ∈ l.
Proof. by rewrite (sort_by_perm l). Qed.

Hypothesis le_total : ∀ a b, le a b = true ∨ le b a = true.

Lemma sort_by_sorted l : Sorted (λ a b, le a b = true) (sort_by l).
Proof.
  induction l as [|x l IH]; simpl; [constructor|].
  induction IH as [|y l' IHs IH' Hhd]; simpl; [by repeat constructor|].
  destruct (le x y) eqn:E; [by repeat constructor|].
  assert (Hyx : le y x = true) by (destruct (le_total x y); congruence).
  constructor; [done|]. destruct l' as [|z l']; simpl; [by constructor|].
  destruct (le x z); constructor; [done|]. by inversion Hhd.
Qed.

Hypothesis le_trans : Transitive (λ a b, le a b = true).

(** Sorting forgets the order of its input when ties are equal elements. *)
Lemma sort_by_permutation l1 l2 :
  l1 ≡ₚ l2 → (∀ a b, a ∈ l1 → b ∈ l1 → le a b = true → le b a = true → a = b) →
  sort_by l1 = sort_by l2.
Proof.
  intros Hp Hasym. apply (Sorted_unique_strong (λ a b, le a b = true));
    [| apply sort_by_sorted | apply sort_by_sorted | by rewrite !sort_by_perm].
  intros a b Ha Hb. rewrite elem_of_sort_by in Ha, Hb. rewrite <- Hp in Hb. by apply Hasym.
Qed.
End sort.

(** ** Iteration of the ordered containers: ascending keys *)

Definition set_iter (s : gset string) : list string := sort_by str_le (elements s).

Definition values {A} (m : gmap string A) : list A :=
  snd <$> sort_by (λ p q, str_le p.1 q.1) (map_to_list m).

Lemma elem_of_set_iter x s : x ∈ set_iter s ↔ x ∈ s.
Proof. unfold set_iter. by rewrite elem_of_sort_by, elem_of_elements. Qed.

Lemma NoDup_set_iter s : NoDup (set_iter s).
Proof. unfold set_iter. rewrite sort_by_perm. apply NoDup_elements. Qed.

Lemma elem_of_values {A} (m : gmap string A) x : x ∈ values m ↔ ∃ k, m !! k = Some x.
Proof.
  unfold values. rewrite list_elem_of_fmap. split.
  - intros ([k y] & -> & Hin). exists k. rewrite elem_of_sort_by in Hin. by apply elem_of_map_to_list in Hin.
  - intros [k Hk]. exists (k, x). split; [done|]. by rewrite elem_of_sort_by, elem_of_map_to_list.
Qed.

(** ** Iteration of a [HashMap] *)

(** The order in which a [HashMap] is walked: some order of its entries. *)
Class HashIter := { map_iter : ∀ {A}, gmap string A → list (string * A) }.
Class HashIterLaws `{HashIter} : Prop := {
  map_iter_perm {A} (m : gmap string A) : map_iter m ≡ₚ map_to_list m
}.
#[export] Instance list_iter : HashIter := {| map_iter _ m := map_to_list m |}.
#[export] Instance list_iter_laws : @HashIterLaws list_iter.
Proof. by constructor. Qed.

Lemma elem_of_map_iter `{HashIterLaws} {A} (m : gmap string A) k a :
  (k, a) ∈ map_iter m ↔ m !! k = Some a.
Proof. by rewrite map_iter_perm, elem_of_map_to_list. Qed.
