(* ===== verification/Binding.v ===== *)
(** * Resource identities a ticket binds (data half of toctou.rs)

    The snapshots taken when a ticket is minted; the operations that take and
    re-check them are in [Toctou]. *)
From S2P Require Import Prelude.

(* SRC guard/src/toctou.rs @struct:FileBinding FileBinding *)
Record FileBinding := {
  fb_canonical : string;
  fb_parent_canonical : string;
  fb_ino : option N;
  fb_dev : option N;
  fb_size : option N;
  fb_mtime_ns : option N;
  fb_parent_ino : option N;
  fb_parent_dev : option N
}.

(* SRC guard/src/toctou.rs @struct:NetBinding NetBinding *)
Record NetBinding := {
  nb_url : string;
  nb_host : string;
  nb_resolved_ips : list string
}.

(* SRC guard/src/toctou.rs @struct:ExecBinding ExecBinding *)
Record ExecBinding := { eb_digest_sha256 : string }.

(* SRC guard/src/toctou.rs @enum:ResourceBinding ResourceBinding *)
Inductive ResourceBinding :=
  | BFile (b : FileBinding)
  | BNet (b : NetBinding)
  | BExec (b : ExecBinding).
