(* ===== verification/Ticket.v ===== *)
(** * Authorization tickets ([everyaios-guard/src/ticket.rs])

    The ticket record and its lifecycle, the in-memory store with its
    approval receipts, and the two traces-level guarantees the executor
    relies on: a single-use ticket is consumed at most once, and a ticket
    minted pending is consumed only after an approval receipt exists. The
    clock ([now_ms]) and the random nonce are arguments of the operations. *)
From S2P Require Import Prelude Binding.

(** ** Data *)

(* SRC guard/src/ticket.rs 12 23 ApprovalSource *)
Inductive ApprovalSource := SPolicy | SHuman | SPermissionsToml | SCoordinator.

(* SRC types/src/lib.rs 532 543 RiskLevel *)
Inductive RiskLevel := Low | Medium | High | Critical.

(** The derived [Ord] of [RiskLevel]. *)
Definition risk_rank (r : RiskLevel) : nat :=
  match r with Low => 0 | Medium => 1 | High => 2 | Critical => 3 end.
Definition risk_geb (a b : RiskLevel) : bool := risk_rank b <=? risk_rank a.

(* SRC guard/src/ticket.rs 32 46 RiskTier *)
Inductive RiskTier := R0 | R1 | R2 | R3 | R4.

(* SRC guard/src/ticket.rs 82 98 TicketState *)
Inductive TicketState := Pending | Approved | Used | Rejected | Expired | Revoked.

#[export] Instance TicketState_eq : EqDecision TicketState.
Proof. solve_decision. Defined.
#[export] Instance ApprovalSource_eq : EqDecision ApprovalSource.
Proof. solve_decision. Defined.
#[export] Instance RiskLevel_eq : EqDecision RiskLevel.
Proof. solve_decision. Defined.
#[export] Instance RiskTier_eq : EqDecision RiskTier.
Proof. solve_decision. Defined.

(* SRC guard/src/ticket.rs 100 140 AuthorizationTicket *)
Record AuthorizationTicket := {
  ticket_id : string;
  agent_id : string;
  session_id : string;
  tool_id : string;
  operation : string;
  args_hash : string;
  paths : list string;
  expires_at_ms : N;          (* 0 = no expiry *)
  single_use : bool;
  approval_source : ApprovalSource;
  approval_nonce : string;
  risk : RiskLevel;
  audit_seq : N;
  state : TicketState;
  bindings : list ResourceBinding;
  execution_id : string;
  action_id : string;
  idempotency_key : string
}.

(** Field assignments ([t.state = ...] and the like). *)
Definition set_state (t : AuthorizationTicket) (s : TicketState) : AuthorizationTicket :=
  {| ticket_id := ticket_id t; agent_id := agent_id t; session_id := session_id t;
     tool_id := tool_id t; operation := operation t; args_hash := args_hash t;
     paths := paths t; expires_at_ms := expires_at_ms t; single_use := single_use t;
     approval_source := approval_source t; approval_nonce := approval_nonce t;
     risk := risk t; audit_seq := audit_seq t; state := s; bindings := bindings t;
     execution_id := execution_id t; action_id := action_id t;
     idempotency_key := idempotency_key t |}.
Definition set_source (t : AuthorizationTicket) (s : ApprovalSource) : AuthorizationTicket :=
  {| ticket_id := ticket_id t; agent_id := agent_id t; session_id := session_id t;
     tool_id := tool_id t; operation := operation t; args_hash := args_hash t;
     paths := paths t; expires_at_ms := expires_at_ms t; single_use := single_use t;
     approval_source := s; approval_nonce := approval_nonce t;
     risk := risk t; audit_seq := audit_seq t; state := state t; bindings := bindings t;
     execution_id := execution_id t; action_id := action_id t;
     idempotency_key := idempotency_key t |}.
Definition set_expiry_nonce (t : AuthorizationTicket) (e : N) (n : string) : AuthorizationTicket :=
  {| ticket_id := ticket_id t; agent_id := agent_id t; session_id := session_id t;
     tool_id := tool_id t; operation := operation t; args_hash := args_hash t;
     paths := paths t; expires_at_ms := e; single_use := single_use t;
     approval_source := approval_source t; approval_nonce := n;
     risk := risk t; audit_seq := audit_seq t; state := state t; bindings := bindings t;
     execution_id := execution_id t; action_id := action_id t;
     idempotency_key := idempotency_key t |}.
Definition put_bindings (t : AuthorizationTicket) (b : list ResourceBinding) : AuthorizationTicket :=
  {| ticket_id := ticket_id t; agent_id := agent_id t; session_id := session_id t;
     tool_id := tool_id t; operation := operation t; args_hash := args_hash t;
     paths := paths t; expires_at_ms := expires_at_ms t; single_use := single_use t;
     approval_source := approval_source t; approval_nonce := approval_nonce t;
     risk := risk t; audit_seq := audit_seq t; state := state t; bindings := b;
     execution_id := execution_id t; action_id := action_id t;
     idempotency_key := idempotency_key t |}.
Definition put_execution (t : AuthorizationTicket) (x key : string) : AuthorizationTicket :=
  {| ticket_id := ticket_id t; agent_id := agent_id t; session_id := session_id t;
     tool_id := tool_id t; operation := operation t; args_hash := args_hash t;
     paths := paths t; expires_at_ms := expires_at_ms t; single_use := single_use t;
     approval_source := approval_source t; approval_nonce := approval_nonce t;
     risk := risk t; audit_seq := audit_seq t; state := state t; bindings := bindings t;
     execution_id := x; action_id := action_id t; idempotency_key := key |}.

(* SRC guard/src/ticket.rs 402 422 TicketError *)
Inductive TicketError :=
  | EUnknown | EExpired | EAlreadyUsed | ERevoked | ENotApproved
  | EArgsMismatch | ERejected | ENotSingleUse | EBlocked.

(* SRC guard/src/ticket.rs 449 453 ReceiptAction *)
Inductive ReceiptAction := RApprove | RReject.

(* SRC guard/src/ticket.rs 432 447 GuardReceipt *)
Record GuardReceipt := {
  gr_receipt_id : string;
  gr_ticket_id : string;
  gr_session_id : string;
  gr_tool_id : string;
  gr_operation : string;
  gr_action : ReceiptAction;
  gr_ts_ms : N;
  gr_hash : string
}.

(* SRC guard/src/profiles.rs 57 64 GateAction *)
Inductive GateAction := GAllow | GAsk | GBlock.

(* SRC guard/src/ticket.rs 184 190 TicketStore *)
Record TicketStore := {
  tickets : gmap string AuthorizationTicket;
  receipts : list GuardReceipt
}.

(** ** Risk tiers *)

(* SRC guard/src/ticket.rs 49 57 RiskTier::as_str *)
Definition risk_tier_as_str (t : RiskTier) : string :=
  match t with R0 => "R0" | R1 => "R1" | R2 => "R2" | R3 => "R3" | R4 => "R4" end.

(* SRC guard/src/ticket.rs 59 79 RiskTier::from_risk_and_op *)
Definition from_risk_and_op {lower : Lowercase} (risk : RiskLevel) (operation : string)
    (read_only : bool) : RiskTier :=
  let op := to_lowercase operation in
  if contains "credential" op || contains "install" op || contains "estop" op then R4
  else if contains "network" op || contains "external" op || contains "web" op then R2
  else if read_only then R0
  else if contains "delete" op || contains "destructive" op || risk_geb risk High then R3
  else match risk with
       | Low => R1
       | Medium => R1
       | High => R3
       | Critical => R4
       end.

(** ** Hash helpers *)

Section Hashing.
Context {sha : Sha256}.

(* SRC guard/src/ticket.rs 498 509 hash_args *)
Definition hash_args (parts : list string) : string := sha256_hex (nul_frame parts).

(** The parts [ticket_context_hash] feeds to [hash_args]. *)
Definition context_parts (tool_id operation args_hash : string) : list string :=
  ["ticket-context-v1"; tool_id; operation; args_hash].

(* SRC guard/src/ticket.rs 511 515 ticket_context_hash *)
Definition ticket_context_hash (tool_id operation args_hash : string) : string :=
  hash_args (context_parts tool_id operation args_hash).

(** ** One ticket *)

(** The clock test shared by [is_valid] and [use_ticket]: [0] never expires. *)
Definition past_expiry (expires_at_ms now : N) : bool :=
  negb (expires_at_ms =? 0)%N && (expires_at_ms <? now)%N.

(* SRC guard/src/ticket.rs 143 154 AuthorizationTicket::is_valid *)
Definition is_valid (now : N) (t : AuthorizationTicket) : bool :=
  if negb (bool_decide (state t = Approved)) then false
  else if past_expiry (expires_at_ms t) now then false
  else true.

(* SRC guard/src/ticket.rs 162 166 AuthorizationTicket::matches_context *)
Definition matches_context (t : AuthorizationTicket) (context_hash : string) : bool :=
  String.eqb (ticket_context_hash (tool_id t) (operation t) (args_hash t)) context_hash.

(* SRC guard/src/ticket.rs 156 160 AuthorizationTicket::matches_args *)
Definition matches_args (t : AuthorizationTicket) (h : string) : bool :=
  String.eqb (args_hash t) h || matches_context t h.

(* SRC guard/src/ticket.rs 168 181 AuthorizationTicket::consume *)
Definition consume (now : N) (t : AuthorizationTicket) (h : string)
    : bool * AuthorizationTicket :=
  if negb (is_valid now t) || negb (matches_args t h) then (false, t)
  else if matches_context t h && negb (single_use t) then (false, set_state t Rejected)
  else if single_use t then (true, set_state t Used)
  else (true, t).

(* SRC guard/src/ticket.rs 455 486 GuardReceipt::new *)
Definition guard_receipt_new (receipt_id : string) (t : AuthorizationTicket)
    (action : ReceiptAction) (ts_ms : N) : GuardReceipt :=
  {| gr_receipt_id := receipt_id;
     gr_ticket_id := ticket_id t;
     gr_session_id := session_id t;
     gr_tool_id := tool_id t;
     gr_operation := operation t;
     gr_action := action;
     gr_ts_ms := ts_ms;
     gr_hash := hash_args [receipt_id; ticket_id t; session_id t; tool_id t; operation t;
                           match action with RApprove => "approve" | RReject => "reject" end;
                           pretty ts_ms] |}.

(* SRC guard/src/ticket.rs 517 553 path_ticket *)
Definition path_ticket (now : N) (nonce : string)
    (tid agent session tool op : string) (ps : list string) (ah : string)
    (r : RiskLevel) (seq : N) : AuthorizationTicket :=
  {| ticket_id := tid; agent_id := agent; session_id := session; tool_id := tool;
     operation := op; args_hash := ah; paths := ps;
     expires_at_ms := u64_add now 60000; single_use := true;
     approval_source := SPolicy; approval_nonce := nonce; risk := r; audit_seq := seq;
     state := Pending; bindings := []; execution_id := ""; action_id := tool;
     idempotency_key := session +:+ ":" +:+ tool +:+ ":" +:+ ah |}.

(** ** The store *)

(* SRC guard/src/ticket.rs 192 195 TicketStore::new *)
Definition ticket_store_new : TicketStore := {| tickets := ∅; receipts := [] |}.

Definition put_ticket (s : TicketStore) (id : string) (t : AuthorizationTicket) : TicketStore :=
  {| tickets := <[id := t]> (tickets s); receipts := receipts s |}.

(* SRC guard/src/ticket.rs 202 210 TicketStore::record *)
Definition record (s : TicketStore) (id : string) (action : ReceiptAction) (now : N)
    : bool * TicketStore :=
  match tickets s !! id with
  | None => (false, s)
  | Some t =>
      let seq := length (receipts s) in
      let receipt := guard_receipt_new ("rcpt:" +:+ pretty seq) t action now in
      (true, {| tickets := tickets s; receipts := receipts s ++ [receipt] |})
  end.

(* SRC guard/src/ticket.rs 212 216 TicketStore::mint *)
Definition mint (s : TicketStore) (t : AuthorizationTicket) : string * TicketStore :=
  (ticket_id t, put_ticket s (ticket_id t) t).

(* SRC guard/src/ticket.rs 218 237 TicketStore::mint_gated *)
Definition mint_gated (s : TicketStore) (t : AuthorizationTicket) (action : GateAction)
    : result string TicketError * TicketStore :=
  match action with
  | GAllow =>
      let '(id, s') := mint s (set_source (set_state t Approved) SPolicy) in (Ok id, s')
  | GAsk => let '(id, s') := mint s t in (Ok id, s')
  | GBlock => (Err EBlocked, s)
  end.

(* SRC guard/src/ticket.rs 239 274 TicketStore::use_ticket *)
Definition use_ticket (now : N) (s : TicketStore) (id h : string)
    : result unit TicketError * TicketStore :=
  match tickets s !! id with
  | None => (Err EUnknown, s)
  | Some t =>
      if past_expiry (expires_at_ms t) now then
        (Err EExpired, put_ticket s id (set_state t Expired))
      else
      match state t with
      | Approved =>
          if negb (matches_args t h) then
            (Err EArgsMismatch, put_ticket s id (set_state t Rejected))
          else if matches_context t h && negb (single_use t) then
            (Err ENotSingleUse, put_ticket s id (set_state t Rejected))
          else if single_use t then (Ok tt, put_ticket s id (set_state t Used))
          else (Ok tt, s)
      | Used => (Err EAlreadyUsed, s)
      | Revoked => (Err ERevoked, s)
      | Pending => (Err ENotApproved, s)
      | Rejected => (Err ERejected, s)
      | Expired => (Err EExpired, s)
      end
  end.

(* SRC guard/src/ticket.rs 276 280 TicketStore::revoke *)
Definition revoke (s : TicketStore) (id : string) : TicketStore :=
  match tickets s !! id with
  | Some t => put_ticket s id (set_state t Revoked)
  | None => s
  end.

(* SRC guard/src/ticket.rs 282 289 TicketStore::pending *)
Definition pending (s : TicketStore) : list AuthorizationTicket :=
  filter (λ t, state t = Pending) (map snd (map_to_list (tickets s))).

(* SRC guard/src/ticket.rs 305 323 TicketStore::approve_inner *)
Definition approve_inner (now : N) (s : TicketStore) (id : string) (nonce : option string)
    : bool * TicketStore :=
  match tickets s !! id with
  | Some t =>
      if bool_decide (state t = Pending) &&
         match nonce with
         | Some n => negb (is_empty n) && String.eqb n (approval_nonce t)
         | None => true
         end
      then (true, snd (record (put_ticket s id (set_source (set_state t Approved) SHuman))
                         id RApprove now))
      else (false, s)
  | None => (false, s)
  end.

(* SRC guard/src/ticket.rs 291 296 TicketStore::approve *)
Definition approve (now : N) (s : TicketStore) (id : string) : bool * TicketStore :=
  approve_inner now s id None.

(* SRC guard/src/ticket.rs 298 303 TicketStore::approve_with_nonce *)
Definition approve_with_nonce (now : N) (s : TicketStore) (id nonce : string)
    : bool * TicketStore :=
  approve_inner now s id (Some nonce).

(* SRC guard/src/ticket.rs 325 344 TicketStore::reject_with_nonce *)
Definition reject_with_nonce (now : N) (s : TicketStore) (id nonce : string)
    : bool * TicketStore :=
  match tickets s !! id with
  | Some t =>
      if bool_decide (state t = Pending) && negb (is_empty nonce)
         && String.eqb nonce (approval_nonce t)
      then (true, snd (record (put_ticket s id (set_state t Revoked)) id RReject now))
      else (false, s)
  | None => (false, s)
  end.

(* SRC guard/src/ticket.rs 346 359 TicketStore::reject *)
Definition reject (now : N) (s : TicketStore) (id : string) : bool * TicketStore :=
  match tickets s !! id with
  | Some t =>
      if bool_decide (state t = Pending)
      then (true, snd (record (put_ticket s id (set_state t Revoked)) id RReject now))
      else (false, s)
  | None => (false, s)
  end.

(* SRC guard/src/ticket.rs 361 363 TicketStore::approval_nonce *)
Definition store_approval_nonce (s : TicketStore) (id : string) : option string :=
  approval_nonce <$> tickets s !! id.

(* SRC guard/src/ticket.rs 365 375 TicketStore::set_bindings *)
Definition set_bindings (s : TicketStore) (id : string) (b : list ResourceBinding)
    : bool * TicketStore :=
  match tickets s !! id with
  | Some t => (true, put_ticket s id (put_bindings t b))
  | None => (false, s)
  end.

(* SRC guard/src/ticket.rs 377 386 TicketStore::set_execution *)
Definition set_execution (s : TicketStore) (id x : string) : bool * TicketStore :=
  match tickets s !! id with
  | Some t =>
      let key := if is_empty (idempotency_key t)
                 then session_id t +:+ ":" +:+ tool_id t +:+ ":" +:+ args_hash t
                 else idempotency_key t in
      (true, put_ticket s id (put_execution t x key))
  | None => (false, s)
  end.

End Hashing.

(** ** The store as a labelled transition system

    One label per public mutator of [TicketStore]; [OpRenew] is what the one
    caller of [get_mut] does to a pending ticket (new expiry and nonce). *)

Inductive ticket_op :=
  | OpMint (t : AuthorizationTicket)
  | OpMintGated (t : AuthorizationTicket) (a : GateAction)
  | OpUse (id h : string)
  | OpRevoke (id : string)
  | OpApprove (id : string)
  | OpApproveNonce (id n : string)
  | OpReject (id : string)
  | OpRejectNonce (id n : string)
  | OpSetBindings (id : string) (b : list ResourceBinding)
  | OpSetExecution (id x : string)
  | OpRenew (id : string) (e : N) (n : string).

Section System.
Context {sha : Sha256}.

Definition renew_pending (s : TicketStore) (id : string) (e : N) (n : string)
    : bool * TicketStore :=
  match tickets s !! id with
  | Some t =>
      if bool_decide (state t = Pending) then (true, put_ticket s id (set_expiry_nonce t e n))
      else (false, s)
  | None => (false, s)
  end.

(** Runs one operation at clock [now]; the flag is whether it succeeded. *)
Definition ticket_step (now : N) (s : TicketStore) (op : ticket_op) : bool * TicketStore :=
  match op with
  | OpMint t => (true, snd (mint s t))
  | OpMintGated t a => let '(r, s') := mint_gated s t a in (is_ok r, s')
  | OpUse id h => let '(r, s') := use_ticket now s id h in (is_ok r, s')
  | OpRevoke id => (true, revoke s id)
  | OpApprove id => approve now s id
  | OpApproveNonce id n => approve_with_nonce now s id n
  | OpReject id => reject now s id
  | OpRejectNonce id n => reject_with_nonce now s id n
  | OpSetBindings id b => set_bindings s id b
  | OpSetExecution id x => set_execution s id x
  | OpRenew id e n => renew_pending s id e n
  end.

(** A run: the events carry the clock, the operation and its outcome. The
    clock is unconstrained, so the guarantees hold under clock jumps too. *)
Inductive ticket_run : TicketStore → list (N * ticket_op * bool) → TicketStore → Prop :=
  | run_nil s : ticket_run s [] s
  | run_cons now s op ok s1 evs s2 :
      ticket_step now s op = (ok, s1) → ticket_run s1 evs s2 →
      ticket_run s ((now, op, ok) :: evs) s2.

(** The id a mint operation (re)creates. *)
Definition minted_id (op : ticket_op) : option string :=
  match op with
  | OpMint t => Some (ticket_id t)
  | OpMintGated t a => match a with GBlock => None | _ => Some (ticket_id t) end
  | _ => None
  end.

(** The abstract lifecycle the store promises: the only state changes of a
    ticket that is not minted again. *)
Inductive life : TicketState → TicketState → Prop :=
  | life_stay x : life x x
  | life_approve : life Pending Approved
  | life_use : life Approved Used
  | life_burn : life Approved Rejected
  | life_revoke x : life x Revoked
  | life_expire x : life x Expired.

(** States from which no consumption is possible. *)
Definition spent (x : TicketState) : bool :=
  match x with Pending | Approved => false | _ => true end.

Lemma life_spent x y : life x y → spent x = true → spent y = true.
Proof. by destruct 1. Qed.

Hint Constructors life : trust.

(** Fields that only minting writes. Renewing also writes the expiry and the
    nonce, [set_bindings] the bindings and [set_execution] the execution. *)
Definition same_identity (t t' : AuthorizationTicket) : Prop :=
  ticket_id t' = ticket_id t ∧ single_use t' = single_use t ∧ tool_id t' = tool_id t ∧
  operation t' = operation t ∧ args_hash t' = args_hash t.

Lemma same_identity_refl t : same_identity t t.
Proof. repeat split. Qed.

Lemma same_identity_trans t1 t2 t3 :
  same_identity t1 t2 → same_identity t2 t3 → same_identity t1 t3.
Proof. intros (?&?&?&?&?) (?&?&?&?&?). repeat split; congruence. Qed.

(** What one non-minting operation may do to a store: nothing, or replace one
    ticket along [life] while appending receipts about that ticket. *)
Inductive store_change (s : TicketStore) : TicketStore → Prop :=
  | change_none : store_change s s
  | change_one id t t' rs :
      tickets s !! id = Some t → life (state t) (state t') → same_identity t t' →
      (state t' = Approved → state t = Approved ∨
         ∃ r, r ∈ rs ∧ gr_action r = RApprove ∧ gr_ticket_id r = ticket_id t) →
      store_change s {| tickets := <[id := t']> (tickets s); receipts := receipts s ++ rs |}.

Lemma change_quiet s id t t' :
  tickets s !! id = Some t → life (state t) (state t') → same_identity t t' →
  (state t' = Approved → state t = Approved) →
  store_change s (put_ticket s id t').
Proof.
  intros Ht Hl Hi Ha. unfold put_ticket. rewrite <- (app_nil_r (receipts s)).
  eapply change_one; eauto.
Qed.

Lemma record_put s id t a now :
  snd (record (put_ticket s id t) id a now) =
  {| tickets := <[id := t]> (tickets s);
     receipts := receipts s ++ [guard_receipt_new ("rcpt:" +:+ pretty (length (receipts s))) t a now] |}.
Proof. unfold record. simpl. by rewrite lookup_insert_eq. Qed.

Ltac use_state := match goal with H : state ?t = _ |- _ => rewrite H in * end.
Ltac quiet := eapply change_quiet; [eassumption | simpl; try use_state; auto with trust
                                   | repeat split | simpl; try congruence; auto].

Lemma use_ticket_change now s id h r s' :
  use_ticket now s id h = (r, s') → store_change s s'.
Proof.
  unfold use_ticket. destruct (tickets s !! id) as [t|] eqn:Ht; [|intros [= <- <-]; constructor].
  repeat case_match; intros [= <- <-]; try constructor; quiet.
Qed.

Lemma approve_inner_change now s id n ok s' :
  approve_inner now s id n = (ok, s') → store_change s s'.
Proof.
  unfold approve_inner. destruct (tickets s !! id) as [t|] eqn:Ht; [|intros [= <- <-]; constructor].
  case_match eqn:Hc; intros [= <- <-]; [|constructor]. bool_hyps.
  rewrite record_put. eapply change_one; [done | simpl; use_state; auto with trust | repeat split |].
  intros _. right. eexists. split; [apply list_elem_of_singleton; reflexivity|]. done.
Qed.

Lemma reject_change now s id (b : bool) ok s' t :
  tickets s !! id = Some t → (b = true → state t = Pending) →
  (if b then (true, snd (record (put_ticket s id (set_state t Revoked)) id RReject now))
   else (false, s)) = (ok, s') → store_change s s'.
Proof.
  intros Ht Hb. destruct b; intros [= <- <-]; [|constructor].
  rewrite record_put. eapply change_one; [done | simpl; auto with trust | repeat split | done].
Qed.

Lemma ticket_step_change now s op ok s' :
  ticket_step now s op = (ok, s') → minted_id op = None → store_change s s'.
Proof.
  intros Hs Hm. destruct op; simpl in *; try discriminate.
  - destruct a; try discriminate. simplify_eq/=. constructor.
  - destruct (use_ticket now s id h) eqn:E. simplify_eq/=. by eapply use_ticket_change.
  - unfold revoke in Hs. case_match; simplify_eq; [quiet | constructor].
  - by eapply approve_inner_change.
  - by eapply approve_inner_change.
  - unfold reject in Hs. case_match eqn:Ht; [|simplify_eq; constructor].
    eapply (reject_change _ _ _ (bool_decide _)); eauto. by intros ?%bool_decide_eq_true.
  - unfold reject_with_nonce in Hs. case_match eqn:Ht; [|simplify_eq; constructor].
    eapply (reject_change _ _ _ (_ && _)); eauto. intros. by bool_hyps.
  - unfold set_bindings in Hs. case_match; simplify_eq; [quiet | constructor].
  - unfold set_execution in Hs. case_match; simplify_eq; [quiet | constructor].
  - unfold renew_pending in Hs. repeat case_match; simplify_eq; [quiet | constructor..].
Qed.

(** A minting operation writes exactly the minted ticket. *)
Lemma ticket_step_mint now s op ok s' id :
  ticket_step now s op = (ok, s') → minted_id op = Some id →
  ∃ t, s' = put_ticket s id t ∧ ticket_id t = id ∧
       (op = OpMint t ∨ (∃ a t0, op = OpMintGated t0 a ∧ (a = GAsk → t = t0))).
Proof.
  intros Hs Hm. destruct op as [t|t a| | | | | | | | |]; simpl in *; try discriminate;
    [|destruct a; simpl in *]; simplify_eq/=;
    (eexists; split; [reflexivity | split; [reflexivity|]]); [by left | | ];
    right; repeat eexists; done.
Qed.

(** ** Consequences of the simulation *)

Lemma ticket_step_life now s op ok s' id t :
  ticket_step now s op = (ok, s') → minted_id op ≠ Some id → tickets s !! id = Some t →
  ∃ t', tickets s' !! id = Some t' ∧ life (state t) (state t') ∧ same_identity t t'.
Proof.
  intros Hs Hm Ht. destruct (minted_id op) as [mid|] eqn:E.
  - eapply ticket_step_mint in Hs as (t0 & -> & _); [|done]. exists t. simpl.
    rewrite lookup_insert_ne by congruence. auto using same_identity_refl with trust.
  - eapply ticket_step_change in Hs; [|done]. destruct Hs as [|k t1 t2 rs Hk Hl Hi _].
    + exists t. auto using same_identity_refl with trust.
    + simpl. destruct (decide (k = id)) as [->|Hne]; simplify_eq.
      * exists t2. by rewrite lookup_insert_eq.
      * exists t. rewrite lookup_insert_ne by done. auto using same_identity_refl with trust.
Qed.

(** The abstract lifecycle of the ticket under [id], one label per operation:
    what each operation may do to it, and nothing else. The state is decided
    once - a pending ticket is approved or revoked, an approved one is used up or
    burnt -, it may be revoked and may expire at any time; the expiry and the
    nonce change while it is pending, its bindings and its execution at any time;
    minting the id starts over. *)
Inductive lifecycle (now : N) (id : string) : ticket_op → AuthorizationTicket → AuthorizationTicket → Prop :=
  | lc_stay op t : lifecycle now id op t t
  | lc_approve t : state t = Pending →
      lifecycle now id (OpApprove id) t (set_source (set_state t Approved) SHuman)
  | lc_approve_nonce t : state t = Pending → approval_nonce t ≠ "" →
      lifecycle now id (OpApproveNonce id (approval_nonce t)) t (set_source (set_state t Approved) SHuman)
  | lc_reject t : state t = Pending → lifecycle now id (OpReject id) t (set_state t Revoked)
  | lc_reject_nonce t : state t = Pending → approval_nonce t ≠ "" →
      lifecycle now id (OpRejectNonce id (approval_nonce t)) t (set_state t Revoked)
  | lc_revoke t : lifecycle now id (OpRevoke id) t (set_state t Revoked)
  | lc_expire h t : past_expiry (expires_at_ms t) now = true → lifecycle now id (OpUse id h) t (set_state t Expired)
  | lc_use h t : is_valid now t = true → matches_args t h = true → single_use t = true →
      lifecycle now id (OpUse id h) t (set_state t Used)
  | lc_burn h t : is_valid now t = true → matches_args t h = false ∨ matches_context t h = true ∧ single_use t = false →
      lifecycle now id (OpUse id h) t (set_state t Rejected)
  | lc_bind b t : lifecycle now id (OpSetBindings id b) t (put_bindings t b)
  | lc_execute x key t : lifecycle now id (OpSetExecution id x) t (put_execution t x key)
  | lc_renew e n t : state t = Pending → lifecycle now id (OpRenew id e n) t (set_expiry_nonce t e n)
  | lc_mint t0 t : ticket_id t0 = id → lifecycle now id (OpMint t0) t t0
  | lc_mint_approved t0 t : ticket_id t0 = id →
      lifecycle now id (OpMintGated t0 GAllow) t (set_source (set_state t0 Approved) SPolicy)
  | lc_mint_asked t0 t : ticket_id t0 = id → lifecycle now id (OpMintGated t0 GAsk) t t0.

Inductive lifecycle_path (id : string) : AuthorizationTicket → list (N * ticket_op * bool) → AuthorizationTicket → Prop :=
  | lp_nil t : lifecycle_path id t [] t
  | lp_cons now op ok t t1 evs t2 :
      lifecycle now id op t t1 → lifecycle_path id t1 evs t2 → lifecycle_path id t ((now, op, ok) :: evs) t2.

(** An update of one key, seen from another: the abstract ticket does not move. *)
Lemma lifecycle_put now id op s k t t' :
  tickets s !! id = Some t → (k = id → lifecycle now id op t t') →
  ∃ t1, tickets (put_ticket s k t') !! id = Some t1 ∧ lifecycle now id op t t1.
Proof.
  intros Ht Hl. simpl. destruct (decide (k = id)) as [->|Hne].
  - exists t'. rewrite lookup_insert_eq. split; [done|]. by apply Hl.
  - exists t. rewrite lookup_insert_ne by done. split; [done|]. constructor.
Qed.
Lemma lifecycle_stays now id op s t :
  tickets s !! id = Some t → ∃ t1, tickets s !! id = Some t1 ∧ lifecycle now id op t t1.
Proof. intros Ht. exists t. split; [done|]. constructor. Qed.
Lemma record_tickets s id a now : tickets (record s id a now).2 = tickets s.
Proof. unfold record. by destruct (tickets s !! id). Qed.

(** The updated ticket is the one that is watched. *)
Ltac at_key Hk Hat := intros ->; pose proof (Hat _ _ Hk eq_refl); subst.

(** One operation of the store is one abstract step of every ticket. *)
Lemma ticket_step_lifecycle now s op ok s' id t :
  ticket_step now s op = (ok, s') → tickets s !! id = Some t →
  ∃ t', tickets s' !! id = Some t' ∧ lifecycle now id op t t'.
Proof.
  intros Hs Ht.
  assert (Hput : ∀ k v, (k = id → lifecycle now id op t v) → ∀ s2, tickets s2 = tickets (put_ticket s k v) →
    ∃ t1, tickets s2 !! id = Some t1 ∧ lifecycle now id op t t1).
  { intros k v Hv s2 ->. by apply lifecycle_put. }
  assert (Hat : ∀ k x, tickets s !! k = Some x → k = id → x = t) by (intros k x Hk ->; congruence).
  destruct op as [t0|t0 a|k h|k|k|k n|k|k n|k b|k x|k e n]; simpl in Hs.
  - injection Hs as _ <-. eapply Hput; [|reflexivity]. by constructor.
  - destruct a; simpl in Hs; injection Hs as _ <-; [eapply Hput; [|reflexivity]; by constructor.. | by apply lifecycle_stays].
  - destruct (use_ticket now s k h) as [r s1] eqn:E. injection Hs as _ <-. revert E. unfold use_ticket.
    destruct (tickets s !! k) as [x|] eqn:Hk; [|intros [= _ <-]; by apply lifecycle_stays].
    destruct (past_expiry (expires_at_ms x) now) eqn:Hp.
    { intros [= _ <-]. eapply Hput; [|reflexivity]. at_key Hk Hat. by constructor. }
    destruct (state x) eqn:Hx; try (intros [= _ <-]; by apply lifecycle_stays).
    assert (Hv : is_valid now x = true) by (unfold is_valid; rewrite bool_decide_eq_true_2 by done; by rewrite Hp).
    destruct (matches_args x h) eqn:Hm; simpl; [destruct (matches_context x h && negb (single_use x)) eqn:Hc|].
    + intros [= _ <-]. eapply Hput; [|reflexivity]. at_key Hk Hat. apply andb_prop in Hc as [? ?%negb_true_iff].
      apply lc_burn; auto.
    + destruct (single_use x) eqn:Hsu; intros [= _ <-]; [|by apply lifecycle_stays].
      eapply Hput; [|reflexivity]. at_key Hk Hat. by apply lc_use.
    + intros [= _ <-]. eapply Hput; [|reflexivity]. at_key Hk Hat. apply lc_burn; auto.
  - unfold revoke in Hs. destruct (tickets s !! k) as [x|] eqn:Hk; injection Hs as _ <-; [|by apply lifecycle_stays].
    eapply Hput; [|reflexivity]. at_key Hk Hat. constructor.
  - unfold approve, approve_inner in Hs. destruct (tickets s !! k) as [x|] eqn:Hk; [|injection Hs as _ <-; by apply lifecycle_stays].
    destruct (bool_decide (state x = Pending)) eqn:Hx; injection Hs as _ <-; [|by apply lifecycle_stays].
    eapply Hput; [|apply record_tickets]. at_key Hk Hat. apply bool_decide_eq_true in Hx. by constructor.
  - unfold approve_with_nonce, approve_inner in Hs. destruct (tickets s !! k) as [x|] eqn:Hk; [|injection Hs as _ <-; by apply lifecycle_stays].
    destruct (_ && _) eqn:Hx; injection Hs as _ <-; [|by apply lifecycle_stays].
    eapply Hput; [|apply record_tickets]. at_key Hk Hat. apply andb_prop in Hx as [Hx [Hn ->%String.eqb_eq]%andb_prop].
    apply bool_decide_eq_true in Hx. constructor; [done|]. intros E. by rewrite E in Hn.
  - unfold reject in Hs. destruct (tickets s !! k) as [x|] eqn:Hk; [|injection Hs as _ <-; by apply lifecycle_stays].
    destruct (bool_decide (state x = Pending)) eqn:Hx; injection Hs as _ <-; [|by apply lifecycle_stays].
    eapply Hput; [|apply record_tickets]. at_key Hk Hat. apply bool_decide_eq_true in Hx. by constructor.
  - unfold reject_with_nonce in Hs. destruct (tickets s !! k) as [x|] eqn:Hk; [|injection Hs as _ <-; by apply lifecycle_stays].
    destruct (_ && _) eqn:Hx; injection Hs as _ <-; [|by apply lifecycle_stays].
    eapply Hput; [|apply record_tickets]. at_key Hk Hat. apply andb_prop in Hx as [[Hx Hn]%andb_prop ->%String.eqb_eq].
    apply bool_decide_eq_true in Hx. constructor; [done|]. intros E. by rewrite E in Hn.
  - unfold set_bindings in Hs. destruct (tickets s !! k) as [x|] eqn:Hk; injection Hs as _ <-; [|by apply lifecycle_stays].
    eapply Hput; [|reflexivity]. at_key Hk Hat. constructor.
  - unfold set_execution in Hs. destruct (tickets s !! k) as [y|] eqn:Hk; injection Hs as _ <-; [|by apply lifecycle_stays].
    eapply Hput; [|reflexivity]. at_key Hk Hat. constructor.
  - unfold renew_pending in Hs. destruct (tickets s !! k) as [x|] eqn:Hk; [|injection Hs as _ <-; by apply lifecycle_stays].
    destruct (bool_decide (state x = Pending)) eqn:Hx; injection Hs as _ <-; [|by apply lifecycle_stays].
    eapply Hput; [|reflexivity]. at_key Hk Hat. apply bool_decide_eq_true in Hx. by constructor.
Qed.

(** [C3] Refinement of the abstract lifecycle: along any run of the store, with
    any clock and re-minting included, a ticket that is there stays there, and
    its whole record takes exactly one step of the lifecycle per operation of
    the run, labelled with that operation. *)
Theorem ticket_lifecycle_refinement s evs s' id t :
  ticket_run s evs s' → tickets s !! id = Some t →
  ∃ t', tickets s' !! id = Some t' ∧ lifecycle_path id t evs t'.
Proof.
  intros Hrun. revert t. induction Hrun as [s|now s op ok s1 evs s2 Hs _ IH]; intros t Ht.
  - exists t. split; [done|]. constructor.
  - destruct (ticket_step_lifecycle _ _ _ _ _ _ _ Hs Ht) as (t1 & Ht1 & Hl).
    destruct (IH t1 Ht1) as (t2 & Ht2 & Hp). exists t2. split; [done|]. by econstructor.
Qed.

Lemma use_spent_fails now s id h t :
  tickets s !! id = Some t → spent (state t) = true → is_ok (fst (use_ticket now s id h)) = false.
Proof. intros Ht Hsp. unfold use_ticket. rewrite Ht. repeat case_match; done. Qed.

(** [C1] At-most-once consumption: after a successful [use_ticket] of a
    single-use ticket, no later operation sequence whatsoever (approvals,
    rejections, revocations, renewals, clock jumps included) consumes that id
    again, until the id is minted anew. *)
Theorem single_use_consumed_once now s id h s1 t evs s2 :
  use_ticket now s id h = (Ok tt, s1) →
  tickets s !! id = Some t → single_use t = true →
  ticket_run s1 evs s2 →
  Forall (λ e, minted_id (snd (fst e)) ≠ Some id) evs →
  Forall (λ e, ∀ h', snd (fst e) = OpUse id h' → snd e = false) evs.
Proof.
  intros Hu Ht Hsu Hrun Hf.
  assert (Hsp : ∃ t1, tickets s1 !! id = Some t1 ∧ spent (state t1) = true).
  { unfold use_ticket in Hu. rewrite Ht in Hu. rewrite Hsu in Hu.
    repeat case_match; simplify_eq/=. rewrite lookup_insert_eq. by eexists. }
  clear Hu Ht. revert Hsp Hf.
  induction Hrun as [|now' s0 op ok s1' evs' s2' Hs _ IH]; intros (t1 & Ht1 & Hsp) Hf; [constructor|].
  apply Forall_cons in Hf as [Hm Hf]. simpl in Hm. constructor.
  - intros h' Hop. simpl in *. subst op. simpl in Hs.
    pose proof (use_spent_fails now' _ _ h' _ Ht1 Hsp) as Hfail.
    destruct (use_ticket now' s0 id h'). simplify_eq/=. done.
  - apply IH; [|done]. eapply ticket_step_life in Hs as (t2 & Ht2 & Hl & _); [|done..].
    exists t2. split; [done|]. by eapply life_spent.
Qed.

(** ** Approval is a prerequisite *)

Definition approval_recorded (s : TicketStore) (id : string) : Prop :=
  ∃ r, r ∈ receipts s ∧ gr_action r = RApprove ∧ gr_ticket_id r = id.

(** The mints of an asking run: every ticket starts pending, none is
    policy-approved at mint. *)
Definition asks (op : ticket_op) : Prop :=
  match op with
  | OpMint t => state t = Pending
  | OpMintGated t a => a ≠ GAllow ∧ state t = Pending
  | _ => True
  end.

(** Tickets sit under their own id, and an approved one has its receipt. *)
Definition approval_inv (s : TicketStore) : Prop :=
  ∀ id t, tickets s !! id = Some t →
    ticket_id t = id ∧ (state t = Approved → approval_recorded s id).

Lemma approval_inv_init : approval_inv ticket_store_new.
Proof. intros id t H. simpl in H. by rewrite lookup_empty in H. Qed.

Lemma approval_inv_step now s op ok s' :
  ticket_step now s op = (ok, s') → asks op → approval_inv s → approval_inv s'.
Proof.
  intros Hs Ha HI. destruct (minted_id op) as [mid|] eqn:E.
  - pose proof Hs as Hs0. eapply ticket_step_mint in Hs as (t0 & -> & Hid & Hop); [|done].
    intros id t. simpl. destruct (decide (mid = id)) as [->|Hne].
    + rewrite lookup_insert_eq. intros [= <-]. split; [done|].
      destruct Hop as [-> | (a & t1 & -> & Hask)]; simpl in Ha; [congruence|].
      destruct Ha as [Hna Hst]. destruct a; [done | rewrite Hask by done; congruence | done].
    + rewrite lookup_insert_ne by done. intros Ht. by apply HI in Ht.
  - eapply ticket_step_change in Hs; [|done]. destruct Hs as [|k t1 t2 rs Hk Hl Hi Hap]; [done|].
    intros id t. simpl. unfold approval_recorded. simpl.
    destruct (decide (k = id)) as [->|Hne].
    + rewrite lookup_insert_eq. intros [= <-]. destruct (HI _ _ Hk) as [Hid Hrec]. split.
      { destruct Hi as [-> _]. done. }
      intros Happ. destruct (Hap Happ) as [Hold | (r & Hr & Hact & Hrid)].
      * destruct (Hrec Hold) as (r & Hr & ?). exists r. by rewrite elem_of_app; auto.
      * exists r. rewrite elem_of_app, Hrid. auto.
    + rewrite lookup_insert_ne by done. intros Ht. destruct (HI _ _ Ht) as [Hid Hrec].
      split; [done|]. intros Happ. destruct (Hrec Happ) as (r & Hr & ?). exists r. by rewrite elem_of_app; auto.
Qed.

Lemma approval_inv_run s evs s' :
  ticket_run s evs s' → Forall (λ e, asks (snd (fst e))) evs → approval_inv s → approval_inv s'.
Proof.
  induction 1 as [|now s op ok s1 evs s2 Hs _ IH]; [done|]. intros [Ha Hf]%Forall_cons HI.
  eauto using approval_inv_step.
Qed.

(** [C2] No effect without approval: in every store reached from the empty
    one by a run whose tickets are all minted pending, a [use_ticket] that
    succeeds finds an [approve] receipt for that ticket already recorded. *)
Theorem consumption_has_approval_receipt evs s now id h s' :
  ticket_run ticket_store_new evs s →
  Forall (λ e, asks (snd (fst e))) evs →
  use_ticket now s id h = (Ok tt, s') →
  approval_recorded s id.
Proof.
  intros Hrun Hf Hu.
  pose proof (approval_inv_run _ _ _ Hrun Hf approval_inv_init) as HI.
  unfold use_ticket in Hu. destruct (tickets s !! id) as [t|] eqn:Ht; [|done].
  apply (HI id t Ht). by repeat case_match.
Qed.

(** ** Functional behaviour of each operation *)

(** Exactly when [use_ticket] consumes, and what it writes: the ticket
    is known, approved, unexpired, the presented hash is its argument hash or
    its context hash, and a context-bound use needs the single-use flag; the
    store then changes only by marking a single-use ticket used. *)
Theorem use_ticket_ok_iff now s id h s' :
  use_ticket now s id h = (Ok tt, s') ↔
  ∃ t, tickets s !! id = Some t ∧ is_valid now t = true ∧ matches_args t h = true ∧
       (matches_context t h = true → single_use t = true) ∧
       s' = (if single_use t then put_ticket s id (set_state t Used) else s).
Proof.
  unfold use_ticket, is_valid. split.
  - intros H. destruct (tickets s !! id) as [t|]; [|done]. exists t.
    repeat case_match; simplify_eq/=; bool_hyps; repeat split; try done;
      try (rewrite bool_decide_eq_true_2 by done; done); try congruence.
    all: intros; destruct (matches_context t h); simplify_eq/=; congruence.
  - intros (t & -> & Hv & Hm & Hc & ->). rewrite Hm.
    destruct (bool_decide_reflect (state t = Approved)) as [->|]; [|done]. simpl in Hv.
    destruct (past_expiry _ _); [done|]. simpl.
    destruct (matches_context t h), (single_use t); try done. by discriminate Hc.
Qed.

(** The two consumption paths agree: on the ticket stored under [id],
    [AuthorizationTicket::consume] succeeds exactly when [use_ticket] does,
    and leaves the same ticket. *)
Theorem consume_agrees_with_use_ticket now s id h t :
  tickets s !! id = Some t →
  is_ok (fst (use_ticket now s id h)) = fst (consume now t h) ∧
  (fst (consume now t h) = true →
   tickets (snd (use_ticket now s id h)) !! id = Some (snd (consume now t h))).
Proof.
  intros Ht. unfold use_ticket, consume, is_valid. rewrite Ht.
  destruct (past_expiry (expires_at_ms t) now) eqn:Hp.
  { destruct (bool_decide _); simpl; done. }
  destruct (state t) eqn:Hst; simpl; try done.
  destruct (matches_args t h), (matches_context t h), (single_use t); simpl;
    try done; split; try done; by rewrite lookup_insert_eq.
Qed.

(** A failed consumption is typed by its first failing check, and burns
    the ticket exactly on expiry, on a hash mismatch and on a context-bound
    use of a multi-use ticket; every other refusal leaves the store as it was. *)
Theorem use_ticket_err_cases now s id h e s' :
  use_ticket now s id h = (Err e, s') →
  match tickets s !! id with
  | None => e = EUnknown ∧ s' = s
  | Some t =>
      if past_expiry (expires_at_ms t) now then
        e = EExpired ∧ s' = put_ticket s id (set_state t Expired)
      else match state t with
      | Pending => e = ENotApproved ∧ s' = s
      | Used => e = EAlreadyUsed ∧ s' = s
      | Revoked => e = ERevoked ∧ s' = s
      | Rejected => e = ERejected ∧ s' = s
      | Expired => e = EExpired ∧ s' = s
      | Approved =>
          s' = put_ticket s id (set_state t Rejected) ∧
          e = if matches_args t h then ENotSingleUse else EArgsMismatch
      end
  end.
Proof.
  unfold use_ticket. destruct (tickets s !! id) as [t|]; [|by intros [= <- <-]].
  destruct (past_expiry _ _); [by intros [= <- <-]|].
  destruct (state t); try by intros [= <- <-].
  destruct (matches_args t h), (matches_context t h), (single_use t); by intros ?; simplify_eq/=.
Qed.

(** A human approval is bound to the card: [approve_with_nonce] succeeds
    exactly on a pending ticket whose non-empty nonce is presented. *)
Theorem approve_with_nonce_iff now s id n :
  fst (approve_with_nonce now s id n) = true ↔
  ∃ t, tickets s !! id = Some t ∧ state t = Pending ∧ n ≠ "" ∧ n = approval_nonce t.
Proof.
  unfold approve_with_nonce, approve_inner. destruct (tickets s !! id) as [t|].
  - destruct (bool_decide_reflect (state t = Pending)) as [Hp|Hp]; simpl.
    + destruct n as [|c n]; simpl; [split; [done | by intros (? & ? & ? & ? & ?)]|].
      destruct (String.eqb_spec (String c n) (approval_nonce t)) as [He|He]; simpl.
      * split; [intros _; exists t; by repeat split | done].
      * split; [done | intros (? & [= <-] & ? & ? & ?); done].
    + split; [done | intros (? & [= <-] & ? & ?); done].
  - split; [done | by intros (? & ? & ?)].
Qed.

(** Receipts: numbered by position, only ever appended. *)
Definition receipts_numbered (s : TicketStore) : Prop :=
  ∀ i r, receipts s !! i = Some r → gr_receipt_id r = "rcpt:" +:+ pretty i.

Lemma record_numbered s id a now :
  receipts_numbered s → receipts_numbered (snd (record s id a now)).
Proof.
  intros HI. unfold record. destruct (tickets s !! id) as [t|]; [|done].
  intros i r. simpl. rewrite lookup_app. destruct (receipts s !! i) as [r0|] eqn:E.
  - intros [= <-]. by apply HI.
  - intros Hr. apply list_lookup_singleton_Some in Hr as [Hi <-]. simpl.
    apply lookup_ge_None in E. by replace i with (length (receipts s)) by lia.
Qed.

Lemma receipts_step now s op ok s' :
  ticket_step now s op = (ok, s') →
  receipts s `prefix_of` receipts s' ∧ (receipts_numbered s → receipts_numbered s').
Proof.
  intros Hs. destruct (minted_id op) as [mid|] eqn:E.
  { eapply ticket_step_mint in Hs as (t & -> & _); [|done]. by split. }
  split.
  - eapply ticket_step_change in Hs; [|done]. destruct Hs; [done|]. simpl. by eexists.
  - intros HN. destruct op; simpl in *; try discriminate;
      unfold use_ticket, revoke, approve, approve_with_nonce, approve_inner, reject,
        reject_with_nonce, set_bindings, set_execution, renew_pending in Hs;
      repeat case_match; simplify_eq/=; try done; by apply record_numbered.
Qed.

(** The approval trail is append-only: along any run the earlier
    receipts are a prefix of the later ones, and receipt [i] carries the id
    [rcpt:i], so ids never repeat. *)
Theorem receipts_append_only s evs s' :
  ticket_run s evs s' →
  receipts s `prefix_of` receipts s' ∧
  (receipts_numbered s → receipts_numbered s' ∧
   ∀ i j r1 r2, receipts s' !! i = Some r1 → receipts s' !! j = Some r2 →
     gr_receipt_id r1 = gr_receipt_id r2 → i = j).
Proof.
  intros Hrun. assert (receipts s `prefix_of` receipts s' ∧
                       (receipts_numbered s → receipts_numbered s')) as [Hp HN].
  { induction Hrun as [s|now s op ok s1 evs s2 Hs _ [IHp IHn]]; [done|].
    apply receipts_step in Hs as [? ?]. split; [by etrans | auto]. }
  split; [done|]. intros H. split; [auto|]. intros i j r1 r2 H1 H2 Heq.
  rewrite (HN H i r1 H1), (HN H j r2 H2) in Heq.
  apply (inj (String.app "rcpt:")) in Heq. by apply (inj pretty) in Heq.
Qed.
End System.

(** ** Hash binding and risk tiers *)

(** A context hash names one tool, one operation and one argument hash:
    for NUL-free fields, equal context hashes mean equal triples, or else the
    two (different) framed inputs are a SHA-256 collision. *)
Theorem context_hash_binds {sha : Sha256} t1 o1 a1 t2 o2 a2 :
  forallb nul_free [t1; o1; a1; t2; o2; a2] = true →
  ticket_context_hash t1 o1 a1 = ticket_context_hash t2 o2 a2 →
  (t1, o1, a1) = (t2, o2, a2) ∨
  collides (nul_frame (context_parts t1 o1 a1)) (nul_frame (context_parts t2 o2 a2)).
Proof.
  intros Hn Hh. apply sha256_eq_or_collides in Hh as [Hf|]; [left | by right].
  simpl in Hn. bool_hyps.
  apply nul_frame_inj in Hf; [by injection Hf as -> -> -> | |];
    simpl; repeat (apply andb_true_iff; split); done.
Qed.

Lemma context_hash_binds_witness :
  ("shell.exec", "exec", "h") = ("shell.exec", "exec", "h") ∨
  @collides plain_digest (nul_frame (context_parts "shell.exec" "exec" "h"))
           (nul_frame (context_parts "shell.exec" "exec" "h")).
Proof.
  apply (@context_hash_binds plain_digest "shell.exec" "exec" "h" "shell.exec" "exec" "h");
    vm_compute; reflexivity.
Defined.

(** The framing is ambiguous once a field carries a NUL byte. *)
Lemma context_hash_nul_ambiguity {sha : Sha256} h :
  ticket_context_hash ("a" +:+ ch NUL +:+ "b") "c" h =
  ticket_context_hash "a" ("b" +:+ ch NUL +:+ "c") h.
Proof. reflexivity. Qed.

(** Risk grading: credential, install and emergency-stop operations are
    R4 whatever the declared risk, and they are the only ones: a
    [Critical] operation of any other name is never graded above R3 (the
    [Critical => R4] arm is unreachable). *)
Theorem r4_iff_named {lower : Lowercase} r op ro :
  from_risk_and_op r op ro = R4 ↔
  contains "credential" (to_lowercase op) || contains "install" (to_lowercase op)
  || contains "estop" (to_lowercase op) = true.
Proof.
  unfold from_risk_and_op. destruct (_ || _ || contains "estop" _) eqn:E1; [done|].
  split; [|discriminate]. clear E1.
  destruct (_ || _ || contains "web" _); [done|]. destruct ro; [done|].
  destruct r; unfold risk_geb; simpl; rewrite ?orb_true_r; repeat case_match; done.
Qed.

(** ** Witnesses *)

Module TicketExamples.
#[local] Existing Instance plain_digest.

Definition tk : AuthorizationTicket :=
  path_ticket 1000 "n1" "t1" "agent" "sess" "fs.write" "write" ["/w"] "argsh" Low 7.
Definition s1 : TicketStore := snd (mint ticket_store_new tk).
Definition s2 : TicketStore := snd (approve_with_nonce 2000 s1 "t1" "n1").
Definition s3 : TicketStore := snd (use_ticket 3000 s2 "t1" "argsh").
Definition evs : list (N * ticket_op * bool) :=
  [(1000%N, OpMint tk, true); (2000%N, OpApproveNonce "t1" "n1", true)].

Lemma run_s2 : ticket_run ticket_store_new evs s2.
Proof. repeat econstructor. Defined.
End TicketExamples.
Import TicketExamples.

Lemma ticket_lifecycle_refinement_witness :
  ∃ t', tickets s3 !! "t1" = Some t' ∧ state t' = Used ∧
    @lifecycle_path plain_digest "t1" tk [(2000%N, OpApproveNonce "t1" "n1", true); (3000%N, OpUse "t1" "argsh", true)] t'.
Proof.
  destruct (@ticket_lifecycle_refinement plain_digest s1
           [(2000%N, OpApproveNonce "t1" "n1", true); (3000%N, OpUse "t1" "argsh", true)]
           s3 "t1" tk) as (t' & Ht' & Hp).
  - econstructor; [vm_compute; reflexivity|]. econstructor; [vm_compute; reflexivity|]. constructor.
  - vm_compute. reflexivity.
  - exists t'. split; [exact Ht'|]. split; [vm_compute in Ht'; injection Ht' as <-; reflexivity | exact Hp].
Defined.

Lemma single_use_consumed_once_witness :
  Forall (λ e, ∀ h', snd (fst e) = OpUse "t1" h' → snd e = false)
    [(4000%N, OpUse "t1" "argsh", false)].
Proof.
  apply (@single_use_consumed_once plain_digest 3000 s2 "t1" "argsh" s3
           (set_source (set_state tk Approved) SHuman) _ s3).
  - vm_compute. reflexivity.
  - vm_compute. reflexivity.
  - reflexivity.
  - econstructor; [vm_compute; reflexivity|]. constructor.
  - repeat constructor; discriminate.
Defined.

Lemma consumption_has_approval_receipt_witness : approval_recorded s2 "t1".
Proof.
  apply (@consumption_has_approval_receipt plain_digest evs s2 3000 "t1" "argsh" s3).
  - exact run_s2.
  - repeat constructor.
  - vm_compute. reflexivity.
Defined.

Lemma use_ticket_err_cases_witness :
  match tickets s1 !! "t1" with
  | None => ENotApproved = EUnknown ∧ s1 = s1
  | Some t =>
      if past_expiry (expires_at_ms t) 3000 then
        ENotApproved = EExpired ∧ s1 = put_ticket s1 "t1" (set_state t Expired)
      else match state t with
      | Pending => ENotApproved = ENotApproved ∧ s1 = s1
      | Used => ENotApproved = EAlreadyUsed ∧ s1 = s1
      | Revoked => ENotApproved = ERevoked ∧ s1 = s1
      | Rejected => ENotApproved = ERejected ∧ s1 = s1
      | Expired => ENotApproved = EExpired ∧ s1 = s1
      | Approved =>
          s1 = put_ticket s1 "t1" (set_state t Rejected) ∧
          ENotApproved = if @matches_args plain_digest t "argsh" then ENotSingleUse else EArgsMismatch
      end
  end.
Proof. apply (@use_ticket_err_cases plain_digest 3000 s1 "t1" "argsh"). vm_compute. reflexivity. Defined.

Lemma consume_agrees_with_use_ticket_witness :
  is_ok (fst (@use_ticket plain_digest 3000 s1 "t1" "argsh")) =
    fst (@consume plain_digest 3000 tk "argsh") ∧
  (fst (@consume plain_digest 3000 tk "argsh") = true →
   tickets (snd (@use_ticket plain_digest 3000 s1 "t1" "argsh")) !! "t1" =
     Some (snd (@consume plain_digest 3000 tk "argsh"))).
Proof. apply (@consume_agrees_with_use_ticket plain_digest 3000 s1 "t1" "argsh" tk). vm_compute. reflexivity. Defined.

Lemma receipts_append_only_witness :
  receipts ticket_store_new `prefix_of` receipts s2 ∧
  (receipts_numbered ticket_store_new → receipts_numbered s2 ∧
   ∀ i j r1 r2, receipts s2 !! i = Some r1 → receipts s2 !! j = Some r2 →
     gr_receipt_id r1 = gr_receipt_id r2 → i = j).
Proof. apply (@receipts_append_only plain_digest ticket_store_new evs s2). exact run_s2. Defined.
