(* ===== verification/Batch.v ===== *)
(** * Batch tickets ([everyaios-guard/src/batch.rs])

    One approval for an exact change set. The store mirrors [Ticket]; its
    consumption path tests three states where [Ticket.use_ticket] tests five,
    and the theorems at the end say what that costs. *)
From S2P Require Import Prelude Ticket.

(** ** Data *)

(* SRC guard/src/batch.rs @struct:BatchOperation BatchOperation *)
Record BatchOperation := {
  bo_tool_id : string;
  bo_operation : string;
  bo_args_hash : string;
  bo_resources : list string
}.

#[export] Instance BatchOperation_eq : EqDecision BatchOperation.
Proof. solve_decision. Defined.
#[export] Instance BatchOperation_countable : Countable BatchOperation.
Proof.
  refine (inj_countable'
    (λ o, (bo_tool_id o, bo_operation o, bo_args_hash o, bo_resources o))
    (λ '(a, b, c, d), Build_BatchOperation a b c d) _).
  by intros [].
Defined.

(* SRC guard/src/batch.rs @struct:BatchTicket BatchTicket *)
Record BatchTicket := {
  bt_ticket_id : string;
  bt_agent_id : string;
  bt_session_id : string;
  bt_change_set_hash : string;
  bt_operations : list BatchOperation;
  bt_expires_at_ms : N;
  bt_single_use : bool;
  bt_approval_source : ApprovalSource;
  bt_approval_nonce : string;
  bt_risk : RiskLevel;
  bt_audit_seq : N;
  bt_state : TicketState
}.

Definition batch_set_state (t : BatchTicket) (s : TicketState) : BatchTicket :=
  {| bt_ticket_id := bt_ticket_id t; bt_agent_id := bt_agent_id t;
     bt_session_id := bt_session_id t; bt_change_set_hash := bt_change_set_hash t;
     bt_operations := bt_operations t; bt_expires_at_ms := bt_expires_at_ms t;
     bt_single_use := bt_single_use t; bt_approval_source := bt_approval_source t;
     bt_approval_nonce := bt_approval_nonce t; bt_risk := bt_risk t;
     bt_audit_seq := bt_audit_seq t; bt_state := s |}.
Definition batch_set_source (t : BatchTicket) (s : ApprovalSource) : BatchTicket :=
  {| bt_ticket_id := bt_ticket_id t; bt_agent_id := bt_agent_id t;
     bt_session_id := bt_session_id t; bt_change_set_hash := bt_change_set_hash t;
     bt_operations := bt_operations t; bt_expires_at_ms := bt_expires_at_ms t;
     bt_single_use := bt_single_use t; bt_approval_source := s;
     bt_approval_nonce := bt_approval_nonce t; bt_risk := bt_risk t;
     bt_audit_seq := bt_audit_seq t; bt_state := bt_state t |}.
Definition batch_set_expiry_nonce (t : BatchTicket) (e : N) (n : string) : BatchTicket :=
  {| bt_ticket_id := bt_ticket_id t; bt_agent_id := bt_agent_id t;
     bt_session_id := bt_session_id t; bt_change_set_hash := bt_change_set_hash t;
     bt_operations := bt_operations t; bt_expires_at_ms := e;
     bt_single_use := bt_single_use t; bt_approval_source := bt_approval_source t;
     bt_approval_nonce := n; bt_risk := bt_risk t;
     bt_audit_seq := bt_audit_seq t; bt_state := bt_state t |}.

(* SRC guard/src/batch.rs @enum:BatchAction BatchAction *)
Inductive BatchAction := BApprove | BReject.

(* SRC guard/src/batch.rs @struct:BatchReceipt BatchReceipt *)
Record BatchReceipt := {
  br_receipt_id : string;
  br_ticket_id : string;
  br_session_id : string;
  br_change_set_hash : string;
  br_operation_count : nat;
  br_action : BatchAction;
  br_ts_ms : N;
  br_hash : string
}.

(* SRC guard/src/batch.rs @struct:BatchTicketStore BatchTicketStore *)
Record BatchTicketStore := {
  batch_tickets : gmap string BatchTicket;
  batch_receipts : list BatchReceipt
}.

(** [serde_json::to_string] of the operation list, and what its documentation
    promises: different lists print differently. *)
Class BatchJson := { batch_json : list BatchOperation → string }.
Class BatchJsonLaws {json : BatchJson} : Prop := { batch_json_inj :: Inj (=) (=) batch_json }.

Definition counted_json : BatchJson := {| batch_json := λ ops, pretty (N.pos (encode ops)) |}.
Lemma counted_json_laws : @BatchJsonLaws counted_json.
Proof.
  constructor. intros a b H. simpl in H. apply (inj pretty) in H.
  injection H as H. by apply (inj encode) in H.
Qed.

Section Batch.
Context {sha : Sha256} {json : BatchJson}.

(* SRC guard/src/batch.rs @fn:change_set_hash change_set_hash *)
Definition change_set_hash (operations : list BatchOperation) : string :=
  hash_args [batch_json operations].

(* SRC guard/src/batch.rs @fn:mint BatchTicket::mint *)
Definition batch_ticket_mint (now : N) (nonce : string)
    (tid agent session : string) (operations : list BatchOperation)
    (r : RiskLevel) (seq : N) : BatchTicket :=
  {| bt_ticket_id := tid; bt_agent_id := agent; bt_session_id := session;
     bt_change_set_hash := change_set_hash operations; bt_operations := operations;
     bt_expires_at_ms := u64_add now 60000; bt_single_use := true;
     bt_approval_source := SPolicy; bt_approval_nonce := nonce; bt_risk := r;
     bt_audit_seq := seq; bt_state := Pending |}.

(* SRC guard/src/batch.rs @fn:is_valid BatchTicket::is_valid *)
Definition batch_is_valid (now : N) (t : BatchTicket) : bool :=
  if negb (bool_decide (bt_state t = Approved)) then false
  else if past_expiry (bt_expires_at_ms t) now then false
  else true.

(* SRC guard/src/batch.rs @fn:matches_change_set BatchTicket::matches_change_set *)
Definition matches_change_set (t : BatchTicket) (h : string) : bool :=
  String.eqb (bt_change_set_hash t) h.

(* SRC guard/src/batch.rs @fn:consume BatchTicket::consume *)
Definition batch_consume (now : N) (t : BatchTicket) (h : string) : bool * BatchTicket :=
  if negb (batch_is_valid now t) || negb (matches_change_set t h) then (false, t)
  else if bt_single_use t then (true, batch_set_state t Used)
  else (true, t).

(* SRC guard/src/batch.rs @fn:new#2 BatchReceipt::new *)
Definition batch_receipt_new (receipt_id : string) (t : BatchTicket)
    (action : BatchAction) (ts_ms : N) : BatchReceipt :=
  {| br_receipt_id := receipt_id;
     br_ticket_id := bt_ticket_id t;
     br_session_id := bt_session_id t;
     br_change_set_hash := bt_change_set_hash t;
     br_operation_count := length (bt_operations t);
     br_action := action;
     br_ts_ms := ts_ms;
     br_hash := hash_args [receipt_id; bt_ticket_id t; bt_session_id t; bt_change_set_hash t;
                           pretty (length (bt_operations t));
                           match action with BApprove => "approve" | BReject => "reject" end;
                           pretty ts_ms] |}.

(* SRC guard/src/batch.rs @fn:new#3 BatchTicketStore::new *)
Definition batch_store_new : BatchTicketStore := {| batch_tickets := ∅; batch_receipts := [] |}.

Definition put_batch (s : BatchTicketStore) (id : string) (t : BatchTicket) : BatchTicketStore :=
  {| batch_tickets := <[id := t]> (batch_tickets s); batch_receipts := batch_receipts s |}.

(* SRC guard/src/batch.rs @fn:mint#2 BatchTicketStore::mint *)
Definition batch_mint (s : BatchTicketStore) (t : BatchTicket) : string * BatchTicketStore :=
  (bt_ticket_id t, put_batch s (bt_ticket_id t) t).

(* SRC guard/src/batch.rs @fn:pending BatchTicketStore::pending *)
Definition batch_pending (s : BatchTicketStore) : list BatchTicket :=
  filter (λ t, bt_state t = Pending) (map snd (map_to_list (batch_tickets s))).

(* SRC guard/src/batch.rs @fn:record BatchTicketStore::record *)
Definition batch_record (s : BatchTicketStore) (id : string) (action : BatchAction) (now : N)
    : bool * BatchTicketStore :=
  match batch_tickets s !! id with
  | None => (false, s)
  | Some t =>
      let seq := length (batch_receipts s) in
      let receipt := batch_receipt_new ("brcpt:" +:+ pretty seq) t action now in
      (true, {| batch_tickets := batch_tickets s;
                batch_receipts := batch_receipts s ++ [receipt] |})
  end.

(* SRC guard/src/batch.rs @fn:approve_with_nonce BatchTicketStore::approve_with_nonce *)
Definition batch_approve_with_nonce (now : N) (s : BatchTicketStore) (id nonce : string)
    : bool * BatchTicketStore :=
  match batch_tickets s !! id with
  | Some t =>
      if bool_decide (bt_state t = Pending) && negb (is_empty nonce)
         && String.eqb nonce (bt_approval_nonce t)
      then (true, snd (batch_record
                         (put_batch s id (batch_set_source (batch_set_state t Approved) SHuman))
                         id BApprove now))
      else (false, s)
  | None => (false, s)
  end.

(* SRC guard/src/batch.rs @fn:approve BatchTicketStore::approve *)
Definition batch_approve (now : N) (s : BatchTicketStore) (id : string)
    : bool * BatchTicketStore :=
  match batch_tickets s !! id with
  | Some t =>
      if bool_decide (bt_state t = Pending)
      then (true, snd (batch_record
                         (put_batch s id (batch_set_source (batch_set_state t Approved) SPolicy))
                         id BApprove now))
      else (false, s)
  | None => (false, s)
  end.

(* SRC guard/src/batch.rs @fn:reject_with_nonce BatchTicketStore::reject_with_nonce *)
Definition batch_reject_with_nonce (now : N) (s : BatchTicketStore) (id nonce : string)
    : bool * BatchTicketStore :=
  match batch_tickets s !! id with
  | Some t =>
      if bool_decide (bt_state t = Pending) && negb (is_empty nonce)
         && String.eqb nonce (bt_approval_nonce t)
      then (true, snd (batch_record (put_batch s id (batch_set_state t Revoked)) id BReject now))
      else (false, s)
  | None => (false, s)
  end.

(* SRC guard/src/batch.rs @fn:revoke BatchTicketStore::revoke *)
Definition batch_revoke (s : BatchTicketStore) (id : string) : BatchTicketStore :=
  match batch_tickets s !! id with
  | Some t => put_batch s id (batch_set_state t Revoked)
  | None => s
  end.

(* SRC guard/src/batch.rs @fn:use_batch_ticket BatchTicketStore::use_batch_ticket *)
Definition use_batch_ticket (now : N) (s : BatchTicketStore) (id h : string)
    : result unit TicketError * BatchTicketStore :=
  match batch_tickets s !! id with
  | None => (Err EUnknown, s)
  | Some t =>
      if past_expiry (bt_expires_at_ms t) now then
        (Err EExpired, put_batch s id (batch_set_state t Expired))
      else if bool_decide (bt_state t = Used) then (Err EAlreadyUsed, s)
      else if bool_decide (bt_state t = Revoked) then (Err ERevoked, s)
      else if bool_decide (bt_state t = Pending) then (Err ENotApproved, s)
      else if negb (matches_change_set t h) then
        (Err EArgsMismatch, put_batch s id (batch_set_state t Rejected))
      else if bt_single_use t then (Ok tt, put_batch s id (batch_set_state t Used))
      else (Ok tt, s)
  end.

(** ** The exact change set *)

(** An approval covers exactly one change set: if a ticket minted for
    [ops] is consumed with the hash of [ops'], then [ops' = ops], or the two
    hashed inputs are a SHA-256 collision. *)
Theorem batch_consumption_binds_change_set {laws : BatchJsonLaws}
    now0 nonce tid agent sess ops r seq st src now s id ops' s' :
  batch_tickets s !! id =
    Some (batch_set_state (batch_set_source
            (batch_ticket_mint now0 nonce tid agent sess ops r seq) src) st) →
  use_batch_ticket now s id (change_set_hash ops') = (Ok tt, s') →
  ops' = ops ∨ collides (nul_frame [batch_json ops]) (nul_frame [batch_json ops']).
Proof.
  intros Ht. unfold use_batch_ticket. rewrite Ht. cbn.
  destruct (past_expiry _ _); [done|]. destruct st; try done;
  (destruct (matches_change_set _ _) eqn:Hm; [intros _|done]);
  apply String.eqb_eq, sha256_eq_or_collides in Hm as [Hm|]; auto; left;
  apply app_string_inj_r in Hm; by apply app_string_inj_r, (inj batch_json) in Hm.
Qed.

(** A wrong hash does not burn a batch ticket. The store records the
    mismatch as [Rejected], but the next call never tests that state: the
    same ticket is consumed by the right hash afterwards (while
    [AuthorizationTicket] refuses it, [use_ticket_err_cases]). *)
Theorem rejected_batch_is_still_consumable now now' s id t h :
  batch_tickets s !! id = Some t → bt_state t = Approved →
  past_expiry (bt_expires_at_ms t) now = false →
  past_expiry (bt_expires_at_ms t) now' = false →
  h ≠ bt_change_set_hash t →
  let '(r1, s1) := use_batch_ticket now s id h in
  let '(r2, s2) := use_batch_ticket now' s1 id (bt_change_set_hash t) in
  r1 = Err EArgsMismatch ∧
  (bt_state <$> batch_tickets s1 !! id) = Some Rejected ∧
  r2 = Ok tt.
Proof.
  intros Ht Hst He He' Hh. unfold use_batch_ticket. rewrite Ht, He, Hst. simpl.
  unfold matches_change_set. destruct (String.eqb_spec (bt_change_set_hash t) h); [congruence|].
  simpl. rewrite lookup_insert_eq. simpl. rewrite He', String.eqb_refl. simpl.
  destruct (bt_single_use t); done.
Qed.

(** [consume] on the value tests [Approved] and so refuses it. *)
Lemma rejected_batch_not_valid now t : bt_state t = Rejected → batch_is_valid now t = false.
Proof. intros H. unfold batch_is_valid. by rewrite H. Qed.

(** ** The store as a transition system *)

Inductive batch_op :=
  | BOpMint (t : BatchTicket)
  | BOpUse (id h : string)
  | BOpRevoke (id : string)
  | BOpApprove (id : string)
  | BOpApproveNonce (id n : string)
  | BOpRejectNonce (id n : string).

Definition batch_step (now : N) (s : BatchTicketStore) (op : batch_op)
    : bool * BatchTicketStore :=
  match op with
  | BOpMint t => (true, snd (batch_mint s t))
  | BOpUse id h => let '(r, s') := use_batch_ticket now s id h in (is_ok r, s')
  | BOpRevoke id => (true, batch_revoke s id)
  | BOpApprove id => batch_approve now s id
  | BOpApproveNonce id n => batch_approve_with_nonce now s id n
  | BOpRejectNonce id n => batch_reject_with_nonce now s id n
  end.

(** Runs whose clock never goes back. *)
Inductive batch_run : N → BatchTicketStore → list (N * batch_op * bool) → BatchTicketStore → Prop :=
  | brun_nil c s : batch_run c s [] s
  | brun_cons c now s op ok s1 evs s2 :
      (c ≤ now)%N → batch_step now s op = (ok, s1) → batch_run now s1 evs s2 →
      batch_run c s ((now, op, ok) :: evs) s2.

Definition batch_minted_id (op : batch_op) : option string :=
  match op with BOpMint t => Some (bt_ticket_id t) | _ => None end.

Definition batch_expired (c : N) (t : BatchTicket) : Prop :=
  past_expiry (bt_expires_at_ms t) c = true.

Lemma past_expiry_mono e c c' :
  (c ≤ c')%N → past_expiry e c = true → past_expiry e c' = true.
Proof.
  unfold past_expiry. intros Hc H. bool_hyps. rewrite andb_true_iff, negb_true_iff.
  split; [by apply N.eqb_neq | apply N.ltb_lt; lia].
Qed.

(** What one operation other than a mint does to the store. *)
Inductive batch_change (now : N) (s : BatchTicketStore) : BatchTicketStore → Prop :=
  | bchange_none : batch_change now s s
  | bchange_one id t t' rs :
      batch_tickets s !! id = Some t →
      bt_ticket_id t' = bt_ticket_id t → bt_single_use t' = bt_single_use t →
      bt_expires_at_ms t' = bt_expires_at_ms t →
      (bt_state t' = Approved → bt_state t = Pending ∧
         ∃ r, r ∈ rs ∧ br_action r = BApprove ∧ br_ticket_id r = bt_ticket_id t) →
      (bt_state t' = Expired → batch_expired now t) →
      (bt_state t' = Used ∨ bt_state t' = Rejected →
         bt_state t ∈ [Approved; Rejected; Expired] ∧ ¬ batch_expired now t) →
      bt_state t' ≠ Pending →
      batch_change now s {| batch_tickets := <[id := t']> (batch_tickets s);
                            batch_receipts := batch_receipts s ++ rs |}.

Lemma bchange_quiet now s id t st :
  batch_tickets s !! id = Some t → st ≠ Approved → st ≠ Pending →
  (st = Expired → batch_expired now t) →
  (st = Used ∨ st = Rejected → bt_state t ∈ [Approved; Rejected; Expired] ∧ ¬ batch_expired now t) →
  batch_change now s (put_batch s id (batch_set_state t st)).
Proof.
  intros. unfold put_batch. rewrite <- (app_nil_r (batch_receipts s)).
  by eapply bchange_one.
Qed.

Lemma batch_record_put s id t a now :
  snd (batch_record (put_batch s id t) id a now) =
  {| batch_tickets := <[id := t]> (batch_tickets s);
     batch_receipts := batch_receipts s ++
       [batch_receipt_new ("brcpt:" +:+ pretty (length (batch_receipts s))) t a now] |}.
Proof. unfold batch_record. simpl. by rewrite lookup_insert_eq. Qed.

Lemma bchange_approve now s id t src :
  batch_tickets s !! id = Some t → bt_state t = Pending →
  batch_change now s (snd (batch_record
    (put_batch s id (batch_set_source (batch_set_state t Approved) src)) id BApprove now)).
Proof.
  intros Ht Hp. rewrite batch_record_put.
  eapply bchange_one; simpl; try done; try (intros [|]; done). intros _. split; [done|].
  eexists. split; [by apply list_elem_of_singleton|]. done.
Qed.

Lemma use_batch_ticket_change now s id h r s' :
  use_batch_ticket now s id h = (r, s') → batch_change now s s'.
Proof.
  unfold use_batch_ticket. destruct (batch_tickets s !! id) as [t|] eqn:Ht;
    [|intros [= <- <-]; constructor].
  destruct (past_expiry _ _) eqn:He.
  { intros [= <- <-]. apply bchange_quiet; try done. by intros [|]. }
  assert (Hne : ¬ batch_expired now t) by (unfold batch_expired; congruence).
  destruct (bt_state t) eqn:Hst; simpl;
    try (intros [= <- <-]; constructor);
  destruct (matches_change_set t h); simpl; try case_match; intros [= <- <-];
    try constructor; apply bchange_quiet; try done; intros _; rewrite Hst;
    (split; [set_solver | done]).
Qed.

Lemma batch_step_change now s op ok s' :
  batch_step now s op = (ok, s') → batch_minted_id op = None → batch_change now s s'.
Proof.
  intros Hs Hm. destruct op; simpl in *; try discriminate.
  - destruct (use_batch_ticket now s id h) eqn:E. simplify_eq/=. by eapply use_batch_ticket_change.
  - unfold batch_revoke in Hs. case_match; simplify_eq; [|constructor].
    apply bchange_quiet; try done. by intros [|].
  - unfold batch_approve in Hs. repeat case_match; simplify_eq/=; bool_hyps;
      [by apply bchange_approve | constructor..].
  - unfold batch_approve_with_nonce in Hs. repeat case_match; simplify_eq/=; bool_hyps;
      [by apply bchange_approve | constructor..].
  - unfold batch_reject_with_nonce in Hs. repeat case_match; simplify_eq/=; bool_hyps;
      [|constructor..].
    rewrite batch_record_put. eapply bchange_one; simpl; try done. by intros [|].
Qed.

(** Not consumable at clock [c] or later. *)
Definition batch_spent (c : N) (t : BatchTicket) : Prop :=
  bt_state t = Used ∨ bt_state t = Revoked ∨ (bt_state t = Expired ∧ batch_expired c t).

Lemma use_batch_spent_fails now s id h t :
  batch_tickets s !! id = Some t → batch_spent now t →
  is_ok (fst (use_batch_ticket now s id h)) = false.
Proof.
  intros Ht Hsp. unfold use_batch_ticket. rewrite Ht.
  destruct (past_expiry _ _) eqn:He; [done|].
  destruct Hsp as [-> | [-> | [_ Hx]]]; [done | done | unfold batch_expired in Hx; congruence].
Qed.

Lemma batch_step_keeps_spent c now s op ok s' id t :
  (c ≤ now)%N → batch_step now s op = (ok, s') → batch_minted_id op ≠ Some id →
  batch_tickets s !! id = Some t → batch_spent c t →
  ∃ t', batch_tickets s' !! id = Some t' ∧ batch_spent now t'.
Proof.
  intros Hc Hs Hm Ht Hsp.
  assert (Hsp' : batch_spent now t).
  { destruct Hsp as [|[|[? ?]]]; [by left | by right; left |].
    right; right. split; [done|]. by eapply past_expiry_mono. }
  destruct (batch_minted_id op) as [mid|] eqn:E.
  - destruct op; simplify_eq/=. exists t. by rewrite lookup_insert_ne by congruence.
  - eapply batch_step_change in Hs; [|done].
    destruct Hs as [|k t1 t2 rs Hk _ _ Hexp Hap Hx Hu Hp]; [by exists t|]. simpl.
    destruct (decide (k = id)) as [->|Hne]; [|exists t; by rewrite lookup_insert_ne].
    rewrite lookup_insert_eq. simplify_eq. exists t2. split; [done|]. unfold batch_spent.
    destruct (bt_state t2) eqn:E2; auto; [done|..].
    + destruct (Hap eq_refl) as [Hpend _]. destruct Hsp' as [|[|[]]]; congruence.
    + destruct Hu as [Hin Hn]; [by right|]. destruct Hsp' as [H|[H|[]]]; [..|done];
        rewrite H in Hin; set_solver.
    + right; right. split; [done|]. unfold batch_expired in *. rewrite Hexp. by apply Hx.
Qed.

(** At-most-once for batches, under a clock that never goes back: after
    a single-use batch ticket is consumed no later operation consumes it
    again, until its id is minted anew. *)
Theorem batch_consumed_once now s id h s1 t evs s2 :
  use_batch_ticket now s id h = (Ok tt, s1) →
  batch_tickets s !! id = Some t → bt_single_use t = true →
  batch_run now s1 evs s2 →
  Forall (λ e, batch_minted_id (snd (fst e)) ≠ Some id) evs →
  Forall (λ e, ∀ h', snd (fst e) = BOpUse id h' → snd e = false) evs.
Proof.
  intros Hu Ht Hsu Hrun Hf.
  assert (Hsp : ∃ t1, batch_tickets s1 !! id = Some t1 ∧ batch_spent now t1).
  { unfold use_batch_ticket in Hu. rewrite Ht, Hsu in Hu.
    repeat case_match; simplify_eq/=. rewrite lookup_insert_eq. eexists. split; [done|]. by left. }
  clear Hu Ht Hsu. revert Hsp Hf.
  induction Hrun as [|c now' s0 op ok s1' evs' s2' Hc Hs _ IH]; intros (t1 & Ht1 & Hsp) Hf;
    [constructor|].
  apply Forall_cons in Hf as [Hm Hf]. simpl in Hm.
  destruct (batch_step_keeps_spent _ _ _ _ _ _ _ _ Hc Hs Hm Ht1 Hsp) as (t2 & Ht2 & Hsp2).
  constructor; [|by apply IH; [exists t2|]].
  intros h' Hop. simpl in *. subst op. simpl in Hs.
  assert (Hsp' : batch_spent now' t1).
  { destruct Hsp as [|[|[? ?]]]; [by left | by right; left |].
    right; right. split; [done|]. by eapply past_expiry_mono. }
  pose proof (use_batch_spent_fails now' _ _ h' _ Ht1 Hsp').
  destruct (use_batch_ticket now' s0 id h'). simplify_eq/=. done.
Qed.

Definition batch_approval_recorded (s : BatchTicketStore) (id : string) : Prop :=
  ∃ r, r ∈ batch_receipts s ∧ br_action r = BApprove ∧ br_ticket_id r = id.

Definition batch_asks (op : batch_op) : Prop :=
  match op with BOpMint t => bt_state t = Pending | _ => True end.

Definition batch_inv (c : N) (s : BatchTicketStore) : Prop :=
  ∀ id t, batch_tickets s !! id = Some t →
    bt_ticket_id t = id ∧
    (bt_state t ∈ [Approved; Used; Rejected] → batch_approval_recorded s id) ∧
    (bt_state t = Expired → batch_expired c t).

Lemma batch_inv_step c now s op ok s' :
  (c ≤ now)%N → batch_step now s op = (ok, s') → batch_asks op → batch_inv c s → batch_inv now s'.
Proof.
  intros Hc Hs Ha HI.
  assert (HI' : batch_inv now s).
  { intros id t Ht. destruct (HI id t Ht) as (? & ? & Hx). repeat split; [done..|].
    intros He. by eapply past_expiry_mono, Hx. }
  destruct (batch_minted_id op) as [mid|] eqn:E.
  - destruct op; simplify_eq/=. intros id t'. simpl.
    destruct (decide (bt_ticket_id t = id)) as [<-|Hne].
    + rewrite lookup_insert_eq. intros [= <-]. rewrite Ha. repeat split; [set_solver | done].
    + rewrite lookup_insert_ne by done. intros Ht. by apply HI' in Ht.
  - eapply batch_step_change in Hs; [|done].
    destruct Hs as [|k t1 t2 rs Hk Hid _ Hexp Hap Hx Hu Hp]; [done|].
    intros id t. simpl. unfold batch_approval_recorded. simpl.
    destruct (decide (k = id)) as [->|Hne].
    + rewrite lookup_insert_eq. intros [= <-]. destruct (HI' _ _ Hk) as (Hid1 & Hrec & Hold).
      split; [congruence|]. split.
      2:{ intros He. unfold batch_expired. rewrite Hexp. by apply Hx. }
      intros Hin. destruct (decide (bt_state t2 = Approved)) as [Happ|Hnap].
      * destruct (Hap Happ) as (_ & r & Hr & Hact & Hrid). exists r.
        rewrite elem_of_app, Hrid. auto.
      * destruct Hu as [Hst Hne]; [set_solver|].
        assert (Hin1 : bt_state t1 ∈ [Approved; Used; Rejected]).
        { destruct (bt_state t1) eqn:E1; first [set_solver | by destruct Hne, Hold]. }
        destruct (Hrec Hin1) as (r & Hr & ?). exists r. by rewrite elem_of_app; auto.
    + rewrite lookup_insert_ne by done. intros Ht. destruct (HI' _ _ Ht) as (? & Hrec & ?).
      repeat split; [done| |done]. intros Hin. destruct (Hrec Hin) as (r & Hr & ?).
      exists r. by rewrite elem_of_app; auto.
Qed.

(** No batch effect without approval, under a clock that never goes
    back: consuming a batch ticket in a store reached by minting pending
    tickets only requires a recorded approval receipt for it. *)
Theorem batch_consumption_has_approval_receipt c evs s now id h s' :
  batch_run c batch_store_new evs s →
  Forall (λ e, batch_asks (snd (fst e))) evs →
  Forall (λ e, (fst (fst e) ≤ now)%N) evs → (c ≤ now)%N →
  use_batch_ticket now s id h = (Ok tt, s') →
  batch_approval_recorded s id.
Proof.
  intros Hrun Hf Hle Hc Hu.
  assert (HI : batch_inv now s).
  { assert (H0 : batch_inv c batch_store_new) by (intros k t; simpl; by rewrite lookup_empty).
    revert H0 Hf Hle Hc. clear Hu. induction Hrun as [c s|c now' s op ok s1 evs s2 Hcn Hs _ IH].
    - intros HI _ _ Hc k t Ht. destruct (HI k t Ht) as (? & ? & Hx). repeat split; [done..|].
      intros He. by eapply past_expiry_mono, Hx.
    - intros HI [Ha Hf]%Forall_cons [Hle Hle2]%Forall_cons _.
      apply IH; [by eapply batch_inv_step | done..]. }
  unfold use_batch_ticket in Hu. destruct (batch_tickets s !! id) as [t|] eqn:Ht; [|done].
  destruct (HI id t Ht) as (_ & Hrec & Hexp).
  destruct (past_expiry _ _) eqn:He; [done|].
  destruct (bt_state t) eqn:Hst; simpl in Hu; try done; try (apply Hrec; set_solver).
  unfold batch_expired in Hexp. rewrite Hexp in He; done.
Qed.
End Batch.

(** ** Witnesses *)

Module BatchExamples.
#[local] Existing Instance plain_digest.
#[local] Existing Instance counted_json.

Definition op1 : BatchOperation :=
  {| bo_tool_id := "xlsx.set"; bo_operation := "write"; bo_args_hash := "a"; bo_resources := ["B2"] |}.
Definition bt : BatchTicket :=
  {| bt_ticket_id := "b1"; bt_agent_id := "agent"; bt_session_id := "sess";
     bt_change_set_hash := "cs"; bt_operations := [op1]; bt_expires_at_ms := 61000;
     bt_single_use := true; bt_approval_source := SPolicy; bt_approval_nonce := "n";
     bt_risk := Low; bt_audit_seq := 0; bt_state := Pending |}.
Definition bt_ok : BatchTicket := batch_set_source (batch_set_state bt Approved) SHuman.
Definition bs1 : BatchTicketStore := snd (batch_mint batch_store_new bt).
Definition bs2 : BatchTicketStore := snd (batch_approve_with_nonce 1100 bs1 "b1" "n").
Definition bs3 : BatchTicketStore := snd (use_batch_ticket 1200 bs2 "b1" "cs").
Definition bevs : list (N * batch_op * bool) :=
  [(1000%N, BOpMint bt, true); (1100%N, BOpApproveNonce "b1" "n", true)].

Lemma brun_bs2 : batch_run 0 batch_store_new bevs bs2.
Proof.
  econstructor; [lia | vm_compute; reflexivity |].
  econstructor; [lia | vm_compute; reflexivity | constructor].
Defined.
End BatchExamples.
Import BatchExamples.

Lemma rejected_batch_is_still_consumable_witness :
  let '(r1, s1) := use_batch_ticket 1200 bs2 "b1" "other" in
  let '(r2, s2) := use_batch_ticket 1300 s1 "b1" "cs" in
  r1 = Err EArgsMismatch ∧ (bt_state <$> batch_tickets s1 !! "b1") = Some Rejected ∧ r2 = Ok tt.
Proof.
  apply (rejected_batch_is_still_consumable 1200 1300 bs2 "b1" bt_ok "other");
    try reflexivity. discriminate.
Defined.

Lemma batch_consumption_binds_change_set_witness :
  [op1] = [op1] ∨ @collides plain_digest (nul_frame [@batch_json counted_json [op1]])
                     (nul_frame [@batch_json counted_json [op1]]).
Proof.
  pose (t := @batch_ticket_mint plain_digest counted_json 1000 "n" "b1" "a" "s" [op1] Low 0).
  pose (s := {| batch_tickets := {["b1" := batch_set_state (batch_set_source t SHuman) Approved]};
                batch_receipts := [] |}).
  apply (@batch_consumption_binds_change_set plain_digest counted_json counted_json_laws
           1000 "n" "b1" "a" "s" [op1] Low 0 Approved SHuman 1200 s "b1" [op1]
           (put_batch s "b1" (batch_set_state (batch_set_source t SHuman) Used))).
  - reflexivity.
  - vm_compute. reflexivity.
Defined.

Lemma batch_consumed_once_witness :
  Forall (λ e, ∀ h', snd (fst e) = BOpUse "b1" h' → snd e = false)
    [(1300%N, BOpUse "b1" "cs", false)].
Proof.
  apply (@batch_consumed_once plain_digest 1200 bs2 "b1" "cs" bs3 bt_ok _ bs3).
  - vm_compute. reflexivity.
  - vm_compute. reflexivity.
  - reflexivity.
  - econstructor; [lia | vm_compute; reflexivity | constructor].
  - repeat constructor; discriminate.
Defined.

Lemma batch_consumption_has_approval_receipt_witness : batch_approval_recorded bs2 "b1".
Proof.
  apply (@batch_consumption_has_approval_receipt plain_digest 0 bevs bs2 1200 "b1" "cs" bs3).
  - exact brun_bs2.
  - repeat constructor.
  - repeat constructor; simpl; lia.
  - lia.
  - vm_compute. reflexivity.
Defined.

(** The clock hypothesis is needed: with a clock that steps back, a consumed
    ticket first becomes [Expired] and is then consumed a second time. *)
Example batch_clock_step_back_reuses :
  let '(r1, s1) := use_batch_ticket 1200 bs2 "b1" "cs" in
  let '(r2, s2) := use_batch_ticket 99000 s1 "b1" "cs" in
  let '(r3, s3) := use_batch_ticket 1400 s2 "b1" "cs" in
  (r1, r2, r3) = (Ok tt, Err EExpired, Ok tt).
Proof. vm_compute. reflexivity. Qed.
