(* ===== verification/F64.v ===== *)
(** * [f64] as the Standard Library's executable IEEE-754 specification

    [spec_float] values at precision 53 / exponent 1024, round to nearest
    even: the operations are computed, none is a parameter. *)
From S2P Require Import Prelude.

Definition f64 : Type := spec_float.

Definition f64_add : f64 → f64 → f64 := SFadd 53 1024.
Definition f64_sub : f64 → f64 → f64 := SFsub 53 1024.
Definition f64_mul : f64 → f64 → f64 := SFmul 53 1024.
Definition f64_div : f64 → f64 → f64 := SFdiv 53 1024.
Definition f64_abs : f64 → f64 := SFabs.

(** Rust's comparison operators: false whenever an operand is NaN. *)
Definition f64_lt (a b : f64) : bool := SFltb a b.
Definition f64_le (a b : f64) : bool := SFleb a b.
Definition f64_ge (a b : f64) : bool := SFleb b a.

Definition is_nan (a : f64) : bool := match a with S754_nan => true | _ => false end.

(** [f64::min]/[f64::max]: a NaN operand is ignored. *)
Definition f64_min (a b : f64) : f64 :=
  if is_nan a then b else if is_nan b then a else if f64_lt b a then b else a.
Definition f64_max (a b : f64) : f64 :=
  if is_nan a then b else if is_nan b then a else if f64_lt a b then b else a.

(** [f64::clamp]: NaN stays NaN. *)
Definition f64_clamp (x lo hi : f64) : f64 :=
  if f64_lt x lo then lo else if f64_lt hi x then hi else x.

(** [n as f64] for an unsigned integer (nearest even). *)
Definition f64_of_N (n : N) : f64 := binary_normalize 53 1024 (Z.of_N n) 0 false.

(** Literals: the binary64 nearest to [num / den]. *)
Definition f64_lit (num den : N) : f64 := f64_div (f64_of_N num) (f64_of_N den).

Definition f64_0 : f64 := S754_zero false.
Definition f64_1 : f64 := f64_of_N 1.
Definition f64_1000 : f64 := f64_of_N 1000.
(** [f64::EPSILON = 2^-52]. *)
Definition f64_epsilon : f64 := S754_finite false 4503599627370496 (-104).

(** [x.ceil() as u64]: exact integer ceiling, then the saturating cast
    (NaN and negatives go to 0, overflow to [u64::MAX]). *)
Definition f64_ceil_u64 (x : f64) : N :=
  match x with
  | S754_zero _ => 0
  | S754_nan => 0
  | S754_infinity s => if s then 0 else u64_max
  | S754_finite true _ _ => 0
  | S754_finite false m e =>
      let v := if (0 <=? e)%Z then Z.shiftl (Zpos m) e
               else (- ((- Zpos m) / 2 ^ (- e)))%Z in
      N.min (Z.to_N v) u64_max
  end%N.

Example lit_085 : f64_lit 85 100 = S754_finite false 7656119366529843 (-53).
Proof. vm_compute. reflexivity. Qed.
Example ceil_small : f64_ceil_u64 (f64_lit 1 3) = 1%N ∧ f64_ceil_u64 (f64_lit 5 2) = 3%N
                     ∧ f64_ceil_u64 (f64_of_N 50) = 50%N.
Proof. vm_compute. auto. Qed.

(** ** Order facts that hold for every operand, NaN included *)

Lemma SFcompare_antisym (a b : f64) :
  SFcompare b a = CompOpp <$> SFcompare a b.
Proof.
  destruct a as [sa|sa| |sa ma ea], b as [sb|sb| |sb mb eb];
    simpl; try destruct sa; try destruct sb; try done;
    rewrite (Z.compare_antisym eb ea); destruct (eb ?= ea)%Z eqn:E; simpl; try done;
    rewrite (Pos.compare_cont_antisym); simpl; try done;
    rewrite ?CompOpp_involutive; done.
Qed.

Lemma f64_le_refl_not_nan (a : f64) : is_nan a = false → f64_le a a = true.
Proof.
  unfold f64_le, SFleb. intros H. destruct a as [s|s| |s m e]; simpl; try done;
    destruct s; try done; rewrite Z.compare_refl, ?Pos.compare_cont_refl; done.
Qed.

Lemma f64_lt_false_le (a b : f64) :
  is_nan a = false → is_nan b = false → f64_lt a b = false → f64_le b a = true.
Proof.
  unfold f64_lt, f64_le, SFltb, SFleb. rewrite (SFcompare_antisym a b). intros Ha Hb.
  destruct (SFcompare a b) as [[]|] eqn:E; simpl; try done.
  destruct a as [sa|sa| |sa ma ea], b as [sb|sb| |sb mb eb]; try done;
    simpl in E; repeat case_match; done.
Qed.

Lemma f64_min_le_r (a b : f64) : is_nan b = false → f64_le (f64_min a b) b = true.
Proof.
  intros Hb. unfold f64_min. destruct (is_nan a) eqn:Ha; [by apply f64_le_refl_not_nan|].
  rewrite Hb. destruct (f64_lt b a) eqn:E; [by apply f64_le_refl_not_nan|].
  by apply f64_lt_false_le.
Qed.

Lemma f64_clamp_bounds (x lo hi : f64) :
  is_nan x = false → is_nan lo = false → is_nan hi = false → f64_le lo hi = true →
  f64_le lo (f64_clamp x lo hi) = true ∧ f64_le (f64_clamp x lo hi) hi = true.
Proof.
  intros Hx Hl Hh Hlh. unfold f64_clamp.
  destruct (f64_lt x lo) eqn:E1; [split; [by apply f64_le_refl_not_nan | done]|].
  destruct (f64_lt hi x) eqn:E2; [split; [done | by apply f64_le_refl_not_nan]|].
  split; by apply f64_lt_false_le.
Qed.

Lemma f64_ge_nan_r (a : f64) : f64_ge a S754_nan = false.
Proof. done. Qed.

#[export] Hint Resolve f64_le_refl_not_nan f64_min_le_r : trust.
