(* ===== verification/Permissions.v ===== *)
(** * The escalation policy ([everyaios-guard/src/permissions.rs])

    Rules, the policy record, its presets, the [permissions.toml] loader and
    the evaluation the executor consults before minting a ticket. The TOML
    parser is the [toml] crate's: a parameter. *)
From S2P Require Import Prelude F64.

(* SRC guard/src/permissions.rs @enum:PolicyAction PolicyAction *)
Inductive PolicyAction := PAllow | PAsk | PBlock.

(* SRC guard/src/permissions.rs @enum:Operation Operation *)
Inductive Operation :=
  | DeleteFiles
  | MultiFileEdit (files : N)
  | ExternalNetwork (new_domain : bool)
  | TerminalShell (destructive : bool)
  | WebAction
  | GenericWrite
  | Read (sensitive : bool).

(* SRC guard/src/permissions.rs @fn:name Operation::name *)
Definition operation_name (op : Operation) : string :=
  match op with
  | DeleteFiles => "delete"
  | MultiFileEdit _ => "multi_file_edit"
  | ExternalNetwork _ => "external_network"
  | TerminalShell _ => "terminal_shell"
  | WebAction => "web_action"
  | GenericWrite => "write"
  | Read _ => "read"
  end.

(* SRC guard/src/permissions.rs @enum:Rule Rule *)
Inductive Rule :=
  | AlwaysAsk
  | AlwaysAllow
  | RBlock
  | AskIfGt (n : N)
  | AskIfNewDomain
  | AskIfDestructive.

#[export] Instance PolicyAction_eq : EqDecision PolicyAction.
Proof. solve_decision. Defined.
#[export] Instance Operation_eq : EqDecision Operation.
Proof. solve_decision. Defined.
#[export] Instance Rule_eq : EqDecision Rule.
Proof. solve_decision. Defined.

(** A [u32] payload in range. *)
Definition rule_wf (r : Rule) : Prop :=
  match r with AskIfGt n => (n ≤ u32_max)%N | _ => True end.

(* SRC guard/src/permissions.rs @fn:rule_str rule_str *)
Definition rule_str (r : Rule) : string :=
  match r with
  | AlwaysAsk => "always_ask"
  | AlwaysAllow => "always_allow"
  | RBlock => "block"
  | AskIfGt n => "ask_if_gt_" +:+ pretty n
  | AskIfNewDomain => "ask_if_new_domain"
  | AskIfDestructive => "ask_if_destructive"
  end.

(* SRC guard/src/permissions.rs @fn:parse Rule::parse *)
Definition rule_parse (s : string) : option Rule :=
  let t := trim s in
  if String.eqb t "always_ask" || String.eqb t "ask" then Some AlwaysAsk
  else if String.eqb t "always_allow" || String.eqb t "allow" then Some AlwaysAllow
  else if String.eqb t "block" || String.eqb t "deny" then Some RBlock
  else if String.eqb t "ask_if_new_domain" then Some AskIfNewDomain
  else if String.eqb t "ask_if_destructive" then Some AskIfDestructive
  else n ← strip_prefix "ask_if_gt_" t; AskIfGt <$> parse_uint u32_max n.

(* SRC guard/src/permissions.rs @fn:evaluate Rule::evaluate *)
Definition rule_evaluate (r : Rule) (op : Operation) : PolicyAction :=
  match r, op with
  | AlwaysAsk, _ => PAsk
  | AlwaysAllow, _ => PAllow
  | RBlock, _ => PBlock
  | AskIfGt n, MultiFileEdit files => if (n <? files)%N then PAsk else PAllow
  | AskIfGt _, _ => PAllow
  | AskIfNewDomain, ExternalNetwork new_domain => if new_domain then PAsk else PAllow
  | AskIfNewDomain, _ => PAllow
  | AskIfDestructive, TerminalShell destructive => if destructive then PAsk else PAllow
  | AskIfDestructive, _ => PAllow
  end.

(* SRC guard/src/permissions.rs @struct:RawTable RawTable *)
Record RawTable := {
  raw_delete_files : option string;
  raw_multi_file_edit : option string;
  raw_external_network : option string;
  raw_terminal_shell : option string;
  raw_web_action : option string;
  raw_write : option string;
  raw_read_sensitive : option string;
  raw_min_confidence_for_auto : option f64;
  raw_user_feedback_learning : option bool
}.

(* SRC guard/src/permissions.rs @struct:PermissionsPolicy PermissionsPolicy *)
Record PermissionsPolicy := {
  delete_files : Rule;
  multi_file_edit : Rule;
  external_network : Rule;
  terminal_shell : Rule;
  web_action : Rule;
  write : Rule;
  read_sensitive : Rule;
  min_confidence_for_auto : f64;
  user_feedback_learning : bool
}.

(* SRC guard/src/permissions.rs 196 210 PermissionsPolicy::default *)
Definition policy_default : PermissionsPolicy :=
  {| delete_files := AlwaysAsk;
     multi_file_edit := AskIfGt 5;
     external_network := AskIfNewDomain;
     terminal_shell := AskIfDestructive;
     web_action := AlwaysAsk;
     write := AlwaysAsk;
     read_sensitive := AlwaysAsk;
     min_confidence_for_auto := f64_lit 85 100;
     user_feedback_learning := true |}.

(* SRC guard/src/permissions.rs @enum:AutonomyPreset AutonomyPreset *)
Inductive AutonomyPreset := PreSandbox | PreAsk | PreAuto | PreMaximum.

#[export] Instance AutonomyPreset_eq : EqDecision AutonomyPreset.
Proof. solve_decision. Defined.

(* SRC guard/src/permissions.rs @fn:as_str AutonomyPreset::as_str *)
Definition preset_as_str (l : AutonomyPreset) : string :=
  match l with
  | PreSandbox => "sandbox"
  | PreAsk => "ask"
  | PreAuto => "auto"
  | PreMaximum => "maximum"
  end.

(* SRC guard/src/permissions.rs @fn:parse#2 AutonomyPreset::parse *)
Definition preset_parse {lower : Lowercase} (s : string) : option AutonomyPreset :=
  let t := to_lowercase s in
  if String.eqb t "sandbox" || String.eqb t "plan" || String.eqb t "read_only" then Some PreSandbox
  else if String.eqb t "ask" || String.eqb t "interactive" || String.eqb t "default" then Some PreAsk
  else if String.eqb t "auto" then Some PreAuto
  else if String.eqb t "maximum" || String.eqb t "run_everything" || String.eqb t "max"
       || String.eqb t "custom" then Some PreMaximum
  else None.

(* SRC guard/src/permissions.rs @fn:preset PermissionsPolicy::preset *)
Definition preset (level : AutonomyPreset) : PermissionsPolicy :=
  match level with
  | PreSandbox =>
      {| delete_files := RBlock; multi_file_edit := RBlock; external_network := RBlock;
         terminal_shell := RBlock; web_action := RBlock; write := RBlock;
         read_sensitive := RBlock; min_confidence_for_auto := f64_1;
         user_feedback_learning := false |}
  | PreAsk =>
      {| delete_files := AlwaysAsk; multi_file_edit := AskIfGt 5;
         external_network := AskIfNewDomain; terminal_shell := AskIfDestructive;
         web_action := AlwaysAsk; write := AlwaysAsk; read_sensitive := AlwaysAsk;
         min_confidence_for_auto := f64_lit 85 100; user_feedback_learning := true |}
  | PreAuto =>
      {| delete_files := AlwaysAsk; multi_file_edit := AlwaysAllow;
         external_network := AskIfNewDomain; terminal_shell := AskIfDestructive;
         web_action := AlwaysAsk; write := AlwaysAllow; read_sensitive := AlwaysAsk;
         min_confidence_for_auto := f64_lit 75 100; user_feedback_learning := true |}
  | PreMaximum =>
      {| delete_files := AlwaysAsk; multi_file_edit := AlwaysAllow;
         external_network := AskIfNewDomain; terminal_shell := AskIfDestructive;
         web_action := AlwaysAsk; write := AlwaysAllow; read_sensitive := AlwaysAsk;
         min_confidence_for_auto := f64_lit 6 10; user_feedback_learning := true |}
  end.

(** [toml::from_str::<RawPermissions>]: [None] is any parse error; a document
    without the table is the all-[None] table. *)
Class TomlPermissions := { toml_permissions : string → option RawTable }.

(** One [if let Some(r) = t.key.as_deref().and_then(Rule::parse)] line. *)
Definition rule_or (o : option string) (dflt : Rule) : Rule :=
  default dflt (o ≫= rule_parse).

(* SRC guard/src/permissions.rs @fn:parse#3 PermissionsPolicy::parse *)
Definition policy_parse {toml : TomlPermissions} (doc : string) : PermissionsPolicy :=
  match toml_permissions doc with
  | None => policy_default
  | Some t =>
      {| delete_files := rule_or (raw_delete_files t) (delete_files policy_default);
         multi_file_edit := rule_or (raw_multi_file_edit t) (multi_file_edit policy_default);
         external_network := rule_or (raw_external_network t) (external_network policy_default);
         terminal_shell := rule_or (raw_terminal_shell t) (terminal_shell policy_default);
         web_action := rule_or (raw_web_action t) (web_action policy_default);
         write := rule_or (raw_write t) (write policy_default);
         read_sensitive := rule_or (raw_read_sensitive t) (read_sensitive policy_default);
         min_confidence_for_auto :=
           match raw_min_confidence_for_auto t with
           | Some m => f64_clamp m f64_0 f64_1
           | None => min_confidence_for_auto policy_default
           end;
         user_feedback_learning :=
           default (user_feedback_learning policy_default) (raw_user_feedback_learning t) |}
  end.

(* SRC guard/src/permissions.rs @fn:is_preset PermissionsPolicy::is_preset *)
Definition is_preset (self : PermissionsPolicy) (level : AutonomyPreset) : bool :=
  let p := preset level in
  bool_decide (delete_files p = delete_files self)
  && bool_decide (multi_file_edit p = multi_file_edit self)
  && bool_decide (external_network p = external_network self)
  && bool_decide (terminal_shell p = terminal_shell self)
  && bool_decide (web_action p = web_action self)
  && bool_decide (write p = write self)
  && bool_decide (read_sensitive p = read_sensitive self)
  && f64_lt (f64_abs (f64_sub (min_confidence_for_auto p) (min_confidence_for_auto self)))
            f64_epsilon.

(** The keyed assignment of [apply_rules]. *)
Definition set_rule (p : PermissionsPolicy) (key : string) (r : Rule) : option PermissionsPolicy :=
  let mk d m e t w wr rs :=
    Some {| delete_files := d; multi_file_edit := m; external_network := e;
            terminal_shell := t; web_action := w; write := wr; read_sensitive := rs;
            min_confidence_for_auto := min_confidence_for_auto p;
            user_feedback_learning := user_feedback_learning p |} in
  let '(d, m, e, t, w, wr, rs) :=
    (delete_files p, multi_file_edit p, external_network p, terminal_shell p, web_action p,
     write p, read_sensitive p) in
  if String.eqb key "delete_files" then mk r m e t w wr rs
  else if String.eqb key "multi_file_edit" then mk d r e t w wr rs
  else if String.eqb key "external_network" then mk d m r t w wr rs
  else if String.eqb key "terminal_shell" then mk d m e r w wr rs
  else if String.eqb key "web_action" then mk d m e t r wr rs
  else if String.eqb key "write" then mk d m e t w r rs
  else if String.eqb key "read_sensitive" then mk d m e t w wr r
  else None.

(** The loop of [apply_rules]: the policy is mutated as it goes, so the second
    component is what the caller's [&mut self] holds on return. *)
Fixpoint apply_rules_from (applied : nat) (p : PermissionsPolicy) (rules : list (string * string))
    : result nat string * PermissionsPolicy :=
  match rules with
  | [] => (Ok applied, p)
  | (key, rule) :: rest =>
      match rule_parse rule with
      | None => (Err ("unknown rule: " +:+ rule), p)
      | Some parsed =>
          match set_rule p key parsed with
          | None => (Err ("unknown permission key: " +:+ key), p)
          | Some p' => apply_rules_from (S applied) p' rest
          end
      end
  end.

(* SRC guard/src/permissions.rs @fn:apply_rules PermissionsPolicy::apply_rules *)
Definition apply_rules (p : PermissionsPolicy) (rules : list (string * string))
    : result nat string * PermissionsPolicy := apply_rules_from 0 p rules.

(* SRC guard/src/permissions.rs @fn:evaluate#2 PermissionsPolicy::evaluate *)
Definition evaluate (p : PermissionsPolicy) (op : Operation) : PolicyAction :=
  match op with
  | DeleteFiles => rule_evaluate (delete_files p) op
  | MultiFileEdit _ => rule_evaluate (multi_file_edit p) op
  | ExternalNetwork _ => rule_evaluate (external_network p) op
  | TerminalShell _ => rule_evaluate (terminal_shell p) op
  | WebAction => rule_evaluate (web_action p) op
  | GenericWrite => rule_evaluate (write p) op
  | Read false => PAllow
  | Read true => rule_evaluate (read_sensitive p) op
  end.

(* SRC guard/src/permissions.rs @fn:auto_confidence_ok PermissionsPolicy::auto_confidence_ok *)
Definition auto_confidence_ok (p : PermissionsPolicy) (confidence : f64) : bool :=
  f64_ge confidence (min_confidence_for_auto p).

(** ** Presets *)

(** How much an action lets through. *)
Definition permissiveness (a : PolicyAction) : nat :=
  match a with PBlock => 0 | PAsk => 1 | PAllow => 2 end.

Definition preset_rank (l : AutonomyPreset) : nat :=
  match l with PreSandbox => 0 | PreAsk => 1 | PreAuto => 2 | PreMaximum => 3 end.

(** The classes the documentation calls hard floors. *)
Definition floor_op (op : Operation) : bool :=
  match op with
  | DeleteFiles | WebAction => true
  | ExternalNetwork new_domain => new_domain
  | TerminalShell destructive => destructive
  | Read sensitive => sensitive
  | MultiFileEdit _ | GenericWrite => false
  end.

(** The hard floors hold in every preset: deleting, web actions, new
    domains, destructive shell commands and sensitive reads are asked about at
    every autonomy level, and blocked in the sandbox. *)
Theorem preset_floors level op :
  floor_op op = true →
  evaluate (preset level) op = if decide (level = PreSandbox) then PBlock else PAsk.
Proof. by destruct level; destruct op as [| | [] | [] | | | []]. Qed.

(** The presets form a ladder: a higher level never asks or blocks where
    a lower one allows. *)
Theorem preset_monotone l1 l2 op :
  preset_rank l1 ≤ preset_rank l2 →
  permissiveness (evaluate (preset l1) op) ≤ permissiveness (evaluate (preset l2) op).
Proof.
  intros H. destruct l1, l2; simpl in H; try lia;
    destruct op as [|n| [] | [] | | | []]; simpl; try case_match; simpl; lia.
Qed.

(** The sandbox preset denies every operation but a plain read. *)
Theorem sandbox_denies_everything_but_plain_reads op :
  evaluate (preset PreSandbox) op = if decide (op = Read false) then PAllow else PBlock.
Proof. by destruct op as [| | | | | | []]. Qed.

(** The autonomy indicator is exact: a preset is recognised as itself
    and as no other level, although [Auto] and [Maximum] share every rule. *)
Theorem is_preset_exact l1 l2 :
  is_preset (preset l1) l2 = bool_decide (l1 = l2).
Proof. destruct l1, l2; vm_compute; reflexivity. Qed.

(** ** Rules and documents *)

Lemma rule_str_trim r : trim (rule_str r) = rule_str r.
Proof.
  destruct r as [| | |n| |]; try (vm_compute; reflexivity).
  unfold rule_str. destruct (pretty_last n) as (p & d & -> & Hd).
  rewrite <- app_string_assoc. apply (trim_tight "a" _ ("sk_if_gt_" +:+ p)); [reflexivity|].
  assert (d = 0 ∨ d = 1 ∨ d = 2 ∨ d = 3 ∨ d = 4 ∨ d = 5 ∨ d = 6 ∨ d = 7 ∨ d = 8 ∨ d = 9)%N
    as Hd' by lia.
  by repeat destruct Hd' as [->|Hd']; [..|subst].
Qed.

(** Writing a rule and parsing it back gives the same rule. *)
Theorem rule_round_trip r : rule_wf r → rule_parse (rule_str r) = Some r.
Proof.
  intros Hr. unfold rule_parse. rewrite rule_str_trim.
  destruct r as [| | |n| |]; try reflexivity.
  simpl in Hr. unfold rule_str. rewrite !app_string_cons. simpl.
  change ("" +:+ pretty n) with (pretty n). by rewrite parse_uint_pretty.
Qed.

(** The document's text for the rule that answers an operation. *)
Definition raw_for (t : RawTable) (op : Operation) : option string :=
  match op with
  | DeleteFiles => raw_delete_files t
  | MultiFileEdit _ => raw_multi_file_edit t
  | ExternalNetwork _ => raw_external_network t
  | TerminalShell _ => raw_terminal_shell t
  | WebAction => raw_web_action t
  | GenericWrite => raw_write t
  | Read true => raw_read_sensitive t
  | Read false => None
  end.

Lemma policy_parse_evaluate `{TomlPermissions} doc op :
  evaluate (policy_parse doc) op =
  match t ← toml_permissions doc; s ← raw_for t op; rule_parse s with
  | Some r => rule_evaluate r op
  | None => evaluate policy_default op
  end.
Proof.
  unfold policy_parse. destruct (toml_permissions doc) as [t|]; [|done].
  destruct op as [| | | | | |[]]; unfold evaluate, rule_or; simpl; try done;
    destruct (_ t) as [s|]; simpl; try done; by destruct (rule_parse s).
Qed.

(** Loading a policy never over-grants: an operation a loaded policy
    allows is one the cautious default allows, or one the document allows with
    a rule of its own that parses; any other text leaves the default's answer. *)
Theorem policy_parse_never_over_grants `{TomlPermissions} doc op :
  evaluate (policy_parse doc) op = PAllow →
  evaluate policy_default op = PAllow
  ∨ ∃ t s r, toml_permissions doc = Some t ∧ raw_for t op = Some s
             ∧ rule_parse s = Some r ∧ rule_evaluate r op = PAllow.
Proof.
  rewrite policy_parse_evaluate. intros Hop.
  destruct (toml_permissions doc) as [t|] eqn:Et; simpl in Hop; [|by left].
  destruct (raw_for t op) as [s|] eqn:Es; simpl in Hop; [|by left].
  destruct (rule_parse s) as [r|] eqn:Er; [right; eauto 8 | by left].
Qed.

(** The confidence threshold of a loaded policy lies in [0, 1] or is a
    NaN, and a NaN threshold lets no confidence through. *)
Theorem loaded_threshold_fails_closed `{TomlPermissions} doc :
  let m := min_confidence_for_auto (policy_parse doc) in
  (f64_le f64_0 m = true ∧ f64_le m f64_1 = true)
  ∨ (m = S754_nan ∧ ∀ c, auto_confidence_ok (policy_parse doc) c = false).
Proof.
  simpl. unfold auto_confidence_ok, policy_parse.
  destruct (toml_permissions doc) as [t|]; [|left; vm_compute; done]. simpl.
  destruct (raw_min_confidence_for_auto t) as [m|]; [|left; vm_compute; done].
  destruct (is_nan m) eqn:E; [right; by destruct m | left; by apply f64_clamp_bounds].
Qed.

(** ** Bundles of rules *)

Lemma apply_rules_from_spec n p rules :
  let '(r, p') := apply_rules_from n p rules in
  match r with
  | Ok k => k = n + length rules
  | Err _ =>
      ∃ pre kv post, rules = pre ++ kv :: post
        ∧ apply_rules_from n p pre = (Ok (n + length pre), p')
        ∧ (rule_parse kv.2 ≫= set_rule p' kv.1) = None
  end.
Proof.
  revert n p. induction rules as [|[k s] rules IH]; intros n p; simpl; [lia|].
  destruct (rule_parse s) as [r|] eqn:Er.
  2:{ exists [], (k, s), rules. simpl. rewrite Er, Nat.add_0_r. done. }
  destruct (set_rule p k r) as [p1|] eqn:Es.
  2:{ exists [], (k, s), rules. simpl. rewrite Er, Nat.add_0_r. simpl. done. }
  specialize (IH (S n) p1). destruct (apply_rules_from (S n) p1 rules) as [[j|e] p'].
  - lia.
  - destruct IH as (pre & kv & post & -> & Hp & Hn). exists ((k, s) :: pre), kv, post.
    simpl. rewrite Er, Es, Hp. split_and!; [done| |done]. do 2 f_equal. lia.
Qed.

(** A bundle that is refused is not rolled back: the policy keeps exactly
    the rules before the first one that does not parse or names no key. A
    bundle that is accepted applied all of its rules. *)
Theorem apply_rules_keeps_the_prefix p rules :
  match apply_rules p rules with
  | (Ok n, _) => n = length rules
  | (Err _, p') =>
      ∃ pre kv post, rules = pre ++ kv :: post
        ∧ apply_rules p pre = (Ok (length pre), p')
        ∧ (rule_parse kv.2 ≫= set_rule p' kv.1) = None
  end.
Proof. apply (apply_rules_from_spec 0). Qed.

(** A bundle whose second rule is refused still turned the first one on. *)
Example refused_bundle_still_allows_delete :
  let '(r, p') := apply_rules policy_default [("delete_files", "always_allow"); ("wrte", "ask")] in
  is_ok r = false ∧ evaluate p' DeleteFiles = PAllow.
Proof. vm_compute. auto. Qed.

(** ** Witnesses *)

Lemma preset_floors_witness :
  floor_op (TerminalShell true) = true
  ∧ evaluate (preset PreMaximum) (TerminalShell true) = PAsk.
Proof.
  split; [reflexivity|].
  exact (preset_floors PreMaximum (TerminalShell true) eq_refl).
Defined.

Lemma preset_monotone_witness :
  permissiveness (evaluate (preset PreAsk) GenericWrite)
  ≤ permissiveness (evaluate (preset PreAuto) GenericWrite).
Proof. apply preset_monotone. simpl. lia. Defined.

Lemma rule_round_trip_witness :
  rule_wf (AskIfGt 40) ∧ rule_parse (rule_str (AskIfGt 40)) = Some (AskIfGt 40).
Proof.
  assert (H : rule_wf (AskIfGt 40)) by (vm_compute; discriminate).
  split; [exact H | exact (rule_round_trip (AskIfGt 40) H)].
Defined.

(** A document that allows writing and nothing else. *)
Definition write_allowed_toml : TomlPermissions := {|
  toml_permissions := λ _, Some {|
    raw_delete_files := Some "alow"; raw_multi_file_edit := None; raw_external_network := None;
    raw_terminal_shell := None; raw_web_action := None; raw_write := Some " allow ";
    raw_read_sensitive := None; raw_min_confidence_for_auto := None;
    raw_user_feedback_learning := None |} |}.

Lemma policy_parse_never_over_grants_witness :
  evaluate (@policy_parse write_allowed_toml "") GenericWrite = PAllow
  ∧ evaluate (@policy_parse write_allowed_toml "") DeleteFiles = PAsk
  ∧ (evaluate policy_default GenericWrite = PAllow
     ∨ ∃ t s r, @toml_permissions write_allowed_toml "" = Some t
         ∧ raw_for t GenericWrite = Some s
         ∧ rule_parse s = Some r ∧ rule_evaluate r GenericWrite = PAllow).
Proof.
  split_and!; [vm_compute; reflexivity | vm_compute; reflexivity |].
  apply (@policy_parse_never_over_grants write_allowed_toml "" GenericWrite).
  vm_compute. reflexivity.
Defined.
