(* ===== verification/Glob.v ===== *)
(** * The wildcard matchers ([granter.rs] [wildcard_match], [approval_policy.rs]
    [glob_match]) and the tool allow-list

    Both matchers are the same backtracking walk over bytes; the granter's
    additionally stops a lone star at a slash. They are proved equivalent to
    an inductive relation that says what a pattern denotes. *)
From S2P Require Import Prelude.

Definition bytes (s : string) : list ascii := String.list_ascii_of_string s.

Definition STAR : ascii := "*"%char.
Definition QUESTION : ascii := "?"%char.

(** [let mut i = 1; while i < p.len() && p[i] == '*' { i += 1 }]: how many stars
    begin [p], and what follows them. *)
Fixpoint skip_stars (p : list ascii) : nat * list ascii :=
  match p with
  | c :: p' => if Ascii.eqb c STAR then let '(n, q) := skip_stars p' in (S n, q) else (0, p)
  | [] => (0, [])
  end.

(** [for k in 0..=v.len() { if k > 0 && !double && v[k-1] == '/' { break }
    if go(rest, &v[k..]) { return true } } false]. *)
Fixpoint star_loop (double : bool) (go : list ascii → bool) (v : list ascii) : bool :=
  go v ||
  match v with
  | [] => false
  | c :: v' => if negb double && Ascii.eqb c SLASH then false else star_loop double go v'
  end.

(** The walk of both matchers. [bounded] says that one star on its own does
    not cross a slash. Every recursive call has a shorter pattern, so the
    pattern's length is fuel enough ([wild_go_spec] has no fuel left over in
    its statement). *)
Fixpoint wild_go (bounded : bool) (fuel : nat) (p v : list ascii) : bool :=
  match p, fuel with
  | [], _ => match v with [] => true | _ => false end
  | _, 0 => false
  | c :: p', S fuel' =>
      if Ascii.eqb c STAR then
        let '(n, rest) := skip_stars p' in
        star_loop (negb bounded || (2 <=? S n)%nat) (wild_go bounded fuel' rest) v
      else
        match v with
        | [] => false
        | d :: v' => (Ascii.eqb c QUESTION || Ascii.eqb d c) && wild_go bounded fuel' p' v'
        end
  end.

(* SRC guard/src/granter.rs @fn:wildcard_match wildcard_match *)
Definition wildcard_match (pattern value : string) : bool :=
  let p := bytes pattern in wild_go true (length p) p (bytes value).

(* SRC guard/src/approval_policy.rs @fn:glob_match glob_match *)
Definition glob_match {lower : Lowercase} (pattern value : string) : bool :=
  let p := bytes (to_lowercase pattern) in
  wild_go false (length p) p (bytes (to_lowercase value)).

(** ** What a pattern denotes *)

Inductive denotes (bounded : bool) : list ascii → list ascii → Prop :=
  | denotes_nil : denotes bounded [] []
  | denotes_any c p v : denotes bounded p v → denotes bounded (QUESTION :: p) (c :: v)
  | denotes_byte c p v :
      c ≠ STAR → c ≠ QUESTION → denotes bounded p v → denotes bounded (c :: p) (c :: v)
  | denotes_stars n p u v :
      head p ≠ Some STAR → (bounded = true → n = 0 → SLASH ∉ u) →
      denotes bounded p v → denotes bounded (replicate (S n) STAR ++ p) (u ++ v).

Lemma skip_stars_spec p n rest :
  skip_stars p = (n, rest) → p = replicate n STAR ++ rest ∧ head rest ≠ Some STAR.
Proof.
  revert n rest. induction p as [|c p IH]; intros n rest H; simpl in H; [by simplify_eq|].
  destruct (Ascii.eqb_spec c STAR) as [->|Hc].
  - destruct (skip_stars p) as [m q] eqn:E. simplify_eq.
    destruct (IH m rest eq_refl) as [-> ?]. done.
  - simplify_eq. split; [done|]. simpl. congruence.
Qed.

Lemma skip_stars_replicate n p :
  head p ≠ Some STAR → skip_stars (replicate n STAR ++ p) = (n, p).
Proof.
  intros Hp. induction n as [|n IH]; simpl; [|by rewrite IH].
  destruct p as [|c p]; [done|]. simpl in *.
  by destruct (Ascii.eqb_spec c STAR) as [->|].
Qed.

Lemma star_loop_spec double go v :
  star_loop double go v = true ↔
  ∃ u w, v = u ++ w ∧ go w = true ∧ (double = false → SLASH ∉ u).
Proof.
  induction v as [|c v IH]; simpl; rewrite orb_true_iff.
  - split; [intros [H|]; [|done]; exists [], []; auto using not_elem_of_nil |].
    intros (u & w & Hv & Hg & _). symmetry in Hv. apply app_nil in Hv as [-> ->]. by left.
  - assert (Hstep : (if negb double && Ascii.eqb c SLASH then false else star_loop double go v) = true
                    ↔ (double = false → c ≠ SLASH) ∧ star_loop double go v = true).
    { destruct double, (Ascii.eqb_spec c SLASH) as [->|]; simpl; intuition congruence. }
    rewrite Hstep, IH. split.
    + intros [H | [Hc (u & w & -> & Hg & Hu)]]; [exists [], (c :: v); auto using not_elem_of_nil|].
      exists (c :: u), w. split_and!; [done | done |].
      intros Hd. apply not_elem_of_cons. split; [intros Hx; by apply (Hc Hd) | by apply Hu].
    + intros ([|d u] & w & Hv & Hg & Hu); simplify_eq/=; [by left|]. right.
      split; [|exists u, w; split_and!; [done | done |]]; intros Hd;
        specialize (Hu Hd); apply not_elem_of_cons in Hu as [? ?]; congruence.
Qed.

Lemma denotes_stars_inv b n p v :
  head p ≠ Some STAR → denotes b (replicate (S n) STAR ++ p) v →
  ∃ u w, v = u ++ w ∧ denotes b p w ∧ (b = true → n = 0 → SLASH ∉ u).
Proof.
  intros Hp H. remember (replicate (S n) STAR ++ p) as q eqn:Eq.
  destruct H as [|c q v H|c q v Hs Hq H|m q u w Hq Hu H]; simpl in Eq; [done| |congruence|].
  - discriminate Eq.
  - injection Eq as Eq. apply (f_equal skip_stars) in Eq.
    rewrite !skip_stars_replicate in Eq by done. simplify_eq. eauto.
Qed.

Lemma wild_go_spec b fuel p v :
  length p ≤ fuel → wild_go b fuel p v = true ↔ denotes b p v.
Proof.
  revert p v. induction fuel as [|fuel IH]; intros [|c p] v Hlen; simpl in Hlen; try lia.
  1,2: destruct v; simpl; split; [constructor | done | done | by inversion 1].
  simpl. destruct (Ascii.eqb_spec c STAR) as [->|Hc].
  - destruct (skip_stars p) as [n rest] eqn:E. apply skip_stars_spec in E as [-> Hr].
    rewrite length_app, length_replicate in Hlen. rewrite star_loop_spec.
    change (STAR :: replicate n STAR ++ rest) with (replicate (S n) STAR ++ rest). split.
    + intros (u & w & -> & Hg & Hu). apply IH in Hg; [|lia]. constructor; try done.
      intros -> ->. by apply Hu.
    + intros H. apply denotes_stars_inv in H as (u & w & -> & Hw & Hu); [|done].
      exists u, w. split_and!; [done | by apply IH; [lia|] |].
      intros Hd. apply Hu; destruct b, n; done.
  - destruct v as [|d v]; [split; [done | inversion 1; congruence]|].
    rewrite andb_true_iff, IH by lia. split.
    + intros [[H|H]%orb_true_iff Hv].
      * apply Ascii.eqb_eq in H as ->. by constructor.
      * apply Ascii.eqb_eq in H as ->. destruct (decide (c = QUESTION)) as [->|]; by constructor.
    + inversion 1; simplify_eq; split; try done.
      by rewrite Ascii.eqb_refl, orb_true_r.
Qed.

(** The granter's matcher decides what its documentation describes: a
    question mark stands for one byte, a lone star for bytes other than a
    slash, two or more stars for any bytes, anything else for itself. The
    backtracking always terminates with the answer. *)
Theorem wildcard_match_iff pattern value :
  wildcard_match pattern value = true ↔ denotes true (bytes pattern) (bytes value).
Proof. by apply wild_go_spec. Qed.

(** The allow-list's matcher, case folded; its stars cross slashes. *)
Lemma glob_match_iff `{Lowercase} pattern value :
  glob_match pattern value = true
  ↔ denotes false (bytes (to_lowercase pattern)) (bytes (to_lowercase value)).
Proof. by apply wild_go_spec. Qed.

(** ** Literal patterns *)

Definition literal (s : string) : bool := negb (has_char STAR s) && negb (has_char QUESTION s).

Lemma bytes_inj s t : bytes s = bytes t → s = t.
Proof.
  unfold bytes. intros H.
  by rewrite <- (String.string_of_list_ascii_of_string s), H, String.string_of_list_ascii_of_string.
Qed.

Lemma literal_cons c s :
  literal (String c s) = true → c ≠ STAR ∧ c ≠ QUESTION ∧ literal s = true.
Proof.
  unfold literal. simpl. rewrite !negb_orb, !andb_true_iff, !negb_true_iff.
  intros [[Hs ?] [Hq ?]]. apply Ascii.eqb_neq in Hs, Hq. auto.
Qed.

(** A pattern without wildcards matches itself only. *)
Lemma wildcard_match_literal p v :
  literal p = true → wildcard_match p v = true ↔ p = v.
Proof.
  intros Hp. rewrite wildcard_match_iff. split.
  - intros H. apply bytes_inj. revert v Hp H. induction p as [|c p IH]; intros v Hp H.
    + inversion H. done.
    + apply literal_cons in Hp as (Hs & Hq & Hp). unfold bytes in *. simpl in H |- *.
      inversion H as [|? ? w Hw | ? ? w ? ? Hw | n q u w ? ? ? ]; simplify_eq/=.
      f_equal. replace w with (bytes (String.string_of_list_ascii w)).
      * apply IH; [done|]. unfold bytes. by rewrite String.list_ascii_of_string_of_list_ascii.
      * unfold bytes. by rewrite String.list_ascii_of_string_of_list_ascii.
  - intros <-. induction p as [|c p IH]; [constructor|].
    apply literal_cons in Hp as (Hs & Hq & Hp). constructor; auto.
Qed.

(** ** The tool allow-list ([approval_policy.rs]) *)

(* SRC guard/src/approval_policy.rs @enum:Approval Approval *)
Inductive Approval := ApAllow | ApAsk | ApDeny.
#[export] Instance Approval_eq : EqDecision Approval.
Proof. solve_decision. Defined.

(* SRC guard/src/approval_policy.rs @struct:ToolPattern ToolPattern *)
Record ToolPattern := { tp_tool : string; tp_args_glob : option string }.

(* SRC guard/src/approval_policy.rs @fn:matches ToolPattern::matches *)
Definition tp_matches {lower : Lowercase} (self : ToolPattern) (tool args : string) : bool :=
  if negb (glob_match (tp_tool self) tool) then false
  else match tp_args_glob self with
       | None => true
       | Some g => glob_match g args
       end.

(** The loop of [ApprovalPolicy::evaluate] with its two locals. *)
Fixpoint approval_loop {lower : Lowercase} (tool args : string) (denied : bool)
    (last : option Approval) (rules : list (ToolPattern * Approval)) : bool * option Approval :=
  match rules with
  | [] => (denied, last)
  | (pat, approval) :: rest =>
      if tp_matches pat tool args then
        approval_loop tool args (denied || bool_decide (approval = ApDeny)) (Some approval) rest
      else approval_loop tool args denied last rest
  end.

(* SRC guard/src/approval_policy.rs @fn:evaluate ApprovalPolicy::evaluate *)
Definition approval_evaluate {lower : Lowercase} (rules : list (ToolPattern * Approval))
    (tool args : string) : Approval :=
  let '(denied, last) := approval_loop tool args false None rules in
  if denied then ApDeny else default ApAsk last.

(** The answers of the rules that match, in order. *)
Definition matching {lower : Lowercase} (rules : list (ToolPattern * Approval))
    (tool args : string) : list Approval :=
  (filter (λ r, tp_matches r.1 tool args = true) rules).*2.

Lemma approval_loop_spec `{Lowercase} tool args denied lst rules :
  approval_loop tool args denied lst rules =
  (denied || bool_decide (ApDeny ∈ matching rules tool args),
   match last (matching rules tool args) with Some a => Some a | None => lst end).
Proof.
  revert denied lst. induction rules as [|[pat a] rules IH]; intros denied lst.
  - simpl. by rewrite orb_false_r.
  - unfold matching in *. simpl. rewrite filter_cons. simpl.
    destruct (tp_matches pat tool args) eqn:E; simpl; rewrite IH; [|done].
    rewrite last_cons. f_equal; [|by destruct (last _)].
    rewrite <- orb_assoc. f_equal. apply eq_bool_prop_intro.
    rewrite orb_True, !bool_decide_spec, elem_of_cons. intuition congruence.
Qed.

(** The allow-list denies as soon as one matching rule denies, wherever
    it stands; otherwise the last matching rule answers, and a call no rule
    matches is asked about. *)
Theorem approval_evaluate_spec `{Lowercase} rules tool args :
  approval_evaluate rules tool args =
  if bool_decide (ApDeny ∈ matching rules tool args) then ApDeny
  else default ApAsk (last (matching rules tool args)).
Proof.
  unfold approval_evaluate. rewrite approval_loop_spec. simpl. by destruct (last _).
Qed.

Example deny_beats_a_later_allow :
  @approval_evaluate ascii_only_lowercase
    [ ({| tp_tool := "shell.*"; tp_args_glob := Some "*rm *" |}, ApDeny);
      ({| tp_tool := "*"; tp_args_glob := None |}, ApAllow) ] "Shell.Run" "rm -rf /" = ApDeny.
Proof. vm_compute. reflexivity. Qed.
