(* ===== verification/Granter.v ===== *)
(** * The capability granter ([everyaios-guard/src/granter.rs])

    What a plugin declares against what the host grants: [grant] and the
    per-operation check [granted_has]. *)
From S2P Require Import Prelude Glob.

(* SRC guard/src/granter.rs @struct:TrustFlags TrustFlags *)
Record TrustFlags := {
  tf_network : bool;
  tf_shell : bool;
  tf_files_write : bool;
  tf_approval_required : bool;
  tf_sandboxed : bool
}.

(* SRC guard/src/granter.rs @struct:GrantRequest GrantRequest *)
Record GrantRequest := {
  gr_name : string;
  agent_bindings : list string;
  trust : TrustFlags;
  capabilities_allow : list string;
  capabilities_deny : list string
}.

(* SRC guard/src/granter.rs @struct:HostGrant HostGrant *)
Record HostGrant := { trusted_agents : list string; host_capabilities : list string }.

(* SRC guard/src/granter.rs @struct:GrantedCapabilities GrantedCapabilities *)
Record GrantedCapabilities := {
  gc_plugin : string;
  gc_agent : string;
  gc_capabilities : list string;
  gc_denied : list string
}.

(* SRC guard/src/granter.rs @enum:GrantError GrantError *)
Inductive GrantError :=
  | NoAgentBinding (plugin : string)
  | NotTrusted (plugin : string) (bindings : list string)
  | TrustFlagClosed (plugin cap flag : string)
  | UnsandboxedPower (plugin cap : string)
  | ApprovalNotRequired (plugin cap : string)
  | ExplicitlyDenied (plugin cap : string)
  | NotHostGranted (plugin cap : string).

(* SRC guard/src/granter.rs @fn:class GrantRequest::class *)
Definition cap_class (cap : string) : option string := fst <$> split_once ":" cap.

(* SRC guard/src/granter.rs @fn:required_trust_flag GrantRequest::required_trust_flag *)
Definition required_trust_flag (class : string) : option string :=
  if String.eqb class "network" then Some "network"
  else if String.eqb class "shell" then Some "shell"
  else if String.eqb class "fs.write" then Some "files_write"
  else None.

(* SRC guard/src/granter.rs @fn:is_dangerous GrantRequest::is_dangerous *)
Definition is_dangerous (class : string) : bool :=
  String.eqb class "network" || String.eqb class "shell" || String.eqb class "fs.write".

(** [match flag { "network" => ..., _ => false }]. *)
Definition declared_flag (t : TrustFlags) (flag : string) : bool :=
  if String.eqb flag "network" then tf_network t
  else if String.eqb flag "shell" then tf_shell t
  else if String.eqb flag "files_write" then tf_files_write t
  else false.

(** The body of the loop over [capabilities_allow]: the refusal, if any. *)
(* SRC guard/src/granter.rs 205 258 CapabilityGranter::grant *)
Definition grant_one (host : HostGrant) (req : GrantRequest) (cap : string) : result unit GrantError :=
  if existsb (λ d, wildcard_match d cap) (capabilities_deny req) then
    Err (ExplicitlyDenied (gr_name req) cap)
  else if negb (existsb (λ h, wildcard_match h cap || wildcard_match cap h) (host_capabilities host)) then
    Err (NotHostGranted (gr_name req) cap)
  else
    let class := default cap (cap_class cap) in
    _ <-? match required_trust_flag class with
          | Some flag =>
              if declared_flag (trust req) flag then Ok tt
              else Err (TrustFlagClosed (gr_name req) cap flag)
          | None => Ok tt
          end;;
    if is_dangerous class then
      if negb (tf_sandboxed (trust req)) then Err (UnsandboxedPower (gr_name req) cap)
      else if negb (tf_approval_required (trust req)) then Err (ApprovalNotRequired (gr_name req) cap)
      else Ok tt
    else Ok tt.

(** The loop, accumulating [granted]. *)
Fixpoint grant_caps (host : HostGrant) (req : GrantRequest) (granted caps : list string)
    : result (list string) GrantError :=
  match caps with
  | [] => Ok granted
  | cap :: rest => _ <-? grant_one host req cap;; grant_caps host req (granted ++ [cap]) rest
  end.

(* SRC guard/src/granter.rs @fn:grant CapabilityGranter::grant *)
Definition grant (host : HostGrant) (req : GrantRequest) : result GrantedCapabilities GrantError :=
  match agent_bindings req with
  | [] => Err (NoAgentBinding (gr_name req))
  | _ =>
      match list_find (λ a, a ∈ trusted_agents host) (agent_bindings req) with
      | None => Err (NotTrusted (gr_name req) (agent_bindings req))
      | Some (_, agent) =>
          granted <-? grant_caps host req [] (capabilities_allow req);;
          Ok {| gc_plugin := gr_name req; gc_agent := agent;
                gc_capabilities := granted; gc_denied := capabilities_deny req |}
      end
  end.

(* SRC guard/src/granter.rs @fn:granted_has CapabilityGranter::granted_has *)
Definition granted_has (granted : GrantedCapabilities) (need : string) : bool :=
  if negb (existsb (λ g, wildcard_match g need || wildcard_match need g) (gc_capabilities granted))
  then false
  else negb (existsb (λ d, wildcard_match d need) (gc_denied granted)).

(** ** What a successful grant establishes *)

(** A capability of a dangerous class is backed by its own trust flag, the
    sandbox and human approval. *)
Definition power_backed (t : TrustFlags) (cap : string) : Prop :=
  is_dangerous (default cap (cap_class cap)) = true →
  tf_sandboxed t = true ∧ tf_approval_required t = true
  ∧ ∃ flag, required_trust_flag (default cap (cap_class cap)) = Some flag
            ∧ declared_flag t flag = true.

Definition host_covers (host : HostGrant) (cap : string) : Prop :=
  ∃ h, h ∈ host_capabilities host ∧ (wildcard_match h cap = true ∨ wildcard_match cap h = true).

Definition not_denied (denied : list string) (need : string) : Prop :=
  ∀ d, d ∈ denied → wildcard_match d need = false.

Lemma existsb_elem {A} (f : A → bool) l : existsb f l = true ↔ ∃ x, x ∈ l ∧ f x = true.
Proof. rewrite existsb_exists. by setoid_rewrite list_elem_of_In. Qed.

Lemma existsb_none {A} (f : A → bool) l : existsb f l = false ↔ ∀ x, x ∈ l → f x = false.
Proof.
  rewrite <- not_true_iff_false, existsb_elem. split.
  - intros H x Hx. apply not_true_iff_false. eauto.
  - intros H (x & Hx & Hf). rewrite H in Hf; done.
Qed.

Lemma grant_one_ok_iff host req cap :
  grant_one host req cap = Ok tt ↔
  not_denied (capabilities_deny req) cap ∧ host_covers host cap ∧ power_backed (trust req) cap.
Proof.
  unfold grant_one, not_denied, host_covers, power_backed.
  rewrite <- existsb_none.
  assert (Hcov : (∃ h, h ∈ host_capabilities host ∧
            (wildcard_match h cap = true ∨ wildcard_match cap h = true)) ↔
          existsb (λ h, wildcard_match h cap || wildcard_match cap h) (host_capabilities host) = true).
  { rewrite existsb_elem. by setoid_rewrite orb_true_iff. }
  rewrite Hcov. clear Hcov.
  destruct (existsb _ (capabilities_deny req)); [naive_solver|].
  destruct (existsb _ (host_capabilities host)); [|naive_solver]. simpl.
  generalize (default cap (cap_class cap)) as class. intros class.
  assert (Hd : is_dangerous class = true ↔ ∃ f, required_trust_flag class = Some f).
  { unfold is_dangerous, required_trust_flag.
    repeat (case_match; simpl; [naive_solver|]). split; [done | by intros []]. }
  destruct (required_trust_flag class) as [f|] eqn:Ef; simpl.
  - rewrite (proj2 Hd) by eauto.
    destruct (declared_flag (trust req) f) eqn:El, (tf_sandboxed (trust req)),
      (tf_approval_required (trust req)); simpl; clear Hd;
      (split; [intros H; try discriminate H; eauto 10 |]);
      intros (_ & _ & Hp); destruct (Hp eq_refl) as (? & ? & ? & ? & ?); congruence.
  - destruct (is_dangerous class); [by destruct (proj1 Hd eq_refl) | naive_solver].
Qed.

Lemma grant_one_unit host req cap u : grant_one host req cap = Ok u → grant_one host req cap = Ok tt.
Proof. by destruct u. Qed.

Lemma grant_caps_ok_iff host req acc caps g :
  grant_caps host req acc caps = Ok g ↔
  g = acc ++ caps ∧ Forall (λ c, grant_one host req c = Ok tt) caps.
Proof.
  revert acc. induction caps as [|c caps IH]; intros acc; simpl.
  - rewrite app_nil_r. split; [by intros [= ->] | by intros [-> _]].
  - rewrite Forall_cons. destruct (grant_one host req c) as [[]|e] eqn:E; simpl; [|naive_solver].
    rewrite IH, <- app_assoc. naive_solver.
Qed.

(** A grant is the whole bundle or nothing: it succeeds exactly when the
    plugin binds an agent the host trusts and every declared capability is
    outside the deny list, covered by the host and, for the dangerous classes,
    backed by its trust flag, the sandbox and human approval. It then carries
    the first trusted binding, the declared capabilities and the deny list. *)
Theorem grant_ok_iff host req g :
  grant host req = Ok g ↔
  ∃ i, list_find (λ a, a ∈ trusted_agents host) (agent_bindings req) = Some (i, gc_agent g)
       ∧ gc_plugin g = gr_name req ∧ gc_capabilities g = capabilities_allow req
       ∧ gc_denied g = capabilities_deny req
       ∧ ∀ cap, cap ∈ capabilities_allow req →
           not_denied (capabilities_deny req) cap ∧ host_covers host cap
           ∧ power_backed (trust req) cap.
Proof.
  unfold grant. setoid_rewrite <- grant_one_ok_iff. setoid_rewrite <- Forall_forall.
  destruct (agent_bindings req) as [|b bs] eqn:Eb; [naive_solver|].
  destruct (list_find _ (b :: bs)) as [[i a]|] eqn:Ef; [|naive_solver].
  destruct (grant_caps host req [] (capabilities_allow req)) as [l|e] eqn:Eg; simpl.
  - apply grant_caps_ok_iff in Eg as [-> Hall]. destruct g; naive_solver.
  - split; [done|]. intros (j & _ & Hp & Hc & Hd & Hall).
    assert (Hok : grant_caps host req [] (capabilities_allow req) = Ok (capabilities_allow req))
      by (by apply grant_caps_ok_iff). congruence.
Qed.

(** A granted operation is never one the manifest denies, and it is
    matched against a capability the manifest declared. *)
Theorem granted_has_respects_denies host req g need :
  grant host req = Ok g → granted_has g need = true →
  not_denied (capabilities_deny req) need
  ∧ ∃ cap, cap ∈ capabilities_allow req
      ∧ (wildcard_match cap need = true ∨ wildcard_match need cap = true).
Proof.
  intros (i & _ & _ & Hc & Hd & _)%grant_ok_iff. unfold granted_has.
  destruct (existsb (λ g0, wildcard_match g0 need || _) _) eqn:E; [simpl|done].
  rewrite negb_true_iff, existsb_none, Hd. intros Hn. split; [done|].
  apply existsb_elem in E as (c & Hin & Hm%orb_true_iff). rewrite Hc in Hin. eauto.
Qed.

(** As long as no wildcard is used on the plugin's side, a plugin is
    never granted an operation outside the host's grant. *)
Theorem literal_grant_within_host host req g need :
  Forall (λ c, literal c = true) (capabilities_allow req) → literal need = true →
  grant host req = Ok g → granted_has g need = true →
  ∃ h, h ∈ host_capabilities host ∧ wildcard_match h need = true.
Proof.
  intros Hlit Hneed Hg Hh.
  assert (Hneed' : ∃ cap, cap ∈ capabilities_allow req ∧ cap = need).
  { unfold granted_has in Hh. destruct (existsb _ (gc_capabilities g)) eqn:E; [|done].
    apply existsb_elem in E as (c & Hin & Hm%orb_true_iff).
    apply grant_ok_iff in Hg as (_ & _ & _ & Hc & _). rewrite Hc in Hin.
    exists c. split; [done|]. rewrite Forall_forall in Hlit. specialize (Hlit c Hin).
    destruct Hm as [Hm|Hm]; apply wildcard_match_literal in Hm; done. }
  destruct Hneed' as (cap & Hin & ->).
  apply grant_ok_iff in Hg as (_ & _ & _ & _ & _ & Hall).
  destruct (Hall need Hin) as (_ & (h & Hh' & Hm) & _). exists h. split; [done|].
  destruct Hm as [Hm|Hm]; [done|]. apply wildcard_match_literal in Hm as ->; [|done].
  by apply wildcard_match_literal.
Qed.

(** ** Where the intersection leaks *)

(** A host that grants the office directory and an audited agent. *)
Definition office_host : HostGrant :=
  {| trusted_agents := ["office"]; host_capabilities := ["fs.read:/tmp/office/**"] |}.
Definition greedy_plugin : GrantRequest :=
  {| gr_name := "greedy"; agent_bindings := ["office"];
     trust := {| tf_network := false; tf_shell := false; tf_files_write := false;
                 tf_approval_required := false; tf_sandboxed := false |};
     capabilities_allow := ["fs.read:**"]; capabilities_deny := [] |}.

(** The grant is not the intersection the documentation promises: a
    plugin that declares every read is granted it by a host that only grants
    one directory, because the coverage check also accepts a declared pattern
    that matches the text of the host's. The plugin then reads a path no
    capability of the host matches. *)
Theorem grant_exceeds_the_host :
  ∃ g, grant office_host greedy_plugin = Ok g
       ∧ granted_has g "fs.read:/etc/shadow" = true
       ∧ ∀ h, h ∈ host_capabilities office_host → wildcard_match h "fs.read:/etc/shadow" = false.
Proof.
  eexists. split_and!; [vm_compute; reflexivity | vm_compute; reflexivity |].
  intros h Hh. apply list_elem_of_singleton in Hh as ->. vm_compute. reflexivity.
Qed.

(** ** Witnesses *)

Definition modest_plugin : GrantRequest :=
  {| gr_name := "modest"; agent_bindings := ["writer"; "office"];
     trust := {| tf_network := true; tf_shell := false; tf_files_write := false;
                 tf_approval_required := true; tf_sandboxed := true |};
     capabilities_allow := ["fs.read:/tmp/office/a.docx"]; capabilities_deny := ["fs.read:/etc/*"] |}.
Definition modest_grant : GrantedCapabilities :=
  {| gc_plugin := "modest"; gc_agent := "office";
     gc_capabilities := ["fs.read:/tmp/office/a.docx"]; gc_denied := ["fs.read:/etc/*"] |}.

Lemma granted_has_respects_denies_witness :
  not_denied ["fs.read:/etc/*"] "fs.read:/tmp/office/a.docx"
  ∧ ∃ cap, cap ∈ capabilities_allow modest_plugin
      ∧ (wildcard_match cap "fs.read:/tmp/office/a.docx" = true
         ∨ wildcard_match "fs.read:/tmp/office/a.docx" cap = true).
Proof.
  apply (granted_has_respects_denies office_host modest_plugin modest_grant);
    vm_compute; reflexivity.
Defined.

Lemma literal_grant_within_host_witness :
  ∃ h, h ∈ host_capabilities office_host
       ∧ wildcard_match h "fs.read:/tmp/office/a.docx" = true.
Proof.
  apply (literal_grant_within_host office_host modest_plugin modest_grant);
    [repeat constructor | vm_compute; reflexivity ..].
Defined.
