(* ===== verification/Autonomy.v ===== *)
(** * The autonomy gradient, the hook profiles, the human floors, the
    structural shell rule and the loop breaker

    [autonomy.rs], [profiles.rs], [floors.rs], [structural.rs] and
    [loopguard.rs] of [everyaios-guard], with [AutonomyPreset::to_mode]. *)
From S2P Require Import Prelude Binding Ticket F64 Permissions.

(** [str::to_uppercase], Unicode-wide: an interface, as [Lowercase] is. *)
Class Uppercase := { to_uppercase : string → string }.

(* SRC guard/src/autonomy.rs @enum:RiskClass RiskClass *)
Inductive RiskClass := RcRead | WriteLocal | Exec | External.

(* SRC guard/src/autonomy.rs @fn:from_operation RiskClass::from_operation *)
Definition from_operation (op : Operation) : RiskClass :=
  match op with
  | ExternalNetwork _ | WebAction => External
  | TerminalShell _ | GenericWrite => Exec
  | DeleteFiles | MultiFileEdit _ => WriteLocal
  | Read _ => RcRead
  end.

(* SRC guard/src/autonomy.rs @fn:risk_tier RiskClass::risk_tier *)
Definition class_risk_tier (c : RiskClass) (destructive : bool) : RiskTier :=
  match c with
  | RcRead => R0
  | WriteLocal => if destructive then R3 else R1
  | Exec => R2
  | External => R2
  end.

(* SRC guard/src/autonomy.rs @enum:Mode Mode *)
Inductive Mode := Discuss | Plan | Interactive | Auto | Custom.

#[export] Instance RiskClass_eq : EqDecision RiskClass.
Proof. solve_decision. Defined.
#[export] Instance Mode_eq : EqDecision Mode.
Proof. solve_decision. Defined.

(* SRC guard/src/autonomy.rs @fn:as_str#2 Mode::as_str *)
Definition mode_as_str (m : Mode) : string :=
  match m with
  | Discuss => "DISCUSS"
  | Plan => "PLAN"
  | Interactive => "INTERACTIVE"
  | Auto => "AUTO"
  | Custom => "CUSTOM"
  end.

(* SRC guard/src/autonomy.rs @fn:parse Mode::parse *)
Definition mode_parse {upper : Uppercase} (s : string) : option Mode :=
  let t := to_uppercase s in
  if String.eqb t "DISCUSS" then Some Discuss
  else if String.eqb t "PLAN" then Some Plan
  else if String.eqb t "INTERACTIVE" then Some Interactive
  else if String.eqb t "AUTO" then Some Auto
  else if String.eqb t "CUSTOM" then Some Custom
  else None.

(* SRC guard/src/autonomy.rs @enum:AutonomyVerdict AutonomyVerdict *)
Inductive AutonomyVerdict := Act | Ask | ParkInInbox | VBlock.
#[export] Instance AutonomyVerdict_eq : EqDecision AutonomyVerdict.
Proof. solve_decision. Defined.

(* SRC guard/src/autonomy.rs @struct:AutonomyPolicy AutonomyPolicy *)
Record AutonomyPolicy := { ap_class : RiskClass; ap_mode : Mode }.

(* SRC guard/src/autonomy.rs @fn:resolve AutonomyPolicy::resolve *)
Definition resolve (self : AutonomyPolicy) (op : Operation) (destructive : bool) : AutonomyVerdict :=
  match ap_mode self with
  | Discuss => match ap_class self with RcRead => Act | _ => Ask end
  | Plan => match ap_class self with RcRead => Act | _ => Ask end
  | Interactive => match ap_class self with RcRead => Act | _ => Ask end
  | Auto =>
      match ap_class self with
      | RcRead => Act
      | WriteLocal => if negb destructive then Act else Ask
      | Exec => Ask
      | External => Ask
      end
  | Custom => Act
  end.

(* SRC guard/src/autonomy.rs @fn:unattended_verdict AutonomyPolicy::unattended_verdict *)
Definition unattended_verdict (self : AutonomyPolicy) (op : Operation) (destructive : bool)
    : AutonomyVerdict :=
  match ap_class self with
  | RcRead => Act
  | WriteLocal => if negb destructive then Act else ParkInInbox
  | Exec => ParkInInbox
  | External => ParkInInbox
  end.

(* SRC guard/src/permissions.rs @fn:to_mode AutonomyPreset::to_mode *)
Definition to_mode (l : AutonomyPreset) : Mode :=
  match l with
  | PreSandbox => Plan
  | PreAsk => Interactive
  | PreAuto => Auto
  | PreMaximum => Custom
  end.

Definition mode_rank (m : Mode) : nat :=
  match m with Discuss => 0 | Plan => 1 | Interactive => 2 | Auto => 3 | Custom => 4 end.

(** The gradient is a ladder: what a mode acts on by itself, every more
    autonomous mode acts on; below [Custom] nothing that executes, leaves the
    machine or destroys is done without asking. *)
Theorem gradient_ladder c m1 m2 op destructive :
  (mode_rank m1 ≤ mode_rank m2 →
   resolve {| ap_class := c; ap_mode := m1 |} op destructive = Act →
   resolve {| ap_class := c; ap_mode := m2 |} op destructive = Act)
  ∧ (m1 ≠ Custom → c = Exec ∨ c = External ∨ (c = WriteLocal ∧ destructive = true) →
     resolve {| ap_class := c; ap_mode := m1 |} op destructive = Ask).
Proof.
  split.
  - intros Hr H. destruct m1, m2; simpl in Hr; try lia; destruct c, destructive; done.
  - intros Hm Hc. destruct m1, c, destructive; naive_solver.
Qed.

(** An unattended run acts exactly where an [Auto] run would have acted,
    and parks everything [Auto] would have asked about; it never asks. *)
Theorem unattended_parks_what_auto_asks p op destructive :
  unattended_verdict p op destructive =
  match resolve {| ap_class := ap_class p; ap_mode := Auto |} op destructive with
  | Act => Act
  | _ => ParkInInbox
  end.
Proof. destruct p as [[] m], destructive; reflexivity. Qed.

(** [Mode::Discuss] is documented as never acting; it acts on reads. *)
Lemma discuss_acts_on_reads op :
  resolve {| ap_class := RcRead; ap_mode := Discuss |} op false = Act.
Proof. reflexivity. Qed.

(** A local delete is classed as a reversible local write: whether [Auto] and an
    unattended run do it without asking rests on the caller's flag alone. *)
Lemma delete_rests_on_the_flag m :
  unattended_verdict {| ap_class := from_operation DeleteFiles; ap_mode := m |} DeleteFiles false = Act.
Proof. reflexivity. Qed.

(** ** Hook profiles ([profiles.rs]) *)

(* SRC guard/src/profiles.rs @enum:Profile Profile *)
Inductive Profile := Minimal | Standard | Strict.

(* SRC guard/src/profiles.rs @fn:human_approval_threshold Profile::human_approval_threshold *)
Definition human_approval_threshold (p : Profile) : RiskLevel :=
  match p with Minimal => Critical | Standard => High | Strict => Medium end.

(* SRC guard/src/profiles.rs @fn:enforce_path_floor Profile::enforce_path_floor *)
Definition enforce_path_floor (p : Profile) : bool :=
  match p with Standard | Strict => true | Minimal => false end.

(* SRC guard/src/profiles.rs @fn:scan_tool_output Profile::scan_tool_output *)
Definition scan_tool_output (p : Profile) : bool :=
  match p with Standard | Strict => true | Minimal => false end.

(* SRC guard/src/profiles.rs @fn:require_red_team_gate Profile::require_red_team_gate *)
Definition require_red_team_gate (p : Profile) : bool :=
  match p with Strict => true | _ => false end.

(* SRC guard/src/profiles.rs @fn:ask_on_new_domain Profile::ask_on_new_domain *)
Definition ask_on_new_domain (p : Profile) : bool :=
  match p with Standard | Strict => true | Minimal => false end.

(* SRC guard/src/profiles.rs @enum:Hook Hook *)
Inductive Hook :=
  | HPathFloor | HNewDomain | HToolOutputScan | HSensitiveFile | HKeyMaterial
  | HExternalNetwork | HDestructiveCommand.

(* SRC guard/src/profiles.rs @fn:gate gate *)
Definition gate (profile : Profile) (hook : Hook) : GateAction :=
  match hook with
  | HPathFloor => GAllow
  | HNewDomain => if ask_on_new_domain profile then GAsk else GAllow
  | HToolOutputScan => GAllow
  | HSensitiveFile =>
      match profile with Minimal => GAllow | Standard => GAsk | Strict => GBlock end
  | HKeyMaterial => match profile with Minimal => GAsk | Standard => GBlock | Strict => GBlock end
  | HExternalNetwork =>
      match profile with Minimal => GAllow | Standard => GAsk | Strict => GAsk end
  | HDestructiveCommand =>
      match profile with Minimal => GAsk | Standard => GBlock | Strict => GBlock end
  end.

Definition profile_rank (p : Profile) : nat :=
  match p with Minimal => 0 | Standard => 1 | Strict => 2 end.
Definition gate_rank (a : GateAction) : nat :=
  match a with GAllow => 0 | GAsk => 1 | GBlock => 2 end.

(** A stricter profile is stricter everywhere: it never lets a hook
    through that a laxer one stops, it asks a human from a lower risk level on,
    and it runs every check the laxer one runs. Key material and destructive
    commands are stopped in every profile. *)
Theorem profiles_are_ordered p1 p2 h :
  profile_rank p1 ≤ profile_rank p2 →
  gate_rank (gate p1 h) ≤ gate_rank (gate p2 h)
  ∧ risk_geb (human_approval_threshold p1) (human_approval_threshold p2) = true
  ∧ (enforce_path_floor p1 → enforce_path_floor p2)
  ∧ (scan_tool_output p1 → scan_tool_output p2)
  ∧ (require_red_team_gate p1 → require_red_team_gate p2)
  ∧ gate p1 HKeyMaterial ≠ GAllow ∧ gate p1 HDestructiveCommand ≠ GAllow.
Proof.
  intros H. destruct p1, p2; simpl in H; try lia; destruct h; simpl;
    split_and!; try done; try lia.
Qed.

(** ** Human floors ([floors.rs]) *)

(* SRC guard/src/floors.rs @struct:HumanFloor HumanFloor *)
Record HumanFloor := {
  protected_in_project : list string;
  persistent_authority : list string
}.

(* SRC guard/src/floors.rs @fn:defaults HumanFloor::defaults *)
Definition human_floor_defaults : HumanFloor :=
  {| protected_in_project :=
       [".git/hooks/"; ".github/workflows/"; ".vscode/tasks.json"; ".coworker/"];
     persistent_authority := ["save_skill"; "create_scheduled_task"] |}.

Definition BACKSLASH : ascii := "\"%char.

(* SRC guard/src/floors.rs @fn:requires_human HumanFloor::requires_human *)
Definition requires_human {lower : Lowercase} (self : HumanFloor) (op : string)
    (path : option string) : bool :=
  let op_lower := to_lowercase op in
  if existsb (λ a, String.eqb (to_lowercase a) op_lower) (persistent_authority self) then true
  else match path with
       | Some p =>
           let normalized := replace_char BACKSLASH SLASH p in
           existsb (λ prefix, contains (replace_char BACKSLASH SLASH prefix) normalized)
                   (protected_in_project self)
       | None => false
       end.

(* SRC guard/src/floors.rs @struct:RunGrant RunGrant *)
Record RunGrant := { rg_id : string; rg_scope : string; rg_expires_at_ms : N }.

(* SRC guard/src/floors.rs @fn:is_live RunGrant::is_live *)
Definition rg_is_live (self : RunGrant) (now_ms : N) : bool :=
  if (rg_expires_at_ms self =? 0)%N then true else (now_ms <? rg_expires_at_ms self)%N.

(* SRC guard/src/floors.rs @fn:mcp_floor_risk mcp_floor_risk *)
Definition mcp_floor_risk : RiskClass := External.

(* SRC guard/src/floors.rs @fn:unlocated_write_verdict unlocated_write_verdict *)
Definition unlocated_write_verdict : AutonomyVerdict := VBlock.

(** The floor is textual: a repeated slash or another letter case walks past it. *)
Example human_floor_is_textual :
  let f := @requires_human ascii_only_lowercase human_floor_defaults "write" in
  f (Some "/proj/.git/hooks/pre-commit") = true
  ∧ f (Some "C:\proj\.git\hooks\pre-commit") = true
  ∧ f (Some "/proj/.git//hooks/pre-commit") = false
  ∧ f (Some "/proj/.GIT/hooks/pre-commit") = false.
Proof. vm_compute. auto. Qed.

(** ** The structural shell rule ([structural.rs]) *)

(* SRC guard/src/structural.rs @const:SHELL_OPERATORS SHELL_OPERATORS *)
Definition SHELL_OPERATORS : list ascii :=
  [";"; "&"; "|"; ">"; "<"; "`"; "$"; "("; ")"; ascii_of_N 10; ascii_of_N 13]%char.

(** All of them are ASCII, so looking for them by byte is looking by [char]. *)
(* SRC guard/src/structural.rs @fn:contains_shell_operator contains_shell_operator *)
Definition contains_shell_operator (cmd : string) : bool :=
  existsb (λ c, bool_decide (c ∈ SHELL_OPERATORS)) (String.list_ascii_of_string cmd).

(* SRC guard/src/structural.rs @enum:StructuralVerdict StructuralVerdict *)
Inductive StructuralVerdict := Clean | ForcedApproval.

(* SRC guard/src/structural.rs @fn:structural_verdict structural_verdict *)
Definition structural_verdict (cmd : string) (allowlisted destructive : bool) : StructuralVerdict :=
  if allowlisted && negb destructive && contains_shell_operator cmd then ForcedApproval else Clean.

Lemma list_ascii_append s t :
  String.list_ascii_of_string (s +:+ t)
  = String.list_ascii_of_string s ++ String.list_ascii_of_string t.
Proof. induction s as [|c s IH]; [done|]. rewrite app_string_cons. simpl. by rewrite IH. Qed.

(** Joining anything to an allow-listed command by a shell operator sends
    it to a human, however harmless the two commands are on their own. *)
Theorem chained_command_needs_approval a op b :
  op ∈ SHELL_OPERATORS →
  structural_verdict (a +:+ String op b) true false = ForcedApproval.
Proof.
  intros Hop. unfold structural_verdict, contains_shell_operator.
  rewrite list_ascii_append, existsb_app. simpl.
  rewrite (bool_decide_eq_true_2 _ Hop). by rewrite orb_true_r.
Qed.

(** ** The loop breaker ([loopguard.rs]) *)

(* SRC guard/src/loopguard.rs @fn:step_hash step_hash *)
Definition step_hash {sha : Sha256} (tool args : string) : string :=
  sha256_hex (tool +:+ String NUL args).

(* SRC guard/src/loopguard.rs @struct:LoopGuard LoopGuard *)
Record LoopGuard := { lg_window : nat; lg_max_repeats : nat; lg_recent : list string }.

(* SRC guard/src/loopguard.rs @fn:new LoopGuard::new *)
Definition loopguard_new (window max_repeats : nat) : LoopGuard :=
  {| lg_window := window; lg_max_repeats := max_repeats; lg_recent := [] |}.

(* SRC guard/src/loopguard.rs @fn:record LoopGuard::record *)
Definition lg_record (self : LoopGuard) (hash : string) : bool * LoopGuard :=
  let pushed := lg_recent self ++ [hash] in
  let recent := if (lg_window self <? length pushed)%nat then tail pushed else pushed in
  let count := length (filter (λ h, h = hash) recent) in
  ((lg_max_repeats self <=? count)%nat,
   {| lg_window := lg_window self; lg_max_repeats := lg_max_repeats self; lg_recent := recent |}).

(* SRC guard/src/loopguard.rs @fn:reset LoopGuard::reset *)
Definition lg_reset (self : LoopGuard) : LoopGuard :=
  {| lg_window := lg_window self; lg_max_repeats := lg_max_repeats self; lg_recent := [] |}.

Fixpoint lg_records (self : LoopGuard) (hashes : list string) : LoopGuard :=
  match hashes with [] => self | h :: rest => lg_records (lg_record self h).2 rest end.

(** The last [n] elements. *)
Definition lastn {A} (n : nat) (l : list A) : list A := drop (length l - n) l.

Lemma tail_drop {A} k (l : list A) : tail (drop k l) = drop (S k) l.
Proof. revert l. induction k as [|k IH]; intros [|x l]; try done. apply (IH l). Qed.

Lemma lastn_push {A} n (l : list A) x :
  let pushed := lastn n l ++ [x] in
  (if (n <? length pushed)%nat then tail pushed else pushed) = lastn n (l ++ [x]).
Proof.
  simpl. unfold lastn. rewrite !length_app, length_drop. simpl.
  destruct (Nat.ltb_spec n (length l - (length l - n) + 1)).
  - replace (length l + 1 - n) with (S (length l - n)) by lia.
    rewrite <- tail_drop, drop_app_le by lia. done.
  - replace (length l + 1 - n) with 0 by lia. replace (length l - n) with 0 by lia. done.
Qed.

Lemma lg_records_spec window max_repeats done hashes :
  lg_records {| lg_window := window; lg_max_repeats := max_repeats;
                lg_recent := lastn window done |} hashes
  = {| lg_window := window; lg_max_repeats := max_repeats;
       lg_recent := lastn window (done ++ hashes) |}.
Proof.
  revert done. induction hashes as [|h hs IH]; intros past; simpl; [by rewrite app_nil_r|].
  unfold lg_record. simpl. rewrite lastn_push, IH, <- app_assoc. done.
Qed.

(** Whatever has been recorded before, the breaker trips on a step exactly
    when that step occurs at least [max_repeats] times among the last [window]
    steps, the new one included; its memory is those steps and no more. *)
Theorem breaker_trips_on_repeats window max_repeats past hash :
  let '(trips, after) := lg_record (lg_records (loopguard_new window max_repeats) past) hash in
  let recent := lastn window (past ++ [hash]) in
  trips = (max_repeats <=? length (filter (λ h, h = hash) recent))%nat
  ∧ lg_recent after = recent ∧ length (lg_recent after) ≤ window.
Proof.
  pose proof (lg_records_spec window max_repeats [] past) as Hr.
  unfold loopguard_new. simpl in Hr. change (lastn window []) with (@nil string) in Hr.
  rewrite Hr. unfold lg_record. simpl. rewrite lastn_push.
  split_and!; [done | done |]. unfold lastn. rewrite length_drop. lia.
Qed.

(** Two steps with one identity are the same call, or an explicit
    SHA-256 collision. *)
Theorem step_hash_binds {sha : Sha256} t1 a1 t2 a2 :
  nul_free t1 = true → nul_free t2 = true → step_hash t1 a1 = step_hash t2 a2 →
  (t1 = t2 ∧ a1 = a2) ∨ collides (t1 +:+ String NUL a1) (t2 +:+ String NUL a2).
Proof.
  intros H1 H2 [Heq|Hc]%sha256_eq_or_collides; [left | by right].
  by apply nul_cut_inj in Heq.
Qed.

(** ** Witnesses *)

Lemma gradient_ladder_witness :
  resolve {| ap_class := WriteLocal; ap_mode := Custom |} (MultiFileEdit 2) false = Act
  ∧ resolve {| ap_class := Exec; ap_mode := Auto |} (TerminalShell false) false = Ask.
Proof.
  split.
  - refine (proj1 (gradient_ladder WriteLocal Auto Custom (MultiFileEdit 2) false) _ _);
      [simpl; lia | reflexivity].
  - refine (proj2 (gradient_ladder Exec Auto Auto (TerminalShell false) false) _ _);
      [discriminate | by left].
Defined.

Lemma profiles_are_ordered_witness :
  gate_rank (gate Standard HSensitiveFile) ≤ gate_rank (gate Strict HSensitiveFile).
Proof. refine (proj1 (profiles_are_ordered Standard Strict HSensitiveFile _)). simpl. lia. Defined.

Lemma chained_command_needs_approval_witness :
  structural_verdict ("ls " +:+ String ";" " rm -rf ~") true false = ForcedApproval.
Proof. apply chained_command_needs_approval. vm_compute. repeat constructor. Defined.

Lemma step_hash_binds_witness :
  @step_hash plain_digest "shell" "ls" = @step_hash plain_digest "shell" "ls"
  ∧ (("shell" = "shell" ∧ "ls" = "ls")
     ∨ @collides plain_digest ("shell" +:+ String NUL "ls") ("shell" +:+ String NUL "ls")).
Proof.
  split; [reflexivity|].
  apply (@step_hash_binds plain_digest "shell" "ls" "shell" "ls"); reflexivity.
Defined.
