(* ===== verification/Release.v ===== *)
(** * The data-release firewall ([everyaios-guard/src/release.rs])

    The egress decision table and its append-only receipts. *)
From S2P Require Import Prelude Glob Granter.

(* SRC guard/src/release.rs @enum:EnforcementZone EnforcementZone *)
Inductive EnforcementZone := Mediated | OsEgress.

(* SRC guard/src/release.rs @enum:ReleaseDecision ReleaseDecision *)
Inductive ReleaseDecision := RdAllow | RdRedact | RdDeny.

#[export] Instance EnforcementZone_eq : EqDecision EnforcementZone.
Proof. solve_decision. Defined.
#[export] Instance ReleaseDecision_eq : EqDecision ReleaseDecision.
Proof. solve_decision. Defined.

(* SRC guard/src/release.rs @struct:ReleaseReceipt ReleaseReceipt *)
Record ReleaseReceipt := {
  rr_id : string;
  rr_payload_desc : string;
  rr_destination : string;
  rr_zone : EnforcementZone;
  rr_profile : string;
  rr_decision : ReleaseDecision;
  rr_scan_signal : option string;
  rr_released_at : N
}.

(* SRC guard/src/release.rs @struct:EgressPolicy EgressPolicy *)
Record EgressPolicy := {
  ep_profile : string;
  ep_allowed_zones : list EnforcementZone;
  ep_deny_destinations : list string;
  ep_redact_destinations : list string
}.

(* SRC guard/src/release.rs @fn:standard EgressPolicy::standard *)
Definition egress_standard : EgressPolicy :=
  {| ep_profile := "standard"; ep_allowed_zones := [Mediated; OsEgress];
     ep_deny_destinations := []; ep_redact_destinations := [] |}.

(* SRC guard/src/release.rs @fn:strict EgressPolicy::strict *)
Definition egress_strict : EgressPolicy :=
  {| ep_profile := "strict"; ep_allowed_zones := [Mediated];
     ep_deny_destinations := []; ep_redact_destinations := [] |}.

(* SRC guard/src/release.rs @struct:EgressPolicyEngine EgressPolicyEngine *)
Record EgressPolicyEngine := {
  ee_policies : list EgressPolicy;
  ee_receipts : list ReleaseReceipt
}.

(* SRC guard/src/release.rs @fn:receipt EgressPolicyEngine::receipt *)
Definition egress_receipt (self : EgressPolicyEngine) (profile destination payload_desc : string)
    (zone : EnforcementZone) (decision : ReleaseDecision) (scan_signal : option string) (at_ms : N)
    : EgressPolicyEngine :=
  {| ee_policies := ee_policies self;
     ee_receipts := ee_receipts self ++
       [ {| rr_id := "rel:" +:+ pretty (N.of_nat (length (ee_receipts self)));
            rr_payload_desc := payload_desc; rr_destination := destination; rr_zone := zone;
            rr_profile := profile; rr_decision := decision; rr_scan_signal := scan_signal;
            rr_released_at := at_ms |} ] |}.

(* SRC guard/src/release.rs @fn:evaluate EgressPolicyEngine::evaluate *)
Definition egress_evaluate (self : EgressPolicyEngine) (profile destination payload_desc : string)
    (zone : EnforcementZone) (scan_signal : option string) (at_ms : N)
    : ReleaseDecision * EgressPolicyEngine :=
  let out d := (d, egress_receipt self profile destination payload_desc zone d scan_signal at_ms) in
  match list_find (λ p, ep_profile p = profile) (ee_policies self) with
  | None => out RdDeny
  | Some (_, policy) =>
      if bool_decide (zone ∉ ep_allowed_zones policy) then out RdDeny
      else if existsb (λ d, contains d destination) (ep_deny_destinations policy) then out RdDeny
      else
        let redact := existsb (λ d, contains d destination) (ep_redact_destinations policy) in
        out (if redact || bool_decide (is_Some scan_signal) then RdRedact else RdAllow)
  end.

(** A run of evaluations, with the decisions the callers saw. *)
Record release_request := {
  rq_profile : string; rq_destination : string; rq_payload : string;
  rq_zone : EnforcementZone; rq_scan : option string; rq_at : N
}.
Fixpoint egress_run (self : EgressPolicyEngine) (rs : list release_request)
    : list ReleaseDecision * EgressPolicyEngine :=
  match rs with
  | [] => ([], self)
  | r :: rest =>
      let '(d, self1) := egress_evaluate self (rq_profile r) (rq_destination r) (rq_payload r)
                           (rq_zone r) (rq_scan r) (rq_at r) in
      let '(ds, self2) := egress_run self1 rest in (d :: ds, self2)
  end.

(** The decision and the state of one evaluation, separately. *)
Lemma egress_evaluate_state self profile destination payload zone scan at_ms :
  let '(d, self') := egress_evaluate self profile destination payload zone scan at_ms in
  self' = egress_receipt self profile destination payload zone d scan at_ms.
Proof. unfold egress_evaluate. repeat case_match; by simplify_eq. Qed.

(** Data leaves unredacted only when the first policy of the named
    profile admits the zone, no deny or redact entry occurs in the destination
    and the scan raised nothing; an unknown profile is denied. *)
Theorem release_allow_iff self profile destination payload zone scan at_ms :
  (egress_evaluate self profile destination payload zone scan at_ms).1 = RdAllow ↔
  scan = None ∧
  ∃ i policy, list_find (λ p, ep_profile p = profile) (ee_policies self) = Some (i, policy)
    ∧ zone ∈ ep_allowed_zones policy
    ∧ (∀ d, d ∈ ep_deny_destinations policy ++ ep_redact_destinations policy →
         contains d destination = false).
Proof.
  unfold egress_evaluate. destruct (list_find _ _) as [[i policy]|] eqn:E; [|naive_solver].
  setoid_rewrite elem_of_app.
  destruct (bool_decide_reflect (zone ∉ ep_allowed_zones policy)) as [Hz|Hz]; [naive_solver|].
  apply dec_stable in Hz.
  destruct (existsb _ (ep_deny_destinations policy)) eqn:Ed.
  { apply existsb_elem in Ed as (d & Hd & Hc). split; [done|].
    intros (_ & ? & ? & [= <- <-] & _ & Hn). rewrite (Hn d) in Hc; [done | by left]. }
  rewrite existsb_none in Ed. simpl.
  destruct (existsb _ (ep_redact_destinations policy)) eqn:Er; simpl.
  { apply existsb_elem in Er as (d & Hd & Hc). split; [done|].
    intros (_ & ? & ? & [= <- <-] & _ & Hn). rewrite (Hn d) in Hc; [done | by right]. }
  rewrite existsb_none in Er.
  destruct scan as [sig|]; simpl; [naive_solver|]. split; [|done].
  intros _. split; [done|]. exists i, policy. split_and!; [done | done |]. naive_solver.
Qed.

(** Nothing is released off the record: a run appends exactly one receipt
    per request, in order, carrying the request and the decision its caller
    got, and never touches an earlier receipt. *)
Theorem every_release_is_receipted self rs :
  let '(ds, self') := egress_run self rs in
  length ds = length rs ∧ ee_policies self' = ee_policies self
  ∧ ∃ new, ee_receipts self' = ee_receipts self ++ new
      ∧ Forall2 (λ r c, rr_decision c.2 = c.1 ∧ rr_destination c.2 = rq_destination r
                        ∧ rr_zone c.2 = rq_zone r ∧ rr_profile c.2 = rq_profile r
                        ∧ rr_scan_signal c.2 = rq_scan r) rs (zip ds new)
      ∧ length new = length rs.
Proof.
  revert self. induction rs as [|r rs IH]; intros self; simpl.
  { split_and!; [done | done |]. exists []. rewrite app_nil_r. split_and!; [done|constructor|done]. }
  pose proof (egress_evaluate_state self (rq_profile r) (rq_destination r) (rq_payload r)
                (rq_zone r) (rq_scan r) (rq_at r)) as Hs.
  destruct (egress_evaluate _ _ _ _ _ _ _) as [d self1].
  specialize (IH self1). destruct (egress_run self1 rs) as [ds self2].
  destruct IH as (Hl & Hp & new & Hr & Hf & Hn). subst self1. simpl in *.
  split_and!; [by rewrite Hl | done |].
  eexists (_ :: new). rewrite Hr, <- app_assoc. simpl.
  split_and!; [done | by constructor | by rewrite Hn].
Qed.

(** The lists are compared as text: another letter case is another destination. *)
Example deny_list_is_case_sensitive :
  let e := {| ee_policies :=
                [ {| ep_profile := "p"; ep_allowed_zones := [Mediated];
                     ep_deny_destinations := ["evil.example"]; ep_redact_destinations := [] |} ];
              ee_receipts := [] |} in
  (egress_evaluate e "p" "https://evil.example/x" "doc" Mediated None 0).1 = RdDeny
  ∧ (egress_evaluate e "p" "https://EVIL.example/x" "doc" Mediated None 0).1 = RdAllow.
Proof. vm_compute. auto. Qed.
