(* ===== verification/RateLimit.v ===== *)
(** * Control-plane admission ([everyaios-guard/src/ratelimit.rs])

    Token buckets in [f64], the bounded bucket map and the two-tier check. The
    [HashMap]'s iteration order is unspecified: every call takes the order it
    saw ([iter]) as an argument. The mutex is a [poisoned] flag. *)
From S2P Require Import Prelude F64.

(* SRC guard/src/ratelimit.rs @enum:RateLimitScope RateLimitScope *)
Inductive RateLimitScope := Global | CallerCommand.

(* SRC guard/src/ratelimit.rs @struct:Limit Limit *)
Record Limit := { burst : f64; refill_per_sec : f64 }.

(* SRC guard/src/ratelimit.rs @fn:new Limit::new *)
Definition limit_new (b : N) (rate : f64) : Limit := {| burst := f64_of_N b; refill_per_sec := rate |}.

(* SRC guard/src/ratelimit.rs @struct:Bucket Bucket *)
Record Bucket := { tokens : f64; last_refill_ms : N; last_seen_ms : N }.

Definition set_tokens (b : Bucket) (t : f64) : Bucket :=
  {| tokens := t; last_refill_ms := last_refill_ms b; last_seen_ms := last_seen_ms b |}.
Definition stamp (b : Bucket) (now : N) : Bucket :=
  {| tokens := tokens b; last_refill_ms := now; last_seen_ms := now |}.

(* SRC guard/src/ratelimit.rs @fn:refill Bucket::refill *)
Definition refill (b : Bucket) (elapsed_ms : N) (limit : Limit) : Bucket :=
  if (elapsed_ms =? 0)%N || f64_le (refill_per_sec limit) f64_0 then b
  else
    let added := f64_mul (f64_div (f64_of_N elapsed_ms) f64_1000) (refill_per_sec limit) in
    set_tokens b (f64_min (f64_add (tokens b) added) (burst limit)).

(* SRC guard/src/ratelimit.rs @fn:retry_after_ms Bucket::retry_after_ms *)
Definition retry_after_ms (b : Bucket) (limit : Limit) : N :=
  if f64_le (refill_per_sec limit) f64_0 then u64_max
  else
    let missing := f64_max (f64_sub f64_1 (tokens b)) f64_0 in
    if f64_le missing f64_epsilon then 0%N
    else f64_ceil_u64 (f64_mul (f64_div missing (refill_per_sec limit)) f64_1000).

(* SRC guard/src/ratelimit.rs @struct:RateLimitConfig RateLimitConfig *)
Record RateLimitConfig := {
  global_limit : Limit;
  per_caller_command : Limit;
  ttl_ms : N;
  max_entries : N
}.

(* SRC guard/src/ratelimit.rs @fn:default RateLimitConfig::default *)
Definition rate_default : RateLimitConfig :=
  {| global_limit := limit_new 600 (f64_of_N 100);
     per_caller_command := limit_new 120 (f64_of_N 20);
     ttl_ms := 60000; max_entries := 4096 |}.

(* SRC guard/src/ratelimit.rs @fn:tight RateLimitConfig::tight *)
Definition rate_tight : RateLimitConfig :=
  {| global_limit := limit_new 10 f64_0; per_caller_command := limit_new 3 f64_0;
     ttl_ms := 1000; max_entries := 8 |}.

(* SRC guard/src/ratelimit.rs @struct:RateLimitError RateLimitError *)
Record RateLimitError := {
  rl_scope : RateLimitScope;
  rl_code : string;
  rl_reason : string;
  rl_retry_after_ms : N
}.

(* SRC guard/src/ratelimit.rs @struct:State State *)
Record RlState := { buckets : gmap string Bucket; global : Bucket }.

(* SRC guard/src/ratelimit.rs @struct:RateLimiter RateLimiter *)
Record RateLimiter := { cfg : RateLimitConfig; state : RlState; poisoned : bool }.

Definition with_state (r : RateLimiter) (s : RlState) : RateLimiter :=
  {| cfg := cfg r; state := s; poisoned := poisoned r |}.

(* SRC guard/src/ratelimit.rs @fn:new#2 RateLimiter::new *)
Definition limiter_new (c : RateLimitConfig) : RateLimiter :=
  {| cfg := c;
     state := {| buckets := ∅;
                 global := {| tokens := burst (global_limit c); last_refill_ms := 0;
                              last_seen_ms := 0 |} |};
     poisoned := false |}.

(* SRC guard/src/ratelimit.rs @fn:tracked_keys RateLimiter::tracked_keys *)
Definition tracked_keys (r : RateLimiter) : nat := size (buckets (state r)).

Definition UNIT_SEP : ascii := ascii_of_N 31.

(* SRC guard/src/ratelimit.rs @fn:bucket_key bucket_key *)
Definition bucket_key (caller command : string) : string := caller +:+ String UNIT_SEP command.

(* SRC guard/src/ratelimit.rs @fn:evict_expired evict_expired *)
Definition evict_expired (bs : gmap string Bucket) (now ttl : N) : gmap string Bucket :=
  if (ttl =? 0)%N then bs
  else filter (λ kb, (now - last_seen_ms kb.2 < ttl)%N) bs.

(** The comparator of [evict_lru]: [last_seen_ms], then [tokens], an
    incomparable pair of floats counting as equal. *)
Definition lru_cmp (a b : Bucket) : comparison :=
  match (last_seen_ms a ?= last_seen_ms b)%N with
  | Eq => default Eq (SFcompare (tokens a) (tokens b))
  | c => c
  end.

(** [Iterator::min_by]: the first of the minimal elements. *)
Fixpoint min_by {A} (cmp : A → A → comparison) (best : A) (l : list A) : A :=
  match l with
  | [] => best
  | x :: l' => min_by cmp (match cmp best x with Gt => x | _ => best end) l'
  end.

(** An order in which a map may be iterated. *)
Definition iter_order := gmap string Bucket → list (string * Bucket).
Definition iterates (iter : iter_order) : Prop := ∀ m, iter m ≡ₚ map_to_list m.

(* SRC guard/src/ratelimit.rs @fn:evict_lru evict_lru *)
Definition evict_lru (iter : iter_order) (bs : gmap string Bucket) : gmap string Bucket :=
  match iter bs with
  | [] => bs
  | kb :: l => delete (min_by (λ a b, lru_cmp a.2 b.2) kb l).1 bs
  end.

(** [if g.tokens >= 1.0 { g.tokens -= 1.0 }] on the refilled, stamped bucket. *)
Definition has_token (b : Bucket) : bool := f64_ge (tokens b) f64_1.
Definition spend (b : Bucket) : Bucket := set_tokens b (f64_sub (tokens b) f64_1).
Definition topped_up (b : Bucket) (now : N) (l : Limit) : Bucket :=
  stamp (refill b (now - last_refill_ms b) l) now.

(** [entry(key).or_insert_with(full bucket)]. *)
Definition bucket_or_full (c : RateLimitConfig) (bs : gmap string Bucket) (key : string) (now : N)
    : Bucket :=
  default {| tokens := burst (per_caller_command c); last_refill_ms := now; last_seen_ms := now |}
          (bs !! key).

(** The error of a tier. *)
Definition rate_limited (scope : RateLimitScope) (retry : N) : RateLimitError :=
  {| rl_scope := scope; rl_code := "Unavailable"; rl_reason := "rate_limited";
     rl_retry_after_ms := retry |}.

(* SRC guard/src/ratelimit.rs @fn:check_at RateLimiter::check_at *)
Definition check_at (self : RateLimiter) (iter : iter_order) (caller command : string) (now : N)
    : result unit RateLimitError * RateLimiter :=
  if poisoned self then
    (Err {| rl_scope := Global; rl_code := "Unavailable"; rl_reason := "rate_limiter_unavailable";
            rl_retry_after_ms := 1000 |}, self)
  else
    let c := cfg self in
    let bs := evict_expired (buckets (state self)) now (ttl_ms c) in
    let g := topped_up (global (state self)) now (global_limit c) in
    if negb (has_token g) then
      (Err (rate_limited Global (retry_after_ms g (global_limit c))),
       with_state self {| buckets := bs; global := g |})
    else
      let g := spend g in
      let key := bucket_key caller command in
      let bs := if bool_decide (bs !! key = None) && (max_entries c <=? N.of_nat (size bs))%N
                then evict_lru iter bs else bs in
      let entry := topped_up (bucket_or_full c bs key now) now (per_caller_command c) in
      if has_token entry then
        (Ok tt, with_state self {| buckets := <[key := spend entry]> bs; global := g |})
      else
        (Err (rate_limited CallerCommand (retry_after_ms entry (per_caller_command c))),
         with_state self
           {| buckets := <[key := entry]> bs;
              global := set_tokens g
                (f64_min (f64_add (tokens g) f64_1) (burst (global_limit c))) |}).

(* SRC guard/src/ratelimit.rs @fn:reset RateLimiter::reset *)
Definition rl_reset (self : RateLimiter) : RateLimiter :=
  if poisoned self then self
  else with_state self
         {| buckets := ∅; global := set_tokens (global (state self)) (burst (global_limit (cfg self))) |}.

(** ** Runs *)

Inductive rl_op :=
  | RlCheck (iter : iter_order) (caller command : string) (now : N)
  | RlReset.

Definition rl_step (s : RateLimiter) (op : rl_op) : option (result unit RateLimitError) * RateLimiter :=
  match op with
  | RlCheck iter caller command now =>
      let '(r, s') := check_at s iter caller command now in (Some r, s')
  | RlReset => (None, rl_reset s)
  end.

Fixpoint rl_run (s : RateLimiter) (ops : list rl_op)
    : list (option (result unit RateLimitError)) * RateLimiter :=
  match ops with
  | [] => ([], s)
  | op :: rest => let '(r, s1) := rl_step s op in
                  let '(rs, s2) := rl_run s1 rest in (r :: rs, s2)
  end.

Definition op_iterates (op : rl_op) : Prop :=
  match op with RlCheck iter _ _ _ => iterates iter | RlReset => True end.

(** ** The memory bound *)

Lemma min_by_elem {A} (cmp : A → A → comparison) best l : min_by cmp best l ∈ best :: l.
Proof.
  revert best. induction l as [|x l IH]; intros best; simpl; [by apply list_elem_of_singleton|].
  specialize (IH (match cmp best x with Gt => x | _ => best end)).
  rewrite elem_of_cons in IH. rewrite !elem_of_cons.
  destruct (cmp best x), IH as [->|]; auto.
Qed.

(** One entry less, unless there was none. *)
Lemma evict_lru_size iter bs : iterates iter → size (evict_lru iter bs) = size bs - 1.
Proof.
  intros Hit. specialize (Hit bs). unfold evict_lru.
  destruct (iter bs) as [|kb l] eqn:E.
  - by rewrite <- length_map_to_list, <- Hit.
  - pose proof (min_by_elem (λ a b, lru_cmp a.2 b.2) kb l) as Hm. simpl in *.
    rewrite Hit in Hm. destruct (min_by _ kb l) as [k b]. apply elem_of_map_to_list in Hm.
    simpl. rewrite map_size_delete_Some by eauto. lia.
Qed.

Lemma evict_lru_subseteq iter bs : evict_lru iter bs ⊆ bs.
Proof. unfold evict_lru. destruct (iter bs); [done | apply delete_subseteq]. Qed.

Lemma evict_expired_subseteq bs now ttl : evict_expired bs now ttl ⊆ bs.
Proof. unfold evict_expired. case_match; [done | apply map_filter_subseteq]. Qed.

(** The map handed to the insertion of a checked key. *)
Definition room_for (self : RateLimiter) (iter : iter_order) (key : string) (now : N)
    : gmap string Bucket :=
  let bs := evict_expired (buckets (state self)) now (ttl_ms (cfg self)) in
  if bool_decide (bs !! key = None) && (max_entries (cfg self) <=? N.of_nat (size bs))%N
  then evict_lru iter bs else bs.

Lemma room_for_subseteq self iter key now : room_for self iter key now ⊆ buckets (state self).
Proof.
  unfold room_for. set (bs := evict_expired _ _ _).
  assert (bs ⊆ buckets (state self)) by apply evict_expired_subseteq.
  case_match; [|done]. etrans; [apply evict_lru_subseteq | done].
Qed.

Lemma room_for_size self iter key now b :
  iterates iter → (N.of_nat (size (buckets (state self))) ≤ N.max 1 (max_entries (cfg self)))%N →
  (N.of_nat (size (<[key := b]> (room_for self iter key now))) ≤ N.max 1 (max_entries (cfg self)))%N.
Proof.
  intros Hit Hs. unfold room_for. set (bs := evict_expired _ _ _).
  assert (Hbs : size bs ≤ size (buckets (state self)))
    by (apply map_subseteq_size, evict_expired_subseteq).
  rewrite map_size_insert.
  destruct (bool_decide_reflect (bs !! key = None)) as [Hk|Hk]; simpl.
  - destruct (N.leb_spec (max_entries (cfg self)) (N.of_nat (size bs))); simpl.
    + rewrite (lookup_weaken_None (evict_lru iter bs) bs) by (done || apply evict_lru_subseteq).
      rewrite evict_lru_size by done. lia.
    + rewrite Hk. lia.
  - destruct (bs !! key); [simpl; lia | done].
Qed.

(** What a check does, branch by branch, in terms of [topped_up] buckets. *)
Lemma check_at_cases self iter caller command now :
  poisoned self = false →
  let c := cfg self in
  let g := topped_up (global (state self)) now (global_limit c) in
  let key := bucket_key caller command in
  let bs := evict_expired (buckets (state self)) now (ttl_ms c) in
  let room := room_for self iter key now in
  let entry := topped_up (bucket_or_full c room key now) now (per_caller_command c) in
  check_at self iter caller command now =
  if negb (has_token g) then
    (Err (rate_limited Global (retry_after_ms g (global_limit c))),
     with_state self {| buckets := bs; global := g |})
  else if has_token entry then
    (Ok tt, with_state self {| buckets := <[key := spend entry]> room; global := spend g |})
  else
    (Err (rate_limited CallerCommand (retry_after_ms entry (per_caller_command c))),
     with_state self
       {| buckets := <[key := entry]> room;
          global := set_tokens (spend g)
            (f64_min (f64_add (tokens (spend g)) f64_1) (burst (global_limit c))) |}).
Proof. intros Hp. unfold check_at, room_for. rewrite Hp. simpl. repeat case_match; done. Qed.

Definition bounded_entries (s : RateLimiter) : Prop :=
  (N.of_nat (tracked_keys s) ≤ N.max 1 (max_entries (cfg s)))%N.

Lemma check_at_keeps_cfg self iter caller command now :
  cfg (check_at self iter caller command now).2 = cfg self
  ∧ poisoned (check_at self iter caller command now).2 = poisoned self.
Proof. unfold check_at. by repeat case_match. Qed.

Lemma rl_step_bounded s op :
  op_iterates op → bounded_entries s →
  bounded_entries (rl_step s op).2 ∧ cfg (rl_step s op).2 = cfg s.
Proof.
  unfold bounded_entries, tracked_keys. destruct op as [iter caller command now|]; simpl.
  - intros Hit Hb. pose proof (check_at_keeps_cfg s iter caller command now) as [Hc _].
    destruct (poisoned s) eqn:Hp.
    { unfold check_at. by rewrite Hp. }
    rewrite (check_at_cases s iter caller command now Hp) in *. simpl in *.
    repeat case_match; simplify_eq/=; split; try done; try by apply room_for_size.
    pose proof (map_subseteq_size _ _ (evict_expired_subseteq (buckets (state s)) now (ttl_ms (cfg s)))).
    lia.
  - intros _ Hb. unfold rl_reset. destruct (poisoned s); simpl; [done|].
    rewrite map_size_empty. split; [lia | done].
Qed.

(** However many callers and commands there are and in whatever order the
    map is walked, a limiter never tracks more than [max_entries] buckets (one,
    when [max_entries] is zero). *)
Theorem tracked_keys_bounded c ops :
  Forall op_iterates ops →
  (N.of_nat (tracked_keys (rl_run (limiter_new c) ops).2) ≤ N.max 1 (max_entries c))%N.
Proof.
  intros Hops.
  assert (Hrun : ∀ s, bounded_entries s →
            bounded_entries (rl_run s ops).2 ∧ cfg (rl_run s ops).2 = cfg s).
  { induction Hops as [|op ops Hop Hops IH]; intros s Hs; simpl; [done|].
    destruct (rl_step_bounded s op Hop Hs) as [Hb Hc].
    destruct (rl_step s op) as [r s1]. destruct (IH s1 Hb) as [Hb2 Hc2].
    destruct (rl_run s1 ops) as [rs s2]. simpl in *. split; [done | congruence]. }
  destruct (Hrun (limiter_new c)) as [Hb Hc].
  { unfold bounded_entries, tracked_keys. simpl. rewrite map_size_empty. lia. }
  unfold bounded_entries in Hb. by rewrite Hc in Hb.
Qed.

(** ** What a decision costs *)

(** A call is admitted only on a token of each tier, both of which it
    spends; a poisoned lock admits nothing. *)
Theorem admitted_iff_both_tiers_pay self iter caller command now :
  let c := cfg self in
  let key := bucket_key caller command in
  let g := topped_up (global (state self)) now (global_limit c) in
  let entry := topped_up (bucket_or_full c (room_for self iter key now) key now) now
                         (per_caller_command c) in
  let '(r, self') := check_at self iter caller command now in
  (r = Ok tt ↔ poisoned self = false ∧ has_token g = true ∧ has_token entry = true)
  ∧ (r = Ok tt → global (state self') = spend g
                 ∧ buckets (state self') !! key = Some (spend entry)).
Proof.
  intros c key g entry. destruct (check_at self iter caller command now) as [r self'] eqn:E.
  destruct (poisoned self) eqn:Hp.
  { unfold check_at in E. rewrite Hp in E. simplify_eq. naive_solver. }
  rewrite check_at_cases in E by done. fold c key g entry in E.
  destruct (has_token g) eqn:Hg, (has_token entry) eqn:He; simpl in E; simplify_eq/=;
    try (split; [naive_solver | done]).
  split; [naive_solver|]. intros _. by rewrite lookup_insert_eq.
Qed.

(** Nobody spends another key's budget: a call leaves every other key's
    bucket as it was, or evicted whole; and a refused call spends no token of
    either tier, the global one being handed back. *)
Theorem refusal_and_isolation self iter caller command now k :
  let c := cfg self in
  let key := bucket_key caller command in
  let g := topped_up (global (state self)) now (global_limit c) in
  let '(r, self') := check_at self iter caller command now in
  (k ≠ key → buckets (state self') !! k = buckets (state self) !! k
             ∨ buckets (state self') !! k = None)
  ∧ (∀ e, r = Err e → poisoned self = false →
       global (state self') = g ∧ rl_scope e = Global
       ∨ rl_scope e = CallerCommand
         ∧ tokens (global (state self')) =
           f64_min (f64_add (f64_sub (tokens g) f64_1) f64_1) (burst (global_limit c))
         ∧ ∃ b, buckets (state self') !! key = Some b ∧ has_token b = false).
Proof.
  intros c key g. destruct (check_at self iter caller command now) as [r self'] eqn:E.
  assert (Hsub : ∀ m, m ⊆ buckets (state self) →
            m !! k = buckets (state self) !! k ∨ m !! k = None).
  { intros m Hm. destruct (m !! k) as [b|] eqn:Hk; [left|by right].
    symmetry. by eapply lookup_weaken. }
  destruct (poisoned self) eqn:Hp.
  { unfold check_at in E. rewrite Hp in E. simplify_eq. split; [auto | done]. }
  rewrite check_at_cases in E by done. fold c key g in E.
  pose proof (Hsub _ (evict_expired_subseteq (buckets (state self)) now (ttl_ms c))).
  pose proof (Hsub _ (room_for_subseteq self iter key now)).
  destruct (has_token g) eqn:Hg; simpl in E; [case_match|]; simplify_eq/=;
    (split; [try (intros Hk; rewrite lookup_insert_ne by done); done|]); try done.
  - intros e [= <-] _. right. rewrite lookup_insert_eq. eauto.
  - intros e [= <-] _. by left.
Qed.

(** ** A tier that does not refill *)

#[export] Instance spec_float_eq : EqDecision spec_float.
Proof. solve_decision. Defined.

Definition small_burst : nat := 256.

(** A whole number of tokens. *)
Definition whole (n : nat) : f64 := f64_of_N (N.of_nat n).
#[local] Arguments whole : simpl never.

Definition counts_exactly (k : nat) : bool :=
  bool_decide (f64_sub (whole (S k)) f64_1 = whole k)
  && bool_decide (f64_add (whole k) f64_1 = whole (S k))
  && negb (is_nan (whole k)) && negb (is_nan (whole (S k)))
  && forallb (λ j, negb (f64_lt (whole (S k)) (whole j))) (seq 0 (S (S k))).

(** Every whole number of tokens up to [small_burst] is spent, handed back and
    compared exactly. *)
Lemma small_counts_exact : forallb counts_exactly (seq 0 small_burst) = true.
Proof. vm_compute. reflexivity. Qed.

Lemma in_seq_0 n k : k < n → In k (seq 0 n).
Proof. intros H. apply in_seq. lia. Qed.

Lemma count_exact k :
  k < small_burst →
  f64_sub (whole (S k)) f64_1 = whole k ∧ f64_add (whole k) f64_1 = whole (S k)
  ∧ is_nan (whole (S k)) = false ∧ ∀ j, j ≤ S k → f64_lt (whole (S k)) (whole j) = false.
Proof.
  intros Hk. pose proof small_counts_exact as H. rewrite forallb_forall in H.
  specialize (H k (in_seq_0 _ _ Hk)). unfold counts_exactly in H.
  bool_hyps. split_and!; [done | done | done |].
  intros j Hj. rewrite forallb_forall in *.
  match goal with
  | Hf : ∀ x, In x _ → _ |- _ => specialize (Hf j (in_seq_0 (S (S k)) j ltac:(lia)))
  end.
  by apply negb_true_iff.
Qed.

Lemma refund_exact k b :
  S k ≤ b → b ≤ small_burst →
  f64_min (f64_add (f64_sub (whole (S k)) f64_1) f64_1) (whole b) = whole (S k).
Proof.
  intros Hk Hb. destruct b as [|b]; [lia|].
  destruct (count_exact k ltac:(lia)) as (Hs & Ha & Hn & _).
  destruct (count_exact b ltac:(lia)) as (_ & _ & Hnb & Hl).
  rewrite Hs, Ha. unfold f64_min. by rewrite Hn, Hnb, Hl by lia.
Qed.

Definition admitted (r : option (result unit RateLimitError)) : bool :=
  match r with Some (Ok _) => true | _ => false end.

Definition is_check (op : rl_op) : bool := match op with RlCheck _ _ _ _ => true | RlReset => false end.

Lemma topped_up_no_refill b now l :
  f64_le (refill_per_sec l) f64_0 = true → tokens (topped_up b now l) = tokens b.
Proof. unfold topped_up, refill. intros ->. by rewrite orb_true_r. Qed.

Lemma check_at_no_refill s iter caller command now k b :
  f64_le (refill_per_sec (global_limit (cfg s))) f64_0 = true →
  burst (global_limit (cfg s)) = whole b → b ≤ small_burst → k ≤ b →
  tokens (global (state s)) = whole k →
  let '(r, s') := check_at s iter caller command now in
  ∃ k', tokens (global (state s')) = whole k'
        ∧ k' + (if is_ok r then 1 else 0) ≤ k.
Proof.
  intros Hrate Hburst Hb Hk Ht. destruct (poisoned s) eqn:Hp.
  { unfold check_at. rewrite Hp. exists k. simpl. split; [done | lia]. }
  rewrite check_at_cases by done.
  set (g := topped_up (global (state s)) now (global_limit (cfg s))).
  assert (Hg : tokens g = whole k) by (unfold g; by rewrite topped_up_no_refill).
  clearbody g.
  destruct (has_token g) eqn:Htok; simpl; [|exists k; rewrite Hg; split; [done|lia]].
  destruct k as [|k].
  { unfold has_token in Htok. rewrite Hg in Htok. vm_compute in Htok. discriminate Htok. }
  destruct (has_token (topped_up _ _ (per_caller_command _))); simpl.
  - exists k. split; [|lia]. rewrite Hg. apply count_exact; lia.
  - exists (S k). split; [|lia]. rewrite Hg, Hburst. by apply refund_exact.
Qed.

(** A process-wide tier that does not refill admits at most its burst of
    calls, over any run of checks, callers and clocks: refused calls hand their
    token back exactly and evicting or expiring buckets mints none. *)
Theorem no_refill_admits_at_most_burst c b rate ops :
  global_limit c = limit_new (N.of_nat b) rate → b ≤ small_burst → f64_le rate f64_0 = true →
  forallb is_check ops = true →
  length (filter (λ r, admitted r = true) (rl_run (limiter_new c) ops).1) ≤ b.
Proof.
  intros Hc Hb Hrate Hops.
  assert (Hrun : ∀ s k, cfg s = c → k ≤ b → tokens (global (state s)) = whole k →
            length (filter (λ r, admitted r = true) (rl_run s ops).1) ≤ k).
  { induction ops as [|op ops IH]; intros s k Hs Hk Ht; simpl; [lia|].
    simpl in Hops. apply andb_true_iff in Hops as [Hop Hops].
    destruct op as [iter caller command now|]; [|done]. simpl.
    pose proof (check_at_keeps_cfg s iter caller command now) as [Hcfg _].
    pose proof (check_at_no_refill s iter caller command now k b) as Hstep.
    rewrite Hs, Hc in Hstep. specialize (Hstep Hrate eq_refl Hb Hk Ht).
    destruct (check_at s iter caller command now) as [r s1].
    destruct Hstep as (k' & Ht' & Hle).
    specialize (IH Hops s1 k' ltac:(simpl in Hcfg; congruence) ltac:(lia) Ht').
    destruct (rl_run s1 ops) as [rs s2]. simpl in *. rewrite filter_cons.
    destruct r as [[]|e]; simpl in *; lia. }
  apply Hrun; [done | done |]. unfold limiter_new. simpl. by rewrite Hc.
Qed.

(** ** Where the promises stop *)

Definition one_bucket : RateLimitConfig :=
  {| global_limit := limit_new 100 f64_0; per_caller_command := limit_new 1 f64_0;
     ttl_ms := 0; max_entries := 1 |}.
Definition by_key : iter_order := map_to_list.

Lemma by_key_iterates : iterates by_key.
Proof. by intros m. Qed.

(** Eviction does grant an allowance that did not exist: with room for
    one bucket and no refill at all, a caller that spent its only token and was
    refused is admitted again as soon as another caller's call evicted it. *)
Theorem eviction_regrants_the_burst :
  map admitted
    (rl_run (limiter_new one_bucket)
       [ RlCheck by_key "a" "run" 0; RlCheck by_key "a" "run" 1;
         RlCheck by_key "b" "run" 2; RlCheck by_key "a" "run" 3 ]).1
  = [true; false; true; true].
Proof. vm_compute. reflexivity. Qed.

(** A limiter configured for no entries tracks one. *)
Example zero_entries_tracks_one :
  tracked_keys
    (rl_run (limiter_new {| global_limit := limit_new 100 f64_0;
                            per_caller_command := limit_new 1 f64_0;
                            ttl_ms := 0; max_entries := 0 |})
       [RlCheck by_key "a" "run" 0]).2 = 1.
Proof. vm_compute. reflexivity. Qed.

(** A clock that steps back and forward again earns the same second twice. *)
Example clock_step_back_refills_again :
  let c := {| global_limit := limit_new 1 f64_1; per_caller_command := limit_new 5 f64_1;
              ttl_ms := 0; max_entries := 8 |} in
  map admitted (rl_run (limiter_new c)
    [ RlCheck by_key "a" "x" 5000; RlCheck by_key "a" "x" 5000; RlCheck by_key "a" "x" 4000;
      RlCheck by_key "a" "x" 5000 ]).1 = [true; false; false; true].
Proof. vm_compute. reflexivity. Qed.

(** The two halves of a key can be told apart when the caller is free of the
    separator. *)
Lemma bucket_key_inj c1 m1 c2 m2 :
  has_char UNIT_SEP c1 = false → has_char UNIT_SEP c2 = false →
  bucket_key c1 m1 = bucket_key c2 m2 → c1 = c2 ∧ m1 = m2.
Proof.
  unfold bucket_key. revert c2. induction c1 as [|x c1 IH]; intros [|y c2] H1 H2 H;
    rewrite ?app_string_cons in H; simpl in *.
  - by injection H.
  - by injection H as <- _.
  - by injection H as -> _.
  - injection H as -> H. apply orb_false_iff in H1 as [_ H1], H2 as [_ H2].
    by destruct (IH c2 H1 H2 H) as [-> ->].
Qed.

(** ** Witnesses *)

Lemma tracked_keys_bounded_witness :
  (N.of_nat (tracked_keys (rl_run (limiter_new one_bucket)
     [RlCheck by_key "a" "run" 0; RlCheck by_key "b" "run" 1; RlReset]).2) ≤ 1)%N.
Proof.
  apply (tracked_keys_bounded one_bucket).
  repeat constructor; apply by_key_iterates.
Defined.

Lemma no_refill_admits_at_most_burst_witness :
  length (filter (λ r, admitted r = true)
    (rl_run (limiter_new rate_tight)
       [RlCheck by_key "a" "run" 0; RlCheck by_key "b" "run" 1]).1) ≤ 10.
Proof.
  apply (no_refill_admits_at_most_burst rate_tight 10 f64_0);
    [reflexivity | unfold small_burst; lia | reflexivity | reflexivity].
Defined.
