(* ===== verification/NetFloor.v ===== *)
(** * The network-destination floor ([everyaios-guard/src/netfloor.rs])

    The address classes, the policy table, host classification (with the
    Standard Library's textual address parser) and the egress pre-flight. The
    [url] crate is a parameter. Slicing a [&str] off a character boundary
    panics: [classify_host] answers [None] there. *)
From S2P Require Import Prelude.

(* SRC guard/src/netfloor.rs @const:ALLOWED_SCHEMES ALLOWED_SCHEMES *)
Definition ALLOWED_SCHEMES : list string := ["http"; "https"].

(* SRC guard/src/netfloor.rs @const:LOOPBACK_NAMES LOOPBACK_NAMES *)
Definition LOOPBACK_NAMES : list string :=
  ["localhost"; "localhost.localdomain"; "ip6-localhost"; "ip6-loopback"].

(* SRC guard/src/netfloor.rs @const:LOCAL_ONLY_SUFFIXES LOCAL_ONLY_SUFFIXES *)
Definition LOCAL_ONLY_SUFFIXES : list string :=
  [".local"; ".localhost"; ".internal"; ".home.arpa"; ".lan"].

(* SRC guard/src/netfloor.rs @enum:NetClass NetClass *)
Inductive NetClass :=
  | Public | Loopback | Private | LinkLocal | Cgnat | Unspecified | Multicast | Reserved
  | LocalName.
#[export] Instance NetClass_eq : EqDecision NetClass.
Proof. solve_decision. Defined.

(* SRC guard/src/netfloor.rs @struct:NetPolicy NetPolicy *)
Record NetPolicy := {
  allow_loopback : bool;
  allow_private : bool;
  allow_local_names : bool
}.

(* SRC guard/src/netfloor.rs @fn:default NetPolicy::default *)
Definition net_default : NetPolicy :=
  {| allow_loopback := true; allow_private := false; allow_local_names := false |}.

(* SRC guard/src/netfloor.rs @fn:strict NetPolicy::strict *)
Definition net_strict : NetPolicy :=
  {| allow_loopback := false; allow_private := false; allow_local_names := false |}.

(* SRC guard/src/netfloor.rs @fn:local NetPolicy::local *)
Definition net_local : NetPolicy :=
  {| allow_loopback := true; allow_private := true; allow_local_names := true |}.

(* SRC guard/src/netfloor.rs @fn:allows NetPolicy::allows *)
Definition net_allows (self : NetPolicy) (class : NetClass) : bool :=
  match class with
  | Public => true
  | Loopback => allow_loopback self
  | Private | Cgnat => allow_private self
  | LocalName => allow_local_names self || allow_private self
  | Unspecified | LinkLocal | Multicast | Reserved => false
  end.

(** ** Addresses *)

(** [Ipv4Addr]: four octets. [Ipv6Addr]: eight 16-bit segments. *)
Record Ipv4 := { oct_a : N; oct_b : N; oct_c : N; oct_d : N }.
Definition Ipv6 : Type := list N.
Inductive IpAddr := V4 (v4 : Ipv4) | V6 (v6 : Ipv6).

Definition ipv4_wf (v : Ipv4) : Prop :=
  (oct_a v < 256 ∧ oct_b v < 256 ∧ oct_c v < 256 ∧ oct_d v < 256)%N.
Definition ipv6_wf (v : Ipv6) : Prop := length v = 8 ∧ Forall (λ s, (s < 65536)%N) v.

(** The tests of [std::net::Ipv4Addr]. *)
Definition is_private_v4 (v : Ipv4) : bool :=
  (oct_a v =? 10)%N
  || ((oct_a v =? 172) && (16 <=? oct_b v) && (oct_b v <=? 31))%N
  || ((oct_a v =? 192) && (oct_b v =? 168))%N.
Definition is_documentation_v4 (v : Ipv4) : bool :=
  ((oct_a v =? 192) && (oct_b v =? 0) && (oct_c v =? 2))%N
  || ((oct_a v =? 198) && (oct_b v =? 51) && (oct_c v =? 100))%N
  || ((oct_a v =? 203) && (oct_b v =? 0) && (oct_c v =? 113))%N.
Definition all_octets (n : N) (v : Ipv4) : bool :=
  ((oct_a v =? n) && (oct_b v =? n) && (oct_c v =? n) && (oct_d v =? n))%N.

(* SRC guard/src/netfloor.rs @fn:classify_v4 classify_v4 *)
Definition classify_v4 (v : Ipv4) : NetClass :=
  let a := oct_a v in let b := oct_b v in
  if (a =? 127)%N then Loopback
  else if all_octets 0 v then Unspecified
  else if ((a =? 169) && (b =? 254))%N then LinkLocal
  else if ((224 <=? a) && (a <=? 239))%N then Multicast
  else if is_private_v4 v then Private
  else if ((a =? 100) && ((64 <=? b) && (b <? 128)))%N then Cgnat
  else if all_octets 255 v || is_documentation_v4 v then Reserved
  else if ((a =? 0) || ((a =? 192) && (b =? 0)) || ((a =? 198) && ((b =? 18) || (b =? 19)))
           || (240 <=? a))%N then Reserved
  else Public.

(** [Ipv6Addr::to_ipv4_mapped]. *)
Definition to_ipv4_mapped (v : Ipv6) : option Ipv4 :=
  match v with
  | [0; 0; 0; 0; 0; 65535; ab; cd] =>
      Some {| oct_a := ab / 256; oct_b := ab mod 256; oct_c := cd / 256; oct_d := cd mod 256 |}
  | _ => None
  end%N.

(** [segments()[i]] of an address with eight segments. *)
Definition segment (i : nat) (v : Ipv6) : N := default 0%N (v !! i).

(* SRC guard/src/netfloor.rs @fn:classify_v6 classify_v6 *)
Definition classify_v6 (v : Ipv6) : NetClass :=
  match to_ipv4_mapped v with
  | Some mapped => classify_v4 mapped
  | None =>
      if bool_decide (v = [0; 0; 0; 0; 0; 0; 0; 1]%N) then Loopback
      else if bool_decide (v = [0; 0; 0; 0; 0; 0; 0; 0]%N) then Unspecified
      else
        let seg0 := segment 0 v in
        if (N.land seg0 0xff00 =? 0xff00)%N then Multicast
        else if (N.land seg0 0xffc0 =? 0xfe80)%N then LinkLocal
        else if (N.land seg0 0xfe00 =? 0xfc00)%N then Private
        else if ((seg0 =? 0x2001) && (segment 1 v =? 0x0db8))%N then Reserved
        else Public
  end.

(* SRC guard/src/netfloor.rs @fn:classify_ip classify_ip *)
Definition classify_ip (ip : IpAddr) : NetClass :=
  match ip with V4 v4 => classify_v4 v4 | V6 v6 => classify_v6 v6 end.

(* SRC guard/src/netfloor.rs @fn:is_always_blocked is_always_blocked *)
Definition is_always_blocked (ip : IpAddr) : bool :=
  match classify_ip ip with
  | Unspecified | LinkLocal | Multicast | Reserved => true
  | _ => false
  end.

(** ** The Standard Library's address parser *)

Definition to_digit (radix : N) (c : ascii) : option N :=
  let n := N_of_ascii c in
  let d := if ((48 <=? n) && (n <=? 57))%N then Some (n - 48)%N
           else if ((97 <=? n) && (n <=? 122))%N then Some (n - 87)%N
           else if ((65 <=? n) && (n <=? 90))%N then Some (n - 55)%N
           else None in
  d ← d; if (d <? radix)%N then Some d else None.

(** The digit loop: [budget] more digits may be read. *)
Fixpoint read_digits (radix : N) (budget : nat) (acc : N) (s : string) {struct s} :
    option (N * string) :=
  match s with
  | String c s' =>
      match to_digit radix c with
      | Some d =>
          match budget with
          | 0 => None
          | S budget' => read_digits radix budget' (acc * radix + d) s'
          end
      | None => Some (acc, s)
      end
  | EmptyString => Some (acc, s)
  end.

Definition leads_with_digit (radix : N) (s : string) : bool :=
  match s with String c _ => bool_decide (is_Some (to_digit radix c)) | EmptyString => false end.
(** A zero followed by another digit. *)
Definition zero_prefixed (radix : N) (s : string) : bool :=
  match s with String "0" s' => leads_with_digit radix s' | _ => false end.

Definition read_number (radix : N) (max_digits : nat) (allow_zero_prefix : bool) (bound : N)
    (s : string) : option (N * string) :=
  '(n, rest) ← read_digits radix max_digits 0 s;
  if negb (leads_with_digit radix s) then None
  else if negb allow_zero_prefix && zero_prefixed radix s then None
  else if (n <=? bound)%N then Some (n, rest) else None.

Definition read_given_char (c : ascii) (s : string) : option string :=
  match s with
  | String a s' => if Ascii.eqb a c then Some s' else None
  | EmptyString => None
  end.

Definition read_separator {A} (sep : ascii) (index : nat) (inner : string → option (A * string))
    (s : string) : option (A * string) :=
  s' ← match index with 0 => Some s | S _ => read_given_char sep s end; inner s'.

Definition read_octet (index : nat) : string → option (N * string) :=
  read_separator "." index (read_number 10 3 false 255).

Definition read_ipv4 (s : string) : option (Ipv4 * string) :=
  '(a, s) ← read_octet 0 s; '(b, s) ← read_octet 1 s;
  '(c, s) ← read_octet 2 s; '(d, s) ← read_octet 3 s;
  Some ({| oct_a := a; oct_b := b; oct_c := c; oct_d := d |}, s).

(** [read_groups] from group [i] of [limit], [n] of them left: the groups, and
    whether an embedded IPv4 address ended them. *)
Fixpoint read_groups (limit i n : nat) (s : string) : list N * bool * string :=
  match n with
  | 0 => ([], false, s)
  | S n' =>
      match (if (i <? limit - 1)%nat then read_separator ":" i read_ipv4 s else None) with
      | Some (v4, s') =>
          ([oct_a v4 * 256 + oct_b v4; oct_c v4 * 256 + oct_d v4]%N, true, s')
      | None =>
          match read_separator ":" i (read_number 16 4 true 65535) s with
          | Some (g, s') => let '(gs, v4, rest) := read_groups limit (S i) n' s' in (g :: gs, v4, rest)
          | None => ([], false, s)
          end
      end
  end.

Definition read_ipv6 (s : string) : option (Ipv6 * string) :=
  let '(hd, hd_ipv4, s) := read_groups 8 0 8 s in
  if (length hd =? 8)%nat then Some (hd, s)
  else if (hd_ipv4 : bool) then None
  else
    s ← read_given_char ":" s; s ← read_given_char ":" s;
    let limit := 8 - (length hd + 1) in
    let '(tl, _, s) := read_groups limit 0 limit s in
    Some (hd ++ replicate (8 - length hd - length tl) 0%N ++ tl, s).

(** [str::parse::<IpAddr>]: the whole text. *)
Definition parse_ip (s : string) : option IpAddr :=
  let whole {A} (f : A → IpAddr) (r : A * string) :=
    if is_empty r.2 then Some (f r.1) else None in
  match read_ipv4 s with
  | Some r => whole V4 r
  | None => r ← read_ipv6 s; whole V6 r
  end.

Example parse_ip_forms :
  parse_ip "169.254.169.254"
    = Some (V4 {| oct_a := 169; oct_b := 254; oct_c := 169; oct_d := 254 |})
  ∧ parse_ip "0177.0.0.1" = None ∧ parse_ip "1.2.3.256" = None ∧ parse_ip "1.2.3.4." = None
  ∧ parse_ip "::1" = Some (V6 [0; 0; 0; 0; 0; 0; 0; 1]%N)
  ∧ parse_ip "::ffff:127.0.0.1" = Some (V6 [0; 0; 0; 0; 0; 65535; 32512; 1]%N)
  ∧ parse_ip "2001:DB8::1:0:0:1" = Some (V6 [8193; 3512; 0; 0; 1; 0; 0; 1]%N)
  ∧ parse_ip "1:2:3:4:5:6:7" = None ∧ parse_ip "1::2::3" = None ∧ parse_ip "12345::" = None.
Proof. vm_compute. auto 12. Qed.

(** ** Hosts *)

(* SRC guard/src/netfloor.rs @fn:eq_ascii_ci eq_ascii_ci *)
Definition eq_ascii_ci (a b : string) : bool :=
  (String.length a =? String.length b)%nat
  && forallb (λ xy, Ascii.eqb (ascii_lower xy.1) (ascii_lower xy.2))
       (zip (String.list_ascii_of_string a) (String.list_ascii_of_string b)).

Fixpoint drop_string (n : nat) (s : string) : string :=
  match n, s with
  | 0, _ => s
  | S n', String _ s' => drop_string n' s'
  | S _, EmptyString => ""
  end.

(** [str::is_char_boundary]: an end of the text or not a continuation byte. *)
Definition is_char_boundary (n : nat) (s : string) : bool :=
  match n, drop_string n s with
  | 0, _ => true
  | _, String c _ => let v := N_of_ascii c in negb ((128 <=? v) && (v <? 192))%N
  | _, EmptyString => (n =? String.length s)%nat
  end.

(** [&s[n..]]: panics ([None]) off a boundary. *)
Definition slice_from (n : nat) (s : string) : option string :=
  if is_char_boundary n s then Some (drop_string n s) else None.

(* SRC guard/src/netfloor.rs @fn:ends_with_ascii_ci ends_with_ascii_ci *)
Definition ends_with_ascii_ci (haystack suffix : string) : option bool :=
  if (String.length suffix <=? String.length haystack)%nat then
    t ← slice_from (String.length haystack - String.length suffix) haystack;
    Some (eq_ascii_ci t suffix)
  else Some false.

(** [iter().any] over a test that may panic. *)
Fixpoint any_suffix (haystack : string) (l : list string) : option bool :=
  match l with
  | [] => Some false
  | s :: l' => b ← ends_with_ascii_ci haystack s;
               if (b : bool) then Some true else any_suffix haystack l'
  end.

(** [host.strip_suffix('.').unwrap_or(host)]. *)
Definition strip_dot (host : string) : string :=
  match rev_string host with
  | String "." r => rev_string r
  | _ => host
  end.

(* SRC guard/src/netfloor.rs @fn:classify_host classify_host *)
Definition classify_host (host : string) : option NetClass :=
  let trimmed := strip_dot host in
  if is_empty trimmed then Some Unspecified
  else match parse_ip trimmed with
       | Some ip => Some (classify_ip ip)
       | None =>
           if existsb (eq_ascii_ci trimmed) LOOPBACK_NAMES then Some Loopback
           else b ← any_suffix trimmed LOCAL_ONLY_SUFFIXES;
                Some (if (b : bool) then LocalName else Public)
       end.

(* SRC guard/src/netfloor.rs @fn:host_allowed host_allowed *)
Definition host_allowed (host : string) (policy : NetPolicy) : option bool :=
  net_allows policy <$> classify_host host.

(** What the [url] crate's parse gives its callers. *)
Inductive Host := HIpv4 (v4 : Ipv4) | HIpv6 (v6 : Ipv6) | HDomain (d : string).
Record Url := {
  url_scheme : string;
  url_host : option Host;
  url_file_path : option string;
  url_text : string;
  url_host_str : option string;
  url_port_or_default : option N
}.
Class UrlParse := { url_parse : string → option Url }.

(* SRC guard/src/netfloor.rs @fn:classify_url_host classify_url_host *)
Definition classify_url_host (host : Host) : option NetClass :=
  match host with
  | HIpv4 v4 => Some (classify_v4 v4)
  | HIpv6 v6 => Some (classify_v6 v6)
  | HDomain d => classify_host d
  end.

(* SRC guard/src/netfloor.rs @fn:class_reason class_reason *)
Definition class_reason (class : NetClass) : string :=
  match class with
  | Public => "public"
  | Loopback => "loopback"
  | Private => "private"
  | LinkLocal => "link_local"
  | Cgnat => "cgnat"
  | Unspecified => "unspecified"
  | Multicast => "multicast"
  | Reserved => "reserved"
  | LocalName => "local_name"
  end.

(* SRC guard/src/netfloor.rs @struct:NetFloorDenied NetFloorDenied *)
Record NetFloorDenied := { nfd_url : string; nfd_class : NetClass; nfd_reason : string }.

(* SRC guard/src/netfloor.rs @fn:preflight_url preflight_url *)
Definition preflight_url {up : UrlParse} (url : string) (policy : NetPolicy)
    : option (result unit NetFloorDenied) :=
  let deny class reason := Err {| nfd_url := url; nfd_class := class; nfd_reason := reason |} in
  match url_parse url with
  | None => Some (deny Reserved "malformed")
  | Some parsed =>
      if negb (bool_decide (url_scheme parsed ∈ ALLOWED_SCHEMES)) then Some (deny Reserved "scheme")
      else match url_host parsed with
           | None => Some (deny Unspecified "malformed")
           | Some host =>
               class ← classify_url_host host;
               Some (if net_allows policy class then Ok tt else deny class (class_reason class))
           end
  end.

(** ** The floor in CIDR notation *)

Definition addr_of (v : Ipv4) : N :=
  (oct_a v * 16777216 + oct_b v * 65536 + oct_c v * 256 + oct_d v)%N.

(** [a.b.c.d/len], and the first block of a table an address falls in. *)
Definition in_block (addr : N) (blk : Ipv4 * N) : bool :=
  (N.shiftr addr (32 - blk.2) =? N.shiftr (addr_of blk.1) (32 - blk.2))%N.
Fixpoint first_block (addr : N) (table : list (Ipv4 * N * NetClass)) : NetClass :=
  match table with
  | [] => Public
  | (blk, class) :: table' => if in_block addr blk then class else first_block addr table'
  end.

Definition ip4 (a b c d : N) : Ipv4 := {| oct_a := a; oct_b := b; oct_c := c; oct_d := d |}.

(** The registry blocks the floor is about, most specific decision first. *)
Definition v4_blocks : list (Ipv4 * N * NetClass) :=
  [ (ip4 127 0 0 0, 8, Loopback);   (ip4 0 0 0 0, 32, Unspecified);
    (ip4 169 254 0 0, 16, LinkLocal); (ip4 224 0 0 0, 4, Multicast);
    (ip4 10 0 0 0, 8, Private);     (ip4 172 16 0 0, 12, Private);
    (ip4 192 168 0 0, 16, Private); (ip4 100 64 0 0, 10, Cgnat);
    (ip4 192 0 2 0, 24, Reserved);  (ip4 198 51 100 0, 24, Reserved);
    (ip4 203 0 113 0, 24, Reserved); (ip4 0 0 0 0, 8, Reserved);
    (ip4 192 0 0 0, 16, Reserved);  (ip4 198 18 0 0, 15, Reserved);
    (ip4 240 0 0 0, 4, Reserved) ]%N.

Lemma split_at (n k : N) : k ≠ 0%N → ∃ q r, (n / k = q ∧ n = k * q + r ∧ r < k)%N.
Proof.
  intros Hk. exists (n / k)%N, (n mod k)%N. split_and!; [done | by apply N.div_mod | by apply N.mod_lt].
Qed.

(** The leading bits of an address, from its octets. *)
Lemma addr_shiftr v :
  ipv4_wf v → let a := oct_a v in let b := oct_b v in let c := oct_c v in
  (N.shiftr (addr_of v) 24 = a ∧ N.shiftr (addr_of v) 16 = a * 256 + b
   ∧ N.shiftr (addr_of v) 8 = (a * 256 + b) * 256 + c ∧ N.shiftr (addr_of v) 0 = addr_of v
   ∧ N.shiftr (addr_of v) 28 = a / 16 ∧ N.shiftr (addr_of v) 20 = a * 16 + b / 16
   ∧ N.shiftr (addr_of v) 22 = a * 4 + b / 64 ∧ N.shiftr (addr_of v) 17 = a * 128 + b / 2)%N.
Proof.
  destruct v as [a b c d]. unfold ipv4_wf, addr_of. simpl. intros (Ha & Hb & Hc & Hd).
  destruct (split_at a 16 ltac:(done)) as (a16 & ra & -> & Ea & Hra).
  destruct (split_at b 16 ltac:(done)) as (b16 & rb & -> & Eb & Hrb).
  destruct (split_at b 64 ltac:(done)) as (b64 & sb & -> & Fb & Hsb).
  destruct (split_at b 2 ltac:(done)) as (b2 & tb & -> & Gb & Htb).
  assert (Hdiv : ∀ n q r, (r < 2 ^ n → a * 16777216 + b * 65536 + c * 256 + d = 2 ^ n * q + r →
            N.shiftr (a * 16777216 + b * 65536 + c * 256 + d) n = q)%N).
  { intros n q r Hr Hq. rewrite N.shiftr_div_pow2. symmetry. by apply (N.div_unique _ _ _ r). }
  split_and!.
  - apply (Hdiv 24 _ (b * 65536 + c * 256 + d))%N; lia.
  - apply (Hdiv 16 _ (c * 256 + d))%N; lia.
  - apply (Hdiv 8 _ d)%N; lia.
  - apply N.shiftr_0_r.
  - apply (Hdiv 28 _ (ra * 16777216 + b * 65536 + c * 256 + d))%N; lia.
  - apply (Hdiv 20 _ (rb * 65536 + c * 256 + d))%N; lia.
  - apply (Hdiv 22 _ (sb * 65536 + c * 256 + d))%N; lia.
  - apply (Hdiv 17 _ (tb * 65536 + c * 256 + d))%N; lia.
Qed.

Lemma v4_block_tests v :
  ipv4_wf v → let a := oct_a v in let b := oct_b v in let addr := addr_of v in
  map (λ e, in_block addr e.1) v4_blocks =
  [ (a =? 127); all_octets 0 v; (a =? 169) && (b =? 254); (224 <=? a) && (a <=? 239);
    (a =? 10); (a =? 172) && (16 <=? b) && (b <=? 31); (a =? 192) && (b =? 168);
    (a =? 100) && ((64 <=? b) && (b <? 128));
    (a =? 192) && (b =? 0) && (oct_c v =? 2); (a =? 198) && (b =? 51) && (oct_c v =? 100);
    (a =? 203) && (b =? 0) && (oct_c v =? 113); (a =? 0); (a =? 192) && (b =? 0);
    (a =? 198) && ((b =? 18) || (b =? 19)); (240 <=? a) ]%N.
Proof.
  intros Hwf. destruct (addr_shiftr v Hwf) as (H24 & H16 & H8 & H0 & H28 & H20 & H22 & H17).
  assert (Haddr : addr_of v = (oct_a v * 16777216 + oct_b v * 65536 + oct_c v * 256 + oct_d v)%N)
    by done.
  destruct Hwf as (Ha & Hb & Hc & Hd). unfold all_octets, v4_blocks. cbn [map fst].
  generalize dependent (addr_of v). generalize dependent (oct_d v).
  generalize dependent (oct_c v). generalize dependent (oct_b v). generalize dependent (oct_a v).
  intros a Ha b Hb c Hc d Hd addr H24 H16 H8 H0 H28 H20 H22 H17 Haddr. unfold in_block.
  cbn [fst snd].
  repeat match goal with |- context [(32 - ?l)%N] =>
    let k := eval vm_compute in (32 - l)%N in change (32 - l)%N with k end.
  repeat match goal with |- context [N.shiftr (addr_of ?x) ?l] =>
    let k := eval vm_compute in (N.shiftr (addr_of x) l) in change (N.shiftr (addr_of x) l) with k end.
  rewrite H24, H16, H8, H0, H28, H20, H22, H17. clear H24 H16 H8 H0 H28 H20 H22 H17.
  destruct (split_at a 16 ltac:(done)) as (a16 & ra & -> & Ea & Hra).
  destruct (split_at b 16 ltac:(done)) as (b16 & rb & -> & Eb & Hrb).
  destruct (split_at b 64 ltac:(done)) as (b64 & sb & -> & Fb & Hsb).
  destruct (split_at b 2 ltac:(done)) as (b2 & tb & -> & Gb & Htb).
  repeat f_equal; apply Bool.eq_iff_eq_true;
    rewrite ?andb_true_iff, ?orb_true_iff, ?N.eqb_eq, ?N.leb_le, ?N.ltb_lt; lia.
Qed.

(** The byte tests of the floor are the registry's blocks: an IPv4
    address gets the class of the first listed CIDR block it lies in, and is
    public outside all of them. *)
Theorem classify_v4_is_the_block_table v :
  ipv4_wf v → classify_v4 v = first_block (addr_of v) v4_blocks.
Proof.
  intros Hwf. pose proof (v4_block_tests v Hwf) as Ht. unfold v4_blocks in *. cbn [map fst] in Ht.
  injection Ht as E1 E2 E3 E4 E5 E6 E7 E8 E9 E10 E11 E12 E13 E14 E15. cbn [first_block].
  rewrite E1, E2, E3, E4, E5, E6, E7, E8, E9, E10, E11, E12, E13, E14, E15.
  unfold classify_v4, is_private_v4, is_documentation_v4.
  assert (Hbc : all_octets 255 v = true → (240 <=? oct_a v)%N = true).
  { unfold all_octets. intros. bool_hyps. apply N.leb_le. lia. }
  destruct (oct_a v =? 127)%N; [done|]. destruct (all_octets 0 v); [done|].
  destruct ((oct_a v =? 169) && (oct_b v =? 254))%N; [done|].
  destruct ((224 <=? oct_a v) && (oct_a v <=? 239))%N; [done|].
  destruct (oct_a v =? 10)%N; [done|].
  destruct ((oct_a v =? 172) && (16 <=? oct_b v) && (oct_b v <=? 31))%N; [done|].
  destruct ((oct_a v =? 192) && (oct_b v =? 168))%N; [done|]. cbn [orb].
  destruct ((oct_a v =? 100) && ((64 <=? oct_b v) && (oct_b v <? 128)))%N; [done|].
  destruct (240 <=? oct_a v)%N; rewrite ?orb_true_r; [by repeat case_match|].
  rewrite orb_false_r. destruct (all_octets 255 v); [by specialize (Hbc eq_refl)|]. cbn [orb].
  repeat case_match; bool_hyps; try done; congruence.
Qed.

(** The mask tests of IPv6, as ranges of the first segment. *)
Definition v6_masks_are_ranges (s : N) : bool :=
  Bool.eqb (N.land s 0xff00 =? 0xff00)%N (0xff00 <=? s)%N
  && Bool.eqb (N.land s 0xffc0 =? 0xfe80)%N ((0xfe80 <=? s) && (s <=? 0xfebf))%N
  && Bool.eqb (N.land s 0xfe00 =? 0xfc00)%N ((0xfc00 <=? s) && (s <=? 0xfdff))%N.

Lemma v6_masks_checked : all_below 65536 v6_masks_are_ranges = true.
Proof. vm_compute. reflexivity. Qed.

Lemma v6_masks s :
  (s < 65536)%N →
  (N.land s 0xff00 =? 0xff00)%N = (0xff00 <=? s)%N
  ∧ (N.land s 0xffc0 =? 0xfe80)%N = ((0xfe80 <=? s) && (s <=? 0xfebf))%N
  ∧ (N.land s 0xfe00 =? 0xfc00)%N = ((0xfc00 <=? s) && (s <=? 0xfdff))%N.
Proof.
  intros Hs. pose proof (all_below_spec _ _ v6_masks_checked s Hs) as H.
  unfold v6_masks_are_ranges in H. rewrite !andb_true_iff, !Bool.eqb_true_iff in H.
  by destruct H as [[? ?] ?].
Qed.

(** [::ffff:a.b.c.d]. *)
Definition mapped (v : Ipv4) : Ipv6 :=
  [0; 0; 0; 0; 0; 65535; oct_a v * 256 + oct_b v; oct_c v * 256 + oct_d v]%N.

(** An IPv4 address written as an IPv4-mapped IPv6 one is classified as
    the IPv4 address it is; of the other IPv6 addresses exactly [::1] is
    loopback, [::] unspecified, [ff00::/8] multicast, [fe80::/10] link-local,
    [fc00::/7] private and [2001:db8::/32] reserved. *)
Theorem classify_v6_spec :
  (∀ v, ipv4_wf v → classify_v6 (mapped v) = classify_v4 v)
  ∧ ∀ v, ipv6_wf v → to_ipv4_mapped v = None →
      classify_v6 v =
      let s := segment 0 v in
      if bool_decide (v = [0; 0; 0; 0; 0; 0; 0; 1]%N) then Loopback
      else if bool_decide (v = replicate 8 0%N) then Unspecified
      else if (0xff00 <=? s)%N then Multicast
      else if ((0xfe80 <=? s) && (s <=? 0xfebf))%N then LinkLocal
      else if ((0xfc00 <=? s) && (s <=? 0xfdff))%N then Private
      else if ((s =? 0x2001) && (segment 1 v =? 0x0db8))%N then Reserved
      else Public.
Proof.
  split.
  - intros [a b c d] (Ha & Hb & Hc & Hd). simpl in *. unfold classify_v6, mapped. simpl.
    rewrite !N.div_add_l, !N.div_small, !N.add_0_r by lia.
    rewrite (N.add_comm (a * 256)), (N.add_comm (c * 256)), !N.Div0.mod_add, !N.mod_small by lia.
    done.
  - intros v [Hlen Hall] Hm. unfold classify_v6. rewrite Hm. simpl.
    assert (Hs : (segment 0 v < 65536)%N).
    { destruct v as [|x v]; [done|]. by inversion Hall. }
    destruct (v6_masks _ Hs) as (-> & -> & ->). done.
Qed.

(** ** The policy table *)

Definition hard_floor (c : NetClass) : bool :=
  match c with Unspecified | LinkLocal | Multicast | Reserved => true | _ => false end.

Lemma hard_floor_never_allowed p c : hard_floor c = true → net_allows p c = false.
Proof. by destruct c. Qed.

Lemma strict_allows_public_only c : net_allows net_strict c = true ↔ c = Public.
Proof. by destruct c. Qed.

(** [net_local] is the most permissive policy there is. *)
Lemma local_is_most_permissive p c :
  net_allows p c = true → net_allows net_local c = true.
Proof. by destruct c. Qed.

(** The pre-flight passes a URL exactly when it parses, is [http(s)], has
    a host and that host's class is allowed; so no policy passes a host of the
    hard floor, and the strict policy passes public hosts only. *)
Theorem preflight_passes_iff {up : UrlParse} url policy :
  preflight_url url policy = Some (Ok tt) ↔
  ∃ u h c, url_parse url = Some u ∧ url_scheme u ∈ ALLOWED_SCHEMES ∧ url_host u = Some h
    ∧ classify_url_host h = Some c ∧ net_allows policy c = true
    ∧ hard_floor c = false ∧ (policy = net_strict → c = Public).
Proof.
  unfold preflight_url. split.
  - destruct (url_parse url) as [u|] eqn:Eu; [|done].
    destruct (bool_decide_reflect (url_scheme u ∈ ALLOWED_SCHEMES)) as [Hs|]; [simpl|done].
    destruct (url_host u) as [h|] eqn:Eh; [|done].
    destruct (classify_url_host h) as [c|] eqn:Ec; simpl; [|done].
    destruct (net_allows policy c) eqn:Ea; [|done]. intros _. exists u, h, c.
    split_and!; try done.
    + destruct (hard_floor c) eqn:Ef; [|done]. by rewrite hard_floor_never_allowed in Ea.
    + intros ->. by apply strict_allows_public_only.
  - intros (u & h & c & -> & Hs & -> & Hc & Ha & _). rewrite bool_decide_eq_true_2 by done.
    simpl. by rewrite Hc; simpl; rewrite Ha.
Qed.

(** ** Names are not addresses *)

Fixpoint all_chars (p : ascii → bool) (s : string) : bool :=
  match s with EmptyString => true | String c s' => p c && all_chars p s' end.

Lemma all_chars_app p s t : all_chars p (s +:+ t) = all_chars p s && all_chars p t.
Proof.
  induction s as [|c s IH]; [done|]. rewrite app_string_cons. simpl. by rewrite IH, andb_assoc.
Qed.

(** The bytes an address can be written with. *)
Definition ip_char (c : ascii) : bool :=
  bool_decide (is_Some (to_digit 16 c)) || Ascii.eqb c "." || Ascii.eqb c ":".

(** A reader that consumes address bytes only. *)
Definition reads_ip_chars {A} (read : string → option (A * string)) : Prop :=
  ∀ s a r, read s = Some (a, r) → ∃ u, s = u +:+ r ∧ all_chars ip_char u = true.

Lemma to_digit_ip_char radix c d : (radix ≤ 16)%N → to_digit radix c = Some d → ip_char c = true.
Proof.
  unfold ip_char, to_digit. intros Hr.
  match goal with |- context [mbind _ ?o] => destruct o as [x|] end; simpl; [|done]. intros H.
  destruct (N.ltb_spec x radix); [|done]. destruct (N.ltb_spec x 16); [|lia].
  by rewrite bool_decide_eq_true_2.
Qed.

Lemma read_digits_chars radix budget acc :
  (radix ≤ 16)%N → reads_ip_chars (read_digits radix budget acc).
Proof.
  intros Hr s. revert budget acc. induction s as [|c s IH]; intros budget acc a r H; simpl in H.
  - simplify_eq. by exists "".
  - destruct (to_digit radix c) as [d|] eqn:Ed; [|simplify_eq; by exists ""].
    destruct budget as [|budget]; [done|].
    destruct (IH _ _ _ _ H) as (u & -> & Hu). exists (String c u). split; [done|]. simpl.
    by rewrite (to_digit_ip_char _ _ _ Hr Ed).
Qed.

Lemma read_number_chars radix m z b : (radix ≤ 16)%N → reads_ip_chars (read_number radix m z b).
Proof.
  intros Hr s a r. unfold read_number.
  destruct (read_digits radix m 0 s) as [[n rest]|] eqn:E; simpl; [|done].
  intros H. repeat case_match; simplify_eq. by eapply read_digits_chars.
Qed.

Lemma read_separator_chars {A} sep i (inner : string → option (A * string)) :
  ip_char sep = true → reads_ip_chars inner → reads_ip_chars (read_separator sep i inner).
Proof.
  intros Hsep Hin s a r. unfold read_separator. destruct i; simpl; [apply Hin|].
  destruct s as [|c s]; simpl; [done|]. destruct (Ascii.eqb_spec c sep) as [->|]; simpl; [|done].
  intros H. destruct (Hin _ _ _ H) as (u & -> & Hu). exists (String sep u).
  split; [done|]. simpl. by rewrite Hsep.
Qed.

Lemma read_octet_chars i : reads_ip_chars (read_octet i).
Proof. apply read_separator_chars; [done|]. by apply read_number_chars. Qed.

Lemma read_ipv4_chars : reads_ip_chars read_ipv4.
Proof.
  intros s v r H. unfold read_ipv4 in H.
  destruct (read_octet 0 s) as [[a s1]|] eqn:E1; simpl in H; [|done].
  destruct (read_octet 1 s1) as [[b s2]|] eqn:E2; simpl in H; [|done].
  destruct (read_octet 2 s2) as [[c s3]|] eqn:E3; simpl in H; [|done].
  destruct (read_octet 3 s3) as [[d s4]|] eqn:E4; simpl in H; simplify_eq.
  apply read_octet_chars in E1 as (u1 & -> & H1), E2 as (u2 & -> & H2),
    E3 as (u3 & -> & H3), E4 as (u4 & -> & H4).
  exists (u1 +:+ u2 +:+ u3 +:+ u4). rewrite !app_string_assoc, !all_chars_app.
  by rewrite H1, H2, H3, H4.
Qed.

Lemma read_groups_chars limit n i s gs v4 r :
  read_groups limit i n s = (gs, v4, r) → ∃ u, s = u +:+ r ∧ all_chars ip_char u = true.
Proof.
  revert i s gs v4 r. induction n as [|n IH]; intros i s gs v4 r H; simpl in H.
  { simplify_eq. by exists "". }
  destruct (if (i <? limit - 1)%nat then _ else None) as [[a s']|] eqn:E4.
  - simplify_eq. destruct (i <? limit - 1)%nat; [|done].
    exact (read_separator_chars ":" i read_ipv4 eq_refl read_ipv4_chars _ _ _ E4).
  - destruct (read_separator ":" i (read_number 16 4 true 65535) s) as [[g s']|] eqn:En;
      [|simplify_eq; by exists ""].
    destruct (read_groups limit (S i) n s') as [[gs' v'] r'] eqn:Eg. simplify_eq.
    apply IH in Eg as (u2 & -> & H2).
    apply read_separator_chars in En as (u1 & -> & H1); [| done | by apply read_number_chars].
    exists (u1 +:+ u2). by rewrite app_string_assoc, all_chars_app, H1, H2.
Qed.

Lemma read_given_char_spec c s s' : read_given_char c s = Some s' → s = String c s'.
Proof.
  destruct s as [|a s]; simpl; intros H; [done|].
  destruct (Ascii.eqb_spec a c) as [->|]; by simplify_eq.
Qed.

Lemma read_ipv6_chars : reads_ip_chars read_ipv6.
Proof.
  intros s v r H. unfold read_ipv6 in H.
  destruct (read_groups 8 0 8 s) as [[hd v4] s1] eqn:E1.
  apply read_groups_chars in E1 as (u1 & -> & H1).
  destruct (length hd =? 8)%nat; [simplify_eq; by exists u1|]. destruct v4; [done|].
  destruct (read_given_char ":" s1) as [s2|] eqn:E2; simpl in H; [|done].
  destruct (read_given_char ":" s2) as [s3|] eqn:E3; simpl in H; [|done].
  apply read_given_char_spec in E2 as ->, E3 as ->.
  destruct (read_groups _ 0 _ s3) as [[tl ?] s4] eqn:E4. simplify_eq.
  apply read_groups_chars in E4 as (u2 & -> & H2).
  exists (u1 +:+ "::" +:+ u2). rewrite !app_string_assoc, !all_chars_app, H1, H2. done.
Qed.

Lemma parse_ip_chars s ip : parse_ip s = Some ip → all_chars ip_char s = true.
Proof.
  unfold parse_ip. intros H.
  destruct (read_ipv4 s) as [[v r]|] eqn:E4; simpl in H.
  - destruct r; [|done]. apply read_ipv4_chars in E4 as (u & -> & Hu). by rewrite app_string_nil_r.
  - destruct (read_ipv6 s) as [[v r]|] eqn:E6; simpl in H; [|done].
    destruct r; [|done]. apply read_ipv6_chars in E6 as (u & -> & Hu). by rewrite app_string_nil_r.
Qed.

(** ** Suffix tests on ASCII text never panic *)


Lemma drop_string_app s t : drop_string (String.length s) (s +:+ t) = t.
Proof. induction s as [|c s IH]; [by destruct t | done]. Qed.

Lemma is_ascii_app s t : is_ascii (s +:+ t) = is_ascii s && is_ascii t.
Proof.
  induction s as [|c s IH]; [done|]. rewrite app_string_cons. simpl. by rewrite IH, andb_assoc.
Qed.

Lemma drop_string_ascii n s : is_ascii s = true → is_ascii (drop_string n s) = true.
Proof.
  revert s. induction n as [|n IH]; intros [|c s] H; try done.
  simpl in *. apply andb_true_iff in H as [_ H]. by apply IH.
Qed.

Lemma drop_string_length n s : String.length (drop_string n s) = String.length s - n.
Proof. revert s. induction n as [|n IH]; intros [|c s]; simpl; try done. Qed.

Lemma slice_ascii n s : is_ascii s = true → n ≤ String.length s → slice_from n s = Some (drop_string n s).
Proof.
  intros Ha Hn. unfold slice_from, is_char_boundary. destruct n as [|n]; [done|].
  pose proof (drop_string_ascii (S n) s Ha) as Hd. pose proof (drop_string_length (S n) s) as Hl.
  destruct (drop_string (S n) s) as [|c t] eqn:E.
  - simpl in Hl. replace (S n) with (String.length s) by lia. by rewrite Nat.eqb_refl.
  - simpl in Hd. apply andb_true_iff in Hd as [Hc _]. unfold is_ascii_char in Hc.
    apply N.ltb_lt in Hc. destruct (N.leb_spec 128 (N_of_ascii c)); [lia | done].
Qed.

Lemma any_suffix_ascii s l : is_ascii s = true → is_Some (any_suffix s l).
Proof.
  intros Ha. induction l as [|x l IH]; simpl; [by eexists|]. unfold ends_with_ascii_ci.
  destruct (Nat.leb_spec (String.length x) (String.length s)); simpl; [|done].
  rewrite slice_ascii by (done || lia). simpl. by destruct (eq_ascii_ci _ _); [eexists|].
Qed.


Lemma lowercase_app s t :
  to_ascii_lowercase (s +:+ t) = to_ascii_lowercase s +:+ to_ascii_lowercase t.
Proof. induction s as [|c s IH]; [done|]. rewrite !app_string_cons. simpl. by rewrite IH. Qed.

Lemma lowercase_rev s : to_ascii_lowercase (rev_string s) = rev_string (to_ascii_lowercase s).
Proof.
  induction s as [|c s IH]; [done|]. simpl. by rewrite !rev_string_cons, lowercase_app, IH.
Qed.

Lemma eq_ascii_ci_iff a b :
  eq_ascii_ci a b = true ↔ to_ascii_lowercase a = to_ascii_lowercase b.
Proof.
  unfold eq_ascii_ci. revert b. induction a as [|x a IH]; intros [|y b]; simpl; try done.
  specialize (IH b). rewrite andb_true_iff in IH. rewrite !andb_true_iff, Ascii.eqb_eq. split.
  - intros (Hl & Hx & Hr). f_equal; [done|]. by apply IH.
  - intros [= Hx Hr]. apply IH in Hr as [? ?]. done.
Qed.

Definition ip_char_folds (n : N) : bool :=
  Bool.eqb (ip_char (ascii_lower (ascii_of_N n))) (ip_char (ascii_of_N n)).

Lemma all_chars_lowercase s : all_chars ip_char (to_ascii_lowercase s) = all_chars ip_char s.
Proof.
  assert (Hf : all_below 256 ip_char_folds = true) by (vm_compute; reflexivity).
  induction s as [|c s IH]; simpl; [done|]. rewrite IH. f_equal.
  pose proof (all_below_spec _ _ Hf (N_of_ascii c) (N_ascii_bounded c)) as H.
  unfold ip_char_folds in H. rewrite ascii_N_embedding in H. by apply Bool.eqb_prop.
Qed.

Lemma strip_dot_dotted s : strip_dot (s +:+ ".") = s.
Proof.
  unfold strip_dot. rewrite rev_string_append. change (rev_string ".") with ".".
  rewrite app_string_cons. change ("" +:+ rev_string s) with (rev_string s).
  apply rev_string_involutive.
Qed.

Lemma any_suffix_true s l x :
  is_ascii s = true → x ∈ l → ends_with_ascii_ci s x = Some true → any_suffix s l = Some true.
Proof.
  intros Ha Hx He. induction l as [|y l IH]; [by apply not_elem_of_nil in Hx|]. simpl.
  apply elem_of_cons in Hx as [->|Hx]; [by rewrite He|].
  unfold ends_with_ascii_ci at 1.
  destruct (Nat.leb_spec (String.length y) (String.length s)); simpl; [|by apply IH].
  rewrite slice_ascii by (done || lia). simpl. destruct (eq_ascii_ci _ _); [done | by apply IH].
Qed.

(** What the five suffixes have in common. *)
Lemma local_suffix_facts x :
  x ∈ LOCAL_ONLY_SUFFIXES →
  to_ascii_lowercase x = x ∧ all_chars ip_char x = false
  ∧ ∃ c t, rev_string x = String c t ∧ c ≠ "."%char.
Proof.
  unfold LOCAL_ONLY_SUFFIXES. rewrite !elem_of_cons, elem_of_nil.
  intros Hx. repeat destruct Hx as [->|Hx]; [..|done];
    (split_and!; [reflexivity | reflexivity | by eexists _, _]).
Qed.

(** A name under a local-discovery suffix, in any letter case and with or
    without the root dot, is never public: whatever stands before the suffix,
    it is a local name (or a loopback name) and needs an opt-in to be reached. *)
Theorem discovery_names_are_never_public h sfx :
  to_ascii_lowercase sfx ∈ LOCAL_ONLY_SUFFIXES → is_ascii (h +:+ sfx) = true →
  ∀ name, name = h +:+ sfx ∨ name = (h +:+ sfx) +:+ "." →
  classify_host name = Some LocalName ∨ classify_host name = Some Loopback.
Proof.
  intros Hsfx Ha name Hname.
  destruct (local_suffix_facts _ Hsfx) as (Hlow & Hchars & c & t & Hrev & Hc).
  rewrite <- lowercase_rev in Hrev.
  assert (Hstrip : strip_dot name = h +:+ sfx).
  { destruct Hname as [->| ->]; [|apply strip_dot_dotted]. unfold strip_dot.
    rewrite rev_string_append. destruct (rev_string sfx) as [|d u] eqn:E; [done|].
    simpl in Hrev. injection Hrev as Hd Hu. rewrite app_string_cons.
    destruct d as [[] [] [] [] [] [] [] []]; try done; by subst c. }
  unfold classify_host. rewrite Hstrip.
  assert (Hne : is_empty (h +:+ sfx) = false).
  { destruct h; [|done]. destruct sfx; [|done]. vm_compute in Hrev. discriminate Hrev. }
  rewrite Hne. destruct (parse_ip (h +:+ sfx)) as [ip|] eqn:Eip.
  { apply parse_ip_chars in Eip. rewrite all_chars_app, andb_true_iff in Eip.
    destruct Eip as [_ Eip]. by rewrite <- all_chars_lowercase, Hchars in Eip. }
  destruct (existsb _ LOOPBACK_NAMES); [by right|]. left.
  rewrite (any_suffix_true _ _ _ Ha Hsfx); [done|].
  unfold ends_with_ascii_ci. rewrite lowercase_length, string_length_app.
  destruct (Nat.leb_spec (String.length sfx) (String.length h + String.length sfx)); [|lia].
  rewrite slice_ascii by (rewrite ?string_length_app; done || lia).
  replace (String.length h + String.length sfx - String.length sfx) with (String.length h) by lia.
  rewrite drop_string_app. simpl. f_equal. apply eq_ascii_ci_iff. by rewrite Hlow.
Qed.

Lemma is_ascii_rev s : is_ascii (rev_string s) = is_ascii s.
Proof.
  induction s as [|x s IH]; [done|]. rewrite rev_string_cons, is_ascii_app, IH. simpl.
  by rewrite andb_true_r, andb_comm.
Qed.

Lemma strip_dot_ascii s : is_ascii s = true → is_ascii (strip_dot s) = true.
Proof.
  intros Ha. unfold strip_dot. rewrite <- is_ascii_rev in Ha.
  destruct (rev_string s) as [|d u] eqn:E; [by rewrite <- is_ascii_rev, E|].
  assert (Hs : is_ascii s = true) by (by rewrite <- is_ascii_rev, E).
  simpl in Ha. apply andb_true_iff in Ha as [_ Ha].
  destruct d as [[] [] [] [] [] [] [] []]; try done; by rewrite is_ascii_rev.
Qed.

(** On ASCII hosts classification always answers; on others it may panic:
    the suffix test slices the text at a byte offset, and a four-byte tail that
    begins inside a two-byte character aborts the caller. *)
Theorem classify_host_total_on_ascii :
  (∀ host, is_ascii host = true → is_Some (classify_host host))
  ∧ classify_host (String "a" (String (ascii_of_N 195) (String (ascii_of_N 169) "aaa"))) = None.
Proof.
  split; [|vm_compute; reflexivity]. intros host Ha. unfold classify_host.
  pose proof (strip_dot_ascii host Ha) as Hs.
  destruct (is_empty _); [by eexists|]. destruct (parse_ip _); [by eexists|].
  destruct (existsb _ _); [by eexists|].
  destruct (any_suffix_ascii (strip_dot host) LOCAL_ONLY_SUFFIXES Hs) as [b ->]. by eexists.
Qed.

(** The comment on the reserved block names [192.0.0.0/24]; the test refuses the
    whole [192.0.0.0/16], public hosts included. *)
Lemma reserved_block_is_sixteen_bits b3 b4 :
  (b3 < 256)%N → (b4 < 256)%N → classify_v4 (ip4 192 0 b3 b4) = Reserved.
Proof.
  intros. unfold classify_v4, is_documentation_v4, all_octets. simpl. by case_match.
Qed.

(** Forms that name a floored destination without the floor seeing it: an
    embedded IPv4 address outside the mapped prefix, and a doubled root dot. *)
Example unseen_forms :
  classify_v6 [100; 65435; 0; 0; 0; 0; 43518; 43518]%N = Public
  ∧ classify_host "localhost." = Some Loopback ∧ classify_host "localhost.." = Some Public
  ∧ classify_host "LocalHost" = Some Loopback ∧ classify_host "nas.LAN" = Some LocalName.
Proof. vm_compute. auto. Qed.

(** ** Witnesses *)

Lemma classify_v4_is_the_block_table_witness :
  ipv4_wf (ip4 169 254 169 254)
  ∧ classify_v4 (ip4 169 254 169 254) = first_block (addr_of (ip4 169 254 169 254)) v4_blocks.
Proof.
  assert (H : ipv4_wf (ip4 169 254 169 254)) by (unfold ipv4_wf; simpl; lia).
  split; [exact H | exact (classify_v4_is_the_block_table _ H)].
Defined.

Lemma classify_v6_spec_witness :
  classify_v6 (mapped (ip4 127 0 0 1)) = classify_v4 (ip4 127 0 0 1).
Proof. apply (proj1 classify_v6_spec). unfold ipv4_wf. simpl. lia. Defined.

Lemma discovery_names_are_never_public_witness :
  classify_host "printer.LOCAL." = Some LocalName ∨ classify_host "printer.LOCAL." = Some Loopback.
Proof.
  apply (discovery_names_are_never_public "printer" ".LOCAL");
    [vm_compute; repeat constructor | reflexivity | by right].
Defined.

Lemma classify_host_total_on_ascii_witness : is_Some (classify_host "metadata.google.internal").
Proof. apply (proj1 classify_host_total_on_ascii). reflexivity. Defined.
