(* ===== verification/Paths.v ===== *)
(** * Paths: [normalize_lexical] and containment ([pathfloor.rs])

    [std::path] on Unix over byte strings, the lexical normal form, and the
    string test every guard uses for "inside a root", proved to be the
    component-wise one. *)
From S2P Require Import Prelude.

Inductive Component := CRootDir | CCurDir | CParentDir | CNormal (s : string).

(** [Path::components]: a root, then the pieces between slashes, without the
    empty ones and without [.] unless a relative path begins with it. *)
Definition piece (s : string) : option Component :=
  if is_empty s || String.eqb s "." then None
  else if String.eqb s ".." then Some CParentDir
  else Some (CNormal s).
Definition rooted (path : string) : bool := starts_with "/" path.
(** [Path::join]. *)
Definition path_join (base p : string) : string :=
  if rooted p then p else if is_empty base || ends_with "/" base then base +:+ p else base +:+ "/" +:+ p.
Definition components (path : string) : list Component :=
  let pieces := split SLASH path in
  if rooted path then CRootDir :: omap piece pieces
  else match pieces with
       | "." :: rest => CCurDir :: omap piece rest
       | _ => omap piece pieces
       end.

(** [Component::as_os_str]. *)
Definition comp_str (c : Component) : string :=
  match c with CRootDir => "/" | CCurDir => "." | CParentDir => ".." | CNormal s => s end.

(** The loop of [normalize_lexical]: [out] last element first, and [rooted]. *)
Fixpoint norm_loop (out : list Component) (rt : bool) (cs : list Component) : list Component * bool :=
  match cs with
  | [] => (rev out, rt)
  | comp :: rest =>
      match comp with
      | CRootDir => norm_loop out true rest
      | CCurDir => norm_loop out rt rest
      | CParentDir =>
          match out with
          | CNormal _ :: out' => norm_loop out' rt rest
          | [] => norm_loop (if rt then [] else [CParentDir]) rt rest
          | _ => norm_loop out rt rest
          end
      | CNormal s => norm_loop (CNormal s :: out) rt rest
      end
  end.

(* SRC guard/src/pathfloor.rs @fn:normalize_lexical normalize_lexical *)
Definition normalize_lexical (path : string) : string :=
  let '(out, rt) := norm_loop [] false (components path) in
  let joined := join "/" (map comp_str out) in
  let s := if rt then "/" +:+ joined else joined in
  if is_empty s then (if rt then "/" else ".") else s.

Example normalize_examples :
  normalize_lexical "/workspace/sub/../../../x" = "/x"
  ∧ normalize_lexical "//workspace//./a/" = "/workspace/a"
  ∧ normalize_lexical "a/../.." = ".." ∧ normalize_lexical "" = "."
  ∧ normalize_lexical "/.." = "/".
Proof. vm_compute. auto. Qed.

(** The containment test of [is_inside_root], [enforce_floor] and the others:
    [c == root || c.starts_with(&format!("{}/", root.trim_end_matches('/')))]. *)
Definition inside (c root : string) : bool :=
  String.eqb c root || starts_with (trim_end_matches SLASH root +:+ "/") c.

(** ** Normal forms *)

(** A file name: not empty, no slash, neither [.] nor [..]. *)
Definition name_ok (s : string) : Prop :=
  s ≠ "" ∧ has_char SLASH s = false ∧ s ≠ "." ∧ s ≠ "..".

(** A normal path: rooted names, or at most one leading [..] and names. *)
Definition render (rt : bool) (cs : list Component) : string :=
  let joined := join "/" (map comp_str cs) in
  let s := if rt then "/" +:+ joined else joined in
  if is_empty s then (if rt then "/" else ".") else s.

Definition names (cs : list Component) : Prop :=
  Forall (λ c, ∃ s, c = CNormal s ∧ name_ok s) cs.
Definition normal_comps (rt : bool) (cs : list Component) : Prop :=
  names cs ∨ (rt = false ∧ ∃ cs', cs = CParentDir :: cs' ∧ names cs').

Definition normal (p : string) : Prop := ∃ rt cs, normal_comps rt cs ∧ p = render rt cs.

Lemma split_char_free c s : Forall (λ w, has_char c w = false) (split c s).
Proof.
  induction s as [|a s IH]; simpl; [by repeat constructor|].
  destruct (Ascii.eqb a c) eqn:E; [by constructor|].
  destruct (split c s) as [|w ws]; inversion IH; subst; repeat constructor; simpl; rewrite ?E; done.
Qed.

Lemma piece_ok s c : has_char SLASH s = false → piece s = Some c →
  c = CParentDir ∨ ∃ n, c = CNormal n ∧ name_ok n.
Proof.
  unfold piece, name_ok. intros Hs. destruct s as [|x s]; [done|]. simpl.
  destruct (String.eqb_spec (String x s) "."); [done|].
  destruct (String.eqb_spec (String x s) ".."); intros [= <-]; [by left|]. right. eauto 10.
Qed.

(** What [components] can yield after an optional root. *)
Definition comp_ok (c : Component) : Prop :=
  match c with CNormal s => name_ok s | _ => True end.

Lemma omap_piece_ok l :
  Forall (λ w, has_char SLASH w = false) l → Forall comp_ok (omap piece l).
Proof.
  induction 1 as [|w l Hw Hl IH]; simpl; [constructor|].
  destruct (piece w) as [c|] eqn:E; [|done]. constructor; [|done].
  apply piece_ok in E as [->|(n & -> & Hn)]; done.
Qed.

Lemma components_ok p : Forall comp_ok (components p).
Proof.
  unfold components. pose proof (split_char_free SLASH p) as H. destruct (rooted p).
  - constructor; [done|]. by apply omap_piece_ok.
  - assert (Hd : Forall comp_ok (omap piece (split SLASH p))) by by apply omap_piece_ok.
    destruct (split SLASH p) as [|w ws]; [done|].
    destruct (decide (w = ".")) as [->|Hw]; [constructor; [done|]; apply omap_piece_ok; by inversion H|].
    repeat (case_match; try done).
Qed.

Lemma names_rev cs : names cs → names (rev cs).
Proof. unfold names. intros H. by apply Forall_rev. Qed.

(** The loop invariant, [out] being reversed. *)
Definition out_ok (rt : bool) (out : list Component) : Prop :=
  names out ∨ (rt = false ∧ ∃ ns, out = ns ++ [CParentDir] ∧ names ns).

Lemma norm_loop_normal cs : ∀ out rt,
  Forall comp_ok cs → (∀ c, c ∈ cs → c ≠ CRootDir) → out_ok rt out →
  let '(out', rt') := norm_loop out rt cs in rt' = rt ∧ normal_comps rt' out'.
Proof.
  induction cs as [|c cs IH]; intros out rt Hok Hroot Hout; simpl.
  - split; [done|]. destruct Hout as [H|(-> & ns & -> & H)].
    + left. by apply names_rev.
    + right. split; [done|]. exists (rev ns). rewrite rev_app_distr.
      split; [done | by apply names_rev].
  - inversion Hok as [|? ? Hc Hcs]; subst.
    assert (Hr : ∀ c', c' ∈ cs → c' ≠ CRootDir) by (intros c' Hc'; apply Hroot; by right).
    destruct c as [| | |s].
    + by destruct (Hroot CRootDir); [left|].
    + by apply IH.
    + destruct out as [|[| | |s] out]; simpl.
      * apply IH; try done. destruct rt; [left; constructor|].
        right. split; [done|]. exists []. by split; [|constructor].
      * by apply IH.
      * by apply IH.
      * by apply IH.
      * apply IH; try done. destruct Hout as [H|(-> & [|n ns] & He & H)]; [|done|].
        -- left. by inversion H.
        -- simplify_eq/=. right. split; [done|]. exists ns. split; [done|]. by inversion H.
    + apply IH; try done. destruct Hout as [H|(-> & ns & -> & H)].
      * left. constructor; [by eauto | done].
      * right. split; [done|]. exists (CNormal s :: ns). split; [done|].
        constructor; [by eauto | done].
Qed.

Lemma omap_piece_not_root (l : list string) c : c ∈ omap piece l → c ≠ CRootDir.
Proof.
  intros (w & _ & Hw)%list_elem_of_omap ->. unfold piece in Hw. by repeat case_match.
Qed.

Lemma normalize_render p :
  ∃ cs, normal_comps (rooted p) cs ∧ normalize_lexical p = render (rooted p) cs.
Proof.
  unfold normalize_lexical. pose proof (components_ok p) as Hok. unfold components in *.
  destruct (rooted p) eqn:Er.
  - cbn [norm_loop]. inversion Hok; subst.
    pose proof (norm_loop_normal (omap piece (split SLASH p)) [] true) as H.
    destruct (norm_loop [] true _) as [out rt].
    destruct H as [-> Hn]; [done | apply omap_piece_not_root | left; constructor |]. by exists out.
  - match goal with |- context [norm_loop [] false ?l] => set (cs := l) in * end.
    assert (Hroot : ∀ c, c ∈ cs → c ≠ CRootDir).
    { unfold cs. intros c Hc. destruct (split SLASH p) as [|w ws]; [by apply not_elem_of_nil in Hc|].
      destruct (decide (w = ".")) as [->|Hw].
      - apply elem_of_cons in Hc as [->|Hc]; [done | by apply omap_piece_not_root in Hc].
      - apply (omap_piece_not_root (w :: ws)). revert Hc. by repeat case_match. }
    pose proof (norm_loop_normal cs [] false Hok Hroot) as H.
    destruct (norm_loop [] false cs) as [out rt].
    destruct H as [-> Hn]; [left; constructor |]. by exists out.
Qed.

Lemma normalize_normal p : normal (normalize_lexical p).
Proof. destruct (normalize_render p) as (cs & Hn & ->). by exists (rooted p), cs. Qed.

(** ** Containment *)

Lemma string_last s : s ≠ "" → ∃ x d, s = x +:+ ch d.
Proof.
  intros Hs. rewrite <- (rev_string_involutive s). destruct (rev_string s) as [|d t] eqn:E.
  - exfalso. apply Hs. by rewrite <- (rev_string_involutive s), E.
  - exists (rev_string t), d. apply rev_string_cons.
Qed.

Lemma trim_end_matches_noop c x d : d ≠ c → trim_end_matches c (x +:+ ch d) = x +:+ ch d.
Proof.
  intros Hd. unfold trim_end_matches. rewrite rev_string_append. change (rev_string (ch d)) with (ch d).
  unfold ch. rewrite app_string_cons. simpl. destruct (Ascii.eqb_spec d c); [done|].
  rewrite rev_string_cons. change ("" +:+ rev_string x) with (rev_string x).
  by rewrite rev_string_involutive.
Qed.

Definition plain_names (l : list string) : Prop := Forall name_ok l.

Lemma names_plain cs : names cs → plain_names (map comp_str cs) ∧ map CNormal (map comp_str cs) = cs.
Proof.
  induction 1 as [|c cs (s & -> & Hs) H [IH1 IH2]]; [by split; [constructor|]|].
  simpl. split; [by constructor | by rewrite IH2].
Qed.

Lemma plain_slash_free l : plain_names l → Forall (λ s, has_char SLASH s = false) l.
Proof. intros H. apply (Forall_impl _ _ _ H). by intros s (_ & ? & _). Qed.

Lemma join_last l :
  plain_names l → l ≠ [] → ∃ x d, join "/" l = x +:+ ch d ∧ d ≠ SLASH.
Proof.
  induction 1 as [|s l Hs Hl IH]; [done|]. intros _. destruct Hs as (Hne & Hsl & _).
  destruct (decide (l = [])) as [->|Hl'].
  - destruct (string_last s Hne) as (x & d & ->). exists x, d. split; [done|].
    rewrite has_char_app in Hsl. apply orb_false_iff in Hsl as [_ Hsl]. simpl in Hsl.
    apply orb_false_iff in Hsl as [Hsl _]. by apply Ascii.eqb_neq.
  - destruct (IH Hl') as (x & d & Hj & Hd). exists (s +:+ "/" +:+ x), d.
    rewrite join_cons, Hj by done. by rewrite !app_string_assoc.
Qed.

(** The rooted path over a list of names. *)
Definition abs_path (l : list string) : string := "/" +:+ join "/" l.

Lemma split_abs l : plain_names l → l ≠ [] → split SLASH (abs_path l) = "" :: l.
Proof.
  intros Hl Hne. unfold abs_path. change "/" with ("" +:+ String SLASH "") at 1.
  rewrite app_string_assoc, app_string_cons. change ("" +:+ join "/" l) with (join "/" l).
  rewrite split_app_sep. change (split SLASH "") with [""].
  change "/" with (ch SLASH). rewrite split_join; [done | done | by apply plain_slash_free].
Qed.

Lemma abs_path_inj l1 l2 : plain_names l1 → plain_names l2 → abs_path l1 = abs_path l2 → l1 = l2.
Proof.
  intros H1 H2 He. apply (f_equal (split SLASH)) in He.
  assert (Hnil : ∀ l, plain_names l → split SLASH (abs_path []) = split SLASH (abs_path l) → l = []).
  { intros l Hl E. destruct l as [|s l]; [done|]. rewrite (split_abs (s :: l)) in E by done.
    injection E as <- _. inversion Hl as [|? ? (Hbad & _)]. done. }
  destruct (decide (l1 = [])) as [->|Hn1]; [symmetry; by apply Hnil|].
  destruct (decide (l2 = [])) as [->|Hn2]; [by apply Hnil|].
  rewrite !split_abs in He by done. by injection He.
Qed.

Lemma inside_abs l1 l2 :
  plain_names l1 → plain_names l2 →
  inside (abs_path l2) (abs_path l1) = true ↔ l1 `prefix_of` l2.
Proof.
  intros H1 H2. unfold inside. rewrite orb_true_iff, String.eqb_eq, starts_with_spec.
  destruct (decide (l1 = [])) as [->|Hn1].
  { split; [intros _; apply prefix_nil | intros _; right]. exists (join "/" l2). reflexivity. }
  assert (Ht : trim_end_matches SLASH (abs_path l1) = abs_path l1).
  { destruct (join_last l1 H1 Hn1) as (x & d & Hj & Hd). unfold abs_path. rewrite Hj.
    rewrite <- app_string_assoc. by apply trim_end_matches_noop. }
  rewrite Ht. split.
  - intros [He|[r Hr]]; [by apply abs_path_inj in He as -> |].
    rewrite app_string_assoc, app_string_cons in Hr. change ("" +:+ r) with r in Hr.
    pose proof (f_equal (split SLASH) Hr) as Hs. change "/"%char with SLASH in Hs.
    rewrite split_app_sep, (split_abs l1) in Hs by done.
    destruct (decide (l2 = [])) as [->|Hn2].
    + destruct l1 as [|s l1]; [done|]. injection Hs as <- _.
      inversion H1 as [|? ? (Hbad & _)]. done.
    + rewrite split_abs in Hs by done. injection Hs as Hs. by exists (split SLASH r).
  - intros [k ->]. destruct (decide (k = [])) as [->|Hk]; [left; by rewrite app_nil_r|right].
    exists (join "/" k). unfold abs_path. rewrite join_app by done. by rewrite !app_string_assoc.
Qed.

(** The components a path resolves to, lexically. *)
Definition resolved (p : string) : list Component := (norm_loop [] false (components p)).1.

Lemma normalize_resolved p : normalize_lexical p = render (rooted p) (resolved p).
Proof.
  unfold normalize_lexical, resolved. destruct (norm_loop [] false (components p)) as [out rt] eqn:E.
  assert (rt = rooted p) as ->; [|done].
  pose proof (components_ok p) as Hok. unfold components in *. destruct (rooted p) eqn:Er.
  - cbn [norm_loop] in E. inversion Hok; subst.
    pose proof (norm_loop_normal (omap piece (split SLASH p)) [] true) as H. rewrite E in H.
    by destruct H as [-> _]; [ | apply omap_piece_not_root | left; constructor |].
  - pose proof (norm_loop_normal _ [] false Hok) as H. rewrite E in H.
    destruct H as [-> _]; [| left; constructor | done]. intros c Hc.
    destruct (split SLASH p) as [|w ws]; [by apply not_elem_of_nil in Hc|].
    destruct (decide (w = ".")) as [->|Hw].
    + apply elem_of_cons in Hc as [->|Hc]; [done | by apply omap_piece_not_root in Hc].
    + apply (omap_piece_not_root (w :: ws)). revert Hc. by repeat case_match.
Qed.

Lemma resolved_names p : rooted p = true → names (resolved p).
Proof.
  intros Hr. unfold resolved, components. rewrite Hr. cbn [norm_loop].
  pose proof (norm_loop_normal (omap piece (split SLASH p)) [] true) as H.
  destruct (norm_loop [] true _) as [out rt].
  destruct H as [-> [Hn|(? & _)]]; try done.
  - apply omap_piece_ok, split_char_free.
  - apply omap_piece_not_root.
  - left; constructor.
Qed.

Lemma render_abs cs : render true cs = abs_path (map comp_str cs).
Proof. reflexivity. Qed.

(** The textual containment test is containment by components: for
    absolute paths, a normalized path is inside a normalized root exactly when
    the root's components are a prefix of the path's - a sibling whose name
    merely begins with the root's is outside. *)
Theorem inside_iff_component_prefix p r :
  rooted p = true → rooted r = true →
  inside (normalize_lexical p) (normalize_lexical r) = true ↔ resolved r `prefix_of` resolved p.
Proof.
  intros Hp Hr. rewrite !normalize_resolved, Hp, Hr, !render_abs.
  destruct (names_plain _ (resolved_names p Hp)) as [Hp1 Hp2].
  destruct (names_plain _ (resolved_names r Hr)) as [Hr1 Hr2].
  rewrite inside_abs by done. split; intros [k Hk].
  - exists (map CNormal k). rewrite <- Hp2, <- Hr2, Hk. apply map_app.
  - exists (map comp_str k). rewrite Hk. apply map_app.
Qed.

(** Normalizing an absolute path leaves an absolute path without [.], [..]
    or empty components, and normalizing again changes nothing. *)
Theorem normalize_absolute p :
  rooted p = true →
  ∃ l, plain_names l ∧ normalize_lexical p = abs_path l
       ∧ normalize_lexical (normalize_lexical p) = normalize_lexical p.
Proof.
  intros Hp. destruct (names_plain _ (resolved_names p Hp)) as [Hl Hmap].
  exists (map comp_str (resolved p)). split_and!; [done | |];
    rewrite (normalize_resolved p), Hp, render_abs; [done|].
  set (l := map comp_str (resolved p)) in *. clearbody l.
  assert (Hr : rooted (abs_path l) = true)
    by (unfold rooted, abs_path; apply starts_with_spec; eauto).
  rewrite normalize_resolved, Hr, render_abs. f_equal. unfold resolved, components. rewrite Hr.
  cbn [norm_loop].
  assert (Hpieces : omap piece (split SLASH (abs_path l)) = map CNormal l).
  { destruct (decide (l = [])) as [->|Hn]; [done|]. rewrite split_abs by done.
    clear Hn Hmap Hr. simpl. induction Hl as [|s l (H1 & H2 & H3 & H4) Hl IH]; [done|]. simpl.
    unfold piece at 1. destruct s as [|x s]; [done|]. simpl.
    rewrite (proj2 (String.eqb_neq _ _) H3), (proj2 (String.eqb_neq _ _) H4). simpl.
    f_equal. apply IH. }
  rewrite Hpieces.
  assert (Hloop : ∀ ns out, norm_loop out true (map CNormal ns) = (rev out ++ map CNormal ns, true)).
  { induction ns as [|n ns IH]; intros out; simpl; [by rewrite app_nil_r|].
    rewrite IH. simpl. by rewrite <- app_assoc. }
  rewrite Hloop. simpl. clear Hl Hpieces Hloop Hr Hmap. induction l as [|x l IH]; simpl; congruence.
Qed.

(** A path that climbs above its start twice is normalized to one that
    climbs once: the loop drops every [..] after the first of a relative path. *)
Theorem normalize_drops_repeated_parents :
  normalize_lexical "../../x" = "../x"
  ∧ inside (normalize_lexical "../../x") (normalize_lexical "..") = true.
Proof. vm_compute. auto. Qed.

Lemma inside_iff_component_prefix_witness :
  inside (normalize_lexical "/workspace-evil/x") (normalize_lexical "/workspace/.") = false
  ∧ inside (normalize_lexical "/workspace/a/../b") (normalize_lexical "/workspace/.") = true.
Proof.
  split; [vm_compute; reflexivity|].
  apply (inside_iff_component_prefix "/workspace/a/../b" "/workspace/."); try reflexivity.
  exists [CNormal "b"]. vm_compute. reflexivity.
Defined.
