(* ===== verification/PathFloor.v ===== *)
(** * The path floor, the grant axes and the read scopes ([pathfloor.rs],
    [protected_paths.rs])

    The filesystem is an interface: what [canonicalize], [symlink_metadata] and
    [metadata] answer at one moment. A decision taken at two moments takes two
    instances. *)
From S2P Require Import Prelude Paths.

(** [std::fs] at one moment. [fs_identity] is the part of a file's metadata
    [toctou.rs] keeps. *)
Record FileId := { fid_ino : N; fid_dev : N; fid_size : N; fid_mtime_ns : N }.
Class Fs := {
  fs_canonicalize : string → option string;
  fs_is_symlink : string → bool;
  fs_identity : string → option FileId
}.

(** [Path::parent] and [Path::file_name] of a path in normal form. *)
Definition path_parent (p : string) : option string :=
  match rev (components p) with
  | [] | CRootDir :: _ => None
  | _ :: rest =>
      match rev rest with
      | CRootDir :: cs => Some ("/" +:+ join "/" (map comp_str cs))
      | cs => Some (join "/" (map comp_str cs))
      end
  end.
Definition path_file_name (p : string) : option string :=
  match rev (components p) with CNormal s :: _ => Some s | _ => None end.

(* SRC guard/src/pathfloor.rs @fn:canonicalize_no_follow canonicalize_no_follow *)
Definition canonicalize_no_follow {fs : Fs} (path : string) : string :=
  let norm := normalize_lexical path in
  match path_parent norm, path_file_name norm with
  | Some parent, Some leaf =>
      if is_empty parent then norm
      else
        let real_parent := default parent (fs_canonicalize parent) in
        normalize_lexical (trim_end_matches SLASH real_parent +:+ "/" +:+ leaf)
  | _, _ => norm
  end.

(* SRC guard/src/pathfloor.rs @fn:leaf_symlink_target leaf_symlink_target *)
Definition leaf_symlink_target {fs : Fs} (path : string) : option string :=
  let norm := normalize_lexical path in
  if fs_is_symlink norm then normalize_lexical <$> fs_canonicalize norm else None.

(* SRC guard/src/pathfloor.rs @fn:is_inside_root is_inside_root *)
Definition is_inside_root {fs : Fs} (path : string) (roots : list string) : bool :=
  let canonical := canonicalize_no_follow path in
  existsb (λ r, inside canonical (canonicalize_no_follow r)) roots.

(* SRC guard/src/pathfloor.rs @enum:FloorVerdict FloorVerdict *)
Inductive FloorVerdict := FAllowed | FParentEscape | FSymlinkEscape | FOutsideRoot.
#[export] Instance FloorVerdict_eq : EqDecision FloorVerdict.
Proof. solve_decision. Defined.

(** [norm.starts_with("../") || norm == ".."]. *)
Definition escapes (norm : string) : bool := starts_with "../" norm || String.eqb norm "..".

(* SRC guard/src/pathfloor.rs @fn:enforce_floor enforce_floor *)
Definition enforce_floor {fs : Fs} (path : string) (roots : list string) : FloorVerdict :=
  if is_empty path then FOutsideRoot
  else if escapes (normalize_lexical path) then FParentEscape
  else
    let canonical := canonicalize_no_follow path in
    if negb (existsb (λ r, inside canonical (canonicalize_no_follow r)) roots) then FOutsideRoot
    else
      match leaf_symlink_target path with
      | Some target =>
          if negb (existsb (λ r, inside target (canonicalize_no_follow r)) roots)
          then FSymlinkEscape else FAllowed
      | None => FAllowed
      end.

(** ** Grants *)

(* SRC guard/src/pathfloor.rs @enum:GrantAxis GrantAxis *)
Inductive GrantAxis :=
  | ReadOnlyRecursive | ReadWriteCreate | ReadWrite | AxCreate | Temporary | StatIntermediates.

(* SRC guard/src/pathfloor.rs @struct:PathGrant PathGrant *)
Record PathGrant := { axis : GrantAxis; grant_prefix : string }.

(* SRC guard/src/pathfloor.rs @enum:FsOp FsOp *)
Inductive FsOp := FsRead | FsWrite | FsCreate | FsDelete | FsStat | FsList.
#[export] Instance FsOp_eq : EqDecision FsOp.
Proof. solve_decision. Defined.

(* SRC guard/src/pathfloor.rs @fn:from_permissions_string PathGrant::from_permissions_string *)
Definition from_permissions_string (s : string) : option PathGrant :=
  '(ax, pre) ← split_once ":" s;
  ax ← (if String.eqb ax "read_only_recursive" then Some ReadOnlyRecursive
        else if String.eqb ax "read_write_create" then Some ReadWriteCreate
        else if String.eqb ax "read_write" then Some ReadWrite
        else if String.eqb ax "create" then Some AxCreate
        else if String.eqb ax "temporary" then Some Temporary
        else if String.eqb ax "stat" then Some StatIntermediates
        else None);
  if is_empty pre then None else Some {| axis := ax; grant_prefix := pre |}.

(** The [matches!] table of [PathGrant::allows]. *)
Definition axis_permits (a : GrantAxis) (op : FsOp) : bool :=
  match a, op with
  | ReadOnlyRecursive, (FsRead | FsStat | FsList) => true
  | ReadWriteCreate, (FsRead | FsWrite | FsCreate | FsStat | FsList) => true
  | ReadWrite, (FsRead | FsWrite | FsStat | FsList) => true
  | AxCreate, (FsCreate | FsStat) => true
  | Temporary, _ => true
  | StatIntermediates, (FsStat | FsList) => true
  | _, _ => false
  end.

(* SRC guard/src/pathfloor.rs @fn:allows PathGrant::allows *)
Definition grant_allows {fs : Fs} (self : PathGrant) (op : FsOp) (path : string) : bool :=
  if negb (inside (canonicalize_no_follow path) (canonicalize_no_follow (grant_prefix self))) then false
  else axis_permits (axis self) op.

(** ** Protected settings ([protected_paths.rs]) *)

(* SRC guard/src/protected_paths.rs @static:PROTECTED_PREFIXES PROTECTED_PREFIXES *)
Definition PROTECTED_PREFIXES : list string :=
  ["config.toml"; "risk_overrides.json"; "workspace_trust.json"; "permissions.toml"; ".everyaios/";
   ".claude/"; ".codex/"; ".gemini/"; ".cursor/"; ".windsurf/"; ".cline/"; ".roo/"; ".continue/";
   ".openclaw/"; ".aider/"; ".mcp.json"; ".env"; ".env.local"; ".env.production"; ".env.staging";
   ".ssh/"; ".aws/"; "id_rsa"; "id_ed25519"; "service_account.json"].

(* SRC guard/src/protected_paths.rs @fn:is_protected is_protected *)
Definition is_protected (canonical_path : string) : bool :=
  let normalized := replace_char "\" SLASH canonical_path in
  existsb (λ p, contains p normalized) PROTECTED_PREFIXES.

(** ** Read scopes *)

(* SRC guard/src/pathfloor.rs @enum:ScopeDenial ScopeDenial *)
Inductive ScopeDenial :=
  | SdUnusable | SdParentEscape | SdSymlinkEscape | SdOutsideScope | SdProtectedSubpath
  | SdIdentityDrift.

(* SRC guard/src/pathfloor.rs @fn:as_str ScopeDenial::as_str *)
Definition scope_denial_as_str (d : ScopeDenial) : string :=
  match d with
  | SdUnusable => "unusable"
  | SdParentEscape => "parent_escape"
  | SdSymlinkEscape => "symlink_escape"
  | SdOutsideScope => "outside_scope"
  | SdProtectedSubpath => "protected_subpath"
  | SdIdentityDrift => "identity_drift"
  end.

(* SRC guard/src/pathfloor.rs @struct:ReadScopeDenied ReadScopeDenied *)
Record ReadScopeDenied := { rsd_path : string; rsd_denial : ScopeDenial; rsd_reason : string }.

(* SRC guard/src/pathfloor.rs 400 406 ReadScopeDenied::new *)
Definition read_scope_denied (path : string) (denial : ScopeDenial) : ReadScopeDenied :=
  {| rsd_path := path; rsd_denial := denial; rsd_reason := scope_denial_as_str denial |}.

(* SRC guard/src/pathfloor.rs @struct:ReadTarget ReadTarget *)
Record ReadTarget := { requested : string; canonical : string; rt_op : FsOp }.

(* SRC guard/src/pathfloor.rs @struct:ReadScopes ReadScopes *)
Record ReadScopes := { grants : list PathGrant }.

(* SRC guard/src/pathfloor.rs @fn:default_root default_root *)
Definition default_root (path : string) : string :=
  match path_parent path with
  | Some parent => if is_empty parent then "." else parent
  | None => if rooted path then path else "."
  end.

(* SRC guard/src/pathfloor.rs @fn:from_permission_strings ReadScopes::from_permission_strings *)
Definition from_permission_strings (gs : list string) : ReadScopes :=
  {| grants := omap from_permissions_string gs |}.

(* SRC guard/src/pathfloor.rs @fn:is_configured ReadScopes::is_configured *)
Definition is_configured (self : ReadScopes) : bool :=
  match grants self with [] => false | _ => true end.

Definition is_read_op (op : FsOp) : bool :=
  match op with FsRead | FsList | FsStat => true | _ => false end.

(** The first half of [decide]: the scope test proper. *)
(* SRC guard/src/pathfloor.rs 530 576 ReadScopes::decide *)
Definition decide_scope {fs : Fs} (self : ReadScopes) (op : FsOp) (req canon : string)
    : result unit ReadScopeDenied :=
  if is_configured self then
    if negb (existsb (λ g, grant_allows g op canon) (grants self))
    then Err (read_scope_denied req SdOutsideScope)
    else if negb (is_read_op op) && is_protected canon
    then Err (read_scope_denied req SdProtectedSubpath)
    else Ok tt
  else if existsb (λ c, match c with CParentDir => true | _ => false end) (components req)
  then Err (read_scope_denied req SdParentEscape)
  else match enforce_floor canon [default_root canon] with
       | FAllowed => Ok tt
       | FParentEscape => Err (read_scope_denied req SdParentEscape)
       | FSymlinkEscape => Err (read_scope_denied req SdSymlinkEscape)
       | FOutsideRoot => Err (read_scope_denied req SdOutsideScope)
       end.

(* SRC guard/src/pathfloor.rs @fn:decide ReadScopes::decide *)
Definition decide_read {fs : Fs} (self : ReadScopes) (op : FsOp) (req canon : string)
    : result unit ReadScopeDenied :=
  _ <-? decide_scope self op req canon;;
  match leaf_symlink_target canon with
  | Some target =>
      let target_in_scope :=
        if is_configured self then existsb (λ g, grant_allows g op target) (grants self)
        else bool_decide (enforce_floor target [default_root target] = FAllowed) in
      if negb target_in_scope then Err (read_scope_denied req SdSymlinkEscape) else Ok tt
  | None => Ok tt
  end.

(* SRC guard/src/pathfloor.rs @fn:resolve ReadScopes::resolve *)
Definition resolve_read {fs : Fs} (self : ReadScopes) (op : FsOp) (path : string)
    : result ReadTarget ReadScopeDenied :=
  if is_empty path then Err (read_scope_denied path SdUnusable)
  else if escapes (normalize_lexical path) then Err (read_scope_denied path SdParentEscape)
  else
    let canon := canonicalize_no_follow path in
    _ <-? decide_read self op path canon;;
    Ok {| requested := path; canonical := canon; rt_op := op |}.

(* SRC guard/src/pathfloor.rs @fn:reverify ReadScopes::reverify *)
Definition reverify_read {fs : Fs} (self : ReadScopes) (target : ReadTarget)
    : result unit ReadScopeDenied :=
  if negb (String.eqb (canonicalize_no_follow (canonical target)) (canonical target))
  then Err (read_scope_denied (canonical target) SdIdentityDrift)
  else decide_read self (rt_op target) (requested target) (canonical target).

(** ** What an allowed path is *)

(** [std::fs::canonicalize] is documented to answer with an absolute path. *)
Class FsLaws (fs : Fs) : Prop := {
  fs_canonicalize_absolute p q : fs_canonicalize p = Some q → rooted q = true
}.

Lemma render_false_not_rooted cs : normal_comps false cs → rooted (render false cs) = false.
Proof.
  intros Hn. unfold render, rooted.
  assert (Hhd : ∀ s l, s ≠ "" → has_char SLASH s = false → starts_with "/" (join "/" (s :: l)) = false).
  { intros s l Hs Hsl. destruct s as [|x s]; [done|]. simpl in Hsl.
    apply orb_false_iff in Hsl as [Hx _]. apply Ascii.eqb_neq in Hx.
    destruct (starts_with "/" (join "/" (String x s :: l))) eqn:E; [|done].
    apply starts_with_spec in E as [r Hr]. simpl in Hr.
    destruct l; rewrite ?app_string_cons in Hr; injection Hr as ->; done. }
  destruct Hn as [H|(_ & cs' & -> & H)].
  - destruct H as [|c cs (s & -> & (H1 & H2 & _)) H]; [done|].
    cbn [map comp_str]. specialize (Hhd s (map comp_str cs) H1 H2).
    destruct (is_empty _); [done | exact Hhd].
  - cbn [map comp_str]. specialize (Hhd ".." (map comp_str cs') ltac:(done) ltac:(done)).
    destruct (is_empty _); [done | exact Hhd].
Qed.

Lemma rooted_normalize p : rooted (normalize_lexical p) = rooted p.
Proof.
  destruct (normalize_render p) as (cs & Hn & ->). destruct (rooted p); [|by apply render_false_not_rooted].
  rewrite render_abs. unfold rooted, abs_path. apply starts_with_spec. eauto.
Qed.

Lemma normalize_idempotent p : rooted p = true → normalize_lexical (normalize_lexical p) = normalize_lexical p.
Proof. intros Hp. destruct (normalize_absolute p Hp) as (_ & _ & _ & H). exact H. Qed.

(** The components of an absolute normal form are those it was made of. *)
Lemma inside_normalized p r :
  rooted p = true → rooted r = true → normalize_lexical p = p → normalize_lexical r = r →
  inside p r = true ↔ resolved r `prefix_of` resolved p.
Proof. intros Hp Hr Ep Er. rewrite <- (inside_iff_component_prefix p r) by done. by rewrite Ep, Er. Qed.

Lemma trim_end_matches_prefix c s : ∃ u, s = trim_end_matches c s +:+ u.
Proof.
  assert (Hd : ∀ t, ∃ u, t = u +:+ drop_matching c t).
  { induction t as [|x t [u IH]]; [by exists ""|]. simpl. destruct (Ascii.eqb x c).
    - exists (String x u). by rewrite app_string_cons, <- IH.
    - by exists "". }
  destruct (Hd (rev_string s)) as [u Hu]. exists (rev_string u). unfold trim_end_matches.
  rewrite <- rev_string_append, <- Hu. by rewrite rev_string_involutive.
Qed.

Lemma rooted_join s x : rooted s = true → rooted (trim_end_matches SLASH s +:+ "/" +:+ x) = true.
Proof.
  intros Hs. destruct (trim_end_matches_prefix SLASH s) as [u Hu].
  unfold rooted in *. apply starts_with_spec in Hs as [r Hr]. apply starts_with_spec.
  destruct (trim_end_matches SLASH s) as [|a t]; [by exists x|].
  rewrite Hu, !app_string_cons in Hr. injection Hr as -> _. exists (t +:+ "/" +:+ x). done.
Qed.

Lemma path_parent_rooted p q : rooted p = true → path_parent p = Some q → rooted q = true.
Proof.
  intros Hp. unfold path_parent, components. rewrite Hp. simpl.
  destruct (rev (omap piece (split SLASH p))) as [|c l] eqn:E; [done|]. simpl.
  assert (Hc : c ≠ CRootDir).
  { apply (omap_piece_not_root (split SLASH p)). apply list_elem_of_In, in_rev.
    rewrite E. by left. }
  rewrite rev_app_distr. simpl. intros H. assert (Some ("/" +:+ join "/" (map comp_str (rev l))) = Some q)
    as [= <-] by (by destruct c). apply starts_with_spec. eauto.
Qed.

Section floor.
Context {fs : Fs} {laws : FsLaws fs}.

Lemma canonicalize_absolute p :
  rooted p = true →
  rooted (canonicalize_no_follow p) = true
  ∧ normalize_lexical (canonicalize_no_follow p) = canonicalize_no_follow p.
Proof.
  intros Hp. unfold canonicalize_no_follow.
  assert (Hn : rooted (normalize_lexical p) = true) by by rewrite rooted_normalize.
  pose proof (normalize_idempotent p Hp) as Hi.
  destruct (path_parent (normalize_lexical p)) as [parent|] eqn:E; [|done].
  destruct (path_file_name (normalize_lexical p)) as [leaf|]; [|done].
  destruct (is_empty parent); [done|].
  assert (Hr : rooted (default parent (fs_canonicalize parent)) = true).
  { apply path_parent_rooted in E; [|done].
    destruct (fs_canonicalize parent) eqn:Ec; [|done]. by eapply fs_canonicalize_absolute. }
  split; [by rewrite rooted_normalize, rooted_join | by apply normalize_idempotent, rooted_join].
Qed.

Lemma leaf_target_absolute p t :
  leaf_symlink_target p = Some t → rooted t = true ∧ normalize_lexical t = t.
Proof.
  unfold leaf_symlink_target. destruct (fs_is_symlink _); [|done].
  destruct (fs_canonicalize (normalize_lexical p)) as [q|] eqn:E; simpl; [|done].
  intros [= <-]. apply fs_canonicalize_absolute in E.
  by rewrite rooted_normalize, normalize_idempotent.
Qed.

(** Component-wise containment in one of the roots. *)
Definition under_a_root (c : string) (roots : list string) : Prop :=
  ∃ r, r ∈ roots ∧ resolved (canonicalize_no_follow r) `prefix_of` resolved c.

Lemma inside_a_root c roots :
  rooted c = true → normalize_lexical c = c → Forall (λ r, rooted r = true) roots →
  existsb (λ r, inside c (canonicalize_no_follow r)) roots = true ↔ under_a_root c roots.
Proof.
  intros Hc Hn Hroots. rewrite existsb_exists. unfold under_a_root.
  setoid_rewrite <- list_elem_of_In. rewrite Forall_forall in Hroots.
  split; intros (r & Hr & Hi); exists r; (split; [done|]);
    destruct (canonicalize_absolute r (Hroots r Hr)); by apply inside_normalized.
Qed.

(** The floor lets an absolute path through exactly when its canonical
    form is, component by component, below a canonical root, and a leaf that
    is a resolvable symlink points below one too; every other path gets a
    refusal that says which of the two failed. *)
Theorem floor_verdict_spec path roots :
  rooted path = true → Forall (λ r, rooted r = true) roots →
  (enforce_floor path roots = FAllowed ↔
     under_a_root (canonicalize_no_follow path) roots
     ∧ ∀ t, leaf_symlink_target path = Some t → under_a_root t roots)
  ∧ (enforce_floor path roots = FOutsideRoot ↔
     ¬ under_a_root (canonicalize_no_follow path) roots)
  ∧ enforce_floor path roots ≠ FParentEscape.
Proof.
  intros Hp Hroots. destruct (canonicalize_absolute path Hp) as [Hc Hn].
  unfold enforce_floor.
  assert (is_empty path = false) as -> by by destruct path.
  assert (escapes (normalize_lexical path) = false) as ->.
  { destruct (normalize_absolute path Hp) as (l & _ & -> & _). unfold escapes.
    apply orb_false_iff. split; [|done]. destruct (starts_with _ _) eqn:E; [|done].
    apply starts_with_spec in E as [r Hr]. discriminate Hr. }
  pose proof (inside_a_root _ roots Hc Hn Hroots) as Hin.
  destruct (existsb _ roots) eqn:E; simpl.
  - assert (Hu : under_a_root (canonicalize_no_follow path) roots) by by apply Hin.
    destruct (leaf_symlink_target path) as [t|] eqn:Et.
    + destruct (leaf_target_absolute _ _ Et) as [Ht Htn].
      pose proof (inside_a_root t roots Ht Htn Hroots) as Htin.
      destruct (existsb (λ r, inside t _) roots); simpl.
      * split_and!; [|split; [done | by intros []] | done].
        split; [intros _ | done]. split; [done|]. intros ? [= <-]. by apply Htin.
      * split_and!; [|split; [done | by intros []] | done].
        split; [done|]. intros [_ Hall]. specialize (Hall t eq_refl). by apply Htin in Hall.
    + split_and!; [|split; [done | by intros []] | done]. split; [|done].
      intros _. by split.
  - assert (Hu : ¬ under_a_root (canonicalize_no_follow path) roots)
      by (intros Hu; apply Hin in Hu; congruence).
    split_and!; [|done | done]. split; [done|]. by intros [Hu' _].
Qed.

(** Under configured scopes a resolved target is covered by a grant of
    its operation's kind, a changing operation never targets a protected
    path, and a leaf symlink's target is covered as well. *)
Theorem resolved_target_is_in_scope self op path t :
  is_configured self = true → resolve_read self op path = Ok t →
  canonical t = canonicalize_no_follow path ∧ rt_op t = op
  ∧ (∃ g, g ∈ grants self ∧ axis_permits (axis g) op = true
          ∧ inside (canonicalize_no_follow (canonical t))
                   (canonicalize_no_follow (grant_prefix g)) = true)
  ∧ (is_read_op op = false → is_protected (canonical t) = false)
  ∧ ∀ s, leaf_symlink_target (canonical t) = Some s →
      ∃ g, g ∈ grants self ∧ axis_permits (axis g) op = true
           ∧ inside (canonicalize_no_follow s) (canonicalize_no_follow (grant_prefix g)) = true.
Proof.
  intros Hcfg. unfold resolve_read, decide_read, decide_scope. rewrite Hcfg.
  destruct (is_empty path); [done|]. destruct (escapes _); [done|].
  set (c := canonicalize_no_follow path).
  assert (Hg : ∀ p, existsb (λ g, grant_allows g op p) (grants self) = true →
            ∃ g, g ∈ grants self ∧ axis_permits (axis g) op = true
              ∧ inside (canonicalize_no_follow p) (canonicalize_no_follow (grant_prefix g)) = true).
  { intros p Hex. apply existsb_exists in Hex as (g & Hin & Ha). exists g.
    rewrite list_elem_of_In. unfold grant_allows in Ha.
    destruct (inside _ _); [by auto | done]. }
  destruct (existsb (λ g, grant_allows g op c) (grants self)) eqn:E; simpl; [|done].
  destruct (is_read_op op) eqn:Eo, (is_protected c) eqn:Ep; simpl; try done;
    (destruct (leaf_symlink_target c) as [s|] eqn:Es;
      [destruct (existsb (λ g, grant_allows g op s) (grants self)) eqn:Ess; simpl; [|done]|simpl]);
    intros [= <-]; simpl; (split_and!; [done | done | by apply Hg | by try congruence |]);
    intros s'; rewrite Es; intros [= <-]; by apply Hg.
Qed.

(** At the moment of resolution the re-check refuses nothing new but a
    drifted path: a resolved target is re-verified exactly when its canonical
    form is still its own canonical form. *)
Theorem reverify_after_resolve self op path t :
  resolve_read self op path = Ok t →
  reverify_read self t = Ok tt ↔ canonicalize_no_follow (canonical t) = canonical t.
Proof.
  unfold resolve_read, reverify_read. destruct (is_empty path); [done|].
  destruct (escapes _); [done|].
  destruct (decide_read self op path (canonicalize_no_follow path)) as [[]|e] eqn:E; simpl; [|done].
  intros [= <-]. simpl. destruct (String.eqb_spec (canonicalize_no_follow (canonicalize_no_follow path))
    (canonicalize_no_follow path)); simpl; [by rewrite E|]. split; [done | congruence].
Qed.
End floor.

(** ** A symlink that dangles *)

(** [/ws/link] is a symlink whose target does not exist yet. *)
Definition dangling_fs : Fs := {|
  fs_canonicalize := λ p, if String.eqb p "/ws/link" then None else Some (normalize_lexical p);
  fs_is_symlink := λ p, String.eqb p "/ws/link";
  fs_identity := λ _, None
|}.

(** The symlink check sees only links that resolve: a leaf link to a file
    that does not exist yet is let through, although writing to it creates the
    file wherever the link points. *)
Theorem dangling_symlink_is_allowed :
  @fs_is_symlink dangling_fs "/ws/link" = true
  ∧ @enforce_floor dangling_fs "/ws/link" ["/ws"] = FAllowed
  ∧ ∃ t, @resolve_read dangling_fs (from_permission_strings ["read_write_create:/ws"]) FsCreate
           "/ws/link" = Ok t.
Proof. split_and!; [reflexivity | vm_compute; reflexivity |]. eexists. vm_compute. reflexivity. Qed.

(** [/ws/note.txt] is a link to a settings file of the same workspace. *)
Definition linked_settings_fs : Fs := {|
  fs_canonicalize := λ p, if String.eqb p "/ws/note.txt" then Some "/ws/.everyaios/config.toml"
                          else Some (normalize_lexical p);
  fs_is_symlink := λ p, String.eqb p "/ws/note.txt";
  fs_identity := λ _, None
|}.

(** Protection is tested on the name asked for, not on the link's target: the
    settings file itself is refused to a writer, a link to it inside the same
    scope is not. *)
Theorem link_reaches_protected_settings :
  let scopes := from_permission_strings ["read_write:/ws"] in
  is_ok (@resolve_read linked_settings_fs scopes FsWrite "/ws/.everyaios/config.toml") = false
  ∧ is_ok (@resolve_read linked_settings_fs scopes FsWrite "/ws/note.txt") = true
  ∧ @leaf_symlink_target linked_settings_fs "/ws/note.txt" = Some "/ws/.everyaios/config.toml"
  ∧ is_protected "/ws/.everyaios/config.toml" = true.
Proof. split_and!; by vm_compute. Qed.

(** ** Witnesses *)

(** A tree without links in which every path resolves to itself. *)
Definition plain_fs : Fs := {|
  fs_canonicalize := λ p, if rooted p then Some (normalize_lexical p) else None;
  fs_is_symlink := λ _, false;
  fs_identity := λ _, None
|}.

Lemma plain_fs_laws : FsLaws plain_fs.
Proof.
  constructor. intros p q. simpl. destruct (rooted p) eqn:E; [|done].
  intros [= <-]. by rewrite rooted_normalize.
Qed.

Lemma floor_verdict_spec_witness :
  @enforce_floor plain_fs "/workspace-evil/x" ["/workspace"] ≠ FParentEscape
  ∧ @enforce_floor plain_fs "/workspace-evil/x" ["/workspace"] = FOutsideRoot.
Proof.
  split; [|vm_compute; reflexivity].
  apply (@floor_verdict_spec plain_fs plain_fs_laws); [reflexivity | by repeat constructor].
Defined.

Definition scratch_scope : ReadScopes :=
  from_permission_strings ["read_only_recursive:/docs"; "temporary:/tmp/x"; "bogus:/"].
Definition scratch_target : ReadTarget :=
  {| requested := "/tmp/x/../x/a.txt"; canonical := "/tmp/x/a.txt"; rt_op := FsDelete |}.

Lemma resolved_target_is_in_scope_witness :
  ∃ g, g ∈ grants scratch_scope ∧ axis_permits (axis g) FsDelete = true
       ∧ inside (@canonicalize_no_follow plain_fs "/tmp/x/a.txt")
                (@canonicalize_no_follow plain_fs (grant_prefix g)) = true.
Proof.
  refine (proj1 (proj2 (proj2 (@resolved_target_is_in_scope plain_fs scratch_scope FsDelete
    "/tmp/x/../x/a.txt" scratch_target _ _)))); vm_compute; reflexivity.
Defined.

Lemma reverify_after_resolve_witness :
  @reverify_read plain_fs scratch_scope scratch_target = Ok tt.
Proof.
  apply (@reverify_after_resolve plain_fs scratch_scope FsDelete "/tmp/x/../x/a.txt");
    vm_compute; reflexivity.
Defined.
