(* ===== verification/Egress.v ===== *)
(** * The URL floor and the egress engine ([urlfloor.rs], [egress.rs])

    A URL the [url] crate parses is checked by scheme, root and destination
    class; the egress engine plans a destination from its text. [None] is a
    panic of [classify_host]. *)
From S2P Require Import Prelude Paths PathFloor NetFloor.

(* SRC guard/src/urlfloor.rs @const:ALWAYS_ALLOWED ALWAYS_ALLOWED *)
Definition ALWAYS_ALLOWED : list string := ["http"; "https"].

(* SRC guard/src/urlfloor.rs @const:NEVER_ALLOWED NEVER_ALLOWED *)
Definition NEVER_ALLOWED : list string :=
  ["file"; "javascript"; "data"; "about"; "vbscript"; "smb"; "nfs"].

(* SRC guard/src/urlfloor.rs @enum:UrlVerdict UrlVerdict *)
Inductive UrlVerdict := UAllowed | USchemeBlocked | UOutsideRoots | UMalformed | UPrivateDestination.
#[export] Instance UrlVerdict_eq : EqDecision UrlVerdict.
Proof. solve_decision. Defined.

Section url_floor.
  Context {fs : Fs} {up : UrlParse}.

(* SRC guard/src/urlfloor.rs @fn:check_url_with_policy check_url_with_policy *)
Definition check_url_with_policy (url : string) (roots : list string) (policy : NetPolicy)
    : option UrlVerdict :=
  match url_parse url with
  | None => Some UMalformed
  | Some parsed =>
      let scheme := url_scheme parsed in
      if bool_decide (scheme ∈ NEVER_ALLOWED) then
        if String.eqb scheme "file" then
          match url_file_path parsed with
          | None => Some UMalformed
          | Some path =>
              let canonical := canonicalize_no_follow path in
              if existsb (λ r, inside canonical (canonicalize_no_follow r)) roots
              then Some UAllowed else Some UOutsideRoots
          end
        else Some USchemeBlocked
      else if bool_decide (scheme ∈ ALWAYS_ALLOWED) then
        match url_host parsed with
        | None => Some UMalformed
        | Some host =>
            class ← classify_url_host host;
            Some (if net_allows policy class then UAllowed else UPrivateDestination)
        end
      else Some USchemeBlocked
  end.

(* SRC guard/src/urlfloor.rs @fn:check_url check_url *)
Definition check_url (url : string) (roots : list string) : option UrlVerdict :=
  check_url_with_policy url roots net_default.

(* SRC guard/src/urlfloor.rs @fn:check_url_strict check_url_strict *)
Definition check_url_strict (url : string) (roots : list string) : option UrlVerdict :=
  check_url_with_policy url roots net_strict.

(* SRC guard/src/urlfloor.rs @fn:block_reason block_reason *)
Definition block_reason (url : string) (policy : NetPolicy) : option (option string) :=
  match url_parse url ≫= url_host with
  | None => Some None
  | Some host =>
      class ← classify_url_host host;
      Some (if net_allows policy class then None else Some (class_reason class))
  end.
End url_floor.

(** ** The engine *)

(* SRC guard/src/egress.rs @enum:ConnectivityMode ConnectivityMode *)
Inductive ConnectivityMode := Offline | Local | Byok | ThirdParty.

(* SRC guard/src/egress.rs @enum:EgressVerdict EgressVerdict *)
Inductive EgressVerdict := EAllow | ERedact | EDeny.

(* SRC guard/src/egress.rs @struct:EgressPlan EgressPlan *)
Record EgressPlan := {
  pl_destination : string;
  pl_kind : string;
  pl_model : option string;
  pl_reason : string;
  pl_verdict : EgressVerdict
}.

(* SRC guard/src/egress.rs @struct:EgressEngine EgressEngine *)
Record EgressEngine := {
  eg_mode : ConnectivityMode;
  eg_policy : NetPolicy;
  granted_hosts : list string;
  inventory : list EgressPlan
}.

(* SRC guard/src/egress.rs @fn:new EgressEngine::new *)
Definition egress_new (mode : ConnectivityMode) : EgressEngine :=
  {| eg_mode := mode; eg_policy := net_default; granted_hosts := []; inventory := [] |}.

(* SRC guard/src/egress.rs @fn:grant_host EgressEngine::grant_host *)
Definition grant_host (self : EgressEngine) (host : string) : EgressEngine :=
  let h := to_ascii_lowercase (trim host) in
  if negb (is_empty h) && negb (bool_decide (h ∈ granted_hosts self)) then
    {| eg_mode := eg_mode self; eg_policy := eg_policy self;
       granted_hosts := granted_hosts self ++ [h]; inventory := inventory self |}
  else self.

(** The text up to the first byte of [stops]. *)
Fixpoint take_until (stops : list ascii) (s : string) : string :=
  match s with
  | String c s' => if bool_decide (c ∈ stops) then "" else String c (take_until stops s')
  | EmptyString => ""
  end.

(* SRC guard/src/egress.rs @fn:host_of host_of *)
Definition host_of (destination : string) : option string :=
  rest ← match strip_prefix "http://" destination with
         | Some r => Some r
         | None => strip_prefix "https://" destination
         end;
  let authority := take_until ["/"; "?"; "#"]%char rest in
  let authority := default authority (last (split "@" authority)) in
  match strip_prefix "[" authority with
  | Some stripped =>
      (λ h, drop_matching "[" h) <$> head (split "]" stripped)
  | None => Some (default authority (head (split ":" authority)))
  end.

(* SRC guard/src/egress.rs @fn:grant_url EgressEngine::grant_url *)
Definition grant_url (self : EgressEngine) (url : string) : EgressEngine :=
  match host_of url with Some host => grant_host self host | None => self end.

(* SRC guard/src/egress.rs @fn:is_granted EgressEngine::is_granted *)
Definition is_granted (self : EgressEngine) (destination : string) : bool :=
  match host_of destination with
  | None => false
  | Some host => bool_decide (to_ascii_lowercase host ∈ granted_hosts self)
  end.

(** [Some None]: no class; [None]: the classification panics. *)
(* SRC guard/src/egress.rs @fn:destination_class destination_class *)
Definition destination_class (destination : string) : option (option NetClass) :=
  match host_of destination with
  | None => Some None
  | Some host => if is_empty host then Some None else Some <$> classify_host host
  end.

(* SRC guard/src/egress.rs @fn:verdict_for_with_policy EgressEngine::verdict_for_with_policy *)
Definition verdict_for_with_policy {fs : Fs} {up : UrlParse} (self : EgressEngine)
    (destination kind : string) (roots : list string) (policy : NetPolicy) : option EgressVerdict :=
  class ← destination_class destination;
  if match class with Some c => negb (net_allows net_local c) | None => false end then Some EDeny
  else if is_granted self destination then Some EAllow
  else
    let http := starts_with "http" destination in
    match eg_mode self with
    | Offline => Some (if String.eqb kind "network" || http then EDeny else EAllow)
    | Local =>
        Some (if starts_with "http://127.0.0.1" destination
                 || starts_with "http://localhost" destination || String.eqb kind "local"
              then EAllow
              else if http then EDeny else EAllow)
    | Byok =>
        if http then
          v ← check_url_with_policy destination roots policy;
          Some (match v with UAllowed => EAllow | _ => EDeny end)
        else Some EAllow
    | ThirdParty =>
        v ← check_url_with_policy destination roots policy;
        Some (match v with UAllowed => EAllow | _ => EDeny end)
    end.

(* SRC guard/src/egress.rs @fn:plan_with_policy EgressEngine::plan_with_policy *)
Definition plan_with_policy {fs : Fs} {up : UrlParse} (self : EgressEngine)
    (destination kind : string) (model : option string) (reason : string) (roots : list string)
    (policy : NetPolicy) : option (EgressPlan * EgressEngine) :=
  verdict ← verdict_for_with_policy self destination kind roots policy;
  let plan := {| pl_destination := destination; pl_kind := kind; pl_model := model;
                 pl_reason := reason; pl_verdict := verdict |} in
  Some (plan, {| eg_mode := eg_mode self; eg_policy := eg_policy self;
                 granted_hosts := granted_hosts self; inventory := inventory self ++ [plan] |}).

(* SRC guard/src/egress.rs @fn:plan EgressEngine::plan *)
Definition plan {fs : Fs} {up : UrlParse} (self : EgressEngine) (destination kind : string)
    (model : option string) (reason : string) (roots : list string)
    : option (EgressPlan * EgressEngine) :=
  plan_with_policy self destination kind model reason roots (eg_policy self).

(* SRC guard/src/egress.rs @fn:set_mode EgressEngine::set_mode *)
Definition set_mode (self : EgressEngine) (mode : ConnectivityMode) : EgressEngine :=
  {| eg_mode := mode; eg_policy := eg_policy self; granted_hosts := granted_hosts self;
     inventory := inventory self |}.

(** ** The URL floor *)

(** A URL is fetchable exactly when it is an [http(s)] URL whose host the
    policy allows or a [file] URL whose path is inside a root; no policy and no
    root makes a script, data or share scheme fetchable. *)
Theorem url_allowed_iff {fs : Fs} {up : UrlParse} url roots policy :
  check_url_with_policy url roots policy = Some UAllowed ↔
  ∃ u, url_parse url = Some u ∧
    ((url_scheme u = "file" ∧ ∃ p, url_file_path u = Some p ∧ is_inside_root p roots = true)
     ∨ ((url_scheme u = "http" ∨ url_scheme u = "https")
        ∧ ∃ h c, url_host u = Some h ∧ classify_url_host h = Some c ∧ net_allows policy c = true)).
Proof.
  unfold check_url_with_policy. destruct (url_parse url) as [u|]; [|naive_solver].
  destruct (decide (url_scheme u = "file")) as [Hf|Hf].
  { rewrite Hf. simpl. unfold is_inside_root. destruct (url_file_path u) as [p|] eqn:Ep.
    - destruct (existsb _ roots) eqn:E; (split; [try done|]).
      + intros _. exists u. split; [done|]. left. eauto.
      + done.
      + intros (u' & Hu & [(_ & p' & Hp & Hi)|([H|H] & _)]); simplify_eq; congruence.
    - split; [done|]. intros (u' & Hu & [(_ & p' & Hp & Hi)|([H|H] & _)]); simplify_eq; congruence. }
  destruct (decide (url_scheme u = "http" ∨ url_scheme u = "https")) as [Hh|Hh].
  - assert (bool_decide (url_scheme u ∈ NEVER_ALLOWED) = false) as -> by by destruct Hh as [-> | ->].
    assert (bool_decide (url_scheme u ∈ ALWAYS_ALLOWED) = true) as -> by by destruct Hh as [-> | ->].
    destruct (url_host u) as [h|] eqn:Eh; [|split; [done|]; intros (u' & Hu & [[? _]|(_ & ? & ? & ? & _)]); naive_solver congruence].
    destruct (classify_url_host h) as [c|] eqn:Ec; simpl;
      [|split; [done|]; intros (u' & Hu & [[? _]|(_ & ? & ? & ? & ? & _)]); naive_solver congruence].
    destruct (net_allows policy c) eqn:Ea; split; try done.
    + intros _. exists u. split; [done|]. right. split; [done|]. eauto.
    + intros (u' & Hu & [[? _]|(_ & ? & ? & ? & ? & ?)]); naive_solver congruence.
  - split; [|intros (u' & Hu & [[? _]|[? _]]); injection Hu as <-; done].
    destruct (String.eqb_spec (url_scheme u) "file"); [done|].
    destruct (bool_decide (url_scheme u ∈ NEVER_ALLOWED)); [done|].
    destruct (bool_decide_reflect (url_scheme u ∈ ALWAYS_ALLOWED)) as [Ha|]; [|done].
    exfalso. apply Hh. unfold ALWAYS_ALLOWED in Ha. set_solver.
Qed.

(** ** The egress engine *)

(** In the third-party mode a destination whose host the engine reads
    from its text is allowed only when the user granted that host or the URL
    floor passes it; and a host of the hard floor is denied in every mode, to
    every policy and whatever the user granted. *)
Theorem egress_third_party_allows {fs : Fs} {up : UrlParse} self destination kind roots policy :
  (eg_mode self = ThirdParty →
   verdict_for_with_policy self destination kind roots policy = Some EAllow →
   is_granted self destination = true
   ∨ check_url_with_policy destination roots policy = Some UAllowed)
  ∧ (∀ c, destination_class destination = Some (Some c) → hard_floor c = true →
     verdict_for_with_policy self destination kind roots policy = Some EDeny).
Proof.
  unfold verdict_for_with_policy. split.
  - intros Hm. rewrite Hm. destruct (destination_class destination) as [c|]; [|done].
    simpl. case_match; [done|]. destruct (is_granted self destination); [by left|].
    destruct (check_url_with_policy destination roots policy) as [[]|]; simpl; try done. by right.
  - intros c Hc Hf. rewrite Hc. simpl. by rewrite hard_floor_never_allowed.
Qed.

(** Every plan is on the inventory, in order, with the verdict its caller
    got; planning changes nothing else. *)
Theorem plans_are_inventoried {fs : Fs} {up : UrlParse} self destination kind model reason roots policy p self' :
  plan_with_policy self destination kind model reason roots policy = Some (p, self') →
  inventory self' = inventory self ++ [p]
  ∧ verdict_for_with_policy self destination kind roots policy = Some (pl_verdict p)
  ∧ pl_destination p = destination
  ∧ eg_mode self' = eg_mode self ∧ eg_policy self' = eg_policy self
  ∧ granted_hosts self' = granted_hosts self.
Proof.
  unfold plan_with_policy. destruct (verdict_for_with_policy _ _ _ _ _) as [v|]; simpl; [|done].
  by intros [= <- <-].
Qed.

(** The local mode is left by name: a public host whose name begins with
    the loopback address or [localhost] is allowed, because the test is on the
    first characters of the destination and not on its host. *)
Theorem local_mode_prefix_bypass {fs : Fs} {up : UrlParse} :
  let self := egress_new Local in
  verdict_for_with_policy self "http://127.0.0.1.evil.example/x" "web" [] net_strict = Some EAllow
  ∧ verdict_for_with_policy self "http://localhost@evil.example/x" "web" [] net_strict = Some EAllow
  ∧ host_of "http://127.0.0.1.evil.example/x" = Some "127.0.0.1.evil.example"
  ∧ host_of "http://localhost@evil.example/x" = Some "evil.example"
  ∧ classify_host "127.0.0.1.evil.example" = Some Public
  ∧ classify_host "evil.example" = Some Public.
Proof. vm_compute. auto 10. Qed.

(** The hard floor is not under every mode: a metadata URL with its
    scheme in capitals has no host for the engine and no [http] prefix, so every
    mode but the third-party one allows it. *)
Theorem capital_scheme_skips_the_floor {fs : Fs} {up : UrlParse} mode :
  mode ≠ ThirdParty →
  verdict_for_with_policy (egress_new mode) "HTTP://169.254.169.254/latest/meta-data" "web" []
    net_strict = Some EAllow
  ∧ classify_host "169.254.169.254" = Some LinkLocal.
Proof. intros Hm. by destruct mode. Qed.

(** A backslash ends the authority for the [url] crate but not for [host_of]:
    the engine reads the granted host after the at sign. *)
Example backslash_reads_another_host :
  host_of "http://169.254.169.254\@localhost/" = Some "localhost".
Proof. vm_compute. reflexivity. Qed.

(** A destination with a two-byte character before a short tail aborts the plan. *)
Example plan_panics {fs : Fs} {up : UrlParse} :
  verdict_for_with_policy (egress_new ThirdParty)
    ("http://a" +:+ String (ascii_of_N 195) (String (ascii_of_N 169) "aaa/")) "web" [] net_default
  = None.
Proof. vm_compute. reflexivity. Qed.

(** ** Witnesses *)

(** A parser that knows one URL. *)
Definition one_url : UrlParse := {|
  url_parse := λ s, if String.eqb s "https://example.com/" then
    Some {| url_scheme := "https"; url_host := Some (HDomain "example.com");
            url_file_path := None; url_text := s; url_host_str := Some "example.com";
            url_port_or_default := Some 443%N |} else None |}.

Lemma egress_third_party_allows_witness :
  is_granted (egress_new ThirdParty) "https://example.com/" = true
  ∨ @check_url_with_policy plain_fs one_url "https://example.com/" [] net_strict = Some UAllowed.
Proof.
  refine (proj1 (@egress_third_party_allows plain_fs one_url (egress_new ThirdParty)
    "https://example.com/" "web" [] net_strict) _ _); vm_compute; reflexivity.
Defined.

Definition one_plan : EgressPlan := {|
  pl_destination := "https://example.com/"; pl_kind := "web"; pl_model := None;
  pl_reason := "search"; pl_verdict := EAllow |}.
Lemma plans_are_inventoried_witness :
  inventory {| eg_mode := ThirdParty; eg_policy := net_default; granted_hosts := [];
               inventory := [one_plan] |}
  = inventory (egress_new ThirdParty) ++ [one_plan].
Proof.
  refine (proj1 (@plans_are_inventoried plain_fs one_url (egress_new ThirdParty)
    "https://example.com/" "web" None "search" [] net_strict one_plan _ _)).
  vm_compute. reflexivity.
Defined.

Lemma capital_scheme_skips_the_floor_witness :
  @verdict_for_with_policy plain_fs one_url (egress_new Byok)
    "HTTP://169.254.169.254/latest/meta-data" "web" [] net_strict = Some EAllow.
Proof. apply (@capital_scheme_skips_the_floor plain_fs one_url Byok). discriminate. Defined.
