(* ===== verification/Toctou.v ===== *)
(** * Binding a ticket to resources ([everyaios-guard/src/toctou.rs])

    A resource's identity is captured at one moment and checked at another: each
    operation runs against the filesystem ([Fs]) or resolver ([Dns]) of its own
    moment. *)
From S2P Require Import Prelude Binding Ticket Paths PathFloor NetFloor Egress.

(* SRC guard/src/toctou.rs @enum:ToctouError ToctouError *)
Inductive ToctouError :=
  | TFloor (verdict : string)
  | TIdentityDrift (path : string)
  | TParentDrift (path : string)
  | TUrl (why : string)
  | TBlockedIp (ip : string)
  | TRebind (host ip : string)
  | TDns (host message : string)
  | TDigestMismatch.

(** [format!("{other:?}")]. *)
Definition floor_debug (v : FloorVerdict) : string :=
  match v with
  | FAllowed => "Allowed"
  | FParentEscape => "ParentEscape"
  | FSymlinkEscape => "SymlinkEscape"
  | FOutsideRoot => "OutsideRoot"
  end.
Definition url_debug (v : UrlVerdict) : string :=
  match v with
  | UAllowed => "Allowed"
  | USchemeBlocked => "SchemeBlocked"
  | UOutsideRoots => "OutsideRoots"
  | UMalformed => "Malformed"
  | UPrivateDestination => "PrivateDestination"
  end.

(** [match enforce_floor(..) { Allowed => {}, other => return Err(Floor(..)) }]. *)
Definition require_floor {fs : Fs} (path : string) (roots : list string) : result unit ToctouError :=
  match enforce_floor path roots with
  | FAllowed => Ok tt
  | other => Err (TFloor (floor_debug other))
  end.

(* SRC guard/src/toctou.rs @fn:bind_path bind_path *)
Definition bind_path {fs : Fs} (path : string) (roots : list string) : result FileBinding ToctouError :=
  _ <-? require_floor path roots;;
  let canon := canonicalize_no_follow path in
  let parent := default canon (path_parent canon) in
  let file_id := fs_identity canon in
  let parent_id := fs_identity parent in
  Ok {| fb_canonical := canon; fb_parent_canonical := parent;
        fb_ino := fid_ino <$> file_id; fb_dev := fid_dev <$> file_id;
        fb_size := fid_size <$> file_id; fb_mtime_ns := fid_mtime_ns <$> file_id;
        fb_parent_ino := fid_ino <$> parent_id; fb_parent_dev := fid_dev <$> parent_id |}.

(** [if let (Some(ino), Some(dev)) = .. { identity_of(..) must agree }]. *)
Definition same_identity {fs : Fs} (ino dev : option N) (path : string) (drift : ToctouError)
    : result unit ToctouError :=
  match ino, dev with
  | Some ino, Some dev =>
      match fs_identity path with
      | None => Err drift
      | Some cur => if negb (fid_ino cur =? ino)%N || negb (fid_dev cur =? dev)%N
                    then Err drift else Ok tt
      end
  | _, _ => Ok tt
  end.

(* SRC guard/src/toctou.rs @fn:reverify_path reverify_path *)
Definition reverify_path {fs : Fs} (b : FileBinding) (roots : list string) : result unit ToctouError :=
  _ <-? require_floor (fb_canonical b) roots;;
  if negb (String.eqb (canonicalize_no_follow (fb_canonical b)) (fb_canonical b))
  then Err (TIdentityDrift (fb_canonical b))
  else
    _ <-? same_identity (fb_ino b) (fb_dev b) (fb_canonical b) (TIdentityDrift (fb_canonical b));;
    same_identity (fb_parent_ino b) (fb_parent_dev b) (fb_parent_canonical b)
                  (TParentDrift (fb_parent_canonical b)).

(** ** Network destinations *)

(** [ToSocketAddrs::to_socket_addrs] at one moment, ports dropped, and the
    textual form of an address. *)
Class Dns := {
  to_socket_addrs : string → N → result (list IpAddr) string;
  ip_to_string : IpAddr → string;
  url_parse_error : string → string
}.

#[export] Instance Ipv4_eq : EqDecision Ipv4.
Proof. solve_decision. Defined.
#[export] Instance IpAddr_eq : EqDecision IpAddr.
Proof. unfold EqDecision, Decision, Ipv6. repeat decide equality. Defined.

(* SRC guard/src/toctou.rs @fn:resolve_ips resolve_ips *)
Definition resolve_ips {dns : Dns} (host : string) (port : N) : result (list IpAddr) ToctouError :=
  match to_socket_addrs host port with
  | Err message => Err (TDns host message)
  | Ok addrs =>
      let push acc ip := if bool_decide (ip ∈ acc) then acc else acc ++ [ip] in
      match fold_left push addrs [] with
      | [] => Err (TDns host "resolver returned no addresses")
      | ips => Ok ips
      end
  end.

(** The loop over the resolved addresses: the first refused one is an error. *)
Fixpoint check_ips (policy : NetPolicy) (refuse : IpAddr → ToctouError) (ips : list IpAddr)
    : result unit ToctouError :=
  match ips with
  | [] => Ok tt
  | ip :: rest =>
      if negb (net_allows policy (classify_ip ip)) then Err (refuse ip)
      else check_ips policy refuse rest
  end.

Section network.
  Context {fs : Fs} {up : UrlParse} {dns : Dns}.

(** The scheme and destination check both operations begin with; [None] is a
    panic of the classifier. *)
Definition require_url (url : string) (roots : list string) (policy : NetPolicy)
    : option (result unit ToctouError) :=
  v ← check_url_with_policy url roots policy;
  Some (match v with UAllowed => Ok tt | other => Err (TUrl (url_debug other)) end).

(* SRC guard/src/toctou.rs @fn:bind_url_with_policy bind_url_with_policy *)
Definition bind_url_with_policy (url : string) (roots : list string) (policy : NetPolicy)
    : option (result NetBinding ToctouError) :=
  checked ← require_url url roots policy;
  Some (
    _ <-? checked;;
    match url_parse url with
    | None => Err (TUrl (url_parse_error url))
    | Some parsed =>
        let host := default "" (url_host_str parsed) in
        if is_empty host then
          Ok {| nb_url := url_text parsed; nb_host := host; nb_resolved_ips := [] |}
        else
          ips <-? resolve_ips host (default 80%N (url_port_or_default parsed));;
          _ <-? check_ips policy (λ ip, TBlockedIp (ip_to_string ip)) ips;;
          Ok {| nb_url := url_text parsed; nb_host := host;
                nb_resolved_ips := map ip_to_string ips |}
    end).

(* SRC guard/src/toctou.rs @fn:bind_url bind_url *)
Definition bind_url (url : string) (roots : list string) : option (result NetBinding ToctouError) :=
  bind_url_with_policy url roots net_default.

(* SRC guard/src/toctou.rs @fn:reverify_url_with_policy reverify_url_with_policy *)
Definition reverify_url_with_policy (b : NetBinding) (roots : list string) (policy : NetPolicy)
    : option (result unit ToctouError) :=
  checked ← require_url (nb_url b) roots policy;
  Some (
    _ <-? checked;;
    if is_empty (nb_host b) then Ok tt
    else
      ips <-? resolve_ips (nb_host b) (default 80%N (url_parse (nb_url b) ≫= url_port_or_default));;
      check_ips policy (λ ip, TRebind (nb_host b) (ip_to_string ip)) ips).

(* SRC guard/src/toctou.rs @fn:reverify_url reverify_url *)
Definition reverify_url (b : NetBinding) (roots : list string) : option (result unit ToctouError) :=
  reverify_url_with_policy b roots net_default.
End network.

(* SRC guard/src/toctou.rs @fn:bind_exec_bytes bind_exec_bytes *)
Definition bind_exec_bytes {sha : Sha256} (data : string) : ExecBinding :=
  {| eb_digest_sha256 := sha256_hex data |}.

(* SRC guard/src/toctou.rs @fn:reverify_exec reverify_exec *)
Definition reverify_exec {sha : Sha256} (b : ExecBinding) (data : string) : result unit ToctouError :=
  if negb (String.eqb (eb_digest_sha256 (bind_exec_bytes data)) (eb_digest_sha256 b))
  then Err TDigestMismatch else Ok tt.

(* SRC guard/src/toctou.rs @fn:is_blocked_ip is_blocked_ip *)
Definition is_blocked_ip (ip : IpAddr) : bool := is_always_blocked ip.

(** ** Files *)

Lemma same_identity_ok_iff {fs : Fs} (bound : option FileId) path drift :
  same_identity (fid_ino <$> bound) (fid_dev <$> bound) path drift = Ok tt ↔
  ∀ was, bound = Some was →
    ∃ now, fs_identity path = Some now ∧ fid_ino now = fid_ino was ∧ fid_dev now = fid_dev was.
Proof.
  unfold same_identity. destruct bound as [was|]; simpl; [|naive_solver].
  destruct (fs_identity path) as [cur|]; simpl; [|naive_solver].
  destruct (N.eqb_spec (fid_ino cur) (fid_ino was)), (N.eqb_spec (fid_dev cur) (fid_dev was));
    simpl; naive_solver.
Qed.

(** What was bound at one moment is accepted at a later one exactly when
    the floor still allows the path, it still resolves to itself, and the file
    and its parent - as far as they existed at bind time - are the same inodes
    on the same devices. *)
Theorem reverify_path_iff (fs1 fs2 : Fs) path roots roots' b :
  @bind_path fs1 path roots = Ok b →
  @reverify_path fs2 b roots' = Ok tt ↔
  @enforce_floor fs2 (fb_canonical b) roots' = FAllowed
  ∧ @canonicalize_no_follow fs2 (fb_canonical b) = fb_canonical b
  ∧ (∀ was, @fs_identity fs1 (fb_canonical b) = Some was →
       ∃ now, @fs_identity fs2 (fb_canonical b) = Some now
              ∧ fid_ino now = fid_ino was ∧ fid_dev now = fid_dev was)
  ∧ (∀ was, @fs_identity fs1 (fb_parent_canonical b) = Some was →
       ∃ now, @fs_identity fs2 (fb_parent_canonical b) = Some now
              ∧ fid_ino now = fid_ino was ∧ fid_dev now = fid_dev was).
Proof.
  unfold bind_path. destruct (@require_floor fs1 path roots) as [[]|e]; simpl; [|done].
  intros [= <-]. unfold reverify_path, require_floor. simpl.
  set (c := @canonicalize_no_follow fs1 path). set (par := default c (path_parent c)).
  rewrite <- !(same_identity_ok_iff _ _ (TIdentityDrift c)).
  destruct (@enforce_floor fs2 c roots'); simpl; try (split; [done | by intros [? _]]).
  destruct (String.eqb_spec (@canonicalize_no_follow fs2 c) c); simpl;
    [|split; [done | by intros (_ & ? & _)]].
  destruct (@same_identity fs2 (fid_ino <$> @fs_identity fs1 c) _ c _) as [[]|err] eqn:Ef; simpl;
    [|split; [done | by intros (_ & _ & ? & _)]].
  rewrite !same_identity_ok_iff. split; [auto | by intros (_ & _ & _ & ?)].
Qed.

(** The size and the modification time that are captured with a file are
    never compared: overwriting it in place goes unnoticed, whatever the new
    size and time. *)
Theorem reverify_ignores_size_and_mtime {fs : Fs} b roots size mtime :
  reverify_path {| fb_canonical := fb_canonical b; fb_parent_canonical := fb_parent_canonical b;
                   fb_ino := fb_ino b; fb_dev := fb_dev b; fb_size := size; fb_mtime_ns := mtime;
                   fb_parent_ino := fb_parent_ino b; fb_parent_dev := fb_parent_dev b |} roots
  = reverify_path b roots.
Proof. reflexivity. Qed.

(** ** Destinations *)

Lemma check_ips_ok_iff policy refuse ips :
  check_ips policy refuse ips = Ok tt ↔ Forall (λ ip, net_allows policy (classify_ip ip) = true) ips.
Proof.
  induction ips as [|ip ips IH]; simpl; [by split|]. rewrite Forall_cons.
  destruct (net_allows policy (classify_ip ip)); simpl; [rewrite IH; naive_solver | naive_solver].
Qed.

Lemma dedup_elem (addrs acc : list IpAddr) ip :
  ip ∈ fold_left (λ acc ip, if bool_decide (ip ∈ acc) then acc else acc ++ [ip]) addrs acc
  ↔ ip ∈ acc ∨ ip ∈ addrs.
Proof.
  revert acc. induction addrs as [|a addrs IH]; intros acc; simpl.
  - rewrite elem_of_nil. tauto.
  - rewrite IH. destruct (bool_decide_reflect (a ∈ acc)); rewrite ?elem_of_app, !elem_of_cons, ?elem_of_nil;
      [|tauto]. split; [tauto|]. intros [?|[->|?]]; auto.
Qed.

Lemma resolve_ips_ok {dns : Dns} host port ips :
  resolve_ips host port = Ok ips →
  ips ≠ [] ∧ ∃ addrs, to_socket_addrs host port = Ok addrs ∧ ∀ ip, ip ∈ ips ↔ ip ∈ addrs.
Proof.
  unfold resolve_ips. destruct (to_socket_addrs host port) as [addrs|m]; [|done].
  pose proof (dedup_elem addrs []) as H. destruct (fold_left _ addrs []) as [|x l]; [done|].
  intros [= <-]. split; [done|]. exists addrs. split; [done|]. intros ip. rewrite H, elem_of_nil. tauto.
Qed.

(** A re-verified destination is clean at that moment: the URL floor
    passes it and, when it has a host, the resolver answered with at least one
    address and every address it answered is one the policy allows - so never
    one of the hard floor. *)
Theorem reverified_url_is_clean {fs : Fs} {up : UrlParse} {dns : Dns} b roots policy :
  reverify_url_with_policy b roots policy = Some (Ok tt) →
  check_url_with_policy (nb_url b) roots policy = Some UAllowed
  ∧ (nb_host b ≠ "" →
     ∃ addrs, to_socket_addrs (nb_host b)
                (default 80%N (url_parse (nb_url b) ≫= url_port_or_default)) = Ok addrs
       ∧ addrs ≠ []
       ∧ ∀ ip, ip ∈ addrs → net_allows policy (classify_ip ip) = true ∧ is_blocked_ip ip = false).
Proof.
  unfold reverify_url_with_policy, require_url.
  destruct (check_url_with_policy (nb_url b) roots policy) as [[]|]; simpl; try done.
  intros [= H]. split; [done|]. intros Hh. destruct (nb_host b) as [|c h] eqn:E; [done|].
  simpl in H. destruct (resolve_ips _ _) as [ips|e] eqn:Er; simpl in H; [|done].
  apply resolve_ips_ok in Er as (Hne & addrs & Ha & Hin). apply check_ips_ok_iff in H.
  rewrite Forall_forall in H. exists addrs. split_and!; [done | |].
  - intros ->. destruct ips as [|x l]; [done|].
    apply (not_elem_of_nil x), Hin. by left.
  - intros ip Hip. apply Hin in Hip. specialize (H ip Hip). split; [done|].
    unfold is_blocked_ip, is_always_blocked. by destruct (classify_ip ip).
Qed.

(** Re-verifying an executable accepts the bytes that were bound and
    nothing else, short of an explicit SHA-256 collision. *)
Theorem reverify_exec_binds {sha : Sha256} bound now :
  reverify_exec (bind_exec_bytes bound) bound = Ok tt
  ∧ (reverify_exec (bind_exec_bytes bound) now = Ok tt → now = bound ∨ collides now bound).
Proof.
  unfold reverify_exec, bind_exec_bytes. simpl. rewrite String.eqb_refl. split; [done|].
  destruct (String.eqb_spec (sha256_hex now) (sha256_hex bound)) as [He|]; [|done].
  intros _. by apply sha256_eq_or_collides.
Qed.

(** ** Witnesses *)

(** A tree in which [/ws/a] is inode 7 and everything else inode 1. *)
Definition inode_fs (ino : N) : Fs := {|
  fs_canonicalize := λ p, Some (normalize_lexical p);
  fs_is_symlink := λ _, false;
  fs_identity := λ p, Some {| fid_ino := if String.eqb p "/ws/a" then ino else 1;
                              fid_dev := 1; fid_size := 3; fid_mtime_ns := 9 |}
|}.
Definition bound_a : FileBinding := {|
  fb_canonical := "/ws/a"; fb_parent_canonical := "/ws"; fb_ino := Some 7%N; fb_dev := Some 1%N;
  fb_size := Some 3%N; fb_mtime_ns := Some 9%N; fb_parent_ino := Some 1%N;
  fb_parent_dev := Some 1%N |}.

Lemma reverify_path_iff_witness :
  @reverify_path (inode_fs 7) bound_a ["/ws"] = Ok tt
  ∧ @reverify_path (inode_fs 8) bound_a ["/ws"] = Err (TIdentityDrift "/ws/a").
Proof.
  split; [|vm_compute; reflexivity].
  apply (reverify_path_iff (inode_fs 7) (inode_fs 7) "/ws/x/../a" ["/ws"] ["/ws"] bound_a);
    [vm_compute; reflexivity|].
  split_and!; [vm_compute; reflexivity | vm_compute; reflexivity | |];
    intros was [= <-]; eexists; vm_compute; split_and!; reflexivity.
Defined.

(** A resolver for which every name is one public address. *)
Definition public_dns : Dns := {|
  to_socket_addrs := λ _ _, Ok [V4 (ip4 93 184 216 34); V4 (ip4 93 184 216 34)];
  ip_to_string := λ _, "93.184.216.34";
  url_parse_error := λ _, "relative URL without a base"
|}.
Definition example_binding : NetBinding := {|
  nb_url := "https://example.com/"; nb_host := "example.com"; nb_resolved_ips := ["93.184.216.34"] |}.

Lemma reverified_url_is_clean_witness :
  @check_url_with_policy plain_fs one_url "https://example.com/" [] net_strict = Some UAllowed.
Proof.
  refine (proj1 (@reverified_url_is_clean plain_fs one_url public_dns example_binding [] net_strict _)).
  vm_compute. reflexivity.
Defined.

Lemma reverify_exec_binds_witness :
  @reverify_exec plain_digest (@bind_exec_bytes plain_digest "ls") "ls" = Ok tt
  ∧ ("ls" = "ls" ∨ @collides plain_digest "ls" "ls").
Proof.
  split; [reflexivity|]. refine (proj2 (@reverify_exec_binds plain_digest "ls" "ls") _). reflexivity.
Defined.
