(* ===== verification/Worker.v ===== *)
(** * Confining a worker ([everyaios-guard/src/path_seal.rs], [seccomp.rs])

    The unveil/seal state machine of a script worker and the declarative
    system-call filter. Installing either in the kernel is not modelled. *)
From S2P Require Import Prelude Paths PathFloor.

(** ** The path seal *)

(* SRC guard/src/path_seal.rs @enum:SealState SealState *)
Inductive SealState := SealClosed | Unveiling | SealSealed.
#[export] Instance SealState_eq : EqDecision SealState.
Proof. solve_decision. Defined.

(* SRC guard/src/path_seal.rs @struct:PathSeal PathSeal *)
Record PathSeal := { ps_state : SealState; ps_paths : gset string; ps_capabilities : gset string }.

(* SRC guard/src/path_seal.rs @enum:SealError SealError *)
Inductive SealError :=
  | ESealed (state : SealState)
  | EOutsideRoot (path : string)
  | EUnknownCapability (capability : string)
  | ENotUnveiling
  | EStillClosed.

(* SRC guard/src/path_seal.rs @fn:closed PathSeal::closed *)
Definition seal_closed : PathSeal := {| ps_state := SealClosed; ps_paths := ∅; ps_capabilities := ∅ |}.

(* SRC guard/src/path_seal.rs @fn:begin_unveil PathSeal::begin_unveil *)
Definition begin_unveil (s : PathSeal) : PathSeal :=
  {| ps_state := Unveiling; ps_paths := ps_paths s; ps_capabilities := ps_capabilities s |}.

(** The state guard of both unveil operations. *)
Definition unveiling (s : PathSeal) : result unit SealError :=
  match ps_state s with
  | SealSealed => Err (ESealed SealSealed) | SealClosed => Err EStillClosed | Unveiling => Ok tt
  end.

(* SRC guard/src/path_seal.rs @fn:unveil_path PathSeal::unveil_path *)
Definition unveil_path {fs : Fs} (s : PathSeal) (root path : string) : result unit SealError * PathSeal :=
  match unveiling s with
  | Err e => (Err e, s)
  | Ok _ =>
      let canon := canonicalize_no_follow path in
      if negb (inside canon (canonicalize_no_follow root)) then (Err (EOutsideRoot path), s)
      else (Ok tt, {| ps_state := ps_state s; ps_paths := {[canon]} ∪ ps_paths s;
                      ps_capabilities := ps_capabilities s |})
  end.

(* SRC guard/src/path_seal.rs @fn:unveil_capability PathSeal::unveil_capability *)
Definition unveil_capability (s : PathSeal) (declared : list string) (capability : string)
    : result unit SealError * PathSeal :=
  match unveiling s with
  | Err e => (Err e, s)
  | Ok _ =>
      if negb (bool_decide (capability ∈ declared)) then (Err (EUnknownCapability capability), s)
      else (Ok tt, {| ps_state := ps_state s; ps_paths := ps_paths s;
                      ps_capabilities := {[capability]} ∪ ps_capabilities s |})
  end.

(* SRC guard/src/path_seal.rs @fn:seal PathSeal::seal *)
Definition seal (s : PathSeal) : result unit SealError * PathSeal :=
  if bool_decide (ps_state s ≠ Unveiling) then (Err ENotUnveiling, s)
  else (Ok tt, {| ps_state := SealSealed; ps_paths := ps_paths s; ps_capabilities := ps_capabilities s |}).

(* SRC guard/src/path_seal.rs @fn:can_read PathSeal::can_read *)
Definition can_read {fs : Fs} (s : PathSeal) (path : string) : bool :=
  existsb (inside (canonicalize_no_follow path)) (elements (ps_paths s)).

(* SRC guard/src/path_seal.rs @fn:has_capability PathSeal::has_capability *)
Definition has_capability (s : PathSeal) (c : string) : bool := bool_decide (c ∈ ps_capabilities s).

(** One call on a worker's seal; the root and the declared set are the host's. *)
Inductive seal_op :=
  | SoBegin | SoPath (path : string) | SoCapability (capability : string) | SoSeal.

Section seal.
Context {fs : Fs}.

Definition seal_step (root : string) (declared : list string) (s : PathSeal) (op : seal_op) : PathSeal :=
  match op with
  | SoBegin => begin_unveil s
  | SoPath p => (unveil_path s root p).2
  | SoCapability c => (unveil_capability s declared c).2
  | SoSeal => (seal s).2
  end.

Definition seal_run (root : string) (declared : list string) (ops : list seal_op) : PathSeal :=
  foldl (seal_step root declared) seal_closed ops.

(** A sealed set stays as it is, unless it is reopened. *)
Lemma sealed_step root declared s op :
  ps_state s = SealSealed → op ≠ SoBegin → seal_step root declared s op = s.
Proof.
  intros Hs Hop. destruct op; simpl; [done| | |]; unfold unveil_path, unveil_capability, unveiling, seal;
    by rewrite Hs.
Qed.

(** After [seal] no path and no capability is added by any sequence of
    unveil and seal calls, each of which is refused. *)
Theorem sealed_worker_cannot_grow root declared s ops :
  ps_state s = SealSealed → SoBegin ∉ ops → foldl (seal_step root declared) s ops = s.
Proof.
  intros Hs. induction ops as [|op ops IH]; intros Hin; simpl; [done|].
  rewrite sealed_step; [| done | set_solver]. apply IH. set_solver.
Qed.
Context {laws : FsLaws fs}.

Definition within (root : string) (declared : list string) (s : PathSeal) : Prop :=
  (∀ p, p ∈ ps_paths s →
     rooted p = true ∧ normalize_lexical p = p ∧ inside p (canonicalize_no_follow root) = true)
  ∧ (∀ c, c ∈ ps_capabilities s → c ∈ declared).

Lemma seal_step_within root declared s op :
  (∀ p, op = SoPath p → rooted p = true) → within root declared s → within root declared (seal_step root declared s op).
Proof.
  intros Hop [Hp Hc]. destruct op as [|p|c|]; simpl.
  - done.
  - unfold unveil_path. destruct (unveiling s); [|done].
    destruct (inside _ _) eqn:Ei; simpl; [|done]. split; simpl; [|done].
    intros q [->%elem_of_singleton|Hq]%elem_of_union; [|by apply Hp].
    destruct (canonicalize_absolute p (Hop p eq_refl)). done.
  - unfold unveil_capability. destruct (unveiling s); [|done].
    case_bool_decide as Hd; simpl; [|done]. split; simpl; [done|].
    intros q [->%elem_of_singleton|Hq]%elem_of_union; [done | by apply Hc].
  - unfold seal. by case_bool_decide.
Qed.

Lemma seal_run_within root declared ops :
  Forall (λ op, ∀ p, op = SoPath p → rooted p = true) ops → within root declared (seal_run root declared ops).
Proof.
  intros Hops. unfold seal_run.
  assert (H0 : within root declared seal_closed) by (split; simpl; set_solver).
  revert H0. generalize seal_closed. induction Hops as [|op ops Hop _ IH]; intros s Hs; simpl; [done|].
  by apply IH, seal_step_within.
Qed.

(** A worker never reads outside its root and never holds an undeclared
    capability: whatever the host unveils, in whatever order, every absolute
    path it can read lies, component by component, below the canonical root. *)
Theorem worker_stays_in_its_root root declared ops path :
  rooted root = true → rooted path = true →
  Forall (λ op, ∀ p, op = SoPath p → rooted p = true) ops →
  (can_read (seal_run root declared ops) path = true →
     resolved (canonicalize_no_follow root) `prefix_of` resolved (canonicalize_no_follow path))
  ∧ ∀ c, has_capability (seal_run root declared ops) c = true → c ∈ declared.
Proof.
  intros Hroot Hpath Hops. destruct (seal_run_within root declared ops Hops) as [Hp Hc]. split.
  - unfold can_read. intros (q & Hq & Hi)%existsb_exists.
    apply list_elem_of_In, elem_of_elements in Hq. destruct (Hp q Hq) as (Hqr & Hqn & Hqi).
    destruct (canonicalize_absolute root Hroot), (canonicalize_absolute path Hpath).
    rewrite inside_normalized in Hi, Hqi by done. by etransitivity.
  - intros c H. apply bool_decide_eq_true in H. by apply Hc.
Qed.

End seal.

(** The seal does not hold against [begin_unveil], which takes any state
    back to unveiling: a sealed worker's set can grow again. *)
Theorem begin_unveil_breaks_the_seal {fs : Fs} :
  let s := (seal (begin_unveil seal_closed)).2 in
  ps_state s = SealSealed
  ∧ has_capability (unveil_capability s ["exec"] "exec").2 "exec" = false
  ∧ has_capability (unveil_capability (begin_unveil s) ["exec"] "exec").2 "exec" = true.
Proof. split_and!; by vm_compute. Qed.

Lemma worker_stays_in_its_root_witness :
  @can_read plain_fs (@seal_run plain_fs "/work" ["fs.read"] [SoBegin; SoPath "/work/a"; SoSeal]) "/work/a/b" = true
  ∧ @resolved "/work" `prefix_of` resolved "/work/a/b".
Proof.
  split; [by vm_compute|].
  apply (proj1 (@worker_stays_in_its_root plain_fs plain_fs_laws "/work" ["fs.read"]
    [SoBegin; SoPath "/work/a"; SoSeal] "/work/a/b" eq_refl eq_refl
    ltac:(repeat constructor; by intros p [= <-]))).
  by vm_compute.
Defined.

Lemma sealed_worker_cannot_grow_witness :
  let s := (seal (begin_unveil seal_closed)).2 in
  foldl (@seal_step plain_fs "/" ["exec"]) s [SoCapability "exec"; SoPath "/"; SoSeal] = s.
Proof. intros s. apply sealed_worker_cannot_grow; [done | set_solver]. Defined.

(** ** The system-call filter *)

(* SRC guard/src/seccomp.rs @enum:Action Action *)
Inductive Action := AAllow | AErrno (errno : Z) | ACrashSIGSYS.
#[export] Instance Action_eq : EqDecision Action.
Proof. solve_decision. Defined.

(* SRC guard/src/seccomp.rs @enum:ArgFilter ArgFilter *)
Inductive ArgFilter := FEq (arg value : N) | FMaskEq (arg mask value : N) | FAny.

(* SRC guard/src/seccomp.rs @struct:Branch Branch *)
Record Branch := { b_args : list ArgFilter; b_action : Action }.
(* SRC guard/src/seccomp.rs @struct:SyscallRule SyscallRule *)
Record SyscallRule := { sr_nr : Z; sr_branches : list Branch }.
(* SRC guard/src/seccomp.rs @struct:SeccompPolicy SeccompPolicy *)
Record SeccompPolicy := { sp_name : string; sp_rules : list SyscallRule; sp_default : Action }.

(* SRC guard/src/seccomp.rs @enum:SeccompError SeccompError *)
Inductive SeccompError := DefaultNotFailClosed (name : string) | NoBranches (nr : Z) | EmptyBranch (nr : Z).

Fixpoint validate_rules (rules : list SyscallRule) : result unit SeccompError :=
  match rules with
  | [] => Ok tt
  | r :: rest =>
      if bool_decide (sr_branches r = []) then Err (NoBranches (sr_nr r))
      else if existsb (λ b, match b_args b with [] => true | _ => false end) (sr_branches r)
      then Err (EmptyBranch (sr_nr r)) else validate_rules rest
  end.

(* SRC guard/src/seccomp.rs @fn:validate SeccompPolicy::validate *)
Definition policy_validate (p : SeccompPolicy) : result unit SeccompError :=
  if bool_decide (sp_default p = AAllow) then Err (DefaultNotFailClosed (sp_name p))
  else validate_rules (sp_rules p).

Definition filter_matches (args : list N) (f : ArgFilter) : bool :=
  match f with
  | FEq arg want => bool_decide (args !! N.to_nat arg = Some want)
  | FMaskEq arg mask want =>
      match args !! N.to_nat arg with Some v => (N.land v mask =? want)%N | None => false end
  | FAny => true
  end.

Fixpoint first_branch (args : list N) (bs : list Branch) : option Action :=
  match bs with
  | [] => None
  | b :: rest => if forallb (filter_matches args) (b_args b) then Some (b_action b) else first_branch args rest
  end.

(* SRC guard/src/seccomp.rs @fn:allows SeccompPolicy::allows *)
Definition allows (p : SeccompPolicy) (nr : Z) (args : list N) : bool :=
  match list_find (λ r, sr_nr r = nr) (sp_rules p) with
  | None => bool_decide (sp_default p = AAllow)
  | Some (_, rule) => bool_decide (default (sp_default p) (first_branch args (sr_branches rule)) = AAllow)
  end.

Definition any_args : list Branch := [{| b_args := [FAny]; b_action := AAllow |}].

(* SRC guard/src/seccomp.rs @fn:network_worker SeccompPolicy::network_worker *)
Definition network_worker : SeccompPolicy := {|
  sp_name := "network-worker";
  sp_rules := [
    {| sr_nr := 41; sr_branches := [{| b_args := [FEq 0 2]; b_action := AAllow |};
                                    {| b_args := [FEq 0 10]; b_action := AAllow |}] |};
    {| sr_nr := 42; sr_branches := any_args |}; {| sr_nr := 44; sr_branches := any_args |};
    {| sr_nr := 45; sr_branches := any_args |}; {| sr_nr := 46; sr_branches := any_args |};
    {| sr_nr := 47; sr_branches := any_args |}];
  sp_default := ACrashSIGSYS |}.

Lemma first_branch_some args bs a :
  first_branch args bs = Some a → ∃ b, b ∈ bs ∧ b_action b = a ∧ ∀ f, f ∈ b_args b → filter_matches args f = true.
Proof.
  induction bs as [|b rest IH]; simpl; [done|]. destruct (forallb _ _) eqn:E.
  - intros [= <-]. exists b. split_and!; [by constructor | done |]. intros f Hf.
    rewrite forallb_forall in E. by apply E, list_elem_of_In.
  - intros (x & ? & ? & ?)%IH. exists x. split_and!; [by constructor | done | done].
Qed.

(** A validated filter is fail-closed: a call it lets through is named by
    one of its rules and matches every filter of one of that rule's allowing
    branches, and that branch does filter something. *)
Theorem validated_filter_fails_closed p nr args :
  policy_validate p = Ok tt → allows p nr args = true →
  ∃ rule b, rule ∈ sp_rules p ∧ sr_nr rule = nr ∧ b ∈ sr_branches rule ∧ b_action b = AAllow
    ∧ b_args b ≠ [] ∧ ∀ f, f ∈ b_args b → filter_matches args f = true.
Proof.
  unfold policy_validate, allows. case_bool_decide as Hd; [done|]. intros Hv.
  destruct (list_find _ _) as [[i rule]|] eqn:E; [|done].
  apply list_find_Some in E as (Hi & Hnr & _). apply list_elem_of_lookup_2 in Hi.
  destruct (first_branch args (sr_branches rule)) as [a|] eqn:Ef; simpl; [|by intros ?%bool_decide_eq_true].
  intros Ha%bool_decide_eq_true. subst a. apply first_branch_some in Ef as (b & Hb & Hact & Hf).
  exists rule, b. split_and!; try done. intros Hargs.
  revert Hv Hi. induction (sp_rules p) as [|r rest IH]; [by intros _ ?%elem_of_nil|].
  simpl. case_bool_decide; [done|]. destruct (existsb _ _) eqn:Ex; [done|].
  intros Hv [->|Hin]%elem_of_cons; [|by apply IH].
  assert (existsb (λ b, match b_args b with [] => true | _ => false end) (sr_branches r) = true); [|congruence].
  apply existsb_exists. exists b. split; [by apply list_elem_of_In | by rewrite Hargs].
Qed.

(** The network worker's profile: sockets of the two internet families only,
    and the calls that use them. *)
Theorem network_worker_allows nr args :
  policy_validate network_worker = Ok tt
  ∧ (allows network_worker nr args = true ↔
     nr ∈ [42; 44; 45; 46; 47]%Z ∨ (nr = 41%Z ∧ (head args = Some 2%N ∨ head args = Some 10%N))).
Proof.
  split; [by vm_compute|]. unfold allows, network_worker. cbn [sp_rules sp_default].
  cbn [list_find]. repeat (let H := fresh "Hnr" in case_decide as H; cbn [sr_nr] in H;
    [subst nr; cbn -[bool_decide]|]).
  all: try (split; [intros _; left; apply (bool_decide_unpack _); vm_compute; exact I | by intros _]).
  - destruct args as [|a args].
    { cbn. split; [done|]. intros [?|[_ [?|?]]]; [set_solver | done | done]. }
    cbn -[bool_decide]. destruct (decide (a = 2%N)) as [->|H2].
    { split; [intros _; right; auto | by cbn]. }
    rewrite (bool_decide_eq_false_2 (Some a = Some 2%N)) by congruence. simpl.
    destruct (decide (a = 10%N)) as [->|H10].
    { split; [intros _; right; auto | done]. }
    rewrite (bool_decide_eq_false_2 (Some a = Some 10%N)) by congruence. simpl.
    split; [done|]. intros [?|[_ [?|?]]]; [set_solver | congruence | congruence].
  - cbn. split; [done|]. intros [?|[? _]]; [set_solver | done].
Qed.
