(* ===== verification/Review.v ===== *)
(** * The auto reviewer and the session guardrails
    ([everyaios-guard/src/reviewer.rs], [ecc.rs])

    The circuit breaker and the confidence gate, the plan-before-build check
    and the scan of a session's trail. Printing an [f64] is a parameter. *)
From S2P Require Import Order Prelude F64.

(** ** The reviewer *)

(* SRC guard/src/reviewer.rs @struct:ReviewerConfig ReviewerConfig *)
Record ReviewerConfig := { rv_confidence_floor : f64; rv_max_auto_per_run : N }.

(* SRC guard/src/reviewer.rs @enum:ReviewOutcome ReviewOutcome *)
Inductive ReviewOutcome := AutoAllow | Escalate (reason : string).

(* SRC guard/src/reviewer.rs @struct:ReviewerBreaker ReviewerBreaker *)
Record ReviewerBreaker := { rb_failures : N; rb_threshold : N; rb_cooled_down : bool }.

(* SRC guard/src/reviewer.rs @fn:new#2 ReviewerBreaker::new *)
Definition breaker_new (threshold : N) : ReviewerBreaker :=
  {| rb_failures := 0; rb_threshold := threshold; rb_cooled_down := true |}.

(* SRC guard/src/reviewer.rs @fn:trip_if_needed ReviewerBreaker::trip_if_needed *)
Definition trip_if_needed (b : ReviewerBreaker) : ReviewerBreaker :=
  if (rb_threshold b =? 0)%N || (rb_threshold b <=? rb_failures b)%N
  then {| rb_failures := rb_failures b; rb_threshold := rb_threshold b; rb_cooled_down := false |} else b.

(* SRC guard/src/reviewer.rs @fn:record_reject ReviewerBreaker::record_reject *)
Definition record_reject (b : ReviewerBreaker) : ReviewerBreaker :=
  trip_if_needed {| rb_failures := u32_saturating_add (rb_failures b) 1; rb_threshold := rb_threshold b;
                    rb_cooled_down := false |}.

(* SRC guard/src/reviewer.rs @fn:record_error ReviewerBreaker::record_error *)
Definition record_error (b : ReviewerBreaker) : ReviewerBreaker :=
  trip_if_needed {| rb_failures := u32_saturating_add (rb_failures b) 1; rb_threshold := rb_threshold b;
                    rb_cooled_down := false |}.

(* SRC guard/src/reviewer.rs @fn:reset ReviewerBreaker::reset *)
Definition breaker_reset (b : ReviewerBreaker) : ReviewerBreaker :=
  {| rb_failures := 0; rb_threshold := rb_threshold b; rb_cooled_down := true |}.

(* SRC guard/src/reviewer.rs @fn:is_open ReviewerBreaker::is_open *)
Definition is_open (b : ReviewerBreaker) : bool :=
  if (rb_threshold b =? 0)%N then true
  else negb (rb_cooled_down b) && (rb_threshold b <=? rb_failures b)%N.

Definition is_finite (x : f64) : bool :=
  match x with S754_zero _ | S754_finite _ _ _ => true | _ => false end.

Section review.
Context (f64_display : f64 → string).

(* SRC guard/src/reviewer.rs @fn:auto_review auto_review *)
Definition auto_review (decision_confidence : option f64) (cfg : ReviewerConfig) (b : ReviewerBreaker)
    : ReviewOutcome :=
  if is_open b then Escalate "reviewer breaker open"
  else if (rv_max_auto_per_run cfg =? 0)%N then Escalate "auto budget is zero"
  else
    match decision_confidence with
    | None => Escalate "missing decision confidence"
    | Some c =>
        if negb (is_finite c) || f64_lt c (rv_confidence_floor cfg)
        then Escalate ("confidence " +:+ f64_display c +:+ " below floor " +:+ f64_display (rv_confidence_floor cfg))
        else AutoAllow
    end.

Inductive breaker_op := BoReject | BoError | BoReset.
Definition breaker_step (b : ReviewerBreaker) (op : breaker_op) : ReviewerBreaker :=
  match op with BoReject => record_reject b | BoError => record_error b | BoReset => breaker_reset b end.

(** Rejects and errors since the last reset. *)
Definition failures_since_reset (ops : list breaker_op) : N :=
  foldl (λ n op, match op with BoReset => 0 | _ => n + 1 end)%N 0%N ops.

Lemma failed_step_state (b : ReviewerBreaker) op :
  op ≠ BoReset →
  breaker_step b op = {| rb_failures := u32_saturating_add (rb_failures b) 1; rb_threshold := rb_threshold b;
                         rb_cooled_down := false |}.
Proof.
  intros Hop. destruct op; [| |done]; simpl; unfold record_reject, record_error, trip_if_needed; simpl; by case_match.
Qed.

Lemma breaker_run_state threshold ops :
  let b := foldl breaker_step (breaker_new threshold) ops in
  rb_threshold b = threshold ∧ rb_failures b = N.min (failures_since_reset ops) u32_max
  ∧ (rb_cooled_down b = true ↔ failures_since_reset ops = 0%N).
Proof.
  induction ops as [|op ops IH] using rev_ind; [done|].
  unfold failures_since_reset in *. rewrite !foldl_app. cbn [foldl].
  set (b := foldl breaker_step _ ops) in *. set (n := foldl _ 0%N ops) in *. clearbody b n.
  destruct IH as (Ht & Hf & Hc). destruct op.
  1,2: rewrite failed_step_state by done; cbn [rb_threshold rb_failures rb_cooled_down];
    unfold u32_saturating_add; rewrite Hf; split_and!; [done | unfold u32_max; lia | split; [done|lia]].
  simpl. by rewrite Ht.
Qed.

(** The auto path is taken exactly when the breaker has seen fewer
    failures since its last reset than its threshold, the budget is not zero,
    and a finite confidence is stated that is not below the floor. *)
Theorem auto_allow_iff threshold ops cfg confidence :
  (threshold ≤ u32_max)%N →
  auto_review confidence cfg (foldl breaker_step (breaker_new threshold) ops) = AutoAllow
  ↔ (failures_since_reset ops < threshold)%N ∧ rv_max_auto_per_run cfg ≠ 0%N
    ∧ ∃ c, confidence = Some c ∧ is_finite c = true ∧ f64_lt c (rv_confidence_floor cfg) = false.
Proof.
  intros Hmax. destruct (breaker_run_state threshold ops) as (Ht & Hf & Hc).
  set (b := foldl _ _ ops) in *. unfold auto_review.
  assert (Hopen : is_open b = true ↔ (threshold ≤ failures_since_reset ops)%N).
  { unfold is_open. rewrite Ht. destruct (N.eqb_spec threshold 0) as [->|Hne]; [split; [lia | done]|].
    rewrite andb_true_iff, negb_true_iff, N.leb_le, Hf, <- not_true_iff_false, Hc. lia. }
  destruct (is_open b).
  { split; [done|]. intros (Hlt & _). pose proof (proj1 Hopen eq_refl). lia. }
  assert (Hlt : (failures_since_reset ops < threshold)%N).
  { destruct (N.lt_ge_cases (failures_since_reset ops) threshold) as [|H]; [done|]. by apply Hopen in H. }
  destruct (N.eqb_spec (rv_max_auto_per_run cfg) 0) as [|Hb]; [by split; [|intros (_ & ? & _)]|].
  destruct confidence as [c|]; [|by split; [|intros (_ & _ & ? & ? & _)]].
  destruct (is_finite c) eqn:Efin; simpl; [|split; [done|intros (_ & _ & ? & [= <-] & ? & _); congruence]].
  destruct (f64_lt c _) eqn:Elt; split; try done; [intros (_ & _ & ? & [= <-] & _ & ?); congruence | eauto 8].
Qed.

(** The comparison with a NaN floor is false, so a NaN floor lets every finite
    confidence through. *)
Theorem nan_floor_admits_everything c budget b :
  is_open b = false → budget ≠ 0%N → is_finite c = true →
  auto_review (Some c) {| rv_confidence_floor := S754_nan; rv_max_auto_per_run := budget |} b = AutoAllow.
Proof.
  intros Ho Hb Hc. unfold auto_review. rewrite Ho. simpl.
  destruct (N.eqb_spec budget 0); [done|]. rewrite Hc. simpl. by destruct c as [| | |[] ? ?].
Qed.
End review.

Lemma auto_allow_iff_witness :
  auto_review (λ _, "") (Some f64_1) {| rv_confidence_floor := f64_lit 85 100; rv_max_auto_per_run := 3 |}
    (foldl breaker_step (breaker_new 2) [BoReject; BoReset; BoError]) = AutoAllow.
Proof.
  apply (auto_allow_iff (λ _, "") 2 [BoReject; BoReset; BoError]); [by vm_compute|].
  split_and!; [by vm_compute | done | exists f64_1; split_and!; by vm_compute].
Defined.

(** ** Session guardrails *)

(* SRC guard/src/ecc.rs @struct:SessionEvent SessionEvent *)
Record SessionEvent := { se_kind : string; se_ok : bool; se_detail : string }.

(* SRC guard/src/ecc.rs @enum:EccSeverity EccSeverity *)
Inductive EccSeverity := Info | Warning | Blocking.

(* SRC guard/src/ecc.rs @struct:EccFinding EccFinding *)
Record EccFinding := { ef_severity : EccSeverity; ef_message : string; ef_event_index : option nat }.

(* SRC guard/src/ecc.rs @struct:EccPolicy EccPolicy *)
Record EccPolicy := {
  ep_require_plan_before_build : bool;
  ep_max_destructive_per_session : N;
  ep_max_consecutive_rewrites : N;
  ep_destructive_kinds : list string
}.

(* SRC guard/src/ecc.rs @fn:default EccPolicy::default *)
Definition ecc_policy_default : EccPolicy := {|
  ep_require_plan_before_build := true; ep_max_destructive_per_session := 3;
  ep_max_consecutive_rewrites := 5; ep_destructive_kinds := ["delete"; "rm"; "overwrite"; "drop"; "format"] |}.

(* SRC guard/src/ecc.rs @enum:EccVerdict EccVerdict *)
Inductive EccVerdict := EAllowed | ERequiresPlan | EBlocked (reason : string).

Definition is_destructive (p : EccPolicy) (kind : string) : bool :=
  existsb (String.eqb kind) (ep_destructive_kinds p).
Definition has_plan (events : list SessionEvent) : bool := existsb (λ e, String.eqb (se_kind e) "plan") events.
Definition destructive_count (p : EccPolicy) (events : list SessionEvent) : N :=
  N.of_nat (length (filter (λ e, is_destructive p (se_kind e) = true) events)).

(** [≥], in UTF-8. *)
Definition GEQ : string := String.string_of_list_ascii (map ascii_of_N [226; 137; 165]%N).

(* SRC guard/src/ecc.rs @fn:plan_before_build plan_before_build *)
Definition plan_before_build (p : EccPolicy) (events : list SessionEvent) (kind : string) : EccVerdict :=
  let n := destructive_count p events in
  if is_destructive p kind && (ep_max_destructive_per_session p <=? n)%N
  then EBlocked ("destructive-op cap reached (" +:+ pretty n +:+ " " +:+ GEQ +:+ " " +:+
                 pretty (ep_max_destructive_per_session p) +:+ ")")
  else if ep_require_plan_before_build p && negb (has_plan events) then ERequiresPlan
  else EAllowed.

Definition is_mutation (kind : string) : bool :=
  existsb (String.eqb kind) ["build"; "delete"; "overwrite"; "drop"; "format"; "commit"].

(** Positions of the members that satisfy [f]. *)
Definition positions {A} (f : A → bool) (l : list A) : list nat :=
  omap (λ p, if f p.2 then Some p.1 else None) (zip (seq 0 (length l)) l).

(** The failed-rewrite loop: the first index at which the streak exceeds the
    maximum, with its length. *)
Fixpoint rewrite_streak (p : EccPolicy) (i : nat) (streak : N) (events : list SessionEvent) : option (nat * N) :=
  match events with
  | [] => None
  | e :: rest =>
      if String.eqb (se_kind e) "rewrite" && negb (se_ok e) then
        let s := ((streak + 1) mod 4294967296)%N in
        if (ep_max_consecutive_rewrites p <? s)%N then Some (i, s) else rewrite_streak p (S i) s rest
      else rewrite_streak p (S i) 0 rest
  end.

Definition severity_rank (s : EccSeverity) : N := match s with Info => 0 | Warning => 1 | Blocking => 2 end.

Definition scan_unplanned (p : EccPolicy) (events : list SessionEvent) : list EccFinding :=
  if ep_require_plan_before_build p && negb (has_plan events) then
    match positions (λ e, is_mutation (se_kind e)) events with
    | [] => []
    | i :: _ as mutations =>
        [{| ef_severity := Blocking;
            ef_message := "session has " +:+ pretty (N.of_nat (length mutations)) +:+
                          " mutation(s) with no plan event";
            ef_event_index := Some i |}]
    end
  else [].

Definition scan_destructive (p : EccPolicy) (events : list SessionEvent) : list EccFinding :=
  let n := destructive_count p events in
  if (ep_max_destructive_per_session p <? n)%N then
    [{| ef_severity := Blocking;
        ef_message := "destructive ops " +:+ pretty n +:+ " exceed session cap " +:+
                      pretty (ep_max_destructive_per_session p);
        ef_event_index := None |}]
  else [].

Definition scan_warnings (p : EccPolicy) (events : list SessionEvent) : list EccFinding :=
  match rewrite_streak p 0 0 events with
  | Some (i, s) =>
      [{| ef_severity := Warning;
          ef_message := "runaway rewrite loop: " +:+ pretty s +:+
                        " consecutive failed rewrites ending at event " +:+ pretty (N.of_nat i);
          ef_event_index := Some i |}]
  | None => []
  end ++
  match positions (λ e, String.eqb (se_kind e) "estop") events with
  | i :: _ => [{| ef_severity := Warning; ef_message := "estop was pulled during the session";
                  ef_event_index := Some i |}]
  | [] => []
  end ++
  match last (positions (λ e, existsb (String.eqb (se_kind e)) ["build"; "commit"; "overwrite"]) events) with
  | Some i =>
      if existsb (λ e, String.eqb (se_kind e) "verify") (drop i events) then []
      else [{| ef_severity := Warning; ef_message := "last mutation has no subsequent verify event";
               ef_event_index := Some i |}]
  | None => []
  end.

(* SRC guard/src/ecc.rs @fn:session_scan session_scan *)
Definition session_scan (p : EccPolicy) (events : list SessionEvent) : list EccFinding :=
  sort_by (λ a b, severity_rank (ef_severity b) <=? severity_rank (ef_severity a))%N
    (scan_unplanned p events ++ scan_destructive p events ++ scan_warnings p events).

Example session_scan_example :
  let e k := {| se_kind := k; se_ok := true; se_detail := "" |} in
  ef_severity <$> session_scan ecc_policy_default [e "estop"; e "build"] = [Blocking; Warning; Warning].
Proof. by vm_compute. Qed.

(** The trail that the check let through: every mutation and every destructive
    event was allowed by the events before it. *)
Definition admitted (p : EccPolicy) (events : list SessionEvent) : Prop :=
  ∀ pre e post, events = pre ++ e :: post →
    is_mutation (se_kind e) || is_destructive p (se_kind e) = true →
    plan_before_build p pre (se_kind e) = EAllowed.

Lemma admitted_app p l1 l2 : admitted p (l1 ++ l2) → admitted p l1.
Proof. intros H pre e post -> Hm. apply (H pre e (post ++ l2)); [by rewrite <- app_assoc | done]. Qed.

Lemma has_plan_app l1 l2 : has_plan (l1 ++ l2) = has_plan l1 || has_plan l2.
Proof. apply existsb_app. Qed.

Lemma positions_some {A} (f : A → bool) l i rest :
  positions f l = i :: rest → ∃ x, x ∈ l ∧ f x = true.
Proof.
  intros H. assert (Hi : i ∈ positions f l) by (rewrite H; constructor).
  unfold positions in Hi. apply list_elem_of_omap in Hi as ([j x] & Hin & Hf). simpl in Hf.
  exists x. destruct (f x) eqn:E; [|done]. split; [|done].
  by apply elem_of_zip_r in Hin.
Qed.

Lemma scan_unplanned_admitted p events : admitted p events → scan_unplanned p events = [].
Proof.
  intros Had. unfold scan_unplanned. destruct (_ && _) eqn:E; [|done].
  apply andb_true_iff in E as [Hreq Hnp]. destruct (positions _ events) as [|i rest] eqn:Ep; [done|].
  apply positions_some in Ep as (e & He & Hm). apply list_elem_of_split in He as (pre & post & ->).
  specialize (Had pre e post eq_refl). rewrite Hm in Had. specialize (Had eq_refl).
  unfold plan_before_build in Had. rewrite has_plan_app, negb_orb in Hnp. apply andb_true_iff in Hnp as [Hnp _].
  rewrite Hreq, Hnp in Had. by destruct (_ && _).
Qed.

Lemma destructive_count_admitted p events :
  admitted p events → (destructive_count p events ≤ ep_max_destructive_per_session p)%N.
Proof.
  induction events as [|e events IH] using rev_ind; intros Had; [unfold destructive_count; simpl; lia|].
  pose proof (IH (admitted_app p events [e] Had)) as Hle. unfold destructive_count in *.
  rewrite list.filter_app, length_app, filter_cons. destruct (decide _) as [Hd|Hd]; simpl; [|lia].
  specialize (Had events e [] eq_refl). rewrite Hd, orb_true_r in Had. specialize (Had eq_refl).
  unfold plan_before_build, destructive_count in Had. rewrite Hd in Had.
  destruct (N.leb_spec (ep_max_destructive_per_session p)
    (N.of_nat (length (filter (λ e, is_destructive p (se_kind e) = true) events)))); [done|lia].
Qed.

(** The two checks agree: over a trail whose mutations were each let
    through by the plan-before-build check, the scan reports nothing blocking,
    whatever the policy. *)
Theorem admitted_trail_scans_clean p events f :
  admitted p events → f ∈ session_scan p events → ef_severity f = Warning.
Proof.
  intros Had Hf. unfold session_scan in Hf. rewrite elem_of_sort_by in Hf.
  rewrite (scan_unplanned_admitted p events Had) in Hf. unfold scan_destructive in Hf.
  pose proof (destructive_count_admitted p events Had) as Hle.
  destruct (N.ltb_spec (ep_max_destructive_per_session p) (destructive_count p events)); [lia|].
  simpl in Hf. unfold scan_warnings in Hf. rewrite !elem_of_app in Hf.
  destruct Hf as [Hf|[Hf|Hf]]; repeat case_match; try (by apply elem_of_nil in Hf);
    by apply list_elem_of_singleton in Hf as ->.
Qed.

Lemma admitted_trail_scans_clean_witness :
  let e k := {| se_kind := k; se_ok := true; se_detail := "" |} in
  Forall (λ f, ef_severity f = Warning) (session_scan ecc_policy_default [e "plan"; e "build"]).
Proof.
  intros e. apply Forall_forall. intros f. apply admitted_trail_scans_clean.
  intros [|x [|y pre]] z post H Hm; injection H.
  - intros _ <-. done.
  - intros _ <- <-. by vm_compute.
  - intros Hp _ _. by destruct pre.
Defined.

(** A plan names nothing: any earlier event of kind [plan], a failed one for
    another action included, lets every mutation through. *)
Theorem any_plan_admits_any_build :
  plan_before_build ecc_policy_default
    [{| se_kind := "plan"; se_ok := false; se_detail := "rename a variable" |}] "drop" = EAllowed.
Proof. by vm_compute. Qed.
