(* ===== verification/Json.v ===== *)
(** * JSON values as the code handles them

    [serde_json::Value] without the [preserve_order] feature: an object is a
    [BTreeMap], kept here as an association list in ascending key order. The
    accessors are the ones the source uses ([get], [as_str], [as_u64], ...);
    text rendering and parsing belong to the third-party crate and stay
    parameters where they are needed.

    Concrete codecs close the file: the text of a value as the bits of its number
    in an enumeration, which the witnesses use where the development has a
    serializer as an interface. *)
From S2P Require Import Order Prelude.

(** A JSON number is an unsigned integer, a negative integer or a double;
    doubles are opaque here (their bits). *)
Inductive Number := PosInt (n : N) | NegInt (z : Z) | JFloat (bits : N).

#[export] Instance number_eq_dec : EqDecision Number.
Proof. solve_decision. Defined.

#[warnings="-register-all"]
Inductive Value :=
  | JNull
  | JBool (b : bool)
  | JNumber (n : Number)
  | JString (s : string)
  | JArray (l : list Value)
  | JObject (m : list (string * Value)).

Fixpoint value_eqb (a b : Value) {struct a} : bool :=
  match a, b with
  | JNull, JNull => true
  | JBool x, JBool y => Bool.eqb x y
  | JNumber x, JNumber y => bool_decide (x = y)
  | JString x, JString y => String.eqb x y
  | JArray l, JArray l' =>
      (fix go (l l' : list Value) : bool :=
         match l, l' with
         | [], [] => true
         | x :: l, y :: l' => value_eqb x y && go l l'
         | _, _ => false
         end) l l'
  | JObject m, JObject m' =>
      (fix go (m m' : list (string * Value)) : bool :=
         match m, m' with
         | [], [] => true
         | (k, x) :: m, (k', y) :: m' => String.eqb k k' && value_eqb x y && go m m'
         | _, _ => false
         end) m m'
  | _, _ => false
  end.

(** ** Objects *)

Fixpoint obj_get (k : string) (m : list (string * Value)) : option Value :=
  match m with
  | [] => None
  | (k', v) :: m' => if String.eqb k' k then Some v else obj_get k m'
  end.

(** [Map::insert]: replaces the value of a present key, keeps the order. *)
Fixpoint obj_insert (k : string) (v : Value) (m : list (string * Value)) : list (string * Value) :=
  match m with
  | [] => [(k, v)]
  | (k', v') :: m' =>
      if String.eqb k' k then (k, v) :: m'
      else if str_le k k' then (k, v) :: m
      else (k', v') :: obj_insert k v m'
  end.

(** What [json!] builds from its entries, in the order they are written. *)
Definition json_object (entries : list (string * Value)) : Value :=
  JObject (foldl (λ m e, obj_insert e.1 e.2 m) [] entries).

Definition json_get (k : string) (v : Value) : option Value :=
  match v with JObject m => obj_get k m | _ => None end.
Definition as_str (v : Value) : option string :=
  match v with JString s => Some s | _ => None end.
Definition as_u64 (v : Value) : option N :=
  match v with JNumber (PosInt n) => Some n | _ => None end.
Definition as_bool (v : Value) : option bool :=
  match v with JBool b => Some b | _ => None end.
Definition as_object (v : Value) : option (list (string * Value)) :=
  match v with JObject m => Some m | _ => None end.

(** A parameter of a call, by its name and type. *)
Definition p_str (k : string) (p : Value) : option string := json_get k p ≫= as_str.
Definition p_u64 (k : string) (p : Value) : option N := json_get k p ≫= as_u64.
Definition p_bool (k : string) (p : Value) : option bool := json_get k p ≫= as_bool.
Definition as_array (v : Value) : option (list Value) := match v with JArray l => Some l | _ => None end.
(** The strings of an array; other elements are skipped. *)
Definition p_strings (k : string) (p : Value) : list string :=
  match json_get k p ≫= as_array with Some l => omap (M:=list) as_str l | None => [] end.

Definition json_u64 (n : N) : Value := JNumber (PosInt n).
Definition json_opt {A} (f : A → Value) (o : option A) : Value :=
  match o with Some a => f a | None => JNull end.

Lemma obj_get_insert_eq k v m : obj_get k (obj_insert k v m) = Some v.
Proof.
  induction m as [|[k' v'] m IH]; simpl; [by rewrite String.eqb_refl|].
  destruct (String.eqb_spec k' k) as [->|Hne]; simpl; [by rewrite String.eqb_refl|].
  destruct (str_le k k'); simpl; [by rewrite String.eqb_refl|].
  by destruct (String.eqb_spec k' k).
Qed.

Lemma obj_get_insert_ne k k' v m : k ≠ k' → obj_get k' (obj_insert k v m) = obj_get k' m.
Proof.
  intros Hne. induction m as [|[k1 v1] m IH]; simpl; [by destruct (String.eqb_spec k k')|].
  destruct (String.eqb_spec k1 k) as [->|H1]; simpl; [by destruct (String.eqb_spec k k')|].
  destruct (str_le k k1); simpl; [by destruct (String.eqb_spec k k')|].
  by rewrite IH.
Qed.

Lemma obj_get_insert k k' v m :
  obj_get k' (obj_insert k v m) = if String.eqb k k' then Some v else obj_get k' m.
Proof.
  destruct (String.eqb_spec k k') as [->|Hne]; [apply obj_get_insert_eq | by apply obj_get_insert_ne].
Qed.

(** Structural equality is equality. *)
Fixpoint value_size (v : Value) : nat :=
  match v with
  | JArray l => S (list_sum (map value_size l))
  | JObject m => S (list_sum (map (λ e, value_size e.2) m))
  | _ => 1
  end.

Lemma value_eqb_eq_aux n a b : value_size a ≤ n → value_eqb a b = true ↔ a = b.
Proof.
  revert a b. induction n as [|n IH]; intros a b Hn; [destruct a; simpl in Hn; lia|].
  destruct a as [|x|x|x|l|m], b as [|y|y|y|l'|m']; cbn [value_eqb];
    try (split; [done|by intros [=]]).
  - rewrite Bool.eqb_true_iff. split; [by intros -> | by intros [= ->]].
  - rewrite bool_decide_eq_true. split; [by intros -> | by intros [= ->]].
  - rewrite String.eqb_eq. split; [by intros -> | by intros [= ->]].
  - simpl in Hn. assert (Hl : list_sum (map value_size l) ≤ n) by lia. clear Hn.
    transitivity (l = l'); [|split; [by intros -> | by intros [= ->]]].
    revert l' Hl. induction l as [|x l IHl]; intros [|y l'] Hl; try (split; [done|by intros [=]]).
    simpl in Hl. rewrite andb_true_iff, IH, IHl by lia. split; [by intros [-> ->] | by intros [= -> ->]].
  - simpl in Hn. assert (Hm : list_sum (map (λ e, value_size e.2) m) ≤ n) by lia. clear Hn.
    transitivity (m = m'); [|split; [by intros -> | by intros [= ->]]].
    revert m' Hm. induction m as [|[k x] m IHm]; intros [|[k' y] m'] Hm; try (split; [done|by intros [=]]).
    simpl in Hm. rewrite !andb_true_iff, String.eqb_eq, IH, IHm by lia.
    split; [by intros [[-> ->] ->] | by intros [= -> -> ->]].
Qed.

Lemma value_eqb_eq a b : value_eqb a b = true ↔ a = b.
Proof. by apply (value_eqb_eq_aux (value_size a)). Qed.

#[export] Instance value_eq_dec : EqDecision Value.
Proof.
  intros a b. destruct (value_eqb a b) eqn:E; [left; by apply value_eqb_eq|].
  right. intros ->. assert (value_eqb b b = true) by by apply value_eqb_eq. congruence.
Defined.

(** * Concrete codecs *)


Fixpoint pos_str (p : positive) : string :=
  match p with xH => "." | xO p => String "0" (pos_str p) | xI p => String "1" (pos_str p) end.
Fixpoint str_pos (s : string) : option positive :=
  match s with
  | String c s' => if Ascii.eqb c "." then Some xH
                   else p ← str_pos s'; Some (if Ascii.eqb c "1" then xI p else xO p)
  | EmptyString => None
  end.
Lemma str_pos_str p : str_pos (pos_str p) = Some p.
Proof. induction p as [p IH|p IH|]; simpl; rewrite ?IH; done. Qed.
Lemma pos_str_line p : has_char NL (pos_str p) = false.
Proof. by induction p. Qed.

Definition enumerate {A} `{Countable A} (a : A) : string := pos_str (countable.encode a).
Definition from_enumeration {A} `{Countable A} (s : string) : option A := str_pos s ≫= countable.decode.
Definition enumerated {A} `{Countable A} (s : string) : result A string :=
  match from_enumeration s with Some a => Ok a | None => Err "no such message" end.
Lemma from_enumerate {A} `{Countable A} (a : A) : from_enumeration (enumerate a) = Some a.
Proof. unfold from_enumeration, enumerate. rewrite str_pos_str. cbn [mbind option_bind]. apply countable.decode_encode. Qed.
Lemma enumerated_enumerate {A} `{Countable A} (a : A) : enumerated (enumerate a) = Ok a.
Proof. unfold enumerated. by rewrite from_enumerate. Qed.

(** ** JSON values can be enumerated *)

#[export] Instance number_countable : Countable Number.
Proof.
  apply (inj_countable' (λ n, match n with PosInt n => inl n | NegInt z => inr (inl z) | JFloat b => inr (inr b) end)
    (λ s, match s with inl n => PosInt n | inr (inl z) => NegInt z | inr (inr b) => JFloat b end)). by intros [].
Defined.
Definition Leaf : Type := bool + (Number + string).
Fixpoint value_tree (v : Value) : gen_tree Leaf :=
  match v with
  | JNull => GenNode 0 []
  | JBool b => GenLeaf (inl b)
  | JNumber n => GenLeaf (inr (inl n))
  | JString s => GenLeaf (inr (inr s))
  | JArray l => GenNode 1 (map value_tree l)
  | JObject m => GenNode 2 (map (λ e, GenNode 3 [GenLeaf (inr (inr e.1)); value_tree e.2]) m)
  end.
Fixpoint tree_value (t : gen_tree Leaf) : Value :=
  match t with
  | GenLeaf (inl b) => JBool b
  | GenLeaf (inr (inl n)) => JNumber n
  | GenLeaf (inr (inr s)) => JString s
  | GenNode 0 _ => JNull
  | GenNode 1 l => JArray (map tree_value l)
  | GenNode _ l => JObject (map (λ t, match t with GenNode _ [GenLeaf (inr (inr k)); x] => (k, tree_value x) | _ => ("", JNull) end) l)
  end.
Lemma tree_value_tree_aux n v : value_size v ≤ n → tree_value (value_tree v) = v.
Proof.
  revert v. induction n as [|n IH]; intros v Hn; [destruct v; simpl in Hn; lia|].
  destruct v as [|b|x|s|l|m]; try done; cbn [value_tree tree_value]; f_equal; rewrite map_map; simpl in Hn.
  - assert (Hl : list_sum (map value_size l) ≤ n) by lia. clear Hn. induction l as [|v l IHl]; [done|]. simpl in *. f_equal; [apply IH; lia|apply IHl; lia].
  - assert (Hm : list_sum (map (λ e, value_size e.2) m) ≤ n) by lia. clear Hn. induction m as [|[k v] m IHm]; [done|]. simpl in *.
    f_equal; [f_equal; apply IH; lia|apply IHm; lia].
Qed.
#[export] Instance value_countable : Countable Value.
Proof. apply (inj_countable' value_tree tree_value). intros v. by apply (tree_value_tree_aux (value_size v)). Defined.
