(* ===== verification/Merkle.v ===== *)
(** * The audit log's hash chain ([everyaios-audit/src/merkle.rs])

    Rows chained by SHA-256, verification and the external head commitment.
    [serde_json] is an interface: a value type and its serializer. *)
From S2P Require Import Prelude Json.

Class Json := { json_value : Type; json_to_vec : json_value → option string }.

(** A hexadecimal digest is not empty and has no NUL byte. *)
Class Sha256Laws (sha : Sha256) : Prop := {
  sha256_hex_nonempty s : sha256_hex s ≠ "";
  sha256_hex_nul_free s : nul_free (sha256_hex s) = true
}.

Section chain.
  Context {sha : Sha256} {json : Json}.

(* SRC audit/src/lib.rs @struct:AuditEvent AuditEvent *)
Record AuditEvent := {
  ev_seq : N;
  ev_ts_ms : N;
  ev_kind : string;
  ev_payload : json_value;
  ev_trace_id : string;
  ev_span_id : string
}.

(* SRC audit/src/merkle.rs @struct:ChainedEntry ChainedEntry *)
Record ChainedEntry := { ce_event : AuditEvent; ce_hash : string; ce_prev_hash : string }.

(** [serde_json::to_vec(payload).unwrap_or_default()]. *)
(* SRC audit/src/merkle.rs @fn:canonical_payload canonical_payload *)
Definition canonical_payload (payload : json_value) : string := default "" (json_to_vec payload).

(* SRC audit/src/merkle.rs @fn:hash_input hash_input *)
Definition hash_input (prev : string) (seq : N) (kind : string) (payload : json_value) : string :=
  prev +:+ String NUL (pretty seq +:+ String NUL (kind +:+ String NUL (canonical_payload payload))).

(** The chain: oldest entry first. *)
(* SRC audit/src/merkle.rs @struct:MerkleChain MerkleChain *)
Definition MerkleChain : Type := list ChainedEntry.

Definition entry_input (prev : string) (e : AuditEvent) : string :=
  hash_input prev (ev_seq e) (ev_kind e) (ev_payload e).

(* SRC audit/src/merkle.rs @fn:push MerkleChain::push *)
Definition chain_push (self : MerkleChain) (event : AuditEvent) : string * MerkleChain :=
  let prev := default "" (ce_hash <$> last self) in
  let hash := sha256_hex (entry_input prev event) in
  (hash, self ++ [ {| ce_event := event; ce_hash := hash; ce_prev_hash := prev |} ]).

(* SRC audit/src/merkle.rs @fn:head MerkleChain::head *)
Definition chain_head (self : MerkleChain) : option string := ce_hash <$> last self.

(** The loop of [verify] at row [i] with the running [prev]. *)
Fixpoint verify_from (prev : string) (i : nat) (l : MerkleChain) : option nat :=
  match l with
  | [] => None
  | e :: rest =>
      if negb (String.eqb (ce_prev_hash e) prev) then Some i
      else if negb (String.eqb (ce_hash e) (sha256_hex (entry_input prev (ce_event e)))) then Some i
      else verify_from (ce_hash e) (S i) rest
  end.

(* SRC audit/src/merkle.rs @fn:verify MerkleChain::verify *)
Definition chain_verify (self : MerkleChain) : option nat := verify_from "" 0 self.

(* SRC audit/src/merkle.rs @enum:MerkleError MerkleError *)
Inductive MerkleError := TamperedAt (i : nat) | HeadMismatch.

(* SRC audit/src/merkle.rs @fn:verify_against_head MerkleChain::verify_against_head *)
Definition verify_against_head (self : MerkleChain) (committed_head : string)
    : result unit MerkleError :=
  match chain_verify self with
  | Some i => Err (TamperedAt i)
  | None => if bool_decide (chain_head self = Some committed_head) then Ok tt else Err HeadMismatch
  end.

(** ** Well-linked chains *)

(** The rows the chain would have had, were each pushed on a chain ending in
    [prev]. *)
Fixpoint linked (prev : string) (l : MerkleChain) : Prop :=
  match l with
  | [] => True
  | e :: rest => ce_prev_hash e = prev ∧ ce_hash e = sha256_hex (entry_input prev (ce_event e))
                 ∧ linked (ce_hash e) rest
  end.

Lemma verify_from_none prev i l : verify_from prev i l = None ↔ linked prev l.
Proof.
  revert prev i. induction l as [|e l IH]; intros prev i; simpl; [done|].
  destruct (String.eqb_spec (ce_prev_hash e) prev); simpl; [|naive_solver].
  destruct (String.eqb_spec (ce_hash e) (sha256_hex (entry_input prev (ce_event e)))); simpl;
    [rewrite IH; naive_solver | naive_solver].
Qed.

Definition end_hash (prev : string) (l : MerkleChain) : string :=
  default prev (ce_hash <$> last l).

Lemma end_hash_cons prev e l : end_hash prev (e :: l) = end_hash (ce_hash e) l.
Proof. unfold end_hash. rewrite last_cons. by destruct (last l). Qed.

Lemma linked_app prev l1 l2 : linked prev (l1 ++ l2) ↔ linked prev l1 ∧ linked (end_hash prev l1) l2.
Proof.
  revert prev. induction l1 as [|e l1 IH]; intros prev; simpl; [naive_solver|].
  rewrite IH, end_hash_cons. naive_solver.
Qed.

(** The first row that fails, with everything before it intact. *)
Lemma verify_from_some prev i l k :
  verify_from prev i l = Some k →
  ∃ pre e post, l = pre ++ e :: post ∧ k = i + length pre ∧ linked prev pre
    ∧ ¬ (ce_prev_hash e = end_hash prev pre
         ∧ ce_hash e = sha256_hex (entry_input (end_hash prev pre) (ce_event e))).
Proof.
  revert prev i. induction l as [|e l IH]; intros prev i H; simpl in H; [done|].
  destruct (String.eqb_spec (ce_prev_hash e) prev) as [Hp|Hp]; simpl in H.
  2:{ injection H as <-. exists [], e, l. simpl. split_and!; [done | lia | done |]. naive_solver. }
  destruct (String.eqb_spec (ce_hash e) (sha256_hex (entry_input prev (ce_event e)))) as [Hh|Hh];
    simpl in H.
  2:{ injection H as <-. exists [], e, l. simpl. split_and!; [done | lia | done |]. naive_solver. }
  destruct (IH _ _ H) as (pre & x & post & -> & -> & Hl & Hx). exists (e :: pre), x, post.
  rewrite end_hash_cons. simpl. split_and!; first [done | lia].
Qed.

(** What a row commits to: sequence number, kind and serialized payload. *)
Definition row_content (e : ChainedEntry) : N * string * string :=
  (ev_seq (ce_event e), ev_kind (ce_event e), canonical_payload (ev_payload (ce_event e))).

(** The texts a chain's digests are taken of. *)
Fixpoint chain_inputs (prev : string) (l : MerkleChain) : list string :=
  match l with
  | [] => []
  | e :: rest => entry_input prev (ce_event e) :: chain_inputs (ce_hash e) rest
  end.

Lemma chain_inputs_app prev l1 l2 :
  chain_inputs prev (l1 ++ l2) = chain_inputs prev l1 ++ chain_inputs (end_hash prev l1) l2.
Proof.
  revert prev. induction l1 as [|e l1 IH]; intros prev; [done|]. simpl.
  by rewrite IH, end_hash_cons.
Qed.

Lemma pretty_nul_free (n : N) : nul_free (pretty n) = true.
Proof. unfold nul_free. by rewrite pretty_no_char. Qed.

Context {laws : Sha256Laws sha}.

Lemma end_hash_nul_free prev l :
  nul_free prev = true → linked prev l → nul_free (end_hash prev l) = true.
Proof.
  revert prev. induction l as [|e l IH]; intros prev Hp; simpl; [done|].
  intros (_ & Hh & Hl). rewrite end_hash_cons. apply IH; [|done]. rewrite Hh. apply sha256_hex_nul_free.
Qed.

Lemma entry_input_inj p1 p2 e1 e2 :
  nul_free p1 = true → nul_free p2 = true →
  nul_free (ev_kind (ce_event e1)) = true → nul_free (ev_kind (ce_event e2)) = true →
  entry_input p1 (ce_event e1) = entry_input p2 (ce_event e2) →
  p1 = p2 ∧ row_content e1 = row_content e2.
Proof.
  unfold entry_input, hash_input, row_content. intros H1 H2 Hk1 Hk2 H.
  apply nul_cut_inj in H as [-> H]; [|done..].
  apply nul_cut_inj in H as [Hs%pretty_N_inj H]; [|apply pretty_nul_free..].
  apply nul_cut_inj in H as [-> H]; [|done..]. split; [done | congruence].
Qed.

Lemma linked_same_end l1 l2 :
  linked "" l1 → linked "" l2 →
  Forall (λ e, nul_free (ev_kind (ce_event e)) = true) l1 →
  Forall (λ e, nul_free (ev_kind (ce_event e)) = true) l2 →
  end_hash "" l1 = end_hash "" l2 →
  map row_content l1 = map row_content l2
  ∨ ∃ x y, x ∈ chain_inputs "" l1 ∧ y ∈ chain_inputs "" l2 ∧ collides x y.
Proof.
  revert l2. induction l1 as [|e1 l1 IH] using rev_ind; intros l2 H1 H2 K1 K2 He.
  - destruct l2 as [|e2 l2 _] using rev_ind; [by left|]. exfalso.
    apply linked_app in H2 as [_ (_ & Hh & _)]. unfold end_hash in He. rewrite last_snoc in He.
    simpl in He. rewrite Hh in He. symmetry in He. by apply sha256_hex_nonempty in He.
  - apply linked_app in H1 as [H1 (_ & Hh1 & _)].
    destruct l2 as [|e2 l2 _] using rev_ind.
    { exfalso. unfold end_hash in He. rewrite last_snoc in He. simpl in He. rewrite Hh1 in He.
      by apply sha256_hex_nonempty in He. }
    apply linked_app in H2 as [H2 (_ & Hh2 & _)].
    unfold end_hash in He. rewrite !last_snoc in He. simpl in He. rewrite Hh1, Hh2 in He.
    apply Forall_app in K1 as [K1 Ke1]. apply Forall_app in K2 as [K2 Ke2].
    rewrite Forall_singleton in Ke1, Ke2. rewrite !chain_inputs_app. simpl.
    apply sha256_eq_or_collides in He as [Hin|Hcol].
    + apply entry_input_inj in Hin as [Hp Hr]; try done; try by apply end_hash_nul_free.
      rewrite !map_app. simpl. rewrite Hr.
      destruct (IH l2 H1 H2 K1 K2 Hp) as [->|(x & y & Hx & Hy & Hc)]; [by left|].
      right. exists x, y. rewrite !elem_of_app. auto.
    + right. eexists _, _. rewrite !elem_of_app, !list_elem_of_singleton. eauto.
Qed.

(** Appending keeps a chain intact, and verification names the first row
    that does not follow from the rows before it, all of which are intact. *)
Theorem verify_locates_the_first_bad_row c :
  (chain_verify c = None → ∀ event, chain_verify (chain_push c event).2 = None)
  ∧ ∀ k, chain_verify c = Some k →
      ∃ pre e post, c = pre ++ e :: post ∧ k = length pre ∧ chain_verify pre = None
        ∧ ¬ (ce_prev_hash e = end_hash "" pre
             ∧ ce_hash e = sha256_hex (entry_input (end_hash "" pre) (ce_event e))).
Proof.
  unfold chain_verify. split.
  - rewrite verify_from_none. intros Hl event. apply verify_from_none. unfold chain_push. simpl.
    apply linked_app. split; [done|]. simpl. unfold end_hash. auto.
  - intros k (pre & e & post & -> & -> & Hl & He)%verify_from_some.
    exists pre, e, post. rewrite verify_from_none. auto.
Qed.

(** The row with another timestamp and other trace ids. *)
Definition restamp (e : ChainedEntry) (ts : N) (trace span : string) : ChainedEntry :=
  {| ce_event := {| ev_seq := ev_seq (ce_event e); ev_ts_ms := ts; ev_kind := ev_kind (ce_event e);
                    ev_payload := ev_payload (ce_event e); ev_trace_id := trace;
                    ev_span_id := span |};
     ce_hash := ce_hash e; ce_prev_hash := ce_prev_hash e |}.

(** Not every edit of a row breaks the chain: the digest leaves out the
    timestamp and the trace ids, so rows can be re-dated and re-attributed and
    the chain still verifies, against the committed head too. *)
Theorem restamped_rows_still_verify c head f :
  (∀ e, ∃ ts trace span, f e = restamp e ts trace span) →
  verify_against_head (map f c) head = verify_against_head c head.
Proof.
  intros Hf.
  assert (Hf' : ∀ e, ce_hash (f e) = ce_hash e ∧ ce_prev_hash (f e) = ce_prev_hash e
            ∧ ∀ prev, entry_input prev (ce_event (f e)) = entry_input prev (ce_event e)).
  { intros e. destruct (Hf e) as (ts & tr & sp & ->). done. }
  assert (Hv : ∀ prev i, verify_from prev i (map f c) = verify_from prev i c).
  { induction c as [|e c IH]; intros prev i; [done|]. simpl.
    destruct (Hf' e) as (Hh & Hp & Hi). by rewrite Hh, Hp, Hi, IH. }
  unfold verify_against_head, chain_verify, chain_head. rewrite Hv.
  change (map f c) with (f <$> c). rewrite fmap_last.
  destruct (last c) as [e|]; simpl; [|done]. by destruct (Hf' e) as (-> & _).
Qed.
(** [C38] A committed head pins what the digests cover: two chains that both
    verify against it have the same rows by sequence number, kind and serialized
    payload, so in particular the same length - or exhibit a SHA-256 collision
    between a text of the one and a text of the other -, provided the kinds hold
    no NUL. It pins nothing else: with other timestamps and trace ids a chain
    verifies just the same. *)
Theorem committed_head_pins_the_rows c1 c2 head :
  verify_against_head c1 head = Ok tt → verify_against_head c2 head = Ok tt →
  Forall (λ e, nul_free (ev_kind (ce_event e)) = true) c1 →
  Forall (λ e, nul_free (ev_kind (ce_event e)) = true) c2 →
  (map row_content c1 = map row_content c2 ∨ ∃ x y, x ∈ chain_inputs "" c1 ∧ y ∈ chain_inputs "" c2 ∧ collides x y) ∧
  (∀ f, (∀ e, ∃ ts trace span, f e = restamp e ts trace span) → verify_against_head (map f c1) head = Ok tt).
Proof.
  assert (Hok : ∀ c, verify_against_head c head = Ok tt → linked "" c ∧ end_hash "" c = head).
  { intros c. unfold verify_against_head, chain_verify, chain_head, end_hash.
    destruct (verify_from "" 0 c) eqn:Ev; [done|]. apply verify_from_none in Ev.
    case_bool_decide as Hh; [|done]. intros _. by rewrite Hh. }
  intros V1 V2 K1 K2. split; [|intros f Hf; by rewrite restamped_rows_still_verify].
  apply Hok in V1 as [H1 E1], V2 as [H2 E2]. apply linked_same_end; congruence.
Qed.

End chain.

(** ** Witnesses *)

(** A digest with the stated laws (and many collisions). *)
Definition length_digest : Sha256 := {| sha256_hex := λ s, pretty (N.of_nat (String.length s)) |}.
Lemma length_digest_laws : Sha256Laws length_digest.
Proof.
  constructor; intros s; simpl; [|apply pretty_nul_free].
  intros H. destruct (pretty_last (N.of_nat (String.length s))) as (p & d & Hp & _).
  rewrite H in Hp. by destruct p.
Qed.
Definition text_json : Json := {| json_value := string; json_to_vec := Some |}.

Definition demo_event (seq : N) : @AuditEvent text_json :=
  {| ev_seq := seq; ev_ts_ms := 5; ev_kind := "guard.blocked"; ev_payload := "{}" : @json_value text_json;
     ev_trace_id := ""; ev_span_id := "" |}.
Definition demo_chain : list (@ChainedEntry text_json) :=
  (@chain_push length_digest text_json
     (@chain_push length_digest text_json [] (demo_event 1)).2 (demo_event 2)).2.

(** A digest without collisions: the text in binary. *)
Definition binary_digest : Sha256 := {| sha256_hex := Json.enumerate |}.
Lemma binary_digest_laws : Sha256Laws binary_digest.
Proof.
  constructor; intros s; simpl; unfold Json.enumerate; [by destruct (countable.encode s)|]. unfold nul_free.
  by induction (countable.encode s).
Qed.
Definition binary_chain : list (@ChainedEntry text_json) :=
  (@chain_push binary_digest text_json (@chain_push binary_digest text_json [] (demo_event 1)).2 (demo_event 2)).2.
Definition redated (e : @ChainedEntry text_json) : @ChainedEntry text_json := @restamp text_json e 99 "t" "s".
Lemma committed_head_pins_the_rows_witness :
  let head := default "" (@chain_head text_json binary_chain) in
  redated <$> binary_chain ≠ binary_chain ∧ @verify_against_head binary_digest text_json (redated <$> binary_chain) head = Ok tt ∧
  map (@row_content text_json) binary_chain = map (@row_content text_json) (redated <$> binary_chain).
Proof.
  intros head. assert (V : @verify_against_head binary_digest text_json binary_chain head = Ok tt) by (vm_compute; reflexivity).
  assert (V2 : @verify_against_head binary_digest text_json (redated <$> binary_chain) head = Ok tt) by (vm_compute; reflexivity).
  destruct (@committed_head_pins_the_rows binary_digest text_json binary_digest_laws binary_chain (redated <$> binary_chain) head V V2)
    as [[Hr|(x & y & _ & _ & Hne & Hc)] _].
  - repeat constructor.
  - repeat constructor.
  - split; [intros E; apply (f_equal (fmap (λ e, ev_ts_ms (ce_event e)))) in E; by vm_compute in E|]. split; [exact V2|exact Hr].
  - exfalso. apply Hne. apply (f_equal (Json.from_enumeration (A := string))) in Hc. cbn [sha256_hex binary_digest] in Hc. rewrite !Json.from_enumerate in Hc. by injection Hc.
Defined.

Lemma verify_locates_the_first_bad_row_witness :
  @chain_verify length_digest text_json
    (@chain_push length_digest text_json demo_chain (demo_event 3)).2 = None.
Proof.
  refine (proj1 (@verify_locates_the_first_bad_row length_digest text_json demo_chain) _ _).
  vm_compute. reflexivity.
Defined.

Lemma restamped_rows_still_verify_witness :
  @verify_against_head length_digest text_json
    (map (λ e, @restamp text_json e 99 "t" "s") demo_chain) "21" = Ok tt.
Proof.
  rewrite (@restamped_rows_still_verify length_digest text_json demo_chain "21"); [vm_compute; reflexivity|].
  intros e. by exists 99%N, "t", "s".
Defined.
