(* ===== verification/Ipc.v ===== *)
(** * The IPC transport ([everyaios-ipc/src/frame.rs], [handle.rs], [budget.rs])

    Length-prefixed frames over a byte stream, one-shot payload handles, and
    the per-kind payload budgets. A [Vec<u8>] is the string of its bytes. *)
From S2P Require Import Prelude NetFloor.

(* SRC ipc/src/frame.rs @const:MAX_FRAME_LEN MAX_FRAME_LEN *)
Definition MAX_FRAME_LEN : N := 16777216.

(** [u32::to_le_bytes] / [u32::from_le_bytes]. *)
Definition u32_to_le (n : N) : string :=
  String (ascii_of_N (n mod 256)) (String (ascii_of_N (n / 256 mod 256))
    (String (ascii_of_N (n / 65536 mod 256)) (ch (ascii_of_N (n / 16777216 mod 256))))).
Definition u32_from_le (a b c d : ascii) : N :=
  (N_of_ascii a + 256 * (N_of_ascii b + 256 * (N_of_ascii c + 256 * N_of_ascii d)))%N.

Definition byte_len (s : string) : N := N.of_nat (String.length s).

(** [None] is the panic of [expect("payload exceeds u32")]; the cap itself is a
    [debug_assert!], absent from a release build. *)
(* SRC ipc/src/frame.rs @fn:encode encode *)
Definition encode (payload : string) : option string :=
  if (byte_len payload <=? u32_max)%N then Some (u32_to_le (byte_len payload) +:+ payload) else None.

(* SRC ipc/src/frame.rs @enum:FrameError FrameError *)
Inductive FrameError := FrameIo (kind : string) | TooLarge (len : N).

(** [read_exact] of [n] bytes from an in-memory reader: the bytes and the rest,
    or [UnexpectedEof]. *)
Fixpoint read_exact (n : nat) (s : string) : option (string * string) :=
  match n with
  | 0 => Some ("", s)
  | S n' => match s with
            | EmptyString => None
            | String c s' => '(x, rest) ← read_exact n' s'; Some (String c x, rest)
            end
  end.

(** One frame and the stream after it. *)
(* SRC ipc/src/frame.rs @fn:decode decode *)
Definition decode (reader : string) : result (option string) FrameError * string :=
  match reader with
  | String a (String b (String c (String d rest))) =>
      let len := u32_from_le a b c d in
      if (MAX_FRAME_LEN <? len)%N then (Err (TooLarge len), rest)
      else match read_exact (N.to_nat len) rest with
           | Some (buf, rest') => (Ok (Some buf), rest')
           | None => (Err (FrameIo "UnexpectedEof"), "")
           end
  | _ => (Ok None, "")
  end.

(** The loop of [decode_all]. Each frame consumes its four header bytes, so the
    stream's length is fuel enough. *)
Fixpoint decode_loop (fuel : nat) (reader : string) : result (list string) FrameError :=
  match fuel with
  | 0 => Ok []
  | S fuel' =>
      match decode reader with
      | (Ok (Some frame), rest) => out <-? decode_loop fuel' rest;; Ok (frame :: out)
      | (Ok None, _) => Ok []
      | (Err e, _) => Err e
      end
  end.

(* SRC ipc/src/frame.rs @fn:decode_all decode_all *)
Definition decode_all (data : string) : result (list string) FrameError :=
  decode_loop (S (String.length data)) data.

(** [write_frame] of each payload in turn. *)
Fixpoint write_frames (payloads : list string) : option string :=
  match payloads with
  | [] => Some ""
  | p :: rest => a ← encode p; b ← write_frames rest; Some (a +:+ b)
  end.

(** ** Frames *)

Lemma le_digit n : N_of_ascii (ascii_of_N (n mod 256)) = (n mod 256)%N.
Proof. apply N_ascii_embedding. by apply N.mod_lt. Qed.

Lemma u32_le_round_trip n :
  (n ≤ u32_max)%N →
  u32_from_le (ascii_of_N (n mod 256)) (ascii_of_N (n / 256 mod 256))
    (ascii_of_N (n / 65536 mod 256)) (ascii_of_N (n / 16777216 mod 256)) = n.
Proof.
  intros Hn. unfold u32_from_le, u32_max in *. rewrite !le_digit.
  change 65536%N with (256 * 256)%N. change 16777216%N with (256 * (256 * 256))%N.
  rewrite <- !N.Div0.div_div.
  destruct (split_at n 256 ltac:(done)) as (q1 & r1 & -> & E1 & H1).
  destruct (split_at q1 256 ltac:(done)) as (q2 & r2 & -> & E2 & H2).
  destruct (split_at q2 256 ltac:(done)) as (q3 & r3 & -> & E3 & H3).
  assert (q3 < 256)%N by lia. rewrite (N.mod_small q3) by done.
  assert (Hm : ∀ m q r, (m = 256 * q + r → r < 256 → m mod 256 = r)%N).
  { intros m q r Hm Hr. symmetry. by apply (N.mod_unique _ _ q). }
  rewrite (Hm n q1 r1), (Hm q1 q2 r2), (Hm q2 q3 r3) by done. lia.
Qed.

Lemma read_exact_app s rest : read_exact (String.length s) (s +:+ rest) = Some (s, rest).
Proof.
  induction s as [|c s IH]; [done|]. rewrite app_string_cons. simpl. by rewrite IH.
Qed.

Lemma u32_from_le_max a b c d : (u32_from_le a b c d ≤ u32_max)%N.
Proof.
  unfold u32_from_le, u32_max. pose proof (N_ascii_bounded a). pose proof (N_ascii_bounded b).
  pose proof (N_ascii_bounded c). pose proof (N_ascii_bounded d). lia.
Qed.

Lemma decode_header n rest :
  (n ≤ u32_max)%N →
  decode (u32_to_le n +:+ rest) =
  if (MAX_FRAME_LEN <? n)%N then (Err (TooLarge n), rest)
  else match read_exact (N.to_nat n) rest with
       | Some (buf, rest') => (Ok (Some buf), rest')
       | None => (Err (FrameIo "UnexpectedEof"), "")
       end.
Proof.
  intros Hn. unfold u32_to_le, ch. rewrite !app_string_cons.
  change ("" +:+ rest) with rest. cbn [decode]. by rewrite u32_le_round_trip.
Qed.

(** A frame that is written comes back: the first frame of a stream is the
    payload that was encoded and the rest of the stream is untouched. A payload
    above the cap is written all the same, and refused by the reader. *)
Theorem frame_round_trip payload data rest :
  encode payload = Some data →
  decode (data +:+ rest) =
  if (MAX_FRAME_LEN <? byte_len payload)%N
  then (Err (TooLarge (byte_len payload)), payload +:+ rest)
  else (Ok (Some payload), rest).
Proof.
  unfold encode. destruct (N.leb_spec (byte_len payload) u32_max) as [Hl|]; [|done].
  intros [= <-]. rewrite app_string_assoc, decode_header by done.
  destruct (MAX_FRAME_LEN <? byte_len payload)%N; [done|].
  unfold byte_len. by rewrite Nat2N.id, read_exact_app.
Qed.

Lemma encode_small p : (byte_len p ≤ MAX_FRAME_LEN)%N → encode p = Some (u32_to_le (byte_len p) +:+ p).
Proof.
  intros Hp. unfold encode. destruct (N.leb_spec (byte_len p) u32_max); [done|].
  unfold MAX_FRAME_LEN, u32_max in *. lia.
Qed.

Lemma decode_short s : String.length s < 4 → decode s = (Ok None, "").
Proof. intros H. destruct s as [|a [|b [|c [|d s]]]]; simpl in *; try done; lia. Qed.

(** The payload above the cap that comes first. *)
Definition oversized (p : string) : bool := (MAX_FRAME_LEN <? byte_len p)%N.
Lemma decode_loop_frames ps data tl fuel :
  write_frames ps = Some data → String.length tl < 4 → String.length data < fuel →
  decode_loop fuel (data +:+ tl) = match List.find oversized ps with None => Ok ps | Some p => Err (TooLarge (byte_len p)) end.
Proof.
  revert data fuel. induction ps as [|p ps IH]; intros data fuel Hw Htl Hf; simpl in Hw.
  - injection Hw as <-. destruct fuel; [simpl in Hf; lia|]. simpl.
    change ("" +:+ tl) with tl. by rewrite decode_short.
  - destruct (encode p) as [a|] eqn:Ep; [|done]. simpl in Hw.
    destruct (write_frames ps) as [b|] eqn:Eb; simpl in Hw; [|done]. injection Hw as <-.
    destruct fuel as [|fuel]; [lia|]. cbn [decode_loop List.find]. unfold oversized at 1.
    rewrite app_string_assoc, (frame_round_trip p) by done.
    destruct (MAX_FRAME_LEN <? byte_len p)%N; [done|].
    assert (4 <= String.length a) as Ha.
    { unfold encode in Ep. destruct (_ <=? _)%N; [|done]. injection Ep as <-. rewrite string_length_app. change (String.length (u32_to_le (byte_len p))) with 4. lia. }
    rewrite string_length_app in Hf. rewrite (IH b fuel) by (done || lia). by destruct (List.find oversized ps).
Qed.

(** [C39] Decoding the frames that were written, of any payloads a frame can be
    encoded for, gives exactly those payloads, in order - if none is longer than
    the 16 MiB of a frame; otherwise the stream is refused with the length of
    the first that is. *)
Theorem frames_round_trip ps data :
  write_frames ps = Some data →
  decode_all data = match List.find oversized ps with None => Ok ps | Some p => Err (TooLarge (byte_len p)) end.
Proof.
  intros Hw. unfold decode_all. rewrite <- (app_string_nil_r data) at 2. apply decode_loop_frames; [done|simpl; lia|lia].
Qed.

(** A header cut short is read as a clean end: up to three stray bytes after the
    last frame go unnoticed. *)
Theorem stray_header_is_a_clean_end ps data stray :
  write_frames ps = Some data → List.find oversized ps = None → String.length stray < 4 → decode_all (data +:+ stray) = Ok ps.
Proof.
  intros Hw Hps Hs. unfold decode_all. rewrite (decode_loop_frames ps data stray) by (done || (rewrite string_length_app; lia)). by rewrite Hps.
Qed.

(** ** Handles *)

(* SRC ipc/src/handle.rs @const:TRUNCATION_THRESHOLD TRUNCATION_THRESHOLD *)
Definition TRUNCATION_THRESHOLD : N := 1048576.

(* SRC ipc/src/handle.rs @struct:HandleRef HandleRef *)
Record HandleRef := { hr_id : N }.

(* SRC ipc/src/handle.rs @fn:wire HandleRef::wire *)
Definition wire (h : HandleRef) : string := "ref:handle:" +:+ pretty (hr_id h).

(* SRC ipc/src/handle.rs @fn:parse HandleRef::parse *)
Definition handle_parse (s : string) : option HandleRef :=
  id ← strip_prefix "ref:handle:" s; n ← parse_uint u64_max id; Some {| hr_id := n |}.

(* SRC ipc/src/handle.rs @enum:WirePayload WirePayload *)
Inductive WirePayload := Inline (data : string) | Ref (h : HandleRef).

(* SRC ipc/src/handle.rs @struct:HandleStore HandleStore *)
Record HandleStore := { hs_inner : gmap N string; hs_next : N }.

(* SRC ipc/src/handle.rs @fn:new HandleStore::new *)
Definition handle_store_new : HandleStore := {| hs_inner := ∅; hs_next := 1 |}.

(* SRC ipc/src/handle.rs @fn:store_above HandleStore::store_above *)
Definition store_above (self : HandleStore) (payload : string) (threshold : N)
    : WirePayload * HandleStore :=
  if (byte_len payload <=? threshold)%N then (Inline payload, self)
  else
    let id := hs_next self in
    (Ref {| hr_id := id |},
     {| hs_inner := <[id := payload]> (hs_inner self); hs_next := u64_add id 1 |}).

(* SRC ipc/src/handle.rs @fn:store HandleStore::store *)
Definition handle_store (self : HandleStore) (payload : string) : WirePayload * HandleStore :=
  store_above self payload TRUNCATION_THRESHOLD.

(* SRC ipc/src/handle.rs @fn:take HandleStore::take *)
Definition handle_take (self : HandleStore) (id : N) : option string * HandleStore :=
  (hs_inner self !! id, {| hs_inner := delete id (hs_inner self); hs_next := hs_next self |}).

(** A handle survives the wire. *)
Theorem handle_wire_round_trip h : (hr_id h ≤ u64_max)%N → handle_parse (wire h) = Some h.
Proof.
  intros Hh. unfold handle_parse, wire.
  assert (strip_prefix "ref:handle:" ("ref:handle:" +:+ pretty (hr_id h)) = Some (pretty (hr_id h)))
    as -> by by apply strip_prefix_spec.
  simpl. rewrite parse_uint_pretty by done. by destruct h.
Qed.

Inductive handle_op := HStore (payload : string) (threshold : N) | HTake (id : N).
Definition handle_step (s : HandleStore) (op : handle_op) : HandleStore :=
  match op with
  | HStore p t => (store_above s p t).2
  | HTake id => (handle_take s id).2
  end.
Definition handle_run (s : HandleStore) (ops : list handle_op) : HandleStore :=
  fold_left handle_step ops s.

(** Handles in the store were handed out already. *)
Definition handles_below (s : HandleStore) : Prop :=
  ∀ id, is_Some (hs_inner s !! id) → (id < hs_next s)%N.

Lemma handle_step_below s op :
  handles_below s → (hs_next s < u64_max)%N →
  handles_below (handle_step s op) ∧ (hs_next s ≤ hs_next (handle_step s op) ≤ hs_next s + 1)%N.
Proof.
  intros Hb Hn. destruct op as [p t|id]; simpl.
  - unfold store_above. destruct (byte_len p <=? t)%N; simpl; [split; [done | lia]|].
    rewrite u64_add_small by lia. split; [|lia]. intros id. simpl.
    destruct (decide (id = hs_next s)) as [->|Hne]; [lia|].
    rewrite lookup_insert_ne by done. intros Hid. specialize (Hb id Hid). lia.
  - split; [|lia]. intros id' Hid. simpl in *. apply Hb.
    destruct (decide (id' = id)) as [->|]; [by rewrite lookup_delete_eq in Hid; destruct Hid|].
    by rewrite lookup_delete_ne in Hid.
Qed.

Lemma handle_run_gone id ops : ∀ s,
  handles_below s → (hs_next s + N.of_nat (length ops) ≤ u64_max)%N → (id < hs_next s)%N →
  hs_inner s !! id = None → hs_inner (handle_run s ops) !! id = None.
Proof.
  induction ops as [|op ops IH]; intros s Hb Hn Hid Hnone; [done|]. simpl in Hn.
  destruct (handle_step_below s op Hb) as [Hb' [Hge Hle]]; [lia|].
  apply IH; [done | lia | lia |].
  destruct op as [p t|id']; simpl.
  - unfold store_above. case_match; simpl; [done|]. rewrite lookup_insert_ne by lia. done.
  - destruct (decide (id' = id)) as [->|]; [apply lookup_delete_eq | by rewrite lookup_delete_ne].
Qed.

(** A handle is taken at most once: its payload is what was stored, and
    after it has been taken no number of further stores and takes makes the id
    answer again (until the 64-bit counter wraps). *)
Theorem handle_taken_once s payload threshold h s1 ops :
  handles_below s → (hs_next s + 1 + N.of_nat (length ops) ≤ u64_max)%N →
  store_above s payload threshold = (Ref h, s1) →
  (handle_take s1 (hr_id h)).1 = Some payload
  ∧ (handle_take (handle_run (handle_take s1 (hr_id h)).2 ops) (hr_id h)).1 = None.
Proof.
  unfold store_above. intros Hb Hn. destruct (byte_len payload <=? threshold)%N; [done|].
  intros [= <- <-]. simpl. rewrite lookup_insert_eq. split; [done|].
  rewrite u64_add_small by lia. apply handle_run_gone; simpl.
  - intros id. simpl. destruct (decide (id = hs_next s)) as [->|Hne].
    + rewrite lookup_delete_eq. by intros [].
    + rewrite lookup_delete_ne, lookup_insert_ne by done. intros Hid. specialize (Hb id Hid).
      simpl. lia.
  - lia.
  - lia.
  - apply lookup_delete_eq.
Qed.

(** ** Budgets *)

(* SRC ipc/src/budget.rs @enum:MessageKind MessageKind *)
Inductive MessageKind := ToolResult | ScrapedPage | A11ySnapshot | AuditExport | DefaultKind.
#[export] Instance MessageKind_eq : EqDecision MessageKind.
Proof. solve_decision. Defined.

(* SRC ipc/src/budget.rs @struct:PayloadBudget PayloadBudget *)
Record PayloadBudget := { inline_limit : N; preview_limit : N }.

(* SRC ipc/src/budget.rs @fn:budget_for budget_for *)
Definition budget_for (kind : MessageKind) : PayloadBudget :=
  match kind with
  | ToolResult => {| inline_limit := 50 * 1024; preview_limit := 2 * 1024 |}
  | ScrapedPage => {| inline_limit := 2 * 1024; preview_limit := 2 * 1024 |}
  | A11ySnapshot => {| inline_limit := 8 * 1024; preview_limit := 1024 |}
  | AuditExport => {| inline_limit := 64 * 1024; preview_limit := 4 * 1024 |}
  | DefaultKind => {| inline_limit := 256 * 1024; preview_limit := 4 * 1024 |}
  end%N.

(* SRC ipc/src/budget.rs @struct:Budgeted Budgeted *)
Record Budgeted := { bg_inline : string; bg_handle : option HandleRef; bg_truncated : bool }.

(** The dash of the marker is three bytes of UTF-8. *)
Definition EM_DASH : string :=
  String.string_of_list_ascii (map ascii_of_N [226; 128; 148]%N).

(* SRC ipc/src/budget.rs @fn:preview_marker preview_marker *)
Definition preview_marker (limit : N) : string :=
  String (ascii_of_N 10)
    ("[truncated by payload budget " +:+ EM_DASH
     +:+ " full payload behind ref handle; inline preview capped at "
     +:+ pretty limit +:+ " bytes]").

Fixpoint take_string (n : nat) (s : string) : string :=
  match n, s with
  | S n', String c s' => String c (take_string n' s')
  | _, _ => ""
  end.

(** [None] stands for the [unreachable!] branch. *)
(* SRC ipc/src/budget.rs @fn:apply_budget apply_budget *)
Definition apply_budget (store : HandleStore) (kind : MessageKind) (payload : string)
    : option (Budgeted * HandleStore) :=
  let budget := budget_for kind in
  if (byte_len payload <=? inline_limit budget)%N then
    Some ({| bg_inline := payload; bg_handle := None; bg_truncated := false |}, store)
  else
    let preview_len := N.min (preview_limit budget) (byte_len payload) in
    let inline := take_string (N.to_nat preview_len) payload +:+ preview_marker (preview_limit budget) in
    match store_above store payload (inline_limit budget) with
    | (Ref h, store') =>
        Some ({| bg_inline := inline; bg_handle := Some h; bg_truncated := true |}, store')
    | (Inline _, _) => None
    end.

Lemma take_string_length n s : n ≤ String.length s → String.length (take_string n s) = n.
Proof.
  revert s. induction n as [|n IH]; intros [|c s] H; simpl in *; try done; try lia.
  rewrite IH; lia.
Qed.

Lemma marker_length kind : byte_len (preview_marker (preview_limit (budget_for kind))) = 102%N.
Proof. by destruct kind. Qed.

(** Budgeting loses nothing: a payload within its limit is inline as it
    is, a larger one is behind a handle that still yields all of it. But the
    inline part keeps to the documented limit for every kind except scraped
    pages, whose preview takes the whole limit before the marker is appended. *)
Theorem budget_spec store kind payload :
  ∃ b store', apply_budget store kind payload = Some (b, store') ∧
  if (byte_len payload <=? inline_limit (budget_for kind))%N
  then b = {| bg_inline := payload; bg_handle := None; bg_truncated := false |} ∧ store' = store
  else bg_truncated b = true
    ∧ (∃ h, bg_handle b = Some h ∧ (handle_take store' (hr_id h)).1 = Some payload)
    ∧ byte_len (bg_inline b) = (preview_limit (budget_for kind) + 102)%N
    ∧ (byte_len (bg_inline b) ≤ inline_limit (budget_for kind) ↔ kind ≠ ScrapedPage)%N.
Proof.
  unfold apply_budget, store_above.
  destruct (N.leb_spec (byte_len payload) (inline_limit (budget_for kind))) as [Hle|Hgt].
  { eexists _, _. done. }
  eexists _, _. split; [done|]. simpl.
  assert (Hlen : byte_len (take_string (N.to_nat (N.min (preview_limit (budget_for kind)) (byte_len payload)))
            payload +:+ preview_marker (preview_limit (budget_for kind)))
          = (preview_limit (budget_for kind) + 102)%N).
  { unfold byte_len at 1. rewrite string_length_app, Nat2N.inj_add.
    fold (byte_len (preview_marker (preview_limit (budget_for kind)))). rewrite marker_length.
    assert (preview_limit (budget_for kind) ≤ inline_limit (budget_for kind))%N by (by destruct kind).
    rewrite take_string_length; unfold byte_len in *; lia. }
  rewrite Hlen. split_and!; [done | | done |].
  - eexists. split; [done|]. simpl. by rewrite lookup_insert_eq.
  - destruct kind; simpl; split; try done; lia.
Qed.

(** ** Witnesses *)

Lemma frame_round_trip_witness :
  ∃ data, encode "{}" = Some data ∧ decode (data +:+ "tail") = (Ok (Some "{}"), "tail").
Proof.
  eexists. split; [reflexivity|]. rewrite (frame_round_trip "{}"); reflexivity.
Defined.

Lemma frames_round_trip_witness :
  ∃ data, write_frames ["a"; ""; "{}"] = Some data ∧ decode_all data = Ok ["a"; ""; "{}"].
Proof.
  eexists. split; [reflexivity|]. rewrite (frames_round_trip ["a"; ""; "{}"]); reflexivity.
Defined.

Lemma handle_wire_round_trip_witness : handle_parse (wire {| hr_id := 42 |}) = Some {| hr_id := 42 |}.
Proof. apply handle_wire_round_trip. vm_compute. discriminate. Defined.

Lemma handle_taken_once_witness :
  ∃ h s1, store_above handle_store_new "big" 1 = (Ref h, s1)
    ∧ (handle_take s1 (hr_id h)).1 = Some "big"
    ∧ (handle_take (handle_run (handle_take s1 (hr_id h)).2 [HStore "again" 1]) (hr_id h)).1 = None.
Proof.
  eexists _, _. split; [vm_compute; reflexivity|].
  apply (handle_taken_once handle_store_new "big" 1 _ _ [HStore "again" 1]).
  - intros id. simpl. rewrite lookup_empty. by intros [].
  - vm_compute. discriminate.
  - vm_compute. reflexivity.
Defined.
