(* ===== verification/TaskLedger.v ===== *)
(** * The detached-work ledger ([everyaios-core/src/task_ledger.rs])

    Task records, their lifecycle, delivery, retention and the push of
    completions. The store is what its last successful save holds; every
    operation takes the clock's reading and whether its save succeeds. The
    watchers are the log of the snapshots they were called with. *)
From S2P Require Import Prelude F64.

(* SRC core/src/task_ledger.rs @const:RETENTION_MS RETENTION_MS *)
Definition RETENTION_MS : Z := 7 * 24 * 3600 * 1000.
(* SRC core/src/task_ledger.rs @const:DEFAULT_LOST_GRACE_MS DEFAULT_LOST_GRACE_MS *)
Definition DEFAULT_LOST_GRACE_MS : Z := 5 * 60 * 1000.

(** Machine arithmetic of the release build: two's complement, wrapping. *)
Definition u32_add (a b : N) : N := (a + b) mod 4294967296.
Definition i64_sub (a b : Z) : Z := ((a - b + 9223372036854775808) mod 18446744073709551616 - 9223372036854775808)%Z.

Lemma i64_sub_exact a b :
  (-9223372036854775808 ≤ a - b < 9223372036854775808)%Z → i64_sub a b = (a - b)%Z.
Proof. unfold i64_sub. intros H. rewrite Z.mod_small; lia. Qed.

(* SRC core/src/task_ledger.rs @enum:TaskKind TaskKind *)
Inductive TaskKind := KAutomation | KSubagent | KAcp | KCli | KScheduled.

(* SRC core/src/task_ledger.rs @enum:TaskStatus TaskStatus *)
Inductive TaskStatus := Queued | Running | Succeeded | Failed | TimedOut | Cancelled | Lost.
#[export] Instance TaskStatus_eq : EqDecision TaskStatus.
Proof. solve_decision. Defined.

(* SRC core/src/task_ledger.rs @fn:is_terminal TaskStatus::is_terminal *)
Definition is_terminal (s : TaskStatus) : bool :=
  match s with Succeeded | Failed | TimedOut | Cancelled | Lost => true | Queued | Running => false end.

(** [{:?}]. *)
Definition status_debug (s : TaskStatus) : string :=
  match s with
  | Queued => "Queued" | Running => "Running" | Succeeded => "Succeeded" | Failed => "Failed"
  | TimedOut => "TimedOut" | Cancelled => "Cancelled" | Lost => "Lost"
  end.

(* SRC core/src/task_ledger.rs @enum:DeliveryState DeliveryState *)
Inductive DeliveryState :=
  | DPending
  | DDelivered
  | DBlocked (retries : N) (deadline_ms : Z)
  | DDismissed.

(* SRC core/src/task_ledger.rs @struct:TaskRecord TaskRecord *)
Record TaskRecord := {
  tr_id : string;
  tr_kind : TaskKind;
  tr_title : string;
  tr_status : TaskStatus;
  tr_requester : option string;
  tr_created_ms : Z;
  tr_started_ms : option Z;
  tr_finished_ms : option Z;
  tr_last_heartbeat_ms : option Z;
  tr_error : option string;
  tr_retry_generation : N;
  tr_delivery : DeliveryState;
  tr_tokens_in : N;
  tr_tokens_out : N;
  tr_cost_usd : f64
}.

(** Record updates: the run's fields, the delivery, the cost. *)
Definition with_run (r : TaskRecord) (s : TaskStatus) (started finished beat : option Z)
    (error : option string) : TaskRecord :=
  {| tr_id := tr_id r; tr_kind := tr_kind r; tr_title := tr_title r; tr_status := s;
     tr_requester := tr_requester r; tr_created_ms := tr_created_ms r; tr_started_ms := started;
     tr_finished_ms := finished; tr_last_heartbeat_ms := beat; tr_error := error;
     tr_retry_generation := tr_retry_generation r; tr_delivery := tr_delivery r;
     tr_tokens_in := tr_tokens_in r; tr_tokens_out := tr_tokens_out r; tr_cost_usd := tr_cost_usd r |}.
Definition finish (r : TaskRecord) (s : TaskStatus) (now : Z) (error : option string) : TaskRecord :=
  with_run r s (tr_started_ms r) (Some now) (tr_last_heartbeat_ms r) error.
Definition with_delivery (r : TaskRecord) (d : DeliveryState) : TaskRecord :=
  {| tr_id := tr_id r; tr_kind := tr_kind r; tr_title := tr_title r; tr_status := tr_status r;
     tr_requester := tr_requester r; tr_created_ms := tr_created_ms r;
     tr_started_ms := tr_started_ms r; tr_finished_ms := tr_finished_ms r;
     tr_last_heartbeat_ms := tr_last_heartbeat_ms r; tr_error := tr_error r;
     tr_retry_generation := tr_retry_generation r; tr_delivery := d;
     tr_tokens_in := tr_tokens_in r; tr_tokens_out := tr_tokens_out r; tr_cost_usd := tr_cost_usd r |}.

(* SRC core/src/task_ledger.rs @fn:attach_cost TaskRecord::attach_cost *)
Definition record_attach_cost (r : TaskRecord) (tokens_in tokens_out : N) (cost : f64) : TaskRecord :=
  {| tr_id := tr_id r; tr_kind := tr_kind r; tr_title := tr_title r; tr_status := tr_status r;
     tr_requester := tr_requester r; tr_created_ms := tr_created_ms r;
     tr_started_ms := tr_started_ms r; tr_finished_ms := tr_finished_ms r;
     tr_last_heartbeat_ms := tr_last_heartbeat_ms r; tr_error := tr_error r;
     tr_retry_generation := tr_retry_generation r; tr_delivery := tr_delivery r;
     tr_tokens_in := u64_saturating_add (tr_tokens_in r) tokens_in;
     tr_tokens_out := u64_saturating_add (tr_tokens_out r) tokens_out;
     tr_cost_usd := f64_add (tr_cost_usd r) cost |}.

(** [saved] is what the store would load; [fired] what the watchers saw. *)
(* SRC core/src/task_ledger.rs @struct:TaskLedger TaskLedger *)
Record TaskLedger := {
  records : list TaskRecord;
  saved : list TaskRecord;
  fired : list TaskRecord;
  grace_ms : Z;
  next_seq : N
}.

(* SRC core/src/task_ledger.rs @fn:new#3 TaskLedger::new *)
Definition ledger_new (store : list TaskRecord) : TaskLedger :=
  {| records := store; saved := store; fired := []; grace_ms := DEFAULT_LOST_GRACE_MS; next_seq := 1 |}.

Definition with_records (l : TaskLedger) (rs : list TaskRecord) : TaskLedger :=
  {| records := rs; saved := saved l; fired := fired l; grace_ms := grace_ms l; next_seq := next_seq l |}.

(* SRC core/src/task_ledger.rs @fn:persist TaskLedger::persist *)
Definition persist (l : TaskLedger) (io : bool) : result unit string * TaskLedger :=
  if io then (Ok tt, {| records := records l; saved := records l; fired := fired l;
                        grace_ms := grace_ms l; next_seq := next_seq l |})
  else (Err "write: io error", l).

(* SRC core/src/task_ledger.rs @fn:push_terminal TaskLedger::push_terminal *)
Definition push_terminal (l : TaskLedger) (r : TaskRecord) : TaskLedger :=
  {| records := records l; saved := saved l; fired := fired l ++ [r];
     grace_ms := grace_ms l; next_seq := next_seq l |}.

(** [{:06}]. *)
Fixpoint zeros (n : nat) : string := match n with 0 => "" | S n' => String "0" (zeros n') end.
Definition pad6 (s : string) : string := zeros (6 - String.length s) +:+ s.

(* SRC core/src/task_ledger.rs @fn:next_id TaskLedger::next_id *)
Definition next_id (l : TaskLedger) : string * TaskLedger :=
  ("task-" +:+ pad6 (pretty (next_seq l)),
   {| records := records l; saved := saved l; fired := fired l; grace_ms := grace_ms l;
      next_seq := u64_add (next_seq l) 1 |}).

(** [find_mut(id)?] followed by an update that may refuse: the first record with
    the id, replaced in place. *)
(* SRC core/src/task_ledger.rs @fn:find_mut TaskLedger::find_mut *)
Fixpoint find_mut (id : string) (f : TaskRecord → result TaskRecord string) (rs : list TaskRecord)
    : result (TaskRecord * list TaskRecord) string :=
  match rs with
  | [] => Err ("no such task: " +:+ id)
  | r :: rest =>
      if String.eqb (tr_id r) id then r' <-? f r;; Ok (r', r' :: rest)
      else x <-? find_mut id f rest;; Ok (x.1, r :: x.2)
  end.

(** The shape of every transition: update the record, [let _ = persist()],
    optionally push the snapshot. *)
Definition transition (l : TaskLedger) (io push : bool) (id : string)
    (f : TaskRecord → result TaskRecord string) : result unit string * TaskLedger :=
  match find_mut id f (records l) with
  | Err e => (Err e, l)
  | Ok (snapshot, rs) =>
      let l1 := (persist (with_records l rs) io).2 in
      (Ok tt, if push then push_terminal l1 snapshot else l1)
  end.

Definition queued_record (id : string) (kind : TaskKind) (title : string) (requester : option string)
    (now : Z) (generation : N) : TaskRecord :=
  {| tr_id := id; tr_kind := kind; tr_title := title; tr_status := Queued; tr_requester := requester;
     tr_created_ms := now; tr_started_ms := None; tr_finished_ms := None; tr_last_heartbeat_ms := None;
     tr_error := None; tr_retry_generation := generation; tr_delivery := DPending;
     tr_tokens_in := 0; tr_tokens_out := 0; tr_cost_usd := f64_0 |}.

(* SRC core/src/task_ledger.rs @fn:enqueue TaskLedger::enqueue *)
Definition enqueue (l : TaskLedger) (now : Z) (io : bool) (kind : TaskKind) (title : string)
    (requester : option string) : string * TaskLedger :=
  let '(id, l1) := next_id l in
  (id, (persist (with_records l1 (records l1 ++ [queued_record id kind title requester now 0])) io).2).

(* SRC core/src/task_ledger.rs @fn:start TaskLedger::start *)
Definition start (l : TaskLedger) (now : Z) (io : bool) (id : string) : result unit string * TaskLedger :=
  transition l io false id (λ r,
    if bool_decide (tr_status r ≠ Queued)
    then Err ("cannot start " +:+ id +:+ " from " +:+ status_debug (tr_status r))
    else Ok (with_run r Running (Some now) (tr_finished_ms r) (Some now) (tr_error r))).

(** The heartbeat alone does not persist. *)
(* SRC core/src/task_ledger.rs @fn:heartbeat TaskLedger::heartbeat *)
Definition heartbeat (l : TaskLedger) (now : Z) (id : string) : result unit string * TaskLedger :=
  transition l false false id (λ r,
    if bool_decide (tr_status r ≠ Running) then Err ("heartbeat on non-running task " +:+ id)
    else Ok (with_run r Running (tr_started_ms r) (tr_finished_ms r) (Some now) (tr_error r))).

(* SRC core/src/task_ledger.rs @fn:complete TaskLedger::complete *)
Definition complete (l : TaskLedger) (now : Z) (io : bool) (id : string) (ok : bool)
    (error : option string) : result unit string * TaskLedger :=
  transition l io true id (λ r,
    if is_terminal (tr_status r)
    then Err ("cannot complete " +:+ id +:+ " from " +:+ status_debug (tr_status r))
    else Ok (finish r (if ok then Succeeded else Failed) now error)).

(* SRC core/src/task_ledger.rs @fn:cancel TaskLedger::cancel *)
Definition cancel (l : TaskLedger) (now : Z) (io : bool) (id : string) : result unit string * TaskLedger :=
  transition l io true id (λ r,
    if is_terminal (tr_status r) then Err ("cannot cancel terminal task " +:+ id)
    else Ok (finish r Cancelled now (tr_error r))).

(* SRC core/src/task_ledger.rs @fn:timeout TaskLedger::timeout *)
Definition timeout (l : TaskLedger) (now : Z) (io : bool) (id : string) : result unit string * TaskLedger :=
  transition l io true id (λ r,
    if bool_decide (tr_status r ≠ Running) then Err ("cannot timeout non-running task " +:+ id)
    else Ok (finish r TimedOut now (tr_error r))).

(** [r.last_heartbeat_ms.unwrap_or(r.started_ms.unwrap_or(now))]. *)
Definition last_alive (r : TaskRecord) (now : Z) : Z :=
  default (default now (tr_started_ms r)) (tr_last_heartbeat_ms r).

(* SRC core/src/task_ledger.rs @fn:mark_lost TaskLedger::mark_lost *)
Definition mark_lost (l : TaskLedger) (now : Z) (io : bool) (id : string) : result unit string * TaskLedger :=
  transition l io true id (λ r,
    if bool_decide (tr_status r ≠ Running) then Err ("cannot lose non-running task " +:+ id)
    else if (i64_sub now (last_alive r now) <? grace_ms l)%Z then Err "heartbeat fresh — live turn, not lost"
    else Ok (finish r Lost now (tr_error r))).

(** The ids [reap_lost] collects before it marks any. *)
Definition stale_ids (l : TaskLedger) (now : Z) : list string :=
  tr_id <$> filter (λ r, tr_status r = Running ∧ (grace_ms l ≤ i64_sub now (last_alive r now))%Z) (records l).

Fixpoint reap_loop (l : TaskLedger) (now : Z) (ids : list (string * bool)) : list string * TaskLedger :=
  match ids with
  | [] => ([], l)
  | (id, io) :: rest =>
      let '(r, l1) := mark_lost l now io id in
      let '(lost, l2) := reap_loop l1 now rest in
      (if is_ok r then id :: lost else lost, l2)
  end.

(** Every save of the sweep succeeds or fails alike. *)
(* SRC core/src/task_ledger.rs @fn:reap_lost TaskLedger::reap_lost *)
Definition reap_lost (l : TaskLedger) (now : Z) (io : bool) : list string * TaskLedger :=
  reap_loop l now ((λ id, (id, io)) <$> stale_ids l now).

(* SRC core/src/task_ledger.rs @fn:deliver TaskLedger::deliver *)
Definition deliver (l : TaskLedger) (io : bool) (id : string) : result unit string * TaskLedger :=
  transition l io false id (λ r,
    if negb (is_terminal (tr_status r)) then Err ("delivery only applies to terminal tasks: " +:+ id)
    else Ok (with_delivery r DDelivered)).

(* SRC core/src/task_ledger.rs @fn:retry_delivery TaskLedger::retry_delivery *)
Definition retry_delivery (l : TaskLedger) (io : bool) (id : string) (deadline_ms : Z) (cap : N)
    : result unit string * TaskLedger :=
  transition l io false id (λ r,
    if negb (is_terminal (tr_status r)) then Err ("delivery only applies to terminal tasks: " +:+ id)
    else
      let retries := match tr_delivery r with DBlocked n _ => u32_add n 1 | _ => 1%N end in
      Ok (with_delivery r (if (cap <? retries)%N then DDismissed else DBlocked retries deadline_ms))).

(* SRC core/src/task_ledger.rs @fn:attach_cost#2 TaskLedger::attach_cost *)
Definition ledger_attach_cost (l : TaskLedger) (io : bool) (id : string) (tokens_in tokens_out : N)
    (cost : f64) : result unit string * TaskLedger :=
  transition l io false id (λ r, Ok (record_attach_cost r tokens_in tokens_out cost)).

(* SRC core/src/task_ledger.rs @fn:get TaskLedger::get *)
Definition ledger_get (l : TaskLedger) (id : string) : option TaskRecord :=
  snd <$> list_find (λ r, tr_id r = id) (records l).

(* SRC core/src/task_ledger.rs @fn:retry TaskLedger::retry *)
Definition retry (l : TaskLedger) (now : Z) (io : bool) (id : string) : result string string * TaskLedger :=
  match ledger_get l id with
  | None => (Err ("no such task: " +:+ id), l)
  | Some old =>
      let '(new_id, l1) := next_id l in
      (Ok new_id,
       (persist (with_records l1 (records l1 ++
          [queued_record new_id (tr_kind old) (tr_title old) (tr_requester old) now
             (u32_add (tr_retry_generation old) 1)])) io).2)
  end.

(** Old enough to be pruned. *)
Definition prunable (cutoff : Z) (r : TaskRecord) : bool :=
  is_terminal (tr_status r) && (default (tr_created_ms r) (tr_finished_ms r) <? cutoff)%Z.

(* SRC core/src/task_ledger.rs @fn:prune TaskLedger::prune *)
Definition prune (l : TaskLedger) (now : Z) (io : bool) (retention_ms : Z) : list string * TaskLedger :=
  let cutoff := i64_sub now retention_ms in
  let pruned := tr_id <$> filter (λ r, prunable cutoff r = true) (records l) in
  let kept := filter (λ r, ¬ prunable cutoff r = true) (records l) in
  let l1 := with_records l kept in
  (pruned, if (length kept =? length (records l))%nat then l1 else (persist l1 io).2).

(* SRC core/src/task_ledger.rs @fn:list_status TaskLedger::list_status *)
Definition list_status (l : TaskLedger) (status : TaskStatus) : list TaskRecord :=
  filter (λ r, tr_status r = status) (records l).

(** A restart: a new ledger over what was saved. *)
Definition reload (l : TaskLedger) : TaskLedger := ledger_new (saved l).

(** ** Steps *)

Inductive task_op :=
  | OpEnqueue (now : Z) (io : bool) (kind : TaskKind) (title : string) (requester : option string)
  | OpStart (now : Z) (io : bool) (id : string)
  | OpHeartbeat (now : Z) (id : string)
  | OpComplete (now : Z) (io : bool) (id : string) (ok : bool) (error : option string)
  | OpCancel (now : Z) (io : bool) (id : string)
  | OpTimeout (now : Z) (io : bool) (id : string)
  | OpMarkLost (now : Z) (io : bool) (id : string)
  | OpDeliver (io : bool) (id : string)
  | OpRetryDelivery (io : bool) (id : string) (deadline_ms : Z) (cap : N)
  | OpAttachCost (io : bool) (id : string) (tokens_in tokens_out : N) (cost : f64)
  | OpRetry (now : Z) (io : bool) (id : string).

Definition task_step (l : TaskLedger) (op : task_op) : TaskLedger :=
  match op with
  | OpEnqueue now io k t r => (enqueue l now io k t r).2
  | OpStart now io id => (start l now io id).2
  | OpHeartbeat now id => (heartbeat l now id).2
  | OpComplete now io id ok e => (complete l now io id ok e).2
  | OpCancel now io id => (cancel l now io id).2
  | OpTimeout now io id => (timeout l now io id).2
  | OpMarkLost now io id => (mark_lost l now io id).2
  | OpDeliver io id => (deliver l io id).2
  | OpRetryDelivery io id d c => (retry_delivery l io id d c).2
  | OpAttachCost io id a b c => (ledger_attach_cost l io id a b c).2
  | OpRetry now io id => (retry l now io id).2
  end.

Lemma find_mut_ok id f rs r' rs' :
  find_mut id f rs = Ok (r', rs') →
  ∃ pre r post, rs = pre ++ r :: post ∧ rs' = pre ++ r' :: post ∧ tr_id r = id ∧ f r = Ok r'
    ∧ Forall (λ x, tr_id x ≠ id) pre.
Proof.
  revert r' rs'. induction rs as [|r rs IH]; intros r' rs' H; simpl in H; [done|].
  destruct (String.eqb_spec (tr_id r) id) as [Hid|Hid].
  - destruct (f r) as [x|e] eqn:Ef; simpl in H; [|done]. injection H as <- <-.
    exists [], r, rs. simpl. split_and!; first [done | by constructor].
  - destruct (find_mut id f rs) as [[x xs]|e]; simpl in H; [|done]. injection H as <- <-.
    destruct (IH x xs eq_refl) as (pre & y & post & -> & -> & ? & ? & ?).
    exists (r :: pre), y, post. split_and!; first [done | by constructor].
Qed.

Lemma persist_records l io : records (persist l io).2 = records l ∧ fired (persist l io).2 = fired l
  ∧ next_seq (persist l io).2 = next_seq l ∧ grace_ms (persist l io).2 = grace_ms l.
Proof. by destruct io. Qed.

(** A transition changes one record, as [f] says, or nothing. *)
Lemma transition_spec l io push id f :
  let '(r, l') := transition l io push id f in
  match r with
  | Ok _ => ∃ pre old new post,
      records l = pre ++ old :: post ∧ records l' = pre ++ new :: post
      ∧ tr_id old = id ∧ f old = Ok new ∧ Forall (λ x, tr_id x ≠ id) pre
      ∧ fired l' = fired l ++ (if push then [new] else [])
      ∧ saved l' = (if io then records l' else saved l)
      ∧ next_seq l' = next_seq l ∧ grace_ms l' = grace_ms l
  | Err _ => l' = l
  end.
Proof.
  unfold transition. destruct (find_mut id f (records l)) as [[x xs]|e] eqn:E; [|done].
  apply find_mut_ok in E as (pre & old & post & Hr & -> & Hid & Hf & Hpre).
  exists pre, old, x, post.
  destruct io, push; simpl; rewrite ?app_nil_r; split_and!; done.
Qed.

(** The run's lifecycle. *)
Inductive life : TaskStatus → TaskStatus → Prop :=
  | life_refl s : life s s
  | life_start : life Queued Running
  | life_end s s' : is_terminal s = false → s' ∈ [Succeeded; Failed; Cancelled] → life s s'
  | life_overdue s' : s' ∈ [TimedOut; Lost] → life Running s'.

Definition same_task (r r' : TaskRecord) : Prop :=
  tr_id r' = tr_id r ∧ tr_kind r' = tr_kind r ∧ tr_title r' = tr_title r
  ∧ tr_requester r' = tr_requester r ∧ tr_created_ms r' = tr_created_ms r
  ∧ tr_retry_generation r' = tr_retry_generation r.

Definition evolves (r r' : TaskRecord) : Prop := same_task r r' ∧ life (tr_status r) (tr_status r').

Lemma evolves_refl r : evolves r r.
Proof. split; [repeat split | constructor]. Qed.

Lemma evolves_all rs : Forall2 evolves rs rs.
Proof. induction rs; constructor; auto using evolves_refl. Qed.

Definition fresh_record (r : TaskRecord) : Prop :=
  tr_status r = Queued ∧ tr_started_ms r = None ∧ tr_finished_ms r = None ∧ tr_delivery r = DPending.

(** The snapshots of the records that a step made terminal. *)
Definition became_terminal (rs rs' : list TaskRecord) : list TaskRecord :=
  omap (λ p, if negb (is_terminal (tr_status p.1)) && is_terminal (tr_status p.2)
             then Some p.2 else None) (zip rs rs').

Lemma became_terminal_refl rs new : became_terminal rs (rs ++ new) = [].
Proof.
  unfold became_terminal. induction rs as [|r rs IH]; simpl; [by destruct new|].
  destruct (is_terminal (tr_status r)); exact IH.
Qed.

Lemma became_terminal_one pre old new post :
  became_terminal (pre ++ old :: post) (pre ++ new :: post) =
  if negb (is_terminal (tr_status old)) && is_terminal (tr_status new) then [new] else [].
Proof.
  unfold became_terminal. rewrite zip_with_app by done. rewrite omap_app.
  pose proof (became_terminal_refl pre []) as Hpre. pose proof (became_terminal_refl post []) as Hpost.
  unfold became_terminal in Hpre, Hpost. rewrite app_nil_r in Hpre, Hpost. rewrite Hpre. simpl.
  change (list_omap _ _ ?f ?l) with (omap f l).
  destruct (_ && _); [f_equal|]; exact Hpost.
Qed.

(** One step, as seen by the lifecycle. *)
Definition step_ok (l l' : TaskLedger) : Prop :=
  ∃ upd new, records l' = upd ++ new ∧ Forall2 evolves (records l) upd ∧ Forall fresh_record new
    ∧ fired l' = fired l ++ became_terminal (records l) (records l').

Lemma step_ok_same l : step_ok l l.
Proof.
  exists (records l), []. rewrite !app_nil_r.
  pose proof (became_terminal_refl (records l) []) as H. rewrite app_nil_r in H. rewrite H, app_nil_r.
  split_and!; try done. apply evolves_all.
Qed.

Lemma transition_step_ok l io push id f :
  (∀ r r', f r = Ok r' → evolves r r' ∧ (negb (is_terminal (tr_status r)) && is_terminal (tr_status r')) = push) →
  step_ok l (transition l io push id f).2.
Proof.
  intros Hf. pose proof (transition_spec l io push id f) as H.
  destruct (transition l io push id f) as [[u|e] l']; simpl; [|subst; apply step_ok_same].
  destruct H as (pre & old & new & post & Hr & Hr' & _ & Hnew & _ & Hfired & _).
  apply Hf in Hnew as [Hev Hpush]. exists (records l'), []. rewrite app_nil_r, Hr, Hr', Hfired.
  rewrite became_terminal_one, Hpush. split_and!; try done.
  - apply Forall2_app; [apply evolves_all|].
    constructor; [done | apply evolves_all].
Qed.

Lemma append_step_ok l l1 io r :
  records l1 = records l ++ [r] → fired l1 = fired l → fresh_record r → step_ok l (persist l1 io).2.
Proof.
  intros Hr Hf Hfresh. destruct (persist_records l1 io) as (Hr' & Hf' & _).
  exists (records l), [r].
  rewrite Hr', Hf', Hr, became_terminal_refl, Hf, app_nil_r. split_and!; try done.
  - apply evolves_all.
  - by constructor.
Qed.

(** Whatever the operation, no record leaves the lifecycle: records keep
    their identity, move only along queued, running, terminal - a terminal
    status is final - and new records start queued; and the watchers are called
    exactly with the records that became terminal in the step, once each. *)
Theorem ledger_lifecycle l op : step_ok l (task_step l op).
Proof.
  destruct op; simpl.
  - by eapply append_step_ok.
  - apply transition_step_ok. intros r r'. case_bool_decide as Hs; [done|].
    intros [= <-]. unfold evolves. simpl. rewrite Hs. repeat split. constructor.
  - apply transition_step_ok. intros r r'. case_bool_decide as Hs; [done|].
    intros [= <-]. unfold evolves. simpl. rewrite Hs. repeat split. constructor.
  - apply transition_step_ok. intros r r'. destruct (is_terminal (tr_status r)) eqn:Et; [done|].
    intros [= <-]. unfold evolves. simpl. split; [|by destruct ok].
    repeat split. apply life_end; [done | destruct ok; set_solver].
  - apply transition_step_ok. intros r r'. destruct (is_terminal (tr_status r)) eqn:Et; [done|].
    intros [= <-]. unfold evolves. simpl. split; [|done].
    repeat split. apply life_end; [done | set_solver].
  - apply transition_step_ok. intros r r'. case_bool_decide as Hs; [done|].
    intros [= <-]. unfold evolves. simpl. rewrite Hs. repeat split. apply life_overdue. set_solver.
  - apply transition_step_ok. intros r r'. case_bool_decide as Hs; [done|].
    destruct (_ <? _)%Z; [done|].
    intros [= <-]. unfold evolves. simpl. rewrite Hs. repeat split. apply life_overdue. set_solver.
  - apply transition_step_ok. intros r r'. destruct (is_terminal (tr_status r)) eqn:Et; [|done].
    intros [= <-]. unfold evolves. simpl. repeat split. constructor.
  - apply transition_step_ok. intros r r'. destruct (is_terminal (tr_status r)) eqn:Et; [|done].
    intros [= <-]. unfold evolves. simpl. repeat split. constructor.
  - apply transition_step_ok. intros r r' [= <-]. unfold evolves. simpl.
    split; [repeat split; constructor | by destruct (is_terminal _)].
  - unfold retry. destruct (ledger_get l id) as [old|]; [|apply step_ok_same].
    by eapply append_step_ok.
Qed.

(** ** The sweep *)

Definition is_stale (l : TaskLedger) (now : Z) (r : TaskRecord) : Prop :=
  tr_status r = Running ∧ (grace_ms l ≤ i64_sub now (last_alive r now))%Z.
#[export] Instance is_stale_dec l now r : Decision (is_stale l now r).
Proof. unfold is_stale. apply _. Defined.

Definition lose (now : Z) (r : TaskRecord) : TaskRecord := finish r Lost now (tr_error r).

Lemma find_mut_at id f pre r post :
  Forall (λ x, tr_id x ≠ id) pre → tr_id r = id →
  find_mut id f (pre ++ r :: post) = (r' <-? f r;; Ok (r', pre ++ r' :: post)).
Proof.
  intros Hpre Hid. induction Hpre as [|x pre Hx Hpre IH]; simpl.
  - by rewrite Hid, String.eqb_refl.
  - apply String.eqb_neq in Hx. rewrite Hx, IH. by destruct (f r).
Qed.

Lemma transition_at l io push id f pre r post r' :
  records l = pre ++ r :: post → Forall (λ x, tr_id x ≠ id) pre → tr_id r = id → f r = Ok r' →
  ∃ l', transition l io push id f = (Ok tt, l') ∧ records l' = pre ++ r' :: post
    ∧ fired l' = fired l ++ (if push then [r'] else []) ∧ grace_ms l' = grace_ms l
    ∧ next_seq l' = next_seq l.
Proof.
  intros Hl Hpre Hid Hf. unfold transition. rewrite Hl, find_mut_at, Hf by done. simpl.
  eexists. split; [done|]. destruct push, io; simpl; rewrite ?app_nil_r; split_and!; done.
Qed.

Lemma mark_lost_at l now io pre r post :
  records l = pre ++ r :: post → Forall (λ x, tr_id x ≠ tr_id r) pre → is_stale l now r →
  ∃ l', mark_lost l now io (tr_id r) = (Ok tt, l') ∧ records l' = pre ++ lose now r :: post
    ∧ fired l' = fired l ++ [lose now r] ∧ grace_ms l' = grace_ms l.
Proof.
  intros Hl Hpre [Hs Hg]. unfold mark_lost.
  destruct (transition_at l io true (tr_id r)
    (λ r0, if bool_decide (tr_status r0 ≠ Running) then Err ("cannot lose non-running task " +:+ tr_id r)
       else if (i64_sub now (last_alive r0 now) <? grace_ms l)%Z then Err "heartbeat fresh — live turn, not lost"
       else Ok (finish r0 Lost now (tr_error r0))) pre r post (lose now r)) as (l' & ? & ? & ? & ? & _); try done.
  - rewrite bool_decide_eq_false_2 by auto. by rewrite (proj2 (Z.ltb_ge _ _)).
  - by exists l'.
Qed.

Lemma reap_loop_spec now io rs l pre :
  records l = pre ++ rs → NoDup (tr_id <$> pre ++ rs) →
  let ids := tr_id <$> filter (is_stale l now) rs in
  let '(lost, l') := reap_loop l now ((λ id, (id, io)) <$> ids) in
  lost = ids ∧ records l' = pre ++ ((λ r, if decide (is_stale l now r) then lose now r else r) <$> rs)
  ∧ fired l' = fired l ++ (lose now <$> filter (is_stale l now) rs).
Proof.
  revert l pre. induction rs as [|r rs IH]; intros l pre Hl Hnd.
  - simpl. rewrite app_nil_r in *. by rewrite !app_nil_r.
  - rewrite filter_cons. cbn [fmap list_fmap]. destruct (decide (is_stale l now r)) as [Hst|Hst].
    + assert (Hpre : Forall (λ x, tr_id x ≠ tr_id r) pre).
      { apply Forall_forall. intros x Hx Heq. rewrite fmap_app in Hnd.
        apply NoDup_app in Hnd as (_ & Hd & _). apply (Hd (tr_id x)); [by apply list_elem_of_fmap_2|].
        simpl. rewrite Heq. constructor. }
      destruct (mark_lost_at l now io pre r rs Hl Hpre Hst) as (l1 & Hm & Hr1 & Hf1 & Hg1).
      simpl. rewrite Hm. specialize (IH l1 (pre ++ [lose now r])). simpl in IH.
      assert (Hstale : ∀ x, is_stale l1 now x ↔ is_stale l now x) by (intros; unfold is_stale; by rewrite Hg1).
      rewrite (list_filter_iff (is_stale l1 now) (is_stale l now)) in IH by done.
      destruct (reap_loop l1 now _) as [lost l'].
      destruct IH as (-> & Hr & Hf).
      { rewrite Hr1. by rewrite <- app_assoc. }
      { rewrite <- app_assoc. rewrite fmap_app in *. exact Hnd. }
      split_and!; [done | | by rewrite Hf, Hf1, <- app_assoc].
      rewrite Hr, <- app_assoc. simpl. do 2 f_equal. apply list_fmap_ext. intros _ x _.
      by apply decide_ext.
    + specialize (IH l (pre ++ [r])). simpl in IH.
      destruct (reap_loop l now _) as [lost l'].
      destruct IH as (-> & Hr & Hf); [by rewrite <- app_assoc | by rewrite <- app_assoc |].
      by rewrite Hr, <- app_assoc.
Qed.

(** The sweep marks lost exactly the running tasks whose last sign of
    life is at least the grace window old: over a ledger with distinct ids it
    returns their ids in ledger order, ends each with its time and its error
    kept, pushes each of them once, and leaves every other record - a live
    turn above all - untouched. *)
Theorem reap_lost_exact l now io :
  NoDup (tr_id <$> records l) →
  let '(lost, l') := reap_lost l now io in
  lost = stale_ids l now
  ∧ records l' = ((λ r, if decide (is_stale l now r) then lose now r else r) <$> records l)
  ∧ fired l' = fired l ++ (lose now <$> filter (is_stale l now) (records l)).
Proof. apply (reap_loop_spec now io (records l) l []). done. Qed.

(** A running task started at 0 and one that beat at 400000. *)
Definition demo_ledger : TaskLedger :=
  let l := ledger_new [] in
  let l := (enqueue l 0 true KCli "build" None).2 in
  let l := (enqueue l 0 true KAcp "review" None).2 in
  let l := (start l 0 true "task-000001").2 in
  let l := (start l 0 true "task-000002").2 in
  (heartbeat l 400000 "task-000002").2.

Lemma reap_lost_exact_witness :
  (reap_lost demo_ledger 500000 true).1 = ["task-000001"]
  ∧ (tr_status <$> records (reap_lost demo_ledger 500000 true).2) = [Lost; Running].
Proof.
  assert (Hnd : NoDup (tr_id <$> records demo_ledger)) by (apply (bool_decide_unpack _); by vm_compute).
  pose proof (reap_lost_exact demo_ledger 500000 true Hnd) as H.
  destruct (reap_lost demo_ledger 500000 true) as [lost l']. simpl.
  destruct H as (-> & -> & _). by vm_compute.
Defined.

(** ** Task ids *)

Definition task_id (n : N) : string := "task-" +:+ pad6 (pretty n).

Lemma parse_digits_zeros bound k s : parse_digits bound 0 (zeros k +:+ s) = parse_digits bound 0 s.
Proof.
  induction k as [|k IH]; [done|]. change (zeros (S k) +:+ s) with (String "0" (zeros k +:+ s)).
  cbn [parse_digits]. change (digit_of "0") with (Some 0%N). cbn [mbind option_bind].
  change (0 * 10 + 0)%N with 0%N. by rewrite (proj2 (N.leb_le 0 bound)) by lia.
Qed.

Lemma task_id_inj n m : (n ≤ u64_max)%N → (m ≤ u64_max)%N → task_id n = task_id m → n = m.
Proof.
  intros Hn Hm H. unfold task_id in H. apply (inj (String.append "task-")) in H.
  apply (f_equal (parse_digits u64_max 0)) in H. unfold pad6 in H. rewrite !parse_digits_zeros in H.
  rewrite !parse_digits_pretty in H by done. by injection H.
Qed.

(** The ids below [next_seq], each at most once. *)
Definition ids_ok (l : TaskLedger) : Prop :=
  NoDup (tr_id <$> records l) ∧
  Forall (λ i, ∃ k, (1 ≤ k < next_seq l)%N ∧ i = task_id k) (tr_id <$> records l) ∧ (1 ≤ next_seq l)%N.

Lemma transition_ids l io push id f :
  (∀ r r', f r = Ok r' → tr_id r' = tr_id r) →
  (tr_id <$> records (transition l io push id f).2) = (tr_id <$> records l)
  ∧ next_seq (transition l io push id f).2 = next_seq l.
Proof.
  intros Hf. pose proof (transition_spec l io push id f) as H.
  destruct (transition l io push id f) as [[u|e] l']; simpl; [|by subst].
  destruct H as (pre & old & new & post & Hr & Hr' & _ & Hnew & _ & _ & _ & Hs & _).
  rewrite Hr, Hr', !fmap_app. simpl. by rewrite (Hf _ _ Hnew).
Qed.

Lemma ids_ok_frame l l' :
  (tr_id <$> records l') = (tr_id <$> records l) → next_seq l' = next_seq l → ids_ok l → ids_ok l'.
Proof.
  intros Hr Hs H. unfold ids_ok in *. by rewrite Hr, Hs.
Qed.

Lemma ids_ok_append l l1 io r :
  ids_ok l → (next_seq l < u64_max)%N → records l1 = records l ++ [r] → tr_id r = task_id (next_seq l) →
  next_seq l1 = u64_add (next_seq l) 1 → ids_ok (persist l1 io).2.
Proof.
  intros (Hnd & Hall & Hpos) Hb Hr Hid Hs. destruct (persist_records l1 io) as (Hr' & _ & Hs' & _).
  unfold ids_ok. rewrite Hr', Hs', Hr, Hs, u64_add_small, fmap_app by lia. split_and!; [| |lia].
  - apply NoDup_app. split_and!; [done | | apply NoDup_singleton].
    intros i Hi ->%list_elem_of_singleton. rewrite Forall_forall in Hall.
    destruct (Hall _ Hi) as (k & Hk & Heq). rewrite Hid in Heq. apply task_id_inj in Heq; lia.
  - apply Forall_app. split; [|constructor; [|done]].
    + eapply Forall_impl; [exact Hall|]. intros i (k & Hk & ->). exists k. split; [lia|done].
    + exists (next_seq l). split; [lia|done].
Qed.

Lemma task_step_ids l op : ids_ok l → (next_seq l < u64_max)%N →
  ids_ok (task_step l op) ∧ (next_seq (task_step l op) ≤ next_seq l + 1)%N.
Proof.
  intros Hok Hb.
  assert (Hin : ∀ io push id f, (∀ r r', f r = Ok r' → tr_id r' = tr_id r) →
    ids_ok (transition l io push id f).2 ∧ (next_seq (transition l io push id f).2 ≤ next_seq l + 1)%N).
  { intros io push id f Hf. destruct (transition_ids l io push id f Hf) as [Hr Hs].
    split; [by eapply ids_ok_frame | rewrite Hs; lia]. }
  assert (Happ : ∀ l1 io r, records l1 = records l ++ [r] → tr_id r = task_id (next_seq l) →
    next_seq l1 = u64_add (next_seq l) 1 →
    ids_ok (persist l1 io).2 ∧ (next_seq (persist l1 io).2 ≤ next_seq l + 1)%N).
  { intros l1 io r Hr Hid Hs. split; [by eapply ids_ok_append|].
    destruct (persist_records l1 io) as (_ & _ & -> & _). rewrite Hs, u64_add_small by lia. lia. }
  destruct op; simpl; try (apply Hin; intros r r'; repeat case_match; by intros [= <-]).
  - by eapply Happ.
  - unfold retry. destruct (ledger_get l id) as [old|]; simpl; [by eapply Happ | split; [done|lia]].
Qed.

(** Ids are never reused within a run of the ledger: from an empty store,
    after fewer than 2^64 - 1 operations in any order, the records' ids are
    pairwise distinct. *)
Theorem ids_unique_in_a_run ops :
  (N.of_nat (length ops) < u64_max)%N →
  NoDup (tr_id <$> records (foldl task_step (ledger_new []) ops)).
Proof.
  intros Hlen.
  enough (H : ∀ l, ids_ok l → (next_seq l + N.of_nat (length ops) ≤ u64_max)%N →
    ids_ok (foldl task_step l ops)).
  { apply (H (ledger_new [])); [|simpl; lia]. split_and!; simpl; [constructor|constructor|lia]. }
  clear Hlen. induction ops as [|op ops IH]; intros l Hok Hb; [done|]. simpl in *.
  destruct (task_step_ids l op Hok) as [Hok' Hs]; [lia|]. apply IH; [done|lia].
Qed.

Lemma ids_unique_in_a_run_witness :
  NoDup (tr_id <$> records (foldl task_step (ledger_new [])
    [OpEnqueue 0 true KCli "a" None; OpRetry 1 true "task-000001"; OpRetry 2 false "task-000002"])).
Proof. apply ids_unique_in_a_run. vm_compute. reflexivity. Defined.

(** ** Restart *)

Lemma find_mut_first id f r rs :
  tr_id r = id → find_mut id f (r :: rs) = (r' <-? f r;; Ok (r', r' :: rs)).
Proof. intros H. by apply (find_mut_at id f [] r rs). Qed.

(** The counter restarts at 1 over a loaded store. When the store opens
    with a finished ["task-000001"], the first task of the new run gets that id
    again, and no start under it ever reaches the new record: the lookup finds
    the finished one and refuses. *)
Theorem restart_shadows_new_tasks r rest now io kind title requester :
  tr_id r = "task-000001" → is_terminal (tr_status r) = true →
  let '(id, l) := enqueue (ledger_new (r :: rest)) now io kind title requester in
  id = "task-000001"
  ∧ records l = r :: rest ++ [queued_record id kind title requester now 0]
  ∧ ∀ now' io', start l now' io' id
                = (Err ("cannot start " +:+ id +:+ " from " +:+ status_debug (tr_status r)), l).
Proof.
  intros Hid Ht. unfold enqueue. cbn [next_id ledger_new next_seq].
  change ("task-" +:+ pad6 (pretty 1%N)) with "task-000001".
  set (l := (persist _ io).2).
  assert (Hr : records l = r :: rest ++ [queued_record "task-000001" kind title requester now 0])
    by (by unfold l; destruct io).
  split_and!; [done | exact Hr |].
  intros now' io'. unfold start, transition. rewrite Hr, find_mut_first by done.
  rewrite bool_decide_eq_true_2; [done|]. intros Hq. by rewrite Hq in Ht.
Qed.

Lemma restart_shadows_new_tasks_witness :
  let l := reload (complete (enqueue (ledger_new []) 0 true KCli "a" None).2 1 true "task-000001" true None).2 in
  is_ok (start (enqueue l 2 true KCli "b" None).2 3 true "task-000001").1 = false.
Proof.
  pose proof (restart_shadows_new_tasks
    (finish (queued_record "task-000001" KCli "a" None 0 0) Succeeded 1 None) [] 2 true KCli "b" None
    eq_refl eq_refl) as (_ & _ & Hs).
  exact (f_equal (λ p, is_ok p.1) (Hs 3%Z true)).
Defined.

(** A heartbeat lives in memory only. A task that beat a second ago is
    kept by a sweep, yet after a restart over its own store the same sweep at
    the same moment reclaims it. *)
Theorem restart_loses_heartbeats :
  let l := (start (enqueue (ledger_new []) 0 true KCli "build" None).2 0 true "task-000001").2 in
  let l' := (heartbeat l 599000 "task-000001").2 in
  (reap_lost l' 600000 true).1 = [] ∧ (reap_lost (reload l') 600000 true).1 = ["task-000001"].
Proof. split; by vm_compute. Qed.

(** ** Delivery *)

(** The retry cap does not end the retries. Blocking the delivery of a
    finished task again and again, the counter climbs to the cap, the next
    retry dismisses the delivery, and the one after that starts over at 1:
    attempt k+1 leaves position k mod (cap+1) of that cycle. The run itself
    is never changed. *)
Theorem delivery_retry_cycle l io r rest deadline cap k :
  records l = r :: rest → is_terminal (tr_status r) = true → tr_delivery r = DPending →
  (cap < u32_max)%N →
  let j := (N.of_nat k mod (cap + 1))%N in
  records (Nat.iter (S k) (λ l, (retry_delivery l io (tr_id r) deadline cap).2) l)
  = with_delivery r (if (j =? cap)%N then DDismissed else DBlocked (j + 1) deadline) :: rest.
Proof.
  intros Hl Ht Hd Hcap j.
  assert (Hstep : ∀ l d, records l = with_delivery r d :: rest →
    records (retry_delivery l io (tr_id r) deadline cap).2
    = with_delivery r (let n := match d with DBlocked n _ => u32_add n 1 | _ => 1%N end in
                       if (cap <? n)%N then DDismissed else DBlocked n deadline) :: rest).
  { intros l0 d Hl0. unfold retry_delivery, transition. rewrite Hl0, find_mut_first by done.
    cbn [tr_status with_delivery]. rewrite Ht. simpl.
    by match goal with |- context [persist ?l1 io] => destruct (persist_records l1 io) as (-> & _) end. }
  assert (Hone : (if (cap <? 1)%N then DDismissed else DBlocked 1 deadline)
                 = if (0 =? cap)%N then DDismissed else DBlocked (0 + 1) deadline).
  { by destruct (N.ltb_spec cap 1), (N.eqb_spec 0 cap); try lia. }
  assert (Hr : r = with_delivery r DPending) by (destruct r; simpl in *; by subst).
  subst j. induction k as [|k IH].
  - change (N.of_nat 0) with 0%N. rewrite N.Div0.mod_0_l, <- Hone. cbn [Nat.iter nat_rect].
    rewrite Hr in Hl. exact (Hstep l _ Hl).
  - rewrite Nat.iter_succ, (Hstep _ _ IH). do 2 f_equal.
    rewrite Nat2N.inj_succ, <- N.add_1_r.
    rewrite <- (N.Div0.add_mod_idemp_l (N.of_nat k) 1 (cap + 1)).
    pose proof (N.mod_lt (N.of_nat k) (cap + 1) ltac:(lia)) as Hlt.
    clear IH. revert Hlt. generalize (N.of_nat k mod (cap + 1))%N. intros j Hlt. destruct (N.eqb_spec j cap) as [->|Hj].
    + rewrite N.Div0.mod_same. exact Hone.
    + rewrite N.mod_small by lia. unfold u32_add. unfold u32_max in Hcap. rewrite N.mod_small by lia.
      by destruct (N.ltb_spec cap (j + 1 + 1)), (N.eqb_spec (j + 1) cap); try lia.
Qed.

Lemma delivery_retry_cycle_witness :
  let r := finish (queued_record "task-000001" KCli "a" None 0 0) Succeeded 1 None in
  let l := ledger_new [r] in
  records (Nat.iter 4 (λ l, (retry_delivery l true (tr_id r) 9 2).2) l) = [with_delivery r (DBlocked 1 9)].
Proof. exact (delivery_retry_cycle (ledger_new [finish (queued_record "task-000001" KCli "a" None 0 0) Succeeded 1 None])
  true _ [] 9 2 3 eq_refl eq_refl eq_refl eq_refl). Defined.
