(* ===== verification/Capability.v ===== *)
(** * The capability contract ([everyaios-guard/src/capability_contract.rs])

    Descriptors, their versions, ids and deprecation windows, the result model,
    epoch-checked handles and the per-descriptor census. A [serde_json::Value]
    is whatever type the section takes. *)
From S2P Require Import Order Prelude.

(* SRC guard/src/capability_contract.rs @const:DEFAULT_HANDLE_TTL_MS DEFAULT_HANDLE_TTL_MS *)
Definition DEFAULT_HANDLE_TTL_MS : N := 120000.

(* SRC guard/src/capability_contract.rs @struct:CapabilityInvocation CapabilityInvocation *)
Record CapabilityInvocation := {
  ci_grant_id : string; ci_run_id : string; ci_capability : string; ci_operation : string
}.

(* SRC guard/src/capability_contract.rs @fn:validate CapabilityInvocation::validate *)
Definition invocation_validate (i : CapabilityInvocation) : result unit string :=
  if is_empty (ci_grant_id i) then Err "capability grant id is required"
  else if is_empty (ci_run_id i) then Err "capability run id is required"
  else if is_empty (ci_capability i) then Err "capability scope is required"
  else if is_empty (ci_operation i) then Err "capability operation is required"
  else Ok tt.

(** ** Risk and verification depth *)

(* SRC guard/src/capability_contract.rs @enum:CapabilityRisk CapabilityRisk *)
Inductive CapabilityRisk := Safe | Sensitive | Dangerous.

(* SRC guard/src/capability_contract.rs @enum:VerificationDepth VerificationDepth *)
Inductive VerificationDepth := Validate | ValidateAndReread | ValidateAndReconcile.

(* SRC guard/src/capability_contract.rs @fn:as_str CapabilityRisk::as_str *)
Definition risk_as_str (r : CapabilityRisk) : string :=
  match r with Safe => "safe" | Sensitive => "sensitive" | Dangerous => "dangerous" end.

(* SRC guard/src/capability_contract.rs @fn:parse CapabilityRisk::parse *)
Definition risk_parse (s : string) : option CapabilityRisk :=
  if String.eqb s "safe" then Some Safe
  else if String.eqb s "sensitive" then Some Sensitive
  else if String.eqb s "dangerous" then Some Dangerous
  else None.

(* SRC guard/src/capability_contract.rs @fn:verification_depth CapabilityRisk::verification_depth *)
Definition verification_depth (r : CapabilityRisk) : VerificationDepth :=
  match r with Safe => Validate | Sensitive => ValidateAndReread | Dangerous => ValidateAndReconcile end.

(* SRC guard/src/capability_contract.rs @fn:as_str#2 VerificationDepth::as_str *)
Definition depth_as_str (d : VerificationDepth) : string :=
  match d with
  | Validate => "validate" | ValidateAndReread => "validate_reread"
  | ValidateAndReconcile => "validate_reconcile"
  end.

(** [self as u8]. *)
Definition depth_index (d : VerificationDepth) : N :=
  match d with Validate => 0 | ValidateAndReread => 1 | ValidateAndReconcile => 2 end.

(* SRC guard/src/capability_contract.rs @fn:satisfies VerificationDepth::satisfies *)
Definition satisfies (self floor : VerificationDepth) : bool := (depth_index floor <=? depth_index self)%N.

(** ** Loading modes, requirements, auth *)

(* SRC guard/src/capability_contract.rs @enum:LoadingMode LoadingMode *)
Inductive LoadingMode := Eager | Catalog | OnDemand.

(* SRC guard/src/capability_contract.rs @fn:may_expose_to_model LoadingMode::may_expose_to_model *)
Definition may_expose_to_model (m : LoadingMode) (requested : bool) : bool :=
  match m with Eager => true | Catalog | OnDemand => requested end.

(* SRC guard/src/capability_contract.rs @enum:RequirementKind RequirementKind *)
Inductive RequirementKind := RKCapability | RKConnection | RKEnvironment.
#[export] Instance RequirementKind_eq : EqDecision RequirementKind.
Proof. solve_decision. Defined.

(* SRC guard/src/capability_contract.rs @struct:Requirement Requirement *)
Record Requirement := { rq_kind : RequirementKind; rq_target : string; rq_rationale : string }.
#[export] Instance Requirement_eq : EqDecision Requirement.
Proof. solve_decision. Defined.

(* SRC guard/src/capability_contract.rs @enum:AuthMethod AuthMethod *)
Inductive AuthMethod := Api | Oauth | WellKnown.
#[export] Instance AuthMethod_eq : EqDecision AuthMethod.
Proof. solve_decision. Defined.

(* SRC guard/src/capability_contract.rs @fn:as_str#4 AuthMethod::as_str *)
Definition auth_as_str (m : AuthMethod) : string :=
  match m with Api => "api" | Oauth => "oauth" | WellKnown => "well-known" end.

(* SRC guard/src/capability_contract.rs @struct:AuthRequirement AuthRequirement *)
Record AuthRequirement := { au_method : AuthMethod; au_secret_ref : string; au_prompt : string }.
#[export] Instance AuthRequirement_eq : EqDecision AuthRequirement.
Proof. solve_decision. Defined.

(* SRC guard/src/capability_contract.rs @struct:VerificationHook VerificationHook *)
Record VerificationHook := { vh_hook : string; vh_depth : VerificationDepth }.

(* SRC guard/src/capability_contract.rs @struct:Deprecation Deprecation *)
Record Deprecation := { dp_since_version : string; dp_window_ends_ms : N }.

(* SRC guard/src/capability_contract.rs @fn:serves_at Deprecation::serves_at *)
Definition window_serves_at (d : Deprecation) (now_ms : N) : bool :=
  (dp_window_ends_ms d =? 0)%N || (now_ms <? dp_window_ends_ms d)%N.

(* SRC guard/src/capability_contract.rs @struct:ProviderAssignment ProviderAssignment *)
Record ProviderAssignment := { pa_provider_id : string; pa_provider_epoch : N }.
#[export] Instance ProviderAssignment_eq : EqDecision ProviderAssignment.
Proof. solve_decision. Defined.

(** ** The descriptor *)

(* SRC guard/src/capability_contract.rs @struct:CapabilityDescriptor CapabilityDescriptor *)
Record CapabilityDescriptor := {
  cd_id : string;
  cd_version : string;
  cd_description : string;
  cd_affordances : list string;
  cd_requirements : list Requirement;
  cd_providers : list ProviderAssignment;
  cd_loading_mode : LoadingMode;
  cd_risk_class : CapabilityRisk;
  cd_auth_requirements : list AuthRequirement;
  cd_verification : VerificationHook;
  cd_deprecated : option Deprecation
}.
#[export] Instance CapabilityDescriptor_eq : EqDecision CapabilityDescriptor.
Proof.
  intros a b. unfold Decision. repeat decide equality.
Defined.

(* SRC guard/src/capability_contract.rs @fn:new#2 CapabilityDescriptor::new *)
Definition descriptor_new (id version description : string) (affordances : list string)
    (mode : LoadingMode) (risk : CapabilityRisk) (verification : VerificationHook) : CapabilityDescriptor :=
  {| cd_id := id; cd_version := version; cd_description := description; cd_affordances := affordances;
     cd_requirements := []; cd_providers := []; cd_loading_mode := mode; cd_risk_class := risk;
     cd_auth_requirements := []; cd_verification := verification; cd_deprecated := None |}.

(* SRC guard/src/capability_contract.rs @fn:with_requirements CapabilityDescriptor::with_requirements *)
Definition with_requirements (d : CapabilityDescriptor) (rs : list Requirement) : CapabilityDescriptor :=
  {| cd_id := cd_id d; cd_version := cd_version d; cd_description := cd_description d;
     cd_affordances := cd_affordances d; cd_requirements := rs; cd_providers := cd_providers d;
     cd_loading_mode := cd_loading_mode d; cd_risk_class := cd_risk_class d;
     cd_auth_requirements := cd_auth_requirements d; cd_verification := cd_verification d;
     cd_deprecated := cd_deprecated d |}.

(* SRC guard/src/capability_contract.rs @fn:with_deprecation CapabilityDescriptor::with_deprecation *)
Definition with_deprecation (d : CapabilityDescriptor) (p : Deprecation) : CapabilityDescriptor :=
  {| cd_id := cd_id d; cd_version := cd_version d; cd_description := cd_description d;
     cd_affordances := cd_affordances d; cd_requirements := cd_requirements d; cd_providers := cd_providers d;
     cd_loading_mode := cd_loading_mode d; cd_risk_class := cd_risk_class d;
     cd_auth_requirements := cd_auth_requirements d; cd_verification := cd_verification d;
     cd_deprecated := Some p |}.

(** [d.providers = ps]. *)
Definition with_providers (d : CapabilityDescriptor) (ps : list ProviderAssignment) : CapabilityDescriptor :=
  {| cd_id := cd_id d; cd_version := cd_version d; cd_description := cd_description d;
     cd_affordances := cd_affordances d; cd_requirements := cd_requirements d; cd_providers := ps;
     cd_loading_mode := cd_loading_mode d; cd_risk_class := cd_risk_class d;
     cd_auth_requirements := cd_auth_requirements d; cd_verification := cd_verification d;
     cd_deprecated := cd_deprecated d |}.

(* SRC guard/src/capability_contract.rs @fn:requirements_of CapabilityDescriptor::requirements_of *)
Definition requirements_of (d : CapabilityDescriptor) (k : RequirementKind) : list Requirement :=
  filter (λ r, rq_kind r = k) (cd_requirements d).

(* SRC guard/src/capability_contract.rs @fn:serves_at#2 CapabilityDescriptor::serves_at *)
Definition serves_at (d : CapabilityDescriptor) (now_ms : N) : bool :=
  match cd_deprecated d with Some p => window_serves_at p now_ms | None => true end.

(* SRC guard/src/capability_contract.rs @fn:context_bytes CapabilityDescriptor::context_bytes *)
Definition context_bytes (d : CapabilityDescriptor) : nat :=
  String.length (cd_id d) + String.length (cd_description d)
  + foldr (λ a n, String.length a + 1 + n) 0 (cd_affordances d).

(* SRC guard/src/capability_contract.rs @fn:major_of major_of *)
Definition major_of (version : string) : option N :=
  first ← head (split "." version); parse_uint u32_max first.

Fixpoint str_all (p : ascii → bool) (s : string) : bool :=
  match s with EmptyString => true | String c s' => p c && str_all p s' end.

Definition is_digit (c : ascii) : bool := bool_decide (is_Some (digit_of c)).
Definition is_ascii_lowercase (c : ascii) : bool :=
  let n := N_of_ascii c in ((97 <=? n) && (n <=? 122))%N.

(* SRC guard/src/capability_contract.rs @fn:is_well_formed_version is_well_formed_version *)
Definition is_well_formed_version (version : string) : bool :=
  let parts := split "." version in
  (length parts =? 3)%nat && forallb (λ p, negb (is_empty p) && str_all is_digit p) parts.

(* SRC guard/src/capability_contract.rs @fn:serves_version CapabilityDescriptor::serves_version *)
Definition serves_version (d : CapabilityDescriptor) (pinned : string) : bool :=
  if String.eqb pinned (cd_version d) then true
  else
    let deprecated := match cd_deprecated d with Some _ => true | None => false end in
    match major_of (cd_version d), major_of pinned with
    | Some cur, Some want => if (cur =? want)%N then true else deprecated
    | _, _ => deprecated
    end.

(** ** Ids *)

(* SRC guard/src/capability_contract.rs @const:PROTOCOL_ID_TOKENS PROTOCOL_ID_TOKENS *)
Definition PROTOCOL_ID_TOKENS : list string :=
  ["acp"; "api"; "cli"; "grpc"; "http"; "https"; "jsonrpc"; "mcp"; "rest"; "rpc"; "sdk"; "socket";
   "sse"; "stdio"; "ws"; "wss"].

(* SRC guard/src/capability_contract.rs @fn:id_is_dotted id_is_dotted *)
Definition id_is_dotted (id : string) : bool :=
  let segments := split "." id in
  (2 <=? length segments)%nat
  && forallb (λ s, negb (is_empty s)
       && str_all (λ c, is_ascii_lowercase c || is_digit c || Ascii.eqb c "_") s) segments.

(* SRC guard/src/capability_contract.rs @fn:protocol_token_in protocol_token_in *)
Definition protocol_token_in (id : string) : option string :=
  head (omap (λ seg, head (omap (λ word, head (filter (λ t, t = word) PROTOCOL_ID_TOKENS)) (split "_" seg)))
    (split "." id)).

(* SRC guard/src/capability_contract.rs @fn:is_well_formed_id is_well_formed_id *)
Definition is_well_formed_id (id : string) : bool :=
  if negb (id_is_dotted id) then false
  else match protocol_token_in id with None => true | Some _ => false end.

(** ** Results *)

(* SRC guard/src/capability_contract.rs @enum:CapabilityStatus CapabilityStatus *)
Inductive CapabilityStatus := Completed | Guidance | RequiresUserAction | StatusFailed.
#[export] Instance CapabilityStatus_eq : EqDecision CapabilityStatus.
Proof. solve_decision. Defined.

(* SRC guard/src/capability_contract.rs @enum:NextActionKind NextActionKind *)
Inductive NextActionKind := Connect | Install | Configure | Grant.

(* SRC guard/src/capability_contract.rs @struct:NextAction NextAction *)
Record NextAction := {
  na_kind : NextActionKind; na_target : string; na_instruction : string; na_unlocks : string
}.

(* SRC guard/src/capability_contract.rs @enum:CapabilityError CapabilityError *)
Inductive CapabilityError :=
  | NotFound (capability_id : string)
  | InvalidState (reason : string)
  | AuthorizationDenied (reason : string)
  | Authentication (reason : string)
  | ERateLimit (retry_after_ms : option N)
  | Unavailable (reason : string)
  | SchemaViolation (reason : string)
  | ETimeout (reason : string)
  | VerificationFailed (reason : string).

(* SRC guard/src/capability_contract.rs @fn:retryable CapabilityError::retryable *)
Definition retryable (e : CapabilityError) : bool :=
  match e with ERateLimit _ | Unavailable _ => true | _ => false end.

(* SRC guard/src/capability_contract.rs @fn:code CapabilityError::code *)
Definition error_code (e : CapabilityError) : string :=
  match e with
  | NotFound _ => "not_found" | InvalidState _ => "invalid_state"
  | AuthorizationDenied _ => "authorization_denied" | Authentication _ => "authentication"
  | ERateLimit _ => "rate_limit" | Unavailable _ => "unavailable"
  | SchemaViolation _ => "schema_violation" | ETimeout _ => "timeout"
  | VerificationFailed _ => "verification_failed"
  end.

(* SRC guard/src/capability_contract.rs @fn:fmt CapabilityError::fmt *)
Definition error_display (e : CapabilityError) : string :=
  match e with
  | NotFound i => "no such capability: " +:+ i
  | InvalidState r => "invalid state: " +:+ r
  | AuthorizationDenied r => "authorization denied: " +:+ r
  | Authentication r => "authentication: " +:+ r
  | ERateLimit (Some ms) => "rate limited (retry after " +:+ pretty ms +:+ "ms)"
  | ERateLimit None => "rate limited"
  | Unavailable r => "unavailable: " +:+ r
  | SchemaViolation r => "schema violation: " +:+ r
  | ETimeout r => "timeout: " +:+ r
  | VerificationFailed r => "verification failed: " +:+ r
  end.

(* SRC guard/src/capability_contract.rs @struct:CapabilityResult CapabilityResult *)
Record CapabilityResult {V : Type} := {
  cr_status : CapabilityStatus;
  cr_output : option V;
  cr_receipt : option string;
  cr_next_action : option NextAction;
  cr_error : option CapabilityError;
  cr_retryable : bool
}.
Arguments CapabilityResult V : clear implicits.

(* SRC guard/src/capability_contract.rs @fn:completed CapabilityResult::completed *)
Definition completed {V} (output : option V) (receipt : string) : CapabilityResult V :=
  {| cr_status := Completed; cr_output := output; cr_receipt := Some receipt; cr_next_action := None;
     cr_error := None; cr_retryable := false |}.

(* SRC guard/src/capability_contract.rs @fn:read_completed CapabilityResult::read_completed *)
Definition read_completed {V} (output : option V) : CapabilityResult V :=
  {| cr_status := Completed; cr_output := output; cr_receipt := None; cr_next_action := None;
     cr_error := None; cr_retryable := false |}.

(* SRC guard/src/capability_contract.rs @fn:guidance CapabilityResult::guidance *)
Definition guidance {V} (a : NextAction) : CapabilityResult V :=
  {| cr_status := Guidance; cr_output := None; cr_receipt := None; cr_next_action := Some a;
     cr_error := None; cr_retryable := false |}.

(* SRC guard/src/capability_contract.rs @fn:requires_user_action CapabilityResult::requires_user_action *)
Definition requires_user_action {V} (a : NextAction) : CapabilityResult V :=
  {| cr_status := RequiresUserAction; cr_output := None; cr_receipt := None; cr_next_action := Some a;
     cr_error := None; cr_retryable := false |}.

(* SRC guard/src/capability_contract.rs @fn:failed CapabilityResult::failed *)
Definition failed {V} (e : CapabilityError) : CapabilityResult V :=
  {| cr_status := StatusFailed; cr_output := None; cr_receipt := None; cr_next_action := None;
     cr_error := Some e; cr_retryable := retryable e |}.

(* SRC guard/src/capability_contract.rs @fn:is_actionable CapabilityResult::is_actionable *)
Definition is_actionable {V} (r : CapabilityResult V) : bool :=
  match cr_status r with Guidance | RequiresUserAction => true | _ => false end.

(** ** Handles *)

(* SRC guard/src/capability_contract.rs @enum:HandleInvalid HandleInvalid *)
Inductive HandleInvalid :=
  | HExpired (at_ms : N)
  | EpochMismatch (expected live : N)
  | DescriptorGone (pinned_version : string).

(* SRC guard/src/capability_contract.rs @struct:CapabilityHandle CapabilityHandle *)
Record CapabilityHandle := {
  ch_capability_id : string;
  ch_provider_id : string;
  ch_provider_epoch : N;
  ch_environment_id : string;
  ch_permission_snapshot : string;
  ch_runtime_handle_ref : string;
  ch_expires_at_ms : N;
  ch_descriptor_version : string
}.

(* SRC guard/src/capability_contract.rs @fn:validate#2 CapabilityHandle::validate *)
Definition handle_validate (h : CapabilityHandle) (now_ms live_epoch : N) : result unit HandleInvalid :=
  if negb (ch_expires_at_ms h =? 0)%N && (ch_expires_at_ms h <? now_ms)%N then Err (HExpired (ch_expires_at_ms h))
  else if negb (ch_provider_epoch h =? live_epoch)%N then Err (EpochMismatch (ch_provider_epoch h) live_epoch)
  else Ok tt.

(* SRC guard/src/capability_contract.rs @fn:expiry_from CapabilityHandle::expiry_from *)
Definition expiry_from (now_ms ttl_ms : N) : N :=
  u64_saturating_add now_ms (if (ttl_ms =? 0)%N then DEFAULT_HANDLE_TTL_MS else ttl_ms).

(** ** The census *)

(* SRC guard/src/capability_contract.rs @enum:CensusFinding CensusFinding *)
Inductive CensusFinding :=
  | DuplicateId (id : string)
  | MalformedId (id detail : string)
  | MalformedVersion (id version : string)
  | EmptyAffordances (id : string)
  | EmptyDescription (id : string)
  | MissingVerification (id : string)
  | UnderDeclaredVerification (id declared floor : string)
  | NoProvider (id : string)
  | HandAuthoredProviders (id : string)
  | MalformedAuth (id detail : string)
  | DanglingRequirement (id missing : string).

(* SRC guard/src/capability_contract.rs @fn:capability_id CensusFinding::capability_id *)
Definition finding_id (f : CensusFinding) : string :=
  match f with
  | DuplicateId i | MalformedId i _ | MalformedVersion i _ | EmptyAffordances i | EmptyDescription i
  | MissingVerification i | UnderDeclaredVerification i _ _ | NoProvider i | HandAuthoredProviders i
  | MalformedAuth i _ | DanglingRequirement i _ => i
  end.

Definition census_if (b : bool) (f : CensusFinding) : list CensusFinding := if b then [f] else [].

Definition census_auth (id : string) (a : AuthRequirement) : list CensusFinding :=
  let needs_ref := bool_decide (au_method a ≠ WellKnown) in
  let blank := is_empty (trim (au_secret_ref a)) in
  census_if (needs_ref && blank) (MalformedAuth id
    ("auth method `" +:+ auth_as_str (au_method a) +:+ "` needs a vault reference, not an empty one")) ++
  census_if (negb needs_ref && negb blank) (MalformedAuth id
    ("auth method `" +:+ auth_as_str (au_method a) +:+ "` must not carry a reference (nothing to resolve)")).

(* SRC guard/src/capability_contract.rs @fn:census_descriptor census_descriptor *)
Definition census_descriptor (d : CapabilityDescriptor) (derived_providers : gset string) : list CensusFinding :=
  let id := cd_id d in
  census_if (negb (is_well_formed_id id)) (MalformedId id
    (if negb (id_is_dotted id) then "ids are dotted (`domain.verb`), lowercase [a-z0-9_]"
     else "id leaks the protocol token `" +:+ default "?" (protocol_token_in id) +:+
          "`; capability ids stay protocol-neutral (DEC-047)")) ++
  census_if (negb (is_well_formed_version (cd_version d))) (MalformedVersion id (cd_version d)) ++
  census_if (is_empty (trim (cd_description d))) (EmptyDescription id) ++
  census_if (forallb (λ a, is_empty (trim a)) (cd_affordances d)) (EmptyAffordances id) ++
  (if is_empty (trim (vh_hook (cd_verification d))) then [MissingVerification id]
   else census_if (negb (satisfies (vh_depth (cd_verification d)) (verification_depth (cd_risk_class d))))
     (UnderDeclaredVerification id (depth_as_str (vh_depth (cd_verification d)))
        (depth_as_str (verification_depth (cd_risk_class d))))) ++
  census_if (bool_decide (derived_providers = ∅)) (NoProvider id) ++
  census_if (negb (bool_decide (cd_providers d = []))
             && negb (bool_decide (list_to_set (pa_provider_id <$> cd_providers d) = derived_providers)))
    (HandAuthoredProviders id) ++
  (cd_auth_requirements d ≫= census_auth id).
