(* ===== verification/Registry.v ===== *)
(** * The capability registry and its resolver, and the run-scoped grant broker
    ([everyaios-guard/src/capability_broker.rs])

    [BTreeMap]s are [gmap]s iterated in key order ([Order]). The requirement
    walk recurses over ids with no cycle check: [first_unmet] takes fuel and
    answers [None] when it runs out, and a theorem says for which registries
    some fuel is enough. *)
From S2P Require Import Order Prelude Capability.

(** ** Providers *)

(* SRC guard/src/capability_broker.rs @enum:ProviderHealth ProviderHealth *)
Inductive ProviderHealth := HOk | HDegraded | HDown | HUnknown.

(* SRC guard/src/capability_broker.rs @fn:rank ProviderHealth::rank *)
Definition health_rank (h : ProviderHealth) : N :=
  match h with HOk => 3 | HUnknown => 2 | HDegraded => 1 | HDown => 0 end.

(* SRC guard/src/capability_broker.rs @enum:CostClass CostClass *)
Inductive CostClass := CostFree | CostLow | CostStandard | CostHigh | CostUnspecified.

(* SRC guard/src/capability_broker.rs @enum:LatencyClass LatencyClass *)
Inductive LatencyClass := LatLocal | LatFast | LatStandard | LatSlow | LatUnspecified.

(* SRC guard/src/capability_broker.rs @enum:PermissionFit PermissionFit *)
Inductive PermissionFit := PGranted | PDenied | PUnknown.

(** The derived orders: declaration order. *)
Definition cost_index (c : CostClass) : N :=
  match c with CostFree => 0 | CostLow => 1 | CostStandard => 2 | CostHigh => 3 | CostUnspecified => 4 end.
Definition latency_index (c : LatencyClass) : N :=
  match c with LatLocal => 0 | LatFast => 1 | LatStandard => 2 | LatSlow => 3 | LatUnspecified => 4 end.
Definition fit_index (p : PermissionFit) : N :=
  match p with PGranted => 0 | PDenied => 1 | PUnknown => 2 end.

Definition cost_debug (c : CostClass) : string :=
  match c with
  | CostFree => "Free" | CostLow => "Low" | CostStandard => "Standard" | CostHigh => "High"
  | CostUnspecified => "Unspecified"
  end.
Definition latency_debug (c : LatencyClass) : string :=
  match c with
  | LatLocal => "Local" | LatFast => "Fast" | LatStandard => "Standard" | LatSlow => "Slow"
  | LatUnspecified => "Unspecified"
  end.

(* SRC guard/src/capability_broker.rs @fn:servable PermissionFit::servable *)
Definition servable (p : PermissionFit) : bool := match p with PDenied => false | _ => true end.

(* SRC guard/src/capability_broker.rs @struct:ProviderCandidate ProviderCandidate *)
Record ProviderCandidate := {
  pc_id : string;
  pc_epoch : N;
  pc_health : ProviderHealth;
  pc_environments : list string;
  pc_capabilities : list string;
  pc_permission_fit : PermissionFit;
  pc_cost_class : CostClass;
  pc_latency_class : LatencyClass;
  pc_degraded_capabilities : list string
}.

(* SRC guard/src/capability_broker.rs @fn:new#2 ProviderCandidate::new *)
Definition candidate_new (id : string) (epoch : N) (capabilities : list string) : ProviderCandidate :=
  {| pc_id := id; pc_epoch := epoch; pc_health := HUnknown; pc_environments := ["local"];
     pc_capabilities := capabilities; pc_permission_fit := PUnknown; pc_cost_class := CostUnspecified;
     pc_latency_class := LatUnspecified; pc_degraded_capabilities := [] |}.

Definition str_in (x : string) (l : list string) : bool := existsb (String.eqb x) l.

(* SRC guard/src/capability_broker.rs @fn:implements ProviderCandidate::implements *)
Definition implements (c : ProviderCandidate) (id : string) : bool := str_in id (pc_capabilities c).
(* SRC guard/src/capability_broker.rs @fn:capability_degraded ProviderCandidate::capability_degraded *)
Definition capability_degraded (c : ProviderCandidate) (id : string) : bool :=
  str_in id (pc_degraded_capabilities c).
(* SRC guard/src/capability_broker.rs @fn:health_for ProviderCandidate::health_for *)
Definition health_for (c : ProviderCandidate) (id : string) : ProviderHealth :=
  if capability_degraded c id then HDegraded else pc_health c.
(* SRC guard/src/capability_broker.rs @fn:serves_environment ProviderCandidate::serves_environment *)
Definition serves_environment (c : ProviderCandidate) (env : string) : bool := str_in env (pc_environments c).

(* SRC guard/src/capability_broker.rs @struct:ResolutionConstraints ResolutionConstraints *)
Record ResolutionConstraints := {
  rc_environment_id : string;
  rc_permission_snapshot : string;
  rc_max_cost_class : option CostClass;
  rc_max_latency_class : option LatencyClass
}.

(* SRC guard/src/capability_broker.rs @struct:CandidateExclusion CandidateExclusion *)
Record CandidateExclusion := { ex_provider_id : string; ex_reason : string }.

(* SRC guard/src/capability_broker.rs @struct:ResolutionScore ResolutionScore *)
Record ResolutionScore := {
  rs_health : N; rs_environment_fit : N; rs_permission_fit : N; rs_cost : CostClass; rs_latency : LatencyClass
}.

(* SRC guard/src/capability_broker.rs @struct:RankedCandidate RankedCandidate *)
Record RankedCandidate := {
  rk_provider_id : string; rk_provider_epoch : N; rk_health : ProviderHealth; rk_score : ResolutionScore
}.

(** [#[derive(Ord)]]: the fields' lexicographic order. *)
Definition score_key (s : ResolutionScore) : list N :=
  [rs_health s; rs_environment_fit s; rs_permission_fit s; cost_index (rs_cost s); latency_index (rs_latency s)].
Fixpoint lex_cmp (a b : list N) : comparison :=
  match a, b with
  | x :: a', y :: b' => match (x ?= y)%N with Eq => lex_cmp a' b' | c => c end
  | [], [] => Eq | [], _ => Lt | _, [] => Gt
  end.
Definition score_cmp (a b : ResolutionScore) : comparison := lex_cmp (score_key a) (score_key b).

(* SRC guard/src/capability_broker.rs @fn:deciding_dimension ResolutionScore::deciding_dimension *)
Definition deciding_dimension (a b : ResolutionScore) : option string :=
  if negb (rs_health a =? rs_health b)%N then Some "health"
  else if negb (rs_environment_fit a =? rs_environment_fit b)%N then Some "environment_fit"
  else if negb (rs_permission_fit a =? rs_permission_fit b)%N then Some "permission_fit"
  else if negb (cost_index (rs_cost a) =? cost_index (rs_cost b))%N then Some "cost"
  else if negb (latency_index (rs_latency a) =? latency_index (rs_latency b))%N then Some "latency"
  else None.

(* SRC guard/src/capability_broker.rs @enum:Unresolved Unresolved *)
Inductive Unresolved :=
  | NotRegistered (capability_id : string)
  | Deprecated (capability_id : string)
  | MissingRequirement (capability_id missing kind rationale : string)
  | NoServableProvider (capability_id : string) (excluded : list CandidateExclusion).

(* SRC guard/src/capability_broker.rs @fn:as_error Unresolved::as_error *)
Definition as_error (u : Unresolved) (capability_id : string) : CapabilityError :=
  match u with
  | NotRegistered _ => NotFound capability_id
  | Deprecated i => InvalidState ("capability `" +:+ i +:+ "` is past its deprecation window")
  | MissingRequirement _ missing _ rationale =>
      InvalidState ("requirement `" +:+ missing +:+ "` is unmet: " +:+ rationale)
  | NoServableProvider _ excluded =>
      Unavailable ("no provider can serve it (" +:+
        join "; " ((λ e, ex_provider_id e +:+ ": " +:+ ex_reason e) <$> excluded) +:+ ")")
  end.

(* SRC guard/src/capability_broker.rs @struct:Resolution Resolution *)
Record Resolution := {
  re_capability_id : string;
  re_chain : list RankedCandidate;
  re_excluded : list CandidateExclusion;
  re_audit : list (option string);
  re_handle : option CapabilityHandle;
  re_unresolved : option Unresolved
}.

(* SRC guard/src/capability_broker.rs @fn:is_resolved Resolution::is_resolved *)
Definition is_resolved (r : Resolution) : bool :=
  match re_chain r, re_unresolved r with _ :: _, None => true | _, _ => false end.

(* SRC guard/src/capability_broker.rs @fn:failover_next Resolution::failover_next *)
Definition failover_next (r : Resolution) (provider_id : string) : option RankedCandidate :=
  p ← list_find (λ c, rk_provider_id c = provider_id) (re_chain r);
  re_chain r !! S p.1.

(* SRC guard/src/capability_broker.rs @fn:failover Resolution::failover *)
Definition failover {V} (r : Resolution) (failed_provider : string)
    : result RankedCandidate (CapabilityResult V) :=
  match failover_next r failed_provider with
  | Some next => Ok next
  | None =>
      let attempted := rk_provider_id <$> re_chain r in
      let hint := match attempted with
                  | [] => match re_unresolved r with
                          | Some u => error_display (as_error u (re_capability_id r))
                          | None => "no provider is registered"
                          end
                  | _ => "tried " +:+ join ", " attempted
                  end in
      Err (guidance {|
        na_kind := Configure; na_target := re_capability_id r;
        na_instruction := "every provider for `" +:+ re_capability_id r +:+ "` failed (" +:+ hint +:+
          ") — configure, attach, or repair one, then retry";
        na_unlocks := "`" +:+ re_capability_id r +:+ "` becomes available again" |})
  end.

(** ** The registry *)

(* SRC guard/src/capability_broker.rs @struct:CapabilityRegistry CapabilityRegistry *)
Record CapabilityRegistry := {
  descriptors : gmap string CapabilityDescriptor;
  coverage : gmap string (gset string);
  epochs : gmap string N
}.

(* SRC guard/src/capability_broker.rs @fn:new#4 CapabilityRegistry::new *)
Definition registry_new : CapabilityRegistry := {| descriptors := ∅; coverage := ∅; epochs := ∅ |}.

(** The assignment list kept in step: raised if present, else pushed. *)
(* SRC guard/src/capability_broker.rs 705 717 CapabilityRegistry::project_providers (assignment) *)
Fixpoint assign (provider : string) (epoch : N) (ps : list ProviderAssignment) : list ProviderAssignment :=
  match ps with
  | [] => [{| pa_provider_id := provider; pa_provider_epoch := epoch |}]
  | p :: rest =>
      if String.eqb (pa_provider_id p) provider
      then {| pa_provider_id := pa_provider_id p; pa_provider_epoch := N.max (pa_provider_epoch p) epoch |} :: rest
      else p :: assign provider epoch rest
  end.

(* SRC guard/src/capability_broker.rs 697 719 CapabilityRegistry::project_providers (capability loop) *)
Definition project_capability (provider : string) (epoch : N) (self : CapabilityRegistry) (cap : string)
    : CapabilityRegistry :=
  {| descriptors := alter (λ d, with_providers d (assign provider epoch (cd_providers d))) cap (descriptors self);
     coverage := <[cap := {[provider]} ∪ default ∅ (coverage self !! cap)]> (coverage self);
     epochs := epochs self |}.

(* SRC guard/src/capability_broker.rs 690 720 CapabilityRegistry::project_providers (candidate loop) *)
Definition project_one (self : CapabilityRegistry) (c : ProviderCandidate) : CapabilityRegistry :=
  let epoch := match epochs self !! pc_id c with Some e => N.max e (pc_epoch c) | None => pc_epoch c end in
  let self1 := {| descriptors := descriptors self; coverage := coverage self;
                  epochs := <[pc_id c := epoch]> (epochs self) |} in
  foldl (project_capability (pc_id c) epoch) self1 (pc_capabilities c).

(* SRC guard/src/capability_broker.rs @fn:project_providers CapabilityRegistry::project_providers *)
Definition project_providers (self : CapabilityRegistry) (candidates : list ProviderCandidate)
    : CapabilityRegistry := foldl project_one self candidates.

(* SRC guard/src/capability_broker.rs @fn:provider_epoch CapabilityRegistry::provider_epoch *)
Definition provider_epoch (self : CapabilityRegistry) (provider : string) : N :=
  default 0%N (epochs self !! provider).

(* SRC guard/src/capability_broker.rs @fn:providers_of CapabilityRegistry::providers_of *)
Definition providers_of (self : CapabilityRegistry) (cap : string) : gset string :=
  default ∅ (coverage self !! cap).

(* SRC guard/src/capability_broker.rs @fn:with_derived_providers CapabilityRegistry::with_derived_providers *)
Definition with_derived_providers (self : CapabilityRegistry) (d : CapabilityDescriptor) : CapabilityDescriptor :=
  with_providers d
    ((λ p, {| pa_provider_id := p; pa_provider_epoch := provider_epoch self p |})
       <$> set_iter (providers_of self (cd_id d))).

(* SRC guard/src/capability_broker.rs @fn:register CapabilityRegistry::register *)
Definition register (self : CapabilityRegistry) (d : CapabilityDescriptor)
    : result unit CensusFinding * CapabilityRegistry :=
  let normalized := with_derived_providers self d in
  match descriptors self !! cd_id d with
  | Some existing =>
      if negb (bool_decide (existing = normalized)) then (Err (DuplicateId (cd_id d)), self) else (Ok tt, self)
  | None =>
      (Ok tt, {| descriptors := <[cd_id d := normalized]> (descriptors self);
                 coverage := coverage self; epochs := epochs self |})
  end.

(* SRC guard/src/capability_broker.rs @struct:CensusReport CensusReport *)
Record CensusReport := { censused : nat; findings : list CensusFinding }.

Definition census_dangling (self : CapabilityRegistry) (d : CapabilityDescriptor) (r : Requirement)
    : list CensusFinding :=
  census_if (bool_decide (descriptors self !! rq_target r = None)) (DanglingRequirement (cd_id d) (rq_target r)).

(* SRC guard/src/capability_broker.rs @fn:census CapabilityRegistry::census *)
Definition census (self : CapabilityRegistry) : CensusReport :=
  {| censused := size (descriptors self);
     findings := values (descriptors self) ≫= λ d,
       census_descriptor d (providers_of self (cd_id d)) ++
       (requirements_of d RKCapability ≫= census_dangling self d) |}.

(* SRC guard/src/capability_broker.rs @fn:ok CensusReport::ok *)
Definition census_ok (r : CensusReport) : bool := match findings r with [] => true | _ => false end.

(** ** Resolution *)

(** The loop over one capability's edges; [rec] is the recursive call on a
    required capability. *)
(* SRC guard/src/capability_broker.rs 1016 1070 CapabilityRegistry::first_unmet_requirement (the loop) *)
Fixpoint walk_requirements (rec : CapabilityDescriptor → option (option Unresolved))
    (self : CapabilityRegistry) (candidates : list ProviderCandidate) (d : CapabilityDescriptor)
    (rs : list Requirement) : option (option Unresolved) :=
  match rs with
  | [] => Some None
  | r :: rest =>
      let missing kind := Some (Some (MissingRequirement (cd_id d) (rq_target r) kind (rq_rationale r))) in
      match rq_kind r with
      | RKCapability =>
          match descriptors self !! rq_target r with
          | None => missing "capability"
          | Some required =>
              if negb (serves_at required 0) then missing "capability"
              else
                match rec required with
                | None => None
                | Some (Some nested) => Some (Some nested)
                | Some None => walk_requirements rec self candidates d rest
                end
          end
      | RKEnvironment =>
          if negb (existsb (λ c, serves_environment c (rq_target r)) candidates)
          then missing "environment" else walk_requirements rec self candidates d rest
      | RKConnection =>
          if negb (existsb (λ c, implements c (cd_id d)) candidates)
          then missing "connection" else walk_requirements rec self candidates d rest
      end
  end.

(* SRC guard/src/capability_broker.rs @fn:first_unmet_requirement CapabilityRegistry::first_unmet_requirement *)
Fixpoint first_unmet (fuel : nat) (self : CapabilityRegistry) (candidates : list ProviderCandidate)
    (d : CapabilityDescriptor) : option (option Unresolved) :=
  match fuel with
  | 0 => None
  | S n => walk_requirements (first_unmet n self candidates) self candidates d (cd_requirements d)
  end.

(** The guards of the candidate loop, in order. *)
(* SRC guard/src/capability_broker.rs 866 916 CapabilityRegistry::resolve (the loop guards) *)
Definition exclusion (capability_id : string) (k : ResolutionConstraints) (c : ProviderCandidate)
    : option string :=
  if negb (implements c capability_id) then Some "does not implement this capability"
  else if negb (servable (pc_permission_fit c)) then Some "policy snapshot denies this provider"
  else if negb (is_empty (rc_environment_id k)) && negb (serves_environment c (rc_environment_id k))
  then Some ("does not run in environment `" +:+ rc_environment_id k +:+ "`")
  else if match rc_max_cost_class k with
          | Some ceiling => (cost_index ceiling <? cost_index (pc_cost_class c))%N
          | None => false
          end
  then Some ("cost class `" +:+ cost_debug (pc_cost_class c) +:+ "` exceeds the caller's ceiling")
  else if match rc_max_latency_class k with
          | Some ceiling => (latency_index ceiling <? latency_index (pc_latency_class c))%N
          | None => false
          end
  then Some ("latency class `" +:+ latency_debug (pc_latency_class c) +:+ "` exceeds the caller's ceiling")
  else None.

(* SRC guard/src/capability_broker.rs 917 940 CapabilityRegistry::resolve (scoring) *)
Definition rank_candidate (capability_id : string) (k : ResolutionConstraints) (c : ProviderCandidate)
    : RankedCandidate :=
  {| rk_provider_id := pc_id c; rk_provider_epoch := pc_epoch c; rk_health := health_for c capability_id;
     rk_score := {|
       rs_health := health_rank (health_for c capability_id);
       rs_environment_fit :=
         if is_empty (rc_environment_id k) then 1
         else if serves_environment c (rc_environment_id k) then 2 else 0;
       rs_permission_fit := fit_index (pc_permission_fit c);
       rs_cost := pc_cost_class c;
       rs_latency := pc_latency_class c |} |}.

(** [b.score.cmp(&a.score).then_with(|| a.provider_id.cmp(&b.provider_id))] is
    not [Greater]. *)
(* SRC guard/src/capability_broker.rs 954 958 CapabilityRegistry::resolve (sort of ranked) *)
Definition chain_le (a b : RankedCandidate) : bool :=
  match score_cmp (rk_score b) (rk_score a) with
  | Lt => true | Gt => false | Eq => str_le (rk_provider_id a) (rk_provider_id b)
  end.
(* SRC guard/src/capability_broker.rs 945 949 CapabilityRegistry::resolve (sort of excluded) *)
Definition exclusion_le (a b : CandidateExclusion) : bool :=
  if String.eqb (ex_provider_id a) (ex_provider_id b) then str_le (ex_reason a) (ex_reason b)
  else str_le (ex_provider_id a) (ex_provider_id b).

(** [ranked.windows(2)]. *)
(* SRC guard/src/capability_broker.rs 959 967 CapabilityRegistry::resolve (audit) *)
Fixpoint audit_pairs (l : list RankedCandidate) : list (option string) :=
  match l with
  | a :: ((b :: _) as l') => deciding_dimension (rk_score a) (rk_score b) :: audit_pairs l'
  | _ => []
  end.

Definition unresolved_with (capability_id : string) (u : Unresolved) : Resolution :=
  {| re_capability_id := capability_id; re_chain := []; re_excluded := []; re_audit := [];
     re_handle := None; re_unresolved := Some u |}.

Definition ranked_chain (id : string) (k : ResolutionConstraints) (candidates : list ProviderCandidate)
    : list RankedCandidate :=
  sort_by chain_le
    (rank_candidate id k <$> filter (λ c, exclusion id k c = None) candidates).
Definition excluded_list (id : string) (k : ResolutionConstraints) (candidates : list ProviderCandidate)
    : list CandidateExclusion :=
  sort_by exclusion_le
    (omap (λ c, reason ← exclusion id k c; Some {| ex_provider_id := pc_id c; ex_reason := reason |}) candidates).

(* SRC guard/src/capability_broker.rs 984 994 CapabilityRegistry::resolve (handle) *)
Definition mint_handle (id : string) (k : ResolutionConstraints) (now_ms : N) (d : CapabilityDescriptor)
    (head : RankedCandidate) : CapabilityHandle :=
  {| ch_capability_id := id; ch_provider_id := rk_provider_id head;
     ch_provider_epoch := rk_provider_epoch head; ch_environment_id := rc_environment_id k;
     ch_permission_snapshot := rc_permission_snapshot k;
     ch_runtime_handle_ref := "rt:" +:+ rk_provider_id head +:+ ":" +:+ pretty (rk_provider_epoch head);
     ch_expires_at_ms := expiry_from now_ms DEFAULT_HANDLE_TTL_MS;
     ch_descriptor_version := cd_version d |}.

(** [None]: the requirement walk did not return. *)
(* SRC guard/src/capability_broker.rs @fn:resolve CapabilityRegistry::resolve *)
Definition registry_resolve (fuel : nat) (self : CapabilityRegistry) (id : string) (k : ResolutionConstraints)
    (candidates : list ProviderCandidate) (now_ms : N) : option Resolution :=
  match descriptors self !! id with
  | None => Some (unresolved_with id (NotRegistered id))
  | Some d =>
      if negb (serves_at d now_ms) then Some (unresolved_with id (Deprecated id))
      else
        blocked ← first_unmet fuel self candidates d;
        match blocked with
        | Some u => Some (unresolved_with id u)
        | None =>
            let excluded := excluded_list id k candidates in
            match ranked_chain id k candidates with
            | [] => Some {| re_capability_id := id; re_chain := []; re_excluded := excluded; re_audit := [];
                            re_handle := None; re_unresolved := Some (NoServableProvider id excluded) |}
            | head :: rest =>
                Some {| re_capability_id := id; re_chain := head :: rest; re_excluded := excluded;
                        re_audit := audit_pairs (head :: rest);
                        re_handle := Some (mint_handle id k now_ms d head); re_unresolved := None |}
            end
        end
  end.

(** ** Run-scoped grants *)

(* SRC guard/src/capability_broker.rs @struct:CapabilityRequest CapabilityRequest *)
Record CapabilityRequest := { cq_run_id : string; cq_capability : string; cq_operation : string }.

(* SRC guard/src/capability_broker.rs @struct:EphemeralCredential EphemeralCredential *)
Record EphemeralCredential := {
  ec_handle : string; ec_scope : string; ec_issued_for : string; ec_expires_at_ms : N
}.

(* SRC guard/src/capability_broker.rs @struct:CapabilityGrant CapabilityGrant *)
Record CapabilityGrant := {
  cg_grant_id : string; cg_run_id : string; cg_capability : string; cg_handle : EphemeralCredential;
  cg_issued_at_ms : N; cg_revoked : bool
}.

(* SRC guard/src/capability_broker.rs @enum:CapabilityBrokerError CapabilityBrokerError *)
Inductive CapabilityBrokerError :=
  | MissingRun | MissingCapability | NotAuthorized | BExpired | BRevoked | UnknownGrant | ScopeMismatch.

(* SRC guard/src/capability_broker.rs @struct:LocalCapabilityBroker LocalCapabilityBroker *)
Record LocalCapabilityBroker := {
  br_grants : gmap string CapabilityGrant; br_allowed : gmap string (list string); br_next_id : N
}.

(* SRC guard/src/capability_broker.rs @fn:new LocalCapabilityBroker::new *)
Definition broker_new : LocalCapabilityBroker := {| br_grants := ∅; br_allowed := ∅; br_next_id := 0 |}.

(* SRC guard/src/capability_broker.rs @fn:allow_for_run LocalCapabilityBroker::allow_for_run *)
Definition allow_for_run (b : LocalCapabilityBroker) (run : string) (caps : list string) : LocalCapabilityBroker :=
  {| br_grants := br_grants b; br_allowed := <[run := caps]> (br_allowed b); br_next_id := br_next_id b |}.

(** [trim_end_matches("**")] on the reversed pattern. *)
Fixpoint drop_stars (s : string) : string :=
  match s with
  | String "*" (String "*" s') => drop_stars s'
  | _ => s
  end.

(* SRC guard/src/capability_broker.rs @fn:matches LocalCapabilityBroker::matches *)
Definition scope_matches (pattern value : string) : bool :=
  String.eqb pattern value
  || ends_with "**" pattern && starts_with (rev_string (drop_stars (rev_string pattern))) value.

(* SRC guard/src/capability_broker.rs @fn:list_capabilities#2 LocalCapabilityBroker::list_capabilities *)
Definition list_capabilities (b : LocalCapabilityBroker) (run : string) : list string :=
  default [] (br_allowed b !! run).

(* SRC guard/src/capability_broker.rs @fn:authorize#2 LocalCapabilityBroker::authorize *)
Definition authorize (now : N) (b : LocalCapabilityBroker) (q : CapabilityRequest) (ttl_ms : N)
    : result CapabilityGrant CapabilityBrokerError * LocalCapabilityBroker :=
  if is_empty (cq_run_id q) then (Err MissingRun, b)
  else if is_empty (cq_capability q) then (Err MissingCapability, b)
  else if negb (existsb (λ p, scope_matches p (cq_capability q)) (list_capabilities b (cq_run_id q)))
  then (Err NotAuthorized, b)
  else
    let n := u64_add (br_next_id b) 1 in
    let grant_id := "grant:" +:+ pretty n in
    let g := {| cg_grant_id := grant_id; cg_run_id := cq_run_id q; cg_capability := cq_capability q;
                cg_handle := {| ec_handle := "cred:" +:+ pretty n; ec_scope := cq_capability q;
                                ec_issued_for := cq_run_id q;
                                ec_expires_at_ms := if (ttl_ms =? 0)%N then 0%N
                                                    else u64_saturating_add now ttl_ms |};
                cg_issued_at_ms := now; cg_revoked := false |} in
    (Ok g, {| br_grants := <[grant_id := g]> (br_grants b); br_allowed := br_allowed b; br_next_id := n |}).

(* SRC guard/src/capability_broker.rs @fn:invoke#2 LocalCapabilityBroker::invoke *)
Definition invoke (now : N) (b : LocalCapabilityBroker) (grant_id : string) (q : CapabilityRequest)
    : result EphemeralCredential CapabilityBrokerError :=
  match br_grants b !! grant_id with
  | None => Err UnknownGrant
  | Some g =>
      if cg_revoked g then Err BRevoked
      else if negb (ec_expires_at_ms (cg_handle g) =? 0)%N && (ec_expires_at_ms (cg_handle g) <? now)%N
      then Err BExpired
      else if negb (String.eqb (cg_run_id g) (cq_run_id q))
              || negb (String.eqb (cg_capability g) (cq_capability q))
              || negb (scope_matches (cg_capability g) (cq_capability q))
      then Err ScopeMismatch
      else Ok (cg_handle g)
  end.

(* SRC guard/src/capability_broker.rs @fn:revoke#2 LocalCapabilityBroker::revoke *)
Definition broker_revoke (b : LocalCapabilityBroker) (grant_id : string) : bool * LocalCapabilityBroker :=
  match br_grants b !! grant_id with
  | Some g =>
      (true, {| br_grants := <[grant_id := {| cg_grant_id := cg_grant_id g; cg_run_id := cg_run_id g;
                   cg_capability := cg_capability g; cg_handle := cg_handle g;
                   cg_issued_at_ms := cg_issued_at_ms g; cg_revoked := true |}]> (br_grants b);
                br_allowed := br_allowed b; br_next_id := br_next_id b |})
  | None => (false, b)
  end.

(** ** The ranking order *)

Lemma lex_cmp_opp a b : lex_cmp b a = CompOpp (lex_cmp a b).
Proof.
  revert b. induction a as [|x a IH]; intros [|y b]; simpl; try done.
  rewrite (N.compare_antisym x y). destruct (x ?= y)%N; simpl; auto.
Qed.

Lemma lex_cmp_refl a : lex_cmp a a = Eq.
Proof. induction a as [|x a IH]; simpl; [done|]. by rewrite N.compare_refl. Qed.

Lemma lex_cmp_eq a b : lex_cmp a b = Eq → a = b.
Proof.
  revert b. induction a as [|x a IH]; intros [|y b]; simpl; try done.
  destruct (N.compare_spec x y) as [->| |]; try done. intros H. f_equal. auto.
Qed.

Lemma lex_cmp_trans a b c : lex_cmp a b ≠ Gt → lex_cmp b c ≠ Gt → lex_cmp a c ≠ Gt.
Proof.
  revert b c. induction a as [|x a IH]; intros [|y b] [|z c]; simpl; try done.
  destruct (N.compare_spec x y) as [Hxy|Hxy|Hxy], (N.compare_spec y z) as [Hyz|Hyz|Hyz],
    (N.compare_spec x z); try done; try lia; apply IH.
Qed.

Lemma chain_le_spec a b :
  chain_le a b = true ↔
  score_cmp (rk_score b) (rk_score a) = Lt ∨
  (score_cmp (rk_score b) (rk_score a) = Eq ∧ str_le (rk_provider_id a) (rk_provider_id b) = true).
Proof. unfold chain_le. destruct (score_cmp _ _); naive_solver. Qed.

Lemma chain_le_total a b : chain_le a b = true ∨ chain_le b a = true.
Proof.
  rewrite !chain_le_spec. unfold score_cmp. rewrite (lex_cmp_opp (score_key (rk_score b))).
  destruct (lex_cmp _ _); simpl; auto. destruct (str_le_total (rk_provider_id a) (rk_provider_id b)); auto.
Qed.

#[export] Instance chain_le_trans : Transitive (λ a b, chain_le a b = true).
Proof.
  intros a b c. rewrite !chain_le_spec. unfold score_cmp.
  pose proof (lex_cmp_trans (score_key (rk_score c)) (score_key (rk_score b)) (score_key (rk_score a))) as Ht.
  intros H1 H2.
  destruct H1 as [H1|[H1 I1]], H2 as [H2|[H2 I2]].
  - destruct (lex_cmp (score_key (rk_score c)) (score_key (rk_score a))) eqn:E; [|by left|].
    + apply lex_cmp_eq in E. rewrite E, lex_cmp_opp, H1 in H2. done.
    + destruct Ht; [by rewrite H2 | by rewrite H1 | done].
  - apply lex_cmp_eq in H2. rewrite H2. by left.
  - apply lex_cmp_eq in H1. rewrite <- H1. by left.
  - apply lex_cmp_eq in H1. rewrite <- H1. right. split; [done|]. by eapply str_le_trans.
Qed.

Lemma exclusion_le_total a b : exclusion_le a b = true ∨ exclusion_le b a = true.
Proof.
  unfold exclusion_le. rewrite (String.eqb_sym (ex_provider_id b)).
  destruct (String.eqb _ _); apply str_le_total.
Qed.

Lemma exclusion_le_asym a b : exclusion_le a b = true → exclusion_le b a = true → a = b.
Proof.
  unfold exclusion_le. rewrite (String.eqb_sym (ex_provider_id b)). destruct a as [i r], b as [j s]; simpl.
  destruct (String.eqb_spec i j) as [->|Hne]; intros H1 H2.
  - f_equal. by apply str_le_antisym.
  - destruct Hne. by apply str_le_antisym.
Qed.

#[export] Instance exclusion_le_trans : Transitive (λ a b, exclusion_le a b = true).
Proof.
  intros [i r] [j s] [k t]. unfold exclusion_le. simpl.
  destruct (String.eqb_spec i j) as [->|H1], (String.eqb_spec j k) as [->|H2]; intros Ha Hb.
  - by eapply str_le_trans.
  - done.
  - by rewrite (proj2 (String.eqb_neq _ _)).
  - destruct (String.eqb_spec i k) as [->|H3]; [|by eapply str_le_trans].
    destruct H1. by apply str_le_antisym.
Qed.

(** ** Order independence *)

Lemma existsb_perm {A} (f : A → bool) l1 l2 : l1 ≡ₚ l2 → existsb f l1 = existsb f l2.
Proof. induction 1; simpl; [done | by f_equal | by destruct (f x), (f y) | congruence]. Qed.

Lemma first_unmet_perm fuel self c1 c2 d :
  c1 ≡ₚ c2 → first_unmet fuel self c1 d = first_unmet fuel self c2 d.
Proof.
  intros Hp. revert d. induction fuel as [|n IH]; intros d; [done|]. cbn [first_unmet].
  induction (cd_requirements d) as [|r rest IHr]; [done|]. cbn [walk_requirements].
  rewrite IHr, !(existsb_perm _ c1 c2) by done. destruct (rq_kind r); [|done..].
  destruct (descriptors self !! rq_target r); [|done]. by rewrite IH.
Qed.

Lemma ranked_chain_perm id k c1 c2 :
  c1 ≡ₚ c2 → NoDup (pc_id <$> c1) → ranked_chain id k c1 = ranked_chain id k c2.
Proof.
  intros Hp Hnd. unfold ranked_chain. apply sort_by_permutation; [apply chain_le_total | apply _ | by rewrite Hp |].
  intros a b (c & -> & Hc)%list_elem_of_fmap (d & -> & Hd)%list_elem_of_fmap Hab Hba.
  apply list_elem_of_filter in Hc as [_ Hc], Hd as [_ Hd].
  rewrite chain_le_spec in Hab, Hba. unfold score_cmp in *.
  assert (Hid : pc_id c = pc_id d).
  { rewrite lex_cmp_opp in Hba. destruct Hab as [Hab|[Hab ?]], Hba as [Hba|[Hba ?]]; rewrite Hab in Hba; try done.
    by apply str_le_antisym. }
  apply list_elem_of_lookup in Hc as [i Hi], Hd as [j Hj].
  assert (i = j) as ->; [|congruence].
  eapply NoDup_lookup; [exact Hnd | rewrite list_lookup_fmap, Hi; done | rewrite list_lookup_fmap, Hj; simpl; by f_equal].
Qed.

Lemma excluded_list_perm id k c1 c2 : c1 ≡ₚ c2 → excluded_list id k c1 = excluded_list id k c2.
Proof.
  intros Hp. unfold excluded_list. apply sort_by_permutation; [apply exclusion_le_total | apply _ | by rewrite Hp |].
  intros a b _ _. apply exclusion_le_asym.
Qed.

(** A resolution is a function of the set of candidates: over provider
    projections with distinct ids, the order in which the caller lists them
    changes neither the chain, nor its audit, nor the exclusions, nor the
    handle. *)
Theorem resolve_order_independent fuel self id k c1 c2 now :
  c1 ≡ₚ c2 → NoDup (pc_id <$> c1) → registry_resolve fuel self id k c1 now = registry_resolve fuel self id k c2 now.
Proof.
  intros Hp Hnd. unfold registry_resolve.
  rewrite (ranked_chain_perm id k c1 c2), (excluded_list_perm id k c1 c2) by done.
  destruct (descriptors self !! id) as [d|]; [|done]. by rewrite (first_unmet_perm fuel self c1 c2).
Qed.

(** ** The requirement walk *)

(** The demo registry of the witnesses: an editor that requires a reader, and a
    two-capability loop. *)
Definition demo_hook : VerificationHook := {| vh_hook := "reread"; vh_depth := ValidateAndReread |}.
Definition demo_descriptor (id : string) (rs : list Requirement) : CapabilityDescriptor :=
  with_requirements (descriptor_new id "1.0.0" "demo" ["do it"] Eager Sensitive demo_hook) rs.
Definition needs (id : string) : Requirement :=
  {| rq_kind := RKCapability; rq_target := id; rq_rationale := "first" |}.
Definition demo_reader : CapabilityDescriptor := demo_descriptor "files.read" [].
Definition demo_editor : CapabilityDescriptor := demo_descriptor "files.edit" [needs "files.read"].
Definition demo_provider (id : string) : ProviderCandidate := candidate_new id 1 ["files.read"; "files.edit"].
Definition any_env : ResolutionConstraints :=
  {| rc_environment_id := ""; rc_permission_snapshot := "p1"; rc_max_cost_class := None;
     rc_max_latency_class := None |}.
Definition demo_registry : CapabilityRegistry :=
  (register (register (project_providers registry_new [demo_provider "beta"; demo_provider "alpha"])
     demo_reader).2 demo_editor).2.

Lemma resolve_order_independent_witness :
  registry_resolve 2 demo_registry "files.edit" any_env [demo_provider "beta"; demo_provider "alpha"] 5
  = registry_resolve 2 demo_registry "files.edit" any_env [demo_provider "alpha"; demo_provider "beta"] 5.
Proof.
  apply resolve_order_independent; [apply Permutation_swap|].
  apply (bool_decide_unpack _). vm_compute. reflexivity.
Defined.

(** What the walk decides: every edge of the capability, and of the
    capabilities it requires, is satisfied. A required capability must be
    registered; its deprecation window is not part of it. *)
Inductive met (self : CapabilityRegistry) (candidates : list ProviderCandidate) : CapabilityDescriptor → Prop :=
  | met_intro d :
      (∀ r, r ∈ cd_requirements d → rq_kind r = RKCapability → is_Some (descriptors self !! rq_target r)) →
      (∀ r required, r ∈ cd_requirements d → rq_kind r = RKCapability →
         descriptors self !! rq_target r = Some required → met self candidates required) →
      (∀ r, r ∈ cd_requirements d → rq_kind r = RKEnvironment →
         ∃ c, c ∈ candidates ∧ serves_environment c (rq_target r) = true) →
      (∀ r, r ∈ cd_requirements d → rq_kind r = RKConnection →
         ∃ c, c ∈ candidates ∧ implements c (cd_id d) = true) →
      met self candidates d.

Lemma serves_at_zero d : serves_at d 0 = true.
Proof.
  unfold serves_at, window_serves_at. destruct (cd_deprecated d) as [p|]; [|done].
  destruct (N.eqb_spec (dp_window_ends_ms p) 0); [done|]. simpl. apply N.ltb_lt. lia.
Qed.

Lemma existsb_elem_of {A} (f : A → bool) l : existsb f l = true ↔ ∃ x, x ∈ l ∧ f x = true.
Proof. rewrite existsb_exists. by setoid_rewrite <- list_elem_of_In. Qed.

(** One edge, given what a required capability must satisfy. *)
Definition edge_met (P : CapabilityDescriptor → Prop) (self : CapabilityRegistry)
    (candidates : list ProviderCandidate) (d : CapabilityDescriptor) (r : Requirement) : Prop :=
  match rq_kind r with
  | RKCapability => ∃ required, descriptors self !! rq_target r = Some required ∧ P required
  | RKEnvironment => ∃ c, c ∈ candidates ∧ serves_environment c (rq_target r) = true
  | RKConnection => ∃ c, c ∈ candidates ∧ implements c (cd_id d) = true
  end.

Lemma walk_none_iff rec self candidates d rs :
  walk_requirements rec self candidates d rs = Some None ↔
  Forall (edge_met (λ x, rec x = Some None) self candidates d) rs.
Proof.
  induction rs as [|r rest IH]; [done|]. rewrite Forall_cons, <- IH. clear IH.
  cbn [walk_requirements]. unfold edge_met. destruct (rq_kind r).
  - destruct (descriptors self !! rq_target r) as [required|]; [|split; [done | by intros [(? & ? & _) _]]].
    rewrite serves_at_zero. simpl. destruct (rec required) as [[u|]|] eqn:E.
    + split; [done | intros [(? & [= <-] & ?) _]; congruence].
    + split; [eauto | by intros [_ H]].
    + split; [done | intros [(? & [= <-] & ?) _]; congruence].
  - rewrite <- (existsb_elem_of (λ c, implements c (cd_id d))).
    destruct (existsb _ _); simpl; naive_solver.
  - rewrite <- (existsb_elem_of (λ c, serves_environment c (rq_target r))).
    destruct (existsb _ _); simpl; naive_solver.
Qed.

(** More answers from the recursive call, more answers from the loop. *)
Lemma walk_mono rec rec' self candidates d rs o :
  (∀ x o, rec x = Some o → rec' x = Some o) →
  walk_requirements rec self candidates d rs = Some o → walk_requirements rec' self candidates d rs = Some o.
Proof.
  intros Hrec. induction rs as [|r rest IH]; [done|]. cbn [walk_requirements].
  destruct (rq_kind r); [|by destruct (negb _)..].
  destruct (descriptors self !! rq_target r) as [x|]; [|done]. destruct (negb (serves_at x 0)); [done|].
  destruct (rec x) as [o'|] eqn:E; [|done]. rewrite (Hrec x o' E). by destruct o'.
Qed.

(** The loop returns when the recursive call does on every required capability. *)
Lemma walk_returns rec self candidates d rs :
  Forall (λ r, rq_kind r = RKCapability → ∀ x, descriptors self !! rq_target r = Some x → is_Some (rec x)) rs →
  is_Some (walk_requirements rec self candidates d rs).
Proof.
  induction 1 as [|r rest Hr _ IH]; [by eexists|]. cbn [walk_requirements].
  destruct (rq_kind r); [|by destruct (negb _); [eexists|]..].
  destruct (descriptors self !! rq_target r) as [x|]; [|by eexists].
  rewrite serves_at_zero. simpl. destruct (Hr eq_refl x eq_refl) as [[u|] ->]; [by eexists | done].
Qed.

Lemma first_unmet_sound n self candidates d :
  first_unmet n self candidates d = Some None → met self candidates d.
Proof.
  revert d. induction n as [|n IH]; intros d H; [done|].
  cbn [first_unmet] in H. rewrite walk_none_iff, Forall_forall in H.
  constructor; [intros r Hr Hk | intros r x Hr Hk Hx | intros r Hr Hk..];
    specialize (H r Hr); unfold edge_met in H; rewrite Hk in H; [| |exact H..].
  - destruct H as (required & Hreq & _). by exists required.
  - destruct H as (required & Hreq & Hn). apply IH. congruence.
Qed.

Lemma first_unmet_more n m self candidates d o :
  n ≤ m → first_unmet n self candidates d = Some o → first_unmet m self candidates d = Some o.
Proof.
  revert m d o. induction n as [|n IH]; intros m d o Hm H; [done|].
  destruct m as [|m]; [lia|]. cbn [first_unmet] in *. eapply walk_mono; [|exact H].
  intros x o' Hx. apply IH; [lia | done].
Qed.

(** Enough fuel: the height of the requirement graph. *)
Definition acyclic (self : CapabilityRegistry) (height : string → nat) : Prop :=
  ∀ id d r, descriptors self !! id = Some d → r ∈ cd_requirements d → rq_kind r = RKCapability →
    is_Some (descriptors self !! rq_target r) → height (rq_target r) < height id.

Lemma first_unmet_returns self candidates height :
  acyclic self height → ∀ n id d, descriptors self !! id = Some d → height id < n →
  is_Some (first_unmet n self candidates d).
Proof.
  intros Hac. induction n as [|n IH]; intros id d Hd Hn; [lia|]. cbn [first_unmet].
  apply walk_returns, Forall_forall. intros r Hr Hk x Hx. apply (IH (rq_target r) x Hx).
  pose proof (Hac id d r Hd Hr Hk ltac:(eauto)). lia.
Qed.

Lemma walk_all_met rec self candidates d rs :
  Forall (edge_met (λ x, is_Some (rec x) → rec x = Some None) self candidates d) rs →
  is_Some (walk_requirements rec self candidates d rs) →
  walk_requirements rec self candidates d rs = Some None.
Proof.
  induction 1 as [|r rest Hr _ IH]; [done|]. cbn [walk_requirements]. unfold edge_met in Hr.
  destruct (rq_kind r).
  - destruct Hr as (x & -> & Hx). rewrite serves_at_zero. simpl.
    destruct (rec x) as [o|]; [|by intros [? ?]]. injection (Hx ltac:(eauto)) as ->. done.
  - rewrite <- (existsb_elem_of (λ c, implements c (cd_id d))) in Hr. by rewrite Hr.
  - rewrite <- (existsb_elem_of (λ c, serves_environment c (rq_target r))) in Hr. by rewrite Hr.
Qed.

Lemma met_first_unmet self candidates d :
  met self candidates d → ∀ n, is_Some (first_unmet n self candidates d) →
  first_unmet n self candidates d = Some None.
Proof.
  induction 1 as [d Hreg _ IH Henv Hconn]. intros [|n]; [by intros []|]. cbn [first_unmet].
  apply walk_all_met, Forall_forall. intros r Hr. unfold edge_met. destruct (rq_kind r) eqn:Ek; eauto.
  destruct (Hreg r Hr Ek) as [x Ex]. exists x. split; [done|]. by apply (IH r x).
Qed.

(** The requirement walk returns and is right wherever the registry's
    capability edges have a height: it answers on every registered capability
    with as much fuel as its height, it finds nothing unmet exactly when every
    edge of the graph below is satisfied, and more fuel never changes the
    answer. *)
Theorem requirement_walk_decides self candidates height id d :
  acyclic self height → descriptors self !! id = Some d →
  ∃ o, (o = None ↔ met self candidates d)
    ∧ ∀ n, height id < n → first_unmet n self candidates d = Some o.
Proof.
  intros Hac Hd.
  destruct (first_unmet_returns self candidates height Hac (S (height id)) id d Hd) as [o Ho]; [lia|].
  exists o. split.
  - split; [intros ->; by eapply first_unmet_sound|]. intros Hm.
    pose proof (met_first_unmet self candidates d Hm (S (height id))) as H.
    rewrite Ho in H. by injection (H ltac:(eauto)).
  - intros n Hn. eapply first_unmet_more; [|exact Ho]. lia.
Qed.

Definition demo_height (id : string) : nat := if String.eqb id "files.edit" then 1 else 0.

Lemma demo_registry_acyclic : acyclic demo_registry demo_height.
Proof.
  intros id d r Hd Hr _ _.
  assert (Hall : map_Forall (λ id d, Forall (λ r, demo_height (rq_target r) < demo_height id) (cd_requirements d))
    (descriptors demo_registry)) by (apply (bool_decide_unpack _); by vm_compute).
  specialize (Hall id d Hd). rewrite Forall_forall in Hall. by apply Hall.
Qed.

Lemma requirement_walk_decides_witness :
  ∃ d, descriptors demo_registry !! "files.edit" = Some d
    ∧ first_unmet 2 demo_registry [demo_provider "alpha"] d = Some None.
Proof.
  destruct (requirement_walk_decides demo_registry [demo_provider "alpha"] demo_height "files.edit"
    (with_derived_providers demo_registry demo_editor) demo_registry_acyclic) as (o & _ & H).
  - by vm_compute.
  - eexists. split; [by vm_compute|]. pose proof (H 2 ltac:(vm_compute; lia)) as H2.
    assert (Hn : first_unmet 2 demo_registry [demo_provider "alpha"]
      (with_derived_providers demo_registry demo_editor) = Some None) by (by vm_compute).
    exact Hn.
Defined.

(** On a capability whose first requirement is itself the walk never
    returns: no fuel is enough, so no resolution of it does. *)
Theorem self_requirement_never_resolves self id d r rest k candidates now :
  descriptors self !! id = Some d → cd_requirements d = r :: rest →
  rq_kind r = RKCapability → rq_target r = id → serves_at d now = true →
  ∀ fuel, registry_resolve fuel self id k candidates now = None.
Proof.
  intros Hd Hreq Hk Ht Hs fuel. unfold registry_resolve. rewrite Hd, Hs. simpl.
  assert (H : first_unmet fuel self candidates d = None); [|by rewrite H].
  induction fuel as [|n IH]; [done|]. cbn [first_unmet]. rewrite Hreq.
  cbn [walk_requirements]. by rewrite Hk, Ht, Hd, serves_at_zero, IH.
Qed.

Lemma self_requirement_never_resolves_witness :
  let d := demo_descriptor "files.loop" [needs "files.loop"] in
  ∀ fuel, registry_resolve fuel (register registry_new d).2 "files.loop" any_env [] 0 = None.
Proof.
  intros d. eapply (self_requirement_never_resolves _ "files.loop" d (needs "files.loop") []); try reflexivity;
    by vm_compute.
Defined.

(** The deprecation window of a required capability is not read: the walk
    asks it at the epoch, where every window is open. A capability past its
    window is refused when asked for by name and served as a requirement. *)
Theorem expired_requirement_still_serves :
  let old := with_deprecation demo_reader {| dp_since_version := "1.0.0"; dp_window_ends_ms := 1000 |} in
  let reg := (register (register (project_providers registry_new [demo_provider "alpha"]) old).2 demo_editor).2 in
  (re_unresolved <$> registry_resolve 2 reg "files.read" any_env [demo_provider "alpha"] 2000)
    = Some (Some (Deprecated "files.read"))
  ∧ (is_resolved <$> registry_resolve 2 reg "files.edit" any_env [demo_provider "alpha"] 2000) = Some true.
Proof. split; by vm_compute. Qed.

(** ** What a resolution hands out *)

(** A candidate that survives the constraints. *)
Definition eligible (id : string) (k : ResolutionConstraints) (c : ProviderCandidate) : Prop :=
  implements c id = true
  ∧ pc_permission_fit c ≠ PDenied
  ∧ (rc_environment_id k = "" ∨ serves_environment c (rc_environment_id k) = true)
  ∧ (∀ ceiling, rc_max_cost_class k = Some ceiling → (cost_index (pc_cost_class c) ≤ cost_index ceiling)%N)
  ∧ (∀ ceiling, rc_max_latency_class k = Some ceiling →
       (latency_index (pc_latency_class c) ≤ latency_index ceiling)%N).

Lemma ceiling_iff {A} (ix : A → N) (m : option A) (x : A) :
  match m with Some ceiling => (ix ceiling <? ix x)%N | None => false end = false
  ↔ ∀ ceiling, m = Some ceiling → (ix x ≤ ix ceiling)%N.
Proof.
  destruct m as [y|]; [|naive_solver]. rewrite N.ltb_ge. naive_solver.
Qed.

Lemma guard_none_iff {A} (b : bool) (x : A) o : (if b then Some x else o) = None ↔ b = false ∧ o = None.
Proof. destruct b; naive_solver. Qed.

Lemma exclusion_none_iff id k c : exclusion id k c = None ↔ eligible id k c.
Proof.
  unfold exclusion, eligible. rewrite !guard_none_iff, !ceiling_iff, !negb_false_iff, andb_false_iff, !negb_false_iff.
  assert (servable (pc_permission_fit c) = true ↔ pc_permission_fit c ≠ PDenied) as ->
    by (by destruct (pc_permission_fit c)).
  assert (is_empty (rc_environment_id k) = true ↔ rc_environment_id k = "") as ->
    by (by destruct (rc_environment_id k)).
  intuition auto.
Qed.

Lemma elem_of_ranked_chain id k candidates x :
  x ∈ ranked_chain id k candidates ↔ ∃ c, c ∈ candidates ∧ eligible id k c ∧ x = rank_candidate id k c.
Proof.
  unfold ranked_chain. rewrite elem_of_sort_by, list_elem_of_fmap. split.
  - intros (c & -> & [He Hc]%list_elem_of_filter). exists c. by rewrite <- exclusion_none_iff.
  - intros (c & Hc & He & ->). exists c. split; [done|]. apply list_elem_of_filter. by rewrite exclusion_none_iff.
Qed.

Lemma ranked_chain_head id k candidates x rest :
  ranked_chain id k candidates = x :: rest → ∀ y, y ∈ rest → chain_le x y = true.
Proof.
  intros E y Hy. pose proof (sort_by_sorted chain_le chain_le_total
    (rank_candidate id k <$> filter (λ c, exclusion id k c = None) candidates)) as Hs.
  fold (ranked_chain id k candidates) in Hs. rewrite E in Hs.
  apply Sorted_StronglySorted in Hs; [|apply chain_le_trans].
  inversion Hs as [|? ? _ Hall]; subst. rewrite Forall_forall in Hall. by apply Hall.
Qed.

Lemma chain_le_refl a : chain_le a a = true.
Proof. destruct (chain_le_total a a); done. Qed.

Lemma minted_handle_valid id k now d x later live :
  handle_validate (mint_handle id k now d x) later live = Ok tt
  ↔ (later ≤ N.min (now + DEFAULT_HANDLE_TTL_MS) u64_max)%N ∧ live = rk_provider_epoch x.
Proof.
  unfold handle_validate, mint_handle, expiry_from, u64_saturating_add. simpl.
  assert (H0 : (N.min (now + DEFAULT_HANDLE_TTL_MS) u64_max =? 0)%N = false)
    by (apply N.eqb_neq; unfold DEFAULT_HANDLE_TTL_MS, u64_max; lia).
  rewrite H0. simpl. destruct (N.ltb_spec (N.min (now + DEFAULT_HANDLE_TTL_MS) u64_max) later); simpl.
  - split; [done | intros [? _]; lia].
  - destruct (N.eqb_spec (rk_provider_epoch x) live); simpl; split; [done.. | intros [_ ->]; done].
Qed.

(** A handle is only minted for a capability that is registered, inside its
    deprecation window and whose requirement graph is satisfied; it names a
    listed provider that implements the capability, is not denied, runs in the
    environment and respects both ceilings, and no listed provider that does
    so ranks before it. It is accepted later exactly within its lifetime and
    at the epoch the provider had: a restart invalidates it. *)
Theorem resolved_handle_is_servable fuel self id k candidates now r h :
  registry_resolve fuel self id k candidates now = Some r → re_handle r = Some h →
  ∃ d c, descriptors self !! id = Some d ∧ serves_at d now = true ∧ met self candidates d
    ∧ c ∈ candidates ∧ eligible id k c
    ∧ (∀ c', c' ∈ candidates → eligible id k c' → chain_le (rank_candidate id k c) (rank_candidate id k c') = true)
    ∧ ch_capability_id h = id ∧ ch_provider_id h = pc_id c
    ∧ ∀ later live, handle_validate h later live = Ok tt
        ↔ (later ≤ N.min (now + DEFAULT_HANDLE_TTL_MS) u64_max)%N ∧ live = pc_epoch c.
Proof.
  unfold registry_resolve. destruct (descriptors self !! id) as [d|] eqn:Ed; [|by intros [= <-]].
  destruct (serves_at d now) eqn:Es; simpl; [|by intros [= <-]].
  destruct (first_unmet fuel self candidates d) as [[u|]|] eqn:Eu; simpl; [by intros [= <-]| |done].
  destruct (ranked_chain id k candidates) as [|x rest] eqn:Er; [by intros [= <-]|].
  intros [= <-]. simpl. intros [= <-].
  assert (Hx : x ∈ ranked_chain id k candidates) by (rewrite Er; constructor).
  apply elem_of_ranked_chain in Hx as (c & Hc & He & ->).
  exists d, c. refine (conj eq_refl (conj Es (conj _ (conj Hc (conj He (conj _ (conj eq_refl (conj eq_refl _)))))))).
  { by eapply first_unmet_sound. }
  2: { intros later live. apply minted_handle_valid. }
  intros c' Hc' He'. assert (Hy : rank_candidate id k c' ∈ ranked_chain id k candidates)
    by (apply elem_of_ranked_chain; eauto).
  rewrite Er in Hy. apply elem_of_cons in Hy as [->|Hy]; [apply chain_le_refl|].
  by eapply ranked_chain_head.
Qed.

Lemma resolved_handle_is_servable_witness :
  ∃ r h, registry_resolve 2 demo_registry "files.edit" any_env [demo_provider "beta"; demo_provider "alpha"] 5 = Some r
    ∧ re_handle r = Some h ∧ ch_capability_id h = "files.edit".
Proof.
  destruct (registry_resolve 2 demo_registry "files.edit" any_env [demo_provider "beta"; demo_provider "alpha"] 5)
    as [r|] eqn:Er; [|by vm_compute in Er].
  destruct (re_handle r) as [h|] eqn:Eh.
  - exists r, h. split_and!; [done | done |].
    by destruct (resolved_handle_is_servable _ _ _ _ _ _ r h Er Eh) as (? & ? & _ & _ & _ & _ & _ & _ & ? & _).
  - exfalso. revert Eh. injection Er as <-. by vm_compute.
Defined.

(** The ranking prefers what was never declared. Between two healthy
    providers the one whose permission was never evaluated, whose cost and
    latency are unspecified, is handed out before the granted, free, local
    one; and between two granted providers the expensive one wins. *)
Theorem ranking_prefers_the_undeclared :
  let p id fit cost lat :=
    {| pc_id := id; pc_epoch := 1; pc_health := HOk; pc_environments := ["local"];
       pc_capabilities := ["files.read"]; pc_permission_fit := fit; pc_cost_class := cost;
       pc_latency_class := lat; pc_degraded_capabilities := [] |} in
  let reg := (register (project_providers registry_new [demo_provider "alpha"]) demo_reader).2 in
  let head cs := r ← registry_resolve 1 reg "files.read" any_env cs 0; h ← re_handle r; Some (ch_provider_id h) in
  head [p "granted" PGranted CostFree LatLocal; p "unknown" PUnknown CostUnspecified LatUnspecified]
    = Some "unknown"
  ∧ head [p "cheap" PGranted CostFree LatLocal; p "dear" PGranted CostHigh LatLocal] = Some "dear"
  ∧ head [p "near" PGranted CostFree LatLocal; p "slow" PGranted CostFree LatSlow] = Some "slow".
Proof. split_and!; by vm_compute. Qed.

(** ** The registry's own bookkeeping *)

Inductive registry_op :=
  | RegRegister (d : CapabilityDescriptor)
  | RegProject (candidates : list ProviderCandidate).

Definition registry_step (self : CapabilityRegistry) (op : registry_op) : CapabilityRegistry :=
  match op with
  | RegRegister d => (register self d).2
  | RegProject cs => project_providers self cs
  end.

(** Assignment lists are the derived coverage, under the descriptor's own id. *)
Definition registry_ok (self : CapabilityRegistry) : Prop :=
  ∀ id d, descriptors self !! id = Some d →
    cd_id d = id ∧ NoDup (pa_provider_id <$> cd_providers d)
    ∧ list_to_set (pa_provider_id <$> cd_providers d) = providers_of self id.

Lemma assign_ids provider epoch ps :
  pa_provider_id <$> assign provider epoch ps =
  if decide (provider ∈ pa_provider_id <$> ps) then pa_provider_id <$> ps
  else (pa_provider_id <$> ps) ++ [provider].
Proof.
  induction ps as [|p ps IH]; [done|]. cbn [assign fmap list_fmap].
  destruct (String.eqb_spec (pa_provider_id p) provider) as [->|Hne].
  - rewrite decide_True by constructor. done.
  - cbn [fmap list_fmap]. rewrite IH. repeat case_decide; set_solver.
Qed.

Lemma project_capability_ok provider epoch self cap :
  registry_ok self → registry_ok (project_capability provider epoch self cap).
Proof.
  intros Hok id d Hd. unfold project_capability, providers_of in *. simpl in *.
  destruct (decide (id = cap)) as [->|Hne].
  - rewrite lookup_alter_eq in Hd. apply fmap_Some in Hd as (d0 & Hd0 & ->).
    destruct (Hok cap d0 Hd0) as (Hid & Hnd & Hset). rewrite lookup_insert_eq. simpl.
    split; [done|]. rewrite assign_ids. unfold providers_of in Hset. rewrite <- Hset.
    case_decide as Hin; [split; [done | set_solver]|]. split; [|set_solver].
    apply NoDup_app. split_and!; [done | set_solver | apply NoDup_singleton].
  - rewrite lookup_alter_ne in Hd by done. rewrite lookup_insert_ne by done. by apply Hok.
Qed.

Lemma project_one_ok self c : registry_ok self → registry_ok (project_one self c).
Proof.
  intros Hok. unfold project_one. set (e := match _ with Some e => _ | None => _ end).
  assert (H0 : registry_ok {| descriptors := descriptors self; coverage := coverage self;
                              epochs := <[pc_id c := e]> (epochs self) |}) by exact Hok.
  revert H0. generalize {| descriptors := descriptors self; coverage := coverage self;
                           epochs := <[pc_id c := e]> (epochs self) |}.
  induction (pc_capabilities c) as [|cap caps IH]; intros s Hs; simpl; [done|].
  by apply IH, project_capability_ok.
Qed.

Lemma project_providers_ok self cs : registry_ok self → registry_ok (project_providers self cs).
Proof.
  unfold project_providers. revert self. induction cs as [|c cs IH]; intros self Hok; simpl; [done|].
  by apply IH, project_one_ok.
Qed.

Lemma derived_ids self d :
  pa_provider_id <$> cd_providers (with_derived_providers self d) = set_iter (providers_of self (cd_id d)).
Proof. simpl. rewrite <- list_fmap_compose. apply list_fmap_id. Qed.

Lemma register_ok self d : registry_ok self → registry_ok (register self d).2.
Proof.
  intros Hok. unfold register. destruct (descriptors self !! cd_id d) as [x|] eqn:E.
  { by destruct (negb _). }
  intros id x Hx. simpl in Hx. apply lookup_insert_Some in Hx as [[<- <-]|[_ Hx]]; [|by apply Hok].
  split; [done|]. rewrite derived_ids. split; [apply NoDup_set_iter|].
  apply set_eq. intros p. rewrite elem_of_list_to_set, elem_of_set_iter. done.
Qed.

Lemma registry_ok_run ops : registry_ok (foldl registry_step registry_new ops).
Proof.
  enough (H : ∀ self, registry_ok self → registry_ok (foldl registry_step self ops)).
  { apply H. intros id d Hd. cbn [descriptors registry_new] in Hd. by rewrite lookup_empty in Hd. }
  induction ops as [|op ops IH]; intros self Hok; simpl; [done|]. apply IH.
  destruct op; [by apply register_ok | by apply project_providers_ok].
Qed.

Lemma elem_of_census_if b f x : x ∈ census_if b f → b = true ∧ x = f.
Proof. unfold census_if. destruct b; [by intros ->%list_elem_of_singleton | by intros ?%elem_of_nil]. Qed.

(** Provider assignments are derived, never edited: whatever descriptors
    are registered - with whatever provider lists - and whatever projections
    arrive, in any order, each stored descriptor sits under its own id, names
    each provider once, and names exactly the providers that were projected
    as implementing it; so the census never reports a hand-authored list. *)
Theorem providers_are_derived ops :
  let self := foldl registry_step registry_new ops in
  registry_ok self ∧ ∀ id, HandAuthoredProviders id ∉ findings (census self).
Proof.
  intros self. pose proof (registry_ok_run ops) as Hok. fold self in Hok. split; [done|].
  intros id Hin. unfold census in Hin. simpl in Hin.
  apply list_elem_of_bind in Hin as (d & Hin & Hd). apply elem_of_values in Hd as [i Hi].
  destruct (Hok i d Hi) as (Hid & _ & Hset). subst i.
  apply elem_of_app in Hin as [Hin|Hin].
  - unfold census_descriptor in Hin. rewrite (bool_decide_eq_true_2 _ Hset), andb_false_r in Hin.
    rewrite !elem_of_app in Hin.
    destruct Hin as [Hin|[Hin|[Hin|[Hin|[Hin|[Hin|[Hin|Hin]]]]]]];
      try (apply elem_of_census_if in Hin as [? ?]; done).
    + destruct (is_empty _); [by apply list_elem_of_singleton in Hin|].
      by apply elem_of_census_if in Hin as [? ?].
    + apply list_elem_of_bind in Hin as (a & Hin & _). unfold census_auth in Hin.
      apply elem_of_app in Hin as [Hin|Hin]; by apply elem_of_census_if in Hin as [? ?].
  - apply list_elem_of_bind in Hin as (r & Hin & _). by apply elem_of_census_if in Hin as [? ?].
Qed.

(** A stale projection never un-bumps a restart: the epoch kept for a
    provider is the highest it was ever projected at, so registering and
    projecting in any order only raise it. *)
Theorem epochs_only_rise self op provider :
  (provider_epoch self provider ≤ provider_epoch (registry_step self op) provider)%N.
Proof.
  unfold provider_epoch. destruct op as [d|cs]; simpl.
  - unfold register. destruct (descriptors self !! cd_id d); [by destruct (negb _)|done].
  - unfold project_providers. revert self. induction cs as [|c cs IH]; intros self; simpl; [done|].
    etransitivity; [|apply IH]. clear IH. unfold project_one.
    assert (Hcaps : ∀ e s caps, epochs (foldl (project_capability (pc_id c) e) s caps) = epochs s).
    { intros e s caps. revert s. induction caps as [|cap caps IH]; intros s; simpl; [done|]. by rewrite IH. }
    rewrite Hcaps. simpl. destruct (decide (provider = pc_id c)) as [->|Hne].
    + rewrite lookup_insert_eq. destruct (epochs self !! pc_id c); simpl; lia.
    + by rewrite lookup_insert_ne.
Qed.

(** Registering the same descriptor again is not idempotent: projected
    providers are appended to the stored list in arrival order, the derived
    list is in id order, and the comparison calls the difference a duplicate
    id. *)
Theorem reregistration_is_called_a_duplicate :
  let reg := project_providers (register registry_new demo_reader).2
               [demo_provider "zeta"; demo_provider "alpha"] in
  (register reg demo_reader).1 = Err (DuplicateId "files.read").
Proof. by vm_compute. Qed.

(** ** Grants *)

Inductive broker_op :=
  | BrAllow (run : string) (caps : list string)
  | BrAuthorize (now : N) (q : CapabilityRequest) (ttl_ms : N)
  | BrRevoke (grant_id : string).

Definition broker_step (b : LocalCapabilityBroker) (op : broker_op) : LocalCapabilityBroker :=
  match op with
  | BrAllow run caps => allow_for_run b run caps
  | BrAuthorize now q ttl => (authorize now b q ttl).2
  | BrRevoke id => (broker_revoke b id).2
  end.

Definition grant_name (n : N) : string := "grant:" +:+ pretty n.

(** Grants carry counter names that have been handed out. *)
Definition broker_ok (b : LocalCapabilityBroker) : Prop :=
  ∀ id g, br_grants b !! id = Some g → ∃ n, (1 ≤ n ≤ br_next_id b)%N ∧ id = grant_name n.

Lemma grant_name_inj n m : grant_name n = grant_name m → n = m.
Proof. intros H. apply (inj (String.append "grant:")) in H. by apply (inj pretty) in H. Qed.

Lemma broker_step_ok b op :
  broker_ok b → (br_next_id b < u64_max)%N →
  broker_ok (broker_step b op) ∧ (br_next_id (broker_step b op) ≤ br_next_id b + 1)%N.
Proof.
  intros Hok Hn. destruct op as [run caps|now q ttl|id]; simpl.
  - split; [exact Hok | simpl; lia].
  - unfold authorize. destruct (is_empty _); [simpl; split; [done|lia]|].
    destruct (is_empty _); [simpl; split; [done|lia]|].
    destruct (negb _); [simpl; split; [done|lia]|]. simpl. rewrite u64_add_small by lia. split; [|lia].
    intros i g Hg. simpl in *. apply lookup_insert_Some in Hg as [[<- _]|[_ Hg]].
    + exists (br_next_id b + 1)%N. split; [lia|done].
    + destruct (Hok i g Hg) as (n & Hb & ->). exists n. split; [lia|done].
  - unfold broker_revoke. destruct (br_grants b !! id) as [g|] eqn:E; simpl; split; try lia; try done.
    intros i g' Hg. simpl in *. apply lookup_insert_Some in Hg as [[<- _]|[_ Hg]]; eauto.
Qed.

(** A grant that is there and revoked stays so. *)
Definition revoked_in (b : LocalCapabilityBroker) (id : string) : Prop :=
  ∃ g, br_grants b !! id = Some g ∧ cg_revoked g = true.

Lemma revoked_in_step b op id :
  broker_ok b → (br_next_id b < u64_max)%N → revoked_in b id → revoked_in (broker_step b op) id.
Proof.
  intros Hok Hn (g & Hg & Hr). destruct op as [run caps|now q ttl|id']; simpl.
  - by exists g.
  - unfold authorize. destruct (is_empty _); [by exists g|]. destruct (is_empty _); [by exists g|].
    destruct (negb _); [by exists g|]. exists g. simpl. rewrite u64_add_small by lia. split; [|done].
    rewrite lookup_insert_ne; [done|]. intros Heq. destruct (Hok id g Hg) as (n & Hb & ->).
    apply grant_name_inj in Heq. lia.
  - unfold broker_revoke. destruct (br_grants b !! id') as [g'|] eqn:E; [|by exists g].
    unfold revoked_in. simpl. destruct (decide (id = id')) as [->|Hne].
    + rewrite lookup_insert_eq. by eexists.
    + rewrite lookup_insert_ne by done. by exists g.
Qed.

Lemma broker_run_keeps b ops id :
  broker_ok b → (br_next_id b + N.of_nat (length ops) < u64_max)%N → revoked_in b id →
  revoked_in (foldl broker_step b ops) id.
Proof.
  revert b. induction ops as [|op ops IH]; intros b Hok Hn Hr; simpl in *; [done|].
  destruct (broker_step_ok b op Hok) as [Hok' Hn']; [lia|].
  apply IH; [done | lia | apply revoked_in_step; [done | lia | done]].
Qed.

Lemma broker_run_ok ops :
  (N.of_nat (length ops) < u64_max)%N →
  broker_ok (foldl broker_step broker_new ops)
  ∧ (br_next_id (foldl broker_step broker_new ops) ≤ N.of_nat (length ops))%N.
Proof.
  intros Hlen.
  enough (H : ∀ b, broker_ok b → (br_next_id b + N.of_nat (length ops) < u64_max)%N →
    broker_ok (foldl broker_step b ops)
    ∧ (br_next_id (foldl broker_step b ops) ≤ br_next_id b + N.of_nat (length ops))%N).
  { apply (H broker_new); [|simpl; lia]. intros i g Hg. cbn [br_grants broker_new] in Hg. by rewrite lookup_empty in Hg. }
  clear Hlen. induction ops as [|op ops IH]; intros b Hok Hb; simpl in *; [split; [done|lia]|].
  destruct (broker_step_ok b op Hok) as [Hok' Hn']; [lia|].
  destruct (IH _ Hok') as [? ?]; [lia|]. split; [done|lia].
Qed.

(** Revocation is final: once a grant has been revoked, in whatever state
    the broker was reached, no later authorization, allowance or revocation
    makes it answer an invocation again (below 2^64 operations). *)
Theorem revoked_grant_stays_dead before grant_id after now q :
  (N.of_nat (length before + length after) < u64_max)%N →
  (broker_revoke (foldl broker_step broker_new before) grant_id).1 = true →
  invoke now (foldl broker_step (broker_revoke (foldl broker_step broker_new before) grant_id).2 after)
    grant_id q = Err BRevoked.
Proof.
  intros Hlen Hrev. destruct (broker_run_ok before) as [Hok Hn]; [lia|].
  set (b := foldl broker_step broker_new before) in *.
  assert (Hb' : broker_ok (broker_step b (BrRevoke grant_id))) by (apply broker_step_ok; [done|lia]).
  assert (Hid : br_next_id (broker_revoke b grant_id).2 = br_next_id b)
    by (unfold broker_revoke; by destruct (br_grants b !! grant_id)).
  destruct (broker_run_keeps (broker_revoke b grant_id).2 after grant_id) as (g & Hg & Hr).
  - exact Hb'.
  - rewrite Hid. lia.
  - unfold broker_revoke in *. destruct (br_grants b !! grant_id) as [g|]; [|done]. simpl.
    unfold revoked_in. simpl. rewrite lookup_insert_eq. by eexists.
  - unfold invoke. by rewrite Hg, Hr.
Qed.

Lemma revoked_grant_stays_dead_witness :
  let q := {| cq_run_id := "run-1"; cq_capability := "fs.read:/tmp"; cq_operation := "read" |} in
  let before := [BrAllow "run-1" ["fs.read:**"]; BrAuthorize 0 q 0] in
  invoke 5 (foldl broker_step (broker_revoke (foldl broker_step broker_new before) "grant:1").2
    [BrAuthorize 1 q 0]) "grant:1" q = Err BRevoked.
Proof.
  intros q before. apply (revoked_grant_stays_dead before "grant:1" [BrAuthorize 1 q 0] 5 q); by vm_compute.
Defined.
