(* ===== verification/Fleet.v ===== *)
(** * The fleet governor ([everyaios-core/src/governor.rs])

    Sub-agent tasks take one of two kinds of slots or wait in one queue. The
    governor is a record, its two mutating methods are functions, and a run is
    a list of [admit]/[complete] steps that collects what started. *)
From S2P Require Import Order Prelude.

(** ** Data *)

(* SRC core/src/governor.rs @enum:FleetTaskKind FleetTaskKind *)
Inductive FleetTaskKind := FReadOnly | FMutation.

(* SRC core/src/governor.rs @enum:FleetTaskStatus FleetTaskStatus *)
Inductive FleetTaskStatus := FAdmitted | FQueued | FRunning | FCompleted | FFailed | FCancelled.

#[export] Instance fleet_kind_eq_dec : EqDecision FleetTaskKind.
Proof. solve_decision. Defined.
#[export] Instance fleet_status_eq_dec : EqDecision FleetTaskStatus.
Proof. solve_decision. Defined.

(* SRC core/src/governor.rs @struct:SubagentTask SubagentTask *)
Record SubagentTask := {
  st_task_id : string;
  st_parent_run_id : string;
  st_role : string;
  st_runtime : string;
  st_kind : FleetTaskKind;
  st_status : FleetTaskStatus;
  st_priority : N
}.

Definition with_fleet_status (s : FleetTaskStatus) (t : SubagentTask) : SubagentTask :=
  {| st_task_id := st_task_id t; st_parent_run_id := st_parent_run_id t; st_role := st_role t;
     st_runtime := st_runtime t; st_kind := st_kind t; st_status := s; st_priority := st_priority t |}.

(* SRC core/src/governor.rs @struct:GovernorConfig GovernorConfig *)
Record GovernorConfig := {
  max_concurrent_mutation : N;
  max_concurrent_readonly : N;
  max_queue_capacity : N
}.

(* SRC core/src/governor.rs 46 54 GovernorConfig::default *)
Definition governor_config_default : GovernorConfig :=
  {| max_concurrent_mutation := 4; max_concurrent_readonly := 8; max_queue_capacity := 50 |}.

(* SRC core/src/governor.rs @struct:ConcurrencyGovernor ConcurrencyGovernor *)
Record ConcurrencyGovernor := {
  gov_config : GovernorConfig;
  active_mutation : N;
  active_readonly : N;
  gov_queue : list SubagentTask
}.

(* SRC core/src/governor.rs @enum:GovernorError GovernorError *)
Inductive GovernorError :=
  | QueueFull (capacity : N)
  | DepthExceeded (depth max_depth : N)
  | ConcurrentLimitExceeded (active max_concurrent : N)
  | TotalLimitExceeded (total max_total : N).

(* SRC core/src/governor.rs @const:P64_MAX_DEPTH P64_MAX_DEPTH *)
Definition P64_MAX_DEPTH : N := 2.
(* SRC core/src/governor.rs @const:P64_MAX_CONCURRENT P64_MAX_CONCURRENT *)
Definition P64_MAX_CONCURRENT : N := 3.
(* SRC core/src/governor.rs @const:P64_MAX_TOTAL P64_MAX_TOTAL *)
Definition P64_MAX_TOTAL : N := 6.
(* SRC core/src/governor.rs @const:DELEGATE_BLOCKED_TOOLS DELEGATE_BLOCKED_TOOLS *)
Definition DELEGATE_BLOCKED_TOOLS : list string :=
  ["delegate"; "clarify"; "memory"; "send_message"; "cronjob"].

(** ** Admission of a sub-agent *)

(** [Vec::dedup]: drops an element equal to the one kept before it. *)
Fixpoint dedup_from (x : string) (l : list string) : list string :=
  match l with
  | [] => []
  | y :: l' => if String.eqb x y then dedup_from x l' else y :: dedup_from y l'
  end.
Definition vec_dedup (l : list string) : list string :=
  match l with [] => [] | x :: l' => x :: dedup_from x l' end.

(* SRC core/src/governor.rs @fn:effective_subagent_tools effective_subagent_tools *)
Definition effective_subagent_tools (granted denied : list string) : list string :=
  let out := List.filter (λ t, negb (existsb (λ d, String.eqb d t) denied)) granted in
  let out := List.filter (λ t, negb (existsb (String.eqb t) DELEGATE_BLOCKED_TOOLS)) out in
  vec_dedup (sort_by str_le out).

(* SRC core/src/governor.rs @fn:check_subagent_admission check_subagent_admission *)
Definition check_subagent_admission (depth active total : N) (granted denied : list string)
    : result (list string) GovernorError :=
  if (P64_MAX_DEPTH <? depth)%N then Err (DepthExceeded depth P64_MAX_DEPTH)
  else if (P64_MAX_CONCURRENT <=? active)%N then
    Err (ConcurrentLimitExceeded active P64_MAX_CONCURRENT)
  else if (P64_MAX_TOTAL <=? total)%N then Err (TotalLimitExceeded total P64_MAX_TOTAL)
  else Ok (effective_subagent_tools granted denied).

(** ** The governor *)

(* SRC core/src/governor.rs 156 163 ConcurrencyGovernor::new *)
Definition governor_new (c : GovernorConfig) : ConcurrencyGovernor :=
  {| gov_config := c; active_mutation := 0; active_readonly := 0; gov_queue := [] |}.

(** [Ord::clamp]. *)
Definition clamp (lo hi x : N) : N := if (x <? lo)%N then lo else if (hi <? x)%N then hi else x.

(* SRC core/src/governor.rs @fn:calculate_dynamic_limits ConcurrencyGovernor::calculate_dynamic_limits *)
Definition calculate_dynamic_limits (cpu_count memory_gib : N) : GovernorConfig :=
  {| max_concurrent_mutation := clamp 2 6 (cpu_count / 2);
     max_concurrent_readonly := N.min (clamp 4 12 cpu_count) (memory_gib / 2);
     max_queue_capacity := 50 |}.

Definition kind_active (k : FleetTaskKind) (g : ConcurrencyGovernor) : N :=
  match k with FMutation => active_mutation g | FReadOnly => active_readonly g end.
Definition kind_max (k : FleetTaskKind) (c : GovernorConfig) : N :=
  match k with FMutation => max_concurrent_mutation c | FReadOnly => max_concurrent_readonly c end.
Definition set_active (k : FleetTaskKind) (n : N) (g : ConcurrencyGovernor) : ConcurrencyGovernor :=
  match k with
  | FMutation => {| gov_config := gov_config g; active_mutation := n;
                    active_readonly := active_readonly g; gov_queue := gov_queue g |}
  | FReadOnly => {| gov_config := gov_config g; active_mutation := active_mutation g;
                    active_readonly := n; gov_queue := gov_queue g |}
  end.
Definition set_gov_queue (q : list SubagentTask) (g : ConcurrencyGovernor) : ConcurrencyGovernor :=
  {| gov_config := gov_config g; active_mutation := active_mutation g;
     active_readonly := active_readonly g; gov_queue := q |}.

(* SRC core/src/governor.rs @fn:admit_task ConcurrencyGovernor::admit_task *)
Definition admit_task (task : SubagentTask) (g : ConcurrencyGovernor)
    : result FleetTaskStatus GovernorError * ConcurrencyGovernor :=
  let k := st_kind task in
  if (kind_active k g <? kind_max k (gov_config g))%N then
    (Ok FRunning, set_active k (u64_add (kind_active k g) 1) g)
  else if (max_queue_capacity (gov_config g) <=? N.of_nat (length (gov_queue g)))%N then
    (Err (QueueFull (max_queue_capacity (gov_config g))), g)
  else (Ok FQueued, set_gov_queue (gov_queue g ++ [with_fleet_status FQueued task]) g).

(** [Iterator::position]. *)
Fixpoint position {A} (f : A → bool) (l : list A) : option nat :=
  match l with
  | [] => None
  | x :: l' => if f x then Some 0 else S <$> position f l'
  end.

Definition eligible (g : ConcurrencyGovernor) (t : SubagentTask) : bool :=
  (kind_active (st_kind t) g <? kind_max (st_kind t) (gov_config g))%N.

(* SRC core/src/governor.rs @fn:complete_task ConcurrencyGovernor::complete_task *)
Definition complete_task (k : FleetTaskKind) (g : ConcurrencyGovernor)
    : option SubagentTask * ConcurrencyGovernor :=
  let g := set_active k (kind_active k g - 1)%N g in
  match position (eligible g) (gov_queue g) with
  | Some pos =>
      match gov_queue g !! pos with
      | Some next =>
          let g := set_gov_queue (delete pos (gov_queue g)) g in
          let kn := st_kind next in
          (Some (with_fleet_status FRunning next), set_active kn (u64_add (kind_active kn g) 1) g)
      | None => (None, g)
      end
  | None => (None, g)
  end.

(* SRC core/src/governor.rs @fn:active_counts ConcurrencyGovernor::active_counts *)
Definition active_counts (g : ConcurrencyGovernor) : N * N * N :=
  (active_mutation g, active_readonly g, N.of_nat (length (gov_queue g))).

(* SRC core/src/governor.rs @fn:admit_subagent_task ConcurrencyGovernor::admit_subagent_task *)
Definition admit_subagent_task (task : SubagentTask) (depth total_spawned : N)
    (granted denied : list string) (g : ConcurrencyGovernor)
    : result (FleetTaskStatus * list string) GovernorError * ConcurrencyGovernor :=
  let active_subagents := u64_add (active_mutation g) (active_readonly g) in
  match check_subagent_admission depth active_subagents total_spawned granted denied with
  | Err e => (Err e, g)
  | Ok effective =>
      let '(r, g') := admit_task task g in
      (match r with Ok status => Ok (status, effective) | Err e => Err e end, g')
  end.

(** ** Runs *)

Inductive fleet_op :=
  | FAdmit (t : SubagentTask)
  | FComplete (k : FleetTaskKind).

(** The state after one step, and the task that starts running in it. *)
Definition fleet_step (o : fleet_op) (g : ConcurrencyGovernor)
    : option SubagentTask * ConcurrencyGovernor :=
  match o with
  | FAdmit t =>
      let '(r, g') := admit_task t g in
      (match r with Ok FRunning => Some (with_fleet_status FRunning t) | _ => None end, g')
  | FComplete k => complete_task k g
  end.

Fixpoint fleet_run (ops : list fleet_op) (g : ConcurrencyGovernor)
    : list SubagentTask * ConcurrencyGovernor :=
  match ops with
  | [] => ([], g)
  | o :: ops' =>
      let '(s, g1) := fleet_step o g in
      let '(l, g2) := fleet_run ops' g1 in
      (option_list s ++ l, g2)
  end.

(** The tasks a run accepts (started at once or queued), in order. *)
Fixpoint fleet_accepted (ops : list fleet_op) (g : ConcurrencyGovernor) : list SubagentTask :=
  match ops with
  | [] => []
  | o :: ops' =>
      (match o with
       | FAdmit t => if is_ok (admit_task t g).1 then [t] else []
       | FComplete _ => []
       end) ++ fleet_accepted ops' (fleet_step o g).2
  end.

(** ** The invariant of a governor

    Slots and queue within their limits, and no task waits while its kind has
    a free slot. *)

Record fleet_ok (g : ConcurrencyGovernor) : Prop := {
  fok_slots k : (kind_active k g ≤ kind_max k (gov_config g))%N;
  fok_width k : (kind_max k (gov_config g) ≤ u64_max)%N;
  fok_queue : (N.of_nat (length (gov_queue g)) ≤ max_queue_capacity (gov_config g))%N;
  fok_busy t : t ∈ gov_queue g → kind_active (st_kind t) g = kind_max (st_kind t) (gov_config g);
  fok_status t : t ∈ gov_queue g → st_status t = FQueued
}.

Definition running : SubagentTask → SubagentTask := with_fleet_status FRunning.
Definition of_kind (k : FleetTaskKind) (l : list SubagentTask) : list SubagentTask :=
  filter (λ t, st_kind t = k) (running <$> l).

Lemma of_kind_app k l1 l2 : of_kind k (l1 ++ l2) = of_kind k l1 ++ of_kind k l2.
Proof. unfold of_kind. by rewrite fmap_app, filter_app. Qed.

Lemma of_kind_one k t : of_kind k [t] = if decide (st_kind t = k) then [running t] else [].
Proof. done. Qed.

Lemma of_kind_none k l : (∀ t, t ∈ l → st_kind t ≠ k) → of_kind k l = [].
Proof.
  induction l as [|t l IH]; intros H; [done|].
  change (t :: l) with ([t] ++ l). rewrite of_kind_app, of_kind_one, IH by set_solver.
  case_decide; [|done]. by destruct (H t); [left|].
Qed.

Lemma kind_active_set k k' n g :
  kind_active k (set_active k' n g) = if decide (k = k') then n else kind_active k g.
Proof. by destruct k, k'. Qed.
Lemma gov_config_set_active k n g : gov_config (set_active k n g) = gov_config g.
Proof. by destruct k. Qed.
Lemma gov_queue_set_active k n g : gov_queue (set_active k n g) = gov_queue g.
Proof. by destruct k. Qed.
Lemma kind_active_set_queue k q g : kind_active k (set_gov_queue q g) = kind_active k g.
Proof. by destruct k. Qed.
Lemma set_active_same k n g : kind_active k g = n → set_active k n g = g.
Proof. intros <-. by destruct k, g. Qed.
Lemma set_active_twice k m n g : set_active k m (set_active k n g) = set_active k m g.
Proof. by destruct k, g. Qed.
Lemma set_queue_active k n q g :
  set_gov_queue q (set_active k n g) = set_active k n (set_gov_queue q g).
Proof. by destruct k, g. Qed.
Create Rewrite HintDb fleet.
#[export] Hint Rewrite kind_active_set gov_config_set_active gov_queue_set_active
  kind_active_set_queue set_active_twice set_queue_active of_kind_app of_kind_one : fleet.

Lemma position_None {A} (f : A → bool) l : position f l = None ↔ ∀ x, x ∈ l → f x = false.
Proof.
  induction l as [|x l IH]; simpl; [split; [intros _ y Hy; inversion Hy | done]|].
  destruct (f x) eqn:E; [split; [done | intros H; specialize (H x (list_elem_of_here _ _)); congruence]|].
  rewrite fmap_None, IH. split.
  - intros H y [->|Hy]%elem_of_cons; auto.
  - intros H y Hy. apply H. by right.
Qed.

Lemma position_Some {A} (f : A → bool) l i :
  position f l = Some i →
  ∃ x l1 l2, l = l1 ++ x :: l2 ∧ length l1 = i ∧ f x = true ∧ ∀ y, y ∈ l1 → f y = false.
Proof.
  revert i. induction l as [|x l IH]; simpl; [done|]. intros i. destruct (f x) eqn:E.
  - intros [= <-]. exists x, [], l. split_and!; try done. intros y Hy. inversion Hy.
  - intros (j & Hj & ->)%fmap_Some. destruct (IH j Hj) as (y & l1 & l2 & -> & <- & Hy & Hl).
    exists y, (x :: l1), l2. split_and!; try done. intros z [->|Hz]%elem_of_cons; auto.
Qed.

(** What one completion does, by the state of the queue. *)
Inductive completes (k : FleetTaskKind) (g : ConcurrencyGovernor) :
    option SubagentTask → ConcurrencyGovernor → Prop :=
  | completes_idle :
      kind_max k (gov_config g) = 0%N ∨ (∀ t, t ∈ gov_queue g → st_kind t ≠ k) →
      completes k g None (set_active k (kind_active k g - 1) g)
  | completes_next n l1 l2 :
      gov_queue g = l1 ++ n :: l2 → st_kind n = k → (∀ t, t ∈ l1 → st_kind t ≠ k) →
      (0 < kind_max k (gov_config g))%N →
      completes k g (Some (running n)) (set_gov_queue (l1 ++ l2) g).

Lemma eligible_after_free k g t :
  fleet_ok g → t ∈ gov_queue g →
  eligible (set_active k (kind_active k g - 1) g) t = true ↔
  st_kind t = k ∧ (0 < kind_max k (gov_config g))%N.
Proof.
  intros Hok Ht. unfold eligible. autorewrite with fleet. rewrite N.ltb_lt.
  pose proof (fok_busy g Hok t Ht) as Hb. case_decide as Hk.
  - subst k. rewrite Hb. split; [intros ?; split; [done | lia] | intros [_ ?]; lia].
  - split; [lia | by intros [? _]].
Qed.

Lemma complete_task_spec k g :
  fleet_ok g → completes k g (complete_task k g).1 (complete_task k g).2.
Proof.
  intros Hok. unfold complete_task. cbv zeta.
  destruct (position _ _) as [i|] eqn:E.
  - apply position_Some in E as (n & l1 & l2 & Hq & Hi & Hn & Hl1).
    rewrite gov_queue_set_active in Hq.
    apply eligible_after_free in Hn as [Hk Hmax]; [|done|rewrite Hq; set_solver].
    rewrite gov_queue_set_active, Hq, list_lookup_middle by done. simpl.
    rewrite Hk, <- Hi, delete_middle. autorewrite with fleet. rewrite decide_True by done.
    pose proof (fok_busy g Hok n ltac:(rewrite Hq; set_solver)) as Hb. rewrite Hk in Hb.
    pose proof (fok_width g Hok k). rewrite u64_add_small by lia.
    rewrite set_active_same by (rewrite kind_active_set_queue; lia).
    apply completes_next; [done..| |done].
    intros t Ht Htk. assert (Hin : t ∈ gov_queue g) by (rewrite Hq; set_solver).
    apply (eligible_after_free k g t) in Hin as Hel; [|done].
    rewrite (Hl1 t Ht) in Hel. by assert (false = true) by (by apply Hel).
  - rewrite position_None in E. simpl. apply completes_idle.
    destruct (decide (kind_max k (gov_config g) = 0%N)) as [|Hpos]; [by left|]. right.
    intros t Ht Hk. specialize (E t). rewrite gov_queue_set_active in E. specialize (E Ht).
    pose proof (proj2 (eligible_after_free k g t Hok Ht)) as H. rewrite E in H.
    by assert (false = true) by (apply H; split; [done | lia]).
Qed.

(** The three answers of an admission. *)
Lemma admit_task_cases t g :
  fleet_ok g →
  ((kind_active (st_kind t) g < kind_max (st_kind t) (gov_config g))%N ∧
   admit_task t g = (Ok FRunning, set_active (st_kind t) (kind_active (st_kind t) g + 1) g)) ∨
  ((kind_active (st_kind t) g = kind_max (st_kind t) (gov_config g))%N ∧
   ((max_queue_capacity (gov_config g) ≤ N.of_nat (length (gov_queue g)))%N ∧
    admit_task t g = (Err (QueueFull (max_queue_capacity (gov_config g))), g) ∨
    (N.of_nat (length (gov_queue g)) < max_queue_capacity (gov_config g))%N ∧
    admit_task t g = (Ok FQueued, set_gov_queue (gov_queue g ++ [with_fleet_status FQueued t]) g))).
Proof.
  intros Hok. unfold admit_task. cbv zeta.
  pose proof (fok_slots g Hok (st_kind t)). pose proof (fok_width g Hok (st_kind t)).
  destruct (N.ltb_spec (kind_active (st_kind t) g) (kind_max (st_kind t) (gov_config g))).
  - left. rewrite u64_add_small by lia. done.
  - right. split; [lia|].
    destruct (N.leb_spec (max_queue_capacity (gov_config g)) (N.of_nat (length (gov_queue g)))); auto.
Qed.

Lemma admit_task_ok t g : fleet_ok g → fleet_ok (admit_task t g).2.
Proof.
  intros Hok. destruct (admit_task_cases t g Hok) as [[Hlt ->]|[Hfull [[_ ->]|[Hroom ->]]]]; [|done|].
  - destruct Hok as [Hs Hw Hq Hb Hst]. constructor; simpl; intros; autorewrite with fleet in *; auto.
    + case_decide; [subst; lia | auto].
    + case_decide as Hk; [|auto]. specialize (Hb _ H). rewrite Hk in Hb. lia.
  - destruct Hok as [Hs Hw Hq Hb Hst]. constructor; simpl; auto.
    + rewrite length_app. simpl. lia.
    + intros u [Hu| ->%list_elem_of_singleton]%elem_of_app; rewrite kind_active_set_queue; auto.
    + intros u [Hu| ->%list_elem_of_singleton]%elem_of_app; auto.
Qed.

Lemma complete_task_ok k g : fleet_ok g → fleet_ok (complete_task k g).2.
Proof.
  intros Hok. pose proof (complete_task_spec k g Hok) as H.
  destruct Hok as [Hs Hw Hq Hb Hst]. destruct H as [Hidle|n l1 l2 Hg Hk Hl1 Hmax].
  - constructor; intros; autorewrite with fleet in *; auto.
    + pose proof (Hs k0). case_decide; [subst; lia | done].
    + case_decide as Hkk; [|auto]. destruct Hidle as [Hz|Hno]; [|by destruct (Hno t)].
      pose proof (Hs (st_kind t)). rewrite Hkk in *. lia.
  - constructor; simpl; auto.
    + rewrite Hg in Hq. rewrite !length_app in *. simpl in Hq. lia.
    + intros t Ht. rewrite kind_active_set_queue. apply Hb. rewrite Hg. set_solver.
    + intros t Ht. apply Hst. rewrite Hg. set_solver.
Qed.

Lemma fleet_step_ok o g : fleet_ok g → fleet_ok (fleet_step o g).2.
Proof.
  destruct o as [t|k]; simpl; intros Hok; [|by apply complete_task_ok].
  pose proof (admit_task_ok t g Hok) as H. by destruct (admit_task t g).
Qed.

Lemma fleet_step_config o g : fleet_ok g → gov_config (fleet_step o g).2 = gov_config g.
Proof.
  destruct o as [t|k]; simpl; intros Hok.
  - destruct (admit_task_cases t g Hok) as [[_ ->]|[_ [[_ ->]|[_ ->]]]]; simpl;
      by autorewrite with fleet.
  - destruct (complete_task_spec k g Hok); by autorewrite with fleet.
Qed.

Lemma fleet_run_cons o ops g :
  fleet_run (o :: ops) g =
  (option_list (fleet_step o g).1 ++ (fleet_run ops (fleet_step o g).2).1,
   (fleet_run ops (fleet_step o g).2).2).
Proof. simpl. destruct (fleet_step o g) as [s g1]. simpl. by destruct (fleet_run ops g1). Qed.

Lemma governor_new_ok c :
  (max_concurrent_mutation c ≤ u64_max)%N → (max_concurrent_readonly c ≤ u64_max)%N →
  fleet_ok (governor_new c).
Proof.
  intros Hm Hr. constructor; simpl; [intros []; simpl; lia | by intros [] | lia | |];
    intros t Ht; inversion Ht.
Qed.

(** ** First in, first out, and nothing waits forever *)

Lemma fleet_step_fifo o g k :
  fleet_ok g →
  of_kind k (option_list (fleet_step o g).1 ++ gov_queue (fleet_step o g).2) =
  of_kind k (gov_queue g ++ fleet_accepted [o] g).
Proof.
  intros Hok. destruct o as [t|k']; simpl.
  - destruct (admit_task_cases t g Hok) as [[Hlt ->]|[Hfull [[_ ->]|[_ ->]]]]; simpl; rewrite ?app_nil_r;
      autorewrite with fleet; try done.
    change (with_fleet_status FRunning t :: gov_queue g) with ([running t] ++ gov_queue g).
    rewrite of_kind_app, of_kind_one. simpl.
    case_decide as Hk; [|by rewrite app_nil_r]. subst k.
    rewrite (of_kind_none _ (gov_queue g)); [done|]. intros u Hu Hk.
    pose proof (fok_busy g Hok u Hu). rewrite Hk in *. lia.
  - rewrite app_nil_r. destruct (complete_task_spec k' g Hok) as [_|n l1 l2 Hq Hn Hl1 _]; simpl.
    + by rewrite gov_queue_set_active.
    + rewrite Hq. change (running n :: l1 ++ l2) with ([running n] ++ l1 ++ l2).
      change (l1 ++ n :: l2) with (l1 ++ [n] ++ l2). autorewrite with fleet. simpl.
      case_decide as Hk; [|done]. subst k k'. by rewrite (of_kind_none _ l1).
Qed.

Lemma fleet_run_fifo ops g k :
  fleet_ok g →
  of_kind k ((fleet_run ops g).1 ++ gov_queue (fleet_run ops g).2) =
  of_kind k (gov_queue g ++ fleet_accepted ops g).
Proof.
  revert g. induction ops as [|o ops IH]; intros g Hok; [simpl; by rewrite app_nil_r|].
  rewrite fleet_run_cons. cbn [fst snd].
  rewrite <- app_assoc, of_kind_app, IH, of_kind_app, app_assoc by by apply fleet_step_ok.
  rewrite <- of_kind_app, fleet_step_fifo, <- of_kind_app by done. simpl.
  by rewrite app_nil_r, app_assoc.
Qed.

Lemma fleet_run_ok ops g : fleet_ok g → fleet_ok (fleet_run ops g).2.
Proof.
  revert g. induction ops as [|o ops IH]; intros g Hok; [done|].
  rewrite fleet_run_cons. by apply IH, fleet_step_ok.
Qed.

Lemma fleet_run_config ops g : fleet_ok g → gov_config (fleet_run ops g).2 = gov_config g.
Proof.
  revert g. induction ops as [|o ops IH]; intros g Hok; [done|].
  rewrite fleet_run_cons. cbn [snd]. rewrite IH by by apply fleet_step_ok. by apply fleet_step_config.
Qed.

(** A governor driven by any sequence of admissions and completions
    keeps both slot counts and the queue within the configured limits, and it
    is work conserving: a task waits only while every slot of its kind is
    taken. *)
Theorem fleet_is_work_conserving (c : GovernorConfig) (ops : list fleet_op) :
  (max_concurrent_mutation c ≤ u64_max)%N → (max_concurrent_readonly c ≤ u64_max)%N →
  let g := (fleet_run ops (governor_new c)).2 in
  (active_mutation g ≤ max_concurrent_mutation c)%N ∧
  (active_readonly g ≤ max_concurrent_readonly c)%N ∧
  (N.of_nat (length (gov_queue g)) ≤ max_queue_capacity c)%N ∧
  ∀ t, t ∈ gov_queue g → st_status t = FQueued ∧ kind_active (st_kind t) g = kind_max (st_kind t) c.
Proof.
  intros Hm Hr g. pose proof (governor_new_ok c Hm Hr) as H0.
  pose proof (fleet_run_ok ops _ H0) as [Hs _ Hq Hb Hst]. fold g in Hs, Hq, Hb, Hst.
  assert (Hc : gov_config g = c) by by apply (fleet_run_config ops (governor_new c)).
  rewrite Hc in *. split_and!; [apply (Hs FMutation) | apply (Hs FReadOnly) | done | auto].
Qed.

(** Tasks of one kind start in exactly the order in which they were
    accepted: the started tasks followed by the waiting ones are the accepted
    ones, so none is lost, started twice or overtaken by a later one of its
    kind. *)
Theorem fleet_starts_in_order (c : GovernorConfig) (ops : list fleet_op) (k : FleetTaskKind) :
  (max_concurrent_mutation c ≤ u64_max)%N → (max_concurrent_readonly c ≤ u64_max)%N →
  of_kind k ((fleet_run ops (governor_new c)).1 ++ gov_queue (fleet_run ops (governor_new c)).2) =
  of_kind k (fleet_accepted ops (governor_new c)).
Proof.
  intros Hm Hr. by rewrite fleet_run_fifo by by apply governor_new_ok.
Qed.

(** The completions of one kind a run contains. *)
Fixpoint completions (k : FleetTaskKind) (ops : list fleet_op) : nat :=
  match ops with
  | FComplete k' :: ops' => (if decide (k' = k) then 1 else 0) + completions k ops'
  | FAdmit _ :: ops' => completions k ops'
  | [] => 0
  end.

Lemma complete_starts_head k g t rest :
  fleet_ok g → (0 < kind_max k (gov_config g))%N → of_kind k (gov_queue g) = t :: rest →
  (complete_task k g).1 = Some t ∧ of_kind k (gov_queue (complete_task k g).2) = rest.
Proof.
  intros Hok Hmax Hq. destruct (complete_task_spec k g Hok) as [[Hz|Hno]|n l1 l2 Hg Hn Hl1 _].
  - lia.
  - by rewrite of_kind_none in Hq.
  - rewrite Hg in Hq. change (l1 ++ n :: l2) with (l1 ++ [n] ++ l2) in Hq.
    autorewrite with fleet in Hq. simpl. rewrite of_kind_app, (of_kind_none k l1) in * by done.
    rewrite decide_True in Hq by done. by injection Hq as -> ->.
Qed.

Lemma waiting_head_moves o g k t pre post :
  fleet_ok g → (0 < kind_max k (gov_config g))%N →
  of_kind k (gov_queue g) = pre ++ t :: post →
  t ∈ option_list (fleet_step o g).1 ∨
  ∃ pre' post', of_kind k (gov_queue (fleet_step o g).2) = pre' ++ t :: post' ∧
    length pre' + completions k [o] ≤ length pre.
Proof.
  intros Hok Hmax Hq. destruct o as [u|k'].
  - right. simpl. destruct (admit_task_cases u g Hok) as [[_ ->]|[_ [[_ ->]|[_ ->]]]]; simpl;
      rewrite ?gov_queue_set_active; eauto with lia.
    rewrite of_kind_app, Hq, <- app_assoc. simpl. eauto with lia.
  - simpl. destruct (decide (k' = k)) as [->|Hne].
    + destruct pre as [|p pre].
      * left. destruct (complete_starts_head k g t post Hok Hmax Hq) as [-> _]. simpl. set_solver.
      * right. destruct (complete_starts_head k g p (pre ++ t :: post) Hok Hmax Hq) as [_ ->].
        exists pre, post. split; [done | simpl; lia].
    + right. exists pre, post. split; [|lia]. rewrite <- Hq.
      destruct (complete_task_spec k' g Hok) as [_|n l1 l2 Hg Hn _ _]; simpl;
        [by rewrite gov_queue_set_active|].
      rewrite Hg. change (l1 ++ n :: l2) with (l1 ++ [n] ++ l2). autorewrite with fleet.
      by rewrite decide_False by congruence.
Qed.

Lemma fleet_run_dispatches ops g k t pre post :
  fleet_ok g → (0 < kind_max k (gov_config g))%N →
  of_kind k (gov_queue g) = pre ++ t :: post → length pre < completions k ops →
  t ∈ (fleet_run ops g).1.
Proof.
  revert g pre post. induction ops as [|o ops IH]; intros g pre post Hok Hmax Hq Hlen; [simpl in Hlen; lia|].
  rewrite fleet_run_cons. cbn [fst]. apply elem_of_app.
  destruct (waiting_head_moves o g k t pre post Hok Hmax Hq) as [|(pre' & post' & Hq' & Hl)]; [by left|].
  right. apply (IH _ pre' post'); [by apply fleet_step_ok | by rewrite fleet_step_config | done |].
  destruct o as [u|k']; simpl in *; [lia|]. destruct (decide (k' = k)); lia.
Qed.

(** A queued task whose kind has slots at all is started, whatever else
    is admitted or completed meanwhile, once its kind has seen as many
    completions as tasks of that kind wait up to and including it. *)
Theorem queued_task_is_dispatched (c : GovernorConfig) (before after : list fleet_op)
    (k : FleetTaskKind) (t : SubagentTask) (pre post : list SubagentTask) :
  (max_concurrent_mutation c ≤ u64_max)%N → (max_concurrent_readonly c ≤ u64_max)%N →
  (0 < kind_max k c)%N →
  of_kind k (gov_queue (fleet_run before (governor_new c)).2) = pre ++ t :: post →
  length pre < completions k after →
  t ∈ (fleet_run after (fleet_run before (governor_new c)).2).1.
Proof.
  intros Hm Hr Hmax Hq Hlen. pose proof (governor_new_ok c Hm Hr) as H0.
  apply (fleet_run_dispatches _ _ k t pre post); [by apply fleet_run_ok | | done..].
  by rewrite fleet_run_config.
Qed.

(** ** The sub-agent path *)

Lemma elem_of_dedup_from x y l : y ∈ x :: dedup_from x l ↔ y ∈ x :: l.
Proof.
  revert x. induction l as [|z l IH]; intros x; simpl; [done|].
  destruct (String.eqb_spec x z) as [->|Hne]; [rewrite IH; set_solver|].
  rewrite elem_of_cons, IH. set_solver.
Qed.

Lemma elem_of_vec_dedup y l : y ∈ vec_dedup l ↔ y ∈ l.
Proof. destruct l; [done | apply elem_of_dedup_from]. Qed.

(** On a sorted list [dedup] leaves a sorted list without repetition. *)
Lemma dedup_from_sorted x l :
  StronglySorted (λ a b, str_le a b = true) (x :: l) →
  StronglySorted (λ a b, str_le a b = true) (x :: dedup_from x l) ∧ NoDup (x :: dedup_from x l).
Proof.
  revert x. induction l as [|y l IH]; intros x Hs; simpl.
  - split; [done | apply NoDup_singleton].
  - apply StronglySorted_inv in Hs as [Hs Hx].
    destruct (String.eqb_spec x y) as [->|Hne]; [by apply IH|].
    destruct (IH y Hs) as [IHs IHn].
    assert (Hall : Forall (λ b, str_le x b = true) (y :: dedup_from y l)).
    { rewrite Forall_forall in *. intros z Hz. by apply Hx, elem_of_dedup_from. }
    split; [by constructor|]. apply NoDup_cons. split; [|done].
    intros Hin. apply (proj1 (elem_of_dedup_from _ _ _)) in Hin. apply StronglySorted_inv in Hs as [_ Hy].
    apply Hne. apply str_le_antisym; [by apply Forall_inv in Hx|].
    apply elem_of_cons in Hin as [->|Hin]; [by destruct (str_le_total y y)|].
    rewrite Forall_forall in Hy. by apply Hy.
Qed.

Lemma vec_dedup_sorted l :
  StronglySorted (λ a b, str_le a b = true) l →
  StronglySorted (λ a b, str_le a b = true) (vec_dedup l) ∧ NoDup (vec_dedup l).
Proof. destruct l as [|x l]; [intros _; split; constructor | apply dedup_from_sorted]. Qed.

Lemma effective_tools_sorted granted denied :
  StronglySorted (λ a b, str_le a b = true) (effective_subagent_tools granted denied) ∧
  NoDup (effective_subagent_tools granted denied).
Proof.
  apply vec_dedup_sorted, (Sorted_StronglySorted (λ a b, str_le a b = true)), sort_by_sorted, str_le_total.
Qed.

Lemma elem_of_effective x granted denied :
  x ∈ effective_subagent_tools granted denied ↔
  x ∈ granted ∧ (x ∉ denied) ∧ x ∉ DELEGATE_BLOCKED_TOOLS.
Proof.
  unfold effective_subagent_tools. rewrite elem_of_vec_dedup, elem_of_sort_by.
  rewrite !list_elem_of_In, !filter_In, !negb_true_iff, <- !list_elem_of_In.
  rewrite <- !not_true_iff_false, existsb_eqb_elem.
  assert (Hd : existsb (λ d, String.eqb d x) denied = true ↔ x ∈ denied).
  { rewrite <- existsb_eqb_elem, !existsb_exists. by setoid_rewrite String.eqb_sym at 1. }
  rewrite Hd. tauto.
Qed.

(** A sub-agent is admitted exactly within the depth, concurrency and
    total ceilings when its fleet slot or a place in the queue is free; the
    tools it gets are the parent's grants that are neither denied nor blocked,
    sorted and without repetition, so they do not depend on how the grants and
    denies were listed. *)
Theorem subagent_admission_iff (task : SubagentTask) (depth total : N)
    (granted denied : list string) (g : ConcurrencyGovernor) (s : FleetTaskStatus) (tools : list string) :
  (admit_subagent_task task depth total granted denied g).1 = Ok (s, tools) ↔
  (depth ≤ 2 ∧ u64_add (active_mutation g) (active_readonly g) < 3 ∧ total < 6)%N ∧
  (admit_task task g).1 = Ok s ∧
  StronglySorted (λ a b, str_le a b = true) tools ∧ NoDup tools ∧
  ∀ x, x ∈ tools ↔ x ∈ granted ∧ (x ∉ denied) ∧ x ∉ DELEGATE_BLOCKED_TOOLS.
Proof.
  pose proof (effective_tools_sorted granted denied) as [Hes Hen].
  assert (Htools : tools = effective_subagent_tools granted denied ↔
    StronglySorted (λ a b, str_le a b = true) tools ∧ NoDup tools ∧
    ∀ x, x ∈ tools ↔ x ∈ granted ∧ (x ∉ denied) ∧ x ∉ DELEGATE_BLOCKED_TOOLS).
  { split; [intros ->; split_and!; [done.. | intros; apply elem_of_effective]|].
    intros (Hs & Hn & Hx). apply (StronglySorted_unique_strong (λ a b, str_le a b = true)); try done.
    - intros a b _ _. apply str_le_antisym.
    - apply NoDup_Permutation; [done..|]. intros x. by rewrite Hx, elem_of_effective. }
  rewrite <- Htools. unfold admit_subagent_task, check_subagent_admission. cbv zeta.
  unfold P64_MAX_DEPTH, P64_MAX_CONCURRENT, P64_MAX_TOTAL.
  destruct (N.ltb_spec 2 depth); [split; [done | lia]|].
  destruct (N.leb_spec 3 (u64_add (active_mutation g) (active_readonly g))); [split; [done | lia]|].
  destruct (N.leb_spec 6 total); [split; [done | lia]|].
  destruct (admit_task task g) as [[st|e] g']; simpl; [|split; [done | by intros (_ & ? & _)]].
  split; [intros [= -> ->]; done | intros (_ & [= ->] & ->); done].
Qed.

Inductive subagent_op :=
  | SAdmit (t : SubagentTask) (depth total : N) (granted denied : list string)
  | SComplete (k : FleetTaskKind).

Definition subagent_step (o : subagent_op) (g : ConcurrencyGovernor) : ConcurrencyGovernor :=
  match o with
  | SAdmit t d n gr de => (admit_subagent_task t d n gr de g).2
  | SComplete k => (complete_task k g).2
  end.

Lemma subagent_step_bound o g :
  fleet_ok g → (active_mutation g + active_readonly g ≤ 3)%N →
  fleet_ok (subagent_step o g) ∧
  (active_mutation (subagent_step o g) + active_readonly (subagent_step o g) ≤ 3)%N.
Proof.
  intros Hok H3. destruct o as [t d n gr de|k]; simpl.
  - unfold admit_subagent_task. destruct (check_subagent_admission _ _ _ _ _) eqn:E; [|done].
    pose proof (admit_task_ok t g Hok) as Hok'.
    destruct (admit_task t g) as [r g'] eqn:Ea. simpl in *. split; [done|].
    destruct (admit_task_cases t g Hok) as [[Hlt Ha]|[Hf [[_ Ha]|[_ Ha]]]]; rewrite Ea in Ha;
      injection Ha as -> ->; [|done|done].
    assert (Hcap : (u64_add (active_mutation g) (active_readonly g) < 3)%N).
    { unfold check_subagent_admission, P64_MAX_CONCURRENT in E. repeat case_match; try done.
      bool_hyps. done. }
    rewrite u64_add_small in Hcap by (unfold u64_max; lia).
    destruct (st_kind t); simpl; lia.
  - split; [by apply complete_task_ok|].
    destruct (complete_task_spec k g Hok); [destruct k; simpl; lia | done].
Qed.

(** A fleet whose tasks all enter through the sub-agent path never runs
    more than three at a time, whatever the configured slots: a task that
    waited takes over the slot of the one that ended. *)
Theorem subagents_never_exceed_three (c : GovernorConfig) (ops : list subagent_op) :
  (max_concurrent_mutation c ≤ u64_max)%N → (max_concurrent_readonly c ≤ u64_max)%N →
  let g := foldl (λ g o, subagent_step o g) (governor_new c) ops in
  (active_mutation g + active_readonly g ≤ 3)%N.
Proof.
  intros Hm Hr. cbv zeta. pose proof (governor_new_ok c Hm Hr) as Hok.
  assert (H3 : (active_mutation (governor_new c) + active_readonly (governor_new c) ≤ 3)%N) by (simpl; lia).
  revert Hok H3. generalize (governor_new c). induction ops as [|o ops IH]; intros g Hok H3; [done|].
  simpl. destruct (subagent_step_bound o g Hok H3). by apply IH.
Qed.

(** Below two GiB the computed read-only limit is zero, and no run ever starts
    a read-only task. *)
Lemma small_hosts_never_start_readonly (cpu memory : N) (ops : list fleet_op) :
  (memory < 2)%N →
  of_kind FReadOnly (fleet_run ops (governor_new (calculate_dynamic_limits cpu memory))).1 = [].
Proof.
  intros Hmem. set (c := calculate_dynamic_limits cpu memory).
  assert (Hz : max_concurrent_readonly c = 0%N).
  { unfold c. simpl. rewrite N.div_small by done. apply N.min_0_r. }
  assert (Hm : (max_concurrent_mutation c ≤ u64_max)%N).
  { unfold c, u64_max. simpl. unfold clamp. repeat case_match; bool_hyps; lia. }
  pose proof (governor_new_ok c Hm ltac:(rewrite Hz; done)) as Hok.
  assert (Hc : max_concurrent_readonly (gov_config (governor_new c)) = 0%N) by done.
  clearbody c. revert Hok Hc. generalize (governor_new c).
  induction ops as [|o ops IH]; intros g Hok Hc; [done|].
  rewrite fleet_run_cons. cbn [fst]. rewrite of_kind_app, IH, app_nil_r;
    [| by apply fleet_step_ok | by rewrite fleet_step_config].
  destruct o as [t|k]; simpl.
  - destruct (admit_task_cases t g Hok) as [[Hlt ->]|[_ [[_ ->]|[_ ->]]]]; [|done..]. simpl.
    rewrite of_kind_one. case_decide as Hk; [|done]. simpl in Hk. rewrite Hk in Hlt. simpl in Hlt. lia.
  - destruct (complete_task_spec k g Hok) as [|n l1 l2 _ Hk _ Hpos]; [done|]. simpl.
    rewrite of_kind_one. case_decide as Hk'; [|done]. simpl in Hk'. rewrite <- Hk, Hk' in Hpos. simpl in Hpos. lia.
Qed.

(** ** Concrete runs *)

Definition fleet_sample (id : string) (k : FleetTaskKind) : SubagentTask :=
  {| st_task_id := id; st_parent_run_id := "run"; st_role := "scout"; st_runtime := "native";
     st_kind := k; st_status := FAdmitted; st_priority := 0 |}.

Definition one_slot : GovernorConfig :=
  {| max_concurrent_mutation := 1; max_concurrent_readonly := 1; max_queue_capacity := 5 |}.

Definition fleet_sample_run : list fleet_op :=
  [FAdmit (fleet_sample "a" FMutation); FAdmit (fleet_sample "b" FMutation);
   FAdmit (fleet_sample "c" FMutation); FAdmit (fleet_sample "r" FReadOnly)].

Example fleet_sample_counts :
  active_counts (fleet_run fleet_sample_run (governor_new one_slot)).2 = (1, 1, 2)%N.
Proof. reflexivity. Qed.

Lemma fleet_is_work_conserving_witness :
  (active_mutation (fleet_run fleet_sample_run (governor_new one_slot)).2 ≤ 1)%N.
Proof. apply (fleet_is_work_conserving one_slot fleet_sample_run); vm_compute; discriminate. Defined.

Lemma fleet_starts_in_order_witness :
  st_task_id <$> of_kind FMutation ((fleet_run fleet_sample_run (governor_new one_slot)).1 ++
    gov_queue (fleet_run fleet_sample_run (governor_new one_slot)).2) = ["a"; "b"; "c"].
Proof.
  rewrite (fleet_starts_in_order one_slot fleet_sample_run FMutation); vm_compute; [done | discriminate..].
Defined.

Lemma queued_task_is_dispatched_witness :
  running (fleet_sample "c" FMutation) ∈
    (fleet_run [FComplete FMutation; FAdmit (fleet_sample "d" FMutation); FComplete FMutation]
      (fleet_run fleet_sample_run (governor_new one_slot)).2).1.
Proof.
  apply (queued_task_is_dispatched one_slot fleet_sample_run _ FMutation _
    [running (fleet_sample "b" FMutation)] []); vm_compute; try done; lia.
Defined.

Lemma subagents_never_exceed_three_witness :
  (active_mutation (foldl (λ g o, subagent_step o g) (governor_new governor_config_default)
     [SAdmit (fleet_sample "a" FMutation) 1 0 ["read"] []]) +
   active_readonly (foldl (λ g o, subagent_step o g) (governor_new governor_config_default)
     [SAdmit (fleet_sample "a" FMutation) 1 0 ["read"] []]) ≤ 3)%N.
Proof. apply subagents_never_exceed_three; vm_compute; discriminate. Defined.
