(* ===== verification/Pool.v ===== *)
(** * The warm worker pool ([everyaios-core/src/worker_pool.rs])

    Workers are records; what the operating system answers - whether a child
    lives, and the first line a fresh child writes - are arguments of the
    operations that ask. *)
From S2P Require Import Prelude.

(* SRC core/src/worker_pool.rs @struct:SandboxedWorker SandboxedWorker *)
Record SandboxedWorker := {
  sw_id : N;
  sw_profile : string;
  sw_scratch : option string;
  sw_busy : bool
}.

Definition set_busy (b : bool) (w : SandboxedWorker) : SandboxedWorker :=
  {| sw_id := sw_id w; sw_profile := sw_profile w; sw_scratch := sw_scratch w; sw_busy := b |}.

(* SRC core/src/worker_pool.rs @struct:WorkerPool WorkerPool *)
Record WorkerPool := {
  wp_binary : string;
  wp_workers : list SandboxedWorker;
  wp_next_id : N;
  wp_next_assign : N
}.

Definition set_workers (ws : list SandboxedWorker) (p : WorkerPool) : WorkerPool :=
  {| wp_binary := wp_binary p; wp_workers := ws; wp_next_id := wp_next_id p;
     wp_next_assign := wp_next_assign p |}.

Section pool.
(** The child with a given id: is it alive now, and what does its first line
    read ([Err]: the spawn, a pipe or the read failed; the empty line: end of
    file). *)
Context (alive : N → bool) (first_line : N → result string string).

(* SRC core/src/worker_pool.rs @fn:spawn SandboxedWorker::spawn *)
Definition worker_spawn (id : N) (profile : string) (scratch : option string)
    : result SandboxedWorker string :=
  ready <-? first_line id;;
  if is_empty ready then Err ("worker " +:+ pretty id +:+ " exited before reporting ready")
  else
    let ready := trim ready in
    if negb (starts_with "ready " ready) then
      Err ("worker " +:+ pretty id +:+ " did not report ready (got `" +:+ ready +:+ "`)")
    else Ok {| sw_id := id; sw_profile := profile; sw_scratch := scratch; sw_busy := false |}.

Fixpoint spawn_all (profile : string) (scratch : option string) (i : N) (n : nat)
    : result (list SandboxedWorker) string :=
  match n with
  | 0 => Ok []
  | S n' =>
      w <-? worker_spawn i profile scratch;;
      ws <-? spawn_all profile scratch (i + 1) n';;
      Ok (w :: ws)
  end.

(* SRC core/src/worker_pool.rs @fn:spawn#2 WorkerPool::spawn *)
Definition pool_spawn (binary profile : string) (scratch : option string) (size : nat)
    : result WorkerPool string :=
  workers <-? spawn_all profile scratch 0 size;;
  Ok {| wp_binary := binary; wp_workers := workers; wp_next_id := N.of_nat size; wp_next_assign := 0 |}.

(** The reaping loop of [acquire] from index [i]: dead workers are replaced in
    their slot under fresh ids; a failed spawn leaves the loop. *)
Fixpoint reap (profile : string) (scratch : option string) (ws : list SandboxedWorker) (next_id : N)
    : option string * list SandboxedWorker * N :=
  match ws with
  | [] => (None, [], next_id)
  | w :: ws' =>
      if alive (sw_id w) then
        let '(e, rest, n) := reap profile scratch ws' next_id in (e, w :: rest, n)
      else
        match worker_spawn next_id profile scratch with
        | Err e => (Some e, w :: ws', u64_add next_id 1)
        | Ok r =>
            let '(e, rest, n) := reap profile scratch ws' (u64_add next_id 1) in (e, r :: rest, n)
        end
  end.

(** The round-robin loop: at most one turn over the workers. *)
Fixpoint pool_assign (turns : nat) (p : WorkerPool) : option nat * WorkerPool :=
  match turns with
  | 0 => (None, p)
  | S turns' =>
      let idx := N.to_nat (wp_next_assign p mod N.of_nat (length (wp_workers p))) in
      let p' := {| wp_binary := wp_binary p; wp_workers := wp_workers p; wp_next_id := wp_next_id p;
                   wp_next_assign := u64_add (wp_next_assign p) 1 |} in
      match wp_workers p !! idx with
      | Some w =>
          if negb (sw_busy w) then
            (Some idx, set_workers (<[idx := set_busy true w]> (wp_workers p)) p')
          else pool_assign turns' p'
      | None => pool_assign turns' p'
      end
  end.

(* SRC core/src/worker_pool.rs @fn:acquire WorkerPool::acquire *)
Definition pool_acquire (profile : string) (scratch : option string) (p : WorkerPool)
    : result (option nat) string * WorkerPool :=
  let '(e, ws, n) := reap profile scratch (wp_workers p) (wp_next_id p) in
  let p1 := {| wp_binary := wp_binary p; wp_workers := ws; wp_next_id := n;
               wp_next_assign := wp_next_assign p |} in
  match e with
  | Some e => (Err e, p1)
  | None => let '(r, p2) := pool_assign (length ws) p1 in (Ok r, p2)
  end.

Fixpoint release_first (id : N) (ws : list SandboxedWorker) : list SandboxedWorker :=
  match ws with
  | [] => []
  | w :: ws' => if (sw_id w =? id)%N then set_busy false w :: ws' else w :: release_first id ws'
  end.

(* SRC core/src/worker_pool.rs @fn:release WorkerPool::release *)
Definition pool_release (id : N) (p : WorkerPool) : WorkerPool :=
  set_workers (release_first id (wp_workers p)) p.

(* SRC core/src/worker_pool.rs @fn:grow WorkerPool::grow *)
Fixpoint pool_grow (profile : string) (scratch : option string) (additional : nat) (p : WorkerPool)
    : result unit string * WorkerPool :=
  match additional with
  | 0 => (Ok tt, p)
  | S n =>
      let id := wp_next_id p in
      let bump ws := {| wp_binary := wp_binary p; wp_workers := ws; wp_next_id := u64_add id 1;
                        wp_next_assign := wp_next_assign p |} in
      match worker_spawn id profile scratch with
      | Err e => (Err e, bump (wp_workers p))
      | Ok w => pool_grow profile scratch n (bump (wp_workers p ++ [w]))
      end
  end.

(** ** Worker ids stay unique *)

Record pool_ok (p : WorkerPool) : Prop := {
  pok_unique : NoDup (sw_id <$> wp_workers p);
  pok_fresh w : w ∈ wp_workers p → (sw_id w < wp_next_id p)%N
}.

Lemma worker_spawn_ok id profile scratch w :
  worker_spawn id profile scratch = Ok w →
  w = {| sw_id := id; sw_profile := profile; sw_scratch := scratch; sw_busy := false |}.
Proof. unfold worker_spawn, rbind. intros H. repeat case_match; congruence. Qed.

(** What the reaping loop keeps: live workers in their slots, fresh distinct
    ids, never past the number of spawns. *)
Lemma reap_spec profile scratch ws n e ws' n' :
  reap profile scratch ws n = (e, ws', n') →
  NoDup (sw_id <$> ws) → (∀ w, w ∈ ws → (sw_id w < n)%N) →
  (n + N.of_nat (length ws) ≤ u64_max)%N →
  NoDup (sw_id <$> ws') ∧ (n ≤ n' ≤ n + N.of_nat (length ws))%N ∧ length ws' = length ws ∧
  (∀ i, i ∈ sw_id <$> ws' → i ∈ sw_id <$> ws ∨ n ≤ i < n')%N ∧
  (∀ i w, ws' !! i = Some w → sw_busy w = true → ws !! i = Some w).
Proof.
  revert n e ws' n'. induction ws as [|w ws IH]; intros n e ws' n' H Hnd Hlt Hb; simpl in H.
  { injection H as <- <- <-. split_and!; try done; try lia. intros i Hi; inversion Hi. }
  apply NoDup_cons in Hnd as [Hw Hnd]. simpl in Hb.
  assert (Hlt' : ∀ x, x ∈ ws → (sw_id x < n)%N) by (intros; apply Hlt; by right).
  pose proof (Hlt w (list_elem_of_here _ _)) as Hwn.
  destruct (alive (sw_id w)).
  - destruct (reap profile scratch ws n) as [[e1 ws1] n1] eqn:E. injection H as <- <- <-.
    destruct (IH _ _ _ _ E Hnd Hlt' ltac:(lia)) as (H1 & H2 & H3 & H4 & H5).
    split_and!; simpl; try lia.
    + apply NoDup_cons. split; [|done]. intros Hin. destruct (H4 _ Hin) as [|]; [done|lia].
    + intros i [->|Hi]%elem_of_cons; [left; by left|]. destruct (H4 _ Hi); [left; by right | by right].
    + intros [|i] x Hx Hbusy; [done | by apply (H5 i)].
  - destruct (worker_spawn n profile scratch) as [r|e1] eqn:Es.
    + rewrite u64_add_small in H by lia.
      destruct (reap profile scratch ws (n + 1)) as [[e1 ws1] n1] eqn:E. injection H as <- <- <-.
      apply worker_spawn_ok in Es as ->.
      destruct (IH _ _ _ _ E Hnd ltac:(intros x Hx; specialize (Hlt' x Hx); lia) ltac:(lia))
        as (H1 & H2 & H3 & H4 & H5).
      split_and!; simpl; try lia.
      * apply NoDup_cons. split; [|done]. intros Hin. destruct (H4 _ Hin) as [Hi|]; [|lia].
        apply list_elem_of_fmap in Hi as (x & Heq & Hx). specialize (Hlt' x Hx). simpl in Heq. lia.
      * intros i [->|Hi]%elem_of_cons; [right; lia|].
        destruct (H4 _ Hi); [left; by right | right; lia].
      * intros [|i] x Hx Hbusy; simpl in *; [injection Hx as <-; done | by apply (H5 i)].
    + rewrite u64_add_small in H by lia. injection H as <- <- <-. split_and!; simpl; try done; try lia.
      * by apply NoDup_cons.
      * intros i Hi. by left.
Qed.
End pool.

(** ** Assignment *)

Lemma mod_offset_hits (a j n : N) :
  (j < n)%N → ∃ k, (k < n)%N ∧ ((a + k) mod n = j)%N.
Proof.
  intros Hj. pose proof (N.mod_lt a n ltac:(lia)) as Hm.
  pose proof (N.div_mod a n ltac:(lia)) as Hd. set (q := (a / n)%N) in *. set (r := (a mod n)%N) in *.
  destruct (N.le_gt_cases r j) as [Hle|Hgt].
  - exists (j - r)%N. split; [lia|]. rewrite Hd. replace (n * q + r + (j - r))%N with (j + q * n)%N by lia.
    rewrite N.Div0.mod_add. by apply N.mod_small.
  - exists (n + j - r)%N. split; [lia|]. rewrite Hd.
    replace (n * q + r + (n + j - r))%N with (j + (q + 1) * n)%N by lia.
    rewrite N.Div0.mod_add. by apply N.mod_small.
Qed.

Lemma assign_spec turns p r p' :
  pool_assign turns p = (r, p') →
  (wp_next_assign p + N.of_nat turns ≤ u64_max)%N → wp_workers p ≠ [] →
  wp_next_id p' = wp_next_id p ∧
  match r with
  | Some i => ∃ w, wp_workers p !! i = Some w ∧ sw_busy w = false ∧
      wp_workers p' = <[i := set_busy true w]> (wp_workers p)
  | None => wp_workers p' = wp_workers p ∧
      ∀ k, (k < N.of_nat turns)%N → ∀ w,
        wp_workers p !! N.to_nat ((wp_next_assign p + k) mod N.of_nat (length (wp_workers p))) = Some w →
        sw_busy w = true
  end.
Proof.
  revert p. induction turns as [|turns IH]; intros p H Hb Hne; simpl in H.
  { injection H as <- <-. split_and!; try done. lia. }
  set (idx := N.to_nat (wp_next_assign p mod N.of_nat (length (wp_workers p)))) in *.
  set (p1 := {| wp_binary := wp_binary p; wp_workers := wp_workers p; wp_next_id := wp_next_id p;
                wp_next_assign := u64_add (wp_next_assign p) 1 |}) in *.
  assert (Hp1 : wp_next_assign p1 = (wp_next_assign p + 1)%N) by (simpl; apply u64_add_small; lia).
  assert (Hstep : (∀ w, wp_workers p !! idx = Some w → sw_busy w = true) →
    pool_assign turns p1 = (r, p') → wp_next_id p' = wp_next_id p ∧
    match r with
    | Some i => ∃ w, wp_workers p !! i = Some w ∧ sw_busy w = false ∧
        wp_workers p' = <[i := set_busy true w]> (wp_workers p)
    | None => wp_workers p' = wp_workers p ∧
        ∀ k, (k < N.of_nat (S turns))%N → ∀ w,
          wp_workers p !! N.to_nat ((wp_next_assign p + k) mod N.of_nat (length (wp_workers p))) = Some w →
          sw_busy w = true
    end).
  { intros Hbusy Ha. destruct (IH p1 Ha ltac:(lia) Hne) as [Hid Hr]. split; [done|].
    destruct r as [i|]; [done|]. destruct Hr as [Hws Hk]. split; [done|]. intros k Hlt w.
    destruct (decide (k = 0%N)) as [->|Hk0]; [rewrite N.add_0_r; apply Hbusy|].
    specialize (Hk (k - 1)%N ltac:(lia) w). rewrite Hp1 in Hk.
    replace (wp_next_assign p + 1 + (k - 1))%N with (wp_next_assign p + k)%N in Hk by lia. done. }
  destruct (wp_workers p !! idx) as [w|] eqn:Ew; [|by apply Hstep].
  destruct (sw_busy w) eqn:Eb; simpl in H; [by apply Hstep; [intros ? [= <-]|]|].
  injection H as <- <-. split; [done|]. by exists w.
Qed.

(** A pool whose spawns succeed hands out a worker whenever one is free:
    the slot it names held a free live worker (or a fresh replacement), which
    is now busy and alone changed; it answers nobody only when every worker is
    busy and alive. Worker ids stay unique, so a release frees one worker. *)
Theorem pool_acquire_spec (alive : N → bool) (first_line : N → result string string)
    (profile : string) (scratch : option string) (p p' : WorkerPool) (r : option nat) :
  pool_ok p → wp_workers p ≠ [] →
  (wp_next_id p + N.of_nat (length (wp_workers p)) ≤ u64_max)%N →
  (wp_next_assign p + N.of_nat (length (wp_workers p)) ≤ u64_max)%N →
  pool_acquire alive first_line profile scratch p = (Ok r, p') →
  pool_ok p' ∧ length (wp_workers p') = length (wp_workers p) ∧
  ∃ ws, (∀ i w, ws !! i = Some w → sw_busy w = true → wp_workers p !! i = Some w) ∧
    match r with
    | Some i => ∃ w, ws !! i = Some w ∧ sw_busy w = false ∧ wp_workers p' = <[i := set_busy true w]> ws
    | None => wp_workers p' = wp_workers p ∧ ∀ w, w ∈ wp_workers p → sw_busy w = true
    end.
Proof.
  intros [Hu Hf] Hne Hid Has H. unfold pool_acquire in H.
  destruct (reap alive first_line profile scratch (wp_workers p) (wp_next_id p)) as [[e ws] n] eqn:Er.
  destruct e as [e|]; [done|].
  destruct (reap_spec _ _ _ _ _ _ _ _ _ Er Hu Hf Hid) as (Hnd & Hn & Hlen & Hids & Hbusy).
  set (p1 := {| wp_binary := wp_binary p; wp_workers := ws; wp_next_id := n;
                wp_next_assign := wp_next_assign p |}) in *.
  destruct (pool_assign (length ws) p1) as [r1 p2] eqn:Ea. injection H as <- <-.
  assert (Hws : ws ≠ []) by (intros ->; destruct (wp_workers p); done).
  destruct (assign_spec _ _ _ _ Ea ltac:(rewrite Hlen; done) Hws) as [Hnx Hr].
  assert (Hlt : ∀ w, w ∈ ws → (sw_id w < n)%N).
  { intros w Hw. destruct (Hids (sw_id w)) as [Hi|]; [by apply list_elem_of_fmap_2 | | lia].
    apply list_elem_of_fmap in Hi as (x & -> & Hx). specialize (Hf x Hx). lia. }
  destruct r1 as [i|].
  - destruct Hr as (w & Hi & Hfree & Hp2).
    assert (Hfm : sw_id <$> wp_workers p2 = sw_id <$> ws).
    { rewrite Hp2, list_fmap_insert. simpl. apply list_insert_id.
      change (wp_workers p1) with ws in Hi. by rewrite list_lookup_fmap, Hi. }
    split; [|split; [rewrite Hp2, length_insert; done|]].
    + constructor; [by rewrite Hfm|]. intros x Hx. rewrite Hnx.
      assert (Hxi : sw_id x ∈ sw_id <$> ws) by (rewrite <- Hfm; by apply list_elem_of_fmap_2).
      apply list_elem_of_fmap in Hxi as (y & -> & Hy). by apply Hlt.
    + exists ws. split; [done|]. by exists w.
  - destruct Hr as [Hp2 Hall]. change (wp_workers p1) with ws in *.
    assert (Hb : ∀ i w, ws !! i = Some w → sw_busy w = true).
    { intros i w Hi. pose proof (lookup_lt_Some _ _ _ Hi) as Hil.
      destruct (mod_offset_hits (wp_next_assign p) (N.of_nat i) (N.of_nat (length ws)) ltac:(lia))
        as (k & Hk & Hm).
      apply (Hall k Hk w). change (wp_next_assign p1) with (wp_next_assign p).
      by rewrite Hm, Nat2N.id. }
    assert (Hsame : wp_workers p = ws).
    { apply list_eq. intros i. destruct (ws !! i) as [w|] eqn:Ew; [by apply Hbusy, (Hb i)|].
      apply lookup_ge_None in Ew. apply lookup_ge_None. lia. }
    split; [constructor; [by rewrite Hp2 | intros x; rewrite Hp2, Hnx; apply Hlt]|].
    split; [by rewrite Hp2|]. exists ws. split; [done|]. split; [by rewrite Hp2|].
    rewrite Hsame. intros w [i Hi]%list_elem_of_lookup. by apply (Hb i).
Qed.

(** Releasing frees exactly the worker with that id. *)
Lemma pool_release_frees p id :
  pool_ok p → ∀ w, w ∈ wp_workers p →
  (if (sw_id w =? id)%N then set_busy false w else w) ∈ wp_workers (pool_release id p).
Proof.
  intros [Hu _] w. simpl. revert Hu. induction (wp_workers p) as [|x ws IH]; intros Hu Hw; [inversion Hw|].
  simpl in *. apply NoDup_cons in Hu as [Hx Hu].
  apply elem_of_cons in Hw as [->|Hw].
  - destruct (sw_id x =? id)%N; by left.
  - destruct (N.eqb_spec (sw_id x) id) as [Heq|].
    + destruct (N.eqb_spec (sw_id w) id) as [Hw'|]; [|by right].
      destruct Hx. apply list_elem_of_fmap. exists w. split; [congruence | done].
    + right. by apply IH.
Qed.

Definition pool_sample : WorkerPool :=
  {| wp_binary := "w";
     wp_workers := [{| sw_id := 0; sw_profile := "p"; sw_scratch := None; sw_busy := true |};
                    {| sw_id := 1; sw_profile := "p"; sw_scratch := None; sw_busy := true |}];
     wp_next_id := 2; wp_next_assign := 5 |}.

Definition pool_sample_alive (id : N) : bool := negb (id =? 1)%N.
Definition pool_sample_line (id : N) : result string string :=
  Ok ("ready " +:+ pretty id +:+ String (ascii_of_N 10) "").

Lemma pool_sample_ok : pool_ok pool_sample.
Proof.
  constructor; [apply (bool_decide_unpack _); vm_compute; done|].
  simpl. intros w [->|[->|Hw]%elem_of_cons]%elem_of_cons; [done | done | inversion Hw].
Qed.

Lemma pool_acquire_spec_witness :
  pool_ok (pool_acquire pool_sample_alive pool_sample_line "p" None pool_sample).2.
Proof.
  apply (pool_acquire_spec pool_sample_alive pool_sample_line "p" None pool_sample _ (Some 1));
    [apply pool_sample_ok | done | vm_compute; discriminate.. | vm_compute; reflexivity].
Defined.
