(* ===== verification/CoreGates.v ===== *)
(** * Small gates of the core: disk cap, pairing, hooks, combos, claims

    [worktree_cap.rs], [pairing.rs], [hooks.rs], [combos.rs], [decline.rs],
    [dns_cache.rs] and [routing.rs] of [everyaios-core]: one Section per file.
    Clocks, the hook closures and the DNS lookup are arguments. *)
From S2P Require Import Prelude F64.

(** ** Worktree disk cap ([worktree_cap.rs]) *)

Module Cap.

(* SRC core/src/worktree_cap.rs @struct:WorktreeCap WorktreeCap *)
Record WorktreeCap := { max_gib : N; used_gib : N; min_reserve_gib : N }.

(* SRC core/src/worktree_cap.rs 23 31 WorktreeCap::default *)
Definition worktree_cap_default : WorktreeCap := {| max_gib := 8; used_gib := 0; min_reserve_gib := 1 |}.

(* SRC core/src/worktree_cap.rs @enum:CapVerdict CapVerdict *)
Inductive CapVerdict := CapAllowed | CapRefused.

(* SRC core/src/worktree_cap.rs @fn:would_exceed WorktreeCap::would_exceed *)
Definition would_exceed (new_worktree_gib : N) (c : WorktreeCap) : bool :=
  let charge := N.max new_worktree_gib (min_reserve_gib c) in
  (max_gib c <? u64_saturating_add (used_gib c) charge)%N.

Definition set_used (n : N) (c : WorktreeCap) : WorktreeCap :=
  {| max_gib := max_gib c; used_gib := n; min_reserve_gib := min_reserve_gib c |}.

(* SRC core/src/worktree_cap.rs @fn:reserve WorktreeCap::reserve *)
Definition reserve (new_worktree_gib : N) (c : WorktreeCap) : CapVerdict * WorktreeCap :=
  if would_exceed new_worktree_gib c then (CapRefused, c)
  else (CapAllowed,
        set_used (u64_saturating_add (used_gib c) (N.max new_worktree_gib (min_reserve_gib c))) c).

(* SRC core/src/worktree_cap.rs @fn:release WorktreeCap::release *)
Definition cap_release (gib : N) (c : WorktreeCap) : WorktreeCap := set_used (used_gib c - gib)%N c.

(* SRC core/src/worktree_cap.rs @fn:remaining_gib WorktreeCap::remaining_gib *)
Definition remaining_gib (c : WorktreeCap) : N := (max_gib c - used_gib c)%N.

Inductive cap_op := Reserve (gib : N) | CapRelease (gib : N).
Definition cap_step (c : WorktreeCap) (o : cap_op) : WorktreeCap :=
  match o with Reserve n => (reserve n c).2 | CapRelease n => cap_release n c end.

Lemma cap_step_bound c o :
  (used_gib c ≤ max_gib c)%N →
  (used_gib (cap_step c o) ≤ max_gib c)%N ∧ max_gib (cap_step c o) = max_gib c ∧
  min_reserve_gib (cap_step c o) = min_reserve_gib c.
Proof.
  intros H. destruct o as [n|n]; simpl; [|split_and!; try done; lia].
  unfold reserve, would_exceed. destruct (N.ltb_spec (max_gib c) (u64_saturating_add (used_gib c)
    (N.max n (min_reserve_gib c)))); simpl; auto.
Qed.

(** The budget is never overdrawn, by any run of reservations and releases. *)
Lemma cap_never_exceeded c ops :
  (used_gib c ≤ max_gib c)%N → (used_gib (foldl cap_step c ops) ≤ max_gib c)%N.
Proof.
  revert c. induction ops as [|o ops IH]; intros c H; simpl; [done|].
  destruct (cap_step_bound c o H) as (Hu & Hm & _). rewrite <- Hm. apply IH. by rewrite Hm.
Qed.

(** Releasing a worktree by its reported size keeps the part of the floor that
    was charged beyond it. *)
Lemma release_leaks_the_floor c gib :
  (reserve gib c).1 = CapAllowed → (max_gib c < u64_max)%N →
  used_gib (cap_release gib (reserve gib c).2) =
  (used_gib c + (N.max gib (min_reserve_gib c) - gib))%N.
Proof.
  unfold reserve, would_exceed, u64_saturating_add, u64_max. intros H Hm.
  destruct (N.ltb_spec (max_gib c) (N.min (used_gib c + N.max gib (min_reserve_gib c))
    18446744073709551615)); [done|]. simpl. lia.
Qed.

Definition tiny_reserves : list cap_op :=
  concat (repeat [Reserve 0; CapRelease 0] 8).

Example tiny_worktrees_use_up_the_cap :
  (reserve 0 (foldl cap_step worktree_cap_default tiny_reserves)).1 = CapRefused.
Proof. reflexivity. Qed.
End Cap.

(** ** QR pairing ([pairing.rs]) *)

Module Pairing.

(* SRC core/src/pairing.rs @enum:PairingState PairingState *)
Inductive PairingState := AwaitingScan | PairingConfirmed | PairingExpired.

#[export] Instance pairing_state_eq_dec : EqDecision PairingState.
Proof. solve_decision. Defined.

(* SRC core/src/pairing.rs @struct:QrPairingSession QrPairingSession *)
Record QrPairingSession := {
  qr_id : string;
  qr_endpoint : string;
  qr_nonce : string;
  qr_expires_at_ms : N;
  qr_state : PairingState
}.

(* SRC core/src/pairing.rs 36 49 QrPairingSession::new *)
Definition qr_new (id endpoint nonce : string) (expires_at_ms : N) : QrPairingSession :=
  {| qr_id := id; qr_endpoint := endpoint; qr_nonce := nonce;
     qr_expires_at_ms := expires_at_ms; qr_state := AwaitingScan |}.

(* SRC core/src/pairing.rs @fn:qr_payload QrPairingSession::qr_payload *)
Definition qr_payload (s : QrPairingSession) : string :=
  "everyaios-pair://" +:+ qr_endpoint s +:+ "?nonce=" +:+ qr_nonce s.

Definition set_qr_state (st : PairingState) (s : QrPairingSession) : QrPairingSession :=
  {| qr_id := qr_id s; qr_endpoint := qr_endpoint s; qr_nonce := qr_nonce s;
     qr_expires_at_ms := qr_expires_at_ms s; qr_state := st |}.

(* SRC core/src/pairing.rs @fn:confirm QrPairingSession::confirm *)
Definition confirm (now_ms : N) (nonce : string) (s : QrPairingSession) : bool * QrPairingSession :=
  if negb (bool_decide (qr_state s = AwaitingScan)) then (false, s)
  else if negb (qr_expires_at_ms s =? 0)%N && (qr_expires_at_ms s <? now_ms)%N then
    (false, set_qr_state PairingExpired s)
  else if String.eqb nonce (qr_nonce s) then (true, set_qr_state PairingConfirmed s)
  else (false, s).

(* SRC core/src/pairing.rs @fn:expire QrPairingSession::expire *)
Definition qr_expire (s : QrPairingSession) : QrPairingSession := set_qr_state PairingExpired s.

Inductive qr_op := Confirm (now_ms : N) (nonce : string) | Expire.
Definition qr_step (o : qr_op) (s : QrPairingSession) : bool * QrPairingSession :=
  match o with Confirm n x => confirm n x s | Expire => (false, qr_expire s) end.
Fixpoint qr_run (ops : list qr_op) (s : QrPairingSession) : list bool * QrPairingSession :=
  match ops with
  | [] => ([], s)
  | o :: ops' =>
      let '(b, s1) := qr_step o s in
      let '(l, s2) := qr_run ops' s1 in (b :: l, s2)
  end.

Lemma confirm_true now nonce s :
  (confirm now nonce s).1 = true ↔
  qr_state s = AwaitingScan ∧ nonce = qr_nonce s ∧
  (qr_expires_at_ms s = 0 ∨ now ≤ qr_expires_at_ms s)%N.
Proof.
  unfold confirm. case_bool_decide as Hs; simpl; [|by split; [|intros (? & _)]].
  destruct (N.eqb_spec (qr_expires_at_ms s) 0), (N.ltb_spec (qr_expires_at_ms s) now); simpl;
    destruct (String.eqb_spec nonce (qr_nonce s)) as [?|Hne]; simpl; split; try done; auto;
    intros (_ & ? & Hor); try done; destruct Hor; lia.
Qed.

Lemma settled_stays_settled ops s :
  qr_state s ≠ AwaitingScan → Forall (λ b, b = false) (qr_run ops s).1.
Proof.
  revert s. induction ops as [|o ops IH]; intros s Hs; simpl; [done|].
  destruct (qr_step o s) as [b s1] eqn:E.
  assert (b = false ∧ qr_state s1 ≠ AwaitingScan) as [-> Hs1].
  { destruct o; simpl in E; [|by injection E as <- <-].
    unfold confirm in E. rewrite bool_decide_false in E by done. by injection E as <- <-. }
  specialize (IH s1 Hs1). destruct (qr_run ops s1). by constructor.
Qed.

(** Over any run of attempts a pairing session is confirmed at most once,
    and only by its own nonce before its expiry. *)
Theorem pairing_confirms_at_most_once (s : QrPairingSession) (ops : list qr_op) (i j : nat) :
  (qr_run ops s).1 !! i = Some true → (qr_run ops s).1 !! j = Some true →
  i = j ∧ ∃ now, ops !! i = Some (Confirm now (qr_nonce s)) ∧
    (qr_expires_at_ms s = 0 ∨ now ≤ qr_expires_at_ms s)%N.
Proof.
  revert s i j. induction ops as [|o ops IH]; intros s i j; simpl; [done|].
  destruct (qr_step o s) as [b s1] eqn:E.
  assert (Hf : qr_nonce s1 = qr_nonce s ∧ qr_expires_at_ms s1 = qr_expires_at_ms s).
  { destruct o; simpl in E; [unfold confirm in E; repeat case_match|]; injection E as _ <-; done. }
  destruct b.
  - destruct o as [now x|]; [|done].
    pose proof (proj1 (confirm_true now x s)) as Hc. simpl in E. rewrite E in Hc.
    destruct (Hc eq_refl) as (Hs & -> & Hexp).
    assert (Hs1 : qr_state s1 ≠ AwaitingScan).
    { unfold confirm in E. repeat case_match; try done; by injection E as <-. }
    pose proof (settled_stays_settled ops s1 Hs1) as Hall. destruct (qr_run ops s1) as [l s2].
    simpl in Hall. rewrite Forall_forall in Hall. simpl. intros Hi Hj.
    destruct i as [|i]; [|simpl in Hi; by apply list_elem_of_lookup_2, Hall in Hi].
    destruct j as [|j]; [|simpl in Hj; by apply list_elem_of_lookup_2, Hall in Hj].
    split; [done|]. by exists now.
  - specialize (IH s1). destruct (qr_run ops s1) as [l s2]. simpl in *.
    destruct i as [|i]; [done|]. destruct j as [|j]; [done|]. simpl. intros Hi Hj.
    destruct (IH i j Hi Hj) as (-> & now & Hop & Hexp). destruct Hf as [Hn He]. rewrite Hn in Hop. rewrite He in Hexp.
    split; [done|]. by exists now.
Qed.
End Pairing.

(** ** Executor hooks ([hooks.rs]) *)

Module Hooks.

(* SRC core/src/hooks.rs @enum:HookKind HookKind *)
Inductive HookKind :=
  PreToolUse | PostToolUse | PostToolUseFailure | PostToolBatch | HookTurn | HookSession.

#[export] Instance hook_kind_eq_dec : EqDecision HookKind.
Proof. solve_decision. Defined.

(** The [Debug] name the audit row carries. *)
Definition hook_kind_debug (k : HookKind) : string :=
  match k with
  | PreToolUse => "PreToolUse" | PostToolUse => "PostToolUse"
  | PostToolUseFailure => "PostToolUseFailure" | PostToolBatch => "PostToolBatch"
  | HookTurn => "Turn" | HookSession => "Session"
  end.

(* SRC core/src/hooks.rs @enum:HookAction HookAction *)
Inductive HookAction := HookAllow | HookDeny (reason : string) | HookRecord.

(* SRC core/src/hooks.rs @struct:HookEvent HookEvent *)
Record HookEvent := {
  ev_kind : HookKind;
  ev_capability : string;
  ev_tool : string;
  ev_session_id : string;
  ev_turn_id : option string;
  ev_ok : option bool;
  ev_error : option string;
  ev_at_tokens : option N
}.

(* SRC core/src/hooks.rs @struct:HookSpec HookSpec *)
Record HookSpec := { hook_name : string; hook_kind : HookKind; hook_capability : string }.

#[export] Instance hook_spec_eq_dec : EqDecision HookSpec.
Proof. solve_decision. Defined.

Definition HookFn : Type := HookEvent → HookAction.

(* SRC core/src/hooks.rs @struct:HookRegistry HookRegistry *)
Record HookRegistry := {
  hooks : list (HookSpec * HookFn);
  hook_audit : list (string * string * HookAction)
}.

(* SRC core/src/hooks.rs @fn:install HookRegistry::install *)
Definition hook_install (spec : HookSpec) (f : HookFn) (r : HookRegistry) : HookRegistry :=
  match list_find (λ h, h.1 = spec) (hooks r) with
  | Some (pos, h) => {| hooks := <[pos := (h.1, f)]> (hooks r); hook_audit := hook_audit r |}
  | None => {| hooks := hooks r ++ [(spec, f)]; hook_audit := hook_audit r |}
  end.

Definition hook_matches (e : HookEvent) (h : HookSpec * HookFn) : bool :=
  bool_decide (hook_kind h.1 = ev_kind e) && String.eqb (hook_capability h.1) (ev_capability e).

(** The loop of [dispatch] over the matching hooks: the audit rows it pushes
    and the action it returns. *)
Fixpoint dispatch_loop (e : HookEvent) (action : HookAction) (hs : list (HookSpec * HookFn))
    : list (string * string * HookAction) * HookAction :=
  match hs with
  | [] => ([], action)
  | (_, f) :: hs' =>
      let a := f e in
      let row := (ev_tool e, hook_kind_debug (ev_kind e), a) in
      let continue_with action' :=
        let '(rows, r) := dispatch_loop e action' hs' in (row :: rows, r) in
      match a with
      | HookDeny _ =>
          if bool_decide (ev_kind e = PreToolUse) then ([row], a) else continue_with action
      | HookAllow =>
          if bool_decide (ev_kind e = PreToolUse) then continue_with HookRecord else continue_with a
      | HookRecord =>
          match action with HookRecord => continue_with a | _ => continue_with action end
      end
  end.

(* SRC core/src/hooks.rs @fn:dispatch HookRegistry::dispatch *)
Definition hook_dispatch (e : HookEvent) (r : HookRegistry) : HookAction * HookRegistry :=
  let '(rows, a) := dispatch_loop e HookRecord (List.filter (hook_matches e) (hooks r)) in
  (a, {| hooks := hooks r; hook_audit := hook_audit r ++ rows |}).

Definition is_deny (a : HookAction) : bool := match a with HookDeny _ => true | _ => false end.

(** The hooks a pre-tool dispatch runs: up to and including the first denial. *)
Fixpoint upto_denial (e : HookEvent) (hs : list (HookSpec * HookFn)) : list (HookSpec * HookFn) :=
  match hs with
  | [] => []
  | h :: hs' => if is_deny (h.2 e) then [h] else h :: upto_denial e hs'
  end.

Definition hook_row (e : HookEvent) (h : HookSpec * HookFn) : string * string * HookAction :=
  (ev_tool e, hook_kind_debug (ev_kind e), h.2 e).

Lemma pre_tool_loop e hs :
  ev_kind e = PreToolUse →
  dispatch_loop e HookRecord hs =
  (hook_row e <$> upto_denial e hs,
   default HookRecord (List.find is_deny ((λ h, h.2 e) <$> hs))).
Proof.
  intros He. induction hs as [|[s f] hs IH]; [done|]. rewrite ?fmap_cons. simpl.
  assert (Hrow : hook_row e (s, f) = (ev_tool e, hook_kind_debug (ev_kind e), f e)) by done.
  destruct (f e) eqn:E; rewrite ?bool_decide_true by done; simpl;
    rewrite ?IH, ?fmap_cons, ?Hrow; done.
Qed.

Lemma post_tool_loop e action hs :
  ev_kind e ≠ PreToolUse → is_deny action = false →
  let '(rows, r) := dispatch_loop e action hs in
  rows = hook_row e <$> hs ∧ is_deny r = false.
Proof.
  intros He. revert action. induction hs as [|[s f] hs IH]; intros action Ha; [done|]. simpl.
  assert (Hs : ∀ a', is_deny a' = false →
    let '(rows, r) := (let '(rows, r) := dispatch_loop e a' hs in
      ((ev_tool e, hook_kind_debug (ev_kind e), f e) :: rows, r)) in
    rows = hook_row e (s, f) :: (hook_row e <$> hs) ∧ is_deny r = false).
  { intros a' Ha'. specialize (IH a' Ha'). destruct (dispatch_loop e a' hs) as [rows r].
    by destruct IH as [-> ?]. }
  destruct (f e) eqn:E; rewrite ?bool_decide_false by done; [by apply Hs | by apply Hs |].
  destruct action; [by apply Hs | done | by apply Hs].
Qed.

(** A pre-tool dispatch answers with the first denial of the installed
    hooks of its kind and capability, or with a mere record - never with an
    authorisation - and every hook it ran has its audit row; an after-the-fact
    dispatch runs and audits all of them and never denies. *)
Theorem hooks_only_deny (e : HookEvent) (r : HookRegistry) :
  let hs := List.filter (hook_matches e) (hooks r) in
  let '(a, r') := hook_dispatch e r in
  hooks r' = hooks r ∧
  (ev_kind e = PreToolUse →
     a = default HookRecord (List.find is_deny ((λ h, h.2 e) <$> hs)) ∧ a ≠ HookAllow ∧
     hook_audit r' = hook_audit r ++ (hook_row e <$> upto_denial e hs)) ∧
  (ev_kind e ≠ PreToolUse →
     is_deny a = false ∧ hook_audit r' = hook_audit r ++ (hook_row e <$> hs)).
Proof.
  cbv zeta. unfold hook_dispatch. set (hs := List.filter (hook_matches e) (hooks r)).
  pose proof (pre_tool_loop e hs) as Hpre. pose proof (post_tool_loop e HookRecord hs) as Hpost.
  destruct (dispatch_loop e HookRecord hs) as [rows a]. split; [done|]. split.
  - intros He. specialize (Hpre He). injection Hpre as -> ->. split; [done|]. split; [|done].
    destruct (List.find is_deny _) as [d|] eqn:E; simpl; [|done].
    apply find_some in E as [_ E]. by destruct d.
  - intros He. destruct (Hpost He eq_refl) as [-> Ha]. done.
Qed.

(** Installing the same (name, kind, capability) twice keeps one hook, the
    later one, in the earlier one's place. *)
Lemma hook_install_unique spec f r :
  NoDup (fst <$> hooks r) → NoDup (fst <$> hooks (hook_install spec f r)).
Proof.
  intros Hn. unfold hook_install. destruct (list_find _ _) as [[pos h]|] eqn:E; simpl.
  - apply list_find_Some in E as (Hh & _ & _). rewrite list_fmap_insert. simpl.
    rewrite list_insert_id; [done|]. by rewrite list_lookup_fmap, Hh.
  - rewrite fmap_app. apply NoDup_app. split; [done|]. split; [|apply NoDup_singleton].
    intros x Hx ->%list_elem_of_singleton. simpl in Hx.
    apply list_elem_of_fmap in Hx as (h & Heq & Hin).
    pose proof (list_find_None (λ h, h.1 = spec) (hooks r)) as HN.
    rewrite Forall_forall in HN. by apply (proj1 HN E h Hin).
Qed.
End Hooks.

(** ** Combos ([combos.rs]) *)

Module Combos.

(* SRC core/src/combos.rs @struct:PerScopeGrant PerScopeGrant *)
Record PerScopeGrant := { psg_scope : string; psg_granted : bool; psg_ticket_id : option string }.

(* SRC core/src/combos.rs @fn:denied PerScopeGrant::denied *)
Definition psg_denied (scope : string) : PerScopeGrant :=
  {| psg_scope := scope; psg_granted := false; psg_ticket_id := None |}.

(* SRC core/src/combos.rs @struct:Combo Combo *)
Record Combo := {
  combo_id : string;
  skill_ids : list string;
  integration_ids : list string;
  combo_grants : list PerScopeGrant
}.

(* SRC core/src/combos.rs 38 50 Combo::new *)
Definition combo_new (id : string) (skills integrations scopes : list string) : Combo :=
  {| combo_id := id; skill_ids := skills; integration_ids := integrations;
     combo_grants := psg_denied <$> scopes |}.

(* SRC core/src/combos.rs @enum:ReadVerdict ReadVerdict *)
Inductive ReadVerdict := ReadAllow | ReadNeedsTicket.

#[export] Instance read_verdict_eq_dec : EqDecision ReadVerdict.
Proof. solve_decision. Defined.

(** [iter_mut().find]: update the first grant of the scope, or answer that
    there is none. *)
Fixpoint grant_first (scope ticket_id : string) (gs : list PerScopeGrant)
    : option (list PerScopeGrant) :=
  match gs with
  | [] => None
  | g :: gs' =>
      if String.eqb (psg_scope g) scope then
        Some ({| psg_scope := psg_scope g; psg_granted := true;
                 psg_ticket_id := Some ticket_id |} :: gs')
      else cons g <$> grant_first scope ticket_id gs'
  end.

Definition set_grants (gs : list PerScopeGrant) (c : Combo) : Combo :=
  {| combo_id := combo_id c; skill_ids := skill_ids c;
     integration_ids := integration_ids c; combo_grants := gs |}.

(* SRC core/src/combos.rs @fn:approve_scope approve_scope *)
Definition approve_scope (scope ticket_id : string) (c : Combo) : Combo :=
  match grant_first scope ticket_id (combo_grants c) with
  | Some gs => set_grants gs c
  | None => set_grants (combo_grants c ++
      [{| psg_scope := scope; psg_granted := true; psg_ticket_id := Some ticket_id |}]) c
  end.

(* SRC core/src/combos.rs @fn:all_approved all_approved *)
Definition all_approved (c : Combo) : bool := forallb psg_granted (combo_grants c).

(* SRC core/src/combos.rs @fn:request_read request_read *)
Definition request_read (c : Combo) (scope : string) : ReadVerdict :=
  match List.find (λ g, String.eqb (psg_scope g) scope) (combo_grants c) with
  | Some g => if psg_granted g then ReadAllow else ReadNeedsTicket
  | None => ReadNeedsTicket
  end.

(* SRC core/src/combos.rs @struct:StepBundle StepBundle *)
Record StepBundle := { sb_name : string; sb_steps : list string; sb_read_scopes : list string }.

Fixpoint first_unapproved (c : Combo) (scopes : list string) : option string :=
  match scopes with
  | [] => None
  | s :: ss =>
      if bool_decide (request_read c s = ReadAllow) then first_unapproved c ss else Some s
  end.

(* SRC core/src/combos.rs @fn:run_saved_combo run_saved_combo *)
Definition run_saved_combo (b : StepBundle) (c : Combo) : result (list string) string :=
  match first_unapproved c (sb_read_scopes b) with
  | Some s => Err s
  | None => Ok (sb_steps b)
  end.

Definition find_scope (scope : string) : list PerScopeGrant → option PerScopeGrant :=
  List.find (λ g, String.eqb (psg_scope g) scope).

Lemma grant_first_spec scope tid gs :
  match grant_first scope tid gs with
  | Some gs' =>
      find_scope scope gs' =
        Some {| psg_scope := scope; psg_granted := true; psg_ticket_id := Some tid |} ∧
      ∀ s, s ≠ scope → find_scope s gs' = find_scope s gs
  | None => find_scope scope gs = None
  end.
Proof.
  unfold find_scope. induction gs as [|g gs IH]; simpl; [done|].
  destruct (String.eqb_spec (psg_scope g) scope) as [Heq|Hne]; simpl.
  - rewrite Heq, String.eqb_refl. split; [done|]. intros s Hs.
    destruct (String.eqb_spec scope s); [congruence | done].
  - destruct (grant_first scope tid gs) as [gs'|]; simpl.
    + destruct IH as [IH1 IH2]. destruct (String.eqb_spec (psg_scope g) scope); [done|].
      split; [done|]. intros s Hs. by rewrite IH2.
    + done.
Qed.

Lemma find_scope_app s gs1 gs2 :
  find_scope s (gs1 ++ gs2) =
  match find_scope s gs1 with Some g => Some g | None => find_scope s gs2 end.
Proof. unfold find_scope. induction gs1 as [|g gs1 IH]; simpl; [done|]. by destruct (String.eqb _ _). Qed.

(** Approving a scope allows that scope and leaves every other verdict. *)
Lemma approve_scope_exact scope tid c s :
  request_read (approve_scope scope tid c) s =
  if String.eqb s scope then ReadAllow else request_read c s.
Proof.
  unfold request_read, approve_scope. pose proof (grant_first_spec scope tid (combo_grants c)) as H.
  unfold find_scope in H. destruct (String.eqb_spec s scope) as [->|Hne];
    destruct (grant_first _ _ _) as [gs'|] eqn:E; simpl.
  - by destruct H as [-> _].
  - pose proof (find_scope_app scope (combo_grants c)
      [{| psg_scope := scope; psg_granted := true; psg_ticket_id := Some tid |}]) as Ha.
    unfold find_scope in Ha. rewrite Ha, H. simpl. by rewrite String.eqb_refl.
  - destruct H as [_ ->]; done.
  - pose proof (find_scope_app s (combo_grants c)
      [{| psg_scope := scope; psg_granted := true; psg_ticket_id := Some tid |}]) as Ha.
    unfold find_scope in Ha. rewrite Ha. simpl.
    destruct (String.eqb_spec scope s); [congruence|]. by destruct (find (λ g, String.eqb (psg_scope g) s) (combo_grants c)).
Qed.

Lemma run_saved_combo_ok b c :
  run_saved_combo b c = Ok (sb_steps b) ↔
  ∀ s, s ∈ sb_read_scopes b → request_read c s = ReadAllow.
Proof.
  unfold run_saved_combo. induction (sb_read_scopes b) as [|s ss IH]; simpl.
  - split; [intros _ s Hs; inversion Hs | done].
  - case_bool_decide as Hs.
    + rewrite IH. split; intros H x; [intros [->|]%elem_of_cons; auto | intros Hx; apply H; by right].
    + split; [done|]. intros H. destruct Hs. apply H. by left.
Qed.

(** After any sequence of approvals a saved combo runs exactly when every
    read scope it names was approved at the start or is one of those approved:
    no approval of one scope ever opens another. *)
Theorem saved_combo_runs_iff_approved (b : StepBundle) (c : Combo) (approvals : list (string * string)) :
  run_saved_combo b (foldl (λ c a, approve_scope a.1 a.2 c) c approvals) = Ok (sb_steps b) ↔
  ∀ s, s ∈ sb_read_scopes b → request_read c s = ReadAllow ∨ s ∈ approvals.*1.
Proof.
  rewrite run_saved_combo_ok.
  assert (H : ∀ s, request_read (foldl (λ c a, approve_scope a.1 a.2 c) c approvals) s = ReadAllow ↔
    request_read c s = ReadAllow ∨ s ∈ approvals.*1).
  { intros s. revert c. induction approvals as [|[a t] l IH]; intros c; simpl;
      [split; [by left | intros [?|Hin]; [done | inversion Hin]]|].
    rewrite IH, approve_scope_exact. destruct (String.eqb_spec s a) as [->|Hne]; set_solver. }
  by setoid_rewrite H.
Qed.
End Combos.

(** ** The session DNS cache ([dns_cache.rs]) *)

Module Dns.

(* SRC core/src/dns_cache.rs @struct:SessionDnsCache SessionDnsCache *)
Record SessionDnsCache := { dns_session_id : string; dns_hosts : gmap string (list string) }.

(* SRC core/src/dns_cache.rs 18 23 SessionDnsCache::new *)
Definition dns_new (session_id : string) : SessionDnsCache :=
  {| dns_session_id := session_id; dns_hosts := ∅ |}.

(* SRC core/src/dns_cache.rs @fn:resolve SessionDnsCache::resolve *)
Definition dns_resolve (host : string) (lookup : string → list string) (c : SessionDnsCache)
    : list string * SessionDnsCache :=
  match dns_hosts c !! host with
  | Some cached => (cached, c)
  | None =>
      let resolved := lookup host in
      (resolved, {| dns_session_id := dns_session_id c;
                    dns_hosts := <[host := resolved]> (dns_hosts c) |})
  end.

(* SRC core/src/dns_cache.rs @fn:end_session SessionDnsCache::end_session *)
Definition dns_end_session (c : SessionDnsCache) : SessionDnsCache :=
  {| dns_session_id := dns_session_id c; dns_hosts := ∅ |}.

(** Within a session every later lookup of a host, by whatever resolver,
    answers what the first one did. *)
Lemma dns_first_answer_sticks c host f (later : list (string * (string → list string))) g :
  let c1 := (dns_resolve host f c).2 in
  let c2 := foldl (λ c q, (dns_resolve q.1 q.2 c).2) c1 later in
  (dns_resolve host g c2).1 = (dns_resolve host f c).1.
Proof.
  cbv zeta. assert (H : dns_hosts (dns_resolve host f c).2 !! host = Some (dns_resolve host f c).1).
  { unfold dns_resolve. destruct (dns_hosts c !! host) as [l|] eqn:E; simpl; [done|].
    by rewrite lookup_insert_eq. }
  revert H. generalize (dns_resolve host f c).2 (dns_resolve host f c).1.
  induction later as [|[h k] later IH]; intros c1 a H; simpl.
  - unfold dns_resolve. by rewrite H.
  - apply IH. unfold dns_resolve. destruct (dns_hosts c1 !! h) as [l|] eqn:E; simpl; [done|].
    rewrite lookup_insert_ne; [done|]. intros ->. congruence.
Qed.
End Dns.

(** ** Declined features and gated claims ([decline.rs]) *)

Module Decline.

(* SRC core/src/decline.rs @struct:GateState GateState *)
Record GateState := { gate_a : bool; gate_b : bool; gate_d : bool }.

(* SRC core/src/decline.rs @enum:ClaimGate ClaimGate *)
Inductive ClaimGate := GateA | GateB | GateD.

(* SRC core/src/decline.rs @fn:met GateState::met *)
Definition gate_met (s : GateState) (g : ClaimGate) : bool :=
  match g with GateA => gate_a s | GateB => gate_b s | GateD => gate_d s end.

(* SRC core/src/decline.rs @enum:DeclinedFeature DeclinedFeature *)
Inductive DeclinedFeature :=
  GenMediaFrontend | ConnectorCountMarketing | SilentAutonomy | ReplacementBrowser
  | ReplacementIde | RecursiveSwarms.

(* SRC core/src/decline.rs @enum:DeclineVerdict DeclineVerdict *)
Inductive DeclineVerdict := DvAllowed | DvRefused | DvGated (gate : ClaimGate).

(* SRC core/src/decline.rs @fn:feature DeclineGuard::feature *)
Definition declined_feature (f : DeclinedFeature) : DeclineVerdict :=
  match f with
  | GenMediaFrontend | ConnectorCountMarketing | SilentAutonomy
  | ReplacementBrowser | ReplacementIde | RecursiveSwarms => DvRefused
  end.

(* SRC core/src/decline.rs @fn:claim DeclineGuard::claim *)
Definition claim_verdict (claim : string) (gates : GateState) : DeclineVerdict :=
  if existsb (String.eqb claim) ["teach once"; "teach_once"] then
    if gate_d gates then DvAllowed else DvGated GateD
  else if existsb (String.eqb claim) ["broadest control plane"; "broadest_control_plane"] then
    if gate_a gates && gate_b gates then DvAllowed
    else if negb (gate_a gates) then DvGated GateA
    else DvGated GateB
  else DvAllowed.

(** A gated verdict names a gate that is not met. *)
Lemma gated_claim_names_an_unmet_gate claim gates g :
  claim_verdict claim gates = DvGated g → gate_met gates g = false.
Proof. unfold claim_verdict. destruct gates as [[] [] []]; simpl; repeat case_match; by intros [= <-]. Qed.
End Decline.

(** ** The route scorer ([routing.rs]) *)

Module Routing.

(* SRC core/src/routing.rs @struct:ProviderObservation ProviderObservation *)
Record ProviderObservation := {
  po_provider : string;
  po_model : string;
  po_ok : bool;
  po_latency_ms : N;
  po_tokens_in : N;
  po_tokens_out : N;
  po_cache_read_tokens : N;
  po_cost : f64;
  po_health : f64;
  po_quota_remaining : option f64;
  po_recorded_at_ms : N
}.

(* SRC core/src/routing.rs 28 42 ProviderObservation::new *)
Definition observation_new (provider model : string) : ProviderObservation :=
  {| po_provider := provider; po_model := model; po_ok := true; po_latency_ms := 0;
     po_tokens_in := 0; po_tokens_out := 0; po_cache_read_tokens := 0; po_cost := f64_0;
     po_health := f64_1; po_quota_remaining := None; po_recorded_at_ms := 0 |}.

(* SRC core/src/routing.rs @fn:billable_tokens ProviderObservation::billable_tokens *)
Definition billable_tokens (o : ProviderObservation) : N :=
  (po_tokens_in o - po_cache_read_tokens o)%N.

(* SRC core/src/routing.rs @fn:score Scorer::score *)
Definition route_score (obs : ProviderObservation) (cost_weight latency_weight : f64) : f64 :=
  if negb (po_ok obs) || f64_le (po_health obs) f64_0 then f64_0
  else
    let health := f64_mul (f64_lit 20 100) (po_health obs) in
    let quota := f64_mul (f64_clamp (default f64_1 (po_quota_remaining obs)) f64_0 f64_1)
                   (f64_lit 10 100) in
    let cost_inv :=
      if f64_le (po_cost obs) f64_0 then f64_lit 15 100
      else f64_mul (f64_lit 15 100) (f64_div f64_1 (f64_add f64_1 (po_cost obs))) in
    let latency_inv :=
      if (po_latency_ms obs =? 0)%N then latency_weight
      else f64_mul latency_weight
             (f64_div f64_1 (f64_add f64_1 (f64_div (f64_of_N (po_latency_ms obs)) f64_1000))) in
    let cache_bonus := if (0 <? po_cache_read_tokens obs)%N then f64_lit 8 100 else f64_0 in
    f64_clamp
      (f64_add (f64_add (f64_add (f64_add health quota) (f64_mul cost_inv cost_weight)) latency_inv)
         cache_bonus) f64_0 f64_1.

(** The score is NaN or lies in [0..=1], whatever the observation. *)
Lemma route_score_range obs cw lw :
  is_nan (route_score obs cw lw) = true ∨
  f64_le f64_0 (route_score obs cw lw) = true ∧ f64_le (route_score obs cw lw) f64_1 = true.
Proof.
  unfold route_score. destruct (negb (po_ok obs) || _); [by right|]. cbv zeta.
  match goal with |- context [f64_clamp ?x f64_0 f64_1] => generalize x end. intros x.
  destruct (is_nan x) eqn:E; [left; by destruct x | right; by apply f64_clamp_bounds].
Qed.

(** An observation with no latency and a NaN weight has no score in range. *)
Example route_score_nan :
  is_nan (route_score (observation_new "p" "m") f64_1 S754_nan) = true.
Proof. vm_compute. reflexivity. Qed.
End Routing.

(** ** Concrete runs *)

Definition qr_sample : Pairing.QrPairingSession := Pairing.qr_new "s" "127.0.0.1:1" "n" 10.

Lemma pairing_confirms_at_most_once_witness :
  (1 = 1 ∧ ∃ now, [Pairing.Confirm 3 "wrong"; Pairing.Confirm 4 "n"; Pairing.Confirm 5 "n"] !! 1 =
    Some (Pairing.Confirm now "n") ∧ (10 = 0 ∨ now ≤ 10)%N)%nat.
Proof.
  apply (Pairing.pairing_confirms_at_most_once qr_sample
    [Pairing.Confirm 3 "wrong"; Pairing.Confirm 4 "n"; Pairing.Confirm 5 "n"] 1 1); reflexivity.
Defined.
