(* ===== verification/LeaseTypes.v ===== *)
(** * The lease vocabulary ([everyaios-types/src/workbench.rs])

    Access classes, lease states, typed resource keys, owner tuples, the lease
    record with its safe projection, and the durable facts with their envelope
    form. Ids are the strings they wrap. *)
From S2P Require Import Order Prelude Json.

(** ** Event kinds and the secret tripwire *)

(* SRC types/src/workbench.rs @const:LEASE_EVENT_ACQUIRED LEASE_EVENT_ACQUIRED *)
Definition LEASE_EVENT_ACQUIRED : string := "lease.acquired".
Definition LEASE_EVENT_RENEWED : string := "lease.renewed".
Definition LEASE_EVENT_RELEASED : string := "lease.released".
Definition LEASE_EVENT_REVOKED : string := "lease.revoked".
Definition LEASE_EVENT_EXPIRED : string := "lease.expired".
Definition LEASE_EVENT_RECLAIM_PENDING : string := "lease.reclaim_pending".
Definition LEASE_EVENT_RECLAIMED : string := "lease.reclaimed".
Definition LEASE_EVENT_UNCERTAIN : string := "lease.uncertain".
Definition LEASE_EVENT_ACTOR_REVALIDATED : string := "lease.actor_revalidated".

(* SRC types/src/workbench.rs 31 52 LEASE_EVENT_KINDS *)
Definition LEASE_EVENT_KINDS : list string :=
  [LEASE_EVENT_ACQUIRED; LEASE_EVENT_RENEWED; LEASE_EVENT_RELEASED; LEASE_EVENT_REVOKED;
   LEASE_EVENT_EXPIRED; LEASE_EVENT_RECLAIM_PENDING; LEASE_EVENT_RECLAIMED; LEASE_EVENT_UNCERTAIN;
   LEASE_EVENT_ACTOR_REVALIDATED].

(* SRC types/src/workbench.rs 54 69 FORBIDDEN_PROJECTION_KEYS *)
Definition FORBIDDEN_PROJECTION_KEYS : list string :=
  ["bearer"; "token"; "cookie"; "secret"; "credential"; "password"; "api_key"; "apikey";
   "private_key"; "session_key"].

(* SRC types/src/workbench.rs @fn:projection_json_has_no_secrets projection_json_has_no_secrets *)
Definition projection_json_has_no_secrets (rendered : string) : bool :=
  let lower := to_ascii_lowercase rendered in
  forallb (λ key, negb (contains key lower)) FORBIDDEN_PROJECTION_KEYS.

(** ** Access classes *)

(* SRC types/src/workbench.rs @enum:LeaseAccess LeaseAccess *)
Inductive LeaseAccess := LObserve | LView | LEdit | LAction | LControl.

#[export] Instance lease_access_eq_dec : EqDecision LeaseAccess.
Proof. solve_decision. Defined.

(* SRC types/src/workbench.rs 96 106 LeaseAccess::as_str *)
Definition access_as_str (a : LeaseAccess) : string :=
  match a with
  | LObserve => "observe" | LView => "view" | LEdit => "edit" | LAction => "action"
  | LControl => "control"
  end.

(** The parsers are matches on the spelling: the first listed one that fits. *)
Definition parse_spelling {A} (table : list (string * A)) (s : string) : option A :=
  snd <$> List.find (λ e, String.eqb e.1 s) table.

(* SRC types/src/workbench.rs 108 119 LeaseAccess::parse *)
Definition access_parse : string → option LeaseAccess :=
  parse_spelling [("observe", LObserve); ("view", LView); ("edit", LEdit); ("action", LAction);
                  ("control", LControl)].

(* SRC types/src/workbench.rs 121 124 LeaseAccess::is_observation *)
Definition is_observation (a : LeaseAccess) : bool :=
  match a with LObserve | LView => true | _ => false end.
(* SRC types/src/workbench.rs 126 129 LeaseAccess::is_exclusive *)
Definition is_exclusive (a : LeaseAccess) : bool := negb (is_observation a).
(* SRC types/src/workbench.rs 131 134 LeaseAccess::compatible_with *)
Definition compatible_with (a b : LeaseAccess) : bool := is_observation a && is_observation b.

(** ** Lease states *)

(* SRC types/src/workbench.rs @enum:LeaseState LeaseState *)
Inductive LeaseState :=
  LActive | LReleased | LExpired | LRevoked | LReclaimPending | LReclaimed | LUncertain.

#[export] Instance lease_state_eq_dec : EqDecision LeaseState.
Proof. solve_decision. Defined.

(* SRC types/src/workbench.rs 156 166 LeaseState::as_str *)
Definition lease_state_as_str (s : LeaseState) : string :=
  match s with
  | LActive => "active" | LReleased => "released" | LExpired => "expired" | LRevoked => "revoked"
  | LReclaimPending => "reclaim_pending" | LReclaimed => "reclaimed" | LUncertain => "uncertain"
  end.

(* SRC types/src/workbench.rs 168 180 LeaseState::parse *)
Definition lease_state_parse : string → option LeaseState :=
  parse_spelling [("active", LActive); ("released", LReleased); ("expired", LExpired);
    ("revoked", LRevoked); ("reclaim_pending", LReclaimPending); ("reclaimed", LReclaimed);
    ("uncertain", LUncertain)].

(* SRC types/src/workbench.rs 182 186 LeaseState::is_live *)
Definition lease_state_is_live (s : LeaseState) : bool :=
  match s with LActive => true | _ => false end.
(* SRC types/src/workbench.rs 188 194 LeaseState::is_terminal *)
Definition lease_state_is_terminal (s : LeaseState) : bool :=
  match s with LReleased | LExpired | LRevoked | LReclaimed => true | _ => false end.

(* SRC types/src/workbench.rs 196 227 LeaseState::can_transition *)
Definition lease_can_transition (self next : LeaseState) : bool :=
  if bool_decide (self = next) then true
  else if lease_state_is_terminal self then false
  else match self with
  | LActive =>
      match next with
      | LReleased | LExpired | LRevoked | LReclaimPending | LUncertain => true | _ => false
      end
  | LReclaimPending => match next with LReclaimed | LUncertain | LRevoked => true | _ => false end
  | LUncertain => match next with LReclaimed | LActive | LRevoked | LExpired => true | _ => false end
  | LReleased | LExpired | LRevoked | LReclaimed => false
  end.

(** ** Resources and owners *)

(* SRC types/src/workbench.rs @enum:ResourceKind ResourceKind *)
Inductive ResourceKind :=
  RkFile | RkOfficeDocument | RkBrowserTab | RkBrowserProfile | RkDesktopTarget | RkProviderHandle
  | RkOther.

#[export] Instance resource_kind_eq_dec : EqDecision ResourceKind.
Proof. solve_decision. Defined.

(* SRC types/src/workbench.rs 257 267 ResourceKind::as_str *)
Definition resource_kind_as_str (k : ResourceKind) : string :=
  match k with
  | RkFile => "file" | RkOfficeDocument => "office_document" | RkBrowserTab => "browser_tab"
  | RkBrowserProfile => "browser_profile" | RkDesktopTarget => "desktop_target"
  | RkProviderHandle => "provider_handle" | RkOther => "other"
  end.

(* SRC types/src/workbench.rs 269 280 ResourceKind::parse *)
Definition resource_kind_parse : string → option ResourceKind :=
  parse_spelling [("file", RkFile); ("office_document", RkOfficeDocument);
    ("browser_tab", RkBrowserTab); ("browser_profile", RkBrowserProfile);
    ("desktop_target", RkDesktopTarget); ("provider_handle", RkProviderHandle); ("other", RkOther)].

(* SRC types/src/workbench.rs @struct:TypedResourceKey TypedResourceKey *)
Record TypedResourceKey := { rk_kind : ResourceKind; rk_stable_id : string; rk_generation : N }.

#[export] Instance typed_resource_key_eq_dec : EqDecision TypedResourceKey.
Proof. solve_decision. Defined.

(* SRC types/src/workbench.rs 306 311 TypedResourceKey::canonical_key *)
Definition canonical_key (k : TypedResourceKey) : string :=
  resource_kind_as_str (rk_kind k) +:+ ":" +:+ rk_stable_id k.

(* SRC types/src/workbench.rs 313 318 TypedResourceKey::validate *)
Definition resource_validate (k : TypedResourceKey) : result unit string :=
  if is_empty (rk_stable_id k) then Err "resource stable_id must not be empty" else Ok tt.

(* SRC types/src/workbench.rs @struct:OwnerContext OwnerContext *)
Record OwnerContext := {
  ow_session_id : string;
  ow_work_id : string;
  ow_run_id : string;
  ow_binding_id : string
}.

#[export] Instance owner_context_eq_dec : EqDecision OwnerContext.
Proof. solve_decision. Defined.

(* SRC types/src/workbench.rs 406 420 OwnerContext::validate *)
Definition owner_validate (o : OwnerContext) : result unit string :=
  if is_empty (ow_session_id o) then Err "owner session_id must not be empty"
  else if is_empty (ow_work_id o) then Err "owner work_id must not be empty"
  else if is_empty (ow_run_id o) then Err "owner run_id must not be empty"
  else if is_empty (ow_binding_id o) then Err "owner binding_id must not be empty"
  else Ok tt.

(** ** Leases and their safe projection *)

(* SRC types/src/workbench.rs @struct:ResourceLease ResourceLease *)
Record ResourceLease := {
  rl_lease_id : string;
  rl_resource : TypedResourceKey;
  rl_owner_work_id : string;
  rl_owner_run_id : string;
  rl_actor_binding_id : string;
  rl_session_scope : string;
  rl_access : LeaseAccess;
  rl_resource_generation : N;
  rl_fence : N;
  rl_scope_fingerprint : string;
  rl_state : LeaseState;
  rl_issued_at_ms : N;
  rl_expires_at_ms : N;
  rl_last_heartbeat_ms : N
}.

(* SRC types/src/workbench.rs 463 487 ResourceLease::validate *)
Definition lease_validate (l : ResourceLease) : result unit string :=
  if is_empty (rl_lease_id l) then Err "lease_id must not be empty"
  else
    _ <-? resource_validate (rl_resource l);;
    if is_empty (rl_owner_work_id l) || is_empty (rl_owner_run_id l) then
      Err "lease Work/Run owner must not be empty"
    else if is_empty (rl_actor_binding_id l) then Err "lease actor binding must not be empty"
    else if is_empty (rl_session_scope l) then Err "lease session_scope must not be empty"
    else if (rl_fence l =? 0)%N then Err "lease fence must be a positive monotonic value"
    else if (rl_expires_at_ms l <=? rl_issued_at_ms l)%N then
      Err "lease lifetime must be bounded: expires_at must exceed issued_at"
    else if (rl_last_heartbeat_ms l <? rl_issued_at_ms l)%N then
      Err "lease heartbeat must not predate issue"
    else Ok tt.

(* SRC types/src/workbench.rs @struct:LeaseAttachment LeaseAttachment *)
Record LeaseAttachment := {
  la_lease_id : string;
  la_session_scope : string;
  la_resource_key : string;
  la_generation : N;
  la_fence : N;
  la_state : LeaseState
}.

#[export] Instance lease_attachment_eq_dec : EqDecision LeaseAttachment.
Proof. solve_decision. Defined.

(* SRC types/src/workbench.rs 495 506 ResourceLease::attachment *)
Definition attachment (l : ResourceLease) : LeaseAttachment :=
  {| la_lease_id := rl_lease_id l; la_session_scope := rl_session_scope l;
     la_resource_key := canonical_key (rl_resource l); la_generation := rl_resource_generation l;
     la_fence := rl_fence l; la_state := rl_state l |}.

(** ** Post-effect outcomes *)

(* SRC types/src/workbench.rs @enum:PostEffectOutcome PostEffectOutcome *)
Inductive PostEffectOutcome := PoSuccess | PoFailed | PoCancelled | PoUncertain.

#[export] Instance post_effect_eq_dec : EqDecision PostEffectOutcome.
Proof. solve_decision. Defined.

(* SRC types/src/workbench.rs 679 686 PostEffectOutcome::as_str *)
Definition outcome_as_str (o : PostEffectOutcome) : string :=
  match o with
  | PoSuccess => "success" | PoFailed => "failed" | PoCancelled => "cancelled"
  | PoUncertain => "uncertain"
  end.

(* SRC types/src/workbench.rs 688 698 PostEffectOutcome::parse *)
Definition outcome_parse : string → option PostEffectOutcome :=
  parse_spelling [("success", PoSuccess); ("succeeded", PoSuccess); ("failed", PoFailed);
    ("failure", PoFailed); ("cancelled", PoCancelled); ("canceled", PoCancelled);
    ("uncertain", PoUncertain); ("unknown", PoUncertain)].

(* SRC types/src/workbench.rs 700 709 PostEffectOutcome::from_observation *)
Definition outcome_from_observation (observed_success : option bool) : PostEffectOutcome :=
  match observed_success with
  | Some true => PoSuccess | Some false => PoFailed | None => PoUncertain
  end.

(* SRC types/src/workbench.rs 711 713 PostEffectOutcome::is_settled *)
Definition is_settled (o : PostEffectOutcome) : bool :=
  match o with PoUncertain => false | _ => true end.

(** ** Lifecycle facts *)

(* SRC types/src/workbench.rs @struct:LeaseLifecycleFact LeaseLifecycleFact *)
Record LeaseLifecycleFact := {
  lf_lease_id : string;
  lf_kind : string;
  lf_fence : N;
  lf_generation : N;
  lf_at_ms : N;
  lf_detail : option string;
  lf_access : option LeaseAccess;
  lf_owner : option OwnerContext;
  lf_resource : option TypedResourceKey;
  lf_scope_fingerprint : option string
}.

#[export] Instance lease_fact_eq_dec : EqDecision LeaseLifecycleFact.
Proof. solve_decision. Defined.

(* SRC types/src/workbench.rs 1085 1104 LeaseLifecycleFact::new *)
Definition fact_new (lease_id kind : string) (fence generation at_ms : N) : LeaseLifecycleFact :=
  {| lf_lease_id := lease_id; lf_kind := kind; lf_fence := fence; lf_generation := generation;
     lf_at_ms := at_ms; lf_detail := None; lf_access := None; lf_owner := None;
     lf_resource := None; lf_scope_fingerprint := None |}.

(* SRC types/src/workbench.rs 1106 1109 LeaseLifecycleFact::with_detail *)
Definition fact_with_detail (detail : string) (f : LeaseLifecycleFact) : LeaseLifecycleFact :=
  {| lf_lease_id := lf_lease_id f; lf_kind := lf_kind f; lf_fence := lf_fence f;
     lf_generation := lf_generation f; lf_at_ms := lf_at_ms f; lf_detail := Some detail;
     lf_access := lf_access f; lf_owner := lf_owner f; lf_resource := lf_resource f;
     lf_scope_fingerprint := lf_scope_fingerprint f |}.

(* SRC types/src/workbench.rs 1111 1124 LeaseLifecycleFact::with_acquire_context *)
Definition with_acquire_context (access : LeaseAccess) (owner : OwnerContext)
    (resource : TypedResourceKey) (scope : string) (f : LeaseLifecycleFact) : LeaseLifecycleFact :=
  {| lf_lease_id := lf_lease_id f; lf_kind := lf_kind f; lf_fence := lf_fence f;
     lf_generation := lf_generation f; lf_at_ms := lf_at_ms f; lf_detail := lf_detail f;
     lf_access := Some access; lf_owner := Some owner; lf_resource := Some resource;
     lf_scope_fingerprint := Some scope |}.

(** [serde_json::to_string] of a fact. *)
Class RenderFact := { render_fact : LeaseLifecycleFact → string }.

(** A rendering to evaluate with: the text fields, one after the other. *)
Definition plain_render : RenderFact := {|
  render_fact f :=
    sconcat (lf_lease_id f :: lf_kind f :: default "" (lf_detail f) ::
      match lf_owner f with
      | Some o => [ow_session_id o; ow_work_id o; ow_run_id o; ow_binding_id o] | None => [] end ++
      match lf_resource f with Some r => [rk_stable_id r] | None => [] end ++
      [default "" (lf_scope_fingerprint f)]) |}.

(* SRC types/src/workbench.rs 1126 1150 LeaseLifecycleFact::validate *)
Definition fact_validate `{RenderFact} (f : LeaseLifecycleFact) : result unit string :=
  if is_empty (lf_lease_id f) then Err "lease fact id must not be empty"
  else if negb (existsb (String.eqb (lf_kind f)) LEASE_EVENT_KINDS) then
    Err ("unknown lease fact kind `" +:+ lf_kind f +:+ "`")
  else if (lf_fence f =? 0)%N then Err "lease fact fence must be positive"
  else
    let in_detail :=
      match lf_detail f with
      | Some detail =>
          List.find (λ key, contains key (to_ascii_lowercase detail)) FORBIDDEN_PROJECTION_KEYS
      | None => None
      end in
    match in_detail with
    | Some key => Err ("lease fact detail must not carry secret-shaped key `" +:+ key +:+ "`")
    | None =>
        if negb (projection_json_has_no_secrets (render_fact f)) then
          Err "lease fact must not carry secret-shaped keys"
        else Ok tt
    end.

(* SRC types/src/workbench.rs 1239 1253 LeaseLifecycleFact::records_state *)
Definition records_state (f : LeaseLifecycleFact) : option LeaseState :=
  parse_spelling
    [(LEASE_EVENT_ACQUIRED, LActive); (LEASE_EVENT_RENEWED, LActive);
     (LEASE_EVENT_ACTOR_REVALIDATED, LActive); (LEASE_EVENT_RELEASED, LReleased);
     (LEASE_EVENT_REVOKED, LRevoked); (LEASE_EVENT_EXPIRED, LExpired);
     (LEASE_EVENT_RECLAIM_PENDING, LReclaimPending); (LEASE_EVENT_RECLAIMED, LReclaimed);
     (LEASE_EVENT_UNCERTAIN, LUncertain)] (lf_kind f).

(** [payload["k"] = v] on an object. *)
Definition set_field (k : string) (o : option Value) (m : list (string * Value)) : list (string * Value) :=
  match o with Some v => obj_insert k v m | None => m end.

Definition owner_json (o : OwnerContext) : Value :=
  json_object [("session_id", JString (ow_session_id o)); ("work_id", JString (ow_work_id o));
    ("run_id", JString (ow_run_id o)); ("binding_id", JString (ow_binding_id o))].

Definition resource_json (r : TypedResourceKey) : Value :=
  json_object [("kind", JString (resource_kind_as_str (rk_kind r)));
    ("stable_id", JString (rk_stable_id r)); ("generation", json_u64 (rk_generation r))].

(* SRC types/src/workbench.rs 1203 1237 LeaseLifecycleFact::envelope_payload *)
Definition envelope_payload (f : LeaseLifecycleFact) : Value :=
  let m := match json_object [("lease_id", JString (lf_lease_id f)); ("fence", json_u64 (lf_fence f));
             ("generation", json_u64 (lf_generation f)); ("at_ms", json_u64 (lf_at_ms f))]
           with JObject m => m | _ => [] end in
  let m := set_field "detail" (JString <$> lf_detail f) m in
  let m := set_field "access" ((λ a, JString (access_as_str a)) <$> lf_access f) m in
  let m := set_field "owner" (owner_json <$> lf_owner f) m in
  let m := set_field "resource" (resource_json <$> lf_resource f) m in
  let m := set_field "scope_fingerprint" (JString <$> lf_scope_fingerprint f) m in
  JObject m.

Definition get_str (k : string) (v : Value) : option string := json_get k v ≫= as_str.
Definition get_u64 (k : string) (v : Value) : option N := json_get k v ≫= as_u64.

Definition parse_owner (payload : Value) : option OwnerContext :=
  o ← json_get "owner" payload;
  s ← get_str "session_id" o;
  w ← get_str "work_id" o;
  r ← get_str "run_id" o;
  b ← get_str "binding_id" o;
  Some {| ow_session_id := s; ow_work_id := w; ow_run_id := r; ow_binding_id := b |}.

Definition parse_resource (payload : Value) : option TypedResourceKey :=
  r ← json_get "resource" payload;
  k ← get_str "kind" r;
  kind ← resource_kind_parse k;
  id ← get_str "stable_id" r;
  Some {| rk_kind := kind; rk_stable_id := id; rk_generation := default 0%N (get_u64 "generation" r) |}.

(* SRC types/src/workbench.rs 1152 1201 LeaseLifecycleFact::from_envelope *)
Definition from_envelope (kind : string) (payload : Value) : option LeaseLifecycleFact :=
  if negb (existsb (String.eqb kind) LEASE_EVENT_KINDS) then None
  else
    lease_id ← get_str "lease_id" payload;
    fence ← get_u64 "fence" payload;
    Some {| lf_lease_id := lease_id; lf_kind := kind; lf_fence := fence;
            lf_generation := default 0%N (get_u64 "generation" payload);
            lf_at_ms := default 0%N (get_u64 "at_ms" payload);
            lf_detail := get_str "detail" payload;
            lf_access := get_str "access" payload ≫= access_parse;
            lf_owner := parse_owner payload;
            lf_resource := parse_resource payload;
            lf_scope_fingerprint := get_str "scope_fingerprint" payload |}.

(** ** Spellings *)

(** A table whose spellings parse back to what they stand for. *)
Class Spelling A := { spell : A → string; unspell : string → option A }.
Class SpellingLaws A `{Spelling A} : Prop := { unspell_spell a : unspell (spell a) = Some a }.

#[export] Instance access_spelling : Spelling LeaseAccess := {| spell := access_as_str; unspell := access_parse |}.
#[export] Instance state_spelling : Spelling LeaseState := {| spell := lease_state_as_str; unspell := lease_state_parse |}.
#[export] Instance kind_spelling : Spelling ResourceKind := {| spell := resource_kind_as_str; unspell := resource_kind_parse |}.
#[export] Instance outcome_spelling : Spelling PostEffectOutcome := {| spell := outcome_as_str; unspell := outcome_parse |}.

#[export] Instance access_spelling_laws : SpellingLaws LeaseAccess.
Proof. constructor. by intros []. Qed.
#[export] Instance state_spelling_laws : SpellingLaws LeaseState.
Proof. constructor. by intros []. Qed.
#[export] Instance kind_spelling_laws : SpellingLaws ResourceKind.
Proof. constructor. by intros []. Qed.
#[export] Instance outcome_spelling_laws : SpellingLaws PostEffectOutcome.
Proof. constructor. by intros []. Qed.

Lemma spell_inj {A} `{SpellingLaws A} (a b : A) : spell a = spell b → a = b.
Proof. intros Heq. pose proof (unspell_spell a) as Ha. rewrite Heq, unspell_spell in Ha. congruence. Qed.

Lemma parse_spelling_In {A} (table : list (string * A)) s a :
  parse_spelling table s = Some a → (s, a) ∈ table.
Proof.
  unfold parse_spelling. destruct (List.find _ table) as [[s' a']|] eqn:E; [|done].
  intros [= <-]. apply find_some in E as [Hin Heq]. apply String.eqb_eq in Heq. simpl in Heq. subst.
  by apply list_elem_of_In.
Qed.

(** ** Facts survive the envelope *)

Lemma json_get_object k es :
  json_get k (json_object es) = foldl (λ o e, if String.eqb e.1 k then Some e.2 else o) None es.
Proof.
  unfold json_object. simpl.
  assert (H : ∀ m, obj_get k (foldl (λ m e, obj_insert e.1 e.2 m) m es) =
    foldl (λ o e, if String.eqb e.1 k then Some e.2 else o) (obj_get k m) es); [|apply H].
  induction es as [|[k' v] es IH]; intros m; simpl; [done|]. by rewrite IH, obj_get_insert.
Qed.

Lemma obj_get_set_field k k' o m :
  obj_get k (set_field k' o m) =
  if String.eqb k' k then match o with Some v => Some v | None => obj_get k m end else obj_get k m.
Proof. destruct o as [v|]; simpl; [apply obj_get_insert | by destruct (String.eqb k' k)]. Qed.

Lemma parse_owner_json o : parse_owner (JObject [("owner", owner_json o)]) = Some o.
Proof. by destruct o. Qed.

Lemma parse_resource_json r : parse_resource (JObject [("resource", resource_json r)]) = Some r.
Proof. destruct r as [k i g]. unfold parse_resource. by destruct k. Qed.

(** A lease fact of a known kind read back from the envelope payload it
    was written as is the same fact, whatever optional context it carries. *)
Theorem lease_fact_round_trips (f : LeaseLifecycleFact) :
  lf_kind f ∈ LEASE_EVENT_KINDS → from_envelope (lf_kind f) (envelope_payload f) = Some f.
Proof.
  intros Hk. unfold from_envelope.
  assert (Hex : existsb (String.eqb (lf_kind f)) LEASE_EVENT_KINDS = true).
  { apply existsb_exists. exists (lf_kind f). by rewrite <- list_elem_of_In, String.eqb_refl. }
  rewrite Hex. simpl negb. cbv iota. destruct f as [id kind fence gen at_ms detail access owner resource scope].
  assert (Hg : ∀ k, json_get k (envelope_payload (Build_LeaseLifecycleFact id kind fence gen at_ms detail
      access owner resource scope)) =
    if String.eqb "scope_fingerprint" k then JString <$> scope
    else if String.eqb "resource" k then resource_json <$> resource
    else if String.eqb "owner" k then owner_json <$> owner
    else if String.eqb "access" k then (λ a, JString (access_as_str a)) <$> access
    else if String.eqb "detail" k then JString <$> detail
    else json_get k (json_object [("lease_id", JString id); ("fence", json_u64 fence);
      ("generation", json_u64 gen); ("at_ms", json_u64 at_ms)])).
  { intros k. unfold envelope_payload. cbn [json_get lf_scope_fingerprint lf_resource lf_owner lf_access
      lf_detail lf_lease_id lf_fence lf_generation lf_at_ms].
    rewrite !obj_get_set_field.
    destruct (String.eqb_spec "scope_fingerprint" k) as [<-|]; [by destruct scope|].
    destruct (String.eqb_spec "resource" k) as [<-|]; [by destruct resource|].
    destruct (String.eqb_spec "owner" k) as [<-|]; [by destruct owner|].
    destruct (String.eqb_spec "access" k) as [<-|]; [by destruct access|].
    destruct (String.eqb_spec "detail" k) as [<-|]; [by destruct detail|]. done. }
  unfold get_str, get_u64, parse_owner, parse_resource, get_str, get_u64. rewrite !Hg, !json_get_object.
  assert (Hac : (((λ a, JString (access_as_str a)) <$> access) ≫= as_str) ≫= access_parse = access)
    by (by destruct access as [[]|]).
  assert (Hd : ∀ o : option string, (JString <$> o) ≫= as_str = o) by (by intros []).
  pose proof parse_owner_json as Ho. pose proof parse_resource_json as Hr.
  simpl. rewrite !Hd. f_equal. f_equal.
  - exact Hac.
  - destruct owner as [o|]; [apply (Ho o) | done].
  - destruct resource as [r|]; [apply (Hr r) | done].
Qed.

Definition fact_sample : LeaseLifecycleFact :=
  with_acquire_context LEdit
    {| ow_session_id := "s"; ow_work_id := "w"; ow_run_id := "r"; ow_binding_id := "b" |}
    {| rk_kind := RkFile; rk_stable_id := "/a"; rk_generation := 3 |} "scope"
    (fact_with_detail "d" (fact_new "lease-1-1" LEASE_EVENT_ACQUIRED 1 3 7)).

Lemma lease_fact_round_trips_witness :
  from_envelope LEASE_EVENT_ACQUIRED (envelope_payload fact_sample) = Some fact_sample.
Proof. apply (lease_fact_round_trips fact_sample). apply (bool_decide_unpack _). vm_compute. exact I. Defined.
