(* ===== verification/Lease.v ===== *)
(** * Work/Run-owned leases ([everyaios-core/src/workbench.rs])

    [WorkRunLeaseCoordinator]: lease records, the monotonic fence of each
    resource, handles and bearers. Every method that mutates [self] returns
    its answer with the new coordinator, on the error paths too. The clock, the
    random bearer, the iteration order of a hash map ([Order.v]) and the JSON text of a
    fact are arguments or interfaces. *)
From S2P Require Import Order Prelude Json LeaseTypes.

(** ** Data *)

(* SRC core/src/workbench.rs @enum:LeaseError LeaseError *)
Inductive LeaseError :=
  | Conflict (resource_key access holder : string)
  | StaleResource (resource_key : string) (observed current : N)
  | StaleLease (lease_id : string) (fence current : N)
  | UnknownLease (lease_id : string)
  | UnknownHandle
  | BearerMismatch (lease_id : string)
  | NotActive (lease_id state : string)
  | WrongBinding (lease_id : string)
  | HolderNotLive (lease_id : string)
  | LeaseExpired (lease_id : string)
  | MustReconcileFirst (lease_id : string)
  | HolderMayBeLive (lease_id : string)
  | StaleFact (lease_id : string) (fence current : N)
  | InvalidRequest (reason : string).

(** A bearer is its 32 random bytes; [matches] folds their differences. *)
Definition LeaseBearer : Type := string.

Fixpoint byte_diff (a b : string) : bool :=
  match a, b with
  | String x a', String y b' => negb (Ascii.eqb x y) || byte_diff a' b'
  | _, _ => false
  end.
(* SRC core/src/workbench.rs @fn:matches LeaseBearer::matches *)
Definition bearer_matches (a b : LeaseBearer) : bool := negb (byte_diff a b).

(* SRC core/src/workbench.rs @struct:LeaseRecord LeaseRecord *)
Record LeaseRecord := {
  lr_lease : ResourceLease;
  lr_bearer : LeaseBearer;
  lr_holder_live : bool;
  lr_ttl_ms : N
}.

(* SRC core/src/workbench.rs @struct:AcquiredLease AcquiredLease *)
Record AcquiredLease := {
  aq_handle : N;
  aq_bearer : LeaseBearer;
  aq_attachment : LeaseAttachment;
  aq_fact : LeaseLifecycleFact
}.

(* SRC core/src/workbench.rs @struct:TakeoverOutcome TakeoverOutcome *)
Record TakeoverOutcome := {
  to_handle : N;
  to_bearer : LeaseBearer;
  to_attachment : LeaseAttachment;
  to_facts : list LeaseLifecycleFact
}.

(* SRC core/src/workbench.rs @enum:ReconcileOutcome ReconcileOutcome *)
Inductive ReconcileOutcome :=
  | AdvancedToReclaim (fact : LeaseLifecycleFact)
  | StillUncertain.

(* SRC core/src/workbench.rs @struct:WorkRunLeaseCoordinator WorkRunLeaseCoordinator *)
Record Coordinator := {
  leases : gmap string LeaseRecord;
  handle_index : gmap N string;
  fences : gmap string N;
  generations : gmap string N;
  provider_generations : gmap string N;
  session_attachments : gmap string (list string);
  next_handle : N;
  next_lease_seq : N
}.

(* SRC core/src/workbench.rs 305 316 WorkRunLeaseCoordinator::new *)
Definition coordinator_new : Coordinator :=
  {| leases := ∅; handle_index := ∅; fences := ∅; generations := ∅; provider_generations := ∅;
     session_attachments := ∅; next_handle := 1; next_lease_seq := 1 |}.

(** Field updates. *)
Definition set_leases (m : gmap string LeaseRecord) (c : Coordinator) : Coordinator :=
  {| leases := m; handle_index := handle_index c; fences := fences c; generations := generations c;
     provider_generations := provider_generations c; session_attachments := session_attachments c;
     next_handle := next_handle c; next_lease_seq := next_lease_seq c |}.
Definition set_fences (m : gmap string N) (c : Coordinator) : Coordinator :=
  {| leases := leases c; handle_index := handle_index c; fences := m; generations := generations c;
     provider_generations := provider_generations c; session_attachments := session_attachments c;
     next_handle := next_handle c; next_lease_seq := next_lease_seq c |}.
Definition set_generations (m : gmap string N) (c : Coordinator) : Coordinator :=
  {| leases := leases c; handle_index := handle_index c; fences := fences c; generations := m;
     provider_generations := provider_generations c; session_attachments := session_attachments c;
     next_handle := next_handle c; next_lease_seq := next_lease_seq c |}.
Definition set_provider_generations (m : gmap string N) (c : Coordinator) : Coordinator :=
  {| leases := leases c; handle_index := handle_index c; fences := fences c;
     generations := generations c; provider_generations := m;
     session_attachments := session_attachments c; next_handle := next_handle c;
     next_lease_seq := next_lease_seq c |}.
Definition set_attachments (m : gmap string (list string)) (c : Coordinator) : Coordinator :=
  {| leases := leases c; handle_index := handle_index c; fences := fences c;
     generations := generations c; provider_generations := provider_generations c;
     session_attachments := m; next_handle := next_handle c; next_lease_seq := next_lease_seq c |}.

Definition with_state (s : LeaseState) (l : ResourceLease) : ResourceLease :=
  {| rl_lease_id := rl_lease_id l; rl_resource := rl_resource l; rl_owner_work_id := rl_owner_work_id l;
     rl_owner_run_id := rl_owner_run_id l; rl_actor_binding_id := rl_actor_binding_id l;
     rl_session_scope := rl_session_scope l; rl_access := rl_access l;
     rl_resource_generation := rl_resource_generation l; rl_fence := rl_fence l;
     rl_scope_fingerprint := rl_scope_fingerprint l; rl_state := s;
     rl_issued_at_ms := rl_issued_at_ms l; rl_expires_at_ms := rl_expires_at_ms l;
     rl_last_heartbeat_ms := rl_last_heartbeat_ms l |}.
Definition with_times (expires heartbeat : N) (l : ResourceLease) : ResourceLease :=
  {| rl_lease_id := rl_lease_id l; rl_resource := rl_resource l; rl_owner_work_id := rl_owner_work_id l;
     rl_owner_run_id := rl_owner_run_id l; rl_actor_binding_id := rl_actor_binding_id l;
     rl_session_scope := rl_session_scope l; rl_access := rl_access l;
     rl_resource_generation := rl_resource_generation l; rl_fence := rl_fence l;
     rl_scope_fingerprint := rl_scope_fingerprint l; rl_state := rl_state l;
     rl_issued_at_ms := rl_issued_at_ms l; rl_expires_at_ms := expires;
     rl_last_heartbeat_ms := heartbeat |}.
Definition with_actor (b : string) (l : ResourceLease) : ResourceLease :=
  {| rl_lease_id := rl_lease_id l; rl_resource := rl_resource l; rl_owner_work_id := rl_owner_work_id l;
     rl_owner_run_id := rl_owner_run_id l; rl_actor_binding_id := b;
     rl_session_scope := rl_session_scope l; rl_access := rl_access l;
     rl_resource_generation := rl_resource_generation l; rl_fence := rl_fence l;
     rl_scope_fingerprint := rl_scope_fingerprint l; rl_state := rl_state l;
     rl_issued_at_ms := rl_issued_at_ms l; rl_expires_at_ms := rl_expires_at_ms l;
     rl_last_heartbeat_ms := rl_last_heartbeat_ms l |}.
Definition with_fence (f : N) (l : ResourceLease) : ResourceLease :=
  {| rl_lease_id := rl_lease_id l; rl_resource := rl_resource l; rl_owner_work_id := rl_owner_work_id l;
     rl_owner_run_id := rl_owner_run_id l; rl_actor_binding_id := rl_actor_binding_id l;
     rl_session_scope := rl_session_scope l; rl_access := rl_access l;
     rl_resource_generation := rl_resource_generation l; rl_fence := f;
     rl_scope_fingerprint := rl_scope_fingerprint l; rl_state := rl_state l;
     rl_issued_at_ms := rl_issued_at_ms l; rl_expires_at_ms := rl_expires_at_ms l;
     rl_last_heartbeat_ms := rl_last_heartbeat_ms l |}.

Definition set_lease (l : ResourceLease) (r : LeaseRecord) : LeaseRecord :=
  {| lr_lease := l; lr_bearer := lr_bearer r; lr_holder_live := lr_holder_live r;
     lr_ttl_ms := lr_ttl_ms r |}.
(** [record.lease.state = s; record.holder_live = false]. *)
Definition drop_holder (s : LeaseState) (r : LeaseRecord) : LeaseRecord :=
  {| lr_lease := with_state s (lr_lease r); lr_bearer := lr_bearer r; lr_holder_live := false;
     lr_ttl_ms := lr_ttl_ms r |}.

Definition record_key (r : LeaseRecord) : string := canonical_key (rl_resource (lr_lease r)).
Definition fence_of (canonical : string) (c : Coordinator) : N := default 0%N (fences c !! canonical).

(** ** Lookups *)

(* SRC core/src/workbench.rs @fn:current_fence WorkRunLeaseCoordinator::current_fence *)
Definition current_fence (k : TypedResourceKey) (c : Coordinator) : N := fence_of (canonical_key k) c.
(* SRC core/src/workbench.rs @fn:current_generation WorkRunLeaseCoordinator::current_generation *)
Definition current_generation (k : TypedResourceKey) (c : Coordinator) : option N :=
  generations c !! canonical_key k.
(* SRC core/src/workbench.rs @fn:provider_generation WorkRunLeaseCoordinator::provider_generation *)
Definition provider_generation (b : string) (c : Coordinator) : N :=
  default 0%N (provider_generations c !! b).
(* SRC core/src/workbench.rs @fn:attachment_for WorkRunLeaseCoordinator::attachment_for *)
Definition attachment_for (id : string) (c : Coordinator) : option LeaseAttachment :=
  (λ r, attachment (lr_lease r)) <$> leases c !! id.
(* SRC core/src/workbench.rs @fn:attachments_for WorkRunLeaseCoordinator::attachments_for *)
Definition attachments_for (session_id : string) (c : Coordinator) : list LeaseAttachment :=
  match session_attachments c !! session_id with
  | Some ids => omap (λ id, attachment_for id c) ids
  | None => []
  end.
(* SRC core/src/workbench.rs @fn:lease_state WorkRunLeaseCoordinator::lease_state *)
Definition lease_state (id : string) (c : Coordinator) : option LeaseState :=
  (λ r, rl_state (lr_lease r)) <$> leases c !! id.
(* SRC core/src/workbench.rs @fn:note_resource_generation WorkRunLeaseCoordinator::note_resource_generation *)
Definition note_resource_generation (k : TypedResourceKey) (g : N) (c : Coordinator) : Coordinator :=
  set_generations (<[canonical_key k := g]> (generations c)) c.
(* SRC core/src/workbench.rs @fn:detach_session WorkRunLeaseCoordinator::detach_session *)
Definition detach_session (session_id : string) (c : Coordinator) : nat * Coordinator :=
  (length (default [] (session_attachments c !! session_id)),
   set_attachments (delete session_id (session_attachments c)) c).

Section coordinator.
Context `{RenderFact} `{HashIter}.

(* SRC core/src/workbench.rs @fn:lease_id_for_resource WorkRunLeaseCoordinator::lease_id_for_resource *)
Definition lease_id_for_resource (canonical : string) (c : Coordinator) : option string :=
  (λ e, rl_lease_id (lr_lease e.2)) <$>
    List.find (λ e, String.eqb (record_key e.2) canonical) (map_iter (leases c)).

(** Live at [now]: active, holder believed alive, lifetime not over. *)
Definition record_live (now_ms : N) (r : LeaseRecord) : bool :=
  lease_state_is_live (rl_state (lr_lease r)) && lr_holder_live r &&
  (now_ms <=? rl_expires_at_ms (lr_lease r))%N.

(* SRC core/src/workbench.rs @fn:live_holders WorkRunLeaseCoordinator::live_holders *)
Definition live_holders (canonical : string) (now_ms : N) (c : Coordinator) : list LeaseRecord :=
  snd <$> List.filter (λ e, String.eqb (record_key e.2) canonical && record_live now_ms e.2)
    (map_iter (leases c)).

(* SRC core/src/workbench.rs @fn:mint_lease_id WorkRunLeaseCoordinator::mint_lease_id *)
Definition lease_id_of (now_ms seq : N) : string := "lease-" +:+ pretty now_ms +:+ "-" +:+ pretty seq.

Definition invalid {A} (r : result A string) : result A LeaseError :=
  match r with Ok a => Ok a | Err e => Err (InvalidRequest e) end.

(** The checks of [acquire] that touch nothing. *)
Definition acquire_request (owner : OwnerContext) (resource : TypedResourceKey) (scope : string)
    (observed ttl_ms : N) : result unit LeaseError :=
  _ <-? invalid (owner_validate owner);;
  _ <-? invalid (resource_validate resource);;
  if is_empty scope then Err (InvalidRequest "scope_fingerprint must not be empty")
  else if (ttl_ms =? 0)%N then Err (InvalidRequest "lease lifetime must be bounded and non-zero")
  else if negb (observed =? rk_generation resource)%N then
    Err (InvalidRequest ("observed generation " +:+ pretty observed +:+
      " disagrees with resource generation " +:+ pretty (rk_generation resource)))
  else Ok tt.

(* SRC core/src/workbench.rs 467 476 WorkRunLeaseCoordinator::acquire *)
Definition next_fence (access : LeaseAccess) (current : N) : N :=
  if is_exclusive access then u64_add current 1
  else if (current =? 0)%N then 1%N else current.

(* SRC core/src/workbench.rs 480 500 WorkRunLeaseCoordinator::acquire *)
Definition minted_lease (owner : OwnerContext) (resource : TypedResourceKey) (access : LeaseAccess)
    (scope : string) (observed now_ms ttl_ms fence seq : N) : ResourceLease :=
  {| rl_lease_id := lease_id_of now_ms seq;
     rl_resource := {| rk_kind := rk_kind resource; rk_stable_id := rk_stable_id resource;
                       rk_generation := observed |};
     rl_owner_work_id := ow_work_id owner; rl_owner_run_id := ow_run_id owner;
     rl_actor_binding_id := ow_binding_id owner; rl_session_scope := ow_session_id owner;
     rl_access := access; rl_resource_generation := observed; rl_fence := fence;
     rl_scope_fingerprint := scope; rl_state := LActive; rl_issued_at_ms := now_ms;
     rl_expires_at_ms := u64_add now_ms ttl_ms; rl_last_heartbeat_ms := now_ms |}.

Definition acquire_fact (owner : OwnerContext) (access : LeaseAccess) (scope : string)
    (observed now_ms fence : N) (l : ResourceLease) : LeaseLifecycleFact :=
  with_acquire_context access owner (rl_resource l) scope
    (fact_with_detail ("access=" +:+ access_as_str access +:+ " fence=" +:+ pretty fence +:+
                       " generation=" +:+ pretty observed)
      (fact_new (rl_lease_id l) LEASE_EVENT_ACQUIRED fence observed now_ms)).

(* SRC core/src/workbench.rs @fn:acquire WorkRunLeaseCoordinator::acquire *)
Definition acquire (owner : OwnerContext) (resource : TypedResourceKey) (access : LeaseAccess)
    (scope : string) (observed now_ms ttl_ms : N) (fresh : LeaseBearer) (c : Coordinator)
    : result AcquiredLease LeaseError * Coordinator :=
  match acquire_request owner resource scope observed ttl_ms with
  | Err e => (Err e, c)
  | Ok _ =>
    let canonical := canonical_key resource in
    let known := generations c !! canonical in
    if match known with Some current => negb (current =? observed)%N | None => false end then
      (Err (StaleResource canonical observed (default 0%N known)), c)
    else
    let c1 := match known with
              | Some _ => c
              | None => set_generations (<[canonical := observed]> (generations c)) c
              end in
    match List.find (λ h, negb (compatible_with access (rl_access (lr_lease h))))
            (live_holders canonical now_ms c1) with
    | Some blocker =>
        (Err (Conflict canonical (access_as_str access) (rl_lease_id (lr_lease blocker))), c1)
    | None =>
      let fence := next_fence access (fence_of canonical c1) in
      let seq := next_lease_seq c1 in
      let handle := next_handle c1 in
      let c2 := {| leases := leases c1; handle_index := handle_index c1;
                   fences := <[canonical := fence]> (fences c1); generations := generations c1;
                   provider_generations := provider_generations c1;
                   session_attachments := session_attachments c1;
                   next_handle := u64_add handle 1; next_lease_seq := u64_add seq 1 |} in
      let lease := minted_lease owner resource access scope observed now_ms ttl_ms fence seq in
      let fact := acquire_fact owner access scope observed now_ms fence lease in
      match (_ <-? invalid (lease_validate lease);; invalid (fact_validate fact)) with
      | Err e => (Err e, c2)
      | Ok _ =>
        let id := rl_lease_id lease in
        (Ok {| aq_handle := handle; aq_bearer := fresh; aq_attachment := attachment lease;
               aq_fact := fact |},
         {| leases := <[id := {| lr_lease := lease; lr_bearer := fresh; lr_holder_live := true;
                                 lr_ttl_ms := ttl_ms |}]> (leases c2);
            handle_index := <[handle := id]> (handle_index c2);
            fences := fences c2; generations := generations c2;
            provider_generations := provider_generations c2;
            session_attachments :=
              <[ow_session_id owner := default [] (session_attachments c2 !! ow_session_id owner) ++ [id]]>
                (session_attachments c2);
            next_handle := next_handle c2; next_lease_seq := next_lease_seq c2 |})
      end
    end
  end.

(* SRC core/src/workbench.rs @fn:record_mut WorkRunLeaseCoordinator::record_mut *)
Definition record_mut (handle : N) (bearer : LeaseBearer) (c : Coordinator)
    : result (string * LeaseRecord) LeaseError :=
  match handle_index c !! handle with
  | None => Err UnknownHandle
  | Some id =>
      match leases c !! id with
      | None => Err (UnknownLease id)
      | Some r => if negb (bearer_matches (lr_bearer r) bearer) then
                    Err (BearerMismatch (rl_lease_id (lr_lease r)))
                  else Ok (id, r)
      end
  end.

(** The head of [validate_exercise] and [renew]: the same look-up, naming the
    lease by its map key. *)
Definition presented (handle : N) (bearer : LeaseBearer) (c : Coordinator)
    : result (string * LeaseRecord) LeaseError :=
  match handle_index c !! handle with
  | None => Err UnknownHandle
  | Some id =>
      match leases c !! id with
      | None => Err (UnknownLease id)
      | Some r => if negb (bearer_matches (lr_bearer r) bearer) then Err (BearerMismatch id)
                  else Ok (id, r)
      end
  end.

(* SRC core/src/workbench.rs @fn:check_exercisable WorkRunLeaseCoordinator::check_exercisable *)
Definition check_exercisable (r : LeaseRecord) (binding : string) (observed now_ms : N) (c : Coordinator)
    : result unit LeaseError :=
  let l := lr_lease r in
  let id := rl_lease_id l in
  let canonical := record_key r in
  let current := fence_of canonical c in
  if negb (rl_fence l =? current)%N then Err (StaleLease id (rl_fence l) current)
  else if negb (lease_state_is_live (rl_state l)) then
    if bool_decide (rl_state l = LExpired) then Err (LeaseExpired id)
    else Err (NotActive id (lease_state_as_str (rl_state l)))
  else if (rl_expires_at_ms l <? now_ms)%N then Err (LeaseExpired id)
  else if negb (lr_holder_live r) then Err (HolderNotLive id)
  else if negb (String.eqb (rl_actor_binding_id l) binding) then Err (WrongBinding id)
  else
    let current_gen := default observed (generations c !! canonical) in
    if negb (observed =? rl_resource_generation l)%N || negb (observed =? current_gen)%N then
      Err (StaleResource canonical observed current_gen)
    else Ok tt.

(* SRC core/src/workbench.rs @fn:validate_exercise WorkRunLeaseCoordinator::validate_exercise *)
Definition validate_exercise (handle : N) (bearer : LeaseBearer) (binding : string)
    (observed now_ms : N) (c : Coordinator) : result LeaseAttachment LeaseError :=
  p <-? presented handle bearer c;;
  _ <-? check_exercisable p.2 binding observed now_ms c;;
  Ok (attachment (lr_lease p.2)).

(* SRC core/src/workbench.rs @fn:renew WorkRunLeaseCoordinator::renew *)
Definition renew (handle : N) (bearer : LeaseBearer) (observed now_ms : N) (c : Coordinator)
    : result (LeaseAttachment * LeaseLifecycleFact) LeaseError * Coordinator :=
  match presented handle bearer c with
  | Err e => (Err e, c)
  | Ok (id, r) =>
    let l := lr_lease r in
    let canonical := record_key r in
    if negb (lease_state_is_live (rl_state l)) then
      (Err (if bool_decide (rl_state l = LExpired) then LeaseExpired id
            else NotActive id (lease_state_as_str (rl_state l))), c)
    else if (rl_expires_at_ms l <? now_ms)%N then (Err (LeaseExpired id), c)
    else if negb (lr_holder_live r) then (Err (HolderNotLive id), c)
    else
      let current_gen := default observed (generations c !! canonical) in
      if negb (observed =? rl_resource_generation l)%N || negb (observed =? current_gen)%N then
        (Err (StaleResource canonical observed current_gen), c)
      else
        let current := fence_of canonical c in
        if negb (rl_fence l =? current)%N then (Err (StaleLease id (rl_fence l) current), c)
        else
          let l' := with_times (u64_add now_ms (lr_ttl_ms r)) now_ms l in
          let c' := set_leases (<[id := set_lease l' r]> (leases c)) c in
          let fact := fact_new (rl_lease_id l') LEASE_EVENT_RENEWED (rl_fence l') observed now_ms in
          match fact_validate fact with
          | Err e => (Err (InvalidRequest e), c')
          | Ok _ => (Ok (attachment l', fact), c')
          end
  end.

(* SRC core/src/workbench.rs @fn:heartbeat WorkRunLeaseCoordinator::heartbeat *)
Definition lease_heartbeat (handle : N) (bearer : LeaseBearer) (now_ms : N) (c : Coordinator)
    : result LeaseAttachment LeaseError * Coordinator :=
  match record_mut handle bearer c with
  | Err e => (Err e, c)
  | Ok (id, r) =>
    let l := lr_lease r in
    if negb (lease_state_is_live (rl_state l)) then
      (Err (NotActive (rl_lease_id l) (lease_state_as_str (rl_state l))), c)
    else
      let l' := with_times (rl_expires_at_ms l) now_ms l in
      (Ok (attachment l'), set_leases (<[id := set_lease l' r]> (leases c)) c)
  end.

(* SRC core/src/workbench.rs @fn:release WorkRunLeaseCoordinator::release *)
Definition lease_release (handle : N) (bearer : LeaseBearer) (now_ms : N) (c : Coordinator)
    : result LeaseLifecycleFact LeaseError * Coordinator :=
  match record_mut handle bearer c with
  | Err e => (Err e, c)
  | Ok (id, r) =>
    let l := lr_lease r in
    if negb (lease_state_is_live (rl_state l)) then
      (Err (NotActive (rl_lease_id l) (lease_state_as_str (rl_state l))), c)
    else
      let c' := set_leases (<[id := drop_holder LReleased r]> (leases c)) c in
      let fact := fact_new (rl_lease_id l) LEASE_EVENT_RELEASED (rl_fence l)
                    (rl_resource_generation l) now_ms in
      (_ <-? invalid (fact_validate fact);; Ok fact, c')
  end.

(* SRC core/src/workbench.rs @fn:bump_fence WorkRunLeaseCoordinator::bump_fence *)
Definition bump_fence (canonical : string) (c : Coordinator) : N * Coordinator :=
  let next := u64_add (fence_of canonical c) 1 in
  (next, set_fences (<[canonical := next]> (fences c)) c).

(* SRC core/src/workbench.rs @fn:revoke WorkRunLeaseCoordinator::revoke *)
Definition lease_revoke (id detail : string) (now_ms : N) (c : Coordinator)
    : result LeaseLifecycleFact LeaseError * Coordinator :=
  match leases c !! id with
  | None => (Err (UnknownLease id), c)
  | Some r =>
    if negb (lease_can_transition (rl_state (lr_lease r)) LRevoked) then
      (Err (NotActive id (lease_state_as_str (rl_state (lr_lease r)))), c)
    else
      let c1 := set_leases (<[id := drop_holder LRevoked r]> (leases c)) c in
      let '(fence, c2) := bump_fence (record_key r) c1 in
      let fact := fact_with_detail detail
        (fact_new id LEASE_EVENT_REVOKED fence (rl_resource_generation (lr_lease r)) now_ms) in
      (_ <-? invalid (fact_validate fact);; Ok fact, c2)
  end.

(** [for id in ids { facts.push(self.revoke(id)?) }]. *)
Fixpoint revoke_each (ids : list string) (detail : string) (now_ms : N) (c : Coordinator)
    : result (list LeaseLifecycleFact) LeaseError * Coordinator :=
  match ids with
  | [] => (Ok [], c)
  | id :: ids' =>
      match lease_revoke id detail now_ms c with
      | (Err e, c') => (Err e, c')
      | (Ok f, c') =>
          let '(r, c'') := revoke_each ids' detail now_ms c' in
          (fs <-? r;; Ok (f :: fs), c'')
      end
  end.

(* SRC core/src/workbench.rs @fn:takeover WorkRunLeaseCoordinator::takeover *)
Definition takeover (owner : OwnerContext) (resource : TypedResourceKey) (access : LeaseAccess)
    (scope : string) (observed now_ms ttl_ms : N) (fresh : LeaseBearer) (c : Coordinator)
    : result TakeoverOutcome LeaseError * Coordinator :=
  match owner_validate owner with
  | Err e => (Err (InvalidRequest e), c)
  | Ok _ =>
    let canonical := canonical_key resource in
    let live_ids := (λ h, rl_lease_id (lr_lease h)) <$>
      List.filter (λ h, negb (compatible_with access (rl_access (lr_lease h))))
        (live_holders canonical now_ms c) in
    match revoke_each live_ids "takeover: fence advanced before replacement" now_ms c with
    | (Err e, c1) => (Err e, c1)
    | (Ok facts, c1) =>
      let '(r, c2) := acquire owner resource access scope observed now_ms ttl_ms fresh c1 in
      (a <-? r;;
       Ok {| to_handle := aq_handle a; to_bearer := aq_bearer a; to_attachment := aq_attachment a;
             to_facts := facts ++ [aq_fact a] |}, c2)
    end
  end.

(** Mutates the record of [id], when there is one, and collects the fact. *)
Definition sweep_one (now_ms : N) (acc : list LeaseLifecycleFact * Coordinator) (id : string)
    : list LeaseLifecycleFact * Coordinator :=
  let '(facts, c) := acc in
  match leases c !! id with
  | None => acc
  | Some r =>
      let fact := fact_new id LEASE_EVENT_EXPIRED (rl_fence (lr_lease r))
                    (rl_resource_generation (lr_lease r)) now_ms in
      (if is_ok (fact_validate fact) then facts ++ [fact] else facts,
       set_leases (<[id := drop_holder LExpired r]> (leases c)) c)
  end.

(** The ids a predicate selects, in the map's order. *)
Definition select_ids (p : LeaseRecord → bool) (c : Coordinator) : list string :=
  (λ e, rl_lease_id (lr_lease e.2)) <$> List.filter (λ e, p e.2) (map_iter (leases c)).

(* SRC core/src/workbench.rs @fn:sweep_expired WorkRunLeaseCoordinator::sweep_expired *)
Definition sweep_expired (now_ms : N) (c : Coordinator) : list LeaseLifecycleFact * Coordinator :=
  let due := select_ids (λ r, bool_decide (rl_state (lr_lease r) = LActive) &&
                              (rl_expires_at_ms (lr_lease r) <? now_ms)%N) c in
  foldl (sweep_one now_ms) ([], c) due.

(* SRC core/src/workbench.rs @fn:revalidate_actor_binding WorkRunLeaseCoordinator::revalidate_actor_binding *)
Definition revalidate_actor_binding (id expected_old new_binding : string) (observed now_ms : N)
    (c : Coordinator) : result LeaseLifecycleFact LeaseError * Coordinator :=
  match leases c !! id with
  | None => (Err (UnknownLease id), c)
  | Some r =>
    let l := lr_lease r in
    if negb (lease_state_is_live (rl_state l)) then
      (Err (NotActive id (lease_state_as_str (rl_state l))), c)
    else if negb (String.eqb (rl_actor_binding_id l) expected_old) then (Err (WrongBinding id), c)
    else if is_empty new_binding then (Err (InvalidRequest "new actor binding must not be empty"), c)
    else
      let canonical := record_key r in
      let current_gen := default observed (generations c !! canonical) in
      if negb (observed =? rl_resource_generation l)%N || negb (observed =? current_gen)%N then
        (Err (StaleResource canonical observed current_gen), c)
      else
        let l' := with_times (rl_expires_at_ms l) now_ms (with_actor new_binding l) in
        let fact := fact_with_detail ("actor=" +:+ expected_old +:+ "->" +:+ new_binding)
          (fact_new id LEASE_EVENT_ACTOR_REVALIDATED (rl_fence l) observed now_ms) in
        (_ <-? invalid (fact_validate fact);; Ok fact,
         set_leases (<[id := set_lease l' r]> (leases c)) c)
  end.

Definition restart_one (next now_ms : N) (acc : list LeaseLifecycleFact * Coordinator) (id : string)
    : list LeaseLifecycleFact * Coordinator :=
  let '(facts, c) := acc in
  match leases c !! id with
  | None => acc
  | Some r =>
      let c1 := set_leases (<[id := drop_holder LUncertain r]> (leases c)) c in
      let '(fence, c2) := bump_fence (record_key r) c1 in
      let fact := fact_with_detail ("provider_handle_generation=" +:+ pretty next +:+ " restarted")
        (fact_new id LEASE_EVENT_UNCERTAIN fence (rl_resource_generation (lr_lease r)) now_ms) in
      (if is_ok (fact_validate fact) then facts ++ [fact] else facts, c2)
  end.

(* SRC core/src/workbench.rs @fn:note_provider_restart WorkRunLeaseCoordinator::note_provider_restart *)
Definition note_provider_restart (binding : string) (now_ms : N) (c : Coordinator)
    : list LeaseLifecycleFact * Coordinator :=
  let next := u64_add (provider_generation binding c) 1 in
  let c1 := set_provider_generations (<[binding := next]> (provider_generations c)) c in
  let affected := select_ids (λ r, String.eqb (rl_actor_binding_id (lr_lease r)) binding &&
      bool_decide (rk_kind (rl_resource (lr_lease r)) = RkProviderHandle) &&
      bool_decide (rl_state (lr_lease r) = LActive)) c1 in
  foldl (restart_one next now_ms) ([], c1) affected.

(** [if let Ok(fact) = self.revoke(..) { facts.push(fact) }]. *)
Definition revoke_one (detail : string) (now_ms : N) (acc : list LeaseLifecycleFact * Coordinator)
    (id : string) : list LeaseLifecycleFact * Coordinator :=
  let '(facts, c) := acc in
  let '(r, c') := lease_revoke id detail now_ms c in
  (match r with Ok f => facts ++ [f] | Err _ => facts end, c').

(* SRC core/src/workbench.rs @fn:retire_resource WorkRunLeaseCoordinator::retire_resource *)
Definition retire_resource (key : TypedResourceKey) (detail : string) (now_ms : N) (c : Coordinator)
    : list LeaseLifecycleFact * Coordinator :=
  let affected := select_ids (λ r, String.eqb (record_key r) (canonical_key key) &&
      negb (lease_state_is_terminal (rl_state (lr_lease r)))) c in
  foldl (revoke_one detail now_ms) ([], c) affected.

(* SRC core/src/workbench.rs @fn:invalidate_scope_fingerprint WorkRunLeaseCoordinator::invalidate_scope_fingerprint *)
Definition invalidate_scope_fingerprint (scope : string) (now_ms : N) (c : Coordinator)
    : list LeaseLifecycleFact * Coordinator :=
  let affected := select_ids (λ r, String.eqb (rl_scope_fingerprint (lr_lease r)) scope &&
      negb (lease_state_is_terminal (rl_state (lr_lease r)))) c in
  foldl (revoke_one "scope invalidated: logout or config-scope change" now_ms) ([], c) affected.

(* SRC core/src/workbench.rs @fn:mark_holder_lost WorkRunLeaseCoordinator::mark_holder_lost *)
Definition mark_holder_lost (id : string) (now_ms : N) (c : Coordinator)
    : result LeaseLifecycleFact LeaseError * Coordinator :=
  match leases c !! id with
  | None => (Err (UnknownLease id), c)
  | Some r =>
    let l := lr_lease r in
    if negb (bool_decide (rl_state l = LActive)) then
      (Err (NotActive id (lease_state_as_str (rl_state l))), c)
    else
      let fact := fact_with_detail "holder lost: crash or kill while lease held"
        (fact_new id LEASE_EVENT_UNCERTAIN (rl_fence l) (rl_resource_generation l) now_ms) in
      (_ <-? invalid (fact_validate fact);; Ok fact,
       set_leases (<[id := drop_holder LUncertain r]> (leases c)) c)
  end.

(* SRC core/src/workbench.rs @fn:reconcile WorkRunLeaseCoordinator::reconcile *)
Definition lease_reconcile (id : string) (outcome : PostEffectOutcome) (now_ms : N) (c : Coordinator)
    : result ReconcileOutcome LeaseError * Coordinator :=
  match leases c !! id with
  | None => (Err (UnknownLease id), c)
  | Some r =>
    let l := lr_lease r in
    match rl_state l with
    | LUncertain =>
        if is_settled outcome then
          let fact := fact_with_detail ("effect outcome=" +:+ outcome_as_str outcome)
            (fact_new id LEASE_EVENT_RECLAIM_PENDING (rl_fence l) (rl_resource_generation l) now_ms) in
          (_ <-? invalid (fact_validate fact);; Ok (AdvancedToReclaim fact),
           set_leases (<[id := set_lease (with_state LReclaimPending l) r]> (leases c)) c)
        else (Ok StillUncertain, c)
    | LReclaimPending => (Ok StillUncertain, c)
    | other => (Err (NotActive id (lease_state_as_str other)), c)
    end
  end.

(* SRC core/src/workbench.rs @fn:reclaim WorkRunLeaseCoordinator::reclaim *)
Definition lease_reclaim (id : string) (process_dead no_live_effect : bool) (now_ms : N) (c : Coordinator)
    : result LeaseLifecycleFact LeaseError * Coordinator :=
  match leases c !! id with
  | None => (Err (UnknownLease id), c)
  | Some r =>
    let l := lr_lease r in
    if negb (bool_decide (rl_state l = LReclaimPending)) then (Err (MustReconcileFirst id), c)
    else if negb process_dead || negb no_live_effect then (Err (HolderMayBeLive id), c)
    else
      let c1 := set_leases (<[id := set_lease (with_state LReclaimed l) r]> (leases c)) c in
      let '(fence, c2) := bump_fence (record_key r) c1 in
      let fact := fact_with_detail "reclaimed after verified holder death and no live effect"
        (fact_new id LEASE_EVENT_RECLAIMED fence (rl_resource_generation l) now_ms) in
      (_ <-? invalid (fact_validate fact);; Ok fact, c2)
  end.

(** ** Replay *)

Definition ok_or {A} (o : option A) (e : string) : result A LeaseError :=
  match o with Some a => Ok a | None => Err (InvalidRequest e) end.

(** The acquire context of a fact for a lease the coordinator does not know. *)
Definition fact_context (f : LeaseLifecycleFact)
    : result (OwnerContext * TypedResourceKey * LeaseAccess) LeaseError :=
  let lacks what := "acquire fact for unknown lease `" +:+ lf_lease_id f +:+ "` lacks " +:+ what in
  owner <-? ok_or (lf_owner f) (lacks "owner context");;
  resource <-? ok_or (lf_resource f) (lacks "resource identity");;
  access <-? ok_or (lf_access f) (lacks "access class");;
  _ <-? invalid (owner_validate owner);;
  _ <-? invalid (resource_validate resource);;
  Ok (owner, resource, access).

Definition replayed_lease (f : LeaseLifecycleFact) (owner : OwnerContext) (resource : TypedResourceKey)
    (access : LeaseAccess) (state : LeaseState) : ResourceLease :=
  {| rl_lease_id := lf_lease_id f;
     rl_resource := {| rk_kind := rk_kind resource; rk_stable_id := rk_stable_id resource;
                       rk_generation := lf_generation f |};
     rl_owner_work_id := ow_work_id owner; rl_owner_run_id := ow_run_id owner;
     rl_actor_binding_id := ow_binding_id owner; rl_session_scope := ow_session_id owner;
     rl_access := access; rl_resource_generation := lf_generation f; rl_fence := lf_fence f;
     rl_scope_fingerprint := default "" (lf_scope_fingerprint f); rl_state := state;
     rl_issued_at_ms := lf_at_ms f; rl_expires_at_ms := u64_add (lf_at_ms f) 1;
     rl_last_heartbeat_ms := lf_at_ms f |}.

(* SRC core/src/workbench.rs @fn:apply_fact WorkRunLeaseCoordinator::apply_fact *)
Definition apply_fact (f : LeaseLifecycleFact) (recovery : bool) (fresh : LeaseBearer) (c : Coordinator)
    : result bool LeaseError * Coordinator :=
  match invalid (fact_validate f) with
  | Err e => (Err e, c)
  | Ok _ =>
  match records_state f with
  | None => (Err (InvalidRequest ("fact kind `" +:+ lf_kind f +:+ "` records no state")), c)
  | Some target =>
    let id := lf_lease_id f in
    match leases c !! id with
    | Some r =>
      let l := lr_lease r in
      let current := fence_of (record_key r) c in
      if (lf_fence f <? current)%N then (Err (StaleFact id (lf_fence f) current), c)
      else if bool_decide (rl_state l = target) && (rl_fence l =? lf_fence f)%N then (Ok false, c)
      else if negb (lease_can_transition (rl_state l) target) then
        (Err (InvalidRequest ("illegal replay transition " +:+ lease_state_as_str (rl_state l) +:+
           " -> " +:+ lease_state_as_str target)), c)
      else
        let r' := {| lr_lease := with_fence (lf_fence f) (with_state target l);
                     lr_bearer := lr_bearer r;
                     lr_holder_live := if bool_decide (target = LActive) then lr_holder_live r else false;
                     lr_ttl_ms := lr_ttl_ms r |} in
        let c1 := set_leases (<[id := r']> (leases c)) c in
        (Ok true,
         if (current <? lf_fence f)%N then set_fences (<[record_key r := lf_fence f]> (fences c1)) c1
         else c1)
    | None =>
      if negb (String.eqb (lf_kind f) LEASE_EVENT_ACQUIRED) then (Err (UnknownLease id), c)
      else
      match fact_context f with
      | Err e => (Err e, c)
      | Ok (owner, resource, access) =>
        let canonical := canonical_key resource in
        let c1 := match generations c !! canonical with
                  | Some _ => c
                  | None => set_generations (<[canonical := lf_generation f]> (generations c)) c
                  end in
        let c2 := if (fence_of canonical c1 <? lf_fence f)%N then
                    set_fences (<[canonical := lf_fence f]> (fences c1)) c1 else c1 in
        let state := if recovery && bool_decide (target = LActive) then LUncertain else target in
        let c3 := set_attachments
          (<[ow_session_id owner := default [] (session_attachments c2 !! ow_session_id owner) ++ [id]]>
             (session_attachments c2)) c2 in
        (Ok true,
         set_leases (<[id := {| lr_lease := replayed_lease f owner resource access state;
                                lr_bearer := fresh; lr_holder_live := false; lr_ttl_ms := 1 |}]>
                      (leases c3)) c3)
      end
    end
  end
  end.

(** An envelope, as much of it as the rebuild reads. *)
Record LeaseEnvelope := { le_seq : N; le_kind : string; le_payload : Value }.

(* SRC core/src/workbench.rs @struct:RebuildReport RebuildReport *)
Record RebuildReport := { rr_cursor : N; rr_applied : N; rr_skipped : N }.

Definition rebuild_one (recovery : bool) (fresh : N → LeaseBearer) (acc : RebuildReport * Coordinator)
    (env : LeaseEnvelope) : RebuildReport * Coordinator :=
  let '(report, c) := acc in
  let cursor := N.max (rr_cursor report) (le_seq env) in
  let skip c := ({| rr_cursor := cursor; rr_applied := rr_applied report;
                    rr_skipped := u64_add (rr_skipped report) 1 |}, c) in
  match from_envelope (le_kind env) (le_payload env) with
  | None => skip c
  | Some fact =>
      match apply_fact fact recovery (fresh (le_seq env)) c with
      | (Ok _, c') => ({| rr_cursor := cursor; rr_applied := u64_add (rr_applied report) 1;
                          rr_skipped := rr_skipped report |}, c')
      | (Err _, c') => skip c'
      end
  end.

(* SRC core/src/workbench.rs @fn:rebuild_from_envelopes WorkRunLeaseCoordinator::rebuild_from_envelopes *)
Definition rebuild_from_envelopes (envelopes : list LeaseEnvelope) (cursor : N) (recovery : bool)
    (fresh : N → LeaseBearer) (c : Coordinator) : RebuildReport * Coordinator :=
  let ordered := sort_by (λ a b, (le_seq a <=? le_seq b)%N)
                   (List.filter (λ e, (cursor <? le_seq e)%N) envelopes) in
  foldl (rebuild_one recovery fresh) ({| rr_cursor := cursor; rr_applied := 0; rr_skipped := 0 |}, c) ordered.
End coordinator.
