(* ===== verification/LeaseFacts.v ===== *)
(** * What the lease coordinator guarantees

    Runs of [Lease]'s operations under a clock that does not step back:
    exclusive leases never overlap, a terminal lease is never exercised again,
    fences only grow; and the behaviours where the code departs from its
    documentation. *)
From S2P Require Import Order Prelude Json LeaseTypes Lease.

Section facts.
Context `{RenderFact} `{HashIterLaws}.

(** ** The invariant *)

Record coord_ok (now : N) (c : Coordinator) : Prop := {
  ck_ids id r : leases c !! id = Some r → rl_lease_id (lr_lease r) = id;
  ck_live id r : leases c !! id = Some r → lr_holder_live r = true → rl_state (lr_lease r) = LActive;
  ck_excl id1 id2 r1 r2 :
    leases c !! id1 = Some r1 → leases c !! id2 = Some r2 → id1 ≠ id2 →
    record_key r1 = record_key r2 → record_live now r1 = true → record_live now r2 = true →
    compatible_with (rl_access (lr_lease r1)) (rl_access (lr_lease r2)) = true
}.

(** An update that makes nobody live who was not. *)
Definition no_new_live (now : N) (c c' : Coordinator) : Prop :=
  ∀ id r', leases c' !! id = Some r' →
    rl_lease_id (lr_lease r') = id ∧
    (lr_holder_live r' = true → rl_state (lr_lease r') = LActive) ∧
    (record_live now r' = true → ∃ r, leases c !! id = Some r ∧ record_live now r = true ∧
       record_key r = record_key r' ∧ rl_access (lr_lease r) = rl_access (lr_lease r')).

Lemma record_live_mono now now' r :
  (now ≤ now')%N → record_live now' r = true → record_live now r = true.
Proof.
  intros Hle. unfold record_live. rewrite !andb_true_iff, !N.leb_le.
  intros [[? ?] ?]. split_and!; try done. lia.
Qed.

Lemma coord_ok_later now now' c : (now ≤ now')%N → coord_ok now c → coord_ok now' c.
Proof.
  intros Hle [Hi Hl He]. constructor; [done..|]. intros id1 id2 r1 r2 Hr1 Hr2 Hne Hk Hv1 Hv2.
  apply (He id1 id2); eauto using record_live_mono.
Qed.

Lemma no_new_live_ok now c c' : coord_ok now c → no_new_live now c c' → coord_ok now c'.
Proof.
  intros Hok Hn. constructor.
  - intros id r Hr. by destruct (Hn id r Hr).
  - intros id r Hr. by destruct (Hn id r Hr) as (_ & ? & _).
  - intros id1 id2 r1 r2 Hr1 Hr2 Hne Hk Hv1 Hv2.
    destruct (Hn _ _ Hr1) as (_ & _ & Hx1). destruct (Hx1 Hv1) as (s1 & Hs1 & Hl1 & Hk1 & <-).
    destruct (Hn _ _ Hr2) as (_ & _ & Hx2). destruct (Hx2 Hv2) as (s2 & Hs2 & Hl2 & Hk2 & <-).
    apply (ck_excl now c Hok id1 id2); congruence.
Qed.

Lemma no_new_live_same now c c' : coord_ok now c → leases c' = leases c → no_new_live now c c'.
Proof.
  intros Hok Heq id r Hr. rewrite Heq in Hr. split; [by eapply ck_ids|].
  split; [by eapply ck_live|]. intros Hv. by exists r.
Qed.

Lemma no_new_live_trans now c1 c2 c3 :
  no_new_live now c1 c2 → no_new_live now c2 c3 → no_new_live now c1 c3.
Proof.
  intros H12 H23 id r Hr. destruct (H23 id r Hr) as (Hid & Ha & Hx). split; [done|]. split; [done|].
  intros Hv. destruct (Hx Hv) as (r2 & Hr2 & Hv2 & Hk2 & Hac2).
  destruct (H12 id r2 Hr2) as (_ & _ & Hx1). destruct (Hx1 Hv2) as (r1 & ? & ? & ? & ?).
  exists r1. split_and!; congruence.
Qed.

(** Replacing the record of one lease by one that is not newly live. *)
Lemma no_new_live_update now c c' id r r' :
  coord_ok now c → leases c !! id = Some r → leases c' = <[id := r']> (leases c) →
  rl_lease_id (lr_lease r') = rl_lease_id (lr_lease r) →
  (lr_holder_live r' = true → rl_state (lr_lease r') = LActive) →
  (record_live now r' = true → record_live now r = true ∧ record_key r = record_key r' ∧
     rl_access (lr_lease r) = rl_access (lr_lease r')) →
  no_new_live now c c'.
Proof.
  intros Hok Hr Heq Hid Ha Hv id' s Hs. rewrite Heq in Hs.
  destruct (decide (id' = id)) as [->|Hne].
  - rewrite lookup_insert_eq in Hs. injection Hs as <-. rewrite Hid.
    split; [by eapply ck_ids|]. split; [done|]. intros Hl. exists r. by destruct (Hv Hl).
  - rewrite lookup_insert_ne in Hs by done. by apply (no_new_live_same now c c Hok eq_refl id' s).
Qed.

(** A dead holder is not live. *)
Lemma drop_holder_not_live now s r : record_live now (drop_holder s r) = false.
Proof. unfold record_live. simpl. by rewrite andb_false_r. Qed.

Lemma no_new_live_drop now c c' id r s :
  coord_ok now c → leases c !! id = Some r → leases c' = <[id := drop_holder s r]> (leases c) →
  no_new_live now c c'.
Proof.
  intros Hok Hr Heq. eapply no_new_live_update; [done..|]. by rewrite drop_holder_not_live.
Qed.

(** ** Every operation but [acquire] *)

Lemma presented_lookup h b c id r : presented h b c = Ok (id, r) → leases c !! id = Some r.
Proof. unfold presented. intros Hp. repeat case_match; by simplify_eq. Qed.

Lemma record_mut_lookup h b c id r : record_mut h b c = Ok (id, r) → leases c !! id = Some r.
Proof. unfold record_mut. intros Hp. repeat case_match; by simplify_eq. Qed.

Lemma renew_no_new_live h b obs now c :
  coord_ok now c → no_new_live now c (renew h b obs now c).2.
Proof.
  intros Hok. unfold renew. destruct (presented h b c) as [[id r]|e] eqn:Ep;
    [|by apply no_new_live_same]. apply presented_lookup in Ep. cbv zeta.
  destruct (lease_state_is_live _) eqn:E1; simpl; [|by apply no_new_live_same].
  destruct (N.ltb_spec (rl_expires_at_ms (lr_lease r)) now) as [?|E2]; [by apply no_new_live_same|].
  destruct (lr_holder_live r) eqn:E3; simpl; [|by apply no_new_live_same].
  destruct (_ || _); [by apply no_new_live_same|]. destruct (negb _); [by apply no_new_live_same|].
  assert (no_new_live now c (set_leases (<[id := set_lease (with_times (u64_add now (lr_ttl_ms r)) now
    (lr_lease r)) r]> (leases c)) c)); [|by destruct (fact_validate _)].
  eapply no_new_live_update; [done..| |].
  - intros _. simpl. by destruct (rl_state (lr_lease r)).
  - intros _. split_and!; try done. unfold record_live. by rewrite E1, E3, (proj2 (N.leb_le _ _) E2).
Qed.

Lemma heartbeat_no_new_live h b t now c :
  coord_ok now c → no_new_live now c (lease_heartbeat h b t c).2.
Proof.
  intros Hok. unfold lease_heartbeat. destruct (record_mut h b c) as [[id r]|e] eqn:Ep;
    [|by apply no_new_live_same]. apply record_mut_lookup in Ep. cbv zeta.
  destruct (lease_state_is_live _) eqn:E1; simpl; [|by apply no_new_live_same].
  eapply no_new_live_update; [done..| |done]. simpl. intros Hl. by apply (ck_live now c Hok id r).
Qed.

Lemma release_no_new_live h b t now c :
  coord_ok now c → no_new_live now c (lease_release h b t c).2.
Proof.
  intros Hok. unfold lease_release. destruct (record_mut h b c) as [[id r]|e] eqn:Ep;
    [|by apply no_new_live_same]. apply record_mut_lookup in Ep. cbv zeta.
  destruct (lease_state_is_live _); simpl; [|by apply no_new_live_same].
  by eapply no_new_live_drop.
Qed.

Lemma revoke_no_new_live id detail t now c :
  coord_ok now c → no_new_live now c (lease_revoke id detail t c).2.
Proof.
  intros Hok. unfold lease_revoke. destruct (leases c !! id) as [r|] eqn:Er; [|by apply no_new_live_same].
  destruct (negb _); [by apply no_new_live_same|]. simpl. by eapply no_new_live_drop.
Qed.

Lemma revoke_each_no_new_live ids detail t now c :
  coord_ok now c → no_new_live now c (revoke_each ids detail t c).2.
Proof.
  revert c. induction ids as [|id ids IH]; intros c Hok; simpl; [by apply no_new_live_same|].
  pose proof (revoke_no_new_live id detail t now c Hok) as Hn.
  destruct (lease_revoke id detail t c) as [[f|e] c1]; [|done]. simpl in Hn.
  pose proof (IH c1 (no_new_live_ok _ _ _ Hok Hn)) as Hn'.
  destruct (revoke_each ids detail t c1) as [r c2]. by eapply no_new_live_trans.
Qed.

Lemma fold_no_new_live {A} (f : A * Coordinator → string → A * Coordinator) now ids a c :
  (∀ a c id, coord_ok now c → no_new_live now c (f (a, c) id).2) →
  coord_ok now c → no_new_live now c (foldl f (a, c) ids).2.
Proof.
  intros Hf. revert a c. induction ids as [|id ids IH]; intros a c Hok; simpl; [by apply no_new_live_same|].
  pose proof (Hf a c id Hok) as Hn. destruct (f (a, c) id) as [a1 c1]. simpl in Hn.
  eapply no_new_live_trans; [done|]. apply IH. by eapply no_new_live_ok.
Qed.

Lemma sweep_no_new_live t now c : coord_ok now c → no_new_live now c (sweep_expired t c).2.
Proof.
  apply fold_no_new_live. clear c. intros fs c id Hok. unfold sweep_one.
  destruct (leases c !! id) as [r|] eqn:Er; [|by apply no_new_live_same].
  by eapply no_new_live_drop.
Qed.

Lemma revoke_one_no_new_live detail t now fs c id :
  coord_ok now c → no_new_live now c (revoke_one detail t (fs, c) id).2.
Proof.
  intros Hok. unfold revoke_one. pose proof (revoke_no_new_live id detail t now c Hok) as Hn.
  by destruct (lease_revoke id detail t c).
Qed.

Lemma restart_no_new_live binding t now c :
  coord_ok now c → no_new_live now c (note_provider_restart binding t c).2.
Proof.
  intros Hok. unfold note_provider_restart. cbv zeta.
  set (c1 := set_provider_generations _ c).
  assert (Hn1 : no_new_live now c c1) by (by apply no_new_live_same).
  eapply no_new_live_trans; [done|]. apply fold_no_new_live; [|by eapply no_new_live_ok].
  intros fs c2 id Hok2. unfold restart_one.
  destruct (leases c2 !! id) as [r|] eqn:Er; [|by apply no_new_live_same].
  simpl. by eapply no_new_live_drop.
Qed.

Lemma actor_no_new_live id old new obs t now c :
  coord_ok now c → no_new_live now c (revalidate_actor_binding id old new obs t c).2.
Proof.
  intros Hok. unfold revalidate_actor_binding.
  destruct (leases c !! id) as [r|] eqn:Er; [|by apply no_new_live_same]. cbv zeta.
  destruct (negb _); [by apply no_new_live_same|]. destruct (negb _); [by apply no_new_live_same|].
  destruct (is_empty _); [by apply no_new_live_same|]. destruct (_ || _); [by apply no_new_live_same|].
  simpl. eapply no_new_live_update; [done..| |done].
  simpl. intros Hl. by apply (ck_live now c Hok id r).
Qed.

Lemma lost_no_new_live id t now c : coord_ok now c → no_new_live now c (mark_holder_lost id t c).2.
Proof.
  intros Hok. unfold mark_holder_lost.
  destruct (leases c !! id) as [r|] eqn:Er; [|by apply no_new_live_same]. cbv zeta.
  destruct (negb _); [by apply no_new_live_same|]. simpl. by eapply no_new_live_drop.
Qed.

(** A record outside [Active] has no live holder. *)
Lemma inactive_not_live now c id r s :
  coord_ok now c → leases c !! id = Some r → rl_state (lr_lease r) ≠ LActive →
  s ≠ LActive → lr_holder_live (set_lease (with_state s (lr_lease r)) r) = false.
Proof.
  intros Hok Hr Hs _. simpl. destruct (lr_holder_live r) eqn:E; [|done].
  by destruct Hs; apply (ck_live now c Hok id r).
Qed.

Lemma reconcile_no_new_live id o t now c :
  coord_ok now c → no_new_live now c (lease_reconcile id o t c).2.
Proof.
  intros Hok. unfold lease_reconcile.
  destruct (leases c !! id) as [r|] eqn:Er; [|by apply no_new_live_same]. cbv zeta.
  destruct (rl_state (lr_lease r)) eqn:Es; try by apply no_new_live_same.
  destruct (is_settled o); [|by apply no_new_live_same]. simpl.
  pose proof (inactive_not_live now c id r LReclaimPending Hok Er) as Hd.
  eapply no_new_live_update; [done..| |].
  - rewrite Hd by congruence. done.
  - unfold record_live. rewrite Hd by congruence. simpl. done.
Qed.

Lemma reclaim_no_new_live id p e t now c :
  coord_ok now c → no_new_live now c (lease_reclaim id p e t c).2.
Proof.
  intros Hok. unfold lease_reclaim.
  destruct (leases c !! id) as [r|] eqn:Er; [|by apply no_new_live_same]. cbv zeta.
  case_bool_decide as Es; simpl; [|by apply no_new_live_same].
  destruct (_ || _); [by apply no_new_live_same|]. simpl.
  pose proof (inactive_not_live now c id r LReclaimed Hok Er) as Hd.
  eapply no_new_live_update; [done..| |].
  - rewrite Hd by congruence. done.
  - unfold record_live. rewrite Hd by congruence. simpl. done.
Qed.

Lemma apply_fact_no_new_live f recovery fresh now c :
  coord_ok now c → no_new_live now c (apply_fact f recovery fresh c).2.
Proof.
  intros Hok. unfold apply_fact. destruct (invalid _); [|by apply no_new_live_same].
  destruct (records_state f) as [target|]; [|by apply no_new_live_same]. cbv zeta.
  destruct (leases c !! lf_lease_id f) as [r|] eqn:Er.
  - destruct (_ <? _)%N; [by apply no_new_live_same|]. destruct (_ && _); [by apply no_new_live_same|].
    destruct (negb _); [by apply no_new_live_same|]. simpl snd.
    eapply no_new_live_update; [done | done | by case_match | done | |].
    + simpl. by case_bool_decide.
    + unfold record_live, record_key. simpl. case_bool_decide as Ht; [|by rewrite andb_false_r].
      rewrite !andb_true_iff. intros [[_ Hl] Hx]. split_and!; try done.
      by rewrite (ck_live now c Hok _ r Er Hl).
  - destruct (negb _); [by apply no_new_live_same|].
    destruct (fact_context f) as [[[owner resource] access]|]; [|by apply no_new_live_same]. simpl snd.
    intros id' s Hs. simpl in Hs.
    destruct (decide (id' = lf_lease_id f)) as [->|Hne].
    + rewrite lookup_insert_eq in Hs. injection Hs as <-. simpl. split_and!; [done..|].
      unfold record_live. simpl. by rewrite andb_false_r.
    + rewrite lookup_insert_ne in Hs by done.
      assert (Hs' : leases c !! id' = Some s) by (revert Hs; by repeat case_match).
      by apply (no_new_live_same now c c Hok eq_refl id' s).
Qed.

(** ** Acquire *)

Lemma compatible_sym a b : compatible_with a b = compatible_with b a.
Proof. unfold compatible_with. apply andb_comm. Qed.

Lemma live_holders_elem canonical now c id r :
  leases c !! id = Some r → record_key r = canonical → record_live now r = true →
  r ∈ live_holders canonical now c.
Proof.
  intros Hr Hk Hv. unfold live_holders. apply list_elem_of_fmap. exists (id, r). split; [done|].
  apply list_elem_of_In, filter_In. split.
  - by apply list_elem_of_In, elem_of_map_iter.
  - simpl. by rewrite Hk, String.eqb_refl, Hv.
Qed.

Lemma acquire_request_ok owner resource scope observed ttl :
  acquire_request owner resource scope observed ttl = Ok tt → rk_generation resource = observed.
Proof.
  unfold acquire_request. destruct (invalid (owner_validate owner)); simpl; [|done].
  destruct (invalid (resource_validate resource)); simpl; [|done].
  destruct (is_empty scope); [done|]. destruct (ttl =? 0)%N; [done|].
  by destruct (N.eqb_spec observed (rk_generation resource)).
Qed.

Lemma lease_validate_bounded l : lease_validate l = Ok tt → (rl_issued_at_ms l < rl_expires_at_ms l)%N.
Proof.
  unfold lease_validate. destruct (is_empty _); [done|].
  destruct (resource_validate _); simpl; [|done].
  destruct (_ || _); [done|]. destruct (is_empty _); [done|]. destruct (is_empty _); [done|].
  destruct (_ =? 0)%N; [done|].
  by destruct (N.leb_spec (rl_expires_at_ms l) (rl_issued_at_ms l)).
Qed.

(** What an [acquire] that fails has changed, and what one that succeeds has. *)
Lemma acquire_cases owner resource access scope observed now ttl fresh c r c' :
  acquire owner resource access scope observed now ttl fresh c = (r, c') →
  leases c' = leases c ∧ is_ok r = false ∧ next_lease_seq c' = next_lease_seq c ∨
  leases c' = leases c ∧ is_ok r = false ∧ next_lease_seq c' = u64_add (next_lease_seq c) 1 ∨
  acquire_request owner resource scope observed ttl = Ok tt ∧
    generations c' !! canonical_key resource = Some observed ∧
    (∀ h, h ∈ live_holders (canonical_key resource) now c →
       compatible_with access (rl_access (lr_lease h)) = true) ∧
    let fence := next_fence access (fence_of (canonical_key resource) c) in
    let l := minted_lease owner resource access scope observed now ttl fence (next_lease_seq c) in
    lease_validate l = Ok tt ∧
    r = Ok {| aq_handle := next_handle c; aq_bearer := fresh; aq_attachment := attachment l;
              aq_fact := acquire_fact owner access scope observed now fence l |} ∧
    leases c' = <[rl_lease_id l := {| lr_lease := l; lr_bearer := fresh; lr_holder_live := true;
                                      lr_ttl_ms := ttl |}]> (leases c) ∧
    handle_index c' = <[next_handle c := rl_lease_id l]> (handle_index c) ∧
    fences c' = <[canonical_key resource := fence]> (fences c) ∧
    next_lease_seq c' = u64_add (next_lease_seq c) 1.
Proof.
  unfold acquire. destruct (acquire_request _ _ _ _ _) as [[]|e] eqn:Er; [|intros ?; simplify_eq; auto].
  cbv zeta. set (c1 := match generations c !! canonical_key resource with
    | Some _ => c | None => set_generations _ c end).
  assert (Hfields : leases c1 = leases c ∧ next_lease_seq c1 = next_lease_seq c ∧
    next_handle c1 = next_handle c ∧ handle_index c1 = handle_index c ∧ fences c1 = fences c)
    by (unfold c1; by case_match).
  destruct Hfields as (Hl & Hs & Hh & Hx & Hf).
  match goal with |- (if ?b then _ else _) = _ → _ => destruct b eqn:Eg end;
    [intros ?; simplify_eq; auto|].
  assert (Hg : generations c1 !! canonical_key resource = Some observed).
  { unfold c1. destruct (generations c !! _) as [g|] eqn:E; [|apply lookup_insert_eq].
    apply negb_false_iff, N.eqb_eq in Eg. congruence. }
  unfold live_holders, fence_of. rewrite Hl, Hs, Hh, Hx, Hf. fold (live_holders (canonical_key resource) now c).
  clearbody c1. destruct (List.find _ _) as [b|] eqn:Ef; [intros ?; simplify_eq; auto|].
  destruct (lease_validate _) as [[]|e] eqn:Ev; simpl; [|intros ?; simplify_eq; auto].
  destruct (fact_validate _) as [[]|e]; simpl; [|intros ?; simplify_eq; auto].
  intros ?; simplify_eq/=. do 2 right. split_and!; try done.
  intros h Hin%list_elem_of_In. apply negb_false_iff. exact (find_none _ _ Ef h Hin).
Qed.

Lemma acquire_ok owner resource access scope observed now ttl fresh c :
  coord_ok now c → coord_ok now (acquire owner resource access scope observed now ttl fresh c).2.
Proof.
  intros Hok. destruct (acquire _ _ _ _ _ _ _ _ c) as [r c'] eqn:Ea. simpl.
  destruct (acquire_cases _ _ _ _ _ _ _ _ _ _ _ Ea)
    as [(Hl & _)|[(Hl & _)|(Hreq & _ & Hcomp & _ & _ & Hl & _)]];
    [by eapply no_new_live_ok, no_new_live_same..|].
  apply acquire_request_ok in Hreq.
  set (l := minted_lease _ _ _ _ _ _ _ _ _) in Hl.
  assert (Hnew : ∀ id s, leases c !! id = Some s → record_key s = canonical_key resource →
    record_live now s = true → compatible_with access (rl_access (lr_lease s)) = true).
  { intros id s Hs Hk Hv. by eapply Hcomp, live_holders_elem. }
  constructor.
  - intros id s. rewrite Hl, lookup_insert_Some. intros [[<- <-]|[_ Hs]]; [done|by eapply ck_ids].
  - intros id s. rewrite Hl, lookup_insert_Some. intros [[<- <-]|[_ Hs]]; [done|by eapply ck_live].
  - intros id1 id2 r1 r2. rewrite Hl, !lookup_insert_Some.
    intros [[<- <-]|[? Hs1]] [[<- <-]|[? Hs2]] Hne Hk Hv1 Hv2; [done|..].
    + simpl. by apply (Hnew id2).
    + rewrite compatible_sym. by apply (Hnew id1).
    + by apply (ck_excl now c Hok id1 id2).
Qed.

Lemma takeover_ok owner resource access scope observed now ttl fresh c :
  coord_ok now c → coord_ok now (takeover owner resource access scope observed now ttl fresh c).2.
Proof.
  intros Hok. unfold takeover. destruct (owner_validate owner); [|done]. cbv zeta.
  match goal with |- context [revoke_each ?ids ?d ?t c] =>
    pose proof (revoke_each_no_new_live ids d t now c Hok) as Hn;
    destruct (revoke_each ids d t c) as [[fs|e] c1]; simpl in Hn |- *
  end; [|by eapply no_new_live_ok].
  pose proof (acquire_ok owner resource access scope observed now ttl fresh c1
    (no_new_live_ok _ _ _ Hok Hn)) as Ha.
  by destruct (acquire _ _ _ _ _ _ _ _ c1) as [r c2].
Qed.

(** ** Runs *)

Inductive lease_op :=
  | OpAcquire (o : OwnerContext) (k : TypedResourceKey) (a : LeaseAccess) (scope : string)
      (observed ttl : N) (fresh : LeaseBearer)
  | OpTakeover (o : OwnerContext) (k : TypedResourceKey) (a : LeaseAccess) (scope : string)
      (observed ttl : N) (fresh : LeaseBearer)
  | OpRenew (h : N) (b : LeaseBearer) (observed : N)
  | OpHeartbeat (h : N) (b : LeaseBearer)
  | OpRelease (h : N) (b : LeaseBearer)
  | OpRevoke (id detail : string)
  | OpSweep
  | OpActor (id old new : string) (observed : N)
  | OpRestart (binding : string)
  | OpRetire (k : TypedResourceKey) (detail : string)
  | OpScope (scope : string)
  | OpLost (id : string)
  | OpReconcile (id : string) (outcome : PostEffectOutcome)
  | OpReclaim (id : string) (process_dead no_live_effect : bool)
  | OpGeneration (k : TypedResourceKey) (g : N)
  | OpDetach (session : string)
  | OpReplay (f : LeaseLifecycleFact) (recovery : bool) (fresh : LeaseBearer).

Definition lease_exec (now : N) (o : lease_op) (c : Coordinator) : Coordinator :=
  match o with
  | OpAcquire o k a s obs ttl b => (acquire o k a s obs now ttl b c).2
  | OpTakeover o k a s obs ttl b => (takeover o k a s obs now ttl b c).2
  | OpRenew h b obs => (renew h b obs now c).2
  | OpHeartbeat h b => (lease_heartbeat h b now c).2
  | OpRelease h b => (lease_release h b now c).2
  | OpRevoke id d => (lease_revoke id d now c).2
  | OpSweep => (sweep_expired now c).2
  | OpActor id old new obs => (revalidate_actor_binding id old new obs now c).2
  | OpRestart b => (note_provider_restart b now c).2
  | OpRetire k d => (retire_resource k d now c).2
  | OpScope s => (invalidate_scope_fingerprint s now c).2
  | OpLost id => (mark_holder_lost id now c).2
  | OpReconcile id o => (lease_reconcile id o now c).2
  | OpReclaim id p e => (lease_reclaim id p e now c).2
  | OpGeneration k g => note_resource_generation k g c
  | OpDetach s => (detach_session s c).2
  | OpReplay f rec b => (apply_fact f rec b c).2
  end.

(** [lease_run now c ops now' c']: the operations, one after the other, at
    times that do not step back. *)
Inductive lease_run : N → Coordinator → list lease_op → N → Coordinator → Prop :=
  | lease_run_nil now c : lease_run now c [] now c
  | lease_run_step now c ops t c1 t' o :
      lease_run now c ops t c1 → (t ≤ t')%N → lease_run now c (ops ++ [o]) t' (lease_exec t' o c1).

Lemma lease_exec_ok now o c : coord_ok now c → coord_ok now (lease_exec now o c).
Proof.
  intros Hok. destruct o; simpl;
    first [by apply acquire_ok | by apply takeover_ok | eapply no_new_live_ok; [done|]].
  - by apply renew_no_new_live.
  - by apply heartbeat_no_new_live.
  - by apply release_no_new_live.
  - by apply revoke_no_new_live.
  - by apply sweep_no_new_live.
  - by apply actor_no_new_live.
  - by apply restart_no_new_live.
  - apply fold_no_new_live; [|done]. intros; by apply revoke_one_no_new_live.
  - apply fold_no_new_live; [|done]. intros; by apply revoke_one_no_new_live.
  - by apply lost_no_new_live.
  - by apply reconcile_no_new_live.
  - by apply reclaim_no_new_live.
  - by apply no_new_live_same.
  - by apply no_new_live_same.
  - by apply apply_fact_no_new_live.
Qed.

Lemma coordinator_new_ok now : coord_ok now coordinator_new.
Proof. by constructor. Qed.

Lemma lease_run_ok now c ops now' c' : lease_run now c ops now' c' → coord_ok now c → coord_ok now' c'.
Proof.
  induction 1 as [|now c ops t c1 t' o _ IH Hle]; [done|]. intros Hok.
  apply lease_exec_ok. by eapply coord_ok_later, IH.
Qed.

(** An exercise that is accepted comes from a live record. *)
Lemma validate_exercise_ok h b binding observed now c a :
  validate_exercise h b binding observed now c = Ok a →
  ∃ id r, leases c !! id = Some r ∧ a = attachment (lr_lease r) ∧ record_live now r = true ∧
    rl_fence (lr_lease r) = fence_of (record_key r) c.
Proof.
  unfold validate_exercise. destruct (presented h b c) as [[id r]|e] eqn:Ep; simpl; [|done].
  apply presented_lookup in Ep. unfold check_exercisable. cbv zeta.
  destruct (N.eqb_spec (rl_fence (lr_lease r)) (fence_of (record_key r) c)) as [Hf|]; simpl; [|done].
  destruct (lease_state_is_live _) eqn:E1; simpl; [|by case_bool_decide].
  destruct (N.ltb_spec (rl_expires_at_ms (lr_lease r)) now) as [|E2]; [done|].
  destruct (lr_holder_live r) eqn:E3; simpl; [|done].
  intros Hx. exists id, r. split; [done|]. split; [|split; [|done]].
  - repeat case_match; simplify_eq/=; done.
  - unfold record_live. by rewrite E1, E3, (proj2 (N.leb_le _ _) E2).
Qed.

Definition lease_access (id : string) (c : Coordinator) : option LeaseAccess :=
  (λ r, rl_access (lr_lease r)) <$> leases c !! id.

(** [C40] No two leases are exercised at once unless they only observe: from a
    new coordinator, after any operations - replays included - at times that
    do not step back, two exercises accepted at the same moment for the same
    resource come from the same lease, or from two leases with observing
    access. *)
Theorem leases_are_exclusive t0 ops now c h1 b1 n1 o1 a1 h2 b2 n2 o2 a2 :
  lease_run t0 coordinator_new ops now c →
  validate_exercise h1 b1 n1 o1 now c = Ok a1 →
  validate_exercise h2 b2 n2 o2 now c = Ok a2 →
  la_resource_key a1 = la_resource_key a2 →
  la_lease_id a1 = la_lease_id a2 ∨
  (is_observation <$> lease_access (la_lease_id a1) c = Some true ∧
   is_observation <$> lease_access (la_lease_id a2) c = Some true).
Proof.
  intros Hrun%lease_run_ok; [|apply coordinator_new_ok].
  intros (id1 & r1 & Hr1 & -> & Hv1 & _)%validate_exercise_ok
         (id2 & r2 & Hr2 & -> & Hv2 & _)%validate_exercise_ok Hk.
  unfold lease_access, attachment. simpl.
  rewrite (ck_ids now c Hrun _ _ Hr1), (ck_ids now c Hrun _ _ Hr2), Hr1, Hr2. simpl.
  destruct (decide (id1 = id2)) as [|Hne]; [by left|right].
  pose proof (ck_excl now c Hrun _ _ _ _ Hr1 Hr2 Hne Hk Hv1 Hv2) as Hc.
  unfold compatible_with in Hc. apply andb_true_iff in Hc as [-> ->]. done.
Qed.

(** An acquired lease is good at once: when [acquire] grants, no live
    lease on the resource was incompatible, and its handle and bearer are
    accepted from the owner's binding, with the fence it was given. *)
Theorem acquired_lease_is_exercisable owner resource access scope observed now ttl fresh c a c' :
  acquire owner resource access scope observed now ttl fresh c = (Ok a, c') →
  validate_exercise (aq_handle a) fresh (ow_binding_id owner) observed now c' = Ok (aq_attachment a) ∧
  (∀ h, h ∈ live_holders (canonical_key resource) now c →
     compatible_with access (rl_access (lr_lease h)) = true) ∧
  (is_exclusive access = true → la_fence (aq_attachment a) = u64_add (current_fence resource c) 1).
Proof.
  intros Ha. destruct (acquire_cases _ _ _ _ _ _ _ _ _ _ _ Ha)
    as [(_ & [=] & _)|[(_ & [=] & _)|(Hreq & Hg & Hcomp & Hv & Hr & Hl & Hi & Hf & _)]].
  injection Hr as ->. split_and!; [|done|].
  - unfold validate_exercise, presented. simpl aq_handle.
    rewrite Hi, lookup_insert_eq, Hl, lookup_insert_eq. cbn -[minted_lease].
    replace (bearer_matches fresh fresh) with true; [|symmetry; unfold bearer_matches; apply negb_true_iff;
      clear; induction fresh as [|x s IH]; [done|simpl; by rewrite Ascii.eqb_refl]].
    simpl negb. cbv iota. unfold check_exercisable, record_key, fence_of. cbv zeta. simpl lr_lease.
    apply acquire_request_ok in Hreq. simpl. rewrite Hf.
    change (canonical_key {| rk_kind := rk_kind resource; rk_stable_id := rk_stable_id resource;
      rk_generation := observed |}) with (canonical_key resource).
    rewrite lookup_insert_eq, Hg, N.eqb_refl. simpl.
    assert (Hexp : (now < u64_add now ttl)%N).
    { by apply lease_validate_bounded in Hv. }
    destruct (N.ltb_spec (u64_add now ttl) now); [lia|]. rewrite String.eqb_refl, N.eqb_refl. done.
  - simpl. intros Hx. unfold next_fence. by rewrite Hx.
Qed.

(** ** Terminal leases stay terminal *)

(** Between the coordinators: no lease appears, none that is over changes its
    state, and no id is minted. *)
Definition settled_kept (c c' : Coordinator) : Prop :=
  next_lease_seq c' = next_lease_seq c ∧
  (∀ id, is_Some (leases c' !! id) → is_Some (leases c !! id)) ∧
  ∀ id s, lease_state_is_terminal s = true → lease_state id c = Some s → lease_state id c' = Some s.

Lemma settled_same c c' :
  leases c' = leases c → next_lease_seq c' = next_lease_seq c → settled_kept c c'.
Proof. intros Hl Hs. unfold settled_kept, lease_state. by rewrite Hl. Qed.

Lemma settled_trans c1 c2 c3 : settled_kept c1 c2 → settled_kept c2 c3 → settled_kept c1 c3.
Proof. intros (?&?&?) (?&?&?). split_and!; [congruence|auto..]. Qed.

Lemma settled_update c c' id r r' :
  leases c !! id = Some r → leases c' = <[id := r']> (leases c) → next_lease_seq c' = next_lease_seq c →
  (lease_state_is_terminal (rl_state (lr_lease r)) = true →
     rl_state (lr_lease r') = rl_state (lr_lease r)) →
  settled_kept c c'.
Proof.
  intros Hr Hl Hs Ht. split; [done|]. unfold lease_state. rewrite Hl. split.
  - intros id' [x Hx]. destruct (decide (id' = id)) as [->|]; [by eexists|].
    by rewrite lookup_insert_ne in Hx.
  - intros id' s Hterm. destruct (decide (id' = id)) as [->|]; [|by rewrite lookup_insert_ne].
    rewrite Hr, lookup_insert_eq. simpl. intros [= <-]. by rewrite Ht.
Qed.

(** The operation changes nothing or one record it looked up. *)
Ltac settled :=
  cbv zeta; repeat (case_match; simplify_eq/=; try done);
  solve [ by apply settled_same
        | eapply settled_update; [eassumption|reflexivity|reflexivity|];
          simpl; intros; try done; by destruct (rl_state _) ].

Lemma renew_settled h b o t c : settled_kept c (renew h b o t c).2.
Proof.
  unfold renew. destruct (presented h b c) as [[id r]|e] eqn:Ep; [|by apply settled_same].
  apply presented_lookup in Ep. settled.
Qed.

Lemma heartbeat_settled h b t c : settled_kept c (lease_heartbeat h b t c).2.
Proof.
  unfold lease_heartbeat. destruct (record_mut h b c) as [[id r]|e] eqn:Ep; [|by apply settled_same].
  apply record_mut_lookup in Ep. settled.
Qed.

Lemma release_settled h b t c : settled_kept c (lease_release h b t c).2.
Proof.
  unfold lease_release. destruct (record_mut h b c) as [[id r]|e] eqn:Ep; [|by apply settled_same].
  apply record_mut_lookup in Ep. cbv zeta.
  destruct (rl_state (lr_lease r)) eqn:Es; simpl; try by apply settled_same.
  eapply settled_update; [done..|]. by rewrite Es.
Qed.

Lemma revoke_settled id d t c : settled_kept c (lease_revoke id d t c).2.
Proof.
  unfold lease_revoke. destruct (leases c !! id) as [r|] eqn:Er; [|by apply settled_same].
  destruct (rl_state (lr_lease r)) eqn:Es; simpl; try (by apply settled_same);
    (eapply settled_update; [done..|]; by rewrite Es).
Qed.

Lemma revoke_each_settled ids d t c : settled_kept c (revoke_each ids d t c).2.
Proof.
  revert c. induction ids as [|id ids IH]; intros c; simpl; [by apply settled_same|].
  pose proof (revoke_settled id d t c) as Hn. destruct (lease_revoke id d t c) as [[f|e] c1]; [|done].
  pose proof (IH c1) as Hn'. destruct (revoke_each ids d t c1). by eapply settled_trans.
Qed.

Lemma fold_settled {A} (f : A * Coordinator → string → A * Coordinator) ids a c :
  (∀ a c id, settled_kept c (f (a, c) id).2) → settled_kept c (foldl f (a, c) ids).2.
Proof.
  intros Hf. revert a c. induction ids as [|id ids IH]; intros a c; simpl; [by apply settled_same|].
  pose proof (Hf a c id) as Hn. destruct (f (a, c) id) as [a1 c1]. by eapply settled_trans.
Qed.

(** A walk that drops the holder of every selected lease. *)
Lemma fold_drop_settled {A} target (f : A * Coordinator → string → A * Coordinator) ids a c :
  (∀ a c id, next_lease_seq (f (a, c) id).2 = next_lease_seq c ∧
     leases (f (a, c) id).2 = match leases c !! id with
                              | Some r => <[id := drop_holder target r]> (leases c)
                              | None => leases c
                              end) →
  (∀ id s, id ∈ ids → lease_state id c = Some s → lease_state_is_terminal s = true → s = target) →
  settled_kept c (foldl f (a, c) ids).2.
Proof.
  intros Hf. revert a c. induction ids as [|id ids IH]; intros a c Hids; simpl; [by apply settled_same|].
  destruct (Hf a c id) as [Hs Hl]. destruct (f (a, c) id) as [a1 c1]. simpl in Hs, Hl.
  assert (Hk : settled_kept c c1).
  { destruct (leases c !! id) as [r|] eqn:Er; [|by apply settled_same].
    eapply settled_update; [done..|]. intros Ht. symmetry. apply (Hids id); [left| |done].
    unfold lease_state. by rewrite Er. }
  eapply settled_trans; [done|]. apply IH. intros id' s Hin. unfold lease_state. rewrite Hl.
  destruct (leases c !! id) as [r|] eqn:Er.
  - destruct (decide (id' = id)) as [->|Hne].
    + rewrite lookup_insert_eq. simpl. by intros [= <-].
    + rewrite lookup_insert_ne by done. apply Hids. by right.
  - apply Hids. by right.
Qed.

Lemma select_ids_elem now c p id :
  coord_ok now c → id ∈ select_ids p c → ∃ r, leases c !! id = Some r ∧ p r = true.
Proof.
  intros Hok. unfold select_ids. rewrite list_elem_of_fmap. intros ([k r] & -> & Hin).
  apply list_elem_of_In, filter_In in Hin as [Hin Hp].
  apply list_elem_of_In, elem_of_map_iter in Hin. simpl in *. exists r.
  by rewrite (ck_ids now c Hok k r Hin).
Qed.

Lemma sweep_settled now t c : coord_ok now c → settled_kept c (sweep_expired t c).2.
Proof.
  intros Hok. apply fold_drop_settled with (target := LExpired).
  - intros fs c1 id. unfold sweep_one. by destruct (leases c1 !! id).
  - intros id s (r & Hr & Hp)%(select_ids_elem now) Hs; [|done]. unfold lease_state in Hs. rewrite Hr in Hs.
    apply andb_true_iff in Hp as [Hp%bool_decide_eq_true_1 _]. simplify_eq/=. by rewrite Hp.
Qed.

Lemma restart_settled now b t c : coord_ok now c → settled_kept c (note_provider_restart b t c).2.
Proof.
  intros Hok. unfold note_provider_restart. cbv zeta. set (c1 := set_provider_generations _ c).
  assert (Hok1 : coord_ok now c1) by (by eapply no_new_live_ok, no_new_live_same).
  apply (settled_trans c c1); [by apply settled_same|]. clearbody c1.
  apply fold_drop_settled with (target := LUncertain).
  - intros fs c2 id. unfold restart_one, bump_fence. by destruct (leases c2 !! id).
  - intros id s (r & Hr & Hp)%(select_ids_elem now) Hs; [|done]. unfold lease_state in Hs. rewrite Hr in Hs.
    apply andb_true_iff in Hp as [_ Hp%bool_decide_eq_true_1]. simplify_eq/=. by rewrite Hp.
Qed.

Lemma revoke_one_settled d t fs c id : settled_kept c (revoke_one d t (fs, c) id).2.
Proof.
  unfold revoke_one. pose proof (revoke_settled id d t c) as Hn. by destruct (lease_revoke id d t c).
Qed.

Lemma actor_settled id old new o t c : settled_kept c (revalidate_actor_binding id old new o t c).2.
Proof. unfold revalidate_actor_binding. settled. Qed.

Lemma lost_settled id t c : settled_kept c (mark_holder_lost id t c).2.
Proof.
  unfold mark_holder_lost. destruct (leases c !! id) as [r|] eqn:Er; [|by apply settled_same]. cbv zeta.
  case_bool_decide as Es; simpl; [|by apply settled_same]. eapply settled_update; [done..|]. by rewrite Es.
Qed.

Lemma reconcile_settled id o t c : settled_kept c (lease_reconcile id o t c).2.
Proof.
  unfold lease_reconcile. destruct (leases c !! id) as [r|] eqn:Er; [|by apply settled_same]. cbv zeta.
  destruct (rl_state (lr_lease r)) eqn:Es; try (by apply settled_same).
  destruct (is_settled o); [|by apply settled_same]. eapply settled_update; [done..|]. by rewrite Es.
Qed.

Lemma reclaim_settled id p e t c : settled_kept c (lease_reclaim id p e t c).2.
Proof.
  unfold lease_reclaim. destruct (leases c !! id) as [r|] eqn:Er; [|by apply settled_same]. cbv zeta.
  case_bool_decide as Es; simpl; [|by apply settled_same]. destruct (_ || _); [by apply settled_same|].
  simpl. eapply settled_update; [done..|]. by rewrite Es.
Qed.

(** The ids a coordinator has minted so far. *)
Definition ids_minted (c : Coordinator) : Prop :=
  ∀ id, is_Some (leases c !! id) → ∃ t s, id = lease_id_of t s ∧ (s < next_lease_seq c)%N.

Lemma lease_id_of_inj t s t' s' : lease_id_of t s = lease_id_of t' s' → s = s'.
Proof.
  change (join (ch "-") ["lease"; pretty t; pretty s] = join (ch "-") ["lease"; pretty t'; pretty s'] → s = s').
  intros Heq%(f_equal (split "-")). revert Heq.
  rewrite !split_join by (first [done | repeat constructor; by apply pretty_no_char]).
  by intros [= _ ->%pretty_N_inj].
Qed.

Definition is_live_op (o : lease_op) : bool := match o with OpReplay _ _ _ => false | _ => true end.

(** One step: at most one id is minted, it is new, and what was over stays. *)
Definition lease_advances (c c' : Coordinator) : Prop :=
  (next_lease_seq c' ≤ next_lease_seq c + 1)%N ∧ ids_minted c' ∧
  ∀ id s, lease_state_is_terminal s = true → lease_state id c = Some s → lease_state id c' = Some s.

Lemma settled_advances c c' : ids_minted c → settled_kept c c' → lease_advances c c'.
Proof.
  intros Hm (Hs & Hd & Hk). split_and!; [lia| |done]. intros id (t & s & -> & ?)%Hd%Hm.
  exists t, s. split; [done|lia].
Qed.

Lemma acquire_advances o k a sc obs now ttl fresh c :
  ids_minted c → (next_lease_seq c < u64_max)%N →
  lease_advances c (acquire o k a sc obs now ttl fresh c).2.
Proof.
  intros Hm Hlt. destruct (acquire _ _ _ _ _ _ _ _ c) as [r c'] eqn:Ea. simpl.
  assert (Hadd : u64_add (next_lease_seq c) 1 = (next_lease_seq c + 1)%N) by (apply u64_add_small; lia).
  destruct (acquire_cases _ _ _ _ _ _ _ _ _ _ _ Ea)
    as [(Hl & _ & Hs)|[(Hl & _ & Hs)|(_ & _ & _ & _ & _ & Hl & _ & _ & Hs)]].
  - by apply settled_advances, settled_same.
  - unfold lease_advances, ids_minted, lease_state. rewrite Hs, Hadd, Hl. split_and!; [lia| |done].
    intros id (t & s & -> & ?)%Hm. exists t, s. split; [done|lia].
  - set (l := minted_lease _ _ _ _ _ _ _ _ _) in Hl.
    change (rl_lease_id l) with (lease_id_of now (next_lease_seq c)) in Hl.
    unfold lease_advances, ids_minted, lease_state. rewrite Hs, Hadd, Hl. split_and!; [lia| |].
    + intros id [<-|[Hne ?]]%lookup_insert_is_Some; [eexists _, _; split; [done|lia]|].
      destruct (Hm id) as (t & s & -> & ?); [done|]. exists t, s. split; [done|lia].
    + intros id s Hterm Hid. rewrite lookup_insert_ne; [done|]. intros <-.
      destruct (leases c !! _) as [x|] eqn:Ex in Hid; [|done].
      destruct (Hm (lease_id_of now (next_lease_seq c))) as (t & s' & Heq%lease_id_of_inj & ?); [by eexists|lia].
Qed.

Lemma exec_advances t o c :
  coord_ok t c → ids_minted c → (next_lease_seq c < u64_max)%N → is_live_op o = true →
  lease_advances c (lease_exec t o c).
Proof.
  intros Hok Hm Hlt. destruct o; simpl; intros Hlive;
    [by apply acquire_advances | | apply settled_advances; [done|] .. | done].
  - unfold takeover. destruct (owner_validate o); [|by apply settled_advances, settled_same]. cbv zeta.
    match goal with |- context [revoke_each ?ids ?d ?t c] =>
      pose proof (revoke_each_settled ids d t c) as Hn; destruct (revoke_each ids d t c) as [[fs|e] c1];
      simpl in Hn |- * end; [|by apply settled_advances].
    destruct (settled_advances c c1 Hm Hn) as (_ & Hm1 & Hk1). destruct Hn as (Hs & _).
    pose proof (acquire_advances o k a scope observed t ttl fresh c1 Hm1) as Ha.
    destruct (acquire _ _ _ _ _ _ _ _ c1) as [r c2]. simpl in Ha |- *.
    destruct Ha as (? & ? & ?); [lia|]. split_and!; [lia|done|auto].
  - apply renew_settled.
  - apply heartbeat_settled.
  - apply release_settled.
  - apply revoke_settled.
  - by eapply sweep_settled.
  - apply actor_settled.
  - by eapply restart_settled.
  - apply fold_settled. intros; apply revoke_one_settled.
  - apply fold_settled. intros; apply revoke_one_settled.
  - apply lost_settled.
  - apply reconcile_settled.
  - apply reclaim_settled.
  - by apply settled_same.
  - by apply settled_same.
Qed.

Lemma lease_run_advances t0 c ops t c' :
  lease_run t0 c ops t c' → coord_ok t0 c → ids_minted c → forallb is_live_op ops = true →
  (next_lease_seq c + N.of_nat (length ops) ≤ u64_max)%N →
  ids_minted c' ∧ (next_lease_seq c' ≤ next_lease_seq c + N.of_nat (length ops))%N ∧
  ∀ id s, lease_state_is_terminal s = true → lease_state id c = Some s → lease_state id c' = Some s.
Proof.
  intros Hrun Hok Hm. revert Hok Hm. induction Hrun as [|now c ops t c1 t' o Hr IH Hle]; intros Hok Hm.
  - intros _ _. split_and!; [done|lia|done].
  - rewrite forallb_app, length_app, andb_true_iff. simpl. rewrite andb_true_r. intros [Hops Ho] Hlen.
    destruct IH as (Hm1 & Hs1 & Hk1); [done..|lia|].
    destruct (exec_advances t' o c1) as (Hs2 & Hm2 & Hk2); [|done|lia|done|].
    + by eapply coord_ok_later, lease_run_ok.
    + split_and!; [done|lia|auto].
Qed.

(** A lease that is over stays over: in any run of the coordinator's live
    operations from a new one - takeovers, revocations, sweeps, restarts, and
    replacements of the same resource included - a lease that was released,
    expired, revoked or reclaimed keeps exactly that state, and no handle and
    bearer are ever accepted for it again. *)
Theorem terminal_leases_stay_terminal t0 ops1 t1 c1 ops2 t2 c2 id s :
  lease_run t0 coordinator_new ops1 t1 c1 → lease_run t1 c1 ops2 t2 c2 →
  forallb is_live_op (ops1 ++ ops2) = true → (N.of_nat (length (ops1 ++ ops2)) < u64_max)%N →
  lease_state id c1 = Some s → lease_state_is_terminal s = true →
  lease_state id c2 = Some s ∧
  ∀ h b binding observed now a,
    validate_exercise h b binding observed now c2 = Ok a → la_lease_id a ≠ id.
Proof.
  intros Hr1 Hr2. rewrite forallb_app, length_app, andb_true_iff. intros [Ho1 Ho2] Hlen Hs Hterm.
  pose proof (lease_run_ok _ _ _ _ _ Hr1 (coordinator_new_ok t0)) as Hok1.
  pose proof (lease_run_ok _ _ _ _ _ Hr2 Hok1) as Hok2.
  destruct (lease_run_advances _ _ _ _ _ Hr1 (coordinator_new_ok t0)) as (Hm1 & Hn1 & _);
    [by intros ? [? ?]|done|simpl; lia|].
  destruct (lease_run_advances _ _ _ _ _ Hr2 Hok1 Hm1 Ho2) as (_ & _ & Hk); [simpl in Hn1; lia|].
  split; [by apply Hk|]. intros h b n o now a (id' & r & Hr & -> & Hv & _)%validate_exercise_ok. simpl.
  rewrite (ck_ids _ _ Hok2 _ _ Hr). intros ->. pose proof (Hk _ _ Hterm Hs) as Hs2.
  unfold lease_state in Hs2. rewrite Hr in Hs2. simplify_eq/=. unfold record_live in Hv.
  by destruct (rl_state (lr_lease r)).
Qed.
End facts.

(** ** A concrete coordinator *)

#[local] Existing Instance plain_render.

Definition lf_owner_of (s : string) : OwnerContext :=
  {| ow_session_id := s; ow_work_id := "w1"; ow_run_id := "r1"; ow_binding_id := "b1" |}.
Definition lf_file (path : string) : TypedResourceKey :=
  {| rk_kind := RkFile; rk_stable_id := path; rk_generation := 1 |}.
Definition lf_acquire (s path : string) (a : LeaseAccess) : lease_op :=
  OpAcquire (lf_owner_of s) (lf_file path) a "scope" 1 1000 s.
Definition lf_play (ops : list lease_op) : Coordinator :=
  foldl (λ c o, lease_exec 100 o c) coordinator_new ops.

Lemma lf_play_run ops : lease_run 100 coordinator_new ops 100 (lf_play ops).
Proof.
  induction ops as [|o ops IH] using rev_ind; [constructor|].
  unfold lf_play. rewrite foldl_app. simpl. by eapply lease_run_step.
Defined.

Definition lf_shared : Coordinator :=
  lf_play [lf_acquire "A" "src/main.rs" LObserve; lf_acquire "B" "src/main.rs" LView].

Lemma leases_are_exclusive_witness :
  is_observation <$> lease_access "lease-100-1" lf_shared = Some true.
Proof.
  destruct (leases_are_exclusive 100
    [lf_acquire "A" "src/main.rs" LObserve; lf_acquire "B" "src/main.rs" LView] 100 lf_shared 1 "A" "b1" 1
    {| la_lease_id := "lease-100-1"; la_session_scope := "A"; la_resource_key := "file:src/main.rs";
       la_generation := 1; la_fence := 1; la_state := LActive |} 2 "B" "b1" 1
    {| la_lease_id := "lease-100-2"; la_session_scope := "B"; la_resource_key := "file:src/main.rs";
       la_generation := 1; la_fence := 1; la_state := LActive |}) as [Hx|[Hx _]].
  - apply lf_play_run.
  - vm_compute. reflexivity.
  - vm_compute. reflexivity.
  - reflexivity.
  - discriminate Hx.
  - exact Hx.
Defined.

Definition lf_granted : AcquiredLease * Coordinator :=
  match acquire (lf_owner_of "A") (lf_file "src/main.rs") LEdit "scope" 1 100 1000 "key" coordinator_new with
  | (Ok a, c) => (a, c)
  | (Err _, c) => ({| aq_handle := 0; aq_bearer := "";
      aq_attachment := attachment (minted_lease (lf_owner_of "") (lf_file "") LEdit "" 0 0 0 0 0);
      aq_fact := fact_new "" "" 0 0 0 |}, c)
  end.

Lemma acquired_lease_is_exercisable_witness :
  validate_exercise 1 "key" "b1" 1 100 lf_granted.2 = Ok (aq_attachment lf_granted.1) ∧
  la_fence (aq_attachment lf_granted.1) = 1%N.
Proof.
  destruct (acquired_lease_is_exercisable (lf_owner_of "A") (lf_file "src/main.rs") LEdit "scope" 1 100
    1000 "key" coordinator_new lf_granted.1 lf_granted.2) as (Hv & _ & Hf).
  - vm_compute. reflexivity.
  - split; [exact Hv|exact (Hf eq_refl)].
Defined.

Definition lf_revoked : list lease_op :=
  [lf_acquire "A" "src/main.rs" LEdit; OpRevoke "lease-100-1" "policy"].

Lemma terminal_leases_stay_terminal_witness :
  lease_state "lease-100-1" (lease_exec 101 (lf_acquire "B" "src/main.rs" LEdit) (lf_play lf_revoked))
    = Some LRevoked.
Proof.
  refine (proj1 (terminal_leases_stay_terminal 100 lf_revoked 100 (lf_play lf_revoked)
    ([] ++ [lf_acquire "B" "src/main.rs" LEdit]) 101 _ "lease-100-1" LRevoked _ _ _ _ _ _)).
  - apply lf_play_run.
  - eapply lease_run_step; [constructor|done].
  - reflexivity.
  - reflexivity.
  - vm_compute. reflexivity.
  - reflexivity.
Defined.

(** ** Where the code departs from its documentation *)

(** Revoking a lease that is already revoked succeeds again and advances the
    fence of its resource: the lease since issued to another owner is stale,
    cannot be exercised, and still blocks every other request. *)
Example repeated_revoke_strands_the_current_holder :
  let c := lf_play (lf_revoked ++ [lf_acquire "B" "src/main.rs" LEdit]) in
  let r := lease_revoke "lease-100-1" "policy" 100 c in
  is_ok r.1 = true ∧
  validate_exercise 2 "B" "b1" 1 100 c =
    Ok {| la_lease_id := "lease-100-2"; la_session_scope := "B"; la_resource_key := "file:src/main.rs";
          la_generation := 1; la_fence := 3; la_state := LActive |} ∧
  validate_exercise 2 "B" "b1" 1 100 r.2 = Err (StaleLease "lease-100-2" 3 4) ∧
  (acquire (lf_owner_of "C") (lf_file "src/main.rs") LEdit "scope" 1 100 1000 "C" r.2).1 =
    Err (Conflict "file:src/main.rs" "edit" "lease-100-2").
Proof. vm_compute. done. Qed.

(** A lost holder's lease is uncertain, and the resource is granted anew
    without any reconciliation. *)
Example uncertain_lease_does_not_block :
  let c := lf_play [lf_acquire "A" "src/main.rs" LEdit; OpLost "lease-100-1"] in
  lease_state "lease-100-1" c = Some LUncertain ∧
  is_ok (acquire (lf_owner_of "B") (lf_file "src/main.rs") LEdit "scope" 1 100 1000 "B" c).1 = true.
Proof. vm_compute. done. Qed.

(** A takeover refused for its own request has already revoked the holder and
    returns no fact of that. *)
Example refused_takeover_revokes_the_holder :
  let c := lf_play [lf_acquire "A" "src/main.rs" LEdit] in
  let r := takeover (lf_owner_of "B") (lf_file "src/main.rs") LEdit "scope" 1 100 0 "B" c in
  r.1 = Err (InvalidRequest "lease lifetime must be bounded and non-zero") ∧
  lease_state "lease-100-1" r.2 = Some LRevoked.
Proof. vm_compute. done. Qed.

(** Revoking one observer makes the other observers of the resource stale. *)
Example revoked_observer_stales_the_others :
  validate_exercise 2 "B" "b1" 1 100 lf_shared =
    Ok {| la_lease_id := "lease-100-2"; la_session_scope := "B"; la_resource_key := "file:src/main.rs";
          la_generation := 1; la_fence := 1; la_state := LActive |} ∧
  validate_exercise 2 "B" "b1" 1 100 (lease_revoke "lease-100-1" "policy" 100 lf_shared).2 =
    Err (StaleLease "lease-100-2" 1 2).
Proof. vm_compute. done. Qed.

(** A replay in recovery brings a renewed lease back as [active]. *)
Example recovery_replays_a_renewal_as_active :
  let l := minted_lease (lf_owner_of "A") (lf_file "src/main.rs") LEdit "scope" 1 100 1000 1 1 in
  let c1 := (apply_fact (acquire_fact (lf_owner_of "A") LEdit "scope" 1 100 1 l) true "k" coordinator_new).2 in
  let c2 := (apply_fact (fact_new "lease-100-1" LEASE_EVENT_RENEWED 1 1 200) true "k" c1).2 in
  lease_state "lease-100-1" c1 = Some LUncertain ∧ lease_state "lease-100-1" c2 = Some LActive.
Proof. vm_compute. done. Qed.

(** A file whose name contains a forbidden key cannot be leased, and every
    attempt advances the fence of the resource. *)
Example secret_shaped_path_is_never_leased :
  let r := acquire (lf_owner_of "A") (lf_file "src/token.rs") LEdit "scope" 1 100 1000 "A" coordinator_new in
  r.1 = Err (InvalidRequest "lease fact must not carry secret-shaped keys") ∧
  current_fence (lf_file "src/token.rs") r.2 = 1%N.
Proof. vm_compute. done. Qed.
