(* ===== verification/WorkTypes.v ===== *)
(** * The Work vocabulary ([everyaios-types])

    Work states and their transitions, durable waits, session kinds, effect
    uncertainty and retry classes, agent bindings, delegation refusals and
    liveness ([delegation.rs]) and turn-scoped change sets ([turn_snapshot.rs]). *)
From S2P Require Import Order Prelude Json LeaseTypes.

(** ** Work states *)

(* SRC types/src/lib.rs @enum:WorkState WorkState *)
Inductive WorkState :=
  | WCreated | WPlanning | WReady | WRunning | WWaitingTool | WWaitingApproval | WWaitingUser
  | WCheckpointed | WVerifying | WCompleted | WFailed | WCancelled | WPaused | WRecoverable.

#[export] Instance work_state_eq_dec : EqDecision WorkState.
Proof. solve_decision. Defined.

Definition all_work_states : list WorkState :=
  [WCreated; WPlanning; WReady; WRunning; WWaitingTool; WWaitingApproval; WWaitingUser;
   WCheckpointed; WVerifying; WCompleted; WFailed; WCancelled; WPaused; WRecoverable].

(* SRC types/src/lib.rs @enum:WorkRunPhase WorkRunPhase *)
Inductive WorkRunPhase :=
  | PhActive | PhWaitingTool | PhWaitingApproval | PhWaitingUser | PhCheckpointed.

(* SRC types/src/lib.rs @fn:as_str#2 WorkRunPhase::as_str *)
Definition run_phase_as_str (p : WorkRunPhase) : string :=
  match p with
  | PhActive => "active" | PhWaitingTool => "waiting_tool" | PhWaitingApproval => "waiting_approval"
  | PhWaitingUser => "waiting_user" | PhCheckpointed => "checkpointed"
  end.

(* SRC types/src/lib.rs @fn:work_state WorkRunPhase::work_state *)
Definition run_phase_work_state (p : WorkRunPhase) : WorkState :=
  match p with
  | PhActive => WRunning | PhWaitingTool => WWaitingTool | PhWaitingApproval => WWaitingApproval
  | PhWaitingUser => WWaitingUser | PhCheckpointed => WCheckpointed
  end.

(* SRC types/src/lib.rs @fn:as_str#3 WorkState::as_str *)
Definition work_state_as_str (s : WorkState) : string :=
  match s with
  | WCreated => "created" | WPlanning => "planning" | WReady => "ready" | WRunning => "running"
  | WWaitingTool => "waiting_tool" | WWaitingApproval => "waiting_approval"
  | WWaitingUser => "waiting_user" | WCheckpointed => "checkpointed" | WVerifying => "verifying"
  | WCompleted => "completed" | WFailed => "failed" | WCancelled => "cancelled"
  | WPaused => "paused" | WRecoverable => "recoverable"
  end.

(* SRC types/src/lib.rs @fn:try_parse WorkState::try_parse *)
Definition work_state_try_parse : string → option WorkState :=
  parse_spelling
    [("created", WCreated); ("planning", WPlanning); ("ready", WReady); ("running", WRunning);
     ("waiting_tool", WWaitingTool); ("waiting-tool", WWaitingTool);
     ("waiting_approval", WWaitingApproval); ("waiting-approval", WWaitingApproval);
     ("waiting_user", WWaitingUser); ("waiting-user", WWaitingUser);
     ("checkpointed", WCheckpointed); ("verifying", WVerifying); ("completed", WCompleted);
     ("failed", WFailed); ("cancelled", WCancelled); ("canceled", WCancelled); ("paused", WPaused);
     ("recoverable", WRecoverable)].

(* SRC types/src/lib.rs @fn:parse WorkState::parse *)
Definition work_state_parse (s : string) : WorkState := default WCreated (work_state_try_parse s).

(* SRC types/src/lib.rs @fn:is_running WorkState::is_running *)
Definition work_is_running (s : WorkState) : bool :=
  match s with
  | WRunning | WWaitingTool | WWaitingApproval | WWaitingUser | WCheckpointed => true
  | _ => false
  end.

(* SRC types/src/lib.rs @fn:run_phase WorkState::run_phase *)
Definition work_run_phase (s : WorkState) : option WorkRunPhase :=
  match s with
  | WRunning => Some PhActive | WWaitingTool => Some PhWaitingTool
  | WWaitingApproval => Some PhWaitingApproval | WWaitingUser => Some PhWaitingUser
  | WCheckpointed => Some PhCheckpointed | _ => None
  end.

(* SRC types/src/lib.rs @fn:is_resumable WorkState::is_resumable *)
Definition work_is_resumable (s : WorkState) : bool :=
  match s with WPaused | WCheckpointed | WRecoverable | WWaitingUser => true | _ => false end.

(* SRC types/src/lib.rs @fn:is_terminal WorkState::is_terminal *)
Definition work_is_terminal (s : WorkState) : bool :=
  match s with WCompleted | WFailed | WCancelled => true | _ => false end.

(** The targets listed for each non-terminal state. *)
Definition work_targets (s : WorkState) : list WorkState :=
  match s with
  | WCreated => [WPlanning; WReady; WCancelled]
  | WPlanning => [WReady; WFailed; WCancelled]
  | WReady => [WRunning; WWaitingTool; WWaitingApproval; WWaitingUser; WCancelled]
  | WRunning => [WWaitingTool; WWaitingApproval; WWaitingUser; WCheckpointed; WVerifying; WCompleted;
                 WFailed; WCancelled; WPaused; WRecoverable]
  | WWaitingTool | WWaitingApproval | WWaitingUser =>
      [WRunning; WFailed; WCancelled; WPaused; WRecoverable; WWaitingTool; WWaitingApproval; WWaitingUser]
  | WCheckpointed => [WRunning; WFailed; WCancelled; WPaused; WRecoverable]
  | WVerifying => [WCompleted; WFailed; WCancelled; WRecoverable]
  | WPaused => [WRunning; WFailed; WCancelled; WRecoverable]
  | WRecoverable => [WRunning; WFailed; WCancelled]
  | WCompleted | WFailed | WCancelled => []
  end.

(* SRC types/src/lib.rs @fn:can_transition WorkState::can_transition *)
Definition work_can_transition (self next : WorkState) : bool :=
  if bool_decide (self = next) then true
  else if work_is_terminal self then false
  else bool_decide (next ∈ work_targets self).

(** ** Waits *)

(* SRC types/src/lib.rs @enum:WaitReason WaitReason *)
Inductive WaitReason := WaApproval | WaUserInput | WaTimer | WaExternalEvent | WaResource | WaAgent | WaRetry.

#[export] Instance wait_reason_eq_dec : EqDecision WaitReason.
Proof. solve_decision. Defined.

(* SRC types/src/lib.rs @fn:as_str#4 WaitReason::as_str *)
Definition wait_reason_as_str (r : WaitReason) : string :=
  match r with
  | WaApproval => "approval" | WaUserInput => "user_input" | WaTimer => "timer"
  | WaExternalEvent => "external_event" | WaResource => "resource" | WaAgent => "agent"
  | WaRetry => "retry"
  end.

(* SRC types/src/lib.rs @fn:parse#2 WaitReason::parse *)
Definition wait_reason_parse : string → option WaitReason :=
  parse_spelling
    [("approval", WaApproval); ("user_input", WaUserInput); ("user-input", WaUserInput);
     ("timer", WaTimer); ("external_event", WaExternalEvent); ("external-event", WaExternalEvent);
     ("resource", WaResource); ("agent", WaAgent); ("retry", WaRetry)].

(* SRC types/src/lib.rs @fn:work_state#2 WaitReason::work_state *)
Definition wait_reason_work_state (r : WaitReason) : WorkState :=
  match r with
  | WaApproval => WWaitingApproval
  | WaUserInput => WWaitingUser
  | WaTimer | WaExternalEvent | WaResource | WaAgent | WaRetry => WPaused
  end.

(* SRC types/src/lib.rs @struct:WaitCondition WaitCondition *)
Record WaitCondition := {
  wa_reason : WaitReason;
  wa_detail : option string;
  wa_deadline_ms : option N;
  wa_resume_on : option string
}.

#[export] Instance wait_condition_eq_dec : EqDecision WaitCondition.
Proof. solve_decision. Defined.

(* SRC types/src/lib.rs @fn:new#2 WaitCondition::new *)
Definition wait_new (r : WaitReason) : WaitCondition :=
  {| wa_reason := r; wa_detail := None; wa_deadline_ms := None; wa_resume_on := None |}.

(** ** Sessions, retries, uncertainty *)

(* SRC types/src/lib.rs @enum:SessionKind SessionKind *)
Inductive SessionKind := SkInteractive | SkAutomation | SkDelegated.

#[export] Instance session_kind_eq_dec : EqDecision SessionKind.
Proof. solve_decision. Defined.

(* SRC types/src/lib.rs @fn:as_str#8 SessionKind::as_str *)
Definition session_kind_as_str (k : SessionKind) : string :=
  match k with SkInteractive => "interactive" | SkAutomation => "automation" | SkDelegated => "delegated" end.

(* SRC types/src/lib.rs @fn:parse#5 SessionKind::parse *)
Definition session_kind_parse (s : string) : SessionKind :=
  if String.eqb s "automation" then SkAutomation
  else if String.eqb s "delegated" then SkDelegated else SkInteractive.

(* SRC types/src/lib.rs @fn:chat_is_normal SessionKind::chat_is_normal *)
Definition chat_is_normal (k : SessionKind) : bool := bool_decide (k = SkInteractive).

(* SRC types/src/lib.rs @enum:IdempotencyClass IdempotencyClass *)
Inductive IdempotencyClass := IcSafeRetry | IcUnsafeRetry | IcSameKey | IcConfirmAfterUncertain.

(* SRC types/src/lib.rs @fn:as_str#5 IdempotencyClass::as_str *)
Definition idempotency_as_str (c : IdempotencyClass) : string :=
  match c with
  | IcSafeRetry => "safe_retry" | IcUnsafeRetry => "unsafe_retry" | IcSameKey => "same_key"
  | IcConfirmAfterUncertain => "confirm_after_uncertain"
  end.

(* SRC types/src/lib.rs @enum:EffectUncertainty EffectUncertainty *)
Inductive EffectUncertainty := EuNone | EuUnknownOutcome | EuPartial.

#[export] Instance idempotency_eq_dec : EqDecision IdempotencyClass.
Proof. solve_decision. Defined.
#[export] Instance effect_uncertainty_eq_dec : EqDecision EffectUncertainty.
Proof. solve_decision. Defined.

(** ** Agent bindings *)

(* SRC types/src/lib.rs @enum:AgentProtocol AgentProtocol *)
Inductive AgentProtocol := ApAcp | ApModelOnly.
(* SRC types/src/lib.rs @enum:AgentGovernanceMode AgentGovernanceMode *)
Inductive AgentGovernanceMode := GmGovernedMediated | GmSelfContained | GmNotGoverned.
(* SRC types/src/lib.rs @enum:BindingLifecycle BindingLifecycle *)
Inductive BindingLifecycle := BlActive | BlParked | BlResuming | BlDead | BlUnavailable.

(* SRC types/src/lib.rs @struct:BindingUsage BindingUsage *)
Record BindingUsage := { bu_input_tokens : N; bu_output_tokens : N; bu_cost_micros : N }.

#[export] Instance agent_protocol_eq_dec : EqDecision AgentProtocol.
Proof. solve_decision. Defined.
#[export] Instance governance_mode_eq_dec : EqDecision AgentGovernanceMode.
Proof. solve_decision. Defined.
#[export] Instance binding_lifecycle_eq_dec : EqDecision BindingLifecycle.
Proof. solve_decision. Defined.
#[export] Instance binding_usage_eq_dec : EqDecision BindingUsage.
Proof. solve_decision. Defined.

(* SRC types/src/lib.rs @struct:AgentBinding AgentBinding *)
Record AgentBinding := {
  ab_binding_id : string;
  ab_session_id : string;
  ab_work_id : string;
  ab_agent_id : string;
  ab_adapter_id : option string;
  ab_protocol : AgentProtocol;
  ab_provider_session_id : option string;
  ab_model : option string;
  ab_mode : option string;
  ab_capability_manifest : list string;
  ab_governance_mode : AgentGovernanceMode;
  ab_bridge_id : option string;
  ab_state : BindingLifecycle;
  ab_usage : BindingUsage;
  ab_last_event_seq : N;
  ab_private_state_ref : option string
}.

#[export] Instance agent_binding_eq_dec : EqDecision AgentBinding.
Proof. solve_decision. Defined.

(** ** Delegation: cycles and liveness *)

(* SRC types/src/delegation.rs 23 25 SUBAGENT_HEARTBEAT_TIMEOUT_MS *)
Definition SUBAGENT_HEARTBEAT_TIMEOUT_MS : N := 120000.

(* SRC types/src/delegation.rs @enum:CycleKind CycleKind *)
Inductive CycleKind := AncestorWork | DescendantWork | AncestorBinding | RecordedCycle.

#[export] Instance cycle_kind_eq_dec : EqDecision CycleKind.
Proof. solve_decision. Defined.

(* SRC types/src/delegation.rs @fn:as_str CycleKind::as_str *)
Definition cycle_kind_as_str (k : CycleKind) : string :=
  match k with
  | AncestorWork => "ancestor_work" | DescendantWork => "descendant_work"
  | AncestorBinding => "ancestor_binding" | RecordedCycle => "recorded_cycle"
  end.

(* SRC types/src/delegation.rs @struct:CycleRefusal CycleRefusal *)
Record CycleRefusal := {
  cy_kind : CycleKind;
  cy_chain : list string;
  cy_binding_id : option string;
  cy_proposed_child : string
}.

#[export] Instance cycle_refusal_eq_dec : EqDecision CycleRefusal.
Proof. solve_decision. Defined.

(* SRC types/src/delegation.rs @fn:reentry CyclicDelegationRefused::reentry *)
Definition cycle_reentry (k : CycleKind) : string :=
  match k with
  | AncestorWork => "an ancestor Work on the delegation chain"
  | DescendantWork => "its own descendant Work"
  | AncestorBinding => "an ancestor AgentBinding already running this chain"
  | RecordedCycle => "a Work graph that is already cyclic"
  end.

(* SRC types/src/delegation.rs @fn:fmt CyclicDelegationRefused::fmt *)
Definition cycle_display (r : CycleRefusal) : string :=
  "CyclicDelegationRefused (" +:+ cycle_kind_as_str (cy_kind r) +:+ "): " +:+ cy_proposed_child r +:+
  " would re-enter " +:+ cycle_reentry (cy_kind r) +:+ "; chain [" +:+ join " > " (cy_chain r) +:+ "]".

(* SRC types/src/delegation.rs @struct:SubagentLiveness SubagentLiveness *)
Record SubagentLiveness := {
  sl_child_work_id : string;
  sl_parent_work_id : string;
  sl_last_heartbeat_ms : N;
  sl_terminal : bool;
  sl_lease : option LeaseAttachment
}.

(* SRC types/src/delegation.rs @fn:silence_ms SubagentLiveness::silence_ms *)
Definition silence_ms (now_ms : N) (l : SubagentLiveness) : N := now_ms - sl_last_heartbeat_ms l.
(* SRC types/src/delegation.rs @fn:is_orphaned_at SubagentLiveness::is_orphaned_at *)
Definition is_orphaned_at (now_ms timeout_ms : N) (l : SubagentLiveness) : bool :=
  negb (sl_terminal l) && (timeout_ms <? silence_ms now_ms l)%N.

(* SRC types/src/delegation.rs @struct:SubagentTimeoutReceipt SubagentTimeoutReceipt *)
Record SubagentTimeoutReceipt := {
  tr_child_work_id : string;
  tr_parent_work_id : string;
  tr_silent_ms : N;
  tr_timeout_ms : N;
  tr_lease : option LeaseAttachment;
  tr_effect_ids : list string;
  tr_effect_state : PostEffectOutcome
}.

#[export] Instance timeout_receipt_eq_dec : EqDecision SubagentTimeoutReceipt.
Proof. solve_decision. Defined.

(* SRC types/src/delegation.rs @fn:outcome_is_uncertain SubagentTimeoutReceipt::outcome_is_uncertain *)
Definition outcome_is_uncertain (r : SubagentTimeoutReceipt) : bool :=
  bool_decide (tr_effect_state r = PoUncertain).

(** ** Change sets *)

Definition ROLLED_BACK_DUE_TO_FAILURE : string := "RolledBackDueToFailure".

(* SRC types/src/turn_snapshot.rs @enum:FileCaptureKind FileCaptureKind *)
Inductive FileCaptureKind := CkBytes | CkAbsentMarker.
(* SRC types/src/turn_snapshot.rs @enum:ChangeSetOutcome ChangeSetOutcome *)
Inductive ChangeSetOutcome := CoOpen | CoRolledBack | CoUncertain.

#[export] Instance capture_kind_eq_dec : EqDecision FileCaptureKind.
Proof. solve_decision. Defined.
#[export] Instance change_set_outcome_eq_dec : EqDecision ChangeSetOutcome.
Proof. solve_decision. Defined.

(* SRC types/src/turn_snapshot.rs @fn:as_str#2 ChangeSetOutcome::as_str *)
Definition change_outcome_as_str (o : ChangeSetOutcome) : string :=
  match o with
  | CoOpen => "open" | CoRolledBack => ROLLED_BACK_DUE_TO_FAILURE | CoUncertain => "uncertain"
  end.

(* SRC types/src/turn_snapshot.rs @fn:parse#2 ChangeSetOutcome::parse *)
Definition change_outcome_parse : string → option ChangeSetOutcome :=
  parse_spelling
    [("open", CoOpen); (ROLLED_BACK_DUE_TO_FAILURE, CoRolledBack);
     ("rolled_back_due_to_failure", CoRolledBack); ("rolled_back", CoRolledBack);
     ("uncertain", CoUncertain); ("unknown", CoUncertain)].

(* SRC types/src/turn_snapshot.rs @struct:FileSnapshotEntry FileSnapshotEntry *)
Record FileSnapshotEntry := {
  fe_path : string;
  fe_capture : FileCaptureKind;
  fe_pre_digest : string;
  fe_pre_len : N;
  fe_blob : option string;
  fe_lease : option LeaseAttachment
}.

#[export] Instance snapshot_entry_eq_dec : EqDecision FileSnapshotEntry.
Proof. solve_decision. Defined.

(* SRC types/src/turn_snapshot.rs @fn:lease_label FileSnapshotEntry::lease_label *)
Definition lease_label (e : FileSnapshotEntry) : string :=
  match fe_lease e with Some l => la_lease_id l | None => "none" end.

Definition is_some {A} (o : option A) : bool := match o with Some _ => true | None => false end.

(* SRC types/src/turn_snapshot.rs @fn:undo_handles FileSnapshotEntry::undo_handles *)
Definition undo_handles (e : FileSnapshotEntry) : bool :=
  match fe_capture e with CkBytes => is_some (fe_blob e) | CkAbsentMarker => true end.
(* SRC types/src/turn_snapshot.rs @fn:undo_deletes FileSnapshotEntry::undo_deletes *)
Definition undo_deletes (e : FileSnapshotEntry) : bool := bool_decide (fe_capture e = CkAbsentMarker).

(* SRC types/src/turn_snapshot.rs @fn:validate FileSnapshotEntry::validate *)
Definition snapshot_entry_validate (e : FileSnapshotEntry) : result unit string :=
  if is_empty (trim (fe_path e)) then Err "change-set entry requires a path"
  else if bool_decide (fe_capture e = CkBytes) && is_empty (fe_pre_digest e) then
    Err "a bytes capture requires a pre-mutation digest"
  else if bool_decide (fe_capture e = CkBytes) && negb (is_some (fe_blob e)) then
    Err "a bytes capture requires a stored pre-image reference"
  else if undo_deletes e && negb (is_empty (fe_pre_digest e)) then
    Err "an absent-marker capture must not carry a content digest"
  else Ok tt.

(* SRC types/src/turn_snapshot.rs @struct:TurnChangeSet TurnChangeSet *)
Record TurnChangeSet := {
  cs_change_set_id : string;
  cs_work_id : string;
  cs_step_id : string;
  cs_session_id : option string;
  cs_captured_at_ms : N;
  cs_entries : list FileSnapshotEntry;
  cs_outcome : option ChangeSetOutcome;
  cs_settled_at_ms : option N;
  cs_reason : option string
}.

#[export] Instance change_set_eq_dec : EqDecision TurnChangeSet.
Proof. solve_decision. Defined.

(* SRC types/src/turn_snapshot.rs @fn:id_for TurnChangeSet::id_for *)
Definition change_set_id_for (work_id step_id : string) : string :=
  "fcs:" +:+ work_id +:+ "/" +:+ step_id.
(* SRC types/src/turn_snapshot.rs @fn:is_open TurnChangeSet::is_open *)
Definition change_set_is_open (c : TurnChangeSet) : bool := negb (is_some (cs_outcome c)).

(** The entries in order, each valid and each path once. *)
Fixpoint validate_entries (seen : list string) (es : list FileSnapshotEntry) : result unit string :=
  match es with
  | [] => Ok tt
  | e :: es' =>
      _ <-? snapshot_entry_validate e;;
      if existsb (String.eqb (fe_path e)) seen then
        Err ("change set names `" +:+ fe_path e +:+ "` twice — one file may appear once per set")
      else validate_entries (fe_path e :: seen) es'
  end.

(* SRC types/src/turn_snapshot.rs @fn:validate#2 TurnChangeSet::validate *)
Definition change_set_validate (c : TurnChangeSet) : result unit string :=
  if is_empty (trim (cs_work_id c)) then Err "change set requires a work id"
  else if is_empty (trim (cs_step_id c)) then Err "change set requires a step id"
  else if negb (String.eqb (cs_change_set_id c) (change_set_id_for (cs_work_id c) (cs_step_id c))) then
    Err ("change set id `" +:+ cs_change_set_id c +:+ "` does not match the deterministic id for (" +:+
         cs_work_id c +:+ ", " +:+ cs_step_id c +:+ ")")
  else match cs_entries c with
  | [] => Err "a change set must name at least one file"
  | es =>
      _ <-? validate_entries [] es;;
      match cs_outcome c with
      | Some CoRolledBack =>
          if forallb undo_handles es then Ok tt
          else Err "a fully-rolled-back change set cannot contain an entry undo cannot handle"
      | Some CoOpen => Err "`open` is not a settling outcome; leave `outcome` empty instead"
      | _ => Ok tt
      end
  end.

(** [serde_json::to_string] of a change set. *)
Class RenderChangeSet := { render_change_set : TurnChangeSet → string }.

(* SRC types/src/turn_snapshot.rs @fn:is_secret_free TurnChangeSet::is_secret_free *)
Definition is_secret_free `{RenderChangeSet} (c : TurnChangeSet) : bool :=
  match cs_reason c with
  | Some reason =>
      negb (existsb (λ key, contains key (to_ascii_lowercase reason)) FORBIDDEN_PROJECTION_KEYS)
  | None => true
  end && projection_json_has_no_secrets (render_change_set c).

(** ** Spellings *)

#[export] Instance work_state_spelling : Spelling WorkState :=
  {| spell := work_state_as_str; unspell := work_state_try_parse |}.
#[export] Instance work_state_spelling_laws : SpellingLaws WorkState.
Proof. constructor. by intros []. Qed.
#[export] Instance wait_reason_spelling : Spelling WaitReason :=
  {| spell := wait_reason_as_str; unspell := wait_reason_parse |}.
#[export] Instance wait_reason_spelling_laws : SpellingLaws WaitReason.
Proof. constructor. by intros []. Qed.
#[export] Instance session_kind_spelling : Spelling SessionKind :=
  {| spell := session_kind_as_str; unspell s := Some (session_kind_parse s) |}.
#[export] Instance session_kind_spelling_laws : SpellingLaws SessionKind.
Proof. constructor. by intros []. Qed.

(** ** The transition relation *)

Lemma work_terminal_final s t : work_is_terminal s = true → work_can_transition s t = true → t = s.
Proof. by destruct s, t. Qed.

Lemma work_waiting_can_leave s : work_can_transition WWaitingApproval s = true →
  s ∈ [WRunning; WFailed; WCancelled; WPaused; WRecoverable; WWaitingTool; WWaitingApproval; WWaitingUser].
Proof. destruct s; try done; intros _; by apply (bool_decide_unpack _). Qed.

(** Every resumable state may go on running, and every wait may be entered
    from a running state. *)
Lemma resumable_can_run s : work_is_resumable s = true → work_can_transition s WRunning = true.
Proof. by destruct s. Qed.

Lemma running_can_wait r : work_can_transition WRunning (wait_reason_work_state r) = true.
Proof. by destruct r. Qed.

(** The states a Work passes through from [s] on. *)
Inductive work_path : WorkState → list WorkState → Prop :=
  | work_path_nil s : work_path s []
  | work_path_cons s t l : work_can_transition s t = true → work_path t l → work_path s (t :: l).

(** The outcome of a Work is reached once and stays. *)
Lemma work_outcome_is_final s l : work_path s l → work_is_terminal s = true → Forall (λ t, t = s) l.
Proof.
  induction 1 as [|s t l Ht _ IH]; intros Hs; [constructor|].
  assert (t = s) as -> by by apply work_terminal_final. constructor; [done|by apply IH].
Qed.

(** No Work completes without having run: from a created Work a completion
    follows a running state. *)
Lemma created_runs_before_completing l :
  work_path WCreated (l ++ [WCompleted]) → WRunning ∈ l.
Proof.
  assert (Hgen : ∀ s, s ∈ [WCreated; WPlanning; WReady; WWaitingTool; WWaitingApproval; WWaitingUser;
    WCheckpointed; WPaused; WRecoverable; WFailed; WCancelled] → work_path s (l ++ [WCompleted]) → WRunning ∈ l).
  { induction l as [|t l IH]; intros s Hs Hp; inversion Hp as [|? ? ? Ht Hp']; subst.
    - exfalso. revert Hs Ht. destruct s; try done; intros Hs _; by apply (bool_decide_pack _) in Hs.
    - destruct (decide (t = WRunning)) as [->|Hne]; [by left|right]. apply (IH t); [|done].
      revert Hs Ht Hne. destruct s, t; try done; intros Hs ? ?;
        first [by apply (bool_decide_unpack _) | by apply (bool_decide_pack _) in Hs]. }
  apply (Hgen WCreated). by apply (bool_decide_unpack _).
Qed.
