(* ===== verification/WorkEvents.v ===== *)
(** * Work addresses, events and projections ([everyaios-core/src/work_gateway.rs])

    Provenance and its merge, addresses and their locators, the event
    vocabulary of the journal, the event of a transition and the state of an
    event, the client-presence projection, effect projections and the policy
    ladders of a restored manifest. *)
From S2P Require Import Order Prelude Json LeaseTypes WorkTypes.

(** ** Provenance *)

(* SRC core/src/work_gateway.rs @struct:WorkProvenance WorkProvenance *)
Record WorkProvenance := {
  pv_automation_id : option string;
  pv_revision_id : option string;
  pv_automation_generation : option N;
  pv_trigger_occurrence_id : option string;
  pv_payload_digest : option string;
  pv_dedup_digest : option string;
  pv_source_session_id : option string
}.

#[export] Instance work_provenance_eq_dec : EqDecision WorkProvenance.
Proof. solve_decision. Defined.

Definition provenance_default : WorkProvenance :=
  {| pv_automation_id := None; pv_revision_id := None; pv_automation_generation := None;
     pv_trigger_occurrence_id := None; pv_payload_digest := None; pv_dedup_digest := None;
     pv_source_session_id := None |}.

(* SRC core/src/work_gateway.rs @fn:is_legacy WorkProvenance::is_legacy *)
Definition is_legacy (p : WorkProvenance) : bool :=
  negb (is_some (pv_automation_id p)) && negb (is_some (pv_revision_id p)) &&
  negb (is_some (pv_automation_generation p)) && negb (is_some (pv_trigger_occurrence_id p)).

(* SRC core/src/work_gateway.rs 150 171 WorkProvenance::merge_patch *)
Definition merge_string (patch : Value) (key : string) (target : option string)
    : result (bool * option string) string :=
  match json_get key patch with
  | None => Ok (false, target)
  | Some value =>
      match as_str value with
      | None => Err ("Work provenance field `" +:+ key +:+ "` must be a string")
      | Some v =>
          if is_empty v then Err ("Work provenance field `" +:+ key +:+ "` cannot be empty")
          else match target with
               | Some existing =>
                   if negb (String.eqb existing v) then
                     Err ("Work provenance field `" +:+ key +:+ "` conflicts with an earlier event")
                   else Ok (false, target)
               | None => Ok (true, Some v)
               end
      end
  end.

Definition merge_generation (patch : Value) (target : option N) : result (bool * option N) string :=
  match json_get "automationGeneration" patch with
  | None => Ok (false, target)
  | Some value =>
      match as_u64 value with
      | None => Err "Work provenance field `automationGeneration` must be an integer"
      | Some v =>
          match target with
          | Some existing =>
              if negb (existing =? v)%N then
                Err "Work provenance field `automationGeneration` conflicts with an earlier event"
              else Ok (false, target)
          | None => Ok (true, Some v)
          end
      end
  end.

(* SRC core/src/work_gateway.rs @fn:merge_patch WorkProvenance::merge_patch *)
Definition merge_patch (patch : Value) (p : WorkProvenance) : result (bool * WorkProvenance) string :=
  a <-? merge_string patch "automationId" (pv_automation_id p);;
  r <-? merge_string patch "revisionId" (pv_revision_id p);;
  t <-? merge_string patch "triggerOccurrenceId" (pv_trigger_occurrence_id p);;
  d <-? merge_string patch "payloadDigest" (pv_payload_digest p);;
  u <-? merge_string patch "dedupDigest" (pv_dedup_digest p);;
  s <-? merge_string patch "sourceSessionId" (pv_source_session_id p);;
  g <-? merge_generation patch (pv_automation_generation p);;
  Ok (a.1 || r.1 || t.1 || d.1 || u.1 || s.1 || g.1,
      {| pv_automation_id := a.2; pv_revision_id := r.2; pv_automation_generation := g.2;
         pv_trigger_occurrence_id := t.2; pv_payload_digest := d.2; pv_dedup_digest := u.2;
         pv_source_session_id := s.2 |}).

(* SRC core/src/work_gateway.rs @fn:validate_complete WorkProvenance::validate_complete *)
Definition validate_complete (p : WorkProvenance) : result unit string :=
  let fields := [is_some (pv_automation_id p); is_some (pv_revision_id p);
                 is_some (pv_automation_generation p); is_some (pv_trigger_occurrence_id p)] in
  if existsb (λ b, b) fields && negb (forallb (λ b, b) fields) then
    Err "Work automation provenance is incomplete"
  else if bool_decide (pv_automation_generation p = Some 0%N) then
    Err "Work automation generation must be positive"
  else Ok tt.

(** ** Addresses *)

(* SRC core/src/work_gateway.rs @struct:WorkAddress WorkAddress *)
Record WorkAddress := {
  wd_work_id : string;
  wd_project_id : option string;
  wd_session_id : option string;
  wd_session_kind : SessionKind;
  wd_owner_id : option string;
  wd_binding_id : option string;
  wd_provenance : WorkProvenance;
  wd_node_id : option string;
  wd_current_run_id : option string;
  wd_version : N;
  wd_parent_work_id : option string
}.

#[export] Instance work_address_eq_dec : EqDecision WorkAddress.
Proof. solve_decision. Defined.

(* SRC core/src/work_gateway.rs @fn:new WorkAddress::new *)
Definition address_new (work_id : string) : WorkAddress :=
  {| wd_work_id := work_id; wd_project_id := None; wd_session_id := None;
     wd_session_kind := SkInteractive; wd_owner_id := None; wd_binding_id := None;
     wd_provenance := provenance_default; wd_node_id := None; wd_current_run_id := None;
     wd_version := 1; wd_parent_work_id := None |}.

Definition with_run (run : option string) (a : WorkAddress) : WorkAddress :=
  {| wd_work_id := wd_work_id a; wd_project_id := wd_project_id a; wd_session_id := wd_session_id a;
     wd_session_kind := wd_session_kind a; wd_owner_id := wd_owner_id a;
     wd_binding_id := wd_binding_id a; wd_provenance := wd_provenance a; wd_node_id := wd_node_id a;
     wd_current_run_id := run; wd_version := wd_version a; wd_parent_work_id := wd_parent_work_id a |}.
Definition with_node (node : option string) (a : WorkAddress) : WorkAddress :=
  {| wd_work_id := wd_work_id a; wd_project_id := wd_project_id a; wd_session_id := wd_session_id a;
     wd_session_kind := wd_session_kind a; wd_owner_id := wd_owner_id a;
     wd_binding_id := wd_binding_id a; wd_provenance := wd_provenance a; wd_node_id := node;
     wd_current_run_id := wd_current_run_id a; wd_version := wd_version a;
     wd_parent_work_id := wd_parent_work_id a |}.
Definition with_binding (b : option string) (a : WorkAddress) : WorkAddress :=
  {| wd_work_id := wd_work_id a; wd_project_id := wd_project_id a; wd_session_id := wd_session_id a;
     wd_session_kind := wd_session_kind a; wd_owner_id := wd_owner_id a; wd_binding_id := b;
     wd_provenance := wd_provenance a; wd_node_id := wd_node_id a;
     wd_current_run_id := wd_current_run_id a; wd_version := wd_version a;
     wd_parent_work_id := wd_parent_work_id a |}.
Definition bump_version (a : WorkAddress) : WorkAddress :=
  {| wd_work_id := wd_work_id a; wd_project_id := wd_project_id a; wd_session_id := wd_session_id a;
     wd_session_kind := wd_session_kind a; wd_owner_id := wd_owner_id a;
     wd_binding_id := wd_binding_id a; wd_provenance := wd_provenance a; wd_node_id := wd_node_id a;
     wd_current_run_id := wd_current_run_id a; wd_version := u64_saturating_add (wd_version a) 1;
     wd_parent_work_id := wd_parent_work_id a |}.

(* SRC core/src/work_gateway.rs @fn:locator WorkAddress::locator *)
Definition locator (a : WorkAddress) : string :=
  "work:" +:+ wd_work_id a +:+
  match wd_node_id a with Some n => "@" +:+ n | None => "" end +:+
  match wd_current_run_id a with Some r => "#" +:+ r | None => "" end.

Definition opt_is_empty (o : option string) : bool :=
  match o with Some s => is_empty s | None => false end.

(* SRC core/src/work_gateway.rs @fn:parse_locator WorkAddress::parse_locator *)
Definition parse_locator (loc : string) : result WorkAddress string :=
  match strip_prefix "work:" loc with
  | None => Err "locator must start with 'work:'"
  | Some rest =>
      let '(head, run) :=
        match split_once "#" rest with Some (h, r) => (h, Some r) | None => (rest, None) end in
      let '(id, node) :=
        match split_once "@" head with Some (i, n) => (i, Some n) | None => (head, None) end in
      if is_empty id then Err "locator requires a work id"
      else if opt_is_empty run then Err "locator has an empty run id"
      else if opt_is_empty node then Err "locator has an empty node id"
      else Ok (with_run run (with_node node (address_new id)))
  end.

(** ** Presence *)

(* SRC core/src/work_gateway.rs @enum:WorkPresenceState WorkPresenceState *)
Inductive WorkPresenceState :=
  | PsRunning | PsWaitingForUser | PsWaitingForApproval | PsBlocked | PsCompleted | PsFailed
  | PsCancelled | PsOffline | PsReconnecting.

#[export] Instance presence_state_eq_dec : EqDecision WorkPresenceState.
Proof. solve_decision. Defined.

(* SRC core/src/work_gateway.rs @struct:WorkPresence WorkPresence *)
Record WorkPresence := {
  wp_work_id : string;
  wp_active_clients : list string;
  wp_active_nodes : list string;
  wp_active_run : option string;
  wp_current_surface : option string;
  wp_state : option WorkPresenceState;
  wp_work_state : option WorkState;
  wp_wait : option WaitCondition
}.

#[export] Instance work_presence_eq_dec : EqDecision WorkPresence.
Proof. solve_decision. Defined.

Definition presence_default : WorkPresence :=
  {| wp_work_id := ""; wp_active_clients := []; wp_active_nodes := []; wp_active_run := None;
     wp_current_surface := None; wp_state := None; wp_work_state := None; wp_wait := None |}.

(* SRC core/src/work_gateway.rs @fn:presence_projection presence_projection *)
Definition presence_projection (s : WorkState) (wait : option WaitCondition) : WorkPresenceState :=
  match s with
  | WWaitingApproval => PsWaitingForApproval
  | WWaitingUser => PsWaitingForUser
  | WPaused | WRecoverable => PsBlocked
  | WCompleted => PsCompleted
  | WFailed => PsFailed
  | WCancelled => PsCancelled
  | _ =>
      match wa_reason <$> wait with
      | Some WaTimer | Some WaExternalEvent | Some WaResource | Some WaAgent | Some WaRetry => PsBlocked
      | _ => PsRunning
      end
  end.

(** ** Events *)

(* SRC core/src/work_gateway.rs @enum:DomainEvent DomainEvent *)
Inductive DomainEvent :=
  | WorkCreated (objective : string) (project_id session_id parent_work_id : option string)
      (session_kind : SessionKind) (owner_id binding_id : option string)
      (initial_state : option WorkState) (run_id trigger : option string) (provenance : WorkProvenance)
  | WorkUpdated (patch : Value)
  | RunQueued (run_id : string)
  | RunStarted (run_id : string)
  | RunCheckpointed (run_id : string) (checkpoint : N)
  | RunPaused (run_id : string)
  | RunWaiting (run_id reason : string) (wait : option WaitCondition)
  | RunInterrupted (run_id : string) (reason : option string)
  | ApprovalRequested (ticket_id : string) (run_id tool_id args_hash risk_tier : option string)
      (requested_at_ms : option N)
  | ApprovalResolved (ticket_id : string) (run_id : option string) (approved : bool)
  | EffectAttempted (effect_id : string) (capability_grant_id : option string)
      (idempotency_class : option IdempotencyClass)
  | EffectObserved (effect_id outcome : string)
  | EffectVerified (effect_id : string) (verified : bool)
  | EffectUncertain (effect_id : string) (reason : option string)
      (idempotency_class : option IdempotencyClass)
  | EffectReconciled (effect_id outcome : string) (retry_safe : bool)
  | FileChangeSetCaptured (change_set : TurnChangeSet)
  | FileChangeSetSettled (change_set : TurnChangeSet)
  | DelegationRefused (refusal : CycleRefusal)
  | DelegationLeaseFact (child_work_id : string) (fact : LeaseLifecycleFact)
  | SubagentHeartbeat (child_work_id : string) (at_ms : N)
  | SubagentLeaseReclaimed (receipt : SubagentTimeoutReceipt)
  | ArtifactCreated (artifact_id : string)
  | ArtifactUpdated (artifact_id : string)
  | ReviewRequested (review_id : string)
  | RunCompleted (run_id : string)
  | RunFailed (run_id reason : string)
  | RunCancelled (run_id : string).

(* SRC core/src/work_gateway.rs @enum:OperationalEvent OperationalEvent *)
Inductive OperationalEvent :=
  | ToolRequested (tool_id : string)
  | ToolStarted (tool_id : string)
  | ToolCompleted (tool_id : string)
  | ToolFailed (tool_id error : string)
  | NodeConnected (node_id : string)
  | NodeDisconnected (node_id : string)
  | SessionAttached (client_id : string)
  | SessionDetached (client_id : string)
  | FileTouched (path writer_id : string)
  | TestRan (name : string) (passed : bool)
  | WriteConflict (path : string) (writers : list string)
  | HandoffRecorded (artifact_id from_agent to_agent summary : string).

(* SRC core/src/work_gateway.rs @enum:PresenceEvent PresenceEvent *)
Inductive PresenceEvent :=
  | PresenceChanged (presence : WorkPresence)
  | AgentThoughtSummary (text : string).

(* SRC core/src/work_gateway.rs @enum:RuntimeEvent RuntimeEvent *)
Inductive RuntimeEvent :=
  | PtyStarted (pty_id : string) (process_id : option N) (rows cols : N)
  | PtyOutput (pty_id chunk : string)
  | PtyResize (pty_id : string) (rows cols : N)
  | PtySignal (pty_id signal : string)
  | PtyExit (pty_id : string) (code : option Z)
  | WorktreeCreated (worktree_id branch : string)
  | WorktreeAttached (worktree_id run_id : string)
  | WorktreeMerged (worktree_id into : string)
  | WorktreeReverted (worktree_id : string)
  | WorktreeDestroyed (worktree_id : string)
  | AgentSessionSpawned (agent_session_id agent_id lifetime : string)
  | AgentSessionMessage (agent_session_id direction : string)
  | AgentSessionAttached (agent_session_id : string)
  | AgentSessionDetached (agent_session_id : string)
  | AgentSessionSteered (agent_session_id : string)
  | AgentSessionCheckpointed (agent_session_id : string) (checkpoint : N)
  | AgentSessionTerminated (agent_session_id : string)
  | AgentBindingCreated (binding : AgentBinding)
  | AgentBindingActivated (binding_id : string) (provider_session_id : option string)
  | AgentBindingSuspended (binding_id : string)
  | AgentBindingResumed (binding_id : string) (provider_session_id : option string)
  | AgentBindingUsageRecorded (binding_id : string) (usage : BindingUsage).

(* SRC core/src/work_gateway.rs @enum:WorkEvent WorkEvent *)
Inductive WorkEvent :=
  | Domain (e : DomainEvent)
  | Operational (e : OperationalEvent)
  | Presence (e : PresenceEvent)
  | Runtime (e : RuntimeEvent).

(* SRC core/src/work_gateway.rs @fn:semantic WorkEvent::semantic *)
Definition semantic (e : WorkEvent) : bool := match e with Domain _ => true | _ => false end.

(* SRC core/src/work_gateway.rs @struct:WorkEventEnvelope WorkEventEnvelope *)
Record WorkEventEnvelope := {
  we_work_id : string;
  we_sequence : N;
  we_event_id : string;
  we_event : WorkEvent;
  we_timestamp : N;
  we_trace_id : option string;
  we_causal_parent : option N;
  we_schema_version : N
}.

(* SRC core/src/work_gateway.rs @fn:run_event_state run_event_state *)
Definition run_event_state (e : WorkEvent) : option (string * WorkState) :=
  match e with
  | Domain d =>
      match d with
      | RunQueued r => Some (r, WReady)
      | RunStarted r => Some (r, WRunning)
      | RunWaiting r reason _ => (λ s, (r, s)) <$> work_state_try_parse reason
      | RunCheckpointed r _ => Some (r, WCheckpointed)
      | RunPaused r => Some (r, WPaused)
      | RunInterrupted r _ => Some (r, WRecoverable)
      | RunCompleted r => Some (r, WCompleted)
      | RunFailed r _ => Some (r, WFailed)
      | RunCancelled r => Some (r, WCancelled)
      | _ => None
      end
  | _ => None
  end.

(* SRC core/src/work_gateway.rs @fn:transition_event transition_event *)
Definition transition_event (execution_id : string) (s : WorkState) (wait : option WaitCondition) : WorkEvent :=
  Domain
    match s with
    | WCreated | WPlanning | WReady => RunQueued execution_id
    | WRunning | WVerifying => RunStarted execution_id
    | WWaitingTool | WWaitingApproval | WWaitingUser =>
        RunWaiting execution_id (work_state_as_str s) wait
    | WCheckpointed => RunCheckpointed execution_id 0
    | WPaused => RunPaused execution_id
    | WRecoverable => RunInterrupted execution_id (Some "interrupted with an unknown in-flight effect")
    | WCompleted => RunCompleted execution_id
    | WFailed => RunFailed execution_id "execution transitioned to failed"
    | WCancelled => RunCancelled execution_id
    end.

(** ** Effects *)

(* SRC core/src/work_gateway.rs @struct:EffectProjection EffectProjection *)
Record EffectProjection := {
  ef_effect_id : string;
  ef_state : string;
  ef_uncertainty : EffectUncertainty;
  ef_idempotency_class : option IdempotencyClass;
  ef_reason : option string;
  ef_grant_id : option string;
  ef_last_sequence : N
}.

#[export] Instance effect_projection_eq_dec : EqDecision EffectProjection.
Proof. solve_decision. Defined.

(* SRC core/src/work_gateway.rs 880 890 EffectProjection::new *)
Definition effect_new (effect_id : string) (sequence : N) : EffectProjection :=
  {| ef_effect_id := effect_id; ef_state := "unknown"; ef_uncertainty := EuUnknownOutcome;
     ef_idempotency_class := None; ef_reason := None; ef_grant_id := None;
     ef_last_sequence := sequence |}.

(* SRC core/src/work_gateway.rs @fn:requires_reconciliation EffectProjection::requires_reconciliation *)
Definition requires_reconciliation (e : EffectProjection) : bool :=
  match ef_uncertainty e with EuUnknownOutcome | EuPartial => true | EuNone => false end
  || String.eqb (ef_state e) "uncertain".

(** ** Runtime records *)

(* SRC core/src/work_gateway.rs @struct:ExecutionNode ExecutionNode *)
Record ExecutionNode := {
  xn_node_id : string;
  xn_owner : string;
  xn_platform : string;
  xn_node_kind : string;
  xn_always_on : bool;
  xn_capabilities : list string;
  xn_sandbox_class : string;
  xn_network_policy : string;
  xn_credential_policy : string;
  xn_health : string;
  xn_last_heartbeat_ms : N
}.

(* SRC core/src/work_gateway.rs @struct:RunAuthority RunAuthority *)
Record RunAuthority := {
  ra_run_id : string;
  ra_node_id : string;
  ra_lease_id : string;
  ra_fencing_token : N;
  ra_granted_at_ms : N;
  ra_expires_at_ms : N
}.

(* SRC core/src/work_gateway.rs @fn:valid RunAuthority::valid *)
Definition authority_valid (node_id : string) (token now : N) (a : RunAuthority) : bool :=
  String.eqb (ra_node_id a) node_id && (ra_fencing_token a =? token)%N &&
  ((ra_expires_at_ms a =? 0)%N || (now <=? ra_expires_at_ms a)%N).

(* SRC core/src/work_gateway.rs @struct:ClientCapabilities ClientCapabilities *)
Record ClientCapabilities := {
  can_view : bool;
  can_chat : bool;
  can_steer : bool;
  can_approve : bool;
  can_review : bool;
  can_access_local_files : bool;
  can_drive_browser : bool;
  can_drive_desktop : bool;
  artifact_preview : bool;
  artifact_edit : bool
}.

(* SRC core/src/work_gateway.rs @fn:desktop ClientCapabilities::desktop *)
Definition desktop_capabilities : ClientCapabilities :=
  {| can_view := true; can_chat := true; can_steer := true; can_approve := true; can_review := true;
     can_access_local_files := true; can_drive_browser := true; can_drive_desktop := true;
     artifact_preview := true; artifact_edit := true |}.

(* SRC core/src/work_gateway.rs @fn:restricted ClientCapabilities::restricted *)
Definition restricted_capabilities : ClientCapabilities :=
  {| can_view := true; can_chat := false; can_steer := false; can_approve := false; can_review := true;
     can_access_local_files := false; can_drive_browser := false; can_drive_desktop := false;
     artifact_preview := true; artifact_edit := false |}.

(* SRC core/src/work_gateway.rs @struct:ClientSession ClientSession *)
Record ClientSession := {
  cl_client_id : string;
  cl_client_type : string;
  cl_work_id : string;
  cl_capabilities : ClientCapabilities;
  cl_scope : list string;
  cl_authenticated : bool;
  cl_connected_at_ms : N
}.

(* SRC core/src/work_gateway.rs @struct:PtySession PtySession *)
Record PtySession := {
  pt_pty_id : string;
  pt_process_id : option N;
  pt_rows : N;
  pt_cols : N;
  pt_state : string;
  pt_output : string
}.

(* SRC core/src/work_gateway.rs @struct:WorktreeBinding WorktreeBinding *)
Record WorktreeBinding := {
  wt_worktree_id : string;
  wt_work_id : string;
  wt_run_id : string;
  wt_repo_root : string;
  wt_worktree_root : string;
  wt_base_revision : string;
  wt_branch : string;
  wt_isolation_mode : string;
  wt_status : string
}.

(* SRC core/src/work_gateway.rs @enum:AgentLifetime AgentLifetime *)
Inductive AgentLifetime := EphemeralChild | PersistentAttachedSession.

#[export] Instance agent_lifetime_eq_dec : EqDecision AgentLifetime.
Proof. solve_decision. Defined.

Definition lifetime_as_str (l : AgentLifetime) : string :=
  match l with
  | EphemeralChild => "ephemeral_child"
  | PersistentAttachedSession => "persistent_attached_session"
  end.

(* SRC core/src/work_gateway.rs @struct:AgentSession AgentSession *)
Record AgentSession := {
  as_agent_session_id : string;
  as_work_id : string;
  as_run_id : string;
  as_agent_id : string;
  as_lifetime : AgentLifetime;
  as_pty_id : option string;
  as_worktree_id : option string;
  as_runtime_state : string;
  as_last_checkpoint : N;
  as_attached : bool
}.

(* SRC types/src/lib.rs @enum:AutonomyLevel AutonomyLevel *)
Inductive AutonomyLevel := AlSandbox | AlAsk | AlAuto | AlMaximum.

(* SRC core/src/work_gateway.rs @struct:RuntimeManifest RuntimeManifest *)
Record RuntimeManifest := {
  rm_work_id : string;
  rm_chief : string;
  rm_model : string;
  rm_capabilities : list string;
  rm_network_policy : string;
  rm_filesystem_policy : string;
  rm_autonomy : AutonomyLevel;
  rm_memory_scope : string;
  rm_node_id : string;
  rm_skill_versions : list string;
  rm_plugin_versions : list string;
  rm_config_hash : string
}.

Definition with_config_hash (h : string) (m : RuntimeManifest) : RuntimeManifest :=
  {| rm_work_id := rm_work_id m; rm_chief := rm_chief m; rm_model := rm_model m;
     rm_capabilities := rm_capabilities m; rm_network_policy := rm_network_policy m;
     rm_filesystem_policy := rm_filesystem_policy m; rm_autonomy := rm_autonomy m;
     rm_memory_scope := rm_memory_scope m; rm_node_id := rm_node_id m;
     rm_skill_versions := rm_skill_versions m; rm_plugin_versions := rm_plugin_versions m;
     rm_config_hash := h |}.

(** [digest(&self.without_hash())]: SHA-256 of the JSON text of every field but
    the hash. *)
Class ManifestDigest := {
  digest_manifest : RuntimeManifest → string;
  digest_ignores_hash h m : digest_manifest (with_config_hash h m) = digest_manifest m
}.

(* SRC core/src/work_gateway.rs @fn:verify_hash RuntimeManifest::verify_hash *)
Definition verify_hash `{ManifestDigest} (m : RuntimeManifest) : bool :=
  String.eqb (rm_config_hash m) (digest_manifest m).
(* SRC core/src/work_gateway.rs @fn:refresh_hash RuntimeManifest::refresh_hash *)
Definition refresh_hash `{ManifestDigest} (m : RuntimeManifest) : RuntimeManifest :=
  with_config_hash (digest_manifest m) m.

(** ** Policy ladders *)

(* SRC core/src/work_gateway.rs 48 49 NETWORK_LADDER *)
Definition NETWORK_LADDER : list string := ["offline"; "loopback"; "allowlist"; "open"].
(* SRC core/src/work_gateway.rs 50 50 FILESYSTEM_LADDER *)
Definition FILESYSTEM_LADDER : list string := ["workspace"; "project"; "home"; "system"].

Fixpoint ladder_pos (v : string) (ladder : list string) : option nat :=
  match ladder with
  | [] => None
  | x :: l => if String.eqb x v then Some 0 else S <$> ladder_pos v l
  end.

(* SRC core/src/work_gateway.rs @fn:narrow narrow *)
Definition narrow (current trusted : string) (ladder : list string) : string :=
  match ladder_pos current ladder, ladder_pos trusted ladder with
  | Some a, Some b => default "" (ladder !! Nat.min a b)
  | _, _ => default "" (ladder !! 0)
  end.

(* SRC core/src/work_gateway.rs @fn:restore_runtime_manifest WorkGateway::restore_runtime_manifest *)
Definition restore_runtime_manifest `{ManifestDigest} (saved : RuntimeManifest) (trusted_capabilities : list string)
    (trusted_network trusted_filesystem : string) : RuntimeManifest :=
  refresh_hash
    {| rm_work_id := rm_work_id saved; rm_chief := rm_chief saved; rm_model := rm_model saved;
       rm_capabilities :=
         List.filter (λ c, existsb (String.eqb c) trusted_capabilities) (rm_capabilities saved);
       rm_network_policy := narrow (rm_network_policy saved) trusted_network NETWORK_LADDER;
       rm_filesystem_policy := narrow (rm_filesystem_policy saved) trusted_filesystem FILESYSTEM_LADDER;
       rm_autonomy := rm_autonomy saved; rm_memory_scope := rm_memory_scope saved;
       rm_node_id := rm_node_id saved; rm_skill_versions := rm_skill_versions saved;
       rm_plugin_versions := rm_plugin_versions saved; rm_config_hash := rm_config_hash saved |}.

(** ** Locators round trip *)

Lemma split_once_first c x y : has_char c x = false → split_once c (x +:+ String c y) = Some (x, y).
Proof.
  induction x as [|a x IH]; simpl; [by rewrite Ascii.eqb_refl|].
  intros [Ha Hx]%orb_false_iff. rewrite Ha. by rewrite IH.
Qed.

Lemma split_once_none c x : has_char c x = false → split_once c x = None.
Proof.
  induction x as [|a x IH]; simpl; [done|]. intros [Ha Hx]%orb_false_iff. rewrite Ha. by rewrite IH.
Qed.

Definition plain_segment (o : option string) : Prop :=
  match o with Some s => is_empty s = false | None => True end.

(** What a locator keeps of an address. *)
Definition located (a : WorkAddress) : WorkAddress :=
  with_run (wd_current_run_id a) (with_node (wd_node_id a) (address_new (wd_work_id a))).

(** A locator round-trips: for an address whose id is not empty and holds
    neither separator, whose node holds no [#] and whose optional segments are
    not empty, parsing the printed locator gives the work, node and run back. *)
Theorem locator_round_trips (a : WorkAddress) :
  is_empty (wd_work_id a) = false →
  has_char "#" (wd_work_id a) = false → has_char "@" (wd_work_id a) = false →
  (∀ n, wd_node_id a = Some n → is_empty n = false ∧ has_char "#" n = false) →
  (∀ r, wd_current_run_id a = Some r → is_empty r = false) →
  parse_locator (locator a) = Ok (located a).
Proof.
  intros Hid H1 H2 Hn Hr. unfold parse_locator, locator.
  assert (Hpre : ∀ s, strip_prefix "work:" ("work:" +:+ s) = Some s) by (intros; by apply strip_prefix_spec).
  rewrite Hpre. clear Hpre. unfold located.
  set (head := wd_work_id a +:+ match wd_node_id a with Some n => "@" +:+ n | None => "" end).
  assert (Hhead : has_char "#" head = false).
  { unfold head. rewrite has_char_app, H1. simpl. destruct (wd_node_id a) as [n|]; [|done].
    destruct (Hn n eq_refl) as [_ Hx]. change ("@" +:+ n) with (String "@" n). simpl. done. }
  assert (Hsplit : match split_once "@" head with Some (i, n) => (i, Some n) | None => (head, None) end =
                   (wd_work_id a, wd_node_id a)).
  { unfold head. destruct (wd_node_id a) as [n|]; simpl.
    - change ("@" +:+ n) with (String "@" n). by rewrite split_once_first.
    - by rewrite app_string_nil_r, split_once_none. }
  assert (Hrun : match split_once "#" (head +:+ match wd_current_run_id a with Some r => "#" +:+ r | None => "" end)
                 with Some (h, r) => (h, Some r) | None => (head +:+ match wd_current_run_id a with
                   Some r => "#" +:+ r | None => "" end, None) end = (head, wd_current_run_id a)).
  { destruct (wd_current_run_id a) as [r|]; simpl.
    - change ("#" +:+ r) with (String "#" r). by rewrite split_once_first.
    - by rewrite app_string_nil_r, split_once_none. }
  rewrite <- app_string_assoc. fold head. rewrite Hrun, Hsplit, Hid.
  destruct (wd_current_run_id a) as [r|]; simpl; [rewrite (Hr r eq_refl)|];
    (destruct (wd_node_id a) as [n|]; simpl; [by rewrite (proj1 (Hn n eq_refl))|done]).
Qed.

Lemma locator_round_trips_witness :
  parse_locator (locator (with_run (Some "r#1") (with_node (Some "n@2") (address_new "w")))) =
  Ok (located (with_run (Some "r#1") (with_node (Some "n@2") (address_new "w")))).
Proof.
  apply locator_round_trips; [reflexivity..| |].
  - intros n [= <-]. split; reflexivity.
  - intros r [= <-]. reflexivity.
Defined.

(** A run id with its own separators is kept whole; a work id with one is not. *)
Example locator_truncates_ids :
  parse_locator (locator (address_new "a#b")) = Ok (with_run (Some "b") (address_new "a")).
Proof. reflexivity. Qed.

(** ** A restored policy is never wider *)

Lemma ladder_pos_lookup v l i : ladder_pos v l = Some i → l !! i = Some v.
Proof.
  revert i. induction l as [|x l IH]; intros i; simpl; [done|].
  destruct (String.eqb_spec x v) as [->|]; [by intros [= <-]|].
  destruct (ladder_pos v l) as [j|]; [|done]. intros [= <-]. by apply IH.
Qed.

Lemma ladder_pos_self (l : list string) i v : NoDup l → l !! i = Some v → ladder_pos v l = Some i.
Proof.
  revert i. induction l as [|x l IH]; intros [|i]; simpl; try done.
  - intros _ [= ->]. by rewrite String.eqb_refl.
  - intros Hd Hi. apply NoDup_cons in Hd as [Hx Hd].
    destruct (String.eqb_spec x v) as [->|]; [|by rewrite (IH i)].
    exfalso. apply Hx. by eapply list_elem_of_lookup_2.
Qed.

(** The narrowed label is on the ladder, no higher than the trusted label, and
    no higher than the saved one. *)
Lemma narrow_bound current trusted ladder :
  NoDup ladder → ladder ≠ [] →
  ∃ k, ladder_pos (narrow current trusted ladder) ladder = Some k ∧
    (∀ j, ladder_pos trusted ladder = Some j → k ≤ j) ∧
    (∀ j, ladder_pos current ladder = Some j → k ≤ j).
Proof.
  intros Hd Hne. unfold narrow. destruct ladder as [|x l]; [done|].
  destruct (ladder_pos current (x :: l)) as [a|] eqn:Ea, (ladder_pos trusted (x :: l)) as [b|] eqn:Eb;
    try (exists 0; simpl; rewrite String.eqb_refl; split_and!; [done|intros; lia..]).
  exists (Nat.min a b). pose proof (ladder_pos_lookup _ _ _ Ea) as Ha.
  pose proof (ladder_pos_lookup _ _ _ Eb) as Hb.
  assert (∃ v, (x :: l) !! Nat.min a b = Some v) as [v Hv].
  { destruct (Nat.min_dec a b) as [->| ->]; eauto. }
  rewrite Hv. simpl default. rewrite (ladder_pos_self _ _ v Hd Hv).
  split_and!; [done|intros ? [= <-]; lia..].
Qed.

(** A restored manifest is never wider than the trusted policy: it keeps
    only capabilities that are both saved and trusted, its network and
    filesystem labels lie on their ladders no higher than the trusted and the
    saved labels, and its hash is that of the narrowed contract. *)
Theorem restored_manifest_is_narrower `{ManifestDigest} saved caps network filesystem :
  let m := restore_runtime_manifest saved caps network filesystem in
  (∀ c, c ∈ rm_capabilities m ↔ c ∈ rm_capabilities saved ∧ c ∈ caps) ∧
  (∃ k, ladder_pos (rm_network_policy m) NETWORK_LADDER = Some k ∧
     (∀ j, ladder_pos network NETWORK_LADDER = Some j → k ≤ j) ∧
     (∀ j, ladder_pos (rm_network_policy saved) NETWORK_LADDER = Some j → k ≤ j)) ∧
  (∃ k, ladder_pos (rm_filesystem_policy m) FILESYSTEM_LADDER = Some k ∧
     (∀ j, ladder_pos filesystem FILESYSTEM_LADDER = Some j → k ≤ j) ∧
     (∀ j, ladder_pos (rm_filesystem_policy saved) FILESYSTEM_LADDER = Some j → k ≤ j)) ∧
  verify_hash m = true.
Proof.
  cbv zeta. split_and!.
  - intros c. simpl. rewrite !list_elem_of_In, filter_In, existsb_exists. split.
    + intros (? & x & ? & ->%String.eqb_eq). done.
    + intros [? ?]. split; [done|]. exists c. by rewrite String.eqb_refl.
  - apply narrow_bound; [by apply (bool_decide_unpack _)|done].
  - apply narrow_bound; [by apply (bool_decide_unpack _)|done].
  - unfold verify_hash, restore_runtime_manifest, refresh_hash. rewrite digest_ignores_hash.
    simpl. apply String.eqb_refl.
Qed.
