(* ===== verification/Work.v ===== *)
(** * The Work gateway ([everyaios-core/src/work_gateway.rs])

    [WorkGateway]: Works and their Runs over one append-only journal. An event
    is acknowledged once its record is durable; the projections (run states,
    approvals, effects, bindings, delegation facts) are rebuilt from the
    journal by [open]. Every method is a computation over the gateway that
    keeps the state it reached when it fails. *)
From S2P Require Import Order Prelude Json LeaseTypes Lease WorkTypes WorkEvents.

(** ** The world of a gateway *)

(** What writing one journal record does: the record is durable, nothing was
    written, or the record reached the file and the flush or sync failed. *)
Inductive WriteResult := WriteOk | WriteRefused (e : string) | WriteUnsynced (e : string).

(** The disk, per attempted write; the clock, per sequence number; the bearers
    drawn for leases, per sequence number. *)
Class WorkWorld := {
  disk_write : nat → WriteResult;
  stamp : N → N;
  fresh_bearer : N → LeaseBearer
}.

Definition calm_world : WorkWorld :=
  {| disk_write _ := WriteOk; stamp _ := 0%N; fresh_bearer n := pretty n |}.

(** ** Data *)

(* SRC core/src/work_gateway.rs @struct:DelegationRefusalRecord DelegationRefusalRecord *)
Record DelegationRefusalRecord := { dr_work_id : string; dr_count : N; dr_last : CycleRefusal }.

(* SRC core/src/work_gateway.rs @struct:ReviewItem ReviewItem *)
Record ReviewItem := {
  ri_review_id : string;
  ri_work_id : string;
  ri_run_id : option string;
  ri_kind : string;
  ri_priority : N;
  ri_state : string;
  ri_artifact_refs : list string;
  ri_effect_refs : list string
}.

Definition with_review_state (s : string) (r : ReviewItem) : ReviewItem :=
  {| ri_review_id := ri_review_id r; ri_work_id := ri_work_id r; ri_run_id := ri_run_id r;
     ri_kind := ri_kind r; ri_priority := ri_priority r; ri_state := s;
     ri_artifact_refs := ri_artifact_refs r; ri_effect_refs := ri_effect_refs r |}.

(** The gateway, less its subscribers, attachments and capability broker.
    [wg_journal] is the file of durable records, when there is
    one; [wg_writes] counts the attempted writes. *)
(* SRC core/src/work_gateway.rs @struct:WorkGateway WorkGateway *)
Record WorkGateway := {
  works : gmap string WorkAddress;
  wg_journal : option (list WorkEventEnvelope);
  wg_writes : nat;
  wg_events : gmap string (list WorkEventEnvelope);
  next_seq : N;
  reviews : gmap string ReviewItem;
  presence : gmap string WorkPresence;
  agent_bindings : gmap string AgentBinding;
  execution_ids : gmap string string;
  run_ids : gmap string (list string);
  run_states : gmap string (gmap string WorkState);
  run_metadata : gmap string (gmap string Value);
  effect_projections : gmap string (gmap string EffectProjection);
  pending_approvals : gmap string (gmap string Value);
  active_binding_ids : gmap string string;
  file_change_sets : gmap string (gmap string TurnChangeSet);
  delegation_refusals : gmap string DelegationRefusalRecord;
  subagent_heartbeats : gmap string N;
  subagent_reclaims : gmap string SubagentTimeoutReceipt;
  delegation_leases : Coordinator;
  delegation_lease_custody : gmap string (N * LeaseBearer);
  clients : gmap string ClientSession;
  nodes : gmap string ExecutionNode;
  authorities : gmap string RunAuthority;
  fence_counters : gmap string N;
  ptys : gmap string PtySession;
  worktrees : gmap string WorktreeBinding;
  agent_sessions : gmap string AgentSession;
  manifests : gmap string RuntimeManifest
}.

Definition gateway_eta (g : WorkGateway) : WorkGateway :=
  {| works := works g; wg_journal := wg_journal g; wg_writes := wg_writes g; wg_events := wg_events g;
     next_seq := next_seq g; reviews := reviews g; presence := presence g;
     agent_bindings := agent_bindings g; execution_ids := execution_ids g; run_ids := run_ids g;
     run_states := run_states g; run_metadata := run_metadata g;
     effect_projections := effect_projections g; pending_approvals := pending_approvals g;
     active_binding_ids := active_binding_ids g; file_change_sets := file_change_sets g;
     delegation_refusals := delegation_refusals g; subagent_heartbeats := subagent_heartbeats g;
     subagent_reclaims := subagent_reclaims g; delegation_leases := delegation_leases g;
     delegation_lease_custody := delegation_lease_custody g; clients := clients g; nodes := nodes g;
     authorities := authorities g; fence_counters := fence_counters g; ptys := ptys g;
     worktrees := worktrees g; agent_sessions := agent_sessions g;
     manifests := manifests g |}.

(** The update of one field, from the eta expansion of the record. *)
Ltac gateway_setter proj :=
  let e := eval cbv delta [gateway_eta] in gateway_eta in
  match eval pattern proj in e with ?f _ => exact (λ v g, f (λ _, v) g) end.

Definition set_works := Eval cbv beta in ltac:(gateway_setter works).
Definition set_journal := Eval cbv beta in ltac:(gateway_setter wg_journal).
Definition set_writes := Eval cbv beta in ltac:(gateway_setter wg_writes).
Definition set_events := Eval cbv beta in ltac:(gateway_setter wg_events).
Definition set_next_seq := Eval cbv beta in ltac:(gateway_setter next_seq).
Definition set_reviews := Eval cbv beta in ltac:(gateway_setter reviews).
Definition set_presence := Eval cbv beta in ltac:(gateway_setter presence).
Definition set_agent_bindings := Eval cbv beta in ltac:(gateway_setter agent_bindings).
Definition set_execution_ids := Eval cbv beta in ltac:(gateway_setter execution_ids).
Definition set_run_ids := Eval cbv beta in ltac:(gateway_setter run_ids).
Definition set_run_states := Eval cbv beta in ltac:(gateway_setter run_states).
Definition set_run_metadata := Eval cbv beta in ltac:(gateway_setter run_metadata).
Definition set_effects := Eval cbv beta in ltac:(gateway_setter effect_projections).
Definition set_pending := Eval cbv beta in ltac:(gateway_setter pending_approvals).
Definition set_active_bindings := Eval cbv beta in ltac:(gateway_setter active_binding_ids).
Definition set_change_sets := Eval cbv beta in ltac:(gateway_setter file_change_sets).
Definition set_refusals := Eval cbv beta in ltac:(gateway_setter delegation_refusals).
Definition set_heartbeats := Eval cbv beta in ltac:(gateway_setter subagent_heartbeats).
Definition set_reclaims := Eval cbv beta in ltac:(gateway_setter subagent_reclaims).
Definition set_delegation_leases := Eval cbv beta in ltac:(gateway_setter delegation_leases).
Definition set_custody := Eval cbv beta in ltac:(gateway_setter delegation_lease_custody).
Definition set_clients := Eval cbv beta in ltac:(gateway_setter clients).
Definition set_nodes := Eval cbv beta in ltac:(gateway_setter nodes).
Definition set_authorities := Eval cbv beta in ltac:(gateway_setter authorities).
Definition set_fence_counters := Eval cbv beta in ltac:(gateway_setter fence_counters).
Definition set_ptys := Eval cbv beta in ltac:(gateway_setter ptys).
Definition set_worktrees := Eval cbv beta in ltac:(gateway_setter worktrees).
Definition set_agent_sessions := Eval cbv beta in ltac:(gateway_setter agent_sessions).
Definition set_manifests := Eval cbv beta in ltac:(gateway_setter manifests).

(* SRC core/src/work_gateway.rs 1252 1254 WorkGateway::new *)
Definition gateway_new : WorkGateway :=
  {| works := ∅; wg_journal := None; wg_writes := 0; wg_events := ∅; next_seq := 0; reviews := ∅;
     presence := ∅; agent_bindings := ∅; execution_ids := ∅; run_ids := ∅; run_states := ∅;
     run_metadata := ∅; effect_projections := ∅; pending_approvals := ∅; active_binding_ids := ∅;
     file_change_sets := ∅; delegation_refusals := ∅; subagent_heartbeats := ∅; subagent_reclaims := ∅;
     delegation_leases := coordinator_new; delegation_lease_custody := ∅; clients := ∅; nodes := ∅;
     authorities := ∅; fence_counters := ∅; ptys := ∅; worktrees := ∅; agent_sessions := ∅;
     manifests := ∅ |}.

(** ** Computations over the gateway

    [?] on an error leaves the state as it is at that point. *)

Definition M (A : Type) : Type := WorkGateway → result A string * WorkGateway.

Definition gret {A} (a : A) : M A := λ g, (Ok a, g).
Definition gfail {A} (e : string) : M A := λ g, (Err e, g).
Definition gbind {A B} (m : M A) (k : A → M B) : M B := λ g,
  match m g with (Ok a, g') => k a g' | (Err e, g') => (Err e, g') end.
Definition glift {A} (r : result A string) : M A := λ g, (r, g).
Definition gets {A} (f : WorkGateway → A) : M A := λ g, (Ok (f g), g).
Definition gmodify (f : WorkGateway → WorkGateway) : M unit := λ g, (Ok tt, f g).
Definition gmap_result {A B} (f : A → B) (m : M A) : M B := gbind m (λ a, gret (f a)).

Notation "x <~ m ;; k" := (gbind m (λ x, k)) (at level 100, m at next level, right associativity).
Notation "m ~;; k" := (gbind m (λ _, k)) (at level 100, right associativity).

(** [ok_or]. *)
Definition ok_or_err {A} (o : option A) (e : string) : result A string :=
  match o with Some a => Ok a | None => Err e end.
(** A guard with an early return. *)
Definition gguard (refused : bool) (e : string) : M unit := if refused then gfail e else gret tt.

Fixpoint each {A} (f : A → M unit) (l : list A) : M unit :=
  match l with [] => gret tt | a :: l' => f a ~;; each f l' end.

Fixpoint check_all {A} (f : A → result unit string) (l : list A) : result unit string :=
  match l with [] => Ok tt | a :: l' => _ <-? f a;; check_all f l' end.

(** ** Nested maps and the order of a [BTreeMap] *)

Definition lookup2 {A} (k k' : string) (m : gmap string (gmap string A)) : option A :=
  (m !! k) ≫= λ m', m' !! k'.
Definition insert2 {A} (k k' : string) (a : A) (m : gmap string (gmap string A))
    : gmap string (gmap string A) :=
  <[k := <[k' := a]> (default ∅ (m !! k))]> m.

Definition btree_list {A} (m : gmap string A) : list (string * A) :=
  sort_by (λ a b, str_le a.1 b.1) (map_to_list m).
Definition btree_values {A} (m : gmap string A) : list A := (btree_list m).*2.

(** ** Reading the projections *)

(* SRC core/src/work_gateway.rs @fn:execution_id WorkGateway::execution_id *)
Definition execution_id (w : string) (g : WorkGateway) : option string := execution_ids g !! w.
(* SRC core/src/work_gateway.rs @fn:run_state WorkGateway::run_state *)
Definition run_state (w run : string) (g : WorkGateway) : option WorkState := lookup2 w run (run_states g).
(* SRC core/src/work_gateway.rs @fn:effect_status WorkGateway::effect_status *)
Definition effect_status (w e : string) (g : WorkGateway) : option EffectProjection :=
  lookup2 w e (effect_projections g).
(* SRC core/src/work_gateway.rs @fn:effect_statuses WorkGateway::effect_statuses *)
Definition effect_statuses (w : string) (g : WorkGateway) : list EffectProjection :=
  match effect_projections g !! w with Some m => btree_values m | None => [] end.
(* SRC core/src/work_gateway.rs @fn:events WorkGateway::events *)
Definition events_of (w : string) (g : WorkGateway) : list WorkEventEnvelope := default [] (wg_events g !! w).
(* SRC core/src/work_gateway.rs @fn:replay_from WorkGateway::replay_from *)
Definition replay_from (w : string) (sequence : N) (g : WorkGateway) : list WorkEventEnvelope :=
  List.filter (λ e, (sequence <=? we_sequence e)%N) (events_of w g).
(* SRC core/src/work_gateway.rs @fn:pending_approval WorkGateway::pending_approval *)
Definition pending_approval (w ticket : string) (g : WorkGateway) : option Value :=
  lookup2 w ticket (pending_approvals g).

Definition value_run_id (v : Value) : option string := json_get "runId" v ≫= as_str.

(* SRC core/src/work_gateway.rs @fn:pending_approvals_for_run WorkGateway::pending_approvals_for_run *)
Definition pending_approvals_for_run (w run : string) (g : WorkGateway) : list (string * Value) :=
  match pending_approvals g !! w with
  | Some m => List.filter (λ e, bool_decide (value_run_id e.2 = Some run)) (btree_list m)
  | None => []
  end.

(* SRC core/src/work_gateway.rs @fn:has_unresolved_uncertain_effect WorkGateway::has_unresolved_uncertain_effect *)
Definition has_unresolved_uncertain_effect (w : string) (g : WorkGateway) : bool :=
  existsb requires_reconciliation (effect_statuses w g).

(* SRC core/src/work_gateway.rs @fn:presence_is_terminal WorkGateway::presence_is_terminal *)
Definition presence_is_terminal (w : string) (g : WorkGateway) : bool :=
  match (presence g !! w) ≫= wp_state with
  | Some PsCompleted | Some PsFailed | Some PsCancelled => true
  | _ => false
  end.

(** ** Run references and states *)

(* SRC core/src/work_gateway.rs @fn:note_run_reference WorkGateway::note_run_reference *)
Definition note_run_reference (w run : string) (g : WorkGateway) : WorkGateway :=
  let runs := default [] (run_ids g !! w) in
  let runs := if existsb (λ id, String.eqb id run) runs then runs else runs ++ [run] in
  let g := set_execution_ids (<[w := run]> (execution_ids g)) (set_run_ids (<[w := runs]> (run_ids g)) g) in
  match works g !! w with
  | Some a => set_works (<[w := with_run (Some run) a]> (works g)) g
  | None => g
  end.

(** [{:?}] of a state. *)
Definition work_state_debug (s : WorkState) : string :=
  match s with
  | WCreated => "Created" | WPlanning => "Planning" | WReady => "Ready" | WRunning => "Running"
  | WWaitingTool => "WaitingTool" | WWaitingApproval => "WaitingApproval" | WWaitingUser => "WaitingUser"
  | WCheckpointed => "Checkpointed" | WVerifying => "Verifying" | WCompleted => "Completed"
  | WFailed => "Failed" | WCancelled => "Cancelled" | WPaused => "Paused" | WRecoverable => "Recoverable"
  end.

(* SRC core/src/work_gateway.rs @fn:validate_run_transition WorkGateway::validate_run_transition *)
Definition validate_run_transition (w run : string) (s : WorkState) (g : WorkGateway) : result unit string :=
  match run_state w run g with
  | None => Ok tt
  | Some previous =>
      if negb (work_can_transition previous s) then
        Err ("illegal Work transition " +:+ work_state_debug previous +:+ " → " +:+ work_state_debug s +:+
             " for run `" +:+ run +:+ "`")
      else if bool_decide (previous = WWaitingApproval) && negb (bool_decide (s = WWaitingApproval)) &&
              negb (bool_decide (pending_approvals_for_run w run g = [])) then
        Err ("run `" +:+ run +:+ "` cannot leave WaitingApproval with an unresolved approval")
      else if bool_decide (s = WRunning) && bool_decide (previous = WRecoverable) &&
              has_unresolved_uncertain_effect w g then
        Err ("run `" +:+ run +:+
             "` is Recoverable with an unresolved uncertain effect; reconcile before retry")
      else Ok tt
  end.

(** The state and presence a legal transition leaves. *)
Definition presence_at (w run : string) (s : WorkState) (wait : option WaitCondition) (p : WorkPresence)
    : WorkPresence :=
  {| wp_work_id := w; wp_active_clients := wp_active_clients p; wp_active_nodes := wp_active_nodes p;
     wp_active_run := Some run; wp_current_surface := wp_current_surface p;
     wp_state := Some (presence_projection s wait); wp_work_state := Some s;
     wp_wait := if work_is_running s || bool_decide (s = WPaused) then wait else None |}.

(* SRC core/src/work_gateway.rs @fn:set_run_state WorkGateway::set_run_state *)
Definition set_run_state (w run : string) (s : WorkState) (wait : option WaitCondition) : M unit := λ g,
  let g := note_run_reference w run g in
  if negb (is_some (run_state w run g)) && work_is_terminal s then
    (Err ("run `" +:+ run +:+ "` reached terminal state without a durable start/queue event"), g)
  else
    match validate_run_transition w run s g with
    | Err e => (Err e, g)
    | Ok _ =>
        let g := set_run_states (insert2 w run s (run_states g)) g in
        (Ok tt,
         if bool_decide (execution_id w g = Some run) then
           set_presence
             (<[w := presence_at w run s wait (default presence_default (presence g !! w))]> (presence g)) g
         else g)
    end.

(** ** Effects *)

(** The projection is keyed by the id it carries. *)
Definition put_effect_at (w id : string) (e : EffectProjection) (g : WorkGateway) : WorkGateway :=
  set_effects (insert2 w id e (effect_projections g)) g.

(* SRC core/src/work_gateway.rs @fn:apply_effect_attempt WorkGateway::apply_effect_attempt *)
Definition apply_effect_attempt (w id : string) (grant : option string) (class : option IdempotencyClass)
    (sequence : N) (g : WorkGateway) : WorkGateway :=
  let e := default (effect_new id sequence) (effect_status w id g) in
  put_effect_at w id
    {| ef_effect_id := ef_effect_id e; ef_state := "attempted"; ef_uncertainty := EuUnknownOutcome;
       ef_idempotency_class := class; ef_reason := ef_reason e; ef_grant_id := grant;
       ef_last_sequence := sequence |} g.

(* SRC core/src/work_gateway.rs @fn:apply_effect_observed WorkGateway::apply_effect_observed *)
Definition apply_effect_observed (w id outcome : string) (sequence : N) : M unit := λ g,
  let g := set_effects (<[w := default ∅ (effect_projections g !! w)]> (effect_projections g)) g in
  match effect_status w id g with
  | None => (Err ("effect `" +:+ id +:+ "` observed before attempt"), g)
  | Some e =>
      let unknown := existsb (String.eqb outcome) ["unknown"; "uncertain"; "partial"] in
      (Ok tt, put_effect_at w id
        {| ef_effect_id := ef_effect_id e;
           ef_state := if unknown then "uncertain" else "observed";
           ef_uncertainty := if unknown then if String.eqb outcome "partial" then EuPartial
                                             else EuUnknownOutcome
                             else EuNone;
           ef_idempotency_class := ef_idempotency_class e; ef_reason := Some outcome;
           ef_grant_id := ef_grant_id e; ef_last_sequence := sequence |} g)
  end.

(* SRC core/src/work_gateway.rs @fn:apply_effect_verified WorkGateway::apply_effect_verified *)
Definition apply_effect_verified (w id : string) (verified : bool) (sequence : N) : M unit := λ g,
  match effect_status w id g with
  | None => (Err ("effect `" +:+ id +:+ "` verified before observation"), g)
  | Some e =>
      (Ok tt, put_effect_at w id
        {| ef_effect_id := ef_effect_id e; ef_state := if verified then "verified" else "failed";
           ef_uncertainty := EuNone; ef_idempotency_class := ef_idempotency_class e;
           ef_reason := ef_reason e; ef_grant_id := ef_grant_id e; ef_last_sequence := sequence |} g)
  end.

(* SRC core/src/work_gateway.rs @fn:apply_effect_uncertain WorkGateway::apply_effect_uncertain *)
Definition apply_effect_uncertain (w id : string) (reason : option string) (class : option IdempotencyClass)
    (sequence : N) : M unit := λ g,
  match effect_projections g !! w with
  | None => (Err ("effect `" +:+ id +:+ "` uncertain before a Work attempt"), g)
  | Some effects =>
      match effects !! id with
      | None => (Err ("effect `" +:+ id +:+ "` uncertain before an attempt"), g)
      | Some e =>
          (Ok tt, put_effect_at w id
            {| ef_effect_id := ef_effect_id e; ef_state := "uncertain"; ef_uncertainty := EuUnknownOutcome;
               ef_idempotency_class := match class with Some _ => class | None => ef_idempotency_class e end;
               ef_reason := reason; ef_grant_id := ef_grant_id e; ef_last_sequence := sequence |} g)
      end
  end.

(* SRC core/src/work_gateway.rs @fn:apply_effect_reconciled WorkGateway::apply_effect_reconciled *)
Definition apply_effect_reconciled (w id outcome : string) (retry_safe : bool) (sequence : N) : M unit := λ g,
  match effect_status w id g with
  | None => (Err ("effect `" +:+ id +:+ "` reconciled before an attempt"), g)
  | Some e =>
      if negb (requires_reconciliation e) then (Err ("effect `" +:+ id +:+ "` is not uncertain"), g)
      else
        (Ok tt, put_effect_at w id
          {| ef_effect_id := ef_effect_id e; ef_state := if retry_safe then "retry_safe" else "reconciled";
             ef_uncertainty := EuNone; ef_idempotency_class := ef_idempotency_class e;
             ef_reason := Some outcome; ef_grant_id := ef_grant_id e; ef_last_sequence := sequence |} g)
  end.

(** ** Patches of a Work *)

(** The incoming fields of a run object, in key order, over the kept ones. *)
Fixpoint merge_run_fields (incoming object : list (string * Value))
    : result unit string * list (string * Value) :=
  match incoming with
  | [] => (Ok tt, object)
  | (k, v) :: rest =>
      match obj_get k object with
      | Some existing =>
          if bool_decide (existing = v) then merge_run_fields rest object
          else (Err ("run metadata field `" +:+ k +:+ "` conflicts with an earlier event"), object)
      | None => merge_run_fields rest (obj_insert k v object)
      end
  end.

(** The [run] projection of a patch. *)
Definition apply_run_patch (w : string) (run : Value) : M unit := λ g,
  match as_object run with
  | None => (Err "WorkUpdated run projection must be an object", g)
  | Some incoming =>
      match match json_get "runId" run with Some v => Some v | None => json_get "executionId" run end ≫= as_str with
      | None => (Err "WorkUpdated run projection requires runId", g)
      | Some run_id =>
          let g := note_run_reference w run_id g in
          let target := default (JObject []) (lookup2 w run_id (run_metadata g)) in
          let g := set_run_metadata (insert2 w run_id target (run_metadata g)) g in
          match as_object target with
          | None => (Err "durable run metadata is not an object", g)
          | Some object =>
              let '(r, object') := merge_run_fields incoming object in
              (r, set_run_metadata (insert2 w run_id (JObject object') (run_metadata g)) g)
          end
      end
  end.

Definition patch_string (patch : Value) (key key' label : string) (old : option string)
    : result (option string) string :=
  match match json_get key patch with Some v => Some v | None => json_get key' patch end with
  | None => Ok old
  | Some v => match as_str v with Some s => Ok (Some s) | None => Err ("WorkUpdated " +:+ label +:+ " must be a string") end
  end.

Definition with_identity (p : WorkProvenance) (owner binding : option string) (a : WorkAddress) : WorkAddress :=
  {| wd_work_id := wd_work_id a; wd_project_id := wd_project_id a; wd_session_id := wd_session_id a;
     wd_session_kind := wd_session_kind a; wd_owner_id := owner; wd_binding_id := binding;
     wd_provenance := p; wd_node_id := wd_node_id a; wd_current_run_id := wd_current_run_id a;
     wd_version := wd_version a; wd_parent_work_id := wd_parent_work_id a |}.

(* SRC core/src/work_gateway.rs @fn:apply_work_update WorkGateway::apply_work_update *)
Definition apply_work_update (w : string) (patch : Value) : M unit :=
  a <~ (λ g, glift (ok_or_err (works g !! w) ("WorkUpdated references unknown Work `" +:+ w +:+ "`")) g);;
  a <~ match json_get "executionId" patch with
       | None => gret a
       | Some value =>
           id <~ glift (ok_or_err (as_str value) "WorkUpdated executionId must be a string");;
           gguard (is_empty id) "WorkUpdated executionId cannot be empty" ~;;
           gmodify (note_run_reference w id) ~;;
           gret (with_run (Some id) a)
       end;;
  match json_get "run" patch with None => gret tt | Some run => apply_run_patch w run end ~;;
  p <~ glift (merge_patch patch (wd_provenance a));;
  glift (validate_complete p.2) ~;;
  owner <~ glift (patch_string patch "ownerId" "owner_id" "ownerId" (wd_owner_id a));;
  binding <~ glift (patch_string patch "bindingId" "binding_id" "bindingId" (wd_binding_id a));;
  let a := with_identity p.2 owner binding a in
  gmodify (λ g,
    if bool_decide (json_get "archived" patch ≫= as_bool = Some true)
    then set_works (delete w (works g)) g
    else set_works (<[w := bump_version a]> (works g)) g).

(** ** Recovery facts *)

Section gateway.
Context `{RenderFact} `{HashIter} `{WorkWorld}.

(* SRC core/src/work_gateway.rs @fn:validate_p69g2_event WorkGateway::validate_p69g2_event *)
Definition validate_p69g2_event (w : string) (e : WorkEvent) : result unit string :=
  match e with
  | Domain (FileChangeSetCaptured cs) | Domain (FileChangeSetSettled cs) =>
      match change_set_validate cs with
      | Err e => Err ("change set `" +:+ cs_change_set_id cs +:+ "` is invalid: " +:+ e)
      | Ok _ =>
          if negb (String.eqb (cs_work_id cs) w) then
            Err ("change set `" +:+ cs_change_set_id cs +:+ "` is journaled under Work `" +:+ w +:+
                 "`, not `" +:+ cs_work_id cs +:+ "`")
          else Ok tt
      end
  | Domain (DelegationLeaseFact child fact) =>
      if is_empty (lf_lease_id fact) then Err "delegation lease fact has an empty lease id"
      else if is_empty (trim child) then Err "delegation lease fact names no child work"
      else match fact_validate fact with
           | Err e => Err ("delegation lease fact is invalid: " +:+ e)
           | Ok _ => Ok tt
           end
  | Domain (SubagentHeartbeat child _) =>
      if is_empty (trim child) then Err "subagent heartbeat names no child work" else Ok tt
  | Domain (SubagentLeaseReclaimed receipt) =>
      if is_empty (trim (tr_child_work_id receipt)) then Err "subagent reclaim names no child work" else Ok tt
  | _ => Ok tt
  end.

(** A lease error inside a gateway error; its text is not modelled. *)
Definition lease_error (what : string) (e : LeaseError) : string := what.

(* SRC core/src/work_gateway.rs @fn:project_p69g2_event WorkGateway::project_p69g2_event *)
Definition project_p69g2_event (w : string) (e : WorkEvent) (recovery : bool) (sequence : N) : M unit :=
  glift (validate_p69g2_event w e) ~;;
  match e with
  | Domain (FileChangeSetCaptured cs) | Domain (FileChangeSetSettled cs) =>
      gmodify (λ g, set_change_sets (insert2 (cs_work_id cs) (cs_step_id cs) cs (file_change_sets g)) g)
  | Domain (DelegationRefused refusal) =>
      gmodify (λ g,
        let count := match delegation_refusals g !! w with Some r => dr_count r | None => 0%N end in
        set_refusals (<[w := {| dr_work_id := w; dr_count := u64_saturating_add count 1; dr_last := refusal |}]>
                        (delegation_refusals g)) g)
  | Domain (DelegationLeaseFact _ fact) => λ g,
      let '(r, c) := apply_fact fact recovery (fresh_bearer sequence) (delegation_leases g) in
      (match r with Ok _ => Ok tt | Err e => Err (lease_error "delegation lease fact: " e) end,
       set_delegation_leases c g)
  | Domain (SubagentHeartbeat child at_ms) =>
      gmodify (λ g, set_heartbeats
        (<[child := N.max at_ms (default 0%N (subagent_heartbeats g !! child))]> (subagent_heartbeats g)) g)
  | Domain (SubagentLeaseReclaimed receipt) =>
      gmodify (λ g, set_reclaims (<[tr_child_work_id receipt := receipt]> (subagent_reclaims g)) g)
  | _ => gret tt
  end.

(** ** Append *)

(** One record written to the journal file. *)
Definition write_journal (env : WorkEventEnvelope) : M unit := λ g,
  match wg_journal g with
  | None => (Ok tt, g)
  | Some lines =>
      let g := set_writes (S (wg_writes g)) g in
      match disk_write (pred (wg_writes g)) with
      | WriteOk => (Ok tt, set_journal (Some (lines ++ [env])) g)
      | WriteRefused e => (Err e, g)
      | WriteUnsynced e => (Err e, set_journal (Some (lines ++ [env])) g)
      end
  end.

Definition envelope_of (w : string) (e : WorkEvent) (causal : option N) (sequence : N) : WorkEventEnvelope :=
  {| we_work_id := w; we_sequence := sequence; we_event_id := "we:" +:+ pretty sequence; we_event := e;
     we_timestamp := stamp sequence; we_trace_id := None; we_causal_parent := causal;
     we_schema_version := 1 |}.

(** The checks before the record is written. *)
Definition admit_event (w : string) (e : WorkEvent) (g : WorkGateway) : result unit string :=
  if negb (is_some (works g !! w)) then Err "unknown work"
  else
    _ <-? match run_event_state e with
          | Some (run, s) => validate_run_transition w run s g
          | None => Ok tt
          end;;
    _ <-? validate_p69g2_event w e;;
    if (next_seq g =? u64_max)%N then Err "work journal sequence overflow" else Ok tt.

(* SRC core/src/work_gateway.rs @fn:append WorkGateway::append *)
Definition append (w : string) (e : WorkEvent) (causal : option N) : M WorkEventEnvelope :=
  (λ g, (admit_event w e g, g)) ~;;
  sequence <~ gets next_seq;;
  let env := envelope_of w e causal sequence in
  write_journal env ~;;
  gmodify (λ g, set_events (<[w := events_of w g ++ [env]]> (wg_events g))
                  (set_next_seq (sequence + 1)%N g)) ~;;
  match e with Domain (WorkUpdated patch) => apply_work_update w patch | _ => gret tt end ~;;
  project_p69g2_event w e false sequence ~;;
  gret env.

(** ** Replay *)

(** [serde_json::json!] of an approval request. *)
Definition approval_value (ticket run : string) (tool_id args_hash risk_tier : option string)
    (requested_at_ms : option N) : Value :=
  json_object [("ticketId", JString ticket); ("toolId", json_opt JString tool_id);
    ("argsHash", json_opt JString args_hash); ("riskTier", json_opt JString risk_tier);
    ("requestedAtMs", json_opt json_u64 requested_at_ms); ("runId", JString run)].

Definition known_run (w run : string) (g : WorkGateway) : bool :=
  existsb (String.eqb run) (default [] (run_ids g !! w)).

(* SRC core/src/work_gateway.rs @fn:approval_event_run_id WorkGateway::approval_event_run_id *)
Definition approval_event_run_id (w : string) (explicit : option string) (g : WorkGateway)
    : result string string :=
  run <-? ok_or_err (match explicit with Some r => Some r | None => execution_id w g end)
            ("Work `" +:+ w +:+ "` approval event has no Run owner");;
  if negb (known_run w run g) then
    Err ("Work `" +:+ w +:+ "` approval event references unknown Run `" +:+ run +:+ "`")
  else Ok run.

Definition remove_pending (w ticket : string) (g : WorkGateway) : WorkGateway :=
  match pending_approvals g !! w with
  | None => g
  | Some pending =>
      let pending' := delete ticket pending in
      set_pending (if is_some (pending !! ticket) && bool_decide (pending' = ∅)
                   then delete w (pending_approvals g) else <[w := pending']> (pending_approvals g)) g
  end.

(* SRC core/src/work_gateway.rs 1474 1525 WorkGateway::replay_event *)
Definition replay_approval_resolved (w ticket : string) (run : option string) (approved : bool) : M unit := λ g,
  if is_empty (trim ticket) then (Err "approval resolution has an empty ticket id", g)
  else if match run with Some r => negb (known_run w r g) | None => false end then
    (Err ("approval resolution references unknown Run `" +:+ default "" run +:+ "`"), g)
  else
    match match pending_approval w ticket g ≫= value_run_id with
          | Some existing =>
              if match run with Some expected => negb (String.eqb existing expected) | None => false end then
                Err ("approval `" +:+ ticket +:+ "` belongs to Run `" +:+ existing +:+ "`, not `" +:+
                     default "" run +:+ "`")
              else if negb (bool_decide (run_state w existing g = Some WWaitingApproval)) then
                Err ("approval `" +:+ ticket +:+ "` is not resolved from WaitingApproval")
              else Ok tt
          | None =>
              if is_some (pending_approval w ticket g) then
                Err ("approval `" +:+ ticket +:+ "` has no durable Run owner")
              else Ok tt
          end with
    | Err e => (Err e, g)
    | Ok _ =>
        let g := remove_pending w ticket g in
        (Ok tt, match reviews g !! ticket with
                | Some r => set_reviews (<[ticket := with_review_state
                    (if approved then "approved" else "rejected") r]> (reviews g)) g
                | None => g
                end)
    end.

(* SRC core/src/work_gateway.rs 1526 1566 WorkGateway::replay_event *)
Definition replay_approval_requested (w ticket : string) (run tool_id args_hash risk_tier : option string)
    (requested_at_ms : option N) : M unit := λ g,
  if is_empty (trim ticket) then (Err "approval request has an empty ticket id", g)
  else
    match approval_event_run_id w run g with
    | Err e => (Err e, g)
    | Ok run =>
      if negb (bool_decide (run_state w run g = Some WWaitingApproval)) then
        (Err ("approval request for `" +:+ ticket +:+ "` is not attached to a WaitingApproval Run"), g)
      else
        let v := approval_value ticket run tool_id args_hash risk_tier requested_at_ms in
        let g := set_pending (<[w := default ∅ (pending_approvals g !! w)]> (pending_approvals g)) g in
        if negb (bool_decide (pending_approvals_for_run w run g = [])) then
          (Err ("Run `" +:+ run +:+ "` already has a pending approval"), g)
        else
          match pending_approval w ticket g with
          | Some existing =>
              (Err (if bool_decide (existing = v) then "approval ticket `" +:+ ticket +:+ "` is already pending"
                    else "approval ticket `" +:+ ticket +:+ "` was requested with conflicting metadata"), g)
          | None => (Ok tt, set_pending (insert2 w ticket v (pending_approvals g)) g)
          end
    end.

(** [note_run_reference] and [set_run_state], as the run events replay. *)
Definition replay_run (w run : string) (s : WorkState) (wait : option WaitCondition) : M unit :=
  gmodify (note_run_reference w run) ~;; set_run_state w run s wait.

(* SRC core/src/work_gateway.rs 1365 1418 WorkGateway::replay_event *)
Definition replay_work_created (w : string) (project_id session_id parent_work_id : option string)
    (session_kind : SessionKind) (owner_id binding_id : option string) (initial_state : option WorkState)
    (run_id trigger : option string) (provenance : WorkProvenance) : M unit := λ g,
  if is_some (works g !! w) then (Err ("duplicate WorkCreated for `" +:+ w +:+ "`"), g)
  else match validate_complete provenance with Err e => (Err e, g) | Ok _ =>
  if bool_decide (session_kind = SkAutomation) && negb (is_some session_id) then
    (Err ("automation Work `" +:+ w +:+ "` has no owning Session in its creation event"), g)
  else
  let initial := default WCreated initial_state in
  if work_is_terminal initial && negb (is_some run_id) then
    (Err ("terminal Work `" +:+ w +:+ "` has no durable Run"), g)
  else
  let a := {| wd_work_id := w; wd_project_id := project_id; wd_session_id := session_id;
              wd_session_kind := session_kind; wd_owner_id := owner_id; wd_binding_id := binding_id;
              wd_provenance := provenance; wd_node_id := None; wd_current_run_id := None; wd_version := 1;
              wd_parent_work_id := parent_work_id |} in
  let p := {| wp_work_id := w; wp_active_clients := []; wp_active_nodes := []; wp_active_run := None;
              wp_current_surface := None; wp_state := Some (presence_projection initial None);
              wp_work_state := Some initial; wp_wait := None |} in
  let g := set_presence (<[w := p]> (presence g)) (set_works (<[w := a]> (works g)) g) in
  (Ok tt,
   match run_id with
   | None => g
   | Some run =>
       let g := note_run_reference w run g in
       match trigger with
       | Some t => set_run_metadata (insert2 w run (json_object [("trigger", JString t)]) (run_metadata g)) g
       | None => g
       end
   end)
  end.

Definition with_binding_state (s : BindingLifecycle) (psid : option string) (seq : N) (b : AgentBinding)
    : AgentBinding :=
  {| ab_binding_id := ab_binding_id b; ab_session_id := ab_session_id b; ab_work_id := ab_work_id b;
     ab_agent_id := ab_agent_id b; ab_adapter_id := ab_adapter_id b; ab_protocol := ab_protocol b;
     ab_provider_session_id := psid; ab_model := ab_model b; ab_mode := ab_mode b;
     ab_capability_manifest := ab_capability_manifest b; ab_governance_mode := ab_governance_mode b;
     ab_bridge_id := ab_bridge_id b; ab_state := s; ab_usage := ab_usage b; ab_last_event_seq := seq;
     ab_private_state_ref := ab_private_state_ref b |}.
Definition with_binding_usage (u : BindingUsage) (seq : N) (b : AgentBinding) : AgentBinding :=
  {| ab_binding_id := ab_binding_id b; ab_session_id := ab_session_id b; ab_work_id := ab_work_id b;
     ab_agent_id := ab_agent_id b; ab_adapter_id := ab_adapter_id b; ab_protocol := ab_protocol b;
     ab_provider_session_id := ab_provider_session_id b; ab_model := ab_model b; ab_mode := ab_mode b;
     ab_capability_manifest := ab_capability_manifest b; ab_governance_mode := ab_governance_mode b;
     ab_bridge_id := ab_bridge_id b; ab_state := ab_state b; ab_usage := u; ab_last_event_seq := seq;
     ab_private_state_ref := ab_private_state_ref b |}.

(** The binding a lifecycle event names, owned by the Work of the event. *)
Definition owned_binding (w id : string) (g : WorkGateway) : result AgentBinding string :=
  b <-? ok_or_err (agent_bindings g !! id) ("journal references unknown binding `" +:+ id +:+ "`");;
  if negb (String.eqb (ab_work_id b) w) then Err ("binding `" +:+ id +:+ "` is owned by another Work")
  else Ok b.

Definition put_binding (id : string) (b : AgentBinding) (g : WorkGateway) : WorkGateway :=
  set_agent_bindings (<[id := b]> (agent_bindings g)) g.
Definition point_binding (w : string) (id : option string) (g : WorkGateway) : WorkGateway :=
  let g := set_active_bindings (match id with Some i => <[w := i]> (active_binding_ids g)
                                | None => delete w (active_binding_ids g) end) g in
  match works g !! w with
  | Some a => set_works (<[w := with_binding id a]> (works g)) g
  | None => g
  end.

Definition usage_add (a b : BindingUsage) : BindingUsage :=
  {| bu_input_tokens := u64_saturating_add (bu_input_tokens a) (bu_input_tokens b);
     bu_output_tokens := u64_saturating_add (bu_output_tokens a) (bu_output_tokens b);
     bu_cost_micros := u64_saturating_add (bu_cost_micros a) (bu_cost_micros b) |}.

(* SRC core/src/work_gateway.rs 1652 1718 WorkGateway::replay_event *)
Definition replay_runtime (w : string) (e : RuntimeEvent) (sequence : N) : M unit := λ g,
  match e with
  | AgentBindingCreated b =>
      if negb (String.eqb (ab_work_id b) w) then
        (Err ("binding `" +:+ ab_binding_id b +:+ "` is attached to a different Work than its event"), g)
      else
        (Ok tt, put_binding (ab_binding_id b)
                  (with_binding_state (ab_state b) (ab_provider_session_id b) sequence b) g)
  | AgentBindingActivated id psid | AgentBindingResumed id psid =>
      match owned_binding w id g with
      | Err e => (Err e, g)
      | Ok b =>
          (Ok tt, point_binding w (Some id)
            (put_binding id (with_binding_state BlActive
               (match psid with Some _ => psid | None => ab_provider_session_id b end) sequence b) g))
      end
  | AgentBindingSuspended id =>
      match owned_binding w id g with
      | Err e => (Err e, g)
      | Ok b =>
          let g := put_binding id (with_binding_state BlParked (ab_provider_session_id b) sequence b) g in
          (Ok tt, if bool_decide (active_binding_ids g !! w = Some id) then point_binding w None g else g)
      end
  | AgentBindingUsageRecorded id u =>
      match owned_binding w id g with
      | Err e => (Err e, g)
      | Ok b => (Ok tt, put_binding id (with_binding_usage (usage_add (ab_usage b) u) sequence b) g)
      end
  | _ => (Ok tt, g)
  end.

Definition with_clients (cs : list string) (p : WorkPresence) : WorkPresence :=
  {| wp_work_id := wp_work_id p; wp_active_clients := cs; wp_active_nodes := wp_active_nodes p;
     wp_active_run := wp_active_run p; wp_current_surface := wp_current_surface p;
     wp_state := wp_state p; wp_work_state := wp_work_state p; wp_wait := wp_wait p |}.
Definition with_presence_work (w : string) (p : WorkPresence) : WorkPresence :=
  {| wp_work_id := w; wp_active_clients := wp_active_clients p; wp_active_nodes := wp_active_nodes p;
     wp_active_run := wp_active_run p; wp_current_surface := wp_current_surface p;
     wp_state := wp_state p; wp_work_state := wp_work_state p; wp_wait := wp_wait p |}.

Definition push_unique (x : string) (l : list string) : list string :=
  if existsb (String.eqb x) l then l else l ++ [x].

Definition is_work_created (e : WorkEvent) : bool :=
  match e with Domain (WorkCreated _ _ _ _ _ _ _ _ _ _ _) => true | _ => false end.

(* SRC core/src/work_gateway.rs @fn:replay_event WorkGateway::replay_event *)
Definition replay_event (env : WorkEventEnvelope) : M unit := λ g,
  let w := we_work_id env in
  if is_empty w then (Err "work journal event has an empty work id", g)
  else if negb (is_work_created (we_event env)) && negb (is_some (works g !! w)) then
    (Err ("work journal event " +:+ pretty (we_sequence env) +:+ " precedes WorkCreated for `" +:+ w +:+ "`"), g)
  else
  match we_event env with
  | Domain d =>
      match d with
      | WorkCreated _ project session parent kind owner binding initial run trigger prov =>
          replay_work_created w project session parent kind owner binding initial run trigger prov g
      | WorkUpdated patch => apply_work_update w patch g
      | RunQueued run => replay_run w run WReady None g
      | RunStarted run => replay_run w run WRunning None g
      | RunWaiting run reason wait =>
          match work_state_try_parse reason with
          | None => (Err ("unknown Work state `" +:+ reason +:+ "` in journal"), g)
          | Some s => replay_run w run s wait g
          end
      | RunCheckpointed run checkpoint =>
          (replay_run w run WCheckpointed None ~;;
           (λ g,
             let v := default (JObject []) (lookup2 w run (run_metadata g)) in
             match as_object v with
             | None => (Err "run metadata is not an object",
                        set_run_metadata (insert2 w run v (run_metadata g)) g)
             | Some m => (Ok tt, set_run_metadata
                 (insert2 w run (JObject (obj_insert "checkpoint" (json_u64 checkpoint) m)) (run_metadata g)) g)
             end)) g
      | RunPaused run => replay_run w run WPaused None g
      | RunInterrupted run _ => replay_run w run WRecoverable None g
      | RunCompleted run => replay_run w run WCompleted None g
      | RunFailed run _ => replay_run w run WFailed None g
      | RunCancelled run => replay_run w run WCancelled None g
      | ApprovalResolved ticket run approved => replay_approval_resolved w ticket run approved g
      | ApprovalRequested ticket run tool args tier at_ms =>
          replay_approval_requested w ticket run tool args tier at_ms g
      | ReviewRequested id =>
          (Ok tt, match reviews g !! id with
                  | Some _ => g
                  | None => set_reviews (<[id := {| ri_review_id := id; ri_work_id := w; ri_run_id := None;
                      ri_kind := "review"; ri_priority := 0; ri_state := "pending"; ri_artifact_refs := [];
                      ri_effect_refs := [] |}]> (reviews g)) g
                  end)
      | EffectAttempted id grant class => (Ok tt, apply_effect_attempt w id grant class (we_sequence env) g)
      | EffectObserved id outcome => apply_effect_observed w id outcome (we_sequence env) g
      | EffectVerified id verified => apply_effect_verified w id verified (we_sequence env) g
      | EffectUncertain id reason class => apply_effect_uncertain w id reason class (we_sequence env) g
      | EffectReconciled id outcome safe => apply_effect_reconciled w id outcome safe (we_sequence env) g
      | FileChangeSetCaptured _ | FileChangeSetSettled _ | DelegationRefused _ | DelegationLeaseFact _ _
      | SubagentHeartbeat _ _ | SubagentLeaseReclaimed _ =>
          project_p69g2_event w (we_event env) true (we_sequence env) g
      | ArtifactCreated _ | ArtifactUpdated _ => (Ok tt, g)
      end
  | Operational (SessionAttached client) =>
      let p := with_presence_work w (default presence_default (presence g !! w)) in
      (Ok tt, set_presence (<[w := with_clients (push_unique client (wp_active_clients p)) p]> (presence g)) g)
  | Operational (SessionDetached client) =>
      (Ok tt, match presence g !! w with
              | Some p => set_presence (<[w := with_clients
                  (List.filter (λ id, negb (String.eqb id client)) (wp_active_clients p)) p]> (presence g)) g
              | None => g
              end)
  | Runtime e => replay_runtime w e (we_sequence env) g
  | _ => (Ok tt, g)
  end.

(** ** Opening a journal *)

Definition opt_eqb (a b : option string) : bool := bool_decide (a = b).

(** The checks of one Work. *)
Definition validate_work (g : WorkGateway) (e : string * WorkAddress) : result unit string :=
  let '(w, a) := e in
  if negb (String.eqb (wd_work_id a) w) then Err ("Work `" +:+ w +:+ "` has a mismatched address id")
  else if bool_decide (wd_session_kind a = SkAutomation) && negb (is_some (wd_session_id a)) then
    Err ("automation Work `" +:+ w +:+ "` has no owning Session")
  else
    _ <-? match wd_parent_work_id a with
          | None => Ok tt
          | Some parent =>
              pa <-? ok_or_err (works g !! parent)
                       ("Work `" +:+ w +:+ "` references unknown parent `" +:+ parent +:+ "`");;
              if negb (opt_eqb (wd_session_id pa) (wd_session_id a)) ||
                 negb (bool_decide (wd_session_kind pa = wd_session_kind a)) then
                Err ("Work `" +:+ w +:+ "` does not inherit its parent Session scope")
              else Ok tt
          end;;
    _ <-? match wd_current_run_id a with
          | None => Ok tt
          | Some current =>
              if negb (known_run w current g) then
                Err ("Work `" +:+ w +:+ "` points at an unjournaled Run `" +:+ current +:+ "`")
              else Ok tt
          end;;
    _ <-? match active_binding_ids g !! w with
          | None => Ok tt
          | Some b =>
              if negb (opt_eqb (wd_binding_id a) (Some b)) || negb (is_some (agent_bindings g !! b)) then
                Err ("Work `" +:+ w +:+ "` has an invalid active binding pointer")
              else Ok tt
          end;;
    check_all (λ b,
      if negb (String.eqb (ab_work_id b) w) then Ok tt
      else if negb (opt_eqb (wd_session_id a) (Some (ab_session_id b))) then
        Err ("binding `" +:+ ab_binding_id b +:+ "` is not owned by the Work Session")
      else if bool_decide (ab_state b = BlActive) &&
              negb (opt_eqb (active_binding_ids g !! w) (Some (ab_binding_id b))) then
        Err ("active binding `" +:+ ab_binding_id b +:+ "` has no Work ownership pointer")
      else Ok tt) (map_iter (agent_bindings g)).*2.

(** The active bindings of a session. *)
Definition active_bindings_of (session : string) (g : WorkGateway) : list AgentBinding :=
  List.filter (λ b, bool_decide (ab_state b = BlActive) && String.eqb (ab_session_id b) session)
    (map_iter (agent_bindings g)).*2.

Definition active_sessions (g : WorkGateway) : list string :=
  sort_by str_le (remove_dups
    (ab_session_id <$> List.filter (λ b, bool_decide (ab_state b = BlActive)) (map_iter (agent_bindings g)).*2)).

Definition json_null_or (f : Value → bool) (k : string) (v : Value) : bool :=
  match json_get k v with Some JNull | None => true | Some x => f x end.

(** The checks of one pending approval. *)
Definition validate_pending (g : WorkGateway) (w : string) (e : string * Value) : result unit string :=
  let '(ticket, v) := e in
  if negb (opt_eqb (json_get "ticketId" v ≫= as_str) (Some ticket)) then
    Err ("Work `" +:+ w +:+ "` pending approval has a mismatched ticket id")
  else
    _ <-? check_all (λ field,
            if json_null_or (λ x, is_some (as_str x)) field v then Ok tt
            else Err ("pending approval `" +:+ ticket +:+ "` has a non-string `" +:+ field +:+ "`"))
          ["toolId"; "argsHash"; "riskTier"];;
    _ <-? (if json_null_or (λ x, is_some (as_u64 x)) "requestedAtMs" v then Ok tt
           else Err ("pending approval `" +:+ ticket +:+ "` has an invalid requestedAtMs"));;
    run <-? ok_or_err (value_run_id v)
              ("Work `" +:+ w +:+ "` pending approval `" +:+ ticket +:+ "` has no Run owner");;
    if negb (known_run w run g) then
      Err ("pending approval `" +:+ ticket +:+ "` references unknown Run `" +:+ run +:+ "`")
    else if negb (bool_decide (run_state w run g = Some WWaitingApproval)) then
      Err ("pending approval `" +:+ ticket +:+ "` is not attached to WaitingApproval")
    else Ok tt.

(* SRC core/src/work_gateway.rs @fn:validate_replayed_graph WorkGateway::validate_replayed_graph *)
Definition validate_replayed_graph (g : WorkGateway) : result unit string :=
  _ <-? check_all (validate_work g) (btree_list (works g));;
  _ <-? check_all (λ session,
          let count := length (active_bindings_of session g) in
          if (1 <? count)%nat then
            Err ("Session `" +:+ session +:+ "` has " +:+ pretty (N.of_nat count) +:+
                 " active bindings; ownership is ambiguous")
          else Ok tt) (active_sessions g);;
  _ <-? check_all (λ e : string * gmap string Value,
          if negb (is_some (works g !! e.1)) then
            Err ("pending approval references unknown Work `" +:+ e.1 +:+ "`")
          else if bool_decide (e.2 = ∅) then
            Err ("Work `" +:+ e.1 +:+ "` has an empty pending-approval projection")
          else check_all (validate_pending g e.1) (btree_list e.2)) (btree_list (pending_approvals g));;
  check_all (λ e : string * gmap string EffectProjection,
    if negb (is_some (works g !! e.1)) then
      Err ("effect projection references unknown Work `" +:+ e.1 +:+ "`")
    else check_all (λ x, if is_empty (ef_effect_id x)
                         then Err ("Work `" +:+ e.1 +:+ "` has an empty effect id") else Ok tt)
           (btree_values e.2)) (btree_list (effect_projections g)).

Definition duplicate_sequence (sequence : N) (g : WorkGateway) : bool :=
  existsb (λ e : string * list WorkEventEnvelope,
    existsb (λ x, (we_sequence x =? sequence)%N) e.2) (map_to_list (wg_events g)).

(** One journal line, parsed. *)
Definition open_line (last : option N) (env : WorkEventEnvelope) : M (option N) := λ g,
  if (1 <? we_schema_version env)%N then
    (Err ("work journal event " +:+ pretty (we_sequence env) +:+ " uses unsupported schema version " +:+
          pretty (we_schema_version env)), g)
  else
  let env := {| we_work_id := we_work_id env; we_sequence := we_sequence env; we_event_id := we_event_id env;
                we_event := we_event env; we_timestamp := we_timestamp env; we_trace_id := we_trace_id env;
                we_causal_parent := we_causal_parent env; we_schema_version := 1 |} in
  let sequence := we_sequence env in
  if match last with Some previous => (sequence <=? previous)%N | None => false end then
    (Err ("work journal sequence is not strictly increasing: " +:+ pretty sequence +:+ " after " +:+
          pretty (default 0%N last)), g)
  else if (next_seq g <=? sequence)%N && (sequence =? u64_max)%N then
    (Err "work journal sequence overflow", g)
  else
  let g := if (next_seq g <=? sequence)%N then set_next_seq (sequence + 1)%N g else g in
  if duplicate_sequence sequence g then
    (Err ("duplicate work journal sequence: " +:+ pretty sequence), g)
  else
  let g := set_events (<[we_work_id env := events_of (we_work_id env) g ++ [env]]> (wg_events g)) g in
  (replay_event env ~;; gret (Some sequence)) g.

Fixpoint open_lines (last : option N) (lines : list WorkEventEnvelope) : M (option N) :=
  match lines with
  | [] => gret last
  | env :: lines' => last <~ open_line last env;; open_lines last lines'
  end.

(* SRC core/src/work_gateway.rs @fn:open WorkGateway::open *)
Definition gateway_open (lines : list WorkEventEnvelope) : result WorkGateway string :=
  let '(r, g) := open_lines None lines (set_journal (Some lines) gateway_new) in
  _ <-? r;;
  _ <-? validate_replayed_graph g;;
  Ok g.
End gateway.
