(* ===== verification/WorkOps.v ===== *)
(** * The operations of the Work gateway ([everyaios-core/src/work_gateway.rs])

    Creation, Runs, waits, approvals, effects, archival, delegation with its
    cycle check, lease and orphan sweep, agent bindings and sessions. Each
    operation appends its events and then projects them, in the order of the
    source. *)
From S2P Require Import Order Prelude Json LeaseTypes Lease WorkTypes WorkEvents Work.

Section ops.
Context `{RenderFact} `{RenderChangeSet} `{HashIter} `{WorkWorld}.

(** ** Creation *)

Definition created_presence (w : string) : WorkPresence :=
  {| wp_work_id := w; wp_active_clients := []; wp_active_nodes := []; wp_active_run := None;
     wp_current_surface := None; wp_state := Some PsRunning; wp_work_state := Some WCreated;
     wp_wait := None |}.

(** The address is live before its event is durable, and withdrawn when the
    event is refused. *)
Definition create_with (w : string) (a : WorkAddress) (e : WorkEvent) : M unit := λ g,
  let g1 := set_presence (<[w := created_presence w]> (presence g)) (set_works (<[w := a]> (works g)) g) in
  match append w e None g1 with
  | (Ok _, g2) => (Ok tt, g2)
  | (Err e, g2) => (Err e, set_presence (delete w (presence g2)) (set_works (delete w (works g2)) g2))
  end.

(* SRC core/src/work_gateway.rs @fn:create_work_in_session WorkGateway::create_work_in_session *)
Definition create_work_in_session (w : string) (project_id session_id : option string) (kind : SessionKind)
    (objective : string) : M WorkAddress := λ g,
  if bool_decide (kind = SkAutomation) && negb (is_some session_id) then
    (Err "an automation Work requires its owning Session (ADR-0006 §4) — the trigger creates the Session, then its Work", g)
  else
  match works g !! w with
  | Some existing =>
      if negb (opt_eqb (wd_session_id existing) session_id) ||
         negb (bool_decide (wd_session_kind existing = kind)) then
        (Err ("Work `" +:+ w +:+ "` already exists with a different Session owner/kind"), g)
      else (Ok existing, g)
  | None =>
      let a := {| wd_work_id := w; wd_project_id := project_id; wd_session_id := session_id;
                  wd_session_kind := kind; wd_owner_id := None; wd_binding_id := None;
                  wd_provenance := provenance_default; wd_node_id := None; wd_current_run_id := None;
                  wd_version := 1; wd_parent_work_id := None |} in
      (create_with w a (Domain (WorkCreated objective project_id session_id None kind None None
         (Some WCreated) None None provenance_default)) ~;; gret a) g
  end.

(* SRC core/src/work_gateway.rs @fn:create_child_work WorkGateway::create_child_work *)
Definition create_child_work (parent w objective : string) (project_id session_id : option string)
    (now_ms : N) : M WorkAddress := λ g,
  match works g !! parent with
  | None => (Err "unknown parent work", g)
  | Some p =>
    match works g !! w with
    | Some existing =>
        if negb (opt_eqb (wd_parent_work_id existing) (Some parent)) ||
           negb (opt_eqb (wd_session_id existing) (wd_session_id p)) ||
           negb (bool_decide (wd_session_kind existing = wd_session_kind p)) then
          (Err ("child Work `" +:+ w +:+ "` already exists with a different owner"), g)
        else (Ok existing, g)
    | None =>
        let a := {| wd_work_id := w;
                    wd_project_id := match project_id with Some _ => project_id | None => wd_project_id p end;
                    wd_session_id := match session_id with Some _ => session_id | None => wd_session_id p end;
                    wd_session_kind := wd_session_kind p; wd_owner_id := None; wd_binding_id := None;
                    wd_provenance := provenance_default; wd_node_id := None; wd_current_run_id := None;
                    wd_version := 1; wd_parent_work_id := Some parent |} in
        (create_with w a (Domain (WorkCreated objective (wd_project_id a) (wd_session_id a) (Some parent)
           (wd_session_kind a) None None (Some WCreated) None (Some "subagent") provenance_default)) ~;;
         append w (Domain (SubagentHeartbeat w now_ms)) None ~;;
         gret a) g
    end
  end.

(* SRC core/src/work_gateway.rs @fn:children_of WorkGateway::children_of *)
Definition children_of (parent : string) (g : WorkGateway) : list WorkAddress :=
  List.filter (λ a, opt_eqb (wd_parent_work_id a) (Some parent)) (btree_values (works g)).

(** ** Runs *)

(* SRC core/src/work_gateway.rs @fn:work_objective WorkGateway::work_objective *)
Definition work_objective (w : string) (g : WorkGateway) : option string :=
  head (omap (λ env, match we_event env with
                     | Domain (WorkCreated objective _ _ _ _ _ _ _ _ _ _) => Some objective
                     | _ => None
                     end) (events_of w g)).

(* SRC core/src/work_gateway.rs @fn:inferred_trigger WorkGateway::inferred_trigger *)
Definition inferred_trigger (w : string) (g : WorkGateway) : string :=
  match works g !! w with
  | None => "chat"
  | Some a =>
      if is_some (wd_parent_work_id a) then "subagent"
      else if bool_decide (wd_session_kind a = SkAutomation) then "scheduler"
      else if existsb (λ b, String.eqb (ab_work_id b) w) (map_iter (agent_bindings g)).*2 then "acp"
      else "chat"
  end.

Definition insert_opt (k : string) (o : option string) (m : list (string * Value)) : list (string * Value) :=
  match o with Some s => obj_insert k (JString s) m | None => m end.
Definition insert_missing (k : string) (o : option string) (m : list (string * Value))
    : list (string * Value) :=
  if is_some (obj_get k m) then m else insert_opt k o m.

(** The binding a Run is described with. *)
Definition described_binding (w : string) (g : WorkGateway) : option AgentBinding :=
  match active_binding_ids g !! w ≫= λ id, agent_bindings g !! id with
  | Some b => Some b
  | None => List.find (λ b, String.eqb (ab_work_id b) w) (map_iter (agent_bindings g)).*2
  end.

(** [Value::to_string] of the context object. *)
Class RenderContext := { render_context : list (string * Value) → string }.
Context `{RenderContext}.

(** The context of a Run that names none. *)
Definition run_context (w : string) (a : WorkAddress) (g : WorkGateway) : list (string * Value) :=
  let p := wd_provenance a in
  let c := insert_opt "sourceSessionId" (pv_source_session_id p)
          (insert_opt "triggerOccurrenceId" (pv_trigger_occurrence_id p)
          (insert_opt "revisionId" (pv_revision_id p)
          (insert_opt "automationId" (pv_automation_id p) []))) in
  let c := match pv_automation_generation p with
           | Some n => obj_insert "automationGeneration" (json_u64 n) c | None => c end in
  match described_binding w g with
  | Some b => insert_opt "providerSessionId" (ab_provider_session_id b)
      (obj_insert "agentId" (JString (ab_agent_id b)) (obj_insert "bindingId" (JString (ab_binding_id b)) c))
  | None => c
  end.

(* SRC core/src/work_gateway.rs 3230 3300 WorkGateway::bind_execution_with_metadata *)
Definition run_record (w run : string) (a : WorkAddress) (metadata : list (string * Value)) (g : WorkGateway)
    : list (string * Value) :=
  let r := obj_insert "executionId" (JString run) (obj_insert "runId" (JString run) metadata) in
  let r := insert_missing "sessionId" (wd_session_id a) r in
  let r := insert_missing "objective" (work_objective w g) r in
  if is_some (obj_get "contextSnapshot" r) then r
  else
    let c := run_context w a g in
    let r := insert_opt "bindingId" (ab_binding_id <$> described_binding w g) r in
    match c with [] => r | _ => obj_insert "contextSnapshot" (JString (render_context c)) r end.

(* SRC core/src/work_gateway.rs @fn:bind_execution_with_metadata WorkGateway::bind_execution_with_metadata *)
Definition bind_execution_with_metadata (w run : string) (metadata : Value) : M WorkEventEnvelope := λ g,
  match works g !! w with
  | None => (Err "unknown work", g)
  | Some a =>
    if is_empty (trim run) then (Err "execution id cannot be empty", g)
    else match as_object metadata with
    | None => (Err "execution metadata must be an object", g)
    | Some object =>
      match match wd_current_run_id a with
            | Some current =>
                if String.eqb current run then None
                else match run_state w current g with
                     | Some s => if work_is_terminal s then Some s else None
                     | None => None
                     end
            | None => None
            end with
      | Some s =>
          (Err ("Work `" +:+ w +:+ "` is terminal (" +:+ work_state_debug s +:+
                "); a replacement Run cannot overwrite it"), g)
      | None =>
          let r := run_record w run a object g in
          (env <~ append w (Domain (WorkUpdated (JObject (obj_insert "run" (JObject r) r)))) None;;
           gmodify (λ g, if is_some (run_state w run g) then g
                         else set_run_states (insert2 w run WReady (run_states g)) g) ~;;
           gret env) g
      end
    end
  end.

(* SRC core/src/work_gateway.rs @fn:bind_execution WorkGateway::bind_execution *)
Definition bind_execution (w run : string) : M unit := λ g,
  (bind_execution_with_metadata w run (json_object [("trigger", JString (inferred_trigger w g))]) ~;;
   gret tt) g.

(* SRC core/src/work_gateway.rs @fn:record_execution_transition WorkGateway::record_execution_transition *)
Definition record_execution_transition (w run : string) (s : WorkState) : M unit := λ g,
  if negb (opt_eqb (execution_id w g) (Some run)) then (Err "execution/work binding mismatch", g)
  else match validate_run_transition w run s g with
  | Err e => (Err e, g)
  | Ok _ => (append w (transition_event run s None) None ~;; set_run_state w run s None) g
  end.

(* SRC core/src/work_gateway.rs @fn:record_wait WorkGateway::record_wait *)
Definition record_wait (w run : string) (wait : WaitCondition) : M unit := λ g,
  if negb (opt_eqb (execution_id w g) (Some run)) then (Err "execution/work binding mismatch", g)
  else
    let s := wait_reason_work_state (wa_reason wait) in
    match validate_run_transition w run s g with
    | Err e => (Err e, g)
    | Ok _ => (append w (transition_event run s (Some wait)) None ~;; set_run_state w run s (Some wait)) g
    end.

(* SRC core/src/work_gateway.rs @fn:apply_steering_checkpoint WorkGateway::apply_steering_checkpoint *)
Definition apply_steering_checkpoint (w run : string) (checkpoint : N) : M WorkEventEnvelope :=
  append w (Domain (RunCheckpointed run checkpoint)) None.

(** ** Approvals *)

(** Append, then project as a replay would. *)
Definition append_replay (w : string) (e : WorkEvent) : M WorkEventEnvelope :=
  env <~ append w e None;; replay_event env ~;; gret env.

Definition non_empty (s : string) : option string := if is_empty s then None else Some s.

(* SRC core/src/work_gateway.rs @fn:record_pending_approval_for_run WorkGateway::record_pending_approval_for_run *)
Definition record_pending_approval_for_run (w run ticket tool args tier : string) (requested_at_ms : N)
    : M WorkEventEnvelope := λ g,
  if is_empty (trim ticket) then (Err "approval ticket id cannot be empty", g)
  else if negb (opt_eqb (execution_id w g) (Some run)) then
    (Err "approval request execution/work binding mismatch", g)
  else if negb (bool_decide (run_state w run g = Some WWaitingApproval)) then
    (Err ("approval request for Run `" +:+ run +:+ "` requires WaitingApproval"), g)
  else if is_some (pending_approval w ticket g) then
    (Err ("approval ticket `" +:+ ticket +:+ "` is already pending"), g)
  else if negb (bool_decide (default ∅ (pending_approvals g !! w) = ∅)) then
    (Err ("Work `" +:+ w +:+ "` already has a pending approval"), g)
  else
    append_replay w (Domain (ApprovalRequested ticket (Some run) (non_empty tool) (non_empty args)
      (non_empty tier) (Some requested_at_ms))) g.

(* SRC core/src/work_gateway.rs @fn:record_pending_approval WorkGateway::record_pending_approval *)
Definition record_pending_approval (w ticket tool args tier : string) (requested_at_ms : N)
    : M WorkEventEnvelope := λ g,
  match execution_id w g with
  | None => (Err ("Work `" +:+ w +:+ "` has no current Run for approval"), g)
  | Some run => record_pending_approval_for_run w run ticket tool args tier requested_at_ms g
  end.

(* SRC core/src/work_gateway.rs @fn:resolve_pending_approval_for_run WorkGateway::resolve_pending_approval_for_run *)
Definition resolve_pending_approval_for_run (w run ticket : string) (approved : bool)
    : M WorkEventEnvelope := λ g,
  if is_empty (trim ticket) then (Err "approval ticket id cannot be empty", g)
  else if negb (opt_eqb (execution_id w g) (Some run)) then
    (Err "approval resolution execution/work binding mismatch", g)
  else match pending_approval w ticket g with
  | None => (Err ("approval ticket `" +:+ ticket +:+ "` is not pending"), g)
  | Some pending =>
      if negb (opt_eqb (json_get "ticketId" pending ≫= as_str) (Some ticket)) then
        (Err ("approval ticket `" +:+ ticket +:+ "` has mismatched metadata"), g)
      else if negb (opt_eqb (value_run_id pending) (Some run)) then
        (Err ("approval ticket `" +:+ ticket +:+ "` belongs to another Run"), g)
      else if negb (bool_decide (run_state w run g = Some WWaitingApproval)) then
        (Err ("approval resolution for Run `" +:+ run +:+ "` requires WaitingApproval"), g)
      else
        (env <~ append_replay w (Domain (ApprovalResolved ticket (Some run) approved));;
         record_execution_transition w run (if approved then WRunning else WFailed) ~;;
         gret env) g
  end.

(* SRC core/src/work_gateway.rs @fn:record_approval WorkGateway::record_approval *)
Definition record_approval (w ticket : string) (approved : bool) : M unit :=
  gguard (is_empty (trim ticket)) "approval ticket id cannot be empty" ~;;
  append_replay w (Domain (ApprovalResolved ticket None approved)) ~;;
  gret tt.

(** ** Effects *)

Definition effect_event (id phase detail : string) (grant : option string) (class : option IdempotencyClass)
    : result WorkEvent string :=
  if String.eqb phase "attempted" then Ok (Domain (EffectAttempted id grant class))
  else if String.eqb phase "observed" then Ok (Domain (EffectObserved id detail))
  else if String.eqb phase "verified" then Ok (Domain (EffectVerified id (String.eqb detail "true")))
  else if String.eqb phase "uncertain" || String.eqb phase "unknown" then
    Ok (Domain (EffectUncertain id (non_empty detail) class))
  else Err "unknown effect phase".

(* SRC core/src/work_gateway.rs @fn:record_effect_with_class WorkGateway::record_effect_with_class *)
Definition record_effect_with_class (w id phase detail : string) (grant : option string)
    (class : option IdempotencyClass) : M unit := λ g,
  if is_empty (trim id) then (Err "effect id cannot be empty", g)
  else
  match
    if existsb (String.eqb phase) ["observed"; "verified"; "uncertain"; "unknown"] then
      match effect_status w id g with
      | None => Err ("effect `" +:+ id +:+ "` has no durable attempt")
      | Some existing =>
          if String.eqb phase "observed" && String.eqb (ef_state existing) "uncertain" then
            Err ("effect `" +:+ id +:+
                 "` is uncertain; use explicit reconciliation before observing a retry")
          else if String.eqb phase "verified" &&
                  negb (existsb (String.eqb (ef_state existing)) ["observed"; "verified"]) then
            Err ("effect `" +:+ id +:+ "` has no durable observation")
          else Ok tt
      end
    else Ok tt
  with
  | Err e => (Err e, g)
  | Ok _ =>
      (e <~ glift (effect_event id phase detail grant class);; append_replay w e ~;; gret tt) g
  end.

(* SRC core/src/work_gateway.rs @fn:reconcile_uncertain_effect WorkGateway::reconcile_uncertain_effect *)
Definition reconcile_uncertain_effect (w id outcome : string) (retry_safe : bool) : M WorkEventEnvelope := λ g,
  if is_empty (trim outcome) then (Err "effect reconciliation requires an outcome", g)
  else match effect_status w id g with
  | None => (Err ("unknown effect `" +:+ id +:+ "`"), g)
  | Some e =>
      if negb (requires_reconciliation e) then (Err ("effect `" +:+ id +:+ "` is not uncertain"), g)
      else append_replay w (Domain (EffectReconciled id outcome retry_safe)) g
  end.

(* SRC core/src/work_gateway.rs @fn:reconcile_uncertain_effects WorkGateway::reconcile_uncertain_effects *)
Definition reconcile_uncertain_effects (w outcome : string) (retry_safe : bool) : M unit := λ g,
  let ids := ef_effect_id <$> List.filter requires_reconciliation (effect_statuses w g) in
  each (λ id, reconcile_uncertain_effect w id outcome retry_safe ~;; gret tt) ids g.

(** ** Archival *)

(* SRC core/src/work_gateway.rs @fn:try_archive_work WorkGateway::try_archive_work *)
Definition try_archive_work (w : string) : M bool := λ g,
  if negb (is_some (works g !! w)) then (Ok false, g)
  else
    (append w (Domain (WorkUpdated (json_object [("archived", JBool true)]))) None ~;;
     gmodify (λ g,
       let g := set_works (delete w (works g)) g in
       match presence g !! w with
       | Some p => set_presence (<[w :=
           {| wp_work_id := wp_work_id p; wp_active_clients := wp_active_clients p;
              wp_active_nodes := wp_active_nodes p; wp_active_run := wp_active_run p;
              wp_current_surface := wp_current_surface p; wp_state := Some PsCompleted;
              wp_work_state := wp_work_state p; wp_wait := wp_wait p |}]> (presence g)) g
       | None => g
       end) ~;;
     gret true) g.
End ops.
