(* ===== verification/WorkRuntime.v ===== *)
(** * The session runtime of the Work gateway ([everyaios-core/src/work_gateway.rs])

    Terminals, worktrees, agent sessions and bindings, clients, steering,
    reviews, execution nodes and the fencing of run authority, and the
    capability ranking. *)
From S2P Require Import Order Prelude Json LeaseTypes Lease WorkTypes WorkEvents Work WorkOps Ticket.

Section runtime.
Context `{RenderFact} `{HashIter} `{WorkWorld}.

(** The value a map must hold, else [e]. *)
Definition must {A} (f : WorkGateway → option A) (e : string) : M A := λ g, (ok_or_err (f g) e, g).
Definition must_work (w : string) : M WorkAddress := must (λ g, works g !! w) "unknown work".

(** ** Terminals *)

Definition with_pty (rows cols : N) (state output : string) (p : PtySession) : PtySession :=
  {| pt_pty_id := pt_pty_id p; pt_process_id := pt_process_id p; pt_rows := rows; pt_cols := cols;
     pt_state := state; pt_output := output |}.
Definition put_pty (id : string) (p : PtySession) (g : WorkGateway) : WorkGateway :=
  set_ptys (<[id := p]> (ptys g)) g.
Definition must_pty (id : string) : M PtySession := must (λ g, ptys g !! id) "unknown pty".

(* SRC core/src/work_gateway.rs @fn:spawn_pty WorkGateway::spawn_pty *)
Definition spawn_pty (w id : string) (process_id : option N) (rows cols : N) : M WorkEventEnvelope :=
  must_work w ~;;
  env <~ append w (Runtime (PtyStarted id process_id rows cols)) None;;
  gmodify (put_pty id {| pt_pty_id := id; pt_process_id := process_id; pt_rows := rows; pt_cols := cols;
                         pt_state := "running"; pt_output := "" |}) ~;;
  gret env.

(* SRC core/src/work_gateway.rs @fn:resize_pty WorkGateway::resize_pty *)
Definition resize_pty (w id : string) (rows cols : N) : M WorkEventEnvelope :=
  p <~ must_pty id;;
  gguard (negb (existsb (String.eqb (pt_state p)) ["running"; "paused"])) ("pty is " +:+ pt_state p) ~;;
  env <~ append w (Runtime (PtyResize id rows cols)) None;;
  p <~ must_pty id;;
  gmodify (put_pty id (with_pty rows cols (pt_state p) (pt_output p) p)) ~;;
  gret env.

Definition PTY_CAP : N := 65536.

(** UTF-8 continuation bytes are [10xxxxxx]; a slice starts between characters. *)
Definition is_char_start (s : string) : bool :=
  match s with
  | EmptyString => true
  | String c _ => let n := Ascii.N_of_ascii c in negb ((128 <=? n)%N && (n <? 192)%N)
  end.

(** [&s[n..]]: a panic inside a character. *)
Definition slice_from (n : nat) (s : string) : option string :=
  let t := str_drop n s in if is_char_start t then Some t else None.

(** The text a terminal keeps; [None] is the panic of the slice. *)
Definition cap_output (cap : nat) (s : string) : option string :=
  if (cap <? String.length s)%nat then slice_from (String.length s - cap) s else Some s.

(* SRC core/src/work_gateway.rs @fn:write_pty_output WorkGateway::write_pty_output *)
Definition write_pty_output (w id chunk : string) : M WorkEventEnvelope :=
  must_pty id ~;;
  env <~ append w (Runtime (PtyOutput id chunk)) None;;
  p <~ must_pty id;;
  let text := pt_output p +:+ chunk in
  gmodify (put_pty id (with_pty (pt_rows p) (pt_cols p) (pt_state p) text p)) ~;;
  kept <~ glift (ok_or_err (cap_output (N.to_nat PTY_CAP) text) "panicked: not a char boundary");;
  gmodify (put_pty id (with_pty (pt_rows p) (pt_cols p) (pt_state p) kept p)) ~;;
  gret env.

(* SRC core/src/work_gateway.rs @fn:signal_pty WorkGateway::signal_pty *)
Definition signal_pty (w id signal : string) : M WorkEventEnvelope :=
  must_pty id ~;; append w (Runtime (PtySignal id signal)) None.

Definition set_pty_state (id from to : string) : M unit :=
  p <~ must_pty id;;
  gguard (negb (String.eqb (pt_state p) from)) ("pty is " +:+ pt_state p) ~;;
  gmodify (put_pty id (with_pty (pt_rows p) (pt_cols p) to (pt_output p) p)).
(* SRC core/src/work_gateway.rs @fn:pause_pty WorkGateway::pause_pty *)
Definition pause_pty (id : string) : M unit := set_pty_state id "running" "paused".
(* SRC core/src/work_gateway.rs @fn:resume_pty WorkGateway::resume_pty *)
Definition resume_pty (id : string) : M unit := set_pty_state id "paused" "running".

(* SRC core/src/work_gateway.rs @fn:close_pty WorkGateway::close_pty *)
Definition close_pty (w id : string) (code : option Z) : M WorkEventEnvelope :=
  must_pty id ~;;
  env <~ append w (Runtime (PtyExit id code)) None;;
  p <~ must_pty id;;
  gmodify (put_pty id (with_pty (pt_rows p) (pt_cols p) "exited" (pt_output p) p)) ~;;
  gret env.

(* SRC core/src/work_gateway.rs @fn:append_pty_output WorkGateway::append_pty_output *)
Definition append_pty_output (id output : string) : M unit :=
  p <~ must_pty id;;
  gguard (1000000 <? N.of_nat (String.length (pt_output p) + String.length output))%N
    "pty output limit exceeded" ~;;
  gmodify (put_pty id (with_pty (pt_rows p) (pt_cols p) (pt_state p) (pt_output p +:+ output) p)).

(** ** Worktrees *)

Definition with_worktree (run status : string) (t : WorktreeBinding) : WorktreeBinding :=
  {| wt_worktree_id := wt_worktree_id t; wt_work_id := wt_work_id t; wt_run_id := run;
     wt_repo_root := wt_repo_root t; wt_worktree_root := wt_worktree_root t;
     wt_base_revision := wt_base_revision t; wt_branch := wt_branch t;
     wt_isolation_mode := wt_isolation_mode t; wt_status := status |}.
Definition put_worktree (id : string) (t : WorktreeBinding) (g : WorkGateway) : WorkGateway :=
  set_worktrees (<[id := t]> (worktrees g)) g.
Definition must_worktree (id : string) : M WorktreeBinding := must (λ g, worktrees g !! id) "unknown worktree".

(* SRC core/src/work_gateway.rs @fn:create_worktree WorkGateway::create_worktree *)
Definition create_worktree (w run id repo_root worktree_root base_revision branch mode : string)
    : M WorkEventEnvelope :=
  must_work w ~;;
  env <~ append w (Runtime (WorktreeCreated id branch)) None;;
  gmodify (put_worktree id {| wt_worktree_id := id; wt_work_id := w; wt_run_id := run;
    wt_repo_root := repo_root; wt_worktree_root := worktree_root; wt_base_revision := base_revision;
    wt_branch := branch; wt_isolation_mode := mode; wt_status := "created" |}) ~;;
  gret env.

(** An event on a known worktree, then its new status. *)
Definition worktree_step (w id : string) (e : RuntimeEvent) (run : option string) (status : string)
    : M WorkEventEnvelope :=
  must_worktree id ~;;
  env <~ append w (Runtime e) None;;
  t <~ must_worktree id;;
  gmodify (put_worktree id (with_worktree (default (wt_run_id t) run) status t)) ~;;
  gret env.
(* SRC core/src/work_gateway.rs @fn:attach_worktree WorkGateway::attach_worktree *)
Definition attach_worktree (w id run : string) : M WorkEventEnvelope :=
  worktree_step w id (WorktreeAttached id run) (Some run) "attached".
(* SRC core/src/work_gateway.rs @fn:merge_worktree WorkGateway::merge_worktree *)
Definition merge_worktree (w id into : string) : M WorkEventEnvelope :=
  worktree_step w id (WorktreeMerged id into) None "merged".
(* SRC core/src/work_gateway.rs @fn:revert_worktree WorkGateway::revert_worktree *)
Definition revert_worktree (w id : string) : M WorkEventEnvelope :=
  worktree_step w id (WorktreeReverted id) None "reverted".
(* SRC core/src/work_gateway.rs @fn:destroy_worktree WorkGateway::destroy_worktree *)
Definition destroy_worktree (w id : string) : M WorkEventEnvelope :=
  must_worktree id ~;;
  env <~ append w (Runtime (WorktreeDestroyed id)) None;;
  gmodify (λ g, set_worktrees (delete id (worktrees g)) g) ~;;
  gret env.

(** ** Agent sessions *)

Definition with_session (state : string) (checkpoint : N) (attached : bool) (s : AgentSession) : AgentSession :=
  {| as_agent_session_id := as_agent_session_id s; as_work_id := as_work_id s; as_run_id := as_run_id s;
     as_agent_id := as_agent_id s; as_lifetime := as_lifetime s; as_pty_id := as_pty_id s;
     as_worktree_id := as_worktree_id s; as_runtime_state := state; as_last_checkpoint := checkpoint;
     as_attached := attached |}.
Definition put_session (id : string) (s : AgentSession) (g : WorkGateway) : WorkGateway :=
  set_agent_sessions (<[id := s]> (agent_sessions g)) g.
Definition must_session (id : string) : M AgentSession := must (λ g, agent_sessions g !! id) "unknown agent session".

(* SRC core/src/work_gateway.rs @fn:spawn_subagent WorkGateway::spawn_subagent *)
Definition spawn_subagent (w run id agent_id : string) (lifetime : AgentLifetime)
    (pty_id worktree_id : option string) : M WorkEventEnvelope :=
  must_work w ~;;
  env <~ append w (Runtime (AgentSessionSpawned id agent_id (lifetime_as_str lifetime))) None;;
  gmodify (put_session id {| as_agent_session_id := id; as_work_id := w; as_run_id := run;
    as_agent_id := agent_id; as_lifetime := lifetime; as_pty_id := pty_id; as_worktree_id := worktree_id;
    as_runtime_state := "spawned"; as_last_checkpoint := 0;
    as_attached := bool_decide (lifetime = PersistentAttachedSession) |}) ~;;
  gret env.

(* SRC core/src/work_gateway.rs @fn:send_subagent_message WorkGateway::send_subagent_message *)
Definition send_subagent_message (w id : string) (to_agent : bool) : M WorkEventEnvelope :=
  must_session id ~;;
  append w (Runtime (AgentSessionMessage id (if to_agent then "to_agent" else "from_agent"))) None.

Definition session_step (w id : string) (e : RuntimeEvent) (f : AgentSession → AgentSession)
    : M WorkEventEnvelope :=
  must_session id ~;;
  env <~ append w (Runtime e) None;;
  s <~ must_session id;;
  gmodify (put_session id (f s)) ~;;
  gret env.
(* SRC core/src/work_gateway.rs @fn:attach_agent_session WorkGateway::attach_agent_session *)
Definition attach_agent_session (w id : string) : M WorkEventEnvelope :=
  session_step w id (AgentSessionAttached id) (λ s, with_session "attached" (as_last_checkpoint s) true s).
(* SRC core/src/work_gateway.rs @fn:terminate_agent_session WorkGateway::terminate_agent_session *)
Definition terminate_agent_session (w id : string) : M WorkEventEnvelope :=
  session_step w id (AgentSessionTerminated id) (λ s, with_session "terminated" (as_last_checkpoint s) false s).
(* SRC core/src/work_gateway.rs @fn:detach_agent_session WorkGateway::detach_agent_session *)
Definition detach_agent_session (w id : string) : M WorkEventEnvelope :=
  s <~ must_session id;;
  if bool_decide (as_lifetime s = EphemeralChild) then terminate_agent_session w id
  else session_step w id (AgentSessionDetached id) (λ s, with_session "detached" (as_last_checkpoint s) false s).
(* SRC core/src/work_gateway.rs @fn:steer_agent_session WorkGateway::steer_agent_session *)
Definition steer_agent_session (w id : string) : M WorkEventEnvelope :=
  must_session id ~;; append w (Runtime (AgentSessionSteered id)) None.
(* SRC core/src/work_gateway.rs @fn:checkpoint_agent_session WorkGateway::checkpoint_agent_session *)
Definition checkpoint_agent_session (w id : string) : M WorkEventEnvelope :=
  s <~ must_session id;;
  let cp := N.min (as_last_checkpoint s + 1) u32_max in
  env <~ append w (Runtime (AgentSessionCheckpointed id cp)) None;;
  s <~ must_session id;;
  gmodify (put_session id (with_session (as_runtime_state s) cp (as_attached s) s)) ~;;
  gret env.

(** ** Agent bindings *)

(* SRC core/src/work_gateway.rs @fn:create_agent_binding WorkGateway::create_agent_binding *)
Definition create_agent_binding (b : AgentBinding) : M WorkEventEnvelope := λ g,
  match works g !! ab_work_id b with
  | None => (Err "unknown work for agent binding", g)
  | Some a =>
      if negb (opt_eqb (wd_session_id a) (Some (ab_session_id b))) then
        (Err "agent binding Session does not own this Work", g)
      else if is_some (agent_bindings g !! ab_binding_id b) then (Err "agent binding already exists", g)
      else
        append_replay (ab_work_id b)
          (Runtime (AgentBindingCreated (with_binding_state BlParked (ab_provider_session_id b) 0 b))) g
  end.

(* SRC core/src/work_gateway.rs @fn:transition_agent_binding WorkGateway::transition_agent_binding *)
Definition transition_agent_binding (id transition : string) (psid : option string) : M WorkEventEnvelope := λ g,
  match agent_bindings g !! id with
  | None => (Err "unknown agent binding", g)
  | Some b =>
    if bool_decide (ab_state b = BlDead) then (Err "agent binding is dead", g)
    else
    match (if String.eqb transition "activated" then Ok (AgentBindingActivated id psid, BlActive)
           else if String.eqb transition "suspended" then Ok (AgentBindingSuspended id, BlParked)
           else if String.eqb transition "resumed" then Ok (AgentBindingResumed id psid, BlActive)
           else Err ("unknown binding transition: " +:+ transition)) with
    | Err e => (Err e, g)
    | Ok (event, state) =>
        match (if bool_decide (state = BlActive) then
                 List.find (λ o, bool_decide (ab_state o = BlActive) &&
                                 String.eqb (ab_session_id o) (ab_session_id b) &&
                                 negb (String.eqb (ab_binding_id o) id)) (map_iter (agent_bindings g)).*2
               else None) with
        | Some other =>
            (Err ("session " +:+ ab_session_id b +:+ " already has an active binding: " +:+
                  ab_binding_id other), g)
        | None => append_replay (ab_work_id b) (Runtime event) g
        end
    end
  end.

(* SRC core/src/work_gateway.rs @fn:record_binding_usage WorkGateway::record_binding_usage *)
Definition record_binding_usage (id : string) (u : BindingUsage) : M WorkEventEnvelope :=
  b <~ must (λ g, agent_bindings g !! id) "unknown agent binding";;
  append_replay (ab_work_id b) (Runtime (AgentBindingUsageRecorded id u)).

(** ** Clients *)

(* SRC core/src/work_gateway.rs @fn:attach_client WorkGateway::attach_client *)
Definition attach_client (c : ClientSession) : M unit :=
  gguard (negb (cl_authenticated c)) "client authentication required" ~;;
  must_work (cl_work_id c) ~;;
  append (cl_work_id c) (Operational (SessionAttached (cl_client_id c))) None ~;;
  p <~ must (λ g, presence g !! cl_work_id c) "panicked: no presence";;
  gmodify (λ g, set_presence (<[cl_work_id c :=
    with_clients (push_unique (cl_client_id c) (wp_active_clients p)) p]> (presence g)) g) ~;;
  gmodify (λ g, set_clients (<[cl_client_id c := c]> (clients g)) g).

(* SRC core/src/work_gateway.rs @fn:try_detach_client WorkGateway::try_detach_client *)
Definition try_detach_client (id : string) : M bool := λ g,
  match clients g !! id with
  | None => (Ok false, g)
  | Some c =>
      (append (cl_work_id c) (Operational (SessionDetached id)) None ~;;
       gmodify (λ g,
         let g := set_clients (delete id (clients g)) g in
         match presence g !! cl_work_id c with
         | Some p => set_presence (<[cl_work_id c := with_clients
             (List.filter (λ x, negb (String.eqb x id)) (wp_active_clients p)) p]> (presence g)) g
         | None => g
         end) ~;;
       gret true) g
  end.

(* SRC core/src/work_gateway.rs @fn:connect_client WorkGateway::connect_client *)
Definition connect_client (id client_type w : string) (authenticated : bool) (now_ms : N) : M ClientSession :=
  gguard (negb authenticated) "client authentication required" ~;;
  caps <~ glift (if String.eqb client_type "desktop" then Ok desktop_capabilities
                 else if existsb (String.eqb client_type) ["mobile"; "web"; "cli"] then Ok restricted_capabilities
                 else Err ("unknown client type: " +:+ client_type));;
  let c := {| cl_client_id := id; cl_client_type := client_type; cl_work_id := w; cl_capabilities := caps;
              cl_scope := []; cl_authenticated := authenticated; cl_connected_at_ms := now_ms |} in
  attach_client c ~;; gret c.

(* SRC core/src/work_gateway.rs @struct:SteeringInstruction SteeringInstruction *)
Record SteeringInstruction := {
  si_work_id : string;
  si_run_id : option string;
  si_source_client : string;
  si_instruction : string;
  si_scope : string;
  si_priority : N;
  si_created_at_ms : N
}.

(** [serde_json::to_value] of an instruction. *)
Definition steering_json (i : SteeringInstruction) : Value :=
  json_object [("work_id", JString (si_work_id i)); ("run_id", json_opt JString (si_run_id i));
    ("source_client", JString (si_source_client i)); ("instruction", JString (si_instruction i));
    ("scope", JString (si_scope i)); ("priority", json_u64 (si_priority i));
    ("created_at_ms", json_u64 (si_created_at_ms i))].

(* SRC core/src/work_gateway.rs @fn:steer WorkGateway::steer *)
Definition steer (i : SteeringInstruction) : M WorkEventEnvelope :=
  c <~ must (λ g, clients g !! si_source_client i) "client is not attached";;
  gguard (negb (cl_authenticated c) || negb (can_steer (cl_capabilities c)))
    "client cannot steer this work" ~;;
  gguard (negb (String.eqb (cl_work_id c) (si_work_id i))) "client/work binding mismatch" ~;;
  append (si_work_id i) (Domain (WorkUpdated (steering_json i))) None.

(* SRC core/src/work_gateway.rs @fn:interrupt_current_step WorkGateway::interrupt_current_step *)
Definition interrupt_current_step (w source_client reason : string) (now_ms : N) : M WorkEventEnvelope :=
  steer {| si_work_id := w; si_run_id := None; si_source_client := source_client; si_instruction := reason;
           si_scope := "pause"; si_priority := 0; si_created_at_ms := now_ms |}.

(* SRC core/src/work_gateway.rs @fn:create_runtime_manifest WorkGateway::create_runtime_manifest *)
Definition create_runtime_manifest `{ManifestDigest} (w : string) (m : RuntimeManifest) : M RuntimeManifest :=
  must_work w ~;;
  let m := refresh_hash
    {| rm_work_id := w; rm_chief := rm_chief m; rm_model := rm_model m; rm_capabilities := rm_capabilities m;
       rm_network_policy := rm_network_policy m; rm_filesystem_policy := rm_filesystem_policy m;
       rm_autonomy := rm_autonomy m; rm_memory_scope := rm_memory_scope m; rm_node_id := rm_node_id m;
       rm_skill_versions := rm_skill_versions m; rm_plugin_versions := rm_plugin_versions m;
       rm_config_hash := rm_config_hash m |} in
  append w (Domain (WorkUpdated (json_object [("runtimeManifest", JString (rm_config_hash m))]))) None ~;;
  gmodify (λ g, set_manifests (<[w := m]> (manifests g)) g) ~;;
  gret m.

(** ** Reviews *)

(* SRC core/src/work_gateway.rs @fn:is_terminal_review_state is_terminal_review_state *)
Definition is_terminal_review_state (s : string) : bool :=
  existsb (String.eqb s) ["resolved"; "approved"; "rejected"].

(* SRC core/src/work_gateway.rs @fn:request_review WorkGateway::request_review *)
Definition request_review (item : ReviewItem) : M WorkEventEnvelope :=
  must_work (ri_work_id item) ~;;
  env <~ append (ri_work_id item) (Domain (ReviewRequested (ri_review_id item))) None;;
  gmodify (λ g, set_reviews (<[ri_review_id item := item]> (reviews g)) g) ~;;
  gret env.

(* SRC core/src/work_gateway.rs @fn:reviews WorkGateway::reviews *)
Definition open_reviews (w : string) (g : WorkGateway) : list ReviewItem :=
  List.filter (λ r, String.eqb (ri_work_id r) w && negb (is_terminal_review_state (ri_state r)))
    (map_iter (reviews g)).*2.

(* SRC core/src/work_gateway.rs @fn:resolve_review_with WorkGateway::resolve_review_with *)
Definition resolve_review_with (id state : string) : M WorkEventEnvelope :=
  gguard (negb (existsb (String.eqb state) ["approved"; "rejected"; "revision_requested"; "resolved"]))
    ("unknown review state: " +:+ state) ~;;
  r <~ must (λ g, reviews g !! id) "unknown review item";;
  env <~ append_replay (ri_work_id r) (Domain (ApprovalResolved id None (String.eqb state "approved")));;
  gmodify (λ g, match reviews g !! id with
                | Some r => set_reviews (<[id := with_review_state state r]> (reviews g)) g
                | None => g
                end) ~;;
  gret env.

(** ** Observations *)

(* SRC core/src/work_gateway.rs @fn:record_thought WorkGateway::record_thought *)
Definition record_thought (w text : string) : M unit :=
  must_work w ~;;
  append w (Presence (AgentThoughtSummary text)) None ~;;
  gmodify (λ g, match presence g !! w with
    | Some p => set_presence (<[w :=
        {| wp_work_id := wp_work_id p; wp_active_clients := wp_active_clients p;
           wp_active_nodes := wp_active_nodes p; wp_active_run := wp_active_run p;
           wp_current_surface := Some text; wp_state := wp_state p; wp_work_state := wp_work_state p;
           wp_wait := wp_wait p |}]> (presence g)) g
    | None => g
    end).

(* SRC core/src/work_gateway.rs @fn:writers_for_path WorkGateway::writers_for_path *)
Definition writers_for_path (w path : string) (g : WorkGateway) : list string :=
  foldl (λ writers env,
    match we_event env with
    | Operational (FileTouched touched writer) =>
        if String.eqb touched path then push_unique writer writers else writers
    | _ => writers
    end) [] (events_of w g).

(* SRC core/src/work_gateway.rs @fn:record_file_touch WorkGateway::record_file_touch *)
Definition record_file_touch (w path writer : string) : M bool := λ g,
  let path := trim path in
  let writer := trim writer in
  if is_empty path || is_empty writer then (Err "file touch requires a path and a writer", g)
  else
    let writers := push_unique writer (writers_for_path w path g) in
    (append w (Operational (FileTouched path writer)) None ~;;
     if (1 <? length writers)%nat then
       append w (Operational (WriteConflict path writers)) None ~;; gret true
     else gret false) g.

(* SRC core/src/work_gateway.rs @fn:record_test WorkGateway::record_test *)
Definition record_test (w name : string) (passed : bool) : M unit :=
  gguard (is_empty (trim name)) "test record requires a name" ~;;
  append w (Operational (TestRan (trim name) passed)) None ~;; gret tt.

(* SRC core/src/work_gateway.rs @fn:record_handoff WorkGateway::record_handoff *)
Definition record_handoff (w artifact_id from_agent to_agent summary : string) : M unit :=
  gguard (is_empty (trim artifact_id) || is_empty (trim from_agent) || is_empty (trim to_agent))
    "handoff requires an artifact id and both agents" ~;;
  append w (Operational (HandoffRecorded (trim artifact_id) (trim from_agent) (trim to_agent) summary)) None ~;;
  gret tt.

(* SRC core/src/work_gateway.rs @fn:record_artifact WorkGateway::record_artifact *)
Definition record_artifact (w artifact_id : string) (updated : bool) : M unit :=
  append w (Domain (if updated then ArtifactUpdated artifact_id else ArtifactCreated artifact_id)) None ~;;
  gret tt.

(** ** Nodes *)

Definition with_health (health : string) (heartbeat : N) (n : ExecutionNode) : ExecutionNode :=
  {| xn_node_id := xn_node_id n; xn_owner := xn_owner n; xn_platform := xn_platform n;
     xn_node_kind := xn_node_kind n; xn_always_on := xn_always_on n; xn_capabilities := xn_capabilities n;
     xn_sandbox_class := xn_sandbox_class n; xn_network_policy := xn_network_policy n;
     xn_credential_policy := xn_credential_policy n; xn_health := health;
     xn_last_heartbeat_ms := heartbeat |}.
Definition put_node (id : string) (n : ExecutionNode) (g : WorkGateway) : WorkGateway :=
  set_nodes (<[id := n]> (nodes g)) g.

(* SRC core/src/work_gateway.rs @fn:register_node WorkGateway::register_node *)
Definition register_node (n : ExecutionNode) : M unit :=
  gguard (is_empty (xn_node_id n)) "node id required" ~;; gmodify (put_node (xn_node_id n) n).
(* SRC core/src/work_gateway.rs @fn:heartbeat_node WorkGateway::heartbeat_node *)
Definition heartbeat_node (id : string) (at_ms : N) : M bool := λ g,
  match nodes g !! id with
  | Some n => (Ok true, put_node id (with_health "healthy" at_ms n) g)
  | None => (Ok false, g)
  end.
(* SRC core/src/work_gateway.rs @fn:pair_node WorkGateway::pair_node *)
Definition pair_node (n : ExecutionNode) (now_ms : N) : M ExecutionNode :=
  gguard (is_empty (xn_node_id n)) "node id required" ~;;
  let n := with_health "paired" now_ms n in
  gmodify (put_node (xn_node_id n) n) ~;; gret n.
(* SRC core/src/work_gateway.rs @fn:verify_node WorkGateway::verify_node *)
Definition verify_node (id : string) (now_ms : N) : M ExecutionNode :=
  n <~ must (λ g, nodes g !! id) "unknown node";;
  gguard (negb (existsb (String.eqb (xn_health n)) ["paired"; "verified"; "bound"])) "node is not paired" ~;;
  let n := with_health "verified" now_ms n in
  gmodify (put_node id n) ~;; gret n.
(* SRC core/src/work_gateway.rs @fn:bind_node WorkGateway::bind_node *)
Definition bind_node (id w : string) : M WorkAddress :=
  n <~ must (λ g, nodes g !! id) "unknown node";;
  gguard (negb (existsb (String.eqb (xn_health n)) ["verified"; "bound"])) "node must be verified before binding" ~;;
  must_work w ~;;
  append w (Operational (NodeConnected id)) None ~;;
  gmodify (λ g, match nodes g !! id with
                | Some n => put_node id (with_health "bound" (xn_last_heartbeat_ms n) n) g | None => g end) ~;;
  a <~ must_work w;;
  let a := bump_version (with_node (Some id) a) in
  gmodify (λ g, set_works (<[w := a]> (works g)) g) ~;;
  gret a.

(** ** Run authority *)

(* SRC core/src/work_gateway.rs @fn:acquire_run_authority WorkGateway::acquire_run_authority *)
Definition acquire_run_authority (run node : string) (ttl_ms now_ms : N) : M RunAuthority := λ g,
  if negb (is_some (nodes g !! node)) then (Err "unknown node", g)
  else if match authorities g !! run with
          | Some a => (ra_expires_at_ms a =? 0)%N || (now_ms <? ra_expires_at_ms a)%N
          | None => false
          end then (Err "run authority already held", g)
  else
    let token := u64_add (default 0%N (fence_counters g !! run)) 1 in
    let a := {| ra_run_id := run; ra_node_id := node;
                ra_lease_id := "lease:" +:+ run +:+ ":" +:+ pretty token; ra_fencing_token := token;
                ra_granted_at_ms := now_ms;
                ra_expires_at_ms := if (ttl_ms =? 0)%N then 0%N else u64_add now_ms ttl_ms |} in
    (Ok a, set_authorities (<[run := a]> (authorities g))
             (set_fence_counters (<[run := token]> (fence_counters g)) g)).

(* SRC core/src/work_gateway.rs @fn:validate_fencing_token WorkGateway::validate_fencing_token *)
Definition validate_fencing_token (run node : string) (token now_ms : N) (g : WorkGateway) : bool :=
  match authorities g !! run with Some a => authority_valid node token now_ms a | None => false end.

(* SRC core/src/work_gateway.rs @fn:release_authority WorkGateway::release_authority *)
Definition release_authority (run node : string) (token now_ms : N) : M bool := λ g,
  if validate_fencing_token run node token now_ms g
  then (Ok true, set_authorities (delete run (authorities g)) g)
  else (Ok false, g).

(* SRC core/src/work_gateway.rs @fn:renew_lease WorkGateway::renew_lease *)
Definition renew_lease (run node : string) (token ttl_ms now_ms : N) : M RunAuthority := λ g,
  if negb (validate_fencing_token run node token now_ms g) then (Err "stale fencing token", g)
  else match authorities g !! run with
  | None => (Err "unknown run", g)
  | Some a =>
      let a := {| ra_run_id := ra_run_id a; ra_node_id := ra_node_id a; ra_lease_id := ra_lease_id a;
                  ra_fencing_token := ra_fencing_token a; ra_granted_at_ms := ra_granted_at_ms a;
                  ra_expires_at_ms := if (ttl_ms =? 0)%N then 0%N else u64_add now_ms ttl_ms |} in
      (Ok a, set_authorities (<[run := a]> (authorities g)) g)
  end.

(* SRC core/src/work_gateway.rs @fn:recover_run WorkGateway::recover_run *)
Definition recover_run (run node : string) (ttl_ms now_ms : N) : M RunAuthority := λ g,
  match authorities g !! run with
  | Some a => if authority_valid node (ra_fencing_token a) now_ms a then (Ok a, g)
              else acquire_run_authority run node ttl_ms now_ms g
  | None => acquire_run_authority run node ttl_ms now_ms g
  end.

(* SRC core/src/work_gateway.rs @fn:migrate_run WorkGateway::migrate_run *)
Definition migrate_run (run to_node : string) (ttl_ms now_ms : N) : M RunAuthority :=
  n <~ must (λ g, nodes g !! to_node) "unknown target node";;
  gguard (negb (existsb (String.eqb (xn_health n)) ["verified"; "bound"])) "target node must be verified" ~;;
  gmodify (λ g, set_authorities (delete run (authorities g)) g) ~;;
  acquire_run_authority run to_node ttl_ms now_ms.
End runtime.

(** ** Capability ranking *)

(* SRC core/src/work_gateway.rs @struct:CapabilityCandidate CapabilityCandidate *)
Record CapabilityCandidate := {
  cc_capability_id : string;
  cc_route : string;
  cc_confidence : N;
  cc_latency_estimate_ms : N;
  cc_cost_estimate : N;
  cc_risk : RiskLevel
}.

(* SRC core/src/work_gateway.rs @struct:CapabilityResolution CapabilityResolution *)
Record CapabilityResolution := {
  cp_intent : string;
  cp_candidates : list CapabilityCandidate;
  cp_ranked_path : list string;
  cp_rationale : string;
  cp_fallback_path : list string
}.

(** The comparison of the ranking: descending confidence, then ascending risk,
    latency and cost. *)
Definition candidate_le (a b : CapabilityCandidate) : bool :=
  if negb (cc_confidence a =? cc_confidence b)%N then (cc_confidence b <? cc_confidence a)%N
  else if negb (risk_rank (cc_risk a) =? risk_rank (cc_risk b))%nat then
    (risk_rank (cc_risk a) <? risk_rank (cc_risk b))%nat
  else if negb (cc_latency_estimate_ms a =? cc_latency_estimate_ms b)%N then
    (cc_latency_estimate_ms a <? cc_latency_estimate_ms b)%N
  else (cc_cost_estimate a <=? cc_cost_estimate b)%N.

(* SRC core/src/work_gateway.rs @fn:resolve_capability WorkGateway::resolve_capability *)
Definition resolve_capability (intent : string) (candidates : list CapabilityCandidate) : CapabilityResolution :=
  let path := cc_capability_id <$> sort_by candidate_le candidates in
  {| cp_intent := intent; cp_candidates := candidates; cp_ranked_path := path;
     cp_rationale := "ranked by confidence, risk, latency, and cost"; cp_fallback_path := tail path |}.

(* SRC core/src/work_gateway.rs @fn:choose_best CapabilityResolution::choose_best *)
Definition choose_best (r : CapabilityResolution) : option string := head (cp_ranked_path r).
(* SRC core/src/work_gateway.rs @fn:choose_fallback CapabilityResolution::choose_fallback *)
Definition choose_fallback (r : CapabilityResolution) : option string := head (cp_fallback_path r).
(* SRC core/src/work_gateway.rs @fn:explain_choice CapabilityResolution::explain_choice *)
Definition explain_choice (r : CapabilityResolution) : string :=
  match choose_best r with
  | Some best =>
      best +:+ " — " +:+ cp_rationale r +:+ " (fallbacks: " +:+
      match cp_fallback_path r with [] => "none" | l => join " > " l end +:+ ")"
  | None => "no capability satisfies this intent"
  end.
