(* ===== verification/WorkDelegation.v ===== *)
(** * Delegation ([everyaios-core/src/work_gateway.rs])

    Child Works: their ids, the gauge and depth of the graph, the cycle check,
    change sets, the delegation lease over the lease coordinator, heartbeats
    and the sweep that reclaims silent children. *)
From S2P Require Import Order Prelude Json LeaseTypes Lease WorkTypes WorkEvents Work WorkOps WorkRuntime.

Section delegation.
Context `{RenderFact} `{RenderChangeSet} `{HashIter} `{WorkWorld} `{RenderContext}.

(** ** The graph *)

Definition parent_of (w : string) (g : WorkGateway) : option string := works g !! w ≫= wd_parent_work_id.

(** The loop of [work_depth]: [fuel] parent links are left before the walk is
    refused. *)
Fixpoint depth_walk (fuel : nat) (w cursor : string) (depth : N) (g : WorkGateway) : result N string :=
  match works g !! cursor with
  | None => Err ("unknown work `" +:+ cursor +:+ "`")
  | Some a =>
      match wd_parent_work_id a with
      | None => Ok depth
      | Some parent =>
          match fuel with
          | O => Err ("parent cycle at work `" +:+ w +:+ "`")
          | S fuel' => depth_walk fuel' w parent (depth + 1)%N g
          end
      end
  end.

(* SRC core/src/work_gateway.rs @fn:work_depth WorkGateway::work_depth *)
Definition work_depth (w : string) (g : WorkGateway) : result N string :=
  depth_walk (size (works g)) w w 0 g.

(** The counts a delegation is admitted with. *)
Record DelegationGauge := { dg_child_depth : N; dg_active : N; dg_total : N }.

(* SRC core/src/work_gateway.rs @fn:delegation_gauge WorkGateway::delegation_gauge *)
Definition delegation_gauge (parent : string) (g : WorkGateway) : result DelegationGauge string :=
  depth <-? work_depth parent g;;
  let children := children_of parent g in
  Ok {| dg_child_depth := N.min (depth + 1) u32_max;
        dg_active := N.of_nat (length (List.filter (λ a, negb (presence_is_terminal (wd_work_id a) g)) children));
        dg_total := N.of_nat (length children) |}.

(* SRC core/src/work_gateway.rs @fn:child_work_id WorkGateway::child_work_id *)
Definition child_work_id (parent task : string) : string := parent +:+ "/subagent/" +:+ task.
(* SRC core/src/work_gateway.rs @fn:child_run_id WorkGateway::child_run_id *)
Definition child_run_id (parent task : string) : string := child_work_id parent task +:+ "/run".
(* SRC core/src/work_gateway.rs @fn:child_agent_session_id WorkGateway::child_agent_session_id *)
Definition child_agent_session_id (parent task : string) : string := child_work_id parent task +:+ "/agent".

(* SRC core/src/work_gateway.rs @struct:ChildWorkRef ChildWorkRef *)
Record ChildWorkRef := { cw_work_id : string; cw_run_id : string; cw_agent_session_id : string }.

Definition child_ref (parent task : string) : ChildWorkRef :=
  {| cw_work_id := child_work_id parent task; cw_run_id := child_run_id parent task;
     cw_agent_session_id := child_agent_session_id parent task |}.

(* SRC core/src/work_gateway.rs @fn:delegate_child_work WorkGateway::delegate_child_work *)
Definition delegate_child_work (parent task objective agent_id : string) (worktree_id : option string)
    (now_ms : N) : M ChildWorkRef :=
  let r := child_ref parent task in
  p <~ must (λ g, works g !! parent) "unknown parent work";;
  create_child_work parent (cw_work_id r) objective (wd_project_id p) (wd_session_id p) now_ms ~;;
  bind_execution (cw_work_id r) (cw_run_id r) ~;;
  record_execution_transition (cw_work_id r) (cw_run_id r) WRunning ~;;
  spawn_subagent (cw_work_id r) (cw_run_id r) (cw_agent_session_id r) agent_id EphemeralChild None worktree_id ~;;
  gret r.

(* SRC core/src/work_gateway.rs @fn:finish_child_work WorkGateway::finish_child_work *)
Definition finish_child_work (parent task : string) (outcome : WorkState) (reason : option string)
    : M ChildWorkRef := λ g,
  let r := child_ref parent task in
  let child := cw_work_id r in
  let run := cw_run_id r in
  if negb (work_is_terminal outcome) then
    (Err ("finish_child_work takes a terminal outcome (completed | failed | cancelled), got " +:+
          work_state_as_str outcome), g)
  else
  match run_state child run g with
  | Some current =>
      if work_is_terminal current then
        if bool_decide (current = outcome) then (Ok r, g)
        else (Err ("child Work `" +:+ child +:+ "` is already terminal (" +:+ work_state_debug current +:+
                   "), refusing " +:+ work_state_debug outcome), g)
      else
        (append child (Domain match outcome with
           | WFailed => RunFailed run (default "subagent failed" reason)
           | WCancelled => RunCancelled run
           | _ => RunCompleted run
           end) None ~;;
         set_run_state child run outcome None ~;;
         terminate_agent_session child (cw_agent_session_id r) ~;;
         gret r) g
  | None =>
      (append child (Domain match outcome with
         | WFailed => RunFailed run (default "subagent failed" reason)
         | WCancelled => RunCancelled run
         | _ => RunCompleted run
         end) None ~;;
       set_run_state child run outcome None ~;;
       terminate_agent_session child (cw_agent_session_id r) ~;;
       gret r) g
  end.

(** ** Change sets *)

(* SRC core/src/work_gateway.rs @fn:file_change_set WorkGateway::file_change_set *)
Definition file_change_set (w step : string) (g : WorkGateway) : option TurnChangeSet :=
  lookup2 w step (file_change_sets g).
(* SRC core/src/work_gateway.rs @fn:open_file_change_sets WorkGateway::open_file_change_sets *)
Definition open_file_change_sets (w : string) (g : WorkGateway) : list TurnChangeSet :=
  List.filter change_set_is_open
    match file_change_sets g !! w with Some steps => btree_values steps | None => [] end.

Definition secret_refusal (c : TurnChangeSet) : string :=
  "change set `" +:+ cs_change_set_id c +:+ "` carries secret-shaped text; refusing to journal it".

(* SRC core/src/work_gateway.rs @fn:record_file_change_set WorkGateway::record_file_change_set *)
Definition record_file_change_set (c : TurnChangeSet) : M WorkEventEnvelope :=
  glift (change_set_validate c) ~;;
  gguard (negb (is_secret_free c)) (secret_refusal c) ~;;
  must (λ g, works g !! cs_work_id c) ("unknown work `" +:+ cs_work_id c +:+ "`") ~;;
  append (cs_work_id c) (Domain (FileChangeSetCaptured c)) None.

Definition with_reason (reason : option string) (c : TurnChangeSet) : TurnChangeSet :=
  {| cs_change_set_id := cs_change_set_id c; cs_work_id := cs_work_id c; cs_step_id := cs_step_id c;
     cs_session_id := cs_session_id c; cs_captured_at_ms := cs_captured_at_ms c;
     cs_entries := cs_entries c; cs_outcome := cs_outcome c; cs_settled_at_ms := cs_settled_at_ms c;
     cs_reason := reason |}.

(* SRC core/src/work_gateway.rs @fn:settle_file_change_set WorkGateway::settle_file_change_set *)
Definition settle_file_change_set (c : TurnChangeSet) (reason : option string) : M WorkEventEnvelope :=
  glift (change_set_validate c) ~;;
  outcome <~ glift (ok_or_err (cs_outcome c) "settling a change set requires an outcome");;
  gguard (bool_decide (outcome = CoOpen)) "`open` is not a settling outcome" ~;;
  gguard (negb (is_secret_free c)) (secret_refusal c) ~;;
  must (λ g, works g !! cs_work_id c) ("unknown work `" +:+ cs_work_id c +:+ "`") ~;;
  existing <~ gets (file_change_set (cs_work_id c) (cs_step_id c));;
  match existing ≫= cs_outcome with
  | Some previous =>
      gfail ("change set `" +:+ cs_change_set_id c +:+ "` is already settled as `" +:+
             change_outcome_as_str previous +:+ "`; refusing to settle it as `" +:+
             change_outcome_as_str outcome +:+ "`")
  | None =>
      let settled := with_reason reason c in
      gguard (negb (is_secret_free settled))
        ("change set `" +:+ cs_change_set_id c +:+
         "` rollback reason carries secret-shaped text; refusing to journal it") ~;;
      append (cs_work_id c) (Domain (FileChangeSetSettled settled)) None
  end.

(** ** Cycles *)

(* SRC core/src/work_gateway.rs 2755 2757 WorkGateway::DELEGATION_WALK_BOUND *)
Definition DELEGATION_WALK_BOUND : nat := 4096.

(** How the ancestor walk of [delegation_cycle] ends. *)
Inductive AncestorWalk :=
  | WalkRefused (r : CycleRefusal)
  | WalkUnknown (w : string)
  | WalkDone (chain : list string) (bindings : list (string * string)).

(** The loop: [fuel] Works may still be visited, [chain] and [bindings] are in
    visiting order. *)
Fixpoint ancestor_walk (fuel : nat) (cursor child : string) (chain : list string)
    (bindings : list (string * string)) (g : WorkGateway) : AncestorWalk :=
  let refusal kind chain := WalkRefused {| cy_kind := kind; cy_chain := chain; cy_binding_id := None;
                                           cy_proposed_child := child |} in
  match fuel with
  | O => refusal RecordedCycle chain
  | S fuel' =>
      if existsb (String.eqb cursor) chain then refusal RecordedCycle chain
      else match works g !! cursor with
      | None => WalkUnknown cursor
      | Some a =>
          let chain := chain ++ [cursor] in
          let bindings := bindings ++ match wd_binding_id a with Some b => [(cursor, b)] | None => [] end in
          if String.eqb cursor child then refusal AncestorWork chain
          else match wd_parent_work_id a with
               | None => WalkDone chain bindings
               | Some parent => ancestor_walk fuel' parent child chain bindings g
               end
      end
  end.

(** The loop of [is_descendant_of]: [fuel] steps are left. *)
Fixpoint descendant_walk (fuel : nat) (candidate cursor ancestor : string) (g : WorkGateway)
    : result bool string :=
  match fuel with
  | O => Err ("parent cycle while walking `" +:+ candidate +:+ "`")
  | S fuel' =>
      if String.eqb cursor ancestor then Ok true
      else match parent_of cursor g with
           | Some parent => descendant_walk fuel' candidate parent ancestor g
           | None => Ok false
           end
  end.

(* SRC core/src/work_gateway.rs @fn:is_descendant_of WorkGateway::is_descendant_of *)
Definition is_descendant_of (candidate ancestor : string) (g : WorkGateway) : result bool string :=
  descendant_walk (Nat.max (size (works g)) 1) candidate candidate ancestor g.

(* SRC core/src/work_gateway.rs @fn:delegation_cycle WorkGateway::delegation_cycle *)
Definition delegation_cycle (parent child : string) (member_binding : option string) (g : WorkGateway)
    : result (option CycleRefusal) string :=
  match ancestor_walk DELEGATION_WALK_BOUND parent child [] [] g with
  | WalkRefused r => Ok (Some r)
  | WalkUnknown w => Err ("unknown work `" +:+ w +:+ "`")
  | WalkDone chain bindings =>
      let refusal kind b := {| cy_kind := kind; cy_chain := chain; cy_binding_id := b;
                               cy_proposed_child := child |} in
      match (match member_binding with
             | Some b => if is_empty b then None
                         else List.find (λ e, String.eqb e.2 b && negb (String.eqb e.1 parent)) bindings
             | None => None
             end) with
      | Some (_, existing) => Ok (Some (refusal AncestorBinding (Some existing)))
      | None =>
          if String.eqb child parent then Ok None
          else
            below <-? is_descendant_of child parent g;;
            Ok (if below then Some (refusal DescendantWork None) else None)
      end
  end.

(* SRC core/src/work_gateway.rs @fn:record_delegation_refused WorkGateway::record_delegation_refused *)
Definition record_delegation_refused (parent : string) (r : CycleRefusal) : M WorkEventEnvelope :=
  must (λ g, works g !! parent) ("unknown work `" +:+ parent +:+ "`") ~;;
  append parent (Domain (DelegationRefused r)) None.

(** ** The delegation lease *)

(* SRC core/src/work_gateway.rs @fn:delegation_lease_key WorkGateway::delegation_lease_key *)
Definition delegation_lease_key (child : string) : TypedResourceKey :=
  {| rk_kind := RkOther; rk_stable_id := "work:" +:+ child; rk_generation := 0 |}.

(* SRC core/src/work_gateway.rs @fn:open_delegation_lease WorkGateway::open_delegation_lease *)
Definition open_delegation_lease (child : string) (owner : OwnerContext) (scope : string)
    (now_ms ttl_ms : N) (fresh : LeaseBearer) : M LeaseAttachment := λ g,
  match works g !! child with
  | None => (Err ("unknown child work `" +:+ child +:+ "`"), g)
  | Some a =>
    match wd_parent_work_id a with
    | None => (Err "a delegation lease may only be opened on a child Work", g)
    | Some parent =>
      if negb (String.eqb parent (ow_work_id owner)) then
        (Err ("child `" +:+ child +:+ "` belongs to `" +:+ parent +:+ "`, not to `" +:+
              ow_work_id owner +:+ "`"), g)
      else
        let key := delegation_lease_key child in
        let c := note_resource_generation key 0 (delegation_leases g) in
        match acquire owner key LControl scope 0 now_ms ttl_ms fresh c with
        | (Err e, c) => (Err (lease_error "acquire" e), set_delegation_leases c g)
        | (Ok acquired, c) =>
            (append child (Domain (DelegationLeaseFact child (aq_fact acquired))) None ~;;
             gret (aq_attachment acquired))
              (set_custody (<[child := (aq_handle acquired, aq_bearer acquired)]> (delegation_lease_custody g))
                 (set_delegation_leases c g))
        end
    end
  end.

(* SRC core/src/work_gateway.rs @fn:delegation_lease WorkGateway::delegation_lease *)
Definition delegation_lease (child : string) (g : WorkGateway) : option LeaseAttachment :=
  lease_id_for_resource (canonical_key (delegation_lease_key child)) (delegation_leases g)
    ≫= λ id, attachment_for id (delegation_leases g).

(* SRC core/src/work_gateway.rs @fn:heartbeat_subagent WorkGateway::heartbeat_subagent *)
Definition heartbeat_subagent (child : string) (at_ms : N) : M N := λ g,
  if negb (is_some (works g !! child)) then (Err ("unknown child work `" +:+ child +:+ "`"), g)
  else if presence_is_terminal child g then
    (Err ("child work `" +:+ child +:+ "` is terminal; refusing a heartbeat"), g)
  else
    let g := match delegation_lease_custody g !! child with
             | Some (handle, bearer) =>
                 set_delegation_leases (lease_heartbeat handle bearer at_ms (delegation_leases g)).2 g
             | None => g
             end in
    (append child (Domain (SubagentHeartbeat child at_ms)) None ~;; gret at_ms) g.

(* SRC core/src/work_gateway.rs @fn:subagent_liveness WorkGateway::subagent_liveness *)
Definition subagent_liveness (child : string) (g : WorkGateway)
    : option (SubagentLiveness * option SubagentTimeoutReceipt) :=
  parent ← parent_of child g;
  Some ({| sl_child_work_id := child; sl_parent_work_id := parent;
           sl_last_heartbeat_ms := default 0%N (subagent_heartbeats g !! child);
           sl_terminal := presence_is_terminal child g; sl_lease := delegation_lease child g |},
        subagent_reclaims g !! child).

(* SRC core/src/work_gateway.rs @fn:subagent_liveness_all WorkGateway::subagent_liveness_all *)
Definition subagent_liveness_all (g : WorkGateway) : list (SubagentLiveness * option SubagentTimeoutReceipt) :=
  omap (λ a, subagent_liveness (wd_work_id a) g)
    (List.filter (λ a, is_some (wd_parent_work_id a)) (btree_values (works g))).

(* SRC core/src/work_gateway.rs 95 98 INTERRUPTED_BY_TIMEOUT *)
Definition INTERRUPTED_BY_TIMEOUT : string := "InterruptedByTimeout".

Definition timeout_detail : string := "delegated child lease reclaimed: heartbeat timeout".

(** One orphan of the sweep. *)
(* SRC core/src/work_gateway.rs 3076 3156 WorkGateway::reclaim_orphaned_subagents *)
Definition reclaim_child (now_ms timeout_ms : N) (l : SubagentLiveness) : M SubagentTimeoutReceipt := λ g,
  let child := sl_child_work_id l in
  let unsettled := List.filter (λ e : string * EffectProjection, requires_reconciliation e.2)
    match effect_projections g !! child with Some m => btree_list m | None => [] end in
  (each (λ e : string * EffectProjection,
     append child (Domain (EffectUncertain e.1 (Some timeout_detail) (ef_idempotency_class e.2))) None ~;;
     gret tt) unsettled ~;;
   match sl_lease l with
   | Some lease =>
       gmodify (λ g, set_delegation_leases (mark_holder_lost (la_lease_id lease) now_ms (delegation_leases g)).2 g) ~;;
       append child (Domain (DelegationLeaseFact child (fact_with_detail timeout_detail
         (fact_new (la_lease_id lease) LEASE_EVENT_UNCERTAIN (la_fence lease) (la_generation lease) now_ms))))
         None ~;;
       gret tt
   | None => gret tt
   end ~;;
   gmodify (λ g, set_custody (delete child (delegation_lease_custody g)) g) ~;;
   run <~ gets (execution_id child);;
   match run with
   | Some run =>
       s <~ gets (run_state child run);;
       if bool_decide (s = Some WRecoverable) then gret tt
       else append child (Domain (RunInterrupted run (Some INTERRUPTED_BY_TIMEOUT))) None ~;; gret tt
   | None => gret tt
   end ~;;
   lease <~ gets (delegation_lease child);;
   let receipt := {| tr_child_work_id := child; tr_parent_work_id := sl_parent_work_id l;
                     tr_silent_ms := silence_ms now_ms l; tr_timeout_ms := timeout_ms; tr_lease := lease;
                     tr_effect_ids := unsettled.*1; tr_effect_state := PoUncertain |} in
   append child (Domain (SubagentLeaseReclaimed receipt)) None ~;;
   gret receipt) g.

Fixpoint reclaim_each (now_ms timeout_ms : N) (probes : list (SubagentLiveness * option SubagentTimeoutReceipt))
    : M (list SubagentTimeoutReceipt) :=
  match probes with
  | [] => gret []
  | (l, _) :: rest =>
      done <~ gets (λ g, is_some (subagent_reclaims g !! sl_child_work_id l));;
      if done || negb (is_orphaned_at now_ms timeout_ms l) then reclaim_each now_ms timeout_ms rest
      else
        receipt <~ reclaim_child now_ms timeout_ms l;;
        receipts <~ reclaim_each now_ms timeout_ms rest;;
        gret (receipt :: receipts)
  end.

(* SRC core/src/work_gateway.rs @fn:reclaim_orphaned_subagents WorkGateway::reclaim_orphaned_subagents *)
Definition reclaim_orphaned_subagents (now_ms timeout_ms : N) : M (list SubagentTimeoutReceipt) := λ g,
  reclaim_each now_ms timeout_ms (subagent_liveness_all g) g.

(* SRC core/src/work_gateway.rs @fn:child_owner_context WorkGateway::child_owner_context *)
Definition child_owner_context (child binding : string) (g : WorkGateway) : result OwnerContext string :=
  a <-? ok_or_err (works g !! child) ("unknown child work `" +:+ child +:+ "`");;
  run <-? ok_or_err (wd_current_run_id a) ("child work `" +:+ child +:+ "` has no bound Run");;
  parent <-? ok_or_err (wd_parent_work_id a) "a delegation lease may only be opened on a child Work";;
  Ok {| ow_session_id := default "" (wd_session_id a); ow_work_id := parent; ow_run_id := run;
        ow_binding_id := binding |}.
End delegation.
