(* ===== verification/WorkLog.v ===== *)
(** * The journal of the Work gateway

    A logic for computations over the gateway (what each operation preserves
    on every path, refusals and disk failures included) and the first
    invariant: what is acknowledged is exactly what is durable. *)
From S2P Require Import Order Prelude Json LeaseTypes Lease WorkTypes WorkEvents Work WorkOps.

(** ** Preservation *)

Definition preserves {A} (P : WorkGateway → Prop) (m : M A) : Prop := ∀ g, P g → P (m g).2.

Section logic.
Context (P : WorkGateway → Prop).

Lemma preserves_ret {A} (a : A) : preserves P (gret a).
Proof. by intros g Hg. Qed.
Lemma preserves_fail {A} e : preserves P (@gfail A e).
Proof. by intros g Hg. Qed.
Lemma preserves_lift {A} (r : result A string) : preserves P (glift r).
Proof. by intros g Hg. Qed.
Lemma preserves_gets {A} (f : WorkGateway → A) : preserves P (gets f).
Proof. by intros g Hg. Qed.
Lemma preserves_guard b e : preserves P (gguard b e).
Proof. intros g Hg. by destruct b. Qed.
Lemma preserves_check {A} (f : WorkGateway → result A string) : preserves P (λ g, (f g, g)).
Proof. by intros g Hg. Qed.
Lemma preserves_modify f : (∀ g, P g → P (f g)) → preserves P (gmodify f).
Proof. intros Hf g Hg. by apply Hf. Qed.
Lemma preserves_bind {A B} (m : M A) (k : A → M B) :
  preserves P m → (∀ a, preserves P (k a)) → preserves P (gbind m k).
Proof.
  intros Hm Hk g Hg. unfold gbind. pose proof (Hm g Hg) as Hg'.
  destruct (m g) as [[a|e] g']; [by apply Hk|done].
Qed.
Lemma preserves_each {A} (f : A → M unit) l : (∀ a, preserves P (f a)) → preserves P (each f l).
Proof.
  intros Hf. induction l as [|a l IH]; simpl; [apply preserves_ret|].
  apply preserves_bind; [done|]. by intros _.
Qed.
(** A computation that looks at the state first. *)
Lemma preserves_fun {A} (f : WorkGateway → result A string * WorkGateway) :
  (∀ g, P g → P (f g).2) → preserves P f.
Proof. done. Qed.
End logic.

Create HintDb gateway.
#[export] Hint Resolve preserves_ret preserves_fail preserves_lift preserves_gets preserves_guard
  preserves_check preserves_bind preserves_each : gateway.

(** ** What the log keeps *)

(** The records of the journal in the order of their sequence numbers, which
    run from [0] to [next_seq - 1], and the events per Work exactly those. *)
Record log_ok (g : WorkGateway) : Prop := {
  lo_lines : ∀ lines, wg_journal g = Some lines →
    next_seq g = N.of_nat (length lines) ∧
    (∀ i env, lines !! i = Some env → we_sequence env = N.of_nat i) ∧
    ∀ w, events_of w g = List.filter (λ env, String.eqb (we_work_id env) w) lines;
  lo_some : is_Some (wg_journal g)
}.

(** The fields of the log. *)
Definition same_log (g g' : WorkGateway) : Prop :=
  wg_journal g' = wg_journal g ∧ next_seq g' = next_seq g ∧ wg_events g' = wg_events g.

Lemma same_log_ok g g' : same_log g g' → log_ok g → log_ok g'.
Proof.
  intros (Hj & Hn & He) [Hl Hs]. constructor; [|by rewrite Hj].
  unfold events_of. rewrite Hj, Hn, He. apply Hl.
Qed.

(** What a replayed event keeps besides: the fence of a Run and its authority
    are not in the journal. *)
Definition same_fenced (g g' : WorkGateway) : Prop :=
  same_log g g' ∧ fence_counters g' = fence_counters g ∧ authorities g' = authorities g.

Definition keeps_log {A} (m : M A) : Prop := ∀ g, same_fenced g (m g).2.

Lemma same_log_refl g : same_log g g.
Proof. done. Qed.
Lemma same_log_trans g1 g2 g3 : same_log g1 g2 → same_log g2 g3 → same_log g1 g3.
Proof. intros (?&?&?) (?&?&?). split_and!; congruence. Qed.
Lemma same_fenced_trans g1 g2 g3 : same_fenced g1 g2 → same_fenced g2 g3 → same_fenced g1 g3.
Proof. intros (?&?&?) (?&?&?). split; [by eapply same_log_trans|]. split; congruence. Qed.
Lemma keeps_same_log {A} (m : M A) g : keeps_log m → same_log g (m g).2.
Proof. intros Hm. apply Hm. Qed.

Lemma keeps_log_ok {A} (m : M A) : keeps_log m → preserves log_ok m.
Proof. intros Hm g Hg. eapply same_log_ok; [by apply keeps_same_log|done]. Qed.
Lemma keeps_log_ret {A} (a : A) : keeps_log (gret a).
Proof. done. Qed.
Lemma keeps_log_lift {A} (r : result A string) : keeps_log (glift r).
Proof. done. Qed.
Lemma keeps_log_guard b e : keeps_log (gguard b e).
Proof. intros g. by destruct b. Qed.
Lemma keeps_log_modify f : (∀ g, same_fenced g (f g)) → keeps_log (gmodify f).
Proof. by intros Hf g. Qed.
Lemma keeps_log_bind {A B} (m : M A) (k : A → M B) :
  keeps_log m → (∀ a, keeps_log (k a)) → keeps_log (gbind m k).
Proof.
  intros Hm Hk g. unfold gbind. pose proof (Hm g) as H1. destruct (m g) as [[a|e] g1]; [|done].
  eapply same_fenced_trans; [done|]. apply Hk.
Qed.
#[export] Hint Resolve keeps_log_ret keeps_log_lift keeps_log_guard keeps_log_bind : gateway.

(** A computation whose every branch ends in updates of other fields. *)
Ltac same_log := repeat case_match; simplify_eq/=; done.

Section log.
Context `{RenderFact} `{RenderChangeSet} `{HashIter} `{WorkWorld} `{RenderContext}.

Lemma note_run_same_log w run g : same_fenced g (note_run_reference w run g).
Proof. unfold note_run_reference. cbv zeta. by case_match. Qed.

Lemma note_run_keeps_log w run : keeps_log (gmodify (note_run_reference w run)).
Proof. apply keeps_log_modify, note_run_same_log. Qed.

Lemma set_run_state_keeps_log w run s wait : keeps_log (set_run_state w run s wait).
Proof.
  intros g. unfold set_run_state. cbv zeta. pose proof (note_run_same_log w run g) as Hn.
  destruct (negb _ && _); [done|]. destruct (validate_run_transition _ _ _ _); [|done].
  simpl. by case_match.
Qed.

Lemma apply_run_patch_keeps_log w run : keeps_log (apply_run_patch w run).
Proof.
  intros g. unfold apply_run_patch. destruct (as_object run) as [m|]; [|done].
  destruct (_ ≫= as_str) as [id|]; [|done]. cbv zeta. pose proof (note_run_same_log w id g) as Hn.
  destruct (as_object _) as [o|]; [|done]. by destruct (merge_run_fields m o).
Qed.

Lemma apply_work_update_keeps_log w patch : keeps_log (apply_work_update w patch).
Proof.
  unfold apply_work_update. apply keeps_log_bind; [by intros g|]. intros a.
  apply keeps_log_bind.
  { destruct (json_get "executionId" patch); [|auto with gateway].
    apply keeps_log_bind; [auto with gateway|]. intros id. apply keeps_log_bind; [auto with gateway|].
    intros _. apply keeps_log_bind; [apply note_run_keeps_log|]. auto with gateway. }
  intros a'. apply keeps_log_bind; [case_match; [apply apply_run_patch_keeps_log|auto with gateway]|].
  intros _. apply keeps_log_bind; [auto with gateway|]. intros p.
  apply keeps_log_bind; [auto with gateway|]. intros _.
  apply keeps_log_bind; [auto with gateway|]. intros owner.
  apply keeps_log_bind; [auto with gateway|]. intros binding.
  apply keeps_log_modify. intros g. by case_bool_decide.
Qed.

Lemma project_keeps_log w e recovery seq : keeps_log (project_p69g2_event w e recovery seq).
Proof.
  unfold project_p69g2_event. apply keeps_log_bind; [auto with gateway|]. intros _.
  destruct e as [d|?|?|?]; try done. destruct d; try done.
  intros g. by destruct (apply_fact _ _ _ _).
Qed.

Lemma replay_run_keeps_log w run s wait : keeps_log (replay_run w run s wait).
Proof.
  apply keeps_log_bind; [apply note_run_keeps_log|]. intros _. apply set_run_state_keeps_log.
Qed.

Lemma point_binding_same_log w id g : same_fenced g (point_binding w id g).
Proof. unfold point_binding. simpl. by destruct (works g !! w). Qed.

Lemma put_point_same_log w id b pid g : same_fenced g (point_binding w pid (put_binding id b g)).
Proof. by apply (same_fenced_trans _ (put_binding id b g)); [|apply point_binding_same_log]. Qed.

Lemma replay_runtime_keeps_log w e seq : keeps_log (replay_runtime w e seq).
Proof.
  intros g. unfold replay_runtime. destruct e; try done; [by case_match|..];
    destruct (owned_binding _ _ _); try done; try apply put_point_same_log.
  cbv zeta. simpl. case_bool_decide; [apply put_point_same_log|done].
Qed.

Lemma replay_created_keeps_log w p s pa k o b i r t pv :
  keeps_log (replay_work_created w p s pa k o b i r t pv).
Proof.
  intros g. unfold replay_work_created. destruct (is_some _); [done|].
  destruct (validate_complete pv); [|done]. destruct (_ && _); [done|]. cbv zeta.
  destruct (_ && _); [done|]. destruct r as [run|]; [|done].
  match goal with |- context [note_run_reference w run ?x] =>
    pose proof (note_run_same_log w run x) as Hn; by destruct t end.
Qed.

Lemma replay_approval_keeps_log w e :
  match e with
  | ApprovalResolved ticket run approved => keeps_log (replay_approval_resolved w ticket run approved)
  | ApprovalRequested ticket run tool args tier at_ms =>
      keeps_log (replay_approval_requested w ticket run tool args tier at_ms)
  | _ => True
  end.
Proof.
  destruct e; try done; intros g.
  - unfold replay_approval_requested. destruct (is_empty _); [done|].
    destruct (approval_event_run_id _ _ _); [|done]. destruct (negb _); [done|]. cbv zeta.
    destruct (negb _); [done|]. by destruct (pending_approval _ _ _).
  - unfold replay_approval_resolved. destruct (is_empty _); [done|]. destruct (match run_id with
      Some _ => _ | None => _ end); [done|]. destruct (match _ with Some _ => _ | None => _ end); [|done].
    unfold remove_pending. cbv zeta. simpl.
    destruct (pending_approvals g !! w); simpl; by destruct (reviews g !! ticket_id).
Qed.

Lemma replay_event_keeps_log env : keeps_log (replay_event env).
Proof.
  intros g. unfold replay_event. cbv zeta. destruct (is_empty _); [done|].
  destruct (_ && _); [done|]. destruct (we_event env) as [d|o|p|r] eqn:Ee; try done.
  - destruct d as [| | | | | | | |tk rn tl ar ti am|tk rn ap| | | | | | | | | | | | | | | | |];
      try done; try apply replay_run_keeps_log; try apply project_keeps_log.
    + apply replay_created_keeps_log.
    + apply apply_work_update_keeps_log.
    + apply keeps_log_bind; [apply replay_run_keeps_log|]. intros _ g1. simpl. by case_match.
    + destruct (work_state_try_parse _); [apply replay_run_keeps_log|done].
    + apply (replay_approval_keeps_log _ (ApprovalRequested tk rn tl ar ti am)).
    + apply (replay_approval_keeps_log _ (ApprovalResolved tk rn ap)).
    + unfold apply_effect_observed. cbv zeta. by destruct (effect_status _ _ _).
    + unfold apply_effect_verified. by destruct (effect_status _ _ _).
    + unfold apply_effect_uncertain. destruct (effect_projections g !! _) as [m|]; [|done].
      by destruct (m !! _).
    + unfold apply_effect_reconciled. destruct (effect_status _ _ _); [|done]. by case_match.
    + simpl. by destruct (reviews g !! _).
  - destruct o; try done. simpl. by destruct (presence g !! _).
  - apply replay_runtime_keeps_log.
Qed.

(** ** Appending *)

Lemma filter_snoc_id {A} (f : A → bool) l x :
  List.filter f (l ++ [x]) = List.filter f l ++ if f x then [x] else [].
Proof. by rewrite List.filter_app. Qed.

(** No write leaves a record the caller is not told about. *)
Definition disk_honest : Prop := ∀ n e, disk_write n ≠ WriteUnsynced e.

(** The state once a record has its number and its place among the events. *)
Definition logged (env : WorkEventEnvelope) (g : WorkGateway) : WorkGateway :=
  set_events (<[we_work_id env := events_of (we_work_id env) g ++ [env]]> (wg_events g))
    (set_next_seq (next_seq g + 1)%N g).
(** … and is in the file. *)
Definition written (lines : list WorkEventEnvelope) (env : WorkEventEnvelope) (g : WorkGateway) : WorkGateway :=
  logged env (set_journal (Some (lines ++ [env])) (set_writes (S (wg_writes g)) g)).

Lemma written_log_ok g lines env :
  wg_journal g = Some lines → we_sequence env = next_seq g → log_ok g → log_ok (written lines env g).
Proof.
  intros Hj Hs Hg. destruct (lo_lines g Hg lines Hj) as (Hn & Hi & He).
  constructor; [|by eexists]. simpl. intros lines' [= <-]. rewrite length_app. simpl.
  split_and!.
  - lia.
  - intros i x Hx. apply lookup_app_Some in Hx as [Hx|[Hlen Hx]]; [by apply Hi|].
    destruct (i - length lines) eqn:E; [|done]. simpl in Hx. injection Hx as <-. lia.
  - intros w'. rewrite filter_snoc_id, <- He. unfold events_of. simpl.
    destruct (decide (w' = we_work_id env)) as [->|Hne].
    + by rewrite lookup_insert_eq, String.eqb_refl.
    + rewrite lookup_insert_ne by done. replace (String.eqb (we_work_id env) w') with false.
      * by rewrite app_nil_r.
      * symmetry. by apply String.eqb_neq.
Qed.

(** The updates an append makes once its record is durable. *)
Definition appended (w : string) (e : WorkEvent) (sequence : N) : M unit :=
  match e with Domain (WorkUpdated patch) => apply_work_update w patch | _ => gret tt end ~;;
  project_p69g2_event w e false sequence.

Lemma appended_keeps_log w e sequence : keeps_log (appended w e sequence).
Proof.
  apply keeps_log_bind; [|intros _; apply project_keeps_log].
  destruct e as [d|?|?|?]; try done. destruct d; try done. apply apply_work_update_keeps_log.
Qed.

(** An append is refused before its record is written, or writes it and goes
    on with [appended]. *)
Lemma append_cases w e causal g lines :
  wg_journal g = Some lines →
  let env := envelope_of w e causal (next_seq g) in
  let g1 := written lines env g in
  (∃ er, (append w e causal g).1 = Err er ∧
         ((append w e causal g).2 = g ∨ (append w e causal g).2 = set_writes (S (wg_writes g)) g)) ∨
  (∃ er n, disk_write n = WriteUnsynced er ∧ (append w e causal g).1 = Err er ∧
           (append w e causal g).2 = set_journal (Some (lines ++ [env])) (set_writes (S (wg_writes g)) g)) ∨
  (admit_event w e g = Ok tt ∧ append w e causal g = (appended w e (next_seq g) ~;; gret env) g1).
Proof.
  intros Hj env g1. unfold append, gbind, gets, gmodify, write_journal.
  destruct (admit_event w e g) as [[]|x]; [|left; exists x; auto].
  rewrite Hj. cbv zeta beta. simpl wg_writes. simpl pred.
  destruct (disk_write (wg_writes g)) as [|er|er] eqn:Ed; [|left; exists er; auto|right; left; eauto].
  right. right. split; [done|]. unfold appended, gbind. cbv beta iota.
  set (m := match e with Domain (WorkUpdated patch) => apply_work_update w patch | _ => gret tt end).
  match goal with |- (let (r, g') := m ?x in _) = _ => change x with g1 end.
  by destruct (m g1) as [[[]|?] ?].
Qed.

Lemma append_log_ok w e causal : disk_honest → preserves log_ok (append w e causal).
Proof.
  intros Hd g Hg. destruct (lo_some g Hg) as [lines Hj].
  destruct (append_cases w e causal g lines Hj) as [(er & _ & [->| ->])|[(er & n & Hu & _ & _)|[_ ->]]].
  - done.
  - by apply (same_log_ok g).
  - by destruct (Hd n er).
  - eapply (preserves_bind log_ok); [apply keeps_log_ok, appended_keeps_log|intros; apply preserves_ret|].
    by apply written_log_ok.
Qed.

(** What is left of it on a disk that may fail after writing: the events of a
    Work are records of the file in file order, with ascending numbers below
    the next one. The file may hold more. *)
Record log_kept (g : WorkGateway) : Prop := {
  lk_lines : ∀ lines w, wg_journal g = Some lines →
    sublist (events_of w g) (List.filter (λ env, String.eqb (we_work_id env) w) lines);
  lk_below : ∀ w env, env ∈ events_of w g → (we_sequence env < next_seq g)%N;
  lk_ascending : ∀ w, StronglySorted N.lt (we_sequence <$> events_of w g);
  lk_some : is_Some (wg_journal g)
}.

Lemma same_log_kept g g' : same_log g g' → log_kept g → log_kept g'.
Proof.
  intros (Hj & Hn & He) [Hl Hb Ha Hs]. constructor; [..|by rewrite Hj];
    unfold events_of in *; rewrite ?Hj, ?Hn, ?He; done.
Qed.

Lemma events_of_logged w env g :
  events_of w (logged env g) = events_of w g ++ (if String.eqb (we_work_id env) w then [env] else []).
Proof.
  unfold events_of. simpl. destruct (String.eqb_spec (we_work_id env) w) as [->|Hne].
  - by rewrite lookup_insert_eq.
  - by rewrite lookup_insert_ne, app_nil_r.
Qed.

Lemma ascending_snoc l n : StronglySorted N.lt l → (∀ x, x ∈ l → (x < n)%N) → StronglySorted N.lt (l ++ [n]).
Proof.
  induction 1 as [|x l Hs IH Hx]; intros Hb; [by repeat constructor|]. simpl. constructor.
  - apply IH. set_solver.
  - apply Forall_app. split; [done|]. constructor; [|done]. apply Hb. set_solver.
Qed.

Lemma written_log_kept g lines env :
  wg_journal g = Some lines → we_sequence env = next_seq g → log_kept g → log_kept (written lines env g).
Proof.
  intros Hj Hs Hg. constructor; unfold written.
  - intros lines' w [= <-]. rewrite events_of_logged, filter_snoc_id.
    apply sublist_app; [exact (lk_lines g Hg lines w Hj)|done].
  - intros w e. rewrite events_of_logged. intros [He|He]%elem_of_app.
    + pose proof (lk_below g Hg w e He). simpl. lia.
    + destruct (String.eqb _ _); [|by apply elem_of_nil in He]. apply list_elem_of_singleton in He as ->. simpl. lia.
  - intros w. rewrite events_of_logged. pose proof (lk_ascending g Hg w) as Ha.
    destruct (String.eqb (we_work_id env) w); [|by rewrite app_nil_r].
    rewrite fmap_app. apply ascending_snoc; [exact Ha|]. intros x (e & -> & He)%list_elem_of_fmap.
    rewrite Hs. by eapply lk_below.
  - by eexists.
Qed.

Lemma append_log_kept w e causal : preserves log_kept (append w e causal).
Proof.
  intros g Hg. destruct (lk_some g Hg) as [lines Hj].
  destruct (append_cases w e causal g lines Hj) as [(er & _ & [->| ->])|[(er & n & _ & _ & ->)|[_ ->]]].
  - done.
  - by apply (same_log_kept g).
  - destruct Hg as [Hl Hb Ha Hs]. constructor; [|exact Hb|exact Ha|by eexists].
    intros lines' w' [= <-]. rewrite filter_snoc_id. apply sublist_inserts_r. by apply Hl.
  - eapply (preserves_bind log_kept); [|intros; apply preserves_ret|by apply written_log_kept].
    intros g' Hg'. eapply same_log_kept; [apply keeps_same_log, appended_keeps_log|exact Hg'].
Qed.
End log.
