(* ===== verification/WorkFacts.v ===== *)
(** * What the Work gateway guarantees

    Every operation as one type, the journal it leaves, and the behaviours
    where the live gateway and a reopened one part. *)
From S2P Require Import Order Prelude Json LeaseTypes Lease WorkTypes WorkEvents.
From S2P Require Import Work WorkOps WorkRuntime WorkDelegation WorkLog.

(** ** Operations *)

Inductive work_op :=
  | WoCreate (w : string) (project session : option string) (kind : SessionKind) (objective : string)
  | WoChild (parent w objective : string) (project session : option string) (now : N)
  | WoBind (w run : string) (metadata : Value)
  | WoTransition (w run : string) (s : WorkState)
  | WoWait (w run : string) (wait : WaitCondition)
  | WoCheckpoint (w run : string) (checkpoint : N)
  | WoRequest (w run ticket tool args tier : string) (at_ms : N)
  | WoResolve (w run ticket : string) (approved : bool)
  | WoApproval (w ticket : string) (approved : bool)
  | WoEffect (w id phase detail : string) (grant : option string) (class : option IdempotencyClass)
  | WoReconcile (w id outcome : string) (retry_safe : bool)
  | WoArchive (w : string)
  | WoDelegate (parent task objective agent : string) (worktree : option string) (now : N)
  | WoFinish (parent task : string) (outcome : WorkState) (reason : option string)
  | WoChangeSet (c : TurnChangeSet)
  | WoSettle (c : TurnChangeSet) (reason : option string)
  | WoRefused (parent : string) (r : CycleRefusal)
  | WoLease (child : string) (owner : OwnerContext) (scope : string) (now ttl : N) (fresh : LeaseBearer)
  | WoHeartbeat (child : string) (at_ms : N)
  | WoSweep (now timeout : N)
  | WoBinding (b : AgentBinding)
  | WoBindingStep (id transition : string) (psid : option string)
  | WoUsage (id : string) (u : BindingUsage)
  | WoClient (c : ClientSession)
  | WoDetach (id : string)
  | WoSteer (i : SteeringInstruction)
  | WoReview (r : ReviewItem)
  | WoResolveReview (id state : string)
  | WoThought (w text : string)
  | WoTouch (w path writer : string)
  | WoPty (w id : string) (rows cols : N)
  | WoPtyOutput (w id chunk : string)
  | WoNode (id w : string)
  | WoMigrate (run node : string) (ttl now : N).

Section facts.
Context `{RenderFact} `{RenderChangeSet} `{HashIter} `{WorkWorld} `{RenderContext}.

Definition discard {A} (m : M A) : M unit := m ~;; gret tt.

Definition work_exec (o : work_op) : M unit :=
  match o with
  | WoCreate w p s k ob => discard (create_work_in_session w p s k ob)
  | WoChild p w ob pr s now => discard (create_child_work p w ob pr s now)
  | WoBind w r m => discard (bind_execution_with_metadata w r m)
  | WoTransition w r s => record_execution_transition w r s
  | WoWait w r wt => record_wait w r wt
  | WoCheckpoint w r c => discard (apply_steering_checkpoint w r c)
  | WoRequest w r t tl a ti n => discard (record_pending_approval_for_run w r t tl a ti n)
  | WoResolve w r t a => discard (resolve_pending_approval_for_run w r t a)
  | WoApproval w t a => record_approval w t a
  | WoEffect w id ph d gr c => record_effect_with_class w id ph d gr c
  | WoReconcile w id o s => discard (reconcile_uncertain_effect w id o s)
  | WoArchive w => discard (try_archive_work w)
  | WoDelegate p t ob ag wt now => discard (delegate_child_work p t ob ag wt now)
  | WoFinish p t o r => discard (finish_child_work p t o r)
  | WoChangeSet c => discard (record_file_change_set c)
  | WoSettle c r => discard (settle_file_change_set c r)
  | WoRefused p r => discard (record_delegation_refused p r)
  | WoLease c o s now ttl b => discard (open_delegation_lease c o s now ttl b)
  | WoHeartbeat c t => discard (heartbeat_subagent c t)
  | WoSweep now t => discard (reclaim_orphaned_subagents now t)
  | WoBinding b => discard (create_agent_binding b)
  | WoBindingStep id t p => discard (transition_agent_binding id t p)
  | WoUsage id u => discard (record_binding_usage id u)
  | WoClient c => attach_client c
  | WoDetach id => discard (try_detach_client id)
  | WoSteer i => discard (steer i)
  | WoReview r => discard (request_review r)
  | WoResolveReview id s => discard (resolve_review_with id s)
  | WoThought w t => record_thought w t
  | WoTouch w p wr => discard (record_file_touch w p wr)
  | WoPty w id r c => discard (spawn_pty w id None r c)
  | WoPtyOutput w id c => discard (write_pty_output w id c)
  | WoNode id w => discard (bind_node id w)
  | WoMigrate r n ttl now => discard (migrate_run r n ttl now)
  end.

(** Operations one after the other. *)
Definition work_play (ops : list work_op) (g : WorkGateway) : WorkGateway :=
  foldl (λ g o, (work_exec o g).2) g ops.

(** A gateway over an empty journal file. *)
Definition gateway_fresh : WorkGateway := set_journal (Some []) gateway_new.

(** ** The journal *)

Section journal.
Context (P : WorkGateway → Prop) (P_same : ∀ g g', same_log g g' → P g → P g').
Context (P_append : ∀ w e causal, preserves P (append w e causal)).

Lemma keeps_P {A} (m : M A) : keeps_log m → preserves P m.
Proof. intros Hm g Hg. eapply P_same; [by apply keeps_same_log|done]. Qed.

Lemma append_replay_kept w e : preserves P (append_replay w e).
Proof.
  unfold append_replay. apply preserves_bind; [by apply P_append|]. intros env.
  apply preserves_bind; [apply keeps_P, replay_event_keeps_log|]. intros _. apply preserves_ret.
Qed.

Lemma set_run_state_kept w run s wait : preserves P (set_run_state w run s wait).
Proof. apply keeps_P, set_run_state_keeps_log. Qed.

Lemma preserves_state (f : WorkGateway → WorkGateway) :
  (∀ g, same_log g (f g)) → preserves P (gmodify f).
Proof. intros Hf g Hg. by eapply P_same, Hg. Qed.

Lemma preserves_discard {A} (m : M A) : preserves P m → preserves P (discard m).
Proof. intros Hm. apply preserves_bind; [done|]. intros _. apply preserves_ret. Qed.

(** Walks through an operation: binds, guards, look-ups and updates. *)
Ltac log_step :=
  lazymatch goal with
  | |- preserves P (gbind _ _) => apply preserves_bind; [|intros ?]
  | |- preserves P (append _ _ _) => by apply P_append
  | |- preserves P (append_replay _ _) => apply append_replay_kept
  | |- preserves P (set_run_state _ _ _ _) => apply set_run_state_kept
  | |- preserves P (gmodify _) =>
      apply preserves_state; intros ?; cbv beta zeta; repeat case_match; done
  | |- preserves P (must _ _) => apply preserves_check
  | |- preserves P (gret _) => apply preserves_ret
  | |- preserves P (gfail _) => apply preserves_fail
  | |- preserves P (glift _) => apply preserves_lift
  | |- preserves P (gets _) => apply preserves_gets
  | |- preserves P (gguard _ _) => apply preserves_guard
  | |- preserves P (each _ _) => apply preserves_each; intros ?
  | |- preserves P (discard _) => apply preserves_discard
  | |- preserves P (if ?b then _ else _) => destruct b
  | |- preserves P (match ?x with _ => _ end) => destruct x
  | |- preserves P (fun _ => _) => intros ? ?; cbv beta zeta
  | |- P (_, _).2 =>
      cbn [snd]; repeat case_match; first [assumption | eapply P_same; [|eassumption]; done]
  | |- P (if ?b then _ else _).2 => destruct b
  | |- P (match ?x with _ => _ end).2 => destruct x eqn:?
  | Hg : P ?g |- P (?m ?g).2 => refine ((_ : preserves P m) g Hg)
  | Hg : P ?g |- P (?m ?g').2 =>
      refine ((_ : preserves P m) g' _); [|apply (P_same g); [by repeat case_match|exact Hg]]
  end.
Ltac log_walk := cbv beta zeta; repeat log_step.

Lemma create_with_kept w a e : preserves P (create_with w a e).
Proof.
  intros g Hg. unfold create_with. cbv zeta.
  match goal with |- context [append w e None ?g1] =>
    pose proof (P_append w e None g1 ltac:(by apply (P_same g)));
    destruct (append w e None g1) as [[x|x] g2] end; [done|].
  by apply (P_same g2).
Qed.

Lemma creation_kept : (∀ w p s k ob, preserves P (create_work_in_session w p s k ob)) ∧
  (∀ p w ob pr s now, preserves P (create_child_work p w ob pr s now)).
Proof.
  split; intros; [unfold create_work_in_session | unfold create_child_work]; log_walk;
    apply create_with_kept.
Qed.

Lemma bind_kept w r m : preserves P (bind_execution_with_metadata w r m).
Proof. unfold bind_execution_with_metadata. log_walk. Qed.

Lemma transition_kept w r s : preserves P (record_execution_transition w r s).
Proof. unfold record_execution_transition. log_walk. Qed.

Lemma approvals_kept : (∀ w r t tl a ti n, preserves P (record_pending_approval_for_run w r t tl a ti n)) ∧
  (∀ w r t a, preserves P (resolve_pending_approval_for_run w r t a)) ∧
  (∀ w t a, preserves P (record_approval w t a)).
Proof.
  split_and!; intros; [unfold record_pending_approval_for_run | unfold resolve_pending_approval_for_run
    | unfold record_approval]; log_walk; apply transition_kept.
Qed.

Lemma effects_kept : (∀ w id ph d gr c, preserves P (record_effect_with_class w id ph d gr c)) ∧
  (∀ w id o s, preserves P (reconcile_uncertain_effect w id o s)) ∧
  (∀ w, preserves P (try_archive_work w)).
Proof.
  split_and!; intros; [unfold record_effect_with_class | unfold reconcile_uncertain_effect
    | unfold try_archive_work]; log_walk.
Qed.

Lemma session_step_kept w id e f : preserves P (session_step w id e f).
Proof. unfold session_step, must_session. log_walk. Qed.

Lemma delegate_kept p t ob ag wt now : preserves P (delegate_child_work p t ob ag wt now).
Proof.
  unfold delegate_child_work, bind_execution, spawn_subagent, must_work. log_walk;
    first [apply creation_kept | apply bind_kept | apply transition_kept].
Qed.

Lemma finish_kept p t o r : preserves P (finish_child_work p t o r).
Proof. unfold finish_child_work. log_walk; apply session_step_kept. Qed.

Lemma reclaim_kept now t : preserves P (reclaim_orphaned_subagents now t).
Proof.
  intros g. unfold reclaim_orphaned_subagents. generalize (subagent_liveness_all g). intros l.
  revert g. change (preserves P (reclaim_each now t l)).
  induction l as [|[x y] l IH]; simpl; [apply preserves_ret|].
  unfold reclaim_child. log_walk; assumption.
Qed.

(** Every operation keeps the log, whether it succeeds or not. *)
Lemma work_exec_kept o : preserves P (work_exec o).
Proof.
  destruct o; simpl;
    unfold record_wait, apply_steering_checkpoint, record_file_change_set, settle_file_change_set,
      record_delegation_refused, open_delegation_lease, heartbeat_subagent, create_agent_binding,
      transition_agent_binding, record_binding_usage, attach_client, try_detach_client, steer,
      request_review, resolve_review_with, record_thought, record_file_touch, spawn_pty,
      write_pty_output, bind_node, migrate_run, acquire_run_authority, must_work, must_pty;
    log_walk;
    first [apply creation_kept | apply bind_kept | apply transition_kept | apply approvals_kept
          | apply effects_kept | apply delegate_kept | apply finish_kept | apply reclaim_kept].
Qed.

(** The operations [work_op] leaves aside: terminals, worktrees, agent sessions,
    clients, manifests, records, nodes and the authority of a Run. *)
Inductive gateway_op :=
  | GoWork (o : work_op)
  | GoBindRun (w run : string)
  | GoRequest (w ticket tool args tier : string) (at_ms : N)
  | GoReconcileAll (w outcome : string) (retry_safe : bool)
  | GoPtySpawn (w id : string) (process_id : option N) (rows cols : N)
  | GoPtyResize (w id : string) (rows cols : N)
  | GoPtySignal (w id signal : string)
  | GoPtyPause (id : string)
  | GoPtyResume (id : string)
  | GoPtyClose (w id : string) (code : option Z)
  | GoPtyAppend (id output : string)
  | GoTree (w run id repo root base branch mode : string)
  | GoTreeAttach (w id run : string)
  | GoTreeMerge (w id into : string)
  | GoTreeRevert (w id : string)
  | GoTreeDestroy (w id : string)
  | GoSpawn (w run id agent : string) (lifetime : AgentLifetime) (pty tree : option string)
  | GoMessage (w id : string) (to_agent : bool)
  | GoSessionAttach (w id : string)
  | GoSessionDetach (w id : string)
  | GoSessionTerminate (w id : string)
  | GoSessionSteer (w id : string)
  | GoSessionCheckpoint (w id : string)
  | GoConnect (id client_type w : string) (authenticated : bool) (now : N)
  | GoInterrupt (w source reason : string) (now : N)
  | GoManifest (w : string) (m : RuntimeManifest)
  | GoTest (w name : string) (passed : bool)
  | GoHandoff (w artifact from_agent to_agent summary : string)
  | GoArtifact (w artifact : string) (updated : bool)
  | GoNodeRegister (n : ExecutionNode)
  | GoNodeHeartbeat (id : string) (at_ms : N)
  | GoNodePair (n : ExecutionNode) (now : N)
  | GoNodeVerify (id : string) (now : N)
  | GoAcquire (run node : string) (ttl now : N)
  | GoRelease (run node : string) (token now : N)
  | GoRenew (run node : string) (token ttl now : N)
  | GoRecover (run node : string) (ttl now : N).

Definition gateway_exec `{ManifestDigest} (o : gateway_op) : M unit :=
  match o with
  | GoWork o => work_exec o
  | GoBindRun w r => bind_execution w r
  | GoRequest w t tl a ti n => discard (record_pending_approval w t tl a ti n)
  | GoReconcileAll w o s => reconcile_uncertain_effects w o s
  | GoPtySpawn w id p r c => discard (spawn_pty w id p r c)
  | GoPtyResize w id r c => discard (resize_pty w id r c)
  | GoPtySignal w id s => discard (signal_pty w id s)
  | GoPtyPause id => pause_pty id
  | GoPtyResume id => resume_pty id
  | GoPtyClose w id c => discard (close_pty w id c)
  | GoPtyAppend id o => append_pty_output id o
  | GoTree w r id repo root base br m => discard (create_worktree w r id repo root base br m)
  | GoTreeAttach w id r => discard (attach_worktree w id r)
  | GoTreeMerge w id i => discard (merge_worktree w id i)
  | GoTreeRevert w id => discard (revert_worktree w id)
  | GoTreeDestroy w id => discard (destroy_worktree w id)
  | GoSpawn w r id ag l p t => discard (spawn_subagent w r id ag l p t)
  | GoMessage w id to => discard (send_subagent_message w id to)
  | GoSessionAttach w id => discard (attach_agent_session w id)
  | GoSessionDetach w id => discard (detach_agent_session w id)
  | GoSessionTerminate w id => discard (terminate_agent_session w id)
  | GoSessionSteer w id => discard (steer_agent_session w id)
  | GoSessionCheckpoint w id => discard (checkpoint_agent_session w id)
  | GoConnect id ct w au now => discard (connect_client id ct w au now)
  | GoInterrupt w s r now => discard (interrupt_current_step w s r now)
  | GoManifest w m => discard (create_runtime_manifest w m)
  | GoTest w n p => record_test w n p
  | GoHandoff w a f t s => record_handoff w a f t s
  | GoArtifact w a u => record_artifact w a u
  | GoNodeRegister n => register_node n
  | GoNodeHeartbeat id t => discard (heartbeat_node id t)
  | GoNodePair n now => discard (pair_node n now)
  | GoNodeVerify id now => discard (verify_node id now)
  | GoAcquire r n ttl now => discard (acquire_run_authority r n ttl now)
  | GoRelease r n t now => discard (release_authority r n t now)
  | GoRenew r n t ttl now => discard (renew_lease r n t ttl now)
  | GoRecover r n ttl now => discard (recover_run r n ttl now)
  end.

Lemma gateway_exec_kept `{ManifestDigest} o : preserves P (gateway_exec o).
Proof.
  destruct o; simpl; [apply work_exec_kept|..];
    unfold bind_execution, record_pending_approval, reconcile_uncertain_effects, spawn_pty, resize_pty, signal_pty, pause_pty,
      resume_pty, set_pty_state, close_pty, append_pty_output, create_worktree, attach_worktree, merge_worktree, revert_worktree,
      destroy_worktree, worktree_step, spawn_subagent, send_subagent_message, attach_agent_session, detach_agent_session,
      terminate_agent_session, steer_agent_session, checkpoint_agent_session, connect_client, interrupt_current_step, steer,
      create_runtime_manifest, record_test, record_handoff, record_artifact, register_node, heartbeat_node, pair_node, verify_node,
      release_authority, renew_lease, recover_run, acquire_run_authority, attach_client, must_work, must_pty, must_session,
      must_worktree;
    log_walk;
    first [apply session_step_kept | apply bind_kept | apply approvals_kept | apply effects_kept].
Qed.

(** Operations one after the other, the refused ones included. *)
Definition gateway_play `{ManifestDigest} (ops : list gateway_op) (g : WorkGateway) : WorkGateway :=
  foldl (λ g o, (gateway_exec o g).2) g ops.
Lemma gateway_play_kept `{ManifestDigest} ops g : P g → P (gateway_play ops g).
Proof. revert g. induction ops as [|o ops IH]; intros g Hg; [done|]. by apply IH, gateway_exec_kept. Qed.
End journal.

Lemma gateway_fresh_log_ok : log_ok gateway_fresh.
Proof. constructor; [intros lines [= <-]|by eexists]. split_and!; [done|by intros []|done]. Qed.
Lemma gateway_fresh_log_kept : log_kept gateway_fresh.
Proof.
  constructor; [intros lines w [= <-]; done| | |by eexists]; intros w; [|constructor].
  intros env. by intros ?%elem_of_nil.
Qed.

End facts.

(** ** A gateway over a calm disk *)

Definition plain_change_render : RenderChangeSet := {| render_change_set c := cs_change_set_id c |}.
Definition plain_context : RenderContext := {| render_context _ := "{}" |}.
Definition plain_manifest : ManifestDigest.
Proof. refine {| digest_manifest m := rm_work_id m |}. by intros h m. Defined.
#[local] Existing Instances plain_render plain_change_render calm_world plain_context.

Lemma calm_world_honest : disk_honest.
Proof. by intros n e. Qed.

(** What reopening the journal of a gateway answers. *)
Definition reopen (g : WorkGateway) : result WorkGateway string :=
  gateway_open (default [] (wg_journal g)).

(** The error a sequence of operations ends with when it is refused, and the
    one its journal is refused with when it is reopened. *)
Definition outcome_of (ops : list work_op) : list string * option string :=
  let '(errors, g) := foldl (λ '(errors, g) o,
    match work_exec o g with (Ok _, g') => (errors, g') | (Err e, g') => (errors ++ [e], g') end)
    ([], gateway_fresh) ops in
  (errors, match reopen g with Ok _ => None | Err e => Some e end).

Definition bound_work : list work_op :=
  [WoCreate "w" None (Some "s") SkInteractive "obj"; WoBind "w" "r" (json_object [("trigger", JString "chat")])].


(** ** Where the live gateway and a reopened one part *)

Definition running := bound_work ++ [WoTransition "w" "r" WRunning].

(** [validate_run_transition], which guards the append, knows a bound Run as
    Ready; the replay, which never saw a queue event, does not. *)
Example cancelled_before_start_does_not_reopen :
  outcome_of (bound_work ++ [WoTransition "w" "r" WCancelled]) =
  ([], Some "run `r` reached terminal state without a durable start/queue event").
Proof. by vm_compute. Qed.

(** The steering checkpoint is journaled and not projected. *)
Example steered_checkpoint_does_not_reopen :
  outcome_of (running ++ [WoCheckpoint "w" "r" 3; WoTransition "w" "r" WCompleted]) =
  ([], Some "illegal Work transition Checkpointed → Completed for run `r`").
Proof. by vm_compute. Qed.

(** The conflict of a second description of a Run is found after its record is
    durable: the caller is told of the error and the journal is unreadable. *)
Example conflicting_rebind_does_not_reopen :
  outcome_of (bound_work ++ [WoBind "w" "r" (json_object [("trigger", JString "acp")])]) =
  (["run metadata field `trigger` conflicts with an earlier event"],
   Some "run metadata field `trigger` conflicts with an earlier event").
Proof. by vm_compute. Qed.

Example archived_effect_does_not_reopen :
  outcome_of (bound_work ++ [WoEffect "w" "e" "attempted" "" None None; WoArchive "w"]) =
  ([], Some "effect projection references unknown Work `w`").
Proof. by vm_compute. Qed.

Example archived_parent_does_not_reopen :
  outcome_of (bound_work ++ [WoChild "w" "c" "o" None None 5; WoArchive "w"]) =
  ([], Some "Work `c` references unknown parent `w`").
Proof. by vm_compute. Qed.

Example child_of_another_session_does_not_reopen :
  outcome_of (bound_work ++ [WoChild "w" "c" "o" None (Some "s2") 5]) =
  ([], Some "Work `c` does not inherit its parent Session scope").
Proof. by vm_compute. Qed.

Example unnamed_work_does_not_reopen :
  outcome_of [WoCreate "" None (Some "s") SkInteractive "obj"] =
  ([], Some "work journal event has an empty work id").
Proof. by vm_compute. Qed.

(** The sweep journals the interruption of a Run and leaves the live Run
    running, so that its completion is accepted. *)
Example reclaimed_child_completes_and_does_not_reopen :
  outcome_of (bound_work ++ [WoDelegate "w" "t" "o" "a" None 5; WoSweep 100000 10;
                             WoFinish "w" "t" WCompleted None]) =
  ([], Some "illegal Work transition Recoverable → Completed for run `w/subagent/t/run`").
Proof. by vm_compute. Qed.

(** A silent child whose Run never started stops the sweep of every child
    after it. *)
Example ready_child_stops_the_sweep :
  outcome_of (bound_work ++ [WoChild "w" "c" "o" None None 5; WoBind "c" "cr" (json_object []);
                             WoSweep 100000 10]) =
  (["illegal Work transition Ready → Recoverable for run `cr`"], None).
Proof. by vm_compute. Qed.

(** A paused Run forgets why it waits. *)
Example timer_wait_is_lost_on_reopen :
  let g := work_play (running ++ [WoWait "w" "r" {| wa_reason := WaTimer; wa_detail := None;
    wa_deadline_ms := Some 99%N; wa_resume_on := None |}]) gateway_fresh in
  (wa_reason <$> (presence g !! "w" ≫= wp_wait)) = Some WaTimer ∧
  match reopen g with Ok g' => presence g' !! "w" ≫= wp_wait | Err _ => None end = None.
Proof. by vm_compute. Qed.

(** A heartbeat makes a bound node healthy, and a healthy node is not bound. *)
Example heartbeat_unbinds_a_node :
  let node := {| xn_node_id := "n"; xn_owner := "o"; xn_platform := "linux"; xn_node_kind := "k";
    xn_always_on := true; xn_capabilities := []; xn_sandbox_class := "c"; xn_network_policy := "p";
    xn_credential_policy := "p"; xn_health := "new"; xn_last_heartbeat_ms := 0 |} in
  let m := pair_node node 1 ~;; verify_node "n" 2 ~;; heartbeat_node "n" 3 ~;; verify_node "n" 4 in
  (m gateway_fresh).1 = Err "node is not paired".
Proof. by vm_compute. Qed.

(** The cap of the terminal text may fall inside a character. *)
Example capped_output_panics_inside_a_character :
  cap_output 2 "aé" = Some "é" ∧ cap_output 2 "éa" = None.
Proof. by vm_compute. Qed.

(** A record that reached the file and failed to sync is refused, and its
    number is given to the next one. *)
Definition torn_world : WorkWorld :=
  {| disk_write n := if (n =? 1)%nat then WriteUnsynced "sync failed" else WriteOk;
     stamp _ := 0%N; fresh_bearer n := pretty n |}.
Example unsynced_record_does_not_reopen :
  let g := @work_play _ _ _ torn_world _ (bound_work ++ [WoThought "w" "again"]) gateway_fresh in
  @reopen g = Err "work journal sequence is not strictly increasing: 1 after 1".
Proof. by vm_compute. Qed.
