(* ===== verification/WorkReplay.v ===== *)
(** * The reopened gateway refines the live one

    A gateway opened from a journal is rebuilt by [replay_event]; the live one
    is changed by the operations themselves. What both must agree on, and the
    proof that they do after every successful operation of the core: creation,
    Runs, waits, approvals, effects, bindings, delegation facts, archival. *)
From S2P Require Import Order Prelude Json LeaseTypes Lease WorkTypes WorkEvents.
From S2P Require Import Work WorkOps WorkRuntime WorkDelegation WorkLog WorkFacts.

(** The fields the agreement is about. *)
Definition same_core (g g' : WorkGateway) : Prop :=
  works g' = works g ∧ wg_events g' = wg_events g ∧ next_seq g' = next_seq g ∧
  execution_ids g' = execution_ids g ∧ run_ids g' = run_ids g ∧
  effect_projections g' = effect_projections g ∧ pending_approvals g' = pending_approvals g ∧
  agent_bindings g' = agent_bindings g ∧ active_binding_ids g' = active_binding_ids g ∧
  file_change_sets g' = file_change_sets g ∧ delegation_refusals g' = delegation_refusals g ∧
  subagent_heartbeats g' = subagent_heartbeats g ∧ run_states g' = run_states g ∧
  run_metadata g' = run_metadata g.

Lemma same_core_refl g : same_core g g.
Proof. done. Qed.
Lemma same_core_presence v g : same_core g (set_presence v g).
Proof. by unfold same_core. Qed.
Lemma same_core_reviews v g : same_core g (set_reviews v g).
Proof. by unfold same_core. Qed.
Lemma same_core_trans g1 g2 g3 : same_core g1 g2 → same_core g2 g3 → same_core g1 g3.
Proof. unfold same_core. intuition congruence. Qed.
(** Updates of fields outside the core, by what the goal shows: unifying two
    different updates would compare them field by field. *)
Ltac same_core := lazymatch goal with
  | |- same_core ?g ?g => apply same_core_refl
  | |- same_core _ (if ?b then _ else _) => destruct b; same_core
  | |- same_core _ (match ?x with _ => _ end) => destruct x; same_core
  | |- same_core _ (set_presence _ _) => eapply same_core_trans; [|apply same_core_presence]; same_core
  | |- same_core _ (set_reviews _ _) => eapply same_core_trans; [|apply same_core_reviews]; same_core
  end.

Section replay.
Context `{RenderFact} `{RenderChangeSet} `{HashIter} `{!HashIterLaws} `{WorkWorld} `{RenderContext}.

(** ** Agreement *)

(** A verifying Run is journaled as a started one. *)
Definition replayed_state (s : WorkState) : WorkState :=
  match s with WVerifying => WRunning | _ => s end.

(** A bound Run is Ready before any event says so; the states before Ready are
    not states of a Run. *)
Definition state_agrees (live reopened : option WorkState) : Prop :=
  match live with
  | None => reopened = None
  | Some WReady => reopened = None ∨ reopened = Some WReady
  | Some WCreated | Some WPlanning => False
  | Some s => reopened = Some (replayed_state s)
  end.

(** The description of a Run; the replay adds the number of its checkpoint. *)
Definition meta_agrees (live reopened : option Value) : Prop :=
  ∃ m m', default (JObject []) live = JObject m ∧ default (JObject []) reopened = JObject m' ∧
  ∀ k, k ≠ "checkpoint" → obj_get k m = obj_get k m'.

Record agree (g r : WorkGateway) : Prop := {
  ag_works : works r = works g;
  ag_events : wg_events r = wg_events g;
  ag_seq : next_seq r = next_seq g;
  ag_exec : execution_ids r = execution_ids g;
  ag_runs : run_ids r = run_ids g;
  ag_effects : effect_projections r = effect_projections g;
  ag_pending : pending_approvals r = pending_approvals g;
  ag_bindings : agent_bindings r = agent_bindings g;
  ag_active : active_binding_ids r = active_binding_ids g;
  ag_sets : file_change_sets r = file_change_sets g;
  ag_refusals : delegation_refusals r = delegation_refusals g;
  ag_beats : subagent_heartbeats r = subagent_heartbeats g;
  ag_states : ∀ w run, state_agrees (run_state w run g) (run_state w run r);
  ag_meta : ∀ w run, meta_agrees (lookup2 w run (run_metadata g)) (lookup2 w run (run_metadata r))
}.

Lemma agree_core g g' r r' : same_core g g' → same_core r r' → agree g r → agree g' r'.
Proof.
  unfold same_core. intros Hg Hr Ha. destruct_and! Hg. destruct_and! Hr. destruct Ha.
  constructor; unfold run_state in *; try congruence; intros w run;
    repeat match goal with E : run_states _ = _ |- _ => rewrite E; clear E end;
    repeat match goal with E : run_metadata _ = _ |- _ => rewrite E; clear E end; done.
Qed.

Lemma agree_logged env g r : agree g r → agree (logged env g) (logged env r).
Proof.
  intros []. constructor; simpl; unfold events_of; try congruence; try done.
Qed.

(** ** Synchrony *)

Definition last_sequence (lines : list WorkEventEnvelope) : option N :=
  match length lines with O => None | S n => Some (N.of_nat n) end.

(** The journal of [g] replays, to a gateway that agrees with [g]. *)
Record synced (g : WorkGateway) : Prop := {
  sy_log : log_ok g;
  sy_replay : ∀ lines, wg_journal g = Some lines → ∀ file, ∃ r,
    open_lines None lines (set_journal file gateway_new) = (Ok (last_sequence lines), r) ∧ agree g r
}.

Lemma synced_fresh : synced gateway_fresh.
Proof.
  constructor; [by apply gateway_fresh_log_ok|]. intros lines [= <-] file.
  eexists. split; [done|]. constructor; try done. intros w run. by exists [], [].
Qed.

Lemma open_lines_snoc last lines env g :
  open_lines last (lines ++ [env]) g = (last <~ open_lines last lines;; open_line last env) g.
Proof.
  revert last g. induction lines as [|e lines IH]; intros last g; simpl.
  - unfold gbind. simpl. by destruct (open_line last env g) as [[]].
  - unfold gbind at 1 3. destruct (open_line last e g) as [[l|x] g'] eqn:E; unfold gbind in *;
      rewrite ?E; [apply IH|done].
Qed.

Lemma no_duplicate g : log_ok g → duplicate_sequence (next_seq g) g = false.
Proof.
  intros [Hl [lines Hj]]. destruct (Hl lines Hj) as (Hn & Hi & He).
  apply not_true_is_false. unfold duplicate_sequence. rewrite existsb_exists. intros ([w evs] & Hin & Hx).
  apply existsb_exists in Hx as (x & Hx & Hs). apply list_elem_of_In, elem_of_map_to_list in Hin.
  apply N.eqb_eq in Hs. simpl in Hx. assert (Hev : evs = events_of w g) by (unfold events_of; by rewrite Hin).
  rewrite Hev, He in Hx. apply filter_In in Hx as [Hx _]. apply list_elem_of_In, list_elem_of_lookup in Hx as [i Hi'].
  pose proof (Hi _ _ Hi'). apply lookup_lt_Some in Hi'. lia.
Qed.

Lemma open_line_step w e causal g r last :
  log_ok g → agree g r → next_seq g ≠ u64_max →
  match last with Some previous => (previous < next_seq g)%N | None => True end →
  let env := envelope_of w e causal (next_seq g) in
  open_line last env r = (replay_event env ~;; gret (Some (next_seq g))) (logged env r).
Proof.
  intros Hl Ha Hmax Hlast env. unfold open_line. simpl we_schema_version. simpl we_sequence.
  change (1 <? 1)%N with false. cbv iota zeta. rewrite (ag_seq _ _ Ha).
  replace (match last with Some previous => (next_seq g <=? previous)%N | None => false end) with false;
    [|destruct last; [symmetry; apply N.leb_gt; lia|done]].
  rewrite N.leb_refl. replace (next_seq g =? u64_max)%N with false by (symmetry; by apply N.eqb_neq).
  cbn [andb]. replace (duplicate_sequence (next_seq g) (set_next_seq (next_seq g + 1)%N r)) with false;
    [|symmetry; unfold duplicate_sequence; simpl; rewrite (ag_events _ _ Ha); by apply no_duplicate].
  unfold logged. rewrite (ag_seq _ _ Ha). done.
Qed.

(** One append between two steps that leave the log alone: the replay of the
    new record, over a gateway that agreed before, agrees again. *)
Lemma synced_append g ga w e causal gb env g' :
  synced g → same_log g ga → append w e causal ga = (Ok env, gb) → same_log gb g' →
  (∀ g1 r, is_Some (works ga !! w) → same_core (logged env ga) g1 →
     appended w e (next_seq ga) g1 = (Ok tt, gb) →
     agree (logged env g) r → ∃ r', replay_event env r = (Ok tt, r') ∧ agree g' r') →
  synced g'.
Proof.
  intros Hs Hga Happ Hgb Hreplay. pose proof (same_log_ok g ga Hga (sy_log g Hs)) as Hla.
  destruct (lo_some ga Hla) as [lines Hj]. destruct Hga as (Hj' & Hn' & He').
  destruct (lo_lines ga Hla lines Hj) as (Hn & _ & _).
  destruct (append_cases w e causal ga lines Hj) as [(er & Her & _)|[(er & n & _ & Her & _)|[Had Heq]]];
    [rewrite Happ in Her; done..|].
  rewrite Heq in Happ. unfold gbind in Happ.
  pose proof (keeps_same_log _ (written lines (envelope_of w e causal (next_seq ga)) ga) (appended_keeps_log w e (next_seq ga))) as Hk.
  destruct (appended _ _ _ _) as [[[]|?] g1] eqn:Happd; [|done]. injection Happ as <- <-. simpl in Hk.
  set (env := envelope_of w e causal (next_seq ga)) in *.
  unfold admit_event in Had. destruct (works ga !! w) eqn:Hw; [|done]. simpl in Had.
  destruct (match run_event_state e with Some (run, s) => validate_run_transition w run s ga | None => Ok tt end)
    as [[]|]; [|done]. simpl in Had. destruct (validate_p69g2_event w e) as [[]|] eqn:Hv; [|done]. simpl in Had.
  destruct (next_seq ga =? u64_max)%N eqn:Hmax; [done|]. apply N.eqb_neq in Hmax.
  assert (Hlog : log_ok g1) by (apply (same_log_ok _ _ Hk), written_log_ok; [done|done|done]).
  constructor; [by apply (same_log_ok g1)|].
  intros lines' Hj2 file. assert (lines' = lines ++ [env]) as ->.
  { destruct Hgb as [Hgb _], Hk as [Hk _]. rewrite Hgb, Hk in Hj2. by injection Hj2. }
  rewrite open_lines_snoc. destruct (sy_replay g Hs lines) with (file := file) as (r & Hr & Ha); [congruence|].
  unfold gbind. rewrite Hr.
  destruct (Hreplay (written lines env ga) (logged env r)) as (r' & Hr' & Ha');
    [by eexists|done|done|by apply agree_logged|].
  exists r'. split; [|done].
  unfold env. rewrite Hn', (open_line_step w e causal g r); [|by apply sy_log|done|congruence|].
  - rewrite <- Hn'. fold env. unfold gbind. rewrite Hr'. unfold gret, last_sequence.
    rewrite length_app, Nat.add_comm, Hn. done.
  - unfold last_sequence. destruct (length lines); [done|]. lia.
Qed.

(** ** Updates of both sides *)

Lemma agree_set_works m g r : agree g r → agree (set_works m g) (set_works m r).
Proof. intros []. by constructor. Qed.
Lemma agree_set_effects m g r : agree g r → agree (set_effects m g) (set_effects m r).
Proof. intros []. by constructor. Qed.
Lemma agree_set_pending m g r : agree g r → agree (set_pending m g) (set_pending m r).
Proof. intros []. by constructor. Qed.
Lemma agree_set_agent_bindings m g r : agree g r → agree (set_agent_bindings m g) (set_agent_bindings m r).
Proof. intros []. by constructor. Qed.
Lemma agree_set_active m g r : agree g r → agree (set_active_bindings m g) (set_active_bindings m r).
Proof. intros []. by constructor. Qed.
Lemma agree_set_sets m g r : agree g r → agree (set_change_sets m g) (set_change_sets m r).
Proof. intros []. by constructor. Qed.
Lemma agree_set_refusals m g r : agree g r → agree (set_refusals m g) (set_refusals m r).
Proof. intros []. by constructor. Qed.
Lemma agree_set_beats m g r : agree g r → agree (set_heartbeats m g) (set_heartbeats m r).
Proof. intros []. by constructor. Qed.
Lemma agree_set_refs e i g r : agree g r →
  agree (set_execution_ids e (set_run_ids i g)) (set_execution_ids e (set_run_ids i r)).
Proof. intros []. by constructor. Qed.
#[local] Hint Resolve agree_set_works agree_set_effects agree_set_pending agree_set_agent_bindings
  agree_set_active agree_set_sets agree_set_refusals agree_set_beats agree_set_refs : core.

(** Fields outside the agreement. *)
Lemma agree_outside_l g g' r : same_core g g' → agree g r → agree g' r.
Proof. intros Hg. by apply agree_core. Qed.
Lemma agree_outside_r g r r' : same_core r r' → agree g r → agree g r'.
Proof. intros Hr. by apply agree_core. Qed.

Lemma lookup2_insert2 {A} k k' i i' (a : A) m :
  lookup2 i i' (insert2 k k' a m) = if decide (i = k ∧ i' = k') then Some a else lookup2 i i' m.
Proof.
  unfold lookup2, insert2. destruct (decide (i = k)) as [->|Hne].
  - rewrite lookup_insert_eq. simpl. destruct (decide (i' = k')) as [->|Hne'].
    + by rewrite lookup_insert_eq, decide_True.
    + rewrite lookup_insert_ne, decide_False by naive_solver. by destruct (m !! k).
  - rewrite lookup_insert_ne, decide_False by naive_solver. done.
Qed.

Lemma agree_set_states w run s s' g r : agree g r → state_agrees (Some s) (Some s') →
  agree (set_run_states (insert2 w run s (run_states g)) g) (set_run_states (insert2 w run s' (run_states r)) r).
Proof.
  intros [] Hs. constructor; try done. intros w' run'. unfold run_state. simpl.
  rewrite !lookup2_insert2. destruct (decide _); [done|]. by apply ag_states0.
Qed.
(** A Run that is bound and has no event yet. *)
Lemma agree_set_ready w run g r : agree g r → run_state w run g = None →
  agree (set_run_states (insert2 w run WReady (run_states g)) g) r.
Proof.
  intros [] Hs. constructor; try done. intros w' run'. unfold run_state. simpl.
  rewrite lookup2_insert2. destruct (decide _) as [[-> ->]|]; [|by apply ag_states0].
  left. pose proof (ag_states0 w run) as Hw. by rewrite Hs in Hw.
Qed.
Lemma agree_set_meta w run m m' g r : agree g r → meta_agrees (Some (JObject m)) (Some (JObject m')) →
  agree (set_run_metadata (insert2 w run (JObject m) (run_metadata g)) g)
        (set_run_metadata (insert2 w run (JObject m') (run_metadata r)) r).
Proof.
  intros [] Hs. constructor; try done. intros w' run'. simpl.
  rewrite !lookup2_insert2. destruct (decide _); [done|]. by apply ag_meta0.
Qed.

(** ** The events of a Run *)

Lemma agree_note w run g r : agree g r → agree (note_run_reference w run g) (note_run_reference w run r).
Proof.
  intros Ha. unfold note_run_reference. cbv zeta.
  rewrite (ag_runs _ _ Ha), (ag_exec _ _ Ha). simpl. rewrite (ag_works _ _ Ha). case_match; auto.
Qed.

Lemma note_idem w run g :
  same_core (note_run_reference w run g) (note_run_reference w run (note_run_reference w run g)).
Proof.
  assert (Hx : ∀ l, existsb (λ id, String.eqb id run) (if existsb (λ id, String.eqb id run) l
    then l else l ++ [run]) = true).
  { intros l. destruct (existsb _ l) eqn:E; [done|]. rewrite existsb_app, E. simpl. by rewrite String.eqb_refl. }
  unfold note_run_reference. cbv zeta. simpl.
  destruct (works g !! w) as [a|] eqn:Hw; simpl; rewrite ?Hw, !lookup_insert_eq; simpl;
    unfold same_core; simpl; rewrite Hx, !insert_insert_eq; split_and!; done.
Qed.

Lemma note_states w run g : run_states (note_run_reference w run g) = run_states g.
Proof. unfold note_run_reference. cbv zeta. by case_match. Qed.
Lemma note_pending w run g : pending_approvals (note_run_reference w run g) = pending_approvals g.
Proof. unfold note_run_reference. cbv zeta. by case_match. Qed.
Lemma note_effects w run g : effect_projections (note_run_reference w run g) = effect_projections g.
Proof. unfold note_run_reference. cbv zeta. by case_match. Qed.
Lemma note_exec w run g : execution_ids (note_run_reference w run g) = <[w := run]> (execution_ids g).
Proof. unfold note_run_reference. cbv zeta. by case_match. Qed.

Lemma validate_run_note w run run' s g :
  validate_run_transition w run s (note_run_reference w run' g) = validate_run_transition w run s g.
Proof.
  unfold validate_run_transition, run_state, pending_approvals_for_run, has_unresolved_uncertain_effect,
    effect_statuses. by rewrite note_states, note_pending, note_effects.
Qed.

(** A legal transition of the live Run is legal for the replay. *)
Lemma validate_agrees w run s g r :
  agree g r → validate_run_transition w run s g = Ok tt → s ≠ WCreated → s ≠ WPlanning →
  validate_run_transition w run (replayed_state s) r = Ok tt.
Proof.
  intros Ha Hv Hc Hp. unfold validate_run_transition in *.
  assert (Hpend : pending_approvals_for_run w run r = pending_approvals_for_run w run g).
  { unfold pending_approvals_for_run. by rewrite (ag_pending _ _ Ha). }
  assert (Heff : has_unresolved_uncertain_effect w r = has_unresolved_uncertain_effect w g).
  { unfold has_unresolved_uncertain_effect, effect_statuses. by rewrite (ag_effects _ _ Ha). }
  rewrite Hpend, Heff. pose proof (ag_states _ _ Ha w run) as Hst.
  destruct (run_state w run g) as [p|], (run_state w run r) as [p'|]; try done.
  destruct (work_can_transition p s) eqn:Ht; [|done]. simpl in Hv.
  destruct p; simpl in Hst; try done; try destruct Hst as [?|Hst]; try done; injection Hst as ->;
    destruct s; try done.
Qed.

(** The projection of a Run event on both sides. *)
Lemma run_event_agrees w run s wait wait' g g' r :
  agree g r → set_run_state w run s wait g = (Ok tt, g') → s ≠ WCreated → s ≠ WPlanning →
  (run_state w run g = Some WReady → work_is_terminal s = false) →
  ∃ r', replay_run w run (replayed_state s) wait' r = (Ok tt, r') ∧ agree g' r'.
Proof.
  intros Ha Hset Hc Hp Hready. unfold replay_run, gbind, gmodify, set_run_state in *. cbv zeta in *.
  pose proof (agree_outside_r _ _ _ (note_idem w run r) (agree_note w run _ _ Ha)) as Han.
  rewrite !validate_run_note in *. unfold run_state at 1 in Hset. unfold run_state at 1.
  rewrite !note_states in *. fold (run_state w run g) in Hset. fold (run_state w run r).
  destruct (negb (is_some (run_state w run g)) && work_is_terminal s) eqn:Hterm; [done|].
  destruct (validate_run_transition w run s g) as [[]|] eqn:Hv; [|done]. injection Hset as <-.
  rewrite (validate_agrees _ _ _ _ _ Ha Hv Hc Hp).
  replace (negb (is_some (run_state w run r)) && work_is_terminal (replayed_state s)) with false.
  2:{ symmetry. pose proof (ag_states _ _ Ha w run) as Hst.
      destruct (run_state w run g) as [p|], (run_state w run r) as [p'|]; try done; try (by destruct s).
      destruct p; try done. specialize (Hready eq_refl). by destruct s. }
  assert (Hss : state_agrees (Some s) (Some (replayed_state s))) by (destruct s; naive_solver).
  pose proof (agree_set_states w run s (replayed_state s) _ _ Han Hss) as Has. rewrite !note_states in Has.
  eexists. split; [reflexivity|].
  eapply agree_core; [| |exact Has]; same_core.
Qed.

(** ** Events both sides project alike *)

Lemma known_run_agrees w run g r : agree g r → known_run w run r = known_run w run g.
Proof. intros Ha. unfold known_run. by rewrite (ag_runs _ _ Ha). Qed.

Lemma waiting_agrees w run g r : agree g r →
  bool_decide (run_state w run r = Some WWaitingApproval) =
  bool_decide (run_state w run g = Some WWaitingApproval).
Proof.
  intros Ha. apply bool_decide_ext. pose proof (ag_states _ _ Ha w run) as Hst.
  destruct (run_state w run g) as [[]|], (run_state w run r) as [[]|]; naive_solver.
Qed.

Lemma approval_run_agrees w o g r : agree g r → approval_event_run_id w o r = approval_event_run_id w o g.
Proof.
  intros Ha. unfold approval_event_run_id, execution_id. rewrite (ag_exec _ _ Ha).
  destruct (ok_or_err _ _); simpl; [|done]. by rewrite (known_run_agrees _ _ _ _ Ha).
Qed.

Lemma remove_pending_agrees w ticket g r : agree g r →
  agree (remove_pending w ticket g) (remove_pending w ticket r).
Proof.
  intros Ha. unfold remove_pending. rewrite (ag_pending _ _ Ha). destruct (pending_approvals g !! w); auto.
Qed.

Lemma requested_agrees w t run tl ar ti am g g' r : agree g r →
  replay_approval_requested w t run tl ar ti am g = (Ok tt, g') →
  ∃ r', replay_approval_requested w t run tl ar ti am r = (Ok tt, r') ∧ agree g' r'.
Proof.
  intros Ha. unfold replay_approval_requested. rewrite (approval_run_agrees _ _ _ _ Ha).
  destruct (is_empty _); [done|]. destruct (approval_event_run_id w run g) as [rn|]; [|done].
  rewrite (waiting_agrees _ _ _ _ Ha). destruct (negb _); [done|]. cbv zeta.
  unfold pending_approval, pending_approvals_for_run. simpl. rewrite (ag_pending _ _ Ha).
  destruct (negb _); [done|]. destruct (lookup2 _ _ _); [done|]. intros [= <-].
  eexists. split; [done|]. simpl. auto.
Qed.

Lemma resolved_agrees w t run ok g g' r : agree g r →
  replay_approval_resolved w t run ok g = (Ok tt, g') →
  ∃ r', replay_approval_resolved w t run ok r = (Ok tt, r') ∧ agree g' r'.
Proof.
  intros Ha. unfold replay_approval_resolved, pending_approval. destruct (is_empty _); [done|].
  rewrite (ag_pending _ _ Ha).
  replace (match run with Some rn => negb (known_run w rn r) | None => false end) with
    (match run with Some rn => negb (known_run w rn g) | None => false end);
    [|destruct run; by rewrite ?(known_run_agrees _ _ _ _ Ha)].
  destruct (match run with Some _ => _ | None => _ end); [done|].
  destruct (lookup2 _ _ _ ≫= value_run_id) as [ex|]; rewrite ?(waiting_agrees _ _ _ _ Ha);
    (match goal with |- match ?x with _ => _ end = _ → _ => destruct x as [[]|]; [|done] end);
    intros [= <-]; eexists; (split; [reflexivity|]);
    (eapply agree_core; [| |by apply (remove_pending_agrees w t g r)]); same_core.
Qed.

Lemma effects_agree (env : WorkEventEnvelope) g g' r : agree g r →
  match we_event env with
  | Domain (EffectAttempted _ _ _) | Domain (EffectObserved _ _) | Domain (EffectVerified _ _)
  | Domain (EffectUncertain _ _ _) | Domain (EffectReconciled _ _ _) => true
  | _ => false
  end = true →
  replay_event env g = (Ok tt, g') → ∃ r', replay_event env r = (Ok tt, r') ∧ agree g' r'.
Proof.
  intros Ha He. unfold replay_event. cbv zeta. destruct (is_empty _); [done|]. rewrite (ag_works _ _ Ha).
  destruct (_ && _); [done|]. destruct (we_event env) as [d|?|?|?]; try done.
  destruct d; try done; unfold apply_effect_attempt, apply_effect_observed, apply_effect_verified,
    apply_effect_uncertain, apply_effect_reconciled, put_effect_at, effect_status; cbv zeta; simpl;
    rewrite !(ag_effects _ _ Ha); repeat (case_match; try done); intros [= <-]; eexists; (split; [done|]);
    simpl; auto.
Qed.

Lemma project_agrees w e b b' n n' g g' r : agree g r →
  match e with
  | Domain (DelegationLeaseFact _ _) | Domain (SubagentLeaseReclaimed _) => false | _ => true
  end = true →
  project_p69g2_event w e b n g = (Ok tt, g') →
  ∃ r', project_p69g2_event w e b' n' r = (Ok tt, r') ∧ agree g' r'.
Proof.
  intros Ha He. unfold project_p69g2_event, gbind, glift. destruct (validate_p69g2_event w e); [|done].
  destruct e as [d|?|?|?]; [destruct d; try done|..]; cbv beta iota delta [gmodify gret];
    intros [= <-]; eexists; (split; [done|]); rewrite ?(ag_sets _ _ Ha), ?(ag_refusals _ _ Ha), ?(ag_beats _ _ Ha);
    auto.
Qed.

Lemma point_binding_agrees w id g r : agree g r → agree (point_binding w id g) (point_binding w id r).
Proof.
  intros Ha. unfold point_binding. cbv zeta. simpl. rewrite (ag_works _ _ Ha), (ag_active _ _ Ha).
  destruct (works g !! w); auto.
Qed.

Lemma put_binding_agrees id b g r : agree g r → agree (put_binding id b g) (put_binding id b r).
Proof. intros Ha. unfold put_binding. rewrite (ag_bindings _ _ Ha). auto. Qed.
#[local] Hint Resolve point_binding_agrees put_binding_agrees : core.

Lemma runtime_agrees w e n g g' r : agree g r → replay_runtime w e n g = (Ok tt, g') →
  ∃ r', replay_runtime w e n r = (Ok tt, r') ∧ agree g' r'.
Proof.
  intros Ha. unfold replay_runtime, owned_binding. rewrite (ag_bindings _ _ Ha).
  destruct e; try (intros [= <-]; by exists r);
    try (destruct (_ <-? _;; _) as [b|]; [|done]); try (case_match; [done|]);
    intros [= <-]; eexists; (split; [done|]); auto.
  simpl. rewrite (ag_active _ _ Ha). case_bool_decide; auto.
Qed.

(** ** Updates of a Work *)

(** A computation that succeeds alike, with the same answer, on both sides. *)
Definition congruent {A} (m : M A) : Prop :=
  ∀ g r a g', agree g r → m g = (Ok a, g') → ∃ r', m r = (Ok a, r') ∧ agree g' r'.

Lemma congruent_ret {A} (a : A) : congruent (gret a).
Proof. intros g r a' g' Ha [= -> <-]. by exists r. Qed.
Lemma congruent_lift {A} (x : result A string) : congruent (glift x).
Proof. intros g r a g' Ha [= -> <-]. by exists r. Qed.
Lemma congruent_guard b e : congruent (gguard b e).
Proof. intros g r a g' Ha. destruct b; [done|]. intros [= <- <-]. by exists r. Qed.
Lemma congruent_read {A} (f : WorkGateway → result A string) :
  (∀ g r, agree g r → f r = f g) → congruent (λ g, (f g, g)).
Proof. intros Hf g r a g' Ha [= Hx <-]. exists r. by rewrite (Hf g r Ha), Hx. Qed.
Lemma congruent_modify f : (∀ g r, agree g r → agree (f g) (f r)) → congruent (gmodify f).
Proof. intros Hf g r [] g' Ha [= <-]. eexists. split; [done|]. auto. Qed.
Lemma congruent_bind {A B} (m : M A) (k : A → M B) :
  congruent m → (∀ a, congruent (k a)) → congruent (gbind m k).
Proof.
  intros Hm Hk g r b g' Ha. unfold gbind. destruct (m g) as [[a|?] g1] eqn:E; [|done]. intros Hkk.
  destruct (Hm _ _ _ _ Ha E) as (r1 & -> & Ha1). by apply (Hk a g1).
Qed.

Lemma merge_run_agrees incoming m m' o :
  (∀ k, k ≠ "checkpoint" → obj_get k m = obj_get k m') → obj_get "checkpoint" incoming = None →
  merge_run_fields incoming m = (Ok tt, o) →
  ∃ o', merge_run_fields incoming m' = (Ok tt, o') ∧ ∀ k, k ≠ "checkpoint" → obj_get k o = obj_get k o'.
Proof.
  revert m m'. induction incoming as [|[k v] incoming IH]; intros m m' Hm Hc; simpl.
  - intros [= <-]. by exists m'.
  - simpl in Hc. destruct (String.eqb k "checkpoint") eqn:Hk; [done|]. apply String.eqb_neq in Hk.
    rewrite <- (Hm k Hk). destruct (obj_get k m) as [ex|].
    + destruct (bool_decide (ex = v)); [|done]. by apply IH.
    + apply IH; [|done]. intros k' Hk'. rewrite !obj_get_insert. case_match; [done|]. by apply Hm.
Qed.

Lemma run_patch_agrees w m : obj_get "checkpoint" m = None → congruent (apply_run_patch w (JObject m)).
Proof.
  intros Hc g r a g' Ha. unfold apply_run_patch. simpl as_object. cbv iota.
  destruct (_ ≫= as_str) as [run|]; [|done]. cbv zeta.
  pose proof (agree_note w run _ _ Ha) as Han.
  set (g1 := note_run_reference w run g) in *. set (r1 := note_run_reference w run r) in *.
  destruct (ag_meta _ _ Han w run) as (o & o' & Ho & Ho' & Hk). rewrite Ho, Ho'. simpl as_object. cbv iota.
  destruct (merge_run_fields m o) as [res n] eqn:E.
  intros [= -> <-]. destruct a. destruct (merge_run_agrees _ _ _ _ Hk Hc E) as (n' & -> & Hn).
  eexists. split; [reflexivity|].
  apply (agree_set_meta w run n n' (set_run_metadata (insert2 w run (JObject o) (run_metadata g1)) g1)
    (set_run_metadata (insert2 w run (JObject o') (run_metadata r1)) r1)); [|by exists n, n'].
  apply agree_set_meta; [done|]. by exists o, o'.
Qed.

(** The patches a bound Run is described with. *)
Definition patch_ok (patch : Value) : Prop :=
  match json_get "run" patch with
  | None => True
  | Some run => ∃ m, run = JObject m ∧ obj_get "checkpoint" m = None
  end.

Lemma update_agrees w patch : patch_ok patch → congruent (apply_work_update w patch).
Proof.
  intros Hp. unfold apply_work_update. apply congruent_bind.
  { apply (congruent_read (λ g, ok_or_err (works g !! w) ("WorkUpdated references unknown Work `" +:+ w +:+ "`"))). intros g r Ha. by rewrite (ag_works _ _ Ha). }
  intros a. apply congruent_bind.
  { destruct (json_get "executionId" patch); [|apply congruent_ret].
    repeat (apply congruent_bind; [first [apply congruent_lift | apply congruent_guard
      | by apply congruent_modify, agree_note]|intros ?]). apply congruent_ret. }
  intros a'. apply congruent_bind.
  { unfold patch_ok in Hp. destruct (json_get "run" patch); [|apply congruent_ret].
    destruct Hp as (m & -> & Hm). by apply run_patch_agrees. }
  intros _. do 4 (apply congruent_bind; [apply congruent_lift|intros ?]).
  apply congruent_modify. intros g r Ha. rewrite !(ag_works _ _ Ha). case_bool_decide; auto.
Qed.

(** ** Well-formed gateways *)

(** A pending approval: a request of a known Run that waits for approval. *)
Definition pending_ok (w ticket : string) (v : Value) (g : WorkGateway) : Prop :=
  ∃ run tool args tier at_ms, v = approval_value ticket run tool args tier at_ms ∧
  known_run w run g = true ∧ run_state w run g = Some WWaitingApproval.

Record work_ok (ws : gmap string WorkAddress) (runs : gmap string (list string)) (active : gmap string string)
    (w : string) (a : WorkAddress) : Prop := {
  wk_id : wd_work_id a = w;
  wk_named : w ≠ "";
  wk_owner : wd_session_kind a = SkAutomation → is_Some (wd_session_id a);
  wk_parent : ∀ p, wd_parent_work_id a = Some p → ∃ pa, ws !! p = Some pa ∧
    wd_session_id pa = wd_session_id a ∧ wd_session_kind pa = wd_session_kind a;
  wk_run : ∀ run, wd_current_run_id a = Some run → existsb (String.eqb run) (default [] (runs !! w)) = true;
  wk_binding : ∀ b, active !! w = Some b → wd_binding_id a = Some b
}.

Record binding_ok (ws : gmap string WorkAddress) (active : gmap string string) (id : string) (b : AgentBinding) : Prop := {
  bk_id : ab_binding_id b = id;
  bk_owner : ∃ a, ws !! ab_work_id b = Some a ∧ wd_session_id a = Some (ab_session_id b);
  bk_active : ab_state b = BlActive → active !! ab_work_id b = Some id
}.

Record graph_ok (g : WorkGateway) : Prop := {
  wf_works w a : works g !! w = Some a → work_ok (works g) (run_ids g) (active_binding_ids g) w a;
  wf_bindings id b : agent_bindings g !! id = Some b → binding_ok (works g) (active_binding_ids g) id b;
  wf_pointer w id : active_binding_ids g !! w = Some id →
    ∃ b, agent_bindings g !! id = Some b ∧ ab_work_id b = w ∧ ab_state b = BlActive;
  wf_exclusive i j b c : agent_bindings g !! i = Some b → agent_bindings g !! j = Some c →
    ab_state b = BlActive → ab_state c = BlActive → ab_session_id b = ab_session_id c → i = j;
  wf_pending w m : pending_approvals g !! w = Some m →
    is_Some (works g !! w) ∧ m ≠ ∅ ∧ ∀ ticket v, m !! ticket = Some v → pending_ok w ticket v g;
  wf_effects w m : effect_projections g !! w = Some m →
    is_Some (works g !! w) ∧ ∀ id e, m !! id = Some e → ef_effect_id e = id ∧ id ≠ ""
}.

(** A live gateway moreover knows the state of every current Run. *)
Record wf (g : WorkGateway) : Prop := {
  wf_graph : graph_ok g;
  wf_exec w run : execution_ids g !! w = Some run → is_Some (run_state w run g)
}.

Lemma wf_fresh : wf gateway_fresh.
Proof. by repeat constructor. Qed.

(** ** A well-formed journal opens *)

Lemma check_all_ok {A} (f : A → result unit string) l : (∀ a, a ∈ l → f a = Ok tt) → check_all f l = Ok tt.
Proof.
  induction l as [|a l IH]; intros Hl; [done|]. simpl. rewrite (Hl a) by left. simpl.
  apply IH. intros b Hb. apply Hl. by right.
Qed.

Lemma elem_of_btree {A} (m : gmap string A) k a : (k, a) ∈ btree_list m ↔ m !! k = Some a.
Proof. unfold btree_list. by rewrite (sort_by_perm _ _), elem_of_map_to_list. Qed.

Lemma opt_eqb_refl o : opt_eqb o o = true.
Proof. by apply bool_decide_eq_true. Qed.

Lemma validate_works_ok g : graph_ok g → check_all (validate_work g) (btree_list (works g)) = Ok tt.
Proof.
  intros Hg. apply check_all_ok. intros [w a] Hin. apply elem_of_btree in Hin.
  destruct (wf_works _ Hg _ _ Hin) as [Hid Hne Hown Hpar Hrun Hbind].
  unfold validate_work. rewrite Hid, String.eqb_refl. simpl.
  destruct (bool_decide (wd_session_kind a = SkAutomation) && negb (is_some (wd_session_id a))) eqn:Ho.
  { apply andb_true_iff in Ho as [Ha Hs]. apply bool_decide_eq_true in Ha. by destruct (Hown Ha) as [? E]; rewrite E in Hs. }
  match goal with |- (_ <-? ?x;; _) = _ => assert (x = Ok tt) as -> end; simpl.
  { destruct (wd_parent_work_id a) as [p|]; [|done]. destruct (Hpar p eq_refl) as (pa & Hpa & Hs & Hk).
    rewrite Hpa. simpl. by rewrite Hs, Hk, opt_eqb_refl, bool_decide_eq_true_2. }
  match goal with |- (_ <-? ?x;; _) = _ => assert (x = Ok tt) as -> end; simpl.
  { destruct (wd_current_run_id a) as [run|]; [|done]. unfold known_run. by rewrite (Hrun run eq_refl). }
  match goal with |- (_ <-? ?x;; _) = _ => assert (x = Ok tt) as -> end; simpl.
  { destruct (active_binding_ids g !! w) as [b|] eqn:Hb; [|done]. rewrite (Hbind b eq_refl), opt_eqb_refl.
    by destruct (wf_pointer _ Hg _ _ Hb) as (x & -> & _). }
  apply check_all_ok. intros b Hb. destruct (String.eqb (ab_work_id b) w) eqn:Hw; [|done]. simpl.
  apply String.eqb_eq in Hw as <-. apply list_elem_of_fmap in Hb as ([id b'] & -> & Hb).
  apply elem_of_map_iter in Hb. simpl in *. destruct (wf_bindings _ Hg _ _ Hb) as [Hbid (a' & Ha' & Hsess) Hact].
  rewrite Hin in Ha'. injection Ha' as <-. rewrite Hsess, opt_eqb_refl. simpl.
  destruct (bool_decide (ab_state b' = BlActive)) eqn:Hst; [|done]. apply bool_decide_eq_true in Hst.
  by rewrite (Hact Hst), Hbid, opt_eqb_refl.
Qed.

Lemma exclusive_at_most_one g session : graph_ok g → length (active_bindings_of session g) ≤ 1.
Proof.
  intros Hg. unfold active_bindings_of.
  assert (Hnd : NoDup (map_iter (agent_bindings g)).*1) by (rewrite map_iter_perm; apply NoDup_fst_map_to_list).
  assert (Hin : ∀ e, e ∈ map_iter (agent_bindings g) → agent_bindings g !! e.1 = Some e.2)
    by (intros [i b]; by rewrite elem_of_map_iter).
  revert Hnd Hin. generalize (map_iter (agent_bindings g)). intros l.
  induction l as [|[i b] l IH]; intros Hnd Hin; simpl; [lia|]. simpl in Hnd. apply NoDup_cons in Hnd as [Hni Hnd].
  specialize (IH Hnd (λ e He, Hin e (list_elem_of_further _ _ _ He))).
  destruct (bool_decide (ab_state b = BlActive) && String.eqb (ab_session_id b) session) eqn:Hb; [|done].
  apply andb_true_iff in Hb as [Hb Hs]. apply bool_decide_eq_true in Hb. apply String.eqb_eq in Hs.
  match goal with |- length (_ :: ?f) ≤ 1 => assert (f = []) as -> end; [|done].
  destruct (List.filter _ _) as [|c f] eqn:E; [done|]. exfalso.
  assert (Hc : In c (List.filter (λ b, bool_decide (ab_state b = BlActive) && String.eqb (ab_session_id b) session)
    l.*2)) by (rewrite E; by left).
  apply filter_In in Hc as [Hc Hcb]. apply andb_true_iff in Hcb as [Hca Hcs].
  apply bool_decide_eq_true in Hca. apply String.eqb_eq in Hcs.
  apply list_elem_of_In, list_elem_of_fmap in Hc as ([j c'] & -> & Hj). simpl in *.
  apply Hni. rewrite (wf_exclusive _ Hg i j b c'); [by apply list_elem_of_fmap_2' with (j, c')|..]; try done.
  - apply (Hin (i, b)). by left.
  - apply (Hin (j, c')). by right.
  - congruence.
Qed.

Lemma validate_pending_ok g w t v : pending_ok w t v g → validate_pending g w (t, v) = Ok tt.
Proof.
  intros (run & tl & ah & rt & n & -> & Hk & Hs). unfold validate_pending.
  destruct tl, ah, rt, n; simpl; rewrite opt_eqb_refl; simpl; rewrite Hk; simpl;
    by rewrite bool_decide_eq_true_2.
Qed.

Lemma validate_graph_ok g : graph_ok g → validate_replayed_graph g = Ok tt.
Proof.
  intros Hg. unfold validate_replayed_graph. rewrite validate_works_ok by done. simpl.
  rewrite check_all_ok; [simpl|].
  2:{ intros session _. pose proof (exclusive_at_most_one g session Hg) as Hle.
      destruct (1 <? _)%nat eqn:E; [|done]. apply Nat.ltb_lt in E. lia. }
  rewrite check_all_ok; [simpl|].
  2:{ intros [w m] Hin. apply elem_of_btree in Hin. destruct (wf_pending _ Hg _ _ Hin) as ([a Ha] & Hne & Hall).
      simpl. rewrite Ha. simpl. rewrite bool_decide_eq_false_2 by done.
      apply check_all_ok. intros [t v] Ht. apply elem_of_btree in Ht. by apply validate_pending_ok, Hall. }
  apply check_all_ok. intros [w m] Hin. apply elem_of_btree in Hin.
  destruct (wf_effects _ Hg _ _ Hin) as ([a Ha] & Hall). simpl. rewrite Ha. simpl.
  apply check_all_ok. intros e He. apply list_elem_of_fmap in He as ([id e'] & -> & He).
  apply elem_of_btree in He. simpl. destruct (Hall _ _ He) as [-> Hne]. by destruct id.
Qed.

Lemma graph_ok_agrees g r : agree g r → graph_ok g → graph_ok r.
Proof.
  intros Ha [Hw Hb Hp He Hpend Heff]. assert (Hst : ∀ w run, run_state w run g = Some WWaitingApproval →
    run_state w run r = Some WWaitingApproval).
  { intros w run Hs. pose proof (ag_states _ _ Ha w run) as Hx. by rewrite Hs in Hx. }
  destruct Ha. constructor; try (rewrite ?ag_active0, ?ag_bindings0; by eauto).
  - intros w a. rewrite ag_works0. intros Hwa. destruct (Hw _ _ Hwa).
    constructor; by rewrite ?ag_works0, ?ag_active0, ?ag_runs0.
  - intros id b. rewrite ag_bindings0. intros Hib. destruct (Hb _ _ Hib).
    constructor; by rewrite ?ag_works0, ?ag_active0.
  - intros w m. rewrite ag_pending0, ag_works0. intros Hm. destruct (Hpend _ _ Hm) as (? & ? & Hall).
    split_and!; [done..|]. intros t v Hv. destruct (Hall _ _ Hv) as (run & tl & ah & rt & n & -> & Hk & Hs).
    exists run, tl, ah, rt, n. split_and!; [done| |by apply Hst]. unfold known_run. by rewrite ag_runs0.
  - rewrite ag_effects0, ag_works0. done.
Qed.

(** The journal of a synchronised, well-formed gateway opens. *)
Lemma synced_reopens g lines : wf g → synced g → wg_journal g = Some lines →
  ∃ r, gateway_open lines = Ok r ∧ agree g r.
Proof.
  intros Hg Hs Hj. destruct (sy_replay g Hs lines Hj (Some lines)) as (r & Hr & Ha).
  exists r. split; [|done]. unfold gateway_open. rewrite Hr. simpl.
  rewrite validate_graph_ok; [done|]. by eapply graph_ok_agrees, wf_graph.
Qed.
End replay.
