(* ===== verification/WorkReopen.v ===== *)
(** * Reopening after the operations of the core

    Every successful operation of the core keeps a gateway well-formed and in
    step with its journal, so that the journal opens, to a gateway that agrees
    with the live one. *)
From S2P Require Import Order Prelude Json LeaseTypes Lease WorkTypes WorkEvents Work.
From S2P Require Import WorkOps WorkRuntime WorkDelegation WorkLog WorkFacts WorkReplay.

Section reopen.
Context `{RenderFact} `{RenderChangeSet} `{HashIter} `{!HashIterLaws} `{WorkWorld} `{RenderContext}.

(** ** Well-formedness under updates *)

Lemma graph_ok_core g g' : same_core g g' → graph_ok g → graph_ok g'.
Proof.
  unfold same_core. intros Hc [Hw Hb Hp He Hpend Heff]. destruct_and! Hc.
  repeat match goal with E : _ g' = _ g |- _ => symmetry in E end.
  assert (Hpo : ∀ w t v, pending_ok w t v g → pending_ok w t v g').
  { intros w t v (run & tl & ah & rt & n & -> & Hk & Hs). exists run, tl, ah, rt, n.
    unfold known_run, run_state in *. split_and!; congruence. }
  constructor; repeat match goal with E : _ g = _ g' |- _ => rewrite <- E; clear E end; try done.
  intros w m Hm. destruct (Hpend w m Hm) as (? & ? & Hall). split_and!; auto.
Qed.

Lemma wf_core g g' : same_core g g' → wf g → wf g'.
Proof.
  intros Hc [Hg Hx]. constructor; [by eapply graph_ok_core|].
  unfold same_core in Hc. destruct_and! Hc. intros w run Hr. unfold run_state.
  replace (run_states g') with (run_states g) by congruence. apply Hx. congruence.
Qed.

Lemma wf_logged env g : wf g → wf (logged env g).
Proof. intros [[] Hx]. constructor; [by constructor|done]. Qed.

Lemma graph_ok_set_effects m g : graph_ok g →
  (∀ w es, m !! w = Some es → is_Some (works g !! w) ∧ ∀ id e, es !! id = Some e → ef_effect_id e = id ∧ id ≠ "") →
  graph_ok (set_effects m g).
Proof. intros [] Hm. by constructor. Qed.

Lemma graph_ok_set_pending m g : graph_ok g →
  (∀ w ps, m !! w = Some ps → is_Some (works g !! w) ∧ ps ≠ ∅ ∧ ∀ t v, ps !! t = Some v → pending_ok w t v g) →
  graph_ok (set_pending m g).
Proof. intros [] Hm. by constructor. Qed.

(** Works that keep the session and kind they are owned with. *)
Definition same_scope (ws ws' : gmap string WorkAddress) : Prop :=
  ∀ w a, ws !! w = Some a → ∃ a', ws' !! w = Some a' ∧
    wd_session_id a' = wd_session_id a ∧ wd_session_kind a' = wd_session_kind a.

Lemma same_scope_insert ws w a a' : ws !! w = Some a → wd_session_id a' = wd_session_id a →
  wd_session_kind a' = wd_session_kind a → same_scope ws (<[w := a']> ws).
Proof.
  intros Ha Hs Hk x b Hx. destruct (decide (w = x)) as [<-|Hne].
  - exists a'. rewrite lookup_insert_eq. by simplify_eq.
  - exists b. by rewrite lookup_insert_ne.
Qed.

Lemma work_ok_scope ws ws' runs act act' w a : same_scope ws ws' → work_ok ws runs act w a →
  (∀ b, act' !! w = Some b → act !! w = Some b) → work_ok ws' runs act' w a.
Proof.
  intros Hsc [] Hact. constructor; try done; [|by auto].
  intros p Hp. destruct (wk_parent p Hp) as (pa & Hpa & <- & <-). by apply Hsc.
Qed.

Lemma owner_scope ws ws' w s : same_scope ws ws' →
  (∃ a, ws !! w = Some a ∧ wd_session_id a = Some s) → ∃ a, ws' !! w = Some a ∧ wd_session_id a = Some s.
Proof. intros Hsc (a & Ha & Hs). destruct (Hsc _ _ Ha) as (a' & ? & ? & _). exists a'. split; congruence. Qed.

(** The clauses on Works and bindings suffice where the scopes stay. *)
Lemma graph_ok_rescope g g' : graph_ok g → same_scope (works g) (works g') →
  pending_approvals g' = pending_approvals g → effect_projections g' = effect_projections g →
  run_ids g' = run_ids g → run_states g' = run_states g →
  (∀ w a, works g' !! w = Some a → work_ok (works g') (run_ids g') (active_binding_ids g') w a) →
  (∀ id b, agent_bindings g' !! id = Some b → binding_ok (works g') (active_binding_ids g') id b) →
  (∀ w id, active_binding_ids g' !! w = Some id →
     ∃ b, agent_bindings g' !! id = Some b ∧ ab_work_id b = w ∧ ab_state b = BlActive) →
  (∀ i j b c, agent_bindings g' !! i = Some b → agent_bindings g' !! j = Some c →
     ab_state b = BlActive → ab_state c = BlActive → ab_session_id b = ab_session_id c → i = j) →
  graph_ok g'.
Proof.
  intros [Hw Hb Hp He Hpend Heff] Hsc Hpe Hef Hri Hrs. constructor; try done; rewrite ?Hpe, ?Hef.
  - intros w m Hm. destruct (Hpend w m Hm) as ([a Ha] & ? & Hall). split_and!; [|done|].
    + destruct (Hsc _ _ Ha) as (a' & ? & _). by eexists.
    + intros t v Hv. destruct (Hall t v Hv) as (run & tl & ah & rt & n & -> & Hk & Hs).
      exists run, tl, ah, rt, n. unfold known_run, run_state in *. by rewrite Hri, Hrs.
  - intros w m Hm. destruct (Heff w m Hm) as ([a Ha] & ?). split; [|done].
    destruct (Hsc _ _ Ha) as (a' & ? & _). by eexists.
Qed.

(** A Work that keeps its scope and its place in the graph. *)
Lemma graph_ok_update_work w a a' g : graph_ok g → works g !! w = Some a →
  wd_work_id a' = wd_work_id a → wd_session_id a' = wd_session_id a →
  wd_session_kind a' = wd_session_kind a → wd_parent_work_id a' = wd_parent_work_id a →
  (∀ run, wd_current_run_id a' = Some run → known_run w run g = true) →
  (∀ b, active_binding_ids g !! w = Some b → wd_binding_id a' = Some b) →
  graph_ok (set_works (<[w := a']> (works g)) g).
Proof.
  intros Hg Ha Hid Hs Hk Hpar Hrun Hact.
  pose proof (same_scope_insert (works g) w a a' Ha Hs Hk) as Hsc.
  apply (graph_ok_rescope g); try done; simpl; [| |by apply wf_pointer|by apply wf_exclusive].
  - intros x b. rewrite lookup_insert_Some. intros [[<- <-]|[Hne Hx]].
    + destruct (work_ok_scope _ _ _ _ (active_binding_ids g) _ _ Hsc (wf_works _ Hg _ _ Ha)) as []; [done|].
      constructor; rewrite ?Hid, ?Hs, ?Hk, ?Hpar; done.
    + eapply work_ok_scope; [exact Hsc|by apply wf_works|done].
  - intros id b Hib. destruct (wf_bindings _ Hg id b Hib). constructor; [done|by apply (owner_scope (works g))|done].
Qed.

Lemma note_run_ids w run g : run_ids (note_run_reference w run g) =
  <[w := let runs := default [] (run_ids g !! w) in
         if existsb (λ id, String.eqb id run) runs then runs else runs ++ [run]]> (run_ids g).
Proof. unfold note_run_reference. cbv zeta. by case_match. Qed.

Lemma note_works w run g : works (note_run_reference w run g) =
  match works g !! w with Some a => <[w := with_run (Some run) a]> (works g) | None => works g end.
Proof. unfold note_run_reference. cbv zeta. simpl. by destruct (works g !! w). Qed.

Lemma known_note w run w' run' g :
  known_run w' run' (note_run_reference w run g) = true ↔ (w' = w ∧ run' = run) ∨ known_run w' run' g = true.
Proof.
  unfold known_run. rewrite note_run_ids, !existsb_eqb_elem. destruct (decide (w' = w)) as [->|Hne].
  - rewrite lookup_insert_eq. simpl. case_match eqn:E.
    + apply existsb_exists in E as (y & Hy & E). apply String.eqb_eq in E as ->. apply list_elem_of_In in Hy.
      naive_solver.
    + rewrite elem_of_app, list_elem_of_singleton. naive_solver.
  - rewrite lookup_insert_ne by done. naive_solver.
Qed.

Lemma graph_ok_note w run g : graph_ok g → graph_ok (note_run_reference w run g).
Proof.
  intros Hg.
  assert (Hrefs : graph_ok (set_execution_ids (execution_ids (note_run_reference w run g))
    (set_run_ids (run_ids (note_run_reference w run g)) g))).
  { assert (Hk : ∀ w' run', known_run w' run' g = true → known_run w' run'
      (set_execution_ids (execution_ids (note_run_reference w run g))
        (set_run_ids (run_ids (note_run_reference w run g)) g)) = true).
    { intros w' run' Hk. change (known_run w' run' (note_run_reference w run g) = true).
      apply known_note. by right. }
    destruct Hg as [Hw Hb Hp He Hpend Heff]. constructor; try done.
    - intros x a Hx. destruct (Hw x a Hx). constructor; try done. intros r Hr. exact (Hk x r (wk_run r Hr)).
    - intros x m Hm. destruct (Hpend x m Hm) as (? & ? & Hall). split_and!; [done..|].
      intros t v Hv. destruct (Hall t v Hv) as (r & tl & ah & rt & n & -> & Hkr & Hs).
      exists r, tl, ah, rt, n. auto. }
  destruct (works g !! w) as [a|] eqn:Hw.
  - pose proof (graph_ok_update_work w a (with_run (Some run) a) _ Hrefs Hw eq_refl eq_refl eq_refl eq_refl) as Hu.
    eapply graph_ok_core; [|apply Hu].
    + unfold note_run_reference, same_core. cbv zeta. simpl. by rewrite Hw.
    + simpl. intros r [= <-]. change (known_run w run (note_run_reference w run g) = true).
      apply known_note. by left.
    + simpl. intros b Hb. by apply (wk_binding _ _ _ _ _ (wf_works _ Hg _ _ Hw)).
  - eapply graph_ok_core; [|exact Hrefs]. unfold note_run_reference, same_core. cbv zeta. simpl. by rewrite Hw.
Qed.

(** A transition leaves WaitingApproval only when nothing is pending for the
    Run, so that what is pending stays attached. *)
Lemma graph_ok_set_states w run s g :
  graph_ok g → validate_run_transition w run s g = Ok tt →
  graph_ok (set_run_states (insert2 w run s (run_states g)) g).
Proof.
  intros [Hw Hb Hp He Hpend Heff] Hv. constructor; try done.
  intros x m Hm. destruct (Hpend x m Hm) as (? & ? & Hall). split_and!; [done..|].
  intros t v Ht. destruct (Hall t v Ht) as (r & tl & ah & rt & n & -> & Hk & Hs).
  exists r, tl, ah, rt, n. split_and!; [done..|]. unfold run_state. simpl. rewrite lookup2_insert2.
  destruct (decide (x = w ∧ r = run)) as [[-> ->]|]; [|exact Hs]. f_equal.
  unfold validate_run_transition in Hv. rewrite Hs in Hv.
  destruct (negb (work_can_transition WWaitingApproval s)); [done|].
  destruct (decide (s = WWaitingApproval)) as [|Hne]; [done|exfalso].
  rewrite (bool_decide_eq_true_2 (WWaitingApproval = WWaitingApproval)), (bool_decide_eq_false_2 _ Hne),
    bool_decide_eq_false_2 in Hv; [done| |done].
  unfold pending_approvals_for_run. simpl in Hm. rewrite Hm. intros Hnil.
  assert (Hin : In (t, approval_value t run tl ah rt n)
    (List.filter (λ e, bool_decide (value_run_id e.2 = Some run)) (btree_list m))).
  { apply filter_In. split; [by apply list_elem_of_In, elem_of_btree|]. by apply bool_decide_eq_true. }
  by rewrite Hnil in Hin.
Qed.

Lemma set_run_state_same w run s wait g g' : set_run_state w run s wait g = (Ok tt, g') →
  validate_run_transition w run s g = Ok tt ∧
  (run_state w run g = None → work_is_terminal s = false) ∧
  same_core (set_run_states (insert2 w run s (run_states (note_run_reference w run g)))
    (note_run_reference w run g)) g'.
Proof.
  unfold set_run_state. cbv zeta. rewrite validate_run_note. unfold run_state at 1. rewrite note_states.
  fold (run_state w run g). destruct (negb _ && _) eqn:Ht; [done|].
  destruct (validate_run_transition w run s g) as [[]|]; [|done]. intros [= <-]. split_and!; [done| |same_core].
  intros Hn. rewrite Hn in Ht. by destruct (work_is_terminal s).
Qed.

Lemma wf_set_run_state w run s wait g g' :
  wf g → set_run_state w run s wait g = (Ok tt, g') → wf g'.
Proof.
  intros [Hg Hx] Hset. destruct (set_run_state_same _ _ _ _ _ _ Hset) as (Hv & _ & Hc).
  eapply wf_core; [exact Hc|]. constructor.
  - apply graph_ok_set_states; [by apply graph_ok_note|]. by rewrite validate_run_note.
  - simpl. intros w' run'. unfold run_state. simpl. rewrite note_exec, note_states, lookup2_insert2, lookup_insert_Some.
    intros [[<- <-]|[Hne Hr]]; [by rewrite decide_True|]. rewrite decide_False by naive_solver. by apply Hx.
Qed.

(** ** The invariant *)

(** Well-formed, and in step with the journal. *)
Record good (g : WorkGateway) : Prop := { good_wf : wf g; good_synced : synced g }.

Lemma good_fresh : good gateway_fresh.
Proof. constructor; [exact wf_fresh|exact synced_fresh]. Qed.

Lemma good_outside g g' : same_core g g' → same_log g g' → good g → good g'.
Proof.
  intros Hc Hl [Hw [Hlog Hr]]. constructor; [by eapply wf_core|]. constructor; [by eapply same_log_ok|].
  intros lines Hj file. destruct Hl as (Hj' & _). rewrite Hj' in Hj.
  destruct (Hr lines Hj file) as (r & Hopen & Ha). exists r. split; [done|].
  eapply agree_core; [exact Hc|apply same_core_refl|done].
Qed.

(** Events no append projects. *)
Definition unprojected (e : WorkEvent) : bool :=
  match e with
  | Domain (WorkUpdated _) | Domain (FileChangeSetCaptured _) | Domain (FileChangeSetSettled _)
  | Domain (DelegationRefused _) | Domain (DelegationLeaseFact _ _) | Domain (SubagentHeartbeat _ _)
  | Domain (SubagentLeaseReclaimed _) => false
  | _ => true
  end.

Lemma appended_unprojected w e n g g' : unprojected e = true → appended w e n g = (Ok tt, g') → g' = g.
Proof.
  intros He. unfold appended, project_p69g2_event, gbind.
  destruct e as [d|?|?|?]; [destruct d; try done|..]; by intros [= <-].
Qed.

(** What a successful append did. *)
Record appending (w : string) (e : WorkEvent) (g : WorkGateway) (env : WorkEventEnvelope) (gb g1 : WorkGateway)
    : Prop := {
  ap_work : we_work_id env = w;
  ap_event : we_event env = e;
  ap_sequence : we_sequence env = next_seq g;
  ap_known : is_Some (works g !! w);
  ap_named : w ≠ "";
  ap_logged : same_core (logged env g) g1;
  ap_wf : wf g1;
  ap_then : appended w e (next_seq g) g1 = (Ok tt, gb)
}.

Lemma append_split g w e causal env gb :
  log_ok g → wf g → append w e causal g = (Ok env, gb) → ∃ g1, appending w e g env gb g1.
Proof.
  intros Hlog Hw Happ. destruct (lo_some g Hlog) as [lines Hj].
  destruct (append_cases w e causal g lines Hj) as [(er & Her & _)|[(er & n & _ & Her & _)|[Had Heq]]];
    [rewrite Happ in Her; done..|]. rewrite Heq in Happ. unfold gbind in Happ.
  destruct (appended _ _ _ _) as [[[]|?] ?] eqn:E; [|done]. injection Happ as <- <-.
  unfold admit_event in Had. destruct (works g !! w) as [a|] eqn:Ha; [|done].
  exists (written lines (envelope_of w e causal (next_seq g)) g). constructor; try done.
  - by apply (wk_named _ _ _ _ _ (wf_works _ (wf_graph _ Hw) _ _ Ha)).
  - by apply (wf_core (logged (envelope_of w e causal (next_seq g)) g)), wf_logged.
Qed.

(** One append from a good gateway. *)
Lemma good_append g w e causal gb env g' :
  good g → append w e causal g = (Ok env, gb) → same_log gb g' → wf g' →
  (∀ r, is_Some (works r !! w) → agree (logged env g) r →
     ∃ r', replay_event env r = (Ok tt, r') ∧ agree g' r') →
  good g'.
Proof.
  intros [Hw Hs] Happ Hl Hw' Hreplay. constructor; [done|].
  eapply synced_append; [exact Hs|apply same_log_refl|exact Happ|exact Hl|].
  intros g1 r [a Ha] _ _ Har. apply Hreplay; [|done]. rewrite (ag_works _ _ Har). by eexists.
Qed.

(** *** Events without a projection *)

Definition inert (e : WorkEvent) : bool :=
  match e with
  | Domain (ReviewRequested _) | Domain (ArtifactCreated _) | Domain (ArtifactUpdated _) => true
  | Operational _ | Presence _ => true
  | Runtime (AgentBindingCreated _) | Runtime (AgentBindingActivated _ _) | Runtime (AgentBindingSuspended _)
  | Runtime (AgentBindingResumed _ _) | Runtime (AgentBindingUsageRecorded _ _) => false
  | Runtime _ => true
  | _ => false
  end.

Lemma inert_unprojected e : inert e = true → unprojected e = true.
Proof. destruct e as [d|?|?|?]; [destruct d|..]; done. Qed.

(** The replay of an event of a known Work. *)
Lemma replay_known env r : we_work_id env ≠ "" → is_Some (works r !! we_work_id env) →
  is_empty (we_work_id env) = false ∧
  negb (is_work_created (we_event env)) && negb (is_some (works r !! we_work_id env)) = false.
Proof. intros Hne [a ->]. split; [by destruct (we_work_id env)|]. apply andb_false_r. Qed.

Lemma replay_inert env r :
  inert (we_event env) = true → we_work_id env ≠ "" → is_Some (works r !! we_work_id env) →
  ∃ r', replay_event env r = (Ok tt, r') ∧ same_core r r'.
Proof.
  intros Hi Hne Hr. unfold replay_event. cbv zeta. destruct (replay_known env r Hne Hr) as [-> ->].
  destruct (we_event env) as [d|o|p|e]; [destruct d; try done|..]; try (by exists r).
  - eexists. split; [reflexivity|]. destruct (reviews r !! _); same_core.
  - destruct o; eexists; (split; [reflexivity|]); same_core.
  - exists r. split; [|done]. by destruct e.
Qed.

Lemma good_inert g w e causal env gb :
  inert e = true → good g → append w e causal g = (Ok env, gb) → good gb.
Proof.
  intros Hi Hg Happ. destruct (append_split _ _ _ _ _ _ (sy_log _ (good_synced _ Hg)) (good_wf _ Hg) Happ) as (g1 & [Hw He _ _ Hne Hc Hwf Hthen]).
  rewrite (appended_unprojected _ _ _ _ _ (inert_unprojected _ Hi) Hthen) in *.
  eapply good_append; [exact Hg|exact Happ|apply same_log_refl|done|]. intros r Hr Ha.
  destruct (replay_inert env r) as (r' & Hr' & Hrc); rewrite ?He, ?Hw; [done..|].
  exists r'. split; [done|]. by eapply agree_core.
Qed.

(** *** Delegation facts and change sets *)

Definition projected (e : WorkEvent) : bool :=
  match e with
  | Domain (FileChangeSetCaptured _) | Domain (FileChangeSetSettled _) | Domain (DelegationRefused _)
  | Domain (SubagentHeartbeat _ _) => true
  | _ => false
  end.

Lemma projected_wf w e b n g g' : projected e = true → project_p69g2_event w e b n g = (Ok tt, g') → wf g → wf g'.
Proof.
  intros He. unfold project_p69g2_event, gbind, glift. destruct (validate_p69g2_event w e); [|done].
  destruct e as [d|?|?|?]; [destruct d; try done|..]; try done; cbv beta iota delta [gmodify];
    intros [= <-] [[] Hx]; (constructor; [by constructor|done]).
Qed.

Lemma good_projected g w e causal env gb :
  projected e = true → good g → append w e causal g = (Ok env, gb) → good gb.
Proof.
  intros Hp Hg Happ. destruct (append_split _ _ _ _ _ _ (sy_log _ (good_synced _ Hg)) (good_wf _ Hg) Happ) as (g1 & [Hw He _ _ Hne Hc Hwf Hthen]).
  assert (Hproj : project_p69g2_event w e false (next_seq g) g1 = (Ok tt, gb)).
  { revert Hthen. unfold appended, gbind. destruct e as [d|?|?|?]; [destruct d; try done|..]; done. }
  eapply good_append; [exact Hg|exact Happ|apply same_log_refl|by eapply projected_wf|]. intros r Hr Ha.
  assert (Ha1 : agree g1 r) by (eapply agree_core; [exact Hc|apply same_core_refl|done]).
  destruct (project_agrees w e false true (next_seq g) (we_sequence env) g1 gb r Ha1) as (r' & Hr' & Ha');
    [by destruct e as [d|?|?|?]; [destruct d|..]|done|].
  exists r'. split; [|done]. unfold replay_event. cbv zeta.
  destruct (replay_known env r) as [-> ->]; [by rewrite Hw..|]. rewrite Hw, He.
  destruct e as [d|?|?|?]; [destruct d; done|..]; done.
Qed.

(** *** Events projected as they replay *)

Definition shared (e : WorkEvent) : bool :=
  match e with
  | Domain (ApprovalRequested _ _ _ _ _ _) | Domain (ApprovalResolved _ _ _) | Domain (EffectAttempted _ _ _)
  | Domain (EffectObserved _ _) | Domain (EffectVerified _ _) | Domain (EffectUncertain _ _ _)
  | Domain (EffectReconciled _ _ _) => true
  | Runtime _ => true
  | _ => false
  end.

Lemma shared_unprojected e : shared e = true → unprojected e = true.
Proof. destruct e as [d|?|?|?]; [destruct d|..]; done. Qed.

Lemma replay_shared env g g' r : shared (we_event env) = true → agree g r →
  replay_event env g = (Ok tt, g') → ∃ r', replay_event env r = (Ok tt, r') ∧ agree g' r'.
Proof.
  intros Hs Ha. destruct (we_event env) as [d|o|p|e] eqn:He; try done.
  - destruct d; try done; try (apply effects_agree; [done|by rewrite He]);
      unfold replay_event; cbv zeta; rewrite He, (ag_works _ _ Ha); (destruct (is_empty _); [done|]);
      (destruct (_ && _); [done|]); [by apply requested_agrees|by apply resolved_agrees].
  - unfold replay_event. cbv zeta. rewrite He, (ag_works _ _ Ha). destruct (is_empty _); [done|].
    destruct (_ && _); [done|]. by apply runtime_agrees.
Qed.

Lemma good_append_replay g w e env g' :
  shared e = true → good g → append_replay w e g = (Ok env, g') →
  (∀ g1, same_core (logged env g) g1 → wf g1 → we_work_id env = w → we_event env = e →
     is_Some (works g !! w) → replay_event env g1 = (Ok tt, g') → wf g') →
  good g'.
Proof.
  intros Hs Hg. unfold append_replay, gbind. destruct (append w e None g) as [[env1|?] gb] eqn:Happ; [|done].
  destruct (append_split _ _ _ _ _ _ (sy_log _ (good_synced _ Hg)) (good_wf _ Hg) Happ) as (g1 & [Hw He _ Hk _ Hc Hwf Hthen]).
  rewrite (appended_unprojected _ _ _ _ _ (shared_unprojected _ Hs) Hthen) in *.
  destruct (replay_event env1 g1) as [[[]|?] g2] eqn:Hr; [|done]. intros [= <- <-] Hwf'.
  eapply good_append; [exact Hg|exact Happ| |by apply (Hwf' g1)|].
  - pose proof (keeps_same_log _ g1 (replay_event_keeps_log env1)) as Hl. by rewrite Hr in Hl.
  - intros r _ Ha. eapply replay_shared; [by rewrite He| |exact Hr].
    eapply agree_core; [exact Hc|apply same_core_refl|done].
Qed.

Lemma wf_set_pending m g : wf g →
  (∀ w ps, m !! w = Some ps → is_Some (works g !! w) ∧ ps ≠ ∅ ∧ ∀ t v, ps !! t = Some v → pending_ok w t v g) →
  wf (set_pending m g).
Proof. intros [Hg Hx] Hm. constructor; [by apply graph_ok_set_pending|done]. Qed.

Lemma wf_set_effects m g : wf g →
  (∀ w es, m !! w = Some es → is_Some (works g !! w) ∧ ∀ id e, es !! id = Some e → ef_effect_id e = id ∧ id ≠ "") →
  wf (set_effects m g).
Proof. intros [Hg Hx] Hm. constructor; [by apply graph_ok_set_effects|done]. Qed.

Lemma wf_remove_pending w t g : wf g → wf (remove_pending w t g).
Proof.
  intros Hg. unfold remove_pending. destruct (pending_approvals g !! w) as [ps|] eqn:Hps; [|done].
  destruct (wf_pending _ (wf_graph _ Hg) _ _ Hps) as (Hw & Hne & Hall). apply wf_set_pending; [done|].
  intros x m Hm. destruct (is_some (ps !! t) && bool_decide (delete t ps = ∅)) eqn:Hlast.
  - rewrite lookup_delete_Some in Hm. destruct Hm as [_ Hm]. by apply (wf_pending _ (wf_graph _ Hg)).
  - rewrite lookup_insert_Some in Hm. destruct Hm as [[<- <-]|[_ Hm]]; [|by apply (wf_pending _ (wf_graph _ Hg))].
    split_and!; [done| |].
    + destruct (ps !! t) eqn:Ht; simpl in Hlast; [by apply bool_decide_eq_false in Hlast|].
      by rewrite delete_id.
    + intros t' v. rewrite lookup_delete_Some. intros [_ Hv]. by apply Hall.
Qed.

Lemma wf_approval env g g' :
  match we_event env with
  | Domain (ApprovalRequested _ _ _ _ _ _) | Domain (ApprovalResolved _ _ _) => true | _ => false
  end = true →
  wf g → is_Some (works g !! we_work_id env) → replay_event env g = (Ok tt, g') → wf g'.
Proof.
  intros He Hg Hw. unfold replay_event. cbv zeta. destruct (is_empty _); [done|]. destruct (_ && _); [done|].
  destruct (we_event env) as [d|?|?|?]; try done. destruct d; try done.
  - unfold replay_approval_requested. destruct (is_empty _); [done|].
    destruct (approval_event_run_id _ _ g) as [run|] eqn:Hrun; [|done].
    destruct (bool_decide (run_state _ run g = _)) eqn:Hst; [|done]. apply bool_decide_eq_true in Hst.
    cbn [negb]. cbv zeta. destruct (negb _); [done|]. destruct (pending_approval _ _ _); [done|]. intros [= <-].
    assert (Hk : known_run (we_work_id env) run g = true).
    { unfold approval_event_run_id in Hrun. destruct (ok_or_err _ _) as [rn|]; [|done]. simpl in Hrun.
      destruct (known_run _ rn g) eqn:E; [|done]. by injection Hrun as <-. }
    assert (Hcore : wf (set_pending (<[we_work_id env := <[ticket_id := approval_value ticket_id run tool_id
      args_hash risk_tier requested_at_ms]> (default ∅ (pending_approvals g !! we_work_id env))]>
      (pending_approvals g)) g)).
    { apply wf_set_pending; [done|]. intros x m. rewrite lookup_insert_Some.
      intros [[<- <-]|[_ Hm]]; [|by apply (wf_pending _ (wf_graph _ Hg))].
      split_and!; [done|apply insert_non_empty|]. intros t v. rewrite lookup_insert_Some.
      intros [[<- <-]|[_ Hv]]; [by eexists _, _, _, _, _|].
      destruct (pending_approvals g !! we_work_id env) as [ps|] eqn:Hps; [|done].
      by apply (wf_pending _ (wf_graph _ Hg) _ _ Hps). }
    eapply wf_core; [|exact Hcore]. unfold same_core. simpl. unfold insert2.
    by rewrite lookup_insert_eq, insert_insert_eq.
  - unfold replay_approval_resolved. destruct (is_empty _); [done|].
    destruct (match run_id with Some _ => _ | None => _ end); [done|].
    match goal with |- match ?x with _ => _ end = _ → _ => destruct x as [[]|]; [|done] end.
    intros [= <-]. eapply wf_core; [|by apply (wf_remove_pending (we_work_id env) ticket_id g)]. same_core.
Qed.

Lemma wf_put_effect w id e g : wf g → is_Some (works g !! w) → ef_effect_id e = id → id ≠ "" →
  wf (put_effect_at w id e g).
Proof.
  intros Hg Hw He Hid. unfold put_effect_at. apply wf_set_effects; [done|]. intros x m. unfold insert2.
  rewrite lookup_insert_Some. intros [[<- <-]|[_ Hm]]; [|by apply (wf_effects _ (wf_graph _ Hg))].
  split; [done|]. intros i y. rewrite lookup_insert_Some. intros [[<- <-]|[_ Hy]]; [done|].
  destruct (effect_projections g !! w) as [es|] eqn:Hes; [|done].
  by apply (wf_effects _ (wf_graph _ Hg) _ _ Hes).
Qed.

Lemma effect_status_ok w id e g : wf g → effect_status w id g = Some e →
  ef_effect_id e = id ∧ id ≠ "" ∧ is_Some (works g !! w).
Proof.
  intros Hg He. unfold effect_status, lookup2 in He. destruct (effect_projections g !! w) as [es|] eqn:Hes; [|done].
  destruct (wf_effects _ (wf_graph _ Hg) _ _ Hes) as [Hw Hall]. by destruct (Hall _ _ He).
Qed.

Lemma wf_effect env g g' :
  match we_event env with
  | Domain (EffectAttempted id _ _) => negb (is_empty id)
  | Domain (EffectObserved _ _) | Domain (EffectVerified _ _) | Domain (EffectUncertain _ _ _)
  | Domain (EffectReconciled _ _ _) => true
  | _ => false
  end = true →
  wf g → is_Some (works g !! we_work_id env) → replay_event env g = (Ok tt, g') → wf g'.
Proof.
  intros He Hg Hw. unfold replay_event. cbv zeta. destruct (is_empty (we_work_id env)); [done|].
  destruct (_ && _); [done|]. destruct (we_event env) as [d|?|?|?]; try done. destruct d; try done.
  - intros [= <-]. assert (Hid : effect_id ≠ "") by (by destruct effect_id).
    unfold apply_effect_attempt. apply wf_put_effect; try done. simpl.
    destruct (effect_status _ _ g) eqn:E; [|done]. by destruct (effect_status_ok _ _ _ _ Hg E).
  - unfold apply_effect_observed. cbv zeta.
    match goal with |- context [effect_status _ _ ?x] => assert (Hg1 : wf x) end.
    { apply wf_set_effects; [done|]. intros x m. rewrite lookup_insert_Some.
      intros [[<- <-]|[_ Hm]]; [|by apply (wf_effects _ (wf_graph _ Hg))].
      split; [done|]. destruct (effect_projections g !! we_work_id env) eqn:Hes; [|done].
      by apply (wf_effects _ (wf_graph _ Hg) _ _ Hes). }
    destruct (effect_status _ _ _) as [e|] eqn:E; [|done]. intros [= <-].
    destruct (effect_status_ok _ _ _ _ Hg1 E) as (? & ? & ?). by apply wf_put_effect.
  - unfold apply_effect_verified. destruct (effect_status _ _ _) as [e|] eqn:E; [|done]. intros [= <-].
    destruct (effect_status_ok _ _ _ _ Hg E) as (? & ? & ?). by apply wf_put_effect.
  - unfold apply_effect_uncertain. destruct (effect_projections g !! _) as [es|] eqn:Hes; [|done].
    destruct (es !! effect_id) as [e|] eqn:E; [|done]. intros [= <-].
    destruct (wf_effects _ (wf_graph _ Hg) _ _ Hes) as [_ Hall]. destruct (Hall _ _ E). by apply wf_put_effect.
  - unfold apply_effect_reconciled. destruct (effect_status _ _ _) as [e|] eqn:E; [|done].
    destruct (negb _); [done|]. intros [= <-].
    destruct (effect_status_ok _ _ _ _ Hg E) as (? & ? & ?). by apply wf_put_effect.
Qed.

(** ** Approvals and effects *)

Lemma good_request g w run t tl ah ti n env g' : good g →
  record_pending_approval_for_run w run t tl ah ti n g = (Ok env, g') → good g'.
Proof.
  intros Hg. unfold record_pending_approval_for_run. do 5 (case_match; [done|]). intros Happ.
  eapply good_append_replay; [|exact Hg|exact Happ|]; [done|].
  intros g1 Hc Hwf Hw He Hk Hr. eapply wf_approval; [by rewrite He|exact Hwf| |exact Hr].
  destruct Hc as [-> _]. by rewrite Hw.
Qed.

Lemma good_resolve_event g w t run ok env g' : good g →
  append_replay w (Domain (ApprovalResolved t run ok)) g = (Ok env, g') → good g'.
Proof.
  intros Hg Happ. eapply good_append_replay; [|exact Hg|exact Happ|]; [done|].
  intros g1 Hc Hwf Hw He Hk Hr. eapply wf_approval; [by rewrite He|exact Hwf| |exact Hr].
  destruct Hc as [-> _]. by rewrite Hw.
Qed.

Lemma good_effect_event g w e env g' : good g →
  match e with
  | Domain (EffectAttempted id _ _) => negb (is_empty id)
  | Domain (EffectObserved _ _) | Domain (EffectVerified _ _) | Domain (EffectUncertain _ _ _)
  | Domain (EffectReconciled _ _ _) => true
  | _ => false
  end = true →
  append_replay w e g = (Ok env, g') → good g'.
Proof.
  intros Hg He Happ. eapply good_append_replay; [|exact Hg|exact Happ|];
    [by destruct e as [d|?|?|?]; [destruct d|..]|].
  intros g1 Hc Hwf Hw Hev Hk Hr. eapply wf_effect; [by rewrite Hev|exact Hwf| |exact Hr].
  destruct Hc as [-> _]. by rewrite Hw.
Qed.

Lemma trim_nonempty s : is_empty (trim s) = false → is_empty s = false.
Proof. by destruct s. Qed.

Lemma good_effect g w id ph d gr c g' : good g → record_effect_with_class w id ph d gr c g = (Ok tt, g') → good g'.
Proof.
  intros Hg. unfold record_effect_with_class. destruct (is_empty (trim id)) eqn:Hid; [done|].
  match goal with |- match ?x with _ => _ end = _ → _ => destruct x; [|done] end.
  unfold gbind, glift. destruct (effect_event _ _ _ _ _) as [e|] eqn:He; [|done].
  destruct (append_replay w e g) as [[env|] g1] eqn:Happ; [|done]. intros [= <-].
  eapply good_effect_event; [exact Hg| |exact Happ].
  pose proof (trim_nonempty _ Hid) as Hne. revert He. unfold effect_event.
  repeat case_match; intros [= <-]; try done; by rewrite Hne.
Qed.

Lemma good_reconcile g w id o safe env g' : good g →
  reconcile_uncertain_effect w id o safe g = (Ok env, g') → good g'.
Proof.
  intros Hg. unfold reconcile_uncertain_effect. case_match; [done|]. destruct (effect_status w id g); [|done].
  case_match; [done|]. by apply good_effect_event.
Qed.

(** ** Runs *)

Lemma agree_checkpoint w run n g r : agree g r →
  ∃ m, default (JObject []) (lookup2 w run (run_metadata r)) = JObject m ∧
  agree g (set_run_metadata (insert2 w run (JObject (obj_insert "checkpoint" n m)) (run_metadata r)) r).
Proof.
  intros Ha. destruct (ag_meta _ _ Ha w run) as (m & m' & Hm & Hm' & Hk). exists m'. split; [done|].
  destruct Ha. constructor; try done. intros w' run'. simpl. rewrite lookup2_insert2.
  destruct (decide _) as [[-> ->]|]; [|by apply ag_meta].
  exists m, (obj_insert "checkpoint" n m'). split_and!; [done|done|]. intros k Hne.
  rewrite obj_get_insert_ne by done. by apply Hk.
Qed.

(** A Run event replays as its state, and a checkpoint as its number too. *)
Lemma replay_run_event env run s g' r :
  run_event_state (we_event env) = Some (run, s) → we_work_id env ≠ "" → is_Some (works r !! we_work_id env) →
  (∀ wait, ∃ r', replay_run (we_work_id env) run s wait r = (Ok tt, r') ∧ agree g' r') →
  ∃ r', replay_event env r = (Ok tt, r') ∧ agree g' r'.
Proof.
  intros He Hne Hr Hrun. unfold replay_event. cbv zeta. destruct (replay_known env r Hne Hr) as [-> ->].
  destruct (we_event env) as [d|?|?|?]; try done. destruct d; try done; simpl in He;
    try (injection He as -> <-; exact (Hrun None)).
  - injection He as -> <-. destruct (Hrun None) as (r1 & Hr1 & Ha). unfold gbind at 1. rewrite Hr1.
    destruct (agree_checkpoint (we_work_id env) run (json_u64 checkpoint) g' r1 Ha) as (m & -> & Hm).
    by eexists.
  - destruct (work_state_try_parse reason); [|done]. injection He as -> ->. exact (Hrun wait).
Qed.

Lemma good_no_early_state g w run : good g →
  run_state w run g ≠ Some WCreated ∧ run_state w run g ≠ Some WPlanning.
Proof.
  intros [_ [[_ [lines Hj]] Hr]]. destruct (Hr lines Hj None) as (r & _ & Ha).
  pose proof (ag_states _ _ Ha w run) as Hst. split; intros E; by rewrite E in Hst.
Qed.

Lemma good_run_event g w run e s wait env gb g' : good g →
  append w e None g = (Ok env, gb) → set_run_state w run s wait gb = (Ok tt, g') →
  run_event_state e = Some (run, replayed_state s) → s ≠ WCreated → s ≠ WPlanning →
  (run_state w run g = Some WReady → work_is_terminal s = false) →
  good g'.
Proof.
  intros Hg Happ Hset He Hc Hp Hready.
  destruct (append_split _ _ _ _ _ _ (sy_log _ (good_synced _ Hg)) (good_wf _ Hg) Happ) as (g1 & [Hw Hev _ _ Hne Hcore Hwf Hthen]).
  assert (Hu : unprojected e = true) by (destruct e as [d|?|?|?]; [destruct d|..]; done).
  rewrite (appended_unprojected _ _ _ _ _ Hu Hthen) in *.
  eapply good_append; [exact Hg|exact Happ| |by eapply wf_set_run_state|].
  { pose proof (keeps_same_log _ g1 (set_run_state_keeps_log w run s wait)) as Hl. by rewrite Hset in Hl. }
  intros r Hr Ha. apply (replay_run_event env run (replayed_state s)); rewrite ?Hev, ?Hw; try done.
  intros wait'. apply (run_event_agrees w run s wait wait' g1); try done.
  - eapply agree_core; [exact Hcore|apply same_core_refl|done].
  - unfold run_state. unfold same_core in Hcore. destruct_and! Hcore.
    by replace (run_states g1) with (run_states g).
Qed.

Lemma transition_event_state run s wait : s ≠ WCreated → s ≠ WPlanning →
  run_event_state (transition_event run s wait) = Some (run, replayed_state s).
Proof. by destruct s. Qed.

Lemma good_transition g w run s wait g' : good g →
  (if negb (opt_eqb (execution_id w g) (Some run)) then (Err "execution/work binding mismatch", g)
   else match validate_run_transition w run s g with
   | Err e => (Err e, g)
   | Ok _ => (append w (transition_event run s wait) None ~;; set_run_state w run s wait) g
   end) = (Ok tt, g') →
  (run_state w run g = Some WReady → work_is_terminal s = false) → good g'.
Proof.
  intros Hg Ht Hready. destruct (opt_eqb (execution_id w g) (Some run)) eqn:Hx; [|done]. simpl in Ht.
  apply bool_decide_eq_true in Hx. destruct (validate_run_transition w run s g) as [[]|] eqn:Hv; [|done].
  unfold gbind in Ht. destruct (append _ _ _ _) as [[env|] gb] eqn:Happ; [|done].
  destruct (wf_exec _ (good_wf _ Hg) _ _ Hx) as [p Hp]. destruct (good_no_early_state g w run Hg) as [Hc Hpl].
  assert (s ≠ WCreated ∧ s ≠ WPlanning) as [Hsc Hsp].
  { unfold validate_run_transition in Hv. rewrite Hp in *. destruct (work_can_transition p s) eqn:E; [|done].
    split; intros ->; destruct p; done. }
  eapply good_run_event; [exact Hg|exact Happ|exact Ht|by apply transition_event_state|..]; done.
Qed.

(** ** Creation *)

Lemma gbind_ok {A B} (m : M A) (k : A → M B) g b g' :
  gbind m k g = (Ok b, g') → ∃ a g1, m g = (Ok a, g1) ∧ k a g1 = (Ok b, g').
Proof. unfold gbind. destruct (m g) as [[a|] g1]; [|done]. eauto. Qed.

Lemma no_pointer g w : graph_ok g → works g !! w = None → active_binding_ids g !! w = None.
Proof.
  intros Hg Hw. destruct (active_binding_ids g !! w) as [b|] eqn:Hb; [|done].
  destruct (wf_pointer _ Hg _ _ Hb) as (x & Hx & <- & _).
  destruct (bk_owner _ _ _ _ (wf_bindings _ Hg _ _ Hx)) as (a & Ha & _). congruence.
Qed.

Lemma wf_add_work w a g : wf g → works g !! w = None → wd_work_id a = w → w ≠ "" →
  (wd_session_kind a = SkAutomation → is_Some (wd_session_id a)) → wd_current_run_id a = None →
  (∀ p, wd_parent_work_id a = Some p → ∃ pa, works g !! p = Some pa ∧
    wd_session_id pa = wd_session_id a ∧ wd_session_kind pa = wd_session_kind a) →
  wf (set_works (<[w := a]> (works g)) g).
Proof.
  intros [Hg Hx] Hnew Hid Hne Hauto Hrun Hpar. constructor; [|done].
  pose proof (no_pointer _ _ Hg Hnew) as Hptr. destruct Hg as [Hw Hb Hp He Hpend Heff].
  assert (Hlook : ∀ x y, works g !! x = Some y → <[w := a]> (works g) !! x = Some y).
  { intros x y Hxy. rewrite lookup_insert_ne; [done|]. intros ->. congruence. }
  constructor; try done; simpl.
  - intros x b. rewrite lookup_insert_Some. intros [[<- <-]|[_ Hxb]].
    + constructor; try done; try congruence.
      intros p Hp'. destruct (Hpar p Hp') as (pa & ? & ?). exists pa. split; [by apply Hlook|done].
    + destruct (Hw x b Hxb). constructor; try done.
      intros p Hp'. destruct (wk_parent p Hp') as (pa & ? & ?). exists pa. split; [by apply Hlook|done].
  - intros id b Hib. destruct (Hb id b Hib) as [? (y & Hy & ?) ?]. constructor; [done| |done].
    exists y. split; [by apply Hlook|done].
  - intros x m Hm. destruct (Hpend x m Hm) as ([y Hy] & ? & ?). split_and!; [|done|done]. exists y. by apply Hlook.
  - intros x m Hm. destruct (Heff x m Hm) as ([y Hy] & ?). split; [|done]. exists y. by apply Hlook.
Qed.

Lemma good_create_with g w a e g' : good g → works g !! w = None →
  wf (set_works (<[w := a]> (works g)) g) →
  (∀ env r, we_work_id env = w → we_event env = e → works r !! w = None → w ≠ "" →
     ∃ p, replay_event env r = (Ok tt, set_presence p (set_works (<[w := a]> (works r)) r))) →
  create_with w a e g = (Ok tt, g') → good g'.
Proof.
  intros Hg Hnew Hwf Hreplay. unfold create_with. cbv zeta.
  set (ga := set_presence _ _). assert (Hga : same_core (set_works (<[w := a]> (works g)) g) ga) by (unfold ga; same_core).
  destruct (append w e None ga) as [[env|] gb] eqn:Happ; [|done]. intros [= <-].
  assert (Hlog : log_ok ga) by (by apply (same_log_ok g), good_synced).
  assert (Hwa : wf ga) by by eapply wf_core.
  destruct (append_split _ _ _ _ _ _ Hlog Hwa Happ) as (g1 & [Hw He _ _ Hne Hcore Hwf1 Hthen]).
  assert (Hu : unprojected e = true).
  { destruct (Hreplay env gateway_new) as (p & Hp); try done. revert Hp. unfold replay_event. cbv zeta.
    rewrite Hw, He. destruct (is_empty w); [done|]. destruct e as [d|?|?|?]; [destruct d|..]; done. }
  rewrite (appended_unprojected _ _ _ _ _ Hu Hthen) in *. constructor; [done|].
  eapply synced_append; [exact (good_synced _ Hg)| |exact Happ|apply same_log_refl|]; [done|].
  intros g2 r _ _ _ Har.
  assert (Hr : works r = works g) by (rewrite (ag_works _ _ Har); done).
  destruct (Hreplay env r) as (p & Hp); try done; [by rewrite Hr|].
  eexists. split; [exact Hp|].
  eapply agree_core; [| |apply (agree_set_works (<[w := a]> (works r)) _ _ Har)].
  - eapply same_core_trans; [|exact Hcore]. unfold ga, same_core, logged, events_of. simpl. by rewrite Hr.
  - same_core.
Qed.

Lemma replay_created w project session parent kind trigger objective a env r :
  we_work_id env = w →
  we_event env = Domain (WorkCreated objective project session parent kind None None (Some WCreated) None
    trigger provenance_default) →
  works r !! w = None → w ≠ "" → (kind = SkAutomation → is_Some session) →
  a = {| wd_work_id := w; wd_project_id := project; wd_session_id := session; wd_session_kind := kind;
         wd_owner_id := None; wd_binding_id := None; wd_provenance := provenance_default; wd_node_id := None;
         wd_current_run_id := None; wd_version := 1; wd_parent_work_id := parent |} →
  ∃ p, replay_event env r = (Ok tt, set_presence p (set_works (<[w := a]> (works r)) r)).
Proof.
  intros Hw He Hnew Hne Hauto ->. unfold replay_event. cbv zeta. rewrite Hw, He. simpl is_work_created.
  replace (is_empty w) with false by (by destruct w). cbn [negb andb].
  unfold replay_work_created. rewrite Hnew. cbn [is_some]. replace (validate_complete provenance_default) with
    (Ok tt : result unit string) by done. cbv iota.
  destruct (bool_decide (kind = SkAutomation) && negb (is_some session)) eqn:Ho.
  { apply andb_true_iff in Ho as [Hk Hs]. apply bool_decide_eq_true in Hk.
    destruct (Hauto Hk) as [? E]; by rewrite E in Hs. }
  cbv zeta. simpl. by eexists.
Qed.

Lemma good_create g w p s k ob a g' : w ≠ "" → good g →
  create_work_in_session w p s k ob g = (Ok a, g') → good g'.
Proof.
  intros Hne Hg. unfold create_work_in_session.
  destruct (bool_decide (k = SkAutomation) && negb (is_some s)) eqn:Ho; [done|].
  assert (Hauto : k = SkAutomation → is_Some s).
  { intros ->. destruct s; [by eexists|done]. }
  destruct (works g !! w) as [ex|] eqn:Hw; [case_match; [done|]; by intros [= <- <-]|].
  intros Hc. apply gbind_ok in Hc as ([] & g1 & Hc & [= <- <-]).
  eapply good_create_with; [exact Hg|exact Hw| | |exact Hc].
  - apply wf_add_work; try done. by destruct Hg.
  - intros env r Henv He Hr _. by eapply replay_created.
Qed.

Lemma good_child g parent w ob p s now a g' : w ≠ "" → good g →
  (∀ pa, works g !! parent = Some pa → s = None ∨ s = wd_session_id pa) →
  create_child_work parent w ob p s now g = (Ok a, g') → good g'.
Proof.
  intros Hne Hg Hs. unfold create_child_work. destruct (works g !! parent) as [pa|] eqn:Hpa; [|done].
  destruct (works g !! w) as [ex|] eqn:Hw; [case_match; [done|]; by intros [= <- <-]|].
  destruct (wf_works _ (wf_graph _ (good_wf _ Hg)) _ _ Hpa) as [_ _ Hauto _ _ _].
  assert (Hsess : match s with Some _ => s | None => wd_session_id pa end = wd_session_id pa).
  { destruct (Hs pa eq_refl) as [-> | ->]; [done|]. by destruct (wd_session_id pa). }
  cbv zeta. intros Hc. apply gbind_ok in Hc as ([] & g1 & Hc & Hc').
  apply gbind_ok in Hc' as (env & g2 & Happ & [= <- <-]).
  eapply good_projected; [|eapply good_create_with; [exact Hg|exact Hw| | |exact Hc]|exact Happ]; [done|..].
  - apply wf_add_work; simpl; rewrite ?Hsess; try done; [by destruct Hg|].
    intros ? [= <-]. by exists pa.
  - intros env' r Henv He Hr _. eapply replay_created; try done. simpl. by rewrite Hsess.
Qed.

(** ** Updates of a Work *)

Lemma graph_ok_identity w a p owner binding g : graph_ok g → works g !! w = Some a →
  (∀ b, active_binding_ids g !! w = Some b → wd_binding_id a = Some b → binding = Some b) →
  graph_ok (set_works (<[w := bump_version (with_identity p owner binding a)]> (works g)) g).
Proof.
  intros Hg Ha Hb. destruct (wf_works _ Hg _ _ Ha) as [_ _ _ _ Hrun Hact].
  apply (graph_ok_update_work w a); try done. simpl. auto.
Qed.

Lemma graph_ok_set_metadata m g : graph_ok g → graph_ok (set_run_metadata m g).
Proof. intros []. by constructor. Qed.

(** The description of a bound Run. *)
Definition describes (patch : Value) (run : string) (m : list (string * Value)) : Prop :=
  json_get "run" patch = Some (JObject m) ∧ obj_get "runId" m = Some (JString run) ∧
  obj_get "checkpoint" m = None ∧ json_get "executionId" patch = Some (JString run) ∧
  json_get "archived" patch = None.

Lemma same_core_twice m m' g :
  same_core (set_run_metadata m g) (set_run_metadata m (set_run_metadata m' g)).
Proof. unfold same_core. simpl. auto 20. Qed.

Lemma same_core_set_works_on w a g meta g' : same_core (set_run_metadata meta g) g' →
  same_core (set_works (<[w := a]> (works g)) (set_run_metadata meta g)) (set_works (<[w := a]> (works g')) g').
Proof.
  unfold same_core. simpl. intros Hc. destruct_and! Hc. split_and!; try done. by f_equal.
Qed.

Lemma run_patch_shape w m run g g' : obj_get "runId" m = Some (JString run) →
  apply_run_patch w (JObject m) g = (Ok tt, g') →
  ∃ meta, same_core (set_run_metadata meta (note_run_reference w run g)) g'.
Proof.
  intros Hid Hp. unfold apply_run_patch in Hp. simpl as_object in Hp. cbv iota in Hp. unfold json_get in Hp.
  rewrite Hid in Hp. cbv iota in Hp. change (Some (JString run) ≫= as_str) with (Some run) in Hp. cbv iota zeta in Hp.
  set (gn := note_run_reference w run g) in *. clearbody gn.
  match type of Hp with context [as_object ?v] => destruct (as_object v) as [o|] end; [|done].
  destruct (merge_run_fields m o) as [res n]. apply pair_equal_spec in Hp as [_ Hp].
  eexists. rewrite <- Hp. apply same_core_twice.
Qed.

Lemma update_bound w run m patch g g' :
  describes patch run m → apply_work_update w patch g = (Ok tt, g') →
  ∃ a p owner binding meta,
    works g !! w = Some a ∧
    patch_string patch "bindingId" "binding_id" "bindingId" (wd_binding_id a) = Ok binding ∧
    let gn := note_run_reference w run (note_run_reference w run g) in
    same_core (set_works (<[w := bump_version (with_identity p owner binding (with_run (Some run) a))]> (works gn))
      (set_run_metadata meta gn)) g'.
Proof.
  intros (Hrun & Hid & _ & Hex & Har) Hu. unfold apply_work_update in Hu.
  apply gbind_ok in Hu as (a & g0 & [= Ha <-] & Hu). destruct (works g !! w) as [a'|]; [|done].
  injection Ha as ->. rewrite Hex in Hu. apply gbind_ok in Hu as (a' & g1 & Hn & Hu).
  assert (a' = with_run (Some run) a ∧ g1 = note_run_reference w run g) as [-> ->].
  { unfold gbind, glift, gguard, gmodify in Hn. simpl in Hn. destruct (is_empty run); [done|]. by injection Hn. }
  rewrite Hrun in Hu. apply gbind_ok in Hu as ([] & g2 & Hp & Hu).
  destruct (run_patch_shape _ _ _ _ _ Hid Hp) as [meta Hmeta]. clear Hp.
  apply gbind_ok in Hu as (p & g3 & [= _ <-] & Hu). apply gbind_ok in Hu as ([] & g4 & [= _ <-] & Hu).
  apply gbind_ok in Hu as (owner & g5 & [= _ <-] & Hu). apply gbind_ok in Hu as (binding & g6 & [= Hb <-] & Hu).
  rewrite Har in Hu. apply pair_equal_spec in Hu as [_ Hu]. cbv iota in Hu.
  exists a, p.2, owner, binding, meta. split; [done|]. split; [exact Hb|]. cbv zeta. rewrite <- Hu.
  by apply same_core_set_works_on.
Qed.

Lemma bound_graph_ok w run m patch g g' :
  describes patch run m → graph_ok g → apply_work_update w patch g = (Ok tt, g') →
  (∀ a b binding, works g !! w = Some a → active_binding_ids g !! w = Some b → wd_binding_id a = Some b →
     patch_string patch "bindingId" "binding_id" "bindingId" (wd_binding_id a) = Ok binding → binding = Some b) →
  graph_ok g' ∧ execution_ids g' = <[w := run]> (execution_ids g) ∧ run_states g' = run_states g.
Proof.
  intros Hd Hg Hu Hkeep. destruct (update_bound _ _ _ _ _ _ Hd Hu) as (a & p & owner & binding & meta & Ha & Hb & Hc).
  cbv zeta in Hc.
  assert (Hgn : graph_ok (note_run_reference w run (note_run_reference w run g)))
    by (by apply graph_ok_note, graph_ok_note).
  assert (Hact : active_binding_ids (note_run_reference w run (note_run_reference w run g)) = active_binding_ids g).
  { unfold note_run_reference. cbv zeta. simpl. repeat (case_match; simpl; try done). }
  assert (Hwn : works (note_run_reference w run (note_run_reference w run g)) !! w = Some (with_run (Some run) a)).
  { by rewrite !note_works, Ha, lookup_insert_eq, lookup_insert_eq. }
  assert (Hexn : execution_ids (note_run_reference w run (note_run_reference w run g)) = <[w := run]> (execution_ids g)).
  { by rewrite !note_exec, insert_insert_eq. }
  assert (Hstn : run_states (note_run_reference w run (note_run_reference w run g)) = run_states g).
  { by rewrite !note_states. }
  revert Hc Hgn Hact Hwn Hexn Hstn. generalize (note_run_reference w run (note_run_reference w run g)).
  intros gn Hc Hgn Hact Hwn Hexn Hstn. split.
  - eapply graph_ok_core; [exact Hc|].
    apply (graph_ok_identity w (with_run (Some run) a) p owner binding (set_run_metadata meta gn));
      [by apply graph_ok_set_metadata|done|].
    intros b. change (active_binding_ids (set_run_metadata meta gn)) with (active_binding_ids gn).
    rewrite Hact. simpl. intros Hab Hwb. by apply (Hkeep a b binding).
  - destruct Hc as (_ & _ & _ & Hx & _ & _ & _ & _ & _ & _ & _ & _ & Hs & _).
    split; [by rewrite Hx|by rewrite Hs].
Qed.

(** Metadata that leaves to the gateway what is the gateway's. *)
Definition plain_metadata (metadata : Value) : Prop :=
  ∀ k, k ∈ ["checkpoint"; "archived"; "bindingId"; "binding_id"] → json_get k metadata = None.

Lemma obj_get_insert_opt k k' o m : k ≠ k' → obj_get k' (insert_opt k o m) = obj_get k' m.
Proof. intros Hk. destruct o; simpl; [by rewrite obj_get_insert_ne|done]. Qed.
Lemma obj_get_insert_missing k k' o m : k ≠ k' → obj_get k' (insert_missing k o m) = obj_get k' m.
Proof. intros Hk. unfold insert_missing. case_match; [done|]. by apply obj_get_insert_opt. Qed.

Ltac get_record := repeat first
  [ rewrite obj_get_insert_missing by done | rewrite obj_get_insert_opt by done
  | rewrite obj_get_insert_eq | rewrite obj_get_insert_ne by done ].

Lemma run_record_get k w run a m g :
  k ∉ ["executionId"; "runId"; "sessionId"; "objective"; "bindingId"; "contextSnapshot"] →
  obj_get k (run_record w run a m g) = obj_get k m.
Proof.
  intros Hk. repeat (apply not_elem_of_cons in Hk as [? Hk]). unfold run_record. cbv zeta.
  destruct (is_some _); [|destruct (run_context w a g)]; get_record; done.
Qed.

Lemma run_record_run w run a m g :
  obj_get "runId" (run_record w run a m g) = Some (JString run) ∧
  obj_get "executionId" (run_record w run a m g) = Some (JString run).
Proof.
  unfold run_record. cbv zeta. destruct (is_some _); [|destruct (run_context w a g)]; split; get_record; done.
Qed.

Lemma run_record_binding w run a m g : obj_get "bindingId" m = None →
  obj_get "bindingId" (run_record w run a m g) = None ∨
  obj_get "bindingId" (run_record w run a m g) = (λ b, JString (ab_binding_id b)) <$> described_binding w g.
Proof.
  intros Hm. unfold run_record. cbv zeta. destruct (is_some _).
  - left. get_record. done.
  - right. destruct (described_binding w g); simpl; destruct (run_context w a g); get_record; done.
Qed.

Lemma record_describes w run a m g : plain_metadata (JObject m) →
  describes (JObject (obj_insert "run" (JObject (run_record w run a m g)) (run_record w run a m g))) run
    (run_record w run a m g).
Proof.
  intros Hp. destruct (run_record_run w run a m g) as [Hr Hx].
  assert (Hk : ∀ k, k ∈ ["checkpoint"; "archived"] → obj_get k (run_record w run a m g) = None).
  { intros k Hk. rewrite run_record_get by (intros Hin; set_solver). apply Hp. set_solver. }
  unfold describes, json_get. split_and!.
  - apply obj_get_insert_eq.
  - done.
  - apply Hk. set_solver.
  - by rewrite obj_get_insert_ne.
  - rewrite obj_get_insert_ne by done. apply Hk. set_solver.
Qed.

(** The binding a described Run names is the active one, when there is one. *)
Lemma described_active w b g : graph_ok g → active_binding_ids g !! w = Some b →
  ∃ x, described_binding w g = Some x ∧ ab_binding_id x = b.
Proof.
  intros Hg Hb. destruct (wf_pointer _ Hg _ _ Hb) as (x & Hx & _). exists x.
  unfold described_binding. rewrite Hb. simpl. rewrite Hx. split; [done|].
  by apply (bk_id _ _ _ _ (wf_bindings _ Hg _ _ Hx)).
Qed.

(** The event a Run is described by. *)
Definition record_patch (rec : list (string * Value)) : Value := JObject (obj_insert "run" (JObject rec) rec).

Lemma recorded_binding w run a m g b own binding : plain_metadata (JObject m) → graph_ok g →
  active_binding_ids g !! w = Some b → own = Some b →
  patch_string (record_patch (run_record w run a m g)) "bindingId" "binding_id" "bindingId" own = Ok binding →
  binding = Some b.
Proof.
  intros Hplain Hg Hact -> Hpatch. destruct (described_active w b g Hg Hact) as (x & Hx & Hxb).
  unfold patch_string, record_patch, json_get in Hpatch. rewrite !obj_get_insert_ne in Hpatch by done.
  replace (obj_get "binding_id" (run_record w run a m g)) with (@None Value) in Hpatch.
  2:{ rewrite run_record_get by (intros Hin; set_solver). symmetry. apply Hplain. set_solver. }
  destruct (run_record_binding w run a m g) as [E|E]; [apply Hplain; set_solver|..];
    rewrite E in Hpatch; [congruence|]. rewrite Hx in Hpatch. simpl in Hpatch. congruence.
Qed.

(** A bound Run without a state is Ready. *)
Definition readied (w run : string) (g : WorkGateway) : WorkGateway :=
  if is_some (run_state w run g) then g else set_run_states (insert2 w run WReady (run_states g)) g.

Lemma wf_readied w run g : graph_ok g →
  (∀ w' run', execution_ids g !! w' = Some run' → (w' = w ∧ run' = run) ∨ is_Some (run_state w' run' g)) →
  wf (readied w run g).
Proof.
  intros Hg Hx. unfold readied. constructor.
  - destruct (is_some (run_state w run g)) eqn:Hsome; [done|]. apply graph_ok_set_states; [done|].
    unfold validate_run_transition. by destruct (run_state w run g).
  - intros w' run' Hr. assert (Hr' : execution_ids g !! w' = Some run') by (revert Hr; by case_match).
    specialize (Hx _ _ Hr'). destruct (run_state w run g) as [p|] eqn:Hp; simpl.
    + destruct Hx as [[-> ->]|?]; [by eexists|done].
    + unfold run_state. simpl. rewrite lookup2_insert2. destruct (decide _); [by eexists|]. by destruct Hx.
Qed.

Lemma agree_readied w run g r : agree g r → agree (readied w run g) r.
Proof.
  intros Ha. unfold readied. destruct (run_state w run g) eqn:Hp; simpl; [done|]. by apply agree_set_ready.
Qed.

Lemma good_bind g w run metadata env g' : plain_metadata metadata → good g →
  bind_execution_with_metadata w run metadata g = (Ok env, g') → good g'.
Proof.
  intros Hplain Hg. unfold bind_execution_with_metadata. destruct (works g !! w) as [a|] eqn:Ha; [|done].
  destruct (is_empty (trim run)); [done|]. destruct (as_object metadata) as [m|] eqn:Hm; [|done].
  assert (metadata = JObject m) as -> by (destruct metadata; try done; by injection Hm as ->).
  match goal with |- match ?x with _ => _ end = _ → _ => destruct x; [done|] end. cbv zeta.
  change (JObject (obj_insert "run" (JObject (run_record w run a m g)) (run_record w run a m g)))
    with (record_patch (run_record w run a m g)).
  intros Hb. apply gbind_ok in Hb as (env1 & gb & Happ & Hb). apply gbind_ok in Hb as ([] & g2 & Hmod & [= _ <-]).
  apply pair_equal_spec in Hmod as [_ Hmod]. change (readied w run gb = g2) in Hmod.
  pose proof (record_describes w run a m g Hplain) as Hd. fold (record_patch (run_record w run a m g)) in Hd.
  destruct (append_split _ _ _ _ _ _ (sy_log _ (good_synced _ Hg)) (good_wf _ Hg) Happ)
    as (g1 & [Hw Hev _ _ Hne Hcore Hwf Hthen]).
  assert (Hu : apply_work_update w (record_patch (run_record w run a m g)) g1 = (Ok tt, gb)).
  { apply gbind_ok in Hthen as ([] & g3 & Hu & Hpr). by injection Hpr as <-. }
  assert (Hsame : active_binding_ids g1 = active_binding_ids g) by apply Hcore.
  destruct (bound_graph_ok _ _ _ _ _ _ Hd (wf_graph _ Hwf) Hu) as (Hgb & Hex & Hst).
  { intros a' b binding _ Hact Hwb. rewrite Hsame in Hact.
    apply recorded_binding; [done|by apply wf_graph, good_wf|done|done]. }
  assert (Hwf' : wf (readied w run gb)).
  { apply wf_readied; [done|]. intros w' run'. rewrite Hex, lookup_insert_Some.
    intros [[<- <-]|[_ Hr']]; [by left|right]. unfold run_state. rewrite Hst. by apply (wf_exec _ Hwf). }
  rewrite <- Hmod. eapply good_append; [exact Hg|exact Happ| |exact Hwf'|]; [unfold readied; by case_match|].
  intros r Hr Har.
  destruct (update_agrees w (record_patch (run_record w run a m g))) with (g := g1) (r := r) (a := tt) (g' := gb)
    as (r' & Hr' & Ha'); [|by eapply agree_core; [exact Hcore|apply same_core_refl|]|exact Hu|].
  { unfold patch_ok. destruct Hd as (-> & _ & Hc & _). by eexists. }
  exists r'. split; [|by apply agree_readied]. unfold replay_event. cbv zeta.
  destruct (replay_known env1 r) as [-> ->]; [by rewrite Hw..|]. by rewrite Hw, Hev.
Qed.

(** ** Agent bindings *)

Lemma replay_runtime_event env e g g' : we_event env = Runtime e →
  replay_event env g = (Ok tt, g') → replay_runtime (we_work_id env) e (we_sequence env) g = (Ok tt, g').
Proof.
  intros He. unfold replay_event. cbv zeta. rewrite He. destruct (is_empty _); [done|]. by destruct (_ && _).
Qed.

(** A binding replaced by one of the same owner. *)
Lemma graph_ok_put_binding id b b' g : graph_ok g → agent_bindings g !! id = Some b →
  ab_binding_id b' = ab_binding_id b → ab_work_id b' = ab_work_id b → ab_session_id b' = ab_session_id b →
  ab_state b' = ab_state b →
  graph_ok (put_binding id b' g).
Proof.
  intros [Hw Hb Hp He Hpend Heff] Hid Hbid Hwk Hse Hst. constructor; try done; simpl.
  - intros i x. rewrite lookup_insert_Some. intros [[<- <-]|[_ Hi]]; [|by apply Hb].
    destruct (Hb id b Hid) as [? ? ?]. constructor; rewrite ?Hbid, ?Hwk, ?Hse, ?Hst; done.
  - intros w i Hi. destruct (Hp w i Hi) as (x & Hx & ? & ?). destruct (decide (id = i)) as [<-|Hne].
    + exists b'. rewrite lookup_insert_eq. rewrite Hid in Hx. injection Hx as ->.
      rewrite Hwk, Hst. done.
    + exists x. by rewrite lookup_insert_ne.
  - assert (Hlook : ∀ i x, <[id := b']> (agent_bindings g) !! i = Some x → ∃ y, agent_bindings g !! i = Some y ∧
      ab_state x = ab_state y ∧ ab_session_id x = ab_session_id y).
    { intros i x. rewrite lookup_insert_Some. intros [[<- <-]|[_ Hi]]; [by exists b|by exists x]. }
    intros i j x y Hi Hj. destruct (Hlook i x Hi) as (x' & Hx' & -> & ->). destruct (Hlook j y Hj) as (y' & Hy' & -> & ->).
    by apply He.
Qed.

(** A new binding is parked. *)
Lemma graph_ok_new_binding id b a g : graph_ok g → agent_bindings g !! id = None → ab_binding_id b = id →
  works g !! ab_work_id b = Some a → wd_session_id a = Some (ab_session_id b) → ab_state b ≠ BlActive →
  graph_ok (put_binding id b g).
Proof.
  intros [Hw Hb Hp He Hpend Heff] Hnew Hid Ha Hs Hst. constructor; try done; simpl.
  - intros i x. rewrite lookup_insert_Some. intros [[<- <-]|[_ Hi]]; [|by apply Hb]. constructor; [done| |done]. eauto.
  - intros w i Hi. destruct (Hp w i Hi) as (x & Hx & ?). exists x. split; [|done].
    rewrite lookup_insert_ne; [done|]. intros ->. congruence.
  - intros i j x y. rewrite !lookup_insert_Some. intros [[<- <-]|[_ Hi]] [[<- <-]|[_ Hj]]; naive_solver.
Qed.

(** Activation, when no other binding of the session is active. *)
Lemma graph_ok_activate id b b' g : graph_ok g → agent_bindings g !! id = Some b →
  ab_binding_id b' = ab_binding_id b → ab_work_id b' = ab_work_id b → ab_session_id b' = ab_session_id b →
  ab_state b' = BlActive →
  (∀ i x, agent_bindings g !! i = Some x → ab_state x = BlActive → ab_session_id x = ab_session_id b → i = id) →
  graph_ok (point_binding (ab_work_id b) (Some id) (put_binding id b' g)).
Proof.
  intros Hg Hid Hbid Hwk Hse Hst Hex. destruct (bk_owner _ _ _ _ (wf_bindings _ Hg _ _ Hid)) as (a & Ha & Hsa).
  eapply (graph_ok_core (set_works (<[ab_work_id b := with_binding (Some id) a]> (works g))
    (set_active_bindings (<[ab_work_id b := id]> (active_binding_ids g)) (put_binding id b' g)))).
  { unfold point_binding. cbv zeta. simpl. by rewrite Ha. }
  pose proof (same_scope_insert (works g) _ a (with_binding (Some id) a) Ha eq_refl eq_refl) as Hsc.
  apply (graph_ok_rescope g); try done; simpl.
  - intros x y. rewrite lookup_insert_Some. intros [[<- <-]|[Hne Hx]].
    + destruct (work_ok_scope _ _ _ _ ∅ _ _ Hsc (wf_works _ Hg _ _ Ha)) as []; [done|].
      constructor; try done. intros i. rewrite lookup_insert_eq. by intros [= <-].
    + eapply work_ok_scope; [exact Hsc|by apply wf_works|]. intros i. by rewrite lookup_insert_ne.
  - intros i x. rewrite lookup_insert_Some. intros [[<- <-]|[Hni Hi]].
    + constructor; [rewrite Hbid; apply (wf_bindings _ Hg _ _ Hid)| |intros _; by rewrite Hwk, lookup_insert_eq].
      rewrite Hwk, Hse. apply (owner_scope (works g)); [exact Hsc|by exists a].
    + destruct (wf_bindings _ Hg i x Hi) as [? Hown Hxa]. constructor; [done|by apply (owner_scope (works g))|].
      intros Hact. rewrite lookup_insert_ne; [auto|]. intros Heq. apply Hni. symmetry. apply (Hex i x Hi Hact).
      destruct Hown as (y & Hy & Hys). rewrite <- Heq, Ha in Hy. injection Hy as <-. congruence.
  - intros w i. rewrite lookup_insert_Some. intros [[<- <-]|[Hne Hi]].
    + exists b'. by rewrite lookup_insert_eq.
    + destruct (wf_pointer _ Hg w i Hi) as (x & Hx & Hxw & Hxs). exists x. split; [|done].
      rewrite lookup_insert_ne; [done|]. intros ->. congruence.
  - assert (Hex' : ∀ i x, <[id := b']> (agent_bindings g) !! i = Some x → ab_state x = BlActive →
      ab_session_id x = ab_session_id b → i = id).
    { intros i x. rewrite lookup_insert_Some. intros [[<- <-]|[_ Hi]]; [done|by apply Hex]. }
    intros i j x y Hi Hj Hax Hay Hses. destruct (decide (ab_session_id x = ab_session_id b)) as [Hxb|Hxb].
    + rewrite (Hex' i x), (Hex' j y); try done. congruence.
    + revert Hi Hj. rewrite !lookup_insert_Some. intros [[<- <-]|[_ Hi]]; [congruence|].
      intros [[<- <-]|[_ Hj]]; [congruence|]. by apply (wf_exclusive _ Hg i j x y).
Qed.

(** Suspension: the pointer of the Work is withdrawn when it was this one. *)
Lemma graph_ok_suspend id b b' g : graph_ok g → agent_bindings g !! id = Some b →
  ab_binding_id b' = ab_binding_id b → ab_work_id b' = ab_work_id b → ab_session_id b' = ab_session_id b →
  ab_state b' = BlParked →
  graph_ok (if bool_decide (active_binding_ids g !! ab_work_id b = Some id)
            then point_binding (ab_work_id b) None (put_binding id b' g) else put_binding id b' g).
Proof.
  intros Hg Hid Hbid Hwk Hse Hst. destruct (bk_owner _ _ _ _ (wf_bindings _ Hg _ _ Hid)) as (a & Ha & Hsa).
  assert (Hex : ∀ i j x y, <[id := b']> (agent_bindings g) !! i = Some x → <[id := b']> (agent_bindings g) !! j = Some y →
    ab_state x = BlActive → ab_state y = BlActive → ab_session_id x = ab_session_id y → i = j).
  { intros i j x y. rewrite !lookup_insert_Some. intros [[<- <-]|[_ Hi]]; [congruence|].
    intros [[<- <-]|[_ Hj]]; [congruence|]. by apply (wf_exclusive _ Hg i j x y). }
  case_bool_decide as Hptr.
  - eapply (graph_ok_core (set_works (<[ab_work_id b := with_binding None a]> (works g))
      (set_active_bindings (delete (ab_work_id b) (active_binding_ids g)) (put_binding id b' g)))).
    { unfold point_binding. cbv zeta. simpl. by rewrite Ha. }
    pose proof (same_scope_insert (works g) _ a (with_binding None a) Ha eq_refl eq_refl) as Hsc.
    apply (graph_ok_rescope g); try done; simpl.
    + intros x y. rewrite lookup_insert_Some. intros [[<- <-]|[Hne Hx]].
      * destruct (work_ok_scope _ _ _ _ ∅ _ _ Hsc (wf_works _ Hg _ _ Ha)) as []; [done|].
        constructor; try done. intros i. by rewrite lookup_delete_eq.
      * eapply work_ok_scope; [exact Hsc|by apply wf_works|]. intros i. by rewrite lookup_delete_ne.
    + intros i x. rewrite lookup_insert_Some. intros [[<- <-]|[Hni Hi]].
      * constructor; [rewrite Hbid; apply (wf_bindings _ Hg _ _ Hid)| |by rewrite Hst].
        rewrite Hwk, Hse. apply (owner_scope (works g)); [exact Hsc|by exists a].
      * destruct (wf_bindings _ Hg i x Hi) as [? Hown Hxa]. constructor; [done|by apply (owner_scope (works g))|].
        intros Hact. specialize (Hxa Hact). rewrite lookup_delete_ne; [done|]. intros Heq. congruence.
    + intros w i. rewrite lookup_delete_Some. intros [Hne Hi].
      destruct (wf_pointer _ Hg w i Hi) as (x & Hx & Hxw & Hxs).
      exists x. split; [|done]. rewrite lookup_insert_ne; [done|]. intros ->. congruence.
  - apply (graph_ok_rescope g); try done; simpl; [by intros x y; exists y|by apply wf_works| |].
    + intros i x. rewrite lookup_insert_Some. intros [[<- <-]|[_ Hi]]; [|by apply wf_bindings].
      destruct (wf_bindings _ Hg id b Hid) as [? ? ?]. constructor; rewrite ?Hbid, ?Hwk, ?Hse; try done. congruence.
    + intros w i Hi. destruct (wf_pointer _ Hg w i Hi) as (x & Hx & Hxw & Hxs). exists x. split; [|done].
      rewrite lookup_insert_ne; [done|]. intros ->. apply Hptr. congruence.
Qed.

Lemma owned_binding_ok w id b g : owned_binding w id g = Ok b → agent_bindings g !! id = Some b ∧ ab_work_id b = w.
Proof.
  unfold owned_binding. destruct (agent_bindings g !! id) as [x|]; [|done]. simpl.
  destruct (String.eqb (ab_work_id x) w) eqn:E; [|done]. intros [= <-]. by apply String.eqb_eq in E.
Qed.

Lemma good_binding_create g b env g' : good g → create_agent_binding b g = (Ok env, g') → good g'.
Proof.
  intros Hg. unfold create_agent_binding. destruct (works g !! ab_work_id b) as [a|] eqn:Ha; [|done].
  destruct (opt_eqb (wd_session_id a) (Some (ab_session_id b))) eqn:Hs; [|done]. apply bool_decide_eq_true in Hs.
  cbn [negb]. destruct (agent_bindings g !! ab_binding_id b) eqn:Hnew; [done|]. cbn [is_some]. intros Happ.
  eapply good_append_replay; [|exact Hg|exact Happ|]; [done|].
  intros g1 Hc Hwf Hw He Hk Hr. apply (replay_runtime_event env _ g1 g' He) in Hr. rewrite Hw in Hr.
  simpl in Hr. rewrite String.eqb_refl in Hr. simpl in Hr. apply pair_equal_spec in Hr as [_ <-].
  destruct Hc as (Hc1 & _ & _ & _ & _ & _ & _ & Hc8 & _).
  destruct Hwf as [Hgr Hx]. constructor; [|exact Hx].
  apply (graph_ok_new_binding _ _ a); [done| |done| |done|done]; simpl; [by rewrite Hc8|by rewrite Hc1].
Qed.

Lemma good_binding_usage g id u env g' : good g → record_binding_usage id u g = (Ok env, g') → good g'.
Proof.
  intros Hg Hu. apply gbind_ok in Hu as (b & g0 & Hb & Happ). unfold must in Hb.
  apply pair_equal_spec in Hb as [_ <-].
  eapply good_append_replay; [|exact Hg|exact Happ|]; [done|].
  intros g1 Hc Hwf Hw He Hk Hr. apply (replay_runtime_event env _ g1 g' He) in Hr. simpl in Hr.
  destruct (owned_binding _ _ _) as [x|] eqn:Hx; [|done]. apply owned_binding_ok in Hx as [Hx _].
  apply pair_equal_spec in Hr as [_ <-]. destruct Hwf as [Hgr Hex]. constructor; [|exact Hex].
  by apply (graph_ok_put_binding id x).
Qed.

Lemma find_none {A} (f : A → bool) l a : List.find f l = None → a ∈ l → f a = false.
Proof. intros Hf Ha. by apply (List.find_none f l Hf), list_elem_of_In. Qed.

Lemma good_binding_step g id t psid env g' : good g →
  transition_agent_binding id t psid g = (Ok env, g') → good g'.
Proof.
  intros Hg. unfold transition_agent_binding. destruct (agent_bindings g !! id) as [b|] eqn:Hb; [|done].
  destruct (bool_decide (ab_state b = BlDead)); [done|].
  match goal with |- match ?x with _ => _ end = _ → _ => destruct x as [[e st]|] eqn:Hev; [|done] end.
  match goal with |- match ?x with _ => _ end = _ → _ => destruct x as [|] eqn:Hother; [done|] end.
  intros Happ. eapply good_append_replay; [|exact Hg|exact Happ|]; [done|].
  intros g1 Hc Hwf Hw He Hk Hr. apply (replay_runtime_event env _ g1 g' He) in Hr. rewrite Hw in Hr.
  destruct Hc as (_ & _ & _ & Hc4 & _ & _ & _ & Hc8 & Hc9 & _). destruct Hwf as [Hgr Hx].
  assert (Hexec : ∀ g2, execution_ids g2 = execution_ids g1 → run_states g2 = run_states g1 →
    ∀ w run, execution_ids g2 !! w = Some run → is_Some (run_state w run g2)).
  { intros g2 Hg2 Hs2 w run. rewrite Hg2. unfold run_state. rewrite Hs2. apply Hx. }
  assert (Hpb : ∀ o x, execution_ids (point_binding (ab_work_id b) o (put_binding id x g1)) = execution_ids g1 ∧
    run_states (point_binding (ab_work_id b) o (put_binding id x g1)) = run_states g1).
  { intros o x. unfold point_binding. cbv zeta. simpl. by destruct (works g1 !! _). }
  assert (Hact : ∀ psid', (e = AgentBindingActivated id psid' ∨ e = AgentBindingResumed id psid') → st = BlActive →
    wf g').
  { intros psid' Hee ->. rewrite bool_decide_eq_true_2 in Hother by done.
    assert (Hr' : match owned_binding (ab_work_id b) id g1 with Err e => (Err e, g1) | Ok b0 => (Ok tt,
      point_binding (ab_work_id b) (Some id) (put_binding id (with_binding_state BlActive
        (match psid' with Some _ => psid' | None => ab_provider_session_id b0 end) (we_sequence env) b0) g1)) end =
      (Ok tt, g')) by (destruct Hee as [-> | ->]; exact Hr). clear Hr.
    destruct (owned_binding _ _ _) as [x|] eqn:Hown; [|done]. apply owned_binding_ok in Hown as [Hxb Hxw].
    assert (x = b) as -> by (rewrite Hc8 in Hxb; simpl in Hxb; congruence).
    apply pair_equal_spec in Hr' as [_ <-]. constructor; [|apply Hexec; apply Hpb].
    apply (graph_ok_activate id b); try done. intros i y Hi Hy Hys.
    destruct (String.eqb i id) eqn:Hii; [by apply String.eqb_eq|]. exfalso.
    assert (Hin : y ∈ (map_iter (agent_bindings g)).*2).
    { apply list_elem_of_fmap. exists (i, y). split; [done|]. apply elem_of_map_iter. rewrite Hc8 in Hi. exact Hi. }
    pose proof (find_none _ _ _ Hother Hin) as Hf. simpl in Hf. rewrite bool_decide_eq_true_2, Hys, String.eqb_refl in Hf by done.
    rewrite (bk_id _ _ _ _ (wf_bindings _ Hgr _ _ Hi)), Hii in Hf. done. }
  destruct (String.eqb t "activated"); [injection Hev as <- <-; by apply (Hact psid); [left|]|].
  destruct (String.eqb t "suspended").
  - injection Hev as <- <-. simpl in Hr. destruct (owned_binding _ _ _) as [x|] eqn:Hown; [|done].
    apply owned_binding_ok in Hown as [Hxb Hxw].
    assert (x = b) as -> by (rewrite Hc8 in Hxb; simpl in Hxb; congruence).
    apply pair_equal_spec in Hr as [_ <-]. simpl active_binding_ids. constructor.
    + by apply (graph_ok_suspend id b).
    + apply Hexec; case_bool_decide; try done; apply Hpb.
  - destruct (String.eqb t "resumed"); [|done]. injection Hev as <- <-. by apply (Hact psid); [right|].
Qed.

(** ** Archival *)

(** A Work nothing durable refers to. *)
Record unreferenced (w : string) (g : WorkGateway) : Prop := {
  ur_children x a : works g !! x = Some a → wd_parent_work_id a ≠ Some w;
  ur_pending : pending_approvals g !! w = None;
  ur_effects : effect_projections g !! w = None;
  ur_bindings id b : agent_bindings g !! id = Some b → ab_work_id b ≠ w
}.

Lemma graph_ok_remove_work w g : graph_ok g → unreferenced w g → graph_ok (set_works (delete w (works g)) g).
Proof.
  intros [Hw Hb Hp He Hpend Heff] [Hc Hup Hue Hub]. constructor; try done; simpl.
  - intros x a. rewrite lookup_delete_Some. intros [Hne Hx]. destruct (Hw x a Hx). constructor; try done.
    intros p Hpar. destruct (wk_parent p Hpar) as (pa & Hpa & ?). exists pa. split; [|done].
    rewrite lookup_delete_ne; [done|]. intros <-. by apply (Hc x a).
  - intros id b Hid. destruct (Hb id b Hid) as [? (a & Ha & ?) ?]. constructor; [done| |done]. exists a.
    split; [|done]. rewrite lookup_delete_ne; [done|]. intros Heq. by apply (Hub id b).
  - intros x m Hm. destruct (Hpend x m Hm) as ([a Ha] & ? & ?). split_and!; [|done|done]. exists a.
    rewrite lookup_delete_ne; [done|]. intros ->. congruence.
  - intros x m Hm. destruct (Heff x m Hm) as ([a Ha] & ?). split; [|done]. exists a.
    rewrite lookup_delete_ne; [done|]. intros ->. congruence.
Qed.

Lemma update_archive w g g' :
  apply_work_update w (json_object [("archived", JBool true)]) g = (Ok tt, g') →
  g' = set_works (delete w (works g)) g.
Proof.
  intros Hu. unfold apply_work_update in Hu. apply gbind_ok in Hu as (a & g0 & [= _ <-] & Hu).
  apply gbind_ok in Hu as (a' & g1 & [= _ <-] & Hu). apply gbind_ok in Hu as ([] & g2 & [= <-] & Hu).
  apply gbind_ok in Hu as (p & g3 & [= _ <-] & Hu). apply gbind_ok in Hu as ([] & g4 & [= _ <-] & Hu).
  apply gbind_ok in Hu as (o & g5 & [= _ <-] & Hu). apply gbind_ok in Hu as (b & g6 & [= _ <-] & Hu).
  by apply pair_equal_spec in Hu as [_ <-].
Qed.

Lemma unreferenced_core w g g' : same_core g g' → unreferenced w g → unreferenced w g'.
Proof.
  unfold same_core. intros Hc []. destruct_and! Hc. constructor.
  - intros x a Hx. apply (ur_children0 x). congruence.
  - congruence.
  - congruence.
  - intros id b Hb. apply (ur_bindings0 id). congruence.
Qed.

(** An update of a Work on both sides. *)
Lemma good_update g w patch env gb g' : good g → append w (Domain (WorkUpdated patch)) None g = (Ok env, gb) →
  patch_ok patch → same_core gb g' → same_log gb g' →
  (∀ g1, same_core (logged env g) g1 → wf g1 → apply_work_update w patch g1 = (Ok tt, gb) → wf gb) →
  good g'.
Proof.
  intros Hg Happ Hp Hc Hl Hwf. eapply good_outside; [exact Hc|exact Hl|].
  destruct (append_split _ _ _ _ _ _ (sy_log _ (good_synced _ Hg)) (good_wf _ Hg) Happ)
    as (g1 & [Hw Hev _ _ Hne Hcore Hwf1 Hthen]).
  assert (Hu : apply_work_update w patch g1 = (Ok tt, gb)).
  { apply gbind_ok in Hthen as ([] & g3 & Hu & Hpr). by injection Hpr as <-. }
  eapply good_append; [exact Hg|exact Happ|apply same_log_refl|by apply (Hwf g1)|].
  intros r Hr Har.
  destruct (update_agrees w patch Hp g1 r tt gb) as (r' & Hr' & Ha'); [|exact Hu|].
  { eapply agree_core; [exact Hcore|apply same_core_refl|done]. }
  exists r'. split; [|done].
  unfold replay_event. cbv zeta. destruct (replay_known env r) as [-> ->]; [by rewrite Hw..|].
  by rewrite Hw, Hev.
Qed.

Lemma good_archive g w b g' : good g → unreferenced w g → try_archive_work w g = (Ok b, g') → good g'.
Proof.
  intros Hg Hu. unfold try_archive_work. destruct (works g !! w); [|by intros [= <- <-]]. cbn [is_some negb].
  intros Ht. apply gbind_ok in Ht as (env & gb & Happ & Ht). apply gbind_ok in Ht as ([] & g2 & Hm & [= <- <-]).
  apply pair_equal_spec in Hm as [_ Hm]. cbv zeta in Hm.
  assert (Hgb : ∃ g1, same_core (logged env g) g1 ∧ gb = set_works (delete w (works g1)) g1).
  { destruct (append_split _ _ _ _ _ _ (sy_log _ (good_synced _ Hg)) (good_wf _ Hg) Happ)
      as (g1 & [_ _ _ _ _ Hc1 _ Hthen]).
    exists g1. split; [done|]. apply gbind_ok in Hthen as ([] & g3 & Hu' & Hpr). injection Hpr as <-.
    by apply update_archive. }
  destruct Hgb as (g1 & Hc1 & Hgb).
  eapply good_update; [exact Hg|exact Happ|done| | |].
  - rewrite <- Hm. eapply (same_core_trans _ (set_works (delete w (works gb)) gb)); [|same_core].
    rewrite Hgb. unfold same_core. simpl. by rewrite delete_delete_eq.
  - rewrite <- Hm. by case_match.
  - intros g2' Hc Hwf Hup. apply update_archive in Hup as ->. destruct Hwf as [Hgr Hx].
    constructor; [|done]. apply graph_ok_remove_work; [done|].
    eapply unreferenced_core; [exact Hc|]. by destruct Hu; constructor.
Qed.

(** ** The remaining operations *)

(** What a success keeps. *)
Definition keeps {A} (m : M A) : Prop := ∀ g a g', good g → m g = (Ok a, g') → good g'.

Lemma keeps_ret {A} (a : A) : keeps (gret a).
Proof. by intros g a' g' Hg [= _ <-]. Qed.
Lemma keeps_fail {A} e : keeps (@gfail A e).
Proof. done. Qed.
Lemma keeps_lift {A} (x : result A string) : keeps (glift x).
Proof. by intros g a' g' Hg [= _ <-]. Qed.
Lemma keeps_gets {A} (f : WorkGateway → A) : keeps (gets f).
Proof. by intros g a' g' Hg [= _ <-]. Qed.
Lemma keeps_guard b e : keeps (gguard b e).
Proof. intros g a g' Hg. destruct b; [done|]. by intros [= _ <-]. Qed.
Lemma keeps_must {A} (f : WorkGateway → option A) e : keeps (must f e).
Proof. by intros g a g' Hg [= _ <-]. Qed.
Lemma keeps_bind {A B} (m : M A) (k : A → M B) : keeps m → (∀ a, keeps (k a)) → keeps (gbind m k).
Proof. intros Hm Hk g b g' Hg Hb. apply gbind_ok in Hb as (a & g1 & Ha & Hb). eapply Hk; [|exact Hb]. by eapply Hm. Qed.
Lemma keeps_inert w e causal : inert e = true → keeps (append w e causal).
Proof. intros Hi g env g' Hg Happ. by eapply good_inert. Qed.
Lemma keeps_projected w e causal : projected e = true → keeps (append w e causal).
Proof. intros Hi g env g' Hg Happ. by eapply good_projected. Qed.
Lemma keeps_outside f : (∀ g, same_core g (f g) ∧ same_log g (f g)) → keeps (gmodify f).
Proof. intros Hf g a g' Hg [= _ <-]. destruct (Hf g). by eapply good_outside. Qed.
Lemma keeps_resolved w t run ok : keeps (append_replay w (Domain (ApprovalResolved t run ok))).
Proof. intros g env g' Hg Happ. by eapply good_resolve_event. Qed.
Lemma keeps_discard {A} (m : M A) : keeps m → keeps (discard m).
Proof. intros Hm. apply keeps_bind; [done|]. intros _. apply keeps_ret. Qed.

Ltac keep_step := lazymatch goal with
  | |- keeps (gbind _ _) => apply keeps_bind; [|intros ?]
  | |- keeps (append _ _ _) => first [by apply keeps_inert | by apply keeps_projected]
  | |- keeps (append_replay _ (Domain (ApprovalResolved _ _ _))) => apply keeps_resolved
  | |- keeps (gmodify _) =>
      apply keeps_outside; intros ?; cbv beta zeta;
      repeat match goal with |- context [match ?x with _ => _ end] => destruct x end;
      by unfold same_core
  | |- keeps (gret _) => apply keeps_ret
  | |- keeps (gfail _) => apply keeps_fail
  | |- keeps (glift _) => apply keeps_lift
  | |- keeps (gets _) => apply keeps_gets
  | |- keeps (gguard _ _) => apply keeps_guard
  | |- keeps (must _ _) => apply keeps_must
  | |- keeps (discard _) => apply keeps_discard
  | |- keeps (if ?b then _ else _) => destruct b
  | |- keeps (match ?x with _ => _ end) => destruct x
  end.

Lemma keeps_session_step w id e f : inert (Runtime e) = true → keeps (session_step w id e f).
Proof. intros Hi. unfold session_step, must_session. repeat keep_step. Qed.

Lemma keeps_change_sets c r : keeps (record_file_change_set c) ∧ keeps (settle_file_change_set c r).
Proof. split; [unfold record_file_change_set|unfold settle_file_change_set]; repeat keep_step. Qed.

Lemma keeps_heartbeat child n : keeps (heartbeat_subagent child n).
Proof.
  intros g a g' Hg. unfold heartbeat_subagent. destruct (negb _); [done|]. destruct (presence_is_terminal _ _); [done|].
  cbv zeta. match goal with |- gbind _ _ ?x = _ → _ => assert (Hx : good x) end.
  { destruct (delegation_lease_custody g !! child) as [[h b]|]; [|done].
    eapply good_outside; [| |exact Hg]; by unfold same_core. }
  revert Hx. generalize (match delegation_lease_custody g !! child with
    | Some (handle, bearer) => set_delegation_leases (lease_heartbeat handle bearer n (delegation_leases g)).2 g
    | None => g end). intros g1 Hg1. revert g1 a g' Hg1.
  change (keeps (append child (Domain (SubagentHeartbeat child n)) None ~;; gret n)). repeat keep_step.
Qed.

Lemma keeps_steer i : keeps (steer i).
Proof.
  unfold steer. do 3 (apply keeps_bind; [repeat keep_step|intros ?]).
  intros g env g' Hg Happ. eapply good_update; [exact Hg|exact Happ|done|apply same_core_refl|apply same_log_refl|].
  intros g1 Hc [Hgr Hx] Hu. unfold apply_work_update in Hu.
  apply gbind_ok in Hu as (w & g0 & [= Hw <-] & Hu).
  apply gbind_ok in Hu as (w' & g2 & [= -> <-] & Hu). apply gbind_ok in Hu as ([] & g3 & [= <-] & Hu).
  apply gbind_ok in Hu as (p & g4 & [= _ <-] & Hu). apply gbind_ok in Hu as ([] & g5 & [= _ <-] & Hu).
  apply gbind_ok in Hu as (o & g6 & [= _ <-] & Hu). apply gbind_ok in Hu as (b & g7 & [= Hb <-] & Hu).
  apply pair_equal_spec in Hu as [_ <-]. constructor; [|exact Hx].
  destruct (works g1 !! si_work_id i) as [wa|] eqn:Hwa; [|done]. injection Hw as ->.
  eapply graph_ok_identity; [exact Hgr|exact Hwa|].
  intros x _ Hwx. simpl in Hb. congruence.
Qed.

Lemma keeps_touch w path wr : keeps (record_file_touch w path wr).
Proof.
  intros g a g' Hg. unfold record_file_touch. cbv zeta. destruct (_ || _); [done|].
  generalize (push_unique (trim wr) (writers_for_path w (trim path) g)). intros ws. revert g a g' Hg.
  change (keeps (append w (Operational (FileTouched (trim path) (trim wr))) None ~;;
     (if (1 <? length ws)%nat then append w (Operational (WriteConflict (trim path) ws)) None ~;; gret true
      else gret false))). repeat keep_step.
Qed.

Lemma keeps_detach id : keeps (try_detach_client id).
Proof.
  intros g a g' Hg. unfold try_detach_client. destruct (clients g !! id) as [c|]; [|by intros [= _ <-]].
  revert g a g' Hg. apply keeps_bind; [repeat keep_step|intros _]. apply keeps_bind; [|intros _; apply keeps_ret].
  keep_step.
Qed.

Lemma keeps_migrate r n ttl now : keeps (migrate_run r n ttl now).
Proof.
  unfold migrate_run. do 3 (apply keeps_bind; [repeat keep_step|intros ?]).
  intros g x g' Hg. unfold acquire_run_authority. destruct (negb _); [done|]. destruct (match _ with Some _ => _ | None => _ end); [done|].
  cbv zeta. intros [= _ <-]. eapply good_outside; [| |exact Hg]; by unfold same_core.
Qed.

(** ** Delegated children *)

Lemma keeps_bind_execution w run : keeps (bind_execution w run).
Proof.
  intros g a g' Hg Hb. unfold bind_execution in Hb. apply gbind_ok in Hb as (env & g1 & Hb & [= _ <-]).
  eapply good_bind; [|exact Hg|exact Hb]. intros k Hk. simpl.
  assert (k ≠ "trigger") as Hne by (intros ->; set_solver).
  destruct (String.eqb "trigger" k) eqn:E; [|done]. by apply String.eqb_eq in E.
Qed.

Lemma keeps_transition w run s : work_is_terminal s = false → keeps (record_execution_transition w run s).
Proof. intros Hs g [] g' Hg Ht. by eapply good_transition. Qed.

Lemma child_work_named parent task : child_work_id parent task ≠ "".
Proof. unfold child_work_id. by destruct parent. Qed.

Lemma keeps_delegate p t ob ag wt now : keeps (delegate_child_work p t ob ag wt now).
Proof.
  intros g a g' Hg Hd. unfold delegate_child_work in Hd. cbv zeta in Hd.
  apply gbind_ok in Hd as (pa & g0 & [= Hpa <-] & Hd). apply gbind_ok in Hd as (c & g1 & Hc & Hd).
  assert (Hg1 : good g1).
  { eapply good_child; [|exact Hg| |exact Hc]; [apply child_work_named|].
    intros pa' Hpa'. rewrite Hpa' in Hpa. injection Hpa as ->. by right. }
  clear Hc Hpa Hg. revert g1 a g' Hg1 Hd.
  match goal with |- ∀ g1 a g', good g1 → ?m g1 = _ → _ => change (keeps m) end.
  apply keeps_bind; [apply keeps_bind_execution|intros _]. apply keeps_bind; [by apply keeps_transition|intros _].
  unfold spawn_subagent, must_work. repeat keep_step.
Qed.

(** The outcome of a child whose Run has started. *)
Lemma good_finish g p t o reason a g' : good g →
  run_state (child_work_id p t) (child_run_id p t) g ≠ Some WReady →
  finish_child_work p t o reason g = (Ok a, g') → good g'.
Proof.
  intros Hg Hready. unfold finish_child_work. cbv zeta. simpl cw_work_id. simpl cw_run_id. simpl cw_agent_session_id.
  destruct (work_is_terminal o) eqn:Ho; [|done]. cbn [negb].
  assert (Htail : ∀ g', (append (child_work_id p t) (Domain match o with
      | WFailed => RunFailed (child_run_id p t) (default "subagent failed" reason)
      | WCancelled => RunCancelled (child_run_id p t)
      | _ => RunCompleted (child_run_id p t) end) None ~;;
     set_run_state (child_work_id p t) (child_run_id p t) o None ~;;
     terminate_agent_session (child_work_id p t) (child_agent_session_id p t) ~;;
     gret (child_ref p t)) g = (Ok a, g') → good g').
  { intros g2 Hf. apply gbind_ok in Hf as (env & gb & Happ & Hf). apply gbind_ok in Hf as ([] & gc & Hset & Hf).
    apply gbind_ok in Hf as (env' & gd & Hterm & [= _ <-]).
    eapply keeps_session_step; [|eapply good_run_event; [exact Hg|exact Happ|exact Hset|..]|exact Hterm];
      try done; try (by destruct o); by intros Hr. }
  destruct (run_state (child_work_id p t) (child_run_id p t) g) as [c|]; [|apply Htail].
  destruct (work_is_terminal c); [|apply Htail]. case_bool_decide; [|done]. by intros [= _ <-].
Qed.

(** A resolution is the event, then the Run going on or failing. *)
Lemma good_resolve g w run t ok env g' : good g →
  resolve_pending_approval_for_run w run t ok g = (Ok env, g') → good g'.
Proof.
  intros Hg. unfold resolve_pending_approval_for_run. destruct (is_empty (trim t)); [done|].
  destruct (negb (opt_eqb _ _)); [done|]. destruct (pending_approval w t g); [|done].
  destruct (negb (opt_eqb _ _)); [done|]. destruct (negb (opt_eqb _ _)); [done|].
  destruct (bool_decide (run_state w run g = Some WWaitingApproval)) eqn:Hst; [|done].
  apply bool_decide_eq_true in Hst. cbn [negb]. intros Hr.
  apply gbind_ok in Hr as (env1 & g1 & Happ & Hr). apply gbind_ok in Hr as ([] & g2 & Ht & [= _ <-]).
  assert (Hg1 : good g1) by by eapply good_resolve_event.
  eapply good_transition; [exact Hg1|exact Ht|]. intros Hready. exfalso.
  assert (Hsame : run_states g1 = run_states g).
  { unfold append_replay in Happ. apply gbind_ok in Happ as (e1 & ga & Ha & Hb).
    apply gbind_ok in Hb as ([] & gb & Hb & [= _ <-]).
    destruct (append_split _ _ _ _ _ _ (sy_log _ (good_synced _ Hg)) (good_wf _ Hg) Ha) as (gx & [Hw He _ _ _ Hc _ Hth]).
    apply appended_unprojected in Hth as ->; [|done].
    assert (Hgx : run_states gx = run_states g) by apply Hc. rewrite <- Hgx. revert Hb.
    unfold replay_event. cbv zeta. rewrite Hw, He. destruct (is_empty w); [done|]. destruct (_ && _); [done|].
    unfold replay_approval_resolved. destruct (is_empty _); [done|]. destruct (negb _); [done|].
    match goal with |- match ?x with _ => _ end = _ → _ => destruct x as [[]|]; [|done] end.
    intros Hb. apply pair_equal_spec in Hb as [_ <-]. unfold remove_pending.
    destruct (pending_approvals gx !! w); simpl; by destruct (reviews gx !! t). }
  unfold run_state in *. rewrite Hsame in Hready. congruence.
Qed.

Lemma keeps_refused p r : keeps (record_delegation_refused p r).
Proof. unfold record_delegation_refused. repeat keep_step. Qed.

Lemma keeps_clients c : keeps (attach_client c).
Proof. unfold attach_client, must_work. repeat keep_step. Qed.

Lemma keeps_review_request r : keeps (request_review r).
Proof. unfold request_review, must_work. repeat keep_step. Qed.
Lemma keeps_review_resolution id s : keeps (resolve_review_with id s).
Proof. unfold resolve_review_with. repeat keep_step. Qed.

Lemma keeps_thought w t : keeps (record_thought w t).
Proof. unfold record_thought, must_work. repeat keep_step. Qed.
Lemma keeps_pty w id process rows cols : keeps (spawn_pty w id process rows cols).
Proof. unfold spawn_pty, must_work. repeat keep_step. Qed.
Lemma keeps_pty_output w id chunk : keeps (write_pty_output w id chunk).
Proof. unfold write_pty_output, must_pty. repeat keep_step. Qed.

(** ** The core *)

(** The operations of the core, and what they ask of the gateway. *)
Definition core_op (g : WorkGateway) (o : work_op) : Prop :=
  match o with
  | WoCreate w _ _ _ _ => w ≠ ""
  | WoChild _ w _ _ session _ => w ≠ "" ∧ session = None
  | WoBind _ _ metadata => plain_metadata metadata
  | WoTransition w run s => run_state w run g = Some WReady → work_is_terminal s = false
  | WoFinish parent task _ _ => run_state (child_work_id parent task) (child_run_id parent task) g ≠ Some WReady
  | WoArchive w => unreferenced w g
  | WoCheckpoint _ _ _ | WoLease _ _ _ _ _ _ | WoSweep _ _ | WoNode _ _ => False
  | _ => True
  end.

Lemma discard_ok {A} (m : M A) g g' : discard m g = (Ok tt, g') → ∃ a, m g = (Ok a, g').
Proof. intros Hd. apply gbind_ok in Hd as (a & g1 & Hm & [= <-]). by exists a. Qed.

(** A wait is never a terminal state. *)
Lemma wait_not_terminal r : work_is_terminal (wait_reason_work_state r) = false.
Proof. by destruct r. Qed.

Lemma core_exec_good g o g' : good g → core_op g o → work_exec o g = (Ok tt, g') → good g'.
Proof.
  intros Hg Hc Ho. destruct o; simpl in Hc, Ho; try done;
    try (apply discard_ok in Ho as [? Ho]).
  - by eapply good_create.
  - destruct Hc as [Hne ->]. eapply good_child; [done|exact Hg| |exact Ho]. by left.
  - by eapply good_bind.
  - by eapply good_transition.
  - eapply good_transition; [exact Hg|exact Ho|]. intros _. apply wait_not_terminal.
  - by eapply good_request.
  - by eapply good_resolve.
  - revert Ho. apply keeps_bind; [apply keeps_guard|intros _|done]. repeat keep_step.
  - by eapply good_effect.
  - by eapply good_reconcile.
  - by eapply good_archive.
  - by eapply keeps_delegate.
  - by eapply good_finish.
  - by eapply (proj1 (keeps_change_sets c None)).
  - by eapply (proj2 (keeps_change_sets c reason)).
  - by eapply keeps_refused.
  - by eapply keeps_heartbeat.
  - by eapply good_binding_create.
  - by eapply good_binding_step.
  - by eapply good_binding_usage.
  - by eapply keeps_clients.
  - by eapply keeps_detach.
  - by eapply keeps_steer.
  - by eapply keeps_review_request.
  - by eapply keeps_review_resolution.
  - by eapply keeps_thought.
  - by eapply keeps_touch.
  - by eapply keeps_pty.
  - by eapply keeps_pty_output.
  - by eapply keeps_migrate.
Qed.

(** Operations of the core that succeed, and operations of any kind that are
    refused and leave no trace: no record in the journal, no change of the core
    projections. A refused disk write leaves none; the description of a Run that
    conflicts with an earlier one does, since its record is written before the
    conflict is found ([conflicting_rebind_does_not_reopen]). *)
Inductive core_run : WorkGateway → list work_op → WorkGateway → Prop :=
  | core_nil g : core_run g [] g
  | core_done g o g1 ops g2 :
      core_op g o → work_exec o g = (Ok tt, g1) → core_run g1 ops g2 → core_run g (o :: ops) g2
  | core_refused g o e g1 ops g2 :
      work_exec o g = (Err e, g1) → same_core g g1 → same_log g g1 → core_run g1 ops g2 → core_run g (o :: ops) g2.

Lemma core_run_good g ops g' : core_run g ops g' → good g → good g'.
Proof.
  induction 1 as [|g o g1 ops g2 Hc Ho _ IH|g o e g1 ops g2 Ho Hc Hl _ IH]; auto; intros Hg.
  - by eapply IH, core_exec_good.
  - by eapply IH, good_outside.
Qed.

(** [C5] The journal is the gateway: after operations of the core, each of which
    succeeds under its premises or is refused without a trace, the journal opens
    without an error, and the gateway it opens to agrees with the live one on
    Works, approvals, effects, bindings, change sets, refusals and heartbeats -
    and on the Runs, up to two states the journal does not tell apart: a Run that
    is only Ready may be missing, and a verifying one is read as running. The
    premises leave out Works without an id, children with a session of their
    own, descriptions of a Run that could conflict, a Run that ends before it
    started, an archived Work others refer to, steering checkpoints, delegation
    leases, the orphan sweep and the binding of a Work to a node; and a write
    that reaches the file and then fails leaves a trace. *)
Theorem reopened_gateway_agrees ops g :
  core_run gateway_fresh ops g →
  ∃ lines r, wg_journal g = Some lines ∧ gateway_open lines = Ok r ∧ agree g r.
Proof.
  intros Hrun. destruct (core_run_good _ _ _ Hrun good_fresh) as [Hw Hs].
  destruct (lo_some g (sy_log g Hs)) as [lines Hj]. exists lines.
  destruct (synced_reopens g lines Hw Hs Hj) as (r & ? & ?). by exists r.
Qed.

(** [C6] The gateway stays well-formed: Works name their parents and share
    their scope, a current Run is a known one, every pending approval belongs
    to a known Run that waits for approval, every effect to a Work, a binding to
    the session that owns its Work, the pointer of a Work to its active binding,
    and a session has one active binding at most. *)
Theorem core_gateway_is_well_formed ops g : core_run gateway_fresh ops g → wf g.
Proof. intros Hrun. apply (core_run_good _ _ _ Hrun good_fresh). Qed.

(** The premises of a run, one operation after the other. *)
Fixpoint all_core (g : WorkGateway) (ops : list work_op) : Prop :=
  match ops with
  | [] => True
  | o :: ops' => core_op g o ∧ (work_exec o g).1 = Ok tt ∧ all_core (work_exec o g).2 ops'
  end.

Lemma all_core_run ops g : all_core g ops → core_run g ops (work_play ops g).
Proof.
  revert g. induction ops as [|o ops IH]; intros g; [constructor|]. intros (Hc & Ho & Hr).
  eapply core_done; [exact Hc| |by apply IH]. by rewrite (surjective_pairing (work_exec o g)), Ho.
Qed.
End reopen.

(** ** A run of the core *)

#[local] Existing Instances plain_render plain_change_render calm_world plain_context.

Definition parked_binding : AgentBinding :=
  {| ab_binding_id := "b"; ab_session_id := "s"; ab_work_id := "w"; ab_agent_id := "a"; ab_adapter_id := None;
     ab_protocol := ApAcp; ab_provider_session_id := None; ab_model := None; ab_mode := None;
     ab_capability_manifest := []; ab_governance_mode := GmGovernedMediated; ab_bridge_id := None;
     ab_state := BlParked;
     ab_usage := {| bu_input_tokens := 0; bu_output_tokens := 0; bu_cost_micros := 0 |};
     ab_last_event_seq := 0; ab_private_state_ref := None |}.

Definition approved_run : list work_op := running ++
  [WoChild "w" "c" "part" None None 5; WoBinding parked_binding; WoBindingStep "b" "activated" (Some "p");
   WoEffect "w" "e" "attempted" "" (Some "grant") (Some IcSafeRetry); WoEffect "w" "e" "observed" "written" None None;
   WoTransition "w" "r" WWaitingApproval; WoRequest "w" "r" "t" "tool" "hash" "R2" 7; WoResolve "w" "r" "t" true;
   WoTransition "w" "r" WCheckpointed; WoTransition "w" "r" WRunning; WoTransition "w" "r" WCompleted].

(** One operation of a concrete run. *)
Ltac core_premise := lazymatch goal with
  | |- core_op _ (WoCreate _ _ _ _ _) => discriminate
  | |- core_op _ (WoChild _ _ _ _ _ _) => split; [discriminate|reflexivity]
  | |- core_op _ (WoBind _ _ _) => intros k Hk;
      repeat (apply elem_of_cons in Hk as [-> |Hk]; [reflexivity|]); by apply not_elem_of_nil in Hk
  | |- core_op _ (WoTransition _ _ _) => vm_compute; intros; first [reflexivity|discriminate]
  | |- core_op _ _ => exact I
  end.
Ltac core_step := lazymatch goal with
  | |- all_core _ [] => exact I
  | |- all_core _ (_ :: _) => split; [core_premise | split; [vm_compute; reflexivity|]]
  end.

Lemma approved_run_core : core_run gateway_fresh approved_run (work_play approved_run gateway_fresh).
Proof. apply all_core_run. unfold approved_run, running, bound_work. cbn [app]. repeat core_step. Qed.

Lemma reopened_gateway_agrees_witness :
  ∃ lines r, wg_journal (work_play approved_run gateway_fresh) = Some lines ∧ gateway_open lines = Ok r ∧
  length lines = 16%nat ∧ run_state "w" "r" r = Some WCompleted ∧
  (ef_state <$> effect_status "w" "e" r) = Some "observed".
Proof.
  destruct (reopened_gateway_agrees _ _ approved_run_core) as (lines & r & Hj & Hr & Ha).
  exists lines, r. split; [exact Hj|]. split; [exact Hr|]. split; [vm_compute in Hj; injection Hj as <-; reflexivity|].
  destruct Ha as [_ _ _ _ _ He _ _ _ _ _ _ Hs _]. split.
  - specialize (Hs "w" "r"). vm_compute in Hs. exact Hs.
  - unfold effect_status. rewrite He. vm_compute. reflexivity.
Defined.

Lemma core_gateway_is_well_formed_witness :
  ∃ a, works (work_play approved_run gateway_fresh) !! "c" = Some a ∧ wd_parent_work_id a = Some "w" ∧
  ∃ p, works (work_play approved_run gateway_fresh) !! "w" = Some p ∧ wd_session_id p = wd_session_id a.
Proof.
  destruct (core_gateway_is_well_formed _ _ approved_run_core) as [[Hw _ _ _ _ _] _].
  destruct (works (work_play approved_run gateway_fresh) !! "c") as [a|] eqn:Ha; [|by vm_compute in Ha].
  exists a. split; [reflexivity|]. assert (Hp : wd_parent_work_id a = Some "w") by (by vm_compute in Ha; injection Ha as <-).
  split; [exact Hp|]. destruct (wk_parent _ _ _ _ _ (Hw "c" a Ha) "w" Hp) as (p & Hpw & Hs & _).
  exists p. split; [exact Hpw|exact Hs].
Defined.
