(* ===== verification/WorkAuthority.v ===== *)
(** * Run authority and its fence

    Which node may act for a Run: acquire, release, renew, recover and migrate
    of [everyaios-core/src/work_gateway.rs], as runs of operations, and the
    fence that outlives every holder. *)
From S2P Require Import Order Prelude Json LeaseTypes Lease WorkTypes WorkEvents Work WorkOps WorkRuntime WorkLog.

Inductive auth_op :=
  | AuAcquire (run node : string) (ttl now : N)
  | AuRelease (run node : string) (token now : N)
  | AuRenew (run node : string) (token ttl now : N)
  | AuRecover (run node : string) (ttl now : N)
  | AuMigrate (run node : string) (ttl now : N)
  | AuPair (n : ExecutionNode) (now : N)
  | AuVerify (id : string) (now : N)
  | AuHeartbeat (id : string) (now : N).

Section authority.

Definition auth_exec (o : auth_op) (g : WorkGateway) : WorkGateway :=
  match o with
  | AuAcquire run node ttl now => (acquire_run_authority run node ttl now g).2
  | AuRelease run node token now => (release_authority run node token now g).2
  | AuRenew run node token ttl now => (renew_lease run node token ttl now g).2
  | AuRecover run node ttl now => (recover_run run node ttl now g).2
  | AuMigrate run node ttl now => (migrate_run run node ttl now g).2
  | AuPair n now => (pair_node n now g).2
  | AuVerify id now => (verify_node id now g).2
  | AuHeartbeat id now => (heartbeat_node id now g).2
  end.

Definition auth_play (ops : list auth_op) (g : WorkGateway) : WorkGateway := foldl (λ g o, auth_exec o g) g ops.

(** The token last granted for a Run. *)
Definition fence (run : string) (g : WorkGateway) : N := default 0%N (fence_counters g !! run).

(** [n] grants at most so far, and every live authority carries the fence. *)
Record fenced (n : N) (g : WorkGateway) : Prop := {
  fe_bound run : (fence run g ≤ n)%N;
  fe_current run a : authorities g !! run = Some a → ra_fencing_token a = fence run g
}.

(** One step: the fences do not go back, and an authority at an old fence is
    the old one's. *)
Record fence_step (g g' : WorkGateway) : Prop := {
  fs_mono run : (fence run g ≤ fence run g')%N;
  fs_same run a' : authorities g' !! run = Some a' → fence run g' = fence run g →
    ∃ a, authorities g !! run = Some a ∧ ra_node_id a' = ra_node_id a
}.

Lemma fence_step_refl g : fence_step g g.
Proof. constructor; [done|]. intros run a Ha _. by exists a. Qed.

Lemma fence_step_trans g1 g2 g3 : fence_step g1 g2 → fence_step g2 g3 → fence_step g1 g3.
Proof.
  intros [M1 S1] [M2 S2]. constructor.
  - intros run. specialize (M1 run). specialize (M2 run). lia.
  - intros run a Ha Heq. specialize (M1 run). specialize (M2 run).
    destruct (S2 run a Ha) as (b & Hb & Hn); [lia|]. destruct (S1 run b Hb) as (c & Hc & Hn'); [lia|].
    exists c. split; [done|congruence].
Qed.

(** A step that grants nothing new. *)
Definition quiet (g g' : WorkGateway) : Prop :=
  fence_counters g' = fence_counters g ∧
  ∀ run a', authorities g' !! run = Some a' → ∃ a, authorities g !! run = Some a ∧
    ra_node_id a' = ra_node_id a ∧ ra_fencing_token a' = ra_fencing_token a.

Lemma quiet_fenced n g g' : quiet g g' → fenced n g → fenced n g' ∧ fence_step g g'.
Proof.
  intros [Hf Ha] [Hb Hc]. unfold fence in *. rewrite <- Hf in Hb, Hc.
  split; constructor; unfold fence; rewrite ?Hf in *; try done.
  - intros run a' Hr. destruct (Ha run a' Hr) as (a & Hra & _ & ->). by apply Hc.
  - intros run a' Hr _. destruct (Ha run a' Hr) as (a & Hra & Hn & _). by exists a.
Qed.

Lemma acquire_fenced n g run node ttl now : (n < u64_max)%N → fenced n g →
  fenced (n + 1) (acquire_run_authority run node ttl now g).2 ∧
  fence_step g (acquire_run_authority run node ttl now g).2.
Proof.
  intros Hn Hg. unfold acquire_run_authority.
  assert (Hrefl : fenced (n + 1) g ∧ fence_step g g).
  { split; [|apply fence_step_refl]. destruct Hg as [Hb Hc]. constructor; [|done]. intros r. specialize (Hb r). lia. }
  destruct (negb _); [done|]. destruct (match _ with Some _ => _ | None => _ end); [done|]. cbv zeta. simpl.
  destruct Hg as [Hb Hc]. fold (fence run g). pose proof (Hb run) as Hr.
  assert (Hadd : u64_add (fence run g) 1 = (fence run g + 1)%N) by (apply u64_add_small; lia). rewrite Hadd.
  assert (Hf : ∀ r, fence r (set_authorities (<[run := {| ra_run_id := run; ra_node_id := node;
      ra_lease_id := "lease:" +:+ run +:+ ":" +:+ pretty (fence run g + 1)%N;
      ra_fencing_token := (fence run g + 1)%N; ra_granted_at_ms := now;
      ra_expires_at_ms := if (ttl =? 0)%N then 0%N else u64_add now ttl |}]> (authorities g))
      (set_fence_counters (<[run := (fence run g + 1)%N]> (fence_counters g)) g)) =
    if decide (r = run) then (fence run g + 1)%N else fence r g).
  { intros r. unfold fence at 1. simpl. destruct (decide (r = run)) as [->|Hne].
    - by rewrite lookup_insert_eq.
    - by rewrite lookup_insert_ne. }
  split; constructor; intros r; rewrite ?Hf.
  - specialize (Hb r). case_decide; lia.
  - intros a. simpl. rewrite lookup_insert_Some. intros [[<- <-]|[Hne Ha]]; [by rewrite decide_True|].
    rewrite decide_False by done. by apply Hc.
  - case_decide; subst; lia.
  - intros a. simpl. rewrite lookup_insert_Some. intros [[<- <-]|[Hne Ha]] Heq.
    + rewrite decide_True in Heq by done. lia.
    + by exists a.
Qed.

Lemma auth_exec_fenced n g o : (n < u64_max)%N → fenced n g →
  fenced (n + 1) (auth_exec o g) ∧ fence_step g (auth_exec o g).
Proof.
  intros Hn Hg.
  assert (Hquiet : ∀ g', quiet g g' → fenced (n + 1) g' ∧ fence_step g g').
  { intros g' Hq. destruct (quiet_fenced n g g' Hq Hg) as [[Hb Hc] Hs]. split; [|done]. constructor; [|done].
    intros r. specialize (Hb r). lia. }
  assert (Hsame : ∀ g', fence_counters g' = fence_counters g → authorities g' = authorities g → quiet g g').
  { intros g' Hf Ha. split; [done|]. rewrite Ha. intros run a' Hr. by exists a'. }
  destruct o; simpl.
  - by apply acquire_fenced.
  - apply Hquiet. unfold release_authority. destruct (validate_fencing_token _ _ _ _ _); [|by apply Hsame].
    split; [done|]. intros r a'. simpl. rewrite lookup_delete_Some. intros [_ Ha]. by exists a'.
  - apply Hquiet. unfold renew_lease. destruct (negb _); [by apply Hsame|].
    destruct (authorities g !! run) as [a|] eqn:Ha; [|by apply Hsame].
    split; [done|]. intros r a'. simpl. rewrite lookup_insert_Some. intros [[<- <-]|[_ Hr]]; [by exists a|by exists a'].
  - unfold recover_run. destruct (authorities g !! run) as [a|]; [|by apply acquire_fenced].
    destruct (authority_valid _ _ _ _); [by apply Hquiet, Hsame|by apply acquire_fenced].
  - unfold migrate_run, must, gbind, gguard. destruct (nodes g !! node) as [x|]; simpl; [|by apply Hquiet, Hsame].
    destruct (negb _); simpl; [by apply Hquiet, Hsame|].
    set (g1 := set_authorities (delete run (authorities g)) g).
    assert (Hq : quiet g g1).
    { split; [done|]. intros r a'. simpl. rewrite lookup_delete_Some. intros [_ Ha]. by exists a'. }
    destruct (quiet_fenced n g g1 Hq Hg) as [Hg1 Hs1]. destruct (acquire_fenced n g1 run node ttl now Hn Hg1) as [Hf Hs].
    split; [done|]. by eapply fence_step_trans.
  - apply Hquiet, Hsame; unfold pair_node, gbind, gguard; by destruct (is_empty _).
  - apply Hquiet, Hsame; unfold verify_node, must, gbind, gguard; destruct (nodes g !! id); simpl; try done;
      by destruct (negb _).
  - apply Hquiet, Hsame; unfold heartbeat_node; by destruct (nodes g !! id).
Qed.

Lemma auth_play_fenced n ops g : (n + N.of_nat (length ops) ≤ u64_max)%N → fenced n g →
  fenced (n + N.of_nat (length ops)) (auth_play ops g) ∧ fence_step g (auth_play ops g).
Proof.
  revert n g. induction ops as [|o ops IH]; intros n g Hn Hg.
  - simpl. rewrite N.add_0_r. split; [done|apply fence_step_refl].
  - cbn [length] in *. destruct (auth_exec_fenced n g o) as [Hf Hs]; [lia|done|].
    destruct (IH (n + 1)%N (auth_exec o g)) as [Hf' Hs']; [lia|done|]. split; [|by eapply fence_step_trans].
    eapply (eq_ind _ (λ k, fenced k _) Hf'). lia.
Qed.

Lemma fenced_new : fenced 0 gateway_new.
Proof. by constructor. Qed.

(** The journal does not carry the fence: a gateway that is opened from it has
    none. *)
Definition unfenced (g : WorkGateway) : Prop := fence_counters g = ∅ ∧ authorities g = ∅.

Section reopening.
Context `{RenderFact} `{HashIter} `{WorkWorld}.

Lemma open_line_unfenced last env : preserves unfenced (open_line last env).
Proof.
  intros g Hg. unfold open_line. destruct (1 <? we_schema_version env)%N; [done|]. cbv zeta.
  destruct (match last with Some _ => _ | None => _ end); [done|]. destruct (_ && _); [done|].
  match goal with |- context [duplicate_sequence _ ?x] => assert (Hx : unfenced x) by by destruct (_ <=? _)%N end.
  destruct (duplicate_sequence _ _); [exact Hx|].
  eapply (preserves_bind unfenced); [|intros []; apply preserves_ret|by case_match].
  intros g' [Hf Ha]. destruct (replay_event_keeps_log {| we_work_id := we_work_id env; we_sequence := we_sequence env;
    we_event_id := we_event_id env; we_event := we_event env; we_timestamp := we_timestamp env; we_trace_id := we_trace_id env;
    we_causal_parent := we_causal_parent env; we_schema_version := 1 |} g') as (_ & Hf' & Ha'). unfold unfenced. by rewrite Hf', Ha'.
Qed.
Lemma open_lines_unfenced last lines : preserves unfenced (open_lines last lines).
Proof.
  revert last. induction lines as [|env lines IH]; intros last; [apply preserves_ret|].
  apply preserves_bind; [apply open_line_unfenced|apply IH].
Qed.
Lemma reopened_unfenced lines r : gateway_open lines = Ok r → unfenced r.
Proof.
  unfold gateway_open. pose proof (open_lines_unfenced None lines (set_journal (Some lines) gateway_new)) as Hp.
  destruct (open_lines _ _ _) as [[o|e] g]; [|done]. simpl. destruct (validate_replayed_graph g); [|done]. simpl.
  intros [= <-]. by apply Hp.
Qed.
End reopening.

(** [C7] The fence outlives the holder, as long as the gateway is open. Whatever
    was done before, once an authority is granted for a Run (acquired, recovered
    or migrated), then after any further operations of the open gateway a node
    that passes the fence for that Run carries a token at least as high, and with
    the granted token it is the node the authority was granted to; every token
    valid before the grant is lower. (Fewer than 2^64 operations.) The tokens are
    those of one opening: a gateway opened from a journal, whatever the journal
    holds, knows no authority and counts from zero again. *)
Theorem authority_is_fenced `{RenderFact} `{HashIter} `{WorkWorld} before after run node ttl now a g :
  (N.of_nat (length before) + 1 + N.of_nat (length after) ≤ u64_max)%N →
  acquire_run_authority run node ttl now (auth_play before gateway_new) = (Ok a, g) →
  (∀ holder token at_ms, validate_fencing_token run holder token at_ms (auth_play before gateway_new) = true →
     (token < ra_fencing_token a)%N) ∧
  (∀ holder token at_ms, validate_fencing_token run holder token at_ms (auth_play after g) = true →
     (ra_fencing_token a ≤ token)%N ∧ (token = ra_fencing_token a → holder = node)) ∧
  (∀ lines reopened, gateway_open lines = Ok reopened → fence run reopened = 0%N ∧ authorities reopened !! run = None).
Proof.
  intros Hlen Hacq. destruct (auth_play_fenced 0 before gateway_new) as [Hf0 _]; [lia|apply fenced_new|].
  set (g0 := auth_play before gateway_new) in *. rewrite N.add_0_l in Hf0.
  destruct (acquire_fenced (N.of_nat (length before)) g0 run node ttl now) as [Hf1 Hs1]; [lia|done|].
  rewrite Hacq in Hf1, Hs1. simpl in Hf1, Hs1.
  destruct (auth_play_fenced (N.of_nat (length before) + 1)%N after g) as [Hf2 Hs2]; [lia|done|].
  assert (Hget : authorities g !! run = Some a ∧ ra_node_id a = node ∧ ra_fencing_token a = (fence run g0 + 1)%N).
  { revert Hacq. unfold acquire_run_authority. destruct (negb _); [done|].
    destruct (match _ with Some _ => _ | None => _ end); [done|]. cbv zeta. intros [= <- <-]. simpl.
    rewrite lookup_insert_eq. split_and!; [done|done|]. apply u64_add_small.
    pose proof (fe_bound _ _ Hf0 run). lia. }
  destruct Hget as (Hrun & Hnode & Htok).
  assert (Hvalid : ∀ x holder token at_ms, validate_fencing_token run holder token at_ms x = true →
    ∃ b, authorities x !! run = Some b ∧ ra_node_id b = holder ∧ ra_fencing_token b = token).
  { intros x holder token at_ms Hv. unfold validate_fencing_token in Hv. destruct (authorities x !! run) as [b|]; [|done].
    exists b. unfold authority_valid in Hv. apply andb_true_iff in Hv as [Hv _]. apply andb_true_iff in Hv as [Hv Ht].
    apply String.eqb_eq in Hv. apply N.eqb_eq in Ht. by subst. }
  split; [|split; [|intros lines r [Hf Ha]%reopened_unfenced; unfold fence; by rewrite Hf, Ha]].
  - intros holder token at_ms Hv. destruct (Hvalid _ _ _ _ Hv) as (b & Hb & _ & <-).
    rewrite (fe_current _ _ Hf0 run b Hb), Htok. lia.
  - intros holder token at_ms Hv. destruct (Hvalid _ _ _ _ Hv) as (b & Hb & <- & <-).
    rewrite (fe_current _ _ Hf2 run b Hb), (fe_current _ _ Hf1 run a Hrun).
    split; [apply (fs_mono _ _ Hs2)|]. intros Heq. destruct (fs_same _ _ Hs2 run b Hb Heq) as (c & Hc & Hn).
    congruence.
Qed.
End authority.

Definition fence_node (id : string) : ExecutionNode :=
  {| xn_node_id := id; xn_owner := "o"; xn_platform := "linux"; xn_node_kind := "k"; xn_always_on := true;
     xn_capabilities := []; xn_sandbox_class := "c"; xn_network_policy := "p"; xn_credential_policy := "p";
     xn_health := "new"; xn_last_heartbeat_ms := 0 |}.

Definition fence_before : list auth_op :=
  [AuPair (fence_node "n1") 1; AuPair (fence_node "n2") 1; AuVerify "n2" 2; AuAcquire "r" "n1" 10 3].

Lemma authority_is_fenced_witness :
  validate_fencing_token "r" "n1" 1 20 (auth_play [AuRenew "r" "n1" 1 50 16]
    (acquire_run_authority "r" "n2" 0 15 (auth_play fence_before gateway_new)).2) = false.
Proof.
  destruct (acquire_run_authority "r" "n2" 0 15 (auth_play fence_before gateway_new)) as [[a|] g] eqn:Hacq;
    [|by vm_compute in Hacq].
  destruct (@authority_is_fenced plain_render list_iter calm_world fence_before [AuRenew "r" "n1" 1 50 16] "r" "n2" 0 15 a g) as (_ & Hafter & _);
    [by vm_compute|exact Hacq|].
  assert (Htok : ra_fencing_token a = 2%N) by (vm_compute in Hacq; injection Hacq as <- _; reflexivity).
  apply not_true_is_false. intros Hv. destruct (Hafter _ _ _ Hv) as [Hle _].
  rewrite Htok in Hle. by vm_compute in Hle.
Defined.

(** The fence is not in the journal: a gateway that is opened again grants the
    first token again. *)
Example reopened_fence_restarts :
  let g := auth_play [AuPair (fence_node "n1") 1; AuAcquire "r" "n1" 0 3] gateway_new in
  let reopened := auth_play [AuPair (fence_node "n1") 5; AuAcquire "r" "n1" 0 6] gateway_new in
  fence "r" g = 1%N ∧ validate_fencing_token "r" "n1" 1 7 reopened = true.
Proof. by vm_compute. Qed.
