(* ===== verification/WorkGraph.v ===== *)
(** * The delegation graph

    Parent links of Works: what the bounded walks of [work_depth],
    [is_descendant_of] and [delegation_cycle] compute, for a Work whose line of
    ancestors ends. *)
From S2P Require Import Order Prelude Json LeaseTypes Lease WorkTypes.
From S2P Require Import WorkEvents Work WorkOps WorkRuntime WorkDelegation.

Section graph.
Context (g : WorkGateway).

(** [w] and its ancestors, up to a Work without a parent. *)
Inductive lineage : string → list string → Prop :=
  | lineage_root w a : works g !! w = Some a → wd_parent_work_id a = None → lineage w [w]
  | lineage_child w a p l :
      works g !! w = Some a → wd_parent_work_id a = Some p → lineage p l → lineage w (w :: l).

Lemma lineage_unique w l l' : lineage w l → lineage w l' → l = l'.
Proof.
  intros Hl. revert l'. induction Hl as [w a Ha Hn|w a p l Ha Hp Hl IH]; intros l' Hl';
    inversion Hl' as [? b Hb Hn'|? b q l2 Hb Hq Hl2]; subst; rewrite Ha in Hb; injection Hb as <-; try congruence.
  rewrite Hp in Hq. injection Hq as <-. f_equal. by apply IH.
Qed.

Lemma lineage_head w l : lineage w l → ∃ l', l = w :: l'.
Proof. intros []; eauto. Qed.

(** An ancestor's line is the rest of the line. *)
Lemma lineage_suffix w l i x : lineage w l → l !! i = Some x → lineage x (drop i l).
Proof.
  intros Hl. revert i. induction Hl as [w a Ha Hn|w a p l Ha Hp Hl IH]; intros [|i] Hi; simpl in *; try done.
  - injection Hi as <-. by eapply lineage_root.
  - injection Hi as <-. by eapply lineage_child.
  - by apply IH.
Qed.

Lemma lineage_nodup w l : lineage w l → NoDup l.
Proof.
  intros Hl. apply NoDup_alt. intros i j x Hi Hj.
  pose proof (lineage_suffix _ _ _ _ Hl Hi) as Li. pose proof (lineage_suffix _ _ _ _ Hl Hj) as Lj.
  pose proof (f_equal length (lineage_unique _ _ _ Li Lj)) as Hd. rewrite !length_drop in Hd.
  apply lookup_lt_Some in Hi, Hj. lia.
Qed.

Lemma lineage_known w l x : lineage w l → x ∈ l → is_Some (works g !! x).
Proof. induction 1 as [w a Ha|w a p l Ha _ _ IH]; rewrite elem_of_cons; intros [->|Hx]; eauto; by apply not_elem_of_nil in Hx. Qed.

Lemma lineage_length w l : lineage w l → length l ≤ size (works g).
Proof.
  intros Hl. rewrite <- size_dom. rewrite <- (size_list_to_set (C := gset string) l) by (by eapply lineage_nodup).
  apply subseteq_size. intros x Hx. apply elem_of_list_to_set in Hx. apply elem_of_dom. by eapply lineage_known.
Qed.

(** ** Depth *)

Lemma depth_walk_lineage w cursor l fuel depth :
  lineage cursor l → length l ≤ S fuel →
  depth_walk fuel w cursor depth g = Ok (depth + N.of_nat (pred (length l)))%N.
Proof.
  intros Hl. revert fuel depth. induction Hl as [x a Ha Hn|x a p l Ha Hp Hl IH]; intros fuel depth Hf.
  - destruct fuel; simpl; rewrite Ha; simpl; rewrite Hn; f_equal; lia.
  - destruct (lineage_head _ _ Hl) as [l' ->]. simpl in Hf. destruct fuel as [|fuel]; [lia|].
    simpl depth_walk. rewrite Ha. simpl. rewrite Hp. rewrite IH by (simpl; lia). f_equal. simpl. lia.
Qed.

(** The depth of a Work is the number of its ancestors: the walk ends,
    without an error, for every Work whose line of ancestors ends. *)
Theorem work_depth_counts_ancestors w l :
  lineage w l → work_depth w g = Ok (N.of_nat (pred (length l))).
Proof.
  intros Hl. unfold work_depth. rewrite (depth_walk_lineage w w l); [done|done|].
  pose proof (lineage_length _ _ Hl). lia.
Qed.

(** ** Cycles *)

Definition named_bindings (l : list string) : list (string * string) :=
  omap (λ x, b ← works g !! x ≫= wd_binding_id; Some (x, b)) l.

Lemma ancestor_walk_done fuel cursor child chain bs l :
  lineage cursor l → length l ≤ fuel → NoDup (chain ++ l) → child ∉ l →
  ancestor_walk fuel cursor child chain bs g = WalkDone (chain ++ l) (bs ++ named_bindings l).
Proof.
  intros Hl. revert fuel chain bs. induction Hl as [x a Ha Hn|x a p l Ha Hp Hl IH]; intros fuel chain bs Hf Hnd Hc.
  all: destruct fuel as [|fuel]; [simpl in Hf; lia|]; simpl ancestor_walk; rewrite Ha.
  all: assert (Hx : existsb (String.eqb x) chain = false)
    by (apply not_true_is_false; intros Hex; apply existsb_exists in Hex as (y & Hy & ->%String.eqb_eq);
        apply NoDup_app in Hnd as (_ & Hnd & _); apply (Hnd y); [by apply list_elem_of_In|by left]); rewrite Hx.
  all: assert (Hxc : String.eqb x child = false) by (apply String.eqb_neq; intros ->; apply Hc; by left); rewrite Hxc.
  - rewrite Hn. simpl. rewrite Ha. simpl. by destruct (wd_binding_id a).
  - rewrite Hp, IH; [|simpl in Hf; lia|by rewrite <- app_assoc|by intros Hin; apply Hc; right].
    rewrite <- !app_assoc. simpl. rewrite Ha. simpl. by destruct (wd_binding_id a).
Qed.

Lemma ancestor_walk_refused fuel cursor child chain bs l :
  lineage cursor l → NoDup (chain ++ l) → child ∈ l →
  ∃ r, ancestor_walk fuel cursor child chain bs g = WalkRefused r.
Proof.
  intros Hl. revert fuel chain bs. induction Hl as [x a Ha Hn|x a p l Ha Hp Hl IH]; intros fuel chain bs Hnd Hc.
  all: destruct fuel as [|fuel]; [by eexists|]; simpl ancestor_walk; rewrite Ha.
  all: destruct (existsb (String.eqb x) chain); [by eexists|].
  all: destruct (String.eqb x child) eqn:Hxc; [by eexists|]; apply String.eqb_neq in Hxc.
  - apply list_elem_of_singleton in Hc. congruence.
  - rewrite Hp. apply IH; [by rewrite <- app_assoc|]. apply elem_of_cons in Hc as [->|Hc]; [done|exact Hc].
Qed.

Lemma descendant_walk_lineage candidate cursor ancestor l fuel :
  lineage cursor l → length l ≤ fuel →
  descendant_walk fuel candidate cursor ancestor g = Ok (bool_decide (ancestor ∈ l)).
Proof.
  intros Hl. revert fuel. induction Hl as [x a Ha Hn|x a p l Ha Hp Hl IH]; intros fuel Hf.
  all: destruct fuel as [|fuel]; [simpl in Hf; lia|]; simpl; unfold parent_of; rewrite Ha; simpl.
  all: destruct (String.eqb x ancestor) eqn:Hx;
    [apply String.eqb_eq in Hx as ->; rewrite bool_decide_eq_true_2; [done|by left]|apply String.eqb_neq in Hx].
  - rewrite Hn, bool_decide_eq_false_2; [done|]. intros ->%list_elem_of_singleton. done.
  - rewrite Hp, IH by (simpl in Hf; lia). f_equal. apply bool_decide_ext. rewrite elem_of_cons. naive_solver.
Qed.

Lemma descendant_decides child parent :
  child ≠ parent → (works g !! child = None ∨ ∃ lc, lineage child lc) →
  ∃ below, is_descendant_of child parent g = Ok below ∧
    (below = false ↔ ∀ lc, lineage child lc → parent ∉ lc).
Proof.
  intros Hne Hchild. unfold is_descendant_of. destruct Hchild as [Hnone|[lc Hlc]].
  - exists false. split; [|split; [|done]; intros _ lc Hlc; inversion Hlc; congruence].
    destruct (Nat.max _ 1) eqn:E; [lia|]. simpl. apply String.eqb_neq in Hne. rewrite Hne.
    unfold parent_of. by rewrite Hnone.
  - exists (bool_decide (parent ∈ lc)). rewrite (descendant_walk_lineage child child parent lc); [|done|].
    + split; [done|]. rewrite bool_decide_eq_false. split; [|auto]. intros Hp lc' Hlc'.
      by rewrite (lineage_unique _ _ _ Hlc' Hlc).
    + pose proof (lineage_length _ _ Hlc). lia.
Qed.

(** A strict ancestor of [parent] that has the binding [b]. *)
Definition ancestor_binding (parent b : string) (l : list string) : Prop :=
  ∃ x a, x ∈ l ∧ x ≠ parent ∧ works g !! x = Some a ∧ wd_binding_id a = Some b.

Lemma find_ancestor_binding parent b l :
  is_Some (List.find (λ e : string * string, String.eqb e.2 b && negb (String.eqb e.1 parent)) (named_bindings l)) ↔
  ancestor_binding parent b l.
Proof.
  split.
  - intros [[x y] Hf]. apply List.find_some in Hf as [Hf Hb]. simpl in Hb.
    apply andb_true_iff in Hb as [->%String.eqb_eq Hb]. apply list_elem_of_In, list_elem_of_omap in Hf as (z & Hz & Hzb).
    destruct (works g !! z) as [a|] eqn:Ha; [|done]. simpl in Hzb. destruct (wd_binding_id a) as [b'|] eqn:Hwb; [|done].
    injection Hzb as <- <-. exists z, a. split_and!; [done| |done|done]. intros ->. by rewrite String.eqb_refl in Hb.
  - intros (x & a & Hx & Hxp & Ha & Hb).
    destruct (List.find _ _) as [e|] eqn:Hf; [done|]. exfalso.
    pose proof (List.find_none _ _ Hf (x, b)) as Hn. simpl in Hn. rewrite String.eqb_refl in Hn. simpl in Hn.
    apply String.eqb_neq in Hxp. rewrite Hxp in Hn. discriminate Hn.
    apply list_elem_of_In, list_elem_of_omap. exists x. split; [done|]. rewrite Ha. simpl. by rewrite Hb.
Qed.

(** The cycle check decides: for a parent whose line of at most 4096
    Works ends, a delegation is let through exactly when the child is not the
    parent or one of its ancestors, the member's binding serves no strict
    ancestor, and the child is not already below the parent. *)
Theorem delegation_cycle_decides parent child binding l :
  lineage parent l → length l ≤ DELEGATION_WALK_BOUND →
  (works g !! child = None ∨ ∃ lc, lineage child lc) →
  delegation_cycle parent child binding g = Ok None ↔
  child ∉ l ∧ (∀ b, binding = Some b → b ≠ "" → ¬ ancestor_binding parent b l) ∧
  (∀ lc, lineage child lc → parent ∉ lc).
Proof.
  intros Hl Hlen Hchild. unfold delegation_cycle.
  destruct (decide (child ∈ l)) as [Hin|Hin].
  { destruct (ancestor_walk_refused DELEGATION_WALK_BOUND parent child [] [] l Hl) as [r ->];
      [by eapply lineage_nodup|done|]. split; [done|]. by intros (? & _). }
  rewrite (ancestor_walk_done DELEGATION_WALK_BOUND parent child [] [] l Hl Hlen);
    [|by eapply lineage_nodup|done]. cbn [app].
  assert (Hne : child ≠ parent) by (intros ->; apply Hin; destruct (lineage_head _ _ Hl) as [? ->]; by left).
  destruct (descendant_decides child parent Hne Hchild) as (below & Hdesc & <-). apply String.eqb_neq in Hne.
  assert (Htail : ∀ kept : Prop, kept → (if String.eqb child parent then Ok None
    else below <-? is_descendant_of child parent g;; Ok (if below then Some {| cy_kind := DescendantWork; cy_chain := l;
      cy_binding_id := None; cy_proposed_child := child |} else None)) = Ok None ↔ child ∉ l ∧ kept ∧ below = false).
  { intros kept Hk. rewrite Hne, Hdesc. simpl. destruct below; (split; [done|by intros (_ & _ & ?)]). }
  destruct binding as [b|]; [|apply Htail; by intros b Hb].
  destruct (is_empty b) eqn:Hb; [apply Htail; intros b' [= <-] Hb'; by destruct b|].
  pose proof (find_ancestor_binding parent b l) as Hfind. destruct (List.find _ _) as [[x y]|].
  - split; [done|]. intros (_ & Hno & _). destruct (Hno b); [done|by destruct b|]. apply Hfind. by eexists.
  - apply Htail. intros b' [= <-] _ Hx. by apply Hfind in Hx as [? ?].
Qed.
End graph.

(** ** A small graph *)

Definition graph_work (w : string) (parent binding : option string) : WorkAddress :=
  {| wd_work_id := w; wd_project_id := None; wd_session_id := Some "s"; wd_session_kind := SkInteractive;
     wd_owner_id := None; wd_binding_id := binding; wd_provenance := provenance_default; wd_node_id := None;
     wd_current_run_id := None; wd_version := 1; wd_parent_work_id := parent |}.

Definition small_graph : WorkGateway :=
  set_works (<["w" := graph_work "w" None (Some "chief")]> (<["c" := graph_work "c" (Some "w") (Some "b")]>
    (<["d" := graph_work "d" (Some "c") None]> ∅))) gateway_new.

Lemma small_lineage : lineage small_graph "d" ["d"; "c"; "w"].
Proof. repeat (first [by eapply lineage_root | eapply lineage_child; [reflexivity..|]]). Qed.

Lemma work_depth_counts_ancestors_witness : work_depth "d" small_graph = Ok 2%N.
Proof. exact (work_depth_counts_ancestors small_graph "d" _ small_lineage). Defined.

(** A new child is let through, a member bound to the chief's binding is not. *)
Lemma delegation_cycle_decides_witness :
  delegation_cycle "d" "e" (Some "fresh") small_graph = Ok None ∧
  delegation_cycle "d" "e" (Some "chief") small_graph ≠ Ok None.
Proof.
  assert (Hlen : length ["d"; "c"; "w"] ≤ DELEGATION_WALK_BOUND) by (apply Nat.leb_le; reflexivity).
  assert (He : works small_graph !! "e" = None) by reflexivity.
  assert (Hnoe : ∀ lc, lineage small_graph "e" lc → "d" ∉ lc)
    by (intros lc Hlc; inversion Hlc as [? ? Ha|? ? ? ? Ha]; rewrite He in Ha; discriminate Ha).
  split.
  - apply (delegation_cycle_decides small_graph "d" "e" (Some "fresh") _ small_lineage Hlen (or_introl He)).
    split_and!; [by apply (bool_decide_unpack _)| |exact Hnoe].
    intros b [= <-] _ (x & a & Hx & _ & Ha & Hb). apply list_elem_of_In in Hx.
    repeat destruct Hx as [<-|Hx]; try (vm_compute in Ha; injection Ha as <-; discriminate). destruct Hx.
  - intros Hok. apply (delegation_cycle_decides small_graph "d" "e" (Some "chief") _ small_lineage Hlen (or_introl He))
      in Hok as (_ & Hb & _).
    apply (Hb "chief" eq_refl); [discriminate|]. exists "w", (graph_work "w" None (Some "chief")).
    split_and!; try done. by apply (bool_decide_unpack _).
Defined.

(** The chain of a refusal starts at the delegating Work. *)
Example refusal_chain_starts_at_the_parent :
  match delegation_cycle "d" "w" None small_graph with
  | Ok (Some r) => cy_chain r = ["d"; "c"; "w"]
  | _ => False
  end.
Proof. by vm_compute. Qed.
