(* ===== verification/Execution.v ===== *)
(** * The execution kernel ([everyaios-core/src/execution.rs])

    The projection of Runs the relay dispatches from: phases and their
    transitions, the record of one Run, the kernel's operations, and its
    recovery from the Work journal. *)
From S2P Require Import Order Prelude Json LeaseTypes Lease WorkTypes WorkEvents Work Fleet NetFloor.

(** ** Phases and triggers *)

(* SRC core/src/execution.rs @enum:ExecutionTrigger ExecutionTrigger *)
Inductive ExecutionTrigger := TrChat | TrPlan | TrScheduler | TrAcp | TrSubagent.

#[export] Instance execution_trigger_eq_dec : EqDecision ExecutionTrigger.
Proof. solve_decision. Defined.

(* SRC core/src/execution.rs @enum:ExecutionPhase ExecutionPhase *)
Inductive ExecutionPhase :=
  | XCreated | XPlanning | XReady | XRunning | XWaitingTool | XWaitingApproval | XWaitingUser
  | XCheckpointed | XVerifying | XCompleted | XFailed | XCancelled | XPaused | XRecoverable.

#[export] Instance execution_phase_eq_dec : EqDecision ExecutionPhase.
Proof. solve_decision. Defined.

(* SRC core/src/execution.rs @fn:is_terminal ExecutionPhase::is_terminal *)
Definition phase_is_terminal (p : ExecutionPhase) : bool :=
  match p with XCompleted | XFailed | XCancelled => true | _ => false end.

(* SRC core/src/execution.rs @fn:from_work_state ExecutionPhase::from_work_state *)
Definition from_work_state (s : WorkState) : ExecutionPhase :=
  match s with
  | WCreated => XCreated | WPlanning => XPlanning | WReady => XReady | WRunning => XRunning
  | WWaitingTool => XWaitingTool | WWaitingApproval => XWaitingApproval | WWaitingUser => XWaitingUser
  | WCheckpointed => XCheckpointed | WVerifying => XVerifying | WCompleted => XCompleted
  | WFailed => XFailed | WCancelled => XCancelled | WPaused => XPaused | WRecoverable => XRecoverable
  end.

(** The targets listed for each phase. *)
Definition phase_targets (p : ExecutionPhase) : list ExecutionPhase :=
  match p with
  | XCreated => [XPlanning; XReady; XCancelled]
  | XPlanning => [XReady; XFailed; XCancelled]
  | XReady => [XRunning; XCancelled]
  | XRunning => [XWaitingTool; XWaitingApproval; XWaitingUser; XCheckpointed; XVerifying; XCompleted;
                 XFailed; XCancelled; XPaused; XRecoverable]
  | XWaitingTool | XWaitingApproval | XWaitingUser => [XRunning; XFailed; XCancelled; XPaused]
  | XCheckpointed => [XRunning; XFailed; XCancelled]
  | XVerifying => [XCompleted; XFailed; XRecoverable]
  | XPaused => [XRunning; XCancelled]
  | XRecoverable => [XRunning; XFailed; XCancelled]
  | XCompleted | XFailed | XCancelled => []
  end.

(* SRC core/src/execution.rs @fn:can_transition ExecutionPhase::can_transition *)
Definition phase_can_transition (self next : ExecutionPhase) : bool :=
  bool_decide (next ∈ phase_targets self).

(** [{:?}] of a phase. *)
Definition phase_debug (p : ExecutionPhase) : string :=
  match p with
  | XCreated => "Created" | XPlanning => "Planning" | XReady => "Ready" | XRunning => "Running"
  | XWaitingTool => "WaitingTool" | XWaitingApproval => "WaitingApproval" | XWaitingUser => "WaitingUser"
  | XCheckpointed => "Checkpointed" | XVerifying => "Verifying" | XCompleted => "Completed"
  | XFailed => "Failed" | XCancelled => "Cancelled" | XPaused => "Paused" | XRecoverable => "Recoverable"
  end.

(** The phase as serde writes it ([snake_case]). *)
Definition phase_as_str (p : ExecutionPhase) : string :=
  match p with
  | XCreated => "created" | XPlanning => "planning" | XReady => "ready" | XRunning => "running"
  | XWaitingTool => "waiting_tool" | XWaitingApproval => "waiting_approval"
  | XWaitingUser => "waiting_user" | XCheckpointed => "checkpointed" | XVerifying => "verifying"
  | XCompleted => "completed" | XFailed => "failed" | XCancelled => "cancelled"
  | XPaused => "paused" | XRecoverable => "recoverable"
  end.

Definition trigger_as_str (t : ExecutionTrigger) : string :=
  match t with
  | TrChat => "chat" | TrPlan => "plan" | TrScheduler => "scheduler" | TrAcp => "acp"
  | TrSubagent => "subagent"
  end.

(* SRC core/src/execution.rs @fn:parse_phase parse_phase *)
Definition parse_phase : string → option ExecutionPhase :=
  parse_spelling
    [("created", XCreated); ("planning", XPlanning); ("ready", XReady); ("running", XRunning);
     ("waiting_tool", XWaitingTool); ("waiting_approval", XWaitingApproval);
     ("waiting_user", XWaitingUser); ("checkpointed", XCheckpointed); ("verifying", XVerifying);
     ("completed", XCompleted); ("failed", XFailed); ("cancelled", XCancelled); ("paused", XPaused);
     ("recoverable", XRecoverable)].

(* SRC core/src/execution.rs @fn:phase_transition_legal phase_transition_legal *)
Definition phase_transition_legal (previous next : ExecutionPhase) : bool :=
  if bool_decide (previous = next) then true
  else if phase_is_terminal previous then false
  else if bool_decide (previous = XReady) &&
          match next with
          | XWaitingTool | XWaitingApproval | XWaitingUser | XCheckpointed => true
          | _ => false
          end then true
  else phase_can_transition previous next.

(** ** Records *)

(* SRC core/src/execution.rs @struct:RuntimeManifest RuntimeManifest *)
Record ExecManifest := {
  em_model : string;
  em_provider : string;
  em_permissions : list string;
  em_tools : list string;
  em_env_summary : Value
}.

(* SRC core/src/execution.rs @struct:PendingApproval PendingApproval *)
Record PendingApproval := {
  pa_ticket_id : string;
  pa_tool_id : string;
  pa_args_hash : string;
  pa_requested_at_ms : N;
  pa_risk_tier : string
}.

#[export] Instance pending_approval_eq_dec : EqDecision PendingApproval.
Proof. solve_decision. Defined.

(** The record of one Run. [budget_usd] is [0.0] in every record the kernel
    writes and is left out. *)
(* SRC core/src/execution.rs @struct:Work Work *)
Record ExecWork := {
  ex_id : string;
  ex_parent_id : option string;
  ex_workspace : string;
  ex_session_id : string;
  ex_trigger : ExecutionTrigger;
  ex_objective : string;
  ex_state : ExecutionPhase;
  ex_plan : option string;
  ex_policy_snapshot : string;
  ex_capability_scope : list string;
  ex_context_snapshot : string;
  ex_checkpoint : N;
  ex_event_stream : list string;
  ex_artifact_refs : list string;
  ex_approval_refs : list string;
  ex_verification : option Value;
  ex_receipt : option Value;
  ex_idempotency_key : string;
  ex_created_at_ms : N;
  ex_config_hash : string;
  ex_runtime_manifest : option ExecManifest;
  ex_pending_approval : option PendingApproval;
  ex_journal_sequence : N
}.

Definition exec_eta (x : ExecWork) : ExecWork :=
  {| ex_id := ex_id x; ex_parent_id := ex_parent_id x; ex_workspace := ex_workspace x;
     ex_session_id := ex_session_id x; ex_trigger := ex_trigger x; ex_objective := ex_objective x;
     ex_state := ex_state x; ex_plan := ex_plan x; ex_policy_snapshot := ex_policy_snapshot x;
     ex_capability_scope := ex_capability_scope x; ex_context_snapshot := ex_context_snapshot x;
     ex_checkpoint := ex_checkpoint x; ex_event_stream := ex_event_stream x;
     ex_artifact_refs := ex_artifact_refs x; ex_approval_refs := ex_approval_refs x;
     ex_verification := ex_verification x; ex_receipt := ex_receipt x;
     ex_idempotency_key := ex_idempotency_key x; ex_created_at_ms := ex_created_at_ms x;
     ex_config_hash := ex_config_hash x; ex_runtime_manifest := ex_runtime_manifest x;
     ex_pending_approval := ex_pending_approval x; ex_journal_sequence := ex_journal_sequence x |}.

(** The update of one field, from the eta expansion of the record. *)
Ltac exec_setter proj :=
  let e := eval cbv delta [exec_eta] in exec_eta in
  match eval pattern proj in e with ?f _ => exact (λ v x, f (λ _, v) x) end.

Definition set_ex_parent := Eval cbv beta in ltac:(exec_setter ex_parent_id).
Definition set_ex_state := Eval cbv beta in ltac:(exec_setter ex_state).
Definition set_ex_policy := Eval cbv beta in ltac:(exec_setter ex_policy_snapshot).
Definition set_ex_context := Eval cbv beta in ltac:(exec_setter ex_context_snapshot).
Definition set_ex_scope := Eval cbv beta in ltac:(exec_setter ex_capability_scope).
Definition set_ex_stream := Eval cbv beta in ltac:(exec_setter ex_event_stream).
Definition set_ex_approvals := Eval cbv beta in ltac:(exec_setter ex_approval_refs).
Definition set_ex_verification := Eval cbv beta in ltac:(exec_setter ex_verification).
Definition set_ex_receipt := Eval cbv beta in ltac:(exec_setter ex_receipt).
Definition set_ex_config := Eval cbv beta in ltac:(exec_setter ex_config_hash).
Definition set_ex_manifest := Eval cbv beta in ltac:(exec_setter ex_runtime_manifest).
Definition set_ex_pending := Eval cbv beta in ltac:(exec_setter ex_pending_approval).

(** [serde_json] text, which the third-party crate reads and writes. *)
Class JsonText := { json_render : Value → string; json_parse : string → option Value }.

(** [RuntimeManifest::compute_hash]: SHA-256 of the serde bytes. *)
Class ExecDigest := { exec_manifest_hash : ExecManifest → string }.

(* SRC core/src/execution.rs @fn:new Work::new *)
Definition exec_new (id : string) (trigger : ExecutionTrigger) (session_id objective : string) (now : N)
    : ExecWork :=
  {| ex_id := id; ex_parent_id := None; ex_workspace := ""; ex_session_id := session_id;
     ex_trigger := trigger; ex_objective := objective; ex_state := XCreated; ex_plan := None;
     ex_policy_snapshot := ""; ex_capability_scope := []; ex_context_snapshot := ""; ex_checkpoint := 0;
     ex_event_stream := []; ex_artifact_refs := []; ex_approval_refs := []; ex_verification := None;
     ex_receipt := None; ex_idempotency_key := "exec:" +:+ id; ex_created_at_ms := now;
     ex_config_hash := ""; ex_runtime_manifest := None; ex_pending_approval := None;
     ex_journal_sequence := 0 |}.

Definition illegal_transition (from to : ExecutionPhase) : string :=
  "illegal transition " +:+ phase_debug from +:+ " → " +:+ phase_debug to.

(** A record moved to a phase, with the phase on its stream. *)
Definition advance (next : ExecutionPhase) (x : ExecWork) : ExecWork :=
  set_ex_stream (ex_event_stream x ++ [phase_debug next]) (set_ex_state next x).

(* SRC core/src/execution.rs @fn:bind_runtime Work::bind_runtime *)
Definition bind_runtime `{ExecDigest} (m : ExecManifest) (x : ExecWork) : string * ExecWork :=
  let hash := exec_manifest_hash m in
  (hash, set_ex_manifest (Some m) (set_ex_config hash x)).

(* SRC core/src/execution.rs @fn:record_pending_approval Work::record_pending_approval *)
Definition exec_record_approval (approval : PendingApproval) (x : ExecWork) : result unit string * ExecWork :=
  if negb (bool_decide (ex_state x = XWaitingApproval)) then
    (Err ("cannot record pending approval in state " +:+ phase_debug (ex_state x) +:+
          " (must be WaitingApproval)"), x)
  else match ex_pending_approval x with
  | Some existing =>
      if negb (String.eqb (pa_ticket_id existing) (pa_ticket_id approval)) ||
         negb (bool_decide (existing = approval)) then
        (Err ("execution `" +:+ ex_id x +:+ "` already has a different pending approval"), x)
      else (Ok tt, x)
  | None =>
      (Ok tt, set_ex_pending (Some approval)
                (set_ex_approvals (ex_approval_refs x ++ [pa_ticket_id approval]) x))
  end.

(* SRC core/src/execution.rs @fn:resolve_pending_approval_for Work::resolve_pending_approval_for *)
Definition exec_resolve_for (ticket : option string) (approved : bool) (x : ExecWork)
    : result PendingApproval string * ExecWork :=
  let next := if approved then XRunning else XFailed in
  if negb (phase_can_transition (ex_state x) next) then (Err (illegal_transition (ex_state x) next), x)
  else match ex_pending_approval x with
  | None => (Err "no pending approval to resolve", x)
  | Some approval =>
      if match ticket with Some t => negb (String.eqb (pa_ticket_id approval) t) | None => false end then
        (Err ("pending approval ticket `" +:+ pa_ticket_id approval +:+ "` does not match `" +:+
              default "" ticket +:+ "`"), x)
      else (Ok approval, advance next (set_ex_pending None x))
  end.

(* SRC core/src/execution.rs @fn:resolve_pending_approval Work::resolve_pending_approval *)
Definition exec_resolve (approved : bool) (x : ExecWork) : result PendingApproval string * ExecWork :=
  exec_resolve_for None approved x.

(** ** The kernel *)

(* SRC core/src/execution.rs 345 353 ExecutionKernel *)
Record ExecutionKernel := {
  executions : gmap string ExecWork;
  aliases : gmap string string;
  counter : N
}.

Definition kernel_new : ExecutionKernel := {| executions := ∅; aliases := ∅; counter := 0 |}.

Definition set_executions (m : gmap string ExecWork) (k : ExecutionKernel) : ExecutionKernel :=
  {| executions := m; aliases := aliases k; counter := counter k |}.
Definition put_execution (id : string) (x : ExecWork) (k : ExecutionKernel) : ExecutionKernel :=
  set_executions (<[id := x]> (executions k)) k.

(* SRC core/src/execution.rs @fn:get ExecutionKernel::get *)
Definition kernel_get (id : string) (k : ExecutionKernel) : option ExecWork := executions k !! id.

Definition unknown_execution (id : string) : string := "unknown execution " +:+ id.

(** The record a method works on, changed in place. *)
Definition on_execution {A} (id : string) (f : ExecWork → result A string * ExecWork) (k : ExecutionKernel)
    : result A string * ExecutionKernel :=
  match kernel_get id k with
  | None => (Err (unknown_execution id), k)
  | Some x => let '(r, x') := f x in (r, put_execution id x' k)
  end.

(* SRC core/src/execution.rs @fn:begin_named ExecutionKernel::begin_named *)
Definition begin_named (id : string) (trigger : ExecutionTrigger) (session_id objective : string)
    (parent_id : option string) (policy_snapshot context_snapshot : string) (capability_scope : list string)
    (now : N) (k : ExecutionKernel) : ExecWork * ExecutionKernel :=
  match kernel_get id k with
  | Some existing => (existing, k)
  | None =>
      let x := set_ex_state XReady (set_ex_scope capability_scope (set_ex_context context_snapshot
                 (set_ex_policy policy_snapshot (set_ex_parent parent_id
                   (exec_new id trigger session_id objective now))))) in
      (x, put_execution id x k)
  end.

Definition run_id_of (n : N) : string := "ex:" +:+ pretty n.

(* SRC core/src/execution.rs @fn:parse_ex_counter parse_ex_counter *)
Definition parse_ex_counter (id : string) : N :=
  default 0%N (strip_prefix "ex:" id ≫= parse_uint u64_max).

(* SRC core/src/execution.rs @fn:begin ExecutionKernel::begin *)
Definition kernel_begin (trigger : ExecutionTrigger) (session_id objective : string)
    (parent_id : option string) (policy_snapshot context_snapshot : string) (capability_scope : list string)
    (now : N) (k : ExecutionKernel) : ExecWork * ExecutionKernel :=
  let n := u64_add (counter k) 1 in
  begin_named (run_id_of n) trigger session_id objective parent_id policy_snapshot context_snapshot
    capability_scope now {| executions := executions k; aliases := aliases k; counter := n |}.

(* SRC core/src/execution.rs @fn:alias ExecutionKernel::alias *)
Definition kernel_alias (key execution_id : string) (k : ExecutionKernel) : ExecutionKernel :=
  {| executions := executions k; aliases := <[key := execution_id]> (aliases k); counter := counter k |}.

(* SRC core/src/execution.rs @fn:by_alias ExecutionKernel::by_alias *)
Definition by_alias (key : string) (k : ExecutionKernel) : option ExecWork :=
  aliases k !! key ≫= λ id, executions k !! id.

(** A Run leaves WaitingApproval only once its approval is resolved. *)
Definition leaves_unresolved (next : ExecutionPhase) (x : ExecWork) : bool :=
  bool_decide (ex_state x = XWaitingApproval) && negb (bool_decide (next = XWaitingApproval)) &&
  is_some (ex_pending_approval x).
Definition unresolved_approval (id : string) : string :=
  "execution `" +:+ id +:+ "` cannot leave WaitingApproval with an unresolved approval".

(* SRC core/src/execution.rs @fn:validate_transition ExecutionKernel::validate_transition *)
Definition validate_transition (id : string) (next : ExecutionPhase) (k : ExecutionKernel) : result unit string :=
  x <-? ok_or_err (kernel_get id k) (unknown_execution id);;
  if bool_decide (ex_state x = next) then Ok tt
  else if negb (phase_can_transition (ex_state x) next) then Err (illegal_transition (ex_state x) next)
  else if leaves_unresolved next x then Err (unresolved_approval id)
  else Ok tt.

(* SRC core/src/execution.rs @fn:transition ExecutionKernel::transition *)
Definition kernel_transition (id : string) (next : ExecutionPhase)
    : ExecutionKernel → result ExecutionPhase string * ExecutionKernel :=
  on_execution id (λ x,
    if negb (phase_can_transition (ex_state x) next) then (Err (illegal_transition (ex_state x) next), x)
    else if leaves_unresolved next x then (Err (unresolved_approval id), x)
    else (Ok next, advance next x)).

(* SRC core/src/execution.rs @fn:validate_pending_approval_request ExecutionKernel::validate_pending_approval_request *)
Definition validate_approval_request (id ticket_id : string) (k : ExecutionKernel) : result unit string :=
  if is_empty (trim ticket_id) then Err "execution/record_approval requires a non-empty ticketId"
  else
    x <-? ok_or_err (kernel_get id k) (unknown_execution id);;
    if negb (bool_decide (ex_state x = XWaitingApproval)) then
      Err ("cannot record pending approval in state " +:+ phase_debug (ex_state x) +:+
           " (must be WaitingApproval)")
    else match ex_pending_approval x with
    | Some existing =>
        if negb (String.eqb (pa_ticket_id existing) ticket_id) then
          Err ("execution `" +:+ id +:+ "` already has a different pending approval")
        else Ok tt
    | None => Ok tt
    end.

(* SRC core/src/execution.rs @fn:validate_pending_approval_resolution ExecutionKernel::validate_pending_approval_resolution *)
Definition validate_approval_resolution (id ticket_id : string) (k : ExecutionKernel) : result unit string :=
  if is_empty (trim ticket_id) then Err "execution/resolve_approval requires a non-empty ticketId"
  else
    x <-? ok_or_err (kernel_get id k) (unknown_execution id);;
    pending <-? ok_or_err (ex_pending_approval x) ("execution `" +:+ id +:+ "` has no pending approval");;
    if negb (String.eqb (pa_ticket_id pending) ticket_id) then
      Err ("pending approval ticket `" +:+ pa_ticket_id pending +:+ "` does not match `" +:+ ticket_id +:+ "`")
    else Ok tt.

(* SRC core/src/execution.rs @fn:attach_verification ExecutionKernel::attach_verification *)
Definition attach_verification (id : string) (report : Value)
    : ExecutionKernel → result unit string * ExecutionKernel :=
  on_execution id (λ x, (Ok tt, set_ex_verification (Some report) x)).

(* SRC core/src/execution.rs @fn:attach_receipt ExecutionKernel::attach_receipt *)
Definition attach_receipt (id : string) (receipt : Value)
    : ExecutionKernel → result unit string * ExecutionKernel :=
  on_execution id (λ x, (Ok tt, set_ex_receipt (Some receipt) x)).

(* SRC core/src/execution.rs @const:P64_MAX_SUBAGENT_DEPTH P64_MAX_SUBAGENT_DEPTH *)
Definition P64_MAX_SUBAGENT_DEPTH : N := 2.

(* SRC core/src/execution.rs @fn:begin_subagent ExecutionKernel::begin_subagent *)
Definition begin_subagent (session_id objective : string) (parent_id : option string) (depth : N)
    (granted_tools denied_tools : list string) (policy_snapshot : string) (now : N) (k : ExecutionKernel)
    : result ExecWork string * ExecutionKernel :=
  if (P64_MAX_SUBAGENT_DEPTH <? depth)%N then
    (Err ("subagent depth " +:+ pretty depth +:+ " exceeds max_depth " +:+ pretty P64_MAX_SUBAGENT_DEPTH +:+
          " (no recursive spawn)"), k)
  else
    let '(x, k') := kernel_begin TrSubagent session_id objective parent_id policy_snapshot ""
                      (effective_subagent_tools granted_tools denied_tools) now k in
    (Ok x, k').

(** ** Snapshots *)

Fixpoint btree_check {A} (f : string → A → result unit string) (l : list (string * A)) : result unit string :=
  match l with [] => Ok tt | (k, a) :: l' => _ <-? f k a;; btree_check f l' end.

(* SRC core/src/execution.rs @fn:validate ExecutionKernel::validate *)
Definition kernel_validate (k : ExecutionKernel) : result unit string :=
  btree_check (λ id x,
    if negb (String.eqb (ex_id x) id) then
      Err ("execution map key `" +:+ id +:+ "` disagrees with Work id `" +:+ ex_id x +:+ "`")
    else if is_empty (trim (ex_id x)) || is_empty (trim (ex_session_id x)) then
      Err ("execution `" +:+ id +:+ "` is missing durable identity")
    else if bool_decide (ex_event_stream x = []) then
      Err ("execution `" +:+ id +:+ "` has no event projection")
    else Ok tt) (btree_list (executions k)).

Definition opt_value_eqb (a b : option Value) : bool :=
  match a, b with Some x, Some y => value_eqb x y | None, None => true | _, _ => false end.

(** The identity and effect fields a cached record must share with the journal's. *)
Definition same_identity (cached journal : ExecWork) : bool :=
  String.eqb (ex_session_id cached) (ex_session_id journal) &&
  bool_decide (ex_trigger cached = ex_trigger journal) &&
  String.eqb (ex_objective cached) (ex_objective journal) &&
  String.eqb (ex_idempotency_key cached) (ex_idempotency_key journal) &&
  opt_value_eqb (ex_receipt cached) (ex_receipt journal) &&
  opt_value_eqb (ex_verification cached) (ex_verification journal) &&
  bool_decide (ex_pending_approval cached = ex_pending_approval journal) &&
  bool_decide (ex_approval_refs cached = ex_approval_refs journal).

(* SRC core/src/execution.rs @fn:validate_checkpoint_cache ExecutionKernel::validate_checkpoint_cache *)
Definition validate_checkpoint_cache (k cached : ExecutionKernel) : result unit string :=
  btree_check (λ id c,
    match executions k !! id with
    | None => Err ("checkpoint contains Run `" +:+ id +:+ "` absent from Work journal")
    | Some j =>
        if negb (same_identity c j) then Err ("checkpoint identity/effect mismatch for Run `" +:+ id +:+ "`")
        else if (ex_checkpoint j <? ex_checkpoint c)%N then
          Err ("checkpoint is ahead of the journal for Run `" +:+ id +:+ "`")
        else if phase_is_terminal (ex_state c) && negb (phase_is_terminal (ex_state j)) then
          Err ("checkpoint is ahead of the journal for Run `" +:+ id +:+ "`")
        else if (ex_journal_sequence j <=? ex_journal_sequence c)%N &&
                negb (bool_decide (ex_state c = ex_state j)) then
          Err ("checkpoint state mismatch for Run `" +:+ id +:+ "`")
        else if (ex_journal_sequence j <? ex_journal_sequence c)%N then
          Err ("checkpoint sequence is ahead of the journal for Run `" +:+ id +:+ "`")
        else Ok tt
    end) (btree_list (executions cached)).

(* SRC core/src/execution.rs @fn:should_restore_without_replay should_restore_without_replay *)
Definition should_restore_without_replay (x : ExecWork) : bool :=
  phase_is_terminal (ex_state x) && is_some (ex_receipt x).

(* SRC core/src/execution.rs @fn:check_restore_fence check_restore_fence *)
Definition check_restore_fence (a : RunAuthority) (node_id : string) (token now_ms : N) : result unit string :=
  if authority_valid node_id token now_ms a then Ok tt
  else Err "restore refused: stale fencing token (run migrated or lease expired)".

(** ** The records as JSON *)

Definition json_strings (l : list string) : Value := JArray (JString <$> l).

Definition manifest_json (m : ExecManifest) : Value :=
  json_object [("model", JString (em_model m)); ("provider", JString (em_provider m));
    ("permissions", json_strings (em_permissions m)); ("tools", json_strings (em_tools m));
    ("env_summary", em_env_summary m)].

Definition approval_json (a : PendingApproval) : Value :=
  json_object [("ticket_id", JString (pa_ticket_id a)); ("tool_id", JString (pa_tool_id a));
    ("args_hash", JString (pa_args_hash a)); ("requested_at_ms", json_u64 (pa_requested_at_ms a));
    ("risk_tier", JString (pa_risk_tier a))].

(** The bits of [0.0]. *)
Definition json_zero_f64 : Value := JNumber (JFloat 0).

Definition exec_json (x : ExecWork) : Value :=
  json_object
    ([("id", JString (ex_id x)); ("parentId", json_opt JString (ex_parent_id x));
      ("workspace", JString (ex_workspace x)); ("sessionId", JString (ex_session_id x));
      ("trigger", JString (trigger_as_str (ex_trigger x))); ("objective", JString (ex_objective x));
      ("state", JString (phase_as_str (ex_state x))); ("plan", json_opt JString (ex_plan x));
      ("policySnapshot", JString (ex_policy_snapshot x));
      ("capabilityScope", json_strings (ex_capability_scope x));
      ("contextSnapshot", JString (ex_context_snapshot x)); ("checkpoint", json_u64 (ex_checkpoint x));
      ("budgetUsd", json_zero_f64); ("eventStream", json_strings (ex_event_stream x));
      ("artifactRefs", json_strings (ex_artifact_refs x));
      ("approvalRefs", json_strings (ex_approval_refs x));
      ("verification", json_opt id (ex_verification x)); ("receipt", json_opt id (ex_receipt x));
      ("idempotencyKey", JString (ex_idempotency_key x)); ("createdAtMs", json_u64 (ex_created_at_ms x));
      ("configHash", JString (ex_config_hash x));
      ("journalSequence", json_u64 (ex_journal_sequence x))] ++
     match ex_runtime_manifest x with Some m => [("runtimeManifest", manifest_json m)] | None => [] end ++
     match ex_pending_approval x with Some a => [("pendingApproval", approval_json a)] | None => [] end).

(** ** Subagent worktrees and receipts *)

Definition is_ascii_alnum (c : ascii) : bool :=
  let n := N_of_ascii c in
  ((48 <=? n) && (n <=? 57) || (65 <=? n) && (n <=? 90) || (97 <=? n) && (n <=? 122))%N.
Definition task_id_char (c : ascii) : bool :=
  is_ascii_alnum c || Ascii.eqb c "-" || Ascii.eqb c "_" || Ascii.eqb c "." || Ascii.eqb c "/".
Fixpoint all_chars (f : ascii → bool) (s : string) : bool :=
  match s with EmptyString => true | String c s' => f c && all_chars f s' end.

(** A refusal carries the task id and nothing else. *)
(* SRC core/src/worktrees.rs @fn:validate_task_id validate_task_id *)
Definition validate_task_id (t : string) : result unit string :=
  if is_empty t || (128 <? String.length t)%nat then Err t
  else if contains ".." t || has_char "\" t || starts_with "/" t then Err t
  else if starts_with "." t || ends_with "/" t || contains "//" t then Err t
  else if all_chars task_id_char t then Ok tt else Err t.

(* SRC core/src/execution.rs @struct:SubagentProvision SubagentProvision *)
Record SubagentProvision := {
  sp_work_id : string;
  sp_task_id : string;
  sp_branch : string;
  sp_worktree_segment : string;
  sp_plan_file : string;
  sp_findings_file : string;
  sp_receipts_dir : string
}.

(* SRC core/src/execution.rs @fn:plan_subagent_worktree plan_subagent_worktree *)
Definition plan_subagent_worktree (task_id work_id : string) : result SubagentProvision string :=
  _ <-? validate_task_id task_id;;
  if is_empty work_id then Err "plan_subagent_worktree requires work_id"
  else
    let segment := ".everyaios/worktrees/task-" +:+ task_id in
    Ok {| sp_work_id := work_id; sp_task_id := task_id; sp_branch := "subtask/" +:+ task_id;
          sp_worktree_segment := segment; sp_plan_file := segment +:+ "/.everyaios/task_plan.md";
          sp_findings_file := segment +:+ "/.everyaios/findings.md";
          sp_receipts_dir := segment +:+ "/.everyaios/receipts" |}.

Definition provision_json (v : SubagentProvision) : Value :=
  json_object [("work_id", JString (sp_work_id v)); ("task_id", JString (sp_task_id v));
    ("branch", JString (sp_branch v)); ("worktree_segment", JString (sp_worktree_segment v));
    ("plan_file", JString (sp_plan_file v)); ("findings_file", JString (sp_findings_file v));
    ("receipts_dir", JString (sp_receipts_dir v))].

(* SRC core/src/execution.rs @const:P64_MAX_OUTPUT_BYTES P64_MAX_OUTPUT_BYTES *)
Definition P64_MAX_OUTPUT_BYTES : N := 51200.

(** The last char boundary at or below [n]. *)
Fixpoint boundary_below (n : nat) (s : string) : nat :=
  match n with
  | 0 => 0
  | S n' => if is_char_boundary n s then n else boundary_below n' s
  end.

Definition take_string (n : nat) (s : string) : string := String.substring 0 n s.

(** [truncate_to_50k] at any cap. *)
Definition truncate_to (cap : N) (output : string) : string * bool * N :=
  let total := N.of_nat (String.length output) in
  if (total <=? cap)%N then (output, false, total)
  else
    let end_ := boundary_below (N.to_nat cap) output in
    (take_string end_ output +:+ ch "010" +:+ "… [truncated " +:+ pretty total +:+ " → " +:+
     pretty (N.of_nat end_) +:+ " bytes; full output in ref handle]", true, total).

(* SRC core/src/execution.rs @fn:truncate_to_50k truncate_to_50k *)
Definition truncate_to_50k (output : string) : string * bool * N := truncate_to P64_MAX_OUTPUT_BYTES output.

(* SRC core/src/execution.rs @fn:record_verified_edit ExecutionKernel::record_verified_edit *)
Definition record_verified_edit (id strategy path ticket_id : string) (audit_seq : N) (k : ExecutionKernel)
    : result Value string * ExecutionKernel :=
  if negb (existsb (String.eqb strategy) ["exact"; "structured"; "fuzzy"]) then
    (Err "unknown edit strategy", k)
  else if is_empty path then (Err "record_verified_edit requires path", k)
  else if is_empty ticket_id then (Err "record_verified_edit requires ticketId (Guard-2)", k)
  else
    let receipt := json_object [("kind", JString "verified_edit"); ("strategy", JString strategy);
                     ("path", JString path); ("ticketId", JString ticket_id);
                     ("auditSeq", json_u64 audit_seq)] in
    match attach_verification id receipt k with
    | (Ok _, k') => (Ok receipt, k')
    | (Err e, k') => (Err e, k')
    end.

(* SRC core/src/execution.rs @fn:record_preflight ExecutionKernel::record_preflight *)
Definition record_preflight (id : string) (passed : bool) (output : string) (k : ExecutionKernel)
    : result Value string * ExecutionKernel :=
  let '(preview, truncated, total) := truncate_to_50k output in
  let receipt := json_object [("kind", JString "shadow_preflight"); ("passed", JBool passed);
                   ("truncated", JBool truncated); ("totalBytes", json_u64 total);
                   ("preview", JString preview)] in
  match attach_verification id receipt k with
  | (Ok _, k') => (Ok receipt, k')
  | (Err e, k') => (Err e, k')
  end.

(** ** The RPC door *)

Definition required (what : string) {A} (o : option A) : result A string := ok_or_err o what.

(** A kernel computation: an error keeps the kernel it reached. *)
Definition Rpc := ExecutionKernel → result Value string * ExecutionKernel.
Definition rpc_fail (e : string) : Rpc := λ k, (Err e, k).
Definition rpc_ok (v : Value) : Rpc := λ k, (Ok v, k).
Definition with_param {A} (r : result A string) (f : A → Rpc) : Rpc := λ k,
  match r with Ok a => f a k | Err e => (Err e, k) end.
Definition then_json {A} (m : ExecutionKernel → result A string * ExecutionKernel)
    (f : A → ExecutionKernel → Value) : Rpc := λ k,
  match m k with (Ok a, k') => (Ok (f a k'), k') | (Err e, k') => (Err e, k') end.
Notation "x <-p r ;; k" := (with_param r (λ x, k)) (at level 100, r at next level, right associativity).

Definition trigger_of_param (s : string) : ExecutionTrigger :=
  default TrChat (parse_spelling [("plan", TrPlan); ("scheduler", TrScheduler); ("acp", TrAcp);
                                  ("subagent", TrSubagent)] s).

Section rpc.
Context `{JsonText} `{ExecDigest}.

(* SRC core/src/execution.rs 1150 1200 ExecutionKernel::handle *)
Definition rpc_begin (p : Value) (now : N) : Rpc := λ k,
  let '(x, k') := kernel_begin (trigger_of_param (default "chat" (p_str "trigger" p)))
                    (default "default" (p_str "sessionId" p)) (default "" (p_str "objective" p))
                    (p_str "parentId" p) (default "" (p_str "policySnapshot" p))
                    (default "" (json_render <$> json_get "contextSnapshot" p))
                    (p_strings "capabilityScope" p) now k in
  (Ok (exec_json x), k').

(* SRC core/src/execution.rs 1201 1213 ExecutionKernel::handle *)
Definition rpc_transition (p : Value) : Rpc :=
  id <-p required "execution/transition requires id" (p_str "id" p);;
  next <-p required "execution/transition requires state" (p_str "state" p);;
  phase <-p required ("bad state " +:+ next) (parse_phase next);;
  then_json (kernel_transition id phase)
    (λ now _, json_object [("id", JString id); ("state", JString (phase_as_str now))]).

(* SRC core/src/execution.rs 1214 1223 ExecutionKernel::handle *)
Definition rpc_get (p : Value) : Rpc := λ k,
  (id <-p required "execution/get requires id" (p_str "id" p);;
   x <-p required (unknown_execution id) (kernel_get id k);;
   rpc_ok (exec_json x)) k.

(* SRC core/src/execution.rs 1224 1227 ExecutionKernel::handle *)
Definition rpc_list : Rpc := λ k,
  let l := btree_values (executions k) in
  (Ok (json_object [("executions", JArray (exec_json <$> l)); ("count", json_u64 (N.of_nat (length l)))]), k).

(* SRC core/src/execution.rs 1229 1272 ExecutionKernel::handle *)
Definition rpc_bind_runtime (p : Value) : Rpc :=
  id <-p required "execution/bind_runtime requires id" (p_str "id" p);;
  then_json (on_execution id (λ x,
      let '(h, x') := bind_runtime
        {| em_model := default "" (p_str "model" p); em_provider := default "" (p_str "provider" p);
           em_permissions := p_strings "permissions" p; em_tools := p_strings "tools" p;
           em_env_summary := default JNull (json_get "env" p) |} x in
      (Ok h, x')))
    (λ hash _, json_object [("id", JString id); ("configHash", JString hash)]).

(* SRC core/src/execution.rs 1276 1319 ExecutionKernel::handle *)
Definition rpc_record_approval (p : Value) (now : N) : Rpc := λ k,
  (id <-p required "execution/record_approval requires id" (p_str "id" p);;
   ticket <-p required "execution/record_approval requires ticketId" (p_str "ticketId" p);;
   _ <-p validate_approval_request id ticket k;;
   then_json (on_execution id (exec_record_approval
       {| pa_ticket_id := ticket; pa_tool_id := default "" (p_str "toolId" p);
          pa_args_hash := default "" (p_str "argsHash" p);
          pa_requested_at_ms := default now (p_u64 "requestedAtMs" p);
          pa_risk_tier := default "R1" (p_str "riskTier" p) |}))
     (λ _ k', match kernel_get id k' with
              | Some x => json_object [("id", JString id); ("state", JString (phase_as_str (ex_state x)));
                            ("pendingApproval", json_opt approval_json (ex_pending_approval x))]
              | None => JNull
              end)) k.

(* SRC core/src/execution.rs 1321 1346 ExecutionKernel::handle *)
Definition rpc_resolve_approval (p : Value) : Rpc := λ k,
  (id <-p required "execution/resolve_approval requires id" (p_str "id" p);;
   ticket <-p required "execution/resolve_approval requires ticketId" (p_str "ticketId" p);;
   approved <-p required "execution/resolve_approval requires approved (bool)" (p_bool "approved" p);;
   _ <-p validate_approval_resolution id ticket k;;
   then_json (on_execution id (exec_resolve_for (Some ticket) approved))
     (λ a k', json_object [("id", JString id);
        ("state", json_opt (λ x, JString (phase_as_str (ex_state x))) (kernel_get id k'));
        ("resolvedApproval", approval_json a); ("approved", JBool approved)])) k.

(* SRC core/src/execution.rs 1974 1987 ExecutionKernel::handle *)
Definition rpc_check_restore (p : Value) : Rpc := λ k,
  (id <-p required "execution/check_restore requires id" (p_str "id" p);;
   x <-p required (unknown_execution id) (kernel_get id k);;
   rpc_ok (json_object [("id", JString id); ("state", JString (phase_as_str (ex_state x)));
     ("replayForbidden", JBool (should_restore_without_replay x))])) k.

(** [depth as u32] keeps the low 32 bits. *)
Definition as_u32 (n : N) : N := (n mod 4294967296)%N.

(* SRC core/src/execution.rs 1348 1397 ExecutionKernel::handle *)
Definition rpc_begin_subagent (p : Value) (now : N) : Rpc :=
  then_json (begin_subagent (default "default" (p_str "sessionId" p)) (default "" (p_str "objective" p))
      (p_str "parentId" p) (as_u32 (default 0%N (p_u64 "depth" p))) (p_strings "tools" p)
      (p_strings "blockedTools" p) (default "" (p_str "policySnapshot" p)) now)
    (λ x _,
      let provision := match plan_subagent_worktree (default "" (p_str "taskId" p)) (ex_id x) with
                       | Ok v => provision_json v | Err _ => JNull end in
      match exec_json x with
      | JObject m => JObject (obj_insert "provision" provision m)
      | v => v
      end).

(* SRC core/src/execution.rs 1400 1414 ExecutionKernel::handle *)
Definition rpc_record_edit (p : Value) : Rpc :=
  id <-p required "execution/record_edit requires id" (p_str "id" p);;
  record_verified_edit id (default "exact" (p_str "strategy" p)) (default "" (p_str "path" p))
    (default "" (p_str "ticketId" p)) (default 0%N (p_u64 "auditSeq" p)).

(* SRC core/src/execution.rs 1960 1972 ExecutionKernel::handle *)
Definition rpc_record_preflight (p : Value) : Rpc :=
  id <-p required "execution/record_preflight requires id" (p_str "id" p);;
  record_preflight id (default false (p_bool "passed" p)) (default "" (p_str "output" p)).

(** The methods of [handle] that read or change the kernel alone. *)
Definition kernel_handle (method : string) (p : Value) (now : N) : Rpc :=
  match parse_spelling
    [("execution/begin", rpc_begin p now); ("execution/transition", rpc_transition p);
     ("execution/get", rpc_get p); ("execution/list", rpc_list);
     ("execution/bind_runtime", rpc_bind_runtime p);
     ("execution/record_approval", rpc_record_approval p now);
     ("execution/resolve_approval", rpc_resolve_approval p);
     ("execution/begin_subagent", rpc_begin_subagent p now);
     ("execution/record_edit", rpc_record_edit p);
     ("execution/record_preflight", rpc_record_preflight p);
     ("execution/check_restore", rpc_check_restore p)] method with
  | Some rpc => rpc
  | None => rpc_fail ("method not found: " +:+ method)
  end.
End rpc.
