(* ===== verification/ExecutionRecover.v ===== *)
(** * Recovery of the execution kernel from the Work journal
    ([everyaios-core/src/execution.rs])

    [recover_from_work_gateway_with_report]: every Run a Work names is rebuilt
    from the events of the Work, checked against the projections of the
    gateway and put into a new kernel. *)
From S2P Require Import Order Prelude Json LeaseTypes Lease WorkTypes WorkEvents Work Fleet Execution.

(* SRC core/src/execution.rs @struct:RecoveryReport RecoveryReport *)
Record RecoveryReport := {
  rp_legacy_works : list string;
  rp_uncertain_effects : list string;
  rp_warnings : list string
}.

Definition report_new : RecoveryReport :=
  {| rp_legacy_works := []; rp_uncertain_effects := []; rp_warnings := [] |}.
Definition add_legacy (w : string) (r : RecoveryReport) : RecoveryReport :=
  {| rp_legacy_works := rp_legacy_works r ++ [w]; rp_uncertain_effects := rp_uncertain_effects r;
     rp_warnings := rp_warnings r |}.
Definition add_uncertain (l : list string) (r : RecoveryReport) : RecoveryReport :=
  {| rp_legacy_works := rp_legacy_works r; rp_uncertain_effects := rp_uncertain_effects r ++ l;
     rp_warnings := rp_warnings r |}.

(** ** Reading the metadata of a Run *)

(* SRC core/src/execution.rs @fn:metadata_string metadata_string *)
Definition metadata_string (metadata : Value) (key : string) : option string :=
  json_get key metadata ≫= as_str.

(* SRC core/src/execution.rs @fn:metadata_value_as_string metadata_value_as_string *)
Definition metadata_value_as_string `{JsonText} (metadata : Value) (key : string) : string :=
  match json_get key metadata with
  | Some (JString v) => v
  | Some v => json_render v
  | None => ""
  end.

(* SRC core/src/execution.rs @fn:metadata_string_list metadata_string_list *)
Definition metadata_string_list (metadata : Value) (key : string) : list string := p_strings key metadata.

(* SRC core/src/execution.rs @fn:metadata_trigger metadata_trigger *)
Definition metadata_trigger (metadata : Value) (a : WorkAddress) : ExecutionTrigger :=
  let inferred :=
    if is_some (wd_parent_work_id a) then TrSubagent
    else if bool_decide (wd_session_kind a = SkAutomation) then TrScheduler
    else TrChat in
  match metadata_string metadata "trigger" with
  | None => inferred
  | Some t => if String.eqb t "chat" then inferred else trigger_of_param t
  end.

(* SRC core/src/execution.rs @fn:work_created_objective work_created_objective *)
Fixpoint work_created_objective (events : list WorkEventEnvelope) : option string :=
  match events with
  | [] => None
  | env :: rest =>
      match we_event env with
      | Domain (WorkCreated objective _ _ _ _ _ _ _ _ _ _) => Some objective
      | _ => work_created_objective rest
      end
  end.

Definition effect_uncertainty_str (u : EffectUncertainty) : string :=
  match u with EuNone => "none" | EuUnknownOutcome => "unknown_outcome" | EuPartial => "partial" end.

Definition effect_json (e : EffectProjection) : Value :=
  json_object
    ([("effectId", JString (ef_effect_id e)); ("state", JString (ef_state e));
      ("uncertainty", JString (effect_uncertainty_str (ef_uncertainty e)));
      ("lastSequence", json_u64 (ef_last_sequence e))] ++
     match ef_idempotency_class e with
     | Some c => [("idempotencyClass", JString (idempotency_as_str c))] | None => [] end ++
     match ef_reason e with Some r => [("reason", JString r)] | None => [] end ++
     match ef_grant_id e with Some r => [("grantId", JString r)] | None => [] end).

(* SRC core/src/execution.rs @fn:recovered_receipt recovered_receipt *)
Definition recovered_receipt (w : string) (g : WorkGateway) : option Value :=
  let effects := effect_statuses w g in
  if bool_decide (length effects = 0) || existsb requires_reconciliation effects then None
  else Some (json_object [("source", JString "work_journal"); ("effects", JArray (effect_json <$> effects))]).

(** [serde_json::from_value] of a [RuntimeManifest]: an object with every
    field, or an array of the five in order. *)
Definition strings_of_value (v : Value) : option (list string) := as_array v ≫= mapM as_str.
Definition manifest_of_fields (model provider permissions tools env : Value) : option ExecManifest :=
  m ← as_str model; pr ← as_str provider; pe ← strings_of_value permissions; t ← strings_of_value tools;
  Some {| em_model := m; em_provider := pr; em_permissions := pe; em_tools := t; em_env_summary := env |}.
Definition manifest_of_value (v : Value) : option ExecManifest :=
  match v with
  | JObject _ =>
      m ← json_get "model" v; pr ← json_get "provider" v; pe ← json_get "permissions" v;
      t ← json_get "tools" v; e ← json_get "env_summary" v; manifest_of_fields m pr pe t e
  | JArray [m; pr; pe; t; e] => manifest_of_fields m pr pe t e
  | _ => None
  end.

(** ** One Run *)

(** What the walk over the events has gathered. *)
Record RunScan := {
  rs_state : option ExecutionPhase;
  rs_history : list string;
  rs_checkpoint : N;
  rs_sequence : N;
  rs_created_at : N;
  rs_saw_run : bool;
  rs_saw_start : bool;
  rs_active : option string;
  rs_approval_refs : list string;
  rs_pending : gmap string PendingApproval;
  rs_resolution : option (string * ExecutionPhase)
}.

Definition scan_eta (s : RunScan) : RunScan :=
  {| rs_state := rs_state s; rs_history := rs_history s; rs_checkpoint := rs_checkpoint s;
     rs_sequence := rs_sequence s; rs_created_at := rs_created_at s; rs_saw_run := rs_saw_run s;
     rs_saw_start := rs_saw_start s; rs_active := rs_active s; rs_approval_refs := rs_approval_refs s;
     rs_pending := rs_pending s; rs_resolution := rs_resolution s |}.
Ltac scan_setter proj :=
  let e := eval cbv delta [scan_eta] in scan_eta in
  match eval pattern proj in e with ?f _ => exact (λ v s, f (λ _, v) s) end.
Definition set_rs_active := Eval cbv beta in ltac:(scan_setter rs_active).
Definition set_rs_approvals := Eval cbv beta in ltac:(scan_setter rs_approval_refs).
Definition set_rs_pending := Eval cbv beta in ltac:(scan_setter rs_pending).
Definition set_rs_resolution := Eval cbv beta in ltac:(scan_setter rs_resolution).

Definition scan_new (approval_refs : list string) : RunScan :=
  {| rs_state := None; rs_history := []; rs_checkpoint := 0; rs_sequence := 0; rs_created_at := 0;
     rs_saw_run := false; rs_saw_start := false; rs_active := None; rs_approval_refs := approval_refs;
     rs_pending := ∅; rs_resolution := None |}.

(** The cursor and the current-Run pointer, moved by every event. *)
(* SRC core/src/execution.rs 540 567 ExecutionKernel::recover_one_run *)
Definition scan_pointer (env : WorkEventEnvelope) (s : RunScan) : RunScan :=
  let active :=
    match we_event env with
    | Domain (WorkCreated _ _ _ _ _ _ _ _ (Some bound) _ _) => Some bound
    | Domain (WorkUpdated patch) =>
        match metadata_string patch "executionId" with
        | Some bound => Some bound
        | None =>
            match json_get "run" patch ≫= λ run,
                    match json_get "runId" run with Some v => Some v | None => json_get "executionId" run end
                    ≫= as_str with
            | Some bound => Some bound
            | None => rs_active s
            end
        end
    | _ => rs_active s
    end in
  {| rs_state := rs_state s; rs_history := rs_history s; rs_checkpoint := rs_checkpoint s;
     rs_sequence := N.max (rs_sequence s) (we_sequence env);
     rs_created_at := N.max (rs_created_at s) (we_timestamp env); rs_saw_run := rs_saw_run s;
     rs_saw_start := rs_saw_start s; rs_active := active; rs_approval_refs := rs_approval_refs s;
     rs_pending := rs_pending s; rs_resolution := rs_resolution s |}.

(** The Run an event of the lifecycle names. *)
(* SRC core/src/execution.rs 569 580 ExecutionKernel::recover_one_run *)
Definition event_run_id (e : WorkEvent) : option string :=
  match e with
  | Domain (RunQueued r) | Domain (RunStarted r) | Domain (RunWaiting r _ _) | Domain (RunCheckpointed r _)
  | Domain (RunPaused r) | Domain (RunInterrupted r _) | Domain (RunCompleted r) | Domain (RunFailed r _)
  | Domain (RunCancelled r) => Some r
  | _ => None
  end.

(** The phase a lifecycle event moves its Run to. *)
(* SRC core/src/execution.rs 593 621 ExecutionKernel::recover_one_run *)
Definition event_phase (run : string) (e : WorkEvent) : result (option ExecutionPhase) string :=
  match e with
  | Domain (RunQueued _) => Ok (Some XReady)
  | Domain (RunStarted _) => Ok (Some XRunning)
  | Domain (RunWaiting _ reason _) =>
      s <-? ok_or_err (work_state_try_parse reason)
              ("unknown Work state `" +:+ reason +:+ "` in Run `" +:+ run +:+ "`");;
      Ok (Some (from_work_state s))
  | Domain (RunCheckpointed _ _) => Ok (Some XCheckpointed)
  | Domain (RunPaused _) => Ok (Some XPaused)
  | Domain (RunInterrupted _ _) => Ok (Some XRecoverable)
  | Domain (RunCompleted _) => Ok (Some XCompleted)
  | Domain (RunFailed _ _) => Ok (Some XFailed)
  | Domain (RunCancelled _) => Ok (Some XCancelled)
  | _ => Ok None
  end.

Definition is_start (e : WorkEvent) : bool :=
  match e with Domain (RunQueued _) | Domain (RunStarted _) => true | _ => false end.
Definition checkpoint_of (e : WorkEvent) : N :=
  match e with Domain (RunCheckpointed _ n) => n | _ => 0 end.

(* SRC core/src/execution.rs 581 639 ExecutionKernel::recover_one_run *)
Definition scan_lifecycle (run : string) (e : WorkEvent) (s : RunScan) : result RunScan string :=
  next <-? event_phase run e;;
  match next with
  | None => Ok s
  | Some next =>
      _ <-? match rs_resolution s with
            | Some (ticket, expected) =>
                if negb (bool_decide (next = expected)) then
                  Err ("approval `" +:+ ticket +:+ "` resolved Run `" +:+ run +:+ "` to " +:+
                       phase_debug expected +:+ ", then journal moved it to " +:+ phase_debug next)
                else Ok tt
            | None => Ok tt
            end;;
      _ <-? match rs_state s with
            | Some previous =>
                if negb (bool_decide (previous = next)) && negb (phase_transition_legal previous next) then
                  Err ("illegal recovered Run transition " +:+ phase_debug previous +:+ " → " +:+
                       phase_debug next +:+ " for `" +:+ run +:+ "`")
                else Ok tt
            | None => Ok tt
            end;;
      Ok {| rs_state := Some next; rs_history := rs_history s ++ [phase_debug next];
            rs_checkpoint := N.max (rs_checkpoint s) (checkpoint_of e); rs_sequence := rs_sequence s;
            rs_created_at := rs_created_at s; rs_saw_run := true;
            rs_saw_start := rs_saw_start s || is_start e; rs_active := rs_active s;
            rs_approval_refs := rs_approval_refs s; rs_pending := rs_pending s; rs_resolution := None |}
  end.

(** Who owns an approval row: its Run, the Run the Work pointed at, or the
    Run the Work points at now. *)
Definition approval_owner (w : string) (explicit : option string) (s : RunScan) (g : WorkGateway)
    : option string :=
  match explicit with
  | Some r => Some r
  | None => match rs_active s with Some r => Some r | None => execution_id w g end
  end.

(* SRC core/src/execution.rs 642 688 ExecutionKernel::recover_one_run *)
Definition scan_requested (w run : string) (g : WorkGateway) (ticket : string)
    (event_run tool_id args_hash risk_tier : option string) (requested_at_ms : option N) (timestamp : N)
    (s : RunScan) : result RunScan string :=
  owner <-? ok_or_err (approval_owner w event_run s g)
              ("approval `" +:+ ticket +:+ "` has no durable Run owner");;
  if negb (String.eqb owner run) then Ok s
  else if is_some (rs_resolution s) then
    Err ("approval `" +:+ ticket +:+ "` was requested before the prior resolution completed")
  else if negb (bool_decide (rs_state s = Some XWaitingApproval)) then
    Err ("approval `" +:+ ticket +:+ "` is not attached to a WaitingApproval Run `" +:+ run +:+ "`")
  else if is_some (rs_pending s !! ticket) then
    Err ("approval ticket `" +:+ ticket +:+ "` is already pending")
  else
    let a := {| pa_ticket_id := ticket; pa_tool_id := default "" tool_id;
                pa_args_hash := default "" args_hash; pa_requested_at_ms := default timestamp requested_at_ms;
                pa_risk_tier := default "" risk_tier |} in
    Ok (set_rs_approvals (push_unique ticket (rs_approval_refs s))
          (set_rs_pending (<[ticket := a]> (rs_pending s)) s)).

(* SRC core/src/execution.rs 689 728 ExecutionKernel::recover_one_run *)
Definition scan_resolved (w run : string) (g : WorkGateway) (ticket : string) (event_run : option string)
    (approved : bool) (s : RunScan) : result RunScan string :=
  match approval_owner w event_run s g with
  | None =>
      if is_some (rs_pending s !! ticket) then
        Err ("approval resolution `" +:+ ticket +:+ "` has no durable Run owner")
      else Ok s
  | Some owner =>
      if negb (String.eqb owner run) then Ok s
      else if is_some (rs_pending s !! ticket) then
        let s' := set_rs_pending (delete ticket (rs_pending s)) s in
        if negb (bool_decide (rs_state s = Some XWaitingApproval)) then
          Err ("approval `" +:+ ticket +:+ "` is resolved from a non-WaitingApproval Run `" +:+ run +:+ "`")
        else Ok (set_rs_resolution (Some (ticket, if approved then XRunning else XFailed)) s')
      else Ok s
  end.

Definition scan_event (w run : string) (g : WorkGateway) (env : WorkEventEnvelope) (s : RunScan)
    : result RunScan string :=
  let s := scan_pointer env s in
  match event_run_id (we_event env) with
  | Some r => if String.eqb r run then scan_lifecycle run (we_event env) s else Ok s
  | None =>
      match we_event env with
      | Domain (ApprovalRequested ticket r tool args tier at_ms) =>
          scan_requested w run g ticket r tool args tier at_ms (we_timestamp env) s
      | Domain (ApprovalResolved ticket r approved) => scan_resolved w run g ticket r approved s
      | _ => Ok s
      end
  end.

Fixpoint scan_events (w run : string) (g : WorkGateway) (events : list WorkEventEnvelope) (s : RunScan)
    : result RunScan string :=
  match events with
  | [] => Ok s
  | env :: rest => s' <-? scan_event w run g env s;; scan_events w run g rest s'
  end.

(** Provenance the context of a Run must repeat. *)
(* SRC core/src/execution.rs 498 524 ExecutionKernel::recover_one_run *)
Definition check_context `{JsonText} (a : WorkAddress) (run context_snapshot : string) : result unit string :=
  if negb (is_legacy (wd_provenance a)) && starts_with "{" (trim_start context_snapshot) then
    context <-? ok_or_err (json_parse context_snapshot) ("Run `" +:+ run +:+ "` has corrupt provenance context");;
    let matches_field field expected :=
      match expected with
      | Some v => opt_eqb (metadata_string context field) (Some v)
      | None => true
      end in
    let p := wd_provenance a in
    if negb (matches_field "automationId" (pv_automation_id p)) ||
       negb (matches_field "revisionId" (pv_revision_id p)) ||
       negb (matches_field "triggerOccurrenceId" (pv_trigger_occurrence_id p)) ||
       match pv_automation_generation p with
       | Some n => negb (bool_decide (json_get "automationGeneration" context ≫= as_u64 = Some n))
       | None => false
       end then
      Err ("Run `" +:+ run +:+ "` context provenance conflicts with Work")
    else Ok tt
  else Ok tt.

(** What must hold once the events are walked. *)
(* SRC core/src/execution.rs 733 768 ExecutionKernel::recover_one_run *)
Definition check_scan (w run : string) (g : WorkGateway) (s : RunScan) : result ExecutionPhase string :=
  _ <-? match rs_resolution s with
        | Some (ticket, _) =>
            Err ("approval `" +:+ ticket +:+ "` was resolved without a subsequent Run transition for `" +:+
                 run +:+ "`")
        | None => Ok tt
        end;;
  if negb (rs_saw_run s) then Err ("Run `" +:+ run +:+ "` has no durable lifecycle event")
  else if negb (rs_saw_start s) && match rs_state s with Some p => phase_is_terminal p | None => false end then
    Err ("Run `" +:+ run +:+ "` has a terminal event without a durable start/queue event")
  else
    state <-? ok_or_err (rs_state s) ("Run `" +:+ run +:+ "` has no recovered state");;
    if (1 <? size (rs_pending s))%nat then
      Err ("Run `" +:+ run +:+ "` has multiple unresolved pending approvals")
    else if negb (bool_decide (rs_pending s = ∅)) && negb (bool_decide (state = XWaitingApproval)) then
      Err ("Run `" +:+ run +:+ "` has a pending approval outside WaitingApproval")
    else if negb (length (pending_approvals_for_run w run g) =? size (rs_pending s))%nat then
      Err ("Run `" +:+ run +:+ "` pending-approval projection disagrees with the Work journal")
    else if phase_is_terminal state && has_unresolved_uncertain_effect w g then
      Err ("terminal Run `" +:+ run +:+ "` still has an unresolved uncertain effect")
    else Ok state.

(** The record of a recovered Run. *)
(* SRC core/src/execution.rs 782 814 ExecutionKernel::recover_one_run *)
Definition recovered_work `{JsonText} (a : WorkAddress) (g : WorkGateway) (run : string) (metadata : Value)
    (events : list WorkEventEnvelope) (now : N) (state : ExecutionPhase) (s : RunScan) : ExecWork :=
  {| ex_id := run;
     ex_parent_id := match metadata_string metadata "parentId" with
                     | Some p => Some p | None => wd_parent_work_id a end;
     ex_workspace := default "" (metadata_string metadata "workspace");
     ex_session_id := match metadata_string metadata "sessionId" with
                      | Some v => v | None => default "" (wd_session_id a) end;
     ex_trigger := metadata_trigger metadata a;
     ex_objective := match metadata_string metadata "objective" with
                     | Some v => v | None => default "" (work_created_objective events) end;
     ex_state := state;
     ex_plan := metadata_string metadata "plan";
     ex_policy_snapshot := default "" (metadata_string metadata "policySnapshot");
     ex_capability_scope := metadata_string_list metadata "capabilityScope";
     ex_context_snapshot := metadata_value_as_string metadata "contextSnapshot";
     ex_checkpoint := rs_checkpoint s;
     ex_event_stream := if bool_decide (rs_history s = []) then [phase_debug state] else rs_history s;
     ex_artifact_refs := metadata_string_list metadata "artifactRefs";
     ex_approval_refs := rs_approval_refs s;
     ex_verification := json_get "verification" metadata;
     ex_receipt := recovered_receipt (wd_work_id a) g;
     ex_idempotency_key := default ("exec:" +:+ run) (metadata_string metadata "idempotencyKey");
     ex_created_at_ms := if (rs_created_at s =? 0)%N then now else rs_created_at s;
     ex_config_hash := default "" (metadata_string metadata "configHash");
     ex_runtime_manifest := json_get "runtimeManifest" metadata ≫= manifest_of_value;
     ex_pending_approval := head (btree_values (rs_pending s));
     ex_journal_sequence := rs_sequence s |}.

(* SRC core/src/execution.rs 486 489 ExecutionKernel::recover_one_run *)
Definition run_meta (w run : string) (g : WorkGateway) : Value :=
  default (JObject []) (lookup2 w run (run_metadata g)).

(** The uncertain effects of a Work, as the report names them. *)
(* SRC core/src/execution.rs 769 775 ExecutionKernel::recover_one_run *)
Definition uncertain_effects (w : string) (g : WorkGateway) : list string :=
  (λ e, w +:+ ":" +:+ ef_effect_id e) <$> List.filter requires_reconciliation (effect_statuses w g).

(* SRC core/src/execution.rs 479 497 ExecutionKernel::recover_one_run *)
Definition recover_one_run `{JsonText} (a : WorkAddress) (events : list WorkEventEnvelope) (g : WorkGateway)
    (run : string) (now : N) (report : RecoveryReport) : result (ExecWork * RecoveryReport) string :=
  let w := wd_work_id a in
  let metadata := run_meta w run g in
  _ <-? check_context a run (metadata_value_as_string metadata "contextSnapshot");;
  s <-? scan_events w run g events (scan_new (metadata_string_list metadata "approvalRefs"));;
  state <-? check_scan w run g s;;
  let report := add_uncertain (uncertain_effects w g) report in
  let report := if is_legacy (wd_provenance a) then add_legacy w report else report in
  Ok (recovered_work a g run metadata events now state s, report).

(** ** Every Run *)

(** One recovered Run enters the kernel. *)
Definition admit_run (w run : string) (x : ExecWork) (k : ExecutionKernel) : result ExecutionKernel string :=
  if is_some (executions k !! run) then Err ("duplicate recovered Run `" +:+ run +:+ "`")
  else Ok (kernel_alias w run
             {| executions := <[run := x]> (executions k); aliases := aliases k;
                counter := N.max (counter k) (parse_ex_counter run) |}).

Section recover.
Context `{JsonText}.

Fixpoint recover_runs (a : WorkAddress) (events : list WorkEventEnvelope) (g : WorkGateway) (now : N)
    (runs : list string) (st : ExecutionKernel * RecoveryReport)
    : result (ExecutionKernel * RecoveryReport) string :=
  match runs with
  | [] => Ok st
  | run :: rest =>
      xr <-? recover_one_run a events g run now st.2;;
      k <-? admit_run (wd_work_id a) run xr.1 st.1;;
      recover_runs a events g now rest (k, xr.2)
  end.

(* SRC core/src/execution.rs 385 429 ExecutionKernel::recover_from_work_gateway_with_report *)
Definition recover_work (g : WorkGateway) (now : N) (a : WorkAddress) (st : ExecutionKernel * RecoveryReport)
    : result (ExecutionKernel * RecoveryReport) string :=
  let w := wd_work_id a in
  let events := events_of w g in
  let created := List.filter (λ env, is_work_created (we_event env)) events in
  if negb (length created =? 1)%nat then
    Err ("Work `" +:+ w +:+ "` must have exactly one WorkCreated event")
  else
    let runs := default [] (run_ids g !! w) in
    if bool_decide (runs = []) then
      if match presence g !! w ≫= wp_work_state with Some s => work_is_terminal s | None => false end then
        Err ("terminal Work `" +:+ w +:+ "` has no durable Run")
      else Ok (st.1, if is_legacy (wd_provenance a) then add_legacy w st.2 else st.2)
    else recover_runs a events g now runs st.

Fixpoint recover_works (g : WorkGateway) (now : N) (l : list WorkAddress) (st : ExecutionKernel * RecoveryReport)
    : result (ExecutionKernel * RecoveryReport) string :=
  match l with
  | [] => Ok st
  | a :: rest => st' <-? recover_work g now a st;; recover_works g now rest st'
  end.

(* SRC core/src/work_gateway.rs @fn:list_work WorkGateway::list_work *)
Definition list_work (g : WorkGateway) : list WorkAddress := btree_values (works g).

(** The current Run of every Work is recovered, in the state its presence shows. *)
(* SRC core/src/execution.rs 431 456 ExecutionKernel::recover_from_work_gateway_with_report *)
Definition check_presence (g : WorkGateway) (k : ExecutionKernel) (a : WorkAddress) : result unit string :=
  let w := wd_work_id a in
  match execution_id w g with
  | None => Ok tt
  | Some run =>
      x <-? ok_or_err (kernel_get run k) ("Work `" +:+ w +:+ "` points at missing Run `" +:+ run +:+ "`");;
      match presence g !! w ≫= wp_work_state with
      | Some projected =>
          if negb (bool_decide (from_work_state projected = ex_state x)) then
            Err ("Work `" +:+ w +:+ "` presence state disagrees with Run `" +:+ run +:+ "`")
          else Ok tt
      | None => Ok tt
      end
  end.

(* SRC core/src/work_gateway.rs @fn:bindings_for WorkGateway::bindings_for *)
Definition bindings_for (w : string) (g : WorkGateway) : list AgentBinding :=
  List.filter (λ b, String.eqb (ab_work_id b) w) (btree_values (agent_bindings g)).

(* SRC core/src/execution.rs @fn:validate_recovered_bindings ExecutionKernel::validate_recovered_bindings *)
Definition validate_recovered_bindings (g : WorkGateway) : result unit string :=
  check_all (λ a, check_all (λ b,
    if negb (String.eqb (ab_work_id b) (wd_work_id a)) ||
       negb (opt_eqb (Some (ab_session_id b)) (wd_session_id a)) then
      Err ("binding `" +:+ ab_binding_id b +:+ "` ownership does not match Work `" +:+ wd_work_id a +:+ "`")
    else if bool_decide (ab_state b = BlActive) && negb (is_some (ab_provider_session_id b)) then
      Err ("active binding `" +:+ ab_binding_id b +:+ "` has no provider-session reference")
    else Ok tt) (bindings_for (wd_work_id a) g)) (list_work g).

(* SRC core/src/execution.rs 376 384 ExecutionKernel::recover_from_work_gateway_with_report *)
Definition recover_with_report (g : WorkGateway) (now : N) : result (ExecutionKernel * RecoveryReport) string :=
  st <-? recover_works g now (list_work g) (kernel_new, report_new);;
  _ <-? check_all (check_presence g st.1) (list_work g);;
  _ <-? validate_recovered_bindings g;;
  _ <-? kernel_validate st.1;;
  Ok st.

(* SRC core/src/execution.rs @fn:recover_from_work_gateway ExecutionKernel::recover_from_work_gateway *)
Definition recover_from_work_gateway (g : WorkGateway) (now : N) : result ExecutionKernel string :=
  st <-? recover_with_report g now;; Ok st.1.

(** The checkpoint file: absent, unreadable, or the kernel serde reads back. *)
Inductive CheckpointFile := CkMissing | CkUnreadable (e : string) | CkSnapshot (k : ExecutionKernel).

(* SRC core/src/execution.rs @fn:recover_from ExecutionKernel::recover_from *)
Definition recover_from (f : CheckpointFile) : result ExecutionKernel string :=
  match f with
  | CkMissing => Ok kernel_new
  | CkUnreadable e => Err e
  | CkSnapshot k => _ <-? kernel_validate k;; Ok k
  end.

(* SRC core/src/execution.rs @fn:recover_from_work_gateway_with_checkpoint ExecutionKernel::recover_from_work_gateway_with_checkpoint *)
Definition recover_with_checkpoint (g : WorkGateway) (checkpoint : option CheckpointFile) (now : N)
    : result ExecutionKernel string :=
  st <-? recover_with_report g now;;
  _ <-? match checkpoint with
        | None | Some CkMissing => Ok tt
        | Some f => cached <-? recover_from f;; validate_checkpoint_cache st.1 cached
        end;;
  Ok st.1.
End recover.
