(* ===== verification/ExecutionFacts.v ===== *)
(** * Facts about the execution kernel

    Every RPC call is at most one step of an abstract Run lifecycle; a refused
    call changes nothing; an approval waits for its ticket; a finished Run stays
    finished; Run ids are fresh. *)
From S2P Require Import Order Prelude Json LeaseTypes WorkTypes WorkEvents Work Fleet NetFloor Execution.

(** ** The abstract lifecycle *)

Inductive kernel_label :=
  | LBegin (id : string)
  | LMove (id : string) (next : ExecutionPhase)
  | LRequest (id : string) (a : PendingApproval)
  | LResolve (id ticket : string) (approved : bool)
  | LNote (id : string).

(** Fields a note may change: what is recorded about a Run, not where it is. *)
Definition same_run (x y : ExecWork) : Prop :=
  ex_id y = ex_id x ∧ ex_session_id y = ex_session_id x ∧ ex_trigger y = ex_trigger x ∧
  ex_state y = ex_state x ∧ ex_event_stream y = ex_event_stream x ∧
  ex_pending_approval y = ex_pending_approval x ∧ ex_approval_refs y = ex_approval_refs x ∧
  ex_checkpoint y = ex_checkpoint x ∧ ex_receipt y = ex_receipt x.

Definition fresh_run (id : string) (x : ExecWork) : Prop :=
  ex_id x = id ∧ ex_state x = XReady ∧ ex_event_stream x = [] ∧ ex_pending_approval x = None ∧
  ex_approval_refs x = [] ∧ ex_receipt x = None.

Inductive kernel_step (k : ExecutionKernel) : kernel_label → ExecutionKernel → Prop :=
  | step_begin id x k' : id = run_id_of (u64_add (counter k) 1) → fresh_run id x →
      executions k' = match executions k !! id with Some _ => executions k | None => <[id := x]> (executions k) end →
      counter k' = u64_add (counter k) 1 → kernel_step k (LBegin id) k'
  | step_move id next x : executions k !! id = Some x → phase_can_transition (ex_state x) next = true →
      ¬ (ex_state x = XWaitingApproval ∧ is_Some (ex_pending_approval x)) →
      kernel_step k (LMove id next) (put_execution id (advance next x) k)
  | step_request id a x : executions k !! id = Some x → ex_state x = XWaitingApproval →
      ex_pending_approval x = None →
      kernel_step k (LRequest id a)
        (put_execution id (set_ex_pending (Some a) (set_ex_approvals (ex_approval_refs x ++ [pa_ticket_id a]) x)) k)
  | step_resolve id a (approved : bool) x : executions k !! id = Some x → ex_pending_approval x = Some a →
      phase_can_transition (ex_state x) (if approved then XRunning else XFailed) = true →
      kernel_step k (LResolve id (pa_ticket_id a) approved)
        (put_execution id (advance (if approved then XRunning else XFailed) (set_ex_pending None x)) k)
  | step_note id x y : executions k !! id = Some x → same_run x y →
      kernel_step k (LNote id) (put_execution id y k).

(** The step a call may be. *)
Definition call_label (method : string) (p : Value) (l : kernel_label) : Prop :=
  match l with
  | LBegin _ => method = "execution/begin" ∨ method = "execution/begin_subagent"
  | LMove id next => method = "execution/transition" ∧ p_str "id" p = Some id ∧
                     p_str "state" p ≫= parse_phase = Some next
  | LRequest id a => method = "execution/record_approval" ∧ p_str "id" p = Some id ∧
                     p_str "ticketId" p = Some (pa_ticket_id a)
  | LResolve id ticket approved => method = "execution/resolve_approval" ∧ p_str "id" p = Some id ∧
                     p_str "ticketId" p = Some ticket ∧ p_bool "approved" p = Some approved
  | LNote id => (method = "execution/bind_runtime" ∨ method = "execution/record_edit" ∨
                 method = "execution/record_preflight") ∧ p_str "id" p = Some id
  end.

(** A call that answers without a step: it reads, or asks again for the
    approval that is pending. *)
Definition quiet_call (method : string) (p : Value) (k : ExecutionKernel) : Prop :=
  method = "execution/get" ∨ method = "execution/list" ∨ method = "execution/check_restore" ∨
  (method = "execution/record_approval" ∧ ∃ id x a, p_str "id" p = Some id ∧ executions k !! id = Some x ∧
     ex_pending_approval x = Some a ∧ p_str "ticketId" p = Some (pa_ticket_id a)).

Section facts.
Context `{JsonText} `{ExecDigest}.

(** ** Methods, one lemma each *)

(** A refused computation keeps the kernel. *)
Definition refuses_cleanly {A} (m : ExecutionKernel → result A string * ExecutionKernel) : Prop :=
  ∀ k e k', m k = (Err e, k') → k' = k.

Lemma put_same id x k : executions k !! id = Some x → put_execution id x k = k.
Proof. intros Hx. destruct k as [m al c]. unfold put_execution, set_executions. simpl in *. by rewrite insert_id. Qed.

Lemma on_execution_cases {A} id (f : ExecWork → result A string * ExecWork) k r k' :
  on_execution id f k = (r, k') →
  (k' = k ∧ r = Err (unknown_execution id)) ∨
  ∃ x x', executions k !! id = Some x ∧ f x = (r, x') ∧ k' = put_execution id x' k.
Proof.
  unfold on_execution, kernel_get. destruct (executions k !! id) as [x|] eqn:Hx; [|by intros [= <- <-]; left].
  destruct (f x) as [r' x'] eqn:Hf. intros [= <- <-]. right. by exists x, x'.
Qed.

Lemma on_execution_refuses {A} id (f : ExecWork → result A string * ExecWork) :
  (∀ x e x', f x = (Err e, x') → x' = x) → refuses_cleanly (on_execution id f).
Proof.
  intros Hf k e k' Hk. apply on_execution_cases in Hk as [[-> _]|(x & x' & Hx & He & ->)]; [done|].
  apply Hf in He as ->. by apply put_same.
Qed.

Lemma then_json_refuses {A} (m : ExecutionKernel → result A string * ExecutionKernel) f :
  refuses_cleanly m → refuses_cleanly (then_json m f).
Proof. intros Hm k e k'. unfold then_json. destruct (m k) as [[a|e'] k1] eqn:E; [done|]. intros [= <- <-]. by eapply Hm. Qed.

Lemma with_param_refuses {A} (r : result A string) (f : A → Rpc) :
  (∀ a, refuses_cleanly (f a)) → refuses_cleanly (with_param r f).
Proof. intros Hf k e k'. unfold with_param. destruct r; [apply Hf|]. by intros [= _ <-]. Qed.

Lemma rpc_pure_refuses r : refuses_cleanly (λ k, (r, k) : result Value string * ExecutionKernel).
Proof. by intros k e k' [= _ <-]. Qed.

(** The same at one kernel, for the methods that read it first. *)
Lemma with_param_at {A} (r : result A string) (f : A → Rpc) k e k' :
  (∀ a, r = Ok a → f a k = (Err e, k') → k' = k) → with_param r f k = (Err e, k') → k' = k.
Proof. unfold with_param. destruct r as [a|]; [intros Hf; by apply Hf|]. by intros _ [= _ <-]. Qed.

Lemma record_approval_refuses a x e x' : exec_record_approval a x = (Err e, x') → x' = x.
Proof. unfold exec_record_approval. repeat case_match; by intros [= _ <-]. Qed.
Lemma resolve_refuses t b x e x' : exec_resolve_for t b x = (Err e, x') → x' = x.
Proof. unfold exec_resolve_for. repeat case_match; by intros [= _ <-]. Qed.

Lemma attach_refuses id v : refuses_cleanly (attach_verification id v).
Proof. by apply on_execution_refuses. Qed.

Lemma subagent_refuses s o pa d gr de po now : refuses_cleanly (begin_subagent s o pa d gr de po now).
Proof.
  intros k e k'. unfold begin_subagent. case_match; [by intros [= _ <-]|].
  by destruct (kernel_begin _ _ _ _ _ _ _ _ _).
Qed.

Lemma transition_refuses id next : refuses_cleanly (kernel_transition id next).
Proof. apply on_execution_refuses. intros x e x'. repeat case_match; by intros [= _ <-]. Qed.

(** The method a call runs, by its name. *)
Ltac by_method Hm :=
  unfold kernel_handle in Hm;
  lazymatch type of Hm with
  | context [parse_spelling ?t ?m] =>
      let E := fresh "E" in
      destruct (parse_spelling t m) as [rpc|] eqn:E;
      [apply parse_spelling_In in E; rewrite !elem_of_cons, elem_of_nil in E;
       repeat (destruct E as [E|E]; [injection E as -> ->|]); [..|done]|]
  end.

Lemma record_approval_at p now k e k' : rpc_record_approval p now k = (Err e, k') → k' = k.
Proof.
  unfold rpc_record_approval. do 3 (apply with_param_at; intros ? _).
  apply then_json_refuses, on_execution_refuses. intros ? ? ?. apply record_approval_refuses.
Qed.

Lemma resolve_approval_at p k e k' : rpc_resolve_approval p k = (Err e, k') → k' = k.
Proof.
  unfold rpc_resolve_approval. do 4 (apply with_param_at; intros ? _).
  apply then_json_refuses, on_execution_refuses. intros ? ? ?. apply resolve_refuses.
Qed.

Lemma refused_call_step method p now k e k' :
  kernel_handle method p now k = (Err e, k') → k' = k.
Proof.
  intros Hm. by_method Hm.
  - unfold rpc_begin in Hm. by destruct (kernel_begin _ _ _ _ _ _ _ _ _).
  - revert Hm. unfold rpc_transition. do 3 (apply with_param_at; intros ? _).
    apply then_json_refuses, transition_refuses.
  - revert Hm. unfold rpc_get. do 2 (apply with_param_at; intros ? _). done.
  - done.
  - revert Hm. unfold rpc_bind_runtime. apply with_param_at. intros ? _.
    apply then_json_refuses, on_execution_refuses. intros x e' x'. by destruct (bind_runtime _ _).
  - by eapply record_approval_at.
  - by eapply resolve_approval_at.
  - revert Hm. apply then_json_refuses, subagent_refuses.
  - revert Hm. unfold rpc_record_edit. apply with_param_at. intros ? _.
    unfold record_verified_edit. repeat case_match; intros [= _ <-]; try done. by eapply attach_refuses.
  - revert Hm. unfold rpc_record_preflight. apply with_param_at. intros ? _.
    unfold record_preflight. repeat case_match; intros [= _ <-]; try done. by eapply attach_refuses.
  - revert Hm. unfold rpc_check_restore. do 2 (apply with_param_at; intros ? _). done.
  - by injection Hm as _ <-.
Qed.

(** ** One call, one step *)

Lemma begin_step t s o pa po c sc now k x k' :
  kernel_begin t s o pa po c sc now k = (x, k') → kernel_step k (LBegin (run_id_of (u64_add (counter k) 1))) k'.
Proof.
  unfold kernel_begin, begin_named, kernel_get. simpl.
  destruct (executions k !! run_id_of _) as [y|] eqn:Hy; intros [= <- <-].
  - apply (step_begin k _ (set_ex_state XReady (exec_new (run_id_of (u64_add (counter k) 1)) t s o now)));
      [done|by repeat split|by rewrite Hy|done].
  - eapply step_begin; [done| |by rewrite Hy|done]. by repeat split.
Qed.

Lemma required_ok what {A} (o : option A) a : required what o = Ok a → o = Some a.
Proof. destruct o; [by intros [= ->]|done]. Qed.

Lemma with_param_ok {A} (r : result A string) (f : A → Rpc) k v k' :
  with_param r f k = (Ok v, k') → ∃ a, r = Ok a ∧ f a k = (Ok v, k').
Proof. unfold with_param. destruct r as [a|]; [|done]. by exists a. Qed.

Lemma then_json_ok {A} (m : ExecutionKernel → result A string * ExecutionKernel) f k v k' :
  then_json m f k = (Ok v, k') → ∃ a, m k = (Ok a, k').
Proof. unfold then_json. destruct (m k) as [[a|] k1]; [|done]. intros [= _ <-]. by exists a. Qed.

(** The parameters a successful call read. *)
Ltac params Hm :=
  repeat (apply with_param_ok in Hm as (? & Hp & Hm); try apply required_ok in Hp; revert Hp); intros.

Lemma transition_step id next k r k' : kernel_transition id next k = (Ok r, k') → kernel_step k (LMove id next) k'.
Proof.
  intros Hk. apply on_execution_cases in Hk as [[_ [=]]|(x & x' & Hx & Hf & ->)].
  destruct (phase_can_transition _ _) eqn:Hc; simpl in Hf; [|done].
  destruct (leaves_unresolved next x) eqn:Hl; [done|]. injection Hf as <- <-.
  apply step_move; [done..|]. intros [Hs [a Ha]]. unfold leaves_unresolved in Hl.
  rewrite Hs, Ha in *. simpl in Hl. destruct next; try discriminate Hl; vm_compute in Hc; discriminate.
Qed.

Lemma attach_step id v k r k' : attach_verification id v k = (r, k') → is_ok r = true → kernel_step k (LNote id) k'.
Proof.
  intros Hk Hok. apply on_execution_cases in Hk as [[_ ->]|(x & x' & Hx & Hf & ->)]; [done|].
  injection Hf as <- <-. by eapply step_note; [exact Hx|repeat split].
Qed.

Lemma record_approval_step id a k u k' : on_execution id (exec_record_approval a) k = (Ok u, k') →
  kernel_step k (LRequest id a) k' ∨
  (k' = k ∧ ∃ x b, executions k !! id = Some x ∧ ex_pending_approval x = Some b ∧ pa_ticket_id b = pa_ticket_id a).
Proof.
  intros Hk. apply on_execution_cases in Hk as [[_ [=]]|(x & x' & Hx & Hf & ->)].
  unfold exec_record_approval in Hf. destruct (bool_decide_reflect (ex_state x = XWaitingApproval)); [|done].
  simpl in Hf. destruct (ex_pending_approval x) as [c|] eqn:Hp.
  - right. destruct (String.eqb_spec (pa_ticket_id c) (pa_ticket_id a)) as [Ht|]; [|done]. simpl in Hf.
    case_match; [done|]. injection Hf as _ <-. split; [by apply put_same|]. by exists x, c.
  - left. injection Hf as _ <-. by apply step_request.
Qed.

Lemma resolve_step id t b k a k' : on_execution id (exec_resolve_for (Some t) b) k = (Ok a, k') →
  kernel_step k (LResolve id t b) k'.
Proof.
  intros Hk. apply on_execution_cases in Hk as [[_ [=]]|(x & x' & Hx & Hf & ->)].
  unfold exec_resolve_for in Hf. destruct (phase_can_transition _ _) eqn:Hc; simpl in Hf; [|done].
  destruct (ex_pending_approval x) as [c|] eqn:Hp; [|done].
  destruct (String.eqb_spec (pa_ticket_id c) t) as [<-|]; simpl in Hf; [|done].
  injection Hf as <- <-. by apply step_resolve.
Qed.

Lemma call_refines_lifecycle_step method p now k v k' :
  kernel_handle method p now k = (Ok v, k') →
  (k' = k ∧ quiet_call method p k) ∨ ∃ l, call_label method p l ∧ kernel_step k l k'.
Proof.
  intros Hm. unfold quiet_call. by_method Hm.
  - right. unfold rpc_begin in Hm. destruct (kernel_begin _ _ _ _ _ _ _ _ _) eqn:E. injection Hm as _ <-.
    apply begin_step in E. eexists; split; [|done]. by left.
  - right. unfold rpc_transition in Hm. params Hm. apply then_json_ok in Hm as [? Hm].
    apply transition_step in Hm. eexists; split; [|done]. split_and!; [done..|]. by simplify_option_eq.
  - left. unfold rpc_get in Hm. params Hm. injection Hm as _ <-. auto.
  - left. injection Hm as _ <-. auto.
  - right. unfold rpc_bind_runtime in Hm. params Hm. apply then_json_ok in Hm as [? Hm].
    apply on_execution_cases in Hm as [[_ [=]]|(x' & y & Hx & Hf & ->)]. simpl in Hf. injection Hf as <- <-.
    eexists; split; [|by eapply step_note; [exact Hx|repeat split]]. simpl. auto.
  - unfold rpc_record_approval in Hm. params Hm. apply then_json_ok in Hm as [? Hm].
    apply record_approval_step in Hm as [Hm|(-> & y & b & Hy & Hb & Ht)].
    + right. eexists; split; [|done]. done.
    + left. split; [done|]. do 3 right. split; [done|]. simpl in Ht. eexists _, y, b. rewrite Ht. by split_and!; [eassumption|..].
  - right. unfold rpc_resolve_approval in Hm. params Hm. apply then_json_ok in Hm as [? Hm].
    apply resolve_step in Hm. eexists; split; [|done]. done.
  - right. unfold rpc_begin_subagent in Hm. apply then_json_ok in Hm as [? Hm]. unfold begin_subagent in Hm.
    case_match; [done|]. destruct (kernel_begin _ _ _ _ _ _ _ _ _) eqn:E. injection Hm as _ <-.
    apply begin_step in E. eexists; split; [|done]. by right.
  - right. unfold rpc_record_edit in Hm. params Hm. unfold record_verified_edit in Hm.
    repeat case_match; simplify_eq. eexists; split; [|by eapply attach_step]. simpl. auto.
  - right. unfold rpc_record_preflight in Hm. params Hm. unfold record_preflight in Hm.
    repeat case_match; simplify_eq. eexists; split; [|by eapply attach_step]. simpl. auto.
  - left. unfold rpc_check_restore in Hm. params Hm. injection Hm as _ <-. auto.
  - done.
Qed.

(** ** Runs of calls *)

Definition kernel_call : Type := string * Value * N.

Definition kernel_answer (c : kernel_call) : Rpc := kernel_handle c.1.1 c.1.2 c.2.
Definition kernel_play (calls : list kernel_call) (k : ExecutionKernel) : ExecutionKernel :=
  foldl (λ k c, (kernel_answer c k).2) k calls.

(** A call leaves the kernel as it is or takes the step it asks for. *)
Lemma answer_cases c k :
  (kernel_answer c k).2 = k ∨ ∃ l, call_label c.1.1 c.1.2 l ∧ kernel_step k l (kernel_answer c k).2.
Proof.
  destruct c as [[m p] now]. unfold kernel_answer. simpl.
  destruct (kernel_handle m p now k) as [[v|e] k'] eqn:E; simpl.
  - apply call_refines_lifecycle_step in E as [[-> _]|]; [by left|by right].
  - left. by eapply refused_call_step.
Qed.

Lemma play_invariant (P : ExecutionKernel → Prop) (ok : kernel_call → Prop) calls k :
  (∀ k c l k', ok c → call_label c.1.1 c.1.2 l → P k → kernel_step k l k' → P k') →
  Forall ok calls → P k → P (kernel_play calls k).
Proof.
  intros Hstep Hok. revert k. induction Hok as [|c calls Hc _ IH]; intros k Hk; [done|].
  apply IH. destruct (answer_cases c k) as [->|(l & Hl & Hs)]; [done|]. by eapply Hstep.
Qed.

(** ** Well-formed kernels *)

Fixpoint legal_path (ps : list ExecutionPhase) : bool :=
  match ps with
  | p :: (q :: _) as rest => phase_transition_legal p q && legal_path rest
  | _ => true
  end.

Lemma legal_path_snoc ps next : legal_path ps = true →
  (∀ p, last ps = Some p → phase_transition_legal p next = true) → legal_path (ps ++ [next]) = true.
Proof.
  induction ps as [|p [|q ps] IH]; intros Hps Hl; [done|simpl; rewrite (Hl p) by done; done|].
  change (phase_transition_legal p q && legal_path (q :: ps) = true) in Hps. bool_hyps.
  change (phase_transition_legal p q && legal_path ((q :: ps) ++ [next]) = true).
  apply andb_true_iff. split; [done|]. by apply IH.
Qed.

Lemma can_transition_legal p q : phase_can_transition p q = true → phase_transition_legal p q = true.
Proof. by destruct p, q. Qed.

(** A record: its key, its history along the legal transitions, and an
    approval that is pending only while the Run waits for it. *)
Record run_ok (id : string) (x : ExecWork) : Prop := {
  run_key : ex_id x = id;
  run_stream : ∃ ps, ex_event_stream x = phase_debug <$> ps ∧ legal_path ps = true ∧
                     ex_state x = default XReady (last ps);
  run_pending a : ex_pending_approval x = Some a →
                  ex_state x = XWaitingApproval ∧ pa_ticket_id a ∈ ex_approval_refs x
}.

Record kernel_ok (k : ExecutionKernel) : Prop := {
  ok_runs id x : executions k !! id = Some x → run_ok id x;
  ok_counter id : is_Some (executions k !! id) → (parse_ex_counter id ≤ counter k)%N
}.

Lemma kernel_new_ok : kernel_ok kernel_new.
Proof. constructor; [done|]. intros id [x Hx]. done. Qed.

Lemma run_ok_advance id x next : run_ok id x → phase_can_transition (ex_state x) next = true →
  ex_pending_approval x = None → run_ok id (advance next x).
Proof.
  intros [Hk (ps & Hst & Hps & Hs) Hp] Hc Hn. constructor; simpl; [done| |by rewrite Hn].
  exists (ps ++ [next]). rewrite fmap_app, Hst, last_snoc. split_and!; [done| |done].
  apply legal_path_snoc; [done|]. intros p Hl. apply can_transition_legal. by rewrite Hs, Hl in Hc.
Qed.

Lemma kernel_ok_put id x k : kernel_ok k → is_Some (executions k !! id) → run_ok id x →
  kernel_ok (put_execution id x k).
Proof.
  intros [Hr Hc] Hid Hx. constructor; simpl.
  - intros id' y. destruct (decide (id = id')) as [<-|]; [rewrite lookup_insert_eq; by intros [= <-]|].
    rewrite lookup_insert_ne by done. apply Hr.
  - intros id'. destruct (decide (id = id')) as [<-|]; [by intros _; apply Hc|].
    rewrite lookup_insert_ne by done. apply Hc.
Qed.

Lemma parse_ex_counter_run_id n : (n ≤ u64_max)%N → parse_ex_counter (run_id_of n) = n.
Proof.
  intros Hn. unfold parse_ex_counter, run_id_of.
  rewrite (proj2 (strip_prefix_spec "ex:" _ (pretty n))) by done. simpl. by rewrite parse_uint_pretty.
Qed.

Lemma fresh_run_ok id x : fresh_run id x → run_ok id x.
Proof. intros (Hi & Hs & Hst & Hp & _). constructor; [done| |by rewrite Hp]. by exists []. Qed.

Lemma kernel_ok_step k l k' : kernel_ok k → (counter k < u64_max)%N → kernel_step k l k' →
  kernel_ok k' ∧ (counter k ≤ counter k' ≤ counter k + 1)%N.
Proof.
  intros Hk Hb Hs. destruct Hs as [id x k' Hid Hx He Hc|id n x Hx Ht Hno|id a x Hx Hst Hp|id a b x Hx Hp Ht|id x y Hx Hs].
  - rewrite (u64_add_small (counter k) 1) in * by lia. split; [|rewrite Hc; lia].
    assert (Hi : parse_ex_counter id = (counter k + 1)%N) by (rewrite Hid; apply parse_ex_counter_run_id; lia).
    destruct Hk as [Hr Hct]. destruct (executions k !! id) as [y|] eqn:Hy.
    + constructor; rewrite He; [done|]. intros id' Hid'. rewrite Hc. apply Hct in Hid'. lia.
    + constructor; rewrite He.
      * intros id' z. destruct (decide (id = id')) as [<-|]; [rewrite lookup_insert_eq; intros [= <-]; by apply fresh_run_ok|].
        rewrite lookup_insert_ne by done. apply Hr.
      * intros id'. destruct (decide (id = id')) as [<-|]; [rewrite Hi, Hc; lia|].
        rewrite lookup_insert_ne by done. rewrite Hc. intros Hid'. apply Hct in Hid'. lia.
  - split; [|simpl; lia]. pose proof (ok_runs k Hk id x Hx) as Hr. apply kernel_ok_put; [done|by eexists|].
    apply run_ok_advance; [done..|]. destruct (ex_pending_approval x) as [a|] eqn:Hp; [|done].
    destruct Hno. split; [|by eexists]. by apply (run_pending id x Hr a).
  - split; [|simpl; lia]. apply kernel_ok_put; [done|by eexists|]. destruct (ok_runs k Hk id x Hx) as [? ? ?].
    constructor; simpl; [done..|]. intros b [= <-]. split; [done|]. set_solver.
  - split; [|simpl; lia]. apply kernel_ok_put; [done|by eexists|]. pose proof (ok_runs k Hk id x Hx) as [? ? ?].
    by apply run_ok_advance.
  - split; [|simpl; lia]. apply kernel_ok_put; [done|by eexists|].
    destruct Hs as (E1 & E2 & E3 & E4 & E5 & E6 & E7 & E8 & E9). destruct (ok_runs k Hk id x Hx) as [? Hst Hp].
    constructor; rewrite ?E1, ?E4, ?E5, ?E6, ?E7; done.
Qed.

(** ** The properties *)

(** A call that is refused changes nothing: whatever the method and its
    parameters, an error answer leaves the kernel as it was. *)
Theorem refused_call_changes_nothing method p now k e k' :
  kernel_handle method p now k = (Err e, k') → k' = k.
Proof. apply refused_call_step. Qed.

(** [C8] The kernel refines the Run lifecycle: a call that succeeds is a read,
    a repeated approval request, or exactly one step of the lifecycle, the step
    its method and parameters ask for. *)
Theorem call_refines_lifecycle method p now k v k' :
  kernel_handle method p now k = (Ok v, k') →
  (k' = k ∧ quiet_call method p k) ∨ ∃ l, call_label method p l ∧ kernel_step k l k'.
Proof. apply call_refines_lifecycle_step. Qed.

(** [C9] The kernel stays well-formed under any calls, as long as its counter
    does not run out: every record sits under its own id, its event stream is
    a path of legal transitions that ends in its phase, an approval is pending
    only while the Run waits for it, and no id is above the counter. *)
Theorem kernel_stays_well_formed calls k :
  kernel_ok k → (counter k + N.of_nat (length calls) ≤ u64_max)%N → kernel_ok (kernel_play calls k).
Proof.
  revert k. induction calls as [|c calls IH]; intros k Hk Hb; [done|]. simpl in Hb. apply IH.
  - destruct (answer_cases c k) as [->|(l & _ & Hs)]; [done|]. eapply kernel_ok_step; [done| |done]. lia.
  - destruct (answer_cases c k) as [->|(l & _ & Hs)]; [lia|].
    eapply kernel_ok_step in Hs as [_ ?]; [lia|done|lia].
Qed.

Lemma lookup_put id id' x k : executions (put_execution id x k) !! id' =
  if decide (id = id') then Some x else executions k !! id'.
Proof. simpl. case_decide; [subst; apply lookup_insert_eq|by apply lookup_insert_ne]. Qed.

(** What a step does to one Run. *)
Lemma step_at k l k' id x : kernel_step k l k' → executions k !! id = Some x →
  executions k' !! id = Some x ∨
  (∃ next, l = LMove id next ∧ phase_can_transition (ex_state x) next = true ∧
     ¬ (ex_state x = XWaitingApproval ∧ is_Some (ex_pending_approval x))) ∨
  (∃ a, l = LRequest id a ∧ ex_state x = XWaitingApproval ∧ ex_pending_approval x = None) ∨
  (∃ a b, l = LResolve id (pa_ticket_id a) b ∧ ex_pending_approval x = Some a ∧
     phase_can_transition (ex_state x) (if (b : bool) then XRunning else XFailed) = true) ∨
  (∃ y, l = LNote id ∧ executions k' !! id = Some y ∧ same_run x y).
Proof.
  intros Hs Hx. destruct Hs as [i y k' _ _ He _|i n y Hy Ht Hno|i a y Hy Hst Hp|i a b y Hy Hp Ht|i y z Hy Hs].
  - left. rewrite He. destruct (executions k !! i) eqn:Ei; [done|]. rewrite lookup_insert_ne; congruence.
  - rewrite lookup_put. case_decide; [subst; simplify_eq|by left]. right. left. by exists n.
  - rewrite lookup_put. case_decide; [subst; simplify_eq|by left]. do 2 right. left. by exists a.
  - rewrite lookup_put. case_decide; [subst; simplify_eq|by left]. do 3 right. left. by exists a, b.
  - rewrite lookup_put. case_decide; [subst; simplify_eq|by left]. do 4 right. by exists z.
Qed.

Definition resolves (id ticket : string) (c : kernel_call) : Prop :=
  c.1.1 = "execution/resolve_approval" ∧ p_str "id" c.1.2 = Some id ∧ p_str "ticketId" c.1.2 = Some ticket.

(** [C10] An approval waits for its own ticket: a Run that waits for an approval
    still waits for the same one after any calls, transitions and other
    approvals included, unless one of them resolves that Run with that ticket. *)
Theorem approval_waits_for_its_ticket calls k id x a :
  executions k !! id = Some x → ex_state x = XWaitingApproval → ex_pending_approval x = Some a →
  Forall (λ c, ¬ resolves id (pa_ticket_id a) c) calls →
  ∃ y, executions (kernel_play calls k) !! id = Some y ∧ ex_state y = XWaitingApproval ∧
       ex_pending_approval y = Some a.
Proof.
  intros Hx Hs Hp Hcalls.
  eapply (play_invariant (λ k, ∃ y, executions k !! id = Some y ∧ ex_state y = XWaitingApproval ∧
    ex_pending_approval y = Some a) _ calls k); [|exact Hcalls|by exists x].
  clear. intros k c l k' Hc Hl (x & Hx & Hs & Hp) Hstep.
  destruct (step_at k l k' id x Hstep Hx) as [?|[(? & _ & _ & Hno)|[(? & _ & _ & ?)|[(b & ok & -> & Hb & _)|(y & _ & Hy & Hsame)]]]].
  - by exists x.
  - destruct Hno. split; [done|]. by exists a.
  - congruence.
  - simplify_eq. destruct Hc. destruct Hl as (? & ? & ? & ?). done.
  - exists y. destruct Hsame as (_ & _ & _ & E4 & _ & E6 & _). by rewrite E4, E6.
Qed.

(** A finished Run stays finished: its phase, its event stream, its
    approvals, its checkpoint and its receipt are the same after any calls. *)
Theorem finished_run_stays_finished calls k id x :
  executions k !! id = Some x → phase_is_terminal (ex_state x) = true →
  ∃ y, executions (kernel_play calls k) !! id = Some y ∧ same_run x y.
Proof.
  intros Hx Ht.
  eapply (play_invariant (λ k, ∃ y, executions k !! id = Some y ∧ same_run x y) (λ _, True) calls k);
    [|by apply Forall_true|by exists x; split; [|repeat split]].
  clear Hx. intros k' c l k2 _ _ (y & Hy & Hsame) Hstep. pose proof Hsame as (E1 & E2 & E3 & E4 & E5 & E6 & E7 & E8 & E9).
  destruct (step_at k' l k2 id y Hstep Hy) as [?|[(n & _ & Hc & _)|[(? & _ & Hw & _)|[(b & ok & _ & _ & Hc)|(z & _ & Hz & Hz')]]]].
  - by exists y.
  - rewrite E4 in Hc. by destruct (ex_state x), n.
  - rewrite E4 in Hw. by rewrite Hw in Ht.
  - rewrite E4 in Hc. by destruct (ex_state x), ok.
  - exists z. split; [done|]. destruct Hz' as (F1 & F2 & F3 & F4 & F5 & F6 & F7 & F8 & F9).
    unfold same_run. by rewrite F1, F2, F3, F4, F5, F6, F7, F8, F9.
Qed.

(** A begun Run is new: in a well-formed kernel the id handed out names no
    Run yet, the record is the one asked for, and no other record changes. *)
Theorem begun_run_is_fresh t session objective parent policy context scope now k x k' :
  kernel_ok k → (counter k < u64_max)%N →
  kernel_begin t session objective parent policy context scope now k = (x, k') →
  executions k !! ex_id x = None ∧ executions k' = <[ex_id x := x]> (executions k) ∧
  aliases k' = aliases k ∧ ex_state x = XReady ∧ ex_trigger x = t ∧ ex_session_id x = session ∧
  ex_objective x = objective ∧ ex_parent_id x = parent ∧ ex_policy_snapshot x = policy ∧
  ex_capability_scope x = scope ∧ ex_pending_approval x = None.
Proof.
  intros Hk Hb. unfold kernel_begin, begin_named, kernel_get. rewrite u64_add_small by lia. cbn [executions].
  destruct (executions k !! run_id_of (counter k + 1)) as [y|] eqn:Hy.
  - exfalso. pose proof (ok_counter k Hk _ (mk_is_Some _ _ Hy)) as Hc. rewrite parse_ex_counter_run_id in Hc by lia. lia.
  - intros [= <- <-]. done.
Qed.

(** What [validate_transition] lets through is what [transition] does: for
    a phase other than the current one both accept or both refuse with the same
    error, and an accepted transition moves the Run to the phase asked for. *)
Theorem validate_transition_decides id next k :
  (∀ x, executions k !! id = Some x → ex_state x ≠ next) →
  match validate_transition id next k, kernel_transition id next k with
  | Ok _, (Ok p, k') => p = next ∧ ∃ x, executions k !! id = Some x ∧ k' = put_execution id (advance next x) k
  | Err e, (Err e', k') => e' = e ∧ k' = k
  | _, _ => False
  end.
Proof.
  intros Hne. unfold validate_transition, kernel_transition, on_execution, kernel_get.
  destruct (executions k !! id) as [x|] eqn:Hx; simpl; [|done].
  rewrite bool_decide_eq_false_2 by auto.
  destruct (phase_can_transition _ _); simpl; [|by rewrite put_same].
  destruct (leaves_unresolved next x); simpl; [by rewrite put_same|]. split; [done|]. by exists x.
Qed.
End facts.

(** ** Witnesses *)

Definition plain_text : JsonText := {| json_render _ := ""; json_parse _ := None |}.
Definition plain_manifest : ExecDigest := {| exec_manifest_hash m := em_model m |}.
#[local] Existing Instances plain_text plain_manifest.

Definition obj (es : list (string * string)) : Value := json_object ((λ e, (e.1, JString e.2)) <$> es).
Definition call (m : string) (es : list (string * string)) : kernel_call := (m, obj es, 7%N).

(** A Run that waits for the approval [t1]. *)
Definition waiting_calls : list kernel_call :=
  [call "execution/begin" [("trigger", "plan"); ("sessionId", "s"); ("objective", "o")];
   call "execution/transition" [("id", "ex:1"); ("state", "running")];
   call "execution/transition" [("id", "ex:1"); ("state", "waiting_approval")];
   call "execution/record_approval" [("id", "ex:1"); ("ticketId", "t1")]].
Definition waiting_kernel : ExecutionKernel := kernel_play waiting_calls kernel_new.

(** The same Run, approved and completed. *)
Definition finished_kernel : ExecutionKernel :=
  kernel_play
    [("execution/resolve_approval", json_object [("id", JString "ex:1"); ("ticketId", JString "t1");
        ("approved", JBool true)], 8%N);
     call "execution/transition" [("id", "ex:1"); ("state", "completed")]] waiting_kernel.

(** Calls that do not settle [t1]. *)
Definition other_calls : list kernel_call :=
  [call "execution/transition" [("id", "ex:1"); ("state", "running")];
   ("execution/resolve_approval", json_object [("id", JString "ex:1"); ("ticketId", JString "t2");
      ("approved", JBool true)], 8%N);
   call "execution/record_approval" [("id", "ex:1"); ("ticketId", "t2")];
   call "execution/begin" []].

Example waiting_phase : ex_state <$> executions waiting_kernel !! "ex:1" = Some XWaitingApproval.
Proof. vm_compute. reflexivity. Qed.
Example finished_phase : ex_event_stream <$> executions finished_kernel !! "ex:1" =
  Some ["Running"; "WaitingApproval"; "Running"; "Completed"].
Proof. vm_compute. reflexivity. Qed.

Lemma refused_call_changes_nothing_witness :
  (kernel_handle "execution/transition" (obj [("id", "ex:1"); ("state", "running")]) 8 waiting_kernel).2 = waiting_kernel.
Proof.
  eapply (refused_call_changes_nothing "execution/transition" (obj [("id", "ex:1"); ("state", "running")]) 8).
  vm_compute. reflexivity.
Defined.

Lemma call_refines_lifecycle_witness : ∃ l,
  call_label "execution/begin" (obj []) l ∧ kernel_step kernel_new l (kernel_play [call "execution/begin" []] kernel_new).
Proof.
  destruct (call_refines_lifecycle "execution/begin" (obj []) 7 kernel_new
    (exec_json (kernel_begin TrChat "default" "" None "" "" [] 7 kernel_new).1)
    (kernel_play [call "execution/begin" []] kernel_new)) as [[_ Hq]|Hl]; [vm_compute; reflexivity| |exact Hl].
  exfalso. destruct Hq as [Hq|[Hq|[Hq|[Hq _]]]]; discriminate Hq.
Defined.

Lemma kernel_stays_well_formed_witness : kernel_ok finished_kernel.
Proof.
  unfold finished_kernel, waiting_kernel. apply kernel_stays_well_formed; [|vm_compute; discriminate].
  apply kernel_stays_well_formed; [apply kernel_new_ok|vm_compute; discriminate].
Defined.

Lemma approval_waits_for_its_ticket_witness :
  ∃ y a, executions (kernel_play other_calls waiting_kernel) !! "ex:1" = Some y ∧
    ex_state y = XWaitingApproval ∧ ex_pending_approval y = Some a.
Proof.
  destruct (executions waiting_kernel !! "ex:1") as [x|] eqn:Hx; [|vm_compute in Hx; discriminate Hx].
  destruct (ex_pending_approval x) as [a|] eqn:Ha; [|vm_compute in Hx; injection Hx as <-; discriminate Ha].
  assert (Ht : ex_state x = XWaitingApproval ∧ pa_ticket_id a = "t1").
  { vm_compute in Hx. injection Hx as <-. simpl in Ha. injection Ha as <-. split; reflexivity. }
  destruct Ht as [Hs Ht].
  destruct (approval_waits_for_its_ticket other_calls waiting_kernel "ex:1" x a Hx Hs Ha) as (y & Hy & Hys & Hyp);
    [|exists y, a; auto].
  rewrite Ht. unfold other_calls. repeat constructor; intros (Hm & _ & Hk); try discriminate Hm; discriminate Hk.
Defined.

Lemma finished_run_stays_finished_witness :
  ∃ y, executions (kernel_play (waiting_calls ++ other_calls) finished_kernel) !! "ex:1" = Some y ∧
    ex_state y = XCompleted.
Proof.
  destruct (executions finished_kernel !! "ex:1") as [x|] eqn:Hx; [|vm_compute in Hx; discriminate Hx].
  assert (Hs : ex_state x = XCompleted) by (vm_compute in Hx; injection Hx as <-; reflexivity).
  destruct (finished_run_stays_finished (waiting_calls ++ other_calls) finished_kernel "ex:1" x Hx) as (y & Hy & Hsame);
    [by rewrite Hs|]. exists y. split; [exact Hy|]. destruct Hsame as (_ & _ & _ & E & _). by rewrite E.
Defined.

Lemma begun_run_is_fresh_witness : executions kernel_new !! "ex:1" = None.
Proof.
  destruct (begun_run_is_fresh TrChat "s" "o" None "" "" [] 7 kernel_new
    (kernel_begin TrChat "s" "o" None "" "" [] 7 kernel_new).1
    (kernel_begin TrChat "s" "o" None "" "" [] 7 kernel_new).2 kernel_new_ok) as [Hn _];
    [vm_compute; reflexivity|apply surjective_pairing|exact Hn].
Defined.

Lemma validate_transition_decides_witness :
  is_ok (validate_transition "ex:1" XRunning waiting_kernel) = is_ok (kernel_transition "ex:1" XRunning waiting_kernel).1.
Proof.
  pose proof (validate_transition_decides "ex:1" XRunning waiting_kernel) as Hv.
  destruct (validate_transition _ _ _), (kernel_transition _ _ _) as [[] ?]; try reflexivity;
    destruct Hv; intros x Hx; vm_compute in Hx; injection Hx as <-; discriminate.
Defined.

(** ** Findings *)

(** A Run that was begun and not moved yet has no event stream, so a kernel
    that holds one cannot be persisted. *)
Example fresh_run_cannot_be_persisted :
  kernel_validate (kernel_play [call "execution/begin" [("sessionId", "s")]] kernel_new) =
  Err "execution `ex:1` has no event projection".
Proof. vm_compute. reflexivity. Qed.

(** The depth is narrowed to 32 bits before it is compared with the limit. *)
Example subagent_depth_wraps :
  is_ok (kernel_handle "execution/begin_subagent" (json_object [("depth", json_u64 4294967296)]) 7 kernel_new).1 = true.
Proof. vm_compute. reflexivity. Qed.
