(* ===== verification/ExecutionRecoverFacts.v ===== *)
(** * Facts about recovery

    A recovered Run is the history its Work's journal records, in the state the
    gateway projects, and a recovered kernel is well-formed, so that what holds
    of live kernels holds after a restart. *)
From S2P Require Import Order Prelude Json LeaseTypes Lease WorkTypes WorkEvents Work WorkOps WorkLog Fleet.
From S2P Require Import WorkFacts WorkReplay WorkReopen Execution ExecutionRecover ExecutionFacts.

(** ** The history of a Run *)

(** The phases the events of a Run move it through, in order. *)
Definition event_phase_of (run : string) (env : WorkEventEnvelope) : option ExecutionPhase :=
  match event_run_id (we_event env) with
  | Some r => if String.eqb r run then
                match event_phase run (we_event env) with Ok p => p | Err _ => None end
              else None
  | None => None
  end.
Definition journal_phases (run : string) (events : list WorkEventEnvelope) : list ExecutionPhase :=
  omap (event_phase_of run) events.

Definition journal_checkpoint (run : string) (events : list WorkEventEnvelope) : N :=
  foldr N.max 0%N (omap (λ env, if bool_decide (event_run_id (we_event env) = Some run)
                                then Some (checkpoint_of (we_event env)) else None) events).

Lemma journal_phases_snoc run events env :
  journal_phases run (events ++ [env]) = journal_phases run events ++ option_list (event_phase_of run env).
Proof. unfold journal_phases. rewrite omap_app. simpl. by destruct (event_phase_of run env). Qed.

(** What the walk has found after [events]. *)
Record scanned (run : string) (events : list WorkEventEnvelope) (s : RunScan) : Prop := {
  sc_history : rs_history s = phase_debug <$> journal_phases run events;
  sc_state : rs_state s = last (journal_phases run events);
  sc_path : legal_path (journal_phases run events) = true;
  sc_sequence : rs_sequence s = foldr N.max 0%N (we_sequence <$> events);
  sc_pending t a : rs_pending s !! t = Some a → pa_ticket_id a = t ∧ t ∈ rs_approval_refs s
}.

Lemma foldr_max_snoc l n : foldr N.max 0%N (l ++ [n]) = N.max (foldr N.max 0%N l) n.
Proof. induction l as [|x l IH]; simpl; [lia|]. rewrite IH. lia. Qed.

Lemma scanned_new run refs : scanned run [] (scan_new refs).
Proof. constructor; try done. Qed.

Section scan.
Context `{JsonText}.

Lemma scan_pointer_fields env s :
  rs_history (scan_pointer env s) = rs_history s ∧ rs_state (scan_pointer env s) = rs_state s ∧
  rs_pending (scan_pointer env s) = rs_pending s ∧ rs_approval_refs (scan_pointer env s) = rs_approval_refs s ∧
  rs_sequence (scan_pointer env s) = N.max (rs_sequence s) (we_sequence env) ∧
  rs_saw_run (scan_pointer env s) = rs_saw_run s ∧ rs_resolution (scan_pointer env s) = rs_resolution s.
Proof. done. Qed.

Lemma event_phase_some run e : event_run_id e ≠ None → ∀ p, event_phase run e = Ok p → is_Some p.
Proof.
  intros He p. destruct e as [d|?|?|?]; try done. destruct d; try done; simpl; try (by intros [= <-]).
  destruct (work_state_try_parse _); simpl; [by intros [= <-]|done].
Qed.

(** A step that leaves the history alone. *)
Lemma scanned_quiet run events env s s' : scanned run events s → event_phase_of run env = None →
  rs_history s' = rs_history s → rs_state s' = rs_state s →
  rs_sequence s' = N.max (rs_sequence s) (we_sequence env) →
  (∀ t a, rs_pending s' !! t = Some a → pa_ticket_id a = t ∧ t ∈ rs_approval_refs s') →
  scanned run (events ++ [env]) s'.
Proof.
  intros [Hh Hs Hp Hq _] He Hh' Hs' Hq' Hpend. constructor; rewrite ?journal_phases_snoc, ?He; simpl; rewrite ?app_nil_r;
    [by rewrite Hh'|by rewrite Hs'|done| |done].
  rewrite fmap_app. simpl. by rewrite foldr_max_snoc, Hq', Hq.
Qed.

Lemma push_unique_elem x l : x ∈ push_unique x l.
Proof.
  unfold push_unique. destruct (existsb _ l) eqn:E; [|set_solver].
  apply existsb_exists in E as (y & Hy & Heq). apply String.eqb_eq in Heq as <-. by apply list_elem_of_In.
Qed.
Lemma push_unique_mono x y l : y ∈ l → y ∈ push_unique x l.
Proof. unfold push_unique. case_match; set_solver. Qed.

Lemma scan_requested_scanned w run g t r tl ar ti am ts s s' :
  scan_requested w run g t r tl ar ti am ts s = Ok s' →
  (∀ t a, rs_pending s !! t = Some a → pa_ticket_id a = t ∧ t ∈ rs_approval_refs s) →
  rs_history s' = rs_history s ∧ rs_state s' = rs_state s ∧ rs_sequence s' = rs_sequence s ∧
  ∀ t a, rs_pending s' !! t = Some a → pa_ticket_id a = t ∧ t ∈ rs_approval_refs s'.
Proof.
  unfold scan_requested. intros Hs Hp. destruct (approval_owner _ _ _ _) as [o|]; [|done]. simpl in Hs.
  destruct (negb (String.eqb o run)); [by injection Hs as <-|]. destruct (is_some _); [done|].
  destruct (negb _); [done|]. destruct (is_some _); [done|]. injection Hs as <-.
  split_and!; [done..|]. simpl. intros t' a. destruct (decide (t = t')) as [<-|].
  - rewrite lookup_insert_eq. intros [= <-]. split; [done|]. apply push_unique_elem.
  - rewrite lookup_insert_ne by done. intros Ha. destruct (Hp _ _ Ha). split; [done|]. by apply push_unique_mono.
Qed.

Lemma scan_resolved_scanned w run g t r b s s' : scan_resolved w run g t r b s = Ok s' →
  (∀ t a, rs_pending s !! t = Some a → pa_ticket_id a = t ∧ t ∈ rs_approval_refs s) →
  rs_history s' = rs_history s ∧ rs_state s' = rs_state s ∧ rs_sequence s' = rs_sequence s ∧
  ∀ t a, rs_pending s' !! t = Some a → pa_ticket_id a = t ∧ t ∈ rs_approval_refs s'.
Proof.
  unfold scan_resolved. intros Hs Hp. destruct (approval_owner _ _ _ _) as [o|].
  - destruct (negb (String.eqb o run)); [by injection Hs as <-|]. destruct (is_some _); [|by injection Hs as <-].
    destruct (negb _); [done|]. injection Hs as <-. split_and!; [done..|]. simpl.
    intros t' a Ha. apply lookup_delete_Some in Ha as [_ Ha]. by apply Hp.
  - destruct (is_some _); [done|]. by injection Hs as <-.
Qed.

Lemma scan_lifecycle_scanned run events env s s' : scanned run events s →
  event_run_id (we_event env) = Some run →
  scan_lifecycle run (we_event env) (scan_pointer env s) = Ok s' → scanned run (events ++ [env]) s'.
Proof.
  intros [Hh Hs Hp Hq Hpend] He. unfold scan_lifecycle.
  destruct (event_phase run (we_event env)) as [[next|]|] eqn:Hev; [| |done].
  2: { pose proof (event_phase_some run (we_event env) ltac:(by rewrite He) _ Hev) as [? [=]]. }
  assert (Hof : event_phase_of run env = Some next) by (unfold event_phase_of; by rewrite He, String.eqb_refl, Hev).
  simpl. intros Hok. destruct (match rs_resolution s with Some _ => _ | None => _ end); [|done]. simpl in Hok.
  destruct (match rs_state s with Some _ => _ | None => _ end) eqn:Hst; [|done]. injection Hok as <-.
  constructor; rewrite ?journal_phases_snoc, ?Hof; simpl; [by rewrite fmap_app, Hh|by rewrite last_snoc| | |done].
  - apply legal_path_snoc; [done|]. intros p Hl. rewrite <- Hs in Hl. rewrite Hl in Hst.
    destruct (decide (p = next)) as [Heq|Hne]; [rewrite Heq; by destruct next|].
    rewrite bool_decide_eq_false_2 in Hst by done. by destruct (phase_transition_legal p next).
  - rewrite fmap_app. simpl. by rewrite foldr_max_snoc, Hq.
Qed.

Lemma scan_event_scanned w run g events env s s' : scanned run events s →
  scan_event w run g env s = Ok s' → scanned run (events ++ [env]) s'.
Proof.
  intros Hsc. pose proof (scan_pointer_fields env s) as (F1 & F2 & F3 & F4 & F5 & F6 & F7).
  unfold scan_event. destruct (event_run_id (we_event env)) as [r|] eqn:He.
  - destruct (String.eqb_spec r run) as [->|Hne].
    + by apply scan_lifecycle_scanned.
    + intros [= <-]. eapply scanned_quiet; [done| |done..|].
      * unfold event_phase_of. rewrite He. by destruct (String.eqb_spec r run).
      * rewrite F3, F4. apply Hsc.
  - assert (Hno : event_phase_of run env = None) by (unfold event_phase_of; by rewrite He).
    assert (Hpend : ∀ t a, rs_pending (scan_pointer env s) !! t = Some a →
      pa_ticket_id a = t ∧ t ∈ rs_approval_refs (scan_pointer env s)) by (rewrite F3, F4; apply Hsc).
    intros Hev. destruct (we_event env) as [d|?|?|?] eqn:Ee;
      [|injection Hev as <-; eapply scanned_quiet; done..].
    destruct d; try (injection Hev as <-; eapply scanned_quiet; done); try done.
    + destruct (scan_requested_scanned _ _ _ _ _ _ _ _ _ _ _ _ Hev Hpend) as (? & ? & ? & ?).
      eapply scanned_quiet; [done|done|congruence..|done].
    + destruct (scan_resolved_scanned _ _ _ _ _ _ _ _ Hev Hpend) as (? & ? & ? & ?).
      eapply scanned_quiet; [done|done|congruence..|done].
Qed.

Lemma scan_events_scanned w run g events before s s' : scanned run before s →
  scan_events w run g events s = Ok s' → scanned run (before ++ events) s'.
Proof.
  revert before s. induction events as [|env events IH]; intros before s Hs Hok; simpl in Hok.
  - injection Hok as <-. by rewrite app_nil_r.
  - destruct (scan_event w run g env s) as [s1|] eqn:E; [|done]. simpl in Hok.
    replace (before ++ env :: events) with ((before ++ [env]) ++ events) by (by rewrite <- app_assoc).
    eapply IH; [|done]. by eapply scan_event_scanned.
Qed.
End scan.

(** ** The states an opened gateway projects *)

Section opened.
Context `{RenderFact} `{RenderChangeSet} `{HashIter} `{WorkWorld} `{RenderContext}.

(** Computations that leave the Run states alone. *)
Definition keeps_states {A} (m : M A) : Prop := ∀ g, run_states (m g).2 = run_states g.

Lemma keeps_states_ret {A} (a : A) : keeps_states (gret a).
Proof. done. Qed.
Lemma keeps_states_lift {A} (r : result A string) : keeps_states (glift r).
Proof. done. Qed.
Lemma keeps_states_guard b e : keeps_states (gguard b e).
Proof. intros g. by destruct b. Qed.
Lemma keeps_states_modify f : (∀ g, run_states (f g) = run_states g) → keeps_states (gmodify f).
Proof. intros Hf g. exact (Hf g). Qed.
Lemma keeps_states_bind {A B} (m : M A) (k : A → M B) :
  keeps_states m → (∀ a, keeps_states (k a)) → keeps_states (gbind m k).
Proof.
  intros Hm Hk g. unfold gbind. pose proof (Hm g) as Hg. destruct (m g) as [[a|e] g1]; [|done].
  rewrite <- Hg. apply Hk.
Qed.
#[local] Hint Resolve keeps_states_ret keeps_states_lift keeps_states_guard keeps_states_bind : gateway.

Lemma run_patch_states w run : keeps_states (apply_run_patch w run).
Proof.
  intros g. unfold apply_run_patch. destruct (as_object run) as [m|]; [|done].
  destruct (_ ≫= as_str) as [id|]; [|done]. cbv zeta. pose proof (note_states w id g) as Hn.
  destruct (as_object _) as [o|]; [|done]. by destruct (merge_run_fields m o).
Qed.

Lemma work_update_states w patch : keeps_states (apply_work_update w patch).
Proof.
  unfold apply_work_update. apply keeps_states_bind; [by intros g|]. intros a.
  apply keeps_states_bind.
  { destruct (json_get "executionId" patch); [|auto with gateway].
    apply keeps_states_bind; [auto with gateway|]. intros id. apply keeps_states_bind; [auto with gateway|].
    intros _. apply keeps_states_bind; [apply keeps_states_modify, note_states|]. auto with gateway. }
  intros a'. apply keeps_states_bind; [case_match; [apply run_patch_states|auto with gateway]|].
  intros _. do 4 (apply keeps_states_bind; [auto with gateway|]; intros ?).
  apply keeps_states_modify. intros g. by case_bool_decide.
Qed.

Lemma project_states w e recovery seq : keeps_states (project_p69g2_event w e recovery seq).
Proof.
  unfold project_p69g2_event. apply keeps_states_bind; [auto with gateway|]. intros _.
  destruct e as [d|?|?|?]; try done. destruct d; try done.
  intros g. by destruct (apply_fact _ _ _ _).
Qed.

Lemma point_put_states w id b pid g : run_states (point_binding w pid (put_binding id b g)) = run_states g.
Proof. unfold point_binding. simpl. by case_match. Qed.

Lemma runtime_states w e seq : keeps_states (replay_runtime w e seq).
Proof.
  intros g. unfold replay_runtime. destruct e; try done; [by case_match|..];
    destruct (owned_binding _ _ _); try done; try apply point_put_states.
  cbv zeta. simpl. case_bool_decide; [apply point_put_states|done].
Qed.

Lemma created_states w p s pa k o b i r t pv : keeps_states (replay_work_created w p s pa k o b i r t pv).
Proof.
  intros g. unfold replay_work_created. destruct (is_some _); [done|].
  destruct (validate_complete pv); [|done]. destruct (_ && _); [done|]. cbv zeta.
  destruct (_ && _); [done|]. destruct r as [run|]; [|done].
  match goal with |- context [note_run_reference w run ?x] =>
    pose proof (note_states w run x : _ = run_states g) as Hn; revert Hn; generalize (note_run_reference w run x) end.
  intros n Hn. by destruct t.
Qed.

Lemma requested_states w t r tl ar ti am : keeps_states (replay_approval_requested w t r tl ar ti am).
Proof.
  intros g. unfold replay_approval_requested. destruct (is_empty _); [done|].
  destruct (approval_event_run_id _ _ _); [|done]. destruct (negb _); [done|]. cbv zeta.
  destruct (negb _); [done|]. by destruct (pending_approval _ _ _).
Qed.

Lemma resolved_states w t r b : keeps_states (replay_approval_resolved w t r b).
Proof.
  intros g. unfold replay_approval_resolved. destruct (is_empty _); [done|].
  destruct (match r with Some _ => _ | None => _ end); [done|].
  destruct (match _ with Some _ => _ | None => _ end); [|done].
  unfold remove_pending. cbv zeta. simpl.
  destruct (pending_approvals g !! w); simpl; by destruct (reviews g !! t).
Qed.

Lemma quiet_event_states env : event_run_id (we_event env) = None → keeps_states (replay_event env).
Proof.
  intros He g. unfold replay_event. cbv zeta. destruct (is_empty _); [done|].
  destruct (_ && _); [done|]. destruct (we_event env) as [d|o|p|r] eqn:Ee; try done.
  - destruct d; try done; try apply project_states.
    + apply created_states.
    + apply work_update_states.
    + apply requested_states.
    + apply resolved_states.
    + unfold apply_effect_observed. cbv zeta. by destruct (effect_status _ _ _).
    + unfold apply_effect_verified. by destruct (effect_status _ _ _).
    + unfold apply_effect_uncertain. destruct (effect_projections g !! _) as [m|]; [|done].
      by destruct (m !! _).
    + unfold apply_effect_reconciled. destruct (effect_status _ _ _); [|done]. by case_match.
    + simpl. by destruct (reviews g !! _).
  - destruct o; try done. simpl. by destruct (presence g !! _).
  - apply runtime_states.
Qed.

Lemma replay_run_states w run s wait g g' : replay_run w run s wait g = (Ok tt, g') →
  run_states g' = insert2 w run s (run_states g).
Proof.
  unfold replay_run, gbind, gmodify. intros Hset. apply set_run_state_same in Hset as (_ & _ & Hc).
  unfold same_core in Hc. destruct_and! Hc.
  match goal with E : run_states g' = _ |- _ => rewrite E; clear E end.
  change (insert2 w run s (run_states (note_run_reference w run (note_run_reference w run g))) =
          insert2 w run s (run_states g)). by rewrite !note_states.
Qed.

Lemma run_event_states env run p g g' : event_phase_of run env = Some p →
  replay_event env g = (Ok tt, g') →
  ∃ s, p = from_work_state s ∧ run_states g' = insert2 (we_work_id env) run s (run_states g).
Proof.
  unfold event_phase_of, replay_event. cbv zeta. intros Hp Hr.
  destruct (is_empty _); [done|]. destruct (_ && _); [done|].
  destruct (we_event env) as [d|?|?|?]; try done. destruct d; try done; simpl in Hp; cbv iota in Hr;
    match type of Hp with context [String.eqb ?r run] => destruct (String.eqb_spec r run); [subst|done] end;
    try (injection Hp as <-);
    try (eexists; split; [|by eapply replay_run_states]; done).
  - apply gbind_ok in Hr as ([] & g1 & E & Hr). apply replay_run_states in E.
    exists WCheckpointed. split; [done|]. rewrite <- E. clear E.
    destruct (as_object _); apply pair_equal_spec in Hr as [Hok <-]; [done|discriminate Hok].
  - destruct (work_state_try_parse reason); [|done]. simpl in Hp. injection Hp as <-.
    eexists; split; [done|]. by eapply replay_run_states.
Qed.

(** The state projected for a Run is the last its events moved it to. *)
Definition tracks (g : WorkGateway) : Prop :=
  ∀ w run, from_work_state <$> run_state w run g = last (journal_phases run (events_of w g)).

Lemma tracks_new file : tracks (set_journal file gateway_new).
Proof. by intros w run. Qed.

(** A record, as [open] keeps it. *)
Definition normalized (env : WorkEventEnvelope) : WorkEventEnvelope :=
  {| we_work_id := we_work_id env; we_sequence := we_sequence env; we_event_id := we_event_id env;
     we_event := we_event env; we_timestamp := we_timestamp env; we_trace_id := we_trace_id env;
     we_causal_parent := we_causal_parent env; we_schema_version := 1 |}.

Lemma open_line_ok last env g l g' : open_line last env g = (Ok l, g') →
  ∃ g1, wg_events g1 = <[we_work_id env := events_of (we_work_id env) g ++ [normalized env]]> (wg_events g) ∧
        run_states g1 = run_states g ∧ replay_event (normalized env) g1 = (Ok tt, g').
Proof.
  unfold open_line. cbv zeta. destruct (1 <? _)%N; [done|]. destruct (match last with Some _ => _ | None => _ end); [done|].
  destruct (_ && _); [done|]. destruct (duplicate_sequence _ _); [done|]. fold (normalized env).
  intros Hr. apply gbind_ok in Hr as ([] & g1 & Hr & Hret). apply pair_equal_spec in Hret as [_ ->].
  eexists. split; [|split; [|exact Hr]]; by destruct (next_seq g <=? _)%N.
Qed.

Lemma replay_event_log env g : wg_events (replay_event env g).2 = wg_events g.
Proof. by destruct (keeps_same_log _ g (replay_event_keeps_log env)) as (_ & _ & ?). Qed.

Lemma event_phase_none run env : event_phase_of run env = None → event_run_id (we_event env) = Some run →
  ∀ g, (replay_event env g).1 ≠ Ok tt.
Proof.
  unfold event_phase_of. intros Hp He g. rewrite He, String.eqb_refl in Hp. unfold replay_event. cbv zeta.
  destruct (is_empty _); [done|]. destruct (_ && _); [done|].
  destruct (we_event env) as [d|?|?|?]; try done. destruct d; try done; simpl in Hp; cbv iota.
  by destruct (work_state_try_parse reason).
Qed.

Lemma event_phase_other run env r : event_run_id (we_event env) = Some r → r ≠ run → event_phase_of run env = None.
Proof. unfold event_phase_of. intros -> Hne. by destruct (String.eqb_spec r run). Qed.

Lemma events_of_insert w evs w' g g1 : wg_events g1 = <[w := evs]> (wg_events g) →
  events_of w' g1 = if decide (w = w') then evs else events_of w' g.
Proof.
  unfold events_of. intros ->. case_decide; [subst; by rewrite lookup_insert_eq|by rewrite lookup_insert_ne].
Qed.

Lemma tracks_line last env g l g' : tracks g → open_line last env g = (Ok l, g') → tracks g'.
Proof.
  intros Ht Ho w run. apply open_line_ok in Ho as (g1 & He & Hs & Hr).
  assert (Hev : wg_events g' = wg_events g1) by (pose proof (replay_event_log (normalized env) g1) as Hl; by rewrite Hr in Hl).
  rewrite <- Hev in He. rewrite (events_of_insert _ _ w g g' He). clear He Hev.
  set (e := normalized env) in *. change (we_work_id env) with (we_work_id e). unfold run_state.
  destruct (event_run_id (we_event e)) as [r|] eqn:Hid.
  - destruct (event_phase_of r e) as [p|] eqn:Hp.
    2: { destruct (event_phase_none r e Hp Hid g1). by rewrite Hr. }
    destruct (run_event_states _ _ _ _ _ Hp Hr) as (s & -> & ->). rewrite Hs, lookup2_insert2.
    destruct (decide (we_work_id e = w)) as [<-|Hw]; [|rewrite !decide_False by naive_solver; apply Ht].
    rewrite journal_phases_snoc. destruct (decide (r = run)) as [<-|Hne].
    + rewrite decide_True by done. rewrite Hp. simpl. by rewrite last_snoc.
    + rewrite decide_False by naive_solver. rewrite (event_phase_other run e r) by done. simpl. rewrite app_nil_r. apply Ht.
  - pose proof (quiet_event_states e Hid g1) as Hk. rewrite Hr in Hk. simpl in Hk. rewrite Hk, Hs.
    case_decide; [subst w|apply Ht]. rewrite journal_phases_snoc.
    assert (event_phase_of run e = None) as -> by (unfold event_phase_of; by rewrite Hid).
    simpl. rewrite app_nil_r. apply Ht.
Qed.

Lemma tracks_lines lines last g l g' : tracks g → open_lines last lines g = (Ok l, g') → tracks g'.
Proof.
  revert last g. induction lines as [|env lines IH]; intros last g Ht Ho; simpl in Ho.
  - apply pair_equal_spec in Ho as [_ <-]. done.
  - apply gbind_ok in Ho as (l1 & g1 & H1' & Ho). eapply IH; [|exact Ho]. by eapply tracks_line.
Qed.

Lemma opened_tracks lines g : gateway_open lines = Ok g → tracks g ∧ validate_replayed_graph g = Ok tt.
Proof.
  unfold gateway_open. destruct (open_lines _ _ _) as [[l|] g1] eqn:E; [|done]. simpl.
  destruct (validate_replayed_graph g1) as [[]|] eqn:Hv; [|done]. simpl. intros [= <-].
  split; [|done]. eapply tracks_lines; [|exact E]. apply tracks_new.
Qed.
End opened.

(** ** Recovered Runs *)

(** What a recovered record owes to the events of its Work. *)
Record recovered (w run : string) (g : WorkGateway) (x : ExecWork) : Prop := {
  rc_id : ex_id x = run;
  rc_stream : ex_event_stream x = phase_debug <$> journal_phases run (events_of w g);
  rc_path : legal_path (journal_phases run (events_of w g)) = true;
  rc_state : last (journal_phases run (events_of w g)) = Some (ex_state x);
  rc_sequence : ex_journal_sequence x = foldr N.max 0%N (we_sequence <$> events_of w g);
  rc_pending a : ex_pending_approval x = Some a →
    ex_state x = XWaitingApproval ∧ pa_ticket_id a ∈ ex_approval_refs x;
  rc_settled : phase_is_terminal (ex_state x) = true → has_unresolved_uncertain_effect w g = false
}.

Lemma recovered_ok w run g x : recovered w run g x → run_ok run x.
Proof.
  intros [Hi Hst Hp Hl _ Hpend _]. constructor; [done| |done]. eexists. split_and!; [done|done|by rewrite Hl].
Qed.

Section recovery.
Context `{HashIter} `{JsonText}.

Lemma check_scan_ok w run g s p : check_scan w run g s = Ok p →
  rs_state s = Some p ∧ (rs_pending s = ∅ ∨ p = XWaitingApproval) ∧
  (phase_is_terminal p = true → has_unresolved_uncertain_effect w g = false).
Proof.
  unfold check_scan. destruct (rs_resolution s) as [[]|]; [done|]. simpl. destruct (negb (rs_saw_run s)); [done|].
  destruct (negb (rs_saw_start s) && _); [done|]. destruct (rs_state s) as [q|]; [|done]. simpl.
  destruct (1 <? _)%nat; [done|].
  destruct (negb (bool_decide (rs_pending s = ∅)) && _) eqn:Hpend; [done|].
  destruct (negb (length _ =? _)%nat); [done|].
  destruct (phase_is_terminal q && _) eqn:Ht; [done|]. intros [= <-]. split_and!; [done| |].
  - destruct (bool_decide_reflect (rs_pending s = ∅)); [by left|].
    destruct (bool_decide_reflect (q = XWaitingApproval)); [by right|done].
  - intros Hq. by rewrite Hq in Ht.
Qed.

Lemma recover_one_ok a g run now report x report' :
  recover_one_run a (events_of (wd_work_id a) g) g run now report = Ok (x, report') →
  recovered (wd_work_id a) run g x.
Proof.
  unfold recover_one_run. cbv zeta. destruct (check_context _ _ _); [|done]. simpl.
  destruct (scan_events _ _ _ _ _) as [s|] eqn:Hs; [|done]. simpl.
  destruct (check_scan _ _ _ _) as [p|] eqn:Hc; [|done]. simpl. intros [= <- _].
  eapply (scan_events_scanned _ _ _ _ []) in Hs; [|apply scanned_new]. destruct Hs as [Hh Hst Hp Hq Hpend].
  apply check_scan_ok in Hc as (Hc & Hw & Ht). simpl in *. rewrite Hst in Hc.
  constructor; simpl; [done| |done|done|done| |done].
  - rewrite bool_decide_eq_false_2; [done|]. rewrite Hh. destruct (journal_phases _ _); [done|]. by intros [=].
  - intros b Hb. apply head_Some_elem_of, list_elem_of_fmap in Hb as ([t b'] & Hb & Hin). simpl in Hb. subst b'.
    apply elem_of_btree in Hin. destruct (Hpend _ _ Hin) as [-> ?].
    destruct Hw as [Hw| ->]; [by rewrite Hw in Hin|done].
Qed.

(** ** Recovered kernels *)

(** The kernel rebuilt from some of the Works. *)
Definition rebuilt (g : WorkGateway) (k : ExecutionKernel) : Prop :=
  ∀ run x, executions k !! run = Some x → (parse_ex_counter run ≤ counter k)%N ∧
    ∃ w a, works g !! w = Some a ∧ run ∈ default [] (run_ids g !! w) ∧ recovered w run g x.

Definition grows (k k' : ExecutionKernel) : Prop := executions k ⊆ executions k'.

Lemma recover_runs_ok w a g now runs st st' : works g !! w = Some a → wd_work_id a = w →
  (∀ run, run ∈ runs → run ∈ default [] (run_ids g !! w)) → rebuilt g st.1 →
  recover_runs a (events_of w g) g now runs st = Ok st' →
  rebuilt g st'.1 ∧ grows st.1 st'.1 ∧ ∀ run, run ∈ runs → is_Some (executions st'.1 !! run).
Proof.
  intros Ha Hw. revert st. induction runs as [|run runs IH]; intros st Hin Hreb Hr; simpl in Hr.
  - injection Hr as <-. split_and!; [done|unfold grows; done|]. by intros run Hrun%not_elem_of_nil.
  - destruct (recover_one_run _ _ _ _ _ _) as [[x rep]|] eqn:Hone; [|done]. simpl in Hr.
    unfold admit_run in Hr. destruct (is_some (executions st.1 !! run)) eqn:Hnew; [done|]. simpl in Hr.
    destruct (executions st.1 !! run) as [|] eqn:Hno in Hnew; [done|].
    rewrite <- Hw in Hone. apply recover_one_ok in Hone. rewrite Hw in Hone.
    apply IH in Hr as (Hreb' & Hg & Hall); [| |].
    + split_and!; [done| |].
      * unfold grows in *. simpl in Hg. etrans; [|exact Hg]. by apply insert_subseteq.
      * intros r. rewrite elem_of_cons. intros [->|Hin']; [|by apply Hall].
        exists x. unfold grows in Hg. simpl in Hg. eapply lookup_weaken; [|exact Hg]. by rewrite lookup_insert_eq.
    + intros r Hr'. apply Hin. by right.
    + intros r y. simpl. destruct (decide (run = r)) as [<-|Hne].
      * rewrite lookup_insert_eq. intros [= <-]. split; [lia|]. exists w, a. split_and!; [done| |done].
        apply Hin. by left.
      * rewrite lookup_insert_ne by done. intros Hy. destruct (Hreb _ _ Hy). split; [lia|done].
Qed.

Lemma recover_work_ok w a g now st st' : works g !! w = Some a → wd_work_id a = w → rebuilt g st.1 →
  recover_work g now a st = Ok st' →
  rebuilt g st'.1 ∧ grows st.1 st'.1 ∧ ∀ run, run ∈ default [] (run_ids g !! w) → is_Some (executions st'.1 !! run).
Proof.
  intros Ha Hw Hreb. unfold recover_work. rewrite Hw. cbv zeta. destruct (negb _); [done|].
  case_bool_decide as Hruns.
  - destruct (match _ with Some _ => _ | None => _ end); [done|]. intros [= <-].
    split_and!; [done|unfold grows; done|]. rewrite Hruns. by intros run Hrun%not_elem_of_nil.
  - by apply recover_runs_ok.
Qed.

Lemma recover_works_ok g now l st st' : (∀ a, a ∈ l → works g !! wd_work_id a = Some a) → rebuilt g st.1 →
  recover_works g now l st = Ok st' →
  rebuilt g st'.1 ∧ grows st.1 st'.1 ∧
  ∀ a run, a ∈ l → run ∈ default [] (run_ids g !! wd_work_id a) → is_Some (executions st'.1 !! run).
Proof.
  revert st. induction l as [|a l IH]; intros st Hl Hreb Hr; simpl in Hr.
  - injection Hr as <-. split_and!; [done|unfold grows; done|]. by intros ? ? ?%not_elem_of_nil.
  - destruct (recover_work g now a st) as [st1|] eqn:E; [|done]. simpl in Hr.
    eapply recover_work_ok in E as (Hreb1 & Hg1 & Hall1); [|apply Hl; by left|done|done].
    apply IH in Hr as (Hreb2 & Hg2 & Hall2); [|intros b Hb; apply Hl; by right|done].
    split_and!; [done|unfold grows in *; by etrans|].
    intros b run. rewrite elem_of_cons. intros [->|Hb] Hrun; [|by eapply Hall2].
    destruct (Hall1 _ Hrun) as [x Hx]. exists x. unfold grows in Hg2. by eapply lookup_weaken.
Qed.

Lemma opened_addresses g w a : validate_replayed_graph g = Ok tt → works g !! w = Some a → wd_work_id a = w.
Proof.
  unfold validate_replayed_graph. intros Hv Ha.
  destruct (check_all (validate_work g) (btree_list (works g))) as [[]|] eqn:E; [|done].
  assert (Hin : (w, a) ∈ btree_list (works g)) by by apply elem_of_btree.
  revert E Hin. clear. induction (btree_list (works g)) as [|[w' a'] l IH]; intros E Hin; [by apply not_elem_of_nil in Hin|].
  simpl in E. destruct (negb (String.eqb (wd_work_id a') w')) eqn:Hn; [done|].
  apply elem_of_cons in Hin as [[= -> ->]|Hin].
  - apply negb_false_iff, String.eqb_eq in Hn. done.
  - apply IH; [|done]. destruct (bool_decide _ && _); [done|].
    match type of E with rbind ?m _ = _ => destruct m as [[]|]; [exact E|done] end.
Qed.

Lemma list_work_addresses g : validate_replayed_graph g = Ok tt →
  ∀ a, a ∈ list_work g ↔ works g !! wd_work_id a = Some a.
Proof.
  intros Hv a. unfold list_work, btree_values. rewrite list_elem_of_fmap. split.
  - intros ([w a'] & -> & Hin). apply elem_of_btree in Hin. simpl. by rewrite (opened_addresses _ _ _ Hv Hin).
  - intros Ha. exists (wd_work_id a, a). split; [done|]. by apply elem_of_btree.
Qed.
End recovery.

(** ** The properties *)

Section properties.
Context `{RenderFact} `{RenderChangeSet} `{HashIter} `{WorkWorld} `{RenderContext} `{JsonText}.

Lemma recover_with_report_ok g now k rep : validate_replayed_graph g = Ok tt →
  recover_with_report g now = Ok (k, rep) →
  rebuilt g k ∧ ∀ w a run, works g !! w = Some a → run ∈ default [] (run_ids g !! w) → is_Some (executions k !! run).
Proof.
  intros Hv. unfold recover_with_report. destruct (recover_works _ _ _ _) as [st|] eqn:E; [|done]. simpl.
  destruct (check_all _ _); [|done]. simpl. destruct (validate_recovered_bindings g); [|done]. simpl.
  destruct (kernel_validate st.1); [|done]. simpl. intros [= ->].
  apply recover_works_ok in E as (Hreb & _ & Hall); [|intros b; apply list_work_addresses, Hv|by intros run x].
  split; [done|]. intros w addr run Ha Hrun. pose proof (opened_addresses _ _ _ Hv Ha) as Hw.
  eapply Hall; [apply list_work_addresses; [done|]; by rewrite Hw|by rewrite Hw].
Qed.

(** [C11] A recovered kernel is what the journal says: it holds exactly the Runs
    its Works name, each with the phases its lifecycle events record, in order
    and along legal transitions, in the phase the last one names, which is the
    state the reopened gateway projects; a finished one has no unresolved
    effect and a pending approval belongs to a Run that waits for it. *)
Theorem recovered_kernel_is_the_journal lines g now k rep :
  gateway_open lines = Ok g → recover_with_report g now = Ok (k, rep) →
  (∀ run, is_Some (executions k !! run) ↔ ∃ w a, works g !! w = Some a ∧ run ∈ default [] (run_ids g !! w)) ∧
  ∀ run x, executions k !! run = Some x → ∃ w, recovered w run g x ∧
    from_work_state <$> run_state w run g = Some (ex_state x).
Proof.
  intros Ho Hr. destruct (opened_tracks lines g Ho) as [Ht Hv].
  destruct (recover_with_report_ok _ _ _ _ Hv Hr) as [Hreb Hall]. split.
  - intros run. split; [|intros (w & a & Ha & Hrun); by eapply Hall].
    intros [x Hx]. destruct (Hreb _ _ Hx) as (_ & w & a & Ha & Hin & _). by exists w, a.
  - intros run x Hx. destruct (Hreb _ _ Hx) as (_ & w & a & _ & _ & Hrec). exists w. split; [done|].
    rewrite Ht. apply Hrec.
Qed.

(** A restart starts from a well-formed kernel: recovery establishes the
    invariant of live kernels, its counter is above every recovered id, so what
    is proved of calls on a well-formed kernel holds after a crash too, and no
    id is handed out twice. *)
Theorem recovered_kernel_is_well_formed lines g now k rep :
  gateway_open lines = Ok g → recover_with_report g now = Ok (k, rep) → kernel_ok k.
Proof.
  intros Ho Hr. destruct (opened_tracks lines g Ho) as [_ Hv].
  destruct (recover_with_report_ok _ _ _ _ Hv Hr) as [Hreb _]. constructor.
  - intros run x Hx. destruct (Hreb _ _ Hx) as (_ & w & a & _ & _ & Hrec). by eapply recovered_ok.
  - intros run [x Hx]. by destruct (Hreb _ _ Hx).
Qed.

Lemma btree_check_ok {A} (f : string → A → result unit string) l k a :
  btree_check f l = Ok tt → (k, a) ∈ l → f k a = Ok tt.
Proof.
  induction l as [|[k' a'] l IH]; intros Hc Hin; [by apply not_elem_of_nil in Hin|]. simpl in Hc.
  destruct (f k' a') as [[]|] eqn:E; [|done]. apply elem_of_cons in Hin as [[= -> ->]|Hin]; [done|by apply IH].
Qed.

(** A checkpoint is only a cache: with one or without, the kernel is the
    one the journal gives; and when a snapshot is accepted, every Run it holds
    is a Run of the journal with the same session, objective, receipt,
    verification and approvals, whose checkpoint and cursor the snapshot does
    not exceed, and which is finished when the snapshot says it is. *)
Theorem checkpoint_never_overrides g file now k :
  recover_with_checkpoint g file now = Ok k →
  (∃ rep, recover_with_report g now = Ok (k, rep)) ∧
  ∀ c id y, file = Some (CkSnapshot c) → executions c !! id = Some y →
    ∃ x, executions k !! id = Some x ∧ same_identity y x = true ∧
      (ex_checkpoint y ≤ ex_checkpoint x)%N ∧ (ex_journal_sequence y ≤ ex_journal_sequence x)%N ∧
      (phase_is_terminal (ex_state y) = true → phase_is_terminal (ex_state x) = true).
Proof.
  unfold recover_with_checkpoint. destruct (recover_with_report g now) as [[k1 rep]|]; [|done]. simpl.
  destruct (match file with Some _ => _ | None => _ end) as [[]|] eqn:Hf; [|done]. simpl. intros [= <-].
  split; [by exists rep|]. intros c id y -> Hy. simpl in Hf.
  destruct (kernel_validate c) as [[]|]; [|done]. simpl in Hf. unfold validate_checkpoint_cache in Hf.
  eapply btree_check_ok in Hf; [|by apply elem_of_btree]. simpl in Hf.
  destruct (executions k1 !! id) as [x|]; [|done]. exists x. split; [done|].
  destruct (same_identity y x); [|done]. simpl in Hf.
  repeat match type of Hf with (if ?b then Err _ else _) = _ => destruct b eqn:?; [done|] end. bool_hyps.
  split_and!; [done..|]. intros Hy'. rewrite Hy' in *. by destruct (phase_is_terminal (ex_state x)).
Qed.
End properties.

(** ** Witnesses and findings *)

#[local] Existing Instances plain_render plain_change_render calm_world plain_context plain_text.

(** Reopening the journal of some operations and recovering the kernel from it. *)
Definition restart (ops : list work_op) : result ExecutionKernel string :=
  g <-? reopen (work_play ops gateway_fresh);; recover_from_work_gateway g 9.

Definition waiting_ops : list work_op := running ++
  [WoTransition "w" "r" WWaitingApproval; WoRequest "w" "r" "t" "tool" "hash" "R2" 7].

Definition restarted_gateway : WorkGateway :=
  match reopen (work_play waiting_ops gateway_fresh) with Ok g => g | Err _ => gateway_new end.
Definition restarted_kernel : ExecutionKernel * RecoveryReport :=
  match recover_with_report restarted_gateway 9 with Ok st => st | Err _ => (kernel_new, report_new) end.

Lemma restarted_opens :
  gateway_open (default [] (wg_journal (work_play waiting_ops gateway_fresh))) = Ok restarted_gateway.
Proof. vm_compute. reflexivity. Qed.
Lemma restarted_recovers : recover_with_report restarted_gateway 9 = Ok (restarted_kernel.1, restarted_kernel.2).
Proof. vm_compute. reflexivity. Qed.

Lemma recovered_kernel_is_the_journal_witness : ∃ x, executions restarted_kernel.1 !! "r" = Some x ∧
  ex_event_stream x = ["Running"; "WaitingApproval"] ∧ pa_ticket_id <$> ex_pending_approval x = Some "t" ∧
  ∃ w, recovered w "r" restarted_gateway x.
Proof.
  destruct (recovered_kernel_is_the_journal _ _ 9 _ _ restarted_opens restarted_recovers) as [_ Hr].
  destruct (executions restarted_kernel.1 !! "r") as [x|] eqn:Hx; [|vm_compute in Hx; discriminate Hx].
  exists x. split; [reflexivity|]. destruct (Hr _ _ Hx) as (w & Hw & _).
  split; [vm_compute in Hx; injection Hx as <-; reflexivity|].
  split; [vm_compute in Hx; injection Hx as <-; reflexivity|]. by exists w.
Defined.

Lemma recovered_kernel_is_well_formed_witness : kernel_ok restarted_kernel.1.
Proof. apply (recovered_kernel_is_well_formed _ _ 9 _ _ restarted_opens restarted_recovers). Defined.

Lemma checkpoint_never_overrides_witness :
  ∃ rep, recover_with_report restarted_gateway 9 = Ok (restarted_kernel.1, rep).
Proof.
  apply (checkpoint_never_overrides restarted_gateway (Some (CkSnapshot restarted_kernel.1)) 9).
  vm_compute. reflexivity.
Defined.

(** A Run that is bound and not started when the process ends has no lifecycle
    event: the journal reopens and the kernel does not recover. *)
Example bound_run_is_not_recovered :
  restart bound_work = Err "Run `r` has no durable lifecycle event".
Proof. vm_compute. reflexivity. Qed.

(** A Run interrupted while it waits for a tool, and one that moves from one
    wait to another, are accepted by the gateway and reopen; the kernel refuses
    the journal, and with it every other Run. *)
Example interrupted_wait_is_not_recovered :
  restart (running ++ [WoTransition "w" "r" WWaitingTool; WoTransition "w" "r" WRecoverable]) =
  Err "illegal recovered Run transition WaitingTool → Recoverable for `r`".
Proof. vm_compute. reflexivity. Qed.
Example second_wait_is_not_recovered :
  restart (running ++ [WoTransition "w" "r" WWaitingTool; WoTransition "w" "r" WWaitingApproval]) =
  Err "illegal recovered Run transition WaitingTool → WaitingApproval for `r`".
Proof. vm_compute. reflexivity. Qed.

(** The transitions the gateway allows and recovery refuses. *)
Definition legal_gap : list (WorkState * WorkState) :=
  List.filter (λ e, work_can_transition e.1 e.2 && negb (phase_transition_legal (from_work_state e.1) (from_work_state e.2)))
    (list_prod all_work_states all_work_states).
Example legal_gap_is : legal_gap =
  [(WWaitingTool, WWaitingApproval); (WWaitingTool, WWaitingUser); (WWaitingTool, WRecoverable);
   (WWaitingApproval, WWaitingTool); (WWaitingApproval, WWaitingUser); (WWaitingApproval, WRecoverable);
   (WWaitingUser, WWaitingTool); (WWaitingUser, WWaitingApproval); (WWaitingUser, WRecoverable);
   (WCheckpointed, WPaused); (WCheckpointed, WRecoverable); (WVerifying, WCancelled);
   (WPaused, WFailed); (WPaused, WRecoverable)].
Proof. vm_compute. reflexivity. Qed.
