(* ===== verification/Cua.v ===== *)
(** * The computer-use graph ([everyaios-core/src/cua.rs])

    Surfaces and tiers, the graph of nodes with its frontier, replans, Worker
    steps, mechanical verification and stops, the promotion of a verified graph
    to a skill draft, and the [execution/cua_*] calls over its file. *)
From S2P Require Import Order Prelude Json LeaseTypes WorkTypes F64 NetFloor Fleet Execution.

(** ** Surfaces *)

(* SRC core/src/cua.rs @enum:WorkSurface WorkSurface *)
Inductive WorkSurface := SfOffice | SfBrowse | SfDesktop.

#[export] Instance work_surface_eq_dec : EqDecision WorkSurface.
Proof. solve_decision. Defined.

Fixpoint take_until (f : ascii → bool) (s : string) : string :=
  match s with
  | EmptyString => ""
  | String c s' => if f c then "" else String c (take_until f s')
  end.

(* SRC core/src/cua.rs @fn:looks_like_office looks_like_office *)
Definition looks_like_office (lower : string) : bool :=
  let path := take_until (λ c, Ascii.eqb c "?" || Ascii.eqb c "#") lower in
  existsb (λ e, ends_with e path)
    [".docx"; ".xlsx"; ".pptx"; ".pdf"; ".doc"; ".xls"; ".ppt"; ".odt"; ".ods"; ".odp"].

(* SRC core/src/cua.rs @fn:looks_like_url looks_like_url *)
Definition looks_like_url (lower : string) : bool :=
  starts_with "http://" lower || starts_with "https://" lower || starts_with "file://" lower.

(* SRC core/src/cua.rs @fn:route_work_surface route_work_surface *)
Definition route_work_surface (target : string) : WorkSurface :=
  let lower := to_ascii_lowercase (trim target) in
  if looks_like_office lower then SfOffice
  else if looks_like_url lower then SfBrowse
  else SfDesktop.

(* SRC core/src/cua.rs @fn:fabric_letter fabric_letter *)
Definition fabric_letter (s : WorkSurface) : string :=
  match s with SfOffice => "a" | SfBrowse => "b" | SfDesktop => "c" end.
(* SRC core/src/cua.rs @fn:fabric_is_perception fabric_is_perception *)
Definition fabric_is_perception (s : WorkSurface) : bool := bool_decide (s = SfDesktop).

(* SRC core/src/cua.rs @const:CUA_REQUIRES_VISION CUA_REQUIRES_VISION *)
Definition CUA_REQUIRES_VISION : string := "cua_requires_vision".
(* SRC core/src/cua.rs @fn:vision_gate vision_gate *)
Definition vision_gate (needs_screenshot model_accepts_image : bool) : result unit string :=
  if needs_screenshot && negb model_accepts_image then Err CUA_REQUIRES_VISION else Ok tt.

(** ** Nodes *)

(* SRC core/src/cua.rs @struct:FivePartBrief FivePartBrief *)
Record FivePartBrief := {
  br_goal : string;
  br_constraints : string;
  br_inputs : string;
  br_postconditions : string;
  br_out_of_scope : string
}.

Definition not_blank (s : string) : bool := negb (is_empty (trim s)).

(* SRC core/src/cua.rs @fn:is_complete FivePartBrief::is_complete *)
Definition brief_is_complete (b : FivePartBrief) : bool :=
  not_blank (br_goal b) && not_blank (br_constraints b) && not_blank (br_inputs b) &&
  not_blank (br_postconditions b) && not_blank (br_out_of_scope b).

(* SRC core/src/cua.rs @enum:CuaNodeStatus CuaNodeStatus *)
Inductive CuaNodeStatus := NsPending | NsReady | NsRunning | NsVerified | NsHalted | NsBlocked.

#[export] Instance cua_node_status_eq_dec : EqDecision CuaNodeStatus.
Proof. solve_decision. Defined.

(* SRC core/src/cua.rs @struct:CuaNode CuaNode *)
Record CuaNode := {
  nd_id : string;
  nd_name : string;
  nd_info : string;
  nd_depends_on : list string;
  nd_status : CuaNodeStatus;
  nd_last_action : option string;
  nd_screenshot_ref : option string;
  nd_identical_fail_count : N;
  nd_fail_count : N;
  nd_preconditions : list string;
  nd_postconditions : list string;
  nd_timeout_s : N;
  nd_retry : N;
  nd_brief : option FivePartBrief;
  nd_fabric : option string
}.

Definition node_eta (n : CuaNode) : CuaNode :=
  {| nd_id := nd_id n; nd_name := nd_name n; nd_info := nd_info n; nd_depends_on := nd_depends_on n;
     nd_status := nd_status n; nd_last_action := nd_last_action n;
     nd_screenshot_ref := nd_screenshot_ref n; nd_identical_fail_count := nd_identical_fail_count n;
     nd_fail_count := nd_fail_count n; nd_preconditions := nd_preconditions n;
     nd_postconditions := nd_postconditions n; nd_timeout_s := nd_timeout_s n; nd_retry := nd_retry n;
     nd_brief := nd_brief n; nd_fabric := nd_fabric n |}.
Ltac node_setter proj :=
  let e := eval cbv delta [node_eta] in node_eta in
  match eval pattern proj in e with ?f _ => exact (λ v n, f (λ _, v) n) end.
Definition set_nd_name := Eval cbv beta in ltac:(node_setter nd_name).
Definition set_nd_info := Eval cbv beta in ltac:(node_setter nd_info).
Definition set_nd_status := Eval cbv beta in ltac:(node_setter nd_status).
Definition set_nd_shot := Eval cbv beta in ltac:(node_setter nd_screenshot_ref).
Definition set_nd_identical := Eval cbv beta in ltac:(node_setter nd_identical_fail_count).
Definition set_nd_fails := Eval cbv beta in ltac:(node_setter nd_fail_count).
Definition set_nd_post := Eval cbv beta in ltac:(node_setter nd_postconditions).
Definition set_nd_brief := Eval cbv beta in ltac:(node_setter nd_brief).
Definition set_nd_fabric := Eval cbv beta in ltac:(node_setter nd_fabric).

(* SRC core/src/cua.rs @fn:default CuaNode::default *)
Definition node_default : CuaNode :=
  {| nd_id := ""; nd_name := ""; nd_info := ""; nd_depends_on := []; nd_status := NsPending;
     nd_last_action := None; nd_screenshot_ref := None; nd_identical_fail_count := 0; nd_fail_count := 0;
     nd_preconditions := []; nd_postconditions := []; nd_timeout_s := 0; nd_retry := 0; nd_brief := None;
     nd_fabric := None |}.

Definition u32_saturating_succ (n : N) : N := N.min (n + 1) u32_max.

(* SRC core/src/cua.rs @fn:node_contract_legal node_contract_legal *)
Definition node_contract_legal (n : CuaNode) : bool := negb (bool_decide (nd_postconditions n = [])).

(* SRC core/src/cua.rs @fn:apply_fabric apply_fabric *)
Definition apply_fabric (s : WorkSurface) (n : CuaNode) : CuaNode := set_nd_fabric (Some (fabric_letter s)) n.

(* SRC core/src/cua.rs @fn:apply_five_part_brief apply_five_part_brief *)
Definition apply_five_part_brief (b : FivePartBrief) (n : CuaNode) : result CuaNode string :=
  if negb (brief_is_complete b) then
    Err "five-part brief incomplete — Worker does not inherit the transcript"
  else
    Ok (set_nd_brief (Some b)
          (if bool_decide (nd_postconditions n = []) then set_nd_post [br_postconditions b] n else n)).

(** ** Worker steps *)

(* SRC core/src/cua.rs @enum:DelegationOutcome DelegationOutcome *)
Inductive DelegationOutcome := DoVerified | DoMismatch | DoHalt.

#[export] Instance delegation_outcome_eq_dec : EqDecision DelegationOutcome.
Proof. solve_decision. Defined.

(* SRC core/src/cua.rs @const:IDENTICAL_FAIL_HALT IDENTICAL_FAIL_HALT *)
Definition IDENTICAL_FAIL_HALT : N := 2.

(* SRC core/src/cua.rs @fn:delegation_step delegation_step *)
Definition delegation_step (verify_ok : bool) (identical_fail_count : N) : DelegationOutcome :=
  if verify_ok then DoVerified
  else if (IDENTICAL_FAIL_HALT <=? u32_saturating_succ identical_fail_count)%N then DoHalt
  else DoMismatch.

(* SRC core/src/cua.rs @fn:apply_delegation_act apply_delegation_act *)
Definition apply_delegation_act (verify_ok : bool) (n : CuaNode) : DelegationOutcome * CuaNode :=
  let out := delegation_step verify_ok (nd_identical_fail_count n) in
  (out,
   match out with
   | DoVerified => set_nd_identical 0%N (set_nd_status NsVerified n)
   | DoMismatch => set_nd_status NsRunning
                     (set_nd_identical (u32_saturating_succ (nd_identical_fail_count n)) n)
   | DoHalt => set_nd_status NsHalted
                 (set_nd_identical (u32_saturating_succ (nd_identical_fail_count n)) n)
   end).

(* SRC core/src/cua.rs @const:FAILED_RECLAIM_AFTER FAILED_RECLAIM_AFTER *)
Definition FAILED_RECLAIM_AFTER : N := 3.

(* SRC core/src/cua.rs @fn:stop_is_blocked stop_is_blocked *)
Definition stop_is_blocked (reason : string) : bool :=
  existsb (String.eqb (to_ascii_lowercase (trim reason))) ["permission"; "missing-info"; "missing_info"; "blocked"].

(* SRC core/src/cua.rs @fn:apply_node_stop apply_node_stop *)
Definition apply_node_stop (reason : string) (n : CuaNode) : bool * CuaNode :=
  if stop_is_blocked reason then (false, set_nd_status NsBlocked n)
  else
    let n := set_nd_fails (u32_saturating_succ (nd_fail_count n)) n in
    if (FAILED_RECLAIM_AFTER <=? nd_fail_count n)%N then (true, set_nd_status NsHalted n)
    else (false, set_nd_status NsRunning n).

(** ** Mechanical verification *)

(* SRC core/src/cua.rs @const:CLOSE_READ_MAX CLOSE_READ_MAX *)
Definition CLOSE_READ_MAX : N := 4096.

(* SRC core/src/cua.rs @enum:EvidenceKind EvidenceKind *)
Inductive EvidenceKind := EvNone | EvFileExists | EvFileContains | EvFileEquals | EvCommandExit | EvCloseRead.

(* SRC core/src/cua.rs @struct:MechanicalEvidence MechanicalEvidence *)
Record MechanicalEvidence := {
  ev_kind : EvidenceKind;
  ev_path : option string;
  ev_expect : option string;
  ev_exit_code : option Z;
  ev_text : option string
}.

(* SRC core/src/cua.rs @enum:MechanicalVerdict MechanicalVerdict *)
Inductive MechanicalVerdict := MvVerified | MvRefuted | MvSampled.

#[export] Instance mechanical_verdict_eq_dec : EqDecision MechanicalVerdict.
Proof. solve_decision. Defined.

(** The disk as a check reads it: the bytes of a regular file. [utf8] says
    whether [read_to_string] takes them. *)
Class Disk := { disk_file : string → option string; disk_utf8 : string → bool }.

(* SRC core/src/cua.rs @fn:mechanical_verify mechanical_verify *)
Definition mechanical_verify `{Disk} (worker_claimed : bool) (e : MechanicalEvidence) : MechanicalVerdict :=
  let verdict (b : bool) := if b then MvVerified else MvRefuted in
  match ev_kind e with
  | EvNone => MvSampled
  | EvFileExists =>
      match ev_path e with Some p => verdict (bool_decide (is_Some (disk_file p))) | None => MvSampled end
  | EvFileContains =>
      match ev_path e, ev_expect e with
      | Some p, Some x =>
          verdict match disk_file p with Some s => disk_utf8 s && contains x s | None => false end
      | _, _ => MvSampled
      end
  | EvFileEquals =>
      match ev_path e, ev_expect e with
      | Some p, Some x => verdict match disk_file p with Some s => String.eqb s x | None => false end
      | _, _ => MvSampled
      end
  | EvCommandExit => match ev_exit_code e with Some c => verdict (Z.eqb c 0) | None => MvSampled end
  | EvCloseRead =>
      match ev_text e with
      | None => MvSampled
      | Some text =>
          if (CLOSE_READ_MAX <? N.of_nat (String.length text))%N then MvSampled
          else match ev_expect e with Some x => verdict (contains x text) | None => MvSampled end
      end
  end.

(* SRC core/src/cua.rs @fn:apply_mechanical_verify apply_mechanical_verify *)
Definition apply_mechanical_verify `{Disk} (worker_claimed : bool) (e : MechanicalEvidence) (n : CuaNode)
    : MechanicalVerdict * CuaNode :=
  let verdict := mechanical_verify worker_claimed e in
  (verdict, match verdict with
            | MvVerified => (apply_delegation_act true n).2
            | MvRefuted => (apply_delegation_act false n).2
            | MvSampled => n
            end).

(* SRC core/src/cua.rs @fn:verifier_accepts_worker_claim verifier_accepts_worker_claim *)
Definition verifier_accepts_worker_claim (worker_claimed mechanical_ok : bool) : bool := mechanical_ok.

(** ** The graph *)

(* SRC core/src/cua.rs @struct:ComputerUseDag ComputerUseDag *)
Record ComputerUseDag := { dg_run_id : string; dg_work_id : string; dg_nodes : list CuaNode; dg_replan_seq : N }.

Definition set_nodes (l : list CuaNode) (d : ComputerUseDag) : ComputerUseDag :=
  {| dg_run_id := dg_run_id d; dg_work_id := dg_work_id d; dg_nodes := l; dg_replan_seq := dg_replan_seq d |}.
Definition bump_replan (d : ComputerUseDag) : ComputerUseDag :=
  {| dg_run_id := dg_run_id d; dg_work_id := dg_work_id d; dg_nodes := dg_nodes d;
     dg_replan_seq := u32_saturating_succ (dg_replan_seq d) |}.

Definition is_verified (n : CuaNode) : bool := bool_decide (nd_status n = NsVerified).

(* SRC core/src/cua.rs @fn:ready_frontier ComputerUseDag::ready_frontier *)
Definition ready_frontier (d : ComputerUseDag) : list CuaNode :=
  List.filter (λ n, forallb (λ dep, existsb (λ x, String.eqb (nd_id x) dep && is_verified x) (dg_nodes d))
                      (nd_depends_on n))
    (List.filter (λ n, bool_decide (nd_status n = NsPending)) (dg_nodes d)).

(* SRC core/src/cua.rs @fn:replan_remaining ComputerUseDag::replan_remaining *)
Definition replan_remaining (remaining : list CuaNode) (d : ComputerUseDag) : ComputerUseDag :=
  bump_replan (set_nodes (List.filter is_verified (dg_nodes d) ++ remaining) d).

(** [iter_mut().find] by id, then a change of the node found. *)
Fixpoint on_node {A} (id : string) (f : CuaNode → A * CuaNode) (l : list CuaNode) : option (A * list CuaNode) :=
  match l with
  | [] => None
  | n :: l' =>
      if String.eqb (nd_id n) id then let '(a, n') := f n in Some (a, n' :: l')
      else '(a, l'') ← on_node id f l'; Some (a, n :: l'')
  end.

Definition unknown_node (id : string) : string := "unknown CUA node " +:+ id.

(** The edit of one node; an error may come after nothing was changed. *)
Definition edit_node (name info : option string) (n : CuaNode) : result unit string * CuaNode :=
  if is_verified n then (Err "verified nodes cannot be edited — replan remaining only", n)
  else
    let with_info n := match info with Some i => set_nd_info i n | None => n end in
    match name with
    | Some s => if negb (not_blank s) then (Err "remaining node name must not be empty", n)
                else (Ok tt, with_info (set_nd_name s n))
    | None => (Ok tt, with_info n)
    end.

(* SRC core/src/cua.rs @fn:apply_remaining_edit ComputerUseDag::apply_remaining_edit *)
Definition apply_remaining_edit (id : string) (name info : option string) (d : ComputerUseDag)
    : result ComputerUseDag string :=
  match on_node id (edit_node name info) (dg_nodes d) with
  | None => Err (unknown_node id)
  | Some (Err e, _) => Err e
  | Some (Ok _, l) => Ok (bump_replan (set_nodes l d))
  end.

(** ** Manager replans *)

(* SRC core/src/cua.rs @enum:ManagerReplanReason ManagerReplanReason *)
Inductive ManagerReplanReason := RrHalt | RrCompletion | RrPlanner.

(* SRC core/src/cua.rs @fn:parse#1 ManagerReplanReason::parse *)
Definition replan_reason_parse (raw : string) : ManagerReplanReason :=
  default RrPlanner (parse_spelling
    [("halt", RrHalt); ("identical-fail-halt", RrHalt); ("failure", RrHalt); ("failed", RrHalt);
     ("completion", RrCompletion); ("complete", RrCompletion); ("done", RrCompletion)]
    (to_ascii_lowercase (trim raw))).
(* SRC core/src/cua.rs @fn:as_str#1 ManagerReplanReason::as_str *)
Definition replan_reason_as_str (r : ManagerReplanReason) : string :=
  match r with RrHalt => "halt" | RrCompletion => "completion" | RrPlanner => "planner" end.

(* SRC core/src/cua.rs @fn:remaining_payload_skips_guard remaining_payload_skips_guard *)
Definition remaining_payload_skips_guard (v : Value) : bool :=
  match as_object v with
  | None => false
  | Some o =>
      is_some (obj_get "ticketId" o) || is_some (obj_get "ticket_id" o) ||
      bool_decide (obj_get "skipGuard" o ≫= as_bool = Some true) ||
      bool_decide (obj_get "skip_guard" o ≫= as_bool = Some true) ||
      bool_decide (obj_get "approved" o ≫= as_bool = Some true)
  end.

(* SRC core/src/cua.rs @fn:validate_remaining_node validate_remaining_node *)
Definition validate_remaining_node (n : CuaNode) : result unit string :=
  if negb (not_blank (nd_id n)) then Err "remaining node id must not be empty"
  else if negb (node_contract_legal n) then
    Err ("unverifiable remaining node " +:+ nd_id n +:+ " — postconditions required")
  else if is_verified n then
    Err ("remaining node " +:+ nd_id n +:+ " cannot be Verified — Manager rewrites remaining only")
  else Ok tt.

(** [serde_json::from_value] of a node, of an evidence record. *)
Class NodeCodec := { node_of_value : Value → result CuaNode string }.

Fixpoint parse_nodes `{NodeCodec} (l : list Value) : result (list CuaNode) string :=
  match l with
  | [] => Ok []
  | v :: l' =>
      if remaining_payload_skips_guard v then
        Err "planned click cannot skip Guard-2 — remaining nodes are proposals, not tickets"
      else
        n <-? match node_of_value v with Ok n => Ok n | Err e => Err ("remaining node: " +:+ e) end;;
        _ <-? validate_remaining_node n;;
        ns <-? parse_nodes l';;
        Ok (n :: ns)
  end.

(* SRC core/src/cua.rs @fn:parse_remaining_nodes parse_remaining_nodes *)
Definition parse_remaining_nodes `{NodeCodec} (v : Value) : result (list CuaNode) string :=
  match as_array v with
  | Some l => parse_nodes l
  | None =>
      match json_get "nodes" v ≫= as_array with
      | Some l => parse_nodes l
      | None =>
          match json_get "remaining" v ≫= as_array with
          | Some l => parse_nodes l
          | None => Err "manager remaining plan must be a JSON array of nodes"
          end
      end
  end.

Fixpoint validate_remaining (l : list CuaNode) : result unit string :=
  match l with [] => Ok tt | n :: l' => _ <-? validate_remaining_node n;; validate_remaining l' end.

(* SRC core/src/cua.rs @fn:apply_manager_replan apply_manager_replan *)
Definition apply_manager_replan (remaining : list CuaNode) (d : ComputerUseDag)
    : result (nat * ComputerUseDag) string :=
  _ <-? validate_remaining remaining;;
  Ok (length (List.filter is_verified (dg_nodes d)), replan_remaining remaining d).

(** ** Skills from verified graphs *)

(* SRC core/src/cua.rs @struct:CuaSkillDraft CuaSkillDraft *)
Record CuaSkillDraft := {
  sk_name : string;
  sk_description : string;
  sk_postconditions : list string;
  sk_node_ids : list string;
  sk_body : string
}.

(** One [char] of a name: an ASCII letter or digit stays, anything else is one
    dash; the continuation bytes of a code point are part of its first byte. *)
Fixpoint slug_chars (s : string) : string :=
  match s with
  | EmptyString => ""
  | String c s' =>
      let v := N_of_ascii c in
      if is_ascii_alnum c then String c (slug_chars s')
      else if ((128 <=? v) && (v <? 192))%N then slug_chars s'
      else String "-" (slug_chars s')
  end.
Definition slug_of (name : string) : string :=
  trim_end_matches "-" (drop_matching "-" (slug_chars (to_ascii_lowercase (trim name)))).

Definition NL : string := ch "010".

(* SRC core/src/cua.rs @fn:cua_skill_from_verified cua_skill_from_verified *)
Definition cua_skill_from_verified (d : ComputerUseDag) (name description : string)
    : result CuaSkillDraft string :=
  let slug := slug_of name in
  if is_empty slug || (64 <? String.length slug)%nat then
    Err "CUA skill name must be 1–64 [a-z0-9-] characters"
  else if negb (not_blank description) then Err "CUA skill description is required (Agent Skills spec)"
  else if bool_decide (dg_nodes d = []) then Err "no verified trace to promote"
  else if existsb (λ n, negb (is_verified n)) (dg_nodes d) then
    Err "one-off traces cannot become a skill until every node is verified"
  else
    match List.find (λ n, negb (node_contract_legal n)) (dg_nodes d) with
    | Some n => Err ("unverifiable node " +:+ nd_id n +:+ " — postconditions required")
    | None =>
        let posts := flat_map nd_postconditions (dg_nodes d) in
        Ok {| sk_name := slug; sk_description := trim description; sk_postconditions := posts;
              sk_node_ids := nd_id <$> dg_nodes d;
              sk_body :=
                "This skill is a reusable CUA procedure. It is not the orchestrator." +:+ NL +:+ NL +:+
                "## Steps" +:+ NL +:+
                sconcat ((λ n, "- **" +:+ nd_name n +:+ "** (`" +:+ nd_id n +:+ "`): " +:+ nd_info n +:+ NL)
                         <$> dg_nodes d) +:+
                NL +:+ "## Postconditions" +:+ NL +:+ sconcat ((λ p, "- " +:+ p +:+ NL) <$> posts) |}
    end.

(** ** Roles, bindings, tiers *)

(* SRC core/src/cua.rs @enum:DelegationRole DelegationRole *)
Inductive DelegationRole := DrScout | DrWorker | DrVerifier.

(* SRC core/src/cua.rs @fn:parse#2 DelegationRole::parse *)
Definition delegation_role_parse (raw : string) : option DelegationRole :=
  parse_spelling [("scout", DrScout); ("worker", DrWorker); ("verifier", DrVerifier); ("verify", DrVerifier)]
    (to_ascii_lowercase (trim raw)).

(* SRC core/src/cua.rs @const:SCOUT_ALLOWED_TOOLS SCOUT_ALLOWED_TOOLS *)
Definition SCOUT_ALLOWED_TOOLS : list string :=
  ["file_ops.read"; "file_ops.list"; "search.query"; "grep"; "codeintel.repomap"; "browser.snapshot";
   "desktop.snapshot"].

(* SRC core/src/cua.rs @fn:filter_tools_for_role filter_tools_for_role *)
Definition filter_tools_for_role (r : DelegationRole) (tools : list string) : list string :=
  match r with
  | DrWorker => tools
  | DrScout | DrVerifier => List.filter (λ t, existsb (String.eqb t) SCOUT_ALLOWED_TOOLS) tools
  end.

(* SRC core/src/cua.rs @struct:RuntimeBinding RuntimeBinding *)
Record RuntimeBinding := {
  rb_harness : string;
  rb_model : string;
  rb_role : option DelegationRole;
  rb_chief : option string
}.

(* SRC core/src/cua.rs @fn:refuse_cli_named_subagent refuse_cli_named_subagent *)
Definition refuse_cli_named_subagent (label : string) : result unit string :=
  let l := to_ascii_lowercase (trim label) in
  if existsb (λ p, contains p l) ["claude"; "codex"; "opencode"; "gemini"; "cursor"] && contains "subagent" l then
    Err "no CLI-named subagent type — harness, model, and role are independent planes"
  else Ok tt.

(* SRC core/src/cua.rs @fn:bind_runtime bind_runtime *)
Definition cua_bind_runtime (harness model : string) (role : option DelegationRole) (chief : option string)
    : result RuntimeBinding string :=
  _ <-? refuse_cli_named_subagent harness;;
  _ <-? refuse_cli_named_subagent model;;
  if negb (not_blank harness) then Err "harness required (independent of model)"
  else if negb (not_blank model) then Err "model required (independent of harness)"
  else Ok {| rb_harness := trim harness; rb_model := trim model; rb_role := role; rb_chief := chief |}.

(* SRC core/src/cua.rs @struct:PerceptionLayers PerceptionLayers *)
Record PerceptionLayers := {
  pl_screenshot_ref : option string;
  pl_a11y : option string;
  pl_dom : option string;
  pl_ocr : option string;
  pl_api : option string
}.
(* SRC core/src/cua.rs @struct:SceneGraph SceneGraph *)
Record SceneGraph := { sg_vision_first : bool; sg_structure_augments : bool; sg_structure_lying : bool; sg_usable : bool }.

Definition present (o : option string) : bool := match o with Some s => not_blank s | None => false end.
Definition is_text (t : string) (o : option string) : bool := bool_decide (o = Some t).

(* SRC core/src/cua.rs @fn:fuse_perception fuse_perception *)
Definition fuse_perception (l : PerceptionLayers) : result SceneGraph string :=
  if negb (present (pl_screenshot_ref l)) then
    Err "CUA perception requires a screenshot — structure cannot replace vision"
  else
    let lying := is_text "lying" (pl_a11y l) || is_text "lying" (pl_dom l) || is_text "false" (pl_a11y l) in
    Ok {| sg_vision_first := true;
          sg_structure_augments := (present (pl_a11y l) || present (pl_dom l) || present (pl_ocr l)) && negb lying;
          sg_structure_lying := lying; sg_usable := true |}.

(* SRC core/src/cua.rs @enum:ModelTier ModelTier *)
Inductive ModelTier := MtCheap | MtMid | MtFrontier | MtLocal | MtVl.

#[export] Instance model_tier_eq_dec : EqDecision ModelTier.
Proof. solve_decision. Defined.

(* SRC core/src/cua.rs @fn:parse#3 ModelTier::parse *)
Definition model_tier_parse (raw : string) : ModelTier :=
  default MtCheap (parse_spelling [("mid", MtMid); ("frontier", MtFrontier); ("local", MtLocal); ("vl", MtVl);
    ("vision", MtVl)] (to_ascii_lowercase (trim raw))).

(* SRC core/src/cua.rs @fn:pick_combo pick_combo *)
Definition pick_combo (needs_vision verify_failed : bool) (current : ModelTier) : ModelTier :=
  let t := if needs_vision && negb (bool_decide (current = MtVl)) && negb (bool_decide (current = MtFrontier))
           then MtVl else current in
  if verify_failed then
    match t with MtCheap | MtLocal => MtMid | MtMid | MtVl => MtFrontier | MtFrontier => MtFrontier end
  else t.

(* SRC core/src/cua.rs @enum:HarnessModelCase HarnessModelCase *)
Inductive HarnessModelCase := HcA | HcB | HcC.

Definition eq_ignore_case (a b : string) : bool := String.eqb (to_ascii_lowercase a) (to_ascii_lowercase b).

(* SRC core/src/cua.rs @fn:classify_harness_model_case classify_harness_model_case *)
Definition classify_harness_model_case (ph pm wh wm : string) : HarnessModelCase :=
  match eq_ignore_case (trim ph) (trim wh), eq_ignore_case (trim pm) (trim wm) with
  | false, _ => HcA
  | true, true => HcB
  | true, false => HcC
  end.

(* SRC core/src/cua.rs @struct:PrimarySpend PrimarySpend *)
Record PrimarySpend := { ps_primary : N; ps_worker : N; ps_share : f64; ps_warn : bool }.

(* SRC core/src/cua.rs @const:PRIMARY_SPEND_WARN PRIMARY_SPEND_WARN *)
Definition PRIMARY_SPEND_WARN : f64 := f64_lit 1 5.

(* SRC core/src/cua.rs @fn:split_primary_spend split_primary_spend *)
Definition split_primary_spend (primary worker : N) : PrimarySpend :=
  let total := u64_saturating_add primary worker in
  let share := if (total =? 0)%N then f64_0 else f64_div (f64_of_N primary) (f64_of_N total) in
  {| ps_primary := primary; ps_worker := worker; ps_share := share;
     ps_warn := (0 <? total)%N && f64_lt PRIMARY_SPEND_WARN share |}.

(** ** The file of a graph *)

(** [dependency_graph.json] and [replan_log.jsonl] of one directory; what the
    next write of each answers. *)
Record CuaStore := { cu_dag : option ComputerUseDag; cu_log : list (N * string) }.
Record CuaIo := { io_dag : result unit string; io_log : result unit string }.

(** The graph is written beside and renamed: a failed write keeps the old one. *)
(* SRC core/src/cua.rs @fn:persist_dag persist_dag *)
Definition persist_dag (io : CuaIo) (d : ComputerUseDag) (s : CuaStore) : result unit string * CuaStore :=
  match io_dag io with
  | Ok _ => (Ok tt, {| cu_dag := Some d; cu_log := cu_log s |})
  | Err e => (Err e, s)
  end.

(* SRC core/src/cua.rs @fn:load_dag load_dag *)
Definition load_dag (s : CuaStore) : result ComputerUseDag string :=
  match cu_dag s with Some d => Ok d | None => Err "no such file" end.

(* SRC core/src/cua.rs @fn:append_replan_log append_replan_log *)
Definition append_replan_log (io : CuaIo) (seq : N) (reason : string) (s : CuaStore)
    : result unit string * CuaStore :=
  match io_log io with
  | Ok _ => (Ok tt, {| cu_dag := cu_dag s; cu_log := cu_log s ++ [(seq, reason)] |})
  | Err e => (Err e, s)
  end.

(** ** The calls *)

Definition CuaRpc (A : Type) : Type := CuaStore → result A string * CuaStore.
Definition cua_fail {A} (e : string) : CuaRpc A := λ s, (Err e, s).
Definition cua_bind {A B} (m : CuaRpc A) (k : A → CuaRpc B) : CuaRpc B := λ s,
  match m s with (Ok a, s') => k a s' | (Err e, s') => (Err e, s') end.
Definition cua_ret {A} (a : A) : CuaRpc A := λ s, (Ok a, s).
Definition cua_load : CuaRpc ComputerUseDag := λ s, (load_dag s, s).
Definition cua_lift {A} (r : result A string) : CuaRpc A := λ s, (r, s).
Notation "x <-c m ;; k" := (cua_bind m (λ x, k)) (at level 100, m at next level, right associativity).

(** The graph with one node changed, or the error of an unknown node. *)
Definition change_node {A} (id : string) (f : CuaNode → A * CuaNode) (d : ComputerUseDag)
    : result (A * ComputerUseDag) string :=
  match on_node id f (dg_nodes d) with
  | Some (a, l) => Ok (a, set_nodes l d)
  | None => Err (unknown_node id)
  end.

Section calls.
Context `{Disk} (io : CuaIo).

(* SRC core/src/execution.rs 1420 1444 ExecutionKernel::handle *)
Definition cua_persist (d : ComputerUseDag) : CuaRpc unit :=
  match List.find (λ n, negb (node_contract_legal n)) (dg_nodes d) with
  | Some n => cua_fail ("unverifiable node " +:+ nd_id n +:+ " — postconditions required")
  | None => persist_dag io d
  end.

(* SRC core/src/execution.rs 1455 1480 ExecutionKernel::handle *)
Definition cua_edit (id : string) (name info : option string) : CuaRpc N :=
  d <-c cua_load;;
  d <-c cua_lift (apply_remaining_edit id name info d);;
  _ <-c append_replan_log io (dg_replan_seq d) "user-edit-remaining";;
  _ <-c persist_dag io d;;
  cua_ret (dg_replan_seq d).

(* SRC core/src/execution.rs 1481 1515 ExecutionKernel::handle *)
Definition cua_step (id : string) (verify_ok : bool) : CuaRpc DelegationOutcome :=
  d <-c cua_load;;
  od <-c cua_lift (change_node id (apply_delegation_act verify_ok) d);;
  _ <-c (if bool_decide (od.1 = DoHalt) then append_replan_log io (dg_replan_seq od.2) "identical-fail-halt"
         else cua_ret tt);;
  _ <-c persist_dag io od.2;;
  cua_ret od.1.

(* SRC core/src/execution.rs 1517 1559 ExecutionKernel::handle *)
Definition cua_verify (id : string) (worker_claimed : bool) (e : MechanicalEvidence) : CuaRpc MechanicalVerdict :=
  d <-c cua_load;;
  od <-c cua_lift (change_node id (λ n, let '(v, n') := apply_mechanical_verify worker_claimed e n in
                                        ((v, nd_status n'), n')) d);;
  _ <-c (if bool_decide (od.1.1 = MvRefuted) && bool_decide (od.1.2 = NsHalted)
         then append_replan_log io (dg_replan_seq od.2) "mechanical-refute-halt" else cua_ret tt);;
  _ <-c persist_dag io od.2;;
  cua_ret od.1.1.

(* SRC core/src/execution.rs 1632 1662 ExecutionKernel::handle *)
Definition cua_fabric (id target : string) : CuaRpc WorkSurface :=
  let surface := route_work_surface target in
  d <-c cua_load;;
  od <-c cua_lift (change_node id (λ n, (tt, apply_fabric surface n)) d);;
  _ <-c persist_dag io od.2;;
  cua_ret surface.

(** The node's screenshot is noted when the graph can be read; a failed write
    is ignored. *)
(* SRC core/src/execution.rs 1663 1683 ExecutionKernel::handle *)
Definition cua_perceive (l : PerceptionLayers) (id : option string) : CuaRpc SceneGraph :=
  graph <-c cua_lift (fuse_perception l);;
  (λ s, match id, cu_dag s with
        | Some id, Some d =>
            let d := match on_node id (λ n, (tt, set_nd_shot (pl_screenshot_ref l) n)) (dg_nodes d) with
                     | Some (_, ns) => set_nodes ns d | None => d end in
            (Ok graph, (persist_dag io d s).2)
        | _, _ => (Ok graph, s)
        end).

(* SRC core/src/execution.rs 1684 1713 ExecutionKernel::handle *)
Definition cua_stop (id reason : string) : CuaRpc bool :=
  d <-c cua_load;;
  od <-c cua_lift (change_node id (apply_node_stop reason) d);;
  _ <-c persist_dag io od.2;;
  cua_ret od.1.

(* SRC core/src/execution.rs 1717 1746 ExecutionKernel::handle *)
Definition cua_replan `{NodeCodec} (remaining : Value) (reason : string) : CuaRpc nat :=
  ns <-c cua_lift (parse_remaining_nodes remaining);;
  d <-c cua_load;;
  od <-c cua_lift (apply_manager_replan ns d);;
  _ <-c append_replan_log io (dg_replan_seq od.2) (replan_reason_as_str (replan_reason_parse reason));;
  _ <-c persist_dag io od.2;;
  cua_ret od.1.

(* SRC core/src/execution.rs 1778 1804 ExecutionKernel::handle *)
Definition cua_set_brief (id : string) (b : FivePartBrief) : CuaRpc unit :=
  d <-c cua_load;;
  od <-c cua_lift (change_node id (λ n, match apply_five_part_brief b n with
                                        | Ok n' => (Ok tt, n') | Err e => (Err e, n) end) d);;
  _ <-c cua_lift od.1;;
  persist_dag io od.2.
End calls.
