(* ===== verification/CuaFacts.v ===== *)
(** * Facts about the computer-use graph

    A node is verified by evidence and nothing else, replans keep what is
    verified, a failing Worker halts, an acyclic graph never gets stuck, and
    only a fully verified graph becomes a skill. *)
From S2P Require Import Order Prelude Json LeaseTypes WorkTypes F64 NetFloor Fleet Execution Cua.

(** ** Calls *)

Inductive cua_call :=
  | CcPersist (d : ComputerUseDag)
  | CcEdit (id : string) (name info : option string)
  | CcStep (id : string) (verify_ok : bool)
  | CcVerify (disk : Disk) (id : string) (claimed : bool) (e : MechanicalEvidence)
  | CcFabric (id target : string)
  | CcPerceive (l : PerceptionLayers) (id : option string)
  | CcStop (id reason : string)
  | CcReplan (remaining : Value) (reason : string)
  | CcBrief (id : string) (b : FivePartBrief).

(** The ids of the verified nodes of a graph. *)
Definition verified_in (d : ComputerUseDag) (id : string) : Prop :=
  ∃ n, n ∈ dg_nodes d ∧ nd_id n = id ∧ is_verified n = true.

(** A call of [execution/cua_persist] with a graph that has the node verified:
    the statuses are stored as they are given. *)
Definition stored_as_verified (id : string) (c : cua_call) : Prop :=
  match c with CcPersist d => verified_in d id | _ => False end.

(** A call that says its node holds. *)
Definition evidence_for (id : string) (c : cua_call) : Prop :=
  match c with
  | CcStep i ok => i = id ∧ ok = true
  | CcVerify disk i claimed e => i = id ∧ @mechanical_verify disk claimed e = MvVerified
  | _ => False
  end.

(** The ids that are verified in the stored graph. *)
Definition store_verified (s : CuaStore) (id : string) : Prop := ∃ d, cu_dag s = Some d ∧ verified_in d id.

Section facts.
Context `{NodeCodec}.

Definition cua_exec (io : CuaIo) (c : cua_call) (s : CuaStore) : CuaStore :=
  match c with
  | CcPersist d => (cua_persist io d s).2
  | CcEdit id name info => (cua_edit io id name info s).2
  | CcStep id ok => (cua_step io id ok s).2
  | CcVerify disk id claimed e => (@cua_verify disk io id claimed e s).2
  | CcFabric id target => (cua_fabric io id target s).2
  | CcPerceive l id => (cua_perceive io l id s).2
  | CcStop id reason => (cua_stop io id reason s).2
  | CcReplan v reason => (cua_replan io v reason s).2
  | CcBrief id b => (cua_set_brief io id b s).2
  end.

Definition cua_play (calls : list (CuaIo * cua_call)) (s : CuaStore) : CuaStore :=
  foldl (λ s c, cua_exec c.1 c.2 s) s calls.

(** ** What a change of the graph adds *)

(** Every verified node of [d'] was verified in [d] or has an id of [P]. *)
Definition adds (P : string → Prop) (d d' : ComputerUseDag) : Prop :=
  ∀ id, verified_in d' id → verified_in d id ∨ P id.
Definition store_adds (P : string → Prop) (s s' : CuaStore) : Prop :=
  ∀ id, store_verified s' id → store_verified s id ∨ P id.

Lemma on_node_elem {A} id (f : CuaNode → A * CuaNode) l a l' n' : on_node id f l = Some (a, l') → n' ∈ l' →
  n' ∈ l ∨ ∃ n, n ∈ l ∧ nd_id n = id ∧ f n = (a, n').
Proof.
  revert l'. induction l as [|n l IH]; intros l' Hf Hin; simpl in Hf; [done|].
  destruct (String.eqb_spec (nd_id n) id) as [Hid|_].
  - destruct (f n) as [b m] eqn:E. injection Hf as <- <-. apply elem_of_cons in Hin as [->|Hin].
    + right. exists n. split; [by left|]. by rewrite E.
    + left. by right.
  - destruct (on_node id f l) as [[b l2]|]; [|done]. simpl in Hf. injection Hf as <- <-.
    apply elem_of_cons in Hin as [->|Hin]; [by left; left|].
    destruct (IH l2 eq_refl Hin) as [?|(m & Hm & ?)]; [left; by right|right; exists m; by split; [right|]].
Qed.

(** A change of one node that keeps its id, and verifies it only when [P]. *)
Lemma on_node_adds {A} (P : string → Prop) id (f : CuaNode → A * CuaNode) d a l' :
  (∀ n b n', f n = (b, n') → nd_id n' = nd_id n ∧ (is_verified n' = true → is_verified n = true ∨ P id)) →
  on_node id f (dg_nodes d) = Some (a, l') → adds P d (set_nodes l' d).
Proof.
  intros Hf Ho i (n' & Hin & Hi & Hv). simpl in Hin.
  destruct (on_node_elem _ _ _ _ _ _ Ho Hin) as [?|(n & Hn & Hid & Hfn)]; [left; by exists n'|].
  destruct (Hf _ _ _ Hfn) as [Hsame Hver]. destruct (Hver Hv) as [?|Hp]; [|right; by rewrite <- Hi, Hsame, Hid].
  left. exists n. split_and!; [done|congruence|done].
Qed.

Lemma adds_refl P d : adds P d d.
Proof. intros id ?. by left. Qed.
Lemma store_adds_refl P s : store_adds P s s.
Proof. intros id ?. by left. Qed.

Lemma persist_adds P io d d' s : cu_dag s = Some d → adds P d d' → store_adds P s (persist_dag io d' s).2.
Proof.
  intros Hs Ha. unfold persist_dag. destruct (io_dag io); [|apply store_adds_refl].
  intros id (e & He & Hv). simpl in He. injection He as <-. destruct (Ha _ Hv); [left; by exists d|by right].
Qed.

Lemma log_dag io n r s : cu_dag (append_replan_log io n r s).2 = cu_dag s.
Proof. unfold append_replan_log. by destruct (io_log io). Qed.

Lemma store_adds_dag P s s1 s2 : cu_dag s1 = cu_dag s → store_adds P s1 s2 → store_adds P s s2.
Proof. unfold store_adds, store_verified. intros <-. done. Qed.

(** What the calls share: they load the graph, change it, may log, and write it. *)
Lemma write_adds {A} P io (d d' : ComputerUseDag) (log : CuaRpc unit) (a : A) s :
  cu_dag s = Some d → adds P d d' → (∀ s, cu_dag (log s).2 = cu_dag s) →
  store_adds P s (cua_bind log (λ _, cua_bind (persist_dag io d') (λ _, cua_ret a)) s).2.
Proof.
  intros Hs Ha Hlog. unfold cua_bind. specialize (Hlog s). destruct (log s) as [[u|e] s1]; simpl in *.
  - eapply store_adds_dag; [exact Hlog|]. pose proof (persist_adds P io d d' s1 ltac:(by rewrite Hlog) Ha) as Hp.
    by destruct (persist_dag io d' s1) as [[]].
  - intros id (x & Hx & Hv). left. exists x. by rewrite <- Hlog.
Qed.

Lemma change_node_adds {A} (P : string → Prop) id (f : CuaNode → A * CuaNode) d a d' :
  (∀ n b n', f n = (b, n') → nd_id n' = nd_id n ∧ (is_verified n' = true → is_verified n = true ∨ P id)) →
  change_node id f d = Ok (a, d') → adds P d d'.
Proof.
  unfold change_node. intros Hf. destruct (on_node id f (dg_nodes d)) as [[b l]|] eqn:E; [|done].
  intros [= _ <-]. by eapply on_node_adds.
Qed.

Lemma act_keeps ok n b n' : apply_delegation_act ok n = (b, n') →
  nd_id n' = nd_id n ∧ (is_verified n' = true → is_verified n = true ∨ ok = true).
Proof.
  unfold apply_delegation_act, delegation_step. intros [= <- <-]. destruct ok; [by split; [|right]|].
  by destruct (_ <=? _)%N.
Qed.

Lemma verify_keeps disk claimed e n v n' : @apply_mechanical_verify disk claimed e n = (v, n') →
  nd_id n' = nd_id n ∧ (is_verified n' = true → is_verified n = true ∨ @mechanical_verify disk claimed e = MvVerified).
Proof.
  unfold apply_mechanical_verify. intros [= <- <-]. destruct (mechanical_verify claimed e); [by split; [|right]| |by split; [|left]].
  simpl. by destruct (_ <=? _)%N.
Qed.

Lemma stop_keeps reason n b n' : apply_node_stop reason n = (b, n') → nd_id n' = nd_id n ∧ is_verified n' = false.
Proof. unfold apply_node_stop. repeat case_match; by intros [= <- <-]. Qed.

Lemma edit_keeps name info n r n' : edit_node name info n = (r, n') →
  nd_id n' = nd_id n ∧ nd_status n' = nd_status n.
Proof. unfold edit_node. repeat case_match; by intros [= <- <-]. Qed.

Lemma brief_keeps b n n' : apply_five_part_brief b n = Ok n' → nd_id n' = nd_id n ∧ nd_status n' = nd_status n.
Proof. unfold apply_five_part_brief. repeat case_match; by intros [= <-]. Qed.

Lemma validated_unverified l : validate_remaining l = Ok tt → Forall (λ n, is_verified n = false) l.
Proof.
  induction l as [|n l IH]; intros Hv; [done|]. simpl in Hv.
  destruct (validate_remaining_node n) as [[]|] eqn:E; [|done]. constructor; [|by apply IH].
  unfold validate_remaining_node in E. destruct (is_verified n); [|done]. by repeat case_match.
Qed.

Lemma replan_adds P ns d k d' : apply_manager_replan ns d = Ok (k, d') → adds P d d'.
Proof.
  unfold apply_manager_replan. destruct (validate_remaining ns) as [[]|] eqn:E; [|done]. intros [= _ <-].
  intros id (n & Hin & Hi & Hv). left. simpl in Hin. apply elem_of_app in Hin as [Hin|Hin].
  - apply list_elem_of_In, filter_In in Hin as [Hin _]. exists n. split; [by apply list_elem_of_In|done].
  - apply validated_unverified in E. rewrite Forall_forall in E. rewrite (E _ Hin) in Hv. done.
Qed.

(** ** One call *)

(** Loading, then changing, then the rest. *)
Lemma load_change {A B} P s (change : ComputerUseDag → result A string) (k : A → CuaRpc B) :
  (∀ d x, cu_dag s = Some d → change d = Ok x → store_adds P s (k x s).2) →
  store_adds P s (cua_bind cua_load (λ d, cua_bind (cua_lift (change d)) k) s).2.
Proof.
  intros Hk. unfold cua_bind, cua_load, load_dag, cua_lift. destruct (cu_dag s) as [d|] eqn:Hd; [|apply store_adds_refl].
  destruct (change d) as [x|] eqn:E; [by eapply Hk|apply store_adds_refl].
Qed.

Lemma persist_ret_adds {A} P io (d d' : ComputerUseDag) (a : A) s : cu_dag s = Some d → adds P d d' →
  store_adds P s (cua_bind (persist_dag io d') (λ _, cua_ret a) s).2.
Proof.
  intros Hs Ha. pose proof (persist_adds P io d d' s Hs Ha) as Hp. unfold cua_bind.
  by destruct (persist_dag io d' s) as [[]].
Qed.

Lemma log_if_dag (b : bool) io n r s : cu_dag ((if b then append_replan_log io n r else cua_ret tt) s).2 = cu_dag s.
Proof. destruct b; [apply log_dag|done]. Qed.

Lemma edit_adds P id name info d d' : apply_remaining_edit id name info d = Ok d' → adds P d d'.
Proof.
  unfold apply_remaining_edit. destruct (on_node _ _ _) as [[[u|e] l]|] eqn:E; [|done..]. intros [= <-].
  eapply (on_node_adds P) in E; [exact E|]. intros n r n' Hn. apply edit_keeps in Hn as [Hi Hs].
  split; [done|]. unfold is_verified. rewrite Hs. by left.
Qed.

Lemma status_keeps P (n n' : CuaNode) : nd_id n' = nd_id n ∧ nd_status n' = nd_status n →
  nd_id n' = nd_id n ∧ (is_verified n' = true → is_verified n = true ∨ P).
Proof. intros [Hi Hs]. split; [done|]. unfold is_verified. rewrite Hs. by left. Qed.

(** ** One call *)

Lemma perceive_adds P io l id s : store_adds P s (cua_perceive io l id s).2.
Proof.
  unfold cua_perceive, cua_bind, cua_lift. destruct (fuse_perception l); [|apply store_adds_refl].
  destruct id as [id|]; [|apply store_adds_refl]. destruct (cu_dag s) as [d|] eqn:Hd; [|apply store_adds_refl].
  eapply persist_adds; [exact Hd|].
  destruct (on_node _ _ _) as [[u l']|] eqn:E; [|apply adds_refl].
  eapply (on_node_adds P) in E; [exact E|]. intros n b n' [= <- <-]. by apply status_keeps.
Qed.

Lemma stored_adds io d s : store_adds (verified_in d) s (cua_persist io d s).2.
Proof.
  unfold cua_persist, persist_dag. destruct (List.find _ _); [apply store_adds_refl|].
  destruct (io_dag io); [|apply store_adds_refl]. intros id (d' & [= <-] & Hv). by right.
Qed.

Lemma store_adds_weaken (P Q : string → Prop) s s' : (∀ id, P id → Q id) → store_adds P s s' → store_adds Q s s'.
Proof. intros HPQ Ha id Hv. destruct (Ha id Hv); auto. Qed.

Lemma call_adds io c s : store_adds (λ id, evidence_for id c ∨ stored_as_verified id c) s (cua_exec io c s).
Proof.
  enough (He : match c with
               | CcPersist d => store_adds (verified_in d) s (cua_exec io c s)
               | _ => store_adds (λ id, evidence_for id c) s (cua_exec io c s) end).
  { destruct c; (eapply store_adds_weaken; [|exact He]); intros x Hx; first [by left | by right]. }
  destruct c as [d|id name info|id ok|disk id claimed e|id target|l id|id reason|v reason|id b]; simpl.
  - apply stored_adds.
  - apply load_change. intros d d' Hd He. eapply write_adds; [exact Hd|by eapply edit_adds|apply log_dag].
  - apply load_change. intros d [o d'] Hd Hc. eapply write_adds; [exact Hd| |apply log_if_dag].
    eapply change_node_adds; [|exact Hc]. intros n x n' Hn. apply act_keeps in Hn as [Hi Hv].
    split; [done|]. intros Hn'. destruct (Hv Hn') as [?|]; [by left|by right].
  - apply load_change. intros d [o d'] Hd Hc. eapply write_adds; [exact Hd| |apply log_if_dag].
    eapply change_node_adds; [|exact Hc]. intros n x n' Hn. cbv beta in Hn.
    destruct (@apply_mechanical_verify disk claimed e n) as [v m] eqn:E. injection Hn as _ <-.
    apply verify_keeps in E as [Hi Hv]. split; [done|]. intros Hn'. destruct (Hv Hn') as [?|]; [by left|by right].
  - apply load_change. intros d [o d'] Hd Hc. eapply persist_ret_adds; [exact Hd|].
    eapply change_node_adds; [|exact Hc]. intros n x n' Hn. apply status_keeps. by injection Hn as _ <-.
  - apply perceive_adds.
  - apply load_change. intros d [o d'] Hd Hc. eapply persist_ret_adds; [exact Hd|].
    eapply change_node_adds; [|exact Hc]. intros n x n' Hn. apply stop_keeps in Hn as [Hi Hv].
    split; [done|]. by rewrite Hv.
  - unfold cua_replan. unfold cua_bind at 1, cua_lift at 1. destruct (parse_remaining_nodes v) as [ns|]; [|apply store_adds_refl].
    apply load_change. intros d [k d'] Hd Hc. eapply write_adds; [exact Hd|by eapply replan_adds|apply log_dag].
  - apply load_change. intros d [r d'] Hd Hc. simpl. unfold cua_bind, cua_lift. destruct r; [|apply store_adds_refl].
    eapply persist_adds; [exact Hd|]. eapply change_node_adds; [|exact Hc]. intros n x n' Hn. simpl in Hn.
    apply status_keeps. destruct (apply_five_part_brief b n) as [m|] eqn:E; injection Hn as _ <-; [|done].
    by apply brief_keeps in E.
Qed.

(** ** The properties *)

(** [C12] A node is verified by evidence: whatever calls are made on a stored
    graph, failed writes included, every node that is verified at the end was
    verified at the start, had a passing step or a passing mechanical check
    among the calls, or was handed to [execution/cua_persist] as verified, which
    stores the statuses it is given. A Worker's claim, an edit, a brief, a stop
    and a replan verify nothing. *)
Theorem verified_by_evidence_only calls s id :
  store_verified (cua_play calls s) id →
  store_verified s id ∨ (∃ io c, (io, c) ∈ calls ∧ evidence_for id c) ∨ ∃ io d, (io, CcPersist d) ∈ calls ∧ verified_in d id.
Proof.
  revert s. induction calls as [|[io c] calls IH]; intros s Hv; [by left|].
  destruct (IH _ Hv) as [Hv'|[(io' & c' & Hin & He)|(io' & d & Hin & He)]].
  - destruct (call_adds io c s id Hv') as [?|[He|He]]; [by left|right; left; exists io, c; by split; [left|]|].
    destruct c; try done. right. right. eexists io, _. by split; [left|].
  - right. left. exists io', c'. by split; [right|].
  - right. right. exists io', d. by split; [right|].
Qed.
End facts.

(** A replan rewrites what remains and nothing else: it is accepted when
    every proposed node has an id, a postcondition and no claim to be verified;
    then the verified nodes are kept, in order and unchanged, the rest is
    exactly the proposal, and the sequence number moves on. *)
Theorem replan_keeps_verified ns d :
  match apply_manager_replan ns d with
  | Ok (kept, d') =>
      Forall (λ n, not_blank (nd_id n) = true ∧ nd_postconditions n ≠ [] ∧ is_verified n = false) ns ∧
      dg_nodes d' = List.filter is_verified (dg_nodes d) ++ ns ∧
      List.filter is_verified (dg_nodes d') = List.filter is_verified (dg_nodes d) ∧
      kept = length (List.filter is_verified (dg_nodes d)) ∧
      dg_replan_seq d' = u32_saturating_succ (dg_replan_seq d)
  | Err _ => Exists (λ n, not_blank (nd_id n) = false ∨ nd_postconditions n = [] ∨ is_verified n = true) ns
  end.
Proof.
  unfold apply_manager_replan. assert (Hns : match validate_remaining ns with
    | Ok _ => Forall (λ n, not_blank (nd_id n) = true ∧ nd_postconditions n ≠ [] ∧ is_verified n = false) ns
    | Err _ => Exists (λ n, not_blank (nd_id n) = false ∨ nd_postconditions n = [] ∨ is_verified n = true) ns end).
  { induction ns as [|n ns IH]; simpl; [done|]. unfold validate_remaining_node, node_contract_legal.
    destruct (not_blank (nd_id n)) eqn:E1; simpl; [|by left; left].
    destruct (bool_decide_reflect (nd_postconditions n = [])) as [E2|E2]; simpl; [by left; right; left|].
    destruct (is_verified n) eqn:E3; simpl; [by left; right; right|].
    destruct (validate_remaining ns); [by constructor|by right]. }
  destruct (validate_remaining ns) as [[]|]; simpl; [|done]. split_and!; try done.
  rewrite List.filter_app. assert (Hidem : ∀ l, List.filter is_verified (List.filter is_verified l) = List.filter is_verified l).
  { induction l as [|n l IH]; simpl; [done|]. destruct (is_verified n) eqn:E; simpl; [|done]. by rewrite E, IH. }
  rewrite Hidem. clear Hidem. replace (List.filter is_verified ns) with (@nil CuaNode); [by rewrite app_nil_r|].
  induction Hns as [|n ns (_ & _ & Hn) _ IH]; simpl; [done|]. by rewrite Hn.
Qed.

(** ** Halting *)

Fixpoint failing (k : nat) (n : CuaNode) : CuaNode :=
  match k with O => n | S k' => failing k' (apply_delegation_act false n).2 end.
Fixpoint stopping (reason : string) (k : nat) (n : CuaNode) : CuaNode :=
  match k with O => n | S k' => stopping reason k' (apply_node_stop reason n).2 end.

Lemma failing_halted k n : (1 ≤ nd_identical_fail_count n)%N → nd_status n = NsHalted → nd_status (failing k n) = NsHalted.
Proof.
  revert n. induction k as [|k IH]; intros n Hc Hs; [done|]. simpl. unfold delegation_step.
  assert (H2 : (IDENTICAL_FAIL_HALT <=? u32_saturating_succ (nd_identical_fail_count n))%N = true).
  { apply N.leb_le. unfold IDENTICAL_FAIL_HALT, u32_saturating_succ, u32_max. lia. }
  rewrite H2. apply IH; [|done]. simpl. unfold u32_saturating_succ, u32_max. lia.
Qed.

Lemma stopping_halted reason k n : stop_is_blocked reason = false → (FAILED_RECLAIM_AFTER ≤ nd_fail_count n)%N →
  nd_status n = NsHalted → nd_status (stopping reason k n) = NsHalted.
Proof.
  intros Hb. revert n. induction k as [|k IH]; intros n Hc Hs; [done|]. simpl. unfold apply_node_stop. rewrite Hb. simpl.
  assert (H3 : (FAILED_RECLAIM_AFTER <=? u32_saturating_succ (nd_fail_count n))%N = true).
  { apply N.leb_le. unfold FAILED_RECLAIM_AFTER, u32_saturating_succ, u32_max in *. lia. }
  rewrite H3. simpl. apply IH; [|done]. simpl. unfold FAILED_RECLAIM_AFTER, u32_saturating_succ, u32_max in *. lia.
Qed.

(** A Worker that keeps failing is halted: from any node two failing steps
    in a row, or three stops that are not a block, leave it halted, and more of
    the same leave it so, however high the counters. *)
Theorem failing_worker_halts n k reason :
  stop_is_blocked reason = false →
  nd_status (failing (2 + k) n) = NsHalted ∧ nd_status (stopping reason (3 + k) n) = NsHalted.
Proof.
  intros Hb. split.
  - change (failing (2 + k) n) with (failing k (failing 2 n)).
    assert (Hc : ∀ m, (1 ≤ nd_identical_fail_count (apply_delegation_act false m).2)%N).
    { intros m. unfold apply_delegation_act, delegation_step. simpl.
      destruct (_ <=? _)%N; simpl; unfold u32_saturating_succ, u32_max; lia. }
    apply failing_halted; [apply Hc|]. pose proof (Hc n) as Hn.
    change (failing 2 n) with (apply_delegation_act false (apply_delegation_act false n).2).2.
    revert Hn. generalize (apply_delegation_act false n).2. intros m Hn.
    unfold apply_delegation_act, delegation_step.
    assert (H2 : (IDENTICAL_FAIL_HALT <=? u32_saturating_succ (nd_identical_fail_count m))%N = true).
    { apply N.leb_le. unfold IDENTICAL_FAIL_HALT, u32_saturating_succ, u32_max. lia. }
    by rewrite H2.
  - change (stopping reason (3 + k) n) with (stopping reason k (stopping reason 3 n)).
    assert (Hc : nd_fail_count (stopping reason 3 n) = N.min (nd_fail_count n + 3) u32_max ∨
                 (nd_fail_count (stopping reason 3 n) = u32_max)).
    { simpl. unfold apply_node_stop. rewrite Hb. simpl.
      repeat (destruct (FAILED_RECLAIM_AFTER <=? _)%N; simpl); unfold u32_saturating_succ, u32_max; lia. }
    assert (Hge : (FAILED_RECLAIM_AFTER ≤ nd_fail_count (stopping reason 3 n))%N)
      by (unfold FAILED_RECLAIM_AFTER, u32_max in *; lia).
    apply stopping_halted; [done|done|]. simpl in *. revert Hge. generalize (apply_node_stop reason (apply_node_stop reason n).2).2.
    intros m. unfold apply_node_stop. rewrite Hb. simpl. by destruct (FAILED_RECLAIM_AFTER <=? _)%N eqn:E; [|apply N.leb_gt in E; simpl; lia].
Qed.

(** ** Progress *)

(** A graph whose dependencies are nodes of the graph and run downhill along
    some ranking never gets stuck: while a node is still pending and every
    other one is pending or verified, the ready frontier offers a node, and it
    offers only pending nodes all of whose dependencies are verified. *)
Theorem acyclic_graph_never_stuck d (rank : string → nat) :
  (∀ n dep, n ∈ dg_nodes d → dep ∈ nd_depends_on n →
     (rank dep < rank (nd_id n))%nat ∧ ∃ m, m ∈ dg_nodes d ∧ nd_id m = dep) →
  (∀ n, n ∈ dg_nodes d → nd_status n = NsPending ∨ nd_status n = NsVerified) →
  (∃ n, n ∈ dg_nodes d ∧ nd_status n = NsPending) →
  ready_frontier d ≠ [] ∧
  ∀ n, n ∈ ready_frontier d → n ∈ dg_nodes d ∧ nd_status n = NsPending ∧
    ∀ dep, dep ∈ nd_depends_on n → verified_in d dep.
Proof.
  intros Hrank Hst (n0 & Hn0 & Hp0).
  assert (Hfr : ∀ n, n ∈ ready_frontier d ↔ n ∈ dg_nodes d ∧ nd_status n = NsPending ∧
    ∀ dep, dep ∈ nd_depends_on n → verified_in d dep).
  { intros n. unfold ready_frontier. rewrite list_elem_of_In, !filter_In, <- list_elem_of_In, bool_decide_eq_true, forallb_forall.
    split.
    - intros [[Hin Hp] Hdeps]. split_and!; [done..|]. intros dep Hd. apply list_elem_of_In, Hdeps in Hd.
      apply existsb_exists in Hd as (m & Hm & Hb). bool_hyps. exists m. split_and!; [by apply list_elem_of_In|done..].
    - intros (Hin & Hp & Hdeps). split; [done|]. intros dep Hd. apply list_elem_of_In, Hdeps in Hd as (m & Hm & Hi & Hv).
      apply existsb_exists. exists m. split; [by apply list_elem_of_In|]. by rewrite Hi, String.eqb_refl, Hv. }
  split; [|intros n; apply Hfr].
  assert (Hmin : ∀ k n, (rank (nd_id n) < k)%nat → n ∈ dg_nodes d → nd_status n = NsPending → ready_frontier d ≠ []).
  { induction k as [|k IH]; intros n Hk Hin Hp; [lia|].
    destruct (decide (Forall (λ dep, Exists (λ m, nd_id m = dep ∧ is_verified m = true) (dg_nodes d)) (nd_depends_on n))) as [Hall|Hno].
    - assert (n ∈ ready_frontier d) as Hn; [|by intros E; rewrite E in Hn; apply not_elem_of_nil in Hn].
      apply Hfr. split_and!; [done..|]. intros dep Hd. rewrite Forall_forall in Hall.
      apply Hall, Exists_exists in Hd as (m & Hm & Hi & Hv). by exists m.
    - apply not_Forall_Exists, Exists_exists in Hno as (dep & Hd & Hno); [|apply _].
      destruct (Hrank n dep Hin Hd) as [Hlt (m & Hm & Hi)].
      destruct (Hst m Hm) as [Hpm|Hvm]; [by apply (IH m); [rewrite Hi; lia|..]|].
      destruct Hno. apply Exists_exists. exists m. split_and!; [done|done|]. unfold is_verified. by apply bool_decide_eq_true. }
  by apply (Hmin (S (rank (nd_id n0))) n0); [lia|..].
Qed.

(** ** Promotion *)

(** Only a fully verified graph becomes a skill: a draft is made exactly of a
    graph with at least one node, all of them verified and with postconditions,
    under a described name of 1 to 64 characters that neither starts nor ends
    with a dash, and it lists every node and every postcondition. *)
Theorem skill_only_from_verified d name description draft :
  cua_skill_from_verified d name description = Ok draft →
  dg_nodes d ≠ [] ∧ Forall (λ n, is_verified n = true ∧ nd_postconditions n ≠ []) (dg_nodes d) ∧
  sk_node_ids draft = nd_id <$> dg_nodes d ∧
  (∀ n p, n ∈ dg_nodes d → p ∈ nd_postconditions n → p ∈ sk_postconditions draft) ∧
  sk_name draft ≠ "" ∧ (String.length (sk_name draft) ≤ 64)%nat ∧ not_blank description = true ∧
  sk_name draft = slug_of name.
Proof.
  unfold cua_skill_from_verified. destruct (is_empty (slug_of name)) eqn:Hs1; [done|]. simpl.
  destruct (64 <? _)%nat eqn:Hs2; [done|]. destruct (not_blank description) eqn:Hd; [|done]. simpl.
  case_bool_decide as Hne; [done|]. destruct (existsb _ _) eqn:Hv; [done|].
  destruct (List.find _ _) as [|] eqn:Hl; [done|]. intros [= <-]. simpl. apply Nat.ltb_ge in Hs2.
  split_and!; try done.
  - apply Forall_forall. intros n Hn. apply list_elem_of_In in Hn as Hn'. split.
    + destruct (is_verified n) eqn:E; [done|]. enough (false = true) by done. rewrite <- Hv. apply existsb_exists. exists n. by rewrite E.
    + eapply find_none in Hl; [|exact Hn']. unfold node_contract_legal in Hl.
      by destruct (bool_decide_reflect (nd_postconditions n = [])).
  - intros n p Hn Hp. apply list_elem_of_In, in_flat_map. exists n. by rewrite <- !list_elem_of_In.
  - by intros E; rewrite E in Hs1.
Qed.

(** ** Witnesses and findings *)

Definition refusing_codec : NodeCodec := {| node_of_value _ := Err "not a node" |}.
#[local] Existing Instance refusing_codec.

Definition calm_io : CuaIo := {| io_dag := Ok tt; io_log := Ok tt |}.
Definition one_file : Disk := {| disk_file p := if String.eqb p "/out" then Some "done" else None; disk_utf8 _ := true |}.

Definition mk_node (id : string) (deps : list string) (s : CuaNodeStatus) : CuaNode :=
  {| nd_id := id; nd_name := id; nd_info := ""; nd_depends_on := deps; nd_status := s; nd_last_action := None;
     nd_screenshot_ref := None; nd_identical_fail_count := 0; nd_fail_count := 0; nd_preconditions := [];
     nd_postconditions := ["holds"]; nd_timeout_s := 0; nd_retry := 0; nd_brief := None; nd_fabric := None |}.
Definition two_nodes : ComputerUseDag :=
  {| dg_run_id := "r"; dg_work_id := "w"; dg_nodes := [mk_node "a" [] NsPending; mk_node "b" ["a"] NsPending];
     dg_replan_seq := 0 |}.
Definition two_store : CuaStore := {| cu_dag := Some two_nodes; cu_log := [] |}.
Definition file_holds : MechanicalEvidence :=
  {| ev_kind := EvFileEquals; ev_path := Some "/out"; ev_expect := Some "done"; ev_exit_code := None; ev_text := None |}.

Definition cua_calls : list (CuaIo * cua_call) :=
  [(calm_io, CcStep "a" false); (calm_io, CcVerify one_file "a" true file_holds); (calm_io, CcStop "b" "permission")].

Lemma verified_by_evidence_only_witness : ∃ io c, (io, c) ∈ cua_calls ∧ evidence_for "a" c.
Proof.
  destruct (verified_by_evidence_only cua_calls two_store "a") as [(d & Hd & n & Hn & Hi & Hv)|[Hc|(io & d & Hc & _)]].
  - eexists. split; [vm_compute; reflexivity|]. eexists. split; [left|]. split; reflexivity.
  - exfalso. injection Hd as <-. simpl in Hn. apply elem_of_cons in Hn as [->|Hn]; [discriminate Hv|].
    apply list_elem_of_singleton in Hn as ->. discriminate Hv.
  - exact Hc.
  - exfalso. repeat (apply elem_of_cons in Hc as [[=]|Hc]). by apply elem_of_nil in Hc.
Defined.

Lemma failing_worker_halts_witness : nd_status (failing 2 (mk_node "a" [] NsPending)) = NsHalted.
Proof. apply (failing_worker_halts (mk_node "a" [] NsPending) 0 "crashed"). vm_compute. reflexivity. Defined.

Lemma acyclic_graph_never_stuck_witness : ready_frontier two_nodes ≠ [].
Proof.
  apply (acyclic_graph_never_stuck two_nodes (λ id, if String.eqb id "a" then 0 else 1)%nat).
  - intros n dep Hn Hd. simpl in Hn. apply elem_of_cons in Hn as [->|Hn]; [by apply not_elem_of_nil in Hd|].
    apply list_elem_of_singleton in Hn as ->. simpl in Hd. apply list_elem_of_singleton in Hd as ->.
    split; [simpl; lia|]. eexists. split; [left|reflexivity].
  - intros n Hn. left. simpl in Hn. apply elem_of_cons in Hn as [->|Hn]; [reflexivity|].
    apply list_elem_of_singleton in Hn as ->. reflexivity.
  - eexists. split; [left|reflexivity].
Defined.

Definition verified_pair : ComputerUseDag :=
  {| dg_run_id := "r"; dg_work_id := "w"; dg_nodes := [mk_node "a" [] NsVerified; mk_node "b" ["a"] NsVerified];
     dg_replan_seq := 0 |}.

Lemma skill_only_from_verified_witness : Forall (λ n, is_verified n = true ∧ nd_postconditions n ≠ []) (dg_nodes verified_pair).
Proof.
  destruct (cua_skill_from_verified verified_pair " Fill-In form!" "fills it") as [draft|] eqn:E;
    [|vm_compute in E; discriminate E].
  apply (skill_only_from_verified verified_pair " Fill-In form!" "fills it" draft E).
Defined.

Example slug_is_trimmed : slug_of " Fill-In form!" = "fill-in-form".
Proof. vm_compute. reflexivity. Qed.

(** [execution/cua_persist] stores the statuses it is given: a graph whose nodes
    claim to be verified is promoted to a skill without a single check. *)
Example persisted_claim_is_promoted :
  match cu_dag (cua_persist calm_io verified_pair {| cu_dag := None; cu_log := [] |}).2 with
  | Some d => is_ok (cua_skill_from_verified d "skill" "from a claim")
  | None => false
  end = true.
Proof. vm_compute. reflexivity. Qed.

(** A later failing step takes a verified node back. *)
Example verified_node_is_taken_back :
  nd_status (apply_delegation_act false (mk_node "a" [] NsVerified)).2 = NsRunning.
Proof. vm_compute. reflexivity. Qed.

(** A replan may propose the id of a verified node; the calls then find the
    verified one and the proposal can be neither edited nor stepped. *)
Example replan_may_repeat_an_id :
  match apply_manager_replan [mk_node "a" [] NsPending] verified_pair with
  | Ok (_, d) => apply_remaining_edit "a" (Some "again") None d
  | Err e => Err e
  end = Err "verified nodes cannot be edited — replan remaining only".
Proof. vm_compute. reflexivity. Qed.
