(* ===== verification/Cron.v ===== *)
(** * Cron expressions, the civil calendar and the next firing of a trigger

    The time arithmetic of [everyaios-core/src/scheduler_service.rs]: parsing of
    a five-field expression, the civil date of a unix time, the match of a
    minute, the daily windows and [compute_next_run]. Unix times are [u64]
    seconds; the fields of an expression are [u8]s. *)
From S2P Require Import Order Prelude.

Definition u8_max : N := 255.
(** [as u8]. *)
Definition as_u8 (n : N) : N := n mod 256.
Definition u8_saturating_add (a b : N) : N := N.min (a + b) u8_max.
(** [str::parse::<u8>]. *)
Definition parse_u8 (s : string) : option N := parse_uint u8_max s.
(** [u64 as i64] and the wrapping [i64] sum. *)
Definition wrap_i64 (z : Z) : Z := ((z + 9223372036854775808) mod 18446744073709551616 - 9223372036854775808)%Z.

(** The [{:?}] of a [str]: quoted and escaped by the standard library's tables. *)
Class StrDebug := { str_debug : string → string }.

(** ** Splitting at white space *)

Definition strip_white (s : string) : option string :=
  match list_find (λ w, starts_with w s = true) white_space with
  | Some (_, w) => strip_prefix w s
  | None => None
  end.
Definition flush (cur : string) : list string := if is_empty cur then [] else [cur].
Fixpoint words_from (fuel : nat) (cur s : string) : list string :=
  match fuel, s with
  | S fuel', String c s' =>
      match strip_white s with
      | Some rest => flush cur ++ words_from fuel' "" rest
      | None => words_from fuel' (cur +:+ ch c) s'
      end
  | _, _ => flush cur
  end.
(** [str::split_whitespace]; each step takes a byte at least. *)
Definition split_whitespace (s : string) : list string := words_from (String.length s) "" s.

(** ** Fields *)

(* SRC core/src/scheduler_service.rs @struct:CronExpr CronExpr *)
Record CronExpr := {
  cx_minute : list N;
  cx_hour : list N;
  cx_dom : list N;
  cx_month : list N;
  cx_dow : list N;
  cx_source : string
}.

(** [min..=max]. *)
Definition range_inclusive (min max : N) : list N := (λ k, min + N.of_nat k)%N <$> seq 0 (N.to_nat (max + 1 - min)).

(** The loop that pushes [lo], [lo + step], ... while they are at most [hi]. The
    bounds of a field are below 255, where the saturating sum would stay; 256
    rounds are more than a [u8] has values. *)
Fixpoint push_steps (fuel : nat) (v hi step : N) : list N :=
  match fuel with
  | 0 => []
  | S fuel' => if (v <=? hi)%N then v :: push_steps fuel' (u8_saturating_add v step) hi step else []
  end.
Definition steps_between (lo hi step : N) : list N := push_steps 256 lo hi step.

(** [Vec::dedup]: equal neighbours collapse. *)
Fixpoint dedup_neighbours (l : list N) : list N :=
  match l with
  | x :: (y :: _) as l' => if (x =? y)%N then dedup_neighbours l' else x :: dedup_neighbours l'
  | _ => l
  end.
Definition sorted_distinct (l : list N) : list N := dedup_neighbours (sort_by N.leb l).

(** The range and the step one part of a field asks for. *)
Definition part_bounds (range : string) (min max : N) : result (N * N) string :=
  if String.eqb range "*" then Ok (min, max)
  else match split_once "-" range with
  | Some (a, b) =>
      match parse_u8 a, parse_u8 b with
      | Some lo, Some hi => Ok (lo, hi)
      | _, _ => Err ("bad range " +:+ range)
      end
  | None =>
      match parse_u8 range with
      | Some v => Ok (v, v)
      | None => Err ("bad value " +:+ range)
      end
  end.
Definition part_step (part : string) : result (string * N) string :=
  match split_once "/" part with
  | Some (r, s) => match parse_u8 s with Some step => Ok (r, step) | None => Err ("bad step " +:+ s) end
  | None => Ok (part, 1%N)
  end.
Definition part_values (field : string) (min max : N) (part : string) : result (list N) string :=
  rs <-? part_step part;;
  if (rs.2 =? 0)%N then Err ("step cannot be 0 in " +:+ field)
  else
    b <-? part_bounds rs.1 min max;;
    if ((b.1 <? min) || (max <? b.2) || (b.2 <? b.1))%N then Err ("value out of range in " +:+ field)
    else Ok (steps_between b.1 b.2 rs.2).
Fixpoint parts_values (field : string) (min max : N) (parts : list string) : result (list N) string :=
  match parts with
  | [] => Ok []
  | p :: ps =>
      l <-? part_values field min max p;;
      rest <-? parts_values field min max ps;;
      Ok (l ++ rest)
  end.

(* SRC core/src/scheduler_service.rs @fn:parse_field parse_field *)
Definition parse_field (field : string) (min max : N) : result (list N) string :=
  if String.eqb field "*" then Ok (range_inclusive min max)
  else
    out <-? parts_values field min max (split "," field);;
    Ok (sorted_distinct out).

Section cron.
Context `{StrDebug}.

(* SRC core/src/scheduler_service.rs @fn:parse#1 CronExpr::parse *)
Definition cron_parse (source : string) : result CronExpr string :=
  match split_whitespace source with
  | [mi; ho; dm; mo; dw] =>
      minute <-? parse_field mi 0 59;;
      hour <-? parse_field ho 0 23;;
      dom <-? parse_field dm 1 31;;
      month <-? parse_field mo 1 12;;
      dow <-? parse_field dw 0 6;;
      Ok {| cx_minute := minute; cx_hour := hour; cx_dom := dom; cx_month := month; cx_dow := dow;
            cx_source := source |}
  | parts => Err ("cron needs 5 fields, got " +:+ pretty (N.of_nat (length parts)) +:+ ": " +:+ str_debug source)
  end.
End cron.

(** ** The calendar *)

(* SRC core/src/scheduler_service.rs @fn:civil_parts civil_parts *)
Definition civil_parts (unix_secs : N) : N * N * N * N * N :=
  let days := Z.of_N (unix_secs / 86400) in
  let secs_of_day := (unix_secs mod 86400)%N in
  let z := (days + 719468)%Z in
  let era := (Z.quot (if 0 <=? z then z else z - 146096) 146097)%Z in
  let doe := Z.to_N (z - era * 146097) in
  let yoe := ((doe - doe / 1460 + doe / 36524 - doe / 146096) / 365)%N in
  let doy := (doe - (365 * yoe + yoe / 4 - yoe / 100))%N in
  let mp := ((5 * doy + 2) / 153)%N in
  let d := as_u8 (doy - (153 * mp + 2) / 5 + 1) in
  let m := as_u8 (if mp <? 10 then mp + 3 else mp - 9)%N in
  let weekday := (Z.rem (Z.rem (days + 4) 7 + 7) 7)%Z in
  (as_u8 (secs_of_day / 60 mod 60), as_u8 (secs_of_day / 3600), d, m, as_u8 (Z.to_N weekday)).

Definition contains_u8 (l : list N) (v : N) : bool := existsb (N.eqb v) l.

(* SRC core/src/scheduler_service.rs @fn:matches CronExpr::matches *)
Definition cron_matches (c : CronExpr) (unix_secs : N) : bool :=
  let '(min, hour, dom, month, dow) := civil_parts unix_secs in
  if negb (contains_u8 (cx_minute c) min) || negb (contains_u8 (cx_hour c) hour) then false
  else if negb (contains_u8 (cx_month c) month) then false
  else
    let dom_restricted := negb (bool_decide (cx_dom c = range_inclusive 1 31)) in
    let dow_restricted := negb (bool_decide (cx_dow c = range_inclusive 0 6)) in
    if dom_restricted && dow_restricted then contains_u8 (cx_dom c) dom || contains_u8 (cx_dow c) dow
    else contains_u8 (cx_dom c) dom && contains_u8 (cx_dow c) dow.

(** ** Triggers *)

(* SRC core/src/scheduler_service.rs @enum:EventKind EventKind *)
Inductive EventKind := CiBuildFail | TestRegression | RepoChange | TicketAssign | TelemetryThreshold.
#[export] Instance event_kind_eq_dec : EqDecision EventKind.
Proof. solve_decision. Defined.

(* SRC core/src/scheduler_service.rs @enum:DayWindow DayWindow *)
Inductive DayWindow := Morning | Afternoon | Evening.
#[export] Instance day_window_eq_dec : EqDecision DayWindow.
Proof. solve_decision. Defined.

(* SRC core/src/scheduler_service.rs @fn:start_hour DayWindow::start_hour *)
Definition start_hour (w : DayWindow) : N :=
  match w with Morning => 6 | Afternoon => 12 | Evening => 18 end.

(** The offset of a window is an [i32]. *)
(* SRC core/src/scheduler_service.rs @enum:TriggerSpec TriggerSpec *)
Inductive TriggerSpec :=
  | TsCron (expr : string)
  | TsInterval (secs : N)
  | TsEvent (kind : EventKind) (filter : string)
  | TsWebhook (path : string) (schema : list string)
  | TsManual
  | TsWindow (window : DayWindow) (utc_offset_minutes : Z).
#[export] Instance trigger_spec_eq_dec : EqDecision TriggerSpec.
Proof. solve_decision. Defined.

(* SRC core/src/scheduler_service.rs @fn:next_window_unix next_window_unix *)
Definition next_window_unix (now : N) (window : DayWindow) (utc_offset_minutes : Z) : N :=
  let offset := (utc_offset_minutes * 60)%Z in
  let local := wrap_i64 (wrap_i64 (Z.of_N now) + offset) in
  let local := if (local <? 0)%Z then 0%N else Z.to_N local in
  let day := (local / 86400)%N in
  let start_today := (day * 86400 + start_hour window * 3600)%N in
  let start_local := (if local <? start_today then start_today else start_today + 86400)%N in
  let utc := wrap_i64 (wrap_i64 (Z.of_N start_local) - offset) in
  if (utc <? 0)%Z then 0%N else Z.to_N utc.

(** [p] minutes from [t] on, stopping at the first match; otherwise the minute
    after the last one looked at. *)
Fixpoint scan_minutes (p : positive) (c : CronExpr) (t : N) : N + N :=
  match p with
  | xH => if cron_matches c t then inl t else inr (u64_add t 60)
  | xO q =>
      match scan_minutes q c t with
      | inl r => inl r
      | inr t' => scan_minutes q c t'
      end
  | xI q =>
      if cron_matches c t then inl t
      else match scan_minutes q c (u64_add t 60) with
      | inl r => inl r
      | inr t' => scan_minutes q c t'
      end
  end.
(** The minutes of 366 days. *)
Definition SCAN_MINUTES : positive := 527040.

(* SRC core/src/scheduler_service.rs @fn:compute_next_run compute_next_run *)
Definition compute_next_run `{StrDebug} (trigger : TriggerSpec) (now : N) (current : option N) : option N :=
  match trigger with
  | TsCron expr =>
      match cron_parse expr with
      | Ok c =>
          match scan_minutes SCAN_MINUTES c (u64_saturating_add (now - now mod 60) 60) with
          | inl t => Some t
          | inr _ => None
          end
      | Err _ => current
      end
  | TsInterval secs => Some (u64_saturating_add now secs)
  | TsWindow window utc_offset_minutes => Some (next_window_unix now window utc_offset_minutes)
  | TsEvent _ _ | TsWebhook _ _ | TsManual => None
  end.
