(* ===== verification/CronFacts.v ===== *)
(** * The calendar is Gregorian, a field is what it denotes, and the next
    firing is the first one

    A reference calendar that counts days one by one, the values a cron field
    denotes, and what [compute_next_run] answers, with the schedules it gives up
    on. *)
From S2P Require Import Order Prelude.
From S2P Require Import Cron.

(** ** A calendar that counts *)

Record Date := { dt_year : N; dt_month : N; dt_day : N }.

Definition leap_year (y : N) : bool :=
  ((y mod 4 =? 0) && negb (y mod 100 =? 0) || (y mod 400 =? 0))%N.
Definition days_in_month (y m : N) : N :=
  if (m =? 2)%N then (if leap_year y then 29 else 28)
  else if existsb (N.eqb m) [4; 6; 9; 11]%N then 30 else 31.
Definition next_day (d : Date) : Date :=
  if (dt_day d <? days_in_month (dt_year d) (dt_month d))%N then
    {| dt_year := dt_year d; dt_month := dt_month d; dt_day := dt_day d + 1 |}
  else if (dt_month d <? 12)%N then {| dt_year := dt_year d; dt_month := dt_month d + 1; dt_day := 1 |}
  else {| dt_year := dt_year d + 1; dt_month := 1; dt_day := 1 |}.
Definition epoch : Date := {| dt_year := 1970; dt_month := 1; dt_day := 1 |}.
(** The date so many days after the first of January 1970. *)
Definition date_after (days : N) : Date := N.iter days next_day epoch.

(** The algorithm's date with its year: for a day of a year that begins in March,
    for a day of an era of 400 years, and for a day count. *)
Definition year_date (y doy : N) : Date :=
  let mp := ((5 * doy + 2) / 153)%N in
  let m := (if mp <? 10 then mp + 3 else mp - 9)%N in
  {| dt_year := y + (if m <=? 2 then 1 else 0); dt_month := m; dt_day := doy - (153 * mp + 2) / 5 + 1 |}%N.
Definition year_start (y : N) : N := (365 * y + y / 4 - y / 100)%N.
Definition era_days (doe : N) : N := (doe - doe / 1460 + doe / 36524 - doe / 146096)%N.
Definition era_year (doe : N) : N := (era_days doe / 365)%N.
Definition era_date (doe : N) : Date := year_date (era_year doe) (doe - year_start (era_year doe)).
Definition shift_era (e : N) (d : Date) : Date :=
  {| dt_year := 400 * e + dt_year d; dt_month := dt_month d; dt_day := dt_day d |}.
Definition civil_date (days : N) : Date :=
  shift_era ((days + 719468) / 146097) (era_date ((days + 719468) mod 146097)).

Definition date_eqb (a b : Date) : bool :=
  ((dt_year a =? dt_year b) && (dt_month a =? dt_month b) && (dt_day a =? dt_day b))%N.
Lemma date_eqb_eq a b : date_eqb a b = true → a = b.
Proof. destruct a, b. unfold date_eqb. simpl. intros. bool_hyps. by subst. Qed.

(** *** A year that begins in March *)

(** [next_day] with the leap year given. *)
Definition next_in (leap : bool) (d : Date) : Date :=
  let len := if (dt_month d =? 2)%N then (if leap then 29 else 28)%N
             else if existsb (N.eqb (dt_month d)) [4; 6; 9; 11]%N then 30%N else 31%N in
  if (dt_day d <? len)%N then {| dt_year := dt_year d; dt_month := dt_month d; dt_day := dt_day d + 1 |}
  else if (dt_month d <? 12)%N then {| dt_year := dt_year d; dt_month := dt_month d + 1; dt_day := 1 |}
  else {| dt_year := dt_year d + 1; dt_month := 1; dt_day := 1 |}.
Definition in_year (y : N) (d : Date) : Date :=
  {| dt_year := y + dt_year d; dt_month := dt_month d; dt_day := dt_day d |}.
Definition year_length (leap : bool) : N := if leap then 366 else 365.

Lemma year_date_in y doy : year_date y doy = in_year y (year_date 0 doy).
Proof. done. Qed.

Lemma next_in_year leap y d : next_in leap (in_year y d) = in_year y (next_in leap d).
Proof.
  unfold next_in, in_year. simpl. destruct (dt_day d <? _)%N; [done|]. destruct (dt_month d <? 12)%N; [done|].
  simpl. by rewrite N.add_assoc.
Qed.

Lemma next_day_in y doy : next_day (year_date y doy) = next_in (leap_year (y + 1)) (year_date y doy).
Proof.
  unfold next_day, next_in, days_in_month, year_date. cbn [dt_year dt_month dt_day].
  set (m := (if (5 * doy + 2) / 153 <? 10 then (5 * doy + 2) / 153 + 3 else (5 * doy + 2) / 153 - 9)%N).
  by destruct (N.eqb_spec m 2) as [->|].
Qed.

Lemma year_steps_check leap : all_below (year_length leap - 1)
  (λ doy, date_eqb (next_in leap (year_date 0 doy)) (year_date 0 (doy + 1))) = true ∧
  next_in leap (year_date 0 (year_length leap - 1)) = year_date 1 0.
Proof. destruct leap; split; vm_compute; reflexivity. Qed.

Lemma year_steps y doy : (doy < year_length (leap_year (y + 1)))%N →
  next_day (year_date y doy) =
  if (doy + 1 <? year_length (leap_year (y + 1)))%N then year_date y (doy + 1) else year_date (y + 1) 0.
Proof.
  intros H. rewrite next_day_in, year_date_in, next_in_year.
  destruct (year_steps_check (leap_year (y + 1))) as [Hin Hlast].
  destruct (N.ltb_spec (doy + 1) (year_length (leap_year (y + 1)))) as [Hlt|Hge].
  - rewrite (year_date_in y (doy + 1)). f_equal. apply date_eqb_eq.
    apply (all_below_spec _ _ Hin). lia.
  - replace doy with (year_length (leap_year (y + 1)) - 1)%N by lia. rewrite Hlast.
    unfold in_year, year_date. cbn. f_equal. lia.
Qed.

(** *** An era of 400 years *)

Definition era_bound (y : N) : N := if (y =? 400)%N then 146097 else year_start y.

Lemma era_years_check : all_below 400 (λ y,
  (era_days (year_start y) / 365 =? y) && (era_days (era_bound (y + 1) - 1) / 365 =? y) &&
  (era_bound (y + 1) =? year_start y + year_length (leap_year (y + 1))))%N = true.
Proof. vm_compute. reflexivity. Qed.

(** How a quotient moves in one step. *)
Lemma div_succ n d : (0 < d)%N →
  ((n + 1) / d = n / d ∨ ((n + 1) / d = n / d + 1 ∧ n + 1 = d * ((n + 1) / d)))%N.
Proof.
  intros Hd. pose proof (N.div_mod n d ltac:(lia)). pose proof (N.mod_lt n d ltac:(lia)).
  destruct (decide (n mod d + 1 < d)%N).
  - left. symmetry. apply (N.div_unique _ _ _ (n mod d + 1)); lia.
  - right. assert ((n + 1) / d = n / d + 1)%N as ->; [|lia].
    symmetry. apply (N.div_unique _ _ _ 0); lia.
Qed.

Lemma era_days_mono a b : (a ≤ b)%N → (era_days a ≤ era_days b)%N.
Proof.
  intros Hab. replace b with (a + (b - a))%N by lia. generalize (b - a)%N as k. clear.
  intros k. induction k as [|k IH] using N.peano_ind; [by rewrite N.add_0_r|].
  etransitivity; [exact IH|]. rewrite N.add_succ_r, <- N.add_1_r. generalize (a + k)%N as n. clear. intros n.
  unfold era_days.
  pose proof (N.Div0.div_le_upper_bound n 1460 n ltac:(lia)).
  assert (Hq : (n / 146096 = n / 36524 / 4)%N) by by rewrite N.Div0.div_div.
  assert (Hq' : ((n + 1) / 146096 = (n + 1) / 36524 / 4)%N) by by rewrite N.Div0.div_div.
  rewrite Hq, Hq'. pose proof (N.div_mod (n / 36524) 4 ltac:(done)). pose proof (N.mod_lt (n / 36524) 4 ltac:(done)).
  destruct (div_succ n 1460) as [->|[-> _]]; [done| |];
    (destruct (div_succ n 36524) as [->|[-> _]]; [done|lia|]);
    (destruct (div_succ (n / 36524) 4) as [->|[-> _]]; [done|lia|lia]).
Qed.

Lemma era_year_exists doe n : (doe < era_bound n → n ≤ 400 →
  ∃ y, y < n ∧ year_start y ≤ doe < era_bound (y + 1))%N.
Proof.
  induction n as [|n IH] using N.peano_ind; intros Hd Hn; [change (doe < 0)%N in Hd; lia|].
  destruct (decide (doe < year_start n)%N) as [Hlt|Hge].
  - destruct IH as (y & Hy & Hb); [|lia|exists y; split; [lia|done]].
    unfold era_bound. destruct (N.eqb_spec n 400); [lia|done].
  - exists n. rewrite N.add_1_r. split; [lia|]. lia.
Qed.

Lemma era_year_spec doe : (doe < 146097 →
  era_year doe < 400 ∧ year_start (era_year doe) ≤ doe ∧
  era_bound (era_year doe + 1) = year_start (era_year doe) + year_length (leap_year (era_year doe + 1)) ∧
  doe < era_bound (era_year doe + 1))%N.
Proof.
  intros Hd. destruct (era_year_exists doe 400) as (y & Hy & Hs & Hb); [done|done|].
  assert (Hc : era_year doe = y ∧ era_bound (y + 1) = (year_start y + year_length (leap_year (y + 1)))%N).
  { pose proof (all_below_spec _ _ era_years_check y Hy) as Hc. cbv beta in Hc. bool_hyps. split; [|done].
    unfold era_year. pose proof (era_days_mono _ _ Hs). pose proof (era_days_mono doe (era_bound (y + 1) - 1) ltac:(lia)).
    apply N.le_antisymm.
    - etransitivity; [by apply (N.Div0.div_le_mono _ (era_days (era_bound (y + 1) - 1)))|]. lia.
    - etransitivity; [|by apply (N.Div0.div_le_mono (era_days (year_start y)))]. lia. }
  destruct Hc as [-> Hc]. by split_and!.
Qed.

Lemma era_steps doe : (doe < 146096)%N → next_day (era_date doe) = era_date (doe + 1).
Proof.
  intros H. destruct (era_year_spec doe ltac:(lia)) as (Hy & Hs & Hb & Hlt).
  destruct (era_year_spec (doe + 1) ltac:(lia)) as (Hy' & Hs' & Hb' & Hlt').
  unfold era_date. rewrite year_steps by lia. set (y := era_year doe) in *. set (y' := era_year (doe + 1)) in *.
  assert (Hmono : (y ≤ y')%N) by (apply N.Div0.div_le_mono, era_days_mono; lia). clearbody y y'.
  assert (Hnext : ∀ z, (z < 400)%N → (z + 1 < 400)%N → era_bound (z + 1) = year_start (z + 1)).
  { intros z _ Hz. unfold era_bound. by destruct (N.eqb_spec (z + 1) 400); [lia|]. }
  assert (Hup : ∀ a b, (a ≤ b)%N → (year_start a ≤ year_start b)%N).
  { clear. intros a b Hab. unfold year_start.
    replace b with (a + (b - a))%N by lia. generalize (b - a)%N as k. clear. intros k.
    induction k as [|k IH] using N.peano_ind; [by rewrite N.add_0_r|]. etransitivity; [exact IH|].
    rewrite N.add_succ_r, <- N.add_1_r. pose proof (N.Div0.div_le_mono (a + k) (a + k + 1) 4 ltac:(lia)).
    pose proof (N.Div0.div_le_upper_bound (a + k) 100 (a + k) ltac:(lia)).
    destruct (div_succ (a + k) 100) as [->|[-> _]]; [done|lia|lia]. }
  destruct (N.ltb_spec (doe - year_start y + 1) (year_length (leap_year (y + 1)))) as [Hin|Hout].
  - assert (y' = y) as ->; [|f_equal; lia].
    destruct (decide (y' = y)) as [|Hne]; [done|]. pose proof (Hup (y + 1)%N y' ltac:(lia)).
    rewrite (Hnext y) in Hb, Hlt by lia. lia.
  - assert (y' = y + 1)%N as ->; [|f_equal].
    + destruct (decide (y' = y)) as [E|Hne]; [rewrite E in *; lia|].
      destruct (decide (y' = y + 1)%N) as [|Hne2]; [done|]. exfalso.
      pose proof (Hup (y + 2)%N y' ltac:(lia)). rewrite (Hnext y) in Hb, Hlt by lia.
      assert (year_start (y + 1) < year_start (y + 2))%N; [|lia].
      pose proof (all_below_spec _ _ era_years_check (y + 1)%N ltac:(lia)) as Hc. cbv beta in Hc. bool_hyps.
      rewrite (Hnext (y + 1)%N) in * by lia. replace (y + 1 + 1)%N with (y + 2)%N in * by lia.
      destruct (leap_year (y + 2)); unfold year_length in *; lia.
    + destruct (decide (y + 1 = 400)%N); [lia|]. rewrite (Hnext y) in Hb, Hlt by lia. lia.
Qed.

Lemma era_wraps : next_day (era_date 146096) = shift_era 1 (era_date 0).
Proof. vm_compute. reflexivity. Qed.

Lemma leap_year_shift e y : leap_year (400 * e + y) = leap_year y.
Proof.
  unfold leap_year.
  rewrite (N.add_comm (400 * e)), !(N.mul_comm 400). f_equal; [f_equal; [|f_equal]|]; f_equal.
  - replace (e * 400)%N with (e * 100 * 4)%N by lia. by rewrite N.Div0.mod_add.
  - replace (e * 400)%N with (e * 4 * 100)%N by lia. by rewrite N.Div0.mod_add.
  - by rewrite N.Div0.mod_add.
Qed.

Lemma next_day_shift e d : next_day (shift_era e d) = shift_era e (next_day d).
Proof.
  unfold next_day, shift_era, days_in_month. simpl. rewrite leap_year_shift.
  destruct (dt_day d <? _)%N; [done|]. destruct (dt_month d <? 12)%N; [done|]. simpl.
  by rewrite N.add_assoc.
Qed.

Lemma shift_era_add a b d : shift_era a (shift_era b d) = shift_era (a + b) d.
Proof. unfold shift_era. simpl. f_equal. lia. Qed.

Lemma civil_date_succ days : next_day (civil_date days) = civil_date (days + 1).
Proof.
  unfold civil_date. replace (days + 1 + 719468)%N with (days + 719468 + 1)%N by lia.
  generalize (days + 719468)%N as z. intros z. rewrite next_day_shift.
  pose proof (N.div_mod z 146097 ltac:(done)) as Hz. pose proof (N.mod_lt z 146097 ltac:(done)) as Hm.
  set (e := (z / 146097)%N) in *. set (r := (z mod 146097)%N) in *.
  destruct (decide (r = 146096)%N) as [Hr|Hr].
  - rewrite Hr, era_wraps, shift_era_add.
    rewrite <- (N.div_unique (z + 1) 146097 (e + 1) 0) by lia.
    by rewrite <- (N.mod_unique (z + 1) 146097 (e + 1) 0) by lia.
  - rewrite era_steps by lia.
    rewrite <- (N.div_unique (z + 1) 146097 e (r + 1)) by lia.
    by rewrite <- (N.mod_unique (z + 1) 146097 e (r + 1)) by lia.
Qed.

Lemma civil_date_is_date_after days : civil_date days = date_after days.
Proof.
  unfold date_after. induction days as [|days IH] using N.peano_ind; [vm_compute; reflexivity|].
  rewrite N.iter_succ, <- IH, civil_date_succ. by rewrite N.add_1_r.
Qed.

Lemma year_date_small_check : all_below 366 (λ doy,
  (dt_day (year_date 0 doy) <? 256) && (dt_month (year_date 0 doy) <? 256))%N = true.
Proof. vm_compute. reflexivity. Qed.
Lemma era_date_small doe : (doe < 146097)%N → (dt_day (era_date doe) < 256 ∧ dt_month (era_date doe) < 256)%N.
Proof.
  intros H. destruct (era_year_spec doe H) as (_ & _ & Hb & Hlt). unfold era_date. rewrite year_date_in. simpl.
  assert (Hd : (doe - year_start (era_year doe) < 366)%N).
  { destruct (leap_year (era_year doe + 1)); unfold year_length in *; lia. }
  pose proof (all_below_spec _ _ year_date_small_check _ Hd) as Hc. cbv beta in Hc. by bool_hyps.
Qed.

Lemma as_u8_small n : (n < 256)%N → as_u8 n = n.
Proof. apply N.mod_small. Qed.

(** The signed steps of the code, over day counts that are not negative. *)
Lemma era_of_days days :
  let z := (Z.of_N days + 719468)%Z in
  Z.to_N (z - Z.quot (if (0 <=? z)%Z then z else z - 146096) 146097 * 146097) = ((days + 719468) mod 146097)%N.
Proof.
  cbv zeta. assert (Hz : (0 <=? Z.of_N days + 719468)%Z = true) by (apply Z.leb_le; lia). rewrite Hz. cbv iota. rewrite Z.quot_div_nonneg by lia.
  replace (Z.of_N days + 719468)%Z with (Z.of_N (days + 719468)) by lia. rewrite <- (N2Z.inj_div _ 146097).
  pose proof (N.div_mod (days + 719468) 146097 ltac:(done)) as Hd. revert Hd.
  generalize ((days + 719468) / 146097)%N, ((days + 719468) mod 146097)%N. intros. lia.
Qed.

Lemma weekday_of_days days :
  as_u8 (Z.to_N (Z.rem (Z.rem (Z.of_N days + 4) 7 + 7) 7)) = ((days + 4) mod 7)%N.
Proof.
  pose proof (N.mod_lt (days + 4) 7 ltac:(done)) as Hlt.
  replace (Z.of_N days + 4)%Z with (Z.of_N (days + 4)) by lia. generalize dependent (days + 4)%N. clear. intros n Hlt.
  rewrite (Z.rem_mod_nonneg (Z.of_N n)) by lia. rewrite <- (N2Z.inj_mod _ 7), Z.rem_mod_nonneg by (pose proof (N2Z.is_nonneg (n mod 7)); lia).
  change 7%Z with (Z.of_N 7) at 1. rewrite <- N2Z.inj_add, <- (N2Z.inj_mod _ 7), N2Z.id.
  rewrite <- N.Div0.add_mod_idemp_r, N.Div0.mod_same, N.add_0_r, N.Div0.mod_mod. apply as_u8_small. lia.
Qed.

Lemma clock_of_secs t : ((t mod 86400) / 60 mod 60 = (t / 60) mod 60 ∧ (t mod 86400) / 3600 = (t / 3600) mod 24)%N.
Proof.
  split.
  - change 86400%N with (60 * 1440)%N. rewrite N.Div0.mod_mul_r, (N.mul_comm 60 (_ mod _)), N.div_add by done.
    rewrite (N.div_small (t mod 60)), N.add_0_l by by apply N.mod_lt.
    change 1440%N with (60 * 24)%N. by rewrite N.Div0.mod_mul_r, (N.mul_comm 60 (_ mod _)), N.Div0.mod_add, N.Div0.mod_mod.
  - change 86400%N with (3600 * 24)%N. rewrite N.Div0.mod_mul_r, (N.mul_comm 3600 (_ mod _)), N.div_add by done.
    by rewrite (N.div_small (t mod 3600)), N.add_0_l by by apply N.mod_lt.
Qed.

(** The fields of [civil_parts]. *)
Lemma civil_parts_date t :
  civil_parts t =
  ((t / 60) mod 60, (t / 3600) mod 24, dt_day (civil_date (t / 86400)), dt_month (civil_date (t / 86400)),
   (t / 86400 + 4) mod 7)%N.
Proof.
  unfold civil_parts. cbv zeta. rewrite era_of_days, weekday_of_days. destruct (clock_of_secs t) as [-> ->].
  destruct (era_date_small _ (N.mod_lt (t / 86400 + 719468) 146097 ltac:(done))) as [Hd Hm].
  unfold civil_date, shift_era. cbn [dt_day dt_month]. revert Hd Hm.
  generalize ((t / 86400 + 719468) mod 146097)%N. intros doe Hd Hm.
  unfold era_date, year_date, year_start, era_year, era_days in *. cbn [dt_day dt_month] in *.
  rewrite (as_u8_small ((t / 60) mod 60)) by (pose proof (N.mod_lt (t / 60) 60); lia).
  rewrite (as_u8_small ((t / 3600) mod 24)) by (pose proof (N.mod_lt (t / 3600) 24); lia).
  by rewrite (as_u8_small _ Hd), (as_u8_small _ Hm).
Qed.

(** The date of a unix time is the Gregorian one: minute and hour are those
    of the day, day and month those of the date that many days after the first
    of January 1970, counted one by one with the leap-year rule, and the weekday
    counts on from a Thursday. *)
Theorem civil_parts_is_gregorian t :
  civil_parts t =
  ((t / 60) mod 60, (t / 3600) mod 24, dt_day (date_after (t / 86400)), dt_month (date_after (t / 86400)),
   (t / 86400 + 4) mod 7)%N.
Proof. rewrite civil_parts_date, <- civil_date_is_date_after. done. Qed.

(** ** What a field denotes *)

(** A value one part of a field asks for: between the bounds of its range, a
    whole number of steps above the lower one. *)
Definition in_part (min max : N) (part : string) (v : N) : Prop :=
  ∃ range step lo hi, part_step part = Ok (range, step) ∧ part_bounds range min max = Ok (lo, hi) ∧
    (0 < step ∧ lo ≤ v ≤ hi ∧ (v - lo) mod step = 0)%N.
Definition denotes (field : string) (min max v : N) : Prop :=
  if String.eqb field "*" then (min ≤ v ≤ max)%N
  else Exists (λ part, in_part min max part v) (split "," field).

Lemma elem_of_range min max v : v ∈ range_inclusive min max ↔ (min ≤ v ≤ max)%N.
Proof.
  unfold range_inclusive. rewrite list_elem_of_fmap. split.
  - intros (k & -> & Hk). apply elem_of_seq in Hk. lia.
  - intros Hv. exists (N.to_nat (v - min)). split; [lia|]. apply elem_of_seq. lia.
Qed.

Lemma elem_of_push_steps fuel v hi step x :
  (hi < 255)%N → (0 < step)%N → (hi < v + N.of_nat fuel)%N →
  x ∈ push_steps fuel v hi step ↔ (v ≤ x ≤ hi ∧ (x - v) mod step = 0)%N.
Proof.
  intros Hhi Hs. revert v. induction fuel as [|fuel IH]; intros v Hf; simpl.
  - rewrite elem_of_nil. lia.
  - destruct (N.leb_spec v hi) as [Hle|Hgt]; [|rewrite elem_of_nil; lia].
    rewrite elem_of_cons. unfold u8_saturating_add, u8_max.
    destruct (decide (v + step ≤ hi)%N) as [Hn|Hn].
    + rewrite N.min_l, IH by lia. split.
      * intros [->|(Hx & Hm)]; [rewrite N.sub_diag, N.Div0.mod_0_l; lia|]. split; [lia|].
        replace (x - v)%N with (x - (v + step) + 1 * step)%N by lia. by rewrite N.Div0.mod_add.
      * intros (Hx & Hm). destruct (decide (x = v)) as [|Hne]; [by left|right].
        pose proof (N.div_mod (x - v) step ltac:(lia)) as Hd. rewrite Hm in Hd.
        assert (1 ≤ (x - v) / step)%N by (destruct (decide ((x - v) / step = 0)%N) as [E|]; [rewrite E in Hd|]; lia).
        assert (step ≤ x - v)%N by (rewrite Hd; nia). split; [lia|].
        rewrite <- (N.Div0.mod_add (x - (v + step)) 1 step).
        by replace (x - (v + step) + 1 * step)%N with (x - v)%N by lia.
    + assert (Hstop : push_steps fuel (N.min (v + step) 255) hi step = []).
      { destruct fuel; [done|]. simpl. destruct (N.leb_spec (N.min (v + step) 255) hi); [lia|done]. }
      rewrite Hstop, elem_of_nil. split; [intros [->|[]]; rewrite N.sub_diag, N.Div0.mod_0_l; lia|].
      intros (Hx & Hm). left. rewrite N.mod_small in Hm by lia. lia.
Qed.

Lemma part_values_ok field min max part l : (max < 255)%N → part_values field min max part = Ok l →
  ∀ v, v ∈ l ↔ in_part min max part v ∧ (min ≤ v ≤ max)%N.
Proof.
  intros Hmax. unfold part_values. destruct (part_step part) as [[range step]|] eqn:Hst; [|done]. cbn [rbind fst snd].
  destruct (N.eqb_spec step 0) as [|Hs]; [done|].
  destruct (part_bounds range min max) as [[lo hi]|] eqn:Hb; [|done]. cbn [rbind fst snd].
  destruct ((lo <? min) || (max <? hi) || (hi <? lo))%N eqn:Hr; [done|]. bool_hyps. intros [= <-] v.
  unfold steps_between. rewrite elem_of_push_steps by lia. split.
  - intros [Hv Hm]. split; [|lia]. exists range, step, lo, hi. split_and!; try done; lia.
  - intros [(range' & step' & lo' & hi' & E1 & E2 & _ & Hv & Hm) _]. rewrite Hst in E1. injection E1 as <- <-.
    rewrite Hb in E2. by injection E2 as <- <-.
Qed.

Lemma parts_values_ok field min max parts l : (max < 255)%N → parts_values field min max parts = Ok l →
  ∀ v, v ∈ l ↔ Exists (λ part, in_part min max part v) parts ∧ (min ≤ v ≤ max)%N.
Proof.
  intros Hmax. revert l. induction parts as [|p ps IH]; intros l; simpl.
  - intros [= <-] v. rewrite elem_of_nil, Exists_nil. tauto.
  - destruct (part_values field min max p) as [lp|] eqn:Hp; [|done]. simpl.
    destruct (parts_values field min max ps) as [lr|]; [|done]. simpl. intros [= <-] v.
    rewrite elem_of_app, Exists_cons, (IH _ eq_refl), (part_values_ok _ _ _ _ _ Hmax Hp). tauto.
Qed.

Lemma dedup_cons y z l : dedup_neighbours (y :: z :: l) =
  if (y =? z)%N then dedup_neighbours (z :: l) else y :: dedup_neighbours (z :: l).
Proof. done. Qed.

Lemma elem_of_dedup x l : x ∈ dedup_neighbours l ↔ x ∈ l.
Proof.
  induction l as [|y l IH]; [done|]. destruct l as [|z l]; [done|]. rewrite dedup_cons.
  destruct (N.eqb_spec y z) as [->|Hne]; [rewrite IH|rewrite elem_of_cons, IH]; rewrite !elem_of_cons; tauto.
Qed.

Lemma dedup_sorted l : Sorted (λ a b, N.leb a b = true) l → StronglySorted N.lt (dedup_neighbours l).
Proof.
  intros Hs. apply Sorted_StronglySorted in Hs; [|intros a b c; rewrite !N.leb_le; lia].
  induction Hs as [|y l Hs IH Hall]; [constructor|]. destruct l as [|z l]; [by repeat constructor|].
  rewrite dedup_cons. destruct (N.eqb_spec y z) as [->|Hne]; [done|]. constructor; [done|].
  apply Forall_forall. intros x Hx. rewrite elem_of_dedup in Hx. rewrite Forall_forall in Hall.
  pose proof (Hall z ltac:(left)) as Hyz. apply N.leb_le in Hyz.
  apply StronglySorted_inv in Hs as [_ Hz]. rewrite Forall_forall in Hz.
  apply elem_of_cons in Hx as [->|Hx]; [lia|]. pose proof (Hz x Hx) as Hzx. apply N.leb_le in Hzx. lia.
Qed.

(** A field denotes its text: what parses is the strictly ascending list of
    exactly the values some part of the text asks for, all within the bounds. *)
Theorem parsed_field_denotes field min max l :
  (max < 255)%N → parse_field field min max = Ok l →
  StronglySorted N.lt l ∧ ∀ v, v ∈ l ↔ denotes field min max v ∧ (min ≤ v ≤ max)%N.
Proof.
  intros Hmax. unfold parse_field, denotes. destruct (String.eqb field "*") eqn:Hf.
  - intros [= <-]. split; [|intros v; rewrite elem_of_range; tauto].
    unfold range_inclusive. generalize (N.to_nat (max + 1 - min)), 0%nat. intros n. induction n as [|n IH]; intros k; [constructor|].
    simpl. constructor; [apply IH|]. apply Forall_forall. intros x Hx.
    apply list_elem_of_fmap in Hx as (j & -> & Hj). apply elem_of_seq in Hj. lia.
  - destruct (parts_values _ _ _ _) as [out|] eqn:Hp; [|done]. simpl. intros [= <-]. split.
    + apply dedup_sorted, sort_by_sorted. intros a b. rewrite !N.leb_le. lia.
    + intros v. unfold sorted_distinct. rewrite elem_of_dedup, elem_of_sort_by. by apply (parts_values_ok _ _ _ _ _ Hmax Hp).
Qed.

(** ** The next firing *)

(** A scan of [n] minutes from [t]: the first match, or the minute after and no
    match. *)
Definition unmatched (c : CronExpr) (t n : N) : Prop := ∀ j, (j < n)%N → cron_matches c (t + 60 * j) = false.
Definition scan_ok (c : CronExpr) (t n : N) (res : N + N) : Prop :=
  match res with
  | inl r => ∃ i, (i < n ∧ r = t + 60 * i)%N ∧ cron_matches c r = true ∧ unmatched c t i
  | inr t' => t' = (t + 60 * n)%N ∧ unmatched c t n
  end.

Lemma unmatched_app c t a b : unmatched c t a → unmatched c (t + 60 * a) b → unmatched c t (a + b).
Proof.
  intros Ha Hb j Hj. destruct (decide (j < a)%N); [by apply Ha|].
  replace (t + 60 * j)%N with (t + 60 * a + 60 * (j - a))%N by lia. apply Hb. lia.
Qed.

Lemma scan_ok_then c t a b res1 f :
  scan_ok c t a res1 → (res1 = inr (t + 60 * a)%N → scan_ok c (t + 60 * a) b (f (t + 60 * a)%N)) →
  scan_ok c t (a + b) (match res1 with inl r => inl r | inr t' => f t' end).
Proof.
  intros H1 H2. destruct res1 as [r|t'].
  - destruct H1 as (i & [Hi ->] & Hr & Hno). exists i. split_and!; [lia|done|done|done].
  - destruct H1 as [-> Hno]. specialize (H2 eq_refl). destruct (f (t + 60 * a)%N) as [r|t2].
    + destruct H2 as (i & [Hi ->] & Hr & Hno2). exists (a + i)%N. split_and!; [lia|lia|done|by apply unmatched_app].
    + destruct H2 as [-> Hno2]. split; [lia|by apply unmatched_app].
Qed.

Lemma scan_ok_one c t : scan_ok c t 1 (if cron_matches c t then inl t else inr (t + 60)%N).
Proof.
  destruct (cron_matches c t) eqn:Hm; simpl; [exists 0%N; split_and!; [lia|lia|done|intros j Hj; lia]|].
  split; [lia|]. intros j Hj. replace (t + 60 * j)%N with t by lia. done.
Qed.

Lemma scan_minutes_ok p c t : (t + 60 * Npos p ≤ u64_max)%N → scan_ok c t (Npos p) (scan_minutes p c t).
Proof.
  revert t. induction p as [p IH|p IH|]; intros t Hb; cbn [scan_minutes].
  - replace (N.pos p~1) with (1 + (N.pos p + N.pos p))%N by lia. rewrite u64_add_small by lia.
    set (f := λ t1, match scan_minutes p c t1 with inl r => inl r | inr t' => scan_minutes p c t' end).
    assert (Hthen : scan_ok c t (1 + (N.pos p + N.pos p))
      (match (if cron_matches c t then inl t else inr (t + 60)%N) with inl r => inl r | inr t1 => f t1 end)).
    { apply scan_ok_then; [apply scan_ok_one|]. intros _. unfold f.
      apply scan_ok_then; [apply IH; lia|]. intros _. apply IH. lia. }
    by destruct (cron_matches c t).
  - replace (N.pos p~0) with (N.pos p + N.pos p)%N by lia.
    apply (scan_ok_then c t (N.pos p) (N.pos p)); [apply IH; lia|]. intros _. apply IH. lia.
  - rewrite u64_add_small by lia. apply scan_ok_one.
Qed.

Lemma quot_base n d : (0 < d)%N → ∃ q r, (n = d * q + r ∧ r < d ∧ n / d = q ∧ n mod d = r)%N.
Proof. intros Hd. exists (n / d)%N, (n mod d)%N. split_and!; try done; [apply N.div_mod|apply N.mod_lt]; lia. Qed.

Section next.
Context `{StrDebug}.

(** [C19] A cron trigger fires at the first matching minute: what is answered lies
    after now, on a minute, and matches, and no minute in between does; when
    nothing is answered, no minute of the 366 days after now matches. *)
Theorem cron_next_is_first expr c now current :
  cron_parse expr = Ok c → (now + 31622460 ≤ u64_max)%N →
  let minute_after t := (now < t ∧ t mod 60 = 0)%N in
  match compute_next_run (TsCron expr) now current with
  | Some t => minute_after t ∧ cron_matches c t = true ∧
      ∀ u, minute_after u → (u < t)%N → cron_matches c u = false
  | None => ∀ u, minute_after u → (u ≤ now + 31622400)%N → cron_matches c u = false
  end.
Proof.
  intros Hp Hb minute_after. unfold compute_next_run. rewrite Hp.
  destruct (quot_base now 60 ltac:(done)) as (q & r & Hd & Hm & _ & ->).
  unfold u64_saturating_add. rewrite N.min_l by lia. replace (now - r + 60)%N with (60 * (q + 1))%N by lia.
  assert (Hafter : ∀ u, minute_after u → ∃ j, (u = 60 * (q + 1) + 60 * j)%N).
  { intros u [Hu Hmod]. destruct (quot_base u 60 ltac:(done)) as (qu & ru & Hdu & _ & _ & Eu). rewrite Hmod in Eu. subst ru.
    exists (qu - (q + 1))%N. lia. }
  pose proof (scan_minutes_ok SCAN_MINUTES c (60 * (q + 1)) ltac:(unfold SCAN_MINUTES; lia)) as Hs.
  destruct (scan_minutes SCAN_MINUTES c (60 * (q + 1))) as [t|t'].
  - destruct Hs as (i & [Hi ->] & Hr & Hno). split_and!; [split|done|].
    + lia.
    + replace (60 * (q + 1) + 60 * i)%N with ((q + 1 + i) * 60)%N by lia. apply N.Div0.mod_mul.
    + intros u Hu Hlt. destruct (Hafter u Hu) as [j ->]. apply Hno. lia.
  - destruct Hs as [-> Hno]. intros u Hu Hle. destruct (Hafter u Hu) as [j ->]. apply Hno. unfold SCAN_MINUTES in *. lia.
Qed.

(** A daily window fires at its next start: the answer lies after now and at
    most a day ahead, and is the window's first hour on the local clock. *)
Theorem window_next_is_start now window offset :
  (now < 4611686018427387904)%N → (-2147483648 ≤ offset < 2147483648)%Z → (0 ≤ Z.of_N now + offset * 60)%Z →
  let t := next_window_unix now window offset in
  (now < t ≤ now + 86400)%N ∧
  ((Z.of_N t + offset * 60) mod 86400 = Z.of_N (start_hour window) * 3600)%Z.
Proof.
  intros Hn Ho Hl. cbv zeta. unfold next_window_unix, wrap_i64.
  assert (Hw : ∀ z, (-9223372036854775808 ≤ z < 9223372036854775808)%Z →
    ((z + 9223372036854775808) mod 18446744073709551616 - 9223372036854775808)%Z = z).
  { intros z Hz. rewrite Z.mod_small; lia. }
  rewrite (Hw (Z.of_N now)) by lia. rewrite (Hw (Z.of_N now + _)%Z) by lia.
  rewrite (proj2 (Z.ltb_ge (Z.of_N now + offset * 60) 0)) by lia.
  set (local := Z.to_N (Z.of_N now + offset * 60)).
  assert (Hloc : Z.of_N local = (Z.of_N now + offset * 60)%Z) by lia. clearbody local.
  destruct (quot_base local 86400 ltac:(done)) as (day & r & Hd & Hm & -> & _). assert (Hh : (start_hour window * 3600 < 86400)%N) by by destruct window.
  set (start := (start_hour window * 3600)%N) in *.
  assert (Hstart : ∃ k, ((if local <? day * 86400 + start then day * 86400 + start else day * 86400 + start + 86400) =
    k * 86400 + start ∧ local < k * 86400 + start ≤ local + 86400)%N).
  { destruct (N.ltb_spec local (day * 86400 + start)); [exists day|exists (day + 1)%N]; lia. }
  destruct Hstart as (k & -> & Hk).
  rewrite (Hw (Z.of_N (k * 86400 + start))) by lia. rewrite (Hw (_ - _)%Z) by lia.
  rewrite (proj2 (Z.ltb_ge (Z.of_N (k * 86400 + start) - offset * 60) 0)) by lia. split; [lia|].
  rewrite Z2N.id by lia. replace (Z.of_N (k * 86400 + start) - offset * 60 + offset * 60)%Z with
    (Z.of_N start + Z.of_N k * 86400)%Z by lia.
  rewrite Z.mod_add, Z.mod_small by lia. unfold start. lia.
Qed.

Lemma window_next_is_start_witness :
  next_window_unix 1750000000 Evening (-300) = 1750028400%N ∧ (1750000000 < 1750028400)%N.
Proof.
  split; [vm_compute; reflexivity|].
  apply (window_next_is_start 1750000000 Evening (-300)); vm_compute; split || discriminate || done; try discriminate; done.
Defined.

(** ** Findings *)

(** The scan ends after 366 days: on the first of March 2025 a trigger on the
    29th of February has no next run, and nothing computes one later. *)
Lemma no_match_on_other_dates c m d t :
  cx_month c = [m] → cx_dom c = [d] → cx_dow c = range_inclusive 0 6 →
  (dt_month (civil_date (t / 86400)), dt_day (civil_date (t / 86400))) ≠ (m, d) → cron_matches c t = false.
Proof.
  intros Hm Hd Hw Hne. unfold cron_matches. rewrite civil_parts_date, Hm, Hd, Hw. unfold contains_u8.
  destruct (negb _ || negb _); [done|]. cbn [existsb]. rewrite !orb_false_r.
  destruct (N.eqb_spec (dt_month (civil_date (t / 86400))) m) as [Em|]; [|done]. cbn [negb].
  rewrite (bool_decide_eq_true_2 (range_inclusive 0 6 = range_inclusive 0 6)) by done. cbn [negb]. rewrite andb_false_r.
  destruct (N.eqb_spec (dt_day (civil_date (t / 86400))) d) as [Ed|]; [|done]. destruct Hne. by rewrite Em, Ed.
Qed.

Definition leap_day_cron : CronExpr :=
  {| cx_minute := [0]; cx_hour := [0]; cx_dom := [29]; cx_month := [2]; cx_dow := range_inclusive 0 6;
     cx_source := "0 0 29 2 *" |}%N.

Lemma cron_gives_up expr c now : cron_parse expr = Ok c → (now + 31622460 ≤ u64_max)%N →
  (∀ u, (now < u ≤ now + 31622460)%N → cron_matches c u = false) → compute_next_run (TsCron expr) now None = None.
Proof.
  intros Hp Hb Hno. unfold compute_next_run. rewrite Hp. destruct (quot_base now 60 ltac:(done)) as (q & r & Hd & Hr & _ & ->).
  unfold u64_saturating_add. rewrite N.min_l by lia.
  pose proof (scan_minutes_ok SCAN_MINUTES c (now - r + 60) ltac:(unfold SCAN_MINUTES; lia)) as Hs.
  destruct (scan_minutes SCAN_MINUTES c (now - r + 60)) as [t|]; [|done]. exfalso.
  destruct Hs as (i & [Hi ->] & Hm & _). rewrite Hno in Hm; [done|]. unfold SCAN_MINUTES in Hi. lia.
Qed.

Lemma leap_days_after day : (20148 ≤ day < 20148 + 367)%N →
  (dt_month (civil_date day), dt_day (civil_date day)) ≠ (2, 29)%N.
Proof.
  intros Hd [H1 H2]%pair_equal_spec.
  assert (Hc : all_below 367 (λ k, negb ((dt_month (civil_date (20148 + k)) =? 2) && (dt_day (civil_date (20148 + k)) =? 29)))%N = true)
    by (vm_compute; reflexivity).
  pose proof (all_below_spec _ _ Hc (day - 20148)%N ltac:(lia)) as Hb. cbv beta in Hb.
  replace (20148 + (day - 20148))%N with day in Hb by lia. by rewrite H1, H2 in Hb.
Qed.

Lemma leap_day_is_never_scheduled :
  compute_next_run (TsCron "0 0 29 2 *") 1740787200 None = None ∧ cron_matches leap_day_cron 1835395200 = true.
Proof.
  split; [|vm_compute; reflexivity].
  apply (cron_gives_up _ leap_day_cron); [vm_compute; reflexivity|vm_compute; discriminate|]. intros u Hu.
  apply (no_match_on_other_dates leap_day_cron 2 29); try reflexivity. apply leap_days_after.
  destruct (quot_base u 86400 ltac:(done)) as (q & r & Hd & Hr & -> & _). lia.
Qed.
End next.

#[local] Instance literal_debug : StrDebug := {| str_debug s := s |}.
Lemma cron_next_is_first_witness :
  compute_next_run (TsCron "30 9 * * 1-5") 1750000000 None = Some 1750066200%N ∧
  ∀ u, (1750000000 < u ∧ u mod 60 = 0)%N → (u < 1750066200)%N →
    cron_matches {| cx_minute := [30]; cx_hour := [9]; cx_dom := range_inclusive 1 31;
      cx_month := range_inclusive 1 12; cx_dow := [1; 2; 3; 4; 5]; cx_source := "30 9 * * 1-5" |}%N u = false.
Proof.
  assert (E : compute_next_run (TsCron "30 9 * * 1-5") 1750000000 None = Some 1750066200%N) by (vm_compute; reflexivity).
  split; [exact E|].
  pose proof (cron_next_is_first "30 9 * * 1-5" {| cx_minute := [30]; cx_hour := [9]; cx_dom := range_inclusive 1 31;
      cx_month := range_inclusive 1 12; cx_dow := [1; 2; 3; 4; 5]; cx_source := "30 9 * * 1-5" |}%N 1750000000 None
    ltac:(vm_compute; reflexivity) ltac:(vm_compute; discriminate)) as Hw.
  cbv zeta in Hw. rewrite E in Hw. apply Hw.
Defined.


Lemma parsed_field_denotes_witness : ∀ v, v ∈ [0; 15; 30; 45]%N ↔ denotes "*/15" 0 59 v ∧ (0 ≤ v ≤ 59)%N.
Proof. apply (parsed_field_denotes "*/15" 0 59 [0; 15; 30; 45]%N); [done|vm_compute; reflexivity]. Defined.
