(* ===== verification/Revision.v ===== *)
(** * Automation revisions: definitions, their identity, and the Work they compile to

    [everyaios-blueprint/src/automation.rs] (steps, triggers, the automation)
    and [everyaios-core/src/automation_runtime.rs] (canonical JSON, the revision
    id [g<generation>:r<revision>:<digest>], its parsing and validation, and the
    pure Work factory). SHA-256 and the text of JSON strings and numbers are
    interfaces. *)
From S2P Require Import Order Prelude.
From S2P Require Import Json.

(** ** Steps and automations *)

(* SRC blueprint/src/automation.rs @enum:AutomationStep AutomationStep *)
Inductive AutomationStep :=
  | RunCode (language code : string)
  | OnlineSearch (query : string)
  | SendEmail (to : list string) (subject body : string)
  | CalendarEvent (title when_ : string).
#[export] Instance automation_step_eq_dec : EqDecision AutomationStep.
Proof. solve_decision. Defined.

(* SRC blueprint/src/automation.rs @enum:Trigger Trigger *)
Inductive BlueprintTrigger :=
  | BtSchedule (cron : string)
  | BtFileEvent (path event : string)
  | BtIncomingEmail (filter : string)
  | BtManual.

(* SRC blueprint/src/automation.rs @struct:Automation Automation *)
Record Automation := {
  au_id : string;
  au_name : string;
  au_trigger : BlueprintTrigger;
  au_steps : list AutomationStep
}.

(* SRC blueprint/src/automation.rs @fn:new Automation::new *)
Definition automation_new (id name : string) (trigger : BlueprintTrigger) : Automation :=
  {| au_id := id; au_name := name; au_trigger := trigger; au_steps := [] |}.

(* SRC blueprint/src/automation.rs @fn:step Automation::step *)
Definition automation_step (s : AutomationStep) (a : Automation) : Automation :=
  {| au_id := au_id a; au_name := au_name a; au_trigger := au_trigger a; au_steps := au_steps a ++ [s] |}.

(* SRC blueprint/src/automation.rs @fn:privileged_steps Automation::privileged_steps *)
Definition privileged_steps (a : Automation) : list AutomationStep :=
  List.filter (λ s, match s with SendEmail _ _ _ | CalendarEvent _ _ => true | _ => false end) (au_steps a).

(** *** What serde writes for them *)

Definition json_list (l : list string) : Value := JArray (JString <$> l).
Definition step_json (s : AutomationStep) : Value :=
  match s with
  | RunCode language code =>
      json_object [("step", JString "run_code"); ("language", JString language); ("code", JString code)]
  | OnlineSearch query => json_object [("step", JString "online_search"); ("query", JString query)]
  | SendEmail to subject body =>
      json_object [("step", JString "email"); ("to", json_list to); ("subject", JString subject); ("body", JString body)]
  | CalendarEvent title when_ =>
      json_object [("step", JString "calendar"); ("title", JString title); ("when", JString when_)]
  end.
Definition trigger_json (t : BlueprintTrigger) : Value :=
  match t with
  | BtSchedule cron => json_object [("trigger", JString "schedule"); ("cron", JString cron)]
  | BtFileEvent path event =>
      json_object [("trigger", JString "file_event"); ("path", JString path); ("event", JString event)]
  | BtIncomingEmail filter => json_object [("trigger", JString "incoming_email"); ("filter", JString filter)]
  | BtManual => json_object [("trigger", JString "manual")]
  end.
Definition automation_json (a : Automation) : Value :=
  json_object [("id", JString (au_id a)); ("name", JString (au_name a)); ("trigger", trigger_json (au_trigger a));
               ("steps", JArray (step_json <$> au_steps a))].

(** ** Canonical JSON *)

(** The text [serde_json] gives a string and a number. *)
Class JsonWords := { json_quote : string → string; json_number : Number → string }.

Section revision.
Context `{JsonWords} {sha : Sha256}.

(* SRC core/src/automation_runtime.rs @fn:canonical_json canonical_json *)
Fixpoint canonical_json (v : Value) : string :=
  match v with
  | JNull => "null"
  | JBool true => "true"
  | JBool false => "false"
  | JNumber n => json_number n
  | JString s => json_quote s
  | JArray values => "[" +:+ join "," (map canonical_json values) +:+ "]"
  | JObject values =>
      let texts := map (λ e, (e.1, canonical_json e.2)) values in
      "{" +:+ join "," (map (λ e, json_quote e.1 +:+ ":" +:+ e.2) (sort_by (λ a b, str_le a.1 b.1) texts)) +:+ "}"
  end.

(** ** The revision identity *)

Definition SNAPSHOT_MARKER : string := "::snapshot:".

(** [str::split_once] on a string pattern. *)
Fixpoint split_once_str (pat s : string) : option (string * string) :=
  match strip_prefix pat s with
  | Some rest => Some ("", rest)
  | None =>
      match s with
      | EmptyString => None
      | String a s' => '(x, y) ← split_once_str pat s'; Some (String a x, y)
      end
  end.

(* SRC core/src/automation_runtime.rs @fn:canonical_automation_id canonical_automation_id *)
Definition canonical_automation_id (automation_id : string) : string :=
  match split_once_str SNAPSHOT_MARKER automation_id with Some (base, _) => base | None => automation_id end.

(** The envelope that is hashed. *)
Definition revision_envelope (a : Automation) (generation : N) : Value :=
  json_object [("schema", JString "everyaios.automation.revision.v1"); ("generation", json_u64 generation);
               ("automation", automation_json a)].

(* SRC core/src/automation_runtime.rs @fn:revision_content_digest revision_content_digest *)
Definition revision_content_digest (a : Automation) (generation : N) : string :=
  sha256_hex (canonical_json (revision_envelope a generation)).

(* SRC core/src/automation_runtime.rs @fn:content_addressed_revision_id_for_generation content_addressed_revision_id_for_generation *)
Definition revision_id_of (a : Automation) (generation revision : N) : string :=
  "g" +:+ pretty generation +:+ ":r" +:+ pretty revision +:+ ":" +:+ revision_content_digest a generation.

(* SRC core/src/automation_runtime.rs @fn:content_addressed_revision_id content_addressed_revision_id *)
Definition first_generation_revision_id (a : Automation) (revision : N) : string := revision_id_of a 1 revision.

(* SRC core/src/automation_runtime.rs @enum:AutomationError AutomationError *)
Inductive AutomationError :=
  | AeEmpty
  | AeUnsupportedLanguage (language : string)
  | AeMissingRevision
  | AeInvalidRevision (text : string)
  | AeRevisionMismatch
  | AeMissingOccurrence.

Definition automation_error_text (e : AutomationError) : string :=
  match e with
  | AeEmpty => "automation has no steps"
  | AeUnsupportedLanguage l => "run_code language `" +:+ l +:+ "` is not supported by the script engine"
  | AeMissingRevision => "automation revision id is required and must be immutable"
  | AeInvalidRevision t => "automation revision id is invalid: " +:+ t
  | AeRevisionMismatch => "automation revision does not match its immutable snapshot"
  | AeMissingOccurrence => "automation names no trigger occurrence; compile requires one firing"
  end.

(* SRC core/src/automation_runtime.rs @struct:RevisionIdentity RevisionIdentity *)
Record RevisionIdentity := { ri_generation : N; ri_revision : N; ri_digest : string }.

(** 64 lower-case hexadecimal digits. *)
Definition is_hex_digit (c : ascii) : bool :=
  let n := N_of_ascii c in ((48 <=? n) && (n <=? 57) || (97 <=? n) && (n <=? 102))%N.
Fixpoint all_hex (s : string) : bool :=
  match s with EmptyString => true | String c s' => is_hex_digit c && all_hex s' end.
Definition is_sha256_digest (s : string) : bool := (String.length s =? 64)%nat && all_hex s.

(** A number in the one spelling [to_string] gives it, after its letter. *)
Definition tagged_u64 (letter text : string) : option N :=
  digits ← strip_prefix letter text;
  n ← parse_uint u64_max digits;
  if String.eqb (pretty n) digits then Some n else None.

(* SRC core/src/automation_runtime.rs @fn:parse_revision_id parse_revision_id *)
Definition parse_revision_id (revision_id : string) : result RevisionIdentity AutomationError :=
  match split ":" (trim revision_id) with
  | [g; r; digest] =>
      match tagged_u64 "g" g, tagged_u64 "r" r with
      | Some generation, Some revision =>
          if (generation =? 0)%N || (revision =? 0)%N || negb (is_sha256_digest digest)
          then Err (AeInvalidRevision revision_id)
          else Ok {| ri_generation := generation; ri_revision := revision; ri_digest := digest |}
      | _, _ => Err (AeInvalidRevision revision_id)
      end
  | _ => Err (AeInvalidRevision revision_id)
  end.

(* SRC core/src/automation_runtime.rs @fn:validate_revision_id validate_revision_id *)
Definition validate_revision_id (a : Automation) (revision_id : string) : result RevisionIdentity AutomationError :=
  identity <-? parse_revision_id revision_id;;
  if negb (String.eqb (ri_digest identity) (revision_content_digest a (ri_generation identity)))
  then Err AeRevisionMismatch else Ok identity.

(** ** The Work factory *)

(* SRC core/src/automation_runtime.rs @struct:AutomationProvenance AutomationProvenance *)
Record AutomationProvenance := {
  ap_automation_id : string;
  ap_revision_id : string;
  ap_automation_generation : N;
  ap_trigger_occurrence_id : string
}.

(* SRC core/src/automation_runtime.rs @struct:CompiledCapabilityRequest CompiledCapabilityRequest *)
Record CompiledCapabilityRequest := { cc_capability_id : string; cc_step_index : nat; cc_reason : string }.

(* SRC core/src/automation_runtime.rs @struct:CompiledStep CompiledStep *)
Record CompiledStep := {
  cs_index : nat;
  cs_kind : string;
  cs_deterministic : bool;
  cs_capability_request : option CompiledCapabilityRequest
}.

(* SRC core/src/automation_runtime.rs @struct:WorkSpec WorkSpec *)
Record WorkSpec := {
  ws_provenance : AutomationProvenance;
  ws_objective : string;
  ws_steps : list CompiledStep;
  ws_capability_requests : list CompiledCapabilityRequest;
  ws_agent_required : bool
}.

(* SRC core/src/automation_runtime.rs @fn:validate_step validate_step *)
Definition validate_step (s : AutomationStep) : result unit AutomationError :=
  match s with
  | RunCode language _ =>
      let language := to_ascii_lowercase language in
      if existsb (String.eqb language) ["js"; "javascript"; "ts"; "typescript"] then Ok tt
      else Err (AeUnsupportedLanguage language)
  | _ => Ok tt
  end.

(* SRC core/src/automation_runtime.rs @fn:capability_of capability_of *)
Definition capability_of (index : nat) (s : AutomationStep) : CompiledCapabilityRequest :=
  let '(capability_id, reason) :=
    match s with
    | RunCode _ _ => ("script.eval", "sandboxed code execution for automation step")
    | OnlineSearch _ => ("net.search", "web search cascade for automation step")
    | SendEmail _ _ _ => ("connector.email", "outbound email write")
    | CalendarEvent _ _ => ("connector.calendar", "calendar write")
    end in
  {| cc_capability_id := capability_id; cc_step_index := index; cc_reason := reason |}.

(* SRC core/src/automation_runtime.rs @fn:is_agent_backed is_agent_backed *)
Definition is_agent_backed (s : AutomationStep) : bool := false.

(* SRC core/src/automation_runtime.rs @fn:kind_of kind_of *)
Definition kind_of (s : AutomationStep) : string :=
  match s with
  | RunCode _ _ => "run_code" | OnlineSearch _ => "online_search"
  | SendEmail _ _ _ => "email" | CalendarEvent _ _ => "calendar"
  end.

(* SRC core/src/automation_runtime.rs @fn:objective_of objective_of *)
Definition objective_of (a : Automation) : string :=
  "automation:" +:+ canonical_automation_id (au_id a) +:+ ":" +:+ au_name a.

Fixpoint validate_steps (l : list AutomationStep) : result unit AutomationError :=
  match l with [] => Ok tt | s :: l' => _ <-? validate_step s;; validate_steps l' end.

Definition compiled_step (index : nat) (s : AutomationStep) : CompiledStep :=
  {| cs_index := index; cs_kind := kind_of s; cs_deterministic := negb (is_agent_backed s);
     cs_capability_request := Some (capability_of index s) |}.

(* SRC core/src/automation_runtime.rs @fn:compile_work compile_work *)
Definition compile_work (a : Automation) (revision_id trigger_occurrence_id : string) : result WorkSpec AutomationError :=
  if bool_decide (au_steps a = []) then Err AeEmpty
  else if is_empty (trim (canonical_automation_id (au_id a))) then Err (AeInvalidRevision "automation has no id")
  else if is_empty (trim revision_id) then Err AeMissingRevision
  else
    identity <-? validate_revision_id a (trim revision_id);;
    if is_empty (trim trigger_occurrence_id) then Err AeMissingOccurrence
    else
      _ <-? validate_steps (au_steps a);;
      let steps := imap compiled_step (au_steps a) in
      Ok {| ws_provenance := {| ap_automation_id := canonical_automation_id (au_id a);
                                ap_revision_id := trim revision_id;
                                ap_automation_generation := ri_generation identity;
                                ap_trigger_occurrence_id := trim trigger_occurrence_id |};
            ws_objective := objective_of a;
            ws_steps := steps;
            ws_capability_requests := omap cs_capability_request steps;
            ws_agent_required := existsb (λ s, negb (cs_deterministic s)) steps |}.
End revision.
