(* ===== verification/RevisionFacts.v ===== *)
(** * A revision id pins its definition

    Canonical JSON is injective on the values [serde_json] can hold, so that two
    definitions under one digest are the same definition or an explicit SHA-256
    collision; a revision id is parsed back to its generation and revision; and
    the Work factory accepts exactly the definition the id names. *)
From S2P Require Import Order Prelude.
From S2P Require Import Json Revision.

(** ** The text of strings and numbers *)

Definition number_char (c : ascii) : bool :=
  match digit_of c with
  | Some _ => true
  | None => existsb (Ascii.eqb c) ["-"%char; "+"%char; "."%char; "e"%char; "E"%char]
  end.
Fixpoint all_chars (f : ascii → bool) (s : string) : bool :=
  match s with EmptyString => true | String c s' => f c && all_chars f s' end.

(** What RFC 8259 guarantees: a quoted string ends where it ends; a number is not
    empty and written with characters of its own; different numbers have
    different texts. *)
Class JsonWordsLaws `{JsonWords} : Prop := {
  json_quote_starts s : ∃ r, json_quote s = String "034" r;
  json_quote_prefix s s' x y : json_quote s +:+ x = json_quote s' +:+ y → s = s' ∧ x = y;
  json_number_nonempty n : json_number n ≠ "";
  json_number_starts n c r : json_number n = String c r → c = "-"%char ∨ digit_of c ≠ None;
  json_number_chars n : all_chars number_char (json_number n) = true;
  json_number_inj n n' : json_number n = json_number n' → n = n'
}.
(** The digest is printed as 64 hexadecimal digits. *)
Class HexDigest {sha : Sha256} : Prop := { sha256_is_hex s : is_sha256_digest (sha256_hex s) = true }.

(** ** Values a [BTreeMap] object can hold *)

Definition key_lt (a b : string) : Prop := str_le a b = true ∧ a ≠ b.
Fixpoint value_ok (v : Value) : Prop :=
  match v with
  | JArray l => (fix go l := match l with [] => True | x :: l' => value_ok x ∧ go l' end) l
  | JObject m =>
      StronglySorted key_lt m.*1 ∧ (fix go m := match m with [] => True | e :: m' => value_ok e.2 ∧ go m' end) m
  | _ => True
  end.

Lemma value_ok_array l : value_ok (JArray l) ↔ Forall value_ok l.
Proof. simpl. induction l as [|x l IH]; [done|]. by rewrite Forall_cons, IH. Qed.
Lemma value_ok_object m : value_ok (JObject m) ↔ StronglySorted key_lt m.*1 ∧ Forall (λ e, value_ok e.2) m.
Proof. simpl. split; intros [Hs Hm]; (split; [done|]); clear Hs; (induction m as [|e m IH]; [done|]); rewrite ?Forall_cons in *; tauto. Qed.

Lemma key_lt_cons k k' m : key_lt k k' → StronglySorted key_lt (k' :: m) → StronglySorted key_lt (k :: k' :: m).
Proof.
  intros Hk Hs. constructor; [done|]. apply StronglySorted_inv in Hs as [_ Hall]. constructor; [done|].
  eapply Forall_impl; [exact Hall|]. intros x [Hx Hne]. destruct Hk as [Hk Hkne]. split.
  - by eapply (str_le_trans k k').
  - intros ->. apply Hkne. by apply str_le_antisym.
Qed.

Lemma obj_insert_ok k v m : value_ok v → value_ok (JObject m) → value_ok (JObject (obj_insert k v m)).
Proof.
  rewrite !value_ok_object. intros Hv [Hs Hm].
  assert (Hgen : StronglySorted key_lt (obj_insert k v m).*1 ∧ Forall (λ e, value_ok e.2) (obj_insert k v m) ∧
    ∀ k0, key_lt k0 k → Forall (key_lt k0) m.*1 → Forall (key_lt k0) (obj_insert k v m).*1); [|tauto].
  induction m as [|[k1 v1] m IH]; simpl.
  { split_and!; [by repeat constructor|by repeat constructor|]. intros. by constructor. }
  apply Forall_cons in Hm as [Hv1 Hm]. simpl in Hs, Hv1.
  pose proof (StronglySorted_inv Hs) as [Hs' Hall]. destruct (IH Hs' Hm) as (IH1 & IH2 & IH3).
  destruct (String.eqb_spec k1 k) as [->|Hne].
  { split_and!; [done|by constructor|done]. }
  destruct (str_le k k1) eqn:Hle; simpl.
  - split_and!; [|by constructor; [|constructor]|intros; by constructor].
    apply key_lt_cons; [by split; [|intros ->]|done].
  - split_and!; [|by constructor|].
    + constructor; [done|]. apply IH3; [|done]. split; [|done]. by destruct (str_le_total k k1) as [E|]; [rewrite E in Hle|].
    + intros k0 Hk0 Hall0. apply Forall_cons in Hall0 as [? ?]. constructor; [done|by apply IH3].
Qed.

Lemma json_object_ok l : Forall (λ e, value_ok e.2) l → value_ok (json_object l).
Proof.
  unfold json_object. intros Hl. assert (H0 : value_ok (JObject [])) by by apply value_ok_object; split; constructor.
  revert H0. generalize (@nil (string * Value)). induction Hl as [|e l He Hl IH]; intros m Hm; [done|].
  simpl. apply IH. by apply obj_insert_ok.
Qed.

Create HintDb json_ok.
Lemma json_list_ok l : value_ok (json_list l).
Proof. unfold json_list. apply value_ok_array, Forall_fmap, Forall_true. done. Qed.
#[export] Hint Resolve json_list_ok : json_ok.
(** Values built by [json!]. *)
Ltac json_ok :=
  repeat match goal with
  | |- value_ok (json_object _) => apply json_object_ok
  | |- value_ok (JArray _) => apply value_ok_array
  | |- value_ok (JString _) => exact I
  | |- value_ok (JBool _) => exact I
  | |- value_ok (json_u64 _) => exact I
  | |- value_ok JNull => exact I
  | |- Forall _ [] => constructor
  | |- Forall _ (_ :: _) => constructor; cbn [snd]
  | |- _ => solve [eauto with json_ok]
  end.

Lemma step_json_ok s : value_ok (step_json s).
Proof. unfold step_json. destruct s; json_ok. Qed.
Lemma trigger_json_ok t : value_ok (trigger_json t).
Proof. unfold trigger_json. destruct t; json_ok. Qed.
#[export] Hint Resolve step_json_ok trigger_json_ok : json_ok.
Lemma automation_json_ok a : value_ok (automation_json a).
Proof. unfold automation_json. json_ok. apply Forall_fmap, Forall_true. intros s. apply step_json_ok. Qed.
#[export] Hint Resolve automation_json_ok : json_ok.

(** ** Canonical JSON is injective *)

(** What may follow a value. *)
Definition delimited (x : string) : Prop := ∀ c r, x = String c r → c = ","%char ∨ c = "]"%char ∨ c = "}"%char.

Lemma delimited_cons c r : c = ","%char ∨ c = "]"%char ∨ c = "}"%char → delimited (String c r).
Proof. intros Hc c' r' [= <- <-]. done. Qed.

(** The items after the first one, and the bracket that closes them. *)
Definition tail_text {A} (f : A → string) (l : list A) : string := sconcat (map (λ a, "," +:+ f a) l).

Lemma join_tail {A} (f : A → string) a l : join "," (map f (a :: l)) = f a +:+ tail_text f l.
Proof.
  revert a. unfold tail_text. induction l as [|b l IH]; intros a; [by rewrite app_string_nil_r|].
  change (map f (a :: b :: l)) with (f a :: map f (b :: l)). rewrite join_cons, IH by done.
  cbn [map sconcat]. by rewrite app_string_assoc.
Qed.

Lemma tail_text_delimited {A} (f : A → string) l close x :
  close = "]"%char ∨ close = "}"%char → delimited (tail_text f l +:+ String close x).
Proof.
  intros Hc. destruct l as [|a l]; [apply delimited_cons; tauto|].
  unfold tail_text. cbn [map sconcat]. rewrite !app_string_cons. apply delimited_cons. by left.
Qed.

Section items.
Context {A : Type} (f : A → string) (close : ascii) (Hclose : close = "]"%char ∨ close = "}"%char).

Definition items_inj (l l' : list A) : Prop := ∀ a b u v,
  a ∈ l → b ∈ l' → delimited u → delimited v → f a +:+ u = f b +:+ v → a = b ∧ u = v.
Definition not_closing (l : list A) : Prop := ∀ a, a ∈ l → ∃ c r, f a = String c r ∧ c ≠ close.

Lemma tail_text_inj l l' x y : items_inj l l' →
  tail_text f l +:+ String close x = tail_text f l' +:+ String close y → l = l' ∧ x = y.
Proof.
  revert l'. induction l as [|a l IH]; intros [|b l'] Hi He.
  - by injection He.
  - unfold tail_text in He. cbn [map sconcat] in He. rewrite !app_string_cons in He. injection He as -> _. by destruct Hclose.
  - unfold tail_text in He. cbn [map sconcat] in He. rewrite !app_string_cons in He. injection He as <- _. by destruct Hclose.
  - unfold tail_text in He. cbn [map sconcat] in He. rewrite !app_string_cons in He. injection He as He.
    change ("" +:+ f a) with (f a) in He. change ("" +:+ f b) with (f b) in He. rewrite !app_string_assoc in He.
    change (sconcat (map (λ a, "," +:+ f a) ?l0)) with (tail_text f l0) in He.
    destruct (Hi a b _ _ ltac:(left) ltac:(left) (tail_text_delimited f l close x Hclose) (tail_text_delimited f l' close y Hclose) He) as [-> Ht].
    destruct (IH l') as [-> ->]; [|exact Ht|done]. intros a' b' u v Ha' Hb'. apply Hi; by right.
Qed.

Lemma joined_items_inj l l' x y : items_inj l l' → not_closing l → not_closing l' →
  join "," (map f l) +:+ String close x = join "," (map f l') +:+ String close y → l = l' ∧ x = y.
Proof.
  intros Hi Hl Hl'. destruct l as [|a l], l' as [|b l']; [by intros [= ->]| | |].
  - rewrite join_tail. destruct (Hl' b ltac:(left)) as (c & r & -> & Hc). intros [= E _]. congruence.
  - rewrite join_tail. destruct (Hl a ltac:(left)) as (c & r & -> & Hc). intros [= E _]. congruence.
  - rewrite !join_tail, !app_string_assoc. intros He.
    destruct (Hi a b _ _ ltac:(left) ltac:(left) (tail_text_delimited f l close x Hclose) (tail_text_delimited f l' close y Hclose) He) as [-> Ht].
    destruct (tail_text_inj l l' x y) as [-> ->]; [|exact Ht|done]. intros a' b' u v Ha' Hb'. apply Hi; by right.
Qed.
End items.

(** Words over their own characters end at the first other one. *)
Lemma chars_cut (f : ascii → bool) a b x y :
  all_chars f a = true → all_chars f b = true →
  (∀ c r, x = String c r → f c = false) → (∀ c r, y = String c r → f c = false) →
  a +:+ x = b +:+ y → a = b ∧ x = y.
Proof.
  intros Ha Hb Hx Hy. revert b Hb. induction a as [|c a IH]; intros [|d b] Hb He; rewrite ?app_string_cons in He; simpl in *.
  - done.
  - bool_hyps. specialize (Hx d (b +:+ y) He). congruence.
  - bool_hyps. symmetry in He. specialize (Hy c (a +:+ x) He). congruence.
  - injection He as -> He. bool_hyps. destruct (IH ltac:(done) b ltac:(done) He) as [-> ->]. done.
Qed.

Section canonical.
Context `{JsonWordsLaws}.

(** The first character tells the kind of a value. *)
Inductive Kind := KNull | KTrue | KFalse | KNumber | KString | KArray | KObject.
Definition kind_of_value (v : Value) : Kind :=
  match v with
  | JNull => KNull | JBool true => KTrue | JBool false => KFalse | JNumber _ => KNumber
  | JString _ => KString | JArray _ => KArray | JObject _ => KObject
  end.
Definition kind_of_char (c : ascii) : option Kind :=
  if Ascii.eqb c "n" then Some KNull else if Ascii.eqb c "t" then Some KTrue
  else if Ascii.eqb c "f" then Some KFalse else if Ascii.eqb c "034" then Some KString
  else if Ascii.eqb c "[" then Some KArray else if Ascii.eqb c "{" then Some KObject
  else if Ascii.eqb c "-" then Some KNumber else match digit_of c with Some _ => Some KNumber | None => None end.

Lemma digit_kind c : digit_of c ≠ None → kind_of_char c = Some KNumber.
Proof.
  intros Hd. unfold kind_of_char.
  repeat match goal with |- context [Ascii.eqb c ?d] => destruct (Ascii.eqb_spec c d) as [->|_]; [by destruct Hd|] end.
  by destruct (digit_of c).
Qed.

Lemma canonical_head v : ∃ c r, canonical_json v = String c r ∧ kind_of_char c = Some (kind_of_value v).
Proof.
  destruct v as [|[]|n|s|l|m]; simpl; try (eexists _, _; split; [reflexivity|done]).
  - destruct (json_number n) as [|c r] eqn:E; [by apply json_number_nonempty in E|]. exists c, r. split; [done|].
    destruct (json_number_starts n c r E) as [->|Hd]; [done|by apply digit_kind].
  - destruct (json_quote_starts s) as [r ->]. by exists "034"%char, r.
Qed.

Lemma value_not_closing (close : ascii) l :
  close = "]"%char ∨ close = "}"%char → not_closing canonical_json close l.
Proof.
  intros Hc v _. destruct (canonical_head v) as (c & r & E & Hk). exists c, r. split; [done|].
  intros ->. destruct Hc as [-> | ->]; discriminate Hk.
Qed.

Lemma sort_sorted_id {A} (le : A → A → bool) l : StronglySorted (λ a b, le a b = true) l → sort_by le l = l.
Proof.
  induction 1 as [|x l Hs IH Hall]; [done|]. unfold sort_by in *. simpl. rewrite IH.
  destruct l as [|y l]; [done|]. simpl. apply Forall_inv in Hall. by rewrite Hall.
Qed.

Definition member_text (e : string * Value) : string := json_quote e.1 +:+ ":" +:+ canonical_json e.2.

Lemma canonical_object m : StronglySorted key_lt m.*1 →
  canonical_json (JObject m) = "{" +:+ join "," (map member_text m) +:+ "}".
Proof.
  intros Hs. cbn [canonical_json]. rewrite sort_sorted_id.
  - by rewrite map_map.
  - induction m as [|e m IH]; [constructor|]. simpl in Hs |- *. apply StronglySorted_inv in Hs as [Hs Hall].
    constructor; [by apply IH|]. clear -Hall. apply Forall_forall. intros [k v] Hin.
    apply list_elem_of_fmap in Hin as (e' & [= -> ->] & Hin). rewrite Forall_forall in Hall.
    by apply (Hall e'.1), list_elem_of_fmap_2.
Qed.

Lemma member_not_closing l : not_closing member_text "}" l.
Proof.
  intros e _. unfold member_text. destruct (json_quote_starts e.1) as [r ->].
  rewrite app_string_cons. by eexists _, _.
Qed.

Lemma number_delimited x : delimited x → ∀ c r, x = String c r → number_char c = false.
Proof. intros Hx c r ->. destruct (Hx c r eq_refl) as [-> | [-> | -> ]]; done. Qed.

Lemma value_size_in_array v l : v ∈ l → (value_size v < value_size (JArray l))%nat.
Proof. simpl. induction 1; simpl; lia. Qed.
Lemma value_size_in_object k v m : (k, v) ∈ m → (value_size v < value_size (JObject m))%nat.
Proof. simpl. induction m as [|e m IH]; [by intros ?%elem_of_nil|]. intros [<-|Hin]%elem_of_cons; simpl; [lia|]. specialize (IH Hin). lia. Qed.

Lemma canonical_json_prefix n v w x y :
  (value_size v ≤ n)%nat → value_ok v → value_ok w → delimited x → delimited y →
  canonical_json v +:+ x = canonical_json w +:+ y → v = w ∧ x = y.
Proof.
  revert v w x y. induction n as [|n IH]; intros v w x y Hn Hv Hw Hx Hy He; [destruct v; simpl in Hn; lia|].
  assert (Hk : kind_of_value v = kind_of_value w).
  { destruct (canonical_head v) as (c & r & Ec & Hc), (canonical_head w) as (d & r' & Ed & Hd).
    rewrite Ec, Ed, !app_string_cons in He. injection He as -> _. congruence. }
  destruct v as [|[]|p|s|l|m], w as [|[]|q|s'|l'|m']; try discriminate Hk.
  - split; [done|]. by injection He.
  - split; [done|]. by injection He.
  - split; [done|]. by injection He.
  - apply chars_cut with (f := number_char) in He as [E ->];
      [|apply json_number_chars|apply json_number_chars|by apply number_delimited|by apply number_delimited].
    by apply json_number_inj in E as ->.
  - by apply json_quote_prefix in He as [-> ->].
  - cbn [canonical_json] in He. rewrite !app_string_assoc in He. injection He as He.
    apply joined_items_inj in He as [-> ->]; [done|by left| |apply value_not_closing; by left|apply value_not_closing; by left].
    apply value_ok_array in Hv, Hw. rewrite Forall_forall in Hv, Hw.
    intros a b u t Ha Hb Hu Ht Hab. apply (IH a b u t); auto.
    apply value_size_in_array in Ha. lia.
  - apply value_ok_object in Hv as [Hsv Hv], Hw as [Hsw Hw]. rewrite !canonical_object in He by done.
    rewrite !app_string_assoc in He. injection He as He.
    apply joined_items_inj in He as [-> ->]; [done|by right| |apply member_not_closing|apply member_not_closing].
    rewrite Forall_forall in Hv, Hw.
    intros [k a] [k' b] u t Ha Hb Hu Ht Hab. unfold member_text in Hab. simpl in Hab. rewrite !app_string_assoc in Hab.
    apply json_quote_prefix in Hab as [-> Hab]. injection Hab as Hab.
    destruct (IH a b u t) as [-> ->]; auto; [|by apply (Hv (k', a))|by apply (Hw (k', b))].
    apply value_size_in_object in Ha. lia.
Qed.

(** Canonical JSON is injective: two values a JSON object model can hold have
    the same canonical text only when they are the same value. *)
Theorem canonical_json_injective v w :
  value_ok v → value_ok w → canonical_json v = canonical_json w → v = w.
Proof.
  intros Hv Hw He. apply (canonical_json_prefix (value_size v) v w "" ""); try done.
  by rewrite He.
Qed.
End canonical.

(** ** What the digest of a revision pins *)

Lemma fmap_list_inj {A B} (f : A → B) (l l' : list A) : (∀ x y, f x = f y → x = y) → f <$> l = f <$> l' → l = l'.
Proof.
  intros Hf. revert l'. induction l as [|x l IH]; intros [|y l'] E; try done.
  injection E as Ex El. by rewrite (Hf _ _ Ex), (IH _ El).
Qed.
Lemma json_list_inj l l' : json_list l = json_list l' → l = l'.
Proof. intros [= E]. apply fmap_list_inj in E; [done|]. by intros ?? [= ->]. Qed.
Lemma step_json_inj s s' : step_json s = step_json s' → s = s'.
Proof.
  destruct s, s'; intros E; cbv -[json_list] in E; try discriminate E; injection E; intros; subst; try done.
  f_equal. apply fmap_list_inj with (f := JString); [by intros ?? [= ->]|done].
Qed.
Lemma trigger_json_inj t t' : trigger_json t = trigger_json t' → t = t'.
Proof. destruct t, t'; intros E; cbv in E; first [discriminate E|done|injection E; intros; by subst]. Qed.
Lemma automation_json_inj a a' : automation_json a = automation_json a' → a = a'.
Proof.
  destruct a as [id name t steps], a' as [id' name' t' steps']. intros E.
  cbv -[trigger_json step_json fmap list_fmap] in E. injection E as -> -> Es Et.
  apply trigger_json_inj in Et as ->. by apply fmap_list_inj in Es as ->; [|apply step_json_inj].
Qed.
Lemma revision_envelope_inj a g a' g' : revision_envelope a g = revision_envelope a' g' → a = a' ∧ g = g'.
Proof.
  intros E.
  assert (Ea : Some (automation_json a) = Some (automation_json a')) by exact (f_equal (json_get "automation") E).
  assert (Eg : Some (json_u64 g) = Some (json_u64 g')) by exact (f_equal (json_get "generation") E).
  injection Eg as ->. split; [|done]. apply automation_json_inj. by apply Some_inj in Ea.
Qed.
Lemma revision_envelope_ok a g : value_ok (revision_envelope a g).
Proof. unfold revision_envelope. json_ok. Qed.

Lemma hex_no_char c s : is_hex_digit c = false → all_hex s = true → has_char c s = false.
Proof.
  intros Hc. induction s as [|d s IH]; [done|]. simpl. intros Hs. bool_hyps. rewrite IH by done.
  destruct (Ascii.eqb_spec d c) as [->|]; [congruence|done].
Qed.

Lemma tagged_u64_pretty letter n : (n ≤ u64_max)%N → tagged_u64 letter (letter +:+ pretty n) = Some n.
Proof.
  intros Hn. unfold tagged_u64. rewrite (proj2 (strip_prefix_spec letter (letter +:+ pretty n) (pretty n))) by done.
  simpl. rewrite parse_uint_pretty by done. simpl. by rewrite String.eqb_refl.
Qed.

Section pins.
Context `{JsonWordsLaws} {sha : Sha256} {hex : HexDigest}.

Lemma digest_no_colon a g : has_char ":" (revision_content_digest a g) = false.
Proof.
  pose proof (sha256_is_hex (canonical_json (revision_envelope a g))) as Hh. unfold is_sha256_digest in Hh. bool_hyps.
  by apply hex_no_char.
Qed.

Lemma revision_id_parts a g r :
  split ":" (revision_id_of a g r) = ["g" +:+ pretty g; "r" +:+ pretty r; revision_content_digest a g].
Proof.
  unfold revision_id_of.
  change ("g" +:+ pretty g +:+ ":r" +:+ pretty r +:+ ":" +:+ revision_content_digest a g) with
    ("g" +:+ (pretty g +:+ String ":" (("r" +:+ (pretty r +:+ String ":" (revision_content_digest a g)))))).
  rewrite <- !app_string_assoc, split_app_sep, split_no_sep; [|rewrite has_char_app, pretty_no_char by done; done].
  rewrite split_app_sep, split_no_sep; [|rewrite has_char_app, pretty_no_char by done; done].
  by rewrite split_no_sep by apply digest_no_colon.
Qed.

Lemma text_last (s : string) : s ≠ "" → ∃ p c, s = p +:+ ch c.
Proof.
  induction s as [|c s IH]; [done|]. intros _. destruct s as [|d s]; [by exists "", c|].
  destruct IH as (p & e & ->); [done|]. by exists (String c p), e.
Qed.

Lemma trim_revision_id a g r : trim (revision_id_of a g r) = revision_id_of a g r.
Proof.
  pose proof (sha256_is_hex (canonical_json (revision_envelope a g))) as Hh. unfold is_sha256_digest in Hh. bool_hyps.
  change (sha256_hex (canonical_json (revision_envelope a g))) with (revision_content_digest a g) in *.
  destruct (text_last (revision_content_digest a g)) as (p & c & E).
  { intros E. rewrite E in *. done. }
  assert (Hc : is_hex_digit c = true).
  { match goal with Hx : all_hex _ = true |- _ => revert Hx end. rewrite E. clear. induction p as [|d p IH].
    - simpl. by rewrite andb_true_r.
    - rewrite app_string_cons. simpl. intros Hd. bool_hyps. by apply IH. }
  unfold revision_id_of. rewrite E, <- !app_string_assoc. change ("g" +:+ pretty g) with (String "g" (pretty g)).
  rewrite !app_string_cons, <- app_string_cons. apply trim_tight; [done|].
  assert (Hall : forallb (λ n, negb (is_hex_digit (ascii_of_N n)) || negb (heads_any (map rev_string white_space) (ascii_of_N n)))
    (N.of_nat <$> seq 0 256) = true) by (vm_compute; reflexivity).
  rewrite forallb_forall in Hall. specialize (Hall (N_of_ascii c)). rewrite ascii_N_embedding, Hc in Hall.
  apply negb_true_iff, Hall, list_elem_of_In, list_elem_of_fmap. exists (N.to_nat (N_of_ascii c)).
  split; [by rewrite N2Nat.id|]. apply elem_of_seq. pose proof (N_ascii_bounded c). lia.
Qed.

(** A revision id is read back: parsing the id of a definition gives its
    generation, its revision and the digest of the definition. *)
Theorem revision_id_round_trips a g r :
  (0 < g ≤ u64_max)%N → (0 < r ≤ u64_max)%N →
  parse_revision_id (revision_id_of a g r) =
  Ok {| ri_generation := g; ri_revision := r; ri_digest := revision_content_digest a g |}.
Proof.
  intros Hg Hr. unfold parse_revision_id. rewrite trim_revision_id, revision_id_parts, !tagged_u64_pretty by lia.
  rewrite (proj2 (N.eqb_neq g 0)), (proj2 (N.eqb_neq r 0)) by lia. unfold revision_content_digest.
  by rewrite sha256_is_hex.
Qed.

(** A revision id pins its definition: two definitions with one id have the
    same generation and revision and are the same definition, or their hashed
    texts are a SHA-256 collision. *)
Theorem revision_id_pins a g r a' g' r' :
  (g ≤ u64_max)%N → (g' ≤ u64_max)%N → (r ≤ u64_max)%N → (r' ≤ u64_max)%N →
  revision_id_of a g r = revision_id_of a' g' r' →
  g = g' ∧ r = r' ∧
  (a = a' ∨ collides (canonical_json (revision_envelope a g)) (canonical_json (revision_envelope a' g'))).
Proof.
  intros Hg Hg' Hr Hr' E. apply (f_equal (split ":")) in E. rewrite !revision_id_parts in E.
  injection E as Eg Er Ed.
  assert (g = g') as <- by by apply pretty_N_inj.
  assert (r = r') as <- by by apply pretty_N_inj.
  split_and!; [done|done|]. apply sha256_eq_or_collides in Ed as [Ed|]; [left|by right].
  apply canonical_json_injective in Ed; [|apply revision_envelope_ok..]. by apply revision_envelope_inj in Ed as [-> _].
Qed.
End pins.

(** ** The Work factory *)

Section factory.
Context `{JsonWordsLaws} {sha : Sha256}.

Lemma validated_digest a rid identity : validate_revision_id a rid = Ok identity →
  parse_revision_id rid = Ok identity ∧ ri_digest identity = revision_content_digest a (ri_generation identity).
Proof.
  unfold validate_revision_id. destruct (parse_revision_id rid) as [i|]; [|done]. simpl.
  destruct (String.eqb_spec (ri_digest i) (revision_content_digest a (ri_generation i))); [|done]. by intros [= <-].
Qed.

Lemma validate_steps_ok l : validate_steps l = Ok tt ↔ Forall (λ s, validate_step s = Ok tt) l.
Proof.
  induction l as [|s l IH]; simpl; [split; [constructor|done]|]. rewrite Forall_cons.
  destruct (validate_step s) as [[]|]; simpl; [rewrite IH; tauto|split; [done|by intros [? _]]].
Qed.

Lemma omap_requests l f :
  (∀ i s, cs_capability_request (f i s) = Some (capability_of i s)) →
  omap cs_capability_request (imap f l) = imap capability_of l.
Proof.
  revert f. intros f Hf. rewrite <- (imap_ext (λ i s, capability_of i s) capability_of l) by done.
  assert (Hgen : ∀ (g : nat → AutomationStep → CompiledStep) (c : nat → AutomationStep → CompiledCapabilityRequest) l,
    (∀ i s, cs_capability_request (g i s) = Some (c i s)) → omap cs_capability_request (imap g l) = imap c l).
  { clear. intros g c l. revert g c. induction l as [|s l IH]; intros g c Hg; [done|].
    rewrite !imap_cons. simpl. rewrite Hg. f_equal. apply IH. intros i s'. apply Hg. }
  by apply Hgen.
Qed.

Lemma compile_work_inv a rid occ spec : compile_work a rid occ = Ok spec →
  au_steps a ≠ [] ∧ Forall (λ s, validate_step s = Ok tt) (au_steps a) ∧
  ∃ identity, validate_revision_id a (trim rid) = Ok identity ∧
    ap_automation_generation (ws_provenance spec) = ri_generation identity ∧
    ap_revision_id (ws_provenance spec) = trim rid ∧ ap_trigger_occurrence_id (ws_provenance spec) = trim occ ∧
    is_empty (trim occ) = false ∧
    ws_steps spec = imap compiled_step (au_steps a) ∧
    ws_capability_requests spec = imap capability_of (au_steps a) ∧ ws_agent_required spec = false.
Proof.
  unfold compile_work. case_bool_decide as Hne; [done|].
  destruct (is_empty (trim (canonical_automation_id (au_id a)))); [done|].
  destruct (is_empty (trim rid)); [done|].
  destruct (validate_revision_id a (trim rid)) as [i|] eqn:Hv; [|done]. cbn [rbind].
  destruct (is_empty (trim occ)) eqn:Ho; [done|].
  destruct (validate_steps (au_steps a)) as [[]|] eqn:Hs; [|done]. cbn [rbind]. intros [= <-]. simpl.
  split_and!; [done|by apply validate_steps_ok|]. exists i. split_and!; try done; [by apply omap_requests|].
  clear. assert (Hd : ∀ (f : nat → AutomationStep → CompiledStep) l, (∀ i s, cs_deterministic (f i s) = true) →
    existsb (λ s, negb (cs_deterministic s)) (imap f l) = false).
  { intros f l. revert f. induction l as [|s l IH]; intros f Hf; [done|]. rewrite imap_cons. simpl.
    rewrite Hf. apply IH. intros i s'. apply Hf. }
  by apply Hd.
Qed.

(** Work is compiled only from the definition its revision names: the steps
    and the capability requests are those of the definition, one each and in
    order, no agent is required, and two compilations under one revision id are
    of one definition, or exhibit a SHA-256 collision. *)
Theorem compiled_work_is_its_revision a rid occ spec :
  compile_work a rid occ = Ok spec →
  (au_steps a ≠ [] ∧ length (ws_steps spec) = length (au_steps a) ∧
   cs_kind <$> ws_steps spec = kind_of <$> au_steps a ∧
   ws_capability_requests spec = imap capability_of (au_steps a) ∧ ws_agent_required spec = false ∧
   Forall (λ s, validate_step s = Ok tt) (au_steps a)) ∧
  ∀ a' occ' spec', compile_work a' rid occ' = Ok spec' →
    ap_automation_generation (ws_provenance spec') = ap_automation_generation (ws_provenance spec) ∧
    (a' = a ∨ collides (canonical_json (revision_envelope a' (ap_automation_generation (ws_provenance spec))))
                       (canonical_json (revision_envelope a (ap_automation_generation (ws_provenance spec))))).
Proof.
  intros Hc. destruct (compile_work_inv _ _ _ _ Hc) as (Hne & Hval & i & Hv & Hg & _ & _ & _ & Hst & Hreq & Hag).
  split.
  - split_and!; try done; rewrite Hst; [by rewrite length_imap|]. rewrite fmap_imap. unfold compose. simpl.
    clear. generalize (au_steps a). intros l. induction l as [|s l IH]; [done|]. rewrite imap_cons. simpl. by f_equal.
  - intros a' occ' spec' Hc'. destruct (compile_work_inv _ _ _ _ Hc') as (_ & _ & i' & Hv' & Hg' & _).
    apply validated_digest in Hv as [Hp Hd], Hv' as [Hp' Hd']. rewrite Hp in Hp'. injection Hp' as <-.
    rewrite Hg, Hg'. split; [done|]. rewrite Hd in Hd'. symmetry in Hd'.
    apply sha256_eq_or_collides in Hd' as [E|]; [left|by right].
    apply canonical_json_injective in E; [|apply revision_envelope_ok..]. by apply revision_envelope_inj in E as [-> _].
Qed.
End factory.

(** ** Instances and witnesses *)

Fixpoint escape (s : string) : string :=
  match s with
  | EmptyString => ""
  | String c s' =>
      if Ascii.eqb c "034" || Ascii.eqb c "\" then String "\" (String c (escape s')) else String c (escape s')
  end.
Definition plain_words : JsonWords := {|
  json_quote s := String "034" (escape s +:+ String "034" "");
  json_number n :=
    match n with
    | PosInt n => pretty n
    | NegInt z => "-" +:+ (pretty (Z.abs_N z) +:+ if (z <? 0)%Z then "" else "E")
    | JFloat bits => pretty bits +:+ "."
    end
|}.

Lemma escape_cut s s' x y : escape s +:+ String "034" x = escape s' +:+ String "034" y → s = s' ∧ x = y.
Proof.
  revert s'. induction s as [|c s IH]; intros [|d s'] E; cbn [escape] in E.
  - by injection E.
  - destruct (Ascii.eqb_spec d "034") as [->|Hd]; [discriminate E|]. destruct (Ascii.eqb_spec d "\") as [->|]; [discriminate E|].
    cbn [orb] in E. rewrite app_string_cons in E. by injection E as <- _.
  - destruct (Ascii.eqb_spec c "034") as [->|Hd]; [discriminate E|]. destruct (Ascii.eqb_spec c "\") as [->|]; [discriminate E|].
    cbn [orb] in E. rewrite app_string_cons in E. by injection E as -> _.
  - destruct (Ascii.eqb c "034" || Ascii.eqb c "\") eqn:Hc, (Ascii.eqb d "034" || Ascii.eqb d "\") eqn:Hd;
      rewrite !app_string_cons in E.
    + injection E as -> E. by destruct (IH s' E) as [-> ->].
    + injection E as <- E. by rewrite Ascii.eqb_refl, orb_true_r in Hd.
    + injection E as -> E. by rewrite Ascii.eqb_refl, orb_true_r in Hc.
    + injection E as -> E. by destruct (IH s' E) as [-> ->].
Qed.

Lemma pretty_digits (n : N) : all_chars (λ c, match digit_of c with Some _ => true | None => false end) (pretty n) = true.
Proof.
  assert (Hall : ∀ s, (∀ c, digit_of c = None → has_char c s = false) →
    all_chars (λ c, match digit_of c with Some _ => true | None => false end) s = true).
  { induction s as [|c s IH]; intros Hs; [done|]. simpl. rewrite IH.
    - destruct (digit_of c) eqn:E; [done|]. pose proof (Hs c E) as Hf. simpl in Hf. by rewrite Ascii.eqb_refl in Hf.
    - intros d Hd. specialize (Hs d Hd). simpl in Hs. by bool_hyps. }
  apply Hall. intros c Hc. by apply pretty_no_char.
Qed.
Lemma pretty_number_chars (n : N) : all_chars number_char (pretty n) = true.
Proof.
  pose proof (pretty_digits n) as Hd. revert Hd. induction (pretty n) as [|c s IH]; [done|]. simpl. intros Hd. bool_hyps.
  rewrite IH by done. unfold number_char. by destruct (digit_of c).
Qed.
Lemma every_char_app f a b : all_chars f (a +:+ b) = all_chars f a && all_chars f b.
Proof. induction a as [|c a IH]; [done|]. rewrite app_string_cons. simpl. by rewrite IH, andb_assoc. Qed.
Lemma pretty_starts (n : N) c r : pretty n = String c r → digit_of c ≠ None.
Proof.
  intros E Hc. pose proof (pretty_no_char c n Hc) as Hp. rewrite E in Hp. simpl in Hp. by rewrite Ascii.eqb_refl in Hp.
Qed.

Lemma plain_words_laws : @JsonWordsLaws plain_words.
Proof.
  constructor; cbn [json_quote json_number plain_words].
  - by eexists.
  - intros s s' x y E. rewrite !app_string_cons in E. injection E as E. rewrite !app_string_assoc in E.
    by apply escape_cut in E.
  - intros [n|z|b] E; [|discriminate E|]; [destruct (pretty_last n) as (p & d & Ep & _)|destruct (pretty_last b) as (p & d & Ep & _)];
      rewrite Ep in E; destruct p; discriminate E.
  - intros [n|z|b] c r E.
    + right. by eapply pretty_starts.
    + injection E as <- _. by left.
    + right. destruct (pretty b) as [|d s] eqn:Eb; [injection E as <- _|rewrite app_string_cons in E; injection E as <- _; by eapply pretty_starts].
      destruct (pretty_last b) as (p & d & Ep & _). rewrite Eb in Ep. by destruct p.
  - intros [n|z|b]; rewrite ?every_char_app, ?pretty_number_chars; try done. by destruct (z <? 0)%Z.
  - assert (Hdash : ∀ (n : N) x, pretty n ≠ String "-" x) by (intros n x E; by apply pretty_starts in E).
    assert (Hdot : ∀ n s : N, pretty n = pretty s +:+ "." → False).
    { intros n s E. pose proof (pretty_no_char "." n eq_refl) as Hp. rewrite E, has_char_app in Hp. simpl in Hp. by rewrite orb_true_r in Hp. }
    intros [n|z|b] [n'|z'|b'] E; try (by apply pretty_N_inj in E as ->); try (by apply Hdash in E); try (by symmetry in E; apply Hdash in E);
      try (by apply Hdot in E); try (by symmetry in E; apply Hdot in E).
    + injection E as E. change (pretty (Z.abs_N z) +:+ (if (z <? 0)%Z then "" else "E") = pretty (Z.abs_N z') +:+ (if (z' <? 0)%Z then "" else "E")) in E.
      apply (chars_cut (λ c, match digit_of c with Some _ => true | None => false end)) in E.
      * destruct E as [E1 E2]. apply pretty_N_inj in E1. destruct (Z.ltb_spec z 0), (Z.ltb_spec z' 0); try discriminate E2; f_equal; lia.
      * apply pretty_digits.
      * apply pretty_digits.
      * intros c r. destruct (z <? 0)%Z; [done|by intros [= <- _]].
      * intros c r. destruct (z' <? 0)%Z; [done|by intros [= <- _]].
    + exfalso. destruct (pretty b') as [|c s] eqn:Eb; [discriminate E|]. injection E as <- _. by apply pretty_starts in Eb.
    + exfalso. destruct (pretty b) as [|c s] eqn:Eb; [discriminate E|]. injection E as -> _. by apply pretty_starts in Eb.
    + apply app_string_inj_r, pretty_N_inj in E. by subst.
Qed.

(** A digest of 64 hexadecimal digits: the bytes as a number modulo 2^256. *)
Definition hex_char (n : N) : ascii := ascii_of_N (if (n <? 10)%N then 48 + n else 87 + n)%N.
Fixpoint hex_digits (k : nat) (n : N) : string :=
  match k with 0 => "" | S k' => String (hex_char (n mod 16)) (hex_digits k' (n / 16)) end.
Fixpoint poly_hash (acc : N) (s : string) : N :=
  match s with
  | EmptyString => acc
  | String c s' => poly_hash ((acc * 257 + N_of_ascii c + 1) mod 2 ^ 256)%N s'
  end.
Definition poly_digest : Sha256 := {| sha256_hex s := hex_digits 64 (poly_hash 0 s) |}.

Lemma hex_char_ok n : (n < 16)%N → is_hex_digit (hex_char n) = true.
Proof. apply (all_below_spec 16 (λ n, is_hex_digit (hex_char n))). vm_compute. reflexivity. Qed.
Lemma hex_digits_ok k n : String.length (hex_digits k n) = k ∧ all_hex (hex_digits k n) = true.
Proof.
  revert n. induction k as [|k IH]; intros n; [done|]. cbn [hex_digits String.length all_hex].
  destruct (IH (n / 16)%N) as [-> ->]. by rewrite hex_char_ok by by apply N.mod_lt.
Qed.
Lemma poly_digest_hex : @HexDigest poly_digest.
Proof.
  constructor. intros s. unfold is_sha256_digest. cbn [sha256_hex poly_digest].
  destruct (hex_digits_ok 64 (poly_hash 0 s)) as [-> ->]. done.
Qed.

#[local] Existing Instances plain_words plain_words_laws poly_digest poly_digest_hex.

Definition daily_brief : Automation :=
  automation_step (SendEmail ["me@example.org"] "brief" "done")
    (automation_step (RunCode "JS" "return 1") (automation_new "auto-1" "brief" (BtSchedule "0 9 * * *"))).
Definition daily_brief_id : string := revision_id_of daily_brief 2 7.

Lemma canonical_json_injective_witness :
  json_object [("b", json_u64 1); ("a", JNull)] = json_object [("a", JNull); ("b", json_u64 1)].
Proof.
  apply (canonical_json_injective (json_object [("b", json_u64 1); ("a", JNull)])
    (json_object [("a", JNull); ("b", json_u64 1)])); [json_ok|json_ok|vm_compute; reflexivity].
Defined.

Lemma revision_id_round_trips_witness :
  parse_revision_id daily_brief_id =
  Ok {| ri_generation := 2; ri_revision := 7; ri_digest := revision_content_digest daily_brief 2 |}.
Proof. apply (revision_id_round_trips daily_brief 2 7); vm_compute; split; done || discriminate. Defined.

Lemma revision_id_pins_witness : (2 = 2)%N ∧ (7 = 7)%N ∧ (daily_brief = daily_brief ∨
  collides (canonical_json (revision_envelope daily_brief 2)) (canonical_json (revision_envelope daily_brief 2))).
Proof. apply (revision_id_pins daily_brief 2 7 daily_brief 2 7); vm_compute; done || discriminate. Defined.

Definition daily_brief_work : result WorkSpec AutomationError := compile_work daily_brief daily_brief_id "occ:1".
Lemma compiled_work_is_its_revision_witness :
  match daily_brief_work with
  | Ok spec => cs_kind <$> ws_steps spec = ["run_code"; "email"] ∧ ws_agent_required spec = false
  | Err _ => False
  end.
Proof.
  destruct daily_brief_work as [spec|] eqn:E; [|exfalso; revert E; vm_compute; discriminate].
  unfold daily_brief_work in E.
  destruct (compiled_work_is_its_revision daily_brief daily_brief_id "occ:1" spec E) as [(_ & _ & Hk & _ & Ha & _) _].
  split; [by rewrite Hk|done].
Defined.

(** An edited definition is refused under the old id. *)
Example edited_definition_is_refused :
  compile_work (automation_step (OnlineSearch "news") daily_brief) daily_brief_id "occ:1" = Err AeRevisionMismatch.
Proof. vm_compute. reflexivity. Qed.
