(* ===== verification/Scheduler.v ===== *)
(** * The trigger plane: jobs, occurrences and their validation

    The data of [everyaios-core/src/scheduler_service.rs]: a job is a definition
    with a trigger, an occurrence is one durable admission of a trigger with the
    snapshot of the definition it admitted. The functions here validate them,
    derive their identities and read idempotency keys; the operations are in
    [SchedulerOps]. *)
From S2P Require Import Order Prelude.
From S2P Require Import Json Cron Revision.

(** ** Policies and monitors *)

(* SRC core/src/scheduler_service.rs @enum:MisfirePolicy MisfirePolicy *)
Inductive MisfirePolicy := MfSkip | MfRunOnceOnResume | MfCatchUp.
#[export] Instance misfire_policy_eq_dec : EqDecision MisfirePolicy.
Proof. solve_decision. Defined.

(* SRC core/src/scheduler_service.rs @struct:SchedulePolicy SchedulePolicy *)
Record SchedulePolicy := {
  sp_suppress_on_battery : bool;
  sp_max_runs_per_hour : option N;
  sp_scope : option string;
  sp_misfire_policy : MisfirePolicy
}.
#[export] Instance schedule_policy_eq_dec : EqDecision SchedulePolicy.
Proof. solve_decision. Defined.

(* SRC core/src/scheduler_service.rs @fn:default#2 SchedulePolicy::default *)
Definition default_policy : SchedulePolicy :=
  {| sp_suppress_on_battery := true; sp_max_runs_per_hour := Some 4%N; sp_scope := None;
     sp_misfire_policy := MfRunOnceOnResume |}.

(* SRC core/src/scheduler_service.rs @enum:MonitorSource MonitorSource *)
Inductive MonitorSource := MsLlm | MsScript (cmd : string) (allow_net : bool).
#[export] Instance monitor_source_eq_dec : EqDecision MonitorSource.
Proof. solve_decision. Defined.

(* SRC core/src/scheduler_service.rs @struct:MonitorConfig MonitorConfig *)
Record MonitorConfig := {
  mc_stop_on_condition : bool;
  mc_last_observation : option string;
  mc_notifications : N;
  mc_source : MonitorSource
}.
#[export] Instance monitor_config_eq_dec : EqDecision MonitorConfig.
Proof. solve_decision. Defined.
Definition default_monitor : MonitorConfig :=
  {| mc_stop_on_condition := false; mc_last_observation := None; mc_notifications := 0; mc_source := MsLlm |}.

(* SRC core/src/scheduler_service.rs @struct:MonitorVerdict MonitorVerdict *)
Record MonitorVerdict := {
  mv_changed : bool;
  mv_notified : bool;
  mv_stopped : bool;
  mv_previous : option string;
  mv_current : string;
  mv_notifications : N
}.

Definition u32_saturating_inc (n : N) : N := N.min (n + 1) u32_max.

(* SRC core/src/scheduler_service.rs @fn:evaluate_script#1 MonitorConfig::evaluate_script *)
Definition evaluate_script (stdout : string) (silent_on_empty : bool) (m : MonitorConfig) : MonitorVerdict :=
  let previous := mc_last_observation m in
  let changed := negb (bool_decide (previous = Some stdout)) in
  let notified := if is_empty stdout && silent_on_empty then false
                  else bool_decide (previous = None) || changed in
  {| mv_changed := changed; mv_notified := notified; mv_stopped := false; mv_previous := previous;
     mv_current := stdout;
     mv_notifications := if notified then u32_saturating_inc (mc_notifications m) else mc_notifications m |}.

(** ** Jobs *)

(* SRC core/src/scheduler_service.rs @struct:Job Job *)
Record Job := {
  jb_id : string;
  jb_automation_id : string;
  jb_revision : N;
  jb_generation : N;
  jb_revision_id : string;
  jb_name : string;
  jb_session_id : string;
  jb_trigger : TriggerSpec;
  jb_steps : list AutomationStep;
  jb_policy : SchedulePolicy;
  jb_enabled : bool;
  jb_paused : bool;
  jb_next_run_at : option N;
  jb_last_fired_at : option N;
  jb_recent_fires : list N;
  jb_monitor : option MonitorConfig;
  jb_notepad : string
}.
#[export] Instance job_eq_dec : EqDecision Job.
Proof. solve_decision. Defined.

(** The fields of a definition, and the mutable flags of the trigger plane. *)
Definition set_definition (name session_id : string) (trigger : TriggerSpec) (steps : list AutomationStep)
    (policy : SchedulePolicy) (enabled : bool) (j : Job) : Job :=
  {| jb_id := jb_id j; jb_automation_id := jb_automation_id j; jb_revision := jb_revision j;
     jb_generation := jb_generation j; jb_revision_id := jb_revision_id j; jb_name := name;
     jb_session_id := session_id; jb_trigger := trigger; jb_steps := steps; jb_policy := policy;
     jb_enabled := enabled; jb_paused := jb_paused j; jb_next_run_at := jb_next_run_at j;
     jb_last_fired_at := jb_last_fired_at j; jb_recent_fires := jb_recent_fires j; jb_monitor := jb_monitor j;
     jb_notepad := jb_notepad j |}.
Definition set_identity (automation_id : string) (revision generation : N) (revision_id : string) (j : Job) : Job :=
  {| jb_id := jb_id j; jb_automation_id := automation_id; jb_revision := revision; jb_generation := generation;
     jb_revision_id := revision_id; jb_name := jb_name j; jb_session_id := jb_session_id j;
     jb_trigger := jb_trigger j; jb_steps := jb_steps j; jb_policy := jb_policy j; jb_enabled := jb_enabled j;
     jb_paused := jb_paused j; jb_next_run_at := jb_next_run_at j; jb_last_fired_at := jb_last_fired_at j;
     jb_recent_fires := jb_recent_fires j; jb_monitor := jb_monitor j; jb_notepad := jb_notepad j |}.
Definition set_plane (enabled paused : bool) (next last : option N) (recent : list N)
    (monitor : option MonitorConfig) (notepad : string) (j : Job) : Job :=
  {| jb_id := jb_id j; jb_automation_id := jb_automation_id j; jb_revision := jb_revision j;
     jb_generation := jb_generation j; jb_revision_id := jb_revision_id j; jb_name := jb_name j;
     jb_session_id := jb_session_id j; jb_trigger := jb_trigger j; jb_steps := jb_steps j; jb_policy := jb_policy j;
     jb_enabled := enabled; jb_paused := paused; jb_next_run_at := next; jb_last_fired_at := last;
     jb_recent_fires := recent; jb_monitor := monitor; jb_notepad := notepad |}.
Definition set_enabled_flag (b : bool) (j : Job) : Job :=
  set_plane b (jb_paused j) (jb_next_run_at j) (jb_last_fired_at j) (jb_recent_fires j) (jb_monitor j) (jb_notepad j) j.
Definition set_paused (b : bool) (j : Job) : Job :=
  set_plane (jb_enabled j) b (jb_next_run_at j) (jb_last_fired_at j) (jb_recent_fires j) (jb_monitor j) (jb_notepad j) j.
Definition set_next_run (n : option N) (j : Job) : Job :=
  set_plane (jb_enabled j) (jb_paused j) n (jb_last_fired_at j) (jb_recent_fires j) (jb_monitor j) (jb_notepad j) j.
Definition set_fires (last : option N) (recent : list N) (j : Job) : Job :=
  set_plane (jb_enabled j) (jb_paused j) (jb_next_run_at j) last recent (jb_monitor j) (jb_notepad j) j.
Definition set_monitor_config (m : option MonitorConfig) (j : Job) : Job :=
  set_plane (jb_enabled j) (jb_paused j) (jb_next_run_at j) (jb_last_fired_at j) (jb_recent_fires j) m (jb_notepad j) j.
Definition set_notepad (s : string) (j : Job) : Job :=
  set_plane (jb_enabled j) (jb_paused j) (jb_next_run_at j) (jb_last_fired_at j) (jb_recent_fires j) (jb_monitor j) s j.

(** ** Occurrences *)

(* SRC core/src/scheduler_service.rs @enum:OccurrenceTrigger OccurrenceTrigger *)
Inductive OccurrenceTrigger :=
  | OtSchedule (scheduled_at : N)
  | OtManual
  | OtEvent (kind : string)
  | OtWebhook (path : string).
#[export] Instance occurrence_trigger_eq_dec : EqDecision OccurrenceTrigger.
Proof. solve_decision. Defined.

(* SRC core/src/scheduler_service.rs @struct:AutomationRevision AutomationRevision *)
Record AutomationRevision := {
  ar_automation_id : string;
  ar_revision : N;
  ar_revision_id : string;
  ar_name : string;
  ar_session_id : string;
  ar_trigger : TriggerSpec;
  ar_steps : list AutomationStep;
  ar_policy : SchedulePolicy
}.
#[export] Instance automation_revision_eq_dec : EqDecision AutomationRevision.
Proof. solve_decision. Defined.

(* SRC core/src/scheduler_service.rs @enum:OccurrenceState OccurrenceState *)
Inductive OccurrenceState := OsPending | OsUncertain | OsCancelled | OsTerminal.
#[export] Instance occurrence_state_eq_dec : EqDecision OccurrenceState.
Proof. solve_decision. Defined.

(* SRC core/src/scheduler_service.rs @struct:WorkRunAdmissionReceipt WorkRunAdmissionReceipt *)
Record WorkRunAdmissionReceipt := {
  wr_work_id : string;
  wr_run_id : string;
  wr_automation_id : string;
  wr_revision_id : string;
  wr_trigger_occurrence_id : string;
  wr_automation_generation : N;
  wr_durable : bool
}.
#[export] Instance admission_receipt_eq_dec : EqDecision WorkRunAdmissionReceipt.
Proof. solve_decision. Defined.

(* SRC core/src/scheduler_service.rs @struct:AutomationOccurrence AutomationOccurrence *)
Record AutomationOccurrence := {
  oc_trigger_occurrence_id : string;
  oc_automation_id : string;
  oc_revision_id : string;
  oc_trigger : OccurrenceTrigger;
  oc_payload_digest : string;
  oc_dedup_digest : string;
  oc_admitted_at : N;
  oc_state : OccurrenceState;
  oc_idempotency_key : string;
  oc_fired_at : option N;
  oc_work_id : option string;
  oc_run_id : option string;
  oc_admission_error : option string;
  oc_admission_receipt : option WorkRunAdmissionReceipt;
  oc_revision : AutomationRevision
}.
#[export] Instance automation_occurrence_eq_dec : EqDecision AutomationOccurrence.
Proof. solve_decision. Defined.

(* SRC core/src/scheduler_service.rs @fn:is_pending AutomationOccurrence::is_pending *)
Definition is_pending (o : AutomationOccurrence) : bool := bool_decide (oc_state o = OsPending).
(* SRC core/src/scheduler_service.rs @fn:is_uncertain AutomationOccurrence::is_uncertain *)
Definition is_uncertain (o : AutomationOccurrence) : bool := bool_decide (oc_state o = OsUncertain).
(* SRC core/src/scheduler_service.rs @fn:is_cancelled AutomationOccurrence::is_cancelled *)
Definition is_cancelled (o : AutomationOccurrence) : bool := bool_decide (oc_state o = OsCancelled).
(* SRC core/src/scheduler_service.rs @fn:is_terminal AutomationOccurrence::is_terminal *)
Definition occurrence_is_terminal (o : AutomationOccurrence) : bool :=
  match oc_state o with OsTerminal | OsCancelled => true | _ => false end.

(** An occurrence with its admission state, error and proof changed. *)
Definition set_admission (state : OccurrenceState) (fired : option N) (work run error : option string)
    (receipt : option WorkRunAdmissionReceipt) (o : AutomationOccurrence) : AutomationOccurrence :=
  {| oc_trigger_occurrence_id := oc_trigger_occurrence_id o; oc_automation_id := oc_automation_id o;
     oc_revision_id := oc_revision_id o; oc_trigger := oc_trigger o; oc_payload_digest := oc_payload_digest o;
     oc_dedup_digest := oc_dedup_digest o; oc_admitted_at := oc_admitted_at o; oc_state := state;
     oc_idempotency_key := oc_idempotency_key o; oc_fired_at := fired; oc_work_id := work; oc_run_id := run;
     oc_admission_error := error; oc_admission_receipt := receipt; oc_revision := oc_revision o |}.

(** ** What serde writes *)

Definition event_kind_str (k : EventKind) : string :=
  match k with
  | CiBuildFail => "ci_build_fail" | TestRegression => "test_regression" | RepoChange => "repo_change"
  | TicketAssign => "ticket_assign" | TelemetryThreshold => "telemetry_threshold"
  end.
Definition window_str (w : DayWindow) : string :=
  match w with Morning => "morning" | Afternoon => "afternoon" | Evening => "evening" end.
Definition misfire_str (m : MisfirePolicy) : string :=
  match m with MfSkip => "skip" | MfRunOnceOnResume => "run_once_on_resume" | MfCatchUp => "catch_up" end.
Definition json_i32 (z : Z) : Value := JNumber (if (0 <=? z)%Z then PosInt (Z.to_N z) else NegInt z).
Definition trigger_spec_json (t : TriggerSpec) : Value :=
  match t with
  | TsCron expr => json_object [("type", JString "cron"); ("expr", JString expr)]
  | TsInterval secs => json_object [("type", JString "interval"); ("secs", json_u64 secs)]
  | TsEvent kind filter =>
      json_object [("type", JString "event"); ("kind", JString (event_kind_str kind)); ("filter", JString filter)]
  | TsWebhook path schema => json_object [("type", JString "webhook"); ("path", JString path); ("schema", json_list schema)]
  | TsManual => json_object [("type", JString "manual")]
  | TsWindow w offset =>
      json_object [("type", JString "window"); ("window", JString (window_str w)); ("utc_offset_minutes", json_i32 offset)]
  end.
Definition policy_json (p : SchedulePolicy) : Value :=
  json_object [("suppressOnBattery", JBool (sp_suppress_on_battery p));
               ("maxRunsPerHour", json_opt json_u64 (sp_max_runs_per_hour p));
               ("scope", json_opt JString (sp_scope p));
               ("misfirePolicy", JString (misfire_str (sp_misfire_policy p)))].
Definition occurrence_trigger_json (t : OccurrenceTrigger) : Value :=
  match t with
  | OtSchedule at_ => json_object [("type", JString "schedule"); ("scheduled_at", json_u64 at_)]
  | OtManual => json_object [("type", JString "manual")]
  | OtEvent kind => json_object [("type", JString "event"); ("kind", JString kind)]
  | OtWebhook path => json_object [("type", JString "webhook"); ("path", JString path)]
  end.

(** ** Identities *)

Section identities.
Context `{JsonWords} {sha : Sha256}.

(* SRC core/src/scheduler_service.rs @fn:digest_json digest_json *)
Definition digest_json (v : Value) : string := sha256_hex (canonical_json v).

(* SRC core/src/scheduler_service.rs @fn:trusted_automation_id trusted_automation_id *)
Definition trusted_automation_id (registry_id : string) : string :=
  "automation:auto:" +:+ sha256_hex ("everyaios.automation.v1" +:+ ch NUL +:+ registry_id).

(* SRC core/src/scheduler_service.rs @fn:generation AutomationRevision::generation *)
Definition revision_generation (r : AutomationRevision) : N :=
  match parse_revision_id (ar_revision_id r) with Ok i => ri_generation i | Err _ => 0%N end.

(* SRC core/src/scheduler_service.rs @fn:automation AutomationRevision::automation *)
Definition revision_automation (r : AutomationRevision) : Automation :=
  let trigger := match ar_trigger r with TsCron expr => BtSchedule expr | _ => BtManual end in
  let metadata_digest := digest_json (json_object
    [("sessionId", JString (ar_session_id r)); ("trigger", trigger_spec_json (ar_trigger r));
     ("policy", policy_json (ar_policy r))]) in
  {| au_id := ar_automation_id r +:+ "::snapshot:" +:+ metadata_digest; au_name := ar_name r;
     au_trigger := trigger; au_steps := ar_steps r |}.

(* SRC core/src/scheduler_service.rs @fn:revision_snapshot revision_snapshot *)
Definition revision_snapshot (j : Job) : AutomationRevision :=
  {| ar_automation_id := jb_automation_id j; ar_revision := jb_revision j; ar_revision_id := jb_revision_id j;
     ar_name := jb_name j; ar_session_id := jb_session_id j; ar_trigger := jb_trigger j; ar_steps := jb_steps j;
     ar_policy := jb_policy j |}.

(* SRC core/src/scheduler_service.rs @fn:revision_id_for revision_id_for *)
Definition revision_id_for (j : Job) (revision : N) : string :=
  revision_id_of (revision_automation (revision_snapshot j)) (jb_generation j) revision.

(** The digest of the version-2 files, over the six fields of a definition. *)
Definition definition_json (automation_id name session_id : string) (trigger : TriggerSpec)
    (steps : list AutomationStep) (policy : SchedulePolicy) : Value :=
  json_object [("automationId", JString automation_id); ("name", JString name); ("sessionId", JString session_id);
               ("trigger", trigger_spec_json trigger); ("steps", JArray (step_json <$> steps));
               ("policy", policy_json policy)].

(* SRC core/src/scheduler_service.rs @fn:legacy_definition_digest legacy_definition_digest *)
Definition legacy_definition_digest (j : Job) : string :=
  digest_json (definition_json (jb_automation_id j) (jb_name j) (jb_session_id j) (jb_trigger j) (jb_steps j) (jb_policy j)).

(* SRC core/src/scheduler_service.rs @fn:legacy_revision_id_matches legacy_revision_id_matches *)
Definition legacy_revision_id_matches (j : Job) (revision_id : string) : bool :=
  String.eqb revision_id (pretty (jb_revision j) +:+ ":" +:+ legacy_definition_digest j).

(* SRC core/src/scheduler_service.rs @fn:legacy_revision_id_for_snapshot legacy_revision_id_for_snapshot *)
Definition legacy_revision_id_for_snapshot (r : AutomationRevision) : string :=
  pretty (ar_revision r) +:+ ":" +:+
  digest_json (definition_json (ar_automation_id r) (ar_name r) (ar_session_id r) (ar_trigger r) (ar_steps r) (ar_policy r)).

(* SRC core/src/scheduler_service.rs @fn:new_with_generation Job::new_with_generation *)
Definition job_new_with_generation (id name session_id : string) (trigger : TriggerSpec) (generation : N) : Job :=
  let j := {| jb_id := id; jb_automation_id := trusted_automation_id id; jb_revision := 1; jb_generation := generation;
              jb_revision_id := ""; jb_name := name; jb_session_id := session_id; jb_trigger := trigger;
              jb_steps := []; jb_policy := default_policy; jb_enabled := true; jb_paused := false;
              jb_next_run_at := None; jb_last_fired_at := None; jb_recent_fires := []; jb_monitor := None;
              jb_notepad := "" |} in
  set_identity (jb_automation_id j) (jb_revision j) (jb_generation j) (revision_id_for j (jb_revision j)) j.

(* SRC core/src/scheduler_service.rs @fn:new#1 Job::new *)
Definition job_new (id name session_id : string) (trigger : TriggerSpec) : Job :=
  job_new_with_generation id name session_id trigger 1.

(* SRC core/src/scheduler_service.rs @fn:dedup_digest_for dedup_digest_for *)
Definition dedup_digest_for (automation_id : string) (generation : N) (trigger : OccurrenceTrigger)
    (idempotency_key : string) : string :=
  digest_json (json_object [("automationId", JString automation_id); ("generation", json_u64 generation);
                            ("trigger", occurrence_trigger_json trigger);
                            ("idempotencyKey", JString idempotency_key)]).

(** [&digest[..32]]. *)
Definition short_digest (digest : string) : string := String.substring 0 32 digest.

(* SRC core/src/scheduler_service.rs @fn:expected_work_id SchedulerService::expected_work_id *)
Definition expected_work_id (o : AutomationOccurrence) : string :=
  "automation-work:" +:+ oc_automation_id o +:+ ":" +:+ oc_trigger_occurrence_id o.
(* SRC core/src/scheduler_service.rs @fn:expected_run_id SchedulerService::expected_run_id *)
Definition expected_run_id (o : AutomationOccurrence) : string :=
  "automation-run:" +:+ oc_automation_id o +:+ ":" +:+ oc_trigger_occurrence_id o.

(** ** Validation *)

Context `{StrDebug}.

(* SRC core/src/scheduler_service.rs @fn:validate_job_definition validate_job_definition *)
Definition validate_job_definition (j : Job) : result unit string :=
  if is_empty (trim (jb_id j)) || is_empty (trim (jb_name j)) then
    Err ("scheduler job `" +:+ jb_id j +:+ "` has an empty id/name")
  else if (jb_generation j =? 0)%N || (jb_revision j =? 0)%N then
    Err ("scheduler job `" +:+ jb_id j +:+ "` has no generation/revision")
  else
    _ <-? match jb_trigger j with
          | TsCron expr =>
              match cron_parse expr with
              | Ok _ => Ok tt
              | Err e => Err ("invalid cron for `" +:+ jb_id j +:+ "`: " +:+ e)
              end
          | TsInterval secs =>
              if (secs =? 0)%N then Err ("scheduler interval for `" +:+ jb_id j +:+ "` must be non-zero") else Ok tt
          | TsWebhook path _ =>
              if is_empty (trim path) then Err ("scheduler webhook for `" +:+ jb_id j +:+ "` has an empty path") else Ok tt
          | TsEvent _ _ | TsWindow _ _ | TsManual => Ok tt
          end;;
    match jb_trigger j, sp_misfire_policy (jb_policy j) with
    | TsCron _, MfCatchUp => Err ("scheduler job `" +:+ jb_id j +:+ "` uses unsupported catch_up misfire policy")
    | _, _ => Ok tt
    end.

(* SRC core/src/scheduler_service.rs @fn:occurrence_trigger_matches_revision occurrence_trigger_matches_revision *)
Definition occurrence_trigger_matches_revision (t : OccurrenceTrigger) (r : TriggerSpec) : bool :=
  match t, r with
  | OtSchedule _, TsCron _ | OtSchedule _, TsInterval _ | OtSchedule _, TsWindow _ _ => true
  | OtManual, TsManual => true
  | OtEvent kind, TsEvent expected _ => String.eqb (event_kind_str expected) kind
  | OtWebhook path, TsWebhook expected _ => String.eqb path expected
  | _, _ => false
  end.

(* SRC core/src/scheduler_service.rs @fn:validate_receipt_for validate_receipt_for *)
Definition validate_receipt_for (o : AutomationOccurrence) (r : WorkRunAdmissionReceipt)
    (expected_work_id expected_run_id : string) : result unit string :=
  if negb (wr_durable r) then Err "Work/Run receipt is not marked durable"
  else if negb (String.eqb (wr_work_id r) expected_work_id) || negb (String.eqb (wr_run_id r) expected_run_id) then
    Err "Work/Run receipt ids do not match the deterministic occurrence owner"
  else if negb (String.eqb (wr_automation_id r) (oc_automation_id o)) ||
          negb (String.eqb (wr_revision_id r) (oc_revision_id o)) ||
          negb (String.eqb (wr_trigger_occurrence_id r) (oc_trigger_occurrence_id o)) ||
          negb (wr_automation_generation r =? revision_generation (oc_revision o))%N then
    Err "Work/Run receipt provenance does not match the occurrence"
  else Ok tt.

Definition is_some {A} (o : option A) : bool := match o with Some _ => true | None => false end.

(** The part of [validate_occurrence_shape] that looks at the admission state. *)
Definition validate_occurrence_state (o : AutomationOccurrence) : result unit string :=
  match oc_state o with
  | OsPending =>
      if is_some (oc_fired_at o) || is_some (oc_work_id o) || is_some (oc_run_id o) ||
         is_some (oc_admission_receipt o) || is_some (oc_admission_error o)
      then Err "pending occurrence contains terminal/admission metadata" else Ok tt
  | OsUncertain =>
      if is_some (oc_fired_at o) || is_some (oc_admission_receipt o) then
        Err "uncertain occurrence contains a terminal receipt"
      else if match oc_admission_error o with None => true | Some reason => is_empty (trim reason) end then
        Err "uncertain occurrence requires a reconciliation reason"
      else Ok tt
  | OsCancelled =>
      if is_some (oc_fired_at o) || is_some (oc_work_id o) || is_some (oc_run_id o) || is_some (oc_admission_receipt o)
      then Err "cancelled occurrence contains an admission receipt" else Ok tt
  | OsTerminal =>
      if negb (is_some (oc_fired_at o)) || negb (is_some (oc_work_id o)) || negb (is_some (oc_run_id o)) ||
         is_some (oc_admission_error o)
      then Err "terminal occurrence lacks Work/Run admission metadata"
      else match oc_admission_receipt o with
      | None => Err "terminal occurrence lacks durable receipt"
      | Some r => validate_receipt_for o r (expected_work_id o) (expected_run_id o)
      end
  end.

(* SRC core/src/scheduler_service.rs @fn:validate_occurrence_shape validate_occurrence_shape *)
Definition validate_occurrence_shape (o : AutomationOccurrence) : result unit string :=
  if negb (starts_with "occ:" (oc_trigger_occurrence_id o)) ||
     negb (String.length (oc_trigger_occurrence_id o) =? 36)%nat ||
     is_empty (trim (oc_automation_id o)) || is_empty (trim (oc_revision_id o)) ||
     is_empty (trim (oc_idempotency_key o)) ||
     negb (is_sha256_digest (oc_payload_digest o)) || negb (is_sha256_digest (oc_dedup_digest o))
  then Err "scheduler occurrence has an invalid identity/digest field"
  else
    match parse_revision_id (oc_revision_id o) with
    | Err e => Err ("scheduler occurrence has invalid revision: " +:+ automation_error_text e)
    | Ok identity =>
        if negb (String.eqb (ar_automation_id (oc_revision o)) (oc_automation_id o)) ||
           negb (String.eqb (ar_revision_id (oc_revision o)) (oc_revision_id o)) ||
           negb (ar_revision (oc_revision o) =? ri_revision identity)%N ||
           negb (revision_generation (oc_revision o) =? ri_generation identity)%N ||
           negb (String.eqb (oc_revision_id o)
                   (revision_id_of (revision_automation (oc_revision o)) (ri_generation identity) (ri_revision identity)))
        then Err ("scheduler occurrence `" +:+ oc_trigger_occurrence_id o +:+ "` has inconsistent revision provenance")
        else if negb (occurrence_trigger_matches_revision (oc_trigger o) (ar_trigger (oc_revision o))) then
          Err ("scheduler occurrence `" +:+ oc_trigger_occurrence_id o +:+ "` trigger does not match its immutable revision")
        else
          let expected_dedup :=
            dedup_digest_for (oc_automation_id o) (ri_generation identity) (oc_trigger o) (oc_idempotency_key o) in
          if negb (starts_with "legacy:" (oc_idempotency_key o)) &&
             (negb (String.eqb expected_dedup (oc_dedup_digest o)) ||
              negb (String.eqb (oc_trigger_occurrence_id o) ("occ:" +:+ short_digest (oc_dedup_digest o))))
          then Err ("scheduler occurrence `" +:+ oc_trigger_occurrence_id o +:+ "` has inconsistent delivery identity")
          else validate_occurrence_state o
    end.
End identities.

(** ** Idempotency keys *)

(** [char::is_control] of some character: below U+0020, U+007F to U+009F. *)
Fixpoint has_control (s : string) : bool :=
  match s with
  | EmptyString => false
  | String c s' =>
      let n := N_of_ascii c in
      ((n <? 32) || (n =? 127))%N ||
      ((n =? 194)%N && match s' with String d _ => ((128 <=? N_of_ascii d) && (N_of_ascii d <=? 159))%N | _ => false end) ||
      has_control s'
  end.

(* SRC core/src/scheduler_service.rs @fn:normalize_idempotency_key normalize_idempotency_key *)
Definition normalize_idempotency_key (value kind : string) : result string string :=
  let key := trim value in
  if is_empty key then Err (kind +:+ " admission requires a stable idempotency key")
  else if (256 <? String.length key)%nat || has_control key then Err (kind +:+ " idempotency key is invalid")
  else Ok key.

Definition KEY_NAMES : list string :=
  ["deliveryId"; "delivery_id"; "idempotencyKey"; "idempotency_key"; "requestId"; "request_id"; "eventId"; "event_id"].
Fixpoint find_key (kind : string) (names : list string) (object : list (string * Value)) (found : option string)
    : result (option string) string :=
  match names with
  | [] => Ok found
  | name :: names' =>
      match obj_get name object with
      | None => find_key kind names' object found
      | Some value =>
          if is_some found then Err (kind +:+ " admission supplied multiple idempotency keys")
          else match as_str value with
          | Some s => find_key kind names' object (Some s)
          | None => Err (kind +:+ " idempotency key must be a string")
          end
      end
  end.

(* SRC core/src/scheduler_service.rs @fn:extract_idempotency_key extract_idempotency_key *)
Definition extract_idempotency_key (payload : Value) (kind : string) : result string string :=
  match as_object payload with
  | None => Err (kind +:+ " admission requires an object payload")
  | Some object =>
      found <-? find_key kind KEY_NAMES object None;;
      match found with
      | None => Err (kind +:+ " admission requires a stable idempotency key")
      | Some key => normalize_idempotency_key key kind
      end
  end.
