(* ===== verification/SchedulerOps.v ===== *)
(** * The trigger plane: the service and its operations

    [SchedulerService] of [everyaios-core/src/scheduler_service.rs]: the
    registry of jobs, the index of occurrences, admission, advancement by
    receipt, and the store file with its loading. A write of the file is atomic
    (a temporary file and a rename): it replaces the store or fails and leaves
    it; the outcomes of the writes to come are part of the state. The iteration
    order of the job map is [map_iter]; the wall clock is an argument. *)
From S2P Require Import Order Prelude.
From S2P Require Import Json Cron Revision Scheduler.
From S2P Require Import Lease.

(* SRC core/src/scheduler_service.rs @struct:NudgeSample NudgeSample *)
Record NudgeSample := { ns_goal : string; ns_unix_secs : N }.

(* SRC core/src/scheduler_service.rs @struct:Incident Incident *)
Record Incident := {
  in_id : string; in_job_id : string; in_at_ms : N; in_kind : string; in_detail : string; in_acked : bool
}.

(* SRC core/src/scheduler_service.rs @struct:CronCheck CronCheck *)
Record CronCheck := { ck_name : string; ck_ok : bool; ck_detail : string }.

(* SRC core/src/scheduler_service.rs @struct:SchedulerService SchedulerService *)
Record SchedulerService := {
  ss_jobs : gmap string Job;
  ss_on_battery : bool;
  ss_nudge_log : list NudgeSample;
  ss_webhook_token : option string;
  ss_persist_path : option string;
  ss_occurrences : list AutomationOccurrence;
  ss_generation_counters : gmap string N;
  ss_load_error : option string;
  ss_incidents : list Incident;
  ss_incident_seq : N
}.

Definition set_jobs (jobs : gmap string Job) (s : SchedulerService) : SchedulerService :=
  {| ss_jobs := jobs; ss_on_battery := ss_on_battery s; ss_nudge_log := ss_nudge_log s;
     ss_webhook_token := ss_webhook_token s; ss_persist_path := ss_persist_path s;
     ss_occurrences := ss_occurrences s; ss_generation_counters := ss_generation_counters s;
     ss_load_error := ss_load_error s; ss_incidents := ss_incidents s; ss_incident_seq := ss_incident_seq s |}.
Definition set_occurrences (l : list AutomationOccurrence) (s : SchedulerService) : SchedulerService :=
  {| ss_jobs := ss_jobs s; ss_on_battery := ss_on_battery s; ss_nudge_log := ss_nudge_log s;
     ss_webhook_token := ss_webhook_token s; ss_persist_path := ss_persist_path s;
     ss_occurrences := l; ss_generation_counters := ss_generation_counters s;
     ss_load_error := ss_load_error s; ss_incidents := ss_incidents s; ss_incident_seq := ss_incident_seq s |}.
Definition set_counters (c : gmap string N) (s : SchedulerService) : SchedulerService :=
  {| ss_jobs := ss_jobs s; ss_on_battery := ss_on_battery s; ss_nudge_log := ss_nudge_log s;
     ss_webhook_token := ss_webhook_token s; ss_persist_path := ss_persist_path s;
     ss_occurrences := ss_occurrences s; ss_generation_counters := c;
     ss_load_error := ss_load_error s; ss_incidents := ss_incidents s; ss_incident_seq := ss_incident_seq s |}.
Definition set_load_error (e : option string) (s : SchedulerService) : SchedulerService :=
  {| ss_jobs := ss_jobs s; ss_on_battery := ss_on_battery s; ss_nudge_log := ss_nudge_log s;
     ss_webhook_token := ss_webhook_token s; ss_persist_path := ss_persist_path s;
     ss_occurrences := ss_occurrences s; ss_generation_counters := ss_generation_counters s;
     ss_load_error := e; ss_incidents := ss_incidents s; ss_incident_seq := ss_incident_seq s |}.
(** The fields that are not persisted. *)
Definition set_volatile (battery : bool) (nudges : list NudgeSample) (token : option string)
    (incidents : list Incident) (seq : N) (s : SchedulerService) : SchedulerService :=
  {| ss_jobs := ss_jobs s; ss_on_battery := battery; ss_nudge_log := nudges; ss_webhook_token := token;
     ss_persist_path := ss_persist_path s; ss_occurrences := ss_occurrences s;
     ss_generation_counters := ss_generation_counters s; ss_load_error := ss_load_error s;
     ss_incidents := incidents; ss_incident_seq := seq |}.

(* SRC core/src/scheduler_service.rs 780 793 SchedulerService::new *)
Definition scheduler_new : SchedulerService :=
  {| ss_jobs := ∅; ss_on_battery := false; ss_nudge_log := []; ss_webhook_token := None; ss_persist_path := None;
     ss_occurrences := []; ss_generation_counters := ∅; ss_load_error := None; ss_incidents := [];
     ss_incident_seq := 0 |}.

(** ** The store file *)

(* SRC core/src/scheduler_service.rs @struct:PersistedScheduler PersistedScheduler *)
Record PersistedScheduler := {
  ps_version : N;
  ps_jobs : list Job;
  ps_occurrences : list AutomationOccurrence;
  ps_generation_counters : gmap string N
}.
(* SRC core/src/scheduler_service.rs @const:SCHEDULER_STORE_VERSION SCHEDULER_STORE_VERSION *)
Definition SCHEDULER_STORE_VERSION : N := 3.

(** What is read at a path: no file, a read or parse error with its text, the
    bare list of jobs of version 1, or a store (the retired execution fields of
    a job are dropped before it is decoded). *)
Inductive StoreFile :=
  | SfMissing
  | SfBroken (error : string)
  | SfJobs (jobs : list Job)
  | SfStore (store : PersistedScheduler).

Record SchedState := {
  st_svc : SchedulerService;
  st_file : StoreFile;
  st_writes : list (result unit string)
}.
Definition with_svc (s : SchedulerService) (st : SchedState) : SchedState :=
  {| st_svc := s; st_file := st_file st; st_writes := st_writes st |}.

Definition Sch A := SchedState → result A string * SchedState.
Definition sch_ret {A} (a : A) : Sch A := λ st, (Ok a, st).
Definition sch_fail {A} (e : string) : Sch A := λ st, (Err e, st).
Definition sch_bind {A B} (m : Sch A) (k : A → Sch B) : Sch B := λ st,
  match m st with (Ok a, st') => k a st' | (Err e, st') => (Err e, st') end.
Definition sch_lift {A} (r : result A string) : Sch A := λ st, (r, st).
Definition sch_get {A} (f : SchedulerService → A) : Sch A := λ st, (Ok (f (st_svc st)), st).
Notation "x <-s m ;; k" := (sch_bind m (λ x, k)) (at level 100, m at next level, right associativity).

(* SRC core/src/scheduler_service.rs @fn:ensure_healthy SchedulerService::ensure_healthy *)
Definition ensure_healthy (s : SchedulerService) : result unit string :=
  match ss_load_error s with
  | Some error => Err ("scheduler registry unavailable: " +:+ error)
  | None => Ok tt
  end.

Definition admission_le (a b : AutomationOccurrence) : bool :=
  (oc_admitted_at a <? oc_admitted_at b)%N ||
  ((oc_admitted_at a =? oc_admitted_at b)%N && str_le (oc_trigger_occurrence_id a) (oc_trigger_occurrence_id b)).

(** The store the registry is written as; the keys of the map are the ids. *)
Definition store_of (s : SchedulerService) : PersistedScheduler :=
  {| ps_version := SCHEDULER_STORE_VERSION;
     ps_jobs := sort_by (λ a b, str_le (jb_id a) (jb_id b)) (map_to_list (ss_jobs s)).*2;
     ps_occurrences := sort_by admission_le (ss_occurrences s);
     ps_generation_counters := ss_generation_counters s |}.

(* SRC core/src/scheduler_service.rs @fn:persist SchedulerService::persist *)
Definition sched_persist : Sch unit := λ st,
  match ensure_healthy (st_svc st) with
  | Err e => (Err e, st)
  | Ok _ =>
      match ss_persist_path (st_svc st) with
      | None => (Ok tt, st)
      | Some _ =>
          match st_writes st with
          | Err e :: ws => (Err e, {| st_svc := st_svc st; st_file := st_file st; st_writes := ws |})
          | Ok _ :: ws => (Ok tt, {| st_svc := st_svc st; st_file := SfStore (store_of (st_svc st)); st_writes := ws |})
          | [] => (Ok tt, {| st_svc := st_svc st; st_file := SfStore (store_of (st_svc st)); st_writes := [] |})
          end
      end
  end.

(** The shape of every checked mutation: refuse an unhealthy registry, compute
    the answer with the new registry (or none, when nothing is to be written),
    write it through, and put the old registry back when the write fails. *)
Definition checked {A} (f : SchedulerService → result (A * option SchedulerService) string) : Sch A := λ st,
  match ensure_healthy (st_svc st) with
  | Err e => (Err e, st)
  | Ok _ =>
      match f (st_svc st) with
      | Err e => (Err e, st)
      | Ok (a, None) => (Ok a, st)
      | Ok (a, Some s') =>
          match sched_persist (with_svc s' st) with
          | (Ok _, st') => (Ok a, st')
          | (Err e, st') => (Err e, with_svc (st_svc st) st')
          end
      end
  end.

Section service.
Context `{JsonWords} {sha : Sha256} `{StrDebug} `{HashIter}.

(** ** Loading *)

Definition bump_counter (id : string) (generation : N) (c : gmap string N) : gmap string N :=
  match c !! id with Some current => <[id := N.max current generation]> c | None => <[id := generation]> c end.

(* SRC core/src/scheduler_service.rs 864 924 SchedulerService::install_loaded *)
Definition install_job (j : Job) (s : SchedulerService) : result SchedulerService string :=
  if is_empty (trim (jb_id j)) then Err "scheduler job has an empty id"
  else
    let trusted := trusted_automation_id (jb_id j) in
    let automation_id := if is_empty (trim (jb_automation_id j)) then trusted else jb_automation_id j in
    if negb (String.eqb automation_id trusted) then
      Err ("scheduler job `" +:+ jb_id j +:+ "` has an untrusted automation id")
    else
      let revision := if (jb_revision j =? 0)%N then 1%N else jb_revision j in
      let generation := if (jb_generation j =? 0)%N then 1%N else jb_generation j in
      let j := set_identity automation_id revision generation (jb_revision_id j) j in
      let counters := bump_counter (jb_id j) generation (ss_generation_counters s) in
      _ <-? validate_job_definition j;;
      let expected_revision := revision_id_for j (jb_revision j) in
      if negb (is_empty (jb_revision_id j)) && negb (String.eqb (jb_revision_id j) expected_revision) &&
         negb (legacy_revision_id_matches j (jb_revision_id j)) then
        Err ("scheduler job `" +:+ jb_id j +:+ "` has an invalid immutable revision id")
      else
        let j := set_identity automation_id revision generation expected_revision j in
        if is_some (ss_jobs s !! jb_id j) then Err ("duplicate scheduler job id `" +:+ jb_id j +:+ "`")
        else if existsb (λ e, String.eqb (jb_automation_id e.2) (jb_automation_id j)) (map_iter (ss_jobs s)) then
          Err ("duplicate scheduler automation id `" +:+ jb_automation_id j +:+ "`")
        else Ok (set_counters counters (set_jobs (<[jb_id j := j]> (ss_jobs s)) s)).

Fixpoint install_jobs (l : list Job) (s : SchedulerService) : result SchedulerService string :=
  match l with [] => Ok s | j :: l' => s' <-? install_job j s;; install_jobs l' s' end.

Definition set_revision_id (rid : string) (r : AutomationRevision) : AutomationRevision :=
  {| ar_automation_id := ar_automation_id r; ar_revision := ar_revision r; ar_revision_id := rid; ar_name := ar_name r;
     ar_session_id := ar_session_id r; ar_trigger := ar_trigger r; ar_steps := ar_steps r; ar_policy := ar_policy r |}.
Definition set_provenance (revision_id key : string) (state : OccurrenceState) (error : option string)
    (revision : AutomationRevision) (o : AutomationOccurrence) : AutomationOccurrence :=
  {| oc_trigger_occurrence_id := oc_trigger_occurrence_id o; oc_automation_id := oc_automation_id o;
     oc_revision_id := revision_id; oc_trigger := oc_trigger o; oc_payload_digest := oc_payload_digest o;
     oc_dedup_digest := oc_dedup_digest o; oc_admitted_at := oc_admitted_at o; oc_state := state;
     oc_idempotency_key := key; oc_fired_at := oc_fired_at o; oc_work_id := oc_work_id o; oc_run_id := oc_run_id o;
     oc_admission_error := error; oc_admission_receipt := oc_admission_receipt o; oc_revision := revision |}.

(* SRC core/src/scheduler_service.rs @fn:normalize_loaded_occurrence normalize_loaded_occurrence *)
Definition normalize_loaded_occurrence (o : AutomationOccurrence) : result AutomationOccurrence string :=
  identity <-? (if negb (is_ok (parse_revision_id (oc_revision_id o))) then
      let legacy_id := legacy_revision_id_for_snapshot (oc_revision o) in
      if negb (is_empty (oc_revision_id o)) && negb (String.eqb (oc_revision_id o) legacy_id) then
        Err ("scheduler occurrence `" +:+ oc_trigger_occurrence_id o +:+ "` has an invalid legacy revision id")
      else
        let generation := N.max (revision_generation (oc_revision o)) 1 in
        let revision := N.max (ar_revision (oc_revision o)) 1 in
        let canonical := revision_id_of (revision_automation (oc_revision o)) generation revision in
        Ok (canonical, set_revision_id canonical (oc_revision o))
    else if is_empty (trim (ar_revision_id (oc_revision o))) then
      Ok (oc_revision_id o, set_revision_id (oc_revision_id o) (oc_revision o))
    else Ok (oc_revision_id o, oc_revision o));;
  let had_key := negb (is_empty (trim (oc_idempotency_key o))) in
  let key := if had_key then oc_idempotency_key o else "legacy:" +:+ oc_dedup_digest o in
  let '(state, error) :=
    match oc_state o with
    | OsPending | OsTerminal =>
        if is_some (oc_admission_receipt o) then (OsTerminal, oc_admission_error o)
        else if negb had_key || is_some (oc_admission_error o) || is_some (oc_fired_at o) ||
                is_some (oc_work_id o) || is_some (oc_run_id o) then
          (OsUncertain,
           match oc_admission_error o with
           | Some e => Some e
           | None => Some (if had_key then "legacy firing lacks a durable Work/Run receipt"
                           else "legacy occurrence lacks a stable delivery key")
           end)
        else (OsPending, oc_admission_error o)
    | state => (state, oc_admission_error o)
    end in
  Ok (set_provenance identity.1 key state error identity.2 o).

(* SRC core/src/scheduler_service.rs 925 950 SchedulerService::install_loaded *)
Definition install_occurrence (o : AutomationOccurrence) (s : SchedulerService) : result SchedulerService string :=
  o <-? normalize_loaded_occurrence o;;
  _ <-? validate_occurrence_shape o;;
  if existsb (λ e, String.eqb (oc_trigger_occurrence_id e) (oc_trigger_occurrence_id o)) (ss_occurrences s) then
    Err ("duplicate scheduler occurrence `" +:+ oc_trigger_occurrence_id o +:+ "`")
  else if existsb (λ e, String.eqb (oc_dedup_digest e) (oc_dedup_digest o)) (ss_occurrences s) then
    Err ("duplicate scheduler delivery digest `" +:+ oc_dedup_digest o +:+ "`")
  else Ok (set_occurrences (ss_occurrences s ++ [o]) s).

Fixpoint install_occurrences (l : list AutomationOccurrence) (s : SchedulerService) : result SchedulerService string :=
  match l with [] => Ok s | o :: l' => s' <-? install_occurrence o s;; install_occurrences l' s' end.

Definition install_loaded (jobs : list Job) (occurrences : list AutomationOccurrence) (s : SchedulerService)
    : result SchedulerService string :=
  s' <-? install_jobs jobs s;; install_occurrences occurrences s'.

Definition set_path (path : option string) (s : SchedulerService) : SchedulerService :=
  {| ss_jobs := ss_jobs s; ss_on_battery := ss_on_battery s; ss_nudge_log := ss_nudge_log s;
     ss_webhook_token := ss_webhook_token s; ss_persist_path := path; ss_occurrences := ss_occurrences s;
     ss_generation_counters := ss_generation_counters s; ss_load_error := ss_load_error s;
     ss_incidents := ss_incidents s; ss_incident_seq := ss_incident_seq s |}.

(* SRC core/src/scheduler_service.rs @fn:load_or_new_checked SchedulerService::load_or_new_checked *)
Definition load_or_new_checked (path : string) (file : StoreFile) : result SchedulerService string :=
  let svc := set_path (Some path) scheduler_new in
  match file with
  | SfMissing => Ok svc
  | SfBroken e => Err e
  | SfJobs jobs => install_loaded jobs [] svc
  | SfStore store =>
      if negb (ps_version store =? 2)%N && negb (ps_version store =? SCHEDULER_STORE_VERSION)%N then
        Err ("unsupported scheduler store version " +:+ pretty (ps_version store) +:+ " (expected 2 or 3)")
      else install_loaded (ps_jobs store) (ps_occurrences store) (set_counters (ps_generation_counters store) svc)
  end.

(* SRC core/src/scheduler_service.rs @fn:load_or_new SchedulerService::load_or_new *)
Definition load_or_new (path : string) (file : StoreFile) : SchedulerService :=
  match load_or_new_checked path file with
  | Ok s => s
  | Err error => set_load_error (Some error) (set_path (Some path) scheduler_new)
  end.

(** ** Queries *)

(* SRC core/src/scheduler_service.rs @fn:job_id_for_automation SchedulerService::job_id_for_automation *)
Definition job_id_for_automation (automation_id : string) (s : SchedulerService) : option string :=
  (λ e, jb_id e.2) <$> List.find (λ e, String.eqb (jb_automation_id e.2) automation_id) (map_iter (ss_jobs s)).

(* SRC core/src/scheduler_service.rs @fn:pending_job_ids_for_occurrences SchedulerService::pending_job_ids_for_occurrences *)
Definition pending_job_ids_for_occurrences (l : list AutomationOccurrence) (s : SchedulerService) : list string :=
  omap (λ o, job_id_for_automation (oc_automation_id o) s) (List.filter is_pending l).

(* SRC core/src/scheduler_service.rs @fn:occurrences SchedulerService::occurrences *)
Definition occurrences_newest_first (s : SchedulerService) : list AutomationOccurrence :=
  sort_by (λ a b, admission_le b a) (ss_occurrences s).
(* SRC core/src/scheduler_service.rs @fn:pending_occurrences SchedulerService::pending_occurrences *)
Definition pending_occurrences (s : SchedulerService) : list AutomationOccurrence :=
  List.filter is_pending (occurrences_newest_first s).
(* SRC core/src/scheduler_service.rs @fn:uncertain_occurrences SchedulerService::uncertain_occurrences *)
Definition uncertain_occurrences (s : SchedulerService) : list AutomationOccurrence :=
  List.filter is_uncertain (occurrences_newest_first s).
(* SRC core/src/scheduler_service.rs @fn:cancelled_occurrences SchedulerService::cancelled_occurrences *)
Definition cancelled_occurrences (s : SchedulerService) : list AutomationOccurrence :=
  List.filter is_cancelled (occurrences_newest_first s).
(* SRC core/src/scheduler_service.rs @fn:occurrence SchedulerService::occurrence *)
Definition occurrence (id : string) (s : SchedulerService) : option AutomationOccurrence :=
  List.find (λ o, String.eqb (oc_trigger_occurrence_id o) id) (ss_occurrences s).

(** ** The registry *)

(** The definition write, up to the commit. *)
(* SRC core/src/scheduler_service.rs 1099 1176 SchedulerService::upsert_checked_with_enabled *)
Definition upsert_checked_with_enabled (id name session_id : string) (trigger : TriggerSpec)
    (steps : list AutomationStep) (policy : option SchedulePolicy) (enabled : option bool) (now : N) : Sch unit :=
  checked (λ s,
    let existing := ss_jobs s !! id in
    let base := default (job_new_with_generation id name session_id trigger
        (N.max (u64_saturating_add (default 0%N (ss_generation_counters s !! id)) 1) 1)) existing in
    let c := set_definition name session_id trigger steps (default (jb_policy base) policy)
               (default (jb_enabled base) enabled) base in
    let revision :=
      if negb (bool_decide (legacy_definition_digest <$> existing = Some (legacy_definition_digest c))) then
        N.max (match existing with Some j => u64_saturating_add (jb_revision j) 1 | None => 1%N end) 1
      else if (jb_revision c =? 0)%N then 1%N else jb_revision c in
    let generation := if (jb_generation c =? 0)%N then 1%N else jb_generation c in
    let next :=
      if match existing with Some j => negb (bool_decide (jb_trigger j = trigger)) | None => true end
         || negb (is_some (jb_next_run_at c))
      then compute_next_run trigger now (jb_next_run_at c) else jb_next_run_at c in
    let c := set_next_run next (set_identity (jb_automation_id c) revision generation (jb_revision_id c) c) in
    let c := set_identity (jb_automation_id c) revision generation (revision_id_for c revision) c in
    _ <-? validate_job_definition c;;
    Ok (tt, Some (set_counters (bump_counter id generation (ss_generation_counters s))
                    (set_jobs (<[id := c]> (ss_jobs s)) s)))).

(* SRC core/src/scheduler_service.rs @fn:upsert_checked SchedulerService::upsert_checked *)
Definition upsert_checked (id name session_id : string) (trigger : TriggerSpec) (steps : list AutomationStep)
    (policy : option SchedulePolicy) (now : N) : Sch unit :=
  upsert_checked_with_enabled id name session_id trigger steps policy None now.

(* SRC core/src/scheduler_service.rs @fn:upsert SchedulerService::upsert *)
Definition upsert (id name session_id : string) (trigger : TriggerSpec) (steps : list AutomationStep)
    (policy : option SchedulePolicy) (now : N) : SchedState → SchedState := λ st,
  match upsert_checked_with_enabled id name session_id trigger steps policy None now st with
  | (Ok _, st') => st'
  | (Err error, st') =>
      let s := set_load_error (Some error) (st_svc st') in
      with_svc (if is_some (ss_jobs s !! id) then s
                else set_jobs (<[id := job_new id name session_id trigger]> (ss_jobs s)) s) st'
  end.

(* SRC core/src/scheduler_service.rs @fn:delete_checked SchedulerService::delete_checked *)
Definition delete_checked (id : string) : Sch bool :=
  checked (λ s,
    match ss_jobs s !! id with
    | None => Ok (false, None)
    | Some j =>
        if existsb (λ o, String.eqb (oc_automation_id o) (jb_automation_id j) && negb (occurrence_is_terminal o))
             (ss_occurrences s)
        then Err ("automation `" +:+ id +:+ "` has an unresolved occurrence; cancel or reconcile it first")
        else Ok (true, Some (set_jobs (delete id (ss_jobs s)) s))
    end).

(** The legacy façades poison the service on an error. *)
Definition or_poison {A} (dflt : A) (m : Sch A) : SchedState → A * SchedState := λ st,
  match m st with
  | (Ok a, st') => (a, st')
  | (Err error, st') => (dflt, with_svc (set_load_error (Some error) (st_svc st')) st')
  end.
(* SRC core/src/scheduler_service.rs @fn:delete SchedulerService::delete *)
Definition delete_job (id : string) : SchedState → bool * SchedState := or_poison false (delete_checked id).

Definition unknown_job (id : string) : string := "unknown job " +:+ str_debug id.

(** A change of one known job. *)
Definition on_job {A} (id : string) (f : Job → A * Job) : Sch A :=
  checked (λ s,
    match ss_jobs s !! id with
    | None => Err (unknown_job id)
    | Some j => Ok ((f j).1, Some (set_jobs (<[id := (f j).2]> (ss_jobs s)) s))
    end).

(* SRC core/src/scheduler_service.rs @fn:set_enabled SchedulerService::set_enabled *)
Definition sched_set_enabled (id : string) (enabled : bool) (now : N) : Sch unit :=
  on_job id (λ j,
    let j := set_enabled_flag enabled j in
    (tt, if enabled && negb (is_some (jb_next_run_at j)) then set_next_run (compute_next_run (jb_trigger j) now None) j else j)).

(* SRC core/src/scheduler_service.rs @fn:set_monitor SchedulerService::set_monitor *)
Definition set_monitor (id : string) (monitor : option MonitorConfig) : Sch unit :=
  on_job id (λ j, (tt, set_monitor_config monitor j)).

(* SRC core/src/scheduler_service.rs @fn:monitor_evaluate SchedulerService::monitor_evaluate *)
Definition monitor_evaluate (id observation : string) (condition_met : bool) : Sch MonitorVerdict :=
  on_job id (λ j,
    let m := default default_monitor (jb_monitor j) in
    let previous := mc_last_observation m in
    let changed := negb (bool_decide (previous = Some observation)) in
    let notified := bool_decide (previous = None) || changed || condition_met in
    let notifications := if notified then u32_saturating_inc (mc_notifications m) else mc_notifications m in
    let m' := {| mc_stop_on_condition := mc_stop_on_condition m; mc_last_observation := Some observation;
                 mc_notifications := notifications; mc_source := mc_source m |} in
    let stopped := condition_met && mc_stop_on_condition m in
    let j := set_monitor_config (Some m') j in
    ({| mv_changed := changed; mv_notified := notified; mv_stopped := stopped; mv_previous := previous;
        mv_current := observation; mv_notifications := notifications |},
     if stopped then set_enabled_flag false j else j)).

(* SRC core/src/scheduler_service.rs @fn:append_notepad_checked SchedulerService::append_notepad_checked *)
Definition append_notepad_checked (id line : string) : Sch bool :=
  checked (λ s,
    match ss_jobs s !! id with
    | None => Ok (false, None)
    | Some j =>
        let text := if is_empty (jb_notepad j) then line else jb_notepad j +:+ ch (ascii_of_N 10) +:+ line in
        Ok (true, Some (set_jobs (<[id := set_notepad text j]> (ss_jobs s)) s))
    end).
(* SRC core/src/scheduler_service.rs @fn:append_notepad SchedulerService::append_notepad *)
Definition append_notepad (id line : string) : SchedState → bool * SchedState :=
  or_poison false (append_notepad_checked id line).

(* SRC core/src/scheduler_service.rs @fn:monitor_evaluate_script SchedulerService::monitor_evaluate_script *)
Definition monitor_evaluate_script (id stdout : string) (silent_on_empty : bool) : Sch MonitorVerdict :=
  on_job id (λ j,
    let m := default default_monitor (jb_monitor j) in
    let verdict := evaluate_script stdout silent_on_empty m in
    let notifications := if mv_notified verdict then u32_saturating_inc (mc_notifications m) else mc_notifications m in
    ({| mv_changed := mv_changed verdict; mv_notified := mv_notified verdict; mv_stopped := mv_stopped verdict;
        mv_previous := mv_previous verdict; mv_current := mv_current verdict; mv_notifications := notifications |},
     set_monitor_config (Some {| mc_stop_on_condition := mc_stop_on_condition m; mc_last_observation := Some stdout;
                                 mc_notifications := notifications; mc_source := mc_source m |}) j)).

(* SRC core/src/scheduler_service.rs @fn:pause SchedulerService::pause *)
Definition sched_pause (id : string) : Sch unit := on_job id (λ j, (tt, set_paused true j)).

(* SRC core/src/scheduler_service.rs @fn:resume SchedulerService::resume *)
Definition sched_resume (id : string) (now : N) : Sch unit :=
  on_job id (λ j,
    let j := set_paused false j in
    (tt, if jb_enabled j && negb (is_some (jb_next_run_at j))
         then set_next_run (compute_next_run (jb_trigger j) now None) j else j)).

Definition to_pause (session_id : string) (j : Job) : bool := String.eqb (jb_session_id j) session_id && negb (jb_paused j).
(* SRC core/src/scheduler_service.rs @fn:pause_session_checked SchedulerService::pause_session_checked *)
Definition pause_session_checked (session_id : string) : Sch nat :=
  checked (λ s,
    let count := length (List.filter (λ e, to_pause session_id e.2) (map_iter (ss_jobs s))) in
    Ok (count, if (0 <? count)%nat
               then Some (set_jobs ((λ j, if to_pause session_id j then set_paused true j else j) <$> ss_jobs s) s)
               else None)).
(* SRC core/src/scheduler_service.rs @fn:pause_session SchedulerService::pause_session *)
Definition pause_session (session_id : string) : SchedState → nat * SchedState :=
  or_poison 0 (pause_session_checked session_id).
End service.
