(* ===== verification/SchedulerAdmit.v ===== *)
(** * The trigger plane: admission, advancement and the dispatcher

    Due jobs, the admission of schedule ticks, events, webhooks and manual
    requests as durable occurrences, their advancement by receipt, uncertainty
    and cancellation, the nudge sentinels, incidents and the doctor, and the
    dispatcher of [everyaios-core/src/scheduler_service.rs]. *)
From S2P Require Import Order Prelude.
From S2P Require Import F64 Json Cron Revision Scheduler SchedulerOps.
From S2P Require Import Lease.

Section admission.
Context `{JsonWords} {sha : Sha256} `{StrDebug} `{HashIter}.

(** Fires in the rolling hour before [now]; the count is an [as u32]. *)
Definition fires_in_window (now : N) (j : Job) : N :=
  N.of_nat (length (List.filter (λ at_, (now - 3600 <=? at_)%N) (jb_recent_fires j))) mod 4294967296.

(* SRC core/src/scheduler_service.rs @fn:frequency_admits SchedulerService::frequency_admits *)
Definition frequency_admits (now : N) (j : Job) : bool :=
  match sp_max_runs_per_hour (jb_policy j) with
  | None => true
  | Some cap => (fires_in_window now j <? cap)%N
  end.

(** ** What is due *)

Definition next_reached (now : N) (j : Job) : bool :=
  match jb_next_run_at j with Some next => (next <=? now)%N | None => false end.
Definition trigger_due (now : N) (j : Job) : bool :=
  match jb_trigger j with
  | TsCron expr => is_ok (cron_parse expr) && next_reached now j
  | TsInterval _ | TsWindow _ _ => next_reached now j
  | TsEvent _ _ | TsWebhook _ _ | TsManual => false
  end.
(** The tick was admitted before and is not pending any more. *)
Definition tick_is_settled (j : Job) (s : SchedulerService) : bool :=
  match jb_next_run_at j with
  | Some next =>
      existsb (λ o, String.eqb (oc_automation_id o) (jb_automation_id j) &&
                    match oc_trigger o with OtSchedule at_ => (at_ =? next)%N | _ => false end &&
                    negb (is_pending o)) (ss_occurrences s)
  | None => false
  end.
Definition job_due (now : N) (s : SchedulerService) (j : Job) : bool :=
  jb_enabled j && negb (jb_paused j) && negb (ss_on_battery s && sp_suppress_on_battery (jb_policy j)) &&
  frequency_admits now j && trigger_due now j && negb (tick_is_settled j s).

Definition next_or_max (s : SchedulerService) (id : string) : N :=
  default u64_max (ss_jobs s !! id ≫= jb_next_run_at).

(* SRC core/src/scheduler_service.rs @fn:due SchedulerService::due *)
Definition due (now : N) (s : SchedulerService) : list string :=
  if is_some (ss_load_error s) then []
  else sort_by (λ a b, (next_or_max s a <=? next_or_max s b)%N)
         (List.filter (λ e, job_due now s e.2) (map_iter (ss_jobs s))).*1.

(** ** Admission *)

Definition new_occurrence (j : Job) (trigger : OccurrenceTrigger) (payload_digest dedup_digest key : string) (now : N)
    : AutomationOccurrence :=
  {| oc_trigger_occurrence_id := "occ:" +:+ short_digest dedup_digest; oc_automation_id := jb_automation_id j;
     oc_revision_id := jb_revision_id j; oc_trigger := trigger; oc_payload_digest := payload_digest;
     oc_dedup_digest := dedup_digest; oc_admitted_at := now; oc_state := OsPending; oc_idempotency_key := key;
     oc_fired_at := None; oc_work_id := None; oc_run_id := None; oc_admission_error := None;
     oc_admission_receipt := None; oc_revision := revision_snapshot j |}.

Definition by_dedup (digest : string) (l : list AutomationOccurrence) : option AutomationOccurrence :=
  List.find (λ o, String.eqb (oc_dedup_digest o) digest) l.

(** One job of a selection: the occurrence it is answered with, if any, and the
    index of occurrences. *)
Definition admit_job (trigger : OccurrenceTrigger) (payload : Value) (raw_key : string) (now : N) (j : Job)
    (l : list AutomationOccurrence) : result (option AutomationOccurrence * list AutomationOccurrence) string :=
  key <-? normalize_idempotency_key raw_key "delivery";;
  let payload_digest := digest_json payload in
  let dedup_digest := dedup_digest_for (jb_automation_id j) (jb_generation j) trigger key in
  match by_dedup dedup_digest l with
  | Some existing =>
      if negb (String.eqb (oc_payload_digest existing) payload_digest) then
        Err ("idempotency key `" +:+ key +:+ "` was reused with a different payload")
      else Ok (Some existing, l)
  | None =>
      if negb (frequency_admits now j) then Ok (None, l)
      else
        let o := new_occurrence j trigger payload_digest dedup_digest key now in
        _ <-? validate_occurrence_shape o;;
        Ok (Some o, l ++ [o])
  end.

(* SRC core/src/scheduler_service.rs @fn:admit_selected_in_memory SchedulerService::admit_selected_in_memory *)
Fixpoint admit_selected (trigger : OccurrenceTrigger) (payload : Value) (key : string) (now : N) (selected : list Job)
    (l : list AutomationOccurrence) : result (list AutomationOccurrence * list AutomationOccurrence) string :=
  match selected with
  | [] => Ok ([], l)
  | j :: selected' =>
      r <-? admit_job trigger payload key now j l;;
      rest <-? admit_selected trigger payload key now selected' r.2;;
      Ok (match r.1 with Some o => o :: rest.1 | None => rest.1 end, rest.2)
  end.

(* SRC core/src/scheduler_service.rs @fn:admit_selected_transactional SchedulerService::admit_selected_transactional *)
Definition admit_selected_transactional (trigger : OccurrenceTrigger) (payload : Value) (key : string) (now : N)
    (selected : SchedulerService → list Job) : Sch (list AutomationOccurrence) :=
  checked (λ s,
    r <-? admit_selected trigger payload key now (selected s) (ss_occurrences s);;
    Ok (r.1, if (length r.2 =? length (ss_occurrences s))%nat then None else Some (set_occurrences r.2 s))).

(* SRC core/src/scheduler_service.rs @fn:admit_one_in_memory SchedulerService::admit_one_in_memory *)
Definition admit_one (trigger : OccurrenceTrigger) (payload : Value) (key : string) (now : N) (j : Job)
    (l : list AutomationOccurrence) : result (AutomationOccurrence * list AutomationOccurrence) string :=
  r <-? admit_selected trigger payload key now [j] l;;
  match last r.1 with
  | Some o => Ok (o, r.2)
  | None => Err ("occurrence for automation `" +:+ jb_id j +:+ "` was not admitted")
  end.

Definition is_cron (t : TriggerSpec) : bool := match t with TsCron _ => true | _ => false end.
Definition schedule_payload (scheduled_at : N) : Value :=
  json_object [("scheduledAt", json_u64 scheduled_at); ("trigger", JString "schedule")].
Definition schedule_key (j : Job) (scheduled_at : N) : string :=
  "schedule:" +:+ pretty (jb_generation j) +:+ ":" +:+ pretty scheduled_at.

(** The loop over the due ids: admitted so far, whether a schedule moved, and the
    registry. *)
Fixpoint admit_due_ids (now : N) (ids : list string) (s : SchedulerService)
    : result (list AutomationOccurrence * bool * SchedulerService) string :=
  match ids with
  | [] => Ok ([], false, s)
  | id :: ids' =>
      match ss_jobs s !! id with
      | None => admit_due_ids now ids' s
      | Some j =>
          let scheduled_at := default now (jb_next_run_at j) in
          let tick :=
            r <-? admit_one (OtSchedule scheduled_at) (schedule_payload scheduled_at) (schedule_key j scheduled_at) now j
                    (ss_occurrences s);;
            rest <-? admit_due_ids now ids' (set_occurrences r.2 s);;
            Ok (if is_pending r.1 then r.1 :: rest.1.1 else rest.1.1, rest.1.2, rest.2) in
          if is_cron (jb_trigger j) then
            match sp_misfire_policy (jb_policy j) with
            | MfRunOnceOnResume => tick
            | MfSkip =>
                let next := set_next_run (compute_next_run (jb_trigger j) now None) j in
                rest <-? admit_due_ids now ids' (set_jobs (<[id := next]> (ss_jobs s)) s);;
                Ok (rest.1.1, true, rest.2)
            | MfCatchUp =>
                Err "scheduler catch_up misfire policy is not admitted; use run_once_on_resume or skip"
            end
          else tick
      end
  end.

(* SRC core/src/scheduler_service.rs @fn:admit_due SchedulerService::admit_due *)
Definition admit_due (now : N) : Sch (list AutomationOccurrence) :=
  checked (λ s,
    r <-? admit_due_ids now (due now s) s;;
    Ok (r.1.1, if r.1.2 || negb (length (ss_occurrences r.2) =? length (ss_occurrences s))%nat then Some r.2 else None)).

Definition listening (j : Job) : bool := jb_enabled j && negb (jb_paused j).
Definition event_matches (kind : EventKind) (payload_text : string) (j : Job) : bool :=
  match jb_trigger j with
  | TsEvent expected filter =>
      listening j && bool_decide (expected = kind) && (is_empty filter || contains filter payload_text) &&
      match sp_scope (jb_policy j) with Some scope => contains scope payload_text | None => true end
  | _ => false
  end.

(* SRC core/src/scheduler_service.rs @fn:admit_event_with_key SchedulerService::admit_event_with_key *)
Definition admit_event_with_key (kind : EventKind) (payload : Value) (idempotency_key : string) (now : N)
    : Sch (list AutomationOccurrence) := λ st,
  match ensure_healthy (st_svc st) with
  | Err e => (Err e, st)
  | Ok _ =>
      if negb (is_some (as_object payload)) then (Err "event admission requires an object payload", st)
      else match normalize_idempotency_key idempotency_key "event" with
      | Err e => (Err e, st)
      | Ok key =>
          let payload_text := canonical_json payload in
          admit_selected_transactional (OtEvent (event_kind_str kind)) payload key now
            (λ s, List.filter (event_matches kind payload_text) (map_iter (ss_jobs s)).*2) st
      end
  end.

(* SRC core/src/scheduler_service.rs @fn:admit_event SchedulerService::admit_event *)
Definition admit_trigger_event (kind : EventKind) (payload : Value) (now : N) : Sch (list AutomationOccurrence) :=
  key <-s sch_lift (extract_idempotency_key payload "event");; admit_event_with_key kind payload key now.

(** The webhook jobs at a path, in map order; the first one whose schema misses a
    key refuses the delivery. *)
Fixpoint select_webhooks (path : string) (object : list (string * Value)) (jobs : list Job) : result (list Job) string :=
  match jobs with
  | [] => Ok []
  | j :: jobs' =>
      match jb_trigger j with
      | TsWebhook expected schema =>
          if listening j && String.eqb expected path then
            match List.find (λ required, negb (is_some (obj_get required object))) schema with
            | Some required => Err ("webhook " +:+ path +:+ ": missing required key " +:+ str_debug required)
            | None => rest <-? select_webhooks path object jobs';; Ok (j :: rest)
            end
          else select_webhooks path object jobs'
      | _ => select_webhooks path object jobs'
      end
  end.

(* SRC core/src/scheduler_service.rs @fn:admit_webhook_with_key SchedulerService::admit_webhook_with_key *)
Definition admit_webhook_with_key (path : string) (body : Value) (idempotency_key : string) (now : N)
    (token : option string) : Sch (list AutomationOccurrence) := λ st,
  match
    _ <-? ensure_healthy (st_svc st);;
    key <-? normalize_idempotency_key idempotency_key "webhook";;
    _ <-? match ss_webhook_token (st_svc st) with
          | Some expected => if negb (bool_decide (token = Some expected)) then Err "webhook: bad token" else Ok tt
          | None => Ok tt
          end;;
    object <-? match as_object body with
               | Some o => Ok o
               | None => Err ("webhook " +:+ path +:+ ": body must be a JSON object")
               end;;
    selected <-? select_webhooks path object (map_iter (ss_jobs (st_svc st))).*2;;
    Ok (key, selected)
  with
  | Err e => (Err e, st)
  | Ok (key, selected) => admit_selected_transactional (OtWebhook path) body key now (λ _, selected) st
  end.

(* SRC core/src/scheduler_service.rs @fn:admit_webhook SchedulerService::admit_webhook *)
Definition admit_webhook (path : string) (body : Value) (now : N) (token : option string)
    : Sch (list AutomationOccurrence) :=
  key <-s sch_lift (extract_idempotency_key body "webhook");; admit_webhook_with_key path body key now token.

(* SRC core/src/scheduler_service.rs @fn:admit_manual_with_key SchedulerService::admit_manual_with_key *)
Definition admit_manual_with_key (id : string) (payload : Value) (idempotency_key : string) (now : N)
    : Sch AutomationOccurrence := λ st,
  match
    _ <-? ensure_healthy (st_svc st);;
    key <-? normalize_idempotency_key idempotency_key "manual";;
    match ss_jobs (st_svc st) !! id with
    | None => Err (unknown_job id)
    | Some j => if negb (listening j) then Err ("job " +:+ id +:+ " is disabled or paused") else Ok (key, j)
    end
  with
  | Err e => (Err e, st)
  | Ok (key, j) =>
      match admit_selected_transactional OtManual payload key now (λ _, [j]) st with
      | (Err e, st') => (Err e, st')
      | (Ok admitted, st') =>
          match last admitted with
          | Some o => (Ok o, st')
          | None => (Err ("manual occurrence for " +:+ id +:+ " was not admitted"), st')
          end
      end
  end.

(* SRC core/src/scheduler_service.rs @fn:admit_manual SchedulerService::admit_manual *)
Definition admit_manual (id : string) (payload : Value) (now : N) : Sch AutomationOccurrence :=
  key <-s sch_lift (extract_idempotency_key payload "manual");; admit_manual_with_key id payload key now.

(** ** Advancement *)

(* SRC core/src/scheduler_service.rs @fn:receipt_for_occurrence SchedulerService::receipt_for_occurrence *)
Definition receipt_for_occurrence (id : string) (s : SchedulerService) : result WorkRunAdmissionReceipt string :=
  match occurrence id s with
  | None => Err ("unknown occurrence " +:+ str_debug id)
  | Some o =>
      match parse_revision_id (oc_revision_id o) with
      | Err e => Err (automation_error_text e)
      | Ok i => Ok {| wr_work_id := expected_work_id o; wr_run_id := expected_run_id o;
                      wr_automation_id := oc_automation_id o; wr_revision_id := oc_revision_id o;
                      wr_trigger_occurrence_id := oc_trigger_occurrence_id o;
                      wr_automation_generation := ri_generation i; wr_durable := true |}
      end
  end.

(* SRC core/src/scheduler_service.rs @fn:mark_occurrence_fired SchedulerService::mark_occurrence_fired *)
Definition mark_occurrence_fired (id : string) (now : N) (work run : string) : Sch unit :=
  sch_fail "occurrence advancement requires a durable WorkRunAdmissionReceipt".

(** Replaces the first occurrence with the id. *)
Fixpoint replace_occurrence (id : string) (o' : AutomationOccurrence) (l : list AutomationOccurrence)
    : list AutomationOccurrence :=
  match l with
  | [] => []
  | o :: l' => if String.eqb (oc_trigger_occurrence_id o) id then o' :: l' else o :: replace_occurrence id o' l'
  end.

(** The job after its occurrence fired: the fire is recorded in the rolling hour
    and a schedule moves past the tick. *)
Definition fired_job (now : N) (trigger : OccurrenceTrigger) (j : Job) : Job :=
  let recent := List.filter (λ at_, (now - 3600 <=? at_)%N) (jb_recent_fires j) ++ [now] in
  let j := set_fires (Some now) recent j in
  match trigger with
  | OtSchedule scheduled_at => set_next_run (compute_next_run (jb_trigger j) (N.max now scheduled_at) None) j
  | _ => j
  end.

Definition find_automation (automation_id : string) (s : SchedulerService) : option Job :=
  snd <$> List.find (λ e, String.eqb (jb_automation_id e.2) automation_id) (map_iter (ss_jobs s)).

(* SRC core/src/scheduler_service.rs @fn:mark_occurrence_fired_with_receipt SchedulerService::mark_occurrence_fired_with_receipt *)
Definition mark_occurrence_fired_with_receipt (id : string) (now : N) (receipt : WorkRunAdmissionReceipt) : Sch unit :=
  checked (λ s,
    match occurrence id s with
    | None => Err ("unknown occurrence " +:+ str_debug id)
    | Some original =>
        _ <-? validate_receipt_for original receipt (expected_work_id original) (expected_run_id original);;
        match oc_state original with
        | OsCancelled => Err ("occurrence " +:+ id +:+ " is cancelled")
        | OsTerminal =>
            if bool_decide (oc_admission_receipt original = Some receipt) then Ok (tt, None)
            else Err ("occurrence " +:+ id +:+ " was already advanced with a different receipt")
        | OsPending | OsUncertain =>
            match find_automation (oc_automation_id original) s with
            | None => Err ("occurrence " +:+ id +:+ " names an unknown automation")
            | Some found =>
                match ss_jobs s !! jb_id found with
                | None => Err (unknown_job (jb_id found))
                | Some old =>
                    let next := set_admission OsTerminal (Some now) (Some (wr_work_id receipt)) (Some (wr_run_id receipt))
                                  None (Some receipt) original in
                    _ <-? validate_occurrence_shape next;;
                    Ok (tt, Some (set_jobs (<[jb_id found := fired_job now (oc_trigger original) old]> (ss_jobs s))
                                    (set_occurrences (replace_occurrence id next (ss_occurrences s)) s)))
                end
            end
        end
    end).

(* SRC core/src/scheduler_service.rs @fn:mark_occurrence_uncertain SchedulerService::mark_occurrence_uncertain *)
Definition mark_occurrence_uncertain (id reason : string) : Sch unit :=
  checked (λ s,
    if is_empty (trim reason) then Err "uncertain occurrence requires a reconciliation reason"
    else match occurrence id s with
    | None => Err ("unknown occurrence " +:+ str_debug id)
    | Some o =>
        if occurrence_is_terminal o then Err ("occurrence " +:+ id +:+ " is already terminal")
        else
          let o' := set_admission OsUncertain (oc_fired_at o) (oc_work_id o) (oc_run_id o) (Some reason)
                      (oc_admission_receipt o) o in
          Ok (tt, Some (set_occurrences (replace_occurrence id o' (ss_occurrences s)) s))
    end).

(** The first job of the automation, moved past a cancelled tick. *)
Definition skip_tick (automation_id : string) (scheduled_at : N) (s : SchedulerService) : SchedulerService :=
  match List.find (λ e, String.eqb (jb_automation_id e.2) automation_id) (map_iter (ss_jobs s)) with
  | Some (key, j) => set_jobs (<[key := set_next_run (compute_next_run (jb_trigger j) scheduled_at None) j]> (ss_jobs s)) s
  | None => s
  end.

(* SRC core/src/scheduler_service.rs @fn:cancel_occurrence SchedulerService::cancel_occurrence *)
Definition cancel_occurrence (id reason : string) : Sch unit :=
  checked (λ s,
    match occurrence id s with
    | None => Err ("unknown occurrence " +:+ str_debug id)
    | Some o =>
        match oc_state o with
        | OsTerminal => Err ("occurrence " +:+ id +:+ " is already terminal")
        | OsCancelled => Ok (tt, None)
        | OsPending | OsUncertain =>
            let error := if is_empty (trim reason) then None else Some reason in
            let o' := set_admission OsCancelled (oc_fired_at o) (oc_work_id o) (oc_run_id o) error
                        (oc_admission_receipt o) o in
            let s := set_occurrences (replace_occurrence id o' (ss_occurrences s)) s in
            Ok (tt, Some (match oc_trigger o with
                          | OtSchedule scheduled_at => skip_tick (oc_automation_id o) scheduled_at s
                          | _ => s
                          end))
        end
    end).

(* SRC core/src/scheduler_service.rs @fn:mark_fired SchedulerService::mark_fired *)
Definition mark_fired (id : string) (now : N) : Sch unit :=
  sch_fail "mark_fired cannot advance a schedule without a WorkRunAdmissionReceipt".

(** ** Battery, token, nudges, incidents, doctor *)

Definition volatile (f : SchedulerService → SchedulerService) : Sch unit := λ st, (Ok tt, with_svc (f (st_svc st)) st).

(* SRC core/src/scheduler_service.rs @fn:set_battery SchedulerService::set_battery *)
Definition set_battery (on : bool) (s : SchedulerService) : SchedulerService :=
  if is_some (ss_load_error s) then s
  else set_volatile on (ss_nudge_log s) (ss_webhook_token s) (ss_incidents s) (ss_incident_seq s) s.
(* SRC core/src/scheduler_service.rs @fn:set_webhook_token SchedulerService::set_webhook_token *)
Definition set_webhook_token (token : option string) (s : SchedulerService) : SchedulerService :=
  if is_some (ss_load_error s) then s
  else set_volatile (ss_on_battery s) (ss_nudge_log s) token (ss_incidents s) (ss_incident_seq s) s.

(* SRC core/src/scheduler_service.rs @const:NUDGE_WINDOW_DAYS NUDGE_WINDOW_DAYS *)
Definition NUDGE_WINDOW_DAYS : N := 14.
(* SRC core/src/scheduler_service.rs @fn:record_nudge SchedulerService::record_nudge *)
Definition record_nudge (goal : string) (unix_secs : N) (s : SchedulerService) : SchedulerService :=
  let log := ss_nudge_log s ++ [{| ns_goal := goal; ns_unix_secs := unix_secs |}] in
  let cutoff := (unix_secs - NUDGE_WINDOW_DAYS * 86400)%N in
  set_volatile (ss_on_battery s) (List.filter (λ x, (cutoff <=? ns_unix_secs x)%N) log) (ss_webhook_token s)
    (ss_incidents s) (ss_incident_seq s) s.

(* SRC core/src/scheduler_service.rs @struct:NudgeSuggestion NudgeSuggestion *)
Record NudgeSuggestion := { ng_goal : string; ng_cron : string; ng_confidence : f64; ng_observed_at : list string }.

(** The samples by goal, in the map's order. *)
Definition by_goal (log : list NudgeSample) : gmap string (list N) :=
  foldl (λ m x, <[ns_goal x := default [] (m !! ns_goal x) ++ [ns_unix_secs x]]> m) ∅ log.
Definition two_digits (h : N) : string := if (h <? 10)%N then "0" +:+ pretty h else pretty h.
Definition suggestion (goal : string) (times : list N) : option NudgeSuggestion :=
  let hours := sorted_distinct ((λ t, as_u8 (t mod 86400 / 3600)) <$> times) in
  let days := sorted_distinct ((λ t, t / 86400)%N <$> times) in
  match hours with
  | [h] =>
      if (3 <=? length days)%nat then
        Some {| ng_goal := goal; ng_cron := "0 " +:+ pretty h +:+ " * * *";
                ng_confidence := f64_min (f64_div (f64_of_N (N.of_nat (length days))) (f64_of_N NUDGE_WINDOW_DAYS)) f64_1;
                ng_observed_at := [two_digits h +:+ ":00"] |}
      else None
  | _ => None
  end.
(** Descending confidence; incomparable ones are kept in their order. *)
Definition confidence_le (a b : NudgeSuggestion) : bool := negb (f64_lt (ng_confidence a) (ng_confidence b)).

(* SRC core/src/scheduler_service.rs @fn:nudges SchedulerService::nudges *)
Definition nudges (s : SchedulerService) : list NudgeSuggestion :=
  sort_by confidence_le (omap (λ e, suggestion e.1 e.2) (map_iter (by_goal (ss_nudge_log s)))).

(* SRC core/src/scheduler_service.rs @fn:report_incident SchedulerService::report_incident *)
Definition report_incident (job_id kind detail : string) (at_ms : N) (s : SchedulerService) : string * SchedulerService :=
  let seq := u64_saturating_add (ss_incident_seq s) 1 in
  let id := "inc-" +:+ pretty seq in
  (id, set_volatile (ss_on_battery s) (ss_nudge_log s) (ss_webhook_token s)
         (ss_incidents s ++ [{| in_id := id; in_job_id := job_id; in_at_ms := at_ms; in_kind := kind;
                                in_detail := detail; in_acked := false |}]) seq s).

Fixpoint ack_first (id : string) (l : list Incident) : option (list Incident) :=
  match l with
  | [] => None
  | i :: l' =>
      if String.eqb (in_id i) id then
        Some ({| in_id := in_id i; in_job_id := in_job_id i; in_at_ms := in_at_ms i; in_kind := in_kind i;
                 in_detail := in_detail i; in_acked := true |} :: l')
      else l'' ← ack_first id l'; Some (i :: l'')
  end.
(* SRC core/src/scheduler_service.rs @fn:ack_incident SchedulerService::ack_incident *)
Definition ack_incident (id : string) (s : SchedulerService) : bool * SchedulerService :=
  match ack_first id (ss_incidents s) with
  | Some l => (true, set_volatile (ss_on_battery s) (ss_nudge_log s) (ss_webhook_token s) l (ss_incident_seq s) s)
  | None => (false, s)
  end.

(* SRC core/src/scheduler_service.rs @const:REGISTRY_SOFT_CAP REGISTRY_SOFT_CAP *)
Definition REGISTRY_SOFT_CAP : N := 500.
Definition on_clock (t : TriggerSpec) : bool :=
  match t with TsCron _ | TsInterval _ | TsWindow _ _ => true | _ => false end.
Definition missed (now : N) (j : Job) : bool :=
  listening j && on_clock (jb_trigger j) && match jb_next_run_at j with Some t => (t <? now)%N | None => false end.
(* SRC core/src/scheduler_service.rs @fn:cron_doctor SchedulerService::cron_doctor *)
Definition cron_doctor (now : N) (s : SchedulerService) : list CronCheck :=
  let count := N.of_nat (length (List.filter (λ e, missed now e.2) (map_iter (ss_jobs s)))) in
  let depth := N.of_nat (size (ss_jobs s)) in
  [{| ck_name := "missed_runs"; ck_ok := (count =? 0)%N;
      ck_detail := if (count =? 0)%N then "none" else pretty count +:+ " missed" |};
   {| ck_name := "queue_depth"; ck_ok := (depth <=? REGISTRY_SOFT_CAP)%N; ck_detail := "depth=" +:+ pretty depth |}].
End admission.

(** ** The dispatcher *)

(** Decoding of nested values is serde's. *)
Class SchedCodec := {
  trigger_of_value : Value → result TriggerSpec string;
  steps_of_value : Value → result (list AutomationStep) string;
  policy_of_value : Value → result SchedulePolicy string;
  event_kind_of_value : Value → result EventKind string;
  receipt_of_value : Value → result WorkRunAdmissionReceipt string;
  monitor_of_value : Value → result MonitorConfig string
}.

(** What a call answers, before serde writes it. *)
Inductive SchedReply :=
  | SrJobs (jobs : list Job) (on_battery : bool) (occurrences : list AutomationOccurrence)
  | SrOk
  | SrOkId (id : string)
  | SrDeleted (removed : bool)
  | SrPaused (count : nat)
  | SrDue (due : list string) (occurrences : list AutomationOccurrence) (now : N)
  | SrOccurrences (occurrences : list AutomationOccurrence)
  | SrFired (fired : list string) (occurrences : list AutomationOccurrence)
  | SrReceipt (id : string) (receipt : WorkRunAdmissionReceipt)
  | SrBattery (on : bool)
  | SrSuggestions (l : list NudgeSuggestion)
  | SrOccurrence (id : string) (o : AutomationOccurrence)
  | SrVerdict (v : MonitorVerdict).

Section dispatch.
Context `{JsonWords} {sha : Sha256} `{StrDebug} `{HashIter} `{SchedCodec}.

(** [ok_or] with the [?] of a required parameter. *)
Definition need {A} (o : option A) (error : string) : Sch A :=
  match o with Some a => sch_ret a | None => sch_fail error end.
Definition decoded {A} (what : string) (r : result A string) : Sch A :=
  match r with Ok a => sch_ret a | Err e => sch_fail (what +:+ e) end.
Definition decoded_opt {A} (what : string) (f : Value → result A string) (o : option Value) : Sch (option A) :=
  match o with
  | None => sch_ret None
  | Some v => a <-s decoded what (f v);; sch_ret (Some a)
  end.

(* SRC core/src/scheduler_service.rs @fn:list SchedulerService::list *)
Definition list_jobs (s : SchedulerService) : list Job := ps_jobs (store_of s).

(* SRC core/src/scheduler_service.rs 2357 2391 SchedulerService::handle_inner *)
Definition rpc_upsert (p : Value) (now : N) : Sch SchedReply :=
  id <-s need (p_str "id" p) "scheduler/upsert requires id";;
  tv <-s need (json_get "trigger" p) "scheduler/upsert requires trigger";;
  trigger <-s decoded "bad trigger: " (trigger_of_value tv);;
  steps <-s decoded "bad steps: " (steps_of_value (default (JArray []) (json_get "steps" p)));;
  policy <-s decoded_opt "bad policy: " policy_of_value (json_get "policy" p);;
  _ <-s upsert_checked_with_enabled id (default id (p_str "name" p)) (default "" (p_str "sessionId" p)) trigger steps
          policy (p_bool "enabled" p) now;;
  sch_ret (SrOkId id).

(* SRC core/src/scheduler_service.rs 2476 2493 SchedulerService::handle_inner *)
Definition rpc_fire_event (p : Value) (now : N) : Sch SchedReply :=
  kv <-s need (json_get "kind" p) "scheduler/fire_event requires kind";;
  kind <-s decoded "bad kind: " (event_kind_of_value kv);;
  let payload := default JNull (json_get "payload" p) in
  let key := default ("event:payload:" +:+ digest_json payload) (p_str "idempotencyKey" p) in
  admitted <-s admit_event_with_key kind payload key now;;
  fired <-s sch_get (pending_job_ids_for_occurrences admitted);;
  sch_ret (SrFired fired admitted).

(* SRC core/src/scheduler_service.rs 2494 2507 SchedulerService::handle_inner *)
Definition rpc_fire_webhook (p : Value) (now : N) : Sch SchedReply :=
  path <-s need (p_str "path" p) "scheduler/fire_webhook requires path";;
  let body := default JNull (json_get "body" p) in
  let key := default ("webhook:payload:" +:+ digest_json body) (p_str "idempotencyKey" p) in
  admitted <-s admit_webhook_with_key path body key now (p_str "token" p);;
  fired <-s sch_get (pending_job_ids_for_occurrences admitted);;
  sch_ret (SrFired fired admitted).

(* SRC core/src/scheduler_service.rs 2523 2532 SchedulerService::handle_inner *)
Definition rpc_run_now (p : Value) (now : N) : Sch SchedReply :=
  id <-s need (p_str "id" p) "scheduler/run_now requires id";;
  let payload := default JNull (json_get "payload" p) in
  o <-s match p_str "idempotencyKey" p with
        | Some key => admit_manual_with_key id payload key now
        | None => admit_manual id payload now
        end;;
  sch_ret (SrOccurrence id o).

(* SRC core/src/scheduler_service.rs 2444 2455 SchedulerService::handle_inner *)
Definition rpc_mark_occurrence_fired (p : Value) (now : N) : Sch SchedReply :=
  id <-s need (p_str "id" p) "scheduler/mark_occurrence_fired requires id";;
  rv <-s need (json_get "receipt" p) "scheduler/mark_occurrence_fired requires a durable receipt";;
  receipt <-s decoded "bad admission receipt: " (receipt_of_value rv);;
  _ <-s mark_occurrence_fired_with_receipt id now receipt;;
  sch_ret (SrReceipt id receipt).

(* SRC core/src/scheduler_service.rs 2533 2542 SchedulerService::handle_inner *)
Definition rpc_monitor (p : Value) : Sch SchedReply :=
  id <-s need (p_str "id" p) "scheduler/monitor requires id";;
  v <-s monitor_evaluate id (default "" (p_str "observation" p)) (default false (p_bool "conditionMet" p));;
  sch_ret (SrVerdict v).

(* SRC core/src/scheduler_service.rs 2543 2555 SchedulerService::handle_inner *)
Definition rpc_monitor_config (p : Value) : Sch SchedReply :=
  id <-s need (p_str "id" p) "scheduler/monitor_config requires id";;
  monitor <-s decoded_opt "bad monitor: " monitor_of_value (json_get "monitor" p);;
  _ <-s set_monitor id monitor;;
  sch_ret (SrOkId id).

(** One call with an id parameter. *)
Definition by_id (method : string) (p : Value) (f : string → Sch SchedReply) : Sch SchedReply :=
  id <-s need (p_str "id" p) (method +:+ " requires id");; f id.

(** The table of methods. *)
(* SRC core/src/scheduler_service.rs @fn:handle_inner SchedulerService::handle_inner *)
Definition handle_inner (method : string) (p : Value) (clock : N) : Sch SchedReply :=
  let now := default clock (p_u64 "now" p) in
  let on name := String.eqb method name in
  if on "scheduler/list" then
    sch_get (λ s, SrJobs (list_jobs s) (ss_on_battery s) (occurrences_newest_first s))
  else if on "scheduler/upsert" then rpc_upsert p now
  else if on "scheduler/delete" then by_id method p (λ id, b <-s delete_checked id;; sch_ret (SrDeleted b))
  else if on "scheduler/enable" then
    by_id method p (λ id, _ <-s sched_set_enabled id (default true (p_bool "enabled" p)) now;; sch_ret SrOk)
  else if on "scheduler/pause" then by_id method p (λ id, _ <-s sched_pause id;; sch_ret SrOk)
  else if on "scheduler/pause_session" then
    session <-s need (p_str "sessionId" p) "scheduler/pause_session requires sessionId";;
    n <-s pause_session_checked session;; sch_ret (SrPaused n)
  else if on "scheduler/resume" then by_id method p (λ id, _ <-s sched_resume id now;; sch_ret SrOk)
  else if on "scheduler/due" then
    admitted <-s admit_due now;; ids <-s sch_get (due now);; sch_ret (SrDue ids admitted now)
  else if on "scheduler/admit_due" then admitted <-s admit_due now;; sch_ret (SrOccurrences admitted)
  else if on "scheduler/pending_occurrences" then sch_get (λ s, SrOccurrences (pending_occurrences s))
  else if on "scheduler/occurrence_error" then
    by_id method p (λ id, _ <-s mark_occurrence_uncertain id (default "admission uncertain" (p_str "reason" p));; sch_ret (SrOkId id))
  else if on "scheduler/mark_occurrence_fired" then rpc_mark_occurrence_fired p now
  else if on "scheduler/cancel_occurrence" then
    by_id method p (λ id, _ <-s cancel_occurrence id (default "cancelled by host" (p_str "reason" p));; sch_ret (SrOkId id))
  else if on "scheduler/mark_fired" then by_id method p (λ id, _ <-s mark_fired id now;; sch_ret (SrOkId id))
  else if on "scheduler/battery" then
    let battery := default false (p_bool "onBattery" p) in
    _ <-s volatile (set_battery battery);; sch_ret (SrBattery battery)
  else if on "scheduler/fire_event" then rpc_fire_event p now
  else if on "scheduler/fire_webhook" then rpc_fire_webhook p now
  else if on "scheduler/webhook_token" then _ <-s volatile (set_webhook_token (p_str "token" p));; sch_ret SrOk
  else if on "scheduler/nudge" then
    goal <-s need (p_str "goal" p) "scheduler/nudge requires goal";;
    _ <-s volatile (record_nudge goal (default now (p_u64 "ts" p)));; sch_ret SrOk
  else if on "scheduler/nudges" then sch_get (λ s, SrSuggestions (nudges s))
  else if on "scheduler/run_now" then rpc_run_now p now
  else if on "scheduler/monitor" then rpc_monitor p
  else if on "scheduler/monitor_config" then rpc_monitor_config p
  else sch_fail ("method not found: " +:+ method).

(* SRC core/src/scheduler_service.rs @fn:handle SchedulerService::handle *)
Definition scheduler_handle (method : string) (p : Value) (clock : N) : Sch SchedReply := λ st,
  match ensure_healthy (st_svc st) with
  | Err e => (Err e, st)
  | Ok _ =>
      match handle_inner method p clock st with
      | (Err e, st') => (Err e, with_svc (st_svc st) st')
      | (Ok out, st') =>
          match sched_persist st' with
          | (Ok _, st2) => (Ok out, st2)
          | (Err e, st2) => (Err e, (sched_persist (with_svc (st_svc st) st2)).2)
          end
      end
  end.
End dispatch.
