(* ===== verification/SchedulerFacts.v ===== *)
(** * What the trigger plane guarantees

    A logic of preservation over the checked mutations, the invariant of the
    registry and its occurrences, and what follows for any sequence of calls:
    occurrences only advance, a fired one carries its receipt, one delivery is
    admitted once, and a refused call changes nothing. *)
From S2P Require Import Order Prelude.
From S2P Require Import Json Cron Revision RevisionFacts Scheduler SchedulerOps SchedulerAdmit.
From S2P Require Import Lease.

(** ** The lifecycle of an occurrence *)

(** What never changes about an occurrence. *)
Definition same_occurrence (o o' : AutomationOccurrence) : Prop :=
  oc_trigger_occurrence_id o' = oc_trigger_occurrence_id o ∧ oc_automation_id o' = oc_automation_id o ∧
  oc_revision_id o' = oc_revision_id o ∧ oc_trigger o' = oc_trigger o ∧ oc_payload_digest o' = oc_payload_digest o ∧
  oc_dedup_digest o' = oc_dedup_digest o ∧ oc_admitted_at o' = oc_admitted_at o ∧
  oc_idempotency_key o' = oc_idempotency_key o ∧ oc_revision o' = oc_revision o.

(** One step: an open occurrence becomes uncertain, is cancelled, or is fired by a
    durable receipt that names it. *)
Inductive occurrence_step : AutomationOccurrence → AutomationOccurrence → Prop :=
  | os_uncertain o reason :
      occurrence_is_terminal o = false → is_empty (trim reason) = false →
      occurrence_step o (set_admission OsUncertain (oc_fired_at o) (oc_work_id o) (oc_run_id o) (Some reason)
                           (oc_admission_receipt o) o)
  | os_cancel o error :
      occurrence_is_terminal o = false →
      occurrence_step o (set_admission OsCancelled (oc_fired_at o) (oc_work_id o) (oc_run_id o) error
                           (oc_admission_receipt o) o)
  | os_fire o now receipt :
      occurrence_is_terminal o = false →
      validate_receipt_for o receipt (expected_work_id o) (expected_run_id o) = Ok tt →
      occurrence_step o (set_admission OsTerminal (Some now) (Some (wr_work_id receipt)) (Some (wr_run_id receipt))
                           None (Some receipt) o).
Definition advances : AutomationOccurrence → AutomationOccurrence → Prop := rtc occurrence_step.

Lemma step_same o o' : occurrence_step o o' → same_occurrence o o'.
Proof. by destruct 1. Qed.
Lemma advances_same o o' : advances o o' → same_occurrence o o'.
Proof.
  induction 1 as [o|o1 o2 o3 H1 _ IH]; [done|]. apply step_same in H1. unfold same_occurrence in *.
  destruct_and!. split_and!; congruence.
Qed.
Lemma terminal_advances o o' : occurrence_is_terminal o = true → advances o o' → o' = o.
Proof. intros Ht. destruct 1 as [|o1 o2 o3 H1 _]; [done|]. destruct H1; congruence. Qed.

(** How the index of occurrences evolves: each advances in its place, new ones
    are added behind. *)
Definition index_evolves (l l' : list AutomationOccurrence) : Prop :=
  ∃ old new, l' = old ++ new ∧ Forall2 advances l old.

Lemma index_evolves_refl l : index_evolves l l.
Proof. exists l, []. split; [by rewrite app_nil_r|]. apply Forall_Forall2_diag, Forall_true. intros o. apply rtc_refl. Qed.
Lemma index_evolves_app l new : index_evolves l (l ++ new).
Proof. exists l, new. split; [done|]. apply Forall_Forall2_diag, Forall_true. intros o. apply rtc_refl. Qed.
Lemma index_evolves_trans l1 l2 l3 : index_evolves l1 l2 → index_evolves l2 l3 → index_evolves l1 l3.
Proof.
  intros (o1 & n1 & -> & H1) (o2 & n2 & -> & H2). apply Forall2_app_inv_l in H2 as (o2a & o2b & Ha & Hb & ->).
  exists o2a, (o2b ++ n2). split; [by rewrite app_assoc|].
  clear -H1 Ha. revert o2a Ha. induction H1 as [|x y l1 o1 Hxy _ IH]; intros o2 Ha.
  - by apply Forall2_nil_inv_l in Ha as ->.
  - apply Forall2_cons_inv_l in Ha as (z & o2' & Hyz & Ha & ->). constructor; [by etransitivity|by apply IH].
Qed.

(** ** The invariant *)

Section facts.
Context {words : JsonWords} {sha : Sha256} {dbg : StrDebug} {iter : HashIter} {iter_laws : HashIterLaws}.

Record job_ok (counters : gmap string N) (id : string) (j : Job) : Prop := {
  jo_id : jb_id j = id;
  jo_automation : jb_automation_id j = trusted_automation_id id;
  jo_revision_id : jb_revision_id j = revision_id_for j (jb_revision j);
  jo_valid : validate_job_definition j = Ok tt;
  jo_revision_bound : (jb_revision j ≤ u64_max)%N;
  jo_counter : ∃ g, counters !! id = Some g ∧ (jb_generation j ≤ g ≤ u64_max)%N
}.
(** An occurrence is valid, carries no Work before it is fired, and then the one
    of its receipt. *)
Definition occurrence_ok (o : AutomationOccurrence) : Prop :=
  validate_occurrence_shape o = Ok tt ∧
  (oc_state o ≠ OsTerminal → oc_fired_at o = None ∧ oc_work_id o = None ∧ oc_run_id o = None ∧ oc_admission_receipt o = None) ∧
  (∀ r, oc_admission_receipt o = Some r → oc_work_id o = Some (wr_work_id r) ∧ oc_run_id o = Some (wr_run_id r)).

(** The automation of every open occurrence is still registered. *)
Definition owned (jobs : gmap string Job) (l : list AutomationOccurrence) : Prop :=
  ∀ o, o ∈ l → occurrence_is_terminal o = false →
    ∃ id j, jobs !! id = Some j ∧ jb_automation_id j = oc_automation_id o.

Record registry_ok (s : SchedulerService) : Prop := {
  ro_jobs : ∀ id j, ss_jobs s !! id = Some j → job_ok (ss_generation_counters s) id j;
  ro_counters : ∀ id g, ss_generation_counters s !! id = Some g → (g ≤ u64_max)%N;
  ro_occurrences : Forall occurrence_ok (ss_occurrences s);
  ro_dedup : NoDup (oc_dedup_digest <$> ss_occurrences s);
  ro_owned : owned (ss_jobs s) (ss_occurrences s)
}.
(** A poisoned service is not used any more. *)
Definition service_ok (s : SchedulerService) : Prop := ss_load_error s = None → registry_ok s.

(** Generations are only handed out upwards. *)
Definition counters_grow (c c' : gmap string N) : Prop :=
  ∀ id g, c !! id = Some g → ∃ g', c' !! id = Some g' ∧ (g ≤ g')%N.
Definition service_evolves (s s' : SchedulerService) : Prop :=
  index_evolves (ss_occurrences s) (ss_occurrences s') ∧
  counters_grow (ss_generation_counters s) (ss_generation_counters s') ∧
  ss_persist_path s' = ss_persist_path s.

Lemma service_evolves_refl s : service_evolves s s.
Proof. split_and!; [apply index_evolves_refl| |done]. intros id g Hg. by exists g. Qed.
Lemma service_evolves_trans s1 s2 s3 : service_evolves s1 s2 → service_evolves s2 s3 → service_evolves s1 s3.
Proof.
  intros (H1 & C1 & P1) (H2 & C2 & P2). split_and!; [by eapply index_evolves_trans| |congruence]. intros id g Hg.
  destruct (C1 id g Hg) as (g1 & Hg1 & ?), (C2 id g1 Hg1) as (g2 & Hg2 & ?). exists g2. split; [done|lia].
Qed.

Lemma evolves_jobs g s : service_evolves s (set_jobs g s).
Proof. exact (service_evolves_refl s). Qed.

(** *** A logic of preservation *)

Definition preserves_at {A} (m : Sch A) (st : SchedState) : Prop :=
  service_ok (st_svc st) →
  service_ok (st_svc (m st).2) ∧ service_evolves (st_svc st) (st_svc (m st).2) ∧
  ss_load_error (st_svc (m st).2) = ss_load_error (st_svc st).
Definition preserves {A} (m : Sch A) : Prop := ∀ st, preserves_at m st.

Lemma unchanged_ok s : service_ok s → service_ok s ∧ service_evolves s s ∧ ss_load_error s = ss_load_error s.
Proof. intros Hs. split_and!; [done|apply service_evolves_refl|done]. Qed.
Lemma preserves_pure {A} (m : Sch A) : (∀ st, st_svc (m st).2 = st_svc st) → preserves m.
Proof. intros Hm st Hs. rewrite Hm. by apply unchanged_ok. Qed.
Lemma sch_bind_ok {A B} (m : Sch A) (k : A → Sch B) : preserves m → (∀ a, preserves (k a)) → preserves (sch_bind m k).
Proof.
  intros Hm Hk st Hs. unfold sch_bind. pose proof (Hm st Hs) as (Hs1 & He1 & Hl1). destruct (m st) as [[a|e] st1]; [|done].
  pose proof (Hk a st1 Hs1) as (Hs2 & He2 & Hl2). split_and!; [done|by eapply service_evolves_trans|by etransitivity].
Qed.

Lemma persist_svc st : st_svc (sched_persist st).2 = st_svc st.
Proof. unfold sched_persist. destruct (ensure_healthy _); [|done]. destruct (ss_persist_path _); [|done]. by destruct (st_writes st) as [|[]]. Qed.

Lemma ensure_healthy_ok s u : ensure_healthy s = Ok u → ss_load_error s = None.
Proof. unfold ensure_healthy. by destruct (ss_load_error s). Qed.

(** What a checked mutation has to show. *)
Lemma checked_at {A} (f : SchedulerService → result (A * option SchedulerService) string) st :
  (∀ a s', registry_ok (st_svc st) → ss_load_error (st_svc st) = None → f (st_svc st) = Ok (a, Some s') →
     ss_load_error s' = None ∧ registry_ok s' ∧ service_evolves (st_svc st) s') →
  preserves_at (checked f) st.
Proof.
  intros Hf Hs. unfold checked. destruct (ensure_healthy (st_svc st)) as [u|] eqn:Hh; [|exact (unchanged_ok _ Hs)].
  apply ensure_healthy_ok in Hh. destruct (f (st_svc st)) as [[a [s'|]]|] eqn:E; try exact (unchanged_ok _ Hs).
  destruct (Hf _ _ (Hs Hh) Hh eq_refl) as (Hl & Hr & He). pose proof (persist_svc (with_svc s' st)) as Hp.
  destruct (sched_persist (with_svc s' st)) as [[]st']; simpl in Hp |- *; [|exact (unchanged_ok _ Hs)].
  rewrite Hp. split_and!; [by intros _|done|congruence].
Qed.

Lemma preserves_checked {A} (f : SchedulerService → result (A * option SchedulerService) string) :
  (∀ s a s', registry_ok s → ss_load_error s = None → f s = Ok (a, Some s') →
     ss_load_error s' = None ∧ registry_ok s' ∧ service_evolves s s') →
  preserves (checked f).
Proof. intros Hf st. apply checked_at, Hf. Qed.

(** A change of the flags of one job. *)
Definition same_definition (j j' : Job) : Prop :=
  jb_id j' = jb_id j ∧ jb_automation_id j' = jb_automation_id j ∧ jb_revision j' = jb_revision j ∧
  jb_generation j' = jb_generation j ∧ jb_revision_id j' = jb_revision_id j ∧
  revision_snapshot j' = revision_snapshot j.

Lemma same_definition_plane en pa ne la re mo no j : same_definition j (set_plane en pa ne la re mo no j).
Proof. done. Qed.

Lemma same_definition_valid j j' : same_definition j j' → validate_job_definition j' = validate_job_definition j.
Proof.
  intros (E1 & E2 & E3 & E4 & E5 & E6). injection E6 as _ _ _ En Es Et Est Ep.
  unfold validate_job_definition. by rewrite E1, E3, E4, En, Et, Ep.
Qed.

Lemma job_ok_same c id j j' : same_definition j j' → job_ok c id j → job_ok c id j'.
Proof.
  intros Hd [H1 H2 H3 H4 H5 H6]. pose proof (same_definition_valid _ _ Hd) as Hv.
  destruct Hd as (E1 & E2 & E3 & E4 & E5 & E6). constructor.
  - by rewrite E1.
  - by rewrite E2.
  - rewrite E5, H3. unfold revision_id_for. by rewrite E3, E4, E6.
  - by rewrite Hv.
  - by rewrite E3.
  - by rewrite E4.
Qed.

(** The same definitions under the same ids. *)
Definition same_jobs (g g' : gmap string Job) : Prop := ∀ id, option_Forall2 same_definition (g !! id) (g' !! id).

Lemma owned_mono g g' l :
  (∀ id j, g !! id = Some j → ∃ j', g' !! id = Some j' ∧ jb_automation_id j' = jb_automation_id j) →
  owned g l → owned g' l.
Proof.
  intros Hg Ho o Hin Ht. destruct (Ho o Hin Ht) as (id & j & Hj & Ha). destruct (Hg id j Hj) as (j' & Hj' & Ha').
  exists id, j'. split; [done|congruence].
Qed.
Lemma owned_same g g' l : same_jobs g g' → owned g l → owned g' l.
Proof.
  intros Hg. apply owned_mono. intros id j Hj. specialize (Hg id). rewrite Hj in Hg.
  inversion Hg as [? j' Hd E1 E2|]; subst. exists j'. split; [done|]. apply Hd.
Qed.

Lemma registry_ok_jobs (g : gmap string Job) s : registry_ok s → same_jobs (ss_jobs s) g → registry_ok (set_jobs g s).
Proof.
  intros [H1 H2 H3 H4 H5] Hg. constructor; try done; [|by eapply owned_same].
  intros id j' Hj'. simpl in Hj'. specialize (Hg id). rewrite Hj' in Hg. inversion Hg as [j ? Hd E1 E2|]; subst.
  eapply job_ok_same; [exact Hd|by apply H1].
Qed.

Lemma same_jobs_insert (jobs : gmap string Job) id j j' : jobs !! id = Some j → same_definition j j' →
  same_jobs jobs (<[id := j']> jobs).
Proof.
  intros Hj Hd k. destruct (decide (id = k)) as [<-|Hne].
  - rewrite lookup_insert_eq, Hj. by constructor.
  - rewrite lookup_insert_ne by done. destruct (jobs !! k); by constructor.
Qed.

Lemma preserves_on_job {A} id (f : Job → A * Job) :
  (∀ j, same_definition j (f j).2) → preserves (on_job id f).
Proof.
  intros Hf. apply preserves_checked. intros s a s' Hr Hl. destruct (ss_jobs s !! id) as [j|] eqn:Hj; [|done].
  intros [= <- <-]. split_and!; [done| |apply evolves_jobs]. apply registry_ok_jobs; [done|].
  eapply same_jobs_insert; [exact Hj|apply Hf].
Qed.

(** *** The registry *)

Lemma preserves_set_enabled id b now : preserves (sched_set_enabled id b now).
Proof. apply preserves_on_job. intros j. simpl. by destruct (b && _). Qed.
Lemma preserves_set_monitor id m : preserves (set_monitor id m).
Proof. by apply preserves_on_job. Qed.
Lemma preserves_monitor_evaluate id obs met : preserves (monitor_evaluate id obs met).
Proof. apply preserves_on_job. intros j. simpl. by destruct (met && _). Qed.
Lemma preserves_pause id : preserves (sched_pause id).
Proof. by apply preserves_on_job. Qed.
Lemma preserves_resume id now : preserves (sched_resume id now).
Proof. apply preserves_on_job. intros j. simpl. by destruct (jb_enabled j && _). Qed.

Lemma preserves_pause_session session : preserves (pause_session_checked session).
Proof.
  apply preserves_checked. intros s a s' Hr Hl. cbv zeta. destruct (0 <? _)%nat; [|done]. intros [= <- <-].
  split_and!; [done| |apply evolves_jobs]. apply registry_ok_jobs; [done|]. intros id.
  rewrite lookup_fmap. destruct (ss_jobs s !! id) as [j|]; constructor. by destruct (to_pause session j).
Qed.

(** A job is only removed when none of its occurrences is open. *)
Lemma preserves_delete id : preserves (delete_checked id).
Proof.
  apply preserves_checked. intros s a s' Hr Hl. destruct (ss_jobs s !! id) as [j|] eqn:Hj; [|done].
  destruct (existsb _ _) eqn:He; [done|]. intros [= <- <-]. split_and!; [done| |apply evolves_jobs].
  destruct Hr as [H1 H2 H3 H4 H5]. constructor; try done.
  - intros k x Hx. simpl in Hx. apply lookup_delete_Some in Hx as [_ Hx]. by apply H1.
  - intros o Ho Ht. destruct (H5 o Ho Ht) as (k & jk & Hk & Ha). exists k, jk. split; [|done].
    apply lookup_delete_Some. split; [|done]. intros <-. assert (jk = j) as -> by congruence.
    apply not_true_iff_false in He. apply He, existsb_exists. exists o. split; [by apply list_elem_of_In|].
    by rewrite Ha, String.eqb_refl, Ht.
Qed.

Lemma bump_counter_get id g c k : bump_counter id g c !! k =
  if decide (id = k) then Some (match c !! id with Some g0 => N.max g0 g | None => g end) else c !! k.
Proof.
  unfold bump_counter. destruct (c !! id) as [g0|]; destruct (decide (id = k)) as [<-|Hne];
    by rewrite ?lookup_insert_eq, ?lookup_insert_ne.
Qed.
Lemma bump_counter_grows id g c : counters_grow c (bump_counter id g c).
Proof.
  intros k g0 Hk. rewrite bump_counter_get. destruct (decide (id = k)) as [<-|]; [|by exists g0].
  rewrite Hk. eexists. split; [done|lia].
Qed.

Lemma job_ok_grow c c' id j : counters_grow c c' → (∀ g, c' !! id = Some g → (g ≤ u64_max)%N) →
  job_ok c id j → job_ok c' id j.
Proof.
  intros Hc Hb [H1 H2 H3 H4 H5 (g & Hg & Hle)]. constructor; try done.
  destruct (Hc _ _ Hg) as (g' & Hg' & ?). exists g'. split; [done|]. specialize (Hb _ Hg'). lia.
Qed.

(** A definition write installs a job that is in order, at a generation of its
    own when the id is new. *)
Lemma preserves_upsert id name session trigger steps policy enabled now :
  preserves (upsert_checked_with_enabled id name session trigger steps policy enabled now).
Proof.
  apply preserves_checked. intros s a s' Hr Hl. cbv zeta.
  set (base := default (job_new_with_generation id name session trigger _) (ss_jobs s !! id)).
  set (c1 := set_definition _ _ _ _ _ _ base).
  set (revision := if negb (bool_decide _) then _ else _).
  set (generation := if (jb_generation c1 =? 0)%N then _ else _).
  set (c2 := set_next_run _ _). set (c3 := set_identity _ _ _ _ c2).
  destruct (validate_job_definition c3) as [[]|] eqn:Hv; [|done]. cbn [rbind]. intros [= <- <-].
  assert (Hbase : jb_id base = id ∧ jb_automation_id base = trusted_automation_id id ∧
    (jb_revision base ≤ u64_max)%N ∧ (jb_generation base ≤ u64_max)%N).
  { unfold base. destruct (ss_jobs s !! id) as [j|] eqn:Hj; simpl.
    - destruct (ro_jobs _ Hr _ _ Hj) as [? ? ? ? ? (g & _ & ?)]. split_and!; try done. lia.
    - split_and!; try done. apply N.max_lub; [apply u64_saturating_add_le|done]. }
  destruct Hbase as (Hid & Hauto & Hrev & Hgen).
  assert (Hgen' : (generation ≤ u64_max)%N) by (unfold generation; by destruct (jb_generation c1 =? 0)%N).
  assert (Hrev' : (revision ≤ u64_max)%N).
  { unfold revision. destruct (negb _); [|by destruct (jb_revision c1 =? 0)%N].
    apply N.max_lub; [|done]. destruct (ss_jobs s !! id) as [j|]; [apply u64_saturating_add_le|done]. }
  assert (Hb : ∀ k g, bump_counter id generation (ss_generation_counters s) !! k = Some g → (g ≤ u64_max)%N).
  { intros k g. rewrite bump_counter_get. destruct (decide (id = k)) as [<-|]; [|apply (ro_counters _ Hr)].
    intros [= <-]. destruct (ss_generation_counters s !! id) as [g0|] eqn:Hg0; [|done].
    pose proof (ro_counters _ Hr _ _ Hg0). lia. }
  split_and!; [done| |].
  - constructor; [|exact Hb|apply Hr|apply Hr|]; cycle 1.
    { eapply owned_mono, Hr. intros k j Hj. simpl. destruct (decide (id = k)) as [<-|Hne].
      - rewrite lookup_insert_eq. exists c3. split; [done|]. change (jb_automation_id base = jb_automation_id j).
        unfold base. by rewrite Hj.
      - exists j. by rewrite lookup_insert_ne. }
    intros k j. simpl. destruct (decide (id = k)) as [<-|Hne].
    + rewrite lookup_insert_eq. intros [= <-]. constructor; [done|done| |done|done|].
      * done.
      * exists (match ss_generation_counters s !! id with Some g0 => N.max g0 generation | None => generation end).
        rewrite bump_counter_get, decide_True by done. split; [done|]. change (jb_generation c3) with generation.
        destruct (ss_generation_counters s !! id) as [g0|] eqn:Hg0; [|lia]. pose proof (ro_counters _ Hr _ _ Hg0). lia.
    + rewrite lookup_insert_ne by done. intros Hj. eapply job_ok_grow; [apply bump_counter_grows|by apply Hb|by apply Hr].
  - split_and!; [apply index_evolves_refl|apply bump_counter_grows|done].
Qed.

(** *** Occurrences *)

(** The index, against the registry that owns it. *)
Definition index_ok (jobs : gmap string Job) (l : list AutomationOccurrence) : Prop :=
  Forall occurrence_ok l ∧ NoDup (oc_dedup_digest <$> l) ∧ owned jobs l.

Lemma registry_index s : registry_ok s → index_ok (ss_jobs s) (ss_occurrences s).
Proof. by intros [_ _ H3 H4 H5]. Qed.
Lemma registry_ok_occurrences l s : registry_ok s → index_ok (ss_jobs s) l → registry_ok (set_occurrences l s).
Proof. intros [H1 H2 _ _ _] (Hl & Hd & Ho). by constructor. Qed.
Lemma evolves_occurrences l s : index_evolves (ss_occurrences s) l → service_evolves s (set_occurrences l s).
Proof. split; [done|]. apply (service_evolves_refl s). Qed.

Lemma by_dedup_none digest l : by_dedup digest l = None → digest ∉ oc_dedup_digest <$> l.
Proof.
  unfold by_dedup. intros Hf Hin. apply list_elem_of_fmap in Hin as (o & -> & Ho). apply list_elem_of_In in Ho.
  pose proof (find_none _ _ Hf _ Ho) as Hn. simpl in Hn. by rewrite String.eqb_refl in Hn.
Qed.

(** The jobs of a selection are registered ones. *)
Definition registered (jobs : gmap string Job) (j : Job) : Prop := ∃ id, jobs !! id = Some j.

Lemma admit_job_ok jobs trigger payload key now j l o l' : index_ok jobs l → registered jobs j →
  admit_job trigger payload key now j l = Ok (o, l') → index_ok jobs l' ∧ index_evolves l l'.
Proof.
  intros (Hl & Hd & Ho) (id & Hj). unfold admit_job.
  destruct (normalize_idempotency_key key "delivery") as [k|]; [|done]. cbn [rbind].
  destruct (by_dedup _ l) as [e|] eqn:Hf.
  { destruct (negb _); [done|]. intros [= <- <-]. split; [done|apply index_evolves_refl]. }
  destruct (negb (frequency_admits now j)); [intros [= <- <-]; split; [done|apply index_evolves_refl]|].
  destruct (validate_occurrence_shape _) as [[]|] eqn:Hv; [|done]. cbn [rbind]. intros [= <- <-].
  split; [|apply index_evolves_app]. split_and!.
  - apply Forall_app. split; [done|]. apply Forall_singleton. by split_and!.
  - rewrite fmap_app. apply NoDup_app. split_and!; [done| |apply NoDup_singleton].
    intros x Hx Hs. apply list_elem_of_singleton in Hs as ->. by apply by_dedup_none in Hf.
  - intros x [Hx | ->%list_elem_of_singleton]%elem_of_app Ht; [by apply Ho|]. by exists id, j.
Qed.

Lemma admit_selected_ok jobs trigger payload key now js l r l' : index_ok jobs l → Forall (registered jobs) js →
  admit_selected trigger payload key now js l = Ok (r, l') → index_ok jobs l' ∧ index_evolves l l'.
Proof.
  revert l r l'. induction js as [|j js IH]; intros l r l' Hl Hjs; simpl; [intros [= <- <-]; split; [done|apply index_evolves_refl]|].
  apply Forall_cons in Hjs as [Hj Hjs].
  destruct (admit_job trigger payload key now j l) as [[o l1]|] eqn:Ha; [|done]. cbn [rbind fst snd].
  destruct (admit_selected trigger payload key now js l1) as [[r2 l2]|] eqn:Hs; [|done]. cbn [rbind fst snd]. intros [= <- <-].
  destruct (admit_job_ok _ _ _ _ _ _ _ _ _ Hl Hj Ha) as [Hl1 He1], (IH _ _ _ Hl1 Hjs Hs) as [Hl2 He2].
  split; [done|by eapply index_evolves_trans].
Qed.

Lemma preserves_admit_selected trigger payload key now sel :
  ∀ st, Forall (registered (ss_jobs (st_svc st))) (sel (st_svc st)) →
  preserves_at (admit_selected_transactional trigger payload key now sel) st.
Proof.
  intros st Hsel. apply checked_at. intros a s' Hr Hl.
  destruct (admit_selected _ _ _ _ _ _) as [[r l']|] eqn:Hs; [|done]. cbn [rbind fst snd].
  destruct (_ =? _)%nat; [done|]. intros [= <- <-].
  destruct (admit_selected_ok _ _ _ _ _ _ _ _ _ (registry_index _ Hr) Hsel Hs) as [Ho He].
  split_and!; [done|by apply registry_ok_occurrences|by apply evolves_occurrences].
Qed.

Lemma values_registered (jobs : gmap string Job) : Forall (registered jobs) (map_iter jobs).*2.
Proof.
  apply Forall_forall. intros j Hj. apply list_elem_of_fmap in Hj as ([id j'] & -> & Hin).
  exists id. by apply elem_of_map_iter.
Qed.
Lemma filter_forall {A} (P : A → Prop) (f : A → bool) l : Forall P l → Forall P (List.filter f l).
Proof. induction 1 as [|x l Hx _ IH]; simpl; [done|]. destruct (f x); [by constructor|done]. Qed.

Lemma select_webhooks_registered path object (P : Job → Prop) js r :
  Forall P js → select_webhooks path object js = Ok r → Forall P r.
Proof.
  intros Hjs. revert r. induction Hjs as [|j js Hj _ IH]; intros r; simpl; [intros [= <-]; constructor|].
  destruct (jb_trigger j) as [| | |expected schema| |]; try apply IH.
  destruct (_ && _); [|apply IH]. destruct (List.find _ schema); [done|].
  destruct (select_webhooks path object js) as [rest|] eqn:E; [|done]. intros [= <-]. constructor; [done|by apply IH].
Qed.


Lemma preserves_event kind payload key now : preserves (admit_event_with_key kind payload key now).
Proof.
  intros st. unfold preserves_at, admit_event_with_key. destruct (ensure_healthy _); [|exact (unchanged_ok _)].
  destruct (negb _); [exact (unchanged_ok _)|].
  destruct (normalize_idempotency_key _ _) as [k|]; [|exact (unchanged_ok _)].
  apply preserves_admit_selected, filter_forall, values_registered.
Qed.

Lemma preserves_webhook path body key now token : preserves (admit_webhook_with_key path body key now token).
Proof.
  intros st. unfold preserves_at, admit_webhook_with_key.
  destruct (ensure_healthy _) as [u|e]; cbn [rbind]; [|exact (unchanged_ok _)].
  destruct (normalize_idempotency_key _ _) as [k|e]; cbn [rbind]; [|exact (unchanged_ok _)].
  destruct (match ss_webhook_token _ with Some _ => _ | None => _ end) as [u2|e]; cbn [rbind];
    [|exact (unchanged_ok _)].
  destruct (match as_object body with Some _ => _ | None => _ end) as [object|e]; cbn [rbind];
    [|exact (unchanged_ok _)].
  destruct (select_webhooks _ _ _) as [js|e] eqn:Hsel; cbn [rbind]; [|exact (unchanged_ok _)].
  apply preserves_admit_selected. eapply select_webhooks_registered; [apply values_registered|exact Hsel].
Qed.

Lemma preserves_manual id payload key now : preserves (admit_manual_with_key id payload key now).
Proof.
  intros st. unfold preserves_at, admit_manual_with_key.
  destruct (ensure_healthy _) as [u|e]; cbn [rbind]; [|exact (unchanged_ok _)].
  destruct (normalize_idempotency_key _ _) as [k|e]; cbn [rbind]; [|exact (unchanged_ok _)].
  destruct (ss_jobs (st_svc st) !! id) as [j|] eqn:Hj; [|exact (unchanged_ok _)].
  destruct (negb _); [exact (unchanged_ok _)|].
  assert (Hp : preserves_at (admit_selected_transactional OtManual payload k now (λ _, [j])) st).
  { apply preserves_admit_selected. constructor; [by exists id|constructor]. }
  intros Hs. specialize (Hp Hs). destruct (admit_selected_transactional _ _ _ _ _ st) as [[admitted|e] st']; [|exact Hp].
  destruct (last admitted); exact Hp.
Qed.

(** The due loop changes the index and the schedules of its jobs. *)
Lemma admit_one_ok jobs trigger payload key now j l o l' : index_ok jobs l → registered jobs j →
  admit_one trigger payload key now j l = Ok (o, l') → index_ok jobs l' ∧ index_evolves l l'.
Proof.
  intros Hl Hj. unfold admit_one. destruct (admit_selected _ _ _ _ _ _) as [[r l1]|] eqn:Hs; [|done]. cbn [rbind fst snd].
  destruct (last r); [|done]. intros [= _ <-]. eapply admit_selected_ok; [done| |exact Hs]. by repeat constructor.
Qed.

Lemma admit_due_ids_ok now ids s r b s' : registry_ok s → admit_due_ids now ids s = Ok (r, b, s') →
  registry_ok s' ∧ service_evolves s s' ∧ ss_load_error s' = ss_load_error s.
Proof.
  revert s r b s'. induction ids as [|id ids IH]; intros s r b s' Hr; cbn [admit_due_ids].
  { intros [= <- <- <-]. split_and!; [done|apply service_evolves_refl|done]. }
  destruct (ss_jobs s !! id) as [j|] eqn:Hj; [|by apply IH]. cbv zeta.
  set (adm := rbind (admit_one _ _ _ _ _ _) _).
  assert (Hadmit : adm = Ok (r, b, s') → registry_ok s' ∧ service_evolves s s' ∧ ss_load_error s' = ss_load_error s).
  { unfold adm. destruct (admit_one _ _ _ _ _ _) as [[o l1]|] eqn:Ha; [|done]. cbn [rbind fst snd].
    destruct (admit_one_ok (ss_jobs s) _ _ _ _ _ _ _ _ (registry_index _ Hr) (ex_intro _ _ Hj) Ha) as [Ho He].
    destruct (admit_due_ids now ids _) as [[[r2 b2] s2]|] eqn:Hrest; [|done]. cbn [rbind fst snd]. intros [= _ _ <-].
    destruct (IH _ _ _ _ (registry_ok_occurrences _ _ Hr Ho) Hrest) as (Hr2 & He2 & Hl2).
    split_and!; [done|by eapply service_evolves_trans; [apply evolves_occurrences|]|done]. }
  destruct (is_cron _); [|exact Hadmit]. destruct (sp_misfire_policy _); [|exact Hadmit|done].
  destruct (admit_due_ids now ids _) as [[[r2 b2] s2]|] eqn:Hrest; [|done]. cbn [rbind fst snd]. intros [= _ _ <-].
  assert (Hr1 : registry_ok (set_jobs (<[id:=set_next_run (compute_next_run (jb_trigger j) now None) j]> (ss_jobs s)) s)).
  { apply registry_ok_jobs; [done|]. eapply same_jobs_insert; done. }
  destruct (IH _ _ _ _ Hr1 Hrest) as (Hr2 & He2 & Hl2).
  split_and!; [done|by eapply service_evolves_trans; [apply evolves_jobs|]|done].
Qed.

Lemma preserves_admit_due now : preserves (admit_due now).
Proof.
  apply preserves_checked. intros s a s' Hr Hl.
  destruct (admit_due_ids now _ s) as [[[r b] s2]|] eqn:Hd; [|done]. cbn [rbind fst snd].
  destruct (_ || _); [|done]. intros [= _ <-]. destruct (admit_due_ids_ok _ _ _ _ _ _ Hr Hd) as (H1 & H2 & H3).
  split_and!; [congruence|done|done].
Qed.

(** *** Advancement *)

Lemma occurrence_split id s o : occurrence id s = Some o → ∃ l1 l2,
  ss_occurrences s = l1 ++ o :: l2 ∧ oc_trigger_occurrence_id o = id ∧
  ∀ o', replace_occurrence id o' (ss_occurrences s) = l1 ++ o' :: l2.
Proof.
  unfold occurrence. induction (ss_occurrences s) as [|x l IH]; simpl; [done|].
  destruct (String.eqb_spec (oc_trigger_occurrence_id x) id) as [<-|Hne].
  - intros [= <-]. by exists [], l.
  - intros (l1 & l2 & -> & Hid & Hrep)%IH. exists (x :: l1), l2. split_and!; [done|done|]. intros o'. simpl. by rewrite Hrep.
Qed.

(** The identity part of the shape does not look at the admission. *)
Lemma shape_set_admission state fired work run error receipt o :
  validate_occurrence_shape o = Ok tt →
  validate_occurrence_state (set_admission state fired work run error receipt o) = Ok tt →
  validate_occurrence_shape (set_admission state fired work run error receipt o) = Ok tt.
Proof.
  intros Hv Hs. revert Hv. unfold validate_occurrence_shape. cbn -[validate_occurrence_state].
  destruct (_ || negb (is_sha256_digest _)); [done|]. destruct (parse_revision_id _); [|done].
  destruct (_ || _); [done|]. destruct (negb _); [done|]. by destruct (negb _ && _).
Qed.
Lemma shape_state o : validate_occurrence_shape o = Ok tt → validate_occurrence_state o = Ok tt.
Proof.
  unfold validate_occurrence_shape. destruct (_ || negb (is_sha256_digest _)); [done|].
  destruct (parse_revision_id _); [|done]. destruct (_ || _); [done|]. destruct (negb _); [done|]. by destruct (negb _ && _).
Qed.

Lemma step_ok o o' : occurrence_ok o → occurrence_step o o' → occurrence_ok o'.
Proof.
  intros (Hv & Hopen & _) Hstep. destruct Hstep as [o reason Ht Hreason|o error Ht|o now receipt Ht Hr].
  all: assert (Hst : oc_state o ≠ OsTerminal) by (intros E; unfold occurrence_is_terminal in Ht; by rewrite E in Ht).
  all: destruct (Hopen Hst) as (E1 & E2 & E3 & E4);
    (split; [apply shape_set_admission; [done|]|split; simpl; [try done|by rewrite ?E4; intros r [=]; subst]]).
  - unfold validate_occurrence_state. simpl. by rewrite E1, E4, Hreason.
  - unfold validate_occurrence_state. simpl. by rewrite E1, E2, E3, E4.
  - exact Hr.
Qed.

Lemma step_terminal o o' : occurrence_step o o' → occurrence_is_terminal o = false.
Proof. by destruct 1. Qed.

Lemma replace_ok jobs id o o' s : index_ok jobs (ss_occurrences s) → occurrence id s = Some o → occurrence_step o o' →
  index_ok jobs (replace_occurrence id o' (ss_occurrences s)) ∧
  index_evolves (ss_occurrences s) (replace_occurrence id o' (ss_occurrences s)).
Proof.
  intros (Hl & Hd & Ho) Hocc Hstep. destruct (occurrence_split _ _ _ Hocc) as (l1 & l2 & El & Hid & Hrep).
  rewrite Hrep, El in *. pose proof (step_same _ _ Hstep) as Hsame. destruct Hsame as (_ & Ea & _ & _ & _ & Ed & _).
  split; [split_and!|].
  - apply Forall_app in Hl as [Hl1 Hl2]. apply Forall_cons in Hl2 as [Hx Hl2].
    apply Forall_app. split; [done|]. constructor; [by eapply step_ok|done].
  - rewrite fmap_app, fmap_cons in *. by rewrite Ed.
  - intros x Hx Ht. apply elem_of_app in Hx as [Hx | [-> | Hx]%elem_of_cons].
    + apply Ho; [|done]. apply elem_of_app. by left.
    + rewrite Ea. apply Ho; [|by eapply step_terminal]. apply elem_of_app. right. by left.
    + apply Ho; [|done]. apply elem_of_app. right. by right.
  - exists (l1 ++ o' :: l2), []. split; [by rewrite app_nil_r|]. apply Forall2_app; [|constructor; [by apply rtc_once|]].
    all: apply Forall_Forall2_diag, Forall_true; intros x; apply rtc_refl.
Qed.

Lemma same_definition_fired now trigger j : same_definition j (fired_job now trigger j).
Proof. by destruct trigger. Qed.

Lemma open_state o : oc_state o = OsPending ∨ oc_state o = OsUncertain → occurrence_is_terminal o = false.
Proof. unfold occurrence_is_terminal. by intros [-> | ->]. Qed.

(** A step of one occurrence together with a change of one job's schedule. *)
Lemma advance_ok id o o' g s : registry_ok s → occurrence id s = Some o → occurrence_step o o' → same_jobs (ss_jobs s) g →
  let s' := set_jobs g (set_occurrences (replace_occurrence id o' (ss_occurrences s)) s) in
  registry_ok s' ∧ service_evolves s s'.
Proof.
  intros Hr Hocc Hstep Hg. destruct (replace_ok _ _ _ _ _ (registry_index _ Hr) Hocc Hstep) as [Hi He].
  split; [by apply registry_ok_jobs; [apply registry_ok_occurrences|]|by apply evolves_occurrences].
Qed.
Lemma same_jobs_refl g : same_jobs g g.
Proof. intros id. destruct (g !! id); by constructor. Qed.

Lemma preserves_fire id now receipt : preserves (mark_occurrence_fired_with_receipt id now receipt).
Proof.
  apply preserves_checked. intros s a s' Hr Hl. destruct (occurrence id s) as [o|] eqn:Hocc; [|done].
  destruct (validate_receipt_for _ _ _ _) as [[]|] eqn:Hrc; [|done]. cbn [rbind].
  destruct (oc_state o) eqn:Hst; [| |done|by destruct (bool_decide _)].
  all: destruct (find_automation _ s) as [found|]; [|done]; destruct (ss_jobs s !! jb_id found) as [old|] eqn:Hj; [|done].
  all: destruct (validate_occurrence_shape _) as [[]|] eqn:Hv; [|done]; cbn [rbind]; intros [= _ <-].
  all: split; [done|]; apply (advance_ok id o); [done|done| |by eapply same_jobs_insert, same_definition_fired].
  all: apply os_fire; [apply open_state; by (left + right)|done].
Qed.

Lemma preserves_uncertain id reason : preserves (mark_occurrence_uncertain id reason).
Proof.
  apply preserves_checked. intros s a s' Hr Hl. destruct (is_empty (trim reason)) eqn:Hreason; [done|].
  destruct (occurrence id s) as [o|] eqn:Hocc; [|done]. destruct (occurrence_is_terminal o) eqn:Ht; [done|].
  intros [= _ <-]. split; [done|].
  destruct (advance_ok id o _ (ss_jobs s) s Hr Hocc (os_uncertain _ _ Ht Hreason) (same_jobs_refl _)) as [H1 H2].
  by destruct s.
Qed.

Lemma skip_tick_jobs a at_ s : ∃ g, skip_tick a at_ s = set_jobs g s ∧ same_jobs (ss_jobs s) g.
Proof.
  unfold skip_tick. destruct (List.find _ _) as [[key j]|] eqn:Hf.
  - apply find_some in Hf as [Hin%list_elem_of_In%elem_of_map_iter _]. eexists. split; [done|].
    by eapply same_jobs_insert.
  - exists (ss_jobs s). split; [by destruct s|apply same_jobs_refl].
Qed.

Lemma preserves_cancel id reason : preserves (cancel_occurrence id reason).
Proof.
  apply preserves_checked. intros s a s' Hr Hl. destruct (occurrence id s) as [o|] eqn:Hocc; [|done]. cbv zeta.
  destruct (oc_state o) eqn:Hst; [| |done|done]; intros [= _ <-].
  all: set (o' := set_admission _ _ _ _ _ _ _); set (s1 := set_occurrences _ s).
  all: assert (Hg : ∃ g, match oc_trigger o with OtSchedule at_ => skip_tick (oc_automation_id o) at_ s1 | _ => s1 end =
    set_jobs g s1 ∧ same_jobs (ss_jobs s) g) by (destruct (oc_trigger o); [by apply (skip_tick_jobs _ _ s1)|..];
      exists (ss_jobs s); (split; [by destruct s|apply same_jobs_refl])).
  all: destruct Hg as (g & -> & Hg); split; [done|]; apply (advance_ok id o); [done|done| |done].
  all: apply os_cancel, open_state; by (left + right).
Qed.

(** *** The dispatcher *)

Context {codec : SchedCodec}.

Lemma sch_ret_ok {A} (a : A) : preserves (sch_ret a).
Proof. by apply preserves_pure. Qed.
Lemma sch_fail_ok {A} e : preserves (@sch_fail A e).
Proof. by apply preserves_pure. Qed.
Lemma preserves_get {A} (f : SchedulerService → A) : preserves (sch_get f).
Proof. by apply preserves_pure. Qed.
Lemma sch_lift_ok {A} (r : result A string) : preserves (sch_lift r).
Proof. by apply preserves_pure. Qed.
Lemma preserves_need {A} (o : option A) e : preserves (need o e).
Proof. destruct o; [apply sch_ret_ok|apply sch_fail_ok]. Qed.
Lemma preserves_decoded {A} what (r : result A string) : preserves (decoded what r).
Proof. destruct r; [apply sch_ret_ok|apply sch_fail_ok]. Qed.

(** The registry does not look at the fields that are not persisted. *)
Definition same_registry (s s' : SchedulerService) : Prop :=
  ss_jobs s' = ss_jobs s ∧ ss_occurrences s' = ss_occurrences s ∧
  ss_generation_counters s' = ss_generation_counters s ∧ ss_load_error s' = ss_load_error s ∧
  ss_persist_path s' = ss_persist_path s.
Lemma same_registry_ok s s' : same_registry s s' → service_ok s →
  service_ok s' ∧ service_evolves s s' ∧ ss_load_error s' = ss_load_error s.
Proof.
  intros (E1 & E2 & E3 & E4 & E5) Hs. split_and!; [| |done].
  - intros Hl. rewrite E4 in Hl. destruct (Hs Hl) as [H1 H2 H3 H4 H5]. constructor; rewrite ?E1, ?E2, ?E3; done.
  - unfold service_evolves. rewrite E2, E3, E5. apply service_evolves_refl.
Qed.
Lemma preserves_volatile f : (∀ s, same_registry s (f s)) → preserves (volatile f).
Proof. intros Hf st Hs. by apply same_registry_ok. Qed.
Lemma battery_registry on s : same_registry s (set_battery on s).
Proof. unfold set_battery. by destruct (is_some _). Qed.
Lemma token_registry token s : same_registry s (set_webhook_token token s).
Proof. unfold set_webhook_token. by destruct (is_some _). Qed.
End facts.

Create HintDb scheduler.
#[export] Hint Resolve sch_ret_ok sch_fail_ok preserves_get sch_lift_ok preserves_need preserves_decoded
  preserves_volatile battery_registry token_registry preserves_set_enabled preserves_set_monitor
  preserves_monitor_evaluate preserves_pause preserves_resume preserves_pause_session preserves_delete
  preserves_upsert preserves_event preserves_webhook preserves_manual preserves_admit_due preserves_fire
  preserves_uncertain preserves_cancel : scheduler.
Ltac preserve :=
  repeat first
    [ progress (intros; cbv beta zeta)
    | apply sch_bind_ok; [solve [eauto with scheduler]|intros]
    | apply sch_bind_ok
    | solve [eauto with scheduler]
    | match goal with |- preserves (match ?o with _ => _ end) => destruct o end ].

Section dispatcher.
Context {words : JsonWords} {sha : Sha256} {dbg : StrDebug} {iter : HashIter} {iter_laws : HashIterLaws}.
Context {codec : SchedCodec}.

Lemma preserves_decode_opt {A} what (f : Value → result A string) o : preserves (decoded_opt what f o).
Proof. unfold decoded_opt. preserve. Qed.
#[local] Hint Resolve preserves_decode_opt : scheduler.

Lemma preserves_record_nudge goal t : preserves (volatile (record_nudge goal t)).
Proof. by apply preserves_volatile. Qed.
#[local] Hint Resolve preserves_record_nudge : scheduler.

Lemma preserves_by_id method p f : (∀ id, preserves (f id)) → preserves (by_id method p f).
Proof. intros Hf. unfold by_id. preserve. Qed.

Lemma preserves_handle_inner method p clock : preserves (handle_inner method p clock).
Proof.
  unfold handle_inner, mark_fired, rpc_upsert, rpc_mark_occurrence_fired, rpc_fire_event, rpc_fire_webhook, rpc_run_now,
    rpc_monitor, rpc_monitor_config.
  cbv zeta. repeat (case_match; [first [solve [preserve] | apply preserves_by_id; preserve]|]). preserve.
Qed.
End dispatcher.
