(* ===== verification/SchedulerProps.v ===== *)
(** * The guarantees of the trigger plane over any sequence of calls

    The calls of [SchedulerService] as one type with its step relation, and the
    theorems: the registry stays well-formed, occurrences only advance, a fired
    one carries its receipt, generations are not handed out twice, one delivery
    is admitted once, a refused call leaves no trace, and an acknowledged one
    survives a restart. *)
From S2P Require Import Order Prelude.
From S2P Require Import Json Cron Revision RevisionFacts Scheduler SchedulerOps SchedulerAdmit SchedulerFacts.
From S2P Require Import Lease.

Section props.
Context {words : JsonWords} {sha : Sha256} {dbg : StrDebug} {iter : HashIter} {iter_laws : HashIterLaws}.
Context {codec : SchedCodec}.

(** The public calls that change the service: the dispatcher, the checked
    operations behind it, and the façades that poison the service on an error. *)
Inductive SchedCall :=
  | ScHandle (method : string) (params : Value) (clock : N)
  | ScUpsert (id name session : string) (trigger : TriggerSpec) (steps : list AutomationStep)
      (policy : option SchedulePolicy) (now : N)
  | ScUpsertChecked (id name session : string) (trigger : TriggerSpec) (steps : list AutomationStep)
      (policy : option SchedulePolicy) (enabled : option bool) (now : N)
  | ScDelete (id : string)
  | ScDeleteChecked (id : string)
  | ScSetEnabled (id : string) (enabled : bool) (now : N)
  | ScSetMonitor (id : string) (monitor : option MonitorConfig)
  | ScMonitorEvaluate (id observation : string) (met : bool)
  | ScMonitorScript (id stdout : string) (silent : bool)
  | ScNotepad (id line : string)
  | ScNotepadChecked (id line : string)
  | ScPause (id : string)
  | ScResume (id : string) (now : N)
  | ScPauseSession (session : string)
  | ScAdmitDue (now : N)
  | ScAdmitEvent (kind : EventKind) (payload : Value) (now : N)
  | ScAdmitWebhook (path : string) (body : Value) (now : N) (token : option string)
  | ScAdmitManual (id : string) (payload : Value) (now : N)
  | ScFire (id : string) (now : N) (receipt : WorkRunAdmissionReceipt)
  | ScUncertain (id reason : string)
  | ScCancel (id reason : string)
  | ScIncident (job kind detail : string) (at_ms : N)
  | ScAck (id : string).

Definition sched_call (c : SchedCall) (st : SchedState) : SchedState :=
  match c with
  | ScHandle method params clock => (scheduler_handle method params clock st).2
  | ScUpsert id name session trigger steps policy now => upsert id name session trigger steps policy now st
  | ScUpsertChecked id name session trigger steps policy enabled now =>
      (upsert_checked_with_enabled id name session trigger steps policy enabled now st).2
  | ScDelete id => (delete_job id st).2
  | ScDeleteChecked id => (delete_checked id st).2
  | ScSetEnabled id enabled now => (sched_set_enabled id enabled now st).2
  | ScSetMonitor id monitor => (set_monitor id monitor st).2
  | ScMonitorEvaluate id observation met => (monitor_evaluate id observation met st).2
  | ScMonitorScript id stdout silent => (monitor_evaluate_script id stdout silent st).2
  | ScNotepad id line => (append_notepad id line st).2
  | ScNotepadChecked id line => (append_notepad_checked id line st).2
  | ScPause id => (sched_pause id st).2
  | ScResume id now => (sched_resume id now st).2
  | ScPauseSession session => (pause_session session st).2
  | ScAdmitDue now => (admit_due now st).2
  | ScAdmitEvent kind payload now => (admit_trigger_event kind payload now st).2
  | ScAdmitWebhook path body now token => (admit_webhook path body now token st).2
  | ScAdmitManual id payload now => (admit_manual id payload now st).2
  | ScFire id now receipt => (mark_occurrence_fired_with_receipt id now receipt st).2
  | ScUncertain id reason => (mark_occurrence_uncertain id reason st).2
  | ScCancel id reason => (cancel_occurrence id reason st).2
  | ScIncident job kind detail at_ms => with_svc (report_incident job kind detail at_ms (st_svc st)).2 st
  | ScAck id => with_svc (ack_incident id (st_svc st)).2 st
  end.
Definition sched_step (st st' : SchedState) : Prop := ∃ c, st' = sched_call c st.
Definition sched_reaches : SchedState → SchedState → Prop := rtc sched_step.

(** ** Every call preserves *)

Lemma preserves_script id stdout silent : preserves (monitor_evaluate_script id stdout silent).
Proof. by apply preserves_on_job. Qed.
Lemma preserves_notepad id line : preserves (append_notepad_checked id line).
Proof.
  apply preserves_checked. intros s a s' Hr Hl. destruct (ss_jobs s !! id) as [j|] eqn:Hj; [|done].
  intros [= <- <-]. split_and!; [done| |apply evolves_jobs]. apply registry_ok_jobs; [done|].
  by eapply same_jobs_insert.
Qed.

Definition moves (st st' : SchedState) : Prop := service_ok (st_svc st') ∧ service_evolves (st_svc st) (st_svc st').

Lemma moves_of {A} (m : Sch A) st : preserves m → service_ok (st_svc st) → moves st (m st).2.
Proof. intros Hm Hs. destruct (Hm st Hs) as (H1 & H2 & _). by split. Qed.
Lemma moves_same st st' : st_svc st' = st_svc st → service_ok (st_svc st) → moves st st'.
Proof. intros E Hs. unfold moves. rewrite E. split; [done|apply service_evolves_refl]. Qed.

(** A façade poisons the service, which only stops its use. *)
Lemma poison_moves {A} (dflt : A) m st : preserves m → service_ok (st_svc st) → moves st (or_poison dflt m st).2.
Proof.
  intros Hm Hs. unfold or_poison. pose proof (Hm st Hs) as (H1 & H2 & _). destruct (m st) as [[a|e] st']; [done|].
  split; [by intros ?|done].
Qed.

Lemma handle_moves method params clock st : service_ok (st_svc st) → moves st (scheduler_handle method params clock st).2.
Proof.
  intros Hs. unfold scheduler_handle. destruct (ensure_healthy _); [|by apply moves_same].
  pose proof (preserves_handle_inner method params clock st Hs) as Hp.
  destruct (handle_inner method params clock st) as [[out|e] st']; [|by apply moves_same].
  pose proof (persist_svc st') as Hsvc. destruct (sched_persist st') as [[u|e] st2]; simpl in *.
  - unfold moves. rewrite Hsvc. by destruct Hp as (? & ? & _).
  - apply moves_same; [exact (persist_svc (with_svc (st_svc st) st2))|done].
Qed.

Lemma upsert_moves id name session trigger steps policy now st : service_ok (st_svc st) →
  moves st (upsert id name session trigger steps policy now st).
Proof.
  intros Hs. unfold upsert. pose proof (preserves_upsert id name session trigger steps policy None now st Hs) as (H1 & H2 & _).
  destruct (upsert_checked_with_enabled _ _ _ _ _ _ _ _ st) as [[u|e] st']; [done|]. cbv zeta.
  destruct (is_some _); (split; [by intros ?|done]).
Qed.

Lemma call_moves c st : service_ok (st_svc st) → moves st (sched_call c st).
Proof.
  intros Hs. destruct c; simpl.
  - by apply handle_moves.
  - by apply upsert_moves.
  - apply moves_of; [apply preserves_upsert|done].
  - apply (poison_moves false); [apply preserves_delete|done].
  - apply moves_of; [apply preserves_delete|done].
  - apply moves_of; [apply preserves_set_enabled|done].
  - apply moves_of; [apply preserves_set_monitor|done].
  - apply moves_of; [apply preserves_monitor_evaluate|done].
  - apply moves_of; [apply preserves_script|done].
  - apply (poison_moves false); [apply preserves_notepad|done].
  - apply moves_of; [apply preserves_notepad|done].
  - apply moves_of; [apply preserves_pause|done].
  - apply moves_of; [apply preserves_resume|done].
  - apply (poison_moves 0); [apply preserves_pause_session|done].
  - apply moves_of; [apply preserves_admit_due|done].
  - apply moves_of; [|done]. apply sch_bind_ok; [apply sch_lift_ok|intros; apply preserves_event].
  - apply moves_of; [|done]. apply sch_bind_ok; [apply sch_lift_ok|intros; apply preserves_webhook].
  - apply moves_of; [|done]. apply sch_bind_ok; [apply sch_lift_ok|intros; apply preserves_manual].
  - apply moves_of; [apply preserves_fire|done].
  - apply moves_of; [apply preserves_uncertain|done].
  - apply moves_of; [apply preserves_cancel|done].
  - apply (moves_of (volatile (λ s, (report_incident job kind detail at_ms s).2))); [|done]. by apply preserves_volatile.
  - apply (moves_of (volatile (λ s, (ack_incident id s).2))); [|done]. apply preserves_volatile. intros s.
    unfold ack_incident. by destruct (ack_first _ _).
Qed.

Lemma reaches_moves st st' : service_ok (st_svc st) → sched_reaches st st' → moves st st'.
Proof.
  intros Hs Hr. induction Hr as [st|st1 st2 st3 [c ->] _ IH]; [by apply moves_same|].
  destruct (call_moves c st1 Hs) as [H1 H2]. destruct (IH H1) as [H3 H4].
  split; [done|by eapply service_evolves_trans].
Qed.

(** *** Theorems *)

(** [C13] Whatever sequence of calls is made, through the dispatcher, the checked
    operations or the legacy façades, a service that still answers has a
    well-formed registry: every job has the automation id of its registry id, a
    valid trigger and policy and the revision id of its definition; its generation
    is at most the counter of its id; every occurrence is valid in its state, no
    two answer the same delivery, and each open one names a registered job. *)
Theorem scheduler_stays_well_formed (st st' : SchedState) :
  service_ok (st_svc st) → sched_reaches st st' → service_ok (st_svc st').
Proof. intros Hs Hr. by apply reaches_moves in Hr as []. Qed.

(** [C14] The index of occurrences is append-only and an occurrence only advances:
    after any calls the occurrence at a place is the same delivery, moved along
    its lifecycle; one that was fired or cancelled is unchanged, field by field. *)
Theorem occurrences_only_advance (st st' : SchedState) (i : nat) (o : AutomationOccurrence) :
  service_ok (st_svc st) → sched_reaches st st' → ss_occurrences (st_svc st) !! i = Some o →
  ∃ o', ss_occurrences (st_svc st') !! i = Some o' ∧ advances o o' ∧ same_occurrence o o' ∧
        (occurrence_is_terminal o = true → o' = o).
Proof.
  intros Hs Hr Ho. apply reaches_moves in Hr as [_ [(old & new & -> & Hf) _]]; [|done].
  destruct (Forall2_lookup_l _ _ _ _ _ Hf Ho) as (o' & Ho' & Ha). exists o'. split_and!.
  - by apply lookup_app_l_Some.
  - done.
  - by apply advances_same.
  - intros Ht. by apply terminal_advances.
Qed.

(** [C15] An occurrence counts as fired exactly when it holds a receipt, and that
    receipt is durable, names this occurrence, its automation, revision and
    generation, and the Work and Run derived from them, which are the ones the
    occurrence records; no other state carries a Work. *)
Theorem fired_by_receipt_only (st st' : SchedState) (o : AutomationOccurrence) :
  service_ok (st_svc st) → sched_reaches st st' → ss_load_error (st_svc st') = None → o ∈ ss_occurrences (st_svc st') →
  match oc_admission_receipt o with
  | Some r => oc_state o = OsTerminal ∧ validate_receipt_for o r (expected_work_id o) (expected_run_id o) = Ok tt ∧
      oc_work_id o = Some (expected_work_id o) ∧ oc_run_id o = Some (expected_run_id o)
  | None => oc_state o ≠ OsTerminal ∧ oc_work_id o = None ∧ oc_run_id o = None ∧ oc_fired_at o = None
  end.
Proof.
  intros Hs Hr Hl Ho. apply reaches_moves in Hr as [Hok _]; [|done].
  destruct (proj1 (Forall_forall _ _) (ro_occurrences _ (Hok Hl)) o Ho) as (Hv & Hopen & Hwork).
  apply shape_state in Hv. unfold validate_occurrence_state in Hv. destruct (oc_admission_receipt o) as [r|] eqn:Er.
  - destruct (Hwork r eq_refl) as [Ew Erun]. destruct (decide (oc_state o = OsTerminal)) as [E|Hne].
    + rewrite E in Hv. destruct (_ || _); [done|]. split_and!; [done|done| |].
      all: unfold validate_receipt_for in Hv; destruct (negb (wr_durable r)); [done|];
        destruct (String.eqb_spec (wr_work_id r) (expected_work_id o)), (String.eqb_spec (wr_run_id r) (expected_run_id o));
        try done; congruence.
    + by destruct (Hopen Hne) as (_ & _ & _ & ?).
  - destruct (decide (oc_state o = OsTerminal)) as [E|Hne].
    + rewrite E in Hv. by destruct (_ || _).
    + by destruct (Hopen Hne) as (? & ? & ? & _).
Qed.

(** ** Generations *)

Lemma checked_ok {A} (f : SchedulerService → result (A * option SchedulerService) string) st a st' :
  checked f st = (Ok a, st') →
  ss_load_error (st_svc st) = None ∧
  ((f (st_svc st) = Ok (a, None) ∧ st' = st) ∨
   ∃ s', f (st_svc st) = Ok (a, Some s') ∧ st_svc st' = s' ∧ sched_persist (with_svc s' st) = (Ok tt, st')).
Proof.
  unfold checked. destruct (ensure_healthy (st_svc st)) as [u|] eqn:Hh; [|done]. apply ensure_healthy_ok in Hh.
  destruct (f (st_svc st)) as [[a1 [s'|]]|] eqn:E; [|intros [= <- <-]; split; [done|by left]|done].
  pose proof (persist_svc (with_svc s' st)) as Hp. destruct (sched_persist (with_svc s' st)) as [[[]|e] st1] eqn:Ep; [|done].
  intros [= <- <-]. split; [done|]. right. exists s'. split_and!; [done|exact Hp|done].
Qed.

(** A generation is never handed out twice for an id: when a job has been
    deleted and its id is defined again, however many calls later, the new job has
    a greater generation, so nothing admitted for the old one can pass for it. *)
Theorem generations_are_never_reused (st st1 st2 : SchedState) (id name session : string) (trigger : TriggerSpec)
    (steps : list AutomationStep) (policy : option SchedulePolicy) (enabled : option bool) (now : N) (j : Job) :
  service_ok (st_svc st) → ss_load_error (st_svc st) = None → ss_jobs (st_svc st) !! id = Some j →
  (jb_generation j < u64_max)%N → sched_reaches st st1 → ss_jobs (st_svc st1) !! id = None →
  upsert_checked_with_enabled id name session trigger steps policy enabled now st1 = (Ok tt, st2) →
  ∃ j2, ss_jobs (st_svc st2) !! id = Some j2 ∧ (jb_generation j < jb_generation j2)%N ∧
        jb_automation_id j2 = jb_automation_id j.
Proof.
  intros Hs Hl Hj Hmax Hr Hnone Hup. destruct (ro_jobs _ (Hs Hl) _ _ Hj) as [_ Ha _ _ _ (g & Hg & Hle)].
  apply reaches_moves in Hr as (_ & _ & Hc & _); [|done]. destruct (Hc _ _ Hg) as (g1 & Hg1 & Hle1).
  apply checked_ok in Hup as (_ & [[Hf _]|(s' & Hf & <- & _)]); revert Hf; cbv zeta; rewrite Hnone, Hg1;
    (destruct (validate_job_definition _) as [[]|]; [|done]); cbn [rbind]; intros [= <-].
  set (ng := N.max (u64_saturating_add _ _) 1). eexists. split; [apply lookup_insert_eq|]. split; [|by rewrite Ha].
  change (jb_generation j < (if (ng =? 0)%N then 1 else ng))%N.
  assert (jb_generation j < ng)%N.
  { unfold ng. cbn [default]. eapply N.lt_le_trans; [|apply N.le_max_l]. unfold u64_saturating_add.
    apply N.min_glb_lt; [lia|done]. }
  destruct (N.eqb_spec ng 0); [lia|done].
Qed.

(** ** One delivery, one occurrence *)

Lemma by_dedup_unique l i o : NoDup (oc_dedup_digest <$> l) → l !! i = Some o → by_dedup (oc_dedup_digest o) l = Some o.
Proof.
  unfold by_dedup. revert i. induction l as [|x l IH]; intros i Hn Hi; [done|]. simpl.
  rewrite fmap_cons in Hn. apply NoDup_cons in Hn as [Hx Hn]. destruct i as [|i]; simpl in Hi.
  - injection Hi as ->. by rewrite String.eqb_refl.
  - destruct (String.eqb_spec (oc_dedup_digest x) (oc_dedup_digest o)) as [E|_]; [|by eapply IH].
    destruct Hx. rewrite E. apply list_elem_of_fmap. exists o. split; [done|by eapply list_elem_of_lookup_2].
Qed.

Lemma admit_job_answer trigger payload key now j l o l' : admit_job trigger payload key now j l = Ok (Some o, l') →
  ∃ k i, normalize_idempotency_key key "delivery" = Ok k ∧ l' !! i = Some o ∧
    oc_dedup_digest o = dedup_digest_for (jb_automation_id j) (jb_generation j) trigger k ∧
    oc_payload_digest o = digest_json payload.
Proof.
  unfold admit_job. destruct (normalize_idempotency_key key "delivery") as [k|] eqn:Hk; [|done]. cbn [rbind]. cbv zeta.
  destruct (by_dedup _ l) as [e|] eqn:Hf.
  - destruct (String.eqb_spec (oc_payload_digest e) (digest_json payload)) as [Hp|]; [|done]. intros [= <- <-].
    unfold by_dedup in Hf. apply find_some in Hf as [Hin Hd%String.eqb_eq].
    apply list_elem_of_In, list_elem_of_lookup in Hin as [i Hi]. by exists k, i.
  - destruct (negb _); [done|]. destruct (validate_occurrence_shape _) as [[]|]; [|done]. cbn [rbind]. intros [= <- <-].
    exists k, (length l). split; [done|]. split; [|done]. by apply list_lookup_middle.
Qed.

(** [C16] A delivery is admitted once. When a job's occurrence answered a trigger
    under a key, then after any calls the same trigger and key for that automation
    and generation are answered with that very occurrence, wherever it is in its
    lifecycle, and the index is not touched; the same key with another payload
    digest is refused. The frequency cap and the job's later edits play no part. *)
Theorem redelivery_is_answered_once (st st1 st2 : SchedState) (trigger : OccurrenceTrigger) (payload payload2 : Value)
    (key : string) (now now2 : N) (j j2 : Job) (o : AutomationOccurrence) :
  service_ok (st_svc st1) → sched_reaches st1 st2 → ss_load_error (st_svc st2) = None →
  admit_job trigger payload key now j (ss_occurrences (st_svc st)) = Ok (Some o, ss_occurrences (st_svc st1)) →
  jb_automation_id j2 = jb_automation_id j → jb_generation j2 = jb_generation j →
  let index := ss_occurrences (st_svc st2) in
  ∃ o2, advances o o2 ∧ o2 ∈ index ∧
    (digest_json payload2 = digest_json payload → admit_job trigger payload2 key now2 j2 index = Ok (Some o2, index)) ∧
    (digest_json payload2 ≠ digest_json payload → ∃ e, admit_job trigger payload2 key now2 j2 index = Err e).
Proof.
  intros Hs Hr Hl Hadm Ha Hg. cbv zeta. apply admit_job_answer in Hadm as (k & i & Hk & Hi & Hd & Hp).
  apply reaches_moves in Hr as [Hok [(old & new & El & Hf) _]]; [|done].
  destruct (Forall2_lookup_l _ _ _ _ _ Hf Hi) as (o2 & Ho2 & Hadv). exists o2.
  pose proof (advances_same _ _ Hadv) as (_ & _ & _ & _ & Ep & Ed & _).
  assert (Hin : ss_occurrences (st_svc st2) !! i = Some o2) by (rewrite El; by apply lookup_app_l_Some).
  pose proof (by_dedup_unique _ _ _ (ro_dedup _ (Hok Hl)) Hin) as Hby. rewrite Ed, Hd in Hby.
  split_and!; [done|by eapply list_elem_of_lookup_2| |].
  all: intros Hpay; unfold admit_job; rewrite Hk, Ha, Hg; cbn [rbind]; cbv zeta; rewrite Hby, Ep, Hp.
  - by rewrite Hpay, String.eqb_refl.
  - destruct (String.eqb_spec (digest_json payload) (digest_json payload2)) as [E|_]; [by destruct Hpay|]. by eexists.
Qed.

(** ** Restart *)

(** The service a restart is expected to find: what is persisted, in the order of
    the file, and nothing of what is not. *)
Definition restarted (path : string) (s : SchedulerService) : SchedulerService :=
  set_occurrences (sort_by admission_le (ss_occurrences s))
    (set_jobs (ss_jobs s) (set_counters (ss_generation_counters s) (set_path (Some path) scheduler_new))).

(** No two jobs or occurrences share a (truncated) digest. *)
Definition digests_distinct (s : SchedulerService) : Prop :=
  NoDup (oc_trigger_occurrence_id <$> ss_occurrences s) ∧
  ∀ id1 id2, is_Some (ss_jobs s !! id1) → is_Some (ss_jobs s !! id2) →
    trusted_automation_id id1 = trusted_automation_id id2 → id1 = id2.

Lemma shape_identity o : validate_occurrence_shape o = Ok tt →
  is_empty (trim (oc_revision_id o)) = false ∧ is_empty (trim (oc_idempotency_key o)) = false ∧
  is_ok (parse_revision_id (oc_revision_id o)) = true ∧ ar_revision_id (oc_revision o) = oc_revision_id o.
Proof.
  unfold validate_occurrence_shape. destruct (is_empty (trim (oc_revision_id o))), (is_empty (trim (oc_idempotency_key o)));
    rewrite ?orb_true_r; simpl; try done; rewrite ?orb_true_r; try done.
  destruct (_ || negb (is_sha256_digest _)); [done|]. destruct (parse_revision_id _) as [i|]; [|done].
  destruct (String.eqb_spec (ar_revision_id (oc_revision o)) (oc_revision_id o)) as [->|]; [done|].
  by rewrite orb_true_r.
Qed.

Lemma set_provenance_same o :
  set_provenance (oc_revision_id o) (oc_idempotency_key o) (oc_state o) (oc_admission_error o) (oc_revision o) o = o.
Proof. by destruct o. Qed.

Lemma normalize_valid o : occurrence_ok o → normalize_loaded_occurrence o = Ok o.
Proof.
  intros (Hv & Hopen & _). destruct (shape_identity _ Hv) as (E1 & E2 & E3 & E4). apply shape_state in Hv.
  unfold normalize_loaded_occurrence. rewrite E3, E4, E1, E2. cbn [negb rbind fst snd]. cbv zeta.
  unfold validate_occurrence_state in Hv. destruct (oc_state o) eqn:Hst.
  - destruct (Hopen ltac:(done)) as (F1 & F2 & F3 & F4). rewrite F1, F2, F3, F4 in Hv |- *. cbn [is_some orb] in Hv |- *.
    destruct (oc_admission_error o) eqn:He; [done|]. cbn. by rewrite <- Hst, <- He, set_provenance_same.
  - by rewrite <- Hst, set_provenance_same.
  - by rewrite <- Hst, set_provenance_same.
  - destruct (oc_admission_receipt o) as [r|]; [|by destruct (_ || _)]. cbn [is_some].
    by rewrite <- Hst, set_provenance_same.
Qed.

Lemma existsb_eqb_false {A} (f : A → string) (x : string) l :
  x ∉ f <$> l → existsb (λ e, String.eqb (f e) x) l = false.
Proof.
  intros Hx. apply not_true_iff_false. intros He. apply existsb_exists in He as (e & Hin & Heq%String.eqb_eq).
  apply Hx, list_elem_of_fmap. exists e. split; [done|by apply list_elem_of_In].
Qed.

Lemma install_occurrences_valid l s : Forall occurrence_ok l →
  NoDup (oc_trigger_occurrence_id <$> ss_occurrences s ++ l) → NoDup (oc_dedup_digest <$> ss_occurrences s ++ l) →
  install_occurrences l s = Ok (set_occurrences (ss_occurrences s ++ l) s).
Proof.
  intros Hl. revert s. induction Hl as [|o l Ho _ IH]; intros s Hi Hd; cbn [install_occurrences].
  { rewrite app_nil_r. by destruct s. }
  unfold install_occurrence. rewrite (normalize_valid _ Ho). cbn [rbind]. rewrite (proj1 Ho). cbn [rbind].
  rewrite !existsb_eqb_false; cbn [rbind].
  - rewrite IH; simpl; [|by rewrite <- app_assoc..]. by rewrite <- app_assoc.
  - rewrite fmap_app, fmap_cons in Hd. apply NoDup_app in Hd as (_ & Hd & _). intros Hin. apply (Hd _ Hin). by left.
  - rewrite fmap_app, fmap_cons in Hi. apply NoDup_app in Hi as (_ & Hi & _). intros Hin. apply (Hi _ Hin). by left.
Qed.

Lemma valid_definition j : validate_job_definition j = Ok tt →
  is_empty (trim (jb_id j)) = false ∧ (jb_revision j =? 0)%N = false ∧ (jb_generation j =? 0)%N = false.
Proof.
  unfold validate_job_definition. destruct (is_empty (trim (jb_id j))); [done|].
  destruct (is_empty (trim (jb_name j))); [done|]. simpl.
  destruct (jb_generation j =? 0)%N; [done|]. by destruct (jb_revision j =? 0)%N.
Qed.

Lemma set_identity_same j : set_identity (jb_automation_id j) (jb_revision j) (jb_generation j) (jb_revision_id j) j = j.
Proof. by destruct j. Qed.
Lemma bump_same id g g0 c : c !! id = Some g0 → (g ≤ g0)%N → bump_counter id g c = c.
Proof. intros Hc Hle. unfold bump_counter. rewrite Hc, N.max_l by done. by apply insert_id. Qed.

Lemma install_job_valid j s : job_ok (ss_generation_counters s) (jb_id j) j → ss_jobs s !! jb_id j = None →
  (∀ id j', ss_jobs s !! id = Some j' → jb_automation_id j' ≠ jb_automation_id j) →
  install_job j s = Ok (set_jobs (<[jb_id j := j]> (ss_jobs s)) s).
Proof.
  intros [_ H2 H3 H4 _ (g & Hg & Hle)] Hnone Hauto. destruct (valid_definition _ H4) as (E1 & E2 & E3).
  unfold install_job. rewrite E1, E2, E3. cbv zeta.
  assert (Ea : (if is_empty (trim (jb_automation_id j)) then trusted_automation_id (jb_id j) else jb_automation_id j) =
    jb_automation_id j) by (by destruct (is_empty (trim (jb_automation_id j)))).
  rewrite Ea, set_identity_same, H4. rewrite H2 at 1. rewrite String.eqb_refl. cbn [negb rbind].
  rewrite <- H3, String.eqb_refl, set_identity_same, Hnone, andb_false_r. cbn [andb is_some].
  destruct (existsb _ _) eqn:He.
  - apply existsb_exists in He as ([id j'] & Hin%list_elem_of_In%elem_of_map_iter & Heq%String.eqb_eq).
    by destruct (Hauto _ _ Hin).
  - do 2 f_equal. rewrite (bump_same _ _ g) by (done || lia). by destruct s.
Qed.

Lemma install_jobs_valid l s : Forall (λ j, job_ok (ss_generation_counters s) (jb_id j) j) l →
  NoDup (jb_id <$> l) → NoDup (jb_automation_id <$> l) →
  (∀ id j j', ss_jobs s !! id = Some j' → j ∈ l → jb_id j ≠ id ∧ jb_automation_id j' ≠ jb_automation_id j) →
  ∃ g, install_jobs l s = Ok (set_jobs g s) ∧
    ∀ id j, g !! id = Some j ↔ (ss_jobs s !! id = Some j ∨ j ∈ l ∧ jb_id j = id).
Proof.
  intros Hl. revert s Hl. induction l as [|j l IH]; intros s Hl Hi Ha Hs; cbn [install_jobs].
  { exists (ss_jobs s). split; [by destruct s|]. intros id j. split; [by left|]. intros [?|[[]%elem_of_nil _]]. done. }
  apply Forall_cons in Hl as [Hj Hl]. rewrite fmap_cons in Hi, Ha. apply NoDup_cons in Hi as [Hj1 Hi]. apply NoDup_cons in Ha as [Hj2 Ha].
  assert (Hnone : ss_jobs s !! jb_id j = None).
  { destruct (ss_jobs s !! jb_id j) as [j'|] eqn:E; [|done]. by destruct (Hs _ j _ E) as [[] _]; [left|]. }
  rewrite install_job_valid; [|done|done|]; [cbn [rbind]|intros id j' E; eapply (Hs id j j' E); by left].
  destruct (IH (set_jobs (<[jb_id j := j]> (ss_jobs s)) s)) as (g & Eg & Hg); [done|done|done| |].
  - intros id j0 j' Hlk Hin. simpl in Hlk. apply lookup_insert_Some in Hlk as [[<- <-]|[Hne Hlk]].
    + split; intros E; [apply Hj1|apply Hj2]; rewrite ?E; apply list_elem_of_fmap; exists j0; by rewrite ?E.
    + apply (Hs id j0 j' Hlk). by right.
  - exists g. split; [rewrite Eg; by destruct s|]. intros id j0. rewrite Hg. simpl. rewrite lookup_insert_Some, elem_of_cons.
    split.
    + intros [[[<- <-]|[_ ?]]|[? ?]]; [right; split; [by left|done]|by left|right; split; [by right|done]].
    + intros [Hlk|[[->|Hin] <-]]; [left; right|left; by left|by right; split].
      split; [|done]. intros <-. by rewrite Hnone in Hlk.
Qed.

Lemma job_values s j : registry_ok s → j ∈ ps_jobs (store_of s) ↔ ss_jobs s !! jb_id j = Some j.
Proof.
  intros Hr. simpl. rewrite sort_by_perm, list_elem_of_fmap. split.
  - intros ([id j'] & -> & Hin%elem_of_map_to_list). simpl in *. by rewrite (jo_id _ _ _ (ro_jobs _ Hr _ _ Hin)).
  - intros Hlk. exists (jb_id j, j). split; [done|by apply elem_of_map_to_list].
Qed.

(** Reading back what a well-formed registry is written as. *)
Lemma store_loads path s : registry_ok s → digests_distinct s →
  load_or_new_checked path (SfStore (store_of s)) = Ok (restarted path s).
Proof.
  intros Hr [Hids Hauto]. cbn -[install_loaded]. unfold install_loaded.
  set (svc := set_counters (ss_generation_counters s) (set_path (Some path) scheduler_new)).
  assert (Hval : ∀ j, j ∈ ps_jobs (store_of s) → ss_jobs s !! jb_id j = Some j) by (intros j; by apply job_values).
  assert (Hnd : NoDup (jb_id <$> ps_jobs (store_of s))).
  { simpl. rewrite sort_by_perm, <- list_fmap_compose. apply NoDup_fmap_2_strong; [|apply NoDup_map_to_list].
    intros [i1 j1] [i2 j2] H1%elem_of_map_to_list H2%elem_of_map_to_list. simpl. intros E.
    rewrite (jo_id _ _ _ (ro_jobs _ Hr _ _ H1)), (jo_id _ _ _ (ro_jobs _ Hr _ _ H2)) in E. subst. by f_equal; congruence. }
  destruct (install_jobs_valid (ps_jobs (store_of s)) svc) as (g & Eg & Hg).
  - apply Forall_forall. intros j Hj. apply (ro_jobs _ Hr), Hval, Hj.
  - exact Hnd.
  - apply NoDup_fmap_1 in Hnd. apply NoDup_fmap_2_strong; [|exact Hnd]. intros j1 j2 H1%Hval H2%Hval E.
    rewrite (jo_automation _ _ _ (ro_jobs _ Hr _ _ H1)), (jo_automation _ _ _ (ro_jobs _ Hr _ _ H2)) in E.
    apply Hauto in E; [congruence|by eexists|by eexists].
  - intros id j j' Hlk. by destruct (lookup_empty_Some id j').
  - assert (g = ss_jobs s) as ->.
    { apply map_eq. intros id. apply option_eq. intros j. rewrite Hg, (job_values s j Hr). split.
      - intros [Hlk|[Hlk <-]]; [by destruct (lookup_empty_Some id j)|done].
      - intros Hlk. right. by rewrite (jo_id _ _ _ (ro_jobs _ Hr _ _ Hlk)). }
    cbn [ps_jobs ps_occurrences store_of] in Eg |- *. rewrite Eg. cbn [rbind].
    rewrite install_occurrences_valid; [done| | |]; simpl; rewrite sort_by_perm; [by apply Hr|done|by apply Hr].
Qed.

Lemma restarted_ok path s : registry_ok s → registry_ok (restarted path s).
Proof.
  intros [H1 H2 H3 H4 H5]. constructor; simpl; [done|done|by rewrite sort_by_perm|by rewrite sort_by_perm|].
  intros o Ho. apply H5. by rewrite sort_by_perm in Ho.
Qed.

Lemma persist_writes st st' path : sched_persist st = (Ok tt, st') → ss_persist_path (st_svc st) = Some path →
  st_file st' = SfStore (store_of (st_svc st)) ∧ ss_load_error (st_svc st) = None.
Proof.
  unfold sched_persist. destruct (ensure_healthy _) eqn:Hh; [|done]. apply ensure_healthy_ok in Hh. intros E Hp. rewrite Hp in E.
  destruct (st_writes st) as [|[u|e] ws]; [by injection E as <-|by injection E as <-|done].
Qed.

(** [C17] An acknowledged call survives a restart. When the dispatcher answers a
    call successfully, the store it leaves loads, under the path of the service,
    into the same jobs, generation counters and occurrences (in the order of the
    file), and that registry is well-formed again, unless two jobs or occurrences
    share a truncated digest. *)
Theorem acknowledged_call_survives_restart (st st' : SchedState) (method path : string) (params : Value) (clock : N)
    (out : SchedReply) :
  service_ok (st_svc st) → scheduler_handle method params clock st = (Ok out, st') →
  ss_persist_path (st_svc st') = Some path → digests_distinct (st_svc st') →
  load_or_new path (st_file st') = restarted path (st_svc st') ∧ registry_ok (restarted path (st_svc st')) ∧
  ss_occurrences (restarted path (st_svc st')) ≡ₚ ss_occurrences (st_svc st').
Proof.
  intros Hs Hh Hp Hd. pose proof (handle_moves method params clock st Hs) as [Hok _]. rewrite Hh in Hok. simpl in Hok.
  assert (Hw : ∃ st1, sched_persist st1 = (Ok tt, st')).
  { unfold scheduler_handle in Hh. destruct (ensure_healthy _); [|done].
    destruct (handle_inner _ _ _ st) as [[o|e] st1]; [|done]. destruct (sched_persist st1) as [[[]|e] st2] eqn:E; [|done].
    injection Hh as _ <-. by exists st1. }
  destruct Hw as [st1 Hw]. pose proof (persist_svc st1) as Hsvc. rewrite Hw in Hsvc. simpl in Hsvc.
  rewrite Hsvc in Hp. destruct (persist_writes _ _ _ Hw Hp) as [Hf Hl]. rewrite <- Hsvc in Hf, Hl.
  unfold load_or_new. rewrite Hf, store_loads; [|by apply Hok|done].
  split_and!; [done|by apply restarted_ok, Hok|apply sort_by_perm].
Qed.

(** ** Refusals leave no trace *)

(** Writes are only consumed; a refused operation has not written the file. *)
Definition shrinks {A} (m : Sch A) : Prop := ∀ st, st_writes (m st).2 `suffix_of` st_writes st.
Definition tidy {A} (m : Sch A) : Prop := shrinks m ∧ ∀ st e st', m st = (Err e, st') → st_file st' = st_file st.
Definition quiet {A} (m : Sch A) : Prop := ∀ st, (m st).2 = st.
Definition answers {A} (m : Sch A) : Prop := ∀ st, ∃ a, (m st).1 = Ok a ∧ st_writes (m st).2 = st_writes st.

Lemma tidy_quiet {A} (m : Sch A) : quiet m → tidy m.
Proof. intros Hm. split; [intros st; by rewrite Hm|]. intros st e st' E. pose proof (Hm st) as Hq. rewrite E in Hq. by simpl in Hq; subst. Qed.
Lemma tidy_answers {A} (m : Sch A) : answers m → tidy m.
Proof.
  intros Hm. split; [intros st; destruct (Hm st) as (a & _ & ->); done|]. intros st e st' E.
  destruct (Hm st) as (a & Ha & _). by rewrite E in Ha.
Qed.
Lemma tidy_bind_quiet {A B} (m : Sch A) (k : A → Sch B) : quiet m → (∀ a, tidy (k a)) → tidy (sch_bind m k).
Proof.
  intros Hm Hk. split; intros st; unfold sch_bind; pose proof (Hm st) as Hq; destruct (m st) as [[a|e] st1];
    simpl in Hq; subst; [apply Hk|done|apply Hk|]. by intros e' st' [= _ <-].
Qed.
Lemma tidy_bind_answers {A B} (m : Sch A) (k : A → Sch B) : tidy m → (∀ a, answers (k a)) → tidy (sch_bind m k).
Proof.
  intros [Hm1 Hm2] Hk. split; intros st; unfold sch_bind; pose proof (Hm1 st) as Hw; destruct (m st) as [[a|e] st1] eqn:E;
    simpl in Hw; [destruct (Hk a st1) as (b & _ & ->); done|done| |].
  - intros e st' E2. destruct (Hk a st1) as (b & Hb & _). by rewrite E2 in Hb.
  - intros e' st' [= <- <-]. by eapply Hm2.
Qed.

Lemma persist_effect st : st_writes (sched_persist st).2 `suffix_of` st_writes st ∧
  (∀ e st', sched_persist st = (Err e, st') → st_file st' = st_file st).
Proof.
  unfold sched_persist. destruct (ensure_healthy _); [|by split; [|intros ? ? [= _ <-]]].
  destruct (ss_persist_path _); [|done]. destruct (st_writes st) as [|[u|w] ws] eqn:E; [done|..].
  - split; [by apply suffix_cons_r|done].
  - split; [by apply suffix_cons_r|]. by intros e st' [= _ <-].
Qed.

Lemma tidy_checked {A} (f : SchedulerService → result (A * option SchedulerService) string) : tidy (checked f).
Proof.
  split; intros st; unfold checked; (destruct (ensure_healthy _); [|first [done|by intros ? ? [= _ <-]]]);
    (destruct (f _) as [[? [s'|]]|]; [|first [done|by intros ? ? [= _ <-]]..]);
    destruct (persist_effect (with_svc s' st)) as [Hw Hf]; destruct (sched_persist (with_svc s' st)) as [[[]|e] st1]; try done.
  intros e' st' [= <- <-]. simpl. by apply (Hf e).
Qed.

Lemma quiet_ret {A} (a : A) : quiet (sch_ret a).
Proof. done. Qed.
Lemma quiet_get {A} (f : SchedulerService → A) : quiet (sch_get f).
Proof. done. Qed.
Lemma quiet_fail {A} e : quiet (@sch_fail A e).
Proof. done. Qed.
Lemma quiet_lift {A} (r : result A string) : quiet (sch_lift r).
Proof. done. Qed.
Lemma quiet_need {A} (o : option A) e : quiet (need o e).
Proof. by destruct o. Qed.
Lemma quiet_decode {A} what (r : result A string) : quiet (decoded what r).
Proof. by destruct r. Qed.
Lemma quiet_decode_opt {A} what (f : Value → result A string) o : quiet (decoded_opt what f o).
Proof. destruct o as [v|]; [|done]. unfold decoded_opt, sch_bind. intros st. by destruct (f v). Qed.
Lemma answers_ret {A} (a : A) : answers (sch_ret a).
Proof. intros st. by exists a. Qed.
Lemma answers_get {A} (f : SchedulerService → A) : answers (sch_get f).
Proof. intros st. by eexists. Qed.
Lemma answers_bind {A B} (m : Sch A) (k : A → Sch B) : answers m → (∀ a, answers (k a)) → answers (sch_bind m k).
Proof.
  intros Hm Hk st. unfold sch_bind. destruct (Hm st) as (a & Ha & Hw). destruct (m st) as [[a'|] st1]; [|done].
  injection Ha as ->. destruct (Hk a st1) as (b & Hb & Hw2). exists b. split; [done|]. by rewrite Hw2.
Qed.
Lemma answers_volatile f : answers (volatile f).
Proof. intros st. by exists tt. Qed.

Lemma tidy_event kind payload key now : tidy (admit_event_with_key kind payload key now).
Proof.
  split; intros st; unfold admit_event_with_key; (destruct (ensure_healthy _); [|first [done|by intros ? ? [= _ <-]]]);
    (destruct (negb _); [first [done|by intros ? ? [= _ <-]]|]);
    (destruct (normalize_idempotency_key _ _); [apply tidy_checked|first [done|by intros ? ? [= _ <-]]]).
Qed.
Lemma tidy_webhook path body key now token : tidy (admit_webhook_with_key path body key now token).
Proof.
  split; intros st; unfold admit_webhook_with_key;
    (destruct (rbind (ensure_healthy _) _) as [[k js]|]; [|first [done|by intros ? ? [= _ <-]]]); apply tidy_checked.
Qed.

(** A manual request that was not admitted was not written. *)
Lemma admit_none_same trigger payload key now j l l' :
  admit_selected trigger payload key now [j] l = Ok ([], l') → l' = l.
Proof.
  cbn [admit_selected]. destruct (admit_job _ _ _ _ j l) as [[[o|] l1]|] eqn:Ha; cbn [rbind fst snd]; [done| |done].
  intros [= <-]. revert Ha. unfold admit_job. destruct (normalize_idempotency_key _ _); [|done]. cbn [rbind]. cbv zeta.
  destruct (by_dedup _ l); [by destruct (negb _)|]. destruct (negb _); [by intros [=]|].
  by destruct (validate_occurrence_shape _).
Qed.
Lemma tidy_manual id payload key now : tidy (admit_manual_with_key id payload key now).
Proof.
  assert (Hc : ∀ j k, tidy (admit_selected_transactional OtManual payload k now (λ _, [j]))) by (intros; apply tidy_checked).
  split; intros st; unfold admit_manual_with_key;
    (destruct (rbind (ensure_healthy _) _) as [[k j]|]; [|first [done|by intros ? ? [= _ <-]]]); destruct (Hc j k) as [Hw Hf]; specialize (Hw st);
    destruct (admit_selected_transactional _ _ _ _ _ st) as [[admitted|e] st1] eqn:E; simpl in Hw.
  - by destruct (last admitted).
  - done.
  - destruct (last admitted) eqn:El; [done|]. intros e st' [= _ <-]. apply last_None in El as ->.
    apply checked_ok in E as (_ & [[_ ->]|(s' & Hs & _ & _)]); [done|]. revert Hs.
    destruct (admit_selected _ _ _ _ _ _) as [[r l']|] eqn:Hs; [|done]. cbn [rbind fst snd]. intros [= -> Hs'].
    apply admit_none_same in Hs as ->. by rewrite Nat.eqb_refl in Hs'.
  - intros e' st' [= <- <-]. by eapply Hf.
Qed.

Lemma tidy_by_id method p f : (∀ id, tidy (f id)) → tidy (by_id method p f).
Proof. intros Hf. apply tidy_bind_quiet; [apply quiet_need|done]. Qed.
#[local] Hint Resolve quiet_need quiet_lift quiet_decode quiet_decode_opt quiet_ret quiet_get quiet_fail answers_ret answers_get
  answers_volatile tidy_checked tidy_event tidy_webhook tidy_manual tidy_quiet tidy_answers : scheduler.
Ltac tidy_up :=
  repeat first
    [ progress (intros; cbv beta zeta)
    | solve [auto with scheduler | apply tidy_checked]
    | apply tidy_by_id
    | apply tidy_bind_quiet; [solve [auto with scheduler]|]
    | apply tidy_bind_answers
    | apply answers_bind
    | match goal with |- tidy (match ?o with _ => _ end) => destruct o end ].

Lemma tidy_handle_inner method p clock : tidy (handle_inner method p clock).
Proof.
  unfold handle_inner, mark_fired, rpc_upsert, rpc_mark_occurrence_fired, rpc_fire_event, rpc_fire_webhook, rpc_run_now,
    rpc_monitor, rpc_monitor_config.
  cbv zeta. repeat (case_match; [solve [tidy_up]|]). tidy_up.
Qed.

Definition failing (ws : list (result unit string)) : nat := length (List.filter (λ w, negb (is_ok w)) ws).
Lemma failing_suffix ws ws' : ws' `suffix_of` ws → (failing ws' ≤ failing ws)%nat.
Proof. intros [k ->]. unfold failing. rewrite List.filter_app, length_app. lia. Qed.

Lemma persist_refused st e st' : ss_load_error (st_svc st) = None → sched_persist st = (Err e, st') →
  is_Some (ss_persist_path (st_svc st)) ∧ st_writes st = Err e :: st_writes st'.
Proof.
  unfold sched_persist, ensure_healthy. intros ->. destruct (ss_persist_path _); [|done].
  destruct (st_writes st) as [|[u|w] ws]; [done..|]. intros [= <- <-]. by split.
Qed.
Lemma persist_accepted st : ss_load_error (st_svc st) = None → is_Some (ss_persist_path (st_svc st)) →
  failing (st_writes st) = 0 → st_file (sched_persist st).2 = SfStore (store_of (st_svc st)).
Proof.
  unfold sched_persist, ensure_healthy. intros -> [p ->]. by destruct (st_writes st) as [|[u|w] ws].
Qed.

(** [C18] A refused call leaves no trace. When the dispatcher answers with an
    error, the registry is the one before the call, whatever operations had run;
    and, unless the write that puts the old registry back fails as well, the file
    is untouched or holds that old registry. *)
Theorem refused_call_leaves_no_trace (st st' : SchedState) (method : string) (params : Value) (clock : N) (e : string) :
  service_ok (st_svc st) → scheduler_handle method params clock st = (Err e, st') →
  st_svc st' = st_svc st ∧
  ((failing (st_writes st) ≤ 1)%nat → st_file st' = st_file st ∨ st_file st' = SfStore (store_of (st_svc st))).
Proof.
  intros Hs. unfold scheduler_handle. destruct (ensure_healthy _) as [u|] eqn:Hh; [|intros [= _ <-]; split; [done|by left]].
  apply ensure_healthy_ok in Hh. destruct (preserves_handle_inner method params clock st Hs) as (_ & (_ & _ & Hp) & Hl).
  destruct (tidy_handle_inner method params clock) as [Hw Hf]. specialize (Hw st).
  destruct (handle_inner method params clock st) as [[out|e1] st1] eqn:Hi; simpl in Hp, Hl, Hw.
  - destruct (sched_persist st1) as [[[]|e1] st2] eqn:Hper; [done|]. intros [= _ <-].
    destruct (persist_refused _ _ _ (eq_trans Hl Hh) Hper) as [Hpath Hws]. split; [exact (persist_svc (with_svc (st_svc st) st2))|].
    intros Hle. right. apply (persist_accepted (with_svc (st_svc st) st2)); simpl; [done|by rewrite <- Hp|].
    apply failing_suffix in Hw. rewrite Hws in Hw. unfold failing in *. simpl in Hw. lia.
  - intros [= _ <-]. split; [done|]. intros _. left. simpl. by eapply Hf.
Qed.

(** ** An open occurrence can be fired *)

Lemma occurrence_found id s o : o ∈ ss_occurrences s → oc_trigger_occurrence_id o = id →
  NoDup (oc_trigger_occurrence_id <$> ss_occurrences s) → occurrence id s = Some o.
Proof.
  unfold occurrence. intros Hin <- Hn. induction (ss_occurrences s) as [|x l IH]; [by apply elem_of_nil in Hin|].
  rewrite fmap_cons in Hn. apply NoDup_cons in Hn as [Hx Hn]. simpl. apply elem_of_cons in Hin as [->|Hin].
  - by rewrite String.eqb_refl.
  - destruct (String.eqb_spec (oc_trigger_occurrence_id x) (oc_trigger_occurrence_id o)) as [E|_]; [|by apply IH].
    destruct Hx. rewrite E. apply list_elem_of_fmap. by exists o.
Qed.

Lemma occurrence_replaced id o o' s : occurrence id s = Some o → oc_trigger_occurrence_id o' = oc_trigger_occurrence_id o →
  List.find (λ x, String.eqb (oc_trigger_occurrence_id x) id) (replace_occurrence id o' (ss_occurrences s)) = Some o'.
Proof.
  unfold occurrence. intros Ho E. induction (ss_occurrences s) as [|x l IH]; [done|]. simpl in *.
  destruct (String.eqb_spec (oc_trigger_occurrence_id x) id) as [Hx|Hne]; simpl.
  - injection Ho as ->. by rewrite E, Hx, String.eqb_refl.
  - destruct (String.eqb_spec (oc_trigger_occurrence_id x) id); [done|]. by apply IH.
Qed.

Lemma find_owner s o : registry_ok s → o ∈ ss_occurrences s → occurrence_is_terminal o = false →
  ∃ found j, find_automation (oc_automation_id o) s = Some found ∧ ss_jobs s !! jb_id found = Some j ∧
    jb_automation_id j = oc_automation_id o ∧ j = found.
Proof.
  intros Hr Ho Ht. destruct (ro_owned _ Hr o Ho Ht) as (id & j & Hj & Ha). unfold find_automation.
  destruct (List.find _ _) as [[k f]|] eqn:Hf.
  - apply find_some in Hf as [Hin%list_elem_of_In%elem_of_map_iter Heq%String.eqb_eq]. simpl in *.
    exists f, f. split_and!; [done|by rewrite (jo_id _ _ _ (ro_jobs _ Hr _ _ Hin))|done|done].
  - apply elem_of_map_iter, list_elem_of_In in Hj. pose proof (find_none _ _ Hf _ Hj) as Hn. simpl in Hn.
    by rewrite Ha, String.eqb_refl in Hn.
Qed.

Lemma issued_receipt_valid o i : parse_revision_id (oc_revision_id o) = Ok i → validate_occurrence_shape o = Ok tt →
  ri_generation i = revision_generation (oc_revision o).
Proof.
  intros Hp. unfold validate_occurrence_shape. rewrite Hp. destruct (_ || negb (is_sha256_digest _)); [done|].
  destruct (N.eqb_spec (revision_generation (oc_revision o)) (ri_generation i)) as [->|]; [done|].
  by rewrite orb_true_r.
Qed.

Lemma issued_receipt id s o : occurrence id s = Some o → validate_occurrence_shape o = Ok tt →
  ∃ r, receipt_for_occurrence id s = Ok r ∧ validate_receipt_for o r (expected_work_id o) (expected_run_id o) = Ok tt.
Proof.
  intros Ho Hv. unfold receipt_for_occurrence. rewrite Ho. destruct (shape_identity _ Hv) as (_ & _ & Hp & _).
  destruct (parse_revision_id (oc_revision_id o)) as [i|] eqn:Hi; [|done]. eexists. split; [done|].
  unfold validate_receipt_for. simpl. by rewrite !String.eqb_refl, (issued_receipt_valid _ _ Hi Hv), N.eqb_refl.
Qed.

Lemma persist_works st : ss_load_error (st_svc st) = None → failing (st_writes st) = 0 → ∃ st', sched_persist st = (Ok tt, st').
Proof.
  unfold sched_persist, ensure_healthy. intros -> Hw. destruct (ss_persist_path _); [|by eexists].
  destruct (st_writes st) as [|[u|w] ws]; [by eexists|by eexists|done].
Qed.

Lemma checked_commits {A} (f : SchedulerService → result (A * option SchedulerService) string) st a s' :
  ss_load_error (st_svc st) = None → f (st_svc st) = Ok (a, Some s') → ss_load_error s' = None →
  failing (st_writes st) = 0 → ∃ st', checked f st = (Ok a, st') ∧ st_svc st' = s'.
Proof.
  intros Hl Hf Hl' Hw. unfold checked, ensure_healthy. rewrite Hl, Hf.
  destruct (persist_works (with_svc s' st) Hl' Hw) as [st' Hp]. rewrite Hp. exists st'. split; [done|].
  pose proof (persist_svc (with_svc s' st)) as Hs. by rewrite Hp in Hs.
Qed.

(** Nothing open is stuck. In a well-formed registry whose writes succeed,
    every pending or uncertain occurrence can be fired: the receipt the service
    issues for it is accepted, the occurrence becomes terminal with that receipt,
    its job records the fire and, for a tick, is scheduled anew from the later of
    now and the tick; and presenting the receipt again changes nothing. *)
Theorem open_occurrence_can_be_fired (st : SchedState) (id : string) (o : AutomationOccurrence) (now : N) :
  registry_ok (st_svc st) → ss_load_error (st_svc st) = None → occurrence id (st_svc st) = Some o →
  occurrence_is_terminal o = false → failing (st_writes st) = 0 →
  ∃ r st' o' jid j, receipt_for_occurrence id (st_svc st) = Ok r ∧
    mark_occurrence_fired_with_receipt id now r st = (Ok tt, st') ∧
    occurrence id (st_svc st') = Some o' ∧ oc_state o' = OsTerminal ∧ oc_admission_receipt o' = Some r ∧
    ss_jobs (st_svc st') !! jid = Some j ∧ jb_automation_id j = oc_automation_id o ∧ jb_last_fired_at j = Some now ∧
    (∀ at_, oc_trigger o = OtSchedule at_ → jb_next_run_at j = compute_next_run (jb_trigger j) (N.max now at_) None) ∧
    ∀ now2, mark_occurrence_fired_with_receipt id now2 r st' = (Ok tt, st').
Proof.
  intros Hr Hl Ho Ht Hw. pose proof (occurrence_split _ _ _ Ho) as (l1 & l2 & El & _).
  assert (Hin : o ∈ ss_occurrences (st_svc st)) by (rewrite El; apply elem_of_app; right; by left).
  pose proof (proj1 (Forall_forall _ _) (ro_occurrences _ Hr) o Hin) as Hok. pose proof Hok as [Hv _].
  destruct (issued_receipt id (st_svc st) o Ho Hv) as (r & Hrec & Hval).
  destruct (find_owner _ _ Hr Hin Ht) as (found & j & Hfind & Hj & Ha & _).
  set (o' := set_admission OsTerminal (Some now) (Some (wr_work_id r)) (Some (wr_run_id r)) None (Some r) o).
  set (s' := set_jobs (<[jb_id found := fired_job now (oc_trigger o) j]> (ss_jobs (st_svc st)))
    (set_occurrences (replace_occurrence id o' (ss_occurrences (st_svc st))) (st_svc st))).
  assert (Hfire : ∃ st', mark_occurrence_fired_with_receipt id now r st = (Ok tt, st') ∧ st_svc st' = s').
  { apply checked_commits; [done| |done|done]. rewrite Ho, Hval. cbn [rbind].
    rewrite Hfind, Hj. pose proof (proj1 (step_ok o o' Hok (os_fire o now r Ht Hval))) as Ho'. unfold o' in Ho'.
    unfold occurrence_is_terminal in Ht. destruct (oc_state o); try done; by rewrite Ho'. }
  destruct Hfire as (st' & Hfire & Hs').
  assert (Hocc : occurrence id (st_svc st') = Some o') by (rewrite Hs'; by apply (occurrence_replaced id o)).
  exists r, st', o', (jb_id found), (fired_job now (oc_trigger o) j). split_and!; [done..| | | | |].
  - rewrite Hs'. apply lookup_insert_eq.
  - by destruct (oc_trigger o).
  - by destruct (oc_trigger o).
  - by intros at_ ->.
  - intros now2. unfold mark_occurrence_fired_with_receipt, checked, ensure_healthy. rewrite Hocc, Hs'. simpl.
    rewrite Hl. change (validate_receipt_for o' r _ _) with (validate_receipt_for o r (expected_work_id o) (expected_run_id o)).
    by rewrite Hval; cbn [rbind]; rewrite bool_decide_eq_true_2.
Qed.
End props.

(** ** A service to evaluate the theorems on *)

(** A digest of sixty-four hexadecimal digits that is quick to compute. *)
Fixpoint quick_hash (acc : N) (s : string) : N :=
  match s with
  | EmptyString => acc
  | String c s' => quick_hash ((acc * 131 + N_of_ascii c) mod 4294967296)%N s'
  end.
Definition quick_digest : Sha256 :=
  {| sha256_hex s := hex_digits 8 (quick_hash 0 s) +:+ "00000000000000000000000000000000000000000000000000000000" |}.
Definition plain_debug : StrDebug := {| str_debug s := s |}.
(** A codec that knows one trigger, every minute, and one policy. *)
Definition minute_codec : SchedCodec := {|
  trigger_of_value _ := Ok (TsInterval 60);
  steps_of_value _ := Ok [];
  policy_of_value _ := Ok default_policy;
  event_kind_of_value _ := Ok RepoChange;
  receipt_of_value _ := Err "no receipt";
  monitor_of_value _ := Ok default_monitor
|}.
#[local] Existing Instances plain_words quick_digest plain_debug list_iter list_iter_laws minute_codec.

Definition fresh_state : SchedState :=
  {| st_svc := set_path (Some "store.json") scheduler_new; st_file := SfMissing; st_writes := [] |}.
Lemma fresh_ok : service_ok (st_svc fresh_state).
Proof. intros _. constructor; [by intros id j Hj|by intros id g Hg|constructor|constructor|by intros o Ho%elem_of_nil]. Qed.

Definition add_minutely : SchedCall := ScUpsertChecked "sync" "Sync" "s1" (TsInterval 60) [] None None 1000.
Definition tick : SchedCall := ScAdmitDue 2000.
Definition minutely : SchedState := sched_call add_minutely fresh_state.
Definition ticked : SchedState := sched_call tick minutely.
Lemma reach_one st c : sched_reaches st (sched_call c st).
Proof. apply rtc_once. by exists c. Qed.
Lemma reach_two st c1 c2 : sched_reaches st (sched_call c2 (sched_call c1 st)).
Proof. eapply rtc_l; [by exists c1|apply reach_one]. Qed.
Lemma call_ok c st : service_ok (st_svc st) → service_ok (st_svc (sched_call c st)).
Proof. intros Hs. exact (proj1 (call_moves c st Hs)). Qed.
Lemma minutely_ok : service_ok (st_svc minutely).
Proof. exact (call_ok add_minutely fresh_state fresh_ok). Qed.
Lemma ticked_ok : service_ok (st_svc ticked).
Proof. exact (call_ok tick minutely minutely_ok). Qed.

Lemma scheduler_stays_well_formed_witness : service_ok (st_svc ticked) ∧ ss_load_error (st_svc ticked) = None.
Proof.
  split; [|vm_compute; reflexivity].
  exact (scheduler_stays_well_formed fresh_state ticked fresh_ok (reach_two fresh_state add_minutely tick)).
Defined.

Definition sync_tick : AutomationOccurrence :=
  match ss_occurrences (st_svc ticked) with o :: _ => o | [] => set_admission OsPending None None None None None
    (new_occurrence (job_new "" "" "" TsManual) OtManual "" "" "" 0) end.
Definition sync_id : string := oc_trigger_occurrence_id sync_tick.
Definition cancelled : SchedState := sched_call (ScCancel sync_id "not today") ticked.
Lemma tick_admitted : ss_occurrences (st_svc ticked) !! 0 = Some sync_tick.
Proof. vm_compute. reflexivity. Qed.

Lemma occurrences_only_advance_witness :
  ∃ o', ss_occurrences (st_svc cancelled) !! 0 = Some o' ∧ advances sync_tick o' ∧ same_occurrence sync_tick o' ∧
        (occurrence_is_terminal sync_tick = true → o' = sync_tick).
Proof.
  exact (occurrences_only_advance ticked cancelled 0 sync_tick ticked_ok (reach_one ticked (ScCancel sync_id "not today")) tick_admitted).
Defined.

Definition sync_receipt : WorkRunAdmissionReceipt :=
  match receipt_for_occurrence sync_id (st_svc ticked) with
  | Ok r => r
  | Err _ => {| wr_work_id := ""; wr_run_id := ""; wr_automation_id := ""; wr_revision_id := "";
                wr_trigger_occurrence_id := ""; wr_automation_generation := 0; wr_durable := false |}
  end.
Definition fired : SchedState := sched_call (ScFire sync_id 2001 sync_receipt) ticked.
Definition sync_fired : AutomationOccurrence :=
  set_admission OsTerminal (Some 2001%N) (Some (wr_work_id sync_receipt)) (Some (wr_run_id sync_receipt)) None
    (Some sync_receipt) sync_tick.
Lemma tick_fired : ss_occurrences (st_svc fired) = [sync_fired].
Proof. vm_compute. reflexivity. Qed.

Lemma fired_by_receipt_only_witness : oc_state sync_fired = OsTerminal ∧ oc_work_id sync_fired = Some (expected_work_id sync_fired).
Proof.
  assert (Hin : sync_fired ∈ ss_occurrences (st_svc fired)) by (rewrite tick_fired; by left).
  destruct (fired_by_receipt_only ticked fired sync_fired ticked_ok (reach_one ticked (ScFire sync_id 2001 sync_receipt))
    ltac:(vm_compute; reflexivity) Hin) as (H1 & _ & H2 & _). by split.
Defined.

Definition removed : SchedState := sched_call (ScDeleteChecked "sync") minutely.
Lemma generations_are_never_reused_witness : match ss_jobs (st_svc minutely) !! "sync" with
  | Some j => ∃ j2, ss_jobs (st_svc (sched_call add_minutely removed)) !! "sync" = Some j2 ∧ (jb_generation j < jb_generation j2)%N
  | None => False end.
Proof.
  assert (Hgen : jb_generation <$> ss_jobs (st_svc minutely) !! "sync" = Some 1%N) by (vm_compute; reflexivity).
  destruct (ss_jobs (st_svc minutely) !! "sync") as [j|] eqn:Hj; [|discriminate Hgen]. injection Hgen as Hgen.
  destruct (generations_are_never_reused minutely removed (sched_call add_minutely removed) "sync" "Sync" "s1"
    (TsInterval 60) [] None None 1000 j minutely_ok) as (j2 & H1 & H2 & _).
  - vm_compute. reflexivity.
  - exact Hj.
  - rewrite Hgen. reflexivity.
  - exact (reach_one minutely (ScDeleteChecked "sync")).
  - vm_compute. reflexivity.
  - vm_compute. reflexivity.
  - exists j2. split; [exact H1|exact H2].
Defined.

Definition sync_job : Job := default (job_new "" "" "" TsManual) (ss_jobs (st_svc minutely) !! "sync").
Lemma tick_answered :
  admit_job (OtSchedule 1060) (schedule_payload 1060) (schedule_key sync_job 1060) 2000 sync_job (ss_occurrences (st_svc minutely)) =
  Ok (Some sync_tick, ss_occurrences (st_svc ticked)).
Proof. vm_compute. reflexivity. Qed.
Lemma redelivery_is_answered_once_witness : ∃ o2, advances sync_tick o2 ∧
  admit_job (OtSchedule 1060) (schedule_payload 1060) (schedule_key sync_job 1060) 9000 sync_job
    (ss_occurrences (st_svc cancelled)) = Ok (Some o2, ss_occurrences (st_svc cancelled)).
Proof.
  destruct (redelivery_is_answered_once minutely ticked cancelled (OtSchedule 1060) (schedule_payload 1060)
    (schedule_payload 1060) (schedule_key sync_job 1060) 2000 9000 sync_job sync_job sync_tick ticked_ok
    (reach_one ticked (ScCancel sync_id "not today")) ltac:(vm_compute; reflexivity) tick_answered eq_refl eq_refl)
    as (o2 & H1 & _ & H2 & _).
  exists o2. split; [exact H1|exact (H2 eq_refl)].
Defined.

Definition upsert_params : Value := json_object [("id", JString "sync"); ("trigger", JNull)].
Definition handled : result SchedReply string * SchedState := scheduler_handle "scheduler/upsert" upsert_params 1000 fresh_state.
Lemma acknowledged_call_survives_restart_witness :
  load_or_new "store.json" (st_file handled.2) = restarted "store.json" (st_svc handled.2) ∧
  dom (ss_jobs (st_svc handled.2)) = {["sync"]}.
Proof.
  split; [|vm_compute; reflexivity].
  destruct (acknowledged_call_survives_restart fresh_state handled.2 "scheduler/upsert" "store.json" upsert_params 1000
    (SrOkId "sync") fresh_ok) as [H _].
  - vm_compute. reflexivity.
  - vm_compute. reflexivity.
  - split; [vm_compute; constructor|]. intros id1 id2 [j1 H1] [j2 H2] _.
    assert (Hdom : dom (ss_jobs (st_svc handled.2)) = {["sync"]}) by (vm_compute; reflexivity).
    apply elem_of_dom_2 in H1, H2. rewrite Hdom in H1, H2. apply elem_of_singleton in H1, H2. congruence.
  - exact H.
Defined.

(** Running a scheduled job by hand is refused: a manual occurrence does not
    match its trigger. *)
Definition run_now : result SchedReply string * SchedState :=
  scheduler_handle "scheduler/run_now" (json_object [("id", JString "sync"); ("idempotencyKey", JString "k")]) 1500 minutely.
Strategy expand [run_now].
Example run_now_refuses_a_scheduled_job : match run_now.1 with Ok _ => False | Err e =>
  contains "trigger does not match its immutable revision" e = true end.
Proof. vm_compute. reflexivity. Qed.

Lemma refused_call_leaves_no_trace_witness : st_svc run_now.2 = st_svc minutely.
Proof.
  pose proof run_now_refuses_a_scheduled_job as Hrun. destruct run_now as [[out|e] st'] eqn:E; [destruct Hrun|].
  exact (proj1 (refused_call_leaves_no_trace minutely st' "scheduler/run_now" _ 1500 e minutely_ok E)).
Defined.

Lemma open_occurrence_can_be_fired_witness : ∃ r st', receipt_for_occurrence sync_id (st_svc ticked) = Ok r ∧
  mark_occurrence_fired_with_receipt sync_id 2001 r ticked = (Ok tt, st').
Proof.
  destruct (open_occurrence_can_be_fired ticked sync_id sync_tick 2001) as (r & st' & _ & _ & _ & Hr & Hm & _).
  - apply ticked_ok. vm_compute. reflexivity.
  - vm_compute. reflexivity.
  - vm_compute. reflexivity.
  - vm_compute. reflexivity.
  - vm_compute. reflexivity.
  - exists r, st'. split; [exact Hr|exact Hm].
Defined.

(** ** Where the code and its comments part *)

(** A version-2 row that had fired is read as uncertain and keeps its [fired_at],
    which the shape of an uncertain occurrence forbids: the whole store is refused,
    where the comment says it is kept visible for reconciliation. *)
Lemma legacy_fired_row_is_refused (o : AutomationOccurrence) (s : SchedulerService) :
  oc_state o = OsPending ∨ oc_state o = OsTerminal → oc_admission_receipt o = None → is_Some (oc_fired_at o) →
  ¬ ∃ s', install_occurrence o s = Ok s'.
Proof.
  intros Hst Hr [at_ Hf] [s' Hi]. revert Hi. unfold install_occurrence.
  destruct (normalize_loaded_occurrence o) as [o'|] eqn:Hn; [|done]. cbn [rbind].
  destruct (validate_occurrence_shape o') as [[]|] eqn:Hv; [|done]. intros _. apply shape_state in Hv. revert Hn.
  unfold normalize_loaded_occurrence. cbv zeta.
  match goal with |- rbind ?r _ = _ → _ => destruct r as [identity|]; [|done] end. cbn [rbind].
  rewrite Hr, Hf. cbn [is_some]. rewrite !orb_true_r. cbn [orb].
  destruct Hst as [-> | ->]; intros [= <-]; revert Hv; unfold validate_occurrence_state, set_provenance; simpl; by rewrite Hf.
Qed.

(** The [skip] policy of a cron job skips every tick, also one that is on time. *)
Definition skip_job : SchedState :=
  sched_call (ScUpsertChecked "cron" "Cron" "s1" (TsCron "* * * * *") []
    (Some {| sp_suppress_on_battery := false; sp_max_runs_per_hour := None; sp_scope := None; sp_misfire_policy := MfSkip |})
    None 1000) fresh_state.
Example skip_policy_skips_a_tick_on_time :
  due 1020 (st_svc skip_job) = ["cron"] ∧ (admit_due 1020 skip_job).1 = Ok [] ∧
  jb_next_run_at <$> ss_jobs (st_svc (admit_due 1020 skip_job).2) !! "cron" = Some (Some 1080%N).
Proof. vm_compute. split_and!; reflexivity. Qed.
