(* ===== verification/Sync.v ===== *)
(** * Device sync: items, reconciliation, envelopes and the exchange

    [everyaios-core/src/sync.rs] and [sync_transport.rs]: the per-scope set of
    items with its reconciliation and conflict policies, the sealed envelopes,
    the key exchange, the bundle files, and the wire protocol of one exchange.
    ChaCha20-Poly1305, X25519 and serde's JSON are parameters; the random nonces
    and secrets are arguments. A [Vec<u8>] is the string of its bytes. *)
From S2P Require Import Order Prelude.
From S2P Require Import Ipc.

(** ** Items and sets *)

(* SRC core/src/sync.rs @enum:SyncScope SyncScope *)
Inductive SyncScope := ScMessages | ScMemory | ScConnector.
#[export] Instance sync_scope_eq_dec : EqDecision SyncScope.
Proof. solve_decision. Defined.
#[export] Instance sync_scope_countable : Countable SyncScope.
Proof.
  refine (inj_countable' (λ s, match s with ScMessages => 0 | ScMemory => 1 | ScConnector => 2 end)
    (λ n, match n with 0 => ScMessages | 1 => ScMemory | _ => ScConnector end) _). by intros [].
Defined.
(* SRC core/src/sync.rs @fn:as_str SyncScope::as_str *)
Definition scope_str (s : SyncScope) : string :=
  match s with ScMessages => "messages" | ScMemory => "memory" | ScConnector => "connector" end.

(* SRC core/src/sync.rs @struct:SyncItem SyncItem *)
Record SyncItem := {
  si_scope : SyncScope;
  si_key : string;
  si_rev : N;
  si_tombstone : bool;
  si_ts_ms : option N;
  si_payload : string
}.
#[export] Instance sync_item_eq_dec : EqDecision SyncItem.
Proof. solve_decision. Defined.

(* SRC core/src/sync.rs @fn:live SyncItem::live *)
Definition item_live (scope : SyncScope) (key : string) (rev : N) (payload : string) : SyncItem :=
  {| si_scope := scope; si_key := key; si_rev := rev; si_tombstone := false; si_ts_ms := None; si_payload := payload |}.
(* SRC core/src/sync.rs @fn:tombstone SyncItem::tombstone *)
Definition item_tombstone (scope : SyncScope) (key : string) (rev : N) : SyncItem :=
  {| si_scope := scope; si_key := key; si_rev := rev; si_tombstone := true; si_ts_ms := None; si_payload := "" |}.
(* SRC core/src/sync.rs @fn:live_at SyncItem::live_at *)
Definition item_live_at (scope : SyncScope) (key : string) (rev ts_ms : N) (payload : string) : SyncItem :=
  {| si_scope := scope; si_key := key; si_rev := rev; si_tombstone := false; si_ts_ms := Some ts_ms;
     si_payload := payload |}.
(* SRC core/src/sync.rs @fn:tombstone_at SyncItem::tombstone_at *)
Definition item_tombstone_at (scope : SyncScope) (key : string) (rev ts_ms : N) : SyncItem :=
  {| si_scope := scope; si_key := key; si_rev := rev; si_tombstone := true; si_ts_ms := Some ts_ms; si_payload := "" |}.

(** The items in their order. *)
(* SRC core/src/sync.rs @struct:SyncSet SyncSet *)
Definition SyncSet : Type := list SyncItem.

Definition at_key (scope : SyncScope) (key : string) (i : SyncItem) : bool :=
  bool_decide (si_scope i = scope) && String.eqb (si_key i) key.

(* SRC core/src/sync.rs @fn:get SyncSet::get *)
Definition sync_get (scope : SyncScope) (key : string) (s : SyncSet) : option SyncItem := List.find (at_key scope key) s.

(** Replaces the first item at the key, or adds it behind. *)
(* SRC core/src/sync.rs @fn:upsert SyncSet::upsert *)
Fixpoint sync_upsert (item : SyncItem) (s : SyncSet) : SyncSet :=
  match s with
  | [] => [item]
  | i :: s' => if at_key (si_scope item) (si_key item) i then item :: s' else i :: sync_upsert item s'
  end.

(* SRC core/src/sync.rs @fn:tombstone#1 SyncSet::tombstone *)
Definition set_tombstone (scope : SyncScope) (key : string) (rev : N) (s : SyncSet) : SyncSet :=
  let next_rev := match sync_get scope key s with Some i => u64_add (N.max (si_rev i) rev) 1 | None => rev end in
  sync_upsert (item_tombstone scope key next_rev) s.

(* SRC core/src/sync.rs @fn:live_count SyncSet::live_count *)
Definition live_count (s : SyncSet) : nat := length (List.filter (λ i, negb (si_tombstone i)) s).

(** The highest revision seen per scope and key. *)
(* SRC core/src/sync.rs @fn:version_vector SyncSet::version_vector *)
Definition version_vector (s : SyncSet) : gmap (SyncScope * string) N :=
  foldl (λ vv i, <[(si_scope i, si_key i) := N.max (default 0%N (vv !! (si_scope i, si_key i))) (si_rev i)]> vv) ∅ s.

(** ** Reconciliation *)

(* SRC core/src/sync.rs @struct:SyncConflict SyncConflict *)
Record SyncConflict := { sc_scope : SyncScope; sc_key : string; sc_local_rev : N; sc_remote_rev : N }.
(* SRC core/src/sync.rs @struct:SyncDiff SyncDiff *)
Record SyncDiff := { df_apply : list SyncItem; df_push : list SyncItem; df_conflicts : list SyncConflict }.

(** The verdict of [local] on one remote item, and of [remote] on one local item. *)
Definition pulls (local : SyncSet) (r : SyncItem) : bool :=
  match sync_get (si_scope r) (si_key r) local with
  | None => true
  | Some l => (si_rev l <? si_rev r)%N
  end.
Definition conflict_of (local : SyncSet) (r : SyncItem) : option SyncConflict :=
  l ← sync_get (si_scope r) (si_key r) local;
  if (si_rev l =? si_rev r)%N && negb (String.eqb (si_payload l) (si_payload r)) then
    Some {| sc_scope := si_scope r; sc_key := si_key r; sc_local_rev := si_rev l; sc_remote_rev := si_rev r |}
  else None.

(* SRC core/src/sync.rs @fn:reconcile reconcile *)
Definition reconcile (local remote : SyncSet) : SyncDiff :=
  {| df_apply := List.filter (pulls local) remote;
     df_push := List.filter (pulls remote) local;
     df_conflicts := omap (conflict_of local) remote |}.

(* SRC core/src/sync.rs @enum:ConflictPolicy ConflictPolicy *)
Inductive ConflictPolicy := CpManual | CpLastWriteWins | CpKeepBoth.
(* SRC core/src/sync.rs @fn:for_scope ConflictPolicy::for_scope *)
Definition policy_for_scope (scope : SyncScope) : ConflictPolicy :=
  match scope with ScMessages | ScMemory | ScConnector => CpLastWriteWins end.

(* SRC core/src/sync.rs @struct:ResolvedDiff ResolvedDiff *)
Record ResolvedDiff := { rd_apply : list SyncItem; rd_push : list SyncItem; rd_remaining : list SyncConflict }.

(** [a] is the later write of an equal revision: the newer timestamp, then the
    larger payload. *)
Definition ts_of (i : SyncItem) : N := default 0%N (si_ts_ms i).
Definition payload_gt (a b : SyncItem) : bool := negb (str_le (si_payload a) (si_payload b)).
Definition written_later (a b : SyncItem) : bool :=
  (ts_of b <? ts_of a)%N || ((ts_of a =? ts_of b)%N && payload_gt a b).

Definition set_key (key : string) (i : SyncItem) : SyncItem :=
  {| si_scope := si_scope i; si_key := key; si_rev := si_rev i; si_tombstone := si_tombstone i;
     si_ts_ms := si_ts_ms i; si_payload := si_payload i |}.

(** One conflict under a policy. *)
Definition resolve_one (policy : ConflictPolicy) (local remote : SyncSet) (out : ResolvedDiff) (c : SyncConflict) : ResolvedDiff :=
  let l := sync_get (sc_scope c) (sc_key c) local in
  let r := sync_get (sc_scope c) (sc_key c) remote in
  let remain := {| rd_apply := rd_apply out; rd_push := rd_push out; rd_remaining := rd_remaining out ++ [c] |} in
  match policy with
  | CpManual => remain
  | CpLastWriteWins =>
      match l, r with
      | Some l, Some r =>
          if written_later r l then
            {| rd_apply := rd_apply out ++ [r]; rd_push := rd_push out; rd_remaining := rd_remaining out |}
          else if written_later l r then
            {| rd_apply := rd_apply out; rd_push := rd_push out ++ [l]; rd_remaining := rd_remaining out |}
          else out
      | _, _ => remain
      end
  | CpKeepBoth =>
      match r with
      | Some r => {| rd_apply := rd_apply out ++ [set_key (sc_key c +:+ "~conflict") r]; rd_push := rd_push out;
                     rd_remaining := rd_remaining out |}
      | None => out
      end
  end.
(* SRC core/src/sync.rs @fn:resolve_conflicts resolve_conflicts *)
Definition resolve_conflicts (diff : SyncDiff) (policy : ConflictPolicy) (local remote : SyncSet) : ResolvedDiff :=
  foldl (resolve_one policy local remote)
    {| rd_apply := df_apply diff; rd_push := df_push diff; rd_remaining := [] |} (df_conflicts diff).

Definition upsert_all (items : list SyncItem) (s : SyncSet) : SyncSet := foldl (λ s i, sync_upsert i s) s items.

(* SRC core/src/sync.rs @fn:reconcile_with SyncSession::reconcile_with *)
Definition reconcile_with (s remote : SyncSet) : SyncDiff * SyncSet :=
  let diff := reconcile s remote in (diff, upsert_all (df_apply diff) s).
(* SRC core/src/sync.rs @fn:reconcile_with_policy SyncSession::reconcile_with_policy *)
Definition reconcile_with_policy (s remote : SyncSet) (policy : ConflictPolicy) : ResolvedDiff * SyncSet :=
  let resolved := resolve_conflicts (reconcile s remote) policy s remote in (resolved, upsert_all (rd_apply resolved) s).

(** ** Envelopes *)

(* SRC core/src/sync.rs @const:SYNC_MAGIC SYNC_MAGIC *)
Definition SYNC_MAGIC : string := "EAIOSYNC".
(* SRC core/src/sync.rs @const:SYNC_VERSION SYNC_VERSION *)
Definition SYNC_VERSION : N := 1.
(* SRC core/src/sync.rs @const:NONCE_LEN NONCE_LEN *)
Definition NONCE_LEN : nat := 12.

(* SRC core/src/sync.rs @enum:SyncError SyncError *)
Inductive SyncError :=
  | SeBadMagic
  | SeUnsupportedVersion (v : N)
  | SeDecrypt
  | SeInvalidKey
  | SeIo (e : string)
  | SeJson (e : string)
  | SeCrypto (e : string).

(** ChaCha20-Poly1305: key, nonce, text and associated data. *)
Class Aead := {
  aead_encrypt : string → string → string → string → result string string;
  aead_decrypt : string → string → string → string → option string
}.
(** X25519: the public key of a secret, and the shared secret with a public key. *)
Class X25519 := { x_public : string → string; x_shared : string → string → string }.

(* SRC core/src/sync.rs @struct:SyncEnvelope SyncEnvelope *)
Record SyncEnvelope := {
  se_magic : string;
  se_version : N;
  se_sender_device : string;
  se_scope : SyncScope;
  se_nonce : string;
  se_ciphertext : string
}.
(* SRC core/src/sync.rs @struct:SyncHello SyncHello *)
Record SyncHello := { sh_device_id : string; sh_public_key : string }.
(* SRC core/src/sync_transport.rs @struct:AuthFrame AuthFrame *)
Record AuthFrame := { af_type : string; af_password : string }.

(** serde's JSON of the four messages. *)
Class SyncJson := {
  set_json : SyncSet → string; set_of_json : string → result SyncSet string;
  envelope_json : SyncEnvelope → string; envelope_of_json : string → result SyncEnvelope string;
  hello_json : SyncHello → string; hello_of_json : string → result SyncHello string;
  auth_json : AuthFrame → string; auth_of_json : string → result AuthFrame string
}.

Definition byte_of (n : N) : string := ch (ascii_of_N (n mod 256)).

(* SRC core/src/sync.rs @fn:header_aad SyncEnvelope::header_aad *)
Definition header_aad (e : SyncEnvelope) : string :=
  se_magic e +:+ byte_of (se_version e) +:+ byte_of (byte_len (scope_str (se_scope e))) +:+ scope_str (se_scope e) +:+
  se_sender_device e.

Section crypto.
Context `{Aead} `{X25519} `{SyncJson}.

(* SRC core/src/sync.rs @fn:encrypt#1 ChaChaBox::encrypt *)
Definition box_encrypt (key nonce plaintext aad : string) : result (string * string) SyncError :=
  match aead_encrypt key nonce plaintext aad with Ok ct => Ok (nonce, ct) | Err e => Err (SeCrypto e) end.
(* SRC core/src/sync.rs @fn:decrypt#1 ChaChaBox::decrypt *)
Definition box_decrypt (key nonce ciphertext aad : string) : result string SyncError :=
  if negb (String.length nonce =? NONCE_LEN)%nat then Err SeDecrypt
  else match aead_decrypt key nonce ciphertext aad with Some p => Ok p | None => Err SeDecrypt end.

Definition bare_envelope (sender_device : string) (scope : SyncScope) : SyncEnvelope :=
  {| se_magic := SYNC_MAGIC; se_version := SYNC_VERSION; se_sender_device := sender_device; se_scope := scope;
     se_nonce := ""; se_ciphertext := "" |}.
Definition set_body (nonce ciphertext : string) (e : SyncEnvelope) : SyncEnvelope :=
  {| se_magic := se_magic e; se_version := se_version e; se_sender_device := se_sender_device e; se_scope := se_scope e;
     se_nonce := nonce; se_ciphertext := ciphertext |}.

(* SRC core/src/sync.rs @fn:seal seal *)
Definition seal_envelope (key nonce sender_device : string) (scope : SyncScope) (plaintext : string)
    : result SyncEnvelope SyncError :=
  let env := bare_envelope sender_device scope in
  body <-? box_encrypt key nonce plaintext (header_aad env);;
  Ok (set_body body.1 body.2 env).

(* SRC core/src/sync.rs @fn:open open *)
Definition open_envelope (key : string) (env : SyncEnvelope) (expected_sender : option string) : result string SyncError :=
  if negb (String.eqb (se_magic env) SYNC_MAGIC) then Err SeBadMagic
  else if negb (se_version env =? SYNC_VERSION)%N then Err (SeUnsupportedVersion (se_version env))
  else if match expected_sender with Some expected => negb (String.eqb (se_sender_device env) expected) | None => false end
  then Err SeDecrypt
  else box_decrypt key (se_nonce env) (se_ciphertext env) (header_aad env).

(* SRC core/src/sync.rs @fn:seal_set seal_set *)
Definition seal_set (key nonce sender_device : string) (scope : SyncScope) (s : SyncSet) : result SyncEnvelope SyncError :=
  seal_envelope key nonce sender_device scope (set_json s).
(* SRC core/src/sync.rs @fn:open_set open_set *)
Definition open_set (key : string) (env : SyncEnvelope) (expected_sender : option string) : result SyncSet SyncError :=
  bytes <-? open_envelope key env expected_sender;;
  match set_of_json bytes with Ok s => Ok s | Err e => Err (SeJson e) end.

(** ** Keys *)

(** A participant: its device id and its secret. *)
(* SRC core/src/sync.rs @struct:KeyExchange KeyExchange *)
Record KeyExchange := { kx_device_id : string; kx_secret : string }.
(* SRC core/src/sync.rs @struct:SharedSession SharedSession *)
Record SharedSession := { ss_peer_device : string; ss_key : string }.

(* SRC core/src/sync.rs @fn:hello KeyExchange::hello *)
Definition kx_hello (k : KeyExchange) : SyncHello :=
  {| sh_device_id := kx_device_id k; sh_public_key := x_public (kx_secret k) |}.
(* SRC core/src/sync.rs @fn:public_key_arr SyncHello::public_key_arr *)
Definition public_key_arr (h : SyncHello) : result string SyncError :=
  if (String.length (sh_public_key h) =? 32)%nat then Ok (sh_public_key h) else Err SeInvalidKey.
(* SRC core/src/sync.rs @fn:accept KeyExchange::accept *)
Definition kx_accept (k : KeyExchange) (peer : SyncHello) : result SharedSession SyncError :=
  peer_pub <-? public_key_arr peer;;
  Ok {| ss_peer_device := sh_device_id peer; ss_key := x_shared (kx_secret k) peer_pub |}.

Definition CONFIRM : string := "EAIOS-CONFIRM".
(* SRC core/src/sync.rs @fn:confirm_token SharedSession::confirm_token *)
Definition confirm_token (nonce : string) (s : SharedSession) : result SyncEnvelope SyncError :=
  seal_envelope (ss_key s) nonce (ss_peer_device s) ScMemory CONFIRM.
(* SRC core/src/sync.rs @fn:verify_peer SharedSession::verify_peer *)
Definition verify_peer (s : SharedSession) (token : SyncEnvelope) : result bool SyncError :=
  plain <-? open_envelope (ss_key s) token None;;
  Ok (String.eqb plain CONFIRM).

(** ** Sessions and bundles *)

(* SRC core/src/sync.rs @struct:SyncSession SyncSession *)
Record SyncSession := { sn_device_id : string; sn_set : SyncSet; sn_key : string }.
Definition with_set (s : SyncSet) (n : SyncSession) : SyncSession :=
  {| sn_device_id := sn_device_id n; sn_set := s; sn_key := sn_key n |}.

(** The bytes of the bundle file; the write is the caller's. *)
(* SRC core/src/sync.rs @fn:export_bundle export_bundle *)
Definition export_bundle (key nonce sender_device : string) (scope : SyncScope) (s : SyncSet)
    : result (SyncEnvelope * string) SyncError :=
  envelope <-? seal_set key nonce sender_device scope s;;
  Ok (envelope, envelope_json envelope).
(* SRC core/src/sync.rs @fn:import_bundle import_bundle *)
Definition import_bundle (key : string) (file : result string string) : result SyncSet SyncError :=
  match file with
  | Err e => Err (SeIo e)
  | Ok bytes =>
      match envelope_of_json bytes with
      | Err e => Err (SeJson e)
      | Ok envelope => open_set key envelope None
      end
  end.
(* SRC core/src/sync.rs @fn:export_to SyncSession::export_to *)
Definition export_to (nonce : string) (n : SyncSession) : result (SyncEnvelope * string) SyncError :=
  export_bundle (sn_key n) nonce (sn_device_id n) ScMessages (sn_set n).
(* SRC core/src/sync.rs @fn:import_from SyncSession::import_from *)
Definition import_from (file : result string string) (n : SyncSession) : result (SyncDiff * SyncSession) SyncError :=
  remote <-? import_bundle (sn_key n) file;;
  let '(diff, s) := reconcile_with (sn_set n) remote in Ok (diff, with_set s n).

(** ** The wire *)

(* SRC core/src/sync_transport.rs @enum:WireError WireError *)
Inductive WireError :=
  | WeIo (e : string)
  | WeJson (e : string)
  | WeFrameTooLarge (len : N)
  | WeConnectionClosed
  | WeHandshakeFailed
  | WeProtocol (e : SyncError).
(* SRC core/src/sync_transport.rs @const:MAX_FRAME_BYTES MAX_FRAME_BYTES *)
Definition MAX_FRAME_BYTES : N := 16777216.

(** What the peer has sent and was not read yet, what was sent to it, and the
    outcomes of the writes to come. *)
Record Wire := { w_in : string; w_out : string; w_writes : list (result unit string) }.
Definition WireM A := Wire → result A WireError * Wire.
Definition wire_ret {A} (a : A) : WireM A := λ w, (Ok a, w).
Definition wire_bind {A B} (m : WireM A) (k : A → WireM B) : WireM B := λ w,
  match m w with (Ok a, w') => k a w' | (Err e, w') => (Err e, w') end.
Definition wire_lift {A} (r : result A WireError) : WireM A := λ w, (r, w).
Definition protocol {A} (r : result A SyncError) : result A WireError :=
  match r with Ok a => Ok a | Err e => Err (WeProtocol e) end.
Definition json {A} (r : result A string) : result A WireError :=
  match r with Ok a => Ok a | Err e => Err (WeJson e) end.

Definition u32_to_be (n : N) : string :=
  String (ascii_of_N (n / 16777216 mod 256)) (String (ascii_of_N (n / 65536 mod 256))
    (String (ascii_of_N (n / 256 mod 256)) (ch (ascii_of_N (n mod 256))))).

(* SRC core/src/sync_transport.rs @fn:write_frame write_frame *)
Definition write_frame (bytes : string) : WireM unit := λ w,
  if (u32_max <? byte_len bytes)%N then (Err (WeFrameTooLarge u32_max), w)
  else
    let sent ws := {| w_in := w_in w; w_out := w_out w +:+ u32_to_be (byte_len bytes) +:+ bytes; w_writes := ws |} in
    match w_writes w with
    | Err e :: ws => (Err (WeIo e), {| w_in := w_in w; w_out := w_out w; w_writes := ws |})
    | Ok _ :: ws => (Ok tt, sent ws)
    | [] => (Ok tt, sent [])
    end.

(* SRC core/src/sync_transport.rs @fn:read_frame read_frame *)
Definition read_frame : WireM string := λ w,
  let at_ rest := {| w_in := rest; w_out := w_out w; w_writes := w_writes w |} in
  match w_in w with
  | String a (String b (String c (String d rest))) =>
      let len := u32_from_le d c b a in
      if (MAX_FRAME_BYTES <? len)%N then (Err (WeFrameTooLarge len), at_ rest)
      else match read_exact (N.to_nat len) rest with
           | Some (body, rest') => (Ok body, at_ rest')
           | None => (Err (WeIo "failed to fill whole buffer"), at_ "")
           end
  | _ => (Err (WeIo "failed to fill whole buffer"), at_ "")
  end.
End crypto.
Notation "x <-w m ;; k" := (wire_bind m (λ x, k)) (at level 100, m at next level, right associativity).

Section exchange.
Context `{Aead} `{X25519} `{SyncJson} {sha : Sha256}.

(* SRC core/src/sync_transport.rs @fn:fingerprint fingerprint *)
Definition fingerprint (public_key : string) : string := String.substring 0 16 (sha256_hex public_key).

(* SRC core/src/sync_transport.rs @struct:ExchangeOutcome ExchangeOutcome *)
Record ExchangeOutcome := {
  eo_peer_device : string;
  eo_peer_fingerprint : string;
  eo_applied : nat;
  eo_pushed : nat;
  eo_conflicts : nat
}.

(** One exchange; the secret of the key exchange and the nonces of the token and
    of the set are drawn by the caller. *)
(* SRC core/src/sync_transport.rs @fn:run_exchange run_exchange *)
Definition run_exchange (secret nonce1 nonce2 : string) (n : SyncSession) : WireM (ExchangeOutcome * SyncSession) :=
  let kx := {| kx_device_id := sn_device_id n; kx_secret := secret |} in
  _ <-w write_frame (hello_json (kx_hello kx));;
  raw <-w read_frame;;
  peer_hello <-w wire_lift (json (hello_of_json raw));;
  let peer_fp := fingerprint (sh_public_key peer_hello) in
  shared <-w wire_lift (protocol (kx_accept kx peer_hello));;
  token <-w wire_lift (protocol (confirm_token nonce1 shared));;
  _ <-w write_frame (envelope_json token);;
  raw <-w read_frame;;
  peer_token <-w wire_lift (json (envelope_of_json raw));;
  ok <-w wire_lift (protocol (verify_peer shared peer_token));;
  if negb ok then wire_lift (Err WeHandshakeFailed)
  else
    my_env <-w wire_lift (protocol (seal_set (ss_key shared) nonce2 (sn_device_id n) ScMessages (sn_set n)));;
    _ <-w write_frame (envelope_json my_env);;
    raw <-w read_frame;;
    peer_env <-w wire_lift (json (envelope_of_json raw));;
    remote <-w wire_lift (protocol (open_set (ss_key shared) peer_env None));;
    let diff := reconcile (sn_set n) remote in
    wire_ret ({| eo_peer_device := ss_peer_device shared; eo_peer_fingerprint := peer_fp;
                 eo_applied := length (df_apply diff); eo_pushed := length (df_push diff);
                 eo_conflicts := length (df_conflicts diff) |},
              with_set (reconcile_with (sn_set n) remote).2 n).

(* SRC core/src/sync_transport.rs @fn:write_auth_frame write_auth_frame *)
Definition write_auth_frame (password : string) : WireM unit :=
  write_frame (auth_json {| af_type := "auth"; af_password := password |}).

(** The comparison byte by byte. *)
Fixpoint bytes_all_eq (a b : string) : bool :=
  match a, b with
  | String x a', String y b' => Ascii.eqb x y && bytes_all_eq a' b'
  | _, _ => true
  end.
(* SRC core/src/sync_transport.rs @fn:read_auth_frame read_auth_frame *)
Definition read_auth_frame (password : string) : WireM unit :=
  raw <-w read_frame;;
  frame <-w wire_lift (match auth_of_json raw with Ok f => Ok f | Err _ => Err WeHandshakeFailed end);;
  if negb (String.eqb (af_type frame) "auth") then wire_lift (Err WeHandshakeFailed)
  else if negb ((String.length (af_password frame) =? String.length password)%nat &&
                bytes_all_eq (af_password frame) password) then wire_lift (Err WeHandshakeFailed)
  else wire_ret tt.

(** The client after its connection is up. *)
(* SRC core/src/sync_transport.rs @fn:sync_with_peer sync_with_peer *)
Definition sync_with_peer (secret nonce1 nonce2 : string) (password : option string) (n : SyncSession)
    : WireM (ExchangeOutcome * SyncSession) :=
  _ <-w match password with Some pw => write_auth_frame pw | None => wire_ret tt end;;
  run_exchange secret nonce1 nonce2 n.

(** What the thread of one accepted connection does with the shared session and
    the outcomes. A failed gate or exchange drops the connection. *)
(* SRC core/src/sync_transport.rs 245 272 SyncServer::start *)
Definition serve_connection (gate : option string) (secret nonce1 nonce2 : string)
    (server : SyncSession * list ExchangeOutcome) (w : Wire) : (SyncSession * list ExchangeOutcome) * Wire :=
  match (match gate with Some pw => read_auth_frame pw w | None => (Ok tt, w) end) with
  | (Err _, w') => (server, w')
  | (Ok _, w') =>
      match run_exchange secret nonce1 nonce2 server.1 w' with
      | (Ok (outcome, n), w2) => ((n, server.2 ++ [outcome]), w2)
      | (Err _, w2) => (server, w2)
      end
  end.
End exchange.
