(* ===== verification/SyncFacts.v ===== *)
(** * What device sync guarantees

    Sets of items seen as maps from keys, last-write-wins as the join of two
    items, convergence of replicas that gossip, the symmetry of one exchange,
    the authenticated header of an envelope, and the handshake. *)
From S2P Require Import Order Prelude.
From S2P Require Import Json Ipc Sync.

(** ** Sets as maps *)

Definition key_of (i : SyncItem) : SyncScope * string := (si_scope i, si_key i).
(** No key occurs twice, as [sync_upsert] keeps it. *)
Definition set_wf (s : SyncSet) : Prop := NoDup (key_of <$> s).

#[local] Arguments sync_get : simpl never.

Lemma at_key_spec sc k i : at_key sc k i = true ↔ key_of i = (sc, k).
Proof.
  unfold at_key, key_of. rewrite andb_true_iff, bool_decide_eq_true, String.eqb_eq. by rewrite pair_equal_spec.
Qed.

Lemma get_cons sc k i s : sync_get sc k (i :: s) = if decide (key_of i = (sc, k)) then Some i else sync_get sc k s.
Proof.
  unfold sync_get. simpl. destruct (decide (key_of i = (sc, k))) as [E|E].
  - by rewrite (proj2 (at_key_spec sc k i) E).
  - destruct (at_key sc k i) eqn:H; [|done]. by apply at_key_spec in H.
Qed.
Lemma get_app sc k a b : sync_get sc k (a ++ b) = match sync_get sc k a with Some i => Some i | None => sync_get sc k b end.
Proof. induction a as [|i a IH]; [done|]. simpl app. rewrite !get_cons. by destruct (decide _). Qed.
Lemma get_some sc k s i : sync_get sc k s = Some i → i ∈ s ∧ key_of i = (sc, k).
Proof.
  intros H. apply find_some in H as [Hin%list_elem_of_In Hk%at_key_spec]. done.
Qed.
Lemma get_none sc k s i : sync_get sc k s = None → i ∈ s → key_of i ≠ (sc, k).
Proof.
  intros H Hin%list_elem_of_In Hk. pose proof (find_none _ _ H _ Hin) as Hn. by rewrite (proj2 (at_key_spec sc k i) Hk) in Hn.
Qed.
Lemma get_in s i : set_wf s → i ∈ s → sync_get (si_scope i) (si_key i) s = Some i.
Proof.
  intros Hwf Hin. induction s as [|x s IH]; [by apply elem_of_nil in Hin|]. rewrite get_cons.
  unfold set_wf in Hwf. rewrite fmap_cons in Hwf. apply NoDup_cons in Hwf as [Hx Hwf].
  apply elem_of_cons in Hin as [->|Hin]; [by rewrite decide_True|].
  rewrite decide_False; [by apply IH|]. intros E. apply Hx. apply list_elem_of_fmap. exists i. by split.
Qed.

Lemma get_upsert sc k i s : sync_get sc k (sync_upsert i s) = if decide (key_of i = (sc, k)) then Some i else sync_get sc k s.
Proof.
  induction s as [|x s IH]; simpl; [by rewrite get_cons|].
  destruct (at_key (si_scope i) (si_key i) x) eqn:E.
  - rewrite !get_cons. apply at_key_spec in E. change (key_of x = key_of i) in E. rewrite E. by destruct (decide _).
  - rewrite !get_cons, IH. destruct (decide (key_of x = (sc, k))) as [Ex|]; [|done].
    rewrite decide_False; [done|]. intros Ei. rewrite <- Ex in Ei.
    assert (at_key (si_scope i) (si_key i) x = true) by (by apply at_key_spec). congruence.
Qed.
Lemma upsert_keys i s x : x ∈ key_of <$> sync_upsert i s ↔ x = key_of i ∨ x ∈ key_of <$> s.
Proof.
  induction s as [|y s IH]; simpl; [by rewrite list_elem_of_singleton, elem_of_nil; naive_solver|].
  destruct (at_key (si_scope i) (si_key i) y) eqn:E; rewrite !fmap_cons, !elem_of_cons.
  - apply at_key_spec in E. change (key_of y = key_of i) in E. rewrite E. naive_solver.
  - rewrite IH. naive_solver.
Qed.
Lemma wf_upsert i s : set_wf s → set_wf (sync_upsert i s).
Proof.
  unfold set_wf. induction s as [|y s IH]; intros Hwf; [apply NoDup_singleton|]. cbn [sync_upsert].
  rewrite fmap_cons in Hwf. apply NoDup_cons in Hwf as [Hy Hwf].
  destruct (at_key (si_scope i) (si_key i) y) eqn:E; rewrite fmap_cons; apply NoDup_cons.
  - apply at_key_spec in E. change (key_of y = key_of i) in E. by rewrite <- E.
  - split; [|by apply IH]. rewrite upsert_keys. intros [E'|?]; [|done].
    assert (at_key (si_scope i) (si_key i) y = true) by (by apply at_key_spec). congruence.
Qed.
Lemma wf_upsert_all items s : set_wf s → set_wf (upsert_all items s).
Proof. revert s. induction items as [|i items IH]; intros s Hs; [done|]. by apply IH, wf_upsert. Qed.

Lemma get_upsert_all sc k items s : set_wf items →
  sync_get sc k (upsert_all items s) = match sync_get sc k items with Some i => Some i | None => sync_get sc k s end.
Proof.
  revert s. induction items as [|i items IH]; intros s Hwf; [done|]. unfold set_wf in Hwf. rewrite fmap_cons in Hwf.
  apply NoDup_cons in Hwf as [Hi Hwf]. change (upsert_all (i :: items) s) with (upsert_all items (sync_upsert i s)).
  rewrite IH, get_cons, get_upsert by done. destruct (decide (key_of i = (sc, k))) as [E|]; [|done].
  destruct (sync_get sc k items) as [x|] eqn:Hx; [|done]. apply get_some in Hx as [Hin Hk].
  destruct Hi. apply list_elem_of_fmap. exists x. split; [congruence|done].
Qed.

Lemma wf_filter f s : set_wf s → set_wf (List.filter f s).
Proof.
  unfold set_wf. induction s as [|x s IH]; [done|]. rewrite fmap_cons. intros [Hx Hs]%NoDup_cons. cbn [List.filter].
  destruct (f x); [|by apply IH]. rewrite fmap_cons. apply NoDup_cons. split; [|by apply IH].
  intros Hin. apply Hx. apply list_elem_of_fmap in Hin as (y & E & Hy). apply list_elem_of_fmap. exists y. split; [done|].
  apply list_elem_of_In in Hy. apply List.filter_In in Hy as [Hy _]. by apply list_elem_of_In.
Qed.
Lemma get_filter sc k f s : set_wf s →
  sync_get sc k (List.filter f s) = match sync_get sc k s with Some i => if f i then Some i else None | None => None end.
Proof.
  unfold set_wf. induction s as [|x s IH]; [done|]. rewrite fmap_cons. intros [Hx Hs]%NoDup_cons. rewrite get_cons.
  simpl. destruct (decide (key_of x = (sc, k))) as [E|E].
  - destruct (f x); [by rewrite get_cons, decide_True|]. rewrite IH by done.
    destruct (sync_get sc k s) as [y|] eqn:Hy; [|done]. apply get_some in Hy as [Hin Hk]. destruct Hx.
    apply list_elem_of_fmap. exists y. split; [congruence|done].
  - destruct (f x); [|by apply IH]. rewrite get_cons, decide_False by done. by apply IH.
Qed.

(** ** Last-write-wins as a join *)

(** [r] replaces [l]: a higher revision, or another payload written later. *)
Definition newer (r l : SyncItem) : bool :=
  (si_rev l <? si_rev r)%N ||
  ((si_rev l =? si_rev r)%N && negb (String.eqb (si_payload l) (si_payload r)) && written_later r l).
Definition join_item (l r : option SyncItem) : option SyncItem :=
  match l, r with
  | Some l, Some r => Some (if newer r l then r else l)
  | None, _ => r
  | Some l, None => Some l
  end.

(** A conflict won by the remote item. *)
Definition lww_wins (local : SyncSet) (r : SyncItem) : bool :=
  match sync_get (si_scope r) (si_key r) local with
  | Some l => (si_rev l =? si_rev r)%N && negb (String.eqb (si_payload l) (si_payload r)) && written_later r l
  | None => false
  end.

Definition lww_winner (local remote : SyncSet) (c : SyncConflict) : option SyncItem :=
  match sync_get (sc_scope c) (sc_key c) local, sync_get (sc_scope c) (sc_key c) remote with
  | Some l, Some r => if written_later r l then Some r else None
  | _, _ => None
  end.
Lemma resolve_apply local remote cs out :
  rd_apply (foldl (resolve_one CpLastWriteWins local remote) out cs) = rd_apply out ++ omap (lww_winner local remote) cs.
Proof.
  revert out. induction cs as [|c cs IH]; intros out; [by rewrite app_nil_r|]. cbn [foldl omap list_omap]. rewrite IH.
  unfold resolve_one, lww_winner at 2. cbv zeta.
  destruct (sync_get (sc_scope c) (sc_key c) local) as [l|], (sync_get (sc_scope c) (sc_key c) remote) as [r|]; try done.
  destruct (written_later r l); simpl; [by rewrite <- app_assoc|]. by destruct (written_later l r).
Qed.

Lemma winners_filter local remote items : (∀ r, r ∈ items → sync_get (si_scope r) (si_key r) remote = Some r) →
  omap (lww_winner local remote) (omap (conflict_of local) items) = List.filter (lww_wins local) items.
Proof.
  induction items as [|r items IH]; intros Hsub; [done|]. cbn [omap list_omap List.filter].
  rewrite <- IH by (intros x Hx; apply Hsub; by right). unfold conflict_of at 1, lww_wins at 1.
  destruct (sync_get (si_scope r) (si_key r) local) as [l|] eqn:Hl; [|done]. cbn [mbind option_bind].
  destruct ((si_rev l =? si_rev r)%N && negb (String.eqb (si_payload l) (si_payload r))); [|done].
  cbn [list_omap andb]. unfold lww_winner at 1. simpl. rewrite Hl, (Hsub r) by by left. by destruct (written_later r l).
Qed.

Lemma lww_apply local remote : set_wf remote →
  rd_apply (resolve_conflicts (reconcile local remote) CpLastWriteWins local remote) =
  List.filter (pulls local) remote ++ List.filter (lww_wins local) remote.
Proof.
  intros Hwf. unfold resolve_conflicts. rewrite resolve_apply. simpl. f_equal.
  apply (winners_filter local remote). intros r Hr. by apply get_in.
Qed.

Lemma wf_disjoint_filters f g s : set_wf s → (∀ i, f i = true → g i = true → False) →
  set_wf (List.filter f s ++ List.filter g s).
Proof.
  intros Hwf Hfg. unfold set_wf. rewrite fmap_app. apply NoDup_app. split_and!; [by apply wf_filter| |by apply wf_filter].
  intros x Hf Hg. apply list_elem_of_fmap in Hf as (a & -> & Ha), Hg as (b & E & Hb).
  apply list_elem_of_In, List.filter_In in Ha as [Ha Hfa], Hb as [Hb Hgb]. apply list_elem_of_In in Ha, Hb.
  pose proof (get_in _ _ Hwf Ha) as Ga. pose proof (get_in _ _ Hwf Hb) as Gb.
  injection E as E1 E2. rewrite E1, E2 in Ga. assert (a = b) as -> by congruence. by apply (Hfg b).
Qed.

Lemma pulls_not_wins local i : pulls local i = true → lww_wins local i = true → False.
Proof.
  unfold pulls, lww_wins. destruct (sync_get _ _ local) as [l|]; [|done]. intros H1%N.ltb_lt H2.
  apply andb_prop in H2 as [[H2%N.eqb_eq _]%andb_prop _]. lia.
Qed.

Definition sync_merge (local remote : SyncSet) : SyncSet := (reconcile_with_policy local remote CpLastWriteWins).2.

Lemma wf_merge local remote : set_wf local → set_wf (sync_merge local remote).
Proof. apply wf_upsert_all. Qed.

Lemma get_merge sc k local remote : set_wf remote →
  sync_get sc k (sync_merge local remote) = join_item (sync_get sc k local) (sync_get sc k remote).
Proof.
  intros Hwf. unfold sync_merge, reconcile_with_policy. cbv zeta. cbn [snd]. rewrite lww_apply by done.
  rewrite get_upsert_all by (apply wf_disjoint_filters; [done|apply pulls_not_wins]).
  rewrite get_app, !get_filter by done. destruct (sync_get sc k remote) as [r|] eqn:Hr; [|by destruct (sync_get sc k local)].
  apply get_some in Hr as [_ Hk]. injection Hk as Hs Hk. unfold pulls, lww_wins. rewrite Hs, Hk.
  destruct (sync_get sc k local) as [l|]; [|done]. unfold join_item, newer. destruct (_ <? _)%N; [done|]. simpl.
  by destruct (_ && _).
Qed.

(** *** The order of writes *)

(** By revision, then timestamp, then payload. *)
Definition write_le (a b : SyncItem) : Prop :=
  (si_rev a < si_rev b)%N ∨ (si_rev a = si_rev b ∧
    ((ts_of a < ts_of b)%N ∨ (ts_of a = ts_of b ∧ str_le (si_payload a) (si_payload b) = true))).
Definition opt_le (a b : option SyncItem) : Prop :=
  match a, b with None, _ => True | Some a, Some b => write_le a b | Some _, None => False end.

#[export] Instance write_le_trans : Transitive write_le.
Proof.
  intros a b c H1 H2. unfold write_le in *. destruct H1 as [H1|(E1 & H1)], H2 as [H2|(E2 & H2)]; try (left; lia).
  right. split; [congruence|]. destruct H1 as [H1|(T1 & P1)], H2 as [H2|(T2 & P2)]; try (left; lia).
  right. split; [congruence|]. exact (str_le_trans _ _ _ P1 P2).
Qed.
#[export] Instance opt_le_trans : Transitive opt_le.
Proof. intros [a|] [b|] [c|]; simpl; try done. apply transitivity. Qed.
Lemma write_le_refl a : write_le a a.
Proof. right. split; [done|]. right. split; [done|]. by destruct (str_le_total (si_payload a) (si_payload a)). Qed.

(** Items are told apart by key, revision and payload. *)
Definition distinct_writes (x y : SyncItem) : Prop :=
  key_of x = key_of y → si_rev x = si_rev y → si_payload x = si_payload y → x = y.

Lemma write_le_antisym a b : distinct_writes a b → key_of a = key_of b → write_le a b → write_le b a → a = b.
Proof.
  intros Hd Hk [H1|(E1 & H1)] [H2|(E2 & H2)]; try lia. destruct H1 as [H1|(T1 & P1)], H2 as [H2|(T2 & P2)]; try lia.
  apply Hd; [done|done|]. by apply str_le_antisym.
Qed.

Lemma newer_order l r : newer r l = true → write_le l r.
Proof.
  unfold newer, written_later. intros H. apply orb_prop in H as [H%N.ltb_lt|H]; [by left|].
  apply andb_prop in H as [[E%N.eqb_eq _]%andb_prop H]. right. split; [done|].
  apply orb_prop in H as [H%N.ltb_lt|[T%N.eqb_eq P]%andb_prop]; [by left|right].
  split; [done|]. unfold payload_gt in P. apply negb_true_iff in P.
  destruct (str_le_total (si_payload l) (si_payload r)) as [?|E']; [done|congruence].
Qed.
Lemma not_newer_order l r : distinct_writes r l → key_of r = key_of l → newer r l = false → write_le r l.
Proof.
  unfold newer, written_later. intros Hd Hk H. apply orb_false_iff in H as [H1%N.ltb_ge H].
  destruct (N.eqb_spec (si_rev l) (si_rev r)) as [E|Hne]; [|left; lia]. simpl in H.
  destruct (String.eqb_spec (si_payload l) (si_payload r)) as [Ep|Hne]; simpl in H.
  { rewrite (Hd Hk (eq_sym E) (eq_sym Ep)). apply write_le_refl. }
  right. split; [done|]. apply orb_false_iff in H as [H%N.ltb_ge H2].
  destruct (N.eqb_spec (ts_of r) (ts_of l)) as [T|]; [|left; lia]. right. split; [done|].
  simpl in H2. unfold payload_gt in H2. by apply negb_false_iff in H2.
Qed.

Lemma join_upper a b : (∀ x y, a = Some x → b = Some y → distinct_writes y x ∧ key_of y = key_of x) →
  opt_le a (join_item a b) ∧ opt_le b (join_item a b) ∧ (join_item a b = a ∨ join_item a b = b).
Proof.
  intros Hd. destruct a as [x|], b as [y|]; simpl; try (split_and!; try done; try apply write_le_refl; by (left + right)).
  destruct (Hd x y eq_refl eq_refl) as [H1 H2]. destruct (newer y x) eqn:E.
  - split_and!; [by apply newer_order|apply write_le_refl|by right].
  - split_and!; [apply write_le_refl|by apply not_newer_order|by left].
Qed.

(** ** Replicas that gossip *)

(** Replica [i] reconciles with the set of replica [j] under last-write-wins. *)
Definition gossip_step (st : list SyncSet) (ij : nat * nat) : list SyncSet :=
  match st !! ij.1, st !! ij.2 with
  | Some a, Some b => <[ij.1 := sync_merge a b]> st
  | _, _ => st
  end.
(** Whose initial sets have reached each replica. *)
Definition heard_step (h : list (gset nat)) (ij : nat * nat) : list (gset nat) :=
  match h !! ij.1, h !! ij.2 with
  | Some a, Some b => <[ij.1 := a ∪ b]> h
  | _, _ => h
  end.
Definition heard_first (st : list SyncSet) : list (gset nat) := imap (λ i _, {[i]}) st.

(** What one replica holds: at each key the latest write among the initial sets
    that reached it. *)
Definition holds (st0 : list SyncSet) (s : SyncSet) (h : gset nat) : Prop :=
  set_wf s ∧
  ∀ sc k, (∀ j s0, j ∈ h → st0 !! j = Some s0 → opt_le (sync_get sc k s0) (sync_get sc k s)) ∧
          (∀ x, sync_get sc k s = Some x → ∃ j s0, j ∈ h ∧ st0 !! j = Some s0 ∧ sync_get sc k s0 = Some x).

Definition honest (st0 : list SyncSet) : Prop :=
  ∀ i j si sj x y, st0 !! i = Some si → st0 !! j = Some sj → x ∈ si → y ∈ sj → distinct_writes x y.

Lemma holds_merge st0 a b ha hb : honest st0 → holds st0 a ha → holds st0 b hb → holds st0 (sync_merge a b) (ha ∪ hb).
Proof.
  intros Hh [Wa Ha] [Wb Hb]. split; [by apply wf_merge|]. intros sc k. rewrite get_merge by done.
  destruct (Ha sc k) as [Ua Oa], (Hb sc k) as [Ub Ob].
  assert (Hd : ∀ x y, sync_get sc k a = Some x → sync_get sc k b = Some y → distinct_writes y x ∧ key_of y = key_of x).
  { intros x y Hx Hy. destruct (Oa x Hx) as (i & si & _ & Hsi & Gx), (Ob y Hy) as (j & sj & _ & Hsj & Gy).
    apply get_some in Gx as [Gx Kx], Gy as [Gy Ky]. split; [by eapply (Hh j i)|congruence]. }
  destruct (join_upper _ _ Hd) as (La & Lb & Hor). split.
  - intros j s0 [Hj|Hj]%elem_of_union Hs0; [transitivity (sync_get sc k a)|transitivity (sync_get sc k b)]; eauto.
  - intros x Hx. destruct Hor as [E|E]; rewrite E in Hx.
    + destruct (Oa x Hx) as (i & si & Hi & ?). exists i, si. split; [set_solver|done].
    + destruct (Ob x Hx) as (i & si & Hi & ?). exists i, si. split; [set_solver|done].
Qed.

Definition all_hold (st0 st : list SyncSet) (h : list (gset nat)) : Prop := Forall2 (holds st0) st h.

Lemma all_hold_first st0 : Forall set_wf st0 → all_hold st0 st0 (heard_first st0).
Proof.
  intros Hwf. apply Forall2_same_length_lookup. split; [unfold heard_first; by rewrite length_imap|].
  intros i s h Hs Hh. unfold heard_first in Hh. rewrite list_lookup_imap, Hs in Hh. injection Hh as <-.
  split; [by eapply Forall_lookup_1|]. intros sc k. split.
  - intros j s0 ->%elem_of_singleton Hj. assert (s0 = s) as -> by congruence.
    destruct (sync_get sc k s); [apply write_le_refl|done].
  - intros x Hx. exists i, s. split; [by apply elem_of_singleton|done].
Qed.

Lemma holds_none st0 st h i : all_hold st0 st h → st !! i = None → h !! i = None.
Proof. intros Hall E. pose proof (proj1 (Forall2_lookup _ _ _) Hall i) as H. rewrite E in H. by inversion H. Qed.

Lemma all_hold_step st0 st h ij : honest st0 → all_hold st0 st h → all_hold st0 (gossip_step st ij) (heard_step h ij).
Proof.
  intros Hh Hall. unfold gossip_step, heard_step. destruct (st !! ij.1) as [a|] eqn:Ea.
  - destruct (Forall2_lookup_l _ _ _ _ _ Hall Ea) as (ha & Hha & Pa). rewrite Hha.
    destruct (st !! ij.2) as [b|] eqn:Eb.
    + destruct (Forall2_lookup_l _ _ _ _ _ Hall Eb) as (hb & Hhb & Pb). rewrite Hhb.
      apply Forall2_insert; [done|]. by apply holds_merge.
    + by rewrite (holds_none _ _ _ _ Hall Eb).
  - by rewrite (holds_none _ _ _ _ Hall Ea).
Qed.


(** ** One exchange, both sides *)

(** The part of reconciliation that needs no policy. *)
Lemma get_reconciled sc k local remote : set_wf remote →
  sync_get sc k (reconcile_with local remote).2 =
  match sync_get sc k remote with
  | Some r => if pulls local r then Some r else sync_get sc k local
  | None => sync_get sc k local
  end.
Proof.
  intros Hwf. simpl. rewrite get_upsert_all by by apply wf_filter. rewrite get_filter by done.
  destruct (sync_get sc k remote) as [r|]; [|done]. by destruct (pulls local r).
Qed.

Definition in_conflict (sc : SyncScope) (k : string) (a b : SyncSet) : Prop :=
  ∃ x y, sync_get sc k a = Some x ∧ sync_get sc k b = Some y ∧ si_rev x = si_rev y ∧ si_payload x ≠ si_payload y.

Lemma conflict_reported a b sc k : set_wf b →
  in_conflict sc k a b ↔ ∃ c, c ∈ df_conflicts (reconcile a b) ∧ sc_scope c = sc ∧ sc_key c = k.
Proof.
  intros Hwf. simpl. split.
  - intros (x & y & Hx & Hy & Er & Hp). apply get_some in Hy as [Hin [= Es Ek]].
    exists {| sc_scope := sc; sc_key := k; sc_local_rev := si_rev x; sc_remote_rev := si_rev y |}. split; [|done].
    apply list_elem_of_omap. exists y. split; [done|]. unfold conflict_of. rewrite Es, Ek, Hx. cbn [mbind option_bind].
    rewrite Er, N.eqb_refl. by destruct (String.eqb_spec (si_payload x) (si_payload y)).
  - intros (c & Hc & <- & <-). apply list_elem_of_omap in Hc as (y & Hin & Hc). unfold conflict_of in Hc.
    destruct (sync_get (si_scope y) (si_key y) a) as [x|] eqn:Hx; [|done]. cbn [mbind option_bind] in Hc.
    destruct (N.eqb_spec (si_rev x) (si_rev y)) as [Er|]; [|done].
    destruct (String.eqb_spec (si_payload x) (si_payload y)) as [|Hp]; [done|]. injection Hc as <-. simpl.
    exists x, y. split_and!; [done|by apply get_in|done|done].
Qed.

(** One exchange brings both sides together up to what it reports. After each
    side has applied the other's set, a key on which they still differ is either
    reported as a conflict by both (one revision, two payloads, both kept), or
    holds on both sides one revision and one payload; and what one side applies is
    exactly what the other counts as pushed. *)
Theorem exchange_settles_or_reports (a b : SyncSet) (sc : SyncScope) (k : string) :
  set_wf a → set_wf b →
  let a' := (reconcile_with a b).2 in
  let b' := (reconcile_with b a).2 in
  df_apply (reconcile a b) = df_push (reconcile b a) ∧
  (in_conflict sc k a b → in_conflict sc k b a ∧ sync_get sc k a' = sync_get sc k a ∧ sync_get sc k b' = sync_get sc k b) ∧
  (¬ in_conflict sc k a b →
    (λ i, (si_rev i, si_payload i)) <$> sync_get sc k a' = (λ i, (si_rev i, si_payload i)) <$> sync_get sc k b').
Proof.
  intros Wa Wb. cbv zeta. split; [done|]. rewrite !get_reconciled by done. unfold in_conflict.
  destruct (sync_get sc k a) as [x|] eqn:Hx, (sync_get sc k b) as [y|] eqn:Hy; simpl; [| | |split; [|done]; by intros (? & ? & ? & _)].
  2: { apply get_some in Hx as [_ [= Es Ek]]. split; [by intros (? & ? & _ & ? & _)|]. intros _. unfold pulls. by rewrite Es, Ek, Hy. }
  2: { apply get_some in Hy as [_ [= Es Ek]]. split; [by intros (? & ? & ? & _)|]. intros _. unfold pulls. by rewrite Es, Ek, Hx. }
  pose proof (get_some _ _ _ _ Hx) as [_ [= Esx Ekx]]. pose proof (get_some _ _ _ _ Hy) as [_ [= Esy Eky]].
  unfold pulls. rewrite Esx, Ekx, Esy, Eky, Hx, Hy. split.
  - intros (x' & y' & [= <-] & [= <-] & Er & Hp). rewrite Er, N.ltb_irrefl. split; [|done]. by exists y, x.
  - intros Hnc. destruct (N.ltb_spec (si_rev x) (si_rev y)), (N.ltb_spec (si_rev y) (si_rev x)); try done; [lia|].
    assert (si_rev x = si_rev y) as Er by lia. simpl. rewrite Er. do 2 f_equal.
    destruct (decide (si_payload x = si_payload y)) as [|Hp]; [done|]. destruct Hnc. by exists x, y.
Qed.

(** ** The header of an envelope *)

Lemma byte_of_inj n m : (n < 256)%N → (m < 256)%N → byte_of n = byte_of m → n = m.
Proof.
  unfold byte_of. intros Hn Hm [= E]. rewrite !N.mod_small in E by done.
  rewrite <- (N_ascii_embedding n Hn), <- (N_ascii_embedding m Hm). congruence.
Qed.

Lemma app_same_length a a' b b' : String.length a = String.length a' → a +:+ b = a' +:+ b' → a = a' ∧ b = b'.
Proof.
  revert a'. induction a as [|c a IH]; intros [|c' a'] Hl E; try done. rewrite !app_string_cons in E.
  injection E as -> E. apply IH in E as [-> ->]; [done|]. by injection Hl.
Qed.

(** An envelope as serde reads one: eight bytes of magic, one of version. *)
Definition envelope_shape (e : SyncEnvelope) : Prop := String.length (se_magic e) = 8 ∧ (se_version e < 256)%N.

(** The associated data pins the header: two envelopes with the same
    associated data have the same magic, version, scope and sender, so a changed
    header field is always seen by the authentication. *)
Theorem header_aad_pins_the_header (e f : SyncEnvelope) :
  envelope_shape e → envelope_shape f → header_aad e = header_aad f →
  se_magic e = se_magic f ∧ se_version e = se_version f ∧ se_scope e = se_scope f ∧
  se_sender_device e = se_sender_device f.
Proof.
  intros [M1 V1] [M2 V2]. unfold header_aad. intros E. apply app_same_length in E as [-> E]; [|congruence].
  apply app_same_length in E as [Ev%byte_of_inj E]; [|done|done|done].
  apply app_same_length in E as [El%byte_of_inj E]; [|first [done|by destruct (se_scope e)|by destruct (se_scope f)]..].
  assert (Hs : se_scope e = se_scope f) by (by destruct (se_scope e), (se_scope f)).
  rewrite Hs in E. apply app_same_length in E as [_ Ed]; [|done]. done.
Qed.

(** ** Envelopes, keys and the exchange *)

(** ChaCha20-Poly1305 opens what it sealed, and nothing under other associated
    data. *)
Class AeadLaws `{Aead} : Prop := {
  aead_opens k n p a ct : aead_encrypt k n p a = Ok ct → aead_decrypt k n ct a = Some p;
  aead_binds k n p a ct a' : aead_encrypt k n p a = Ok ct → a' ≠ a → aead_decrypt k n ct a' = None
}.
(** X25519: both ends of an agreement compute the same secret. *)
Class X25519Laws `{X25519} : Prop := {
  x_public_length s : String.length (x_public s) = 32;
  x_agree a b : x_shared a (x_public b) = x_shared b (x_public a)
}.
(** serde reads back what it writes. *)
Class SyncJsonLaws `{SyncJson} : Prop := {
  set_json_read s : set_of_json (set_json s) = Ok s;
  envelope_json_read e : envelope_of_json (envelope_json e) = Ok e;
  hello_json_read h : hello_of_json (hello_json h) = Ok h;
  auth_json_read a : auth_of_json (auth_json a) = Ok a
}.

Section wire.
Context {aead : Aead} {aead_laws : AeadLaws} {x : X25519} {x_laws : X25519Laws} {js : SyncJson} {js_laws : SyncJsonLaws}.
Context {sha : Sha256}.

Lemma seal_parts key nonce dev sc p env : seal_envelope key nonce dev sc p = Ok env →
  ∃ ct, aead_encrypt key nonce p (header_aad (bare_envelope dev sc)) = Ok ct ∧ env = set_body nonce ct (bare_envelope dev sc).
Proof.
  unfold seal_envelope, box_encrypt. destruct (aead_encrypt _ _ _ _) as [ct|] eqn:E; [|done]. cbn [rbind fst snd]. intros [= <-].
  by exists ct.
Qed.

Lemma open_sealed key nonce dev sc p env : seal_envelope key nonce dev sc p = Ok env → String.length nonce = NONCE_LEN →
  open_envelope key env None = Ok p ∧ open_envelope key env (Some dev) = Ok p.
Proof.
  intros Hs Hn. apply seal_parts in Hs as (ct & Hct & ->). apply aead_opens in Hct.
  unfold open_envelope, box_decrypt. cbn [se_magic se_version se_sender_device se_nonce se_ciphertext set_body bare_envelope].
  rewrite Hn, !String.eqb_refl, N.eqb_refl, Nat.eqb_refl. cbn [negb].
  change (header_aad (set_body nonce ct (bare_envelope dev sc))) with (header_aad (bare_envelope dev sc)). by rewrite Hct.
Qed.

Definition set_header (magic : string) (version : N) (sender : string) (sc : SyncScope) (e : SyncEnvelope) : SyncEnvelope :=
  {| se_magic := magic; se_version := version; se_sender_device := sender; se_scope := sc;
     se_nonce := se_nonce e; se_ciphertext := se_ciphertext e |}.

(** A sealed text opens to itself, and under no other header: after any change
    of magic, version, sender or scope the envelope is refused, whoever is
    expected. *)
Theorem sealed_header_is_authentic (key nonce dev : string) (sc : SyncScope) (p : string) (env : SyncEnvelope)
    (magic : string) (version : N) (sender : string) (sc' : SyncScope) (expected : option string) :
  seal_envelope key nonce dev sc p = Ok env → String.length nonce = NONCE_LEN → String.length magic = 8 → (version < 256)%N →
  open_envelope key env (Some dev) = Ok p ∧
  ((magic, version, sender, sc') ≠ (se_magic env, se_version env, se_sender_device env, se_scope env) →
   ∃ e, open_envelope key (set_header magic version sender sc' env) expected = Err e).
Proof.
  intros Hs Hn Hm Hv. split; [by eapply open_sealed|]. intros Hne. apply seal_parts in Hs as (ct & Hct & ->).
  unfold open_envelope. destruct (negb _) eqn:Em; [by eexists|]. destruct (negb (_ =? _)%N) eqn:Ev; [by eexists|].
  destruct (match expected with Some _ => _ | None => false end); [by eexists|]. unfold box_decrypt.
  rewrite (aead_binds _ _ _ _ _ _ Hct); [case_match; by eexists|]. intros E.
  apply header_aad_pins_the_header in E as (E1 & E2 & E3 & E4); [|done|done]. apply Hne. simpl in *. congruence.
Qed.

(** *** Frames *)

Lemma u32_be_read n rest : (n ≤ MAX_FRAME_BYTES)%N → byte_len rest = byte_len rest →
  ∃ a b c d, u32_to_be n +:+ rest = String a (String b (String c (String d rest))) ∧ u32_from_le d c b a = n.
Proof.
  intros Hn _. do 4 eexists. split; [done|]. apply u32_le_round_trip. unfold MAX_FRAME_BYTES, u32_max in *. lia.
Qed.

Definition frame (m : string) : string := u32_to_be (byte_len m) +:+ m.
Definition small (m : string) : Prop := (byte_len m ≤ MAX_FRAME_BYTES)%N.

Lemma read_frame_framed m rest out ws : small m →
  read_frame {| w_in := frame m +:+ rest; w_out := out; w_writes := ws |} =
  (Ok m, {| w_in := rest; w_out := out; w_writes := ws |}).
Proof.
  intros Hs. unfold read_frame, frame. cbn [w_in w_out w_writes]. rewrite app_string_assoc.
  destruct (u32_be_read (byte_len m) (m +:+ rest) Hs eq_refl) as (a & b & c & d & -> & ->).
  rewrite (proj2 (N.ltb_ge _ _) Hs). unfold byte_len. by rewrite Nat2N.id, read_exact_app.
Qed.
Lemma write_frame_framed m inp out : small m →
  write_frame m {| w_in := inp; w_out := out; w_writes := [] |} =
  (Ok tt, {| w_in := inp; w_out := out +:+ frame m; w_writes := [] |}).
Proof.
  intros Hs. unfold write_frame. rewrite (proj2 (N.ltb_ge _ _)); [done|]. unfold small, MAX_FRAME_BYTES, u32_max in *. lia.
Qed.

(** *** The handshake and the swap *)

(** The three messages a session sends to a peer of a given device and key. *)
Definition messages (secret nonce1 nonce2 : string) (n : SyncSession) (peer_device peer_public : string)
    : result (string * string * string) SyncError :=
  let key := x_shared secret peer_public in
  token <-? confirm_token nonce1 {| ss_peer_device := peer_device; ss_key := key |};;
  env <-? seal_set key nonce2 (sn_device_id n) ScMessages (sn_set n);;
  Ok (hello_json (kx_hello {| kx_device_id := sn_device_id n; kx_secret := secret |}), envelope_json token, envelope_json env).
Definition transcript (m : string * string * string) : string := frame m.1.1 +:+ frame m.1.2 +:+ frame m.2.
Definition all_small (m : string * string * string) : Prop := small m.1.1 ∧ small m.1.2 ∧ small m.2.

Lemma exchange_runs secret peer_secret nonce1 nonce2 pn1 pn2 (n peer : SyncSession) mine theirs rest :
  messages secret nonce1 nonce2 n (sn_device_id peer) (x_public peer_secret) = Ok mine → all_small mine →
  messages peer_secret pn1 pn2 peer (sn_device_id n) (x_public secret) = Ok theirs → all_small theirs →
  String.length pn1 = NONCE_LEN → String.length pn2 = NONCE_LEN →
  let diff := reconcile (sn_set n) (sn_set peer) in
  run_exchange secret nonce1 nonce2 n {| w_in := transcript theirs +:+ rest; w_out := ""; w_writes := [] |} =
  (Ok ({| eo_peer_device := sn_device_id peer; eo_peer_fingerprint := fingerprint (x_public peer_secret);
          eo_applied := length (df_apply diff); eo_pushed := length (df_push diff);
          eo_conflicts := length (df_conflicts diff) |}, with_set (reconcile_with (sn_set n) (sn_set peer)).2 n),
   {| w_in := rest; w_out := transcript mine; w_writes := [] |}).
Proof.
  intros Hm (M1 & M2 & M3) Ht (T1 & T2 & T3) Hn1 Hn2. cbv zeta. unfold messages in Hm, Ht. cbv zeta in Hm, Ht.
  destruct (confirm_token nonce1 _) as [token|] eqn:Htok; [|done]. cbn [rbind] in Hm.
  destruct (seal_set (x_shared secret _) _ _ _ _) as [env|] eqn:Henv; [|done]. cbn [rbind] in Hm. injection Hm as <-.
  rewrite (x_agree peer_secret secret) in Ht.
  destruct (confirm_token pn1 _) as [ptoken|] eqn:Hptok; [|done]. cbn [rbind] in Ht.
  destruct (seal_set (x_shared secret _) pn2 _ _ _) as [penv|] eqn:Hpenv; [|done]. cbn [rbind] in Ht. injection Ht as <-.
  assert (Hopen : open_envelope (x_shared secret (x_public peer_secret)) ptoken None = Ok CONFIRM)
    by exact (proj1 (open_sealed _ _ _ _ _ _ Hptok Hn1)).
  unfold transcript in *. cbn [fst snd] in *. unfold run_exchange. cbv zeta. unfold wire_bind at 1.
  rewrite write_frame_framed by done. unfold wire_bind at 1. rewrite !app_string_assoc, read_frame_framed by done.
  unfold wire_bind at 1, wire_lift at 1. rewrite hello_json_read. cbn [json]. unfold wire_bind at 1, wire_lift at 1.
  unfold kx_accept, public_key_arr. cbn [kx_hello sh_public_key sh_device_id kx_device_id kx_secret].
  rewrite x_public_length. cbn [Nat.eqb rbind protocol]. unfold wire_bind at 1, wire_lift at 1. rewrite Htok. cbn [protocol].
  unfold wire_bind at 1. rewrite write_frame_framed by done. unfold wire_bind at 1. rewrite read_frame_framed by done.
  unfold wire_bind at 1, wire_lift at 1. rewrite envelope_json_read. cbn [json]. unfold wire_bind at 1, wire_lift at 1.
  unfold verify_peer. cbn [ss_key]. rewrite Hopen. cbn [rbind protocol].
  rewrite String.eqb_refl. cbn [negb]. unfold wire_bind at 1, wire_lift at 1. rewrite Henv. cbn [protocol].
  unfold wire_bind at 1. rewrite write_frame_framed by done. unfold wire_bind at 1. rewrite read_frame_framed by done.
  unfold wire_bind at 1, wire_lift at 1. rewrite envelope_json_read. cbn [json]. unfold wire_bind at 1, wire_lift at 1.
  unfold open_set. rewrite (proj1 (open_sealed _ _ _ _ _ _ Hpenv Hn2)). cbn [rbind]. rewrite set_json_read. cbn [protocol].
  unfold wire_ret. rewrite !app_string_assoc. done.
Qed.

(** An exchange between two sessions completes. Fed with what the other side
    sends, each side finishes the handshake, sends its own three messages, counts
    what it applied, and ends with its set reconciled with the other's; the set
    that one side counts as applied is the one the other counts as pushed. *)
Theorem exchange_completes (sa sb na1 na2 nb1 nb2 : string) (a b : SyncSession) (ma mb : string * string * string) :
  messages sa na1 na2 a (sn_device_id b) (x_public sb) = Ok ma → all_small ma →
  messages sb nb1 nb2 b (sn_device_id a) (x_public sa) = Ok mb → all_small mb →
  Forall (λ nonce, String.length nonce = NONCE_LEN) [na1; na2; nb1; nb2] →
  ∃ oa ob,
    run_exchange sa na1 na2 a {| w_in := transcript mb; w_out := ""; w_writes := [] |} =
      (Ok (oa, with_set (reconcile_with (sn_set a) (sn_set b)).2 a), {| w_in := ""; w_out := transcript ma; w_writes := [] |}) ∧
    run_exchange sb nb1 nb2 b {| w_in := transcript ma; w_out := ""; w_writes := [] |} =
      (Ok (ob, with_set (reconcile_with (sn_set b) (sn_set a)).2 b), {| w_in := ""; w_out := transcript mb; w_writes := [] |}) ∧
    eo_peer_device oa = sn_device_id b ∧ eo_peer_device ob = sn_device_id a ∧
    eo_applied oa = eo_pushed ob ∧ eo_pushed oa = eo_applied ob.
Proof.
  intros Ha Sa Hb Sb Hn. rewrite !Forall_cons in Hn. destruct Hn as (N1 & N2 & N3 & N4 & _).
  pose proof (exchange_runs _ _ _ _ _ _ _ _ _ _ "" Ha Sa Hb Sb N3 N4) as Ra.
  pose proof (exchange_runs _ _ _ _ _ _ _ _ _ _ "" Hb Sb Ha Sa N1 N2) as Rb.
  cbv zeta in Ra, Rb. rewrite app_string_nil_r in Ra, Rb. do 2 eexists. split; [exact Ra|]. split; [exact Rb|].
  split_and!; reflexivity.
Qed.

(** A peer that only sends back what it receives is accepted: its confirm token is
    one's own, so the token does not prove possession of the key. *)
Lemma echoing_peer_is_accepted secret nonce1 nonce2 (n : SyncSession) m :
  messages secret nonce1 nonce2 n (sn_device_id n) (x_public secret) = Ok m → all_small m →
  String.length nonce1 = NONCE_LEN → String.length nonce2 = NONCE_LEN →
  ∃ outcome n', run_exchange secret nonce1 nonce2 n {| w_in := transcript m; w_out := ""; w_writes := [] |} =
    (Ok (outcome, n'), {| w_in := ""; w_out := transcript m; w_writes := [] |}).
Proof.
  intros Hm Hs H1 H2. pose proof (exchange_runs _ _ _ _ _ _ _ _ _ _ "" Hm Hs Hm Hs H1 H2) as Hr. cbv zeta in Hr.
  rewrite app_string_nil_r in Hr. do 2 eexists. exact Hr.
Qed.

(** *** The gate *)

Lemma bytes_all_eq_spec a b : (String.length a =? String.length b)%nat && bytes_all_eq a b = true ↔ a = b.
Proof.
  revert b. induction a as [|c a IH]; intros [|d b]; simpl; try done. split.
  - intros [Hl [->%Ascii.eqb_eq Hb]%andb_prop]%andb_prop. f_equal. apply IH. by rewrite Hl.
  - intros [= -> ->]. rewrite Ascii.eqb_refl. apply (proj2 (IH b)). done.
Qed.

(** The gate admits the password only: a connection that changes the session
    or the outcomes of a gated server began with an authentication frame with
    exactly its password. *)
Theorem gate_admits_password_only (password secret nonce1 nonce2 : string) (server : SyncSession * list ExchangeOutcome) (w : Wire) :
  (serve_connection (Some password) secret nonce1 nonce2 server w).1 ≠ server →
  ∃ raw w', read_frame w = (Ok raw, w') ∧ auth_of_json raw = Ok {| af_type := "auth"; af_password := password |}.
Proof.
  unfold serve_connection, read_auth_frame, wire_bind, wire_lift. destruct (read_frame w) as [[raw|e] w1]; [|by intros []].
  destruct (auth_of_json raw) as [[t pw]|e] eqn:Ha; [|by intros []]. cbn [af_type af_password].
  destruct (String.eqb_spec t "auth") as [->|]; [|by intros []]. cbn [negb].
  destruct ((String.length pw =? String.length password)%nat && bytes_all_eq pw password) eqn:Hb; [|by intros []].
  apply bytes_all_eq_spec in Hb as ->. intros _. by exists raw, w1.
Qed.

(** *** Bundles *)

(** A bundle carries the set: importing an exported bundle with the same key
    reconciles with exactly the exported set, whoever exported it; so importing
    one's own changes no key. *)
Theorem bundle_round_trips (nonce : string) (n m : SyncSession) (env : SyncEnvelope) (file : string) :
  export_to nonce n = Ok (env, file) → String.length nonce = NONCE_LEN → sn_key m = sn_key n → set_wf (sn_set n) →
  import_from (Ok file) m = Ok ((reconcile_with (sn_set m) (sn_set n)).1, with_set (reconcile_with (sn_set m) (sn_set n)).2 m) ∧
  ∀ sc k, sync_get sc k (reconcile_with (sn_set n) (sn_set n)).2 = sync_get sc k (sn_set n).
Proof.
  unfold export_to, export_bundle. destruct (seal_set _ _ _ _ _) as [e|] eqn:Hs; [|done]. cbn [rbind]. intros [= <- <-] Hn Hk Hwf.
  split.
  - unfold import_from, import_bundle, open_set. rewrite envelope_json_read, Hk.
    rewrite (proj1 (open_sealed _ _ _ _ _ _ Hs Hn)). cbn [rbind]. rewrite set_json_read. cbn [rbind]. done.
  - intros sc k. rewrite get_reconciled by done. destruct (sync_get sc k (sn_set n)) as [r|] eqn:Hr; [|done].
    unfold pulls. apply get_some in Hr as [Hin _]. rewrite (get_in _ _ Hwf Hin), N.ltb_irrefl. done.
Qed.
End wire.

(** ** Where the comments and the code part *)

(** A deletion and an empty text at one revision are no conflict, so no round
    brings the two sides together. *)
Example empty_text_and_deletion_stay_apart :
  let a := [item_live_at ScMemory "k" 1 5 ""] in
  let b := [item_tombstone_at ScMemory "k" 1 9] in
  sync_merge a b = a ∧ sync_merge b a = b ∧ live_count a ≠ live_count b.
Proof. vm_compute. split_and!; [reflexivity|reflexivity|discriminate]. Qed.

(** Keeping both swaps the payloads under the suffixed key, so both keys conflict
    in the next round, and each round adds a key on both sides. *)
Definition keep_both (ab : SyncSet * SyncSet) : SyncSet * SyncSet :=
  ((reconcile_with_policy ab.1 ab.2 CpKeepBoth).2, (reconcile_with_policy ab.2 ab.1 CpKeepBoth).2).
Example keep_both_grows :
  let start := ([item_live ScMemory "k" 1 "a"], [item_live ScMemory "k" 1 "b"]) in
  let sizes ab := (length ab.1, length ab.2, length (df_conflicts (reconcile ab.1 ab.2))) in
  (sizes start, sizes (keep_both start), sizes (keep_both (keep_both start)), sizes (keep_both (keep_both (keep_both start)))) =
  ((1, 1, 1), (2, 2, 2), (3, 3, 3), (4, 4, 4)).
Proof. vm_compute. reflexivity. Qed.

(** Two writes that differ only in their timestamp: the three replicas have all
    heard of each other and still disagree. *)
Example twin_writes_do_not_converge :
  let st := foldl gossip_step [[item_live_at ScMemory "k" 1 1 "p"]; [item_live_at ScMemory "k" 1 9 "p"];
              [item_live_at ScMemory "k" 1 5 "q"]] [(0, 1); (0, 2); (1, 0)] in
  si_payload <$> (st !! 0 ≫= sync_get ScMemory "k") = Some "q" ∧ si_payload <$> (st !! 1 ≫= sync_get ScMemory "k") = Some "p".
Proof. vm_compute. split; reflexivity. Qed.

(** ** The version vector *)

(** The version vector answers the revision held at a key. *)
Lemma version_vector_get s sc k : set_wf s → version_vector s !! (sc, k) = si_rev <$> sync_get sc k s.
Proof.
  intros Hwf. unfold version_vector.
  assert (Hgen : ∀ vv : gmap (SyncScope * string) N, (∀ i, i ∈ s → vv !! key_of i = None) →
    foldl (λ vv i, <[(si_scope i, si_key i) := N.max (default 0%N (vv !! (si_scope i, si_key i))) (si_rev i)]> vv) vv s !! (sc, k) =
    match sync_get sc k s with Some i => Some (si_rev i) | None => vv !! (sc, k) end).
  { induction s as [|i s IH]; intros vv Hvv; [done|]. cbn [foldl]. unfold set_wf in Hwf. rewrite fmap_cons in Hwf.
    apply NoDup_cons in Hwf as [Hi Hwf]. rewrite IH; [|done|].
    - rewrite get_cons. pose proof (Hvv i ltac:(by left)) as Hn. unfold key_of in Hn. rewrite Hn. cbn [default]. rewrite N.max_0_l.
      destruct (decide (key_of i = (sc, k))) as [E|E].
      + destruct (sync_get sc k s) as [x'|] eqn:Hx.
        * apply get_some in Hx as [Hin Hk]. destruct Hi. apply list_elem_of_fmap. exists x'. split; [congruence|done].
        * unfold key_of in E. by rewrite E, lookup_insert_eq.
      + destruct (sync_get sc k s); [done|]. by rewrite lookup_insert_ne.
    - intros y Hy. rewrite lookup_insert_ne; [apply Hvv; by right|]. intros E. apply Hi, list_elem_of_fmap. by exists y. }
  rewrite Hgen; [by destruct (sync_get sc k s)|]. intros i _. apply lookup_empty.
Qed.

(** ** Instances and witnesses *)

#[local] Instance sync_item_countable : Countable SyncItem.
Proof.
  apply (inj_countable' (λ i, (si_scope i, si_key i, si_rev i, si_tombstone i, si_ts_ms i, si_payload i))
    (λ '(a, b, c, d, e, f), Build_SyncItem a b c d e f)). by intros [].
Defined.
#[local] Instance envelope_eq_dec : EqDecision SyncEnvelope.
Proof. solve_decision. Defined.
#[local] Instance envelope_countable : Countable SyncEnvelope.
Proof.
  apply (inj_countable' (λ e, (se_magic e, se_version e, se_sender_device e, se_scope e, se_nonce e, se_ciphertext e))
    (λ '(a, b, c, d, e, f), Build_SyncEnvelope a b c d e f)). by intros [].
Defined.
#[local] Instance hello_eq_dec : EqDecision SyncHello.
Proof. solve_decision. Defined.
#[local] Instance hello_countable : Countable SyncHello.
Proof. apply (inj_countable' (λ h, (sh_device_id h, sh_public_key h)) (λ '(a, b), Build_SyncHello a b)). by intros []. Defined.
#[local] Instance auth_eq_dec : EqDecision AuthFrame.
Proof. solve_decision. Defined.
#[local] Instance auth_countable : Countable AuthFrame.
Proof. apply (inj_countable' (λ h, (af_type h, af_password h)) (λ '(a, b), Build_AuthFrame a b)). by intros []. Defined.

#[local] Instance bit_json : SyncJson := {|
  set_json s := enumerate (A := list SyncItem) s; set_of_json := enumerated (A := list SyncItem);
  envelope_json e := enumerate e; envelope_of_json := enumerated;
  hello_json h := enumerate h; hello_of_json := enumerated;
  auth_json a := enumerate a; auth_of_json := enumerated
|}.
#[local] Instance bit_json_laws : SyncJsonLaws.
Proof. constructor; intros; apply enumerated_enumerate. Qed.

(** A cipher that keeps key, nonce and associated data beside the text. *)
#[local] Instance open_cipher : Aead := {|
  aead_encrypt k n p a := Ok (enumerate (k, n, a, p));
  aead_decrypt k n ct a :=
    match enumerated (A := string * string * string * string) ct with
    | Ok (k', n', a', p) => if bool_decide ((k, n, a) = (k', n', a')) then Some p else None
    | Err _ => None
    end
|}.
#[local] Instance open_cipher_laws : AeadLaws.
Proof.
  constructor.
  - intros k n p a ct [= <-]. cbn [aead_decrypt open_cipher]. rewrite enumerated_enumerate. by rewrite bool_decide_true.
  - intros k n p a ct a' [= <-] Hne. cbn [aead_decrypt open_cipher]. rewrite enumerated_enumerate.
    rewrite bool_decide_false; [done|]. congruence.
Qed.

(** A key agreement without a secret: the two public keys in their order. *)
Definition pad32 (s : string) : string := String.substring 0 32 (s +:+ "................................").
Lemma substring_length n s : n ≤ String.length s → String.length (String.substring 0 n s) = n.
Proof. revert s. induction n as [|n IH]; intros [|c s] Hn; simpl in *; [done|done|lia|]. by rewrite IH by lia. Qed.
#[local] Instance plain_agreement : X25519 := {|
  x_public := pad32;
  x_shared s p := if str_le (pad32 s) p then pad32 s +:+ p else p +:+ pad32 s
|}.
#[local] Instance plain_agreement_laws : X25519Laws.
Proof.
  constructor.
  - intros s. apply substring_length. rewrite string_length_app. simpl. lia.
  - intros a b. cbn [x_shared x_public plain_agreement].
    destruct (str_le (pad32 a) (pad32 b)) eqn:E1, (str_le (pad32 b) (pad32 a)) eqn:E2; try done.
    + by rewrite (str_le_antisym _ _ E1 E2).
    + destruct (str_le_total (pad32 a) (pad32 b)); congruence.
Qed.
#[local] Existing Instance plain_digest.

Definition laptop : SyncSession :=
  {| sn_device_id := "laptop"; sn_set := [item_live_at ScMemory "a" 2 10 "x"; item_live_at ScMemory "b" 1 3 "y"]; sn_key := "k" |}.
Definition phone : SyncSession :=
  {| sn_device_id := "phone"; sn_set := [item_live_at ScMemory "a" 1 12 "z"; item_tombstone_at ScMessages "m" 4 9]; sn_key := "k" |}.
Definition nonce_of (c : ascii) : string := String c "..........." .

Ltac distinct_keys := unfold set_wf; apply (bool_decide_unpack _); vm_compute; exact I.


Lemma laptop_wf : set_wf (sn_set laptop).
Proof. distinct_keys. Qed.
Lemma phone_wf : set_wf (sn_set phone).
Proof. distinct_keys. Qed.

Lemma exchange_settles_or_reports_witness :
  (λ i, (si_rev i, si_payload i)) <$> sync_get ScMemory "a" (reconcile_with (sn_set laptop) (sn_set phone)).2 =
  (λ i, (si_rev i, si_payload i)) <$> sync_get ScMemory "a" (reconcile_with (sn_set phone) (sn_set laptop)).2.
Proof.
  apply (exchange_settles_or_reports (sn_set laptop) (sn_set phone) ScMemory "a" laptop_wf phone_wf).
  intros (y & z & Hy & Hz & Hr & _). injection Hy as <-. injection Hz as <-. discriminate Hr.
Defined.

Lemma header_aad_pins_the_header_witness : ScMemory = ScMemory.
Proof.
  apply (header_aad_pins_the_header (bare_envelope "laptop" ScMemory) (bare_envelope "laptop" ScMemory));
    [split; [reflexivity|vm_compute; reflexivity]|split; [reflexivity|vm_compute; reflexivity]|reflexivity].
Defined.

Definition greeting : SyncEnvelope :=
  match seal_envelope "k" (nonce_of "1") "laptop" ScMemory "hello" with Ok e => e | Err _ => bare_envelope "" ScMemory end.
Lemma sealed_header_is_authentic_witness :
  open_envelope "k" greeting (Some "laptop") = Ok "hello" ∧
  ∃ e, open_envelope "k" (set_header SYNC_MAGIC 1 "phone" ScMemory greeting) (Some "phone") = Err e.
Proof.
  destruct (sealed_header_is_authentic "k" (nonce_of "1") "laptop" ScMemory "hello" greeting SYNC_MAGIC 1 "phone" ScMemory
    (Some "phone")) as [H1 H2].
  - vm_compute. reflexivity.
  - reflexivity.
  - reflexivity.
  - reflexivity.
  - split; [exact H1|]. apply H2. vm_compute. discriminate.
Defined.

Definition laptop_messages := messages "l" (nonce_of "1") (nonce_of "2") laptop "phone" (pad32 "p").
Definition phone_messages := messages "p" (nonce_of "3") (nonce_of "4") phone "laptop" (pad32 "l").
Definition smallb (m : string) : bool := (byte_len m <=? MAX_FRAME_BYTES)%N.
Lemma small_messages (r : result (string * string * string) SyncError) m : r = Ok m → match r with Ok m => smallb m.1.1 && smallb m.1.2 && smallb m.2 | Err _ => false end = true →
  all_small m.
Proof. intros ->. intros [[H1%N.leb_le H2%N.leb_le]%andb_prop H3%N.leb_le]%andb_prop. by split_and!. Qed.
Lemma exchange_completes_witness : match laptop_messages, phone_messages with
  | Ok ma, Ok mb => ∃ oa ob, eo_applied oa = eo_pushed ob ∧
      (run_exchange "l" (nonce_of "1") (nonce_of "2") laptop {| w_in := transcript mb; w_out := ""; w_writes := [] |}).1 =
      Ok (oa, with_set (reconcile_with (sn_set laptop) (sn_set phone)).2 laptop)
  | _, _ => False
  end.
Proof.
  assert (Oa : is_ok laptop_messages = true) by (vm_compute; reflexivity).
  assert (Ob : is_ok phone_messages = true) by (vm_compute; reflexivity).
  destruct laptop_messages as [ma|] eqn:Ha; [|discriminate Oa]. destruct phone_messages as [mb|] eqn:Hb; [|discriminate Ob].
  assert (Sa : all_small ma) by (apply (small_messages laptop_messages); [exact Ha|vm_compute; reflexivity]).
  assert (Sb : all_small mb) by (apply (small_messages phone_messages); [exact Hb|vm_compute; reflexivity]).
  destruct (exchange_completes "l" "p" (nonce_of "1") (nonce_of "2") (nonce_of "3") (nonce_of "4") laptop phone ma mb
    Ha Sa Hb Sb ltac:(repeat constructor)) as (oa & ob & Ra & _ & _ & _ & E & _).
  exists oa, ob. split; [exact E|]. by rewrite Ra.
Defined.

Definition gated_stream : Wire :=
  {| w_in := frame (auth_json {| af_type := "auth"; af_password := "pw" |}) +:+
             match phone_messages with Ok m => transcript m | Err _ => "" end; w_out := ""; w_writes := [] |}.
Lemma gate_admits_password_only_witness :
  ∃ raw w', read_frame gated_stream = (Ok raw, w') ∧ auth_of_json raw = Ok {| af_type := "auth"; af_password := "pw" |}.
Proof.
  apply (gate_admits_password_only "pw" "l" (nonce_of "1") (nonce_of "2") (laptop, []) gated_stream).
  assert (Hn : length (serve_connection (Some "pw") "l" (nonce_of "1") (nonce_of "2") (laptop, []) gated_stream).1.2 = 1)
    by (vm_compute; reflexivity).
  intros E. rewrite E in Hn. discriminate Hn.
Defined.

Definition exported := export_to (nonce_of "1") laptop.
Lemma bundle_round_trips_witness : match exported with
  | Ok (env, file) => ∃ d s, import_from (Ok file) phone = Ok (d, s) ∧ length (df_apply d) = 2
  | Err _ => False
  end.
Proof.
  assert (Oe : is_ok exported = true) by (vm_compute; reflexivity).
  destruct exported as [[env file]|] eqn:E; [|discriminate Oe].
  destruct (bundle_round_trips (nonce_of "1") laptop phone env file E eq_refl eq_refl laptop_wf) as [H _].
  do 2 eexists. split; [exact H|reflexivity].
Defined.
