(* ===== verification/TurnSnapshot.v ===== *)
(** * Turn snapshots: capture, rollback and pruning of a step's files

    [everyaios-core/src/turn_snapshot.rs] with [file_undo.rs] and the effect
    receipt of [everyaios-audit/src/receipt.rs], over the Work gateway's journal
    of change sets and the path floor. The disk is a map from files to nodes;
    [file_of] says which file a path names (two paths may name one file; a path
    whose last part is a symbolic link is left out), and every operation takes
    the next fault from a list: an error, with what a failed write leaves behind. *)
From S2P Require Import Order Prelude.
From S2P Require Import Json Merkle Cron Paths PathFloor Lease LeaseTypes WorkTypes WorkEvents Work WorkDelegation.

(** ** The disk *)

Inductive Node := NFile (bytes : string) | NDir.
#[export] Instance node_eq_dec : EqDecision Node.
Proof. solve_decision. Defined.

(** Which file a path names. *)
Class Files := { file_of : string → string }.

(** [io::ErrorKind], as far as the code tells them apart. *)
Inductive IoError := IoNotFound | IoOther (message : string).
Definition io_text (e : IoError) : string :=
  match e with IoNotFound => "No such file or directory (os error 2)" | IoOther m => m end.

(** An operation that fails (for another reason than a missing file), and what
    a failed write leaves in the file. *)
Record Fault := { ft_error : string; ft_left : option string }.
Record DiskState := { dk_nodes : gmap string Node; dk_faults : list (option Fault) }.
Definition set_nodes (n : gmap string Node) (d : DiskState) : DiskState :=
  {| dk_nodes := n; dk_faults := dk_faults d |}.

(** ** Errors, requests and outcomes *)

(* SRC core/src/turn_snapshot.rs @enum:TurnSnapshotError TurnSnapshotError *)
Inductive TurnSnapshotError :=
  | TsPathFloor (path : string) (verdict : FloorVerdict)
  | TsNotAFile (path : string)
  | TsRead (path source : string)
  | TsWritePreImage (path source : string)
  | TsRestore (path source : string)
  | TsAlreadySettled (id : string)
  | TsSetNotRecorded (work_id step_id : string)
  | TsPreImageUnusable (path : string)
  | TsRestoreUnverified (change_set_id : string) (failed : list string)
  | TsJournal (e : string).

(* SRC core/src/turn_snapshot.rs @struct:CaptureTarget CaptureTarget *)
Record CaptureTarget := { ct_path : string; ct_lease : option LeaseAttachment }.
(* SRC core/src/turn_snapshot.rs @struct:CaptureRequest CaptureRequest *)
Record CaptureRequest := {
  cr_work_id : string;
  cr_step_id : string;
  cr_session_id : option string;
  cr_files : list CaptureTarget;
  cr_now_ms : N
}.

(* SRC audit/src/receipt.rs @struct:EffectReceipt EffectReceipt *)
Record EffectReceipt := {
  er_effect_id : string;
  er_tool_id : string;
  er_ticket_id : string;
  er_args_hash : string;
  er_requested : string;
  er_authorized : string;
  er_resource : option string;
  er_before_ref : option string;
  er_after_ref : option string;
  er_diff : option string;
  er_rollback_ref : option string;
  er_has_gap : bool;
  er_uncertainty : option string
}.
(* SRC audit/src/receipt.rs @fn:new EffectReceipt::new *)
Definition effect_receipt_new (effect_id tool_id ticket_id args_hash requested authorized : string) : EffectReceipt :=
  {| er_effect_id := effect_id; er_tool_id := tool_id; er_ticket_id := ticket_id; er_args_hash := args_hash;
     er_requested := requested; er_authorized := authorized; er_resource := None; er_before_ref := None;
     er_after_ref := None; er_diff := None; er_rollback_ref := None; er_has_gap := false; er_uncertainty := None |}.
(** [with_resource] and [with_rollback]. *)
(* SRC audit/src/receipt.rs 115 132 EffectReceipt::with_resource *)
Definition with_handles (resource rollback : string) (r : EffectReceipt) : EffectReceipt :=
  {| er_effect_id := er_effect_id r; er_tool_id := er_tool_id r; er_ticket_id := er_ticket_id r;
     er_args_hash := er_args_hash r; er_requested := er_requested r; er_authorized := er_authorized r;
     er_resource := Some resource; er_before_ref := er_before_ref r; er_after_ref := er_after_ref r;
     er_diff := er_diff r; er_rollback_ref := Some rollback; er_has_gap := er_has_gap r;
     er_uncertainty := er_uncertainty r |}.
(* SRC audit/src/receipt.rs @fn:gap EffectReceipt::gap *)
Definition receipt_gap (reason : string) (r : EffectReceipt) : EffectReceipt :=
  {| er_effect_id := er_effect_id r; er_tool_id := er_tool_id r; er_ticket_id := er_ticket_id r;
     er_args_hash := er_args_hash r; er_requested := er_requested r; er_authorized := er_authorized r;
     er_resource := er_resource r; er_before_ref := er_before_ref r; er_after_ref := er_after_ref r;
     er_diff := er_diff r; er_rollback_ref := er_rollback_ref r; er_has_gap := true; er_uncertainty := Some reason |}.

(** The kind and the payload of the audit event. *)
Record RollbackEvent := { re_kind : string; re_payload : Value }.
(* SRC core/src/turn_snapshot.rs @struct:RollbackOutcome RollbackOutcome *)
Record RollbackOutcome := {
  ro_change_set_id : string;
  ro_outcome : ChangeSetOutcome;
  ro_restored : list string;
  ro_deleted : list string;
  ro_failed : list string;
  ro_receipt : EffectReceipt;
  ro_audit_event : RollbackEvent
}.

(** ** Computations over the gateway, the disk and the audit *)

Record SnapState := { sp_gateway : WorkGateway; sp_disk : DiskState; sp_audit : list RollbackEvent }.
Definition with_disk (d : DiskState) (s : SnapState) : SnapState :=
  {| sp_gateway := sp_gateway s; sp_disk := d; sp_audit := sp_audit s |}.

Definition Snap A := SnapState → result A TurnSnapshotError * SnapState.
Definition snap_ret {A} (a : A) : Snap A := λ s, (Ok a, s).
Definition snap_fail {A} (e : TurnSnapshotError) : Snap A := λ s, (Err e, s).
Definition snap_bind {A B} (m : Snap A) (k : A → Snap B) : Snap B := λ s,
  match m s with (Ok a, s') => k a s' | (Err e, s') => (Err e, s') end.
Notation "x <-p m ;; k" := (snap_bind m (λ x, k)) (at level 100, m at next level, right associativity).

(** A gateway operation; its refusal is a [Journal] error. *)
Definition journal {A} (m : M A) : Snap A := λ s,
  let '(r, g) := m (sp_gateway s) in
  (match r with Ok a => Ok a | Err e => Err (TsJournal e) end,
   {| sp_gateway := g; sp_disk := sp_disk s; sp_audit := sp_audit s |}).

(** An operation of the disk: its result is a value, never an early return. *)
Definition Op A := DiskState → result A IoError * DiskState.
Definition attempt {A} (op : Op A) : Snap (result A IoError) := λ s,
  let '(r, d) := op (sp_disk s) in (Ok r, with_disk d s).
Definition or_raise {A} (f : string → TurnSnapshotError) (op : Op A) : Snap A :=
  r <-p attempt op;; match r with Ok a => snap_ret a | Err e => snap_fail (f (io_text e)) end.

(** Take the next fault. *)
Definition with_fault {A} (on_fault : Fault → gmap string Node → gmap string Node)
    (run : gmap string Node → result A IoError * gmap string Node) : Op A := λ d,
  match dk_faults d with
  | Some f :: fs => (Err (IoOther (ft_error f)), {| dk_nodes := on_fault f (dk_nodes d); dk_faults := fs |})
  | None :: fs => let '(r, n) := run (dk_nodes d) in (r, {| dk_nodes := n; dk_faults := fs |})
  | [] => let '(r, n) := run (dk_nodes d) in (r, {| dk_nodes := n; dk_faults := [] |})
  end.
Definition untouched : Fault → gmap string Node → gmap string Node := λ _ n, n.

Section snapshot.
Context {fs : Fs} {files : Files} {sha : Sha256} {dbg : StrDebug} {iter : HashIter}.
Context {rf : RenderFact} {rc : RenderChangeSet} {ww : WorkWorld}.

(** The directories above a path, nearest first. *)
Fixpoint parents (fuel : nat) (path : string) : list string :=
  match fuel with
  | O => []
  | S fuel => match path_parent path with Some p => p :: parents fuel p | None => [] end
  end.
Definition ancestors (path : string) : list string := parents (String.length path) path.
(** A regular file stands where a directory is needed: every call on a path
    below it is refused. A directory that is made is no node of its own. *)
Definition is_regular (x : option Node) : bool := match x with Some (NFile _) => true | _ => false end.
Definition blocked (n : gmap string Node) (dirs : list string) : bool := existsb (λ p, is_regular (n !! file_of p)) dirs.
Definition not_a_directory : IoError := IoOther "Not a directory (os error 20)".
(** [symlink_metadata]: a directory, a file, or absent. *)
Definition op_stat (path : string) : Op (option bool) :=
  with_fault untouched (λ n, (if blocked n (ancestors path) then Err not_a_directory
                              else Ok ((λ x, match x with NDir => true | NFile _ => false end) <$> n !! file_of path), n)).
(** [fs::read]. *)
Definition op_read (path : string) : Op string :=
  with_fault untouched (λ n, (if blocked n (ancestors path) then Err not_a_directory
                              else match n !! file_of path with
                                   | Some (NFile b) => Ok b
                                   | Some NDir => Err (IoOther "is a directory")
                                   | None => Err IoNotFound end, n)).
(** A write of [bytes] as the whole content, with what a fault leaves. *)
Definition op_write (path bytes : string) : Op unit :=
  with_fault (λ f n, match ft_left f with Some b => <[file_of path := NFile b]> n | None => n end)
    (λ n, if blocked n (ancestors path) then (Err not_a_directory, n)
          else match n !! file_of path with
               | Some NDir => (Err (IoOther "is a directory"), n)
               | _ => (Ok tt, <[file_of path := NFile bytes]> n)
               end).
Definition op_sync (path : string) : Op unit := with_fault untouched (λ n, (Ok tt, n)).
(** [create_dir_all] of the first of [dirs], the others being the directories
    above it: it is refused if one of them is a regular file. *)
Definition op_create_dirs (dirs : list string) : Op unit :=
  with_fault untouched (λ n, (if blocked n dirs then Err not_a_directory else Ok tt, n)).
(** [remove_file]. *)
Definition op_remove (path : string) : Op unit :=
  with_fault untouched (λ n, if blocked n (ancestors path) then (Err not_a_directory, n)
                             else match n !! file_of path with
                                  | Some (NFile _) => (Ok tt, delete (file_of path) n)
                                  | Some NDir => (Err (IoOther "is a directory"), n)
                                  | None => (Err IoNotFound, n)
                                  end).

Definition op_bind {A B} (m : Op A) (k : A → Op B) : Op B := λ d,
  match m d with (Ok a, d') => k a d' | (Err e, d') => (Err e, d') end.

(* SRC core/src/file_undo.rs @fn:restore_file_to_bytes restore_file_to_bytes *)
Definition restore_file_to_bytes (path : string) (before : option string) : Op unit :=
  match before with
  | Some bytes =>
      op_bind (match path_parent path with Some _ => op_create_dirs (ancestors path) | None => λ d, (Ok tt, d) end)
        (λ _, op_write path bytes)
  | None => λ d,
      match op_remove path d with
      | (Err IoNotFound, d') => (Ok tt, d')
      | r => r
      end
  end.

(** ** The store *)

(* SRC core/src/turn_snapshot.rs @const:SNAPSHOT_DIR SNAPSHOT_DIR *)
Definition SNAPSHOT_DIR : string := "snapshots".
(* SRC core/src/turn_snapshot.rs @struct:TurnSnapshotStore TurnSnapshotStore *)
Record TurnSnapshotStore := { st_root : string; st_workspace : string }.

(* SRC core/src/turn_snapshot.rs @fn:new#1 TurnSnapshotStore::new *)
Definition snapshot_store_new (data_dir workspace : string) : TurnSnapshotStore :=
  {| st_root := path_join data_dir SNAPSHOT_DIR; st_workspace := workspace |}.

(* SRC core/src/turn_snapshot.rs @fn:floor TurnSnapshotStore::floor *)
Definition floor (self : TurnSnapshotStore) (path : string) : result string TurnSnapshotError :=
  let joined := path_join (st_workspace self) path in
  match enforce_floor joined [st_workspace self] with
  | FAllowed => Ok joined
  | other => Err (TsPathFloor path other)
  end.
Definition floored (self : TurnSnapshotStore) (path : string) : Snap string := λ s, (floor self path, s).

(* SRC core/src/turn_snapshot.rs @fn:step_dir TurnSnapshotStore::step_dir *)
Definition step_dir (self : TurnSnapshotStore) (work_id step_id : string) : string :=
  path_join (path_join (st_root self) work_id) step_id.

(** [format!("{index:04}.blob")]. *)
Definition blob_name (index : nat) : string :=
  let n := pretty (N.of_nat index) in
  String.substring 0 (4 - String.length n) "0000" +:+ n +:+ ".blob".

(** Each path floored, none twice. *)
Fixpoint check_targets (self : TurnSnapshotStore) (seen : list string) (l : list CaptureTarget) : result unit TurnSnapshotError :=
  match l with
  | [] => Ok tt
  | t :: l' =>
      canonical <-? floor self (ct_path t);;
      if existsb (String.eqb canonical) seen then
        Err (TsJournal ("change set names `" +:+ canonical +:+ "` twice"))
      else check_targets self (seen ++ [canonical]) l'
  end.

(** The pre-image of one target, written and synced. *)
Definition capture_entry (self : TurnSnapshotStore) (dir : string) (index : nat) (t : CaptureTarget) : Snap FileSnapshotEntry :=
  canonical <-p floored self (ct_path t);;
  stat <-p or_raise (TsRead canonical) (op_stat canonical);;
  match stat with
  | Some true => snap_fail (TsNotAFile canonical)
  | Some false =>
      bytes <-p or_raise (TsRead canonical) (op_read canonical);;
      let blob_path := path_join dir (blob_name index) in
      _ <-p or_raise (TsWritePreImage blob_path) (op_write blob_path "");;
      _ <-p or_raise (TsWritePreImage blob_path) (op_write blob_path bytes);;
      _ <-p or_raise (TsWritePreImage blob_path) (op_sync blob_path);;
      snap_ret {| fe_path := canonical; fe_capture := CkBytes; fe_pre_digest := sha256_hex bytes;
                  fe_pre_len := N.of_nat (String.length bytes); fe_blob := Some (blob_name index);
                  fe_lease := ct_lease t |}
  | None =>
      snap_ret {| fe_path := canonical; fe_capture := CkAbsentMarker; fe_pre_digest := ""; fe_pre_len := 0;
                  fe_blob := None; fe_lease := ct_lease t |}
  end.
Fixpoint capture_entries (self : TurnSnapshotStore) (dir : string) (index : nat) (l : list CaptureTarget)
    : Snap (list FileSnapshotEntry) :=
  match l with
  | [] => snap_ret []
  | t :: l' =>
      e <-p capture_entry self dir index t;;
      es <-p capture_entries self dir (S index) l';;
      snap_ret (e :: es)
  end.

(* SRC core/src/turn_snapshot.rs @fn:capture TurnSnapshotStore::capture *)
Definition capture (self : TurnSnapshotStore) (request : CaptureRequest) : Snap TurnChangeSet :=
  match cr_files request with
  | [] => snap_fail (TsJournal "a change set must name at least one file")
  | l =>
      _ <-p (λ s, (check_targets self [] l, s));;
      let dir := step_dir self (cr_work_id request) (cr_step_id request) in
      _ <-p or_raise (TsWritePreImage dir) (op_create_dirs (dir :: ancestors dir));;
      entries <-p capture_entries self dir 0 l;;
      let change_set :=
        {| cs_change_set_id := change_set_id_for (cr_work_id request) (cr_step_id request);
           cs_work_id := cr_work_id request; cs_step_id := cr_step_id request; cs_session_id := cr_session_id request;
           cs_captured_at_ms := cr_now_ms request; cs_entries := entries; cs_outcome := None;
           cs_settled_at_ms := None; cs_reason := None |} in
      _ <-p (λ s, (match change_set_validate change_set with Ok _ => Ok tt | Err e => Err (TsJournal e) end, s));;
      _ <-p journal (record_file_change_set change_set);;
      snap_ret change_set
  end.

(* SRC core/src/turn_snapshot.rs @fn:pre_image TurnSnapshotStore::pre_image *)
Definition pre_image (self : TurnSnapshotStore) (c : TurnChangeSet) (e : FileSnapshotEntry) : Snap string :=
  match fe_blob e with
  | None => snap_fail (TsPreImageUnusable (fe_path e))
  | Some name =>
      bytes <-p or_raise (λ _, TsPreImageUnusable (fe_path e))
                  (op_read (path_join (step_dir self (cs_work_id c) (cs_step_id c)) name));;
      if String.eqb (sha256_hex bytes) (fe_pre_digest e) then snap_ret bytes
      else snap_fail (TsPreImageUnusable (fe_path e))
  end.

(** The value of a computation that may fail, kept. *)
Definition kept {A} (m : Snap A) : Snap (result A TurnSnapshotError) := λ s, let '(r, s') := m s in (Ok r, s').

(** Phase 1: the known pre-images, and the paths that have none. *)
Fixpoint preflight (self : TurnSnapshotStore) (c : TurnChangeSet) (es : list FileSnapshotEntry)
    : Snap (list (FileSnapshotEntry * option string) * list string) :=
  match es with
  | [] => snap_ret ([], [])
  | e :: es' =>
      if undo_deletes e then
        rest <-p preflight self c es';; snap_ret ((e, None) :: rest.1, rest.2)
      else
        r <-p kept (pre_image self c e);;
        rest <-p preflight self c es';;
        match r with
        | Ok bytes => snap_ret ((e, Some bytes) :: rest.1, rest.2)
        | Err _ => snap_ret (rest.1, fe_path e :: rest.2)
        end
  end.

(** Phase 2: what was written back or deleted, and the paths that were not. A
    floor refusal ends the loop there. *)
Fixpoint apply_images (self : TurnSnapshotStore) (l : list (FileSnapshotEntry * option string))
    : Snap (list FileSnapshotEntry * list string) :=
  match l with
  | [] => snap_ret ([], [])
  | (e, bytes) :: l' =>
      target <-p floored self (fe_path e);;
      r <-p attempt (restore_file_to_bytes target bytes);;
      rest <-p apply_images self l';;
      match r with
      | Ok _ => snap_ret (e :: rest.1, rest.2)
      | Err _ => snap_ret (rest.1, fe_path e :: rest.2)
      end
  end.

(** [Path::exists]: an error is no. *)
Definition exists_now (path : string) : Snap bool :=
  r <-p attempt (op_stat path);;
  snap_ret (match r with Ok (Some _) => true | _ => false end).

Record Verified := { vf_restored : list string; vf_deleted : list string; vf_failed : list string }.
(** Phase 3: every applied file is read again. *)
Fixpoint verify_images (self : TurnSnapshotStore) (l : list FileSnapshotEntry) : Snap Verified :=
  match l with
  | [] => snap_ret {| vf_restored := []; vf_deleted := []; vf_failed := [] |}
  | e :: l' =>
      target <-p floored self (fe_path e);;
      if undo_deletes e then
        there <-p exists_now target;;
        v <-p verify_images self l';;
        snap_ret (if (there : bool)
                  then {| vf_restored := vf_restored v; vf_deleted := vf_deleted v; vf_failed := fe_path e :: vf_failed v |}
                  else {| vf_restored := vf_restored v; vf_deleted := fe_path e :: vf_deleted v; vf_failed := vf_failed v |})
      else
        r <-p attempt (op_read target);;
        v <-p verify_images self l';;
        snap_ret (if match r with Ok bytes => String.eqb (sha256_hex bytes) (fe_pre_digest e) | Err _ => false end
                  then {| vf_restored := fe_path e :: vf_restored v; vf_deleted := vf_deleted v; vf_failed := vf_failed v |}
                  else {| vf_restored := vf_restored v; vf_deleted := vf_deleted v; vf_failed := fe_path e :: vf_failed v |})
  end.

Definition list_debug (l : list string) : string := "[" +:+ join ", " (str_debug <$> l) +:+ "]".

(* SRC core/src/turn_snapshot.rs @fn:build_receipt TurnSnapshotStore::build_receipt *)
Definition build_receipt (settled : TurnChangeSet) (reason : string) (failed : list string) : EffectReceipt :=
  let what := "restore " +:+ pretty (N.of_nat (length (cs_entries settled))) +:+ " file(s) to their pre-mutation state" in
  let receipt := with_handles (cs_change_set_id settled) (cs_change_set_id settled)
    (effect_receipt_new ("fcs-receipt:" +:+ cs_change_set_id settled) "turn.change_set.rollback" "n/a"
       (join "," (fe_pre_digest <$> cs_entries settled)) what what) in
  match failed with
  | [] => receipt
  | _ => receipt_gap ("restore unverified for " +:+ list_debug failed +:+ " (reason: " +:+ reason +:+ ")") receipt
  end.

(** What the three phases did. *)
Definition restore_set (self : TurnSnapshotStore) (recorded : TurnChangeSet) : Snap Verified :=
  p <-p preflight self recorded (cs_entries recorded);;
  match p.2 with
  | _ :: _ => snap_ret {| vf_restored := []; vf_deleted := []; vf_failed := p.2 |}
  | [] =>
      a <-p apply_images self p.1;;
      v <-p verify_images self a.1;;
      snap_ret {| vf_restored := vf_restored v; vf_deleted := vf_deleted v; vf_failed := a.2 ++ vf_failed v |}
  end.

Definition settle_as (outcome : ChangeSetOutcome) (now_ms : N) (c : TurnChangeSet) : TurnChangeSet :=
  {| cs_change_set_id := cs_change_set_id c; cs_work_id := cs_work_id c; cs_step_id := cs_step_id c;
     cs_session_id := cs_session_id c; cs_captured_at_ms := cs_captured_at_ms c; cs_entries := cs_entries c;
     cs_outcome := Some outcome; cs_settled_at_ms := Some now_ms; cs_reason := cs_reason c |}.

Definition count_if {A} (f : A → bool) (l : list A) : Value := json_u64 (N.of_nat (length (List.filter f l))).
Definition rollback_event (settled : TurnChangeSet) (outcome : ChangeSetOutcome) (v : Verified) (now_ms : N) : RollbackEvent :=
  {| re_kind := "work.file_change_set.rolled_back";
     re_payload := json_object
       [("outcome", JString (change_outcome_as_str outcome)); ("changeSetId", JString (cs_change_set_id settled));
        ("workId", JString (cs_work_id settled)); ("stepId", JString (cs_step_id settled));
        ("files", json_u64 (N.of_nat (length (cs_entries settled))));
        ("restored", json_u64 (N.of_nat (length (vf_restored v))));
        ("deleted", json_u64 (N.of_nat (length (vf_deleted v))));
        ("failed", JArray (JString <$> vf_failed v));
        ("leaseCovered", count_if (λ e, is_some (fe_lease e)) (cs_entries settled));
        ("leaseNone", count_if (λ e, negb (is_some (fe_lease e))) (cs_entries settled));
        ("atMs", json_u64 now_ms)] |}.
Definition record_audit (e : RollbackEvent) : Snap unit := λ s,
  (Ok tt, {| sp_gateway := sp_gateway s; sp_disk := sp_disk s; sp_audit := sp_audit s ++ [e] |}).

(* SRC core/src/turn_snapshot.rs @fn:rollback TurnSnapshotStore::rollback *)
Definition rollback (self : TurnSnapshotStore) (work_id step_id reason : string) (now_ms : N) : Snap RollbackOutcome := λ s,
  match file_change_set work_id step_id (sp_gateway s) with
  | None => (Err (TsSetNotRecorded work_id step_id), s)
  | Some recorded =>
      if negb (change_set_is_open recorded) then (Err (TsAlreadySettled (cs_change_set_id recorded)), s)
      else
        (v <-p restore_set self recorded;;
         let outcome := match vf_failed v with [] => CoRolledBack | _ => CoUncertain end in
         let settled := settle_as outcome now_ms recorded in
         _ <-p journal (settle_file_change_set settled (Some reason));;
         let receipt := build_receipt settled reason (vf_failed v) in
         let event := rollback_event settled outcome v now_ms in
         _ <-p record_audit event;;
         match vf_failed v with
         | _ :: _ => snap_fail (TsRestoreUnverified (cs_change_set_id settled) (vf_failed v))
         | [] => snap_ret {| ro_change_set_id := cs_change_set_id settled; ro_outcome := outcome;
                             ro_restored := vf_restored v; ro_deleted := vf_deleted v; ro_failed := vf_failed v;
                             ro_receipt := receipt; ro_audit_event := event |}
         end) s
  end.

(** The files of a directory, in the order [read_dir] gives them. *)
Definition files_in (dir : string) (n : gmap string Node) : list string :=
  (List.filter (λ e, bool_decide (path_parent e.1 = Some (file_of dir))) (map_iter n)).*1.
Definition op_remove_key (key : string) : Op unit :=
  with_fault untouched (λ n, match n !! key with
                             | Some (NFile _) => (Ok tt, delete key n)
                             | _ => (Err (IoOther "is a directory"), n) end).
Fixpoint remove_all (keys : list string) : Snap nat :=
  match keys with
  | [] => snap_ret 0
  | k :: keys' =>
      r <-p attempt (op_remove_key k);;
      n <-p remove_all keys';;
      snap_ret (match r with Ok _ => S n | Err _ => n end)
  end.

(* SRC core/src/turn_snapshot.rs @fn:prune TurnSnapshotStore::prune *)
Definition prune_pre_images (self : TurnSnapshotStore) (work_id step_id : string) : Snap nat := λ s,
  match file_change_set work_id step_id (sp_gateway s) with
  | None => (Err (TsSetNotRecorded work_id step_id), s)
  | Some recorded =>
      if change_set_is_open recorded then
        (Err (TsJournal ("change set `" +:+ cs_change_set_id recorded +:+
                         "` is still open; refusing to drop its pre-images")), s)
      else
        let dir := step_dir self work_id step_id in
        (listing <-p attempt (with_fault untouched (λ n, (Ok (files_in dir n), n)));;
         match listing with Ok keys => remove_all keys | Err _ => snap_ret 0 end) s
  end.
End snapshot.
