(* ===== verification/TurnSnapshotFacts.v ===== *)
(** * What a turn snapshot guarantees

    Frames of the disk operations, the truth of a rolled-back verdict, what an
    unusable pre-image prevents, and the round trip of capture and rollback. *)
From S2P Require Import Order Prelude.
From S2P Require Import Json Merkle Cron Paths PathFloor Lease LeaseTypes WorkTypes WorkEvents Work WorkDelegation WorkFacts TurnSnapshot.

Section facts.
Context {fs : Fs} {files : Files} {sha : Sha256} {dbg : StrDebug} {iter : HashIter}.
Context {rf : RenderFact} {rc : RenderChangeSet} {ww : WorkWorld}.

Definition nodes (s : SnapState) : gmap string Node := dk_nodes (sp_disk s).

(** ** Frames *)

(** An operation that only looks. *)
Definition looks {A} (m : Snap A) : Prop := ∀ s,
  nodes (m s).2 = nodes s ∧ sp_gateway (m s).2 = sp_gateway s ∧ sp_audit (m s).2 = sp_audit s.

Lemma looks_ret {A} (a : A) : looks (snap_ret a).
Proof. done. Qed.
Lemma looks_fail {A} e : looks (@snap_fail A e).
Proof. done. Qed.
Lemma looks_bind {A B} (m : Snap A) (k : A → Snap B) : looks m → (∀ a, looks (k a)) → looks (snap_bind m k).
Proof.
  intros Hm Hk s. unfold snap_bind. destruct (Hm s) as (H1 & H2 & H3). destruct (m s) as [[a|e] s1]; [|done].
  destruct (Hk a s1) as (H4 & H5 & H6). simpl in *. split_and!; congruence.
Qed.
Lemma looks_attempt {A} (op : Op A) : (∀ d, dk_nodes (op d).2 = dk_nodes d) → looks (attempt op).
Proof. intros Hop s. unfold attempt. pose proof (Hop (sp_disk s)) as H. by destruct (op (sp_disk s)). Qed.
Lemma looks_raise {A} f (op : Op A) : (∀ d, dk_nodes (op d).2 = dk_nodes d) → looks (or_raise f op).
Proof. intros Hop. apply looks_bind; [by apply looks_attempt|]. intros [a|e]; [apply looks_ret|apply looks_fail]. Qed.
Lemma looks_floored self p : looks (floored self p).
Proof. done. Qed.
Lemma looks_kept {A} (m : Snap A) : looks m → looks (kept m).
Proof. intros Hm s. unfold kept. pose proof (Hm s). by destruct (m s). Qed.

Lemma read_nodes p d : dk_nodes (op_read p d).2 = dk_nodes d.
Proof. unfold op_read, with_fault. by destruct (dk_faults d) as [|[f|] l]. Qed.
Lemma stat_nodes p d : dk_nodes (op_stat p d).2 = dk_nodes d.
Proof. unfold op_stat, with_fault. by destruct (dk_faults d) as [|[f|] l]. Qed.
Lemma dirs_nodes p d : dk_nodes (op_create_dirs p d).2 = dk_nodes d.
Proof. unfold op_create_dirs, with_fault. by destruct (dk_faults d) as [|[f|] l]. Qed.
Lemma sync_nodes p d : dk_nodes (op_sync p d).2 = dk_nodes d.
Proof. unfold op_sync, with_fault. by destruct (dk_faults d) as [|[f|] l]. Qed.
Lemma read_ok p d b d' : op_read p d = (Ok b, d') → dk_nodes d !! file_of p = Some (NFile b) ∧ dk_nodes d' = dk_nodes d.
Proof.
  unfold op_read, with_fault. destruct (dk_faults d) as [|[f|] l]; [|done|];
    (destruct (blocked _ _); [done|]); destruct (dk_nodes d !! file_of p) as [[b'|]|]; try done; by intros [= <- <-].
Qed.

Lemma write_frame_disk p b d k : k ≠ file_of p → dk_nodes (op_write p b d).2 !! k = dk_nodes d !! k.
Proof.
  intros Hk. unfold op_write, with_fault. destruct (dk_faults d) as [|[f|] l]; simpl.
  - destruct (blocked _ _); [done|]. destruct (dk_nodes d !! file_of p) as [[]|]; simpl; by rewrite ?lookup_insert_ne.
  - destruct (ft_left f); simpl; by rewrite ?lookup_insert_ne.
  - destruct (blocked _ _); [done|]. destruct (dk_nodes d !! file_of p) as [[]|]; simpl; by rewrite ?lookup_insert_ne.
Qed.
Lemma remove_frame p d k : k ≠ file_of p → dk_nodes (op_remove p d).2 !! k = dk_nodes d !! k.
Proof.
  intros Hk. unfold op_remove, with_fault. destruct (dk_faults d) as [|[f|] l]; simpl; [|done|];
    (destruct (blocked _ _); [done|]); destruct (dk_nodes d !! file_of p) as [[]|]; simpl; by rewrite ?lookup_delete_ne.
Qed.
Lemma restore_frame p before d k : k ≠ file_of p → dk_nodes (restore_file_to_bytes p before d).2 !! k = dk_nodes d !! k.
Proof.
  intros Hk. destruct before as [b|]; simpl.
  - unfold op_bind. destruct (path_parent p) as [q|]; [|by apply write_frame_disk].
    pose proof (dirs_nodes (ancestors p) d) as Hq. destruct (op_create_dirs (ancestors p) d) as [[u|e] d1]; simpl in *; [|by rewrite Hq].
    by rewrite write_frame_disk, Hq.
  - pose proof (remove_frame p d k Hk) as Hr. destruct (op_remove p d) as [[u|e] d1]; [done|]. by destruct e.
Qed.

(** A successful removal leaves nothing; a successful write leaves the bytes. *)
Lemma restore_none p d d' : restore_file_to_bytes p None d = (Ok tt, d') → dk_nodes d' !! file_of p = None.
Proof.
  simpl. unfold op_remove, with_fault. destruct (dk_faults d) as [|[f|] l]; [|done|];
    (destruct (blocked _ _); [done|]); destruct (dk_nodes d !! file_of p) as [[]|] eqn:E; simpl; try done; intros [= <-]; simpl;
    by rewrite ?lookup_delete_eq.
Qed.
Lemma write_ok p b d d' : op_write p b d = (Ok tt, d') → dk_nodes d' !! file_of p = Some (NFile b).
Proof.
  unfold op_write, with_fault. destruct (dk_faults d) as [|[f|] l]; [|done|];
    (destruct (blocked _ _); [done|]); destruct (dk_nodes d !! file_of p) as [[]|]; simpl; try done; intros [= <-]; simpl; by rewrite lookup_insert_eq.
Qed.
Lemma restore_some p b d d' : restore_file_to_bytes p (Some b) d = (Ok tt, d') → dk_nodes d' !! file_of p = Some (NFile b).
Proof.
  simpl. unfold op_bind. destruct (path_parent p) as [q|]; [|by apply write_ok].
  destruct (op_create_dirs (ancestors p) d) as [[u|e] d1]; [by apply write_ok|done].
Qed.

(** ** The phases of a rollback *)

(** The path a restore writes for an entry. *)
Definition home (self : TurnSnapshotStore) (path : string) : string := path_join (st_workspace self) path.
Lemma floor_home self p t : floor self p = Ok t → t = home self p.
Proof. unfold floor. case_match; try done. by intros [= <-]. Qed.
Lemma floored_ok self p s t s' : floored self p s = (Ok t, s') → t = home self p ∧ s' = s.
Proof. unfold floored. intros [= Hf <-]. split; [by apply floor_home in Hf|done]. Qed.

Lemma snap_bind_ok {A B} (m : Snap A) (k : A → Snap B) s b s' :
  snap_bind m k s = (Ok b, s') → ∃ a s1, m s = (Ok a, s1) ∧ k a s1 = (Ok b, s').
Proof. unfold snap_bind. destruct (m s) as [[a|e] s1]; [|done]. by intros ?; exists a, s1. Qed.
Lemma looks_at {A} (m : Snap A) s r s' : looks m → m s = (r, s') → nodes s' = nodes s ∧ sp_gateway s' = sp_gateway s ∧ sp_audit s' = sp_audit s.
Proof. intros Hm E. specialize (Hm s). by rewrite E in Hm. Qed.

Lemma looks_pre_image self c e : looks (pre_image self c e).
Proof.
  unfold pre_image. destruct (fe_blob e); [|apply looks_fail].
  apply looks_bind; [apply looks_raise, read_nodes|]. intros b. destruct (String.eqb _ _); [apply looks_ret|apply looks_fail].
Qed.
Lemma looks_preflight self c es : looks (preflight self c es).
Proof.
  induction es as [|e es IH]; simpl; [apply looks_ret|]. destruct (undo_deletes e).
  - apply looks_bind; [done|]. intros; apply looks_ret.
  - apply looks_bind; [apply looks_kept, looks_pre_image|]. intros r. apply looks_bind; [done|].
    intros rest. destruct r; apply looks_ret.
Qed.
Lemma looks_exists p : looks (exists_now p).
Proof. apply looks_bind; [apply looks_attempt, stat_nodes|]. intros; apply looks_ret. Qed.
Lemma looks_verify self l : looks (verify_images self l).
Proof.
  induction l as [|e l IH]; simpl; [apply looks_ret|]. apply looks_bind; [apply looks_floored|]. intros t.
  destruct (undo_deletes e).
  - apply looks_bind; [apply looks_exists|]. intros. apply looks_bind; [done|]. intros; apply looks_ret.
  - apply looks_bind; [apply looks_attempt, read_nodes|]. intros. apply looks_bind; [done|]. intros; apply looks_ret.
Qed.
Lemma journal_nodes {A} (m : M A) s : nodes (journal m s).2 = nodes s.
Proof. unfold journal. by destruct (m (sp_gateway s)). Qed.

Lemma journal_keeps {A} (m : M A) s r s' : journal m s = (r, s') → nodes s' = nodes s.
Proof. intros E. by rewrite <- (journal_nodes m s), E. Qed.
Lemma journal_audit {A} (m : M A) s r s' : journal m s = (r, s') → sp_audit s' = sp_audit s.
Proof. unfold journal. destruct (m (sp_gateway s)). by intros [= _ <-]. Qed.

(** A usable pre-image: stored, and of the captured digest. *)
Definition usable (self : TurnSnapshotStore) (c : TurnChangeSet) (n : gmap string Node) (e : FileSnapshotEntry) : Prop :=
  ∃ name b, fe_blob e = Some name ∧
    n !! file_of (path_join (step_dir self (cs_work_id c) (cs_step_id c)) name) = Some (NFile b) ∧ sha256_hex b = fe_pre_digest e.
Lemma pre_image_ok self c e s b s' : pre_image self c e s = (Ok b, s') → usable self c (nodes s) e ∧ sha256_hex b = fe_pre_digest e.
Proof.
  unfold pre_image. destruct (fe_blob e) as [name|] eqn:En; [|done].
  intros (b' & s1 & Hr & Hk)%snap_bind_ok. apply snap_bind_ok in Hr as (r & s2 & Ha & Hr).
  destruct r as [b2|]; [|done]. injection Hr as -> ->.
  destruct (String.eqb (sha256_hex b') (fe_pre_digest e)) eqn:Hd; [|done]. injection Hk as <- _.
  apply String.eqb_eq in Hd. split; [|done]. unfold attempt in Ha.
  destruct (op_read _ (sp_disk s)) as [r d'] eqn:Hop. injection Ha as -> _. apply read_ok in Hop as [Hop _].
  by exists name, b'.
Qed.

(** The image phase 1 prepared for an entry. *)
Definition prepared (x : FileSnapshotEntry * option string) : Prop :=
  match x.2 with
  | None => undo_deletes x.1 = true
  | Some b => undo_deletes x.1 = false ∧ sha256_hex b = fe_pre_digest x.1
  end.
Lemma preflight_ok self c es s p s' : preflight self c es s = (Ok p, s') → p.2 = [] →
  p.1.*1 = es ∧ Forall prepared p.1 ∧ (∀ e, e ∈ es → undo_deletes e = false → usable self c (nodes s) e).
Proof.
  revert s p s'. induction es as [|e es IH]; intros s p s'; simpl.
  { intros [= <- _] _. split_and!; [done|done|]. by intros e He%not_elem_of_nil. }
  destruct (undo_deletes e) eqn:Hu.
  - intros (rest & s1 & Hp & [= <- _])%snap_bind_ok Hnil. destruct (IH _ _ _ Hp Hnil) as (H1 & H2 & H3). simpl.
    split_and!; [exact (f_equal (cons e) H1)|by constructor|]. intros e' [->|He]%elem_of_cons Hd; [congruence|by apply H3].
  - intros (r & s1 & Hk & (rest & s2 & Hp & Hr)%snap_bind_ok)%snap_bind_ok Hnil.
    destruct r as [b|err]; [|by injection Hr as <- _]. injection Hr as <- _. simpl in Hnil.
    unfold kept in Hk. destruct (pre_image self c e s) as [r s3] eqn:Hi. injection Hk as -> ->.
    pose proof (looks_at _ _ _ _ (looks_pre_image self c e) Hi) as [Hn _].
    apply pre_image_ok in Hi as [Hus Hd]. destruct (IH _ _ _ Hp Hnil) as (H1 & H2 & H3). simpl.
    split_and!; [exact (f_equal (cons e) H1)|by constructor|]. intros e' [->|He]%elem_of_cons Hd'; [done|]. rewrite <- Hn. by apply H3.
Qed.

(** After phase 2 applied everything, an entry whose file no captured content
    was written to afterwards is gone; files of no entry are as they were. *)
Lemma apply_ok self l s a s' : apply_images self l s = (Ok a, s') → a.2 = [] →
  a.1 = l.*1 ∧ sp_audit s' = sp_audit s ∧
  (∀ k, (∀ x, x ∈ l → file_of (home self (fe_path x.1)) ≠ k) → nodes s' !! k = nodes s !! k) ∧
  (∀ k, (∃ x, x ∈ l ∧ file_of (home self (fe_path x.1)) = k) ∨ nodes s !! k = None →
        (∀ x, x ∈ l → file_of (home self (fe_path x.1)) = k → x.2 = None) → nodes s' !! k = None).
Proof.
  revert s a s'. induction l as [|[e b] l IH]; intros s a s'; simpl.
  { intros [= <- <-] _. split_and!; [done|done|done|]. intros k [(x & Hx%not_elem_of_nil & _)|Hk] _; done. }
  intros (t & s0 & [-> ->]%floored_ok & (r & s1 & Hr & (rest & s2 & Hp & Ha)%snap_bind_ok)%snap_bind_ok)%snap_bind_ok Hnil.
  destruct r as [[]|err]; [|by injection Ha as <- _]. injection Ha as <- <-. simpl in Hnil.
  destruct (IH _ _ _ Hp Hnil) as (H1 & H2 & H3 & H4). unfold attempt in Hr.
  destruct (restore_file_to_bytes (home self (fe_path e)) b (sp_disk s)) as [r d'] eqn:Hop. injection Hr as -> <-.
  assert (Hf : ∀ k, k ≠ file_of (home self (fe_path e)) → nodes (with_disk d' s) !! k = nodes s !! k).
  { intros k Hk. unfold nodes. simpl. pose proof (restore_frame (home self (fe_path e)) b (sp_disk s) k Hk) as H.
    by rewrite Hop in H. }
  split_and!; [exact (f_equal (cons e) H1)|done| |].
  - intros k Hk. rewrite H3; [apply Hf|].
    + intros ->. by apply (Hk (e, b)); [left|].
    + intros x Hx. apply Hk. by right.
  - intros k Hk Hb. apply H4; [|intros x Hx; apply Hb; by right].
    destruct (decide (k = file_of (home self (fe_path e)))) as [->|Hne].
    + right. assert (b = None) as -> by (by apply (Hb (e, b)); [left|]). by apply restore_none in Hop.
    + rewrite (Hf k Hne). destruct Hk as [(x & [->|Hx]%elem_of_cons & Hxk)|Hk]; [done| |by right]. left. by exists x.
Qed.

(** What phase 3 saw of an entry that must hold its captured content. *)
Definition holds_capture (self : TurnSnapshotStore) (n : gmap string Node) (e : FileSnapshotEntry) : Prop :=
  ∃ b, n !! file_of (home self (fe_path e)) = Some (NFile b) ∧ sha256_hex b = fe_pre_digest e.
Lemma verify_ok self l s v s' : verify_images self l s = (Ok v, s') → vf_failed v = [] →
  ∀ e, e ∈ l → undo_deletes e = false → holds_capture self (nodes s) e.
Proof.
  revert s v s'. induction l as [|e l IH]; intros s v s'; simpl; [by intros _ _ e He%not_elem_of_nil|].
  intros (t & s0 & [-> ->]%floored_ok & Hk)%snap_bind_ok Hnil. destruct (undo_deletes e) eqn:Hu.
  - apply snap_bind_ok in Hk as (there & s1 & He & (v' & s2 & Hv & Hk)%snap_bind_ok).
    pose proof (looks_at _ _ _ _ (looks_exists _) He) as [Hn _].
    destruct there; injection Hk as <- _; [done|]. simpl in Hnil.
    intros e' [->|Hin]%elem_of_cons Hd; [congruence|]. rewrite <- Hn. by eapply IH.
  - apply snap_bind_ok in Hk as (r & s1 & He & (v' & s2 & Hv & Hk)%snap_bind_ok).
    pose proof (looks_at _ _ _ _ (looks_attempt _ (read_nodes _)) He) as [Hn _].
    destruct r as [b|err]; [|by injection Hk as <- _].
    destruct (String.eqb (sha256_hex b) (fe_pre_digest e)) eqn:Hd; injection Hk as <- _; [|done]. simpl in Hnil.
    intros e' [->|Hin]%elem_of_cons Hd'; [|rewrite <- Hn; by eapply IH].
    unfold attempt in He. destruct (op_read _ (sp_disk s)) as [r d'] eqn:Hop. injection He as -> _.
    apply read_ok in Hop as [Hop _]. exists b. split; [done|by apply String.eqb_eq].
Qed.

(** The three phases with no failure. *)
Lemma restore_set_ok self c s v s' : restore_set self c s = (Ok v, s') → vf_failed v = [] →
  (∀ e, e ∈ cs_entries c → undo_deletes e = false → usable self c (nodes s) e ∧ holds_capture self (nodes s') e) ∧
  (∀ e, e ∈ cs_entries c → undo_deletes e = true →
     (∀ e', e' ∈ cs_entries c → undo_deletes e' = false → file_of (home self (fe_path e')) ≠ file_of (home self (fe_path e))) →
     nodes s' !! file_of (home self (fe_path e)) = None) ∧
  (∀ k, (∀ e, e ∈ cs_entries c → file_of (home self (fe_path e)) ≠ k) → nodes s' !! k = nodes s !! k) ∧
  sp_audit s' = sp_audit s.
Proof.
  unfold restore_set. intros (p & s1 & Hp & Hk)%snap_bind_ok Hnil.
  pose proof (looks_at _ _ _ _ (looks_preflight _ _ _) Hp) as (Hn1 & _ & Hau1).
  destruct (p.2) as [|x xs] eqn:Hp2; [|by injection Hk as <- _].
  destruct (preflight_ok _ _ _ _ _ _ Hp Hp2) as (Hes & Hpre & Hus).
  apply snap_bind_ok in Hk as (a & s2 & Ha & (w & s3 & Hw & Hk)%snap_bind_ok). injection Hk as <- ->. simpl in Hnil.
  apply app_eq_nil in Hnil as [Ha2 Hw2]. destruct (apply_ok _ _ _ _ _ Ha Ha2) as (Ha1 & Hau2 & Hfr & Hgone).
  pose proof (looks_at _ _ _ _ (looks_verify _ _) Hw) as (Hn3 & _ & Hau3). rewrite Hn3.
  split_and!; [| | |congruence].
  - intros e He Hu. split; [by apply Hus|]. eapply verify_ok; [done|done| |done]. by rewrite Ha1, Hes.
  - intros e He Hu Hd. apply Hgone.
    + left. rewrite <- Hes in He. apply list_elem_of_fmap in He as (x & -> & Hx). by exists x.
    + intros x Hx Hxk. rewrite Forall_forall in Hpre. specialize (Hpre x Hx). unfold prepared in Hpre.
      destruct (x.2) as [b|]; [|done]. destruct Hpre as [Hxu _]. exfalso. apply (Hd x.1); [|done|done].
      rewrite <- Hes. by apply list_elem_of_fmap_2.
  - intros k Hk. rewrite Hfr, Hn1; [done|]. intros x Hx. apply Hk. rewrite <- Hes. by apply list_elem_of_fmap_2.
Qed.

(** Phase 1 always answers, and names every entry without a usable pre-image. *)
Lemma preflight_total self c es s : ∃ p s1, preflight self c es s = (Ok p, s1) ∧
  (∀ e, e ∈ es → undo_deletes e = false → ¬ usable self c (nodes s) e → fe_path e ∈ p.2).
Proof.
  revert s. induction es as [|e es IH]; intros s; simpl.
  { exists ([], []), s. split; [done|]. by intros e He%not_elem_of_nil. }
  destruct (undo_deletes e) eqn:Hu.
  - destruct (IH s) as (p & s1 & Hp & Hin). unfold snap_bind. rewrite Hp. eexists _, s1. split; [done|]. simpl.
    intros e' [->|He]%elem_of_cons Hd Hn; [congruence|by apply Hin].
  - unfold snap_bind at 1, kept. destruct (pre_image self c e s) as [r s0] eqn:Hi.
    pose proof (looks_at _ _ _ _ (looks_pre_image self c e) Hi) as [Hn _].
    destruct (IH s0) as (p & s1 & Hp & Hin). unfold snap_bind. rewrite Hp. destruct r as [b|err].
    + apply pre_image_ok in Hi as [Hus _]. eexists _, s1. split; [done|]. simpl.
      intros e' [->|He]%elem_of_cons Hd Hnu; [done|]. apply Hin; [done|done|by rewrite Hn].
    + eexists _, s1. split; [done|]. simpl.
      intros e' [->|He]%elem_of_cons Hd Hnu; [by left|right]. apply Hin; [done|done|by rewrite Hn].
Qed.

(** [C30] The verdict "rolled back due to failure" is true: when the rollback
    answers it, whatever operations failed on the way, the set was recorded and
    open, every entry captured as bytes had a usable pre-image and its file now
    holds a content of the captured digest, every entry captured as absent is
    absent (unless a captured content shares its file), every other file is as
    it was, and one audit event was recorded. *)
Theorem rolled_back_verdict_is_true self w step reason now s o s' :
  rollback self w step reason now s = (Ok o, s') →
  ∃ c, file_change_set w step (sp_gateway s) = Some c ∧ change_set_is_open c = true ∧ ro_outcome o = CoRolledBack ∧
    (∀ e, e ∈ cs_entries c → undo_deletes e = false → usable self c (nodes s) e ∧ holds_capture self (nodes s') e) ∧
    (∀ e, e ∈ cs_entries c → undo_deletes e = true →
       (∀ e', e' ∈ cs_entries c → undo_deletes e' = false → file_of (home self (fe_path e')) ≠ file_of (home self (fe_path e))) →
       nodes s' !! file_of (home self (fe_path e)) = None) ∧
    (∀ k, (∀ e, e ∈ cs_entries c → file_of (home self (fe_path e)) ≠ k) → nodes s' !! k = nodes s !! k) ∧
    sp_audit s' = sp_audit s ++ [ro_audit_event o].
Proof.
  unfold rollback. destruct (file_change_set w step (sp_gateway s)) as [c|]; [|done].
  destruct (change_set_is_open c) eqn:Ho; [|done]. simpl.
  intros (v & s1 & Hv & (env & s2 & Hj & (u & s3 & Hau & Hk)%snap_bind_ok)%snap_bind_ok)%snap_bind_ok.
  destruct (vf_failed v) as [|x xs] eqn:Hf; [|done]. injection Hk as <- <-. injection Hau as _ <-.
  destruct (restore_set_ok _ _ _ _ _ Hv Hf) as (H1 & H2 & H3 & H4). pose proof (journal_nodes (settle_file_change_set
    (settle_as CoRolledBack now c) (Some reason)) s1) as Hn. rewrite Hj in Hn. cbn [snd] in Hn.
  exists c. unfold nodes in *. cbn [sp_disk sp_audit ro_outcome ro_audit_event]. rewrite Hn. split_and!; try done.
  apply journal_audit in Hj. by rewrite Hj, H4.
Qed.

(** A pre-image that is missing, unreadable or of another digest keeps the
    rollback from touching any file: nothing is restored, the caller gets an
    error (the set named as unverified with that path, or the journal's refusal),
    never a verdict. *)
Theorem unusable_pre_image_touches_nothing self w step reason now s c e :
  file_change_set w step (sp_gateway s) = Some c → change_set_is_open c = true →
  e ∈ cs_entries c → undo_deletes e = false → ¬ usable self c (nodes s) e →
  let '(r, s') := rollback self w step reason now s in
  nodes s' = nodes s ∧
  ((∃ m, r = Err (TsJournal m)) ∨
   (∃ failed, r = Err (TsRestoreUnverified (cs_change_set_id c) failed) ∧ fe_path e ∈ failed)).
Proof.
  intros Hc Ho He Hu Hn. unfold rollback. rewrite Hc, Ho. simpl.
  destruct (preflight_total self c (cs_entries c) s) as (p & s1 & Hp & Hin). specialize (Hin e He Hu Hn).
  pose proof (looks_at _ _ _ _ (looks_preflight _ _ _) Hp) as [Hn1 _].
  unfold snap_bind at 1, restore_set, snap_bind at 1. rewrite Hp. destruct (p.2) as [|x xs] eqn:Hx; [by apply not_elem_of_nil in Hin|].
  cbn [snap_ret vf_failed]. set (m := settle_file_change_set _ _). unfold snap_bind.
  pose proof (journal_nodes m s1) as Hj. destruct (journal m s1) as [[env|err] s2] eqn:Hjm; simpl in *.
  - split; [by rewrite <- Hn1, <- Hj|]. right. by exists (x :: xs).
  - split; [by rewrite Hj|]. left. unfold journal in Hjm. destruct (m (sp_gateway s1)) as [[]]; [done|].
    injection Hjm as <- _. by eexists.
Qed.

(** ** Capture and rollback over a calm disk *)

Definition calm (s : SnapState) : Prop := dk_faults (sp_disk s) = [].
(** A state over other files. *)
Definition at_nodes (n : gmap string Node) (s : SnapState) : SnapState :=
  with_disk {| dk_nodes := n; dk_faults := [] |} s.
Lemma at_nodes_self s : calm s → at_nodes (nodes s) s = s.
Proof. unfold calm, nodes, at_nodes, with_disk. destruct s as [g [n f] a]. simpl. by intros ->. Qed.
Definition calm_disk (n : gmap string Node) : DiskState := {| dk_nodes := n; dk_faults := [] |}.
Lemma raise_calm {A B} f (op : Op A) (k : A → Snap B) n s : snap_bind (or_raise f op) k (at_nodes n s) =
  match op (calm_disk n) with
  | (Ok a, d) => k a (with_disk d s)
  | (Err e, d) => (Err (f (io_text e)), with_disk d s)
  end.
Proof. unfold or_raise, snap_bind, attempt, at_nodes. simpl. fold (calm_disk n). by destruct (op (calm_disk n)) as [[] d]. Qed.
Lemma attempt_calm {A B} (op : Op A) (k : result A IoError → Snap B) n s : snap_bind (attempt op) k (at_nodes n s) =
  let '(r, d) := op (calm_disk n) in k r (with_disk d s).
Proof. unfold snap_bind, attempt, at_nodes. simpl. fold (calm_disk n). by destruct (op (calm_disk n)). Qed.
Lemma stat_calm p n : op_stat p (calm_disk n) =
  (if blocked n (ancestors p) then Err not_a_directory
   else Ok ((λ x, match x with NDir => true | NFile _ => false end) <$> n !! file_of p), calm_disk n).
Proof. done. Qed.
Lemma read_calm p n b : blocked n (ancestors p) = false → n !! file_of p = Some (NFile b) → op_read p (calm_disk n) = (Ok b, calm_disk n).
Proof. intros Hb H. unfold op_read, with_fault. simpl. by rewrite Hb, H. Qed.
Lemma write_calm p b n : op_write p b (calm_disk n) =
  if blocked n (ancestors p) then (Err not_a_directory, calm_disk n)
  else match n !! file_of p with
       | Some NDir => (Err (IoOther "is a directory"), calm_disk n)
       | _ => (Ok tt, calm_disk (<[file_of p := NFile b]> n))
       end.
Proof. unfold op_write, with_fault. simpl. destruct (blocked _ _); [done|]. by destruct (n !! file_of p) as [[]|]. Qed.
(** No file stands where a path needs a directory. *)
Lemma blocked_no n dirs : blocked n dirs = false ↔ ∀ f, is_regular (n !! f) = true → f ∉ file_of <$> dirs.
Proof.
  unfold blocked. rewrite <- not_true_iff_false, existsb_exists. split.
  - intros H f Hf (p & -> & Hp)%list_elem_of_fmap. apply H. exists p. split; [by apply list_elem_of_In|done].
  - intros H (p & Hp & Hr). apply (H _ Hr). apply list_elem_of_fmap. exists p. split; [done|by apply list_elem_of_In].
Qed.
Lemma blocked_insert n dirs f x : blocked n dirs = false → f ∉ file_of <$> dirs → blocked (<[f := x]> n) dirs = false.
Proof. rewrite !blocked_no. intros H Hf g. destruct (decide (f = g)) as [->|Hne]; [done|]. rewrite lookup_insert_ne by done. apply H. Qed.
Lemma blocked_delete n dirs f : blocked n dirs = false → blocked (delete f n) dirs = false.
Proof. rewrite !blocked_no. intros H g. destruct (decide (f = g)) as [->|Hne]; [by rewrite lookup_delete_eq|]. rewrite lookup_delete_ne by done. apply H. Qed.

Definition target_file (self : TurnSnapshotStore) (t : CaptureTarget) : string := file_of (home self (ct_path t)).
Definition blob_file (dir : string) (i : nat) : string := file_of (path_join dir (blob_name i)).
(** The content of a target before the step, and the entry that records it. *)
Definition content (self : TurnSnapshotStore) (n : gmap string Node) (t : CaptureTarget) : option string :=
  match n !! target_file self t with Some (NFile b) => Some b | _ => None end.
Definition entry_of (self : TurnSnapshotStore) (n : gmap string Node) (i : nat) (t : CaptureTarget) : FileSnapshotEntry :=
  match content self n t with
  | Some b => {| fe_path := home self (ct_path t); fe_capture := CkBytes; fe_pre_digest := sha256_hex b;
                 fe_pre_len := N.of_nat (String.length b); fe_blob := Some (blob_name i); fe_lease := ct_lease t |}
  | None => {| fe_path := home self (ct_path t); fe_capture := CkAbsentMarker; fe_pre_digest := ""; fe_pre_len := 0;
               fe_blob := None; fe_lease := ct_lease t |}
  end.

(** The directories above a target and above a stored pre-image. *)
Definition above_target (self : TurnSnapshotStore) (t : CaptureTarget) : list string := ancestors (home self (ct_path t)).
Definition above_blob (dir : string) (i : nat) : list string := ancestors (path_join dir (blob_name i)).
Lemma capture_entry_calm self dir i t n s e s' : capture_entry self dir i t (at_nodes n s) = (Ok e, s') →
  e = entry_of self n i t ∧ n !! target_file self t ≠ Some NDir ∧ blocked n (above_target self t) = false ∧
  s' = at_nodes (match content self n t with Some b => <[blob_file dir i := NFile b]> n | None => n end) s.
Proof.
  unfold capture_entry, entry_of, content, above_target. intros (p & s0 & [-> ->]%floored_ok & Hk)%snap_bind_ok. revert Hk.
  rewrite raise_calm, stat_calm. fold (target_file self t). destruct (blocked n _) eqn:Hbl; [done|].
  destruct (n !! target_file self t) as [[b|]|] eqn:Hn; [|done|].
  - cbn [fmap option_fmap option_map]. fold (at_nodes n s). unfold calm_disk. fold (at_nodes n s).
    rewrite raise_calm, (read_calm _ _ _ Hbl Hn). cbv zeta. unfold calm_disk. fold (at_nodes n s).
    rewrite raise_calm, write_calm. fold (blob_file dir i). destruct (blocked n (ancestors (path_join _ _))); [done|].
    destruct (n !! blob_file dir i) as [[b'|]|]; [| done |];
      unfold calm_disk; fold (at_nodes (<[blob_file dir i := NFile ""]> n) s);
      rewrite raise_calm, write_calm; fold (blob_file dir i); rewrite lookup_insert_eq, insert_insert_eq;
      (destruct (blocked _ (ancestors (path_join _ _))); [done|]); by intros [= <- <-].
  - by intros [= <- <-].
Qed.

Definition separate (self : TurnSnapshotStore) (dir : string) (upto : nat) (l : list CaptureTarget) : Prop :=
  (∀ k t, (k < upto)%nat → t ∈ l → blob_file dir k ≠ target_file self t) ∧
  (∀ k k', (k < upto)%nat → (k' < upto)%nat → blob_file dir k = blob_file dir k' → k = k').

Lemma capture_entries_calm self dir upto l i n s es s' :
  capture_entries self dir i l (at_nodes n s) = (Ok es, s') → separate self dir upto l → (i + length l <= upto)%nat →
  es = imap (λ j, entry_of self n (i + j)) l ∧ (∀ t, t ∈ l → n !! target_file self t ≠ Some NDir) ∧
  (∀ t f, t ∈ l → is_regular (n !! f) = true → (∀ k, (k < upto)%nat → blob_file dir k ≠ f) → f ∉ file_of <$> above_target self t) ∧
  ∃ n', s' = at_nodes n' s ∧
    (∀ j t b, l !! j = Some t → content self n t = Some b → n' !! blob_file dir (i + j) = Some (NFile b)) ∧
    (∀ f, (∀ k, (i <= k < upto)%nat → blob_file dir k ≠ f) → n' !! f = n !! f).
Proof.
  revert i n es s'. induction l as [|t l IH]; intros i n es s'; simpl.
  { intros [= <- <-] _ _. split_and!; [done|by intros t Ht%not_elem_of_nil|by intros t f Ht%not_elem_of_nil|]. by exists n. }
  intros (e & s1 & (-> & Hdir & Hbl & ->)%capture_entry_calm & (es' & s2 & Hes & [= <- <-])%snap_bind_ok)%snap_bind_ok Hsep Hle.
  assert (Hsep' : separate self dir upto l) by (split; [intros k t' ? ?; apply Hsep; [done|by right]|apply Hsep]).
  destruct (IH _ _ _ _ Hes Hsep') as (He & Hds & Hab & n' & -> & Hb & Hf); [lia|].
  set (n1 := match content self n t with Some b => _ | None => n end) in *.
  assert (Hn1 : ∀ f, f ≠ blob_file dir i → n1 !! f = n !! f).
  { intros f Hne. unfold n1. destruct (content self n t); [by rewrite lookup_insert_ne|done]. }
  assert (Hne : ∀ t', t' ∈ l → target_file self t' ≠ blob_file dir i).
  { intros t' Ht' Heq. symmetry in Heq. revert Heq. apply Hsep; [lia|by right]. }
  assert (Hc : ∀ t', t' ∈ l → content self n1 t' = content self n t').
  { intros t' Ht'. unfold content. by rewrite Hn1; [|apply Hne]. }
  split_and!.
  - rewrite Nat.add_0_r. f_equal. rewrite He. apply imap_ext. intros j t' Hj. simpl.
    unfold entry_of. rewrite (Hc t' (list_elem_of_lookup_2 _ _ _ Hj)). by replace (i + S j)%nat with (S i + j)%nat by lia.
  - intros t' [->|Ht']%elem_of_cons; [done|]. rewrite <- Hn1; [by apply Hds|by apply Hne].
  - intros t' f [->|Ht']%elem_of_cons Hr Hnb; [rewrite blocked_no in Hbl; by apply Hbl|]. apply Hab; [done|rewrite Hn1; [done|]|done].
    intros ->. by apply (Hnb i); [lia|].
  - exists n'. split; [done|]. split.
    + intros [|j] t' b; simpl.
      * intros [= <-] Hcb. rewrite Nat.add_0_r, Hf; [unfold n1; rewrite Hcb; by rewrite lookup_insert_eq|].
        intros k Hk Heq. apply Hsep in Heq; lia.
      * intros Hj Hcb. replace (i + S j)%nat with (S i + j)%nat by lia. eapply Hb; [done|].
        by rewrite (Hc t' (list_elem_of_lookup_2 _ _ _ Hj)).
    + intros f Hk. rewrite Hf; [apply Hn1|]; [intros ->; by apply (Hk i); [lia|]|]. intros k ?. apply Hk. lia.
Qed.

(** Phase 1 over stored pre-images. *)
Definition stored (self : TurnSnapshotStore) (c : TurnChangeSet) (n : gmap string Node) (x : FileSnapshotEntry * option string) : Prop :=
  match x.2 with
  | None => undo_deletes x.1 = true
  | Some b => undo_deletes x.1 = false ∧ sha256_hex b = fe_pre_digest x.1 ∧ ∃ name, fe_blob x.1 = Some name ∧
      n !! file_of (path_join (step_dir self (cs_work_id c) (cs_step_id c)) name) = Some (NFile b) ∧
      blocked n (ancestors (path_join (step_dir self (cs_work_id c) (cs_step_id c)) name)) = false
  end.
Lemma preflight_calm self c l n s : Forall (stored self c n) l → preflight self c l.*1 (at_nodes n s) = (Ok (l, []), at_nodes n s).
Proof.
  induction 1 as [|[e [b|]] l Hx _ IH]; [done| |]; rewrite fmap_cons; cbn [preflight fst].
  - destruct Hx as (Hu & Hd & name & Hname & Hn & Hbl). simpl in *. rewrite Hu. unfold snap_bind at 1, kept, pre_image. rewrite Hname.
    rewrite raise_calm, (read_calm _ _ _ Hbl Hn). cbv beta. rewrite Hd, String.eqb_refl. unfold snap_ret at 1, calm_disk.
    fold (at_nodes n s). unfold snap_bind. by rewrite IH.
  - unfold stored in Hx. cbn [fst snd] in Hx. rewrite Hx. unfold snap_bind. by rewrite IH.
Qed.

(** The files after phase 2. *)
Definition put_back (self : TurnSnapshotStore) (n : gmap string Node) (x : FileSnapshotEntry * option string) : gmap string Node :=
  match x.2 with
  | Some b => <[file_of (home self (fe_path x.1)) := NFile b]> n
  | None => delete (file_of (home self (fe_path x.1))) n
  end.
Definition floors (self : TurnSnapshotStore) (e : FileSnapshotEntry) : Prop := floor self (fe_path e) = Ok (home self (fe_path e)).
Lemma restore_calm p b n : blocked n (ancestors p) = false → n !! file_of p ≠ Some NDir →
  restore_file_to_bytes p b (calm_disk n) =
  (Ok tt, calm_disk (match b with Some b => <[file_of p := NFile b]> n | None => delete (file_of p) n end)).
Proof.
  intros Hbl Hn. destruct b as [b|]; simpl.
  - unfold op_bind. assert (op_write p b (calm_disk n) = (Ok tt, calm_disk (<[file_of p := NFile b]> n))) as Hw
      by (rewrite write_calm, Hbl; by destruct (n !! file_of p) as [[]|]).
    destruct (path_parent p); [|done]. unfold op_create_dirs, with_fault. simpl. by rewrite Hbl.
  - unfold op_remove, with_fault. simpl. rewrite Hbl. destruct (n !! file_of p) as [[]|] eqn:E; [done|done|].
    by rewrite delete_id.
Qed.
(** What is written back stands above none of the targets. *)
Definition nested (self : TurnSnapshotStore) (x y : FileSnapshotEntry * option string) : Prop :=
  x.2 ≠ None ∧ file_of (home self (fe_path x.1)) ∈ file_of <$> ancestors (home self (fe_path y.1)).
Definition reached (self : TurnSnapshotStore) (n : gmap string Node) (x : FileSnapshotEntry * option string) : Prop :=
  blocked n (ancestors (home self (fe_path x.1))) = false.
Lemma put_back_reached self n x y : ¬ nested self x y → reached self n y → reached self (put_back self n x) y.
Proof.
  unfold nested, reached, put_back. intros Hn Hr. destruct (x.2) as [b|]; [|by apply blocked_delete]. apply blocked_insert; [done|]. intros Hin. by apply Hn.
Qed.
Lemma put_back_all_reached self l n y : (∀ x, x ∈ l → ¬ nested self x y) → reached self n y → reached self (foldl (put_back self) n l) y.
Proof.
  revert n. induction l as [|x l IH]; intros n Hn Hr; [done|]. simpl. apply IH; [intros z Hz; apply Hn; by right|].
  apply put_back_reached; [apply Hn; by left|done].
Qed.
Lemma apply_calm self l n s : Forall (λ x, floors self x.1) l → Forall (λ x, n !! file_of (home self (fe_path x.1)) ≠ Some NDir) l →
  Forall (reached self n) l → (∀ x y, x ∈ l → y ∈ l → ¬ nested self x y) →
  apply_images self l (at_nodes n s) = (Ok (l.*1, []), at_nodes (foldl (put_back self) n l) s).
Proof.
  intros Hf. revert n. induction Hf as [|[e b] l Hx _ IH]; intros n Hn Hr Hne; [done|].
  apply Forall_cons in Hn as [Hn1 Hn], Hr as [Hr1 Hr]. unfold reached in Hr1. simpl in *.
  unfold snap_bind at 1, floored. rewrite Hx. rewrite attempt_calm, (restore_calm _ _ _ Hr1 Hn1). unfold calm_disk, snap_bind.
  match goal with |- context [with_disk {| dk_nodes := ?m; dk_faults := _ |} s] => fold (at_nodes m s); change m with (put_back self n (e, b)) end.
  rewrite IH; [done| | |intros x y Hx' Hy'; apply Hne; by right].
  - eapply Forall_impl; [exact Hn|]. intros x Hx'. unfold put_back. simpl. destruct b; [rewrite lookup_insert|rewrite lookup_delete]; by case_decide.
  - apply Forall_forall. intros y Hy. rewrite Forall_forall in Hr. apply put_back_reached; [apply Hne; [by left|by right]|by apply Hr].
Qed.
(** Phase 3 over restored files. *)
Definition back (self : TurnSnapshotStore) (n : gmap string Node) (x : FileSnapshotEntry * option string) : Prop :=
  n !! file_of (home self (fe_path x.1)) = NFile <$> x.2.
Lemma verify_calm self l n s : Forall (λ x, floors self x.1) l → Forall prepared l → Forall (back self n) l → Forall (reached self n) l →
  ∃ v, verify_images self l.*1 (at_nodes n s) = (Ok v, at_nodes n s) ∧ vf_failed v = [].
Proof.
  intros Hf. induction Hf as [|[e b] l Hx _ IH]; intros Hp Hb Hr; [by eexists|].
  apply Forall_cons in Hp as [Hp1 Hp], Hb as [Hb1 Hb], Hr as [Hr1 Hr]. destruct (IH Hp Hb Hr) as (v & Hv & Hfl).
  unfold prepared, back, reached in *. cbn [fst snd] in *. rewrite fmap_cons. cbn [verify_images fst].
  unfold snap_bind at 1, floored. rewrite Hx. destruct b as [b|].
  - destruct Hp1 as [Hu Hd]. rewrite Hu, attempt_calm, (read_calm _ _ _ Hr1 Hb1). unfold calm_disk. fold (at_nodes n s).
    unfold snap_bind. rewrite Hv, Hd, String.eqb_refl. by eexists.
  - rewrite Hp1. unfold snap_bind at 1, exists_now. rewrite attempt_calm, stat_calm, Hr1, Hb1. unfold calm_disk. fold (at_nodes n s).
    simpl. unfold snap_bind. rewrite Hv. by eexists.
Qed.

Lemma put_back_frame self l n k : (∀ x, x ∈ l → file_of (home self (fe_path x.1)) ≠ k) → foldl (put_back self) n l !! k = n !! k.
Proof.
  revert n. induction l as [|x l IH]; intros n Hk; [done|]. simpl. rewrite IH; [|intros y Hy; apply Hk; by right].
  specialize (Hk x (list_elem_of_here _ _)). unfold put_back. destruct (x.2); [by rewrite lookup_insert_ne|by rewrite lookup_delete_ne].
Qed.
Lemma put_back_all self l n : NoDup ((λ x, file_of (home self (fe_path x.1))) <$> l) → Forall (back self (foldl (put_back self) n l)) l.
Proof.
  revert n. induction l as [|x l IH]; intros n Hd; [done|]. apply NoDup_cons in Hd as [Hx Hd]. constructor; [|by apply IH].
  simpl. unfold back. rewrite put_back_frame.
  - unfold put_back. destruct (x.2); [by rewrite lookup_insert_eq|by rewrite lookup_delete_eq].
  - intros y Hy Heq. apply Hx. apply list_elem_of_fmap. by exists y.
Qed.

Lemma path_join_rooted base p : rooted base = true → path_join base (path_join base p) = path_join base p.
Proof.
  intros Hb. unfold path_join at 1. enough (rooted (path_join base p) = true) as -> by done.
  unfold path_join. destruct (rooted p) eqn:Hp; [done|]. apply starts_with_spec in Hb as [r ->].
  destruct (is_empty _ || ends_with "/" _); apply starts_with_spec; by eexists.
Qed.
Lemma floors_home self p : rooted (st_workspace self) = true → floor self p = Ok (home self p) →
  home self (home self p) = home self p ∧ floor self (home self p) = Ok (home self p).
Proof.
  intros Hr. unfold floor, home. rewrite !(path_join_rooted _ _ Hr). by destruct (enforce_floor _ _).
Qed.
Lemma check_targets_ok self seen l : check_targets self seen l = Ok tt → ∀ t, t ∈ l → floor self (ct_path t) = Ok (home self (ct_path t)).
Proof.
  revert seen. induction l as [|t l IH]; intros seen; simpl; [by intros _ t Ht%not_elem_of_nil|].
  destruct (floor self (ct_path t)) as [p|] eqn:Hf; simpl; [|done]. destruct (existsb _ _); [done|].
  intros Hc t' [->|Ht]%elem_of_cons; [|by eapply IH]. rewrite Hf. f_equal. by apply floor_home.
Qed.

(** What capture recorded, and the files after it. *)
Definition capture_dir (self : TurnSnapshotStore) (req : CaptureRequest) : string :=
  step_dir self (cr_work_id req) (cr_step_id req).
Lemma capture_ok self req s c s1 : calm s →
  separate self (capture_dir self req) (length (cr_files req)) (cr_files req) → capture self req s = (Ok c, s1) →
  cs_entries c = imap (entry_of self (nodes s)) (cr_files req) ∧ cs_work_id c = cr_work_id req ∧ cs_step_id c = cr_step_id req ∧
  cs_outcome c = None ∧ (∀ t, t ∈ cr_files req → floor self (ct_path t) = Ok (home self (ct_path t)) ∧ nodes s !! target_file self t ≠ Some NDir) ∧
  (∀ t t', t ∈ cr_files req → t' ∈ cr_files req → content self (nodes s) t ≠ None → target_file self t ∉ file_of <$> above_target self t') ∧
  (∀ j t b, cr_files req !! j = Some t → content self (nodes s) t = Some b →
     nodes s1 !! blob_file (capture_dir self req) j = Some (NFile b)).
Proof.
  intros Hcalm Hsep. rewrite <- (at_nodes_self s Hcalm) at 1. unfold capture. destruct (cr_files req) as [|t0 l] eqn:Hl; [done|].
  rewrite <- Hl in *. intros ([] & s2 & [= Hck <-] & Hk)%snap_bind_ok. revert Hk. cbv zeta. rewrite raise_calm.
  unfold op_create_dirs, with_fault. cbn [dk_faults dk_nodes calm_disk]. destruct (blocked _ (_ :: _)); [done|]. cbv beta iota. fold (at_nodes (nodes s) s).
  intros (es & s3 & (-> & Hdir & Hab & n' & -> & Hb & _)%(capture_entries_calm _ _ (length (cr_files req))) & Hk)%snap_bind_ok; [|done|done].
  apply snap_bind_ok in Hk as ([] & s4 & [= _ <-] & (env & s5 & Hj & [= <- <-])%snap_bind_ok). simpl.
  split_and!; [done|done|done|done|intros t Ht; split; [by eapply check_targets_ok|by apply Hdir]| |].
  { intros t t' Ht Ht' Hct. apply Hab; [done| |intros k Hk; by apply Hsep]. unfold content in Hct. by destruct (nodes s !! target_file self t) as [[]|]. }
  intros j t b Hj' Hc. rewrite (journal_keeps _ _ _ _ Hj).
  by apply (Hb j t).
Qed.

(** The images a rollback of the captured set puts back. *)
Definition images (self : TurnSnapshotStore) (n : gmap string Node) (l : list CaptureTarget) : list (FileSnapshotEntry * option string) :=
  imap (λ j t, (entry_of self n j t, content self n t)) l.
Lemma entry_of_path self n j t : fe_path (entry_of self n j t) = home self (ct_path t).
Proof. unfold entry_of. by destruct (content self n t). Qed.
Lemma images_entries self n l : (images self n l).*1 = imap (entry_of self n) l.
Proof. unfold images. by rewrite fmap_imap. Qed.
Lemma images_all self n l (P : FileSnapshotEntry * option string → Prop) :
  (∀ j t, l !! j = Some t → P (entry_of self n j t, content self n t)) → Forall P (images self n l).
Proof.
  intros HP. apply Forall_lookup. intros j x. unfold images. rewrite list_lookup_imap, fmap_Some. intros (t & Hj & ->). by apply HP.
Qed.
Lemma images_prepared self n l : Forall prepared (images self n l).
Proof. apply images_all. intros j t _. unfold prepared, entry_of. by destruct (content self n t). Qed.
Lemma images_stored self c n0 n l : (∀ j t b, l !! j = Some t → content self n0 t = Some b →
    n !! blob_file (step_dir self (cs_work_id c) (cs_step_id c)) j = Some (NFile b) ∧
    blocked n (above_blob (step_dir self (cs_work_id c) (cs_step_id c)) j) = false) → Forall (stored self c n) (images self n0 l).
Proof.
  intros Hb. apply images_all. intros j t Hj. specialize (Hb j t). unfold stored, entry_of.
  destruct (content self n0 t) as [b|]; simpl; [|done]. split_and!; [done|done|]. eexists. split; [done|by apply Hb].
Qed.
Definition image_file (self : TurnSnapshotStore) (x : FileSnapshotEntry * option string) : string := file_of (home self (fe_path x.1)).
Lemma images_homes self n l : rooted (st_workspace self) = true → (∀ t, t ∈ l → floor self (ct_path t) = Ok (home self (ct_path t))) →
  Forall (λ x, floors self x.1) (images self n l) ∧
  image_file self <$> images self n l = target_file self <$> l.
Proof.
  intros Hr Hfl. split.
  - apply images_all. intros j t Hj. unfold floors. cbn [fst]. rewrite entry_of_path.
    destruct (floors_home self (ct_path t) Hr) as [-> Hf]; [by apply Hfl, list_elem_of_lookup_2 with j|done].
  - unfold images. rewrite fmap_imap, <- (imap_const (target_file self)). apply imap_ext. intros j t Hj. unfold image_file, target_file. simpl.
    rewrite entry_of_path. unfold home. by rewrite path_join_rooted.
Qed.

Lemma home_home self p : rooted (st_workspace self) = true → home self (home self p) = home self p.
Proof. intros Hr. unfold home. by rewrite (path_join_rooted _ _ Hr). Qed.
Lemma images_flat self n l : rooted (st_workspace self) = true →
  (∀ t t', t ∈ l → t' ∈ l → content self n t ≠ None → target_file self t ∉ file_of <$> above_target self t') →
  ∀ x y, x ∈ images self n l → y ∈ images self n l → ¬ nested self x y.
Proof.
  intros Hr Hab x y Hx Hy. assert (Hin : ∀ z, z ∈ images self n l → ∃ t, t ∈ l ∧ home self (fe_path z.1) = home self (ct_path t) ∧ z.2 = content self n t).
  { intros z Hz. apply list_elem_of_lookup in Hz as [j Hz]. unfold images in Hz. rewrite list_lookup_imap, fmap_Some in Hz. destruct Hz as (t & Hj & ->).
    exists t. split; [by eapply list_elem_of_lookup_2|]. cbn [fst snd]. rewrite entry_of_path. split; [|done]. by rewrite (home_home _ _ Hr). }
  destruct (Hin x Hx) as (t & Ht & Ex & Cx), (Hin y Hy) as (t' & Ht' & Ey & _). unfold nested. rewrite Ex, Ey, Cx. intros [Hc Hn]. by apply (Hab t t').
Qed.
Lemma restore_set_calm self c l s : calm s → cs_entries c = l.*1 → Forall (stored self c (nodes s)) l →
  Forall (λ x, floors self x.1) l → (∀ k, k ∈ image_file self <$> l → nodes s !! k ≠ Some NDir) → Forall prepared l →
  NoDup (image_file self <$> l) → Forall (reached self (nodes s)) l → (∀ x y, x ∈ l → y ∈ l → ¬ nested self x y) →
  ∃ v, restore_set self c s = (Ok v, at_nodes (foldl (put_back self) (nodes s) l) s) ∧ vf_failed v = [].
Proof.
  intros Hc Hes Hst Hf Hn Hp Hd Hr Hne. destruct (verify_calm self l (foldl (put_back self) (nodes s) l) s Hf Hp) as (v & Hv & Hvf).
  { by apply put_back_all. }
  { apply Forall_forall. intros y Hy. rewrite Forall_forall in Hr. apply put_back_all_reached; [intros x Hx; by apply Hne|by apply Hr]. }
  exists v. split; [|done]. enough (restore_set self c (at_nodes (nodes s) s) = (Ok v, at_nodes (foldl (put_back self) (nodes s) l) s))
    as H by (by rewrite (at_nodes_self s Hc) in H).
  unfold restore_set. rewrite Hes. unfold snap_bind at 1.
  rewrite (preflight_calm _ _ _ _ _ Hst). cbn [fst snd]. unfold snap_bind at 1. rewrite apply_calm; [|done| |done|done].
  - cbn [fst snd]. unfold snap_bind. rewrite Hv. unfold snap_ret. by destruct v; simpl in *; subst.
  - apply Forall_forall. intros x Hx. apply (Hn (image_file self x)). by apply list_elem_of_fmap_2.
Qed.
(** With nothing failed, only the gateway can refuse. *)
Lemma rollback_settles self w step reason now s c v s1 : file_change_set w step (sp_gateway s) = Some c →
  change_set_is_open c = true → restore_set self c s = (Ok v, s1) → vf_failed v = [] →
  is_ok (settle_file_change_set (settle_as CoRolledBack now c) (Some reason) (sp_gateway s1)).1 = true →
  ∃ o s3, rollback self w step reason now s = (Ok o, s3) ∧ ro_outcome o = CoRolledBack ∧ nodes s3 = nodes s1.
Proof.
  intros Hc Ho Hv Hf Hs. unfold rollback. rewrite Hc, Ho. cbn [negb]. unfold snap_bind at 1. rewrite Hv, Hf.
  cbv zeta. unfold snap_bind at 1, journal.
  destruct (settle_file_change_set (settle_as CoRolledBack now c) (Some reason) (sp_gateway s1)) as [[env|] g]; [|done].
  eexists _, _. split; [reflexivity|done].
Qed.

End facts.

(** ** One step over two files *)

#[local] Instance one_name : Files := {| file_of p := p |}.
#[local] Instance plain_quotes : StrDebug := {| str_debug s := s |}.
#[local] Existing Instances plain_fs plain_digest list_iter plain_render plain_change_render calm_world.

Definition demo_store : TurnSnapshotStore := snapshot_store_new "/data" "/workspace".
Definition demo_request : CaptureRequest := {|
  cr_work_id := "w"; cr_step_id := "s1"; cr_session_id := None;
  cr_files := [{| ct_path := "a.txt"; ct_lease := None |}; {| ct_path := "b.txt"; ct_lease := None |}]; cr_now_ms := 5
|}.
Definition demo_state : SnapState := {|
  sp_gateway := @work_play plain_render plain_change_render list_iter calm_world plain_context bound_work gateway_fresh;
  sp_disk := {| dk_nodes := {[ "/workspace/a.txt" := NFile "old" ]}; dk_faults := [] |}; sp_audit := []
|}.
Definition demo_captured : result TurnChangeSet TurnSnapshotError * SnapState := capture demo_store demo_request demo_state.
Definition demo_set : TurnChangeSet :=
  match demo_captured.1 with Ok c => c | Err _ => {| cs_change_set_id := ""; cs_work_id := ""; cs_step_id := ""; cs_session_id := None;
    cs_captured_at_ms := 0; cs_entries := []; cs_outcome := None; cs_settled_at_ms := None; cs_reason := None |} end.
(** The step rewrites one file and creates the other. *)
Definition demo_changed : SnapState := at_nodes
  (<["/workspace/a.txt" := NFile "new"]> (<["/workspace/b.txt" := NFile "made"]> (nodes demo_captured.2))) demo_captured.2.

Example demo_rollback : let '(r, s) := rollback demo_store "w" "s1" "test failed" 9 demo_changed in
  is_ok r = true ∧ nodes s !! "/workspace/a.txt" = Some (NFile "old") ∧ nodes s !! "/workspace/b.txt" = None.
Proof. by vm_compute. Qed.

Lemma rolled_back_verdict_is_true_witness :
  ∃ o s' c, rollback demo_store "w" "s1" "test failed" 9 demo_changed = (Ok o, s') ∧
    file_change_set "w" "s1" (sp_gateway demo_changed) = Some c ∧ ro_outcome o = CoRolledBack.
Proof.
  destruct (rollback demo_store "w" "s1" "test failed" 9 demo_changed) as [r s'] eqn:E.
  assert (Hr : is_ok r = true) by (apply (f_equal fst) in E; simpl in E; rewrite <- E; by vm_compute).
  destruct r as [o|]; [|discriminate Hr].
  destruct (rolled_back_verdict_is_true _ _ _ _ _ _ _ _ E) as (c & Hc & _ & Ho & _).
  exists o, s', c. split; [reflexivity|by split].
Defined.

(** The same with the stored pre-image gone. *)
Definition demo_pruned : SnapState := at_nodes (delete "/data/snapshots/w/s1/0000.blob" (nodes demo_changed)) demo_changed.
Lemma demo_unusable : ∃ e, e ∈ cs_entries demo_set ∧ undo_deletes e = false ∧ ¬ usable demo_store demo_set (nodes demo_pruned) e.
Proof.
  destruct (cs_entries demo_set) as [|e l] eqn:E; [by vm_compute in E|]. exists e. split; [by left|].
  apply (f_equal head) in E. vm_compute in E. injection E as <-. split; [by vm_compute|].
  intros (name & b & [= <-] & Hn & _). by vm_compute in Hn.
Qed.
Lemma unusable_pre_image_touches_nothing_witness :
  nodes (rollback demo_store "w" "s1" "test failed" 9 demo_pruned).2 = nodes demo_pruned ∧
  is_ok (rollback demo_store "w" "s1" "test failed" 9 demo_pruned).1 = false.
Proof.
  destruct demo_unusable as (e & He & Hu & Hn).
  assert (Hc : file_change_set "w" "s1" (sp_gateway demo_pruned) = Some demo_set) by (vm_compute; reflexivity).
  pose proof (unusable_pre_image_touches_nothing demo_store "w" "s1" "test failed" 9 demo_pruned demo_set e Hc eq_refl He Hu Hn) as H.
  destruct (rollback demo_store "w" "s1" "test failed" 9 demo_pruned) as [r s'].
  destruct H as [H1 [[m ->]|(failed & -> & _)]]; by split.
Defined.

Lemma demo_separate : separate demo_store (capture_dir demo_store demo_request) 2 (cr_files demo_request).
Proof.
  split.
  - intros [|[|k]] t Hk Ht; [| |lia]; apply elem_of_cons in Ht as [->|Ht%list_elem_of_singleton]; subst; by vm_compute.
  - intros [|[|k]] [|[|k']] Hk Hk'; [| |lia| | |lia|lia|lia|lia]; by vm_compute.
Qed.

(** ** A file in the place of a directory *)

(** The step removed the directory of its target and put a file there: the
    directory cannot be made, and the rollback says so. *)
Definition nested_request : CaptureRequest := {|
  cr_work_id := "w"; cr_step_id := "s1"; cr_session_id := None; cr_files := [{| ct_path := "d/a.txt"; ct_lease := None |}]; cr_now_ms := 5
|}.
Definition nested_state : SnapState := at_nodes {[ "/workspace/d/a.txt" := NFile "old" ]} demo_state.
Example file_above_a_target_is_reported :
  let '(r, s1) := capture demo_store nested_request nested_state in
  let s2 := at_nodes (<["/workspace/d" := NFile "in the way"]> (delete "/workspace/d/a.txt" (nodes s1))) s1 in
  is_ok r = true ∧
  match (rollback demo_store "w" "s1" "test failed" 9 s2).1 with Err (TsRestoreUnverified _ failed) => failed = ["/workspace/d/a.txt"] | _ => False end.
Proof. by vm_compute. Qed.

(** ** Where capture is not idempotent *)

(** Capturing the same step again after it wrote replaces the stored pre-image:
    the rollback then answers its verdict over the step's own content. *)
Definition demo_recaptured : SnapState := (capture demo_store demo_request demo_changed).2.
Example recapture_loses_the_pre_image : let '(r, s) := rollback demo_store "w" "s1" "test failed" 9 demo_recaptured in
  is_ok (capture demo_store demo_request demo_changed).1 = true ∧ is_ok r = true ∧
  nodes s !! "/workspace/a.txt" = Some (NFile "new") ∧ nodes s !! "/workspace/b.txt" = Some (NFile "made").
Proof. by vm_compute. Qed.
