(* ===== verification/Dag.v ===== *)
(** * Dependency graphs: Kahn's algorithm and acyclicity

    Two engines of [everyaios-blueprint] order their tasks with Kahn's
    algorithm, one over the indices of a vector with a queue, the other over the
    keys of a map with a stack. [kahn] is the loop they share; what is proved
    here holds for every way of taking the next node. *)
From S2P Require Import Prelude.

Section kahn.
Context `{Countable A}.

(** ** The loop *)

(** Where the next node is taken: [pop_front] of a queue, [pop] of a stack. *)
Variant Pop := PopFront | PopBack.
Definition pop (p : Pop) (q : list A) : option (A * list A) :=
  match p with
  | PopFront => match q with [] => None | i :: q' => Some (i, q') end
  | PopBack => match rev q with [] => None | i :: q' => Some (i, rev q') end
  end.

(** One dependent of the node that was taken: its counter goes down, and it is
    queued when the counter reaches zero. *)
Definition release (st : gmap A nat * list A) (c : A) : gmap A nat * list A :=
  let '(indegree, queue) := st in
  let d := (default 0 (indegree !! c) - 1)%nat in
  (<[c := d]> indegree, if (d =? 0)%nat then queue ++ [c] else queue).

(** The order of the nodes taken until the queue is empty. *)
Fixpoint kahn (p : Pop) (fuel : nat) (dependents : A → list A) (indegree : gmap A nat) (queue : list A) : option (list A) :=
  match pop p queue with
  | None => Some []
  | Some (i, queue) =>
      match fuel with
      | O => None
      | S fuel =>
          let '(indegree, queue) := foldl release (indegree, queue) (dependents i) in
          (i ::.) <$> kahn p fuel dependents indegree queue
      end
  end.

(** ** What it computes *)

Lemma pop_spec p q : match pop p q with None => q = [] | Some (i, q') => q ≡ₚ i :: q' end.
Proof.
  destruct p; simpl; [by destruct q|]. destruct (rev q) as [|i r] eqn:E.
  - by apply (f_equal (@rev A)) in E; rewrite rev_involutive in E.
  - apply (f_equal (@rev A)) in E. rewrite rev_involutive in E. subst q. simpl. by rewrite Permutation_app_comm.
Qed.

Definition occurrences (x : A) (l : list A) : nat := length (filter (x =.) l).
Lemma occurrences_cons x y l : occurrences x (y :: l) = ((if decide (x = y) then 1 else 0) + occurrences x l)%nat.
Proof. unfold occurrences. rewrite filter_cons. by case_decide. Qed.
Lemma occurrences_elem x l : x ∈ l ↔ (0 < occurrences x l)%nat.
Proof.
  induction l as [|y l IH]; [split; [by intros ?%not_elem_of_nil|unfold occurrences; simpl; lia]|].
  rewrite elem_of_cons, IH, occurrences_cons. case_decide; split; naive_solver lia.
Qed.

Context (nodes : list A) (deps dependents : A → list A).
Context (nodes_nodup : NoDup nodes).
Context (deps_nodes : ∀ n m, n ∈ nodes → m ∈ deps n → m ∈ nodes).
Context (dependents_deps : ∀ m n, m ∈ nodes → n ∈ nodes → occurrences n (dependents m) = occurrences m (deps n)).
Context (dependents_nodes : ∀ m n, n ∈ dependents m → n ∈ nodes).

(** The dependencies of [n] that are still to be taken. *)
Definition pending_deps (taken : list A) (n : A) : nat := length (filter (.∉ taken) (deps n)).

Lemma pending_deps_snoc taken i n : i ∉ taken → pending_deps taken n = (pending_deps (taken ++ [i]) n + occurrences i (deps n))%nat.
Proof.
  intros Hi. unfold pending_deps, occurrences. induction (deps n) as [|d l IH]; [done|]. rewrite !filter_cons.
  repeat case_decide; simpl; set_solver by lia.
Qed.
Lemma pending_deps_zero taken n : pending_deps taken n = 0%nat ↔ ∀ d, d ∈ deps n → d ∈ taken.
Proof.
  unfold pending_deps. rewrite length_zero_iff_nil. split.
  - intros Hf d Hd. destruct (decide (d ∈ taken)) as [|Hn]; [done|].
    assert (d ∈ filter (.∉ taken) (deps n)) as Hin by (by apply list_elem_of_filter). by rewrite Hf in Hin; apply not_elem_of_nil in Hin.
  - intros Hall. destruct (filter _ _) as [|d l] eqn:E; [done|].
    assert (d ∈ filter (.∉ taken) (deps n)) as Hin by (rewrite E; by left). apply list_elem_of_filter in Hin as [Hn Hd]. by apply Hall in Hd.
Qed.

(** The counters count the pending_deps dependencies; what is at zero was taken or
    is queued. *)
Record kahn_inv (taken : list A) (indegree : gmap A nat) (queue : list A) : Prop := {
  ki_count n : n ∈ nodes → indegree !! n = Some (pending_deps taken n);
  ki_queue n : n ∈ taken ++ queue ↔ n ∈ nodes ∧ pending_deps taken n = 0%nat;
  ki_nodup : NoDup (taken ++ queue);
  ki_first n d : n ∈ taken → d ∈ deps n → ∃ l r, taken = l ++ n :: r ∧ d ∈ l
}.

(** Releasing the dependents of [i] one by one. *)
Lemma release_all taken cs indegree queue :
  (∀ n, n ∈ nodes → ∃ k, indegree !! n = Some k ∧ (occurrences n cs <= k)%nat) → (∀ c, c ∈ cs → c ∈ nodes) →
  NoDup (taken ++ queue) → (∀ n, n ∈ taken ++ queue → occurrences n cs = 0%nat) →
  let '(indegree', queue') := foldl release (indegree, queue) cs in
  (∀ n k, n ∈ nodes → indegree !! n = Some k → indegree' !! n = Some (k - occurrences n cs)%nat) ∧
  NoDup (taken ++ queue') ∧
  (∀ n, n ∈ taken ++ queue' ↔ n ∈ taken ++ queue ∨ (n ∈ cs ∧ indegree !! n = Some (occurrences n cs))).
Proof.
  revert indegree queue. induction cs as [|c cs IH]; intros indegree queue Hk Hcs Hnd Hq; simpl.
  { split_and!; [intros n k _ ->; unfold occurrences; simpl; f_equal; lia|done|]. intros n. split; [by left|].
    by intros [?|[?%not_elem_of_nil _]]. }
  destruct (Hk c) as (kc & Hc & Hle); [apply Hcs; by left|]. rewrite Hc. change (default 0%nat (Some kc)) with kc.
  assert (Hone : (0 < occurrences c (c :: cs))%nat) by (apply occurrences_elem; by left).
  rewrite occurrences_cons, decide_True in Hle, Hone by done. simpl in Hle.
  assert (Hcq : c ∉ taken ++ queue) by (intros Hin; specialize (Hq c Hin); rewrite occurrences_cons, decide_True in Hq; [lia|done]).
  specialize (IH (<[c := (kc - 1)%nat]> indegree) (if (kc - 1 =? 0)%nat then queue ++ [c] else queue)).
  destruct (foldl release _ cs) as [indegree' queue'] eqn:Ef. destruct IH as (H1 & H2 & H3).
  - intros n Hn. destruct (decide (n = c)) as [->|Hne].
    + rewrite lookup_insert_eq. exists (kc - 1)%nat. split; [done|lia].
    + rewrite lookup_insert_ne by done. destruct (Hk n Hn) as (k & Hkn & Hl). exists k. split; [done|].
      rewrite occurrences_cons, decide_False in Hl; [done|done].
  - intros c' Hc'. apply Hcs. by right.
  - destruct (Nat.eqb_spec (kc - 1) 0); [|done]. rewrite app_assoc. apply NoDup_app. split_and!; [done| |apply NoDup_singleton].
    intros x Hx ->%list_elem_of_singleton. by apply Hcq.
  - intros n Hn. assert (Hor : n ∈ taken ++ queue ∨ (n = c ∧ (kc - 1 = 0)%nat)).
    { destruct (Nat.eqb_spec (kc - 1) 0); [|by left]. rewrite app_assoc in Hn. apply elem_of_app in Hn as [?| ->%list_elem_of_singleton]; auto. }
    destruct Hor as [Hin|[-> Hz]]; [|lia]. specialize (Hq n Hin). rewrite occurrences_cons in Hq. lia.
  - split_and!; [| done |].
    + intros n k Hn Hkn. rewrite occurrences_cons. destruct (decide (n = c)) as [->|Hne].
      * rewrite Hc in Hkn. injection Hkn as <-. rewrite (H1 c (kc - 1)%nat) by (done || by rewrite lookup_insert_eq). f_equal. lia.
      * rewrite (H1 n k) by (done || by rewrite lookup_insert_ne). done.
    + intros n. rewrite H3. rewrite occurrences_cons. destruct (decide (n = c)) as [->|Hne].
      * rewrite lookup_insert_eq, Hc. destruct (Nat.eqb_spec (kc - 1) 0) as [Hz|Hz].
        -- split; [intros _; right; split; [by left|f_equal; lia]|intros _; left; set_solver].
        -- split; [intros [?|[? [= Hx]]]; [by left|right; split; [by left|f_equal; lia]]|].
           intros [?|[_ [= Hx]]]; [by left|right]. split; [apply occurrences_elem; lia|f_equal; lia].
      * rewrite lookup_insert_ne by done. simpl. destruct (Nat.eqb_spec (kc - 1) 0); set_solver.
Qed.

Lemma kahn_inv_start indegree queue : (∀ n, n ∈ nodes → indegree !! n = Some (length (deps n))) →
  NoDup queue → (∀ n, n ∈ queue ↔ n ∈ nodes ∧ indegree !! n = Some 0%nat) → kahn_inv [] indegree queue.
Proof.
  intros Hi Hnd Hq. assert (Hp : ∀ n, pending_deps [] n = length (deps n)).
  { intros n. unfold pending_deps. induction (deps n) as [|d l IH]; [done|]. rewrite filter_cons, decide_True by set_solver. cbn [length]. by rewrite IH. }
  split; [by intros n Hn; rewrite Hp; apply Hi| |done|by intros n d ?%not_elem_of_nil].
  intros n. rewrite app_nil_l, Hq, Hp. split; intros [Hn Hc]; split; try done; rewrite Hi in * by done; congruence.
Qed.

Lemma kahn_inv_step taken indegree queue i queue' : kahn_inv taken indegree queue → queue ≡ₚ i :: queue' →
  let '(indegree', queue'') := foldl release (indegree, queue') (dependents i) in kahn_inv (taken ++ [i]) indegree' queue''.
Proof.
  intros [Hc Hq Hnd Hf] Hp. assert (Hall : taken ++ queue ≡ₚ (taken ++ [i]) ++ queue') by (rewrite Hp, <- app_assoc; done).
  assert (Hi : i ∈ nodes ∧ pending_deps taken i = 0%nat) by (apply Hq; rewrite Hp; set_solver). destruct Hi as [Hin Hi0].
  assert (Hti : i ∉ taken) by (rewrite Hp in Hnd; apply NoDup_app in Hnd as (_ & Hd & _); intros Ht; apply (Hd i Ht); by left).
  pose proof (release_all (taken ++ [i]) (dependents i) indegree queue') as Hr.
  destruct (foldl release _ _) as [indegree' queue''] eqn:Ef. destruct Hr as (H1 & H2 & H3).
  - intros n Hn. exists (pending_deps taken n). split; [by apply Hc|]. rewrite dependents_deps, (pending_deps_snoc taken i n) by done. lia.
  - intros c Hc'. by eapply dependents_nodes.
  - by rewrite <- Hall.
  - intros n Hn. rewrite <- Hall in Hn. apply Hq in Hn as [Hn Hn0]. rewrite dependents_deps by done.
    rewrite (pending_deps_snoc taken i n) in Hn0 by done. lia.
  - split; [| |done|].
    + intros n Hn. rewrite (H1 n _ Hn (Hc n Hn)), (pending_deps_snoc taken i n), dependents_deps by done. f_equal. lia.
    + intros n. rewrite H3, <- Hall, Hq. split.
      * intros [[Hn H0]|[Hn H0]]; [split; [done|rewrite (pending_deps_snoc taken i n) in H0 by done; lia]|].
        apply dependents_nodes in Hn. split; [done|]. rewrite Hc, dependents_deps, (pending_deps_snoc taken i n) in H0 by done.
        injection H0 as H0. lia.
      * intros [Hn H0]. destruct (decide (occurrences i (deps n) = 0%nat)) as [Hz|Hz].
        -- left. split; [done|]. rewrite (pending_deps_snoc taken i n) by done. lia.
        -- right. split; [apply occurrences_elem; rewrite dependents_deps by done; lia|].
           rewrite Hc, dependents_deps, (pending_deps_snoc taken i n) by done. f_equal. lia.
    + intros n d [Hn| ->%list_elem_of_singleton]%elem_of_app Hd.
      * destruct (Hf n d Hn Hd) as (l & r & -> & Hl). exists l, (r ++ [i]). split; [by rewrite <- app_assoc|done].
      * exists taken, []. split; [done|]. by apply pending_deps_zero with i.
Qed.

(** The loop ends within the number of nodes, and what it answers lists every
    node after its dependencies. *)
Lemma kahn_runs p fuel taken indegree queue : kahn_inv taken indegree queue → (length nodes <= fuel + length taken)%nat →
  ∃ order indegree', kahn p fuel dependents indegree queue = Some order ∧ kahn_inv (taken ++ order) indegree' [].
Proof.
  revert taken indegree queue. induction fuel as [|fuel IH]; intros taken indegree queue Hinv Hlen; simpl;
    pose proof (pop_spec p queue) as Hpop; destruct (pop p queue) as [[i queue']|]; try (subst queue; exists [], indegree; rewrite app_nil_r; done).
  - exfalso. destruct Hinv as [_ Hq Hnd _]. rewrite Hpop in Hnd.
    assert (Hs : length (taken ++ i :: queue') <= length nodes).
    { apply submseteq_length, NoDup_submseteq; [done|]. intros x Hx. rewrite <- Hpop in Hx. by apply Hq in Hx as [? _]. }
    rewrite length_app in Hs. simpl in Hs. lia.
  - pose proof (kahn_inv_step _ _ _ _ _ Hinv Hpop) as Hstep. destruct (foldl release _ _) as [indegree' queue''].
    destruct (IH _ _ _ Hstep) as (order & ind & Hk & Hi); [rewrite length_app; simpl; lia|].
    exists (i :: order), ind. rewrite Hk. split; [done|]. by rewrite <- app_assoc in Hi.
Qed.

(** ** Acyclicity *)

(** A node depends on the nodes of a smaller rank only. *)
Definition ranked (rank : A → nat) : Prop := ∀ n d, n ∈ nodes → d ∈ deps n → rank d < rank n.
(** [order] lists every node after its dependencies. *)
Definition scheduled (order : list A) : Prop :=
  ∀ n d, n ∈ order → d ∈ deps n → ∃ l r, order = l ++ n :: r ∧ d ∈ l.

Lemma kahn_all_taken order indegree rank : kahn_inv order indegree [] → ranked rank → order ≡ₚ nodes.
Proof.
  intros [_ Hq Hnd _] Hr. rewrite app_nil_r in *. apply NoDup_Permutation; [done|done|]. intros n. rewrite Hq.
  split; [by intros [? _]|]. intros Hn. split; [done|]. revert Hn. remember (rank n) as k eqn:Hk. revert n Hk.
  induction k as [k IH] using (well_founded_induction lt_wf). intros n -> Hn. apply pending_deps_zero. intros d Hd.
  apply Hq. assert (Hdn : d ∈ nodes) by (by eapply deps_nodes). split; [done|]. by eapply IH; [apply Hr|..].
Qed.

Definition place (order : list A) (n : A) : nat := match list_find (n =.) order with Some (k, _) => k | None => 0%nat end.
Lemma place_middle x l1 l2 : NoDup (l1 ++ x :: l2) → place (l1 ++ x :: l2) x = length l1.
Proof.
  intros Hx. unfold place. assert (list_find (x =.) (l1 ++ x :: l2) = Some (length l1, x)) as ->; [|done].
  apply list_find_Some. split_and!; [by rewrite list_lookup_middle|done|]. intros j y Hj Hlt ->.
  rewrite lookup_app_l in Hj by done. apply NoDup_app in Hx as (_ & Hx & _). apply (Hx y); [|by left].
  by apply list_elem_of_lookup_2 in Hj.
Qed.
(** The position in an order of all nodes is a rank. *)
Lemma scheduled_ranked order : order ≡ₚ nodes → scheduled order → ∃ rank, ranked rank.
Proof.
  intros Hp Hs. assert (Hnd : NoDup order) by (by rewrite Hp).
  exists (place order). intros n d Hn Hd. destruct (Hs n d) as (l & r & -> & Hl); [by rewrite Hp|done|].
  rewrite place_middle by done. apply list_elem_of_split in Hl as (l1 & l2 & ->). rewrite <- app_assoc in *. simpl in *.
  rewrite place_middle by done. rewrite length_app. simpl. lia.
Qed.

(** Kahn's algorithm orders all nodes exactly when the graph has a rank, and the
    order it answers is a schedule in any case. *)
Theorem kahn_decides p fuel indegree queue : (∀ n, n ∈ nodes → indegree !! n = Some (length (deps n))) →
  NoDup queue → (∀ n, n ∈ queue ↔ n ∈ nodes ∧ indegree !! n = Some 0%nat) → (length nodes <= fuel)%nat →
  ∃ order, kahn p fuel dependents indegree queue = Some order ∧ NoDup order ∧ (∀ n, n ∈ order → n ∈ nodes) ∧ scheduled order ∧
    (length order = length nodes ↔ order ≡ₚ nodes) ∧ (order ≡ₚ nodes ↔ ∃ rank, ranked rank).
Proof.
  intros Hi Hnd Hq Hf. destruct (kahn_runs p fuel [] indegree queue (kahn_inv_start _ _ Hi Hnd Hq)) as (order & ind & Hk & Hinv); [simpl; lia|].
  exists order. simpl in Hinv. pose proof Hinv as [_ Hq' Hnd' Hs]. rewrite app_nil_r in *.
  assert (Hsub : ∀ n, n ∈ order → n ∈ nodes) by (intros n Hn; by apply Hq' in Hn as [? _]).
  assert (Hsch : scheduled order) by (intros n d; apply Hs). split_and!; [done|done|done|done| |].
  - split; [|by intros ->]. intros Hlen. apply submseteq_length_Permutation; [by apply NoDup_submseteq|lia].
  - split; [intros Hp; by eapply scheduled_ranked|]. intros [rank Hr]. by eapply kahn_all_taken.
Qed.
End kahn.
