(* ===== verification/Blueprint.v ===== *)
(** * Blueprints: tasks with a verify gate and dependencies

    [everyaios-blueprint/src/blueprint.rs] with the task specs of [spec.rs] and
    the verifier of [verify/]: a plan is a list of tasks, each with the specs a
    sub-agent starts from, the checks that decide whether it is done, and the
    ids of the tasks before it. [detect_cycle] is the depth-first search of
    [validate], [topological_order] the loop of [Dag]. *)
From S2P Require Import Prelude Cron Paths Dag.

(** ** Specs ([spec.rs]) *)

(* SRC blueprint/src/spec.rs @struct:TaskSpec TaskSpec *)
Record TaskSpec := { sp_id : string; sp_goal : string; sp_context : list string; sp_acceptance : list string }.
(* SRC blueprint/src/spec.rs @enum:SpecError SpecError *)
Inductive SpecError := SpMissingId | SpMissingGoal.
(* SRC blueprint/src/spec.rs @fn:new TaskSpec::new *)
Definition task_spec_new (id goal : string) : TaskSpec :=
  {| sp_id := id; sp_goal := goal; sp_context := []; sp_acceptance := [] |}.

(** A titled list, left out when it is empty. *)
Definition md_section (title bullet : string) (items : list string) : string :=
  match items with
  | [] => ""
  | _ => nl +:+ title +:+ nl +:+ sconcat ((λ i, bullet +:+ i +:+ nl) <$> items)
  end.
(* SRC blueprint/src/spec.rs @fn:to_markdown TaskSpec::to_markdown *)
Definition spec_to_markdown (s : TaskSpec) : string :=
  "# Task: " +:+ sp_id s +:+ nl +:+ nl +:+ "**Goal:** " +:+ sp_goal s +:+ nl +:+
  md_section "## Context" "- " (sp_context s) +:+ md_section "## Acceptance" "- [ ] " (sp_acceptance s).

(* SRC blueprint/src/spec.rs @enum:Section Section *)
Inductive MdSection := MsNone | MsContext | MsAcceptance | MsOther.
Record SpecParse := {
  pr_id : option string; pr_goal : option string; pr_context : list string; pr_acceptance : list string; pr_section : MdSection
}.
Definition in_section (line : string) (s : MdSection) : MdSection :=
  if String.eqb line "## Context" then MsContext
  else if String.eqb line "## Acceptance" then MsAcceptance
  else if String.eqb line "## Verify" || String.eqb line "## Status" || String.eqb line "## Dependencies" then MsOther
  else s.
(** One line. *)
Definition spec_line (st : SpecParse) (raw : string) : SpecParse :=
  let line := trim raw in
  match strip_prefix "# Task:" line with
  | Some rest => {| pr_id := Some (trim rest); pr_goal := pr_goal st; pr_context := pr_context st;
                    pr_acceptance := pr_acceptance st; pr_section := pr_section st |}
  | None =>
      match strip_prefix "**Goal:**" line with
      | Some rest => {| pr_id := pr_id st; pr_goal := Some (trim rest); pr_context := pr_context st;
                        pr_acceptance := pr_acceptance st; pr_section := pr_section st |}
      | None =>
          let section := in_section line (pr_section st) in
          let context := match section, strip_prefix "-" line with
                         | MsContext, Some item => pr_context st ++ [trim item]
                         | _, _ => pr_context st end in
          let item := match strip_prefix "- [ ]" line with Some i => Some i | None => strip_prefix "-" line end in
          let acceptance := match section, item with
                            | MsAcceptance, Some item => pr_acceptance st ++ [trim item]
                            | _, _ => pr_acceptance st end in
          {| pr_id := pr_id st; pr_goal := pr_goal st; pr_context := context; pr_acceptance := acceptance; pr_section := section |}
      end
  end.
(* SRC blueprint/src/spec.rs @fn:from_markdown TaskSpec::from_markdown *)
Definition spec_from_markdown (md : string) : result TaskSpec SpecError :=
  let st := foldl spec_line {| pr_id := None; pr_goal := None; pr_context := []; pr_acceptance := []; pr_section := MsNone |}
              (str_lines md) in
  match pr_id st, pr_goal st with
  | None, _ => Err SpMissingId
  | _, None => Err SpMissingGoal
  | Some id, Some goal => Ok {| sp_id := id; sp_goal := goal; sp_context := pr_context st; sp_acceptance := pr_acceptance st |}
  end.

(** ** Manifests and the verifier ([verify/]) *)

(* SRC blueprint/src/verify/manifest.rs @enum:HashAlgorithm HashAlgorithm *)
Inductive HashAlgorithm := HaSha256 | HaSha1.
(* SRC blueprint/src/verify/manifest.rs @enum:OutcomeCheck OutcomeCheck *)
Inductive OutcomeCheck :=
  | FileExists (path : string)
  | FileHash (path : string) (algorithm : HashAlgorithm) (expected : string)
  | FileContains (path substring : string).
(* SRC blueprint/src/verify/manifest.rs @fn:path OutcomeCheck::path *)
Definition check_path (c : OutcomeCheck) : string :=
  match c with FileExists p | FileHash p _ _ | FileContains p _ => p end.
(* SRC blueprint/src/verify/manifest.rs @enum:Constraint Constraint *)
Inductive Constraint :=
  | NeverSendToExternalDomains
  | DoNotModify (paths : list string)
  | RequireApprovalBefore (action : string).
(* SRC blueprint/src/verify/manifest.rs @enum:EvidenceRequirement EvidenceRequirement *)
Inductive EvidenceRequirement := EvArtifactSha256 | EvSentMessageId | EvApprovalEventId | EvScreenshot | EvValidatorReport.
(** [f64] budgets are carried, never computed with. *)
(* SRC blueprint/src/verify/manifest.rs @struct:Budgets Budgets *)
Record Budgets := { bg_max_cost_usd : spec_float; bg_max_wall_time_sec : N; bg_max_destructive_actions : N }.
Definition no_budgets : Budgets :=
  {| bg_max_cost_usd := S754_zero false; bg_max_wall_time_sec := 0; bg_max_destructive_actions := 0 |}.
(* SRC blueprint/src/verify/manifest.rs @struct:TaskManifest TaskManifest *)
Record TaskManifest := {
  tm_task_id : string;
  tm_goal : string;
  tm_required_outcomes : list OutcomeCheck;
  tm_constraints : list Constraint;
  tm_budgets : Budgets;
  tm_evidence : list EvidenceRequirement
}.
(* SRC blueprint/src/verify/manifest.rs @fn:has_checkable_outcomes TaskManifest::has_checkable_outcomes *)
Definition has_checkable_outcomes (m : TaskManifest) : bool :=
  match tm_required_outcomes m, tm_evidence m with [], [] => false | _, _ => true end.

(* SRC blueprint/src/verify/status.rs @enum:CompletionStatus CompletionStatus *)
Inductive CompletionStatus :=
  | VerifiedComplete
  | PartiallyComplete (missing : list string)
  | BlockedCorrectly (reason : string)
  | FailedSafely (reason : string)
  | FailedUnsafely (violations : list string)
  | Unverifiable (reason : string).
(* SRC blueprint/src/verify/status.rs @fn:is_complete CompletionStatus::is_complete *)
Definition status_is_complete (s : CompletionStatus) : bool := match s with VerifiedComplete => true | _ => false end.
(* SRC blueprint/src/verify/status.rs @fn:is_safe CompletionStatus::is_safe *)
Definition status_is_safe (s : CompletionStatus) : bool := match s with FailedUnsafely _ => false | _ => true end.
(* SRC blueprint/src/verify/status.rs @fn:label CompletionStatus::label *)
Definition status_label (s : CompletionStatus) : string :=
  match s with
  | VerifiedComplete => "verified_complete" | PartiallyComplete _ => "partially_complete"
  | BlockedCorrectly _ => "blocked_correctly" | FailedSafely _ => "failed_safely"
  | FailedUnsafely _ => "failed_unsafely" | Unverifiable _ => "unverifiable"
  end.

(** [f32] as the Standard Library's binary32. *)
Definition f32 : Type := spec_float.
Definition f32_of_nat (n : nat) : f32 := binary_normalize 24 128 (Z.of_nat n) 0 false.
Definition f32_div : f32 → f32 → f32 := SFdiv 24 128.
Definition f32_0 : f32 := S754_zero false.
Definition f32_1 : f32 := f32_of_nat 1.

(* SRC blueprint/src/verify/verifier.rs @struct:OutcomeCheckResult OutcomeCheckResult *)
Record OutcomeCheckResult := { or_check : OutcomeCheck; or_passed : bool; or_detail : string }.
(* SRC blueprint/src/verify/verifier.rs @struct:VerificationScore VerificationScore *)
Record VerificationScore := { vs_outcome : f32; vs_constraints : f32; vs_safety : f32 }.
(* SRC blueprint/src/verify/verifier.rs @struct:VerificationReport VerificationReport *)
Record VerificationReport := {
  vr_task_id : string;
  vr_status : CompletionStatus;
  vr_outcome_checks : list OutcomeCheckResult;
  vr_policy_violations : list string;
  vr_score : VerificationScore
}.

(** The workspace a check looks at: [exists], [read] and [read_to_string] with
    the text of their errors; and the SHA-1 crate. *)
Class Workspace := {
  ws_exists : string → bool;
  ws_read : string → result string string;
  ws_read_text : string → result string string
}.
Class Sha1 := { sha1_hex : string → string }.

Definition eq_ignore_ascii_case (a b : string) : bool := String.eqb (to_ascii_lowercase a) (to_ascii_lowercase b).

Section verifier.
Context {ws : Workspace} {sha : Sha256} {sha1 : Sha1}.

(* SRC blueprint/src/verify/verifier.rs @fn:resolve resolve *)
Definition resolve_check (base_dir p : string) : string := if rooted p then p else path_join base_dir p.

(* SRC blueprint/src/verify/verifier.rs @fn:run_outcome_check run_outcome_check *)
Definition run_outcome_check (check : OutcomeCheck) (base_dir : string) : OutcomeCheckResult :=
  let path := resolve_check base_dir (check_path check) in
  let answer passed detail := {| or_check := check; or_passed := passed; or_detail := detail |} in
  match check with
  | FileExists _ =>
      let passed := ws_exists path in
      answer passed (path +:+ if (passed : bool) then " exists" else " does not exist")
  | FileHash _ algorithm expected =>
      match ws_read path with
      | Ok bytes =>
          let hex := match algorithm with HaSha256 => sha256_hex bytes | HaSha1 => sha1_hex bytes end in
          answer (eq_ignore_ascii_case hex expected) (hex +:+ " (want " +:+ expected +:+ ")")
      | Err e => answer false ("cannot read " +:+ path +:+ ": " +:+ e)
      end
  | FileContains _ substring =>
      match ws_read_text path with
      | Ok text =>
          let passed := contains substring text in
          answer passed (path +:+ if (passed : bool) then " contains the required text" else " is missing the required text")
      | Err e => answer false ("cannot read " +:+ path +:+ ": " +:+ e)
      end
  end.

(* SRC blueprint/src/verify/verifier.rs @fn:verify_with_policy verify_with_policy *)
Definition verify_with_policy (manifest : TaskManifest) (base_dir : string) (policy_violations : list string) : VerificationReport :=
  let outcome_checks := (λ c, run_outcome_check c base_dir) <$> tm_required_outcomes manifest in
  let passed := length (List.filter or_passed outcome_checks) in
  let total := length outcome_checks in
  let status :=
    if negb (has_checkable_outcomes manifest) then Unverifiable "no checkable outcomes or evidence requirements"
    else match policy_violations with
    | _ :: _ => FailedUnsafely policy_violations
    | [] =>
        if (passed =? total)%nat && (0 <? total)%nat then VerifiedComplete
        else if (0 <? passed)%nat then
          PartiallyComplete ((λ r, check_path (or_check r)) <$> List.filter (λ r, negb (or_passed r)) outcome_checks)
        else FailedSafely "no required outcome check passed"
    end in
  let gate := match policy_violations with [] => f32_1 | _ => f32_0 end in
  {| vr_task_id := tm_task_id manifest; vr_status := status; vr_outcome_checks := outcome_checks;
     vr_policy_violations := policy_violations;
     vr_score := {| vs_outcome := if (total =? 0)%nat then f32_0 else f32_div (f32_of_nat passed) (f32_of_nat total);
                    vs_constraints := gate; vs_safety := gate |} |}.
(* SRC blueprint/src/verify/verifier.rs @fn:verify verify *)
Definition verify (manifest : TaskManifest) (base_dir : string) : VerificationReport := verify_with_policy manifest base_dir [].
End verifier.

(** ** Tasks and their states ([blueprint.rs]) *)

(* SRC blueprint/src/blueprint.rs @struct:VerifyBlock VerifyBlock *)
Record VerifyBlock := { vb_checks : list OutcomeCheck; vb_policy : list string }.
(* SRC blueprint/src/blueprint.rs @enum:TaskStatus TaskStatus *)
Inductive BlueprintStatus := BsPending | BsInProgress | BsDone | BsFailed | BsBlocked.
#[export] Instance blueprint_status_eq_dec : EqDecision BlueprintStatus.
Proof. solve_decision. Defined.
(* SRC blueprint/src/blueprint.rs @fn:as_str TaskStatus::as_str *)
Definition blueprint_status_str (s : BlueprintStatus) : string :=
  match s with
  | BsPending => "pending" | BsInProgress => "in_progress" | BsDone => "done" | BsFailed => "failed" | BsBlocked => "blocked"
  end.
(* SRC blueprint/src/blueprint.rs @fn:parse TaskStatus::parse *)
Definition blueprint_status_parse (s : string) : option BlueprintStatus :=
  if String.eqb s "pending" then Some BsPending
  else if String.eqb s "in_progress" || String.eqb s "in-progress" || String.eqb s "running" then Some BsInProgress
  else if String.eqb s "done" || String.eqb s "complete" || String.eqb s "completed" then Some BsDone
  else if String.eqb s "failed" then Some BsFailed
  else if String.eqb s "blocked" then Some BsBlocked
  else None.
(** The derived [Debug]. *)
Definition blueprint_status_debug (s : BlueprintStatus) : string :=
  match s with
  | BsPending => "Pending" | BsInProgress => "InProgress" | BsDone => "Done" | BsFailed => "Failed" | BsBlocked => "Blocked"
  end.
Definition legal_status (from to : BlueprintStatus) : bool :=
  bool_decide (from = to) ||
  match from, to with
  | BsPending, BsInProgress
  | BsInProgress, BsDone | BsInProgress, BsFailed | BsInProgress, BsBlocked
  | BsBlocked, BsInProgress | BsBlocked, BsFailed
  | BsFailed, BsInProgress => true
  | _, _ => false
  end.
(* SRC blueprint/src/blueprint.rs @fn:transition TaskStatus::transition *)
Definition status_transition (from to : BlueprintStatus) : result BlueprintStatus string :=
  if legal_status from to then Ok to
  else Err ("illegal transition " +:+ blueprint_status_debug from +:+ " -> " +:+ blueprint_status_debug to).

(* SRC blueprint/src/blueprint.rs @struct:BlueprintTask BlueprintTask *)
Record BlueprintTask := { bt_spec : TaskSpec; bt_verify : VerifyBlock; bt_depends_on : list string; bt_status : BlueprintStatus }.
(* SRC blueprint/src/blueprint.rs @fn:new#2 BlueprintTask::new *)
Definition blueprint_task_new (spec : TaskSpec) (verify : VerifyBlock) : BlueprintTask :=
  {| bt_spec := spec; bt_verify := verify; bt_depends_on := []; bt_status := BsPending |}.
Definition bt_id (t : BlueprintTask) : string := sp_id (bt_spec t).
(* SRC blueprint/src/blueprint.rs @fn:to_manifest BlueprintTask::to_manifest *)
Definition to_manifest (t : BlueprintTask) : TaskManifest :=
  {| tm_task_id := bt_id t; tm_goal := sp_goal (bt_spec t); tm_required_outcomes := vb_checks (bt_verify t);
     tm_constraints := []; tm_budgets := no_budgets; tm_evidence := [] |}.
(* SRC blueprint/src/blueprint.rs @fn:verify_against BlueprintTask::verify_against *)
Definition verify_against {ws : Workspace} {sha : Sha256} {sha1 : Sha1} (base_dir : string) (t : BlueprintTask) : VerificationReport :=
  verify (to_manifest t) base_dir.
Definition with_status (s : BlueprintStatus) (t : BlueprintTask) : BlueprintTask :=
  {| bt_spec := bt_spec t; bt_verify := bt_verify t; bt_depends_on := bt_depends_on t; bt_status := s |}.

(* SRC blueprint/src/blueprint.rs @struct:Blueprint Blueprint *)
Record Blueprint := { bp_id : string; bp_goal : string; bp_tasks : list BlueprintTask }.
(* SRC blueprint/src/blueprint.rs @enum:BlueprintError BlueprintError *)
Inductive BlueprintError := UnknownDependency (task dep : string) | CycleAt (task : string).

Definition set_tasks (l : list BlueprintTask) (b : Blueprint) : Blueprint :=
  {| bp_id := bp_id b; bp_goal := bp_goal b; bp_tasks := l |}.
(* SRC blueprint/src/blueprint.rs @fn:push Blueprint::push *)
Definition blueprint_push (t : BlueprintTask) (b : Blueprint) : Blueprint := set_tasks (bp_tasks b ++ [t]) b.
(* SRC blueprint/src/blueprint.rs @fn:find Blueprint::find *)
Definition blueprint_find (b : Blueprint) (id : string) : option BlueprintTask :=
  List.find (λ t, String.eqb (bt_id t) id) (bp_tasks b).
Definition task_done (b : Blueprint) (id : string) : bool :=
  match blueprint_find b id with Some d => bool_decide (bt_status d = BsDone) | None => false end.
(* SRC blueprint/src/blueprint.rs @fn:ready Blueprint::ready *)
Definition blueprint_ready (b : Blueprint) : list BlueprintTask :=
  List.filter (λ t, forallb (task_done b) (bt_depends_on t))
    (List.filter (λ t, negb (bool_decide (bt_status t = BsDone)) && negb (bool_decide (bt_status t = BsFailed))) (bp_tasks b)).

(** ** Cycles *)

(** The sets [visiting] and [visited]. *)
Notation Marks := (gset string * gset string)%type.
(** Each dependency in turn, until one closes a cycle. [None]: out of fuel. *)
Fixpoint each_dep (visit : string → Marks → option (bool * Marks)) (ds : list string) (st : Marks) : option (bool * Marks) :=
  match ds with
  | [] => Some (false, st)
  | d :: ds => match visit d st with Some (false, st) => each_dep visit ds st | r => r end
  end.
(* SRC blueprint/src/blueprint.rs @fn:detect_cycle Blueprint::detect_cycle *)
Fixpoint detect_cycle (fuel : nat) (b : Blueprint) (id : string) (st : Marks) : option (bool * Marks) :=
  let '(visiting, visited) := st in
  if bool_decide (id ∈ visiting) then Some (true, st)
  else if bool_decide (id ∈ visited) then Some (false, st)
  else match fuel with
  | O => None
  | S fuel =>
      let deps := match blueprint_find b id with Some t => bt_depends_on t | None => [] end in
      match each_dep (detect_cycle fuel b) deps ({[id]} ∪ visiting, visited) with
      | Some (false, (visiting, visited)) => Some (false, (visiting ∖ {[id]}, {[id]} ∪ visited))
      | r => r
      end
  end.

Definition missing_dep (b : Blueprint) (t : BlueprintTask) : option string :=
  List.find (λ d, match blueprint_find b d with None => true | Some _ => false end) (bt_depends_on t).
Fixpoint check_known (b : Blueprint) (l : list BlueprintTask) : result unit BlueprintError :=
  match l with
  | [] => Ok tt
  | t :: l => match missing_dep b t with Some d => Err (UnknownDependency (bt_id t) d) | None => check_known b l end
  end.
Fixpoint check_cycles (fuel : nat) (b : Blueprint) (l : list BlueprintTask) (st : Marks) : option (result unit BlueprintError) :=
  match l with
  | [] => Some (Ok tt)
  | t :: l =>
      match detect_cycle fuel b (bt_id t) st with
      | None => None
      | Some (true, _) => Some (Err (CycleAt (bt_id t)))
      | Some (false, st) => check_cycles fuel b l st
      end
  end.
(** The search descends at most once into each task. *)
(* SRC blueprint/src/blueprint.rs @fn:validate Blueprint::validate *)
Definition blueprint_validate (b : Blueprint) : option (result unit BlueprintError) :=
  match check_known b (bp_tasks b) with
  | Err e => Some (Err e)
  | Ok _ => check_cycles (S (length (bp_tasks b))) b (bp_tasks b) (∅, ∅)
  end.

(** ** The order *)

Fixpoint position_from (k : nat) (l : list BlueprintTask) (id : string) : option nat :=
  match l with
  | [] => None
  | t :: l => if String.eqb (bt_id t) id then Some k else position_from (S k) l id
  end.
Definition task_position (b : Blueprint) (id : string) : option nat := position_from 0 (bp_tasks b) id.
Definition add_dependent (b : Blueprint) (i : nat) (m : gmap nat (list nat)) (d : string) : gmap nat (list nat) :=
  match task_position b d with Some j => <[j := default [] (m !! j) ++ [i]]> m | None => m end.
Fixpoint add_dependents (b : Blueprint) (i : nat) (l : list BlueprintTask) (m : gmap nat (list nat)) : gmap nat (list nat) :=
  match l with
  | [] => m
  | t :: l => add_dependents b (S i) l (foldl (add_dependent b i) m (bt_depends_on t))
  end.
Definition indegrees (l : list BlueprintTask) : gmap nat nat := list_to_map (imap (λ i t, (i, length (bt_depends_on t))) l).

(* SRC blueprint/src/blueprint.rs @fn:topological_order Blueprint::topological_order *)
Definition blueprint_order (b : Blueprint) : option (result (list string) BlueprintError) :=
  match blueprint_validate b with
  | None => None
  | Some (Err e) => Some (Err e)
  | Some (Ok _) =>
      let n := length (bp_tasks b) in
      let dependents := add_dependents b 0 (bp_tasks b) ∅ in
      let indegree := indegrees (bp_tasks b) in
      let queue := List.filter (λ i, bool_decide (indegree !! i = Some 0%nat)) (seq 0 n) in
      match kahn PopFront n (λ i, default [] (dependents !! i)) indegree queue with
      | None => None
      | Some taken =>
          let order := omap (λ i, bt_id <$> bp_tasks b !! i) taken in
          Some (if (length order =? n)%nat then Ok order else Err (CycleAt (bp_id b)))
      end
  end.

(** ** Progress *)

Fixpoint set_status_in {dbg : StrDebug} (id : string) (to : BlueprintStatus) (l : list BlueprintTask) : result (list BlueprintTask) string :=
  match l with
  | [] => Err ("unknown task " +:+ str_debug id)
  | t :: l =>
      if String.eqb (bt_id t) id then s <-? status_transition (bt_status t) to;; Ok (with_status s t :: l)
      else l <-? set_status_in id to l;; Ok (t :: l)
  end.
(* SRC blueprint/src/blueprint.rs @fn:set_status Blueprint::set_status *)
Definition blueprint_set_status {dbg : StrDebug} (id : string) (to : BlueprintStatus) (b : Blueprint) : result Blueprint string :=
  l <-? set_status_in id to (bp_tasks b);; Ok (set_tasks l b).
(* SRC blueprint/src/blueprint.rs @fn:is_complete Blueprint::is_complete *)
Definition blueprint_is_complete (b : Blueprint) : bool :=
  match bp_tasks b with [] => false | l => forallb (λ t, bool_decide (bt_status t = BsDone)) l end.
