(* ===== verification/BlueprintFacts.v ===== *)
(** * What a blueprint guarantees

    The search of [validate] decides acyclicity and always ends; a valid plan
    has an order of all its tasks, each after its dependencies; the verifier's
    word; and a valid plan that is not finished offers a task. *)
From S2P Require Import Prelude Cron Paths Dag Blueprint.

Section plan.
Context (b : Blueprint).

(** ** The dependency relation *)

Definition dep_edge (x y : string) : Prop := ∃ t, blueprint_find b x = Some t ∧ y ∈ bt_depends_on t.
Definition cyclic : Prop := ∃ x, tc dep_edge x x.
Definition deps_known : Prop := ∀ t d, t ∈ bp_tasks b → d ∈ bt_depends_on t → is_Some (blueprint_find b d).
Definition deps_of (id : string) : list string := match blueprint_find b id with Some t => bt_depends_on t | None => [] end.

Lemma edge_deps x y : dep_edge x y ↔ y ∈ deps_of x.
Proof.
  unfold dep_edge, deps_of. destruct (blueprint_find b x) as [t|]; [|split; [by intros (t & [=] & _)|by intros ?%not_elem_of_nil]].
  split; [by intros (t' & [= <-] & Hy)|]. by exists t.
Qed.
Lemma find_in id t : blueprint_find b id = Some t → t ∈ bp_tasks b ∧ bt_id t = id.
Proof. intros [Hin He]%List.find_some. split; [by apply list_elem_of_In|by apply String.eqb_eq]. Qed.
Lemma find_of t : t ∈ bp_tasks b → is_Some (blueprint_find b (bt_id t)).
Proof.
  intros Hin. destruct (blueprint_find b (bt_id t)) as [t'|] eqn:E; [by eexists|].
  apply list_elem_of_In in Hin. pose proof (List.find_none _ _ E _ Hin) as Hf. simpl in Hf. by rewrite String.eqb_refl in Hf.
Qed.

(** ** The search *)

(** A visited node reaches visited nodes of a smaller rank only. *)
Definition settled (visited : gset string) : Prop :=
  ∃ rank : string → nat, ∀ x y, x ∈ visited → dep_edge x y → y ∈ visited ∧ rank y < rank x.

Lemma settled_add visited id : settled visited → (∀ d, d ∈ deps_of id → d ∈ visited) → ¬ dep_edge id id → settled ({[id]} ∪ visited).
Proof.
  intros [rank Hr] Hd Hself. destruct (decide (id ∈ visited)) as [Hin|Hin].
  { replace ({[id]} ∪ visited) with visited by set_solver. by exists rank. }
  exists (λ x, if decide (x = id) then S (list_max (rank <$> deps_of id)) else rank x).
  intros x y [->%elem_of_singleton|Hx]%elem_of_union He.
  - apply edge_deps in He as Hy. split; [set_solver|]. rewrite (decide_True (P := id = id)) by done.
    rewrite decide_False by (intros ->; done). apply Nat.lt_succ_r.
    assert (Hm : Forall (λ k, k <= list_max (rank <$> deps_of id)) (rank <$> deps_of id)) by (by apply list_max_le).
    rewrite Forall_forall in Hm. apply Hm. by apply list_elem_of_fmap_2.
  - destruct (Hr x y Hx He) as [Hy Hlt]. split; [set_solver|]. rewrite !decide_False by (intros ->; done). done.
Qed.

(** What one visit answers. *)
Definition visit_spec (id : string) (visiting visited : gset string) (r : option (bool * Marks)) : Prop :=
  match r with
  | None => True
  | Some (true, _) => cyclic
  | Some (false, (visiting', visited')) => visiting' = visiting ∧ visited ⊆ visited' ∧ id ∈ visited' ∧ settled visited'
  end.

Lemma each_dep_spec visit ds visiting visited :
  (∀ d visited, d ∈ ds → settled visited → visit_spec d visiting visited (visit d (visiting, visited))) → settled visited →
  match each_dep visit ds (visiting, visited) with
  | None => True
  | Some (true, _) => cyclic
  | Some (false, (visiting', visited')) => visiting' = visiting ∧ visited ⊆ visited' ∧ (∀ d, d ∈ ds → d ∈ visited') ∧ settled visited'
  end.
Proof.
  revert visited. induction ds as [|d ds IH]; intros visited Hv Hs; simpl.
  { split_and!; [done|done|by intros d ?%not_elem_of_nil|done]. }
  pose proof (Hv d visited (list_elem_of_here _ _) Hs) as H. destruct (visit d (visiting, visited)) as [[[] [vg vd]]|]; [done| |done].
  destruct H as (-> & Hsub & Hd & Hs'). specialize (IH vd (λ d v Hin, Hv d v (list_elem_of_further _ _ _ Hin)) Hs').
  destruct (each_dep visit ds (visiting, vd)) as [[[] [vg' vd']]|]; [done| |done].
  destruct IH as (-> & H1 & H2 & H3). split_and!; [done|set_solver| |done]. intros x [->|Hx]%elem_of_cons; [set_solver|by apply H2].
Qed.

Lemma detect_cycle_spec fuel id visiting visited : (∀ x, x ∈ visiting → tc dep_edge x id) → settled visited →
  visit_spec id visiting visited (detect_cycle fuel b id (visiting, visited)).
Proof.
  revert id visiting visited. induction fuel as [|fuel IH]; intros id visiting visited Hp Hs; simpl;
    (case_bool_decide as Hvg; [exists id; by apply Hp|]); (case_bool_decide as Hvd; [done|]); [done|].
  fold (deps_of id).
  pose proof (each_dep_spec (detect_cycle fuel b) (deps_of id) ({[id]} ∪ visiting) visited) as H.
  destruct (each_dep _ _ _) as [[[] [vg vd]]|]; [|simpl|done].
  - apply H; [|done]. intros d v Hd Hsv. apply IH; [|done].
    intros x [->%elem_of_singleton|Hx]%elem_of_union; [by apply tc_once, edge_deps|].
    eapply tc_r; [by apply Hp|by apply edge_deps].
  - destruct H as (-> & Hsub & Hd & Hs'); [|done|].
    { intros d v Hd Hsv. apply IH; [|done]. intros x [->%elem_of_singleton|Hx]%elem_of_union; [by apply tc_once, edge_deps|].
      eapply tc_r; [by apply Hp|by apply edge_deps]. }
    split_and!; [set_solver|set_solver|set_solver|]. apply settled_add; [done|done|]. intros He.
    destruct Hs' as [rank Hr]. apply edge_deps in He as Hid. destruct (Hr id id (Hd id Hid) He) as [_ Hlt]. lia.
Qed.

(** The fuel: the tasks that are not on the path yet. *)
Definition task_ids : gset string := list_to_set (bt_id <$> bp_tasks b).
Lemma find_none_deps id : id ∉ task_ids → deps_of id = [].
Proof.
  intros Hn. unfold deps_of. destruct (blueprint_find b id) as [t|] eqn:E; [|done]. apply find_in in E as [Hin <-].
  exfalso. apply Hn. unfold task_ids. apply elem_of_list_to_set. by apply list_elem_of_fmap_2.
Qed.

Lemma each_dep_total visit ds visiting visited :
  (∀ d visited, d ∈ ds → settled visited → visit d (visiting, visited) ≠ None) →
  (∀ d visited, d ∈ ds → settled visited → visit_spec d visiting visited (visit d (visiting, visited))) → settled visited →
  each_dep visit ds (visiting, visited) ≠ None.
Proof.
  revert visited. induction ds as [|d ds IH]; intros visited Ht Hv Hs; simpl; [done|].
  pose proof (Ht d visited (list_elem_of_here _ _) Hs) as Hd. pose proof (Hv d visited (list_elem_of_here _ _) Hs) as H.
  destruct (visit d (visiting, visited)) as [[[] [vg vd]]|]; [done| |done]. destruct H as (-> & _ & _ & Hs').
  apply IH; [| |done]; intros d' v Hin; [apply Ht|apply Hv]; by right.
Qed.
Lemma detect_cycle_total fuel id visiting visited : (∀ x, x ∈ visiting → tc dep_edge x id) → settled visited →
  size (task_ids ∖ visiting) < fuel → detect_cycle fuel b id (visiting, visited) ≠ None.
Proof.
  revert id visiting visited. induction fuel as [|fuel IH]; intros id visiting visited Hp Hs Hf; [lia|]. simpl.
  case_bool_decide as Hvg; [done|]. case_bool_decide as Hvd; [done|]. fold (deps_of id).
  assert (Hpath : ∀ d, d ∈ deps_of id → ∀ x, x ∈ {[id]} ∪ visiting → tc dep_edge x d).
  { intros d Hd x [->%elem_of_singleton|Hx]%elem_of_union; [by apply tc_once, edge_deps|].
    eapply tc_r; [by apply Hp|by apply edge_deps]. }
  enough (each_dep (detect_cycle fuel b) (deps_of id) ({[id]} ∪ visiting, visited) ≠ None) as H
    by (destruct (each_dep _ _ _) as [[[] [vg vd]]|]; done).
  destruct (decide (id ∈ task_ids)) as [Hid|Hid]; [|by rewrite find_none_deps].
  apply each_dep_total; [| |done]; intros d v Hd Hsv; [|by apply detect_cycle_spec; [apply Hpath|]].
  apply IH; [by apply Hpath|done|]. assert (Hsz : size (task_ids ∖ ({[id]} ∪ visiting)) < size (task_ids ∖ visiting)); [|lia].
  apply subset_size. split; [set_solver|]. intros Hx. apply (proj1 (elem_of_difference _ _ id)) in Hx; set_solver.
Qed.

Lemma task_ids_size : size task_ids < S (length (bp_tasks b)).
Proof.
  unfold task_ids. apply Nat.lt_succ_r. induction (bp_tasks b) as [|t l IH]; simpl; [change (size (∅ : gset string) <= 0); by rewrite size_empty|].
  rewrite size_union_alt, size_singleton. apply le_n_S. etransitivity; [|exact IH]. apply subseteq_size. set_solver.
Qed.
Lemma settled_start : settled ∅.
Proof. exists (λ _, 0). by intros x y ?%elem_of_empty. Qed.
Lemma check_cycles_spec l fuel visited : size task_ids < fuel → settled visited →
  ∃ r, check_cycles fuel b l (∅, visited) = Some r ∧
    match r with Err _ => cyclic | Ok _ => ∃ visited', settled visited' ∧ visited ⊆ visited' ∧ ∀ t, t ∈ l → bt_id t ∈ visited' end.
Proof.
  intros Hf. revert visited. induction l as [|t l IH]; intros visited Hs; simpl.
  { exists (Ok tt). split; [done|]. exists visited. split_and!; [done|done|by intros t ?%not_elem_of_nil]. }
  assert (Hp : ∀ x, x ∈ (∅ : gset string) → tc dep_edge x (bt_id t)) by set_solver.
  pose proof (detect_cycle_total fuel (bt_id t) ∅ visited Hp Hs) as Ht. pose proof (detect_cycle_spec fuel (bt_id t) ∅ visited Hp Hs) as H.
  destruct (detect_cycle fuel b (bt_id t) (∅, visited)) as [[[] [vg vd]]|]; [by eexists| |].
  - destruct H as (-> & Hsub & Hin & Hs'). destruct (IH vd Hs') as (r & Hr & Hm). exists r. split; [done|].
    destruct r as [u|]; [|done]. destruct Hm as (v & Hv & Hsub' & Hall). exists v. split_and!; [done|set_solver|].
    intros t' [->|Ht']%elem_of_cons; [set_solver|by apply Hall].
  - exfalso. apply Ht; [|done]. by rewrite difference_empty_L.
Qed.
Lemma check_known_spec l : match check_known b l with
  | Ok _ => ∀ t d, t ∈ l → d ∈ bt_depends_on t → is_Some (blueprint_find b d)
  | Err (UnknownDependency id d) => ∃ t, t ∈ l ∧ bt_id t = id ∧ d ∈ bt_depends_on t ∧ blueprint_find b d = None
  | Err (CycleAt _) => False
  end.
Proof.
  induction l as [|t l IH]; simpl; [by intros t d ?%not_elem_of_nil|].
  destruct (missing_dep b t) as [d|] eqn:Hm.
  - apply List.find_some in Hm as [Hd Hn]. exists t. split_and!; [by left|done|by apply list_elem_of_In|].
    by destruct (blueprint_find b d).
  - assert (Ht : ∀ d, d ∈ bt_depends_on t → is_Some (blueprint_find b d)).
    { intros d Hd. apply list_elem_of_In in Hd. pose proof (List.find_none _ _ Hm _ Hd) as Hn. simpl in Hn.
      by destruct (blueprint_find b d). }
    destruct (check_known b l) as [u|[id d|id]]; [|by destruct IH as (t' & Ht' & Hr); exists t'; split; [by right|]|done].
    intros t' d [->|Ht']%elem_of_cons Hd; [by apply Ht|by eapply IH].
Qed.

Lemma validated : blueprint_validate b = Some (Ok tt) → deps_known ∧ ∃ visited, settled visited ∧ ∀ t, t ∈ bp_tasks b → bt_id t ∈ visited.
Proof.
  unfold blueprint_validate. pose proof (check_known_spec (bp_tasks b)) as Hk. destruct (check_known b (bp_tasks b)); [|done].
  pose proof task_ids_size as Hsz.
  destruct (check_cycles_spec (bp_tasks b) _ ∅ Hsz settled_start) as (r & -> & Hr). intros [= ->].
  destruct Hr as (v & Hv & _ & Hall). split; [exact Hk|by exists v].
Qed.
Lemma settled_acyclic visited : settled visited → (∀ t, t ∈ bp_tasks b → bt_id t ∈ visited) → ¬ cyclic.
Proof.
  intros [rank Hr] Hall [x Hx]. assert (Hin : ∀ y z, dep_edge y z → y ∈ visited).
  { intros y z (t & Ht & _). apply find_in in Ht as [Ht <-]. by apply Hall. }
  enough (∀ y z, tc dep_edge y z → rank z < rank y) as H by (specialize (H x x Hx); lia).
  induction 1 as [y z He|y z w He Hw IH].
  - by apply (Hr y z (Hin _ _ He)).
  - destruct (Hr y z (Hin _ _ He) He). lia.
Qed.

(** [C32] The search of [validate] is total and decides: for every plan it ends
    within one descent per task, and it accepts exactly when every dependency
    names a task and no task reaches itself; a reported cycle exists. *)
Theorem validate_decides : ∃ r, blueprint_validate b = Some r ∧ (r = Ok tt ↔ deps_known ∧ ¬ cyclic) ∧
  (∀ id, r = Err (CycleAt id) → deps_known ∧ cyclic).
Proof.
  pose proof (check_known_spec (bp_tasks b)) as Hk. pose proof validated as Hval. unfold blueprint_validate in *.
  destruct (check_known b (bp_tasks b)) as [u|[t d|]]; [| |done].
  - pose proof task_ids_size as Hsz.
    destruct (check_cycles_spec (bp_tasks b) _ ∅ Hsz settled_start) as (r & Hr & Hm). rewrite Hr in *. exists r. split; [done|].
    destruct r as [[]|e].
    + destruct (Hval eq_refl) as (_ & v & Hv & Hall). split; [|done]. split; [|done]. intros _. split; [exact Hk|by eapply settled_acyclic].
    + split; [split; [done|]|]; [by intros [_ Hn]|]. intros id [= ->]. split; [exact Hk|done].
  - exists (Err (UnknownDependency t d)). split; [done|]. split; [split; [done|]|done]. intros [Hall _].
    destruct Hk as (t' & Ht & _ & Hd & Hn). destruct (Hall t' d Ht Hd) as [x Hx]. congruence.
Qed.

(** ** The order *)

Lemma position_spec k l id : match position_from k l id with
  | Some j => ∃ i t, j = (k + i)%nat ∧ l !! i = Some t ∧ bt_id t = id ∧ List.find (λ t, String.eqb (bt_id t) id) l = Some t
  | None => List.find (λ t, String.eqb (bt_id t) id) l = None
  end.
Proof.
  revert k. induction l as [|t l IH]; intros k; simpl; [done|]. destruct (String.eqb_spec (bt_id t) id) as [He|He].
  - exists 0%nat, t. split_and!; [lia|done|done|done].
  - specialize (IH (S k)). destruct (position_from (S k) l id) as [j|]; [|done].
    destruct IH as (i & t' & -> & Ht & Hid & Hf). exists (S i), t'. split_and!; [lia|done|done|done].
Qed.
Lemma task_position_some id j : task_position b id = Some j →
  ∃ t, bp_tasks b !! j = Some t ∧ bt_id t = id ∧ blueprint_find b id = Some t.
Proof.
  intros E. pose proof (position_spec 0 (bp_tasks b) id) as H. unfold task_position in E. rewrite E in H.
  destruct H as (i & t & -> & Ht & Hid & Hf). by exists t.
Qed.
Lemma task_position_known id : is_Some (blueprint_find b id) → is_Some (task_position b id).
Proof.
  intros [t Ht]. pose proof (position_spec 0 (bp_tasks b) id) as H. unfold task_position.
  destruct (position_from 0 (bp_tasks b) id); [by eexists|]. unfold blueprint_find in Ht. congruence.
Qed.

(** The dependencies of a task as indices. *)
Definition idx_deps (i : nat) : list nat :=
  match bp_tasks b !! i with Some t => omap (task_position b) (bt_depends_on t) | None => [] end.
Lemma elem_of_idx_deps i j : j ∈ idx_deps i ↔ ∃ t d, bp_tasks b !! i = Some t ∧ d ∈ bt_depends_on t ∧ task_position b d = Some j.
Proof.
  unfold idx_deps. destruct (bp_tasks b !! i) as [t|]; [|split; [by intros ?%not_elem_of_nil|by intros (t & d & [=] & _)]].
  rewrite list_elem_of_omap. split; [intros (d & Hd & Hp); by exists t, d|]. intros (t' & d & [= <-] & Hd & Hp). by exists d.
Qed.

Lemma indegrees_lookup l i : indegrees l !! i = (λ t, length (bt_depends_on t)) <$> l !! i.
Proof.
  unfold indegrees. assert (Hk : ∀ k (l : list BlueprintTask), (imap (λ i t, ((k + i)%nat, length (bt_depends_on t))) l).*1 = seq k (length l)).
  { intros k l'. revert k. induction l' as [|t l' IH]; intros k; simpl; [done|]. rewrite Nat.add_0_r. f_equal.
    rewrite <- (IH (S k)). f_equal. apply imap_ext. intros j x _. simpl. f_equal. lia. }
  assert (Hnd : NoDup (imap (λ i t, (i, length (bt_depends_on t))) l).*1).
  { specialize (Hk 0%nat l). simpl in Hk. rewrite Hk. apply NoDup_seq. }
  destruct (l !! i) as [t|] eqn:E; simpl.
  - apply elem_of_list_to_map_1; [done|]. apply list_elem_of_lookup. exists i. by rewrite list_lookup_imap, E.
  - apply not_elem_of_list_to_map_1. intros (x & -> & Hx)%list_elem_of_fmap. apply list_elem_of_lookup in Hx as [j Hj].
    rewrite list_lookup_imap in Hj. apply fmap_Some in Hj as (t & Ht & ->). simpl in E. congruence.
Qed.

Lemma add_dependent_all i ds m n j :
  occurrences n (default [] (foldl (add_dependent b i) m ds !! j)) =
  (occurrences n (default [] (m !! j)) + if decide (n = i) then occurrences j (omap (task_position b) ds) else 0)%nat.
Proof.
  revert m. induction ds as [|d ds IH]; intros m; csimpl; [case_decide; unfold occurrences; csimpl; lia|]. rewrite IH.
  unfold add_dependent at 1. destruct (task_position b d) as [k|] eqn:E; [|done]. rewrite occurrences_cons.
  destruct (decide (j = k)) as [->|Hne].
  - rewrite lookup_insert_eq. csimpl. unfold occurrences at 1. rewrite filter_app, length_app. fold (occurrences n (default [] (m !! k))).
    rewrite filter_cons, filter_nil. repeat case_decide; csimpl; lia.
  - rewrite lookup_insert_ne by done. case_decide; lia.
Qed.
Lemma add_dependents_all i l m n j :
  occurrences n (default [] (add_dependents b i l m !! j)) =
  (occurrences n (default [] (m !! j)) +
   if decide (i <= n) then match l !! (n - i)%nat with Some t => occurrences j (omap (task_position b) (bt_depends_on t)) | None => 0 end else 0)%nat.
Proof.
  revert i m. induction l as [|t l IH]; intros i m; csimpl; [case_decide; csimpl; lia|]. rewrite IH, add_dependent_all.
  repeat case_decide; subst; try lia.
  - replace (i - i)%nat with 0%nat by lia. csimpl. lia.
  - replace (n - i)%nat with (S (n - S i)) by lia. csimpl. lia.
Qed.
Lemma dependents_idx m n : occurrences n (default [] (add_dependents b 0 (bp_tasks b) ∅ !! m)) = occurrences m (idx_deps n).
Proof.
  rewrite add_dependents_all, lookup_empty, decide_True by lia. rewrite Nat.sub_0_r. unfold idx_deps.
  destruct (bp_tasks b !! n); [done|]. unfold occurrences. done.
Qed.

(** A valid plan has a rank over its indices: a task that another one of its id
    hides is depended on by none. *)
Lemma validated_ranked visited : settled visited → (∀ t, t ∈ bp_tasks b → bt_id t ∈ visited) →
  ∃ rank, ranked (seq 0 (length (bp_tasks b))) idx_deps rank.
Proof.
  intros [rank Hr] Hall. set (top := S (list_max (rank <$> (bt_id <$> bp_tasks b)))).
  exists (λ i, match bp_tasks b !! i with
               | Some t => if decide (task_position b (bt_id t) = Some i) then rank (bt_id t) else top
               | None => 0%nat end).
  intros i j _ (t & d & Ht & Hd & Hp)%elem_of_idx_deps. destruct (task_position_some _ _ Hp) as (u & Hu & Hid & Hfu).
  rewrite Ht, Hu, Hid, (decide_True (P := task_position b d = Some j)) by done. case_decide as Hi.
  - destruct (task_position_some _ _ Hi) as (t' & Ht' & _ & Hf). rewrite Ht in Ht'. injection Ht' as <-.
    apply (Hr (bt_id t) d); [by apply Hall, list_elem_of_lookup_2 with i|]. by exists t.
  - unfold top. apply Nat.lt_succ_r.
    assert (Hm : Forall (λ k, k <= list_max (rank <$> (bt_id <$> bp_tasks b))) (rank <$> (bt_id <$> bp_tasks b))) by (by apply list_max_le).
    rewrite Forall_forall in Hm. apply Hm. apply list_elem_of_fmap_2. rewrite <- Hid. by apply list_elem_of_fmap_2, list_elem_of_lookup_2 with j.
Qed.

(** What Kahn's loop takes, on a plan whose dependencies are known. *)
Lemma taken_order rank : deps_known → ranked (seq 0 (length (bp_tasks b))) idx_deps rank →
  ∃ taken, kahn PopFront (length (bp_tasks b)) (λ i, default [] (add_dependents b 0 (bp_tasks b) ∅ !! i)) (indegrees (bp_tasks b))
      (List.filter (λ i, bool_decide (indegrees (bp_tasks b) !! i = Some 0%nat)) (seq 0 (length (bp_tasks b)))) = Some taken ∧
    taken ≡ₚ seq 0 (length (bp_tasks b)) ∧ scheduled idx_deps taken.
Proof.
  intros Hk Hr. set (n := length (bp_tasks b)) in *.
  assert (Hin : ∀ i, i ∈ seq 0 n ↔ i < n) by (intros i; rewrite elem_of_seq; lia).
  destruct (kahn_decides (seq 0 n) idx_deps (λ i, default [] (add_dependents b 0 (bp_tasks b) ∅ !! i))
              (NoDup_seq _ _)) with (p := PopFront) (fuel := n) (indegree := indegrees (bp_tasks b))
              (queue := List.filter (λ i, bool_decide (indegrees (bp_tasks b) !! i = Some 0%nat)) (seq 0 n))
    as (taken & Hrun & _ & _ & Hsch & _ & Hall).
  - intros i j _ (t & d & _ & _ & Hp)%elem_of_idx_deps. apply Hin.
    destruct (task_position_some _ _ Hp) as (u & Hu & _). by eapply lookup_lt_Some.
  - intros m i _ _. apply dependents_idx.
  - intros m i Hi. apply occurrences_elem in Hi. rewrite dependents_idx in Hi. apply occurrences_elem, elem_of_idx_deps in Hi.
    destruct Hi as (t & d & Ht & _). apply Hin. by eapply lookup_lt_Some.
  - intros i Hi. rewrite indegrees_lookup. apply Hin in Hi. destruct (lookup_lt_is_Some_2 _ _ Hi) as [t Ht].
    unfold idx_deps. rewrite Ht. simpl. f_equal. apply list_elem_of_lookup_2 in Ht. specialize (λ d, Hk t d Ht). clear Ht Hi.
    induction (bt_depends_on t) as [|d l IH]; [done|]. csimpl.
    destruct (task_position_known d) as [j ->]; [apply Hk; by left|]. csimpl. f_equal. apply IH. intros x Hx. apply Hk. by right.
  - apply NoDup_ListNoDup, List.NoDup_filter, NoDup_ListNoDup, NoDup_seq.
  - intros i. rewrite list_elem_of_In, List.filter_In, <- list_elem_of_In, bool_decide_eq_true. done.
  - by rewrite length_seq.
  - exists taken. split_and!; [done|apply Hall; by exists rank|done].
Qed.
Lemma omap_seq {A B} (f : A → B) (pre l : list A) : omap (λ i, f <$> (pre ++ l) !! i) (seq (length pre) (length l)) = f <$> l.
Proof.
  revert pre. induction l as [|x l IH]; intros pre; [done|]. csimpl. rewrite list_lookup_middle by done. csimpl. f_equal.
  specialize (IH (pre ++ [x])). rewrite <- app_assoc, length_app, Nat.add_1_r in IH. exact IH.
Qed.
Lemma omap_tasks taken : taken ≡ₚ seq 0 (length (bp_tasks b)) → omap (λ i, bt_id <$> bp_tasks b !! i) taken ≡ₚ bt_id <$> bp_tasks b.
Proof. intros ->. pose proof (omap_seq bt_id [] (bp_tasks b)) as H. simpl in H. by rewrite H. Qed.

(** Every valid plan has an execution order: Kahn's loop ends and lists each
    task of the plan once, always after the tasks it depends on; a plan is
    refused only with the error of its validation. *)
Theorem valid_plan_is_ordered : blueprint_validate b = Some (Ok tt) →
  ∃ order, blueprint_order b = Some (Ok order) ∧ order ≡ₚ bt_id <$> bp_tasks b ∧
    ∀ t d, t ∈ bp_tasks b → d ∈ bt_depends_on t → ∃ l r, order = l ++ bt_id t :: r ∧ d ∈ l.
Proof.
  intros Hv. destruct (validated Hv) as (Hk & v & Hs & Hall). destruct (validated_ranked v Hs Hall) as [rank Hr].
  destruct (taken_order rank Hk Hr) as (taken & Hrun & Hp & Hsch). unfold blueprint_order. rewrite Hv, Hrun.
  assert (Ho := omap_tasks taken Hp). exists (omap (λ i, bt_id <$> bp_tasks b !! i) taken).
  assert (length (omap (λ i, bt_id <$> bp_tasks b !! i) taken) = length (bp_tasks b)) as -> by (by rewrite Ho, length_fmap).
  rewrite Nat.eqb_refl. split_and!; [done|done|].
  intros t d Ht Hd. apply list_elem_of_lookup in Ht as [i Hi].
  destruct (task_position_known d) as [j Hj]; [apply (Hk t); [by eapply list_elem_of_lookup_2|done]|].
  destruct (Hsch i j) as (l & r & -> & Hl).
  - rewrite Hp. apply elem_of_seq. apply lookup_lt_Some in Hi. lia.
  - apply elem_of_idx_deps. by exists t, d.
  - exists (omap (λ i, bt_id <$> bp_tasks b !! i) l), (omap (λ i, bt_id <$> bp_tasks b !! i) r).
    rewrite omap_app. csimpl. rewrite Hi. split; [done|]. apply list_elem_of_omap. exists j. split; [done|].
    destruct (task_position_some _ _ Hj) as (u & -> & Hid & _). simpl. by rewrite Hid.
Qed.
End plan.

(** ** Progress *)

(** A valid plan is never stuck: while no task failed and not every task is
    done, some unfinished task has all its dependencies done and is offered. *)
Theorem valid_plan_offers_a_task (b : Blueprint) : blueprint_validate b = Some (Ok tt) → bp_tasks b ≠ [] →
  (∀ t, t ∈ bp_tasks b → bt_status t ≠ BsFailed) → blueprint_is_complete b = false →
  ∃ t, t ∈ blueprint_ready b ∧ bt_status t ≠ BsDone ∧ ∀ d, d ∈ bt_depends_on t → task_done b d = true.
Proof.
  intros Hv Hne Hf Hc. destruct (validated b Hv) as (Hk & v & Hs & Hall). destruct (validated_ranked b v Hs Hall) as [rank Hr].
  assert (Hopen : ∃ i t, bp_tasks b !! i = Some t ∧ bt_status t ≠ BsDone).
  { unfold blueprint_is_complete in Hc. destruct (bp_tasks b) as [|t0 l0]; [done|]. clear -Hc. set (l := t0 :: l0) in *. clearbody l.
    induction l as [|t l IH]; [done|]. simpl in Hc. case_bool_decide as Ht; [|by exists 0%nat, t].
    destruct (IH Hc) as (i & t' & Hi & Ht'). by exists (S i), t'. }
  destruct Hopen as (i & t & Hi & Ht). remember (rank i) as k eqn:Hkk. revert i t Hi Ht Hkk.
  induction k as [k IH] using (well_founded_induction lt_wf). intros i t Hi Ht ->.
  destruct (forallb (task_done b) (bt_depends_on t)) eqn:Hd.
  - exists t. split_and!; [|done|].
    + apply list_elem_of_In, List.filter_In. split; [|done]. apply List.filter_In. apply list_elem_of_lookup_2 in Hi.
      split; [by apply list_elem_of_In|]. rewrite !bool_decide_eq_false_2; [done|by apply Hf|done].
    + rewrite List.forallb_forall in Hd. intros d Hin. apply Hd. by apply list_elem_of_In.
  - apply not_true_iff_false in Hd. rewrite List.forallb_forall in Hd.
    assert (Hex : ∃ d, d ∈ bt_depends_on t ∧ task_done b d = false).
    { destruct (List.find (λ d, negb (task_done b d)) (bt_depends_on t)) as [d|] eqn:E.
      - apply List.find_some in E as [Hin Hn]. exists d. split; [by apply list_elem_of_In|by destruct (task_done b d)].
      - exfalso. apply Hd. intros d Hin. pose proof (List.find_none _ _ E d Hin) as Hn. simpl in Hn. by destruct (task_done b d). }
    destruct Hex as (d & Hin & Hnd). destruct (task_position_known b d) as [j Hj]; [eapply Hk; [by eapply list_elem_of_lookup_2|done]|].
    destruct (task_position_some b _ _ Hj) as (u & Hu & Hid & Hfu). eapply (IH (rank j)); [|exact Hu| |done].
    + apply Hr; [apply elem_of_seq; apply lookup_lt_Some in Hi; lia|]. apply elem_of_idx_deps. by exists t, d.
    + unfold task_done in Hnd. rewrite Hfu in Hnd. by case_bool_decide.
Qed.

(** ** The verifier *)

(** "Done" is the verifier's word alone: the status is complete exactly when
    the manifest asks for at least one outcome, every check of it passes in the
    workspace, and the harness reported no violation. *)
Theorem complete_iff_every_check_passes {ws : Workspace} {sha : Sha256} {sha1 : Sha1} m base violations :
  vr_status (verify_with_policy m base violations) = VerifiedComplete ↔
  violations = [] ∧ tm_required_outcomes m ≠ [] ∧
  ∀ c, c ∈ tm_required_outcomes m → or_passed (run_outcome_check c base) = true.
Proof.
  unfold verify_with_policy. cbn [vr_status]. set (rs := _ <$> tm_required_outcomes m).
  assert (Hrs : ∀ l : list OutcomeCheckResult, (length (List.filter or_passed l) <= length l)%nat ∧
    (length (List.filter or_passed l) = length l ↔ ∀ r, r ∈ l → or_passed r = true)).
  { induction l as [|r l [IH1 IH2]]; simpl; [split; [lia|split; [by intros _ r ?%not_elem_of_nil|done]]|].
    destruct (or_passed r) eqn:Hr; simpl.
    - split; [lia|]. split; [intros Hl x [->|Hx]%elem_of_cons; [done|apply IH2; [lia|done]]|].
      intros Hall. f_equal. apply IH2. intros x Hx. apply Hall. by right.
    - split; [lia|]. split; [lia|]. intros Hall. rewrite Hall in Hr; [done|by left]. }
  destruct (Hrs rs) as [Hle Hpass].
  assert (Hall : (∀ r, r ∈ rs → or_passed r = true) ↔ ∀ c, c ∈ tm_required_outcomes m → or_passed (run_outcome_check c base) = true).
  { unfold rs. split; [intros H c Hc; apply H; by apply (list_elem_of_fmap_2 (λ c, run_outcome_check c base))|].
    intros H r (c & -> & Hc)%list_elem_of_fmap. by apply H. }
  rewrite <- Hall. assert (Hlen : length rs = length (tm_required_outcomes m)) by apply length_fmap.
  destruct (negb (has_checkable_outcomes m)) eqn:Hc.
  - split; [done|]. intros (_ & Hne & _). unfold has_checkable_outcomes in Hc. by destruct (tm_required_outcomes m).
  - destruct violations as [|x xs]; [|split; [done|by intros [? _]]].
    destruct (Nat.eqb_spec (length (List.filter or_passed rs)) (length rs)) as [He|He]; simpl.
    + destruct (Nat.ltb_spec 0 (length rs)) as [Hp|Hp]; simpl.
      * split; [|done]. intros _. split_and!; [done|by intros Hn; rewrite Hlen, Hn in Hp; simpl in Hp; lia|by apply Hpass].
      * rewrite He. assert (length rs = 0%nat) as Hz by lia. rewrite Hz. split; [done|]. intros (_ & Hne & _).
        rewrite Hlen in Hz. by apply length_zero_iff_nil in Hz.
    + split; [by destruct (0 <? _)%nat|]. intros (_ & _ & Hp). by apply Hpass in Hp.
Qed.

(** ** Specs *)

(** Text of one line that does not begin or end with a byte of white space. *)
Definition tidy_text (s : string) : Prop :=
  has_char NL s = false ∧ (∃ c m, s = String c m ∧ heads_any white_space c = false) ∧
  (∃ m d, s = m +:+ ch d ∧ heads_any (map rev_string white_space) d = false).

Lemma trim_end_tidy m d : heads_any (map rev_string white_space) d = false → trim_end (m +:+ ch d) = m +:+ ch d.
Proof.
  intros Hd. unfold trim_end. rewrite rev_string_append. change (rev_string (ch d)) with (ch d).
  change (ch d +:+ rev_string m) with (String d (rev_string m)). rewrite drop_any_stop by done.
  change (String d ?x) with (ch d +:+ x). change (ch d) with (rev_string (ch d)) at 1. by rewrite <- rev_string_append, rev_string_involutive.
Qed.
Lemma trim_tidy s : tidy_text s → trim s = s.
Proof.
  intros (_ & (c & m & -> & Hc) & (m' & d & E & Hd)). unfold trim, trim_start. rewrite drop_any_stop by done.
  rewrite E. by apply trim_end_tidy.
Qed.
Lemma trim_after c p s : heads_any white_space c = false → tidy_text s → trim (String c p +:+ s) = String c p +:+ s.
Proof.
  intros Hc (_ & _ & (m & d & -> & Hd)). unfold trim, trim_start. rewrite app_string_cons, drop_any_stop by done.
  rewrite <- app_string_cons, <- app_string_assoc. by apply trim_end_tidy.
Qed.
Lemma trim_space s : tidy_text s → trim (" " +:+ s) = s.
Proof.
  intros Hs. transitivity (trim s); [|by apply trim_tidy]. unfold trim. f_equal. unfold trim_start.
  destruct Hs as (_ & (c & m & -> & _) & _). reflexivity.
Qed.
Lemma strip_app p s : strip_prefix p (p +:+ s) = Some s.
Proof. by apply strip_prefix_spec. Qed.

Definition put_lines (ls : list string) : string := sconcat ((λ l, l +:+ nl) <$> ls).
Lemma str_lines_put ls : Forall (λ l, has_char NL l = false) ls → str_lines (put_lines ls) = ls.
Proof.
  intros Hl. assert (Hs : split NL (put_lines ls) = ls ++ [""]).
  { induction Hl as [|l ls Hl1 _ IH]; [done|]. unfold put_lines. csimpl. fold (put_lines ls).
    rewrite app_string_assoc. change (nl +:+ put_lines ls) with (String NL (put_lines ls)).
    by rewrite split_app_sep, (split_no_sep _ l), IH. }
  unfold str_lines. rewrite Hs, rev_app_distr. simpl. by rewrite rev_involutive.
Qed.
Lemma put_lines_app a c : put_lines (a ++ c) = put_lines a +:+ put_lines c.
Proof. unfold put_lines. induction a as [|l a IH]; [done|]. csimpl. by rewrite IH, <- !app_string_assoc. Qed.

Definition section_lines (title bullet : string) (items : list string) : list string :=
  match items with [] => [] | _ => "" :: title :: ((λ i, bullet +:+ i) <$> items) end.
Definition spec_lines (s : TaskSpec) : list string :=
  ["# Task: " +:+ sp_id s; ""; "**Goal:** " +:+ sp_goal s] ++
  section_lines "## Context" "- " (sp_context s) ++ section_lines "## Acceptance" "- [ ] " (sp_acceptance s).
Lemma md_section_lines title bullet items : md_section title bullet items = put_lines (section_lines title bullet items).
Proof.
  unfold md_section, section_lines. destruct items as [|i l]; [done|]. generalize (i :: l) as items. intros items.
  assert (Hb : sconcat ((λ i, bullet +:+ i +:+ nl) <$> items) = put_lines ((λ i, bullet +:+ i) <$> items)).
  { unfold put_lines. induction items as [|x xs IH]; [done|]. csimpl. by rewrite IH, !app_string_assoc. }
  rewrite Hb. change (put_lines ("" :: title :: ?l)) with (nl +:+ (title +:+ nl) +:+ put_lines l). by rewrite app_string_assoc.
Qed.
Lemma markdown_lines s : spec_to_markdown s = put_lines (spec_lines s).
Proof.
  unfold spec_to_markdown, spec_lines. rewrite !put_lines_app, <- !md_section_lines.
  change (put_lines [?x; ""; ?y]) with ((x +:+ nl) +:+ nl +:+ (y +:+ nl) +:+ ""). by rewrite app_string_nil_r, !app_string_assoc.
Qed.

Definition parse_with (id goal : option string) (context acceptance : list string) (section : MdSection) : SpecParse :=
  {| pr_id := id; pr_goal := goal; pr_context := context; pr_acceptance := acceptance; pr_section := section |}.
Lemma context_lines items id goal context acceptance : Forall tidy_text items →
  foldl spec_line (parse_with id goal context acceptance MsContext) ((λ i, "- " +:+ i) <$> items) =
  parse_with id goal (context ++ items) acceptance MsContext.
Proof.
  intros Hi. revert context. induction Hi as [|i items Hi _ IH]; intros context; csimpl; [by rewrite app_nil_r|].
  unfold spec_line at 2. rewrite (trim_after "-" " ") by done.
  change ("- " +:+ i) with (String "-" (" " +:+ i)).
  change (strip_prefix "# Task:" (String "-" (" " +:+ i))) with (@None string).
  change (strip_prefix "**Goal:**" (String "-" (" " +:+ i))) with (@None string).
  change (strip_prefix "-" (String "-" (" " +:+ i))) with (Some (" " +:+ i)).
  change (in_section (String "-" (" " +:+ i)) MsContext) with MsContext. cbn [parse_with pr_id pr_goal pr_context pr_acceptance pr_section].
  rewrite trim_space by done. cbv zeta. specialize (IH (context ++ [i])). rewrite <- (app_assoc context [i] items) in IH. exact IH.
Qed.
Lemma acceptance_lines items id goal context acceptance : Forall tidy_text items →
  foldl spec_line (parse_with id goal context acceptance MsAcceptance) ((λ i, "- [ ] " +:+ i) <$> items) =
  parse_with id goal context (acceptance ++ items) MsAcceptance.
Proof.
  intros Hi. revert acceptance. induction Hi as [|i items Hi _ IH]; intros acceptance; csimpl; [by rewrite app_nil_r|].
  unfold spec_line at 2. rewrite (trim_after "-" " [ ] ") by done.
  change ("- [ ] " +:+ i) with (String "-" (" [ ] " +:+ i)).
  change (strip_prefix "# Task:" (String "-" (" [ ] " +:+ i))) with (@None string).
  change (strip_prefix "**Goal:**" (String "-" (" [ ] " +:+ i))) with (@None string).
  change (strip_prefix "- [ ]" (String "-" (" [ ] " +:+ i))) with (Some (" " +:+ i)).
  change (in_section (String "-" (" [ ] " +:+ i)) MsAcceptance) with MsAcceptance.
  cbn [parse_with pr_id pr_goal pr_context pr_acceptance pr_section].
  rewrite trim_space by done. cbv zeta. specialize (IH (acceptance ++ [i])). rewrite <- (app_assoc acceptance [i] items) in IH. exact IH.
Qed.

Lemma section_header id goal context acceptance section0 title bullet items :
  spec_line (spec_line (parse_with id goal context acceptance section0) "") title = parse_with id goal context acceptance (in_section title section0) →
  foldl spec_line (parse_with id goal context acceptance section0) (section_lines title bullet items) =
  match items with
  | [] => parse_with id goal context acceptance section0
  | _ => foldl spec_line (parse_with id goal context acceptance (in_section title section0)) ((λ i, bullet +:+ i) <$> items)
  end.
Proof. intros H. unfold section_lines. destruct items as [|i l]; [done|]. cbn [foldl]. by rewrite H. Qed.

Lemma id_line st id : tidy_text id → spec_line st ("# Task: " +:+ id) =
  parse_with (Some id) (pr_goal st) (pr_context st) (pr_acceptance st) (pr_section st).
Proof.
  intros Hid. unfold spec_line. rewrite (trim_after "#" " Task: ") by done. change ("# Task: " +:+ id) with ("# Task:" +:+ (" " +:+ id)).
  by rewrite strip_app, trim_space.
Qed.
Lemma goal_line st goal : tidy_text goal → spec_line st ("**Goal:** " +:+ goal) =
  parse_with (pr_id st) (Some goal) (pr_context st) (pr_acceptance st) (pr_section st).
Proof.
  intros Hg. unfold spec_line. rewrite (trim_after "*" "*Goal:** ") by done.
  change (strip_prefix "# Task:" ("**Goal:** " +:+ goal)) with (@None string).
  change ("**Goal:** " +:+ goal) with ("**Goal:**" +:+ (" " +:+ goal)). by rewrite strip_app, trim_space.
Qed.
Lemma section_lines_plain title bullet items : has_char NL title = false → has_char NL bullet = false → Forall tidy_text items →
  Forall (λ l, has_char NL l = false) (section_lines title bullet items).
Proof.
  intros Ht Hb Hi. unfold section_lines. destruct items as [|i l]; [done|]. constructor; [done|]. constructor; [done|].
  apply Forall_fmap. eapply Forall_impl; [exact Hi|]. intros x [Hx _]. simpl. by rewrite has_char_app, Hb, Hx.
Qed.

(** Text that a spec may hold to come back from its markdown. *)
Definition tidy_spec (s : TaskSpec) : Prop :=
  tidy_text (sp_id s) ∧ tidy_text (sp_goal s) ∧ Forall tidy_text (sp_context s) ∧ Forall tidy_text (sp_acceptance s).

(** A spec whose texts are single trimmed lines survives the file a
    sub-agent starts from: parsing its markdown gives the spec back. *)
Theorem spec_round_trips s : tidy_spec s → spec_from_markdown (spec_to_markdown s) = Ok s.
Proof.
  destruct s as [id goal context acceptance]. intros (Hid & Hgoal & Hctx & Hacc). cbn [sp_id sp_goal sp_context sp_acceptance] in *.
  assert (Hnl : Forall (λ l, has_char NL l = false) (spec_lines (Build_TaskSpec id goal context acceptance))).
  { unfold spec_lines. cbn [sp_id sp_goal sp_context sp_acceptance]. apply Forall_app_2; [|by apply Forall_app_2; apply section_lines_plain].
    repeat apply Forall_cons_2; try done; rewrite has_char_app; [by rewrite (proj1 Hid)|by rewrite (proj1 Hgoal)]. }
  unfold spec_from_markdown. rewrite markdown_lines, (str_lines_put _ Hnl). unfold spec_lines. cbn [sp_id sp_goal sp_context sp_acceptance].
  rewrite !foldl_app. cbn [foldl]. rewrite id_line, goal_line by done. cbn [parse_with pr_id pr_goal pr_context pr_acceptance pr_section].
  change (spec_line (parse_with (Some id) None [] [] MsNone) "") with (parse_with (Some id) None [] [] MsNone).
  fold (parse_with (Some id) (Some goal) [] [] MsNone). rewrite section_header by reflexivity.
  change (in_section "## Context" MsNone) with MsContext. rewrite (context_lines context) by done.
  destruct context as [|c ctx]; rewrite section_header by reflexivity;
    [change (in_section "## Acceptance" MsNone) with MsAcceptance|change (in_section "## Acceptance" MsContext) with MsAcceptance];
    rewrite (acceptance_lines acceptance) by done; by destruct acceptance.
Qed.

(** ** A plan of three tasks *)

Definition demo_task (id : string) (deps : list string) (s : BlueprintStatus) : BlueprintTask :=
  {| bt_spec := task_spec_new id "do it"; bt_verify := {| vb_checks := [FileExists id]; vb_policy := [] |};
     bt_depends_on := deps; bt_status := s |}.
Definition demo_plan (s : BlueprintStatus) : Blueprint := {| bp_id := "plan"; bp_goal := "ship";
  bp_tasks := [demo_task "test" ["build"; "fetch"] BsPending; demo_task "build" ["fetch"; "fetch"] BsPending; demo_task "fetch" [] s] |}.

Lemma valid_plan_is_ordered_witness : blueprint_validate (demo_plan BsPending) = Some (Ok tt) ∧
  ∃ order, blueprint_order (demo_plan BsPending) = Some (Ok order) ∧ length order = 3%nat.
Proof.
  split; [by vm_compute|]. destruct (valid_plan_is_ordered (demo_plan BsPending)) as (order & Ho & Hp & _); [by vm_compute|].
  exists order. split; [exact Ho|]. by rewrite Hp.
Defined.
Lemma valid_plan_offers_a_task_witness : ∃ t, t ∈ blueprint_ready (demo_plan BsDone) ∧ bt_status t ≠ BsDone.
Proof.
  destruct (valid_plan_offers_a_task (demo_plan BsDone)) as (t & Ht & Hs & _);
    [by vm_compute|done|intros t Ht; unfold demo_plan in Ht; cbn [bp_tasks] in Ht; rewrite !elem_of_cons, elem_of_nil in Ht; naive_solver|by vm_compute|]. by exists t.
Defined.
Lemma spec_round_trips_witness :
  let s := {| sp_id := "T-1"; sp_goal := "add a flag"; sp_context := ["see main.rs"]; sp_acceptance := ["tests pass"; "no warning"] |} in
  tidy_spec s ∧ spec_from_markdown (spec_to_markdown s) = Ok s.
Proof.
  intros s. assert (Hs : tidy_spec s); [|split; [exact Hs|exact (spec_round_trips s Hs)]].
  assert (Ht : ∀ c m d m', String c m = m' +:+ ch d → has_char NL (String c m) = false → heads_any white_space c = false →
    heads_any (map rev_string white_space) d = false → tidy_text (String c m)).
  { intros c m d m' E H1 H2 H3. split_and!; [done|by exists c, m|by exists m', d]. }
  split; [by apply (Ht _ _ "1"%char "T-")|]. split; [by apply (Ht _ _ "g"%char "add a fla")|].
  split; [apply Forall_singleton; by apply (Ht _ _ "s"%char "see main.r")|].
  apply Forall_cons_2; [by apply (Ht _ _ "s"%char "tests pas")|]. apply Forall_singleton. by apply (Ht _ _ "g"%char "no warnin").
Defined.

(** ** Where the comments and the code part *)

(** The task a cycle is reported at need not be on it. *)
Example cycle_is_reported_at_an_outsider :
  blueprint_validate {| bp_id := "p"; bp_goal := ""; bp_tasks := [demo_task "a" ["b"] BsPending; demo_task "b" ["b"] BsPending] |} =
  Some (Err (CycleAt "a")).
Proof. by vm_compute. Qed.
(** A failed task is not terminal: it goes back to work. *)
Example failed_task_is_retried : status_transition BsFailed BsInProgress = Ok BsInProgress.
Proof. reflexivity. Qed.
(** The evidence a manifest requires is not looked for. *)
Example missing_evidence_is_complete :
  let ws := {| ws_exists _ := true; ws_read _ := Err ""; ws_read_text _ := Err "" |} in
  vr_status (@verify ws plain_digest {| sha1_hex s := s |} {| tm_task_id := "t"; tm_goal := ""; tm_required_outcomes := [FileExists "a"];
    tm_constraints := []; tm_budgets := no_budgets; tm_evidence := [EvScreenshot] |} "/w") = VerifiedComplete.
Proof. by vm_compute. Qed.
