(* ===== verification/Workflow.v ===== *)
(** * Workflows: task states, retries, backfill and order

    [everyaios-blueprint/src/workflow.rs]: a DAG of tasks in a [BTreeMap] with a
    retry policy. Operations take the clock they read; [None] is the panic of an
    [unwrap] on a task that is stored under another id than its own. *)
From S2P Require Import Prelude Order Cron Dag.

(* SRC blueprint/src/workflow.rs @enum:TaskState TaskState *)
Inductive TaskState := TsPending | TsRunning | TsUpForRetry | TsSuccess | TsFailed | TsSkipped | TsBlocked.
#[export] Instance task_state_eq_dec : EqDecision TaskState.
Proof. solve_decision. Defined.
(* SRC blueprint/src/workflow.rs @fn:can_transition TaskState::can_transition *)
Definition can_transition (from to : TaskState) : bool :=
  match from, to with
  | TsPending, TsRunning
  | TsRunning, (TsSuccess | TsUpForRetry | TsFailed | TsSkipped | TsBlocked)
  | (TsUpForRetry | TsFailed | TsSkipped | TsBlocked), TsRunning
  | (TsPending | TsSkipped), TsSkipped
  | TsRunning, TsPending => true
  | _, _ => false
  end.

(* SRC blueprint/src/workflow.rs @struct:RetryPolicy RetryPolicy *)
Record RetryPolicy := { rp_max_retries : N; rp_base_delay_secs : N; rp_max_wait_secs : N }.
(* SRC blueprint/src/workflow.rs @fn:default RetryPolicy::default *)
Definition retry_policy_default : RetryPolicy := {| rp_max_retries := 3; rp_base_delay_secs := 5; rp_max_wait_secs := 300 |}.
(** [2u64.saturating_pow] and [saturating_mul]. *)
Definition pow2_saturating (n : N) : N := if (n <? 64)%N then (2 ^ n)%N else u64_max.
Definition u64_saturating_mul (a b : N) : N := N.min (a * b) u64_max.
(** The retry number is 1 or more. *)
(* SRC blueprint/src/workflow.rs @fn:delay_for RetryPolicy::delay_for *)
Definition delay_for (p : RetryPolicy) (retry_number : N) : N :=
  N.min (u64_saturating_mul (rp_base_delay_secs p) (pow2_saturating (retry_number - 1))) (rp_max_wait_secs p).

(* SRC blueprint/src/workflow.rs @struct:WfTask WfTask *)
Record WfTask := {
  wf_id : string;
  wf_depends_on : list string;
  wf_state : TaskState;
  wf_retries_used : N;
  wf_next_attempt_at : option Z;
  wf_verify : option string
}.
(* SRC blueprint/src/workflow.rs @fn:new#1 WfTask::new *)
Definition wf_task_new (id : string) : WfTask :=
  {| wf_id := id; wf_depends_on := []; wf_state := TsPending; wf_retries_used := 0; wf_next_attempt_at := None; wf_verify := None |}.
Definition set_wf_state (s : TaskState) (t : WfTask) : WfTask :=
  {| wf_id := wf_id t; wf_depends_on := wf_depends_on t; wf_state := s; wf_retries_used := wf_retries_used t;
     wf_next_attempt_at := wf_next_attempt_at t; wf_verify := wf_verify t |}.
Definition set_wf_retry (used : N) (at_ : option Z) (t : WfTask) : WfTask :=
  {| wf_id := wf_id t; wf_depends_on := wf_depends_on t; wf_state := wf_state t; wf_retries_used := used;
     wf_next_attempt_at := at_; wf_verify := wf_verify t |}.
(* SRC blueprint/src/workflow.rs @fn:ready WfTask::ready *)
Definition wf_task_ready (states : gmap string TaskState) (t : WfTask) : bool :=
  bool_decide (wf_state t = TsPending) && forallb (λ d, bool_decide (states !! d = Some TsSuccess)) (wf_depends_on t).

(* SRC blueprint/src/workflow.rs @struct:WorkflowRun WorkflowRun *)
Record WorkflowRun := {
  wr_workflow_id : string; wr_logical_date : string; wr_task_states : gmap string TaskState; wr_completed : bool
}.
(* SRC blueprint/src/workflow.rs @struct:Workflow Workflow *)
Record Workflow := { wf_workflow_id : string; wf_tasks : gmap string WfTask; wf_retry : RetryPolicy; wf_runs : list WorkflowRun }.
(* SRC blueprint/src/workflow.rs @enum:WorkflowError WorkflowError *)
Inductive WorkflowError :=
  | WfUnknownTask (id : string)
  | WfUnknownDependency (id : string)
  | WfNotReady (id : string)
  | WfCycleDetected
  | WfIllegalTransition (from to : TaskState).

Definition set_wf_tasks (m : gmap string WfTask) (w : Workflow) : Workflow :=
  {| wf_workflow_id := wf_workflow_id w; wf_tasks := m; wf_retry := wf_retry w; wf_runs := wf_runs w |}.
Definition put_task (id : string) (t : WfTask) (w : Workflow) : Workflow := set_wf_tasks (<[id := t]> (wf_tasks w)) w.
(* SRC blueprint/src/workflow.rs @fn:new#3 Workflow::new *)
Definition workflow_new (id : string) : Workflow :=
  {| wf_workflow_id := id; wf_tasks := ∅; wf_retry := retry_policy_default; wf_runs := [] |}.
(* SRC blueprint/src/workflow.rs @fn:add_task Workflow::add_task *)
Definition add_task (t : WfTask) (w : Workflow) : Workflow := put_task (wf_id t) t w.

(** The keys in the order of the [BTreeMap]. *)
Definition wf_keys (w : Workflow) : list string := set_iter (dom (wf_tasks w)).
Definition wf_states (w : Workflow) : gmap string TaskState := wf_state <$> wf_tasks w.
(* SRC blueprint/src/workflow.rs @fn:ready_tasks Workflow::ready_tasks *)
Definition ready_tasks (w : Workflow) : list string :=
  List.filter (λ k, match wf_tasks w !! k with Some t => wf_task_ready (wf_states w) t | None => false end) (wf_keys w).

Definition to_running (t : WfTask) : result WfTask WorkflowError :=
  if can_transition (wf_state t) TsRunning then Ok (set_wf_state TsRunning t) else Err (WfIllegalTransition (wf_state t) TsRunning).
Definition deps_succeeded (w : Workflow) (t : WfTask) : bool :=
  forallb (λ d, match wf_tasks w !! d with Some dt => bool_decide (wf_state dt = TsSuccess) | None => false end) (wf_depends_on t).
(* SRC blueprint/src/workflow.rs @fn:claim Workflow::claim *)
Definition wf_claim (id : string) (w : Workflow) : result Workflow WorkflowError :=
  match wf_tasks w !! id with
  | None => Err (WfNotReady id)
  | Some t => if negb (deps_succeeded w t) then Err (WfNotReady id) else t <-? to_running t;; Ok (put_task id t w)
  end.
(* SRC blueprint/src/workflow.rs @fn:record_failure Workflow::record_failure *)
Definition record_failure (id : string) (now : Z) (w : Workflow) : result Workflow WorkflowError :=
  match wf_tasks w !! id with
  | None => Err (WfUnknownTask id)
  | Some t =>
      if negb (bool_decide (wf_state t = TsRunning)) then Err (WfIllegalTransition (wf_state t) TsFailed)
      else if (wf_retries_used t <? rp_max_retries (wf_retry w))%N then
        let used := (wf_retries_used t + 1)%N in
        let wait := delay_for (wf_retry w) used in
        Ok (put_task id (set_wf_state TsUpForRetry (set_wf_retry used (Some (wrap_i64 (now + wrap_i64 (Z.of_N wait)))) t)) w)
      else Ok (put_task id (set_wf_state TsFailed t) w)
  end.
(* SRC blueprint/src/workflow.rs @fn:succeed Workflow::succeed *)
Definition wf_succeed (id : string) (verify_passed : bool) (now : Z) (w : Workflow) : result Workflow WorkflowError :=
  match wf_tasks w !! id with
  | None => Err (WfUnknownTask id)
  | Some t =>
      if negb (bool_decide (wf_state t = TsRunning)) then Err (WfIllegalTransition (wf_state t) TsSuccess)
      else match wf_verify t, verify_passed with
      | Some _, false => record_failure id now w
      | _, _ => Ok (put_task id (set_wf_state TsSuccess t) w)
      end
  end.
(* SRC blueprint/src/workflow.rs @fn:fail Workflow::fail *)
Definition wf_fail (id : string) (now : Z) (w : Workflow) : result Workflow WorkflowError := record_failure id now w.

Definition retry_due (now : Z) (t : WfTask) : bool :=
  bool_decide (wf_state t = TsUpForRetry) && match wf_next_attempt_at t with Some n => (n <=? now)%Z | None => true end &&
  can_transition TsUpForRetry TsRunning.
(* SRC blueprint/src/workflow.rs @fn:requeue_due_retries Workflow::requeue_due_retries *)
Definition requeue_due_retries (now : Z) (w : Workflow) : list string * Workflow :=
  (wf_id <$> List.filter (retry_due now) (values (wf_tasks w)),
   set_wf_tasks ((λ t, if retry_due now t then set_wf_state TsRunning t else t) <$> wf_tasks w) w).
(* SRC blueprint/src/workflow.rs @fn:requeue Workflow::requeue *)
Definition wf_requeue (id : string) (w : Workflow) : result Workflow WorkflowError :=
  match wf_tasks w !! id with
  | None => Err (WfUnknownTask id)
  | Some t => t <-? to_running t;; Ok (put_task id t w)
  end.
(* SRC blueprint/src/workflow.rs @fn:block Workflow::block *)
Definition wf_block (id : string) (w : Workflow) : result Workflow WorkflowError :=
  match wf_tasks w !! id with
  | None => Err (WfUnknownTask id)
  | Some t =>
      if can_transition (wf_state t) TsBlocked then Ok (put_task id (set_wf_state TsBlocked t) w)
      else Err (WfIllegalTransition (wf_state t) TsBlocked)
  end.
(* SRC blueprint/src/workflow.rs @fn:is_complete Workflow::is_complete *)
Definition workflow_is_complete (w : Workflow) : bool :=
  negb (bool_decide (wf_tasks w = ∅)) && forallb (λ t, bool_decide (wf_state t = TsSuccess)) (values (wf_tasks w)).
(* SRC blueprint/src/workflow.rs @fn:backfill Workflow::backfill *)
Definition backfill (logical_date : string) (w : Workflow) : WorkflowRun * Workflow :=
  let run := {| wr_workflow_id := wf_workflow_id w; wr_logical_date := logical_date; wr_task_states := wf_states w;
                wr_completed := workflow_is_complete w |} in
  (run, {| wf_workflow_id := wf_workflow_id w;
           wf_tasks := (λ t, set_wf_state TsPending (set_wf_retry 0 None t)) <$> wf_tasks w;
           wf_retry := wf_retry w; wf_runs := wf_runs w ++ [run] |}).
(* SRC blueprint/src/workflow.rs @fn:recent_runs Workflow::recent_runs *)
Definition recent_runs (w : Workflow) : list WorkflowRun := rev (wf_runs w).

(** ** The order *)

(** The counters and the dependents, a dependency at a time. *)
Notation Counts := (gmap string nat * gmap string (list string))%type.
Definition count_dep (w : Workflow) (id d : string) (st : Counts) : option (result Counts WorkflowError) :=
  match wf_tasks w !! d with
  | None => Some (Err (WfUnknownDependency d))
  | Some _ =>
      match st.1 !! id with
      | None => None
      | Some k => Some (Ok (<[id := S k]> st.1, <[d := default [] (st.2 !! d) ++ [id]]> st.2))
      end
  end.
Fixpoint count_deps (w : Workflow) (id : string) (ds : list string) (st : Counts) : option (result Counts WorkflowError) :=
  match ds with
  | [] => Some (Ok st)
  | d :: ds => match count_dep w id d st with Some (Ok st) => count_deps w id ds st | r => r end
  end.
Fixpoint count_tasks (w : Workflow) (l : list WfTask) (st : Counts) : option (result Counts WorkflowError) :=
  match l with
  | [] => Some (Ok st)
  | t :: l => match count_deps w (wf_id t) (wf_depends_on t) st with Some (Ok st) => count_tasks w l st | r => r end
  end.
(* SRC blueprint/src/workflow.rs @fn:topological_order Workflow::topological_order *)
Definition workflow_order (w : Workflow) : option (result (list string) WorkflowError) :=
  match count_tasks w (values (wf_tasks w)) ((λ _, 0%nat) <$> wf_tasks w, ∅) with
  | None => None
  | Some (Err e) => Some (Err e)
  | Some (Ok (indeg, adj)) =>
      let queue := List.filter (λ k, bool_decide (indeg !! k = Some 0%nat)) (wf_keys w) in
      match kahn PopBack (size (wf_tasks w)) (λ i, default [] (adj !! i)) indeg queue with
      | None => None
      | Some order => Some (if (length order =? size (wf_tasks w))%nat then Ok order else Err WfCycleDetected)
      end
  end.
