(* ===== verification/WorkflowFacts.v ===== *)
(** * What a workflow guarantees

    A success is the word of the verify hook and stays until the next backfill
    or until its task is replaced, retries and waits are bounded, and the order lists every task after its
    dependencies exactly when the dependencies have no cycle. *)
From S2P Require Import Prelude Order Cron Dag Workflow.

(** ** The calls that change a workflow *)

Inductive wf_call :=
  | CallClaim (id : string)
  | CallSucceed (id : string) (verify_passed : bool) (now : Z)
  | CallFail (id : string) (now : Z)
  | CallRetries (now : Z)
  | CallRequeue (id : string)
  | CallBlock (id : string)
  | CallAdd (t : WfTask)
  | CallBackfill (logical_date : string).
Definition or_same (w : Workflow) (r : result Workflow WorkflowError) : Workflow := match r with Ok w' => w' | Err _ => w end.
Definition wf_step (w : Workflow) (c : wf_call) : Workflow :=
  match c with
  | CallClaim id => or_same w (wf_claim id w)
  | CallSucceed id ok now => or_same w (wf_succeed id ok now w)
  | CallFail id now => or_same w (wf_fail id now w)
  | CallRetries now => (requeue_due_retries now w).2
  | CallRequeue id => or_same w (wf_requeue id w)
  | CallBlock id => or_same w (wf_block id w)
  | CallAdd t => add_task t w
  | CallBackfill date => (backfill date w).2
  end.
Definition wf_play (cs : list wf_call) (w : Workflow) : Workflow := foldl wf_step w cs.

(** The calls that start a task afresh: all of them, or this one replaced. *)
Definition resets (k : string) (c : wf_call) : bool :=
  match c with CallBackfill _ => true | CallAdd t => String.eqb (wf_id t) k | _ => false end.
(** The calls since the last of them. *)
Definition since (k : string) (cs : list wf_call) : list wf_call := foldl (λ acc c, if resets k c then [] else acc ++ [c]) [] cs.

(** The task the last of them put in place, if it replaced the task. *)
Definition put_in_place (k : string) (cs : list wf_call) : option WfTask :=
  foldl (λ acc c, if resets k c then match c with CallAdd t => Some t | _ => None end else acc) None cs.

(** What one call that does not start it afresh does to the task at a key. *)
Definition task_step (p : RetryPolicy) (passed : bool) (t t' : WfTask) : Prop :=
  wf_id t' = wf_id t ∧ wf_depends_on t' = wf_depends_on t ∧ wf_verify t' = wf_verify t ∧
  (t' = t ∨
   (wf_state t ≠ TsSuccess ∧ wf_state t' = TsRunning ∧ wf_retries_used t' = wf_retries_used t) ∨
   (wf_state t = TsRunning ∧ wf_state t' = TsSuccess ∧ wf_retries_used t' = wf_retries_used t ∧ (is_Some (wf_verify t) → passed = true)) ∨
   (wf_state t = TsRunning ∧ wf_state t' = TsUpForRetry ∧ wf_retries_used t' = (wf_retries_used t + 1)%N ∧
    (wf_retries_used t < rp_max_retries p)%N) ∨
   (wf_state t = TsRunning ∧ wf_state t' = TsFailed ∧ wf_retries_used t' = wf_retries_used t ∧ (rp_max_retries p <= wf_retries_used t)%N) ∨
   (wf_state t = TsRunning ∧ wf_state t' = TsBlocked ∧ wf_retries_used t' = wf_retries_used t)).
Definition passes (k : string) (c : wf_call) : bool := match c with CallSucceed id ok _ => String.eqb id k && ok | _ => false end.

Lemma task_step_same p b t : task_step p b t t.
Proof. split_and!; [done..|by left]. Qed.

Lemma put_task_step w id t t' passed : wf_tasks w !! id = Some t → task_step (wf_retry w) (passed id) t t' →
  ∀ k u, wf_tasks w !! k = Some u → ∃ u', wf_tasks (put_task id t' w) !! k = Some u' ∧ task_step (wf_retry w) (passed k) u u'.
Proof.
  intros Hid Hst k u Hk. simpl. destruct (decide (k = id)) as [->|Hne].
  - rewrite lookup_insert_eq. rewrite Hid in Hk. injection Hk as <-. by exists t'.
  - rewrite lookup_insert_ne by done. exists u. split; [done|apply task_step_same].
Qed.
Lemma same_step w passed k u : wf_tasks w !! k = Some u → ∃ u', wf_tasks w !! k = Some u' ∧ task_step (wf_retry w) (passed k) u u'.
Proof. intros Hk. exists u. split; [done|apply task_step_same]. Qed.

Lemma to_running_step p b t t' : to_running t = Ok t' → task_step p b t t'.
Proof.
  unfold to_running. destruct (can_transition (wf_state t) TsRunning) eqn:Hc; [|done]. intros [= <-].
  split_and!; [done..|]. right; left. split_and!; [by intros E; rewrite E in Hc|done|done].
Qed.
Lemma failure_step w id now w' passed k u : record_failure id now w = Ok w' → wf_tasks w !! k = Some u →
  wf_retry w' = wf_retry w ∧ ∃ u', wf_tasks w' !! k = Some u' ∧ task_step (wf_retry w) (passed k) u u'.
Proof.
  unfold record_failure. destruct (wf_tasks w !! id) as [t|] eqn:Hid; [|done].
  destruct (negb (bool_decide (wf_state t = TsRunning))) eqn:Hr; [done|]. apply negb_false_iff, bool_decide_eq_true in Hr.
  destruct (N.ltb_spec (wf_retries_used t) (rp_max_retries (wf_retry w))) as [Hlt|Hge]; intros [= <-] Hk; (split; [done|]);
    (eapply put_task_step; [exact Hid| |exact Hk]); (split_and!; [done..|]); [right; right; right; left|right; right; right; right; left]; by split_and!.
Qed.

Lemma wf_step_tasks w c k u : wf_tasks w !! k = Some u → resets k c = false →
  wf_retry (wf_step w c) = wf_retry w ∧ ∃ u', wf_tasks (wf_step w c) !! k = Some u' ∧ task_step (wf_retry w) (passes k c) u u'.
Proof.
  intros Hk Hres. assert (Hsame : wf_retry w = wf_retry w ∧ ∃ u', wf_tasks w !! k = Some u' ∧ task_step (wf_retry w) (passes k c) u u')
    by (split; [done|by apply (same_step w (λ k, passes k c))]).
  destruct c as [id|id ok now|id now|now|id|id|a|date]; simpl; unfold or_same.
  - unfold wf_claim. destruct (wf_tasks w !! id) as [t|] eqn:Hid; [|done]. destruct (negb _); [done|].
    destruct (to_running t) as [t'|e] eqn:Hr; [|done]. simpl. split; [done|].
    by eapply (put_task_step w id t t' (λ _, false)); [done|apply to_running_step|].
  - unfold wf_succeed. destruct (wf_tasks w !! id) as [t|] eqn:Hid; [|done].
    destruct (negb (bool_decide (wf_state t = TsRunning))) eqn:Hr; [done|]. apply negb_false_iff, bool_decide_eq_true in Hr.
    assert (Hput : (is_Some (wf_verify t) → ok = true) → wf_retry (put_task id (set_wf_state TsSuccess t) w) = wf_retry w ∧
      ∃ u', wf_tasks (put_task id (set_wf_state TsSuccess t) w) !! k = Some u' ∧ task_step (wf_retry w) (String.eqb id k && ok) u u').
    { intros Hv. split; [done|]. apply (put_task_step w id t _ (λ k, String.eqb id k && ok)); [done| |done]. rewrite String.eqb_refl.
      split_and!; [done..|]. right; right; left. by split_and!. }
    destruct (wf_verify t) as [h|] eqn:Hv; [|by apply Hput; intros [? ?]]. destruct ok; [by apply Hput|].
    destruct (record_failure id now w) as [w'|e] eqn:Hf; [|done]. by eapply (failure_step w id now w' (λ k, String.eqb id k && false)).
  - destruct (wf_fail id now w) as [w'|e] eqn:Hf; [|done]. by eapply (failure_step w id now w' (λ _, false)).
  - split; [done|]. rewrite lookup_fmap, Hk. simpl. eexists. split; [done|]. destruct (retry_due now u) eqn:Hd; [|apply task_step_same].
    unfold retry_due in Hd. rewrite !andb_true_iff, bool_decide_eq_true in Hd. destruct Hd as [[Hu _] _].
    split_and!; [done..|]. right; left. split_and!; [by rewrite Hu|done|done].
  - unfold wf_requeue. destruct (wf_tasks w !! id) as [t|] eqn:Hid; [|done].
    destruct (to_running t) as [t'|e] eqn:Hr; [|done]. simpl. split; [done|].
    by eapply (put_task_step w id t t' (λ _, false)); [done|apply to_running_step|].
  - unfold wf_block. destruct (wf_tasks w !! id) as [t|] eqn:Hid; [|done].
    destruct (can_transition (wf_state t) TsBlocked) eqn:Hc; [|done]. split; [done|].
    apply (put_task_step w id t _ (λ _, false)); [done| |done]. split_and!; [done..|]. do 5 right. split_and!; [by destruct (wf_state t)|done|done].
  - split; [done|]. exists u. cbn in Hres. apply String.eqb_neq in Hres. rewrite lookup_insert_ne by done. split; [done|apply task_step_same].
  - done.
Qed.
Lemma wf_reset_tasks w c k u : wf_tasks w !! k = Some u → resets k c = true →
  wf_retry (wf_step w c) = wf_retry w ∧ ∃ u', wf_tasks (wf_step w c) !! k = Some u' ∧
    ((c = CallAdd u') ∨ (wf_state u' = TsPending ∧ wf_retries_used u' = 0%N)).
Proof.
  intros Hk Hres. split; [by destruct c|]. destruct c as [| | | | | |a|date]; try done.
  - cbn in Hres. apply String.eqb_eq in Hres as <-. exists a. cbn. rewrite lookup_insert_eq. split; [done|by left].
  - cbn. rewrite lookup_fmap, Hk. eexists. split; [done|by right].
Qed.

Lemma since_snoc k cs c : since k (cs ++ [c]) = if resets k c then [] else since k cs ++ [c].
Proof. unfold since. by rewrite foldl_app. Qed.
Lemma put_in_place_snoc k cs c :
  put_in_place k (cs ++ [c]) = if resets k c then match c with CallAdd t => Some t | _ => None end else put_in_place k cs.
Proof. unfold put_in_place. by rewrite foldl_app. Qed.

(** [C33] No silent success. Whatever calls are made, a task that is successful
    stays exactly as it is until a backfill or until it is replaced; a task with
    a verify hook is successful only if since then it was reported with the hook
    passed, or was put in place successful, or was so from the start; and unless
    it is put in place with more, it has consumed no more retries than the
    policy allows. *)
Theorem success_is_verified_and_final cs w k t : wf_tasks w !! k = Some t → (wf_retries_used t <= rp_max_retries (wf_retry w))%N →
  ∃ t', wf_tasks (wf_play cs w) !! k = Some t' ∧
    ((∀ u, CallAdd u ∈ cs → (wf_retries_used u <= rp_max_retries (wf_retry w))%N) → (wf_retries_used t' <= rp_max_retries (wf_retry w))%N) ∧
    (wf_state t = TsSuccess → existsb (resets k) cs = false → t' = t) ∧
    (wf_state t' = TsSuccess → is_Some (wf_verify t') →
       (∃ now, CallSucceed k true now ∈ since k cs) ∨ put_in_place k cs = Some t' ∨ (t' = t ∧ existsb (resets k) cs = false)).
Proof.
  intros Hk Hle. unfold wf_play. enough (H : wf_retry (foldl wf_step w cs) = wf_retry w ∧ ∃ t', wf_tasks (foldl wf_step w cs) !! k = Some t' ∧
    ((∀ u, CallAdd u ∈ cs → (wf_retries_used u <= rp_max_retries (wf_retry w))%N) → (wf_retries_used t' <= rp_max_retries (wf_retry w))%N) ∧
    (wf_state t = TsSuccess → existsb (resets k) cs = false → t' = t) ∧
    (wf_state t' = TsSuccess → is_Some (wf_verify t') →
       (∃ now, CallSucceed k true now ∈ since k cs) ∨ put_in_place k cs = Some t' ∨ (t' = t ∧ existsb (resets k) cs = false))) by apply H.
  induction cs as [|c cs IH] using rev_ind; [split; [done|]; exists t; split_and!; auto|].
  destruct IH as (Hp & u & Hu & Hret & Hfin & Hver). rewrite foldl_snoc, since_snoc, put_in_place_snoc, existsb_app. cbn [existsb]. rewrite orb_false_r.
  destruct (resets k c) eqn:Hres.
  - destruct (wf_reset_tasks _ c k u Hu Hres) as (Hp' & u' & Hu' & Hc). split; [congruence|]. exists u'. split; [done|]. rewrite !orb_true_r.
    destruct Hc as [->|[Hs Hr]]; (split; [intros Ha|split; [done|intros HS _]]).
    + apply Ha, elem_of_app. right. by left.
    + right. by left.
    + rewrite Hr. lia.
    + congruence.
  - destruct (wf_step_tasks _ c k u Hu Hres) as (Hp' & u' & Hu' & _ & _ & Hv & Hst). rewrite Hp in Hst. split; [congruence|].
    exists u'. split; [done|]. rewrite orb_false_r. split; [|split].
    + intros Ha. assert (Hur : (wf_retries_used u <= rp_max_retries (wf_retry w))%N) by (apply Hret; intros a Hin; apply Ha, elem_of_app; by left).
      destruct Hst as [->|[(_ & _ & ->)|[(_ & _ & -> & _)|[(_ & _ & -> & ?)|[(_ & _ & -> & _)|(_ & _ & ->)]]]]]; try done. lia.
    + intros Hs Hn. specialize (Hfin Hs Hn) as ->. destruct Hst as [?|[(? & _)|[(Hr & _)|[(Hr & _)|[(Hr & _)|(Hr & _)]]]]]; congruence.
    + intros HS Hh. destruct Hst as [->|[(_ & Hr & _)|[(_ & _ & _ & Hok)|[(_ & Hr & _)|[(_ & Hr & _)|(_ & Hr & _)]]]]]; try congruence.
      * destruct (Hver HS Hh) as [(now & Hin)|[Hin|[-> Hn]]]; [left; exists now; apply elem_of_app; by left|by right; left|by right; right].
      * rewrite Hv in Hh. apply Hok in Hh. left. destruct c as [|id ok now| | | | | |]; try done. unfold passes in Hh. apply andb_true_iff in Hh as [->%String.eqb_eq ->].
        exists now. apply elem_of_app. right. by left.
Qed.

(** ** Delays *)

(** A wait before a retry doubles with each retry from the base delay until
    the cap, and never exceeds the cap. *)
Theorem retry_delay_doubles_up_to_the_cap p n : (1 <= n)%N → (rp_max_wait_secs p <= u64_max)%N → (1 <= rp_base_delay_secs p)%N →
  delay_for p n = N.min (rp_base_delay_secs p * 2 ^ (n - 1)) (rp_max_wait_secs p) ∧
  (delay_for p n <= rp_max_wait_secs p)%N ∧
  delay_for p (n + 1) = N.min (2 * delay_for p n) (rp_max_wait_secs p).
Proof.
  intros Hn Hm Hb. assert (Hd : ∀ n, (1 <= n)%N → delay_for p n = N.min (rp_base_delay_secs p * 2 ^ (n - 1)) (rp_max_wait_secs p)).
  { clear n Hn. intros n Hn. unfold delay_for, u64_saturating_mul, pow2_saturating.
    destruct (N.ltb_spec (n - 1) 64) as [Hlt|Hge]; [lia|].
    assert (Hpow : (u64_max <= 2 ^ (n - 1))%N) by (transitivity (2 ^ 64)%N; [done|by apply N.pow_le_mono_r]). nia. }
  rewrite !Hd by lia. split_and!; [done|lia|]. replace (n + 1 - 1)%N with (N.succ (n - 1)) by lia. rewrite N.pow_succ_r'. lia.
Qed.

(** ** The order *)

Section order.
Context (w : Workflow).
Definition well_keyed : Prop := ∀ k t, wf_tasks w !! k = Some t → wf_id t = k.
Definition wf_deps (k : string) : list string := match wf_tasks w !! k with Some t => wf_depends_on t | None => [] end.
Definition wf_known : Prop := ∀ k d, k ∈ wf_keys w → d ∈ wf_deps k → d ∈ wf_keys w.
Definition wf_acyclic : Prop := ∃ rank, ranked (wf_keys w) wf_deps rank.

Lemma elem_of_wf_keys k : k ∈ wf_keys w ↔ is_Some (wf_tasks w !! k).
Proof. unfold wf_keys. by rewrite elem_of_set_iter, elem_of_dom. Qed.

Definition adj_of (adj : gmap string (list string)) (d n : string) : nat := occurrences n (default [] (adj !! d)).
Lemma count_deps_spec id ds ind adj : is_Some (ind !! id) →
  match count_deps w id ds (ind, adj) with
  | None => False
  | Some (Err e) => ∃ d, e = WfUnknownDependency d ∧ d ∈ ds ∧ wf_tasks w !! d = None
  | Some (Ok (ind', adj')) => (∀ d, d ∈ ds → is_Some (wf_tasks w !! d)) ∧
      (∀ n, ind' !! n = if decide (n = id) then (λ k, k + length ds)%nat <$> ind !! n else ind !! n) ∧
      (∀ n d, adj_of adj' d n = (adj_of adj d n + if decide (n = id) then occurrences d ds else 0)%nat)
  end.
Proof.
  revert ind adj. induction ds as [|d ds IH]; intros ind adj [k Hk]; simpl.
  { split_and!; [by intros d ?%not_elem_of_nil| |intros n d; case_decide; unfold occurrences; simpl; lia].
    intros n. case_decide as Hn; [|done]. subst n. rewrite Hk. simpl. f_equal. lia. }
  unfold count_dep. cbn [fst snd]. destruct (wf_tasks w !! d) as [t|] eqn:Hd; [|exists d; split_and!; [done|by left|done]].
  rewrite Hk. specialize (IH (<[id := S k]> ind) (<[d := default [] (adj !! d) ++ [id]]> adj)).
  rewrite lookup_insert_eq in IH. specialize (IH (mk_is_Some _ _ eq_refl)).
  destruct (count_deps w id ds _) as [[[ind' adj']|e]|]; [| |done].
  - destruct IH as (H1 & H2 & H3). split_and!.
    + intros x [->|Hx]%elem_of_cons; [by eexists|by apply H1].
    + intros n. rewrite H2. case_decide as Hn; [subst n; rewrite lookup_insert_eq, Hk; simpl; f_equal; lia|by rewrite lookup_insert_ne].
    + intros n x. rewrite H3, occurrences_cons. unfold adj_of. destruct (decide (x = d)) as [->|Hne].
      * rewrite lookup_insert_eq. simpl. unfold occurrences at 1. rewrite filter_app, length_app, filter_cons, filter_nil.
        fold (occurrences n (default [] (adj !! d))). repeat case_decide; simpl; lia.
      * rewrite lookup_insert_ne by done. case_decide; lia.
  - destruct IH as (x & -> & Hx & Hn). exists x. split_and!; [done|by right|done].
Qed.

Lemma count_tasks_spec l ind adj : NoDup (wf_id <$> l) → (∀ t, t ∈ l → is_Some (ind !! wf_id t)) →
  match count_tasks w l (ind, adj) with
  | None => False
  | Some (Err e) => ∃ t d, e = WfUnknownDependency d ∧ t ∈ l ∧ d ∈ wf_depends_on t ∧ wf_tasks w !! d = None
  | Some (Ok (ind', adj')) => (∀ t d, t ∈ l → d ∈ wf_depends_on t → is_Some (wf_tasks w !! d)) ∧
      (∀ t, t ∈ l → ind' !! wf_id t = (λ k, k + length (wf_depends_on t))%nat <$> ind !! wf_id t) ∧
      (∀ n, n ∉ wf_id <$> l → ind' !! n = ind !! n) ∧
      (∀ t d, t ∈ l → adj_of adj' d (wf_id t) = (adj_of adj d (wf_id t) + occurrences d (wf_depends_on t))%nat) ∧
      (∀ n d, n ∉ wf_id <$> l → adj_of adj' d n = adj_of adj d n)
  end.
Proof.
  revert ind adj. induction l as [|t l IH]; intros ind adj Hnd Hin; simpl.
  { split_and!; [by intros t d ?%not_elem_of_nil|by intros t ?%not_elem_of_nil|done|by intros t d ?%not_elem_of_nil|done]. }
  csimpl in Hnd. apply NoDup_cons in Hnd as [Ht Hnd].
  pose proof (count_deps_spec (wf_id t) (wf_depends_on t) ind adj (Hin t (list_elem_of_here _ _))) as H.
  destruct (count_deps w (wf_id t) (wf_depends_on t) (ind, adj)) as [[[ind1 adj1]|e]|]; [| |done].
  2: { destruct H as (d & -> & Hd & Hn). exists t, d. split_and!; [done|by left|done|done]. }
  destruct H as (H1 & H2 & H3). specialize (IH ind1 adj1 Hnd). assert (Hin1 : ∀ u, u ∈ l → is_Some (ind1 !! wf_id u)).
  { intros u Hu. rewrite H2. destruct (Hin u) as [k Hk]; [by right|]. rewrite Hk. case_decide; by eexists. }
  specialize (IH Hin1). destruct (count_tasks w l (ind1, adj1)) as [[[ind' adj']|e]|]; [| |done].
  2: { destruct IH as (u & d & -> & Hu & Hd & Hn). exists u, d. split_and!; [done|by right|done|done]. }
  destruct IH as (G1 & G2 & G3 & G4 & G5).
  assert (Hother : ∀ u, u ∈ l → wf_id u ≠ wf_id t) by (intros u Hu E; apply Ht; rewrite <- E; by apply list_elem_of_fmap_2).
  split_and!.
  - intros u d [->|Hu]%elem_of_cons; [apply H1|by apply G1].
  - intros u [->|Hu]%elem_of_cons; [by rewrite G3, H2, decide_True|]. rewrite G2, H2, decide_False by auto. done.
  - intros n Hn. csimpl in Hn. apply not_elem_of_cons in Hn as [Hne Hn]. by rewrite G3, H2, decide_False.
  - intros u d [->|Hu]%elem_of_cons; [by rewrite G5, H3, decide_True|]. rewrite G4, H3, decide_False by auto. lia.
  - intros n d Hn. csimpl in Hn. apply not_elem_of_cons in Hn as [Hne Hn]. rewrite G5, H3, decide_False by done. lia.
Qed.

Lemma values_keys : well_keyed → wf_id <$> values (wf_tasks w) ≡ₚ wf_keys w.
Proof.
  intros Hwk. apply NoDup_Permutation; [|apply NoDup_set_iter|].
  - unfold values. rewrite <- list_fmap_compose.
    assert (E : (wf_id ∘ snd) <$> sort_by (λ p q, str_le p.1 q.1) (map_to_list (wf_tasks w)) =
                fst <$> sort_by (λ p q, str_le p.1 q.1) (map_to_list (wf_tasks w))).
    { apply list_fmap_ext. intros j [k t] Hj. apply list_elem_of_lookup_2 in Hj. rewrite elem_of_sort_by, elem_of_map_to_list in Hj.
      by apply Hwk. }
    rewrite E. rewrite sort_by_perm. apply NoDup_fst_map_to_list.
  - intros k. rewrite elem_of_wf_keys, list_elem_of_fmap. split.
    + intros (t & -> & (k' & Hk)%elem_of_values). rewrite (Hwk _ _ Hk). by eexists.
    + intros [t Ht]. exists t. split; [symmetry; by apply Hwk|]. apply elem_of_values. by exists k.
Qed.

(** What the two maps hold after the tasks are counted. *)
Lemma counted_known : well_keyed →
  (wf_known ∧ ∃ ind adj, count_tasks w (values (wf_tasks w)) ((λ _, 0%nat) <$> wf_tasks w, ∅) = Some (Ok (ind, adj)) ∧
    (∀ k, k ∈ wf_keys w → ind !! k = Some (length (wf_deps k))) ∧
    (∀ n d, adj_of adj d n = if decide (n ∈ wf_keys w) then occurrences d (wf_deps n) else 0%nat)) ∨
  (¬ wf_known ∧ ∃ d, count_tasks w (values (wf_tasks w)) ((λ _, 0%nat) <$> wf_tasks w, ∅) = Some (Err (WfUnknownDependency d))).
Proof.
  intros Hwk. pose proof (values_keys Hwk) as Hvk.
  pose proof (count_tasks_spec (values (wf_tasks w)) ((λ _, 0%nat) <$> wf_tasks w) ∅) as H.
  assert (Hdeps : ∀ k t, wf_tasks w !! k = Some t → wf_deps k = wf_depends_on t) by (intros k t Ht; unfold wf_deps; by rewrite Ht).
  destruct (count_tasks w _ _) as [[[ind adj]|e]|].
  - left. destruct H as (H1 & H2 & _ & H4 & H5).
    { rewrite Hvk. apply NoDup_set_iter. }
    { intros t (k & Hk)%elem_of_values. rewrite lookup_fmap, (Hwk _ _ Hk), Hk. by eexists. }
    split; [|exists ind, adj; split_and!; [done| |]].
    + intros k d [t Ht]%elem_of_wf_keys Hd. rewrite (Hdeps k t Ht) in Hd. apply elem_of_wf_keys. apply (H1 t d); [|done].
      apply elem_of_values. by exists k.
    + intros k [t Ht]%elem_of_wf_keys. specialize (H2 t). rewrite (Hwk _ _ Ht) in H2. rewrite H2, lookup_fmap, Ht by (apply elem_of_values; by exists k).
      simpl. by rewrite (Hdeps k t Ht).
    + intros n d. case_decide as Hn.
      * apply elem_of_wf_keys in Hn as [t Ht]. specialize (H4 t d). rewrite (Hwk _ _ Ht) in H4.
        rewrite H4 by (apply elem_of_values; by exists n). rewrite (Hdeps n t Ht). unfold adj_of. by rewrite lookup_empty.
      * rewrite H5 by (by rewrite Hvk). unfold adj_of. by rewrite lookup_empty.
  - right. destruct H as (t & d & -> & (k & Hk)%elem_of_values & Hd & Hn).
    { rewrite Hvk. apply NoDup_set_iter. }
    { intros t (k & Hk)%elem_of_values. rewrite lookup_fmap, (Hwk _ _ Hk), Hk. by eexists. }
    split; [|by exists d]. intros Hkn. assert (Hin : d ∈ wf_keys w) by (apply (Hkn k); [apply elem_of_wf_keys; by eexists|by rewrite (Hdeps k t)]).
    apply elem_of_wf_keys in Hin as [x Hx]. congruence.
  - exfalso. apply H; [rewrite Hvk; apply NoDup_set_iter|]. intros t (k & Hk)%elem_of_values. rewrite lookup_fmap, (Hwk _ _ Hk), Hk. by eexists.
Qed.

(** [C34] The order of a workflow is decided. On tasks stored under their ids the
    function always answers: an order of exactly the tasks, each after the tasks
    it depends on, when every dependency exists and there is no cycle; otherwise
    the unknown dependency or the cycle. *)
Theorem workflow_order_decides : well_keyed →
  ∃ r, workflow_order w = Some r ∧
    match r with
    | Ok order => wf_known ∧ wf_acyclic ∧ order ≡ₚ wf_keys w ∧ scheduled wf_deps order
    | Err WfCycleDetected => wf_known ∧ ¬ wf_acyclic
    | Err (WfUnknownDependency _) => ¬ wf_known
    | Err _ => False
    end.
Proof.
  intros Hwk. unfold workflow_order. destruct (counted_known Hwk) as [(Hk & ind & adj & -> & Hind & Hadj)|(Hnk & d & ->)]; [|by eexists].
  assert (Hsz : length (wf_keys w) = size (wf_tasks w)).
  { unfold wf_keys, set_iter. by rewrite sort_by_perm, <- size_dom. }
  destruct (kahn_decides (wf_keys w) wf_deps (λ i, default [] (adj !! i)) (NoDup_set_iter _)) with (p := PopBack)
    (fuel := size (wf_tasks w)) (indegree := ind) (queue := List.filter (λ k, bool_decide (ind !! k = Some 0%nat)) (wf_keys w))
    as (order & Hrun & Hnd & Hsub & Hsch & Hlen & Hall).
  - exact Hk.
  - intros m n Hm Hn. change (adj_of adj m n = occurrences m (wf_deps n)). rewrite Hadj. by rewrite decide_True.
  - intros m n Hn. apply occurrences_elem in Hn. change (0 < adj_of adj m n)%nat in Hn. rewrite Hadj in Hn. case_decide; [done|lia].
  - exact Hind.
  - apply NoDup_ListNoDup, List.NoDup_filter, NoDup_ListNoDup, NoDup_set_iter.
  - intros n. by rewrite list_elem_of_In, List.filter_In, <- list_elem_of_In, bool_decide_eq_true.
  - by rewrite Hsz.
  - rewrite Hrun. eexists. split; [done|]. rewrite <- Hsz. destruct (Nat.eqb_spec (length order) (length (wf_keys w))) as [E|E].
    + apply Hlen in E. split_and!; [done|by apply Hall|done|done].
    + split; [done|]. intros Ha. apply E, Hlen, Hall, Ha.
Qed.
End order.

(** ** Two tasks *)

Definition demo_flow : Workflow :=
  add_task {| wf_id := "deploy"; wf_depends_on := ["build"]; wf_state := TsPending; wf_retries_used := 0;
              wf_next_attempt_at := None; wf_verify := Some "smoke" |} (add_task (wf_task_new "build") (workflow_new "flow")).
Lemma demo_well_keyed : well_keyed demo_flow.
Proof.
  intros k t. unfold demo_flow, add_task, put_task. simpl. rewrite !lookup_insert_Some, lookup_empty. intros [[<- <-]|[_ [[<- <-]|[_ [=]]]]]; done.
Qed.
Lemma workflow_order_decides_witness : well_keyed demo_flow ∧ workflow_order demo_flow = Some (Ok ["build"; "deploy"]).
Proof.
  split; [exact demo_well_keyed|]. destruct (workflow_order_decides demo_flow demo_well_keyed) as (r & Hr & _).
  vm_compute in Hr. injection Hr as <-. by vm_compute.
Defined.
Lemma retry_delay_doubles_up_to_the_cap_witness : delay_for retry_policy_default (5 + 1) = N.min (2 * delay_for retry_policy_default 5) 300.
Proof. apply (retry_delay_doubles_up_to_the_cap retry_policy_default 5); by vm_compute. Defined.
Lemma success_is_verified_and_final_witness : ∃ t', wf_tasks (wf_play [CallClaim "build"; CallSucceed "build" false 0; CallClaim "deploy";
    CallSucceed "deploy" false 10; CallRetries 15; CallSucceed "deploy" true 20] demo_flow) !! "deploy" = Some t' ∧
  wf_state t' = TsSuccess ∧ wf_retries_used t' = 1%N ∧ (wf_retries_used t' <= 3)%N.
Proof.
  destruct (success_is_verified_and_final [CallClaim "build"; CallSucceed "build" false 0; CallClaim "deploy"; CallSucceed "deploy" false 10;
    CallRetries 15; CallSucceed "deploy" true 20] demo_flow "deploy" {| wf_id := "deploy"; wf_depends_on := ["build"];
    wf_state := TsPending; wf_retries_used := 0; wf_next_attempt_at := None; wf_verify := Some "smoke" |}) as (t' & Ht' & Hle & _);
    [by vm_compute|by vm_compute|]. exists t'. split; [exact Ht'|].
  assert (Hn : (wf_retries_used t' <= 3)%N) by (apply Hle; intros u Hu; repeat (apply elem_of_cons in Hu as [Hu|Hu]; [done|]); by apply not_elem_of_nil in Hu).
  vm_compute in Ht'. injection Ht' as <-. split_and!; [by vm_compute|by vm_compute|exact Hn].
Defined.

(** ** Where the comments and the code part *)

(** A manual requeue starts a pending task whose dependency never ran. *)
Example requeue_skips_dependencies : is_ok (wf_claim "deploy" demo_flow) = false ∧ is_ok (wf_requeue "deploy" demo_flow) = true.
Proof. by vm_compute. Qed.
(** A claim starts a task whose retry is not due. *)
Example claim_skips_the_backoff :
  let w := wf_play [CallClaim "build"; CallFail "build" 100] demo_flow in
  (requeue_due_retries 101 w).1 = [] ∧ is_ok (wf_claim "build" w) = true.
Proof. by vm_compute. Qed.
