(* ===== verification/Reversible.v ===== *)
(** * Reversible change sets and reviewed imports

    [everyaios-blueprint/src/change_set.rs]: the coordinator above tickets, a
    vector of changes with an index by id, the commits guarded by dependencies
    and idempotency keys, the recovery after an interruption, and the check of
    what a sandboxed process hands back to the host. *)
From S2P Require Import Prelude Paths.

(* SRC blueprint/src/change_set.rs @enum:EffectClass EffectClass *)
Inductive EffectClass := EcReversible | EcCompensatable | EcIrreversible | EcUncertain.
#[export] Instance effect_class_eq_dec : EqDecision EffectClass.
Proof. solve_decision. Defined.
(* SRC blueprint/src/change_set.rs @struct:Change Change *)
Record Change := {
  kc_id : string;
  kc_ticket_id : string;
  kc_idempotency_key : string;
  kc_effect_class : EffectClass;
  kc_depends_on : list string;
  kc_preconditions : list string;
  kc_postconditions : list string
}.
(* SRC blueprint/src/change_set.rs @enum:ChangeState ChangeState *)
Inductive ChangeState := KsPlanned | KsCommitted | KsReverted | KsCompensated | KsUnrecoverable.
#[export] Instance change_state_eq_dec : EqDecision ChangeState.
Proof. solve_decision. Defined.
(* SRC blueprint/src/change_set.rs @struct:CommittedChange CommittedChange *)
Record CommittedChange := { cc_change : Change; cc_state : ChangeState; cc_committed_at : N }.
Definition cc_id (r : CommittedChange) : string := kc_id (cc_change r).
Definition set_cc (s : ChangeState) (at_ : N) (r : CommittedChange) : CommittedChange :=
  {| cc_change := cc_change r; cc_state := s; cc_committed_at := at_ |}.
(* SRC blueprint/src/change_set.rs @struct:ChangeSet ChangeSet *)
Record ChangeSet := { kcs_changes : list CommittedChange; kcs_by_id : gmap string nat }.
Definition change_set_empty : ChangeSet := {| kcs_changes := []; kcs_by_id := ∅ |}.

(** The index of an id always lies in the vector ([index_ok] below). *)
(* SRC blueprint/src/change_set.rs @fn:get ChangeSet::get *)
Definition change_get (c : ChangeSet) (id : string) : option CommittedChange :=
  i ← kcs_by_id c !! id; kcs_changes c !! i.

(** The first dependency that is not registered. *)
Definition unknown_dep (c : ChangeSet) (ch : Change) : option string :=
  List.find (λ d, match kcs_by_id c !! d with None => true | Some _ => false end) (kc_depends_on ch).
(* SRC blueprint/src/change_set.rs @fn:plan ChangeSet::plan *)
Definition change_plan (ch : Change) (c : ChangeSet) : result ChangeSet string :=
  match kcs_by_id c !! kc_id ch with
  | Some _ => Err ("change `" +:+ kc_id ch +:+ "` already exists")
  | None =>
      match unknown_dep c ch with
      | Some dep => Err ("change `" +:+ kc_id ch +:+ "` depends on unknown `" +:+ dep +:+ "`")
      | None => Ok {| kcs_changes := kcs_changes c ++ [{| cc_change := ch; cc_state := KsPlanned; cc_committed_at := 0 |}];
                      kcs_by_id := <[kc_id ch := length (kcs_changes c)]> (kcs_by_id c) |}
      end
  end.
Definition is_committed (c : ChangeSet) (d : string) : bool :=
  match change_get c d with Some r => bool_decide (cc_state r = KsCommitted) | None => false end.
(* SRC blueprint/src/change_set.rs @fn:ready ChangeSet::ready *)
Definition change_ready (c : ChangeSet) (id : string) : bool :=
  match change_get c id with Some r => forallb (is_committed c) (kc_depends_on (cc_change r)) | None => false end.
(* SRC blueprint/src/change_set.rs @fn:ready_queue ChangeSet::ready_queue *)
Definition ready_queue (c : ChangeSet) : list Change :=
  cc_change <$> List.filter (λ r, bool_decide (cc_state r = KsPlanned) && change_ready c (cc_id r)) (kcs_changes c).
(** Another change has committed the key of this one. *)
Definition key_taken (c : ChangeSet) (id : string) : bool :=
  let key := match change_get c id with Some r => kc_idempotency_key (cc_change r) | None => "" end in
  existsb (λ r, String.eqb (kc_idempotency_key (cc_change r)) key && bool_decide (cc_state r = KsCommitted) && negb (String.eqb (cc_id r) id))
    (kcs_changes c).
(* SRC blueprint/src/change_set.rs @fn:commit ChangeSet::commit *)
Definition change_commit (id : string) (at_ms : N) (c : ChangeSet) : result (ChangeState * ChangeSet) string :=
  if key_taken c id then Err "idempotency key already committed (duplicate prevented)"
  else match kcs_by_id c !! id with
  | None => Err ("unknown change `" +:+ id +:+ "`")
  | Some idx =>
      if negb (change_ready c id) then Err ("change `" +:+ id +:+ "` has uncommitted dependencies")
      else Ok (KsCommitted, {| kcs_changes := alter (set_cc KsCommitted at_ms) idx (kcs_changes c); kcs_by_id := kcs_by_id c |})
  end.

(* SRC blueprint/src/change_set.rs @struct:RecoveryReport RecoveryReport *)
Record ChangeRecoveryReport := { rr_reverted : list string; rr_compensated : list string; rr_unrecoverable : list string }.
(* SRC blueprint/src/change_set.rs @fn:is_clean RecoveryReport::is_clean *)
Definition is_clean (r : ChangeRecoveryReport) : bool := match rr_unrecoverable r with [] => true | _ => false end.
(** What a committed change becomes. *)
Definition recovered (e : EffectClass) : ChangeState :=
  match e with EcReversible => KsReverted | EcCompensatable => KsCompensated | EcIrreversible | EcUncertain => KsUnrecoverable end.
Definition recover_one (r : CommittedChange) : CommittedChange :=
  match cc_state r with
  | KsCommitted => set_cc (recovered (kc_effect_class (cc_change r))) (cc_committed_at r) r
  | _ => r
  end.
(** The committed changes that become [s], the last planned first. *)
Definition becoming (s : ChangeState) (l : list CommittedChange) : list string :=
  cc_id <$> List.filter (λ r, bool_decide (cc_state r = KsCommitted) && bool_decide (recovered (kc_effect_class (cc_change r)) = s)) (rev l).
(* SRC blueprint/src/change_set.rs @fn:recover ChangeSet::recover *)
Definition change_recover (c : ChangeSet) : ChangeRecoveryReport * ChangeSet :=
  ({| rr_reverted := becoming KsReverted (kcs_changes c); rr_compensated := becoming KsCompensated (kcs_changes c);
      rr_unrecoverable := becoming KsUnrecoverable (kcs_changes c) |},
   {| kcs_changes := recover_one <$> kcs_changes c; kcs_by_id := kcs_by_id c |}).

(** ** Imports *)

#[export] Instance component_eq_dec : EqDecision Component.
Proof. solve_decision. Defined.
(** [PathBuf]'s equality compares components. *)
Definition path_eqb (a b : string) : bool := bool_decide (components a = components b).
Definition has_parent_dir (p : string) : bool := existsb (λ c, bool_decide (c = CParentDir)) (components p).

(* SRC blueprint/src/change_set.rs @struct:ImportEntry ImportEntry *)
Record ImportEntry := { ie_change_id : string; ie_relative_path : string; ie_content_sha256 : string }.
(* SRC blueprint/src/change_set.rs @struct:ReviewedImport ReviewedImport *)
Record ReviewedImport := { ri_root : string; ri_changes : list ImportEntry; ri_manifest_sha256 : string }.
(* SRC blueprint/src/change_set.rs @enum:ImportError ImportError *)
Inductive ImportError :=
  | ImpEmpty
  | ImpAbsolutePath (path : string)
  | ImpPathEscape (path : string)
  | ImpUnknownChange (id : string)
  | ImpDuplicateChange (id : string)
  | ImpManifestHashMismatch
  | ImpContentHashMismatch (path : string).
(** [serde_json] of the entries. *)
Class EntriesJson := { entries_json : list ImportEntry → string }.

Section import.
Context {sha : Sha256} {json : EntriesJson}.
(** One entry, after those with the ids [ids]. *)
Definition check_entry (files : list (string * string)) (planned : ChangeSet) (ids : gset string) (e : ImportEntry) : result (gset string) ImportError :=
  let path := ie_relative_path e in
  if rooted path then Err (ImpAbsolutePath path)
  else if has_parent_dir path then Err (ImpPathEscape path)
  else match change_get planned (ie_change_id e) with
  | None => Err (ImpUnknownChange (ie_change_id e))
  | Some _ =>
      if bool_decide (ie_change_id e ∈ ids) then Err (ImpDuplicateChange (ie_change_id e))
      else match List.find (λ f, path_eqb f.1 path) files with
      | None => Err (ImpContentHashMismatch path)
      | Some (_, bytes) =>
          if negb (String.eqb (sha256_hex bytes) (ie_content_sha256 e)) then Err (ImpContentHashMismatch path)
          else Ok ({[ie_change_id e]} ∪ ids)
      end
  end.
Fixpoint check_entries (files : list (string * string)) (planned : ChangeSet) (ids : gset string) (l : list ImportEntry) : result unit ImportError :=
  match l with
  | [] => Ok tt
  | e :: l => ids <-? check_entry files planned ids e;; check_entries files planned ids l
  end.
(* SRC blueprint/src/change_set.rs @fn:validate ReviewedImport::validate *)
Definition import_validate (root : string) (entries : list ImportEntry) (expected_manifest_sha256 : string)
    (files : list (string * string)) (planned : ChangeSet) : result ReviewedImport ImportError :=
  match entries with
  | [] => Err ImpEmpty
  | _ =>
      _ <-? check_entries files planned ∅ entries;;
      if negb (String.eqb (sha256_hex (entries_json entries)) expected_manifest_sha256) then Err ImpManifestHashMismatch
      else Ok {| ri_root := root; ri_changes := entries; ri_manifest_sha256 := expected_manifest_sha256 |}
  end.
(* SRC blueprint/src/change_set.rs @fn:host_path ReviewedImport::host_path *)
Definition host_path (self : ReviewedImport) (relative : string) : result string ImportError :=
  if rooted relative || has_parent_dir relative then Err (ImpPathEscape relative) else Ok (path_join (ri_root self) relative).
End import.
