(* ===== verification/ReversibleFacts.v ===== *)
(** * What a change set guarantees

    Commits are closed under dependencies and unique per idempotency key,
    recovery accounts for every committed change with dependents first, a set
    that was not recovered can go on, and what is imported stays in its root. *)
From S2P Require Import Prelude Paths Reversible.

(** ** The invariant *)

Inductive change_op := OpPlan (ch : Change) | OpCommit (id : string) (at_ms : N) | OpRecover.
Definition change_step (c : ChangeSet) (o : change_op) : ChangeSet :=
  match o with
  | OpPlan ch => match change_plan ch c with Ok c' => c' | Err _ => c end
  | OpCommit id at_ms => match change_commit id at_ms c with Ok (_, c') => c' | Err _ => c end
  | OpRecover => (change_recover c).2
  end.
Definition change_play (ops : list change_op) (c : ChangeSet) : ChangeSet := foldl change_step c ops.

Definition deps_of_change (r : CommittedChange) : list string := kc_depends_on (cc_change r).
Definition key_of_change (r : CommittedChange) : string := kc_idempotency_key (cc_change r).
Record set_ok (c : ChangeSet) : Prop := {
  so_index id i : kcs_by_id c !! id = Some i ↔ ∃ r, kcs_changes c !! i = Some r ∧ cc_id r = id;
  so_order i r d : kcs_changes c !! i = Some r → d ∈ deps_of_change r → ∃ j r', j < i ∧ kcs_changes c !! j = Some r' ∧ cc_id r' = d;
  so_closed i r d : kcs_changes c !! i = Some r → cc_state r = KsCommitted → d ∈ deps_of_change r → is_committed c d = true;
  so_keys i j r r' : kcs_changes c !! i = Some r → kcs_changes c !! j = Some r' → cc_state r = KsCommitted → cc_state r' = KsCommitted →
    key_of_change r = key_of_change r' → i = j
}.

Lemma index_unique c i j r r' : set_ok c → kcs_changes c !! i = Some r → kcs_changes c !! j = Some r' → cc_id r = cc_id r' → i = j.
Proof.
  intros Hc Hi Hj E. assert (Hx : kcs_by_id c !! cc_id r = Some i) by (apply (so_index _ Hc); by exists r).
  assert (Hy : kcs_by_id c !! cc_id r = Some j) by (apply (so_index _ Hc); by exists r'). congruence.
Qed.
Lemma change_get_spec c id r : set_ok c → change_get c id = Some r ↔ ∃ i, kcs_changes c !! i = Some r ∧ cc_id r = id.
Proof.
  intros Hc. unfold change_get. split.
  - intros (i & Hi & Hr)%bind_Some. apply (so_index _ Hc) in Hi as (r' & Hr' & Hid). rewrite Hr in Hr'. injection Hr' as <-. by exists i.
  - intros (i & Hr & Hid). apply bind_Some. exists i. split; [|done]. apply (so_index _ Hc). by exists r.
Qed.
Lemma is_committed_spec c d : set_ok c → is_committed c d = true ↔ ∃ i r, kcs_changes c !! i = Some r ∧ cc_id r = d ∧ cc_state r = KsCommitted.
Proof.
  intros Hc. unfold is_committed. destruct (change_get c d) as [r|] eqn:E.
  - apply (change_get_spec _ _ _ Hc) in E as (i & Hi & Hid). rewrite bool_decide_eq_true. split; [by intros ?; exists i, r|].
    intros (j & r' & Hj & Hid' & Hs). assert (i = j) as -> by (eapply (index_unique c i j r r'); [done..|congruence]). congruence.
  - split; [done|]. intros (i & r & Hi & Hid & _). assert (change_get c d = Some r) by (apply change_get_spec; [done|by exists i]). congruence.
Qed.
Lemma change_ready_spec c id i r : set_ok c → kcs_changes c !! i = Some r → cc_id r = id →
  change_ready c id = true ↔ ∀ d, d ∈ deps_of_change r → is_committed c d = true.
Proof.
  intros Hc Hi Hid. unfold change_ready. assert (change_get c id = Some r) as -> by (apply change_get_spec; [done|by exists i]).
  rewrite List.forallb_forall. by setoid_rewrite <- list_elem_of_In.
Qed.

Lemma set_ok_empty : set_ok change_set_empty.
Proof.
  split; simpl; [intros id i; rewrite lookup_empty; split; [done|by intros (r & Hr & _)]|by intros i r d ?..|by intros i j r r' ?].
Qed.

Lemma plan_ok ch c c' : set_ok c → change_plan ch c = Ok c' → set_ok c'.
Proof.
  intros Hc. unfold change_plan. destruct (kcs_by_id c !! kc_id ch) as [i0|] eqn:Hnew; [done|].
  destruct (unknown_dep c ch) as [d0|] eqn:Hu; [done|]. intros [= <-].
  set (r0 := {| cc_change := ch; cc_state := KsPlanned; cc_committed_at := 0 |}).
  assert (Hlk : ∀ i r, (kcs_changes c ++ [r0]) !! i = Some r ↔ kcs_changes c !! i = Some r ∨ (i = length (kcs_changes c) ∧ r = r0)).
  { intros i r. rewrite lookup_app_Some, list_lookup_singleton_Some. split; [intros [?|(? & ? & <-)]; [by left|right; split; [lia|done]]|].
    intros [?|[-> ->]]; [by left|right; split_and!; [lia|lia|done]]. }
  assert (Hdeps : ∀ d, d ∈ kc_depends_on ch → ∃ j r', kcs_changes c !! j = Some r' ∧ cc_id r' = d).
  { intros d Hd. apply list_elem_of_In in Hd. pose proof (List.find_none _ _ Hu _ Hd) as Hk. simpl in Hk.
    destruct (kcs_by_id c !! d) as [j|] eqn:Hj; [|done]. apply (so_index _ Hc) in Hj as (r' & Hr' & Hid). by exists j, r'. }
  assert (Hfresh : ∀ j r', kcs_changes c !! j = Some r' → cc_id r' ≠ kc_id ch).
  { intros j r' Hj E. assert (Hx : kcs_by_id c !! kc_id ch = Some j) by (apply (so_index _ Hc); by exists r'). congruence. }
  assert (Hindex : ∀ id i, <[kc_id ch := length (kcs_changes c)]> (kcs_by_id c) !! id = Some i ↔
                           ∃ r, (kcs_changes c ++ [r0]) !! i = Some r ∧ cc_id r = id).
  { intros id i. rewrite lookup_insert_Some, (so_index _ Hc). setoid_rewrite Hlk. split.
    - intros [[<- <-]|[_ (r & Hr & Hid)]]; [exists r0; split; [by right|done]|exists r; split; [by left|done]].
    - intros (r & [Hr|[-> ->]] & <-); [right; split; [symmetry; by eapply Hfresh|by exists r]|by left]. }
  assert (Hcom : ∀ d, is_committed c d = true → is_committed {| kcs_changes := kcs_changes c ++ [r0];
                        kcs_by_id := <[kc_id ch := length (kcs_changes c)]> (kcs_by_id c) |} d = true).
  { intros d (i & r & Hi & Hid & Hs)%(is_committed_spec _ _ Hc). unfold is_committed, change_get. simpl.
    assert (<[kc_id ch := length (kcs_changes c)]> (kcs_by_id c) !! d = Some i) as -> by (apply Hindex; exists r; split; [apply Hlk; by left|done]).
    simpl. rewrite (proj2 (Hlk i r)) by (by left). by apply bool_decide_eq_true. }
  split; [exact Hindex| | |].
  - intros i r d [Hr|[-> ->]]%Hlk Hd.
    + destruct (so_order _ Hc i r d Hr Hd) as (j & r' & Hj & Hr' & Hid). exists j, r'. split_and!; [done|apply Hlk; by left|done].
    + destruct (Hdeps d Hd) as (j & r' & Hr' & Hid). exists j, r'. split_and!; [by eapply lookup_lt_Some|apply Hlk; by left|done].
  - intros i r d [Hr|[-> ->]]%Hlk Hs Hd; [|done]. apply Hcom. by eapply (so_closed _ Hc).
  - intros i j r r' [Hr|[-> ->]]%Hlk [Hr'|[-> ->]]%Hlk Hs Hs' E; try done. by eapply (so_keys _ Hc).
Qed.

Lemma alter_spec {A} (f : A → A) (l : list A) k i y :
  alter f k l !! i = Some y ↔ ∃ x, l !! i = Some x ∧ y = (if decide (i = k) then f x else x).
Proof.
  destruct (decide (i = k)) as [->|Hn].
  - rewrite list_lookup_alter_eq, fmap_Some. naive_solver.
  - rewrite list_lookup_alter_ne by congruence. naive_solver.
Qed.
Lemma key_taken_false c idx r id : set_ok c → kcs_changes c !! idx = Some r → cc_id r = id → key_taken c id = false →
  ∀ j r', kcs_changes c !! j = Some r' → cc_state r' = KsCommitted → key_of_change r' = key_of_change r → j = idx.
Proof.
  intros Hc Hr Hid. unfold key_taken. assert (change_get c id = Some r) as -> by (apply change_get_spec; [done|by exists idx]).
  intros Hk j r' Hj Hs E. destruct (String.eqb_spec (cc_id r') id) as [Ei|Ei].
  { eapply (index_unique c); [done..|congruence]. }
  exfalso. enough (true = false) by done. rewrite <- Hk. symmetry. apply List.existsb_exists. exists r'.
  split; [by eapply list_elem_of_In, list_elem_of_lookup_2|].
  rewrite !andb_true_iff, bool_decide_eq_true, negb_true_iff. split_and!; [by apply String.eqb_eq|done|by apply String.eqb_neq].
Qed.

Lemma commit_ok id at_ms c s c' : set_ok c → change_commit id at_ms c = Ok (s, c') → set_ok c'.
Proof.
  intros Hc. unfold change_commit. destruct (key_taken c id) eqn:Hk; [done|].
  destruct (kcs_by_id c !! id) as [idx|] eqn:Hidx; [|done]. destruct (change_ready c id) eqn:Hready; [|done]. intros [= <- <-].
  pose proof Hidx as (r0 & Hr0 & Hid0)%(so_index _ Hc).
  pose proof (proj1 (change_ready_spec c id idx r0 Hc Hr0 Hid0) Hready) as Hdep.
  set (c' := {| kcs_changes := alter (set_cc KsCommitted at_ms) idx (kcs_changes c); kcs_by_id := kcs_by_id c |}).
  assert (Hindex : ∀ d i, kcs_by_id c !! d = Some i ↔ ∃ r, alter (set_cc KsCommitted at_ms) idx (kcs_changes c) !! i = Some r ∧ cc_id r = d).
  { intros d i. rewrite (so_index _ Hc). setoid_rewrite alter_spec. split.
    - intros (r & Hr & Hd). exists (if decide (i = idx) then set_cc KsCommitted at_ms r else r). split; [by exists r|by case_decide].
    - intros (r & (x & Hx & ->) & Hd). exists x. split; [done|by case_decide]. }
  assert (Hcom : ∀ d, is_committed c d = true → is_committed c' d = true).
  { intros d (i & r & Hi & Hd & Hs)%(is_committed_spec _ _ Hc). unfold is_committed, change_get. simpl.
    assert (kcs_by_id c !! d = Some i) as -> by (apply (so_index _ Hc); by exists r). simpl.
    assert (alter (set_cc KsCommitted at_ms) idx (kcs_changes c) !! i = Some (if decide (i = idx) then set_cc KsCommitted at_ms r else r)) as ->
      by (apply alter_spec; by exists r). apply bool_decide_eq_true. by case_decide. }
  split; [exact Hindex| | |]; simpl.
  - intros i r d (x & Hx & ->)%alter_spec Hd.
    destruct (so_order _ Hc i x d Hx) as (j & r' & Hj & Hr' & Hd'); [by case_decide|].
    exists j, (if decide (j = idx) then set_cc KsCommitted at_ms r' else r'). split_and!; [done|apply alter_spec; by exists r'|by destruct (decide (j = idx))].
  - intros i r d (x & Hx & ->)%alter_spec Hs Hd. apply Hcom. case_decide as E.
    + subst i. rewrite Hr0 in Hx. injection Hx as <-. by apply Hdep.
    + by eapply (so_closed _ Hc).
  - intros i j r r' (x & Hx & ->)%alter_spec (y & Hy & ->)%alter_spec Hs Hs' E.
    pose proof (key_taken_false c idx r0 id Hc Hr0 Hid0 Hk) as Huniq.
    case_decide as Ei; case_decide as Ej; subst; try done.
    + rewrite Hr0 in Hx. injection Hx as <-. symmetry. by eapply Huniq.
    + rewrite Hr0 in Hy. injection Hy as <-. by eapply Huniq.
    + by eapply (so_keys _ Hc).
Qed.

Lemma recover_one_not_committed r : cc_state (recover_one r) ≠ KsCommitted.
Proof. unfold recover_one. destruct (cc_state r) eqn:E; simpl; rewrite ?E; try done. by destruct (kc_effect_class _). Qed.
Lemma recover_one_change r : cc_change (recover_one r) = cc_change r.
Proof. unfold recover_one. by destruct (cc_state r). Qed.
Lemma recover_ok c : set_ok c → set_ok (change_recover c).2.
Proof.
  intros Hc. assert (Hlk : ∀ i r, (recover_one <$> kcs_changes c) !! i = Some r ↔ ∃ x, kcs_changes c !! i = Some x ∧ r = recover_one x).
  { intros i r. rewrite list_lookup_fmap, fmap_Some. naive_solver. }
  split; simpl.
  - intros id i. rewrite (so_index _ Hc). setoid_rewrite Hlk. unfold cc_id. split.
    + intros (r & Hr & Hid). exists (recover_one r). split; [by exists r|by rewrite recover_one_change].
    + intros (r & (x & Hx & ->) & Hid). exists x. split; [done|by rewrite recover_one_change in Hid].
  - intros i r d (x & Hx & ->)%Hlk Hd. unfold deps_of_change in Hd. rewrite recover_one_change in Hd.
    destruct (so_order _ Hc i x d Hx Hd) as (j & r' & Hj & Hr' & Hid). exists j, (recover_one r').
    split_and!; [done|apply Hlk; by exists r'|unfold cc_id; by rewrite recover_one_change].
  - intros i r d (x & Hx & ->)%Hlk Hs. by destruct (recover_one_not_committed x).
  - intros i j r r' (x & Hx & ->)%Hlk _ Hs. by destruct (recover_one_not_committed x).
Qed.
Lemma play_ok ops c : set_ok c → set_ok (change_play ops c).
Proof.
  revert c. induction ops as [|o ops IH]; intros c Hc; [done|]. simpl. apply IH. destruct o as [ch|id at_ms|]; simpl.
  - destruct (change_plan ch c) eqn:E; [by eapply plan_ok|done].
  - destruct (change_commit id at_ms c) as [[s c']|] eqn:E; [by eapply commit_ok|done].
  - by apply recover_ok.
Qed.

(** ** Recovery *)

Lemma recover_lists s c id : set_ok c →
  id ∈ becoming s (kcs_changes c) ↔ ∃ r, change_get c id = Some r ∧ cc_state r = KsCommitted ∧ recovered (kc_effect_class (cc_change r)) = s.
Proof.
  intros Hc. unfold becoming. rewrite list_elem_of_fmap. setoid_rewrite (change_get_spec c id _ Hc).
  setoid_rewrite list_elem_of_In. setoid_rewrite List.filter_In. setoid_rewrite <- List.in_rev. setoid_rewrite <- list_elem_of_In.
  setoid_rewrite andb_true_iff. setoid_rewrite bool_decide_eq_true. setoid_rewrite list_elem_of_lookup. naive_solver.
Qed.
Lemma becoming_nodup s c : set_ok c → NoDup (becoming s (kcs_changes c)).
Proof.
  intros Hc. assert (H : NoDup (cc_id <$> kcs_changes c)).
  { apply NoDup_alt. intros i j id. rewrite !list_lookup_fmap, !fmap_Some. intros (r & Hr & E) (r' & Hr' & E').
    apply (index_unique c i j r r'); [done..|congruence]. }
  unfold becoming. generalize dependent (kcs_changes c). intros l H.
  assert (Hr : NoDup (cc_id <$> rev l)). { by rewrite <- Permutation_rev. }
  revert Hr. generalize (rev l). clear. intros l. induction l as [|r l IH]; [done|]. intros [Hn Hl]%NoDup_cons. simpl.
  case_match; [|by apply IH]. csimpl. apply NoDup_cons. split; [|by apply IH].
  intros (x & Hx & Hin)%list_elem_of_fmap. apply Hn. apply list_elem_of_fmap. exists x. split; [done|].
  apply list_elem_of_In in Hin. apply List.filter_In in Hin as [Hin _]. by apply list_elem_of_In.
Qed.
(** What is later in the vector is earlier in a report. *)
Lemma filter_rev_before (P : CommittedChange → bool) l i j a b :
  j < i → l !! i = Some a → l !! j = Some b → P a = true → P b = true →
  ∃ l1 l2 l3, cc_id <$> List.filter P (rev l) = l1 ++ cc_id a :: l2 ++ cc_id b :: l3.
Proof.
  intros Hij Ha Hb Pa Pb. rewrite <- (take_drop i l) in Hb. rewrite lookup_app_l in Hb by (rewrite length_take; apply lookup_lt_Some in Ha; lia).
  rewrite <- (take_drop_middle l i a Ha). apply list_elem_of_lookup_2, list_elem_of_split in Hb as (u & v & ->).
  rewrite !rev_app_distr. simpl.
  exists (cc_id <$> List.filter P (rev (drop (S i) l))), (cc_id <$> List.filter P (rev v)), (cc_id <$> List.filter P (rev u)).
  rewrite !List.filter_app. simpl. rewrite Pa, Pb, !fmap_app. csimpl. by rewrite <- !app_assoc.
Qed.

(** ** Imports *)

Lemma piece_rest_ok rel : has_parent_dir rel = false → rooted rel = false →
  Forall (λ x, ∃ n, x = CNormal n ∧ name_ok n) (omap piece (split SLASH rel)).
Proof.
  unfold has_parent_dir, components. intros Hp Hr. rewrite Hr in Hp.
  assert (Hno : CParentDir ∉ omap piece (split SLASH rel)).
  { intros Hin. enough (true = false) by done. rewrite <- Hp. symmetry. apply List.existsb_exists. exists CParentDir.
    split; [|by apply bool_decide_eq_true]. apply list_elem_of_In. destruct (split SLASH rel) as [|w ws]; [done|].
    destruct (decide (w = ".")) as [->|Hw]; [simpl in Hin; by apply list_elem_of_further|].
    repeat (case_match; try done). }
  apply Forall_forall. intros x Hx. pose proof Hx as (w & Hw & E)%list_elem_of_omap.
  destruct (piece_ok w x) as [->|?]; [|done| |done].
  - pose proof (split_char_free SLASH rel) as Hf. rewrite Forall_forall in Hf. by apply Hf.
  - done.
Qed.
Lemma rooted_app x y : x ≠ "" → rooted (x +:+ y) = rooted x.
Proof. unfold rooted, starts_with. destruct x as [|a x]; [done|]. intros _. rewrite app_string_cons. simpl. case_match; [|done]. by destruct x, y. Qed.
Lemma components_join root rel : rooted root = true → rooted rel = false →
  components (path_join root rel) = components root ++ omap piece (split SLASH rel).
Proof.
  intros Hr Hn. unfold path_join. rewrite Hn.
  assert (is_empty root = false) as -> by (by destruct root). cbn [orb].
  destruct (ends_with "/" root) eqn:He.
  - apply ends_with_spec in He as [x ->]. unfold components. rewrite Hr. rewrite app_string_assoc.
    change ("/" +:+ rel) with (String SLASH rel). change ("/") with (String SLASH "") in *. rewrite !split_app_sep.
    assert (rooted (x +:+ String SLASH rel) = true) as ->.
    { destruct x as [|a x]; [by destruct rel|]. rewrite rooted_app in * by done. done. }
    rewrite !omap_app. simpl. by rewrite app_nil_r.
  - unfold components. rewrite Hr. change ("/" +:+ rel) with (String SLASH rel). rewrite split_app_sep.
    assert (rooted (root +:+ String SLASH rel) = true) as ->.
    { rewrite rooted_app; [done|by destruct root]. }
    by rewrite omap_app.
Qed.
Lemma check_entries_ok {sha : Sha256} files planned l : ∀ ids, check_entries files planned ids l = Ok tt →
  NoDup (ie_change_id <$> l) ∧ (∀ e, e ∈ l → ie_change_id e ∉ ids) ∧
  ∀ e, e ∈ l → rooted (ie_relative_path e) = false ∧ has_parent_dir (ie_relative_path e) = false ∧
    change_get planned (ie_change_id e) ≠ None ∧
    ∃ f, f ∈ files ∧ path_eqb f.1 (ie_relative_path e) = true ∧ sha256_hex f.2 = ie_content_sha256 e.
Proof.
  induction l as [|e l IH]; intros ids; [intros _; split; [constructor|split; intros e He; by apply elem_of_nil in He]|]. simpl.
  destruct (check_entry files planned ids e) as [ids'|] eqn:E; [|done]. intros Hl. simpl in Hl.
  unfold check_entry in E. destruct (rooted _) eqn:Hroot; [done|]. destruct (has_parent_dir _) eqn:Hp; [done|].
  destruct (change_get _ _) as [r|] eqn:Hg; [|done]. case_bool_decide as Hin; [done|].
  destruct (List.find _ files) as [[fp bytes]|] eqn:Hf; [|done]. destruct (String.eqb_spec (sha256_hex bytes) (ie_content_sha256 e)) as [Hsha|]; [|done].
  simpl in E. injection E as <-. destruct (IH _ Hl) as (Hnd & Hfresh & Hall). apply List.find_some in Hf as [Hm He]. simpl in He. split_and!.
  - csimpl. apply NoDup_cons. split; [|done]. intros (e' & Hid & He')%list_elem_of_fmap. specialize (Hfresh e' He'). set_solver.
  - intros e' [->|He']%elem_of_cons; [done|]. specialize (Hfresh e' He'). set_solver.
  - intros e' [->|He']%elem_of_cons; [|by apply Hall]. split_and!; [done|done|congruence|].
    exists (fp, bytes). by split_and!; [apply list_elem_of_In| |].
Qed.

(** ** The properties *)

(** [C36] In every change set the operations build, each change is found under
    its own id; a committed change has all its dependencies committed, each of
    them planned before it, and no two committed changes share an idempotency
    key. *)
Theorem commits_are_closed_and_unique (ops : list change_op) (i : nat) (r : CommittedChange) :
  kcs_changes (change_play ops change_set_empty) !! i = Some r →
  let c := change_play ops change_set_empty in
  change_get c (cc_id r) = Some r ∧
  (cc_state r = KsCommitted →
   (∀ d, d ∈ deps_of_change r → ∃ j r', j < i ∧ kcs_changes c !! j = Some r' ∧ cc_id r' = d ∧ cc_state r' = KsCommitted) ∧
   (∀ j r', kcs_changes c !! j = Some r' → cc_state r' = KsCommitted → key_of_change r' = key_of_change r → j = i)).
Proof.
  set (c0 := change_play _ _). intros Hr c. subst c. assert (Hc : set_ok c0) by apply play_ok, set_ok_empty.
  split; [apply (change_get_spec _ _ _ Hc); by exists i|]. intros Hs. split.
  - intros d Hd. destruct (so_order _ Hc i r d Hr Hd) as (j & r' & Hj & Hr' & Hid). exists j, r'. split_and!; [done..|].
    pose proof (so_closed _ Hc i r d Hr Hs Hd) as (j' & r'' & Hr'' & Hid' & Hs')%(is_committed_spec _ _ Hc).
    assert (j' = j) as -> by (eapply (index_unique c0); [done..|congruence]). congruence.
  - intros j r' Hr' Hs' E. by eapply (so_keys _ Hc).
Qed.

(** [C35] Recovery is honest about every set the operations build: a change is
    reported in exactly one list, once, by its effect class, if and only if it
    was committed; nothing stays committed, what was not committed is not
    touched; within a list a dependent precedes its dependencies; and the
    report is clean exactly if no committed change was irreversible or
    uncertain. *)
Theorem recovery_is_honest (ops : list change_op) :
  let c := change_play ops change_set_empty in
  let '(rep, c') := change_recover c in
  (∀ s lst, (s, lst) ∈ [(KsReverted, rr_reverted rep); (KsCompensated, rr_compensated rep); (KsUnrecoverable, rr_unrecoverable rep)] →
    NoDup lst ∧
    (∀ id, id ∈ lst ↔ ∃ r, change_get c id = Some r ∧ cc_state r = KsCommitted ∧ recovered (kc_effect_class (cc_change r)) = s) ∧
    (∀ r d, cc_id r ∈ lst → change_get c (cc_id r) = Some r → d ∈ deps_of_change r → d ∈ lst → ∃ l1 l2 l3, lst = l1 ++ cc_id r :: l2 ++ d :: l3)) ∧
  kcs_changes c' = recover_one <$> kcs_changes c ∧
  (∀ r, r ∈ kcs_changes c' → cc_state r ≠ KsCommitted) ∧
  (is_clean rep = true ↔ ∀ r, r ∈ kcs_changes c → cc_state r = KsCommitted → kc_effect_class (cc_change r) ∈ [EcReversible; EcCompensatable]).
Proof.
  set (c := change_play _ _). assert (Hc : set_ok c) by apply play_ok, set_ok_empty.
  destruct (change_recover c) as [rep c'] eqn:E. injection E as <- <-. simpl. split_and!.
  - assert (Hgen : ∀ s lst, lst = becoming s (kcs_changes c) → NoDup lst ∧
      (∀ id, id ∈ lst ↔ ∃ r, change_get c id = Some r ∧ cc_state r = KsCommitted ∧ recovered (kc_effect_class (cc_change r)) = s) ∧
      (∀ r d, cc_id r ∈ lst → change_get c (cc_id r) = Some r → d ∈ deps_of_change r → d ∈ lst → ∃ l1 l2 l3, lst = l1 ++ cc_id r :: l2 ++ d :: l3)).
    { intros s lst ->. split_and!; [by apply becoming_nodup|by intros id; apply recover_lists|].
      intros r d (x & Hx & Hsx & Hcx)%(recover_lists _ _ _ Hc) Hg Hd (y & Hy & Hsy & Hcy)%(recover_lists _ _ _ Hc).
      rewrite Hg in Hx. injection Hx as <-. apply (change_get_spec _ _ _ Hc) in Hg as (i & Hi & _), Hy as (j & Hj & Hdj).
      destruct (so_order _ Hc i r d Hi Hd) as (j' & y' & Hlt & Hy' & Hdy). rewrite <- Hdj in Hdy |- *.
      assert (j' = j) as -> by (eapply (index_unique c); [done..|congruence]).
      apply (filter_rev_before _ _ i j); [done..| |]; by rewrite andb_true_iff, !bool_decide_eq_true. }
    intros s lst Hin. apply Hgen. set_solver.
  - done.
  - intros r (x & -> & Hx)%list_elem_of_fmap. apply recover_one_not_committed.
  - unfold is_clean. simpl. split.
    + intros Hcl r Hr Hs. destruct (becoming KsUnrecoverable (kcs_changes c)) as [|z zs] eqn:Ez; [|done].
      destruct (kc_effect_class (cc_change r)) eqn:Ee; [set_solver|set_solver|exfalso..];
        (assert (Hz : cc_id r ∈ becoming KsUnrecoverable (kcs_changes c)); [|rewrite Ez in Hz; set_solver]);
        apply (recover_lists _ _ _ Hc); exists r; rewrite Ee; apply list_elem_of_lookup in Hr as [i Hi];
        (split_and!; [apply (change_get_spec _ _ _ Hc); by exists i|done|done]).
    + intros Hall. destruct (becoming _ _) as [|z zs] eqn:Ez; [done|]. exfalso.
      assert (Hz : z ∈ becoming KsUnrecoverable (kcs_changes c)) by (rewrite Ez; set_solver).
      apply (recover_lists _ _ _ Hc) in Hz as (r & Hg & Hs & Hu). apply (change_get_spec _ _ _ Hc) in Hg as (i & Hi & _).
      apply list_elem_of_lookup_2 in Hi. specialize (Hall r Hi Hs). destruct (kc_effect_class (cc_change r)); set_solver.
Qed.

Definition forward_only (r : CommittedChange) : Prop := cc_state r = KsPlanned ∨ cc_state r = KsCommitted.
Lemma play_forward ops c : OpRecover ∉ ops → Forall forward_only (kcs_changes c) → Forall forward_only (kcs_changes (change_play ops c)).
Proof.
  revert c. induction ops as [|o ops IH]; intros c Hno Hc; [done|]. apply not_elem_of_cons in Hno as [Hne Hno]. simpl. apply IH; [done|].
  destruct o as [ch|id at_ms|]; simpl; [| |done].
  - unfold change_plan. repeat case_match; simplify_eq; try done. simpl. apply Forall_app. split; [done|]. repeat constructor.
  - unfold change_commit. repeat case_match; simplify_eq; try done. simpl. apply Forall_lookup. intros i r (x & Hx & ->)%alter_spec.
    rewrite Forall_lookup in Hc. case_decide; [by right|by eapply Hc].
Qed.
(** The first planned change of a set that was never recovered is ready. *)
Lemma first_planned_ready c i r : set_ok c → Forall forward_only (kcs_changes c) → kcs_changes c !! i = Some r →
  (∀ j r', j < i → kcs_changes c !! j = Some r' → cc_state r' ≠ KsPlanned) → change_ready c (cc_id r) = true.
Proof.
  intros Hc Hf Hr Hmin. apply (change_ready_spec c _ i r); [done..|]. intros d Hd.
  destruct (so_order _ Hc i r d Hr Hd) as (j & r' & Hj & Hr' & Hid). apply (is_committed_spec _ _ Hc). exists j, r'. split_and!; [done..|].
  rewrite Forall_lookup in Hf. destruct (Hf j r' Hr') as [Hp|]; [|done]. by destruct (Hmin j r' Hj Hr').
Qed.

(** [C37] A set that was never recovered cannot be stuck: while a change is
    still planned the ready queue is not empty, and a change of the queue
    commits unless another one has committed its idempotency key, in which
    case the commit is refused as a duplicate. *)
Theorem unrecovered_set_can_go_on (ops : list change_op) (r : CommittedChange) :
  OpRecover ∉ ops → r ∈ kcs_changes (change_play ops change_set_empty) → cc_state r = KsPlanned →
  let c := change_play ops change_set_empty in
  ready_queue c ≠ [] ∧
  ∀ ch at_ms, ch ∈ ready_queue c →
    match change_commit (kc_id ch) at_ms c with
    | Ok (s, c') => s = KsCommitted ∧ change_get c' (kc_id ch) = Some {| cc_change := ch; cc_state := KsCommitted; cc_committed_at := at_ms |}
    | Err _ => ∃ r', r' ∈ kcs_changes c ∧ cc_id r' ≠ kc_id ch ∧ cc_state r' = KsCommitted ∧ key_of_change r' = kc_idempotency_key ch
    end.
Proof.
  set (c := change_play _ _). intros Hno Hin Hs. assert (Hc : set_ok c) by apply play_ok, set_ok_empty.
  assert (Hf : Forall forward_only (kcs_changes c)) by (apply play_forward; [done|constructor]). cbn zeta. split.
  - assert (Hex : Exists (λ x, cc_state x = KsPlanned) (kcs_changes c)) by (apply Exists_exists; by exists r).
    destruct (list_find (λ x, cc_state x = KsPlanned) (kcs_changes c)) as [[i x]|] eqn:E.
    2:{ apply list_find_None in E. apply Exists_exists in Hex as (y & Hy & Hpy). rewrite Forall_forall in E. by destruct (E y Hy). }
    apply list_find_Some in E as (Hx & Hpx & Hmin). unfold ready_queue. intros Hnil.
    assert (Hq : cc_change x ∈ ready_queue c); [|unfold ready_queue in Hq; rewrite Hnil in Hq; by apply elem_of_nil in Hq].
    unfold ready_queue. apply list_elem_of_fmap. exists x. split; [done|]. apply list_elem_of_In, List.filter_In.
    split; [by eapply list_elem_of_In, list_elem_of_lookup_2|]. rewrite andb_true_iff, bool_decide_eq_true. split; [done|].
    eapply (first_planned_ready c i); [done..|]. intros j r' Hj Hr'. by eapply Hmin.
  - intros ch at_ms (x & -> & Hx)%list_elem_of_fmap. apply list_elem_of_In, List.filter_In in Hx as [Hx [Hp Hready]%andb_true_iff].
    apply list_elem_of_In, list_elem_of_lookup in Hx as [i Hi].
    assert (Hg : change_get c (cc_id x) = Some x) by (apply (change_get_spec _ _ _ Hc); by exists i).
    assert (Hidx : kcs_by_id c !! cc_id x = Some i) by (apply (so_index _ Hc); by exists x).
    unfold change_commit. fold (cc_id x). destruct (key_taken c (cc_id x)) eqn:Hk.
    + unfold key_taken in Hk. rewrite Hg in Hk. apply List.existsb_exists in Hk as (r' & Hr' & Hcond).
      rewrite !andb_true_iff, bool_decide_eq_true, negb_true_iff, String.eqb_eq, String.eqb_neq in Hcond. destruct Hcond as [[? ?] ?].
      exists r'. split_and!; [by apply list_elem_of_In|done..].
    + rewrite Hidx, Hready. simpl. split; [done|]. unfold change_get. simpl. rewrite Hidx. simpl. by rewrite list_lookup_alter_eq, Hi.
Qed.

(** An accepted import is exactly the entries it was given, at least one,
    each for its own planned change and with the bytes its digest names; and
    the host path of each lies under the import root, component by component,
    with nothing that climbs out. *)
Theorem import_stays_in_its_root {sha : Sha256} {json : EntriesJson} (root manifest : string) (entries : list ImportEntry)
    (files : list (string * string)) (planned : ChangeSet) (imp : ReviewedImport) :
  rooted root = true → import_validate root entries manifest files planned = Ok imp →
  ri_changes imp = entries ∧ entries ≠ [] ∧ NoDup (ie_change_id <$> entries) ∧ sha256_hex (entries_json entries) = manifest ∧
  ∀ e, e ∈ entries →
    change_get planned (ie_change_id e) ≠ None ∧
    (∃ f, f ∈ files ∧ components f.1 = components (ie_relative_path e) ∧ sha256_hex f.2 = ie_content_sha256 e) ∧
    ∃ host rest, host_path imp (ie_relative_path e) = Ok host ∧ components host = components root ++ rest ∧
      Forall (λ x, ∃ n, x = CNormal n ∧ name_ok n) rest.
Proof.
  intros Hroot Hv. assert (Hne : entries ≠ []) by (by intros ->).
  assert (Hv' : (_ <-? check_entries files planned ∅ entries;;
                 if negb (String.eqb (sha256_hex (entries_json entries)) manifest) then Err ImpManifestHashMismatch
                 else Ok {| ri_root := root; ri_changes := entries; ri_manifest_sha256 := manifest |}) = Ok imp) by (by destruct entries).
  destruct (check_entries files planned ∅ entries) as [[]|] eqn:E; [|done]. simpl in Hv'. revert Hv'.
  destruct (String.eqb_spec (sha256_hex (entries_json entries)) manifest) as [Hm|]; [|done]. intros [= <-]. simpl.
  destruct (check_entries_ok _ _ _ _ E) as (Hnd & _ & Hall). split_and!; [done..|].
  intros e He. destruct (Hall e He) as (Hr & Hp & Hg & f & Hf & Hpath & Hsha). split_and!; [done| |].
  - exists f. split_and!; [done| |done]. by apply bool_decide_eq_true in Hpath.
  - exists (path_join root (ie_relative_path e)), (omap piece (split SLASH (ie_relative_path e))). split_and!.
    + unfold host_path. by rewrite Hr, Hp.
    + by apply components_join.
    + by apply piece_rest_ok.
Qed.

(** ** A set of three changes *)

Definition demo_change (id : string) (e : EffectClass) (deps : list string) (key : string) : Change :=
  {| kc_id := id; kc_ticket_id := "t-" +:+ id; kc_idempotency_key := key; kc_effect_class := e; kc_depends_on := deps;
     kc_preconditions := []; kc_postconditions := [] |}.
Definition demo_ops : list change_op :=
  [OpPlan (demo_change "write" EcReversible [] "k1"); OpPlan (demo_change "move" EcReversible ["write"] "k2");
   OpPlan (demo_change "mail" EcIrreversible ["move"] "k3"); OpPlan (demo_change "again" EcReversible [] "k1");
   OpCommit "move" 1; OpCommit "write" 2; OpCommit "move" 3; OpCommit "again" 4].

Lemma commits_are_closed_and_unique_witness :
  ∃ r, kcs_changes (change_play demo_ops change_set_empty) !! 1 = Some r ∧ cc_state r = KsCommitted ∧
    ∀ j r', kcs_changes (change_play demo_ops change_set_empty) !! j = Some r' → cc_state r' = KsCommitted → key_of_change r' = "k2" → j = 1.
Proof.
  eexists. split; [by vm_compute|]. split; [reflexivity|].
  destruct (commits_are_closed_and_unique demo_ops 1 _ ltac:(vm_compute; reflexivity)) as [_ H]. by apply H.
Defined.
Lemma recovery_is_honest_witness :
  rr_reverted (change_recover (change_play demo_ops change_set_empty)).1 = ["move"; "write"] ∧
  NoDup ["move"; "write"] ∧ is_clean (change_recover (change_play (demo_ops ++ [OpCommit "mail" 5]) change_set_empty)).1 = false.
Proof.
  pose proof (recovery_is_honest demo_ops) as (H & _). split; [by vm_compute|]. split; [|by vm_compute].
  apply (H KsReverted ["move"; "write"]). by left.
Defined.
Lemma unrecovered_set_can_go_on_witness :
  ready_queue (change_play demo_ops change_set_empty) ≠ [] ∧
  ∃ c', change_commit "mail" 9 (change_play demo_ops change_set_empty) = Ok (KsCommitted, c').
Proof.
  split; [|eexists; by vm_compute].
  refine (proj1 (unrecovered_set_can_go_on demo_ops
    {| cc_change := demo_change "mail" EcIrreversible ["move"] "k3"; cc_state := KsPlanned; cc_committed_at := 0 |} _ _ eq_refl)).
  - intros H. unfold demo_ops in H. rewrite !elem_of_cons, elem_of_nil in H. naive_solver.
  - apply (list_elem_of_lookup_2 _ 2). by vm_compute.
Defined.
Lemma import_stays_in_its_root_witness :
  let entry := {| ie_change_id := "write"; ie_relative_path := "a/./out.txt"; ie_content_sha256 := "sha256:safe" |} in
  let json : EntriesJson := {| entries_json l := join "," (ie_relative_path <$> l) |} in
  ∃ imp, @import_validate plain_digest json "/tmp/work/" [entry] "sha256:a/./out.txt" [("a/out.txt", "safe")] (change_play demo_ops change_set_empty) = Ok imp ∧
    ∃ rest, components "/tmp/work/a/./out.txt" = components "/tmp/work/" ++ rest ∧ Forall (λ x, ∃ n, x = CNormal n ∧ name_ok n) rest.
Proof.
  intros entry json. eexists. split; [by vm_compute|].
  destruct (@import_stays_in_its_root plain_digest json "/tmp/work/" "sha256:a/./out.txt" [entry] [("a/out.txt", "safe")]
    (change_play demo_ops change_set_empty) {| ri_root := "/tmp/work/"; ri_changes := [entry]; ri_manifest_sha256 := "sha256:a/./out.txt" |})
    as (_ & _ & _ & _ & H); [by vm_compute|by vm_compute|].
  destruct (H entry) as (_ & _ & host & rest & Hh & Hc & Hf); [by left|]. exists rest. split; [|exact Hf]. revert Hh. vm_compute. by intros [= <-].
Defined.

(** ** Where the comments and the code part *)

(** Committing a change again is not a no-op: its time of commit moves. *)
Example recommit_moves_the_time :
  (cc_committed_at <$> change_get (change_play [OpPlan (demo_change "a" EcReversible [] "k"); OpCommit "a" 1; OpCommit "a" 2] change_set_empty) "a") = Some 2%N.
Proof. by vm_compute. Qed.
(** After a recovery the same key commits again: an effect that was reported
    as impossible to undo runs a second time, and the report forgets it. *)
Example recovery_frees_the_key :
  let c := change_play [OpPlan (demo_change "mail" EcIrreversible [] "k"); OpPlan (demo_change "mail2" EcIrreversible [] "k"); OpCommit "mail" 1; OpRecover] change_set_empty in
  (cc_state <$> change_get c "mail") = Some KsUnrecoverable ∧
  (cc_state <$> change_get (change_play [OpCommit "mail" 2] c) "mail") = Some KsCommitted ∧
  (cc_state <$> change_get (change_play [OpCommit "mail2" 2] c) "mail2") = Some KsCommitted.
Proof. by vm_compute. Qed.
