(* ===== verification/Orchestra.v ===== *)
(** * Fleets of agents: swarms, boards, sub-agent limits, iteration budgets

    [everyaios-blueprint/src/{subagent,swarm,kanban,iteration,topology}.rs]:
    who may start, who waits, which answer of several wins, which card moves,
    and when a run is interrupted. *)
From S2P Require Import Prelude Order F64.

(* SRC types/src/lib.rs @enum:AgentReadiness AgentReadiness *)
Inductive AgentReadiness :=
  | ArUnknown | ArDiscovered | ArInstalled | ArLaunchable | ArProtocolCompatible | ArAuthRequired | ArAuthenticating
  | ArReady | ArDegraded | ArUnavailable | ArFailed.
(* SRC types/src/lib.rs @fn:can_delegate AgentReadiness::can_delegate *)
Definition can_delegate (r : AgentReadiness) : bool := match r with ArReady => true | _ => false end.
(* SRC types/src/lib.rs @fn:summary AgentReadiness::summary *)
Definition readiness_summary (r : AgentReadiness) : string :=
  match r with
  | ArUnknown => "readiness unknown — not probed"
  | ArDiscovered => "known agent, no runtime present"
  | ArInstalled => "runtime present but not proven launchable here"
  | ArLaunchable => "launchable, protocol not negotiated yet"
  | ArProtocolCompatible => "protocol negotiated, authentication not confirmed"
  | ArAuthRequired => "authentication required (the agent's own store)"
  | ArAuthenticating => "authentication in progress"
  | ArReady => "ready"
  | ArDegraded => "ready with a stated reduction"
  | ArUnavailable => "present but not usable in this environment"
  | ArFailed => "the last attempt failed"
  end.

(** ** Sub-agents *)

(* SRC blueprint/src/subagent.rs 32 33 DELEGATE_BLOCKED_TOOLS *)
Definition SUBAGENT_BLOCKED_TOOLS : list string := ["delegate"; "clarify"; "memory"; "send_message"; "cronjob"].
(* SRC blueprint/src/subagent.rs 128 128 DEFAULT_DENY_TASK_TOOLS *)
Definition DEFAULT_DENY_TASK_TOOLS : list string := ["task"; "todo"].
Definition listed (l : list string) (t : string) : bool := existsb (String.eqb t) l.
(** The toolset of a [SubAgentSpec] with the grants [tools] and the denies [blocked]. *)
(* SRC blueprint/src/subagent.rs @fn:effective_tools SubAgentSpec::effective_tools *)
Definition subagent_tools (tools blocked : list string) : list string :=
  List.filter (λ t, negb (listed SUBAGENT_BLOCKED_TOOLS t)) (List.filter (λ t, negb (listed blocked t)) tools).
(** [Vec::dedup]: runs of equal neighbours. *)
Fixpoint dedup_runs (l : list string) : list string :=
  match l with
  | x :: ((y :: _) as l') => if String.eqb x y then dedup_runs l' else x :: dedup_runs l'
  | l => l
  end.
(* SRC blueprint/src/subagent.rs @fn:derive_child_permissions derive_child_permissions *)
Definition derive_child_permissions (parent_grants parent_denies explicit_grants : list string) : list string :=
  dedup_runs (sort_by str_le (List.filter (λ t,
    negb (listed parent_denies t) && negb (listed SUBAGENT_BLOCKED_TOOLS t) &&
    (match explicit_grants with [] => true | _ => false end || listed explicit_grants t) &&
    (negb (listed DEFAULT_DENY_TASK_TOOLS t) || listed explicit_grants t)) parent_grants)).

(* SRC blueprint/src/subagent.rs @struct:SubAgentLimits SubAgentLimits *)
Record SubAgentLimits := { sl_max_depth : N; sl_max_concurrent : N; sl_max_total : N }.
(* SRC blueprint/src/subagent.rs 206 214 SubAgentLimits::default *)
Definition subagent_limits_default : SubAgentLimits := {| sl_max_depth := 2; sl_max_concurrent := 3; sl_max_total := 6 |}.
(** The gauge the Work graph reports, as the policy reads it. *)
Record FleetGauge := { fg_child_depth : N; fg_active : N; fg_total : N }.
(* SRC blueprint/src/subagent.rs @enum:SubAgentError SubAgentError *)
Inductive SubAgentError :=
  | SaDuplicateTask (task_id : string)
  | SaUnknownParent (task_id parent_id : string)
  | SaUnknownTask (task_id : string)
  | SaNotReady (task_id agent_id : string) (readiness : AgentReadiness) (reason : string)
  | SaDepthExceeded (task_id : string) (depth max_depth : N)
  | SaConcurrentLimitExceeded (task_id : string) (active max_concurrent : N)
  | SaTotalLimitExceeded (task_id : string) (total max_total : N)
  | SaUnknownAgent (agent_id : string).
(* SRC blueprint/src/subagent.rs @fn:admit DelegationPolicy::admit *)
Definition policy_admits (limits : SubAgentLimits) (task_id : string) (gauge : FleetGauge) (member_agent_id : string)
    (readiness : AgentReadiness) : result unit SubAgentError :=
  if negb (can_delegate readiness) then Err (SaNotReady task_id member_agent_id readiness (readiness_summary readiness))
  else if (sl_max_depth limits <? fg_child_depth gauge)%N then Err (SaDepthExceeded task_id (fg_child_depth gauge) (sl_max_depth limits))
  else if (sl_max_concurrent limits <=? fg_active gauge)%N then Err (SaConcurrentLimitExceeded task_id (fg_active gauge) (sl_max_concurrent limits))
  else if (sl_max_total limits <=? fg_total gauge)%N then Err (SaTotalLimitExceeded task_id (fg_total gauge) (sl_max_total limits))
  else Ok tt.
(* SRC blueprint/src/subagent.rs @fn:validate_message_endpoints validate_message_endpoints *)
Definition validate_message_endpoints (from to : string) (is_known : string → bool) : result unit SubAgentError :=
  if negb (is_known from) then Err (SaUnknownAgent from)
  else if negb (is_known to) then Err (SaUnknownAgent to)
  else Ok tt.

(** ** Swarms *)

(* SRC blueprint/src/swarm.rs @enum:SwarmMode SwarmMode *)
Inductive SwarmMode := Race | Consensus | Ensemble.
(* SRC blueprint/src/swarm.rs @struct:SwarmSpec SwarmSpec *)
Record SwarmSpec := { sw_name : string; sw_prompt : string; sw_agents : list string; sw_mode : SwarmMode; sw_max_rounds : N }.
(* SRC blueprint/src/swarm.rs @enum:SwarmError SwarmError *)
Inductive SwarmError := EmptyPrompt | NoMembers | DuplicateMember (agent : string).
Fixpoint first_duplicate (seen : gset string) (l : list string) : option string :=
  match l with
  | [] => None
  | a :: l => if bool_decide (a ∈ seen) then Some a else first_duplicate ({[a]} ∪ seen) l
  end.
(** [blank]: the prompt trims to nothing. *)
(* SRC blueprint/src/swarm.rs @fn:validate SwarmSpec::validate *)
Definition swarm_validate (blank : string → bool) (s : SwarmSpec) : result unit SwarmError :=
  if blank (sw_prompt s) then Err EmptyPrompt
  else match sw_agents s with
  | [] => Err NoMembers
  | l => match first_duplicate ∅ l with Some a => Err (DuplicateMember a) | None => Ok tt end
  end.
(* SRC blueprint/src/swarm.rs @struct:MemberResult MemberResult *)
Record MemberResult := { mr_agent_id : string; mr_task_id : string; mr_summary : string; mr_score : f64; mr_ok : bool }.
(* SRC blueprint/src/swarm.rs @struct:SwarmVerdict SwarmVerdict *)
Record SwarmVerdict := { sv_pending : list string; sv_complete : bool; sv_winner : option string; sv_digest : list string }.
(* SRC blueprint/src/swarm.rs @struct:ParallelFanOut ParallelFanOut *)
Record ParallelFanOut := { pf_start_now : list string; pf_deferred : list string; pf_refused : list (string * string) }.
(** One member of the fan-out. *)
Definition fan_out_step (limits : SubAgentLimits) (p : ParallelFanOut) (g : FleetGauge) (m : string * AgentReadiness)
    : result (ParallelFanOut * FleetGauge) SubAgentError :=
  let '(agent_id, readiness) := m in
  if negb (can_delegate readiness) then
    Ok ({| pf_start_now := pf_start_now p; pf_deferred := pf_deferred p;
           pf_refused := pf_refused p ++ [(agent_id, readiness_summary readiness)] |}, g)
  else match policy_admits limits agent_id g agent_id readiness with
  | Ok _ =>
      Ok ({| pf_start_now := pf_start_now p ++ [agent_id]; pf_deferred := pf_deferred p; pf_refused := pf_refused p |},
          {| fg_child_depth := fg_child_depth g; fg_active := u32_saturating_add (fg_active g) 1; fg_total := u32_saturating_add (fg_total g) 1 |})
  | Err (SaConcurrentLimitExceeded _ _ _) | Err (SaTotalLimitExceeded _ _ _) =>
      Ok ({| pf_start_now := pf_start_now p; pf_deferred := pf_deferred p ++ [agent_id]; pf_refused := pf_refused p |}, g)
  | Err e => Err e
  end.
Fixpoint fan_out (limits : SubAgentLimits) (p : ParallelFanOut) (g : FleetGauge) (l : list (string * AgentReadiness)) : result ParallelFanOut SubAgentError :=
  match l with
  | [] => Ok p
  | m :: l => match fan_out_step limits p g m with Ok (p, g) => fan_out limits p g l | Err e => Err e end
  end.
(* SRC blueprint/src/swarm.rs @fn:plan_parallel_fan_out plan_parallel_fan_out *)
Definition plan_parallel_fan_out (members : list (string * AgentReadiness)) (policy : SubAgentLimits) (gauge : FleetGauge) : result ParallelFanOut SubAgentError :=
  fan_out policy {| pf_start_now := []; pf_deferred := []; pf_refused := [] |} gauge members.

Definition has_report (l : list MemberResult) (a : string) : bool := existsb (λ m, String.eqb (mr_agent_id m) a) l.
(** The first report of each member. *)
Definition first_reports (s : SwarmSpec) (results : list MemberResult) : list MemberResult :=
  foldl (λ acc r, if negb (listed (sw_agents s) (mr_agent_id r)) then acc
                  else if has_report acc (mr_agent_id r) then acc else acc ++ [r]) [] results.
Definition Tally : Type := nat * f64.
Definition tally_one (m : MemberResult) (counts : gmap string Tally) : gmap string Tally :=
  let e := default (0%nat, f64_0) (counts !! mr_summary m) in
  <[mr_summary m := (S e.1, f64_max e.2 (mr_score m))]> counts.
(** [Iterator::max_by] with the comparison of the code: more votes, then the
    better score; the later of two equal entries wins. *)
Definition tally_gt (a b : string * Tally) : bool :=
  match (a.2.1 ?= b.2.1)%nat with Gt => true | Lt => false | Eq => f64_lt b.2.2 a.2.2 end.
Definition max_tally (l : list (string * Tally)) : option (string * Tally) :=
  match l with
  | [] => None
  | x :: l => Some (foldl (λ best y, if tally_gt best y then best else y) x l)
  end.
(* SRC blueprint/src/swarm.rs @fn:reduce reduce *)
Definition swarm_reduce `{HashIter} (spec : SwarmSpec) (results : list MemberResult) : SwarmVerdict :=
  let reported := first_reports spec results in
  let pending := List.filter (λ a, negb (has_report reported a)) (sw_agents spec) in
  match pending with
  | _ :: _ => {| sv_pending := pending; sv_complete := false; sv_winner := None; sv_digest := [] |}
  | [] =>
      let healthy := List.filter mr_ok reported in
      let winner := match sw_mode spec with
        | Race | Ensemble => mr_agent_id <$> head healthy
        | Consensus =>
            e ← max_tally (map_iter (foldl (λ c m, tally_one m c) ∅ healthy));
            mr_agent_id <$> List.find (λ m, String.eqb (mr_summary m) e.1) healthy
        end in
      {| sv_pending := []; sv_complete := true; sv_winner := winner;
         sv_digest := match sw_mode spec with Ensemble => (λ m, mr_agent_id m +:+ ": " +:+ mr_summary m) <$> healthy | _ => [] end |}
  end.

(** ** The board *)

(* SRC blueprint/src/kanban.rs @enum:Column Column *)
Inductive Column := ColBacklog | ColReady | ColInProgress | ColBlocked | ColDone.
#[export] Instance column_eq_dec : EqDecision Column.
Proof. solve_decision. Defined.
(* SRC blueprint/src/kanban.rs @fn:advance Column::advance *)
Definition column_advance (c : Column) : option Column :=
  match c with
  | ColBacklog => Some ColReady
  | ColReady => Some ColInProgress
  | ColInProgress => Some ColDone
  | ColBlocked => Some ColInProgress
  | ColDone => None
  end.
(* SRC blueprint/src/kanban.rs @struct:KanbanTask KanbanTask *)
Record KanbanTask := { kt_id : string; kt_title : string; kt_assignee : string; kt_column : Column; kt_parent : option string; kt_blocks : list string }.
Definition set_column (c : Column) (t : KanbanTask) : KanbanTask :=
  {| kt_id := kt_id t; kt_title := kt_title t; kt_assignee := kt_assignee t; kt_column := c; kt_parent := kt_parent t; kt_blocks := kt_blocks t |}.
Definition in_column (c : Column) (t : KanbanTask) : bool := bool_decide (kt_column t = c).
(* SRC blueprint/src/kanban.rs @struct:KanbanBoard KanbanBoard *)
Record KanbanBoard := { kb_tasks : list KanbanTask }.
(* SRC blueprint/src/kanban.rs @fn:get KanbanBoard::get *)
Definition kanban_get (b : KanbanBoard) (id : string) : option KanbanTask := List.find (λ t, String.eqb (kt_id t) id) (kb_tasks b).
(* SRC blueprint/src/kanban.rs @fn:add KanbanBoard::add *)
Definition kanban_add (t : KanbanTask) (b : KanbanBoard) : result KanbanBoard string :=
  if existsb (λ x, String.eqb (kt_id x) (kt_id t)) (kb_tasks b) then Err ("task `" +:+ kt_id t +:+ "` already exists")
  else Ok {| kb_tasks := kb_tasks b ++ [t] |}.
(* SRC blueprint/src/kanban.rs @fn:advance#2 KanbanBoard::advance *)
Definition kanban_advance (id : string) (b : KanbanBoard) : result (Column * KanbanBoard) string :=
  match list_find (λ t, kt_id t = id) (kb_tasks b) with
  | None => Err ("task `" +:+ id +:+ "` not found")
  | Some (i, t) =>
      match column_advance (kt_column t) with
      | None => Err ("task `" +:+ id +:+ "` is already Done")
      | Some next => Ok (next, {| kb_tasks := alter (set_column next) i (kb_tasks b) |})
      end
  end.
(* SRC blueprint/src/kanban.rs @fn:tasks_in KanbanBoard::tasks_in *)
Definition tasks_in (c : Column) (b : KanbanBoard) : list KanbanTask := List.filter (in_column c) (kb_tasks b).
Definition unblocked (b : KanbanBoard) (t : KanbanTask) : bool :=
  forallb (λ d, match kanban_get b d with Some x => in_column ColDone x | None => false end) (kt_blocks t).
(* SRC blueprint/src/kanban.rs @fn:ready KanbanBoard::ready *)
Definition kanban_ready (b : KanbanBoard) : list KanbanTask := List.filter (unblocked b) (List.filter (in_column ColReady) (kb_tasks b)).
(* SRC blueprint/src/kanban.rs @fn:cap_for Dispatcher::cap_for *)
Definition cap_for (capacity : list (string * nat)) (agent : string) : nat :=
  match List.find (λ e, String.eqb e.1 agent) capacity with
  | Some e => e.2
  | None => match List.find (λ e, String.eqb e.1 "*") capacity with Some e => e.2 | None => 1%nat end
  end.
Definition add_load (agent : string) (load : gmap string nat) : gmap string nat := <[agent := S (default 0%nat (load !! agent))]> load.
Definition initial_load (b : list KanbanTask) : gmap string nat :=
  foldl (λ m t, if in_column ColInProgress t then add_load (kt_assignee t) m else m) ∅ b.
(** The loop over the ready ids: the tasks, the load, and the ids dispatched. *)
Definition dispatch_one (capacity : list (string * nat)) (st : list KanbanTask * gmap string nat * list string) (id : string)
    : list KanbanTask * gmap string nat * list string :=
  let '(b, load, done_) := st in
  match list_find (λ t, kt_id t = id) b with
  | None => st
  | Some (i, t) =>
      if (cap_for capacity (kt_assignee t) <=? default 0%nat (load !! kt_assignee t))%nat then st
      else (alter (set_column ColInProgress) i b, add_load (kt_assignee t) load, done_ ++ [id])
  end.
(* SRC blueprint/src/kanban.rs @fn:dispatch Dispatcher::dispatch *)
Definition kanban_dispatch (capacity : list (string * nat)) (b : KanbanBoard) : list string * KanbanBoard :=
  let '(b', _, ids) := foldl (dispatch_one capacity) (kb_tasks b, initial_load (kb_tasks b), []) (kt_id <$> kanban_ready b) in
  (ids, {| kb_tasks := b' |}).

(** ** Iteration budgets and loops *)

(* SRC blueprint/src/iteration.rs @enum:StepKind StepKind *)
Inductive StepKind := LlmTurn | ToolCall | ExecuteCode.
(* SRC blueprint/src/iteration.rs @enum:Scope Scope *)
Inductive Scope := ScParent | ScSubAgent.
(* SRC blueprint/src/iteration.rs @enum:BudgetError BudgetError *)
Inductive BudgetError := ParentExhausted (max : N) | SubAgentExhausted (max : N).
(* SRC blueprint/src/iteration.rs @struct:IterationBudget IterationBudget *)
Record IterationBudget := { ib_parent_max : N; ib_subagent_max : N; ib_parent_used : N; ib_subagent_used : N }.
(* SRC blueprint/src/iteration.rs @fn:new IterationBudget::new *)
Definition iteration_budget_new (parent_max subagent_max : N) : IterationBudget :=
  {| ib_parent_max := parent_max; ib_subagent_max := subagent_max; ib_parent_used := 0; ib_subagent_used := 0 |}.
(** Release-build [+ 1] on [u32]. *)
Definition u32_succ (n : N) : N := ((n + 1) mod 4294967296)%N.
(* SRC blueprint/src/iteration.rs @fn:remaining_parent IterationBudget::remaining_parent *)
Definition remaining_parent (b : IterationBudget) : N := (ib_parent_max b - ib_parent_used b)%N.
(* SRC blueprint/src/iteration.rs @fn:remaining_subagent IterationBudget::remaining_subagent *)
Definition remaining_subagent (b : IterationBudget) : N := (ib_subagent_max b - ib_subagent_used b)%N.
(* SRC blueprint/src/iteration.rs @fn:parent_step IterationBudget::parent_step *)
Definition parent_step (kind : StepKind) (b : IterationBudget) : result unit BudgetError * IterationBudget :=
  match kind with
  | ExecuteCode => (Ok tt, b)
  | _ =>
      let b' := {| ib_parent_max := ib_parent_max b; ib_subagent_max := ib_subagent_max b;
                   ib_parent_used := u32_succ (ib_parent_used b); ib_subagent_used := ib_subagent_used b |} in
      (if (ib_parent_max b' <? ib_parent_used b')%N then Err (ParentExhausted (ib_parent_max b')) else Ok tt, b')
  end.
(* SRC blueprint/src/iteration.rs @fn:subagent_step IterationBudget::subagent_step *)
Definition budget_subagent_step (b : IterationBudget) : result unit BudgetError * IterationBudget :=
  let b' := {| ib_parent_max := ib_parent_max b; ib_subagent_max := ib_subagent_max b;
               ib_parent_used := ib_parent_used b; ib_subagent_used := u32_succ (ib_subagent_used b) |} in
  (if (ib_subagent_max b' <? ib_subagent_used b')%N then Err (SubAgentExhausted (ib_subagent_max b')) else Ok tt, b').

(* SRC blueprint/src/iteration.rs @fn:fnv1a fnv1a *)
Definition fnv1a (bytes : string) : N :=
  foldl (λ h b, (N.lxor h (N_of_ascii b) * 1099511628211) mod 18446744073709551616)%N 14695981039346656037%N (String.list_ascii_of_string bytes).
(* SRC blueprint/src/iteration.rs @struct:LoopDetector LoopDetector *)
Record LoopDetector := { ld_window : nat; ld_threshold : nat; ld_hashes : list N }.
(* SRC blueprint/src/iteration.rs @enum:LoopVerdict LoopVerdict *)
Inductive LoopVerdict := LvNormal | LvRepeat (repeats : nat) | LvInterrupted (repeats : nat).
(** The constructor asserts that both are positive. *)
(* SRC blueprint/src/iteration.rs @fn:new#2 LoopDetector::new *)
Definition loop_detector_new (window threshold : nat) : option LoopDetector :=
  if (window =? 0)%nat || (threshold =? 0)%nat then None else Some {| ld_window := window; ld_threshold := threshold; ld_hashes := [] |}.
(** The walk back over whole windows; [fuel] bounds it by the calls kept. *)
Fixpoint count_repeats (fuel window : nat) (v tail : list N) (end_ repeats : nat) : nat :=
  match fuel with
  | O => repeats
  | S fuel =>
      if (window <=? end_)%nat then
        let start := (end_ - window)%nat in
        if bool_decide (take window (drop start v) = tail) then count_repeats fuel window v tail start (S repeats) else repeats
      else repeats
  end.
Definition loop_verdict (threshold repeats : nat) : LoopVerdict :=
  if (threshold <=? repeats)%nat then LvInterrupted repeats else if (1 <? repeats)%nat then LvRepeat repeats else LvNormal.
(** What is kept: the last [bound] of [l]. *)
Definition keep_last (bound : nat) (l : list N) : list N := drop (length l - bound) l.
(* SRC blueprint/src/iteration.rs @fn:observe LoopDetector::observe *)
Definition loop_observe (tool_call : string) (d : LoopDetector) : LoopVerdict * LoopDetector :=
  let w := ld_window d in
  let v := keep_last (w * (ld_threshold d + 1)) (ld_hashes d ++ [fnv1a tool_call]) in
  let d' := {| ld_window := w; ld_threshold := ld_threshold d; ld_hashes := v |} in
  let n := length v in
  if (n <? w)%nat then (LvNormal, d')
  else (loop_verdict (ld_threshold d) (count_repeats n w v (drop (n - w) v) (n - w) 1), d').
(* SRC blueprint/src/iteration.rs @fn:reset LoopDetector::reset *)
Definition loop_reset (d : LoopDetector) : LoopDetector := {| ld_window := ld_window d; ld_threshold := ld_threshold d; ld_hashes := [] |}.

(* SRC blueprint/src/iteration.rs @enum:InterruptReason InterruptReason *)
Inductive InterruptReason := IrBudgetExhausted (scope : Scope) | IrLoopDetected (repeats : nat) | IrTimeout (secs : N).
(* SRC blueprint/src/iteration.rs @enum:McqOption McqOption *)
Inductive McqOption := McqSkip | McqRetry | McqEscalate | McqTakeOver.
(* SRC blueprint/src/iteration.rs @struct:CircuitBreak CircuitBreak *)
Record CircuitBreak := { cb_reason : InterruptReason; cb_options : list McqOption }.
(* SRC blueprint/src/iteration.rs @fn:budget CircuitBreak::budget *)
Definition break_budget (scope : Scope) : CircuitBreak := {| cb_reason := IrBudgetExhausted scope; cb_options := [McqSkip; McqRetry; McqEscalate] |}.
(* SRC blueprint/src/iteration.rs @fn:loop_detected CircuitBreak::loop_detected *)
Definition break_loop (repeats : nat) : CircuitBreak :=
  {| cb_reason := IrLoopDetected repeats; cb_options := [McqSkip; McqRetry; McqEscalate; McqTakeOver] |}.
(* SRC blueprint/src/iteration.rs @fn:timeout CircuitBreak::timeout *)
Definition break_timeout (secs : N) : CircuitBreak := {| cb_reason := IrTimeout secs; cb_options := [McqSkip; McqRetry; McqEscalate] |}.
(* SRC blueprint/src/iteration.rs @struct:CircuitBreaker CircuitBreaker *)
Record CircuitBreaker := { ck_budget : IterationBudget; ck_detector : LoopDetector }.
(* SRC blueprint/src/iteration.rs @fn:step CircuitBreaker::step *)
Definition circuit_step (kind : StepKind) (tool_call : string) (c : CircuitBreaker) : result unit CircuitBreak * CircuitBreaker :=
  let '(r, b) := parent_step kind (ck_budget c) in
  match r with
  | Err e =>
      (Err (break_budget match e with ParentExhausted _ => ScParent | SubAgentExhausted _ => ScSubAgent end), {| ck_budget := b; ck_detector := ck_detector c |})
  | Ok _ =>
      let '(v, d) := loop_observe tool_call (ck_detector c) in
      (match v with LvInterrupted r => Err (break_loop r) | _ => Ok tt end, {| ck_budget := b; ck_detector := d |})
  end.

(** ** Topologies *)

(* SRC blueprint/src/topology.rs @struct:AgentRole AgentRole *)
Record AgentRole := { ro_name : string; ro_system_prompt : string; ro_tools : list string; ro_read_only : bool }.
(* SRC blueprint/src/topology.rs @enum:Topology Topology *)
Inductive Topology :=
  | GroupChat (moderator : string) (max_rounds : N)
  | HandoffChain (chain : list string)
  | SequentialWorkers (workers : list string)
  | ConcurrentWorkers (workers : list string).
(* SRC blueprint/src/topology.rs @struct:MultiAgentPlan MultiAgentPlan *)
Record MultiAgentPlan := { ma_roles : list AgentRole; ma_topology : Topology }.
(* SRC blueprint/src/topology.rs @fn:role MultiAgentPlan::role *)
Definition plan_role (p : MultiAgentPlan) (name : string) : option AgentRole := List.find (λ r, String.eqb (ro_name r) name) (ma_roles p).
Definition participants (t : Topology) : list string :=
  match t with GroupChat m _ => [m] | HandoffChain l | SequentialWorkers l | ConcurrentWorkers l => l end.
(** The undefined role the error names. *)
(* SRC blueprint/src/topology.rs @fn:validate MultiAgentPlan::validate *)
Definition multi_agent_validate (p : MultiAgentPlan) : result unit string :=
  match List.find (λ n, match plan_role p n with None => true | Some _ => false end) (participants (ma_topology p)) with
  | Some n => Err n
  | None => Ok tt
  end.
(* SRC blueprint/src/topology.rs @fn:privileged_workers MultiAgentPlan::privileged_workers *)
Definition privileged_workers (p : MultiAgentPlan) : list AgentRole :=
  List.filter (λ r, match ma_topology p with GroupChat m _ => negb (String.eqb (ro_name r) m) | _ => true end)
    (List.filter (λ r, negb (ro_read_only r)) (ma_roles p)).

(** ** Loop patterns *)

(* SRC blueprint/src/loop_pattern.rs @struct:LoopSnapshot LoopSnapshot *)
Record LoopSnapshot := { ls_budget_used : f64; ls_repeat_count : N; ls_cost_per_edit_usd : f64; ls_one_shot_rate : f64;
  ls_turns_since_progress : N; ls_verified_complete : bool }.
(* SRC blueprint/src/loop_pattern.rs @enum:Condition Condition *)
Inductive Condition :=
  | BudgetUsedAbove (fraction : f64)
  | RepeatsAbove (count : N)
  | CostPerEditAbove (usd : f64)
  | OneShotRateBelow (threshold : f64)
  | NoProgressFor (turns : N)
  | VerifiedCompleteNow.
(* SRC blueprint/src/loop_pattern.rs @fn:holds Condition::holds *)
Definition condition_holds (s : LoopSnapshot) (c : Condition) : bool :=
  match c with
  | BudgetUsedAbove fraction => f64_ge (ls_budget_used s) fraction
  | RepeatsAbove count => (count <=? ls_repeat_count s)%N
  | CostPerEditAbove usd => f64_lt usd (ls_cost_per_edit_usd s)
  | OneShotRateBelow threshold => f64_lt f64_0 (ls_one_shot_rate s) && f64_lt (ls_one_shot_rate s) threshold
  | NoProgressFor turns => (turns <=? ls_turns_since_progress s)%N
  | VerifiedCompleteNow => ls_verified_complete s
  end.
(* SRC blueprint/src/loop_pattern.rs @struct:LoopPattern LoopPattern *)
Record LoopPattern := { lp_id : string; lp_description : string; lp_triggers : list Condition; lp_guards : list Condition; lp_exit_conditions : list Condition }.
(* SRC blueprint/src/loop_pattern.rs @fn:builtin LoopPatternRegistry::builtin *)
Definition loop_patterns_builtin : list LoopPattern :=
  [{| lp_id := "budget-guard"; lp_description := "Slow the loop before the budget runs out; interrupt on runaway cost.";
      lp_triggers := [BudgetUsedAbove (f64_lit 8 10)]; lp_guards := [CostPerEditAbove (f64_lit 2 100); OneShotRateBelow (f64_lit 2 10)];
      lp_exit_conditions := [VerifiedCompleteNow] |};
   {| lp_id := "run-log"; lp_description := "Detect a repeating sequence and force divergence or escalation.";
      lp_triggers := [RepeatsAbove 3]; lp_guards := [NoProgressFor 4];
      lp_exit_conditions := [VerifiedCompleteNow; BudgetUsedAbove f64_1] |};
   {| lp_id := "early-exit"; lp_description := "Stop as soon as verification passes — never burn turns after done.";
      lp_triggers := [VerifiedCompleteNow]; lp_guards := []; lp_exit_conditions := [VerifiedCompleteNow] |}].
(* SRC blueprint/src/loop_pattern.rs @fn:engaged LoopPatternRegistry::engaged *)
Definition patterns_engaged (patterns : list LoopPattern) (s : LoopSnapshot) : list LoopPattern :=
  List.filter (λ p, existsb (condition_holds s) (lp_triggers p)) patterns.
(* SRC blueprint/src/loop_pattern.rs @fn:violated_guard LoopPatternRegistry::violated_guard *)
Definition violated_guard (patterns : list LoopPattern) (s : LoopSnapshot) : option (LoopPattern * Condition) :=
  head (omap (λ p, pair p <$> List.find (condition_holds s) (lp_guards p)) (patterns_engaged patterns s)).
(* SRC blueprint/src/loop_pattern.rs @fn:may_exit LoopPatternRegistry::may_exit *)
Definition loop_may_exit (patterns : list LoopPattern) (s : LoopSnapshot) : bool :=
  existsb (λ p, existsb (condition_holds s) (lp_exit_conditions p)) (patterns_engaged patterns s).
