(* ===== verification/OrchestraFacts.v ===== *)
(** * What the fleet components guarantee

    The loop detector answers from its bounded buffer as it would from the
    whole history, a fan-out fills exactly the free slots, the dispatcher never
    overfills an agent and leaves nobody idle, and a swarm's winner is one of
    its healthy members. *)
From S2P Require Import Prelude Order F64 Orchestra.

(** ** The loop detector *)

(** The history ends with [k] copies of one block of [w] calls. *)
Definition ends_in_copies (w k : nat) (h : list N) : Prop :=
  ∃ rest block, length block = w ∧ h = rest ++ concat (replicate k block).

Lemma concat_replicate_length {A} (b : list A) k : length (concat (replicate k b)) = (k * length b)%nat.
Proof. induction k as [|k IH]; [done|]. simpl. by rewrite length_app, IH. Qed.
Lemma concat_replicate_snoc {A} (b : list A) k : concat (replicate (S k) b) = concat (replicate k b) ++ b.
Proof. induction k as [|k IH]; simpl; [by rewrite app_nil_r|]. rewrite <- app_assoc, <- IH. done. Qed.

(** The walk stops at the largest number of copies of the tail. *)
Lemma count_repeats_spec w tail v : (0 < w)%nat → length tail = w → ∀ fuel end_ r pre,
  (end_ <= fuel)%nat → v = pre ++ concat (replicate r tail) → end_ = length pre →
  let n := count_repeats fuel w v tail end_ r in
  (r <= n)%nat ∧ ∃ pre', v = pre' ++ concat (replicate n tail) ∧ ∀ pre'' , pre' ≠ pre'' ++ tail.
Proof.
  intros Hw Ht fuel. induction fuel as [|fuel IH]; intros end_ r pre Hf Hv ->; simpl.
  { split; [done|]. exists pre. split; [done|]. intros p ->. rewrite length_app in Hf. lia. }
  destruct (Nat.leb_spec w (length pre)) as [Hle|Hlt].
  - assert (Hs : take w (drop (length pre - w) v) = drop (length pre - w) pre).
    { rewrite Hv, drop_app_le by lia. apply take_app_length'. rewrite length_drop. lia. }
    rewrite Hs. case_bool_decide as Heq.
    + destruct (IH (length pre - w)%nat (S r) (take (length pre - w) pre)) as (Hn & pre' & Hpre); [lia| |rewrite length_take; lia|].
      { rewrite <- (take_drop (length pre - w) pre) in Hv at 1. rewrite Heq, <- app_assoc in Hv. exact Hv. }
      split; [lia|]. by exists pre'.
    + split; [done|]. exists pre. split; [done|]. intros p ->. apply Heq. rewrite length_app, Ht.
      replace (length p + w - w)%nat with (length p) by lia. apply drop_app_length.
  - split; [done|]. exists pre. split; [done|]. intros p ->. rewrite length_app in Hlt. lia.
Qed.

Lemma copies_le w j k h : (j <= k)%nat → ends_in_copies w k h → ends_in_copies w j h.
Proof.
  intros Hjk (rest & b & Hb & ->). exists (rest ++ concat (replicate (k - j) b)), b. split; [done|].
  replace k with ((k - j) + j)%nat at 1 by lia. by rewrite replicate_add, concat_app, app_assoc.
Qed.
Lemma keep_last_split m l : l = take (length l - m) l ++ keep_last m l.
Proof. unfold keep_last. by rewrite take_drop. Qed.
Lemma keep_last_length m l : length (keep_last m l) = (length l `min` m)%nat.
Proof. unfold keep_last. rewrite length_drop. lia. Qed.
Lemma keep_last_suffix m p s : (length s <= m)%nat → ∃ q, keep_last m (p ++ s) = q ++ s.
Proof.
  intros Hs. exists (drop (length p + length s - m) p). unfold keep_last. rewrite length_app. rewrite drop_app_le by lia. done.
Qed.
Lemma keep_last_snoc m l x : (0 < m)%nat → keep_last m (keep_last m l ++ [x]) = keep_last m (l ++ [x]).
Proof.
  intros Hm. unfold keep_last. rewrite !length_app, length_drop. simpl.
  rewrite !drop_app_le by (rewrite ?length_drop; lia). rewrite drop_drop. do 2 f_equal. lia.
Qed.
Lemma hashes_kept w t d0 calls : loop_detector_new w t = Some d0 →
  let d := foldl (λ d c, (loop_observe c d).2) d0 calls in
  (0 < w)%nat ∧ (0 < t)%nat ∧ ld_window d = w ∧ ld_threshold d = t ∧ ld_hashes d = keep_last (w * (t + 1)) (fnv1a <$> calls).
Proof.
  unfold loop_detector_new. destruct (Nat.eqb_spec w 0) as [|Hw]; [done|]. destruct (Nat.eqb_spec t 0) as [|Ht]; [done|]. intros [= <-].
  induction calls as [|c calls IH] using rev_ind; cbn zeta in *; [split_and!; [lia|lia|done..]|].
  rewrite foldl_app. simpl. destruct IH as (? & ? & Hdw & Hdt & Hh). unfold loop_observe.
  set (d := foldl _ _ calls) in *. rewrite Hdw, Hdt, Hh. case_match; simpl; (split_and!; [done..|]);
    rewrite fmap_app; simpl; apply keep_last_snoc; lia.
Qed.

(** The number of copies the walk finds is the largest one of the history. *)
Lemma repeats_of_history w t h : (0 < w)%nat → let v := keep_last (w * (t + 1)) h in (w <= length v)%nat →
  let r := count_repeats (length v) w v (drop (length v - w) v) (length v - w) 1 in
  (r <= t + 1)%nat ∧ ends_in_copies w r h ∧ ∀ k, (k <= t + 1)%nat → ends_in_copies w k h → (k <= r)%nat.
Proof.
  intros Hw v Hv r. set (tail := drop (length v - w) v) in r |- *. assert (Htl : length tail = w) by (unfold tail; rewrite length_drop; lia).
  destruct (count_repeats_spec w tail v Hw Htl (length v) (length v - w)%nat 1%nat (take (length v - w) v)) as (Hn & pre & Hpre & Hmax);
    [lia|unfold tail; cbn [replicate concat]; by rewrite app_nil_r, take_drop|rewrite length_take; lia|]. fold r in Hn, Hpre. clearbody r.
  assert (Hlen : (length v <= w * (t + 1))%nat) by (unfold v; rewrite keep_last_length; lia).
  pose proof (keep_last_split (w * (t + 1)) h) as Hh. fold v in Hh. split_and!.
  - rewrite Hpre, length_app, concat_replicate_length, Htl in Hlen. nia.
  - exists (take (length h - w * (t + 1)) h ++ pre), tail. split; [done|]. rewrite Hh at 1. by rewrite Hpre at 1; rewrite app_assoc.
  - intros k Hk Hc. destruct (le_lt_dec k r) as [|Hlt]; [done|]. exfalso.
    destruct (copies_le w (S r) k h Hlt Hc) as (rest & b & Hb & E).
    destruct (keep_last_suffix (w * (t + 1)) rest (concat (replicate (S r) b))) as [q Hq]; [rewrite concat_replicate_length; nia|].
    rewrite <- E in Hq. fold v in Hq.
    assert (Htb : tail = b).
    { unfold tail. rewrite Hq, concat_replicate_snoc, app_assoc, length_app, Hb, Nat.add_sub. apply drop_app_length. }
    rewrite Hpre, <- Htb in Hq. simpl in Hq. rewrite app_assoc in Hq. apply app_inv_tail in Hq. by eapply Hmax.
Qed.

(** [C27] The loop detector keeps [window * (threshold + 1)] calls at most and
    still answers as if it had kept them all: with [r] the largest number of
    copies of one block of [window] calls the whole history ends in, counted
    up to [threshold + 1], it reports a repeat from [r = 2] on, and interrupts
    exactly if the history ends in [threshold] copies of a block. *)
Theorem loop_detector_sees_the_history (w t : nat) (d0 : LoopDetector) (calls : list string) (call : string) :
  loop_detector_new w t = Some d0 →
  let h := fnv1a <$> (calls ++ [call]) in
  let '(v, d) := loop_observe call (foldl (λ d c, (loop_observe c d).2) d0 calls) in
  (length (ld_hashes d) <= w * (t + 1))%nat ∧
  (∃ r, v = loop_verdict t r ∧ (r <= t + 1)%nat ∧ ends_in_copies w r h ∧ ∀ k, (k <= t + 1)%nat → ends_in_copies w k h → (k <= r)%nat) ∧
  ((∃ n, v = LvInterrupted n) ↔ ends_in_copies w t h).
Proof.
  intros Hd h. destruct (hashes_kept w t d0 calls Hd) as (Hw & Ht & Hdw & Hdt & Hh).
  assert (Hr : ∀ r v, v = loop_verdict t r → (r <= t + 1)%nat → ends_in_copies w r h → (∀ k, (k <= t + 1)%nat → ends_in_copies w k h → (k <= r)%nat) →
    (∃ n, v = LvInterrupted n) ↔ ends_in_copies w t h).
  { intros r v -> Hle Hc Hmax. unfold loop_verdict. destruct (Nat.leb_spec t r) as [Htr|Htr].
    - split; [intros _; by eapply copies_le|by eexists].
    - split; [intros [n Hn]; by case_match|]. intros Hct. apply Hmax in Hct; lia. }
  set (d := foldl _ d0 calls) in *. cbn zeta in Hdw, Hdt, Hh. clearbody d. unfold loop_observe. rewrite Hdw, Hdt, Hh, keep_last_snoc by lia.
  replace ((fnv1a <$> calls) ++ [fnv1a call]) with h by (unfold h; by rewrite fmap_app).
  pose proof (repeats_of_history w t h Hw) as Hrep. set (v := keep_last (w * (t + 1)) h) in *.
  assert (Hlen : (length v <= w * (t + 1))%nat) by (unfold v; rewrite keep_last_length; lia).
  destruct (Nat.ltb_spec (length v) w) as [Hlt|Hge].
  - assert (Hshort : ∀ k, ends_in_copies w k h → (k <= 0)%nat).
    { intros k (rest & b & Hb & E). unfold v in Hlt. rewrite keep_last_length, E, length_app, concat_replicate_length, Hb in Hlt. nia. }
    assert (Hv0 : LvNormal = loop_verdict t 0) by (unfold loop_verdict; by destruct (Nat.leb_spec t 0); [lia|]).
    assert (Hz : ends_in_copies w 0 h) by (exists h, (replicate w 0%N); rewrite length_replicate; simpl; by rewrite app_nil_r).
    split; [done|]. split; [exists 0%nat; split_and!; [done|lia|done|by intros k _ ?%Hshort]|].
    eapply Hr; [done|lia|done|by intros k _ ?%Hshort].
  - destruct (Hrep Hge) as (Hle & Hc & Hmax). split; [done|]. split; [by eexists; split_and!|]. by eapply Hr.
Qed.

(** ** Fan-out *)

Definition ready_members (l : list (string * AgentReadiness)) : list string := fst <$> List.filter (λ m, can_delegate m.2) l.
Definition unready_members (l : list (string * AgentReadiness)) : list (string * string) :=
  (λ m, (m.1, readiness_summary m.2)) <$> List.filter (λ m, negb (can_delegate m.2)) l.
Definition free_slots (limits : SubAgentLimits) (g : FleetGauge) : nat :=
  N.to_nat (N.min (sl_max_concurrent limits - fg_active g) (sl_max_total limits - fg_total g)).
Lemma fan_out_spec limits l : (sl_max_concurrent limits <= u32_max)%N → (sl_max_total limits <= u32_max)%N → ∀ p g,
  fan_out limits p g l =
  match (if (sl_max_depth limits <? fg_child_depth g)%N then head (ready_members l) else None) with
  | Some a => Err (SaDepthExceeded a (fg_child_depth g) (sl_max_depth limits))
  | None => Ok {| pf_start_now := pf_start_now p ++ take (free_slots limits g) (ready_members l);
                  pf_deferred := pf_deferred p ++ drop (free_slots limits g) (ready_members l);
                  pf_refused := pf_refused p ++ unready_members l |}
  end.
Proof.
  intros Hc Ht. induction l as [|[a r] l IH]; intros p g.
  { unfold ready_members, unready_members. cbn [List.filter fmap list_fmap head fan_out]. rewrite take_nil, drop_nil, !app_nil_r.
    destruct p. by destruct (_ <? _)%N. }
  unfold ready_members, unready_members in *. cbn [fan_out fan_out_step List.filter snd]. destruct (can_delegate r) eqn:Hr; cbn [negb].
  2:{ rewrite IH. csimpl. case_match; [done|]. by rewrite <- app_assoc. }
  csimpl. unfold policy_admits. rewrite Hr. cbn [negb]. destruct (N.ltb_spec (sl_max_depth limits) (fg_child_depth g)) as [Hd|Hd]; [done|].
  assert (Hfull : ∀ x, free_slots limits g = 0%nat → fan_out limits {| pf_start_now := pf_start_now p; pf_deferred := pf_deferred p ++ [a]; pf_refused := pf_refused p |} g l = x →
    x = Ok {| pf_start_now := pf_start_now p ++ take (free_slots limits g) (a :: (fst <$> List.filter (λ m, can_delegate m.2) l));
              pf_deferred := pf_deferred p ++ drop (free_slots limits g) (a :: (fst <$> List.filter (λ m, can_delegate m.2) l));
              pf_refused := pf_refused p ++ ((λ m, (m.1, readiness_summary m.2)) <$> List.filter (λ m, negb (can_delegate m.2)) l) |}).
  { intros x Hz <-. rewrite IH, Hz. destruct (N.ltb_spec (sl_max_depth limits) (fg_child_depth g)); [lia|]. cbn. by rewrite <- app_assoc. }
  destruct (N.leb_spec (sl_max_concurrent limits) (fg_active g)) as [Ha|Ha]; [apply Hfull; [unfold free_slots; lia|done]|].
  destruct (N.leb_spec (sl_max_total limits) (fg_total g)) as [Hb|Hb]; [apply Hfull; [unfold free_slots; lia|done]|].
  rewrite IH. cbn [fg_child_depth pf_start_now pf_deferred pf_refused].
  destruct (N.ltb_spec (sl_max_depth limits) (fg_child_depth g)); [lia|].
  assert (Hs : free_slots limits g = S (free_slots limits {| fg_child_depth := fg_child_depth g;
    fg_active := u32_saturating_add (fg_active g) 1; fg_total := u32_saturating_add (fg_total g) 1 |})).
  { unfold free_slots, u32_saturating_add, u32_max in *. cbn. lia. }
  rewrite Hs. cbn [take drop]. by rewrite <- app_assoc.
Qed.

(** A fan-out fills exactly the free slots: of the members that are ready
    the first ones start, as many as both limits leave room for, the others
    are deferred in order, those that are not ready are refused with their
    reason and take no slot; and it fails only if the depth is exceeded, at
    the first ready member. *)
Theorem fan_out_fills_the_free_slots (members : list (string * AgentReadiness)) (limits : SubAgentLimits) (g : FleetGauge) :
  (sl_max_concurrent limits <= u32_max)%N → (sl_max_total limits <= u32_max)%N →
  plan_parallel_fan_out members limits g =
  match (if (sl_max_depth limits <? fg_child_depth g)%N then head (ready_members members) else None) with
  | Some a => Err (SaDepthExceeded a (fg_child_depth g) (sl_max_depth limits))
  | None => Ok {| pf_start_now := take (free_slots limits g) (ready_members members);
                  pf_deferred := drop (free_slots limits g) (ready_members members);
                  pf_refused := unready_members members |}
  end.
Proof. intros Hc Ht. unfold plan_parallel_fan_out. by rewrite fan_out_spec. Qed.

(** ** The dispatcher *)

Definition load_of (b : list KanbanTask) (agent : string) : nat :=
  length (List.filter (λ t, in_column ColInProgress t && String.eqb (kt_assignee t) agent) b).
Definition moved (ids : list string) (t : KanbanTask) : KanbanTask := if bool_decide (kt_id t ∈ ids) then set_column ColInProgress t else t.
Lemma moved_id ids t : kt_id (moved ids t) = kt_id t.
Proof. unfold moved. by case_bool_decide. Qed.
Lemma add_load_lookup a m x : default 0%nat (add_load a m !! x) = (default 0%nat (m !! x) + if decide (a = x) then 1 else 0)%nat.
Proof. unfold add_load. destruct (decide (a = x)) as [->|Hn]; [rewrite lookup_insert_eq|rewrite lookup_insert_ne by done]; simpl; lia. Qed.
Lemma initial_load_spec b a : default 0%nat (initial_load b !! a) = load_of b a.
Proof.
  unfold initial_load, load_of. enough (H : ∀ m, default 0%nat (foldl (λ m t, if in_column ColInProgress t then add_load (kt_assignee t) m else m) m b !! a) =
    (default 0%nat (m !! a) + length (List.filter (λ t, in_column ColInProgress t && String.eqb (kt_assignee t) a) b))%nat) by (by rewrite H, lookup_empty).
  induction b as [|t b IH]; intros m; simpl; [lia|]. rewrite IH. destruct (in_column ColInProgress t); simpl; [|done].
  rewrite add_load_lookup. destruct (String.eqb_spec (kt_assignee t) a); case_decide; simpl; try done; lia.
Qed.
Lemma load_of_alter b i t a : b !! i = Some t → kt_column t ≠ ColInProgress →
  load_of (alter (set_column ColInProgress) i b) a = (load_of b a + if decide (kt_assignee t = a) then 1 else 0)%nat.
Proof.
  unfold load_of. revert i. induction b as [|x b IH]; intros [|i] Hi Hc; [done|done| |].
  - injection Hi as ->. simpl. assert (in_column ColInProgress t = false) as -> by (by apply bool_decide_eq_false_2). simpl.
    destruct (String.eqb_spec (kt_assignee t) a); case_decide; simpl; try done; lia.
  - change (alter (set_column ColInProgress) (S i) (x :: b)) with (x :: alter (set_column ColInProgress) i b).
    cbn [List.filter]. specialize (IH i Hi Hc). destruct (in_column ColInProgress x && _); cbn [length]; by rewrite IH.
Qed.

Section dispatching.
Context (capacity : list (string * nat)) (b0 : list KanbanTask) (Hids : NoDup (kt_id <$> b0)).
(** What holds while the ready ids are walked: [b] is the board with [ids]
    moved, the map counts its load, and nobody is pushed over a capacity. *)
Record walked (seen : list string) (b : list KanbanTask) (load : gmap string nat) (ids : list string) : Prop := {
  wk_board : b = moved ids <$> b0;
  wk_load a : default 0%nat (load !! a) = load_of b a;
  wk_sub id : id ∈ ids → id ∈ seen;
  wk_cap a : (load_of b a <= max (cap_for capacity a) (load_of b0 a))%nat;
  wk_mono a : (load_of b0 a <= load_of b a)%nat;
  wk_full t : t ∈ b0 → kt_id t ∈ seen → kt_id t ∉ ids → (cap_for capacity (kt_assignee t) <= load_of b (kt_assignee t))%nat
}.
Lemma card_of t i : b0 !! i = Some t → ∀ ids, list_find (λ x, kt_id x = kt_id t) (moved ids <$> b0) = Some (i, moved ids t).
Proof.
  intros Hi ids. apply list_find_Some. rewrite list_lookup_fmap, Hi. split_and!; [done|by rewrite moved_id|].
  intros j y Hy Hlt E. rewrite list_lookup_fmap in Hy. apply fmap_Some in Hy as (x & Hx & ->). rewrite moved_id in E.
  assert (j = i); [|lia]. eapply (NoDup_lookup _ _ _ (kt_id t) Hids); rewrite list_lookup_fmap; [rewrite Hx|rewrite Hi]; simpl; congruence.
Qed.
Lemma moved_snoc ids t i : b0 !! i = Some t → alter (set_column ColInProgress) i (moved ids <$> b0) = moved (ids ++ [kt_id t]) <$> b0.
Proof.
  intros Hi. apply list_eq. intros j. rewrite list_lookup_alter, !list_lookup_fmap. case_decide as E.
  - subst j. rewrite Hi. simpl. unfold moved. rewrite (bool_decide_eq_true_2 (kt_id t ∈ ids ++ _)) by set_solver. by case_bool_decide.
  - destruct (b0 !! j) as [x|] eqn:Hx; [|done]. simpl. f_equal. unfold moved.
    assert (kt_id x ≠ kt_id t).
    { intros Ex. apply E. eapply (NoDup_lookup _ _ _ (kt_id t) Hids); rewrite list_lookup_fmap; [by rewrite Hi|by rewrite Hx, <- Ex]. }
    by rewrite (bool_decide_ext (kt_id x ∈ ids ++ [kt_id t]) (kt_id x ∈ ids)) by set_solver.
Qed.
Lemma dispatch_step seen b load ids t : walked seen b load ids → t ∈ b0 → kt_column t = ColReady → kt_id t ∉ seen →
  let '(b', load', ids') := dispatch_one capacity (b, load, ids) (kt_id t) in
  walked (seen ++ [kt_id t]) b' load' ids' ∧ (ids' = ids ∨ ids' = ids ++ [kt_id t]).
Proof.
  intros [-> Hload Hsub Hcap Hmono Hfull] Hin Hready Hnew. apply list_elem_of_lookup in Hin as [i Hi].
  assert (Hni : kt_id t ∉ ids) by (intros ?%Hsub; done). assert (Hmt : moved ids t = t) by (unfold moved; by rewrite bool_decide_eq_false_2).
  assert (Huniq : ∀ x, x ∈ b0 → kt_id x = kt_id t → x = t).
  { intros x [j Hj]%list_elem_of_lookup E. assert (j = i); [|congruence].
    eapply (NoDup_lookup _ _ _ (kt_id t) Hids); rewrite list_lookup_fmap; [rewrite Hj|rewrite Hi]; simpl; congruence. }
  unfold dispatch_one. rewrite (card_of t i Hi ids), Hmt. rewrite Hload. destruct (Nat.leb_spec (cap_for capacity (kt_assignee t)) (load_of (moved ids <$> b0) (kt_assignee t))) as [Hc|Hc].
  - split; [|by left]. split; try done; [set_solver|]. intros x Hx [Hs|Hs%list_elem_of_singleton]%elem_of_app Hn; [by apply Hfull|].
    by rewrite (Huniq x Hx Hs).
  - assert (Hl : ∀ a, load_of (alter (set_column ColInProgress) i (moved ids <$> b0)) a = (load_of (moved ids <$> b0) a + if decide (kt_assignee t = a) then 1 else 0)%nat).
    { intros a. apply load_of_alter; [by rewrite list_lookup_fmap, Hi; simpl; rewrite Hmt|by rewrite Hready]. }
    split; [|by right]. split.
    + by apply moved_snoc.
    + intros a. by rewrite add_load_lookup, Hload, Hl.
    + set_solver.
    + intros a. rewrite Hl. specialize (Hcap a). case_decide; [subst a; lia|lia].
    + intros a. rewrite Hl. specialize (Hmono a). lia.
    + intros x Hx Hs Hn. rewrite Hl. apply elem_of_app in Hs as [Hs|Hs%list_elem_of_singleton]; [|set_solver].
      assert (kt_id x ∉ ids) as Hxn by set_solver. specialize (Hfull x Hx Hs Hxn). lia.
Qed.
Lemma dispatch_walk (l : list KanbanTask) : ∀ seen b load ids, walked seen b load ids →
  (∀ t, t ∈ l → t ∈ b0 ∧ kt_column t = ColReady) → NoDup (seen ++ (kt_id <$> l)) →
  let '(b', load', ids') := foldl (dispatch_one capacity) (b, load, ids) (kt_id <$> l) in
  walked (seen ++ (kt_id <$> l)) b' load' ids' ∧ ∃ more, ids' = ids ++ more ∧ more `sublist_of` (kt_id <$> l).
Proof.
  induction l as [|t l IH]; intros seen b load ids Hw Hl Hnd.
  { csimpl. rewrite app_nil_r. split; [done|]. exists []. by rewrite app_nil_r. }
  assert (Hl' : ∀ x, x ∈ l → x ∈ b0 ∧ kt_column x = ColReady) by (intros x Hx; apply Hl; by right).
  rewrite fmap_cons in Hnd |- *. destruct (Hl t) as [Hin Hr]; [by left|].
  assert (Hnew : kt_id t ∉ seen) by (apply NoDup_app in Hnd as (_ & Hd & _); intros Hs; apply (Hd _ Hs); by left).
  pose proof (dispatch_step seen b load ids t Hw Hin Hr Hnew) as Hstep. cbn [foldl].
  destruct (dispatch_one capacity (b, load, ids) (kt_id t)) as [[b1 load1] ids1] eqn:E. destruct Hstep as [Hw1 Hch].
  rewrite (cons_middle (kt_id t) seen), app_assoc in Hnd |- *. specialize (IH (seen ++ [kt_id t]) b1 load1 ids1 Hw1 Hl' Hnd).
  revert IH. destruct (foldl _ _ _) as [[b2 load2] ids2]. intros (Hw2 & more & -> & Hsub). split; [done|].
  destruct Hch as [->| ->]; [exists more; split; [done|by constructor]|].
  exists (kt_id t :: more). split; [by rewrite <- app_assoc|by constructor].
Qed.
End dispatching.
Lemma filter_sublist {A} (f : A → bool) l : List.filter f l `sublist_of` l.
Proof. induction l as [|x l IH]; simpl; [done|]. case_match; by constructor. Qed.

(** [C28] The dispatcher is fair to capacities and wastes none: on a board
    without two cards of one id it moves, in board order, some of the ready
    cards to in-progress and touches nothing else; no agent ends above its
    capacity unless it started above it; and a ready card stays only if its
    assignee is at capacity. *)
Theorem dispatch_fills_capacity (capacity : list (string * nat)) (b : KanbanBoard) : NoDup (kt_id <$> kb_tasks b) →
  let '(ids, b') := kanban_dispatch capacity b in
  ids `sublist_of` (kt_id <$> kanban_ready b) ∧ kb_tasks b' = moved ids <$> kb_tasks b ∧
  (∀ a, load_of (kb_tasks b') a <= max (cap_for capacity a) (load_of (kb_tasks b) a))%nat ∧
  ∀ t, t ∈ kanban_ready b → kt_id t ∉ ids → (cap_for capacity (kt_assignee t) <= load_of (kb_tasks b') (kt_assignee t))%nat.
Proof.
  intros Hnd. assert (Hw : walked capacity (kb_tasks b) [] (kb_tasks b) (initial_load (kb_tasks b)) []).
  { split; try done; [|by intros a; apply initial_load_spec|intros a; lia].
    symmetry. rewrite <- (list_fmap_id (kb_tasks b)) at 2. apply list_fmap_ext. intros i t _. unfold moved. rewrite bool_decide_eq_false_2; [done|by apply not_elem_of_nil]. }
  assert (Hready : ∀ t, t ∈ kanban_ready b → t ∈ kb_tasks b ∧ kt_column t = ColReady).
  { intros t Ht. unfold kanban_ready in Ht. apply list_elem_of_In, List.filter_In in Ht as [Ht _]. apply List.filter_In in Ht as [Ht Hc].
    split; [by apply list_elem_of_In|by apply bool_decide_eq_true in Hc]. }
  assert (Hsub : kt_id <$> kanban_ready b `sublist_of` (kt_id <$> kb_tasks b)) by (apply fmap_sublist; unfold kanban_ready; by rewrite !filter_sublist).
  pose proof (dispatch_walk capacity (kb_tasks b) Hnd (kanban_ready b) [] _ _ _ Hw Hready) as Hrun. unfold kanban_dispatch.
  revert Hrun. destruct (foldl _ _ _) as [[b' load'] ids]. intros Hrun. destruct Hrun as (Hw' & more & -> & Hm); [simpl; by eapply sublist_NoDup|].
  simpl in *. split_and!; [done|apply Hw'|apply Hw'|]. intros t Ht Hn. apply Hw'; [by apply Hready|by apply list_elem_of_fmap_2|done].
Qed.

(** ** Swarms *)

Definition votes (l : list MemberResult) (s : string) : nat := length (List.filter (λ m, String.eqb (mr_summary m) s) l).
Lemma votes_snoc l m s : votes (l ++ [m]) s = (votes l s + if decide (mr_summary m = s) then 1 else 0)%nat.
Proof.
  unfold votes. rewrite List.filter_app, length_app. simpl. destruct (String.eqb_spec (mr_summary m) s); case_decide; simpl; try done; lia.
Qed.
Lemma tally_votes l s : fst <$> (foldl (λ c m, tally_one m c) ∅ l !! s) = if (votes l s =? 0)%nat then None else Some (votes l s).
Proof.
  induction l as [|m l IH] using rev_ind; [done|]. rewrite foldl_app, votes_snoc. simpl. unfold tally_one at 1.
  set (c := foldl _ _ l) in *. destruct (decide (mr_summary m = s)) as [E|E].
  - rewrite E, lookup_insert_eq. simpl. rewrite Nat.add_1_r. simpl. f_equal. f_equal.
    destruct (c !! s) as [[n f]|]; simpl in *; destruct (votes l s); simpl in *; congruence.
  - rewrite lookup_insert_ne by done. by rewrite Nat.add_0_r.
Qed.
Lemma max_tally_votes l e : max_tally l = Some e → e ∈ l ∧ ∀ x, x ∈ l → (x.2.1 <= e.2.1)%nat.
Proof.
  destruct l as [|x l]; [done|]. simpl. intros [= <-].
  assert (H : ∀ l best, foldl (λ best y, if tally_gt best y then best else y) best l ∈ best :: l ∧
    ∀ y, y ∈ best :: l → (y.2.1 <= (foldl (λ best y, if tally_gt best y then best else y) best l).2.1)%nat).
  { clear. intros l. induction l as [|y l IH]; intros best; simpl; [split; [by left|by intros y ->%list_elem_of_singleton]|].
    assert (Hb : (best.2.1 <= (if tally_gt best y then best else y).2.1)%nat ∧ (y.2.1 <= (if tally_gt best y then best else y).2.1)%nat).
    { unfold tally_gt. destruct (Nat.compare_spec best.2.1 y.2.1); [destruct (f64_lt _ _)|..]; lia. }
    destruct (IH (if tally_gt best y then best else y)) as [Hin Hmax]. split.
    - apply elem_of_cons in Hin as [->|Hin]; [|by right; right]. destruct (tally_gt best y); [by left|by right; left].
    - pose proof (Hmax _ ltac:(by left)) as Hm. intros z [->|[->|Hz]%elem_of_cons]%elem_of_cons; [by etransitivity; [apply Hb|]|by etransitivity; [apply Hb|]|]. apply Hmax. by right. }
  apply H.
Qed.
Lemma has_report_spec l a : has_report l a = true ↔ ∃ m, m ∈ l ∧ mr_agent_id m = a.
Proof.
  unfold has_report. rewrite existsb_exists. setoid_rewrite String.eqb_eq. by setoid_rewrite list_elem_of_In.
Qed.
Lemma first_reports_spec spec results : (∀ m, m ∈ first_reports spec results → m ∈ results ∧ mr_agent_id m ∈ sw_agents spec) ∧
  NoDup (mr_agent_id <$> first_reports spec results) ∧
  ∀ a, a ∈ sw_agents spec → has_report (first_reports spec results) a = has_report results a.
Proof.
  unfold first_reports. induction results as [|r l (Hin & Hnd & Hall)] using rev_ind.
  { split_and!; [by intros m ?%not_elem_of_nil|constructor|done]. }
  rewrite foldl_app. cbn [foldl]. set (acc := foldl _ [] l) in *.
  assert (Happ : ∀ k a, has_report (k ++ [r]) a = has_report k a || String.eqb (mr_agent_id r) a).
  { intros k a. unfold has_report. rewrite existsb_app. simpl. by rewrite orb_false_r. }
  destruct (listed (sw_agents spec) (mr_agent_id r)) eqn:Hl; cbn [negb].
  2:{ split_and!; [intros m Hm; destruct (Hin m Hm); set_solver|done|]. intros a Ha. rewrite Happ, (Hall a Ha).
      destruct (String.eqb_spec (mr_agent_id r) a) as [<-|]; [|by rewrite orb_false_r]. apply existsb_eqb_elem in Ha. unfold listed in Hl. congruence. }
  apply existsb_eqb_elem in Hl. destruct (has_report acc (mr_agent_id r)) eqn:Hr.
  - split_and!; [intros m Hm; destruct (Hin m Hm); set_solver|done|]. intros a Ha. rewrite Happ, <- (Hall a Ha).
    destruct (String.eqb_spec (mr_agent_id r) a) as [<-|]; [by rewrite Hr|by rewrite orb_false_r].
  - split_and!.
    + intros m [Hm| ->%list_elem_of_singleton]%elem_of_app; [destruct (Hin m Hm); set_solver|set_solver].
    + rewrite fmap_app. apply NoDup_app. split_and!; [done| |apply NoDup_singleton]. intros a (m & -> & Hm)%list_elem_of_fmap Hx.
      apply list_elem_of_singleton in Hx. rewrite <- not_true_iff_false in Hr. apply Hr, has_report_spec. by exists m.
    + intros a Ha. by rewrite !Happ, (Hall a Ha).
Qed.

Lemma find_summary (l : list MemberResult) s : votes l s ≠ 0%nat →
  ∃ m, List.find (λ m, String.eqb (mr_summary m) s) l = Some m ∧ m ∈ l ∧ mr_summary m = s.
Proof.
  intros Hv. destruct (List.find _ l) as [m|] eqn:E.
  - apply List.find_some in E as [Hin Hs%String.eqb_eq]. exists m. by rewrite list_elem_of_In.
  - exfalso. apply Hv. unfold votes. apply length_zero_iff_nil. pose proof (List.find_none _ _ E) as Hn. clear -Hn.
    induction l as [|m l IH]; [done|]. simpl. rewrite (Hn m) by (by left). apply IH. intros x Hx. apply Hn. by right.
Qed.
(** The winner a mode picks among the healthy members. *)
Definition picked `{HashIter} (mode : SwarmMode) (healthy : list MemberResult) : option string :=
  match mode with
  | Race | Ensemble => mr_agent_id <$> head healthy
  | Consensus =>
      e ← max_tally (map_iter (foldl (λ c m, tally_one m c) ∅ healthy));
      mr_agent_id <$> List.find (λ m, String.eqb (mr_summary m) e.1) healthy
  end.
Lemma consensus_pick `{HashIterLaws} healthy : healthy ≠ [] →
  ∃ m, picked Consensus healthy = Some (mr_agent_id m) ∧ m ∈ healthy ∧ ∀ s, (votes healthy s <= votes healthy (mr_summary m))%nat.
Proof.
  intros Hne. unfold picked. set (counts := foldl _ ∅ healthy).
  assert (Hin : ∀ s x, (s, x) ∈ map_iter counts ↔ counts !! s = Some x) by (intros s x; apply elem_of_map_iter).
  assert (Hv : ∀ s x, counts !! s = Some x → votes healthy s ≠ 0%nat ∧ x.1 = votes healthy s).
  { intros s x Hx. pose proof (tally_votes healthy s) as Ht. fold counts in Ht. rewrite Hx in Ht. simpl in Ht.
    destruct (Nat.eqb_spec (votes healthy s) 0); [done|]. split; congruence. }
  assert (Hc : ∀ s, votes healthy s ≠ 0%nat → ∃ x, counts !! s = Some x).
  { intros s Hs. pose proof (tally_votes healthy s) as Ht. fold counts in Ht. destruct (counts !! s) as [x|]; [by exists x|].
    simpl in Ht. by destruct (Nat.eqb_spec (votes healthy s) 0). }
  destruct (max_tally (map_iter counts)) as [[s x]|] eqn:E.
  - destruct (max_tally_votes _ _ E) as [Hs%Hin Hmax]. destruct (Hv _ _ Hs) as [Hs0 Hx].
    destruct (find_summary healthy s Hs0) as (m & Hf & Hm & <-). exists m. simpl. rewrite Hf. split_and!; [done|done|].
    intros s'. destruct (decide (votes healthy s' = 0%nat)) as [->|Hs']; [lia|]. destruct (Hc s' Hs') as [x' Hx'].
    pose proof (Hmax (s', x') (proj2 (Hin _ _) Hx')) as Hle. simpl in Hle. destruct (Hv _ _ Hx') as [_ E']. rewrite Hx, E' in Hle. exact Hle.
  - exfalso. destruct healthy as [|m l]; [done|]. destruct (Hc (mr_summary m)) as [x Hx].
    { unfold votes. simpl. by rewrite String.eqb_refl. }
    apply Hin in Hx. destruct (map_iter counts); [by apply not_elem_of_nil in Hx|done].
Qed.
Lemma filter_nil {A} (f : A → bool) l : List.filter f l = [] ↔ ∀ x, x ∈ l → f x = false.
Proof.
  induction l as [|x l IH]; simpl; [by split; [intros _ x ?%not_elem_of_nil|]|]. destruct (f x) eqn:E.
  - split; [done|]. intros H. rewrite H in E; [done|by left].
  - rewrite IH. split; [intros H y [->|Hy]%elem_of_cons; auto|intros H y Hy; apply H; by right].
Qed.

(** A swarm is complete exactly if every member has reported; its winner
    is then a member whose first report is healthy, there is one as soon as a
    member is healthy, and under consensus no other answer has more votes among
    the healthy members, whatever the order the tally is walked in. *)
Theorem swarm_winner_is_sound `{HashIterLaws} (spec : SwarmSpec) (results : list MemberResult) :
  let v := swarm_reduce spec results in
  let healthy := List.filter mr_ok (first_reports spec results) in
  (sv_complete v = true ↔ ∀ a, a ∈ sw_agents spec → ∃ m, m ∈ results ∧ mr_agent_id m = a) ∧
  (sv_complete v = true → sv_winner v = None ↔ healthy = []) ∧
  ∀ a, sv_winner v = Some a → sv_complete v = true ∧ a ∈ sw_agents spec ∧
    ∃ m, m ∈ healthy ∧ m ∈ results ∧ mr_agent_id m = a ∧ (sw_mode spec = Consensus → ∀ s, (votes healthy s <= votes healthy (mr_summary m))%nat).
Proof.
  cbn zeta. set (healthy := List.filter mr_ok _). destruct (first_reports_spec spec results) as (Hin & _ & Hall).
  assert (Hh : ∀ m, m ∈ healthy → m ∈ results ∧ mr_agent_id m ∈ sw_agents spec).
  { intros m Hm. apply list_elem_of_In, List.filter_In in Hm as [Hm _]. by apply Hin, list_elem_of_In. }
  set (pending := List.filter (λ a, negb (has_report (first_reports spec results) a)) (sw_agents spec)).
  assert (Hp : pending = [] ↔ ∀ a, a ∈ sw_agents spec → ∃ m, m ∈ results ∧ mr_agent_id m = a).
  { unfold pending. rewrite filter_nil. split; intros Hx a Ha; specialize (Hx a Ha).
    - apply negb_false_iff in Hx. rewrite (Hall a Ha) in Hx. by apply has_report_spec.
    - apply negb_false_iff. rewrite (Hall a Ha). by apply has_report_spec. }
  assert (Hv : sv_complete (swarm_reduce spec results) = bool_decide (pending = []) ∧
    sv_winner (swarm_reduce spec results) = if bool_decide (pending = []) then picked (sw_mode spec) healthy else None).
  { unfold swarm_reduce. fold pending healthy. by destruct pending. }
  destruct Hv as [-> ->]. rewrite bool_decide_eq_true. split; [exact Hp|]. case_bool_decide as Hd; [|done].
  assert (Hpick : (healthy = [] ∧ picked (sw_mode spec) healthy = None) ∨ ∃ m, picked (sw_mode spec) healthy = Some (mr_agent_id m) ∧ m ∈ healthy ∧
    (sw_mode spec = Consensus → ∀ s, (votes healthy s <= votes healthy (mr_summary m))%nat)).
  { destruct healthy as [|m l] eqn:E; [left; split; [done|]|right; rewrite <- E].
    - destruct (sw_mode spec); try done. unfold picked. simpl. destruct (map_iter ∅) as [|[k x] l] eqn:Ei; [done|].
      assert (Hk : (k, x) ∈ map_iter (∅ : gmap string Tally)) by (rewrite Ei; by left). by apply elem_of_map_iter in Hk.
    - destruct (sw_mode spec) eqn:Em; [|destruct (consensus_pick healthy) as (m' & ? & ? & ?); [by rewrite E|by exists m']|];
        exists m; rewrite E; (split_and!; [done|by left|done]). }
  destruct Hpick as [[-> ->]|(m & -> & Hm & Hs)]; [done|]. split.
  - intros _. split; [done|]. intros ->. by apply not_elem_of_nil in Hm.
  - intros a [= <-]. destruct (Hh m Hm) as [Hr Ha]. split_and!; [done|done|]. by exists m.
Qed.

(** ** A small fleet *)

Lemma loop_detector_sees_the_history_witness :
  (loop_observe "b" (foldl (λ d c, (loop_observe c d).2) {| ld_window := 2; ld_threshold := 2; ld_hashes := [] |} ["x"; "a"; "b"; "a"])).1 = LvInterrupted 2 ∧
  ends_in_copies 2 2 (fnv1a <$> ["x"; "a"; "b"; "a"; "b"]).
Proof.
  split; [by vm_compute|].
  pose proof (loop_detector_sees_the_history 2 2 {| ld_window := 2; ld_threshold := 2; ld_hashes := [] |} ["x"; "a"; "b"; "a"] "b" eq_refl) as (_ & _ & H).
  apply H. exists 2%nat. by vm_compute.
Defined.
Definition demo_members : list (string * AgentReadiness) := [("a", ArReady); ("b", ArInstalled); ("c", ArReady); ("d", ArReady)].
Lemma fan_out_fills_the_free_slots_witness :
  plan_parallel_fan_out demo_members subagent_limits_default {| fg_child_depth := 1; fg_active := 1; fg_total := 2 |} =
  Ok {| pf_start_now := ["a"; "c"]; pf_deferred := ["d"]; pf_refused := [("b", readiness_summary ArInstalled)] |}.
Proof. rewrite fan_out_fills_the_free_slots; [by vm_compute|done|done]. Defined.
Definition demo_card (id assignee : string) (c : Column) (blocks : list string) : KanbanTask :=
  {| kt_id := id; kt_title := id; kt_assignee := assignee; kt_column := c; kt_parent := None; kt_blocks := blocks |}.
Definition demo_board : KanbanBoard := {| kb_tasks :=
  [demo_card "1" "ann" ColInProgress []; demo_card "2" "ann" ColReady []; demo_card "3" "bob" ColReady ["5"];
   demo_card "4" "ann" ColReady []; demo_card "5" "bob" ColDone []] |}.
Lemma dispatch_fills_capacity_witness :
  (kanban_dispatch [("*", 2%nat)] demo_board).1 = ["2"; "3"] ∧ load_of (kb_tasks (kanban_dispatch [("*", 2%nat)] demo_board).2) "ann" = 2%nat ∧
  (load_of (kb_tasks (kanban_dispatch [("*", 2%nat)] demo_board).2) "ann" <= 2)%nat.
Proof.
  assert (Hnd : NoDup (kt_id <$> kb_tasks demo_board)) by (apply (bool_decide_unpack _); by vm_compute).
  pose proof (dispatch_fills_capacity [("*", 2%nat)] demo_board Hnd) as H. split; [by vm_compute|]. split; [by vm_compute|].
  destruct (kanban_dispatch _ _) as [ids b']. apply H.
Defined.
Definition demo_result (agent summary : string) (score : f64) (ok : bool) : MemberResult :=
  {| mr_agent_id := agent; mr_task_id := "w-" +:+ agent; mr_summary := summary; mr_score := score; mr_ok := ok |}.
Definition demo_swarm (mode : SwarmMode) (agents : list string) : SwarmSpec :=
  {| sw_name := "swarm"; sw_prompt := "sum up"; sw_agents := agents; sw_mode := mode; sw_max_rounds := 2 |}.
Lemma swarm_winner_is_sound_witness :
  let results := [demo_result "a" "x" f64_1 true; demo_result "b" "y" f64_0 true; demo_result "c" "y" f64_0 true; demo_result "a" "y" f64_0 true] in
  let spec := demo_swarm Consensus ["a"; "b"; "c"] in
  sv_winner (swarm_reduce spec results) = Some "b" ∧ (votes (List.filter mr_ok (first_reports spec results)) "x" <= 2)%nat.
Proof.
  intros results spec. split; [by vm_compute|].
  destruct (swarm_winner_is_sound spec results) as (_ & _ & H). destruct (H "b") as (_ & _ & m & Hm & _ & Hid & Hv); [by vm_compute|].
  specialize (Hv eq_refl "x"). etransitivity; [exact Hv|].
  apply list_elem_of_In in Hm. cbn in Hm. destruct Hm as [<-|[<-|[<-|[]]]]; by vm_compute; lia.
Defined.

(** ** Where the comments and the code part *)

(** Two votes of five win a consensus: no majority is required. *)
Example plurality_wins_a_consensus :
  sv_winner (swarm_reduce (demo_swarm Consensus ["a"; "b"; "c"; "d"; "e"])
    [demo_result "a" "x" f64_0 true; demo_result "b" "x" f64_0 true; demo_result "c" "y" f64_1 true; demo_result "d" "z" f64_1 true;
     demo_result "e" "w" f64_1 true]) = Some "a".
Proof. by vm_compute. Qed.
(** A full tie is decided by the order in which the hash map is walked. *)
Definition backward_iter : HashIter := {| map_iter _ m := rev (map_to_list m) |}.
Example tie_depends_on_the_hash_order :
  let reduce_with it := sv_winner (@swarm_reduce it (demo_swarm Consensus ["a"; "b"]) [demo_result "a" "x" f64_1 true; demo_result "b" "y" f64_1 true]) in
  reduce_with list_iter ≠ reduce_with backward_iter ∧ @HashIterLaws backward_iter.
Proof. split; [by vm_compute|]. split. intros A m. simpl. symmetry. apply Permutation_rev. Qed.
(** What stops the loop is a guard that holds, not one that fails. *)
Example guard_that_holds_interrupts :
  let s := {| ls_budget_used := f64_1; ls_repeat_count := 0; ls_cost_per_edit_usd := f64_0; ls_one_shot_rate := f64_1;
              ls_turns_since_progress := 0; ls_verified_complete := false |} in
  violated_guard loop_patterns_builtin s = None ∧ forallb (condition_holds s) [CostPerEditAbove (f64_lit 2 100); OneShotRateBelow (f64_lit 2 10)] = false.
Proof. by vm_compute. Qed.
