(* ===== verification/AuditLog.v ===== *)
(** * The session log, its recovery and repair, the audit log and its compaction

    [everyaios-audit/src/{session_log,repair,lib,retention}.rs]: append-only
    files of one JSON object per line, the decision what to do with a tool that
    started and never completed, the seven phases of a repair, and the roll-up
    of old payloads. A file is its text; a write may stop short; the JSON of a
    line is an interface. *)
From S2P Require Import Order Prelude Json.

(** ** Files of lines *)

(** [serde_json] of one event on one line. *)
Class Lines (A : Type) := { enc : A → string; dec : string → option A }.
Class LinesLaws (A : Type) `{Lines A} : Prop := {
  dec_enc a : dec (enc a) = Some a;
  enc_line a : has_char NL (enc a) = false;
  dec_blank : dec "" = None
}.
(** The events of a text, in order: a line that does not parse is skipped (a
    blank one is skipped before it is parsed, and is no JSON text either). *)
Definition read_lines {A} `{Lines A} (body : string) : list A := omap dec (split NL body).
Definition line_of {A} `{Lines A} (a : A) : string := enc a +:+ nl.
(** How much of a write reaches the file before an error. *)
Inductive Wrote := WroteAll | WroteOnly (n : nat).
Definition text_written (w : Wrote) (line : string) : string := match w with WroteAll => line | WroteOnly n => String.substring 0 n line end.
Definition wrote_ok (w : Wrote) : bool := match w with WroteAll => true | WroteOnly _ => false end.

(** ** Session events *)

(* SRC audit/src/session_log.rs @enum:EventType EventType *)
Inductive SessionEventType :=
  | UserMessageAdded | PlanCreated | TaskStarted | ToolProposed | PermissionGranted | ToolStarted | ToolCompleted
  | ArtifactWritten | ModelTurnCompleted | CheckpointCommitted | ContextInjection.
#[export] Instance session_event_type_eq_dec : EqDecision SessionEventType.
Proof. solve_decision. Defined.
(* SRC audit/src/session_log.rs @struct:SessionEvent SessionEvent *)
Record LogEvent := {
  se_seq : N; se_ts_ms : N; se_session : string; se_agent : string; se_tool : string; se_args_hash : string;
  se_result_meta : Value; se_trace_id : string; se_span_id : string; se_event_type : SessionEventType
}.
(* SRC audit/src/session_log.rs @struct:EventInput EventInput *)
Record EventInput := {
  ei_event_type : SessionEventType; ei_session : string; ei_agent : string; ei_tool : string; ei_args_hash : string;
  ei_result_meta : Value; ei_trace_id : string; ei_span_id : string
}.
(** The [.ndjson] files by session id, and an open log. *)
Notation Sessions := (gmap string string).
(* SRC audit/src/session_log.rs @struct:SessionLog SessionLog *)
Record SessionLog := { sl_id : string; sl_seq : N }.
Inductive SessionLogError := SlIo | SlInvalidSessionId (id : string).

Definition bad_session_id (id : string) : bool := is_empty (trim id) || contains "/" id || contains ".." id.
Definition session_body (files : Sessions) (id : string) : string := default "" (files !! id).

Section session_log.
Context {lines : Lines LogEvent}.
(* SRC audit/src/session_log.rs @fn:events SessionLog::events *)
Definition log_events (files : Sessions) (id : string) : list LogEvent := read_lines (session_body files id).
(* SRC audit/src/session_log.rs @fn:open SessionLog::open *)
Definition log_open (files : Sessions) (id : string) : result SessionLog SessionLogError :=
  if bad_session_id id then Err (SlInvalidSessionId id)
  else Ok {| sl_id := id; sl_seq := foldr N.max 0%N (se_seq <$> log_events files id) |}.
(* SRC audit/src/session_log.rs @fn:write_event SessionLog::write_event *)
Definition write_event (now : N) (input : EventInput) (self : SessionLog) : LogEvent * SessionLog :=
  let seq := u64_add (sl_seq self) 1 in
  ({| se_seq := seq; se_ts_ms := now; se_session := ei_session input; se_agent := ei_agent input; se_tool := ei_tool input;
      se_args_hash := ei_args_hash input; se_result_meta := ei_result_meta input; se_trace_id := ei_trace_id input;
      se_span_id := ei_span_id input; se_event_type := ei_event_type input |},
   {| sl_id := sl_id self; sl_seq := seq |}).
Definition put_text (files : Sessions) (id text : string) : Sessions := <[id := session_body files id +:+ text]> files.
(* SRC audit/src/session_log.rs @fn:append SessionLog::append *)
Definition log_append (now : N) (w : Wrote) (input : EventInput) (self : SessionLog) (files : Sessions)
    : result N SessionLogError * SessionLog * Sessions :=
  let '(ev, self) := write_event now input self in
  let files := put_text files (sl_id self) (text_written w (line_of ev)) in
  (if wrote_ok w then Ok (se_seq ev) else Err SlIo, self, files).
Fixpoint write_events (now : N) (inputs : list EventInput) (self : SessionLog) : list LogEvent * SessionLog :=
  match inputs with
  | [] => ([], self)
  | i :: inputs =>
      let '(ev, self) := write_event now i self in
      let '(evs, self) := write_events now inputs self in (ev :: evs, self)
  end.
(* SRC audit/src/session_log.rs @fn:append_batch SessionLog::append_batch *)
Definition append_batch (now : N) (w : Wrote) (inputs : list EventInput) (self : SessionLog) (files : Sessions)
    : result (list N) SessionLogError * SessionLog * Sessions :=
  let '(events, self) := write_events now inputs self in
  match events with
  | [] => (Ok [], self, files)
  | _ =>
      let files := put_text files (sl_id self) (text_written w (sconcat (line_of <$> events))) in
      (if wrote_ok w then Ok (se_seq <$> events) else Err SlIo, self, files)
  end.

(* SRC audit/src/session_log.rs @struct:ContextInjectionRecord ContextInjectionRecord *)
Record ContextInjectionRecord := {
  ci_seq : N; ci_ts_ms : N; ci_session : string; ci_agent : string; ci_source : string; ci_tokens : option N; ci_ref_id : string
}.
(* SRC audit/src/session_log.rs @fn:context_injections SessionLog::context_injections *)
Definition context_injections (events : list LogEvent) : list ContextInjectionRecord :=
  (λ e, {| ci_seq := se_seq e; ci_ts_ms := se_ts_ms e; ci_session := se_session e; ci_agent := se_agent e;
           ci_source := default "other" (p_str "source" (se_result_meta e)); ci_tokens := p_u64 "tokens" (se_result_meta e);
           ci_ref_id := default "" (p_str "refId" (se_result_meta e)) |})
    <$> List.filter (λ e, bool_decide (se_event_type e = ContextInjection)) events.

Definition is_type (t : SessionEventType) (e : LogEvent) : bool := bool_decide (se_event_type e = t).
Definition call_key (e : LogEvent) : string * string := (se_tool e, se_args_hash e).
(* SRC audit/src/session_log.rs @fn:tool_starts_without_completion SessionLog::tool_starts_without_completion *)
Definition tool_starts_without_completion (events : list LogEvent) : list LogEvent :=
  List.filter (λ ev, negb (existsb (λ c, is_type ToolCompleted c && bool_decide (call_key c = call_key ev) && (se_seq ev <? se_seq c)%N) events))
    (List.filter (is_type ToolStarted) events).

(* SRC audit/src/session_log.rs @struct:ProjectedMessage ProjectedMessage *)
Record ProjectedMessage := { pm_turn : N; pm_role : string; pm_content : string; pm_ts_ms : N; pm_tool_call_count : N }.
(** The walk of [project_messages]. *)
Record Projection := {
  pj_messages : list ProjectedMessage; pj_turn : N; pj_tools : N; pj_content : string; pj_ts : N; pj_role : string; pj_in_turn : bool
}.
Definition content_of (e : LogEvent) : string := default "" (p_str "content" (se_result_meta e)).
Definition project_step (s : Projection) (e : LogEvent) : Projection :=
  match se_event_type e with
  | UserMessageAdded =>
      {| pj_messages := pj_messages s; pj_turn := u64_add (pj_turn s) 1; pj_tools := 0; pj_content := content_of e; pj_ts := se_ts_ms e;
         pj_role := "user"; pj_in_turn := true |}
  | ToolStarted =>
      if pj_in_turn s then
        {| pj_messages := pj_messages s; pj_turn := pj_turn s; pj_tools := ((pj_tools s + 1) mod 4294967296)%N; pj_content := pj_content s; pj_ts := pj_ts s;
           pj_role := pj_role s; pj_in_turn := true |}
      else s
  | ModelTurnCompleted =>
      if pj_in_turn s then
        {| pj_messages := pj_messages s ++
             [{| pm_turn := pj_turn s; pm_role := pj_role s; pm_content := pj_content s; pm_ts_ms := pj_ts s; pm_tool_call_count := pj_tools s |};
              {| pm_turn := pj_turn s; pm_role := "assistant"; pm_content := content_of e; pm_ts_ms := se_ts_ms e; pm_tool_call_count := 0 |}];
           pj_turn := pj_turn s; pj_tools := 0; pj_content := pj_content s; pj_ts := pj_ts s; pj_role := pj_role s; pj_in_turn := false |}
      else s
  | _ => s
  end.
(* SRC audit/src/session_log.rs @fn:project_messages SessionLog::project_messages *)
Definition project_messages (events : list LogEvent) : list ProjectedMessage :=
  pj_messages (foldl project_step
    {| pj_messages := []; pj_turn := 0; pj_tools := 0; pj_content := ""; pj_ts := 0; pj_role := ""; pj_in_turn := false |} events).

(* SRC audit/src/session_log.rs @struct:ForkLineage ForkLineage *)
Record ForkLineage := { fl_source_session : string; fl_fork_at_turn : N; fl_fork_at_event_seq : N; fl_new_session_id : string; fl_created_at_ms : N }.
(** The walk of [fork_at_turn]: the turn, and the events taken; it ends at the
    completion of the turn, with the number of that event. *)
Fixpoint fork_walk (at_ turn : N) (l : list LogEvent) : list LogEvent * N :=
  match l with
  | [] => ([], 0%N)
  | ev :: l =>
      let turn := match se_event_type ev with UserMessageAdded => u64_add turn 1 | _ => turn end in
      if (turn =? at_)%N then
        match se_event_type ev with
        | ModelTurnCompleted => ([ev], se_seq ev)
        | _ => let '(evs, seq) := fork_walk at_ turn l in (ev :: evs, seq)
        end
      else fork_walk at_ turn l
  end.
Definition fork_input (id : string) (e : LogEvent) : EventInput :=
  {| ei_event_type := se_event_type e; ei_session := id; ei_agent := se_agent e; ei_tool := se_tool e; ei_args_hash := se_args_hash e;
     ei_result_meta := se_result_meta e; ei_trace_id := se_trace_id e; ei_span_id := se_span_id e |}.
(** The copies, until a write fails; [env] is the clock and the disk at each. *)
Fixpoint fork_copy (env : nat → N * Wrote) (i : nat) (id : string) (l : list LogEvent) (log : SessionLog) (files : Sessions)
    : result unit SessionLogError * Sessions :=
  match l with
  | [] => (Ok tt, files)
  | e :: l =>
      match log_append (env i).1 (env i).2 (fork_input id e) log files with
      | (Ok _, log, files) => fork_copy env (S i) id l log files
      | (Err x, _, files) => (Err x, files)
      end
  end.
(* SRC audit/src/session_log.rs @fn:fork_at_turn SessionLog::fork_at_turn *)
Definition fork_at_turn (env : nat → N * Wrote) (now : N) (at_ : N) (new_id : string) (self : SessionLog) (files : Sessions)
    : result ForkLineage SessionLogError * Sessions :=
  if bad_session_id new_id then (Err (SlInvalidSessionId new_id), files)
  else let '(evs, seq) := fork_walk at_ 0 (log_events files (sl_id self)) in
  if (seq =? 0)%N then (Err (SlInvalidSessionId ("turn " +:+ pretty at_ +:+ " not found or not completed")), files)
  else match log_open files new_id with
  | Err e => (Err e, files)
  | Ok log =>
      match fork_copy env 0 new_id evs log files with
      | (Err e, files) => (Err e, files)
      | (Ok _, files) =>
          (Ok {| fl_source_session := sl_id self; fl_fork_at_turn := at_; fl_fork_at_event_seq := seq; fl_new_session_id := new_id; fl_created_at_ms := now |}, files)
      end
  end.
End session_log.

(** ** Recovery *)

(* SRC audit/src/session_log.rs @enum:IdempotencyClass IdempotencyClass *)
Inductive RetryClass := SafeRetry | UnsafeRetry | SameKey | ConfirmAfterUncertain.
#[export] Instance idempotency_class_eq_dec : EqDecision RetryClass.
Proof. solve_decision. Defined.
(* SRC audit/src/session_log.rs @fn:classify_tool classify_tool *)
Definition classify_tool (tool : string) : RetryClass :=
  if existsb (String.eqb tool) ["browser.snapshot"; "browser.read"; "browser.search"; "search"; "vault.list"; "repo.map"; "memory.query"] then SafeRetry
  else if existsb (String.eqb tool) ["browser.act"; "file.write"; "file.delete"; "terminal.exec"; "connector.mutate"] then UnsafeRetry
  else if existsb (String.eqb tool) ["connector.send_email"; "payment.charge"; "messaging.send"] then SameKey
  else ConfirmAfterUncertain.
(* SRC audit/src/session_log.rs @struct:IdempotencyRegistry IdempotencyRegistry *)
Definition IdempotencyRegistry : Type := gmap string Value.
(* SRC audit/src/session_log.rs @enum:RecoveryAction RecoveryAction *)
Inductive RetryAction := Rerun | ResendWithKey (key : string) | ConfirmCard.
(* SRC audit/src/session_log.rs @struct:RecoveryDecision RecoveryDecision *)
Record RecoveryDecision := { rd_seq : N; rd_tool : string; rd_args_hash : string; rd_class : RetryClass; rd_action : RetryAction }.
(* SRC audit/src/session_log.rs @fn:recovery_plan recovery_plan *)
Definition recovery_plan (incomplete : list LogEvent) (registry : IdempotencyRegistry) : list RecoveryDecision :=
  (λ ev,
    let class := classify_tool (se_tool ev) in
    {| rd_seq := se_seq ev; rd_tool := se_tool ev; rd_args_hash := se_args_hash ev; rd_class := class;
       rd_action := match class with
         | SafeRetry => Rerun
         | SameKey => match registry !! se_args_hash ev with Some _ => Rerun | None => ResendWithKey (se_args_hash ev) end
         | UnsafeRetry | ConfirmAfterUncertain => ConfirmCard
         end |}) <$> incomplete.

(** ** Repair *)

(* SRC audit/src/repair.rs @enum:Phase Phase *)
Inductive Phase := PhParse | PhSequence | PhToolPairing | PhOrdering | PhIdentity | PhTimeMonotonic | PhTermination.
#[export] Instance phase_eq_dec : EqDecision Phase.
Proof. solve_decision. Defined.
(** The message of a finding is text for the user and is not kept. *)
(* SRC audit/src/repair.rs @struct:RepairFinding RepairFinding *)
Record RepairFinding := { rf_phase : Phase; rf_seq : N }.
(* SRC audit/src/repair.rs @enum:RecoveryAction RecoveryAction *)
Inductive RepairAction := RaResume | RaReplayIdempotent | RaRestoreCheckpoint | RaAskUser.
(* SRC audit/src/repair.rs @struct:RepairReport RepairReport *)
Record RepairReport := { rp_findings : list RepairFinding; rp_healthy : bool; rp_recommendation : RepairAction }.
Definition in_phase (p : Phase) (f : RepairFinding) : bool := bool_decide (rf_phase f = p).
(* SRC audit/src/repair.rs @fn:with_findings RepairReport::with_findings *)
Definition with_findings (findings : list RepairFinding) : RepairReport :=
  let healthy := match findings with [] => true | _ => false end in
  {| rp_findings := findings; rp_healthy := healthy;
     rp_recommendation :=
       if healthy then RaResume
       else if existsb (in_phase PhToolPairing) findings then RaReplayIdempotent
       else if existsb (λ f, in_phase PhParse f || in_phase PhSequence f) findings then RaRestoreCheckpoint
       else RaAskUser |}.
Definition finding (p : Phase) (seq : N) : RepairFinding := {| rf_phase := p; rf_seq := seq |}.
Definition nil_event (n : nat) (e : LogEvent) : bool :=
  (se_seq e =? 0)%N && is_type UserMessageAdded e && is_empty (se_agent e) && (1 <? n)%nat.
(** The first number that is not its position. *)
Fixpoint sequence_phase (expected : N) (l : list LogEvent) : list RepairFinding :=
  match l with
  | [] => []
  | e :: l => if (se_seq e =? expected)%N then sequence_phase (expected + 1) l else [finding PhSequence (se_seq e)]
  end.
Fixpoint pairing_phase (completed : gset (string * string)) (started : list LogEvent) : list RepairFinding :=
  match started with
  | [] => []
  | s :: started =>
      if bool_decide (call_key s ∈ completed) then pairing_phase (completed ∖ {[call_key s]}) started
      else finding PhToolPairing (se_seq s) :: pairing_phase completed started
  end.
Fixpoint ordering_phase (saw_plan : bool) (active : gset (string * string)) (l : list LogEvent) : list RepairFinding :=
  match l with
  | [] => []
  | e :: l =>
      match se_event_type e with
      | CheckpointCommitted => (if saw_plan then [] else [finding PhOrdering (se_seq e)]) ++ ordering_phase saw_plan active l
      | PlanCreated => ordering_phase true active l
      | ToolCompleted =>
          if bool_decide (call_key e ∈ active) then ordering_phase saw_plan (active ∖ {[call_key e]}) l
          else finding PhOrdering (se_seq e) :: ordering_phase saw_plan active l
      | ToolStarted => ordering_phase saw_plan ({[call_key e]} ∪ active) l
      | _ => ordering_phase saw_plan active l
      end
  end.
Definition identity_phase (l : list LogEvent) : list RepairFinding :=
  (if (1 <? size (list_to_set (se_session <$> l) : gset string))%nat then [finding PhIdentity 0] else []) ++
  (if (1 <? size (list_to_set (se_agent <$> l) : gset string))%nat then [finding PhIdentity 0] else []).
Fixpoint time_phase (last : N) (l : list LogEvent) : list RepairFinding :=
  match l with
  | [] => []
  | e :: l => if (se_ts_ms e <? last)%N then [finding PhTimeMonotonic (se_seq e)] else time_phase (se_ts_ms e) l
  end.
Definition is_terminal_event (e : LogEvent) : bool := is_type CheckpointCommitted e || is_type ModelTurnCompleted e.
Definition termination_phase (l : list LogEvent) : list RepairFinding :=
  match last l with
  | Some e => if is_terminal_event e then [] else [finding PhTermination (se_seq e)]
  | None => []
  end.
(* SRC audit/src/repair.rs @fn:validate_session validate_session *)
Definition validate_session (events : list LogEvent) : RepairReport :=
  with_findings (
    (if existsb (nil_event (length events)) events then [finding PhParse 0] else []) ++
    sequence_phase 1 events ++
    pairing_phase (list_to_set (call_key <$> List.filter (is_type ToolCompleted) events)) (List.filter (is_type ToolStarted) events) ++
    ordering_phase false ∅ events ++
    identity_phase events ++
    time_phase 0 events ++
    termination_phase events).
(* SRC audit/src/repair.rs @fn:replayable_tools replayable_tools *)
Definition replayable_tools (events : list LogEvent) : list string :=
  set_iter (list_to_set (se_tool <$> List.filter (is_type ToolStarted) events)).

(* SRC audit/src/repair.rs @enum:StartedUnknownClassification StartedUnknownClassification *)
Inductive StartedUnknownClassification := NeverStarted | StartedUnknown.
(* SRC audit/src/repair.rs @struct:StartedUnknownItem StartedUnknownItem *)
Record StartedUnknownItem := {
  su_seq : N; su_tool : string; su_args_hash : string; su_classification : StartedUnknownClassification; su_needs_confirmation : bool
}.
(* SRC audit/src/repair.rs @fn:started_unknown_repair started_unknown_repair *)
Definition started_unknown_repair (incomplete : list LogEvent) (dispatch_evidence : gset (string * string)) : list StartedUnknownItem :=
  (λ ev,
    let has_dispatch := bool_decide (call_key ev ∈ dispatch_evidence) in
    let is_mutation := match classify_tool (se_tool ev) with UnsafeRetry | SameKey => true | _ => false end in
    {| su_seq := se_seq ev; su_tool := se_tool ev; su_args_hash := se_args_hash ev;
       su_classification := if has_dispatch then StartedUnknown else NeverStarted;
       su_needs_confirmation := is_mutation && has_dispatch |}) <$> incomplete.

(** ** The audit log *)

(* SRC audit/src/lib.rs @struct:AuditEvent AuditEvent *)
Record AuditRow := { ae_seq : N; ae_ts_ms : N; ae_kind : string; ae_payload : Value; ae_trace_id : string; ae_span_id : string }.
(* SRC audit/src/lib.rs @struct:AuditWriter AuditWriter *)
Record AuditWriter := { aw_file : string; aw_seq : N }.

Section audit_log.
Context {lines : Lines AuditRow} {sha : Sha256}.
(** The number of the last line that parses. *)
(* SRC audit/src/lib.rs @fn:last_seq last_seq *)
Definition last_seq (body : string) : N := default 0%N (ae_seq <$> last (read_lines body)).
(* SRC audit/src/lib.rs @fn:open AuditWriter::open *)
Definition audit_open (body : string) : AuditWriter := {| aw_file := body; aw_seq := last_seq body |}.
(* SRC audit/src/lib.rs @fn:write_traced AuditWriter::write_traced *)
Definition write_traced (now : N) (w : Wrote) (kind : string) (payload : Value) (trace_id span_id : string) (self : AuditWriter)
    : result N SessionLogError * AuditWriter :=
  let seq := u64_add (aw_seq self) 1 in
  let event := {| ae_seq := seq; ae_ts_ms := now; ae_kind := kind; ae_payload := payload; ae_trace_id := trace_id; ae_span_id := span_id |} in
  (if wrote_ok w then Ok seq else Err SlIo, {| aw_file := aw_file self +:+ text_written w (line_of event); aw_seq := seq |}).
Fixpoint batch_events (now : N) (seq : N) (l : list (string * Value)) : list AuditRow :=
  match l with
  | [] => []
  | (kind, payload) :: l =>
      let seq := u64_add seq 1 in
      {| ae_seq := seq; ae_ts_ms := now; ae_kind := kind; ae_payload := payload; ae_trace_id := ""; ae_span_id := "" |} :: batch_events now seq l
  end.
(* SRC audit/src/lib.rs @fn:write_batch AuditWriter::write_batch *)
Definition write_batch (now : N) (w : Wrote) (events : list (string * Value)) (self : AuditWriter) : result (list N) SessionLogError * AuditWriter :=
  match events with
  | [] => (Ok [], self)
  | _ =>
      let evs := batch_events now (aw_seq self) events in
      (if wrote_ok w then Ok (ae_seq <$> evs) else Err SlIo,
       {| aw_file := aw_file self +:+ text_written w (sconcat (line_of <$> evs)); aw_seq := default 0%N (ae_seq <$> last evs) |})
  end.

(* SRC audit/src/retention.rs @struct:CompactReport CompactReport *)
Record CompactReport := { cr_kept_full : N; cr_rolled_up : N; cr_dropped_malformed : N; cr_cutoff_ms : N }.
(** The event an old line becomes: the digest is that of the line. *)
Definition rolled (line : string) (ev : AuditRow) : AuditRow :=
  {| ae_seq := ae_seq ev; ae_ts_ms := ae_ts_ms ev; ae_kind := ae_kind ev;
     ae_payload := json_object [("rolled_up", JBool true); ("payload_sha256", JString (sha256_hex line))];
     ae_trace_id := ae_trace_id ev; ae_span_id := ae_span_id ev |}.
(** The lines kept, with the counts kept full, rolled up and dropped. *)
Fixpoint compact_lines (cutoff : N) (l : list string) : list string * (N * N * N) :=
  match l with
  | [] => ([], (0, 0, 0)%N)
  | line :: l =>
      let '(out, (kept, roll, bad)) := compact_lines cutoff l in
      if is_empty line then (out, (kept, roll, bad))
      else match dec line with
      | None => (out, (kept, roll, bad + 1)%N)
      | Some ev =>
          if (cutoff <=? ae_ts_ms ev)%N then ((line +:+ nl) :: out, (kept + 1, roll, bad)%N)
          else (line_of (rolled line ev) :: out, (kept, roll + 1, bad)%N)
      end
  end.
Definition MS_PER_DAY : N := 86400000.
(** The new text of the file, written aside and renamed over it, and the
    report; the sizes in the report are left out. A missing file stays. *)
(* SRC audit/src/retention.rs @fn:compact compact *)
Definition compact (now : N) (retention_days : N) (file : option string) : option string * CompactReport :=
  let cutoff := (now - (retention_days * MS_PER_DAY) mod 18446744073709551616)%N in
  match file with
  | None => (None, {| cr_kept_full := 0; cr_rolled_up := 0; cr_dropped_malformed := 0; cr_cutoff_ms := cutoff |})
  | Some body =>
      let '(out, (kept, roll, bad)) := compact_lines cutoff (split NL body) in
      let header := {| ae_seq := 0; ae_ts_ms := now; ae_kind := "log.rollup";
        ae_payload := json_object [("kept_full", json_u64 kept); ("rolled_up", json_u64 roll); ("cutoff_ms", json_u64 cutoff);
                                   ("retention_days", json_u64 retention_days)];
        ae_trace_id := ""; ae_span_id := "" |} in
      (Some (line_of header +:+ sconcat out),
       {| cr_kept_full := kept; cr_rolled_up := roll; cr_dropped_malformed := bad; cr_cutoff_ms := cutoff |})
  end.
End audit_log.
