(* ===== verification/AuditLogFacts.v ===== *)
(** * What the session log, the repair and the compaction guarantee

    The log read back is made of the acknowledged events, in order and numbered
    upwards, whatever part of a failing write reaches the file: only an event
    whose line starts inside a torn one is lost. A log passes the repair
    exactly if it is healthy and starts no call twice; compaction keeps every
    event. *)
From S2P Require Import Order Prelude Paths Json AuditLog.

(** ** Lines *)

(** A text that ends with a line feed, or an empty one. *)
Definition whole_lines (b : string) : Prop := b = "" ∨ ∃ x, b = x +:+ nl.
Section lines.
Context {A : Type} `{LinesLaws A}.
Lemma read_line (b : string) (a : A) : whole_lines b → read_lines (b +:+ line_of a) = read_lines b ++ [a] ∧ whole_lines (b +:+ line_of a).
Proof.
  intros Hb. unfold line_of. split; [|right; exists (b +:+ enc a); by rewrite app_string_assoc].
  assert (Hs : omap dec (split NL (enc a +:+ nl)) = [a]).
  { unfold nl, ch. rewrite split_app_sep, split_no_sep by apply enc_line. cbn. by rewrite dec_enc, dec_blank. }
  destruct Hb as [->|[x ->]].
  - unfold read_lines. change ("" +:+ (enc a +:+ nl)) with (enc a +:+ nl). rewrite Hs. cbn. by rewrite dec_blank.
  - unfold read_lines. unfold nl at 1 3, ch. rewrite app_string_assoc. change (String NL "" +:+ (enc a +:+ nl)) with (String NL (enc a +:+ nl)).
    rewrite !split_app_sep, !omap_app, Hs. cbn. by rewrite dec_blank, app_nil_r.
Qed.
Lemma read_all (l : list A) : ∀ b, whole_lines b → read_lines (b +:+ sconcat (line_of <$> l)) = read_lines b ++ l ∧ whole_lines (b +:+ sconcat (line_of <$> l)).
Proof.
  induction l as [|a l IH]; intros b Hb; csimpl.
  - by rewrite app_nil_r, app_string_nil_r.
  - destruct (read_line b a Hb) as [Hr Hw]. rewrite <- app_string_assoc. destruct (IH _ Hw) as [Hr' Hw']. by rewrite Hr', Hr, <- app_assoc.
Qed.
Lemma read_fresh (l : list A) : read_lines (sconcat (line_of <$> l)) = l.
Proof. destruct (read_all l "" ltac:(by left)) as [Hr _]. change ("" +:+ sconcat (line_of <$> l)) with (sconcat (line_of <$> l)) in Hr. rewrite Hr. unfold read_lines. cbn. by rewrite dec_blank. Qed.
End lines.

(** ** The session log *)

Fixpoint ascending (lo : N) (l : list N) : Prop :=
  match l with [] => True | x :: l => (lo < x)%N ∧ ascending x l end.
Lemma ascending_app lo m l1 l2 : (lo <= m)%N → ascending lo l1 → Forall (λ x, (x <= m)%N) l1 → ascending m l2 → ascending lo (l1 ++ l2).
Proof.
  revert lo. induction l1 as [|x l1 IH]; intros lo Hlo H1 Hle H2; simpl.
  - destruct l2 as [|y l2]; [done|]. simpl in *. split; [lia|apply H2].
  - apply Forall_cons in Hle as [Hx Hle]. destruct H1 as [? H1]. split; [done|]. by apply IH.
Qed.
Lemma ascending_above lo l x : ascending lo l → x ∈ l → (lo < x)%N.
Proof.
  revert lo. induction l as [|y l IH]; intros lo Ha Hx; [by apply not_elem_of_nil in Hx|]. destruct Ha as [Hy Ha].
  apply elem_of_cons in Hx as [->|Hx]; [done|]. specialize (IH _ Ha Hx). lia.
Qed.

(** One call: the clock, how much of its write reaches the file, its inputs. *)
Inductive log_call := CallAppend (now : N) (w : Wrote) (i : EventInput) | CallBatch (now : N) (w : Wrote) (l : list EventInput).
Definition call_size (c : log_call) : N := match c with CallAppend _ _ _ => 1 | CallBatch _ _ l => N.of_nat (length l) end.
(** A write that is all or nothing. *)
Definition untorn (c : log_call) : bool :=
  match c with CallAppend _ w _ | CallBatch _ w _ => match w with WroteAll | WroteOnly 0 => true | WroteOnly _ => false end end.
Definition input_of (e : LogEvent) : EventInput :=
  {| ei_event_type := se_event_type e; ei_session := se_session e; ei_agent := se_agent e; ei_tool := se_tool e; ei_args_hash := se_args_hash e;
     ei_result_meta := se_result_meta e; ei_trace_id := se_trace_id e; ei_span_id := se_span_id e |}.
Definition acked (e : LogEvent) : N * EventInput := (se_seq e, input_of e).
(** The text stops inside a line. *)
Definition torn_tail (b : string) : bool := negb (is_empty (List.last (split NL b) "")).
(** What a run of calls has answered: the numbers with their inputs; those of
    them whose line did not start inside a torn one; and what the failed calls
    would have written. *)
Record Answers := { an_acks : list (N * EventInput); an_kept : list (N * EventInput); an_failed : list (N * EventInput) }.
Definition answer (torn ok : bool) (l : list (N * EventInput)) (a : Answers) : Answers :=
  if ok then {| an_acks := an_acks a ++ l; an_kept := an_kept a ++ (if torn then drop 1 l else l); an_failed := an_failed a |}
  else {| an_acks := an_acks a; an_kept := an_kept a; an_failed := an_failed a ++ l |}.

Section durable.
Context `{LinesLaws LogEvent}.
Definition log_step (st : Answers * SessionLog * Sessions) (c : log_call) : Answers * SessionLog * Sessions :=
  let '(a, log, files) := st in
  let torn := torn_tail (session_body files (sl_id log)) in
  match c with
  | CallAppend now w i =>
      let '(r, log', files) := log_append now w i log files in
      (match r with Ok n => answer torn true [(n, i)] a | Err _ => answer torn false [(se_seq (write_event now i log).1, i)] a end, log', files)
  | CallBatch now w l =>
      let '(r, log', files) := append_batch now w l log files in
      (match r with Ok ns => answer torn true (zip ns l) a | Err _ => answer torn false (acked <$> (write_events now l log).1) a end, log', files)
  end.
Definition log_run (calls : list log_call) (log : SessionLog) (files : Sessions) : Answers * SessionLog * Sessions :=
  foldl log_step ({| an_acks := []; an_kept := []; an_failed := [] |}, log, files) calls.
End durable.

(** What JSON gives besides: an object cut short is no text of one, and
    neither are beginnings of two or more objects one after the other. *)
Definition beginning `{Lines A} (p : string) : Prop := p ≠ "" ∧ ∃ (a : A) q, enc a = p +:+ q.
Class TornLaws (A : Type) `{Lines A} : Prop := {
  dec_short (a : A) p q : enc a = p +:+ q → q ≠ "" → dec (A := A) p = None;
  dec_glued l : Forall (beginning (A := A)) l → (2 <= length l)%nat → dec (A := A) (sconcat l) = None
}.

Section torn.
Context {A : Type} `{LinesLaws A, !TornLaws A}.
(** The text is whole lines that read as [evs], and then the beginnings of
    lines that stopped short. *)
Definition reads_as (b : string) (evs : list A) (pieces : list string) : Prop :=
  ∃ B, b = B +:+ sconcat pieces ∧ whole_lines B ∧ read_lines B = evs ∧ Forall (beginning (A := A)) pieces.
Lemma beginnings_in_line l : Forall (beginning (A := A)) l → has_char NL (sconcat l) = false.
Proof.
  induction 1 as [|p l (_ & a & q & E) _ IH]; [done|]. cbn [sconcat]. rewrite has_char_app, IH, orb_false_r.
  pose proof (enc_line a) as Hl. rewrite E, has_char_app in Hl. by apply orb_false_iff in Hl as [-> _].
Qed.
Lemma split_tail (B x : string) : whole_lines B → has_char NL x = false →
  read_lines (A := A) (B +:+ x) = read_lines B ++ omap dec [x] ∧ List.last (split NL (B +:+ x)) "" = x.
Proof.
  intros HB Hx. unfold read_lines. destruct HB as [->|[y ->]].
  - change ("" +:+ x) with x. rewrite split_no_sep by done. cbn. by rewrite dec_blank.
  - unfold nl at 1 2 3, ch. rewrite app_string_assoc. change (String NL "" +:+ x) with (String NL x).
    rewrite !split_app_sep, !omap_app, (split_no_sep NL x) by done. rewrite List.last_last. split; [|done]. cbn. by rewrite dec_blank, app_nil_r.
Qed.
Lemma reads_torn b evs pieces : reads_as b evs pieces → torn_tail b = match pieces with [] => false | _ => true end.
Proof.
  intros (B & -> & HB & _ & Hp). unfold torn_tail. rewrite (proj2 (split_tail _ _ HB (beginnings_in_line _ Hp))).
  destruct Hp as [|p l [Hne _] _]; [done|]. cbn [sconcat]. by destruct p.
Qed.
(** What is read from such a text: its whole lines and at most one event more,
    the one whose line lacks only its end. *)
Lemma reads_events b evs pieces : reads_as b evs pieces →
  ∃ tail, read_lines b = evs ++ tail ∧ (tail = [] ∨ ∃ a p, tail = [a] ∧ pieces = [p] ∧ p = enc a).
Proof.
  intros (B & -> & HB & <- & Hp). rewrite (proj1 (split_tail _ _ HB (beginnings_in_line _ Hp))). eexists. split; [reflexivity|].
  destruct pieces as [|p [|p' l]]; [left; cbn; by rewrite dec_blank| |left; cbn -[sconcat]; by rewrite dec_glued by (done || simpl; lia)].
  apply Forall_cons in Hp as [(_ & a & q & E) _]. cbn [sconcat]. rewrite app_string_nil_r. destruct (decide (q = "")) as [->|Hq].
  - right. exists a, p. rewrite app_string_nil_r in E. subst p. cbn. by rewrite dec_enc.
  - left. cbn. by rewrite (dec_short a p q).
Qed.
Lemma reads_line b evs pieces a : reads_as b evs pieces → reads_as (b +:+ line_of a) (evs ++ match pieces with [] => [a] | _ => [] end) [].
Proof.
  intros (B & -> & HB & <- & Hp). exists (B +:+ (sconcat pieces +:+ enc a) +:+ nl). unfold line_of.
  split; [cbn [sconcat]; by rewrite app_string_nil_r, !app_string_assoc|]. split; [right; eexists; by rewrite <- app_string_assoc|]. split; [|done].
  assert (Hl : has_char NL (sconcat pieces +:+ enc a) = false) by (by rewrite has_char_app, beginnings_in_line, enc_line).
  assert (Hw : whole_lines (B +:+ ((sconcat pieces +:+ enc a) +:+ nl))) by (right; eexists; by rewrite <- app_string_assoc).
  assert (Hr : read_lines (A := A) (B +:+ ((sconcat pieces +:+ enc a) +:+ nl)) = read_lines (B +:+ (sconcat pieces +:+ enc a))).
  { unfold read_lines. rewrite <- app_string_assoc. unfold nl, ch. rewrite split_app_sep, omap_app. cbn. by rewrite dec_blank, app_nil_r. }
  rewrite Hr, (proj1 (split_tail _ _ HB Hl)). f_equal. destruct pieces as [|p l].
  { cbn [sconcat]. change ("" +:+ enc a) with (enc a). csimpl. by rewrite dec_enc. }
  replace (sconcat (p :: l) +:+ enc a) with (sconcat ((p :: l) ++ [enc a])) by (rewrite sconcat_app; cbn [sconcat]; by rewrite app_string_nil_r).
  cbn -[sconcat]. change (p :: l ++ [enc a]) with ((p :: l) ++ [enc a]). rewrite dec_glued; [done| |rewrite length_app; simpl; lia]. apply Forall_app. split; [done|]. constructor; [|done].
  split; [|exists a, ""; by rewrite app_string_nil_r]. intros E. pose proof (dec_enc a) as Hd. by rewrite E, dec_blank in Hd.
Qed.
Lemma reads_lines l : ∀ b evs pieces, reads_as b evs pieces →
  reads_as (b +:+ sconcat (line_of <$> l)) (evs ++ match pieces with [] => l | _ => drop 1 l end) (match l with [] => pieces | _ => [] end).
Proof.
  induction l as [|a l IH]; intros b evs pieces Hb; csimpl.
  - rewrite app_string_nil_r. by destruct pieces; rewrite app_nil_r.
  - rewrite <- app_string_assoc. pose proof (IH _ _ _ (reads_line b evs pieces a Hb)) as Hl. rewrite <- app_assoc in Hl.
    destruct pieces; cbn [drop app] in *; rewrite ?drop_0 in *; by destruct l.
Qed.
Lemma reads_piece b evs pieces p : reads_as b evs pieces → beginning (A := A) p → reads_as (b +:+ p) evs (pieces ++ [p]).
Proof.
  intros (B & -> & HB & HR & Hp) Hbeg. exists B. split; [rewrite sconcat_app; cbn [sconcat]; by rewrite app_string_nil_r, app_string_assoc|].
  split; [done|]. split; [done|]. apply Forall_app. split; [done|]. by constructor.
Qed.
Lemma substring_cut (s : string) : ∀ n, ∃ q, s = String.substring 0 n s +:+ q.
Proof. induction s as [|c s IH]; intros [|n]; [by exists ""|by exists ""|by eexists|]. destruct (IH n) as [q E]. exists q. cbn [String.substring]. by rewrite app_string_cons, <- E. Qed.
Lemma substring_app (s t : string) : ∀ n, String.substring 0 n (s +:+ t) =
  if (String.length s <=? n)%nat then s +:+ String.substring 0 (n - String.length s) t else String.substring 0 n s.
Proof.
  induction s as [|c s IH]; intros [|n]; [by destruct t|by destruct t|by destruct t|].
  rewrite app_string_cons. cbn [String.substring String.length Nat.leb Nat.sub]. rewrite IH. by case_match.
Qed.
(** What a write brings to the file: whole lines, and a beginning of the next. *)
Lemma write_reaches (l : list A) : ∀ w, ∃ done rest p,
  l = done ++ rest ∧ text_written w (sconcat (line_of <$> l)) = sconcat (line_of <$> done) +:+ p ∧
  (p = "" ∨ p ≠ "" ∧ ∃ a rest' q, rest = a :: rest' ∧ enc a = p +:+ q) ∧ (w = WroteAll → done = l ∧ p = "").
Proof.
  intros [|n]; [exists l, [], ""; cbn; rewrite app_nil_r, app_string_nil_r; auto|]. cbn [text_written]. revert n.
  induction l as [|a l IH]; intros n; [exists [], [], ""; split; [done|]; split; [by destruct n|auto]|]. csimpl. rewrite substring_app.
  destruct (_ <=? n)%nat eqn:E.
  - destruct (IH (n - String.length (line_of a))) as (d & r & p & -> & Hs & Hp & _). exists (a :: d), r, p. rewrite Hs. csimpl. by rewrite app_string_assoc.
  - exists [], (a :: l), (String.substring 0 n (line_of a)). split; [done|]. split; [done|]. split; [|done]. destruct (decide (String.substring 0 n (line_of a) = "")) as [|Hne]; [by left|right].
    split; [done|]. apply Nat.leb_gt in E. unfold line_of in *. rewrite substring_app in *. destruct (_ <=? n)%nat eqn:E'.
    + apply Nat.leb_le in E'. rewrite string_length_app in E. cbn in E. assert (n - String.length (enc a) = 0) as -> by lia.
      exists a, l, "". cbn. by rewrite !app_string_nil_r.
    + destruct (substring_cut (enc a) n) as [q Hq]. by exists a, l, q.
Qed.
End torn.

Lemma ascending_sublist lo l1 l2 : l1 `sublist_of` l2 → ascending lo l2 → ascending lo l1.
Proof.
  intros Hs. revert lo. induction Hs as [|x l1 l2 _ IH|x l1 l2 Hs IH]; intros lo; [done|intros [? ?]; split; auto|].
  intros [Hx Hl]. specialize (IH _ Hl). destruct l1 as [|y l1]; [done|]. destruct IH. split; [lia|done].
Qed.


Section kept.
Context `{LinesLaws LogEvent, !TornLaws LogEvent}.
Lemma write_events_spec now l : ∀ self, (sl_seq self + N.of_nat (length l) <= u64_max)%N →
  let '(evs, self') := write_events now l self in
  sl_id self' = sl_id self ∧ sl_seq self' = (sl_seq self + N.of_nat (length l))%N ∧ input_of <$> evs = l ∧
  ascending (sl_seq self) (se_seq <$> evs) ∧ Forall (λ x, (x <= sl_seq self')%N) (se_seq <$> evs).
Proof.
  induction l as [|i l IH]; intros self Hb; cbn [write_events length].
  { split_and!; [done|lia|done|done|constructor]. }
  cbn [length] in Hb. unfold write_event. rewrite u64_add_small by lia. cbn [fst snd].
  specialize (IH {| sl_id := sl_id self; sl_seq := (sl_seq self + 1)%N |}). cbn [sl_seq sl_id] in IH.
  destruct (write_events _ _ _) as [evs self']. destruct IH as (Hid & Hseq & Hin & Hasc & Hle); [lia|].
  split_and!; [done|lia|csimpl; rewrite Hin; by destruct i|csimpl; split; [lia|done]|csimpl; constructor; [lia|done]].
Qed.
(** What is answered, against the events of the text: [top] is the number of
    the writer, [whole] says that no write was torn. *)
Record ledger (whole : bool) (seq0 : N) (a : Answers) (evs : list LogEvent) (pieces : list string) (top : N) : Prop := {
  lg_kept : an_kept a `sublist_of` (acked <$> evs);
  lg_known e : e ∈ evs → acked e ∈ an_kept a ++ an_failed a;
  lg_seqs : ascending seq0 (se_seq <$> evs);
  lg_below : Forall (λ x, (x <= top)%N) (se_seq <$> evs);
  lg_whole : whole = true → pieces = [] ∧ acked <$> evs = an_acks a;
  lg_last e p : pieces = [p] → p = enc e → acked e ∈ an_failed a ∧ ascending seq0 (se_seq <$> evs ++ [e]) ∧ (se_seq e <= top)%N;
  lg_acks : an_kept a `sublist_of` an_acks a;
  lg_ascending : ascending seq0 (an_acks a).*1;
  lg_acks_below : Forall (λ x, (x <= top)%N) (an_acks a).*1;
  lg_from : (seq0 <= top)%N
}.
Definition after (pieces : list string) {X} (l : list X) : list X := match pieces with [] => l | _ => drop 1 l end.
Definition tornb (pieces : list string) : bool := match pieces with [] => false | _ => true end.
Lemma after_sublist pieces {X} (l : list X) : after pieces l `sublist_of` l.
Proof. destruct pieces; [done|]. apply sublist_drop. Qed.
Lemma ledger_write whole seq0 a evs pieces top new d rest pieces' ok top' :
  ledger whole seq0 a evs pieces top → ascending top (se_seq <$> new) → Forall (λ x, (x <= top')%N) (se_seq <$> new) → (top <= top')%N →
  new = d ++ rest → (ok = true → rest = [] ∧ pieces' = []) → (ok = false → whole = true → d = [] ∧ pieces' = []) →
  (∀ e p, pieces' = [p] → p = enc e → (d = [] ∧ pieces' = pieces) ∨ ∃ rest', rest = e :: rest') →
  ledger whole seq0 (answer (tornb pieces) ok (acked <$> new) a) (evs ++ after pieces d) pieces' top'.
Proof.
  intros [Hk Hkn Hseq Hbel Hwh Hlast Hac Hasc Habel Hfr] Hnew Hnbel Htop Hd Hok Hno Hp.
  assert (Hsub : after pieces d `sublist_of` new) by (rewrite Hd; etransitivity; [apply after_sublist|by apply sublist_inserts_r]).
  assert (Hup : ∀ l : list N, Forall (λ x, (x <= top)%N) l → Forall (λ x, (x <= top')%N) l) by (intros l Hl; eapply Forall_impl; [exact Hl|]; simpl; lia).
  assert (Hgrow : ∀ l, l `sublist_of` new → ascending seq0 (se_seq <$> evs ++ l)).
  { intros l Hl. rewrite fmap_app. eapply ascending_app; [exact Hfr|done|done|]. eapply ascending_sublist; [by apply fmap_sublist|done]. }
  assert (Hle : ∀ l, l `sublist_of` new → Forall (λ x, (x <= top')%N) (se_seq <$> l)).
  { intros l Hl. apply Forall_forall. intros x Hx. rewrite Forall_forall in Hnbel. apply Hnbel. eapply elem_of_sublist; [exact Hx|by apply fmap_sublist]. }
  assert (Hmem : ∀ e, e ∈ after pieces d → e ∈ new) by (intros e He; by eapply elem_of_sublist).
  assert (Hacked : ascending top (acked <$> new).*1) by (by rewrite <- list_fmap_compose).
  destruct ok; cbn [answer] in *.
  - destruct (Hok eq_refl) as [-> ->]. rewrite app_nil_r in Hd. subst d.
    assert (Hd : (if tornb pieces then drop 1 (acked <$> new) else acked <$> new) = acked <$> after pieces new) by (destruct pieces; cbn; by rewrite ?fmap_drop).
    split; cbn [an_acks an_kept an_failed]; [| |by apply Hgrow|rewrite fmap_app; apply Forall_app; auto| |done| | | |lia].
    + rewrite Hd, fmap_app. by apply sublist_app.
    + rewrite Hd. intros e [[He|He]%Hkn%elem_of_app|He]%elem_of_app; rewrite !elem_of_app; [by do 2 left|by right|left; right; by apply list_elem_of_fmap_2].
    + intros Hw. destruct (Hwh Hw) as [-> Hw2]. by rewrite fmap_app, Hw2.
    + rewrite Hd. apply sublist_app; [done|]. by apply fmap_sublist, after_sublist.
    + rewrite fmap_app. eapply ascending_app; [exact Hfr|done|done|done].
    + rewrite fmap_app. apply Forall_app. split; [auto|]. by rewrite <- list_fmap_compose.
  - split; cbn [an_acks an_kept an_failed]; [| |by apply Hgrow|rewrite fmap_app; apply Forall_app; auto| | |done|done|auto|lia].
    + rewrite fmap_app. by apply sublist_inserts_r.
    + intros e [[He|He]%Hkn%elem_of_app|He%Hmem]%elem_of_app; rewrite !elem_of_app; [by left|by right; left|do 2 right; by apply list_elem_of_fmap_2].
    + intros Hw. destruct (Hno eq_refl Hw) as [-> ->]. destruct (Hwh Hw) as [-> Hw2]. by rewrite app_nil_r.
    + intros e p E He. destruct (Hp e p E He) as [[-> ->]|[rest' Hr]].
      * assert (after pieces ([] : list LogEvent) = []) as -> by (by destruct pieces). rewrite app_nil_r.
        destruct (Hlast e p E He) as (? & ? & ?). split_and!; [apply elem_of_app; by left|done|lia].
      * rewrite Hd, Hr in *. assert (He' : e ∈ d ++ e :: rest') by (apply elem_of_app; right; by left).
        split_and!; [apply elem_of_app; right; by apply list_elem_of_fmap_2| |].
        { rewrite <- app_assoc. apply Hgrow. apply sublist_app; [apply after_sublist|]. by apply sublist_skip, sublist_nil_l. }
        { rewrite Forall_forall in Hnbel. by apply Hnbel, list_elem_of_fmap_2. }
Qed.
(** What a run from [files0] keeps. *)
Record kept (whole : bool) (id : string) (files0 : Sessions) (seq0 : N) (a : Answers) (log : SessionLog) (files : Sessions) : Prop := {
  kp_id : sl_id log = id;
  kp_other id' : id' ≠ id → files !! id' = files0 !! id';
  kp_text : ∃ evs pieces, reads_as (session_body files id) (log_events files0 id ++ evs) pieces ∧ ledger whole seq0 a evs pieces (sl_seq log)
}.
Lemma answer_nil torn ok a : answer torn ok [] a = a.
Proof. destruct a, torn, ok; cbn; by rewrite ?app_nil_r. Qed.
#[local] Arguments answer : simpl never.
Lemma text_empty (d : list LogEvent) p : sconcat (line_of <$> d) +:+ p = "" → d = [] ∧ p = "".
Proof. destruct d as [|e d]; [done|]. csimpl. unfold line_of, nl, ch. rewrite !app_string_assoc. by destruct (enc e). Qed.
Lemma batch_step whole id files0 seq0 a log files now w l : kept whole id files0 seq0 a log files →
  (sl_seq log + N.of_nat (length l) <= u64_max)%N → (whole = true → w = WroteAll ∨ w = WroteOnly 0) →
  let '(r, log', files') := append_batch now w l log files in
  kept whole id files0 seq0 (answer (torn_tail (session_body files (sl_id log))) (wrote_ok w) (acked <$> (write_events now l log).1) a) log' files' ∧
  sl_seq log' = (sl_seq log + N.of_nat (length l))%N.
Proof.
  intros [Hid Hother (evs & pieces & Hread & Hled)] Hb Hw. unfold append_batch.
  pose proof (write_events_spec now l log Hb) as Hev. destruct (write_events now l log) as [new log']. destruct Hev as (Hid' & Hseq & Hin & Hasc & Hle). cbn [fst].
  rewrite Hid, (reads_torn _ _ _ Hread). fold (tornb pieces). destruct new as [|e new']; [split; [|done]|].
  { csimpl. rewrite answer_nil. destruct l; [|done]. cbn in Hseq. rewrite N.add_0_r in Hseq. split; [congruence|done|]. rewrite Hseq. eauto. }
  set (new := e :: new') in *. rewrite Hid', Hid. split; [|done].
  destruct (write_reaches new w) as (d & rest & p & Hnew & Htext & Hp & Hall).
  assert (Hbody : ∀ t, session_body (put_text files id t) id = session_body files id +:+ t) by (intros t; unfold session_body, put_text; by rewrite lookup_insert_eq).
  split; [congruence|intros id' Hne; unfold put_text; rewrite lookup_insert_ne by done; auto|].
  exists (evs ++ after pieces d), ((match d with [] => pieces | _ => [] end) ++ (if decide (p = "") then [] else [p])). split.
  - rewrite Hbody, Htext, <- app_string_assoc, app_assoc. pose proof (reads_lines d _ _ _ Hread) as Hl. fold (after pieces d) in Hl.
    destruct Hp as [->|(Hne & x & rest' & q & -> & Hq)]; [by rewrite app_string_nil_r, decide_True, app_nil_r|]. rewrite decide_False by done. apply reads_piece; [done|]. split; eauto.
  - eapply (ledger_write _ _ _ _ _ _ new d rest); [done|done|done|lia|done| | |].
    + intros Ho. destruct w; [|done]. destruct (Hall eq_refl) as [-> ->]. rewrite decide_True by done. split; [|done].
      rewrite <- (app_nil_r new) in Hnew at 1. by apply app_inv_head in Hnew.
    + intros Ho HW. destruct (Hw HW) as [->| ->]; [done|]. cbn [text_written] in Htext.
      assert (Hz : sconcat (line_of <$> d) +:+ p = "") by (rewrite <- Htext; by destruct (sconcat _)). apply text_empty in Hz as [-> ->].
      rewrite decide_True by done. by destruct (lg_whole _ _ _ _ _ _ Hled HW) as [-> _].
    + intros x y E ->. destruct Hp as [->|(Hne & z & rest' & q & -> & Hq)]; [rewrite decide_True, app_nil_r in E by done; destruct d; [left; by rewrite decide_True, app_nil_r by done|done]|].
      rewrite decide_False in E by done. right. exists rest'. f_equal. assert (Hpx : p = enc x) by (destruct d as [|e0 d]; [destruct pieces as [|s0 [|s1 ps]]|]; cbn in E; congruence). subst p.
      destruct (decide (q = "")) as [->|Hq'].
      * rewrite app_string_nil_r in Hq. pose proof (dec_enc z) as Hz. rewrite Hq, dec_enc in Hz. congruence.
      * pose proof (dec_short z (enc x) q Hq Hq') as Hs. by rewrite dec_enc in Hs.
Qed.
Lemma append_is_batch now w i self files :
  log_append now w i self files =
  let '(r, self, files) := append_batch now w [i] self files in
  (match r with Ok (n :: _) => Ok n | Ok [] => Err SlIo | Err e => Err e end, self, files).
Proof. unfold log_append, append_batch. cbn [write_events]. destruct (write_event now i self) as [ev s]. csimpl. rewrite app_string_nil_r. by destruct (wrote_ok w). Qed.
Lemma zip_acked (evs : list LogEvent) : zip (se_seq <$> evs) (input_of <$> evs) = acked <$> evs.
Proof. induction evs as [|e evs IH]; [done|]. csimpl. by rewrite IH. Qed.
Lemma log_step_kept whole id files0 seq0 a log files c : kept whole id files0 seq0 a log files →
  (sl_seq log + call_size c <= u64_max)%N → (whole = true → untorn c = true) →
  let '(a', log', files') := log_step (a, log, files) c in kept whole id files0 seq0 a' log' files' ∧ sl_seq log' = (sl_seq log + call_size c)%N.
Proof.
  intros Hk Hb Hw. assert (Hcall : ∀ w, (whole = true → (match w with WroteAll | WroteOnly 0 => true | WroteOnly _ => false end) = true) → whole = true → w = WroteAll ∨ w = WroteOnly 0).
  { intros [|[|n]] Hn HW; auto. by specialize (Hn HW). }
  destruct c as [now w i|now w l]; cbn [log_step call_size untorn] in *.
  - pose proof (batch_step whole id files0 seq0 a log files now w [i] Hk ltac:(cbn; lia) (Hcall w Hw)) as Hs. revert Hs. rewrite append_is_batch. unfold append_batch. cbn [write_events].
    destruct (write_event now i log) as [ev log'] eqn:E. cbn [fst]. assert (Hi : acked ev = (se_seq ev, i)) by (unfold write_event in E; injection E as <- _; by destruct i).
    destruct w; csimpl; by rewrite Hi.
  - pose proof (batch_step whole id files0 seq0 a log files now w l Hk Hb (Hcall w Hw)) as Hs. revert Hs. unfold append_batch.
    pose proof (write_events_spec now l log Hb) as Hev. destruct (write_events now l log) as [new log']. destruct Hev as (_ & _ & <- & _). cbn [fst].
    destruct new as [|e new']; [csimpl; by rewrite !answer_nil|]. destruct w; cbn [wrote_ok]; [by rewrite zip_acked|done].
Qed.
Lemma log_run_kept whole calls : ∀ id files0 seq0 a log files, kept whole id files0 seq0 a log files →
  (sl_seq log + foldr N.add 0 (call_size <$> calls) <= u64_max)%N → (whole = true → forallb untorn calls = true) →
  let '(a, log, files) := foldl log_step (a, log, files) calls in kept whole id files0 seq0 a log files.
Proof.
  induction calls as [|c calls IH]; intros id files0 seq0 a log files Hk Hb Hw; [done|]. csimpl in Hb. cbn [foldl].
  assert (Hw' : whole = true → untorn c = true ∧ forallb untorn calls = true) by (intros HW; by apply andb_true_iff, Hw).
  pose proof (log_step_kept whole id files0 seq0 a log files c Hk ltac:(lia) ltac:(by apply Hw')) as Hs.
  destruct (log_step (a, log, files) c) as [[a' log'] files']. destruct Hs as [Hk' Hseq]. apply IH; [done|lia|by apply Hw'].
Qed.
(** What is read at the end. *)
Lemma kept_events whole id files0 seq0 a log files : kept whole id files0 seq0 a log files →
  ∃ evs, log_events files id = log_events files0 id ++ evs ∧ an_kept a `sublist_of` (acked <$> evs) ∧
    (∀ e, e ∈ evs → acked e ∈ an_kept a ++ an_failed a) ∧ ascending seq0 (se_seq <$> evs) ∧ Forall (λ x, (x <= sl_seq log)%N) (se_seq <$> evs) ∧
    (whole = true → acked <$> evs = an_acks a).
Proof.
  intros [_ _ (evs & pieces & Hread & [Hk Hkn Hs Hbel Hwh Hlast _ _ _ _])]. unfold log_events at 1.
  destruct (reads_events _ _ _ Hread) as (tail & -> & [->|(e & p & -> & Hp & He)]); rewrite <- app_assoc.
  - exists evs. rewrite app_nil_r. split_and!; try done. intros HW. by apply Hwh.
  - destruct (Hlast e p Hp He) as (Hf & Ha & Ht). exists (evs ++ [e]). split_and!; [done|rewrite fmap_app; by apply sublist_inserts_r| |done| |].
    + intros x [Hx| ->%list_elem_of_singleton]%elem_of_app; [auto|]. apply elem_of_app. by right.
    + rewrite fmap_app. apply Forall_app. split; [done|]. by constructor.
    + intros HW. destruct (Hwh HW) as [-> _]. done.
Qed.
End kept.

(** ** Repair *)

Definition starts_of (l : list LogEvent) : list (string * string) := call_key <$> List.filter (is_type ToolStarted) l.
Definition completions_of (l : list LogEvent) : list (string * string) := call_key <$> List.filter (is_type ToolCompleted) l.
(** Every event of the log, with what comes before it. *)
Definition each_after (P : list LogEvent → LogEvent → Prop) (l : list LogEvent) : Prop := ∀ l1 c l2, l = l1 ++ c :: l2 → P l1 c.
Lemma each_after_nil P : each_after P [].
Proof. by intros [|? ?] c l2. Qed.
Lemma each_after_cons P e l : each_after P (e :: l) ↔ P [] e ∧ each_after (λ l1, P (e :: l1)) l.
Proof.
  split.
  - intros H. split; [by apply (H [] e l)|]. intros l1 c l2 ->. by apply (H (e :: l1) c l2).
  - intros [H1 H2] [|x l1] c l2 [= <- ->]; [done|]. by eapply H2.
Qed.
Lemma each_after_iff (P Q : list LogEvent → LogEvent → Prop) l : (∀ l1 c l2, l = l1 ++ c :: l2 → P l1 c ↔ Q l1 c) → each_after P l ↔ each_after Q l.
Proof. intros H. split; intros HP l1 c l2 E; apply (H l1 c l2 E); by eapply HP. Qed.

Lemma pairing_ok starts : ∀ comps, pairing_phase comps starts = [] ↔ NoDup (call_key <$> starts) ∧ ∀ k, k ∈ call_key <$> starts → k ∈ comps.
Proof.
  induction starts as [|s starts IH]; intros comps; csimpl; [split; [split; [constructor|by intros k ?%not_elem_of_nil]|done]|].
  rewrite NoDup_cons. case_bool_decide as Hs.
  - rewrite IH. split.
    + intros [Hnd Hsub]. split; [split; [|done]|].
      * intros Hin. specialize (Hsub _ Hin). set_solver.
      * intros k [->|Hk]%elem_of_cons; [done|]. specialize (Hsub _ Hk). set_solver.
    + intros [[Hn Hnd] Hsub]. split; [done|]. intros k Hk. assert (k ≠ call_key s) by (by intros ->).
      assert (k ∈ comps) by (apply Hsub; by right). set_solver.
  - split; [done|]. intros [_ Hsub]. destruct Hs. apply Hsub. by left.
Qed.
Definition plan_before (saw : bool) (l1 : list LogEvent) (c : LogEvent) : Prop :=
  se_event_type c = CheckpointCommitted → saw = true ∨ ∃ p, p ∈ l1 ∧ se_event_type p = PlanCreated.
Definition start_before (active : gset (string * string)) (l1 : list LogEvent) (c : LogEvent) : Prop :=
  se_event_type c = ToolCompleted → call_key c ∈ active ∨ call_key c ∈ starts_of l1.
Lemma plan_shift saw e l : each_after (λ l1, plan_before saw (e :: l1)) l ↔ each_after (plan_before (saw || is_type PlanCreated e)) l.
Proof.
  apply each_after_iff. intros l1 c l2 _. unfold plan_before, is_type. setoid_rewrite elem_of_cons. rewrite orb_true_iff, bool_decide_eq_true. naive_solver.
Qed.
Lemma start_shift active e l : each_after (λ l1, start_before active (e :: l1)) l ↔
  each_after (start_before (if is_type ToolStarted e then {[call_key e]} ∪ active else active)) l.
Proof.
  apply each_after_iff. intros l1 c l2 _. unfold start_before, starts_of. simpl. destruct (is_type ToolStarted e); csimpl; [|done].
  rewrite elem_of_cons, elem_of_union, elem_of_singleton. tauto.
Qed.
Lemma started_cons e l : starts_of (e :: l) = if is_type ToolStarted e then call_key e :: starts_of l else starts_of l.
Proof. unfold starts_of. simpl. by destruct (is_type ToolStarted e). Qed.
Lemma completed_cons e l : completions_of (e :: l) = if is_type ToolCompleted e then call_key e :: completions_of l else completions_of l.
Proof. unfold completions_of. simpl. by destruct (is_type ToolCompleted e). Qed.
Lemma completed_split k l : k ∈ completions_of l → ∃ l1 c l2, l = l1 ++ c :: l2 ∧ se_event_type c = ToolCompleted ∧ call_key c = k.
Proof.
  unfold completions_of. intros (c & -> & Hc)%list_elem_of_fmap. apply list_elem_of_In, List.filter_In in Hc as [Hc Ht].
  apply list_elem_of_In, list_elem_of_split in Hc as (l1 & l2 & ->). exists l1, c, l2. by apply bool_decide_eq_true in Ht.
Qed.
Lemma ordering_ok l : ∀ saw active, NoDup (starts_of l) → (∀ k, k ∈ active → k ∉ starts_of l) →
  ordering_phase saw active l = [] ↔ each_after (plan_before saw) l ∧ each_after (start_before active) l ∧ NoDup (completions_of l).
Proof.
  induction l as [|e l IH]; intros saw active Hnd Hdis.
  { split; [intros _|done]. split_and!; [apply each_after_nil..|constructor]. }
  rewrite !each_after_cons, plan_shift, start_shift, completed_cons. rewrite started_cons in Hnd, Hdis. unfold is_type in *.
  assert (Hp : plan_before saw [] e ↔ (se_event_type e = CheckpointCommitted → saw = true)).
  { unfold plan_before. setoid_rewrite elem_of_nil. naive_solver. }
  assert (Hs : start_before active [] e ↔ (se_event_type e = ToolCompleted → call_key e ∈ active)).
  { unfold start_before, starts_of. simpl. rewrite elem_of_nil. tauto. }
  rewrite Hp, Hs. cbn [ordering_phase]. destruct (se_event_type e) eqn:E; repeat case_bool_decide; try done; rewrite ?orb_false_r, ?orb_true_r;
    try (rewrite IH by done; naive_solver).
  - apply NoDup_cons in Hnd as [Hn Hnd]. rewrite IH; [naive_solver|done|]. intros k [->%elem_of_singleton|Hk]%elem_of_union; [done|]. intros Hin. apply (Hdis k Hk). by right.
  - rewrite IH; [|done|by intros k [Hk _]%elem_of_difference; apply Hdis]. split.
    + intros (Hpl & Hst & Hc). split_and!; [done|done|done| |].
      * intros l1 c l2 El Hty. destruct (Hst l1 c l2 El Hty) as [[Ha _]%elem_of_difference|Ha]; [by left|by right].
      * apply NoDup_cons. split; [|done]. intros (l1 & c & l2 & -> & Hty & Hk)%completed_split. destruct (Hst l1 c l2 eq_refl Hty) as [[_ Ha]%elem_of_difference|Ha]; [by destruct Ha; apply elem_of_singleton|].
        apply (Hdis (call_key e)); [done|]. rewrite <- Hk. unfold starts_of. rewrite List.filter_app, fmap_app. apply elem_of_app. by left.
    + intros ([_ Hpl] & [_ Hst] & [Hn Hc]%NoDup_cons). split_and!; [done| |done]. intros l1 c l2 -> Hty.
      destruct (Hst l1 c l2 eq_refl Hty) as [Ha|Ha]; [|by right]. left. apply elem_of_difference. split; [done|]. intros Hk%elem_of_singleton.
      apply Hn. rewrite <- Hk. unfold completions_of. rewrite List.filter_app, fmap_app. apply elem_of_app. right. simpl. unfold is_type. rewrite Hty. csimpl. by left.
  - split; [done|]. naive_solver.
  - destruct saw; simpl; [rewrite IH by done; naive_solver|]. split; [done|]. naive_solver.
Qed.
Lemma sequence_ok l : ∀ n, sequence_phase n l = [] ↔ ∀ i e, l !! i = Some e → se_seq e = (n + N.of_nat i)%N.
Proof.
  induction l as [|e l IH]; intros n; simpl; [split; [by intros _ i e ?|done]|].
  destruct (N.eqb_spec (se_seq e) n) as [He|He].
  - rewrite IH. split.
    + intros H [|i] x Hx; simpl in Hx; [injection Hx as <-; lia|]. rewrite (H _ _ Hx). lia.
    + intros H i x Hx. specialize (H (S i) x Hx). lia.
  - split; [done|]. intros H. specialize (H 0%nat e eq_refl). lia.
Qed.
Lemma time_ok l : ∀ last, time_phase last l = [] ↔
  (∀ e, head l = Some e → (last <= se_ts_ms e)%N) ∧ ∀ i a b, l !! i = Some a → l !! S i = Some b → (se_ts_ms a <= se_ts_ms b)%N.
Proof.
  induction l as [|e l IH]; intros last; simpl; [split; [split; [done|by intros i a b ?]|done]|].
  destruct (N.ltb_spec (se_ts_ms e) last) as [Hlt|Hge]; [split; [done|intros [H _]; specialize (H e eq_refl); lia]|].
  rewrite IH. split.
  - intros [Hh Hl]. split; [by intros x [= <-]|]. intros [|i] a b Ha Hb; simpl in *; [|by eapply Hl].
    injection Ha as <-. apply Hh. by destruct l.
  - intros [_ Hl]. split; [|intros i a b Ha Hb; by apply (Hl (S i))]. intros x Hx. apply (Hl 0%nat e x); [done|]. by destruct l.
Qed.
Lemma one_value {A} (f : A → string) (l : list A) :
  (1 <? size (list_to_set (f <$> l) : gset string))%nat = false ↔ ∀ x y, x ∈ l → y ∈ l → f x = f y.
Proof.
  set (X := list_to_set (f <$> l) : gset string). assert (HX : ∀ k, k ∈ X ↔ ∃ x, x ∈ l ∧ f x = k).
  { intros k. unfold X. rewrite elem_of_list_to_set, list_elem_of_fmap. naive_solver. }
  rewrite Nat.ltb_ge. split.
  - intros Hs x y Hx Hy. assert (Hfx : f x ∈ X) by (apply HX; by exists x). assert (Hfy : f y ∈ X) by (apply HX; by exists y).
    apply (size_singleton_inv X); [|done|done]. assert (size X ≠ 0) by (intros ?%size_empty_inv; set_solver). lia.
  - intros H. destruct (decide (X = ∅)) as [->|Hne]; [rewrite size_empty; lia|]. apply set_choose_L in Hne as [k Hk].
    assert (X = {[k]}) as ->; [|by rewrite size_singleton]. apply set_eq. intros k'. rewrite elem_of_singleton. split; [|by intros ->].
    intros (x & Hx & <-)%HX. apply HX in Hk as (y & Hy & <-). by apply H.
Qed.
Lemma guarded_nil {A} (b : bool) (x : A) : (if b then [x] else []) = [] ↔ b = false.
Proof. by destruct b. Qed.

(** What is in order of a log, its tool calls apart. *)
Record in_order (l : list LogEvent) : Prop := {
  io_numbers i e : l !! i = Some e → se_seq e = (N.of_nat i + 1)%N;
  io_planned_first : each_after (λ l1 c, se_event_type c = CheckpointCommitted → ∃ p, p ∈ l1 ∧ se_event_type p = PlanCreated) l;
  io_identity x y : x ∈ l → y ∈ l → se_session x = se_session y ∧ se_agent x = se_agent y;
  io_time i a b : l !! i = Some a → l !! S i = Some b → (se_ts_ms a <= se_ts_ms b)%N;
  io_ends e : last l = Some e → se_event_type e = CheckpointCommitted ∨ se_event_type e = ModelTurnCompleted
}.
(** The log as the comments of [validate_session] describe a healthy one:
    besides, every [ToolStarted] has a [ToolCompleted] with the same tool and
    arguments later in the log, and a [ToolCompleted] finds such a start that
    has not been completed before. *)
Record log_healthy (l : list LogEvent) : Prop := {
  lh_in_order : in_order l;
  lh_completed l1 s l2 : l = l1 ++ s :: l2 → se_event_type s = ToolStarted → call_key s ∈ completions_of l2;
  lh_active l1 c l2 : l = l1 ++ c :: l2 → se_event_type c = ToolCompleted →
    ∃ m1 s m2, l1 = m1 ++ s :: m2 ∧ se_event_type s = ToolStarted ∧ call_key s = call_key c ∧ call_key c ∉ completions_of m2
}.
(** What the pairing and ordering phases count. *)
Record calls_paired (l : list LogEvent) : Prop := {
  cp_started_once : NoDup (starts_of l);
  cp_completed_once : NoDup (completions_of l);
  cp_all_complete : starts_of l ⊆ completions_of l;
  cp_started_first : each_after (λ l1 c, se_event_type c = ToolCompleted → call_key c ∈ starts_of l1) l
}.
Lemma starts_app l1 l2 : starts_of (l1 ++ l2) = starts_of l1 ++ starts_of l2.
Proof. unfold starts_of. by rewrite List.filter_app, fmap_app. Qed.
Lemma completions_app l1 l2 : completions_of (l1 ++ l2) = completions_of l1 ++ completions_of l2.
Proof. unfold completions_of. by rewrite List.filter_app, fmap_app. Qed.
Lemma start_key s : se_event_type s = ToolStarted → call_key s ∈ starts_of [s].
Proof. intros Hs. unfold starts_of, is_type. simpl. rewrite Hs. by left. Qed.
Lemma completion_key c : se_event_type c = ToolCompleted → call_key c ∈ completions_of [c].
Proof. intros Hc. unfold completions_of, is_type. simpl. rewrite Hc. by left. Qed.
Lemma started_split k l : k ∈ starts_of l → ∃ l1 s l2, l = l1 ++ s :: l2 ∧ se_event_type s = ToolStarted ∧ call_key s = k.
Proof.
  unfold starts_of. intros (s & -> & Hs)%list_elem_of_fmap. apply list_elem_of_In, List.filter_In in Hs as [Hs Ht].
  apply list_elem_of_In, list_elem_of_split in Hs as (l1 & l2 & ->). exists l1, s, l2. by apply bool_decide_eq_true in Ht.
Qed.
(** With every call started once, the two descriptions agree. *)
Lemma paired_healthy l : in_order l → calls_paired l ↔ log_healthy l ∧ NoDup (starts_of l).
Proof.
  intros Ho. split.
  - intros [Hst Hc Hall Hfirst]. split; [|done]. split; [done| |].
    + intros l1 s l2 -> Hs. pose proof (start_key s Hs) as Hk. rewrite cons_middle, !starts_app, !completions_app in *.
      assert (Hin : call_key s ∈ completions_of l1 ++ completions_of [s] ++ completions_of l2) by (apply Hall; rewrite !elem_of_app; auto).
      rewrite !elem_of_app in Hin. destruct Hin as [Hin|[Hin|Hin]]; [|unfold completions_of, is_type in Hin; simpl in Hin; rewrite Hs in Hin; by apply not_elem_of_nil in Hin|done].
      apply completed_split in Hin as (m1 & c & m2 & -> & Hct & Hkc). pose proof (Hfirst m1 c (m2 ++ [s] ++ l2) ltac:(by rewrite <- !app_assoc) Hct) as Hm. rewrite Hkc in Hm.
      apply NoDup_app in Hst as (_ & Hn & _). destruct (Hn (call_key s)); [rewrite starts_app; apply elem_of_app; by left|apply elem_of_app; by left].
    + intros l1 c l2 -> Hct. pose proof (Hfirst l1 c l2 eq_refl Hct) as Hin. apply started_split in Hin as (m1 & s & m2 & -> & Hs & Hk). exists m1, s, m2. split_and!; try done.
      intros Hin. rewrite cons_middle, !completions_app in Hc. pose proof (completion_key c Hct).
      apply NoDup_app in Hc as (_ & Hn & _). destruct (Hn (call_key c)); [|apply elem_of_app; by left].
      change (s :: m2) with ([s] ++ m2). rewrite ?completions_app, !elem_of_app. auto.
  - intros [[_ Hcomp Hact] Hst]. assert (Hfirst : each_after (λ l1 c, se_event_type c = ToolCompleted → call_key c ∈ starts_of l1) l).
    { intros l1 c l2 E Hct. destruct (Hact l1 c l2 E Hct) as (m1 & s & m2 & -> & Hs & Hk & _). rewrite cons_middle, !starts_app, !elem_of_app, <- Hk. pose proof (start_key s Hs). auto. }
    split; [done| | |done].
    + assert (Hpre : ∀ l1 l2, l = l1 ++ l2 → NoDup (completions_of l1)); [|by apply (Hpre l []); rewrite app_nil_r].
      intros l1. induction l1 as [|c l1 IH] using rev_ind; intros l2 E; [constructor|]. rewrite <- app_assoc in E. rewrite completions_app.
      destruct (decide (se_event_type c = ToolCompleted)) as [Hct|Hct].
      2:{ assert (completions_of [c] = []) as -> by (unfold completions_of, is_type; simpl; by rewrite bool_decide_false). rewrite app_nil_r. by eapply IH. }
      apply NoDup_app. split; [by eapply IH|]. split; [|unfold completions_of, is_type; simpl; rewrite Hct; apply NoDup_singleton].
      intros k Hin Hk. assert (k = call_key c) as -> by (unfold completions_of, is_type in Hk; simpl in Hk; rewrite Hct in Hk; by apply list_elem_of_singleton in Hk).
      destruct (Hact l1 c l2 E Hct) as (m1 & s & m2 & -> & Hs & Hks & Hn). rewrite cons_middle, !completions_app, !elem_of_app in Hin.
      assert (Hin1 : call_key c ∈ completions_of m1).
      { destruct Hin as [?|[Hin|?]]; [done| |done]. unfold completions_of, is_type in Hin. simpl in Hin. rewrite Hs in Hin. by apply not_elem_of_nil in Hin. }
      apply completed_split in Hin1 as (n1 & c' & n2 & -> & Hct' & Hkc').
      assert (Hb : call_key c ∈ starts_of n1) by (rewrite <- Hkc'; eapply (Hfirst n1 c'); [rewrite E, <- !app_assoc; reflexivity|done]).
      rewrite E, cons_middle, !starts_app in Hst. rewrite <- !app_assoc in Hst. apply NoDup_app in Hst as (_ & Hd & _). apply (Hd _ Hb).
      rewrite !elem_of_app, <- Hks. pose proof (start_key s Hs). auto.
    + intros k (l1 & s & l2 & -> & Hs & <-)%started_split. rewrite cons_middle, !completions_app, !elem_of_app. right. right. by eapply Hcomp.
Qed.
Lemma phases_pass l : rp_findings (validate_session l) = [] ↔ in_order l ∧ calls_paired l.
Proof.
  unfold validate_session, with_findings. cbn [rp_findings]. unfold identity_phase.
  rewrite !app_nil, guarded_nil, sequence_ok, pairing_ok, !guarded_nil, !one_value, time_ok. fold (starts_of l) (completions_of l).
  setoid_rewrite elem_of_list_to_set. split.
  - intros (_ & Hseq & (Hst & Hall) & Hord & (Hses & Hag) & (_ & Htime) & Hend).
    apply ordering_ok in Hord as (Hplan & Hstart & Hcomp); [|done|set_solver]. split; [split; try done|split; try done].
    + intros i e He. rewrite (Hseq i e He). lia.
    + intros l1 c l2 E Hc. by destruct (Hplan l1 c l2 E Hc) as [|].
    + intros x y Hx Hy. by rewrite (Hses x y Hx Hy), (Hag x y Hx Hy).
    + intros e He. unfold termination_phase in Hend. rewrite He in Hend. unfold is_terminal_event, is_type in Hend. by repeat case_bool_decide; auto.
    + intros l1 c l2 E Hc. by destruct (Hstart l1 c l2 E Hc) as [?%not_elem_of_empty|].
  - intros [[Hseq Hplan Hid Htime Hend] [Hst Hcomp Hall Hstart]]. split_and!; try done.
    + apply not_true_iff_false. intros (e & He & Hn)%List.existsb_exists. apply list_elem_of_In, list_elem_of_lookup in He as [i Hi].
      unfold nil_event in Hn. rewrite !andb_true_iff, N.eqb_eq in Hn. specialize (Hseq i e Hi). lia.
    + intros i e He. rewrite (Hseq i e He). lia.
    + apply ordering_ok; [done|set_solver|]. split_and!; [intros l1 c l2 E Hc; right; by eapply Hplan|intros l1 c l2 E Hc; right; by eapply Hstart|done].
    + intros x y Hx Hy. by apply Hid.
    + intros x y Hx Hy. by apply Hid.
    + intros e _. lia.
    + unfold termination_phase. destruct (last l) as [e|] eqn:El; [|done]. unfold is_terminal_event, is_type.
      destruct (Hend e eq_refl) as [->| ->]; by rewrite ?orb_true_r.
Qed.
(** Only the pairing phase reports what leads to the advice to replay. *)
Lemma pairing_only (l : list LogEvent) : existsb (in_phase PhToolPairing) (rp_findings (validate_session l)) = true ↔ ¬ (NoDup (starts_of l) ∧ starts_of l ⊆ completions_of l).
Proof.
  unfold validate_session, with_findings. cbn [rp_findings]. rewrite !existsb_app.
  assert (Hall : ∀ L, Forall (λ f, rf_phase f ≠ PhToolPairing) L → existsb (in_phase PhToolPairing) L = false).
  { induction 1 as [|f L Hf _ IH]; [done|]. cbn [existsb]. rewrite IH, orb_false_r. by apply bool_decide_eq_false. }
  assert (Hseq : ∀ L n, Forall (λ f, rf_phase f ≠ PhToolPairing) (sequence_phase n L)) by (induction L as [|e L IH]; intros n; cbn; [done|]; case_match; [auto|by repeat constructor]).
  assert (Hord : ∀ L saw act, Forall (λ f, rf_phase f ≠ PhToolPairing) (ordering_phase saw act L)).
  { induction L as [|e L IH]; intros saw act; cbn [ordering_phase]; [done|]. repeat (case_match || case_bool_decide); cbn [app]; auto; by constructor. }
  assert (Htime : ∀ L n, Forall (λ f, rf_phase f ≠ PhToolPairing) (time_phase n L)) by (induction L as [|e L IH]; intros n; cbn; [done|]; case_match; [by repeat constructor|auto]).
  assert (Hid : Forall (λ f, rf_phase f ≠ PhToolPairing) (identity_phase l)) by (unfold identity_phase; apply Forall_app; split; case_match; by repeat constructor).
  assert (Hend : Forall (λ f, rf_phase f ≠ PhToolPairing) (termination_phase l)) by (unfold termination_phase; repeat case_match; by repeat constructor).
  rewrite (Hall _ (Hseq _ _)), (Hall _ (Hord _ _ _)), (Hall _ (Htime _ _)), (Hall _ Hid), (Hall _ Hend), !orb_false_r.
  rewrite (Hall (if existsb _ _ then _ else _)) by (case_match; by repeat constructor). cbn [orb].
  pose proof (pairing_ok (List.filter (is_type ToolStarted) l) (list_to_set (call_key <$> List.filter (is_type ToolCompleted) l))) as Hp.
  fold (starts_of l) (completions_of l) in Hp. setoid_rewrite elem_of_list_to_set in Hp. fold (starts_of l ⊆ completions_of l) in Hp.
  assert (Hfind : ∀ S C, existsb (in_phase PhToolPairing) (pairing_phase C S) = true ↔ pairing_phase C S ≠ []).
  { induction S as [|s S IH]; intros C; cbn; [done|]. by case_bool_decide; [apply IH|]. }
  by rewrite Hfind, Hp.
Qed.

(** [C20] The seven phases accept exactly the healthy logs in which no call (its
    tool and arguments) is started twice: healthy is numbered from one without
    a gap, every started call completed later, every completion that of a
    start still open, no checkpoint before a plan, one session and one agent,
    times that do not go back, and an end that is a checkpoint or a finished
    turn; only for those logs the advice is to resume; and the advice is to
    replay exactly if a started call has no completion or is started twice,
    completed each time or not. *)
Theorem repair_accepts_exactly_healthy_logs (l : list LogEvent) :
  (rp_healthy (validate_session l) = true ↔ log_healthy l ∧ NoDup (starts_of l)) ∧
  (rp_recommendation (validate_session l) = RaResume ↔ log_healthy l ∧ NoDup (starts_of l)) ∧
  (rp_recommendation (validate_session l) = RaReplayIdempotent ↔ ¬ (NoDup (starts_of l) ∧ starts_of l ⊆ completions_of l)).
Proof.
  assert (Hh : rp_healthy (validate_session l) = true ↔ rp_findings (validate_session l) = []).
  { unfold validate_session, with_findings. cbn [rp_healthy rp_findings]. by case_match. }
  assert (Hr : rp_recommendation (validate_session l) = RaResume ↔ rp_findings (validate_session l) = []).
  { unfold validate_session, with_findings. cbn [rp_recommendation rp_findings]. set (f := _ ++ _). destruct f; [done|]. by repeat case_match. }
  assert (Ha : rp_recommendation (validate_session l) = RaReplayIdempotent ↔ existsb (in_phase PhToolPairing) (rp_findings (validate_session l)) = true).
  { unfold validate_session, with_findings. cbn [rp_recommendation rp_findings]. set (f := _ ++ _). destruct f; [done|]. by repeat case_match. }
  assert (Hp : in_order l ∧ calls_paired l ↔ log_healthy l ∧ NoDup (starts_of l)).
  { split; [intros [Ho Hc]; by apply paired_healthy|]. intros [H1 H2]. pose proof (lh_in_order _ H1). split; [done|]. by apply paired_healthy. }
  by rewrite Hh, Hr, Ha, pairing_only, phases_pass, Hp.
Qed.

(** ** The log *)

Lemma seq_below (l : list LogEvent) e : e ∈ l → (se_seq e <= foldr N.max 0 (se_seq <$> l))%N.
Proof. induction l as [|x l IH]; [by intros ?%not_elem_of_nil|]. csimpl. intros [->|He]%elem_of_cons; [lia|]. specialize (IH He). lia. Qed.


(** ** Compaction *)

Definition same_envelope (a b : AuditRow) : Prop :=
  ae_seq b = ae_seq a ∧ ae_ts_ms b = ae_ts_ms a ∧ ae_kind b = ae_kind a ∧ ae_trace_id b = ae_trace_id a ∧ ae_span_id b = ae_span_id a.
Section compaction.
Context `{LinesLaws AuditRow} {sha : Sha256}.
(** What becomes of one row. *)
Definition compacted_row (cutoff : N) (a b : AuditRow) : Prop :=
  same_envelope a b ∧ ((cutoff <= ae_ts_ms a)%N → b = a) ∧
  ((ae_ts_ms a < cutoff)%N → ∃ line, dec line = Some a ∧ p_bool "rolled_up" (ae_payload b) = Some true ∧
    p_str "payload_sha256" (ae_payload b) = Some (sha256_hex line)).
Lemma compact_lines_spec cutoff l : Forall (λ s, has_char NL s = false) l →
  let '(out, (kept, roll, bad)) := compact_lines cutoff l in
  ∃ rows, read_lines (sconcat out) = rows ∧ Forall2 (compacted_row cutoff) (omap dec l) rows ∧
    (kept + roll)%N = N.of_nat (length rows) ∧
    bad = N.of_nat (length (List.filter (λ s, negb (is_empty s) && match dec (A := AuditRow) s with None => true | Some _ => false end) l)).
Proof.
  induction 1 as [|s l Hs Hl IH]; cbn [compact_lines]; [exists []; split_and!; [unfold read_lines; cbn; by rewrite dec_blank|constructor|done|done]|].
  destruct (compact_lines cutoff l) as [out [[kept roll] bad]]. destruct IH as (rows & Hread & Hrows & Hn & Hbad). cbn [List.filter].
  assert (Hcons : ∀ t out, has_char NL t = false → read_lines (A := AuditRow) (sconcat ((t +:+ nl) :: out)) = omap dec [t] ++ read_lines (sconcat out)).
  { intros t o Ht. cbn [sconcat]. unfold read_lines, nl, ch. rewrite app_string_assoc.
    change (String NL "" +:+ sconcat o) with (String NL (sconcat o)). by rewrite split_app_sep, split_no_sep, omap_app. }
  destruct (is_empty s) eqn:Hem.
  { assert (s = "") as -> by (by destruct s). exists rows. csimpl. rewrite dec_blank. by split_and!. }
  csimpl. destruct (dec s) as [ev|] eqn:Hd; cbn [negb andb length].
  2:{ exists rows. split_and!; [done|done|done|lia]. }
  destruct (N.leb_spec cutoff (ae_ts_ms ev)) as [Hle|Hlt].
  - exists (ev :: rows). rewrite Hcons by done. csimpl. rewrite Hd, Hread. split_and!; [done| |simpl; lia|done].
    constructor; [|done]. split; [by split_and!|]. split; [done|lia].
  - exists (rolled s ev :: rows). unfold line_of. rewrite Hcons by apply enc_line. csimpl. rewrite dec_enc, Hread. split_and!; [done| |simpl; lia|done].
    constructor; [|done]. split; [by split_and!|]. split; [lia|]. intros _. exists s. split_and!; [done|reflexivity|reflexivity].
Qed.
End compaction.

(** [C22] Compaction keeps every event of the audit log: after one header row
    each row of the log follows in its order with its number, time, kind and
    trace, whole if it is younger than the cutoff and otherwise with the digest
    of its line; the report counts the rows kept and the lines that did not
    parse; and a writer that opens the file resumes at the same number. *)
Theorem compaction_keeps_every_event `{LinesLaws AuditRow} {sha : Sha256} (now days : N) (body : string) :
  let '(file, report) := compact now days (Some body) in
  ∃ text header rows, file = Some text ∧ read_lines text = header :: rows ∧ ae_kind header = "log.rollup" ∧
    Forall2 (compacted_row (cr_cutoff_ms report)) (read_lines body) rows ∧
    (cr_kept_full report + cr_rolled_up report)%N = N.of_nat (length rows) ∧
    cr_dropped_malformed report = N.of_nat (length (List.filter (λ s, negb (is_empty s) && match dec (A := AuditRow) s with None => true | Some _ => false end) (split NL body))) ∧
    last_seq text = last_seq body.
Proof.
  unfold compact. set (cutoff := (now - _)%N). pose proof (compact_lines_spec cutoff (split NL body) (split_char_free NL body)) as Hc.
  destruct (compact_lines cutoff (split NL body)) as [out [[kept roll] bad]]. destruct Hc as (rows & Hread & Hrows & Hn & Hbad).
  set (header := {| ae_seq := 0 |}).
  assert (Ht : read_lines (line_of header +:+ sconcat out) = header :: rows).
  { unfold read_lines, line_of, nl, ch in *. rewrite app_string_assoc. change (String NL "" +:+ sconcat out) with (String NL (sconcat out)).
    rewrite split_app_sep, split_no_sep, omap_app by apply enc_line. rewrite Hread. csimpl. by rewrite dec_enc. }
  exists (line_of header +:+ sconcat out), header, rows. split_and!; try done. unfold last_seq. rewrite Ht. fold (read_lines (A := AuditRow) body) in Hrows.
  clear -Hrows. destruct Hrows as [|a b l rows Hab Hrows]; [done|]. rewrite last_cons_cons. revert a b Hab.
  induction Hrows as [|a' b' l rows Hab' Hrows IH]; intros a b Hab; [simpl; by destruct Hab as [[-> _] _]|]. rewrite !last_cons_cons. by apply IH.
Qed.

(** ** Concrete codecs *)

#[local] Instance log_event_eq_dec : EqDecision LogEvent.
Proof. solve_decision. Defined.
#[local] Instance event_type_countable : Countable SessionEventType.
Proof.
  apply (inj_countable' (λ t, match t with UserMessageAdded => 0 | PlanCreated => 1 | TaskStarted => 2 | ToolProposed => 3 | PermissionGranted => 4
      | ToolStarted => 5 | ToolCompleted => 6 | ArtifactWritten => 7 | ModelTurnCompleted => 8 | CheckpointCommitted => 9 | ContextInjection => 10 end)
    (λ n, match n with 0 => UserMessageAdded | 1 => PlanCreated | 2 => TaskStarted | 3 => ToolProposed | 4 => PermissionGranted
      | 5 => ToolStarted | 6 => ToolCompleted | 7 => ArtifactWritten | 8 => ModelTurnCompleted | 9 => CheckpointCommitted | _ => ContextInjection end)).
  by intros [].
Defined.
#[local] Instance log_event_countable : Countable LogEvent.
Proof.
  apply (inj_countable' (λ e, (se_seq e, se_ts_ms e, se_session e, se_agent e, se_tool e, se_args_hash e, se_result_meta e, se_trace_id e, se_span_id e, se_event_type e))
    (λ '(a, b, c, d, e, f, g, h, i, j), Build_LogEvent a b c d e f g h i j)). by intros [].
Defined.
#[local] Instance audit_row_eq_dec : EqDecision AuditRow.
Proof. solve_decision. Defined.
#[local] Instance audit_row_countable : Countable AuditRow.
Proof.
  apply (inj_countable' (λ e, (ae_seq e, ae_ts_ms e, ae_kind e, ae_payload e, ae_trace_id e, ae_span_id e))
    (λ '(a, b, c, d, e, f), Build_AuditRow a b c d e f)). by intros [].
Defined.
(** One line per value: a brace, and then a number in binary up to a full stop. *)
Definition brace : string := "{".
#[local] Instance bit_lines {A} `{Countable A} : Lines A := {|
  enc a := brace +:+ enumerate a;
  dec s := match s with
    | String c s => if Ascii.eqb c "{" then a ← from_enumeration s; if String.eqb (enumerate a) s then Some a else None else None
    | EmptyString => None
    end
|}.
Lemma dec_bits {A} `{Countable A} (s : string) (a : A) : dec s = Some a → s = enc a.
Proof.
  cbn. destruct s as [|c s]; [done|]. destruct (Ascii.eqb_spec c "{") as [->|]; [|done]. destruct (from_enumeration s) as [x|]; [|done]. cbn.
  destruct (String.eqb_spec (enumerate x) s) as [<-|]; [|done]. by intros [= ->].
Qed.
#[local] Instance bit_lines_laws {A} `{Countable A} : LinesLaws A.
Proof.
  split; [|intros a; cbn; apply pos_str_line|done]. intros a.
  change (dec (enc a)) with (x ← from_enumeration (A := A) (enumerate a); if String.eqb (enumerate x) (enumerate a) then Some x else None).
  rewrite from_enumerate. cbn [mbind option_bind]. by rewrite String.eqb_refl.
Qed.
Lemma pos_str_prefix m : ∀ n q, pos_str n = pos_str m +:+ q → q = "".
Proof. induction m as [m IH|m IH|]; intros [n|n|] q E; cbn [pos_str] in E; rewrite app_string_cons in E; injection E; eauto; done. Qed.
Lemma pos_str_open p : has_char "{" (pos_str p) = false.
Proof. by induction p. Qed.
Lemma beginning_brace {A} `{Countable A} p : beginning (A := A) p → ∃ x, p = brace +:+ x.
Proof. intros (Hne & a & q & E). destruct p as [|c p]; [done|]. cbn in E. injection E as <- _. by exists p. Qed.
#[local] Instance bit_torn_laws {A} `{Countable A} : TornLaws A.
Proof.
  split.
  - intros a p q E Hq. destruct (dec p) as [x|] eqn:Hd; [|done]. apply dec_bits in Hd as ->. cbn in E. injection E as E. by apply pos_str_prefix in E.
  - intros [|p1 [|p2 l]] Hl Hlen; cbn [length] in Hlen; [lia|lia|]. apply Forall_cons in Hl as [H1 [H2 _]%Forall_cons].
    apply beginning_brace in H1 as [x ->]. apply beginning_brace in H2 as [y ->]. destruct (dec _) as [a|] eqn:Hd; [|done]. apply dec_bits in Hd.
    change (sconcat ((brace +:+ x) :: (brace +:+ y) :: l)) with (String "{" (x +:+ String "{" (y +:+ sconcat l))) in Hd.
    change (enc a) with (String "{" (enumerate a)) in Hd. injection Hd as Hd. pose proof (pos_str_open (countable.encode a)) as Ho.
    unfold enumerate in Hd. rewrite <- Hd, has_char_app in Ho. by apply orb_false_iff in Ho as [_ ?].
Qed.

Definition demo_input (t : SessionEventType) (tool hash : string) : EventInput :=
  {| ei_event_type := t; ei_session := "s"; ei_agent := "a"; ei_tool := tool; ei_args_hash := hash; ei_result_meta := JNull; ei_trace_id := ""; ei_span_id := "" |}.
Definition demo_row (seq ts : N) : AuditRow :=
  {| ae_seq := seq; ae_ts_ms := ts; ae_kind := "tool"; ae_payload := JString "x"; ae_trace_id := ""; ae_span_id := "" |}.
Lemma compaction_keeps_every_event_witness :
  let body := sconcat (line_of <$> [demo_row 1 10; demo_row 2 86400010]) in
  ∃ text rows, (@compact bit_lines plain_digest 86400011 1 (Some body)).1 = Some text ∧ length rows = 2%nat ∧ last_seq text = 2%N ∧
    Forall2 (@compacted_row bit_lines plain_digest 11) (read_lines body) rows.
Proof.
  intros body. assert (Hbody : read_lines body = [demo_row 1 10; demo_row 2 86400010]) by apply read_fresh.
  pose proof (@compaction_keeps_every_event bit_lines bit_lines_laws plain_digest 86400011 1 body) as Hc.
  assert (Hcut : cr_cutoff_ms (@compact bit_lines plain_digest 86400011 1 (Some body)).2 = 11%N).
  { unfold compact. destruct (compact_lines _ _) as [? [[? ?] ?]]. reflexivity. }
  destruct (compact _ _ _) as [file report]. cbn [fst snd] in *. destruct Hc as (text & header & rows & Hf & _ & _ & Hrows & _ & _ & Hlast).
  rewrite Hcut in Hrows. exists text, rows. split; [exact Hf|]. split; [apply Forall2_length in Hrows; by rewrite Hbody in Hrows|]. split; [|exact Hrows].
  rewrite Hlast. unfold last_seq. by rewrite Hbody.
Defined.

(** ** Where the comments and the code part *)

Definition demo_event (seq : N) (t : SessionEventType) (tool hash : string) : LogEvent :=
  {| se_seq := seq; se_ts_ms := seq; se_session := "s"; se_agent := "a"; se_tool := tool; se_args_hash := hash; se_result_meta := JNull;
     se_trace_id := ""; se_span_id := ""; se_event_type := t |}.
(** A log with the same finished call twice is reported as broken. *)
Example repeated_call_is_unhealthy :
  rp_findings (validate_session [demo_event 1 ToolStarted "search" "h"; demo_event 2 ToolCompleted "search" "h";
    demo_event 3 ToolStarted "search" "h"; demo_event 4 ToolCompleted "search" "h"; demo_event 5 ModelTurnCompleted "" ""]) = [finding PhToolPairing 3].
Proof. by vm_compute. Qed.
(** One completion counts for two starts of the same call. *)
Example one_completion_covers_two_starts :
  tool_starts_without_completion [demo_event 1 ToolStarted "file.write" "h"; demo_event 2 ToolStarted "file.write" "h"; demo_event 3 ToolCompleted "file.write" "h"] = [].
Proof. by vm_compute. Qed.
(** A keyed call that was executed is run again. *)
Example executed_key_is_rerun :
  rd_action <$> recovery_plan [demo_event 1 ToolStarted "payment.charge" "k"] {["k" := JNull]} = [Rerun].
Proof. by vm_compute. Qed.
(** A tool of the class that asks after uncertainty is not confirmed. *)
Example uncertain_tool_needs_no_confirmation :
  (λ i, (su_classification i, su_needs_confirmation i)) <$> started_unknown_repair [demo_event 1 ToolStarted "git.push" "h"] {[("git.push", "h")]} = [(StartedUnknown, false)]
  ∧ classify_tool "git.push" = ConfirmAfterUncertain.
Proof. by vm_compute. Qed.
(** A fork at the second turn leaves the first one behind. *)
Example fork_drops_the_earlier_turns :
  (fork_walk 2 0 [demo_event 1 UserMessageAdded "" ""; demo_event 2 ModelTurnCompleted "" ""; demo_event 3 UserMessageAdded "" ""; demo_event 4 ModelTurnCompleted "" ""]) =
  ([demo_event 3 UserMessageAdded "" ""; demo_event 4 ModelTurnCompleted "" ""], 4%N).
Proof. by vm_compute. Qed.
(** After a write that stopped short the next acknowledged event is lost. *)
Example torn_line_swallows_the_next_event :
  let '(_, log, files) := log_append 1 (WroteOnly 3) (demo_input PlanCreated "" "") {| sl_id := "s"; sl_seq := 0 |} ∅ in
  let '(r, _, files) := log_append 2 WroteAll (demo_input PlanCreated "" "") log files in
  r = Ok 2%N ∧ log_events files "s" = [].
Proof. by vm_compute. Qed.
(** Rolling up a row twice replaces the digest of its payload by the digest of
    the rolled-up line. *)
Example second_roll_up_loses_the_digest :
  let row := demo_row 1 10 in
  let once := @rolled plain_digest (enc row) row in
  let twice := @rolled plain_digest (enc once) once in
  p_str "payload_sha256" (ae_payload once) = Some (@sha256_hex plain_digest (enc row)) ∧
  p_str "payload_sha256" (ae_payload twice) = Some (@sha256_hex plain_digest (enc once)) ∧ enc once ≠ enc row.
Proof. split; [reflexivity|]. split; [reflexivity|]. intros E. assert (Hd : @dec AuditRow _ (enc (demo_row 1 10)) = dec (enc (@rolled plain_digest (enc (demo_row 1 10)) (demo_row 1 10)))) by (by rewrite E).
  rewrite !dec_enc in Hd. by injection Hd. Qed.
