(* ===== verification/Replay.v ===== *)
(** * Session replays ([everyaios-audit/src/replay.rs])

    One file of lines per document, two tables of an index, and one file per
    screenshot. The tables are finite maps with the effect of the SQL statements
    written out; a call says what the disk and the transaction answered.

    What it guarantees: the index counts each batch once, whatever is sent again
    and whatever fails, and the events of a document are the accepted batches in
    order, numbered from one, as long as no failing call leaves lines in the
    file. *)
From S2P Require Import Order Prelude Paths Json AuditLog AuditLogFacts.

(* SRC audit/src/replay.rs @struct:ReplayEvent ReplayEvent *)
Record ReplayEvent := { re_seq : N; re_ts_ms : N; re_kind : string; re_tab_id : string; re_document_id : string; re_data : Value }.
(* SRC audit/src/replay.rs @struct:IngestReceipt IngestReceipt *)
Record IngestReceipt := { ir_batch_id : string; ir_document_id : string; ir_accepted : N; ir_dropped : N; ir_duplicate : bool; ir_has_gap : bool }.
(* SRC audit/src/replay.rs @struct:Segment Segment *)
Record Segment := {
  sg_document_id : string; sg_tab_id : string; sg_first_ts_ms : N; sg_last_ts_ms : N; sg_event_count : N; sg_size_bytes : N;
  sg_has_gap : bool; sg_created_ms : N
}.
(* SRC audit/src/replay.rs @struct:SweepStats SweepStats *)
Record SweepStats := { ss_documents_removed : N; ss_replay_files_removed : N; ss_screenshot_files_removed : N; ss_bytes_freed : N }.
(* SRC audit/src/replay.rs @enum:ReplayError ReplayError *)
Inductive ReplayError := ReIo | ReSqlite | ReInvalidDocumentId (id : string) | ReInvalidBatchId.

(** [replay_segments] by its key, [replay_batches] by its key (batch, document)
    with the range of numbers, the replay files by document, and the
    screenshots by file name. *)
(* SRC audit/src/replay.rs @struct:ReplayStore ReplayStore *)
Record ReplayStore := {
  rs_segments : gmap string Segment;
  rs_batches : gmap (string * string) (N * N);
  rs_files : gmap string string;
  rs_screenshots : gmap string string
}.
Definition replay_store_empty : ReplayStore := {| rs_segments := ∅; rs_batches := ∅; rs_files := ∅; rs_screenshots := ∅ |}.

(** What the environment answers to one ingest: the lines may be written in
    part, a statement or the commit of the transaction may fail. *)
Inductive IngestEnv := EnvOk | EnvTxFails | EnvWriteFails (n : nat) | EnvCommitFails.

(** [u8::is_ascii_alphanumeric]. *)
Definition document_char (c : ascii) : bool :=
  let n := N_of_ascii c in
  (((48 <=? n) && (n <=? 57)) || ((65 <=? n) && (n <=? 90)) || ((97 <=? n) && (n <=? 122)) || (n =? 45) || (n =? 95) || (n =? 46))%N.
(* SRC audit/src/replay.rs @fn:validate_document_id validate_document_id *)
Definition validate_document_id (id : string) : result unit ReplayError :=
  if is_empty id || (64 <? String.length id)%nat then Err (ReInvalidDocumentId id)
  else if negb (forallb document_char (String.list_ascii_of_string id)) then Err (ReInvalidDocumentId id)
  else Ok tt.

Section replay.
Context {lines : Lines ReplayEvent}.
Definition replay_body (s : ReplayStore) (document_id : string) : string := default "" (rs_files s !! document_id).
(* SRC audit/src/replay.rs @fn:read_document ReplayStore::read_document *)
Definition read_document (s : ReplayStore) (document_id : string) : list ReplayEvent := read_lines (replay_body s document_id).
(* SRC audit/src/replay.rs @fn:events_since ReplayStore::events_since *)
Definition events_since (s : ReplayStore) (document_id : string) (since_seq : N) : list ReplayEvent :=
  List.filter (λ e, (since_seq <? re_seq e)%N) (read_document s document_id).

(** The events with their numbers in the stream and the ids of the call. *)
Fixpoint numbered (tab_id document_id : string) (start : N) (events : list ReplayEvent) : list ReplayEvent :=
  match events with
  | [] => []
  | e :: events =>
      {| re_seq := (start + 1)%N; re_ts_ms := re_ts_ms e; re_kind := re_kind e; re_tab_id := tab_id; re_document_id := document_id; re_data := re_data e |}
      :: numbered tab_id document_id (start + 1) events
  end.
(** [INSERT ... ON CONFLICT(document_id) DO UPDATE] of the segment. *)
Definition upsert_segment (seg : Segment) (m : gmap string Segment) : gmap string Segment :=
  <[sg_document_id seg := match m !! sg_document_id seg with
     | None => seg
     | Some old =>
         {| sg_document_id := sg_document_id seg; sg_tab_id := sg_tab_id seg; sg_first_ts_ms := N.min (sg_first_ts_ms old) (sg_first_ts_ms seg);
            sg_last_ts_ms := N.max (sg_last_ts_ms old) (sg_last_ts_ms seg); sg_event_count := (sg_event_count old + sg_event_count seg)%N;
            sg_size_bytes := sg_size_bytes seg; sg_has_gap := sg_has_gap old || sg_has_gap seg; sg_created_ms := sg_created_ms old |}
     end]> m.
(** [... DO UPDATE SET has_gap = 1]. *)
Definition mark_gap (document_id tab_id : string) (now : N) (m : gmap string Segment) : gmap string Segment :=
  <[document_id := match m !! document_id with
     | None => {| sg_document_id := document_id; sg_tab_id := tab_id; sg_first_ts_ms := now; sg_last_ts_ms := now; sg_event_count := 0; sg_size_bytes := 0;
                  sg_has_gap := true; sg_created_ms := now |}
     | Some old => {| sg_document_id := sg_document_id old; sg_tab_id := sg_tab_id old; sg_first_ts_ms := sg_first_ts_ms old;
                      sg_last_ts_ms := sg_last_ts_ms old; sg_event_count := sg_event_count old; sg_size_bytes := sg_size_bytes old;
                      sg_has_gap := true; sg_created_ms := sg_created_ms old |}
     end]> m.
Definition set_file (document_id body : string) (s : ReplayStore) : ReplayStore :=
  {| rs_segments := rs_segments s; rs_batches := rs_batches s; rs_files := <[document_id := body]> (rs_files s); rs_screenshots := rs_screenshots s |}.
Definition receipt (batch_id document_id : string) (accepted : N) (duplicate has_gap : bool) : IngestReceipt :=
  {| ir_batch_id := batch_id; ir_document_id := document_id; ir_accepted := accepted; ir_dropped := 0; ir_duplicate := duplicate; ir_has_gap := has_gap |}.
(** The numbers of the index are 64-bit integers that do not run out. *)
(* SRC audit/src/replay.rs @fn:ingest ReplayIngest::ingest *)
Definition ingest (env : IngestEnv) (now : N) (batch_id tab_id document_id : string) (gap : bool) (events : list ReplayEvent) (s : ReplayStore)
    : result IngestReceipt ReplayError * ReplayStore :=
  match validate_document_id document_id with
  | Err e => (Err e, s)
  | Ok _ =>
  if is_empty (trim batch_id) then (Err ReInvalidBatchId, s)
  else
    let existing := rs_segments s !! document_id in
    match rs_batches s !! (batch_id, document_id) with
    | Some _ => (Ok (receipt batch_id document_id 0 true (match existing with Some g => sg_has_gap g | None => false end)), s)
    | None =>
    match events with
    | [] =>
        (Ok (receipt batch_id document_id 0 false gap),
         if gap then {| rs_segments := mark_gap document_id tab_id now (rs_segments s); rs_batches := rs_batches s; rs_files := rs_files s;
                        rs_screenshots := rs_screenshots s |} else s)
    | _ =>
        let start := match existing with Some g => sg_event_count g | None => 0%N end in
        let evs := numbered tab_id document_id start events in
        let first_ts := foldr N.min u64_max (re_ts_ms <$> evs) in
        let last_ts := foldr N.max 0%N (re_ts_ms <$> evs) in
        let first_ts := if (first_ts =? u64_max)%N then now else first_ts in
        let last_ts := if (last_ts =? 0)%N then first_ts else last_ts in
        let before := replay_body s document_id in
        let text := sconcat (line_of <$> evs) in
        let after := before +:+ text in
        match env with
        | EnvWriteFails n => (Err ReIo, set_file document_id (before +:+ String.substring 0 n text) s)
        | EnvTxFails => (Err ReSqlite, set_file document_id before s)
        | EnvCommitFails => (Err ReSqlite, set_file document_id after s)
        | EnvOk =>
            (Ok (receipt batch_id document_id (N.of_nat (length evs)) false gap),
             {| rs_segments := upsert_segment
                  {| sg_document_id := document_id; sg_tab_id := tab_id; sg_first_ts_ms := first_ts; sg_last_ts_ms := last_ts;
                     sg_event_count := N.of_nat (length evs); sg_size_bytes := N.of_nat (String.length after); sg_has_gap := gap; sg_created_ms := now |}
                  (rs_segments s);
                rs_batches := <[(batch_id, document_id) := ((start + 1)%N, (start + N.of_nat (length evs))%N)]> (rs_batches s);
                rs_files := <[document_id := after]> (rs_files s); rs_screenshots := rs_screenshots s |})
        end
    end
    end
  end.
(* SRC audit/src/replay.rs @fn:ingest_ndjson ReplayIngest::ingest_ndjson *)
Definition ingest_ndjson (env : IngestEnv) (now : N) (tab_id document_id batch_id : string) (gap : bool) (body : string) (s : ReplayStore)
    : result IngestReceipt ReplayError * ReplayStore :=
  let texts := List.filter (λ l, negb (is_empty (trim l))) (str_lines body) in
  let events := omap dec texts in
  let dropped := N.of_nat (length (List.filter (λ l, match dec (A := ReplayEvent) l with None => true | Some _ => false end) texts)) in
  let '(r, s) := ingest env now batch_id tab_id document_id (gap || (0 <? dropped)%N) events s in
  (match r with
   | Ok r => Ok {| ir_batch_id := ir_batch_id r; ir_document_id := ir_document_id r; ir_accepted := ir_accepted r; ir_dropped := dropped;
                   ir_duplicate := ir_duplicate r; ir_has_gap := ir_has_gap r |}
   | Err e => Err e
   end, s).
End replay.

(** ** Screenshots and retention *)

(** [{step:06}]. *)
Definition step_text (step : N) : string :=
  let s := pretty step in String.concat "" (replicate (6 - String.length s) "0") +:+ s.
Definition screenshot_name (document_id : string) (step : N) : string := document_id +:+ "-" +:+ step_text step +:+ ".jpg".
(* SRC audit/src/replay.rs @fn:write_screenshot ReplayStore::write_screenshot *)
Definition write_screenshot (document_id : string) (step : N) (jpeg : string) (s : ReplayStore) : ReplayStore :=
  {| rs_segments := rs_segments s; rs_batches := rs_batches s; rs_files := rs_files s;
     rs_screenshots := <[screenshot_name document_id step := jpeg]> (rs_screenshots s) |}.
(* SRC audit/src/replay.rs @fn:screenshot_files ReplayStore::screenshot_files *)
Definition screenshot_files (s : ReplayStore) (document_id : string) : gset string :=
  filter (λ n, starts_with (document_id +:+ "-") n = true) (dom (rs_screenshots s)).
(** One expired segment: its files, its screenshots and its rows go. *)
Definition sweep_one (acc : SweepStats * ReplayStore) (document_id : string) : SweepStats * ReplayStore :=
  let '(st, s) := acc in
  let shots := filter (λ e, e.1 ∈ screenshot_files s document_id) (rs_screenshots s) in
  ({| ss_documents_removed := (ss_documents_removed st + 1)%N;
      ss_replay_files_removed := (ss_replay_files_removed st + match rs_files s !! document_id with Some _ => 1 | None => 0 end)%N;
      ss_screenshot_files_removed := (ss_screenshot_files_removed st + N.of_nat (size shots))%N;
      ss_bytes_freed := (ss_bytes_freed st + N.of_nat (String.length (default "" (rs_files s !! document_id))) +
                         N.of_nat (map_fold (λ _ b n, (String.length b + n)%nat) 0%nat shots))%N |},
   {| rs_segments := delete document_id (rs_segments s); rs_batches := filter (λ e, e.1.2 ≠ document_id) (rs_batches s);
      rs_files := delete document_id (rs_files s); rs_screenshots := filter (λ e, e.1 ∉ screenshot_files s document_id) (rs_screenshots s) |}).
(** The deletions all succeed; rows come in the order of the key. *)
(* SRC audit/src/replay.rs @fn:retention_sweep ReplayStore::retention_sweep *)
Definition retention_sweep (now max_age_ms : N) (s : ReplayStore) : SweepStats * ReplayStore :=
  let cutoff := (now - max_age_ms)%N in
  let expired := sg_document_id <$> List.filter (λ g, (sg_last_ts_ms g <? cutoff)%N) (values (rs_segments s)) in
  foldl sweep_one ({| ss_documents_removed := 0; ss_replay_files_removed := 0; ss_screenshot_files_removed := 0; ss_bytes_freed := 0 |}, s) expired.

(** * What the replay store guarantees *)


Record ingest_call := {
  ic_env : IngestEnv; ic_now : N; ic_batch : string; ic_tab : string; ic_document : string; ic_gap : bool; ic_events : list ReplayEvent
}.
Definition has_events (c : ingest_call) : bool := match ic_events c with [] => false | _ => true end.
Definition call_valid (c : ingest_call) : bool := is_ok (validate_document_id (ic_document c)) && negb (is_empty (trim (ic_batch c))).
Definition env_ok (c : ingest_call) : bool := match ic_env c with EnvOk => true | _ => false end.
(** What a call should do, given the batches seen: a batch of events counts once
    and only if its transaction went through, and a gap without events counts. *)
Definition counts (seen : gset (string * string)) (c : ingest_call) : bool :=
  call_valid c && negb (bool_decide ((ic_batch c, ic_document c) ∈ seen)) && (if has_events c then env_ok c else ic_gap c).
Fixpoint effective (seen : gset (string * string)) (calls : list ingest_call) : list ingest_call :=
  match calls with
  | [] => []
  | c :: calls =>
      if counts seen c then c :: effective (if has_events c then {[(ic_batch c, ic_document c)]} ∪ seen else seen) calls
      else effective seen calls
  end.
Definition of_document (d : string) (calls : list ingest_call) : list ingest_call := List.filter (λ c, String.eqb (ic_document c) d) calls.
Definition stored_events (d : string) (calls : list ingest_call) : list ReplayEvent := concat (ic_events <$> of_document d calls).
Definition recorded (e : ReplayEvent) : N * string * Value := (re_ts_ms e, re_kind e, re_data e).

Lemma numbered_recorded tab d l : ∀ k, recorded <$> numbered tab d k l = recorded <$> l.
Proof. induction l as [|e l IH]; intros k; csimpl; [done|]. by rewrite IH. Qed.
Lemma numbered_seq tab d l : ∀ k, re_seq <$> numbered tab d (N.of_nat k) l = N.of_nat <$> seq (S k) (length l).
Proof.
  induction l as [|e l IH]; intros k; csimpl; [done|]. replace (N.of_nat k + 1)%N with (N.of_nat (S k)) by lia. f_equal. apply IH.
Qed.
Lemma numbered_length tab d l : ∀ k, length (numbered tab d k l) = length l.
Proof. induction l as [|e l IH]; intros k; simpl; [done|]. by rewrite IH. Qed.

Section once.
Context `{LinesLaws ReplayEvent}.
Definition ingest_step (s : ReplayStore) (c : ingest_call) : ReplayStore :=
  (ingest (ic_env c) (ic_now c) (ic_batch c) (ic_tab c) (ic_document c) (ic_gap c) (ic_events c) s).2.
(** The index of the calls [eff] that counted, with their batches [seen]. *)
Record indexed (seen : gset (string * string)) (eff : list ingest_call) (s : ReplayStore) : Prop := {
  ix_batches b d : is_Some (rs_batches s !! (b, d)) ↔ (b, d) ∈ seen;
  ix_segment d : match rs_segments s !! d with
    | Some g => sg_event_count g = N.of_nat (length (stored_events d eff)) ∧ sg_has_gap g = existsb ic_gap (of_document d eff)
    | None => of_document d eff = []
    end
}.
(** The file of a document after the calls [all] of which [eff] counted; what it
    holds depends on how the environment failed. *)
Record filed (untorn clean : bool) (eff all : list ingest_call) (s : ReplayStore) (d : string) : Prop := {
  fd_whole : untorn = true → whole_lines (replay_body s d);
  fd_kept : untorn = true → recorded <$> stored_events d eff `sublist_of` recorded <$> read_document s d;
  fd_known : untorn = true → recorded <$> read_document s d ⊆ recorded <$> stored_events d all;
  fd_exact : clean = true → recorded <$> read_document s d = recorded <$> stored_events d eff ∧
    re_seq <$> read_document s d = N.of_nat <$> seq 1 (length (stored_events d eff))
}.
Lemma of_document_snoc d eff c : of_document d (eff ++ [c]) = of_document d eff ++ if decide (ic_document c = d) then [c] else [].
Proof. unfold of_document. rewrite List.filter_app. simpl. by destruct (String.eqb_spec (ic_document c) d); case_decide. Qed.
Lemma stored_snoc d eff c : stored_events d (eff ++ [c]) = stored_events d eff ++ if decide (ic_document c = d) then ic_events c else [].
Proof. unfold stored_events. rewrite of_document_snoc, fmap_app, concat_app. case_decide; simpl; by rewrite ?app_nil_r. Qed.
Lemma indexed_gap seen eff s c : indexed seen eff s → has_events c = false → ic_gap c = true →
  indexed seen (eff ++ [c]) {| rs_segments := mark_gap (ic_document c) (ic_tab c) (ic_now c) (rs_segments s); rs_batches := rs_batches s;
                               rs_files := rs_files s; rs_screenshots := rs_screenshots s |}.
Proof.
  intros [Hb Hg] Hev Hgap. assert (Hse : ∀ d, stored_events d (eff ++ [c]) = stored_events d eff).
  { intros d. rewrite stored_snoc. unfold has_events in Hev. destruct (ic_events c); [|done]. case_decide; by rewrite app_nil_r. }
  split; [done|]. intros d. cbn [rs_segments]. rewrite Hse, of_document_snoc. unfold mark_gap.
  specialize (Hg d). case_decide as E; [subst d; rewrite lookup_insert_eq|rewrite lookup_insert_ne by done; by rewrite app_nil_r].
  destruct (rs_segments s !! ic_document c) as [g|]; cbn [sg_event_count sg_has_gap]; rewrite existsb_app; simpl; rewrite Hgap.
  - destruct Hg as [Hg _]. split; [done|]. by rewrite orb_true_r.
  - unfold stored_events. rewrite Hg. done.
Qed.
(** A batch of events that was not stored before. *)
Definition fresh (seen : gset (string * string)) (c : ingest_call) : bool :=
  call_valid c && negb (bool_decide ((ic_batch c, ic_document c) ∈ seen)) && has_events c.
Definition numbers_of (eff : list ingest_call) (c : ingest_call) : list ReplayEvent :=
  numbered (ic_tab c) (ic_document c) (N.of_nat (length (stored_events (ic_document c) eff))) (ic_events c).
(** What of its lines reaches the file. *)
Definition reached (env : IngestEnv) (text : string) : string :=
  match env with EnvOk | EnvCommitFails => text | EnvTxFails => "" | EnvWriteFails n => String.substring 0 n text end.
Lemma fresh_call seen eff s c : indexed seen eff s → fresh seen c = true →
  validate_document_id (ic_document c) = Ok tt ∧ is_empty (trim (ic_batch c)) = false ∧ rs_batches s !! (ic_batch c, ic_document c) = None ∧
  (∃ e l, ic_events c = e :: l) ∧
  match rs_segments s !! ic_document c with Some g => sg_event_count g | None => 0%N end = N.of_nat (length (stored_events (ic_document c) eff)).
Proof.
  intros [Hb Hg] Hf. unfold fresh, call_valid, has_events in Hf. apply andb_true_iff in Hf as [[[Hd Ht]%andb_true_iff Hn]%andb_true_iff Hev].
  apply negb_true_iff in Ht, Hn. apply bool_decide_eq_false in Hn. split_and!; [by destruct (validate_document_id _) as [[]|]|done| | |].
  - apply eq_None_not_Some. by rewrite Hb.
  - destruct (ic_events c) as [|e l]; [done|eauto].
  - specialize (Hg (ic_document c)). destruct (rs_segments s !! ic_document c); [apply Hg|]. unfold stored_events. by rewrite Hg.
Qed.
Lemma fresh_body seen eff s c d : indexed seen eff s → fresh seen c = true →
  replay_body (ingest_step s c) d = if decide (ic_document c = d) then replay_body s d +:+ reached (ic_env c) (sconcat (line_of <$> numbers_of eff c)) else replay_body s d.
Proof.
  intros Hs Hf. destruct (fresh_call seen eff s c Hs Hf) as (Hd & Ht & Hb & (e & l & El) & Hst). unfold ingest_step, ingest.
  rewrite Hd, Ht, Hb, El, Hst, <- El. fold (numbers_of eff c). unfold replay_body, reached, set_file.
  destruct (ic_env c); cbn [snd rs_files]; case_decide as E; subst; rewrite ?lookup_insert_eq, ?lookup_insert_ne by done; cbn [default]; by rewrite ?app_string_nil_r.
Qed.
Lemma fresh_index seen eff s c : indexed seen eff s → fresh seen c = true →
  indexed (if env_ok c then {[(ic_batch c, ic_document c)]} ∪ seen else seen) (eff ++ if env_ok c then [c] else []) (ingest_step s c).
Proof.
  intros Hs Hf. destruct (fresh_call seen eff s c Hs Hf) as (Hd & Ht & Hb & (e & l & El) & Hst). destruct Hs as [Hbs Hg]. unfold ingest_step, ingest, env_ok.
  rewrite Hd, Ht, Hb, El, Hst, <- El. fold (numbers_of eff c). destruct (ic_env c); cbn [snd]; try (split; rewrite ?app_nil_r; apply Hbs || apply Hg).
  assert (Hlen : length (numbers_of eff c) = length (ic_events c)) by apply numbered_length. split; cbn [rs_batches rs_segments].
  - intros b d. rewrite elem_of_union, elem_of_singleton. destruct (decide ((b, d) = (ic_batch c, ic_document c))) as [[= -> ->]|Hne].
    + rewrite lookup_insert_eq. split; [by left|by eexists].
    + rewrite lookup_insert_ne by congruence. rewrite Hbs. naive_solver.
  - intros d. unfold upsert_segment. cbn [sg_document_id]. rewrite of_document_snoc, stored_snoc, length_app, existsb_app. specialize (Hg d).
    case_decide as E; [subst d; rewrite lookup_insert_eq|rewrite lookup_insert_ne by done; rewrite ?app_nil_r, Nat.add_0_r; simpl].
    + destruct (rs_segments s !! ic_document c) as [g|]; cbn [sg_event_count sg_has_gap existsb]; rewrite Hlen, ?orb_false_r.
      * destruct Hg as [Hc Hgap]. split; [lia|by rewrite Hgap].
      * unfold stored_events. rewrite Hg. split; [simpl; lia|done].
    + destruct (rs_segments s !! d); [by rewrite orb_false_r|done].
Qed.
Lemma stale_call seen eff s c : indexed seen eff s → fresh seen c = false →
  rs_files (ingest_step s c) = rs_files s ∧ indexed seen (eff ++ if counts seen c then [c] else []) (ingest_step s c) ∧ (counts seen c = true → has_events c = false).
Proof.
  intros Hs Hf. unfold fresh, counts in *. destruct (call_valid c) eqn:Hv; cbn [andb] in *.
  2:{ rewrite app_nil_r. unfold ingest_step, ingest, call_valid in *. destruct (validate_document_id _); [|done]. simpl in Hv. apply negb_false_iff in Hv. by rewrite Hv. }
  unfold ingest_step, ingest. unfold call_valid in Hv. apply andb_true_iff in Hv as [Hd Ht]. destruct (validate_document_id _); [|done].
  apply negb_true_iff in Ht. rewrite Ht. case_bool_decide as Hin; cbn [negb andb] in *.
  { rewrite app_nil_r. apply (ix_batches _ _ _ Hs) in Hin as [x ->]. done. }
  assert (rs_batches s !! (ic_batch c, ic_document c) = None) as ->.
  { apply eq_None_not_Some. by rewrite (ix_batches _ _ _ Hs). }
  rewrite Hf. destruct (ic_events c) eqn:El; [|unfold has_events in Hf; by rewrite El in Hf].
  cbn [snd]. destruct (ic_gap c) eqn:Hg; [|by rewrite app_nil_r]. split; [done|]. split; [by apply indexed_gap|done].
Qed.
Lemma ingest_index seen eff s c : indexed seen eff s →
  indexed (if counts seen c && has_events c then {[(ic_batch c, ic_document c)]} ∪ seen else seen) (eff ++ if counts seen c then [c] else []) (ingest_step s c).
Proof.
  intros Hs. destruct (fresh seen c) eqn:Hf.
  - pose proof (fresh_index seen eff s c Hs Hf) as Hi. unfold fresh, counts in *. apply andb_true_iff in Hf as [Hf Hev]. rewrite Hf, Hev. cbn [andb]. by rewrite andb_true_r.
  - destruct (stale_call seen eff s c Hs Hf) as (_ & Hi & Hev). destruct (counts seen c); [rewrite (Hev eq_refl)|]; done.
Qed.

(** The failures that leave no part of a line, and those that leave nothing. *)
Definition env_untorn (c : ingest_call) : bool := match ic_env c with EnvWriteFails (S _) => false | _ => true end.
Definition env_clean (c : ingest_call) : bool := match ic_env c with EnvOk | EnvTxFails | EnvWriteFails 0 => true | _ => false end.
Lemma filed_same untorn clean eff all s s' d c seen :
  filed untorn clean eff all s d → replay_body s' d = replay_body s d → (ic_document c = d → counts seen c = true → ic_events c = []) →
  filed untorn clean (eff ++ if counts seen c then [c] else []) (all ++ [c]) s' d.
Proof.
  intros [Hw Hk Hkn He] Hb Hc. assert (Hse : stored_events d (eff ++ if counts seen c then [c] else []) = stored_events d eff).
  { destruct (counts seen c); [|by rewrite app_nil_r]. rewrite stored_snoc. case_decide as E; [by rewrite (Hc E eq_refl), app_nil_r|by rewrite app_nil_r]. }
  assert (Hr : read_document s' d = read_document s d) by (unfold read_document; by rewrite Hb).
  split; rewrite ?Hb, ?Hr, ?Hse; try done. intros Hu. etransitivity; [by apply Hkn|]. rewrite stored_snoc, fmap_app. intros x Hx. apply elem_of_app. by left.
Qed.
Lemma filed_lines untorn clean eff all s s' d c seen :
  filed untorn clean eff all s d → ic_document c = d → replay_body s' d = replay_body s d +:+ sconcat (line_of <$> numbers_of eff c) →
  (counts seen c = false → clean = false) → (clean = true → untorn = true) →
  filed untorn clean (eff ++ if counts seen c then [c] else []) (all ++ [c]) s' d.
Proof.
  intros [Hw Hk Hkn He] Hd Hb Hc Hcu. assert (Hrec : recorded <$> numbers_of eff c = recorded <$> ic_events c) by apply numbered_recorded.
  assert (Hr : untorn = true → read_document s' d = read_document s d ++ numbers_of eff c ∧ whole_lines (replay_body s' d)).
  { intros Hu. unfold read_document. rewrite Hb. by apply read_all, Hw. }
  split; [intros Hu; by apply Hr| | |]; intros Hu.
  - destruct (Hr Hu) as [-> _]. rewrite fmap_app, Hrec. destruct (counts seen c); [|rewrite app_nil_r; by apply sublist_inserts_r, Hk].
    rewrite stored_snoc, decide_True by done. rewrite fmap_app. by apply sublist_app; [apply Hk|].
  - destruct (Hr Hu) as [-> _]. rewrite stored_snoc, decide_True by done. rewrite !fmap_app, Hrec. intros x. rewrite !elem_of_app. intros [Hx|Hx]; [left; by apply (Hkn Hu)|by right].
  - destruct (Hr (Hcu Hu)) as [-> _]. destruct (counts seen c); [|by rewrite Hc in Hu]. destruct (He Hu) as [He1 He2].
    rewrite stored_snoc, decide_True, !fmap_app, length_app, seq_app, fmap_app, He1, He2, Hrec by done. split; [done|]. f_equal. rewrite <- Hd. apply numbered_seq.
Qed.
Lemma ingest_files untorn clean seen eff all s c d : indexed seen eff s → filed untorn clean eff all s d →
  (untorn = true → env_untorn c = true) → (clean = true → env_clean c = true) → (clean = true → untorn = true) →
  filed untorn clean (eff ++ if counts seen c then [c] else []) (all ++ [c]) (ingest_step s c) d.
Proof.
  intros Hs Hfd Hu Hcl Hcu. destruct (fresh seen c) eqn:Hf.
  2:{ destruct (stale_call seen eff s c Hs Hf) as (Hfile & _ & Hev). apply filed_same with (s := s); [done|unfold replay_body; by rewrite Hfile|].
      intros _ Hc. specialize (Hev Hc). unfold has_events in Hev. by destruct (ic_events c). }
  pose proof (fresh_body seen eff s c d Hs Hf) as Hb. destruct (decide (ic_document c = d)) as [Hd|Hd]; [|by apply filed_same with (s := s)].
  assert (Hco : counts seen c = env_ok c) by (unfold fresh, counts in *; apply andb_true_iff in Hf as [-> ->]; done).
  unfold env_ok, env_untorn, env_clean in *. destruct (ic_env c) as [| |[|n]|] eqn:Ee; cbn [reached] in Hb.
  - apply filed_lines with (s := s); try done. by rewrite Hco.
  - rewrite app_string_nil_r in Hb. apply filed_same with (s := s); [done|done|]. by rewrite Hco.
  - assert (Hz : ∀ t, String.substring 0 0 t = "") by (by intros []). rewrite Hz, app_string_nil_r in Hb. apply filed_same with (s := s); [done|done|]. by rewrite Hco.
  - split; intros HW; [by specialize (Hu HW)..|by specialize (Hcl HW)].
  - apply filed_lines with (s := s); try done. intros _. destruct clean; [by specialize (Hcl eq_refl)|done].
Qed.
Lemma ingest_run untorn clean d calls : ∀ seen eff all s, indexed seen eff s → filed untorn clean eff all s d →
  (untorn = true → forallb env_untorn calls = true) → (clean = true → forallb env_clean calls = true) → (clean = true → untorn = true) →
  let s' := foldl ingest_step s calls in
  (∃ seen', indexed seen' (eff ++ effective seen calls) s') ∧ filed untorn clean (eff ++ effective seen calls) (all ++ calls) s' d.
Proof.
  induction calls as [|c calls IH]; intros seen eff all s Hs Hf Hu Hc Hcu; cbn [foldl effective]; [rewrite !app_nil_r; eauto|].
  assert (Hu' : untorn = true → env_untorn c = true ∧ forallb env_untorn calls = true) by (intros H1; by apply andb_true_iff, Hu).
  assert (Hc' : clean = true → env_clean c = true ∧ forallb env_clean calls = true) by (intros H1; by apply andb_true_iff, Hc).
  pose proof (ingest_index seen eff s c Hs) as Hs'.
  pose proof (ingest_files untorn clean seen eff all s c d Hs Hf ltac:(by apply Hu') ltac:(by apply Hc') Hcu) as Hf'.
  destruct (IH _ _ _ _ Hs' Hf' ltac:(by apply Hu') ltac:(by apply Hc') Hcu) as [Hi Hfin]. rewrite <- !app_assoc in Hi, Hfin.
  rewrite <- app_assoc in Hfin. cbn [app] in Hfin. destruct (counts seen c); cbn [andb app] in *; [|done]. by destruct (has_events c).
Qed.
Lemma indexed_empty : indexed ∅ [] replay_store_empty.
Proof.
  split; intros; cbn [rs_batches rs_segments replay_store_empty]; rewrite lookup_empty; [|done]. split; [by intros [? ?]|set_solver].
Qed.
Lemma filed_empty untorn clean d : filed untorn clean [] [] replay_store_empty d.
Proof.
  assert (Hb : replay_body replay_store_empty d = "") by (unfold replay_body; cbn [rs_files replay_store_empty]; by rewrite lookup_empty).
  assert (Hr : read_document replay_store_empty d = []) by (unfold read_document, read_lines; rewrite Hb; cbn; by rewrite dec_blank).
  split; rewrite ?Hr; try done. intros _. by left.
Qed.
End once.


(** ** A document of three batches *)

#[local] Instance replay_event_eq_dec : EqDecision ReplayEvent.
Proof. solve_decision. Defined.
#[local] Instance replay_event_countable : Countable ReplayEvent.
Proof.
  apply (inj_countable' (λ e, (re_seq e, re_ts_ms e, re_kind e, re_tab_id e, re_document_id e, re_data e))
    (λ '(a, b, c, d, e, f), Build_ReplayEvent a b c d e f)). by intros [].
Defined.
#[local] Instance replay_lines : Lines ReplayEvent := {| enc := enumerate; dec := from_enumeration |}.
#[local] Instance replay_lines_laws : LinesLaws ReplayEvent.
Proof. split; [apply from_enumerate|intros a; apply pos_str_line|done]. Qed.

Definition demo_replay_event (ts : N) : ReplayEvent :=
  {| re_seq := 0; re_ts_ms := ts; re_kind := "click"; re_tab_id := ""; re_document_id := ""; re_data := JNull |}.
Definition demo_ingest (env : IngestEnv) (batch : string) (gap : bool) (ts : list N) : ingest_call :=
  {| ic_env := env; ic_now := 9; ic_batch := batch; ic_tab := "t"; ic_document := "doc"; ic_gap := gap; ic_events := demo_replay_event <$> ts |}.
Definition demo_ingests : list ingest_call :=
  [demo_ingest EnvOk "b1" false [1; 2]%N; demo_ingest EnvTxFails "b2" true [3]%N; demo_ingest EnvOk "b1" false [1; 2]%N; demo_ingest EnvOk "b2" false [3]%N].

(** ** Where the comments and the code part *)

(** A commit that fails leaves its lines in the file, so the retry writes them
    a second time. *)
Example failed_commit_stores_twice :
  re_seq <$> read_document (foldl ingest_step replay_store_empty [demo_ingest EnvCommitFails "b" false [1]%N; demo_ingest EnvOk "b" false [1]%N]) "doc" = [1; 1]%N.
Proof. by vm_compute. Qed.
(** The gap of a document is sticky in the index, not in the receipts. *)
Example receipt_forgets_the_gap :
  let s := foldl ingest_step replay_store_empty [demo_ingest EnvOk "b1" true [1]%N] in
  (sg_has_gap <$> rs_segments (ingest_step s (demo_ingest EnvOk "b2" false [2]%N)) !! "doc") = Some true ∧
  match (ingest EnvOk 9 "b2" "t" "doc" false [demo_replay_event 2] s).1 with Ok r => ir_has_gap r = false | Err _ => False end.
Proof. by vm_compute. Qed.
(** The sweep of one document deletes the screenshots of another whose id
    begins with it. *)
Example sweep_takes_neighbouring_screenshots :
  let s := write_screenshot "doc-2" 1 "jpeg" (ingest_step replay_store_empty (demo_ingest EnvOk "b" false [1]%N)) in
  dom (rs_screenshots (retention_sweep 100 50 s).2) = ∅ ∧ screenshot_name "doc-2" 1 = "doc-2-000001.jpg".
Proof. by vm_compute. Qed.
