(* ===== verification/Spool.v ===== *)
(** * The tool-output spool ([everyaios-core/src/spool.rs])

    Content-addressed blobs in one directory: writing with retention, the guarded
    resolution of an address, line-addressed slices, and the preview (whose
    redactor is in [Redact]). The directory is a map from addresses to blobs;
    what the disk refuses, its clock and the order of a directory walk are
    arguments. Locking a mutex that is held never returns: such a call has no
    result. *)
From S2P Require Import Order Prelude.
From S2P Require Import Json Paths PathFloor Redact.

(* SRC core/src/spool.rs @const:BLOB_EXTENSION BLOB_EXTENSION *)
Definition BLOB_EXTENSION : string := "blob".
(* SRC core/src/spool.rs @const:TOOL_OUTPUT_SERIALIZE_CAP TOOL_OUTPUT_SERIALIZE_CAP *)
Definition TOOL_OUTPUT_SERIALIZE_CAP : N := 2000.
(* SRC core/src/spool.rs @const:CHARS_PER_TOKEN CHARS_PER_TOKEN *)
Definition CHARS_PER_TOKEN : N := 4.
(* SRC core/src/spool.rs @const:PREVIEW_HEAD_LINES PREVIEW_HEAD_LINES *)
Definition PREVIEW_HEAD_LINES : nat := 20.
(* SRC core/src/spool.rs @const:PREVIEW_TAIL_LINES PREVIEW_TAIL_LINES *)
Definition PREVIEW_TAIL_LINES : nat := 20.
(* SRC core/src/spool.rs @const:PREVIEW_MAX_LINE_CHARS PREVIEW_MAX_LINE_CHARS *)
Definition PREVIEW_MAX_LINE_CHARS : nat := 512.
(* SRC core/src/spool.rs @const:SPOOL_RETENTION_DAYS SPOOL_RETENTION_DAYS *)
Definition SPOOL_RETENTION_DAYS : N := 7.
(* SRC core/src/spool.rs @const:SPOOL_MAX_TOTAL_BYTES SPOOL_MAX_TOTAL_BYTES *)
Definition SPOOL_MAX_TOTAL_BYTES : N := 536870912.
(* SRC core/src/spool.rs @const:SPOOL_PRUNE_INTERVAL_MS SPOOL_PRUNE_INTERVAL_MS *)
Definition SPOOL_PRUNE_INTERVAL_MS : N := 900000.
(* SRC core/src/spool.rs @const:RETRIEVE_MAX_SLICE_BYTES RETRIEVE_MAX_SLICE_BYTES *)
Definition RETRIEVE_MAX_SLICE_BYTES : N := 262144.
(* SRC core/src/spool.rs @const:SPOOL_MAX_BLOB_BYTES SPOOL_MAX_BLOB_BYTES *)
Definition SPOOL_MAX_BLOB_BYTES : N := 67108864.
(* SRC core/src/spool.rs @const:UI_MAX_READ_BYTES UI_MAX_READ_BYTES *)
Definition UI_MAX_READ_BYTES : N := 4194304.

Definition bytes_of (s : string) : N := N.of_nat (String.length s).

(* SRC core/src/spool.rs @fn:estimate_tokens estimate_tokens *)
Definition estimate_tokens (bytes : N) : N := (bytes + (CHARS_PER_TOKEN - 1)) / CHARS_PER_TOKEN.
(* SRC core/src/spool.rs @fn:should_spool should_spool *)
Definition should_spool (bytes : N) : bool := (TOOL_OUTPUT_SERIALIZE_CAP <? estimate_tokens bytes)%N.
(* SRC core/src/spool.rs @fn:content_hash content_hash *)
Definition content_hash {sha : Sha256} (payload : string) : string := sha256_hex payload.
(* SRC core/src/spool.rs @fn:is_valid_hash is_valid_hash *)
Definition is_valid_hash (hash : string) : bool :=
  Nat.eqb (String.length hash) 64 &&
  forallb (λ c, let n := N_of_ascii c in (((48 <=? n) && (n <=? 57)) || ((97 <=? n) && (n <=? 102)))%N)
    (String.list_ascii_of_string hash).
(* SRC core/src/spool.rs @fn:retention_ms retention_ms *)
Definition retention_ms : N := SPOOL_RETENTION_DAYS * 24 * 60 * 60 * 1000.
(* SRC core/src/spool.rs @fn:count_lines count_lines *)
Definition count_lines (payload : string) : N :=
  let newlines := N.of_nat (length (List.filter (λ c, Ascii.eqb c NL) (String.list_ascii_of_string payload))) in
  if is_empty payload then 0
  else match last_byte None payload with
       | Some c => if Ascii.eqb c NL then newlines else (newlines + 1)%N
       | None => 0
       end.

(** ** [String::from_utf8_lossy]

    The length of the valid character at the head of the bytes, or of the
    malformed piece that is replaced by U+FFFD. *)

Definition in_range (lo hi : N) (c : ascii) : bool := ((lo <=? N_of_ascii c) && (N_of_ascii c <=? hi))%N.
Definition continuation (c : ascii) : bool := in_range 128 191 c.
(** The bytes a second byte may be, after the lead byte. *)
Definition second_ok (lead c : ascii) : bool :=
  let n := N_of_ascii lead in
  if (n =? 224)%N then in_range 160 191 c
  else if (n =? 237)%N then in_range 128 159 c
  else if (n =? 240)%N then in_range 144 191 c
  else if (n =? 244)%N then in_range 128 143 c
  else continuation c.
Definition utf8_width (lead : ascii) : nat :=
  if in_range 0 127 lead then 1 else if in_range 194 223 lead then 2
  else if in_range 224 239 lead then 3 else if in_range 240 244 lead then 4 else 0.
(** How many bytes of [s] after the second continue a character of [more] more. *)
Fixpoint continued (more : nat) (s : string) : nat :=
  match more, s with S more, String c s' => if continuation c then S (continued more s') else O | _, _ => O end.
Definition utf8_piece (lead : ascii) (s : string) : bool * nat :=
  match utf8_width lead with
  | O => (false, 1%nat)
  | 1%nat => (true, 1%nat)
  | S (S more) =>
      match s with
      | String c s' =>
          if second_ok lead c then let k := continued more s' in (Nat.eqb k more, S (S k)) else (false, 1%nat)
      | "" => (false, 1%nat)
      end
  end.
Definition REPLACEMENT : string := String.string_of_list_ascii (map ascii_of_N [239; 191; 189]%N).
(** [skip] bytes belong to the piece that was begun: [copy] says if they are kept. *)
Fixpoint lossy_from (skip : nat) (copy : bool) (s : string) : string :=
  match s with
  | "" => ""
  | String c s' =>
      match skip with
      | S skip => if copy then String c (lossy_from skip copy s') else lossy_from skip copy s'
      | O => let '(ok, k) := utf8_piece c s' in
             if ok then String c (lossy_from (pred k) true s') else REPLACEMENT +:+ lossy_from (pred k) false s'
      end
  end.
Definition from_utf8_lossy (s : string) : string := lossy_from 0 true s.

(** ** The preview *)

(** The first [n] characters of UTF-8 text. *)
Fixpoint take_chars (n : nat) (s : string) : string :=
  match s with
  | "" => ""
  | String c s' => if continuation c then String c (take_chars n s')
                   else match n with S n => String c (take_chars n s') | O => "" end
  end.
Definition ELLIPSIS : string := String.string_of_list_ascii (map ascii_of_N [226; 128; 166]%N).
(* SRC core/src/spool.rs @fn:push_capped push_capped *)
Definition push_capped (out line : string) : string :=
  let kept := take_chars PREVIEW_MAX_LINE_CHARS line in
  out +:+ kept +:+ (if String.eqb kept line then "" else ELLIPSIS).
(** Lines joined by line feeds, each capped. *)
Definition push_lines (out : string) (lines : list string) : string :=
  foldl (λ out '(i, line), push_capped (if Nat.eqb i 0 then out else out +:+ nl) line) out (imap pair lines).
(* SRC core/src/spool.rs @fn:preview preview *)
Definition preview (payload : string) : string :=
  let lines := split NL (from_utf8_lossy payload) in
  let total := length lines in
  let head_take := Nat.min PREVIEW_HEAD_LINES total in
  let tail_take := Nat.min PREVIEW_TAIL_LINES (total - head_take) in
  let out := push_lines "" (take head_take lines) in
  let out :=
    if Nat.ltb 0 tail_take then
      let elided := (total - (head_take + tail_take))%nat in
      let out :=
        if Nat.ltb 0 elided
        then out +:+ nl +:+ ELLIPSIS +:+ " " +:+ pretty (N.of_nat elided) +:+ " more line(s) " +:+ ELLIPSIS +:+ nl
        else if Nat.ltb 0 head_take then out +:+ nl else out in
      push_lines out (drop (total - tail_take) lines)
    else if Nat.ltb head_take total
      then out +:+ nl +:+ ELLIPSIS +:+ " " +:+ pretty (N.of_nat (total - head_take)) +:+ " more line(s) " +:+ ELLIPSIS
      else out in
  redact_secrets out.

(** ** The store *)

(* SRC core/src/spool.rs @struct:SpoolRef SpoolRef *)
Record SpoolRef := { sr_hash : string; sr_bytes : N; sr_lines : N; sr_preview : string; sr_created_ms : N; sr_truncated : bool }.
(* SRC core/src/spool.rs @struct:SpoolSlice SpoolSlice *)
Record SpoolSlice := {
  ss_hash : string; ss_offset : N; ss_limit : N; ss_total_lines : N; ss_returned_lines : N; ss_next_offset : N;
  ss_eof : bool; ss_byte_capped : bool; ss_text : string
}.
(* SRC core/src/spool.rs @struct:SpoolText SpoolText *)
Record SpoolText := { st_hash : string; st_bytes : N; st_lines : N; st_truncated : bool; st_text : string }.
(* SRC core/src/spool.rs @enum:SpoolError SpoolError *)
Inductive SpoolError :=
  | SeMalformedHash | SeFloorRefused (verdict : FloorVerdict) | SeNotFound | SeNotAFile | SeIo (action : string)
  | SePayloadTooLarge (bytes cap : N).
(** The figures of [SpoolStats]; its other fields are constants of the policy
    and a rounded quotient. *)
(* SRC core/src/spool.rs @struct:SpoolStats SpoolStats *)
Record SpoolStats := { st_blob_count : N; st_total_bytes : N; st_pruned_blobs : N; st_pruned_bytes : N; st_last_prune_ms : N }.

(** A file of the directory: its bytes and the time it was written. *)
Record Blob := { bl_bytes : string; bl_modified_ms : N }.
(** The owner of the directory, with the directory. [sp_held] says that the
    mutex of [last_prune_ms] is locked. *)
(* SRC core/src/spool.rs @struct:Spool Spool *)
Record Spool := { sp_root : string; sp_blobs : gmap string Blob; sp_last_prune_ms : N; sp_held : bool }.
Definition with_blobs (self : Spool) (m : gmap string Blob) : Spool :=
  {| sp_root := sp_root self; sp_blobs := m; sp_last_prune_ms := sp_last_prune_ms self; sp_held := sp_held self |}.
Definition with_last_prune (self : Spool) (ms : N) : Spool :=
  {| sp_root := sp_root self; sp_blobs := sp_blobs self; sp_last_prune_ms := ms; sp_held := sp_held self |}.
Definition with_held (self : Spool) (held : bool) : Spool :=
  {| sp_root := sp_root self; sp_blobs := sp_blobs self; sp_last_prune_ms := sp_last_prune_ms self; sp_held := held |}.
(** [Mutex::lock] on [last_prune_ms]: no answer when it is held. *)
Definition lock_last (self : Spool) : option Spool := if sp_held self then None else Some (with_held self true).
Definition unlock_last (self : Spool) : Spool := with_held self false.

(* SRC core/src/spool.rs @fn:blob_path Spool::blob_path *)
Definition blob_path (self : Spool) (hash : string) : string := path_join (sp_root self) (hash +:+ "." +:+ BLOB_EXTENSION).

(** ** Retention *)

(** By age, then by address. *)
Definition older (a b : string * Blob) : bool :=
  if (bl_modified_ms a.2 =? bl_modified_ms b.2)%N then str_le a.1 b.1 else (bl_modified_ms a.2 <? bl_modified_ms b.2)%N.
Definition total_bytes (l : list (string * Blob)) : N := foldr (λ e t, (bytes_of (bl_bytes e.2) + t)%N) 0%N l.
Definition remove_all (l : list (string * Blob)) (m : gmap string Blob) : gmap string Blob :=
  foldr (λ e m, delete e.1 m) m l.
(** Removing the oldest until the ceiling holds: the files that are gone, those
    that are kept in the count, and the total. *)
Fixpoint trim_oldest (stuck : string → bool) (alive : list (string * Blob)) (total : N)
    : list (string * Blob) * list (string * Blob) * N :=
  match alive with
  | [] => ([], [], total)
  | e :: rest =>
      if (SPOOL_MAX_TOTAL_BYTES <? total)%N then
        if stuck e.1 then trim_oldest stuck rest total
        else let '(gone, kept, t) := trim_oldest stuck rest (total - bytes_of (bl_bytes e.2))%N in (e :: gone, kept, t)
      else ([], alive, total)
  end.

Section prune.
Context {it : HashIter}.

(* SRC core/src/spool.rs @fn:prune Spool::prune *)
Definition spool_prune (self : Spool) (stuck : string → bool) (now_ms : N) : option (Spool * SpoolStats) :=
  let entries := map_iter (sp_blobs self) in
  self ← lock_last self;
  let self := unlock_last (with_last_prune self now_ms) in
  let cutoff_ms := (now_ms - retention_ms)%N in
  let aged := filter (λ e, (bl_modified_ms e.2 <? cutoff_ms)%N = true ∧ stuck e.1 = false) entries in
  let alive := sort_by older (filter (λ e, (cutoff_ms <=? bl_modified_ms e.2)%N = true) entries) in
  let '(gone, kept, total) := trim_oldest stuck alive (total_bytes alive) in
  Some (with_blobs self (remove_all gone (remove_all aged (sp_blobs self))),
        {| st_blob_count := N.of_nat (length kept); st_total_bytes := total;
           st_pruned_blobs := N.of_nat (length aged + length gone);
           st_pruned_bytes := (total_bytes aged + total_bytes gone)%N; st_last_prune_ms := now_ms |}).

(* SRC core/src/spool.rs @fn:maybe_prune Spool::maybe_prune *)
Definition maybe_prune (self : Spool) (stuck : string → bool) (now_ms : N) : option Spool :=
  self ← lock_last self;
  let due := (SPOOL_PRUNE_INTERVAL_MS <=? now_ms - sp_last_prune_ms self)%N in
  let self := unlock_last (if due then with_last_prune self now_ms else self) in
  if due then fst <$> spool_prune self stuck now_ms else Some self.

(** The guard of the second lock is alive while [prune] runs. *)
(* SRC core/src/spool.rs @fn:prune_at_boot Spool::prune_at_boot *)
Definition prune_at_boot (self : Spool) (stuck : string → bool) (now_ms : N) : option (Spool * SpoolStats) :=
  self ← maybe_prune self stuck now_ms;
  self ← lock_last self;
  '(self, stats) ← spool_prune (with_last_prune self now_ms) stuck now_ms;
  Some (unlock_last self, stats).

(** What the disk does with a write: the directory could be made, the blob
    could be written and renamed, and the time it gives the file. *)
Record WriteFate := { wf_root : bool; wf_put : bool; wf_commit : bool; wf_stuck : string → bool; wf_clock : N }.

(* SRC core/src/spool.rs @fn:write Spool::write *)
Definition spool_write {sha : Sha256} (self : Spool) (fate : WriteFate) (payload : string) (now_ms : N)
    : option (Spool * result SpoolRef SpoolError) :=
  if (SPOOL_MAX_BLOB_BYTES <? bytes_of payload)%N
  then Some (self, Err (SePayloadTooLarge (bytes_of payload) SPOOL_MAX_BLOB_BYTES))
  else if negb (wf_root fate) then Some (self, Err (SeIo "create spool directory"))
  else
    '(self, _) ← spool_prune self (wf_stuck fate) now_ms;
    let hash := content_hash payload in
    let answer := Ok {| sr_hash := hash; sr_bytes := bytes_of payload; sr_lines := count_lines payload;
                        sr_preview := preview payload; sr_created_ms := now_ms;
                        sr_truncated := negb (should_spool (bytes_of payload)) |} in
    match sp_blobs self !! hash with
    | Some _ => Some (self, answer)
    | None =>
        if negb (wf_put fate) then Some (self, Err (SeIo "write blob"))
        else if negb (wf_commit fate) then Some (self, Err (SeIo "commit blob"))
        else Some (with_blobs self (<[hash := {| bl_bytes := payload; bl_modified_ms := wf_clock fate |}]> (sp_blobs self)), answer)
    end.

(** The JSON of a reference, as it is embedded in a result. *)
(* SRC core/src/spool.rs @fn:to_json SpoolRef::to_json *)
Definition spool_ref_json (r : SpoolRef) : Value :=
  json_object [("hash", JString (sr_hash r)); ("bytes", json_u64 (sr_bytes r)); ("lines", json_u64 (sr_lines r));
               ("preview", JString (sr_preview r)); ("createdMs", json_u64 (sr_created_ms r));
               ("truncated", JBool (sr_truncated r))].

(** [text] is the compact serialisation of [result]. *)
(* SRC core/src/spool.rs @fn:project_result Spool::project_result *)
Definition project_result {sha : Sha256} (self : Spool) (fate : WriteFate) (result : Value) (text : string) (now_ms : N)
    : option (Spool * (Value * option SpoolRef)) :=
  if negb (should_spool (bytes_of text)) then Some (self, (result, None))
  else
    '(self, answer) ← spool_write self fate text now_ms;
    match answer with
    | Err _ => Some (self, (result, None))
    | Ok reference =>
        Some (self, (json_object [("ok", default (JBool false) (json_get "ok" result)); ("spooled", JBool true);
                                  ("tool_output_ref", spool_ref_json reference);
                                  ("retrieve_with", JString "retrieve_original(hash, offset, limit)")], Some reference))
    end.
End prune.

(** ** Reading *)

(** The file a resolved path names: a blob of the directory. [root] is the
    directory's canonical path. *)
Definition blob_at (self : Spool) (root path : string) : option Blob :=
  name ← strip_prefix (trim_end_matches SLASH root +:+ "/") path;
  hash ← (if ends_with ("." +:+ BLOB_EXTENSION) name then Some (str_take (String.length name - 5) name) else None);
  sp_blobs self !! hash.

Section read.
Context {fs : Fs}.

Definition real_root (self : Spool) : string := default (sp_root self) (fs_canonicalize (sp_root self)).

(** An answer of [canonicalize] that is an error is [NotFound]; a regular file
    inside the root is a blob. *)
(* SRC core/src/spool.rs @fn:resolve Spool::resolve *)
Definition spool_resolve (self : Spool) (hash : string) : result string SpoolError :=
  if negb (is_valid_hash hash) then Err SeMalformedHash
  else match enforce_floor (blob_path self hash) [sp_root self] with
  | FAllowed =>
      match fs_canonicalize (blob_path self hash) with
      | None => Err SeNotFound
      | Some real =>
          if negb (is_inside_root real [real_root self]) then Err (SeFloorRefused FSymlinkEscape)
          else match blob_at self (real_root self) real with
               | None => Err SeNotAFile
               | Some _ => Ok real
               end
      end
  | verdict => Err (SeFloorRefused verdict)
  end.
(* SRC core/src/spool.rs @fn:contains Spool::contains *)
Definition spool_contains (self : Spool) (hash : string) : bool := is_ok (spool_resolve self hash).

(** [std::fs::read] of a resolved path. *)
Definition read_blob (self : Spool) (path : string) : result string SpoolError :=
  match blob_at self (real_root self) path with Some b => Ok (bl_bytes b) | None => Err (SeIo "read blob") end.

(** The walk over the lines of [rest], the first of which is line [line_no]. *)
Fixpoint slice_walk (fuel : nat) (offset limit : N) (rest : string) (line_no : N) (text : string) (returned : N)
    : string * N * bool :=
  match fuel with
  | O => (text, returned, false)
  | S fuel =>
      if is_empty rest && negb (line_no =? 0)%N then (text, returned, false)
      else
        let line := take_while (λ c, negb (Ascii.eqb c NL)) rest in
        let next text returned :=
          match drop_while (λ c, negb (Ascii.eqb c NL)) rest with
          | "" => (text, returned, false)
          | String _ rest => slice_walk fuel offset limit rest (line_no + 1)%N text returned
          end in
        if (offset <=? line_no)%N then
          if (RETRIEVE_MAX_SLICE_BYTES <? bytes_of text + bytes_of line)%N then (text, returned, true)
          else
            let text := text +:+ from_utf8_lossy line +:+ nl in
            if (limit <=? returned + 1)%N then (text, (returned + 1)%N, false) else next text (returned + 1)%N
        else next text returned
  end.

Definition slice_of (hash raw : string) (offset limit : N) : SpoolSlice :=
  let total_lines := count_lines raw in
  let limit := if (limit =? 0)%N then 40%N else limit in
  let '(text, returned, byte_capped) := slice_walk (S (String.length raw)) offset limit raw 0 "" 0 in
  let next_offset := if byte_capped then (offset + returned)%N else N.min (offset + returned) total_lines in
  {| ss_hash := hash; ss_offset := offset; ss_limit := limit; ss_total_lines := total_lines; ss_returned_lines := returned;
     ss_next_offset := next_offset; ss_eof := negb byte_capped && (total_lines <=? next_offset)%N;
     ss_byte_capped := byte_capped; ss_text := text |}.

(* SRC core/src/spool.rs @fn:retrieve Spool::retrieve *)
Definition spool_retrieve (self : Spool) (hash : string) (offset limit : N) : result SpoolSlice SpoolError :=
  path <-? spool_resolve self hash;;
  raw <-? read_blob self path;;
  Ok (slice_of hash raw offset limit).

(* SRC core/src/spool.rs @fn:read_text Spool::read_text *)
Definition spool_read_text (self : Spool) (hash : string) : result SpoolText SpoolError :=
  path <-? spool_resolve self hash;;
  whole <-? read_blob self path;;
  let len := bytes_of whole in
  let raw := str_take (N.to_nat (N.min len UI_MAX_READ_BYTES)) whole in
  Ok {| st_hash := hash; st_bytes := len; st_lines := count_lines raw; st_truncated := (bytes_of raw <? len)%N;
        st_text := from_utf8_lossy raw |}.
End read.
