(* ===== verification/SpoolFacts.v ===== *)
(** * What the spool guarantees

    Paging through the slices of a blob gives the payload back; the directory is
    bounded; retention keeps the newest; an address resolves inside the root. *)
From S2P Require Import Order Prelude.
From S2P Require Import Json Paths PathFloor Redact Spool.

(** ** Lines *)

Definition not_nl (c : ascii) : bool := negb (Ascii.eqb c NL).
Lemma take_while_no_nl s : has_char NL (take_while not_nl s) = false.
Proof.
  induction s as [|c s IH]; simpl; [done|]. unfold not_nl at 1. destruct (Ascii.eqb c NL) eqn:E; simpl; [done|].
  by rewrite E.
Qed.
Lemma drop_while_nl s : match drop_while not_nl s with "" => True | String c _ => c = NL end.
Proof. induction s as [|c s IH]; simpl; [done|]. unfold not_nl at 1. by destruct (Ascii.eqb_spec c NL). Qed.

Lemma split_line line r : has_char NL line = false → split NL (line +:+ String NL r) = line :: split NL r.
Proof. intros H. rewrite split_app_sep, split_no_sep by done. done. Qed.
Lemma str_lines_cons line r : has_char NL line = false → str_lines (line +:+ String NL r) = line :: str_lines r.
Proof.
  intros H. unfold str_lines. rewrite split_line by done. simpl.
  pose proof (split_nonempty NL r). destruct (rev (split NL r)) as [|x xs] eqn:E.
  { apply (f_equal (@rev string)) in E. rewrite rev_involutive in E. done. }
  destruct x; simpl; [by rewrite rev_app_distr|]. done.
Qed.
Lemma str_lines_last line : line ≠ "" → has_char NL line = false → str_lines line = [line].
Proof. intros Hn H. unfold str_lines. rewrite split_no_sep by done. by destruct line. Qed.
Lemma str_lines_step rest :
  rest ≠ "" →
  str_lines rest = take_while not_nl rest :: match drop_while not_nl rest with String _ r => str_lines r | "" => [] end.
Proof.
  intros Hn. pose proof (take_while_no_nl rest) as Hl. pose proof (drop_while_nl rest) as Hd.
  pose proof (take_drop_while not_nl rest) as Hr. destruct (drop_while not_nl rest) as [|c r].
  - rewrite app_string_nil_r in Hr. rewrite Hr in *. by apply str_lines_last.
  - subst c. rewrite <-Hr at 1. by apply str_lines_cons.
Qed.
Lemma str_lines_nil : str_lines "" = [].
Proof. done. Qed.

Lemma line_induction (P : string → Prop) :
  P "" → (∀ s, s ≠ "" → (∀ c r, drop_while not_nl s = String c r → P r) → P s) → ∀ s, P s.
Proof.
  intros H0 Hs s. remember (String.length s) as n eqn:Hn. assert (String.length s ≤ n)%nat as Hle by lia. clear Hn.
  revert s Hle. induction n as [|n IH]; intros s Hle; (destruct (decide (s = "")) as [->|Hne]; [done|]).
  - destruct s; simpl in *; [done | lia].
  - apply Hs; [done|]. intros c r Hd. apply IH. pose proof (take_drop_while not_nl s) as Ht. rewrite Hd in Ht.
    rewrite <-Ht, string_length_app in Hle. simpl in Hle. lia.
Qed.

Lemma count_lines_spec raw : count_lines raw = N.of_nat (length (str_lines raw)).
Proof.
  assert (Hfilter : ∀ a, has_char NL a = false → List.filter (λ c, Ascii.eqb c NL) (String.list_ascii_of_string a) = []).
  { induction a as [|c a IH]; simpl; [done|]. intros [-> H]%orb_false_iff. by apply IH. }
  assert (Happ : ∀ a b, String.list_ascii_of_string (a +:+ b) = String.list_ascii_of_string a ++ String.list_ascii_of_string b).
  { induction a as [|c a IH]; intros b; [done|]. rewrite app_string_cons. simpl. by rewrite IH. }
  assert (Hlast : ∀ s, has_char NL s = false → s ≠ "" → ∀ p, ∃ c, last_byte p s = Some c ∧ Ascii.eqb c NL = false).
  { induction s as [|c s IH]; intros H Hn p; [done|]. simpl in H. apply orb_false_iff in H as [Hc H].
    destruct s as [|d s]; [by exists c|]. exact (IH H ltac:(done) (Some c)). }
  assert (Hlb : ∀ a b p, last_byte p (a +:+ b) = last_byte (last_byte p a) b).
  { induction a as [|c a IH]; intros b p; [done|]. rewrite app_string_cons. simpl. apply IH. }
  induction raw as [|s Hne IH] using line_induction; [done|].
  rewrite str_lines_step by done. pose proof (take_while_no_nl s) as Hl. pose proof (drop_while_nl s) as Hd.
  pose proof (take_drop_while not_nl s) as Hr. set (line := take_while not_nl s) in *.
  destruct (drop_while not_nl s) as [|c r].
  - rewrite app_string_nil_r in Hr. rewrite <-Hr in Hne |- *. unfold count_lines.
    destruct (Hlast line Hl Hne None) as (c & -> & Ec). rewrite Hfilter, Ec by done. by destruct line.
  - subst c. specialize (IH NL r eq_refl). rewrite <-Hr. simpl length. unfold count_lines in *.
    rewrite Happ, List.filter_app, Hfilter, Hlb by done. simpl. destruct (is_empty (line +:+ String NL r)) eqn:Ee.
    { destruct line; discriminate Ee. }
    destruct r as [|d r]; [simpl in *; lia|]. cbn [is_empty] in IH.
    assert (∀ p q, last_byte p (String d r) = last_byte q (String d r)) as Hi by done.
    rewrite (Hi (Some NL) None). destruct (last_byte None (String d r)) as [e|] eqn:El.
    + destruct (Ascii.eqb e NL); simpl in *; lia.
    + exfalso. clear -El. revert El. simpl. generalize d. induction r as [|x r IH]; intros y; [done|]. simpl. apply IH.
Qed.

(** ** Slices *)

(** A line as it is returned. *)
Definition shown (line : string) : string := from_utf8_lossy line +:+ nl.
Definition fits (text line : string) : bool := negb (RETRIEVE_MAX_SLICE_BYTES <? bytes_of text + bytes_of line)%N.

(** What a slice takes of the lines from its offset on. *)
Fixpoint fill (limit : N) (text : string) (returned : N) (lines : list string) : string * N * bool :=
  match lines with
  | [] => (text, returned, false)
  | line :: lines =>
      if fits text line then
        if (limit <=? returned + 1)%N then (text +:+ shown line, (returned + 1)%N, false)
        else fill limit (text +:+ shown line) (returned + 1)%N lines
      else (text, returned, true)
  end.

Lemma slice_walk_fill fuel offset limit rest line_no text returned :
  (String.length rest < fuel)%nat → (rest = "" → line_no ≠ 0%N) →
  slice_walk fuel offset limit rest line_no text returned =
  fill limit text returned (drop (N.to_nat (offset - line_no)) (str_lines rest)).
Proof.
  revert rest line_no text returned. induction fuel as [|fuel IH]; intros rest line_no text returned Hf Hz; [lia|].
  cbn [slice_walk]. fold not_nl. destruct (decide (rest = "")) as [->|Hne].
  { rewrite str_lines_nil, drop_nil. simpl. apply N.eqb_neq in Hz; [|done]. by rewrite Hz. }
  assert (is_empty rest = false) as -> by by destruct rest. cbn [andb].
  rewrite str_lines_step by done. pose proof (take_drop_while not_nl rest) as Hr.
  change (λ c, negb (Ascii.eqb c NL)) with not_nl in *.
  assert (Hnext : ∀ text returned k, k = N.to_nat (offset - (line_no + 1)) →
    match drop_while not_nl rest with "" => (text, returned, false)
    | String _ r => slice_walk fuel offset limit r (line_no + 1)%N text returned end =
    fill limit text returned (drop k match drop_while not_nl rest with String _ r => str_lines r | "" => [] end)).
  { intros t n k ->. destruct (drop_while not_nl rest) as [|c r]; [by rewrite drop_nil|]. apply IH; [|lia].
    rewrite <-Hr, string_length_app in Hf. simpl in Hf. lia. }
  destruct (N.leb_spec offset line_no) as [Hle|Hlt].
  - replace (N.to_nat (offset - line_no)) with O by lia. cbn [drop fill]. unfold fits.
    destruct (N.ltb_spec RETRIEVE_MAX_SLICE_BYTES (bytes_of text + bytes_of (take_while not_nl rest))) as [|]; [done|].
    cbn [negb]. fold (shown (take_while not_nl rest)). destruct (N.leb_spec limit (returned + 1)); [done|].
    rewrite (Hnext _ _ 0%nat) by lia. by rewrite drop_0.
  - replace (N.to_nat (offset - line_no)) with (S (N.to_nat (offset - (line_no + 1)))) by lia. cbn [drop]. by apply Hnext.
Qed.

Lemma fill_spec limit text returned lines :
  (returned < limit)%N →
  ∃ k, (k ≤ length lines)%nat ∧
    fill limit text returned lines =
      (text +:+ sconcat (shown <$> take k lines), (returned + N.of_nat k)%N,
       match lines !! k with Some _ => negb (N.of_nat k =? limit - returned)%N | None => false end) ∧
    (N.of_nat k ≤ limit - returned)%N ∧
    (∀ l, lines !! k = Some l → (N.of_nat k < limit - returned)%N →
       fits (text +:+ sconcat (shown <$> take k lines)) l = false) ∧
    (∀ l, lines !! 0%nat = Some l → fits text l = true → k ≠ O).
Proof.
  revert text returned. induction lines as [|l lines IH]; intros text returned Hlt.
  { exists O. simpl. rewrite app_string_nil_r, N.add_0_r. repeat split; try done; lia. }
  cbn [fill]. destruct (fits text l) eqn:Ef.
  - destruct (N.leb_spec limit (returned + 1)) as [Hle|Hgt].
    + exists 1%nat. cbn [take fmap list_fmap sconcat length]. rewrite take_0. cbn [fmap list_fmap sconcat].
      rewrite app_string_nil_r. split; [lia|]. split; [|split; [lia | split; [intros; lia | done]]].
      f_equal. cbn [lookup list_lookup]. destruct (lines !! 0%nat); [|done].
      destruct (N.eqb_spec (N.of_nat 1) (limit - returned)); [done | lia].
    + destruct (IH (text +:+ shown l) (returned + 1)%N) as (k & Hk & Hf & Hb & Hn & _); [lia|].
      exists (S k). cbn [length take fmap list_fmap sconcat lookup list_lookup]. split; [lia|].
      rewrite <-app_string_assoc. split; [|split; [lia|split; [|done]]].
      * rewrite Hf. f_equal; [f_equal; lia|]. destruct (lines !! k); [|done]. f_equal.
        destruct (N.eqb_spec (N.of_nat k) (limit - (returned + 1))), (N.eqb_spec (N.of_nat (S k)) (limit - returned)); [done|lia|lia|done].
      * intros l' Hl' Hlt'. apply Hn; [done | lia].
  - exists O. cbn [take fmap list_fmap sconcat lookup list_lookup length]. rewrite app_string_nil_r, N.add_0_r.
    split; [lia|]. split; [|split; [lia|split]].
    + f_equal. destruct (N.eqb_spec (N.of_nat 0) (limit - returned)); [lia | done].
    + intros l' [= <-] _. done.
    + intros l' [= <-] H. congruence.
Qed.

(** ** Paging *)

(** Reading on from [next_offset] until a slice says that it is the end. *)
Fixpoint read_pages (fuel : nat) (page : N → SpoolSlice) (offset : N) : option string :=
  match fuel with
  | O => None
  | S fuel =>
      let s := page offset in
      if ss_eof s then Some (ss_text s) else rest ← read_pages fuel page (ss_next_offset s); Some (ss_text s +:+ rest)
  end.

Definition page_limit (limit : N) : N := if (limit =? 0)%N then 40%N else limit.

Lemma slice_shape hash raw offset limit :
  raw ≠ "" → ∃ k, let rest := drop (N.to_nat offset) (str_lines raw) in
  let s := slice_of hash raw offset limit in
  (k ≤ length rest)%nat ∧ ss_text s = sconcat (shown <$> take k rest) ∧ ss_returned_lines s = N.of_nat k ∧
  (ss_byte_capped s = true → (k < length rest)%nat) ∧
  ((offset ≤ ss_total_lines s)%N → ss_next_offset s = (offset + N.of_nat k)%N) ∧
  ss_eof s = (ss_total_lines s <=? ss_next_offset s)%N ∧
  (∀ l, rest !! 0%nat = Some l → fits "" l = true → k ≠ O).
Proof.
  intros Hne. cbv zeta. unfold slice_of. fold (page_limit limit).
  assert (0 < page_limit limit)%N as Hp by (unfold page_limit; destruct (N.eqb_spec limit 0); lia).
  rewrite slice_walk_fill by (done || lia). rewrite N.sub_0_r.
  destruct (fill_spec (page_limit limit) "" 0 (drop (N.to_nat offset) (str_lines raw)) Hp) as (k & Hk & Hf & Hb & Hn & Hz).
  exists k. rewrite Hf. cbn [ss_text ss_returned_lines ss_byte_capped ss_total_lines ss_next_offset ss_eof].
  rewrite count_lines_spec. rewrite length_drop in Hk |- *.
  split; [done|]. split; [done|]. split; [lia|]. destruct (drop (N.to_nat offset) (str_lines raw) !! k) as [l|] eqn:El.
  - apply lookup_lt_Some in El. rewrite length_drop in El. split; [done|].
    split; [intros Hle; destruct (negb _); [lia|]; rewrite N.min_l; lia|]. split; [|done].
    destruct (negb _) eqn:En; cbn [negb andb]; [|done]. symmetry. apply N.leb_gt. lia.
  - split; [done|]. split; [intros Hle; rewrite N.min_l; lia|]. by split.
Qed.

Lemma pages_from hash raw limit :
  raw ≠ "" → Forall (λ l, fits "" l = true) (str_lines raw) →
  ∀ fuel offset, (N.to_nat offset ≤ length (str_lines raw))%nat → (length (str_lines raw) - N.to_nat offset < fuel)%nat →
    read_pages fuel (λ o, slice_of hash raw o limit) offset = Some (sconcat (shown <$> drop (N.to_nat offset) (str_lines raw))).
Proof.
  intros Hne Hfit. induction fuel as [|fuel IH]; intros offset Hle Hf; [lia|]. cbn [read_pages].
  destruct (slice_shape hash raw offset limit Hne) as (k & Hk & Ht & _ & _ & Hnext & Heof & Hpos). cbv zeta in *.
  assert (ss_total_lines (slice_of hash raw offset limit) = N.of_nat (length (str_lines raw))) as Htot.
  { unfold slice_of. destruct (slice_walk _ _ _ _ _ _ _) as [[??]?]. apply count_lines_spec. }
  rewrite Htot in *. specialize (Hnext ltac:(lia)). rewrite Hnext in *. rewrite length_drop in Hk.
  rewrite Heof, Ht. destruct (N.leb_spec (N.of_nat (length (str_lines raw))) (offset + N.of_nat k)) as [Hend|Hmore].
  - by rewrite take_ge by (rewrite length_drop; lia).
  - assert (k ≠ O) as Hk0.
    { destruct (str_lines raw !! N.to_nat offset) as [l|] eqn:El; [|apply lookup_ge_None in El; lia].
      apply (Hpos l); [by rewrite lookup_drop, Nat.add_0_r|]. rewrite Forall_lookup in Hfit. by eapply Hfit. }
    rewrite IH by lia. cbn [mbind option_bind]. f_equal. rewrite <-sconcat_app, <-fmap_app. f_equal. f_equal.
    replace (N.to_nat (offset + N.of_nat k)) with (N.to_nat offset + k)%nat by lia. rewrite <-drop_drop. apply take_drop.
Qed.

(** A line longer than a slice may be is never returned: the slice is empty and
    points at itself. *)
Theorem long_line_stops_the_reader hash raw offset limit l :
  raw ≠ "" → str_lines raw !! N.to_nat offset = Some l → (RETRIEVE_MAX_SLICE_BYTES < bytes_of l)%N →
  let s := slice_of hash raw offset limit in ss_text s = "" ∧ ss_next_offset s = offset ∧ ss_eof s = false.
Proof.
  intros Hne Hl Hlong. cbv zeta. unfold slice_of. rewrite slice_walk_fill by (done || lia). rewrite N.sub_0_r.
  pose proof Hl as Hlt%lookup_lt_Some. rewrite (drop_S _ _ _ Hl). cbn [fill]. unfold fits. rewrite N.add_0_l.
  destruct (N.ltb_spec RETRIEVE_MAX_SLICE_BYTES (bytes_of l)); [|lia]. cbn. by rewrite N.add_0_r.
Qed.

(** An empty blob has no lines, and its first slice returns one. *)
Example empty_blob_returns_a_line :
  let s := slice_of "h" "" 0 0 in ss_total_lines s = 0%N ∧ ss_returned_lines s = 1%N ∧ ss_text s = nl.
Proof. by vm_compute. Qed.

(** ** Retention *)

Lemma map_to_list_delete_perm (m : gmap string Blob) e l :
  map_to_list m ≡ₚ e :: l → map_to_list (delete e.1 m) ≡ₚ l.
Proof.
  intros H. destruct e as [i x]. assert (m !! i = Some x) as Hi.
  { apply elem_of_map_to_list. rewrite H. left. }
  apply (Permutation_cons_inv (a := (i, x))). rewrite <-H. by apply map_to_list_delete.
Qed.
Lemma remove_all_perm (l1 l2 : list (string * Blob)) m :
  map_to_list m ≡ₚ l1 ++ l2 → map_to_list (remove_all l1 m) ≡ₚ l2.
Proof.
  revert l2. induction l1 as [|e l1 IH]; intros l2 H; [done|]. cbn [remove_all foldr].
  apply map_to_list_delete_perm, IH. rewrite H. cbn [app]. apply Permutation_middle.
Qed.
Lemma remove_all_subset l m k b : remove_all l m !! k = Some b → m !! k = Some b.
Proof.
  induction l as [|e l IH]; [done|]. cbn [remove_all foldr]. intros [_ H]%lookup_delete_Some. by apply IH.
Qed.
Lemma total_bytes_perm l1 l2 : l1 ≡ₚ l2 → total_bytes l1 = total_bytes l2.
Proof. induction 1; simpl; lia. Qed.
Lemma total_bytes_app l1 l2 : total_bytes (l1 ++ l2) = (total_bytes l1 + total_bytes l2)%N.
Proof. induction l1 as [|e l1 IH]; simpl; lia. Qed.

Definition nothing_stuck (stuck : string → bool) : Prop := ∀ k, stuck k = false.
Lemma trim_oldest_spec stuck alive :
  nothing_stuck stuck → ∃ gone kept, alive = gone ++ kept ∧
    trim_oldest stuck alive (total_bytes alive) = (gone, kept, total_bytes kept) ∧ (total_bytes kept ≤ SPOOL_MAX_TOTAL_BYTES)%N ∧
    (∀ l e, gone = l ++ [e] → (SPOOL_MAX_TOTAL_BYTES < total_bytes (e :: kept))%N).
Proof.
  intros Hs. induction alive as [|e alive IH].
  { exists [], []. split; [done|]. split; [done|]. split; [unfold SPOOL_MAX_TOTAL_BYTES; simpl; lia|]. by intros []. }
  cbn [trim_oldest]. destruct (N.ltb_spec SPOOL_MAX_TOTAL_BYTES (total_bytes (e :: alive))) as [Hgt|Hle].
  - rewrite (Hs e.1). destruct IH as (gone & kept & -> & Ht & Hb & Hl). exists (e :: gone), kept. split; [done|].
    replace (total_bytes (e :: gone ++ kept) - bytes_of (bl_bytes e.2))%N with (total_bytes (gone ++ kept)) by (simpl; lia).
    rewrite Ht. split; [done|]. split; [done|]. intros l x Hx. destruct gone as [|g gone].
    + destruct l as [|y l]; [|by destruct l]. injection Hx as ->. exact Hgt.
    + destruct l as [|y l]; [done|]. injection Hx as _ Hx. by eapply Hl.
  - exists [], (e :: alive). split; [done|]. split; [done|]. split; [done|]. by intros [].
Qed.

Definition disk_bytes (self : Spool) : N := total_bytes (map_to_list (sp_blobs self)).

Lemma older_total a b : older a b = true ∨ older b a = true.
Proof.
  unfold older. destruct (N.eqb_spec (bl_modified_ms a.2) (bl_modified_ms b.2)) as [E|E].
  - rewrite E, N.eqb_refl. apply str_le_total.
  - destruct (N.eqb_spec (bl_modified_ms b.2) (bl_modified_ms a.2)) as [E'|_]; [congruence|]. rewrite !N.ltb_lt. lia.
Qed.
#[export] Instance older_trans : Transitive (λ a b, older a b = true).
Proof.
  intros a b c. unfold older. destruct (N.eqb_spec (bl_modified_ms a.2) (bl_modified_ms b.2)) as [E1|E1],
    (N.eqb_spec (bl_modified_ms b.2) (bl_modified_ms c.2)) as [E2|E2]; rewrite ?N.ltb_lt; intros H1 H2.
  - rewrite E1, E2, N.eqb_refl. exact (str_le_trans _ _ _ H1 H2).
  - destruct (N.eqb_spec (bl_modified_ms a.2) (bl_modified_ms c.2)); [congruence|]. apply N.ltb_lt. lia.
  - destruct (N.eqb_spec (bl_modified_ms a.2) (bl_modified_ms c.2)); [congruence|]. apply N.ltb_lt. lia.
  - destruct (N.eqb_spec (bl_modified_ms a.2) (bl_modified_ms c.2)); [lia|]. apply N.ltb_lt. lia.
Qed.

Section retention.
Context {it : HashIter} {laws : HashIterLaws}.

Lemma prune_shape self stuck now :
  sp_held self = false → nothing_stuck stuck →
  ∃ self' stats aged gone kept, spool_prune self stuck now = Some (self', stats) ∧ sp_held self' = false ∧
    st_total_bytes stats = total_bytes kept ∧
    map_to_list (sp_blobs self) ≡ₚ aged ++ gone ++ kept ∧ map_to_list (sp_blobs self') ≡ₚ kept ∧
    Forall (λ e, bl_modified_ms e.2 < now - retention_ms)%N aged ∧
    Forall (λ e, now - retention_ms ≤ bl_modified_ms e.2)%N (gone ++ kept) ∧ Sorted (λ a b, older a b = true) (gone ++ kept) ∧
    (total_bytes kept ≤ SPOOL_MAX_TOTAL_BYTES)%N ∧
    (∀ l e, gone = l ++ [e] → (SPOOL_MAX_TOTAL_BYTES < total_bytes (e :: kept))%N).
Proof.
  intros Hh Hs. unfold spool_prune, lock_last. rewrite Hh. cbn [mbind option_bind].
  set (cutoff := (now - retention_ms)%N). set (entries := map_iter (sp_blobs self)).
  set (aged := filter (λ e, (bl_modified_ms e.2 <? cutoff)%N = true ∧ stuck e.1 = false) entries). set (alive := sort_by older _).
  destruct (trim_oldest_spec stuck alive Hs) as (gone & kept & Ha & Ht & Hb & Hl). rewrite Ht.
  assert (map_to_list (sp_blobs self) ≡ₚ aged ++ gone ++ kept) as Hp.
  { rewrite <-(map_iter_perm (sp_blobs self)), <-Ha. fold entries. subst alive aged. rewrite sort_by_perm.
    clear -Hs. induction entries as [|e l IH]; [done|]. rewrite !filter_cons.
    destruct (N.ltb_spec (bl_modified_ms e.2) cutoff) as [H|H].
    - rewrite decide_True by (split; [done | apply Hs]). rewrite decide_False by (rewrite N.leb_le; lia).
      cbn [app]. by constructor.
    - rewrite decide_False by by intros []. rewrite decide_True by by apply N.leb_le.
      rewrite <-Permutation_middle. by constructor. }
  eexists _, _, aged, gone, kept. split; [reflexivity|]. split; [done|]. split; [done|]. split; [done|].
  split; [cbn; by apply remove_all_perm, remove_all_perm|].
  split; [apply Forall_forall; intros e [[He _] _]%list_elem_of_filter; by apply N.ltb_lt|].
  split; [rewrite <-Ha; apply Forall_forall; intros e; unfold alive; rewrite elem_of_sort_by, list_elem_of_filter; intros [He _]; by apply N.leb_le|].
  split; [rewrite <-Ha; apply sort_by_sorted, older_total|]. by split.
Qed.

Lemma prune_keeps self stuck now self' stats :
  spool_prune self stuck now = Some (self', stats) →
  sp_held self = false ∧ sp_held self' = false ∧ sp_root self' = sp_root self ∧ sp_blobs self' ⊆ sp_blobs self.
Proof.
  unfold spool_prune, lock_last. destruct (sp_held self); [done|]. cbn [mbind option_bind].
  destruct (trim_oldest _ _ _) as [[gone kept] total]. intros [= <- _]. repeat split. cbn.
  apply map_subseteq_spec. intros k b H. by do 2 apply remove_all_subset in H.
Qed.

(** Retention keeps the newest: within the ceiling, nothing older than the
    window, what goes although it is young is older than everything that
    stays, and nothing young goes when the young ones fit. *)
Theorem retention_keeps_the_newest self stuck now :
  sp_held self = false → nothing_stuck stuck →
  ∃ self' stats, spool_prune self stuck now = Some (self', stats) ∧
    (disk_bytes self' ≤ SPOOL_MAX_TOTAL_BYTES)%N ∧ st_total_bytes stats = disk_bytes self' ∧
    (∀ k b, sp_blobs self' !! k = Some b → sp_blobs self !! k = Some b ∧ (now - retention_ms ≤ bl_modified_ms b)%N) ∧
    (∀ k b, sp_blobs self !! k = Some b → (now - retention_ms ≤ bl_modified_ms b)%N → sp_blobs self' !! k = None →
       (∀ k' b', sp_blobs self' !! k' = Some b' → older (k, b) (k', b') = true) ∧
       (SPOOL_MAX_TOTAL_BYTES < disk_bytes self)%N).
Proof.
  intros Hh Hs. destruct (prune_shape self stuck now Hh Hs)
    as (self' & stats & aged & gone & kept & He & Hh' & Hst & Hp & Hk & Haged & Hyoung & Hsort & Hb & Hl).
  assert (disk_bytes self' = total_bytes kept) as Hd by by apply total_bytes_perm.
  assert (Hin : ∀ k b, sp_blobs self' !! k = Some b ↔ (k, b) ∈ kept).
  { intros k b. by rewrite <-elem_of_map_to_list, Hk. }
  exists self', stats. split; [done|]. split; [by rewrite Hd|]. split; [by rewrite Hd|]. split.
  - intros k b H%Hin. split; [apply elem_of_map_to_list; rewrite Hp; set_solver|].
    rewrite Forall_forall in Hyoung. apply (Hyoung (k, b)). set_solver.
  - intros k b Hkb Hy Hgone. assert ((k, b) ∈ gone) as Hg.
    { apply elem_of_map_to_list in Hkb. rewrite Hp, !elem_of_app in Hkb. destruct Hkb as [H|[H|H]]; [|done|].
      - rewrite Forall_forall in Haged. specialize (Haged _ H). simpl in Haged. lia.
      - apply Hin in H. congruence. }
    split.
    + intros k' b' H%Hin. apply Sorted_StronglySorted in Hsort; [|exact older_trans].
      apply list_elem_of_split in Hg as (g1 & g2 & ->). rewrite <-app_assoc in Hsort.
      apply StronglySorted_app in Hsort as (_ & _ & Hsort). apply StronglySorted_inv in Hsort as [_ Hsort].
      rewrite Forall_forall in Hsort. apply Hsort. set_solver.
    + destruct gone as [|x gone'] using rev_ind; [by apply elem_of_nil in Hg|]. specialize (Hl gone' x eq_refl).
      unfold disk_bytes. rewrite (total_bytes_perm _ _ Hp), !total_bytes_app. simpl in Hl |- *. lia.
Qed.

(** The second lock of [prune_at_boot] is taken while the first is held: the
    call never returns, whatever the spool. *)
Theorem prune_at_boot_never_returns self stuck now : prune_at_boot self stuck now = None.
Proof.
  unfold prune_at_boot. destruct (maybe_prune self stuck now) as [self1|]; [|done]. cbn [mbind option_bind].
  unfold lock_last at 1. destruct (sp_held self1); [done|]. cbn [mbind option_bind]. done.
Qed.
End retention.

(** ** Runs *)

Definition spool_new (data_dir : string) : Spool :=
  {| sp_root := path_join data_dir "spool"; sp_blobs := ∅; sp_last_prune_ms := 0; sp_held := false |}.

Section runs.
Context {it : HashIter} {laws : HashIterLaws} {sha : Sha256}.

Inductive SpoolOp :=
  | SoWrite (fate : WriteFate) (payload : string) (now : N)
  | SoPrune (stuck : string → bool) (now : N)
  | SoBoot (stuck : string → bool) (now : N).
Definition spool_step (self : Spool) (op : SpoolOp) : option Spool :=
  match op with
  | SoWrite fate payload now => fst <$> spool_write self fate payload now
  | SoPrune stuck now => fst <$> spool_prune self stuck now
  | SoBoot stuck now => fst <$> prune_at_boot self stuck now
  end.
Definition spool_run (self : Spool) (ops : list SpoolOp) : option Spool :=
  foldl (λ o op, self ← o; spool_step self op) (Some self) ops.

Definition is_boot (op : SpoolOp) : bool := match op with SoBoot _ _ => true | _ => false end.

(** Every blob is under the digest of its own bytes, and the mutex is free. *)
Definition addressed (self : Spool) : Prop :=
  sp_held self = false ∧ ∀ k b, sp_blobs self !! k = Some b → k = content_hash (bl_bytes b).

Lemma prune_addressed self stuck now self' stats :
  addressed self → spool_prune self stuck now = Some (self', stats) → addressed self' ∧ sp_root self' = sp_root self.
Proof.
  intros [_ Ha] (_ & Hh & Hr & Hs)%prune_keeps. rewrite map_subseteq_spec in Hs. split; [|done]. split; [done|]. eauto.
Qed.
Lemma prune_answers self stuck now : sp_held self = false → ∃ self' stats, spool_prune self stuck now = Some (self', stats).
Proof.
  intros H. unfold spool_prune, lock_last. rewrite H. cbn [mbind option_bind].
  destruct (trim_oldest _ _ _) as [[??]?]. eauto.
Qed.

Ltac refused H := intros [= <- <-]; split; [exact H|]; split; [done | by intros ? [=]].
Lemma write_addressed self fate payload now self' r :
  addressed self → spool_write self fate payload now = Some (self', r) →
  addressed self' ∧ sp_root self' = sp_root self ∧
  ∀ ref, r = Ok ref → sr_hash ref = content_hash payload ∧
    ∃ b, sp_blobs self' !! content_hash payload = Some b.
Proof.
  intros Ha. unfold spool_write.
  destruct (_ <? _)%N; [refused Ha|]. destruct (negb (wf_root fate)); [refused Ha|].
  destruct (spool_prune self (wf_stuck fate) now) as [[self1 stats]|] eqn:Ep; [|done]. cbn [mbind option_bind].
  destruct (prune_addressed _ _ _ _ _ Ha Ep) as [Ha1 Hr1].
  destruct (sp_blobs self1 !! content_hash payload) as [b|] eqn:Eb.
  - intros [= <- <-]. split; [done|]. split; [done|]. intros ref [= <-]. eauto.
  - destruct (negb (wf_put fate)); [refused Ha1|]. destruct (negb (wf_commit fate)); [refused Ha1|].
    intros [= <- <-]. destruct Ha1 as [Hh1 Ha1]. split; [|split; [done|]].
    + split; [done|]. cbn. intros k x. rewrite lookup_insert_Some. intros [[<- <-]|[_ H]]; [done | by apply Ha1].
    + intros ref [= <-]. split; [done|]. eexists. cbn. by rewrite lookup_insert_eq.
Qed.

Lemma write_answers self fate payload now : sp_held self = false → ∃ self' r, spool_write self fate payload now = Some (self', r).
Proof.
  intros Hh. unfold spool_write. destruct (_ <? _)%N; [eauto|]. destruct (negb (wf_root fate)); [eauto|].
  destruct (prune_answers self (wf_stuck fate) now Hh) as (self1 & stats & ->). cbn [mbind option_bind].
  destruct (_ !! _); [eauto|]. destruct (negb (wf_put fate)); [eauto|]. destruct (negb (wf_commit fate)); eauto.
Qed.

(** A run returns unless it prunes at boot, and leaves every blob under its own
    digest. *)
Lemma step_addressed self op : addressed self →
  match spool_step self op with
  | Some self' => is_boot op = false ∧ addressed self' ∧ sp_root self' = sp_root self
  | None => is_boot op = true
  end.
Proof.
  intros [Hh Ha]. destruct op as [fate payload now | stuck now | stuck now]; cbn [spool_step].
  - destruct (write_answers self fate payload now Hh) as (self1 & r & E). rewrite E.
    by destruct (write_addressed _ _ _ _ _ _ (conj Hh Ha) E) as (? & ? & _).
  - destruct (prune_answers self stuck now Hh) as (self1 & r & E). rewrite E. split; [done|]. by apply (prune_addressed _ _ _ _ _ (conj Hh Ha) E).
  - by rewrite prune_at_boot_never_returns.
Qed.
Lemma run_stopped ops : foldl (λ o op, self ← o; spool_step self op) None ops = None.
Proof. by induction ops. Qed.
Lemma run_addressed self ops : addressed self →
  match spool_run self ops with
  | Some self' => existsb is_boot ops = false ∧ addressed self' ∧ sp_root self' = sp_root self
  | None => existsb is_boot ops = true
  end.
Proof.
  unfold spool_run. revert self. induction ops as [|op ops IH]; intros self Ha; [done|]. cbn [foldl mbind option_bind existsb].
  pose proof (step_addressed self op Ha) as Hs. destruct (spool_step self op) as [self1|]; [|by rewrite run_stopped, Hs].
  destruct Hs as (-> & Ha1 & Hr1). specialize (IH self1 Ha1). cbn [orb]. destruct (foldl _ _ ops); [|done]. destruct IH as (? & ? & ->). by rewrite Hr1.
Qed.

(** The directory never holds more than the ceiling and one payload: a run in
    which nothing is stuck. *)
Definition unstuck (op : SpoolOp) : Prop :=
  match op with SoWrite fate _ _ => nothing_stuck (wf_stuck fate) | SoPrune stuck _ | SoBoot stuck _ => nothing_stuck stuck end.
Lemma step_bounded self op self' :
  addressed self → unstuck op → (disk_bytes self ≤ SPOOL_MAX_TOTAL_BYTES + SPOOL_MAX_BLOB_BYTES)%N →
  spool_step self op = Some self' → (disk_bytes self' ≤ SPOOL_MAX_TOTAL_BYTES + SPOOL_MAX_BLOB_BYTES)%N.
Proof.
  intros [Hh _] Hu Hb. destruct op as [fate payload now | stuck now | stuck now]; cbn [spool_step].
  - destruct (spool_write self fate payload now) as [[self1 r]|] eqn:E; [|done]. intros [= <-]. revert E.
    unfold spool_write. destruct (N.ltb_spec SPOOL_MAX_BLOB_BYTES (bytes_of payload)) as [|Hsz]; [by intros [= <- <-]|].
    destruct (negb (wf_root fate)); [by intros [= <- <-]|].
    destruct (retention_keeps_the_newest self (wf_stuck fate) now Hh Hu) as (self2 & stats & -> & Hd & _). cbn [mbind option_bind].
    destruct (sp_blobs self2 !! content_hash payload) eqn:El; [intros [= <- <-]; lia|].
    destruct (negb (wf_put fate)); [intros [= <- <-]; lia|]. destruct (negb (wf_commit fate)); [intros [= <- <-]; lia|].
    intros [= <- <-]. unfold disk_bytes. cbn. rewrite (total_bytes_perm _ _ (map_to_list_insert _ _ _ El)). simpl.
    unfold disk_bytes in Hd. lia.
  - destruct (retention_keeps_the_newest self stuck now Hh Hu) as (self2 & stats & -> & Hd & _). cbn. intros [= <-]. lia.
  - by rewrite prune_at_boot_never_returns.
Qed.
Theorem spool_is_bounded data_dir ops self :
  Forall unstuck ops → spool_run (spool_new data_dir) ops = Some self →
  (disk_bytes self ≤ SPOOL_MAX_TOTAL_BYTES + SPOOL_MAX_BLOB_BYTES)%N.
Proof.
  intros Hu. assert (Hgen : ∀ s, addressed s → (disk_bytes s ≤ SPOOL_MAX_TOTAL_BYTES + SPOOL_MAX_BLOB_BYTES)%N →
    spool_run s ops = Some self → (disk_bytes self ≤ SPOOL_MAX_TOTAL_BYTES + SPOOL_MAX_BLOB_BYTES)%N).
  { induction Hu as [|op ops Hop Hu IH]; intros s Ha Hb; [by intros [= <-]|].
    pose proof (step_addressed s op Ha) as Hs. unfold spool_run in *. cbn [foldl mbind option_bind]. destruct (spool_step s op) as [s1|] eqn:E1; [|by rewrite run_stopped].
    destruct Hs as (_ & Ha1 & _). apply IH; [done|]. exact (step_bounded _ _ _ Ha Hop Hb E1). }
  apply Hgen; [|unfold disk_bytes; cbn; rewrite map_to_list_empty; simpl; lia].
  split; [done|]. intros k b. cbn. by rewrite lookup_empty.
Qed.

(** Retention runs before the write, so a write does pass the ceiling: a stored
    payload comes on top of what retention left. *)
Theorem write_adds_to_what_retention_left self fate payload now self' ref :
  spool_write self fate payload now = Some (self', Ok ref) →
  ∃ self1 stats, spool_prune self (wf_stuck fate) now = Some (self1, stats) ∧
    (sp_blobs self1 !! content_hash payload = None → disk_bytes self' = disk_bytes self1 + bytes_of payload)%N.
Proof.
  unfold spool_write. destruct (_ <? _)%N; [done|]. destruct (negb (wf_root fate)); [done|].
  destruct (spool_prune self (wf_stuck fate) now) as [[self1 stats]|]; [|done]. cbn [mbind option_bind].
  intros H. exists self1, stats. split; [done|]. intros El. rewrite El in H.
  destruct (negb (wf_put fate)); [done|]. destruct (negb (wf_commit fate)); [done|]. injection H as <- _.
  unfold disk_bytes. cbn. rewrite (total_bytes_perm _ _ (map_to_list_insert _ _ _ El)). simpl. lia.
Qed.
End runs.

(** ** Addresses *)

(** A resolved address is well-formed, inside the root component by component,
    and the name of a file. *)
Theorem resolved_address_is_inside `{FsLaws} self hash path :
  rooted (sp_root self) = true → spool_resolve self hash = Ok path →
  is_valid_hash hash = true ∧ fs_canonicalize (blob_path self hash) = Some path ∧
  under_a_root (canonicalize_no_follow path) [real_root self] ∧ ∃ b, blob_at self (real_root self) path = Some b.
Proof.
  intros Hr. unfold spool_resolve. destruct (is_valid_hash hash); [|done]. cbn [negb].
  destruct (enforce_floor _ _); [|done..]. destruct (fs_canonicalize (blob_path self hash)) as [real|] eqn:Ec; [|done].
  destruct (is_inside_root real [real_root self]) eqn:Ei; [|done]. cbn [negb].
  destruct (blob_at self (real_root self) real) as [b|] eqn:Eb; [|done]. intros [= <-].
  split; [done|]. split; [done|]. split; [|eauto].
  assert (rooted (real_root self) = true) as Hrr.
  { unfold real_root. destruct (fs_canonicalize (sp_root self)) eqn:E; [by eapply fs_canonicalize_absolute | done]. }
  apply fs_canonicalize_absolute in Ec. destruct (canonicalize_absolute real Ec) as [Hc Hn].
  apply (inside_a_root _ _ Hc Hn); [by repeat constructor | exact Ei].
Qed.

(** ** Paths of plain names *)

Lemma components_abs l : plain_names l → l ≠ [] → components (abs_path l) = CRootDir :: map CNormal l.
Proof.
  intros Hl Hne. unfold components. rewrite split_abs by done.
  assert (rooted (abs_path l) = true) as -> by by apply starts_with_spec; eexists. f_equal. cbn [omap list_omap].
  change (piece "") with (@None Component). cbn. clear Hne. induction Hl as [|s l (Hs & _ & Hd & Hdd) _ IH]; [done|].
  cbn [omap list_omap map]. unfold piece at 1.
  destruct s as [|c s]; [done|]. cbn [is_empty orb].
  destruct (String.eqb_spec (String c s) "."); [done|]. destruct (String.eqb_spec (String c s) ".."); [done|].
  f_equal. exact IH.
Qed.
Lemma norm_names l out : norm_loop out true (map CNormal l) = (rev out ++ map CNormal l, true).
Proof. revert out. induction l as [|s l IH]; intros out; cbn; [by rewrite app_nil_r|]. rewrite IH. cbn. by rewrite <-app_assoc. Qed.
Lemma map_names l : map comp_str (map CNormal l) = l.
Proof. induction l; cbn; congruence. Qed.
Lemma normalize_abs l : plain_names l → l ≠ [] → normalize_lexical (abs_path l) = abs_path l.
Proof.
  intros Hl Hne. unfold normalize_lexical. rewrite components_abs by done. cbn [norm_loop]. rewrite norm_names. cbn [rev app].
  by rewrite map_names.
Qed.
Lemma parent_abs l x : plain_names (l ++ [x]) → path_parent (abs_path (l ++ [x])) = Some (abs_path l) ∧ path_file_name (abs_path (l ++ [x])) = Some x.
Proof.
  intros Hl. unfold path_parent, path_file_name. rewrite components_abs by (done || by destruct l).
  cbn [rev]. rewrite map_app, rev_app_distr. cbn [map rev app]. split; [|done].
  rewrite rev_app_distr, rev_involutive. cbn [rev app]. by rewrite map_names.
Qed.
Lemma trim_abs l : plain_names l → l ≠ [] → trim_end_matches SLASH (abs_path l) = abs_path l.
Proof.
  intros Hl Hne. destruct (join_last l Hl Hne) as (x & d & Hj & Hd). unfold abs_path. rewrite Hj, <-app_string_assoc.
  by apply trim_end_matches_noop.
Qed.
Lemma abs_snoc l x : l ≠ [] → abs_path (l ++ [x]) = abs_path l +:+ "/" +:+ x.
Proof. intros Hne. unfold abs_path. rewrite join_app by done. by rewrite !app_string_assoc. Qed.
Lemma canonical_abs `{Fs} l x :
  plain_names (l ++ [x]) → fs_canonicalize (abs_path l) = Some (abs_path l) →
  canonicalize_no_follow (abs_path (l ++ [x])) = abs_path (l ++ [x]).
Proof.
  intros Hl Hc. unfold canonicalize_no_follow. rewrite normalize_abs by (done || by destruct l).
  destruct (parent_abs l x Hl) as [-> ->]. destruct (is_empty (abs_path l)) eqn:E; [done|]. rewrite Hc.
  change (default (abs_path l) (Some (abs_path l))) with (abs_path l).
  destruct (decide (l = [])) as [->|Hne].
  - change (trim_end_matches SLASH (abs_path [])) with "". change ("" +:+ "/" +:+ x) with (abs_path [x]). by apply normalize_abs.
  - rewrite trim_abs, <-abs_snoc by (done || by apply Forall_app in Hl as []). apply normalize_abs; [done | by destruct l].
Qed.

(** A spool in a directory without symbolic links: the root, its parent and the
    stored blobs are their own canonical paths. *)
Record plain_spool {fs : Fs} (self : Spool) : Prop := {
  ps_names : ∃ l x, plain_names (l ++ [x]) ∧ sp_root self = abs_path (l ++ [x]) ∧
               fs_canonicalize (abs_path l) = Some (abs_path l);
  ps_root : fs_canonicalize (sp_root self) = Some (sp_root self);
  ps_links : ∀ p, fs_is_symlink p = false;
  ps_blobs : ∀ k b, sp_blobs self !! k = Some b → fs_canonicalize (blob_path self k) = Some (blob_path self k)
}.

Lemma hex_name hash : is_valid_hash hash = true → name_ok (hash +:+ ".blob") ∧ String.length hash = 64%nat.
Proof.
  unfold is_valid_hash. intros [Hl Hc]%andb_prop. apply Nat.eqb_eq in Hl. split; [|done].
  assert (has_char SLASH hash = false) as Hs.
  { clear Hl. induction hash as [|c h IH]; [done|]. simpl in Hc |- *. apply andb_prop in Hc as [Hc Hh]. rewrite (IH Hh), orb_false_r.
    destruct (Ascii.eqb_spec c SLASH) as [->|]; [done|done]. }
  destruct hash as [|a [|b [|c hash]]]; [done..|]. split; [done|]. split; [by rewrite has_char_app, Hs|]. split; done.
Qed.

Lemma resolve_plain {fs : Fs} self hash b :
  plain_spool self → is_valid_hash hash = true → sp_blobs self !! hash = Some b →
  spool_resolve self hash = Ok (blob_path self hash) ∧ read_blob self (blob_path self hash) = Ok (bl_bytes b).
Proof.
  intros [(l & x & Hl & Hr & Hcl) Hroot Hln Hb] Hv Hk. destruct (hex_name hash Hv) as [Hn Hlen].
  assert (plain_names ((l ++ [x]) ++ [hash +:+ ".blob"])) as Hl2 by by apply Forall_app; split; [|constructor].
  assert (l ++ [x] ≠ []) as Hne by (by destruct l).
  assert (blob_path self hash = abs_path ((l ++ [x]) ++ [hash +:+ ".blob"])) as Hbp.
  { unfold blob_path, path_join. rewrite Hr, (abs_snoc (l ++ [x])) by done.
    assert (rooted (hash +:+ "." +:+ BLOB_EXTENSION) = false) as ->.
    { destruct Hn as (_ & Hns & _). unfold rooted. destruct (starts_with "/" _) eqn:E; [|done].
      apply starts_with_spec in E as [r E]. change (hash +:+ ".blob" = "/" +:+ r) in E. rewrite E in Hns. discriminate Hns. }
    assert (is_empty (abs_path (l ++ [x])) || ends_with "/" (abs_path (l ++ [x])) = false) as ->; [|done].
    destruct (join_last (l ++ [x]) Hl Hne) as (y & d & Hj & Hd). unfold abs_path. rewrite Hj, <-app_string_assoc. apply orb_false_iff.
    split; [done|]. unfold ends_with. rewrite rev_string_append. destruct (starts_with _ _) eqn:E; [|done].
    apply starts_with_spec in E as [r E]. change (String d (rev_string ("/" +:+ y)) = String "/" r) in E. injection E as E _. done. }
  assert (blob_at self (sp_root self) (blob_path self hash) = Some b) as Hat.
  { unfold blob_at. rewrite Hbp, Hr, (abs_snoc (l ++ [x])), trim_abs by done. rewrite <-app_string_assoc.
    assert (strip_prefix (abs_path (l ++ [x]) +:+ "/") ((abs_path (l ++ [x]) +:+ "/") +:+ hash +:+ ".blob") = Some (hash +:+ ".blob")) as ->
      by by apply strip_prefix_spec. cbn [mbind option_bind].
    assert (ends_with ("." +:+ BLOB_EXTENSION) (hash +:+ ".blob") = true) as -> by by apply ends_with_spec; eexists.
    cbn [mbind option_bind]. rewrite string_length_app. change (String.length ".blob") with 5%nat. rewrite Nat.add_sub, str_take_app. done. }
  assert (real_root self = sp_root self) as Hrr by (unfold real_root; by rewrite Hroot).
  assert (canonicalize_no_follow (blob_path self hash) = blob_path self hash) as Hc1
    by (rewrite Hbp; apply canonical_abs; [done | by rewrite <-Hr]).
  assert (canonicalize_no_follow (sp_root self) = sp_root self) as Hc2 by (rewrite Hr; by apply canonical_abs).
  assert (inside (blob_path self hash) (sp_root self) = true) as Hin by (rewrite Hbp, Hr; apply inside_abs; [done..|by eexists]).
  split; [|unfold read_blob; by rewrite Hrr, Hat].
  unfold spool_resolve. rewrite Hv. cbn [negb].
  assert (enforce_floor (blob_path self hash) [sp_root self] = FAllowed) as ->.
  { unfold enforce_floor, leaf_symlink_target. rewrite Hc1, Hln. cbn [existsb]. rewrite Hc2, Hin. cbn [orb negb].
    rewrite Hbp, normalize_abs by (done || by destruct l). done. }
  rewrite (Hb _ _ Hk). unfold is_inside_root. cbn [existsb]. by rewrite Hrr, Hc1, Hc2, Hin, Hat.
Qed.

(** ** What was spooled can be read back *)

(** [retrieve] from line 0 on, as an agent follows the slices. *)
Fixpoint retrieve_pages {fs : Fs} (fuel : nat) (self : Spool) (hash : string) (limit offset : N) : option string :=
  match fuel with
  | O => None
  | S fuel =>
      match spool_retrieve self hash offset limit with
      | Err _ => None
      | Ok s => if ss_eof s then Some (ss_text s)
                else rest ← retrieve_pages fuel self hash limit (ss_next_offset s); Some (ss_text s +:+ rest)
      end
  end.
Lemma retrieve_pages_read {fs : Fs} self hash b limit :
  plain_spool self → is_valid_hash hash = true → sp_blobs self !! hash = Some b →
  ∀ fuel offset, retrieve_pages fuel self hash limit offset = read_pages fuel (λ o, slice_of hash (bl_bytes b) o limit) offset.
Proof.
  intros Hp Hv Hk. destruct (resolve_plain self hash b Hp Hv Hk) as [E1 E2].
  induction fuel as [|fuel IH]; intros offset; [done|]. cbn [retrieve_pages read_pages]. unfold spool_retrieve.
  rewrite E1. cbn [rbind]. rewrite E2. cbn [rbind]. destruct (ss_eof _); [done|]. by rewrite IH.
Qed.

(** [C25] In a spool without symbolic links, what a write acknowledges can be
    read back. A run of writes and retention passes returns exactly if the pass
    of the boot is not among them. When a write of a payload that is not empty
    is acknowledged after such a run, an agent that follows [retrieve_original]
    from line 0 with any limit gets every line of the payload, in order and
    nothing else, in at most one call more than it has lines - provided no line
    is longer than a slice may be, and unless SHA-256 collides. The bytes of a
    line are what [from_utf8_lossy] makes of them. *)
Theorem spooled_output_is_recoverable `{HashIterLaws} {sha : Sha256} {fs : Fs} data_dir ops fate payload now limit :
  (∀ p, is_valid_hash (sha256_hex p) = true) → payload ≠ "" → Forall (λ l, bytes_of l ≤ RETRIEVE_MAX_SLICE_BYTES)%N (str_lines payload) →
  (is_Some (spool_run (spool_new data_dir) ops) ↔ existsb is_boot ops = false) ∧
  ∀ self, spool_run (spool_new data_dir) ops = Some self →
  ∃ self' answer, spool_write self fate payload now = Some (self', answer) ∧
    ∀ ref, answer = Ok ref → plain_spool self' →
      (∃ other, collides other payload) ∨
      retrieve_pages (S (length (str_lines payload))) self' (sr_hash ref) limit 0 = Some (sconcat (shown <$> str_lines payload)).
Proof.
  intros Hhex Hne Hfit. pose proof (run_addressed (spool_new data_dir) ops) as Hrun.
  assert (Ha0 : addressed (spool_new data_dir)) by (split; [done|]; intros k b; cbn; by rewrite lookup_empty). specialize (Hrun Ha0).
  split; [destruct (spool_run _ _); [split; [by intros _; apply Hrun|done]|split; [by intros [? ?]|congruence]]|].
  intros self E. rewrite E in Hrun. destruct Hrun as (_ & Ha & _). destruct (write_answers self fate payload now (proj1 Ha)) as (self' & r & Ew).
  exists self', r. split; [done|]. intros ref -> Hp.
  destruct (write_addressed _ _ _ _ _ _ Ha Ew) as ([_ Ha'] & _ & Hok). destruct (Hok ref eq_refl) as [-> [b Hb]].
  destruct (decide (bl_bytes b = payload)) as [Heq|Hneq].
  - right. rewrite (retrieve_pages_read self' _ b limit Hp (Hhex _) Hb). rewrite Heq.
    rewrite pages_from; [by rewrite drop_0 | done | | lia | lia].
    apply (Forall_impl _ _ _ Hfit). intros l Hl. unfold fits. apply negb_true_iff, N.ltb_ge. rewrite N.add_0_l. exact Hl.
  - left. exists (bl_bytes b). split; [done|]. symmetry. by apply Ha' in Hb.
Qed.

Definition zero_digest : Sha256 := {| sha256_hex _ := "0000000000000000000000000000000000000000000000000000000000000000" |}.
(** A digest that tells one payload from all others. *)
Definition telling_digest (payload : string) : Sha256 :=
  {| sha256_hex p := if String.eqb p payload then "0000000000000000000000000000000000000000000000000000000000000000"
                     else "1111111111111111111111111111111111111111111111111111111111111111" |}.
Definition linkless_fs : Fs := {| fs_canonicalize p := Some p; fs_is_symlink _ := false; fs_identity _ := None |}.
Definition good_disk : WriteFate := {| wf_root := true; wf_put := true; wf_commit := true; wf_stuck _ := false; wf_clock := 5 |}.
Lemma linkless_plain data_dir l x m held ms :
  plain_names (l ++ [x]) → path_join data_dir "spool" = abs_path (l ++ [x]) →
  @plain_spool linkless_fs {| sp_root := path_join data_dir "spool"; sp_blobs := m; sp_last_prune_ms := ms; sp_held := held |}.
Proof. intros Hl Hr. split; [exists l, x; split; [done|]; split; done | done..]. Qed.
Definition demo_payload : string := "a" +:+ nl +:+ "b".
Definition demo_digest : Sha256 := telling_digest demo_payload.
Definition demo_ops : list SpoolOp := [SoPrune (λ _, false) 8%N].
Lemma spooled_output_is_recoverable_witness :
  ∃ self self' ref, @spool_run list_iter demo_digest (spool_new "/d") demo_ops = Some self ∧
  @spool_write list_iter demo_digest self good_disk demo_payload 9 = Some (self', Ok ref) ∧
  @retrieve_pages linkless_fs 3 self' (sr_hash ref) 1 0 = Some (demo_payload +:+ nl).
Proof.
  destruct (@spooled_output_is_recoverable list_iter list_iter_laws demo_digest linkless_fs "/d" demo_ops good_disk demo_payload 9 1) as [Hruns Hread].
  { intros p. cbn. by destruct (String.eqb p demo_payload). }
  { done. }
  { change (str_lines demo_payload) with ["a"; "b"]. repeat constructor; done. }
  destruct Hruns as [_ [self Hs]]; [done|]. destruct (Hread self Hs) as (self' & r & Hw & Hback). injection Hs as <-.
  destruct r as [ref|e]; [|discriminate Hw]. eexists. exists self', ref. split; [reflexivity|]. split; [exact Hw|].
  assert (Hp : @plain_spool linkless_fs self').
  { injection Hw as <- _. apply (linkless_plain "/d" ["d"] "spool"); [by repeat constructor | done]. }
  destruct (Hback ref eq_refl Hp) as [[other [Hne Hc]]|Hr]; [|exact Hr]. exfalso. revert Hc. cbn. rewrite String.eqb_refl.
  by destruct (String.eqb_spec other demo_payload).
Defined.

(** ** The threshold and the preview *)

(** A result is spooled exactly when it is longer than the inline budget. *)
Theorem spool_threshold bytes : should_spool bytes = true ↔ (TOOL_OUTPUT_SERIALIZE_CAP * CHARS_PER_TOKEN < bytes)%N.
Proof.
  unfold should_spool, estimate_tokens, TOOL_OUTPUT_SERIALIZE_CAP, CHARS_PER_TOKEN. rewrite N.ltb_lt. split; intros H.
  - destruct (N.le_gt_cases bytes (2000 * 4)) as [Hle|]; [|done].
    assert ((bytes + (4 - 1)) / 4 < 2001)%N by (apply N.Div0.div_lt_upper_bound; lia). lia.
  - assert (2001 <= (bytes + (4 - 1)) / 4)%N by (apply N.div_le_lower_bound; lia). lia.
Qed.

Example lossy_replaces :
  from_utf8_lossy (String "a" (String (ascii_of_N 195) (String (ascii_of_N 169) "b"))) = String "a" (String (ascii_of_N 195) (String (ascii_of_N 169) "b")) ∧
  from_utf8_lossy (String (ascii_of_N 226) (String (ascii_of_N 130) "x")) = REPLACEMENT +:+ "x" ∧
  from_utf8_lossy (String (ascii_of_N 237) (String (ascii_of_N 160) "x")) = REPLACEMENT +:+ REPLACEMENT +:+ "x".
Proof. by vm_compute. Qed.

(** ASCII text is what it is. *)
Lemma lossy_ascii s : is_ascii s = true → from_utf8_lossy s = s.
Proof.
  unfold from_utf8_lossy. induction s as [|c s IH]; [done|]. simpl. intros [Hc Hs]%andb_prop.
  unfold utf8_piece. assert (utf8_width c = 1%nat) as ->.
  { unfold utf8_width, in_range. unfold is_ascii_char in Hc. apply N.ltb_lt in Hc.
    destruct (N.leb_spec (N_of_ascii c) 127); [|lia]. destruct (N.leb_spec 0 (N_of_ascii c)); [done|lia]. }
  cbn [pred]. by rewrite IH.
Qed.

(** A blob that is written again keeps its old time: the reference just handed
    out is reclaimed with it. *)
Theorem rewritten_blob_keeps_its_age :
  let write fate s now := @spool_write list_iter zero_digest s fate "x" now in
  ∃ s1 r1 s2 r2, write {| wf_root := true; wf_put := true; wf_commit := true; wf_stuck _ := false; wf_clock := 1000 |} (spool_new "/d") 1000%N = Some (s1, Ok r1) ∧
    write good_disk s1 (retention_ms + 1000)%N = Some (s2, Ok r2) ∧ sr_created_ms r2 = (retention_ms + 1000)%N ∧
    ∃ s3 stats, @spool_prune list_iter s2 (λ _, false) (retention_ms + 1001)%N = Some (s3, stats) ∧ sp_blobs s3 !! sr_hash r2 = None.
Proof. do 4 eexists. split; [vm_compute; reflexivity|]. split; [vm_compute; reflexivity|]. split; [done|]. do 2 eexists. split; [vm_compute; reflexivity|]. done. Qed.
