(* ===== verification/Bridge.v ===== *)
(** * The permission bridge of the agent protocol

    [everyaios-acp/src/permission_bridge.rs] with the types it answers
    ([messages.rs]): how a decision of the trust plane becomes one of the options
    an agent offered, which ticket may back an allow, and the preview an approver
    reads. The redactor of the preview is in [Redact]; the text of a JSON value
    is a parameter.

    What it guarantees: an allow on the wire is an offered option and a ticket
    the executor can spend; the preview an approver reads shows no
    credential, one field aside. *)
From S2P Require Import Order Prelude.
From S2P Require Import Json Binding Ticket Redact Spool.

(* SRC acp/src/messages.rs @enum:PermissionOptionKind PermissionOptionKind *)
Inductive PermissionOptionKind := AllowOnce | AllowAlways | RejectOnce | RejectAlways | OtherOption.
#[export] Instance option_kind_eq : EqDecision PermissionOptionKind.
Proof. solve_decision. Defined.
(* SRC acp/src/messages.rs @struct:PermissionOption PermissionOption *)
Record PermissionOption := { po_option_id : string; po_kind : PermissionOptionKind; po_label : string }.
(* SRC acp/src/messages.rs @enum:ToolKind ToolKind *)
Inductive ToolKind := KRead | KEdit | KDelete | KMove | KSearch | KExecute | KThink | KFetch | KOther.
(* SRC acp/src/messages.rs @fn:as_str#1 ToolKind::as_str *)
Definition tool_kind_as_str (k : ToolKind) : string :=
  match k with
  | KRead => "read" | KEdit => "edit" | KDelete => "delete" | KMove => "move" | KSearch => "search"
  | KExecute => "execute" | KThink => "think" | KFetch => "fetch" | KOther => "other"
  end.
(* SRC acp/src/messages.rs @fn:is_mutation ToolKind::is_mutation *)
Definition tool_kind_is_mutation (k : ToolKind) : bool :=
  match k with KEdit | KDelete | KMove | KExecute => true | _ => false end.
(** The fields the bridge reads: the texts of the content blocks and the URIs of
    the locations. *)
(* SRC acp/src/messages.rs @struct:ToolCall ToolCall *)
Record ToolCall := {
  tc_tool_call_id : string; tc_title : string; tc_kind : option ToolKind; tc_content : list string; tc_locations : list string;
  tc_raw_input : option Value
}.
(* SRC acp/src/messages.rs @struct:PermissionRequestParams PermissionRequestParams *)
Record PermissionRequestParams := { pr_session_id : string; pr_tool_call : ToolCall; pr_options : list PermissionOption }.
(* SRC acp/src/messages.rs @enum:PermissionDecision PermissionDecision *)
Inductive PermissionDecision := PdAllow (option_id : option string) | PdDeny (option_id : option string).

(** ** Answers *)

(* SRC acp/src/permission_bridge.rs @enum:AcpApprovalChoice AcpApprovalChoice *)
Inductive AcpApprovalChoice := ChOnce | ChAlways | ChReject.
#[export] Instance choice_eq : EqDecision AcpApprovalChoice.
Proof. solve_decision. Defined.
(* SRC acp/src/permission_bridge.rs @fn:accepted_kinds AcpApprovalChoice::accepted_kinds *)
Definition accepted_kinds (c : AcpApprovalChoice) : list PermissionOptionKind :=
  match c with
  | ChOnce => [AllowOnce]
  | ChAlways => [AllowAlways; AllowOnce]
  | ChReject => [RejectOnce; RejectAlways]
  end.
(* SRC acp/src/permission_bridge.rs @fn:card_vocabulary AcpApprovalChoice::card_vocabulary *)
Definition card_vocabulary (c : AcpApprovalChoice) : string :=
  match c with ChOnce => "once" | ChAlways => "always" | ChReject => "deny" end.

(* SRC acp/src/permission_bridge.rs @struct:TicketBinding TicketBinding *)
Record TicketBinding := { tb_agent_id : string; tb_session_id : string; tb_args_hash : string }.
(* SRC acp/src/permission_bridge.rs @struct:TicketFacts TicketFacts *)
Record TicketFacts := {
  tf_ticket_id : string; tf_agent_id : string; tf_session_id : string; tf_args_hash : string; tf_single_use : bool;
  tf_validated_by_guard : bool
}.
(* SRC acp/src/permission_bridge.rs @fn:from_ticket TicketFacts::from_ticket *)
Definition from_ticket (now : N) (t : AuthorizationTicket) : TicketFacts :=
  {| tf_ticket_id := ticket_id t; tf_agent_id := agent_id t; tf_session_id := session_id t; tf_args_hash := args_hash t;
     tf_single_use := single_use t; tf_validated_by_guard := is_valid now t |}.

(* SRC acp/src/permission_bridge.rs @struct:TrustOutcome TrustOutcome *)
Record TrustOutcome := { to_choice : AcpApprovalChoice; to_ticket : option TicketFacts; to_policy_recorded : bool; to_reason : string }.
(* SRC acp/src/permission_bridge.rs @fn:once TrustOutcome::once *)
Definition outcome_once (ticket : TicketFacts) (reason : string) : TrustOutcome :=
  {| to_choice := ChOnce; to_ticket := Some ticket; to_policy_recorded := false; to_reason := reason |}.
(* SRC acp/src/permission_bridge.rs @fn:always TrustOutcome::always *)
Definition outcome_always (ticket : TicketFacts) (policy_recorded : bool) (reason : string) : TrustOutcome :=
  {| to_choice := ChAlways; to_ticket := Some ticket; to_policy_recorded := policy_recorded; to_reason := reason |}.
(* SRC acp/src/permission_bridge.rs @fn:reject TrustOutcome::reject *)
Definition outcome_reject (reason : string) : TrustOutcome :=
  {| to_choice := ChReject; to_ticket := None; to_policy_recorded := false; to_reason := reason |}.

(* SRC acp/src/permission_bridge.rs @enum:BridgeError BridgeError *)
Inductive BridgeError :=
  | BeMissingTicket (what : string) | BeTicketNotLive | BeTicketNotSingleUse | BeBindingMismatch (what : string)
  | BeNoOfferedOption (what : string) | BeUnknownOptionId (id : string).
(* SRC acp/src/permission_bridge.rs @struct:BridgeAnswer BridgeAnswer *)
Record BridgeAnswer := {
  ba_decision : PermissionDecision; ba_choice : AcpApprovalChoice; ba_option_id : string; ba_ticket_id : option string;
  ba_narrowed : bool; ba_reason : string
}.

(* SRC acp/src/permission_bridge.rs @fn:select_option select_option *)
Definition select_option (request : PermissionRequestParams) (choice : AcpApprovalChoice) : option string :=
  po_option_id <$> head (omap (λ kind, List.find (λ o, bool_decide (po_kind o = kind)) (pr_options request)) (accepted_kinds choice)).
(* SRC acp/src/permission_bridge.rs @fn:offered_id offered_id *)
Definition offered_id (request : PermissionRequestParams) (id : string) : result string BridgeError :=
  match List.find (λ o, String.eqb (po_option_id o) id) (pr_options request) with
  | Some o => Ok (po_option_id o)
  | None => Err (BeUnknownOptionId id)
  end.

(** [{:?}] of a string: an interface, quoted in the text of two errors. *)
Class BridgeDebug := { bridge_debug : string → string }.

(* SRC acp/src/permission_bridge.rs @fn:require_once_ticket require_once_ticket *)
Definition require_once_ticket `{BridgeDebug} (ticket : TicketFacts) (binding : TicketBinding) : result unit BridgeError :=
  if is_empty (trim (tf_ticket_id ticket)) then Err (BeMissingTicket "<empty>")
  else if negb (tf_validated_by_guard ticket) then Err BeTicketNotLive
  else if negb (tf_single_use ticket) then Err BeTicketNotSingleUse
  else if negb (String.eqb (tf_agent_id ticket) (tb_agent_id binding)) then
    Err (BeBindingMismatch ("ticket agent " +:+ bridge_debug (tf_agent_id ticket) +:+ " is not the requesting agent " +:+ bridge_debug (tb_agent_id binding)))
  else if negb (String.eqb (tf_session_id ticket) (tb_session_id binding)) then
    Err (BeBindingMismatch ("ticket session " +:+ bridge_debug (tf_session_id ticket) +:+ " is not the requesting session " +:+ bridge_debug (tb_session_id binding)))
  else if negb (String.eqb (tf_args_hash ticket) (tb_args_hash binding)) then
    Err (BeBindingMismatch "ticket arguments do not match this request")
  else Ok tt.

(* SRC acp/src/permission_bridge.rs @fn:answer PermissionBridge::answer *)
Definition bridge_answer `{BridgeDebug} (request : PermissionRequestParams) (binding : TicketBinding) (outcome : TrustOutcome)
    : result BridgeAnswer BridgeError :=
  let '(choice, narrowed) :=
    match to_choice outcome with
    | ChAlways => if to_policy_recorded outcome then (ChAlways, false) else (ChOnce, true)
    | other => (other, false)
    end in
  if bool_decide (choice = ChReject) then
    match select_option request ChReject with
    | None => Err (BeNoOfferedOption "reject")
    | Some option_id =>
        Ok {| ba_decision := PdDeny (Some option_id); ba_choice := choice; ba_option_id := option_id; ba_ticket_id := None;
              ba_narrowed := narrowed; ba_reason := to_reason outcome |}
    end
  else
    match select_option request choice with
    | None => Err (BeNoOfferedOption (card_vocabulary choice))
    | Some option_id =>
        match to_ticket outcome with
        | None => Err (BeMissingTicket (tc_tool_call_id (pr_tool_call request)))
        | Some ticket =>
            _ <-? require_once_ticket ticket binding;;
            Ok {| ba_decision := PdAllow (Some option_id); ba_choice := choice; ba_option_id := option_id;
                  ba_ticket_id := Some (tf_ticket_id ticket); ba_narrowed := narrowed; ba_reason := to_reason outcome |}
        end
    end.

(* SRC acp/src/permission_bridge.rs @fn:resolve PermissionBridge::resolve *)
Definition bridge_resolve (request : PermissionRequestParams) (decision : PermissionDecision) : result string BridgeError :=
  match decision with
  | PdAllow (Some id) => offered_id request id
  | PdDeny (Some id) => offered_id request id
  | PdAllow None => match select_option request ChOnce with Some id => Ok id | None => Err (BeNoOfferedOption "allow_once") end
  | PdDeny None => match select_option request ChReject with Some id => Ok id | None => Err (BeNoOfferedOption "reject") end
  end.

(** ** The preview *)

(* SRC acp/src/permission_bridge.rs @const:PREVIEW_MAX_DIFF_CHARS PREVIEW_MAX_DIFF_CHARS *)
Definition PREVIEW_MAX_DIFF_CHARS : nat := 2000.
(* SRC acp/src/permission_bridge.rs @const:PREVIEW_MAX_TITLE_CHARS PREVIEW_MAX_TITLE_CHARS *)
Definition PREVIEW_MAX_TITLE_CHARS : nat := 200.
(* SRC acp/src/permission_bridge.rs @const:PREVIEW_MAX_PATHS PREVIEW_MAX_PATHS *)
Definition PREVIEW_MAX_PATHS : nat := 32.
(* SRC acp/src/permission_bridge.rs @const:PREVIEW_MAX_PATH_CHARS PREVIEW_MAX_PATH_CHARS *)
Definition PREVIEW_MAX_PATH_CHARS : nat := 512.
(* SRC acp/src/permission_bridge.rs @const:PREVIEW_MAX_SCRIPT_LINES PREVIEW_MAX_SCRIPT_LINES *)
Definition PREVIEW_MAX_SCRIPT_LINES : nat := 20.
(* SRC acp/src/permission_bridge.rs @const:PREVIEW_MAX_LINE_CHARS ACP_PREVIEW_MAX_LINE_CHARS *)
Definition ACP_PREVIEW_MAX_LINE_CHARS : nat := 400.
(* SRC acp/src/permission_bridge.rs @const:PREVIEW_MAX_DESTINATIONS PREVIEW_MAX_DESTINATIONS *)
Definition PREVIEW_MAX_DESTINATIONS : nat := 16.
(* SRC acp/src/permission_bridge.rs @const:OLD_TEXT_KEYS OLD_TEXT_KEYS *)
Definition OLD_TEXT_KEYS : list string := ["oldText"; "old_text"; "old_string"; "oldString"; "before"; "original"; "old_content"].
(* SRC acp/src/permission_bridge.rs @const:NEW_TEXT_KEYS NEW_TEXT_KEYS *)
Definition NEW_TEXT_KEYS : list string :=
  ["newText"; "new_text"; "new_string"; "newString"; "after"; "replacement"; "new_content"; "content"].
(* SRC acp/src/permission_bridge.rs @const:PATCH_KEYS PATCH_KEYS *)
Definition PATCH_KEYS : list string := ["patch"; "diff"; "unified_diff"; "unifiedDiff"].
(* SRC acp/src/permission_bridge.rs @const:COMMAND_KEYS COMMAND_KEYS *)
Definition COMMAND_KEYS : list string := ["command"; "cmd"; "script"; "shell_command"; "commandLine"].

(** [str::lines]: the pieces between line feeds without a carriage return before
    the line feed, and without a last empty piece. *)
Definition strip_cr (s : string) : string := if ends_with (ch CR) s then str_take (pred (String.length s)) s else s.
Definition text_lines (s : string) : list string :=
  let ps := str_lines s in
  if ends_with nl s then map strip_cr ps
  else match rev ps with [] => [] | last :: init => map strip_cr (rev init) ++ [last] end.

(** The white-space character that a text starts with. *)
Definition space_at (s : string) : option string := List.find (λ w, starts_with w s) white_space.
(** [split_whitespace().next()]. *)
Fixpoint until_space (s : string) : string :=
  match s with "" => "" | String c s' => match space_at s with Some _ => "" | None => String c (until_space s') end end.
Definition first_word (s : string) : option string :=
  let t := trim_start s in if is_empty t then None else Some (until_space t).
(** [split(|c| c.is_whitespace() || c is a quote)]: [skip] bytes belong to a separator. *)
Fixpoint split_tokens (skip : nat) (s : string) : list string :=
  match s with
  | "" => [""]
  | String c s' =>
      match skip with
      | S skip => split_tokens skip s'
      | O =>
          match (if is_quote c then Some (ch c) else space_at s) with
          | Some w => "" :: split_tokens (pred (String.length w)) s'
          | None => match split_tokens 0 s' with [] => [ch c] | t :: ts => String c t :: ts end
          end
      end
  end.

(* SRC acp/src/permission_bridge.rs @fn:cap_line cap_line *)
Definition cap_line (line : string) : string :=
  let kept := take_chars ACP_PREVIEW_MAX_LINE_CHARS line in if String.eqb kept line then line else kept +:+ ELLIPSIS.
(** The texts carry whether something was cut. *)
(* SRC acp/src/permission_bridge.rs @fn:cap_line_tracked cap_line_tracked *)
Definition cap_line_tracked (line : string) (truncated : bool) : string * bool :=
  (cap_line line, truncated || negb (String.eqb (take_chars ACP_PREVIEW_MAX_LINE_CHARS line) line)).

(** The characters pushed while fewer than [max] bytes are there; [used] bytes
    are, and [inside] says that a character was begun. *)
Fixpoint push_chars (max used : nat) (s : string) : string :=
  match s with
  | "" => ""
  | String c s' => if continuation c || Nat.ltb used max then String c (push_chars max (S used) s') else ""
  end.
(* SRC acp/src/permission_bridge.rs @fn:cap_text cap_text *)
Definition cap_text (text : string) (max_chars : nat) (truncated : bool) : string * bool * bool :=
  let value := push_chars max_chars 0 text in
  let '(shown, redacted) := redact_secret_shapes value in
  (shown, truncated || Nat.ltb (String.length value) (String.length text), redacted).

(* SRC acp/src/permission_bridge.rs @fn:push_text_lines push_text_lines *)
Definition push_text_lines (lines : list string) (text marker : string) (truncated : bool) : list string * bool :=
  let all := text_lines text in
  let kept := take (PREVIEW_MAX_SCRIPT_LINES * 5) all in
  (lines ++ map (λ l, marker +:+ " " +:+ cap_line l) kept,
   truncated || existsb (λ l, (cap_line_tracked l false).2) kept || Nat.ltb (PREVIEW_MAX_SCRIPT_LINES * 5) (length all)).

(** The loop of [join_bounded] from one index on: what is there, whether it was
    cut, whether it was redacted. *)
Fixpoint join_from (first : bool) (out : string) (lines : list string) (max_chars : nat) (truncated redacted : bool) : string * bool * bool :=
  match lines with
  | [] => (out, truncated, redacted)
  | line :: lines =>
      let out := if first then out else out +:+ nl in
      if Nat.ltb max_chars (String.length out + String.length line) then (out, true, redacted)
      else let '(value, was) := redact_secret_shapes line in join_from false (out +:+ value) lines max_chars truncated (redacted || was)
  end.
(* SRC acp/src/permission_bridge.rs @fn:join_bounded join_bounded *)
Definition join_bounded (lines : list string) (max_chars : nat) (truncated : bool) : string * bool * bool :=
  join_from true "" lines max_chars truncated false.

(** The length of the host: up to a slash, a question mark or a hash sign. *)
(* SRC acp/src/permission_bridge.rs @fn:url_host url_host *)
Definition url_host (token : string) : option string :=
  let around (c : ascii) := existsb (Ascii.eqb c) ["("; ")"; ","]%char in
  let token := rev_string (drop_while around (rev_string (drop_while around token))) in
  match head (omap (λ scheme, pair scheme <$> strip_prefix scheme token) ["https://"; "http://"; "wss://"; "ws://"; "file://"]) with
  | None => None
  | Some (scheme, rest) =>
      let host := take_while (λ c, negb (existsb (Ascii.eqb c) ["/"; "?"; "#"]%char)) rest in
      if is_empty host then None else Some (cap_line (scheme +:+ host))
  end.

(** The loop over the tokens; it ends when the list is full. *)
Fixpoint destinations_from (out : list string) (tokens : list string) : list string :=
  match tokens with
  | [] => out
  | token :: tokens =>
      match url_host token with
      | None => destinations_from out tokens
      | Some host =>
          let out := if existsb (String.eqb host) out then out else out ++ [host] in
          if Nat.leb PREVIEW_MAX_DESTINATIONS (length out) then out else destinations_from out tokens
      end
  end.
(* SRC acp/src/permission_bridge.rs @fn:collect_destinations collect_destinations *)
Definition collect_destinations (diff : string) (script_lines : list string) : list string * bool :=
  let '(masked, redacted) := redact_secret_shapes (diff +:+ nl +:+ join nl script_lines) in
  (destinations_from [] (split_tokens 0 masked), redacted).

(** What [render_arguments] builds up: lines, script lines, the target, the flag. *)
Record Rendering := { rn_lines : list string; rn_script : list string; rn_target : string; rn_truncated : bool }.

Section preview.
(** [serde_json::to_string] of a value. *)
Variable to_string : Value → string.

(* SRC acp/src/permission_bridge.rs @fn:as_text as_text *)
Definition as_text (value : Value) : string := match value with JString text => text | other => to_string other end.

(** One argument of the call. *)
Definition render_argument (map : list (string * Value)) (r : Rendering) (key : string) : Rendering :=
  let value := default JNull (obj_get key map) in
  let text marker text :=
    let '(lines, truncated) := push_text_lines (rn_lines r) text marker (rn_truncated r) in
    {| rn_lines := lines; rn_script := rn_script r; rn_target := rn_target r; rn_truncated := truncated |} in
  let line rendered :=
    let '(capped, truncated) := cap_line_tracked rendered (rn_truncated r) in
    {| rn_lines := rn_lines r ++ [key +:+ " = " +:+ capped]; rn_script := rn_script r; rn_target := rn_target r; rn_truncated := truncated |} in
  if existsb (String.eqb key) PATCH_KEYS then text "-" (as_text value)
  else if existsb (String.eqb key) OLD_TEXT_KEYS then text "-" (as_text value)
  else if existsb (String.eqb key) NEW_TEXT_KEYS then text "+" (as_text value)
  else if existsb (String.eqb key) COMMAND_KEYS then
    let command := as_text value in
    let kept := take PREVIEW_MAX_SCRIPT_LINES (text_lines command) in
    let truncated := rn_truncated r || existsb (λ l, (cap_line_tracked l false).2) kept
                     || Nat.ltb PREVIEW_MAX_SCRIPT_LINES (length (text_lines command)) in
    let '(target, truncated) :=
      if is_empty (rn_target r) then cap_line_tracked (default "" (first_word command)) truncated else (rn_target r, truncated) in
    {| rn_lines := rn_lines r; rn_script := rn_script r ++ List.map cap_line kept; rn_target := target; rn_truncated := truncated |}
  else match value with
       | JString s => if has_char NL s then text "+" s else line s
       | other => line (to_string other)
       end.

(** [trim_start_matches(['-', '+', ' '])]. *)
Definition strip_marker (s : string) : string := drop_while (λ c, existsb (Ascii.eqb c) ["-"; "+"; " "]%char) s.

(* SRC acp/src/permission_bridge.rs @fn:render_arguments render_arguments *)
Definition render_arguments (raw_input : option Value) (content : list string) (kind : string) (truncated : bool)
    : (string * list string * string) * bool * bool * bool :=
  let r := {| rn_lines := []; rn_script := []; rn_target := ""; rn_truncated := truncated |} in
  let r := match raw_input with
           | Some (JObject map) => foldl (render_argument map) r (sort_by str_le (List.map fst map))
           | _ => r
           end in
  let r :=
    if Nat.eqb (length (rn_lines r)) 0
    then foldl (λ r text, if is_empty (trim text) then r
                          else let '(lines, truncated) := push_text_lines (rn_lines r) text "+" (rn_truncated r) in
                               {| rn_lines := lines; rn_script := rn_script r; rn_target := rn_target r; rn_truncated := truncated |}) r content
    else r in
  let r :=
    if Nat.eqb (length (rn_script r)) 0 && String.eqb kind (tool_kind_as_str KExecute) then
      let script := List.map (λ l, cap_line (strip_marker l)) (take PREVIEW_MAX_SCRIPT_LINES (rn_lines r)) in
      {| rn_lines := rn_lines r; rn_script := script;
         rn_target := if is_empty (rn_target r) then cap_line (default "" (head script ≫= first_word)) else rn_target r;
         rn_truncated := rn_truncated r |}
    else r in
  let '(diff, truncated, diff_redacted) := join_bounded (rn_lines r) PREVIEW_MAX_DIFF_CHARS (rn_truncated r) in
  let script := List.map redact_secret_shapes (rn_script r) in
  ((diff, List.map fst script, rn_target r), truncated, diff_redacted, existsb snd script).

(* SRC acp/src/permission_bridge.rs @struct:PermissionPreview PermissionPreview *)
Record PermissionPreview := {
  pp_tool_call_id : string; pp_title : string; pp_kind : string; pp_operation : string; pp_risk : RiskLevel; pp_paths : list string;
  pp_diff : string; pp_script_lines : list string; pp_execution_target : string; pp_network_destinations : list string;
  pp_truncated : bool; pp_redacted : bool
}.
(** The capped locations, with the two flags. *)
Fixpoint preview_paths (paths : list string) (locations : list string) (truncated redacted : bool) : list string * bool * bool :=
  match locations with
  | [] => (paths, truncated, redacted)
  | location :: locations =>
      if Nat.leb PREVIEW_MAX_PATHS (length paths) then (paths, true, redacted)
      else let '(uri, truncated, uri_redacted) := cap_text location PREVIEW_MAX_PATH_CHARS truncated in
           preview_paths (paths ++ [uri]) locations truncated (redacted || uri_redacted)
  end.
(* SRC acp/src/permission_bridge.rs @fn:build PermissionPreview::build *)
Definition preview_build (request : PermissionRequestParams) (operation : string) (risk : RiskLevel) : PermissionPreview :=
  let tool_call := pr_tool_call request in
  let kind := tool_kind_as_str (default KOther (tc_kind tool_call)) in
  let '(title, truncated, redacted) := cap_text (tc_title tool_call) PREVIEW_MAX_TITLE_CHARS false in
  let '(paths, truncated, redacted) := preview_paths [] (tc_locations tool_call) truncated redacted in
  let '((diff, script_lines, target), truncated, d_redacted, s_redacted) :=
    render_arguments (tc_raw_input tool_call) (tc_content tool_call) kind truncated in
  let '(destinations, n_redacted) := collect_destinations diff script_lines in
  {| pp_tool_call_id := tc_tool_call_id tool_call; pp_title := title; pp_kind := kind; pp_operation := operation; pp_risk := risk;
     pp_paths := paths; pp_diff := diff; pp_script_lines := script_lines; pp_execution_target := target;
     pp_network_destinations := destinations; pp_truncated := truncated;
     pp_redacted := redacted || (d_redacted || s_redacted) || n_redacted |}.
End preview.

(** * What the permission bridge guarantees *)


(** ** Options *)

Lemma select_option_spec request choice id :
  select_option request choice = Some id →
  ∃ o, o ∈ pr_options request ∧ po_option_id o = id ∧ po_kind o ∈ accepted_kinds choice.
Proof.
  unfold select_option. destruct (head _) as [o|] eqn:E; [|done]. intros [= <-].
  apply head_omap_Some in E as (k & Hk & Hf). apply List.find_some in Hf as [Hin Hb]. apply bool_decide_eq_true in Hb.
  exists o. split; [by apply list_elem_of_In|]. split; [done|]. by rewrite Hb.
Qed.
Lemma select_option_None request choice :
  select_option request choice = None ↔ ∀ o, o ∈ pr_options request → po_kind o ∉ accepted_kinds choice.
Proof.
  unfold select_option. rewrite fmap_None, head_omap_None. split.
  - intros H o Ho Hk. pose proof (List.find_none _ _ (H _ Hk) o) as Hf. rewrite <-list_elem_of_In in Hf. specialize (Hf Ho).
    cbv beta in Hf. by rewrite bool_decide_eq_true_2 in Hf.
  - intros H k Hk. destruct (List.find _ _) as [o|] eqn:E; [|done]. apply List.find_some in E as [Hin Hb].
    apply bool_decide_eq_true in Hb. apply list_elem_of_In in Hin. destruct (H o Hin). by rewrite Hb.
Qed.

Lemma offered_ok request id : (∃ o, o ∈ pr_options request ∧ po_option_id o = id) → offered_id request id = Ok id.
Proof.
  intros (o & Hin & Ho). unfold offered_id. destruct (List.find _ _) as [o'|] eqn:E.
  - apply List.find_some in E as [_ He]. by apply String.eqb_eq in He as ->.
  - apply list_elem_of_In in Hin. pose proof (List.find_none _ _ E o Hin) as Hf. cbv beta in Hf. by rewrite Ho, String.eqb_refl in Hf.
Qed.

(** The choice that is put on the wire. *)
Definition effective_choice (outcome : TrustOutcome) : AcpApprovalChoice :=
  match to_choice outcome with ChAlways => if to_policy_recorded outcome then ChAlways else ChOnce | c => c end.

Section bridge.
Context `{BridgeDebug}.

Lemma require_once_ok ticket binding :
  require_once_ticket ticket binding = Ok tt ↔
  is_empty (trim (tf_ticket_id ticket)) = false ∧ tf_validated_by_guard ticket = true ∧ tf_single_use ticket = true ∧
  tf_agent_id ticket = tb_agent_id binding ∧ tf_session_id ticket = tb_session_id binding ∧ tf_args_hash ticket = tb_args_hash binding.
Proof.
  unfold require_once_ticket. destruct (is_empty _); [by split; [|intros []]|]. destruct (tf_validated_by_guard _); [|split; [done | naive_solver]].
  destruct (tf_single_use _); [|split; [done | naive_solver]]. cbn [negb].
  destruct (String.eqb_spec (tf_agent_id ticket) (tb_agent_id binding)); [|split; [done | naive_solver]].
  destruct (String.eqb_spec (tf_session_id ticket) (tb_session_id binding)); [|split; [done | naive_solver]].
  destruct (String.eqb_spec (tf_args_hash ticket) (tb_args_hash binding)); [|split; [done | naive_solver]]. by split.
Qed.

(** The answers of the bridge, exactly. *)
Lemma answer_ok request binding outcome a :
  bridge_answer request binding outcome = Ok a ↔
  select_option request (effective_choice outcome) = Some (ba_option_id a) ∧ ba_choice a = effective_choice outcome ∧
  ba_narrowed a = bool_decide (effective_choice outcome ≠ to_choice outcome) ∧ ba_reason a = to_reason outcome ∧
  (if bool_decide (effective_choice outcome = ChReject)
   then ba_decision a = PdDeny (Some (ba_option_id a)) ∧ ba_ticket_id a = None
   else ba_decision a = PdAllow (Some (ba_option_id a)) ∧
        ∃ t, to_ticket outcome = Some t ∧ ba_ticket_id a = Some (tf_ticket_id t) ∧ require_once_ticket t binding = Ok tt).
Proof.
  unfold bridge_answer, effective_choice. destruct outcome as [choice ticket recorded reason]. cbn [to_choice to_policy_recorded to_ticket to_reason].
  destruct a as [dec ch oid tid nar rsn]. cbn [ba_option_id ba_choice ba_narrowed ba_reason ba_decision ba_ticket_id].
  destruct choice, recorded; repeat first [rewrite bool_decide_eq_true_2 by done | rewrite bool_decide_eq_false_2 by (done || by intros [])];
    match goal with |- context [select_option ?r ?c] => destruct (select_option r c) as [id|] end; try (by split; [|intros []]);
    try (destruct ticket as [t|]; [|split; [done | naive_solver]]);
    try (destruct (require_once_ticket t binding) as [[]|e] eqn:Er; cbn [rbind];
      [|split; [done | intros (_ & _ & _ & _ & _ & t' & [= <-] & _ & Hr); congruence]]).
  all: split; [intros [= <- <- <- <- <- <-]; eauto 12 | naive_solver congruence].
Qed.
End bridge.

(** ** An allow *)

Section allow.
Context `{BridgeDebug} {sha : Sha256}.

(** [C26] When the bridge answers with an allow from the facts a stored ticket has
    at that instant, the option it names is one the agent offered - an
    allow-always only if the user chose always and the trust plane recorded the
    policy -, the resolver sends just that option, the ticket is bound to the
    requesting agent, session and arguments, and the executor spends it at that
    instant with those arguments; from the facts of the spent ticket no answer
    is an allow. Until it is spent the ticket may back several answers. *)
Theorem allow_is_backed_by_a_spendable_ticket request binding outcome a now s id t :
  tickets s !! id = Some t → to_ticket outcome = Some (from_ticket now t) → to_choice outcome ≠ ChReject →
  bridge_answer request binding outcome = Ok a →
  (∃ o, o ∈ pr_options request ∧ po_option_id o = ba_option_id a ∧
     (po_kind o = AllowOnce ∨ po_kind o = AllowAlways ∧ to_choice outcome = ChAlways ∧ to_policy_recorded outcome = true)) ∧
  ba_decision a = PdAllow (Some (ba_option_id a)) ∧ bridge_resolve request (ba_decision a) = Ok (ba_option_id a) ∧
  ba_ticket_id a = Some (ticket_id t) ∧ agent_id t = tb_agent_id binding ∧ session_id t = tb_session_id binding ∧ args_hash t = tb_args_hash binding ∧
  use_ticket now s id (tb_args_hash binding) = (Ok tt, put_ticket s id (set_state t Used)) ∧
  (∀ request' binding' outcome' now' b, to_choice outcome' ≠ ChReject →
     to_ticket outcome' = Some (from_ticket now' (set_state t Used)) → bridge_answer request' binding' outcome' ≠ Ok b).
Proof.
  assert (Hne : ∀ o, to_choice o ≠ ChReject → bool_decide (effective_choice o = ChReject) = false).
  { intros o Ho. apply bool_decide_eq_false_2. unfold effective_choice. destruct (to_choice o), (to_policy_recorded o); done. }
  intros Ht Hto Hch Ha. apply answer_ok in Ha as (Hsel & _ & _ & _ & Hd). rewrite (Hne _ Hch) in Hd.
  destruct Hd as (Hdec & t' & Ht' & Hid & Hreq). rewrite Hto in Ht'. injection Ht' as <-.
  apply require_once_ok in Hreq as (_ & Hv & Hsu & Hag & Hse & Har). cbn in Hv, Hsu, Hag, Hse, Har, Hid.
  split; [|split_and!; try done].
  2:{ rewrite Hdec. apply offered_ok. apply select_option_spec in Hsel as (o & ? & ? & _). by exists o. }
  - apply select_option_spec in Hsel as (o & Hin & Ho & Hk). exists o. split; [done|]. split; [done|].
    unfold effective_choice in Hk. destruct (to_choice outcome), (to_policy_recorded outcome); cbn in Hk; set_solver.
  - apply use_ticket_ok_iff. exists t. split; [done|]. split; [done|].
    split; [unfold matches_args; by rewrite Har, String.eqb_refl|]. split; [done|]. by rewrite Hsu.
  - intros request' binding' outcome' now' b Hch' Hto' Hb. apply answer_ok in Hb as (_ & _ & _ & _ & Hb).
    rewrite (Hne _ Hch') in Hb. destruct Hb as (_ & t2 & Ht2 & _ & Hr2). rewrite Hto' in Ht2. injection Ht2 as <-.
    by apply require_once_ok in Hr2 as (_ & Hv2 & _).
Qed.

(** An allow needs a ticket, a refusal needs none, and without an option that
    expresses the choice there is no answer. *)
Theorem unexpressible_choice_has_no_answer request binding outcome :
  select_option request (effective_choice outcome) = None →
  bridge_answer request binding outcome =
    Err (BeNoOfferedOption (if bool_decide (effective_choice outcome = ChReject) then "reject" else card_vocabulary (effective_choice outcome))).
Proof.
  unfold bridge_answer, effective_choice. intros Hn.
  destruct (to_choice outcome), (to_policy_recorded outcome);
    repeat first [rewrite bool_decide_eq_true_2 by done | rewrite bool_decide_eq_false_2 by (done || by intros [])]; by rewrite Hn.
Qed.
End allow.

Definition quiet_debug : BridgeDebug := {| bridge_debug s := s |}.

(** ** The strict resolver *)

(** What the resolver sends is always an offered id; without a pinned id it is
    an option of the decision's own kind. *)
Theorem resolver_sends_offered_ids request decision id :
  bridge_resolve request decision = Ok id →
  ∃ o, o ∈ pr_options request ∧ po_option_id o = id ∧
    match decision with
    | PdAllow None => po_kind o = AllowOnce
    | PdDeny None => po_kind o = RejectOnce ∨ po_kind o = RejectAlways
    | PdAllow (Some pinned) | PdDeny (Some pinned) => id = pinned
    end.
Proof.
  assert (Hoff : ∀ pinned, offered_id request pinned = Ok id → ∃ o, o ∈ pr_options request ∧ po_option_id o = id ∧ id = pinned).
  { intros pinned. unfold offered_id. destruct (List.find _ _) as [o|] eqn:E; [|done]. intros [= <-].
    apply List.find_some in E as [Hin He]. apply String.eqb_eq in He. exists o. split; [by apply list_elem_of_In | done]. }
  destruct decision as [[pinned|]|[pinned|]]; cbn [bridge_resolve]; [by apply Hoff| |by apply Hoff|].
  - destruct (select_option request ChOnce) as [x|] eqn:E; [|done]. intros [= <-].
    apply select_option_spec in E as (o & ? & ? & Hk). exists o. split; [done|]. split; [done|]. cbn in Hk. set_solver.
  - destruct (select_option request ChReject) as [x|] eqn:E; [|done]. intros [= <-].
    apply select_option_spec in E as (o & ? & ? & Hk). exists o. split; [done|]. split; [done|]. cbn in Hk. set_solver.
Qed.

Definition some_call : ToolCall :=
  {| tc_tool_call_id := "tc1"; tc_title := "Edit a.rs"; tc_kind := Some KEdit; tc_content := []; tc_locations := ["file:///w/a.rs"];
     tc_raw_input := None |}.
Definition two_options : list PermissionOption :=
  [{| po_option_id := "allow-once"; po_kind := AllowOnce; po_label := "Allow" |};
   {| po_option_id := "reject-once"; po_kind := RejectOnce; po_label := "Reject" |}].
Definition some_request : PermissionRequestParams := {| pr_session_id := "s1"; pr_tool_call := some_call; pr_options := two_options |}.

(** An absent id is never made up: without an option of the kind the resolver
    refuses. *)
Theorem absent_option_is_not_synthesized request :
  pr_options request = [] →
  bridge_resolve request (PdAllow None) = Err (BeNoOfferedOption "allow_once") ∧
  bridge_resolve request (PdDeny None) = Err (BeNoOfferedOption "reject").
Proof. intros H. unfold bridge_resolve, select_option. rewrite H. by vm_compute. Qed.

(** A denial that pins an offered id is not checked for the id's kind: it is
    answered with the allow option. *)
Theorem pinned_denial_may_allow : bridge_resolve some_request (PdDeny (Some "allow-once")) = Ok "allow-once".
Proof. done. Qed.

Definition some_ticket : AuthorizationTicket :=
  {| ticket_id := "tkt:1"; agent_id := "claude-code"; session_id := "s1"; tool_id := "fs.write"; operation := "write"; args_hash := "args-1";
     paths := []; expires_at_ms := 0; single_use := true; approval_source := SHuman; approval_nonce := "n"; risk := Medium; audit_seq := 1;
     state := Approved; bindings := []; execution_id := ""; action_id := ""; idempotency_key := "" |}.
Definition some_binding : TicketBinding := {| tb_agent_id := "claude-code"; tb_session_id := "s1"; tb_args_hash := "args-1" |}.
Lemma allow_is_backed_by_a_spendable_ticket_witness :
  ∃ a, @bridge_answer quiet_debug some_request some_binding (outcome_always (from_ticket 7 some_ticket) false "") = Ok a ∧
    ba_option_id a = "allow-once" ∧ ba_narrowed a = true ∧
    (@use_ticket plain_digest 7 (put_ticket ticket_store_new "tkt:1" some_ticket) "tkt:1" "args-1").1 = Ok tt.
Proof.
  eexists. split; [reflexivity|]. split; [reflexivity|]. split; [reflexivity|].
  destruct (@allow_is_backed_by_a_spendable_ticket quiet_debug plain_digest some_request some_binding
    (outcome_always (from_ticket 7 some_ticket) false "") _ 7 (put_ticket ticket_store_new "tkt:1" some_ticket) "tkt:1" some_ticket
    eq_refl eq_refl ltac:(done) eq_refl) as (_ & _ & _ & _ & _ & _ & _ & Hu & _).
  exact (f_equal fst Hu).
Defined.

(** ** The preview *)

Lemma clean_word p q s : word p = word q → clean p s → clean q s.
Proof. intros H. destruct s as [|c s]; cbn [clean]; rewrite (span_at_word _ _ _ H); done. Qed.
Lemma shapes_clean text out red : redact_secret_shapes text = (out, red) → clean None out.
Proof. intros H. apply (redacted_clean text). right. by rewrite H. Qed.

Lemma join_from_clean lines first out max t r out' t' r' :
  join_from first out lines max t r = (out', t', r') → clean None out → (first = true → out = "") → clean None out'.
Proof.
  revert first out t r. induction lines as [|line lines IH]; intros first out t r; cbn [join_from]; [by intros [= <- _ _]|].
  intros H Hc Hf. assert (Hc2 : ∀ v, clean None v → clean None ((if first then out else out +:+ nl) +:+ v)).
  { intros v Hv. destruct first; [by rewrite (Hf eq_refl)|]. rewrite app_string_assoc. change (nl +:+ v) with (String NL v).
    apply clean_line; [done|]. by eapply clean_word; [|exact Hv]. }
  destruct (Nat.ltb _ _).
  - injection H as <- _ _. rewrite <-(app_string_nil_r (if first then out else out +:+ nl)). apply Hc2. split; [by apply outside_no_span | done].
  - destruct (redact_secret_shapes line) as [v was] eqn:E. eapply IH; [exact H| |done]. apply Hc2. by eapply shapes_clean.
Qed.
Lemma cap_text_clean text max t out t' r : cap_text text max t = (out, t', r) → clean None out.
Proof. unfold cap_text. destruct (redact_secret_shapes _) as [v was] eqn:E. intros [= <- _ _]. by eapply shapes_clean. Qed.
Lemma preview_paths_clean locations paths t r paths' t' r' :
  preview_paths paths locations t r = (paths', t', r') → Forall (clean None) paths → Forall (clean None) paths'.
Proof.
  revert paths t r. induction locations as [|l locations IH]; intros paths t r; cbn [preview_paths]; [by intros [= <- _ _]|].
  destruct (Nat.leb _ _); [by intros [= <- _ _]|]. destruct (cap_text l _ t) as [[uri t1] r1] eqn:E. intros H Hp.
  eapply IH; [exact H|]. apply Forall_app. split; [done|]. constructor; [by eapply cap_text_clean | done].
Qed.
Lemma script_clean (lines : list string) : Forall (clean None) (map fst (map redact_secret_shapes lines)).
Proof.
  induction lines as [|l lines IH]; cbn; [done|]. constructor; [|done]. destruct (redact_secret_shapes l) eqn:E. by eapply shapes_clean.
Qed.

(** The title, the paths, the diff and the script lines of every preview carry
    no credential literal and no JWT, whatever the agent's request says. *)
Theorem preview_texts_are_redacted to_string request operation risk :
  let p := preview_build to_string request operation risk in
  clean None (pp_title p) ∧ Forall (clean None) (pp_paths p) ∧ clean None (pp_diff p) ∧ Forall (clean None) (pp_script_lines p).
Proof.
  unfold preview_build. destruct (cap_text (tc_title _) _ _) as [[title t1] r1] eqn:E1.
  destruct (preview_paths [] _ t1 r1) as [[paths t2] r2] eqn:E2.
  destruct (render_arguments _ _ _ _ t2) as [[[[[diff script] target] t3] dr] sr] eqn:E3.
  destruct (collect_destinations diff script) as [dest nr]. cbn. split; [by eapply cap_text_clean|].
  split; [by eapply preview_paths_clean; [exact E2|]|]. unfold render_arguments in E3.
  match type of E3 with context [join_bounded ?l ?m ?t] => destruct (join_bounded l m t) as [[d t4] r4] eqn:E4 end.
  injection E3 as <- <- _ _ _ _. split; [|apply script_clean].
  eapply join_from_clean; [exact E4 | | done]. split; [by apply outside_no_span | done].
Qed.

(** The first word of a command is shown as it is: a key that is set in front of
    a command is masked in the script line and not in the target. *)
Definition key_command : PermissionRequestParams :=
  {| pr_session_id := "s1"; pr_options := two_options;
     pr_tool_call := {| tc_tool_call_id := "tc1"; tc_title := "run"; tc_kind := Some KExecute; tc_content := []; tc_locations := [];
                        tc_raw_input := Some (JObject [("command", JString "API_KEY=sk-abcdefgh12345678 claude")]) |} |}.
Theorem execution_target_is_not_redacted :
  let p := preview_build (λ _, "") key_command "exec" High in
  pp_script_lines p = ["API_KEY=[redacted] claude"] ∧ pp_execution_target p = "API_KEY=sk-abcdefgh12345678".
Proof. by vm_compute. Qed.

(** A patch is shown as removed lines, what it adds too. *)
Definition patch_request : PermissionRequestParams :=
  {| pr_session_id := "s1"; pr_options := two_options;
     pr_tool_call := {| tc_tool_call_id := "tc1"; tc_title := "patch"; tc_kind := Some KEdit; tc_content := []; tc_locations := [];
                        tc_raw_input := Some (JObject [("patch", JString ("-old" +:+ nl +:+ "+new"))]) |} |}.
Theorem patch_lines_are_shown_as_removed : pp_diff (preview_build (λ _, "") patch_request "write" Low) = "- -old" +:+ nl +:+ "- +new".
Proof. by vm_compute. Qed.

(** The bound is on what is read, the marker is longer than what it replaces: a
    diff passes its bound. *)
Definition repeat_string (n : nat) (s : string) : string := sconcat (repeat s n).
Theorem diff_passes_its_bound :
  let line := repeat_string 44 "token=a," in
  let request := {| pr_session_id := "s1"; pr_options := two_options;
     pr_tool_call := {| tc_tool_call_id := "tc1"; tc_title := "w"; tc_kind := Some KEdit; tc_content := []; tc_locations := [];
                        tc_raw_input := Some (JObject [("content", JString (join nl (repeat line 9)))]) |} |} in
  Nat.ltb PREVIEW_MAX_DIFF_CHARS (String.length (pp_diff (preview_build (λ _, "") request "write" Low))) = true.
Proof. by vm_compute. Qed.
